(* ===== verification/_CoqProject ===== *)
-Q . S2P
Prelude.v
GoLib.v
GoStrings.v
GoPath.v
Kernel.v
CoordTypes.v
Acyclic.v
Validation.v
GraphSpec.v
Pending.v
Transition.v
TransitionSpec.v
MemoryStore.v
StoreInv.v
RuntimeView.v
RuntimeSpec.v
CommandStore.v
CommandInv.v
StoreReach.v
CoordProps.v
StoreProps.v
LeaseProps.v
GraphRuntime.v
GraphRuntimeSpec.v
ReconcilePlan.v
Scheduler.v
RuntimeProps.v
Idempotency.v
Auth.v
Authenticator.v
Service.v
PlatformProps.v
MergeQueue.v
MergeQueueSpec.v
QueueProps.v
CtxModel.v
CtxSubs.v
CtxCurate.v
CtxReads.v
CtxTasks.v
CtxSpec.v
CtxInv.v
CtxOps.v
CtxCalls.v
CtxReview.v
CtxReach.v
CtxCommit.v
ContextProps.v
WsModel.v
WsPaths.v
WsService.v
WsReach.v
WsProps.v
ObjStore.v
EvLog.v
EvArtifacts.v
EvProps.v
Hoare.v
Catalog.v
Invocation.v
PhaseTypes.v
Phase.v
PhaseInv.v
PhaseProps.v
TaskManager.v
TaskManagerProps.v
FakeHost.v
FakeHostProps.v
UiProjection.v
AgentTeams.v
AgentTeamsProps.v
AgentPhaseHost.v
BindingResolver.v
GitMerge.v
GitMergeProps.v
Reconciler.v
ReconcilerInv.v
ReconcilerClaim.v
ReconcilerProps.v
Findings.v
