(* ===== verification/Prelude.v ===== *)
(** * Threadmill: a verification development

    Threadmill coordinates teams of software agents.  A Task Manager keeps a
    coordination graph: tasks, each with a plan, an execute and a verify
    endpoint, and edges and blockers between endpoints.  A graph runtime
    reconciles the graph with the running agents: it claims a lease and appends a
    command for every endpoint that may start, stops executions the graph no
    longer supports, and folds what the agents report.  A phase controller turns
    each command into the invocation of an agent, with a prompt and tools from a
    catalog, and reports its outcome to the graph.  A scheduler chooses among
    the startable endpoints within capacity and budget.  Requests reach the graph
    through a service that authorises the caller and makes each request
    idempotent.  An endpoint works in a workspace binding, whose phases, writes and
    paths are controlled.  Verified work is merged by a merge queue, whose
    reconciler drives git and records what it did in an event log and an artifact
    registry.  What the agents know
    is kept in a context graph of nodes in general and task subgraphs, which a
    Context Agent curates, to which invocations subscribe, and into which the
    memory of finished tasks is reviewed.

    The development models the in-memory components of that system, in Go under
    [src/internal], as executable Rocq functions, and proves them against
    specifications that mention neither iteration orders nor control flow.

    ** How Go is modelled

    - A function returning [(T, error)] is a function into [result error T]; a
      method that also mutates is a computation of the state monad [M error S T]
      (this file), where an error keeps the state reached.  Nothing is rolled
      back by the monad: that a failed write changes nothing is proved.
    - A mutex-protected method is one atomic step.  Callers that interleave
      between the mutex sections of one method ([MemoryIdempotencyStore.Execute])
      are modelled by an explicit step relation (module [Concurrent] of
      [Idempotency]), with records shared by pointer on a heap.
    - Map iteration order and the order [sort.Slice] gives to equal elements are
      not fixed by the language: they are the operations of the class [GoRuntime]
      ([GoLib]), and every theorem holds for all instances.  [GoRuntime_list] is
      the instance the witnesses compute with.
    - [int] is [Z] with 64-bit wrap-around written out where the code adds,
      [uint64] likewise; floating-point costs are [spec_float]; strings are byte
      strings, with [strings.TrimSpace] on UTF-8.
    - Clocks, random tokens, SHA-256, JSON encodings of requests and answers of
      the file system are arguments; a cancelled context is an argument carrying
      its error.

    ** Files

    - [Prelude], [GoLib]: results, the state monad, hints, integers; what is used
      of Go.
    - [Kernel]: [kernel/errors.go], [id.go], [revision.go].
    - [CoordTypes], [Acyclic], [Validation], [Pending], [Transition]:
      [coordination/types.go], [validation.go], [transition.go].  [GraphSpec]
      states well-formedness, [TransitionSpec] the life cycle of endpoints and
      the abstract graph step.
    - [MemoryStore], with the invariant in [StoreInv]: [memory_store.go].
    - [RuntimeView], [CommandStore]: [recovery.go], [command_store.go],
      [phase_observation.go].  [RuntimeSpec] is the start condition, [CommandInv]
      the invariant of leases and commands and its preservation,
      [StoreReach] the reachable stores ([store_op], [store_step]).
    - [GraphRuntime]: [runtime.go], [runtime_port.go], with the interfaces
      [PhaseController] and [RuntimeSelectionRuntime] as classes.
      [GraphRuntimeSpec] is a small program logic for it, and it and
      [ReconcilePlan] have the proofs.
    - [Scheduler]: [scheduler/scheduler.go], an instance of the selection
      interface.
    - [Idempotency]: [kernel/idempotency.go].
    - [Auth], [Authenticator]: [platform/auth].
    - [Service]: [coordination/service.go], [decision.go].
    - [MergeQueue]: [mergequeue/model.go], [store.go]; [MergeQueueSpec] is the
      queue as atomic events with its invariant, and the refinement.
    - [GoStrings], [GoPath]: what is used of [strings], [strconv] and [path], and
      composite string keys.
    - [WsModel], [WsPaths], [WsService]: [workspace/model.go], [store.go], and the
      path and command policy of [agent_tools.go]; [WsReach] is the invariant of
      the bindings, its steps, and the calls as such steps.
    - [ObjStore]: [platform/objectstore]; [EvLog]: [evidence/eventlog.go];
      [EvArtifacts]: [evidence/artifact.go].  [EvProps] starts with their
      invariants: of the log, what the registry relies on of an object store (with
      the in-memory one as an instance), and the registry under overlapping callers
      that interleave between its lock sections.
    - [Hoare]: weakest preconditions for computations of the state monad.
    - [GitMerge]: [mergequeue/git_merge.go] over the interface [GitHost] of git
      and the file system.
    - [Reconciler]: [mergequeue/reconciler.go]; [ReconcilerInv]: its invariant over
      queue, log and repository; [ReconcilerClaim]: what it leaves alone, its
      claim, what is relied on of git (a class), and that the backend then keeps
      what the reconciler relies on ([MergeLaws]).
    - [Catalog]: [runtime/promptcatalog/catalog.go], with its theorems;
      [Invocation]: [runtime/invocation.go], [policy.go], [envelope.go];
      [PhaseTypes], [Phase]: [runtime/phase/controller.go], [proposal.go] over the
      interfaces [PhaseHost], [RecoveryStore] and [ObservationWriter], and its runs
      ([phase_step]); [PhaseInv]: its invariant.
    - [TaskManager]: [taskmanager/app.go] over the ports of [Options]; [FakeHost]:
      [app/fakehost/app.go], which runs the Task Manager on the coordination
      service and its in-memory store.
    - [AgentTeams]: [adapters/agentteams/adapter.go], [observations.go],
      [client.go], [taskflow.go], [filesync.go], the execution store and the
      operations of the host adapter over the interfaces [Client] and
      [FileTransport].
    - [AgentPhaseHost]: [runtime/phase/agentteams_host.go], the host of the phase
      controller that runs invocations through the adapter, with its theorems.
    - [BindingResolver]: [runtime/phase/context_binding_resolver.go], what an
      invocation starts with, over the in-memory context graph, with its theorems.
    - [UiProjection]: [uiprojection], the snapshot, the inspector and the events that
      an operator's browser is shown, with its theorems.
    - [CtxModel]: [contextgraph/model.go], [permissions.go] and the helpers of
      [store.go]; [CtxSubs]: [subscription.go], [delta_dispatcher.go];
      [CtxCurate]: the mutations of [store.go]; [CtxReads]: the reads of
      [store.go], [slice.go], [snapshot.go]; [CtxTasks]: [task_binding.go],
      [projection.go], [memory_buffer.go] (with a matcher for its two regular
      expressions), [review.go].
    - [CtxSpec]: the invariant of the context graph and its atomic events,
      labelled with the part of the graph they touch; [CtxInv]: events keep the
      invariant; [CtxOps]: a logic for calls as sequences of events;
      [CtxCalls], [CtxReview]: every call in it, and bounded reachability;
      [CtxReach]: reachable stores ([ctx_op], [ctx_steps]); [CtxCommit]: what calls
      keep, commits, clean failures, dispatch, pending deltas and slices.
    - [CoordProps] (with a concrete project history that witnesses evaluate),
      [StoreProps], [LeaseProps], [RuntimeProps], [PlatformProps], [QueueProps],
      [ContextProps], [WsProps], [EvProps], [GitMergeProps], [ReconcilerProps],
      [PhaseProps], [TaskManagerProps], [FakeHostProps], [AgentTeamsProps]: the
      theorems.
    - [Findings]: runs in which the code departs from its documentation or intent.

    ** What the theorems show

    - Graph ([CoordProps]): validation decides well-formedness and its cycle
      search terminates; an accepted transition is one step of the endpoint life
      cycle, keeps edges and results, closes tasks and blockers once, records
      every verdict, and submits only with complete inputs; a replacement stays
      in its scope.
    - Store ([StoreProps]): every reachable graph and every recorded revision is
      well formed; a write commits the next revision or changes nothing; of two
      writes at one revision only the first succeeds; history is immutable,
      projects are isolated, snapshots do not depend on iteration order.
    - Leases ([LeaseProps]): the computed start condition is the specified one;
      a claim is justified and happens at most once per endpoint generation,
      whatever runs in between; leases and commands are exclusive, paired and
      never ahead of the graph; observations and stops are idempotent.
    - Reconciliation and scheduling ([RuntimeProps]): a reconciliation
      terminates, acts only through store operations, stops what the graph no
      longer supports and keeps the capacity limit; a selection fits, is maximal
      and respects an exhausted budget.
    - Platform ([PlatformProps]): among overlapping requests with one key the
      executor succeeds at most once, and all successful callers get its response;
      replays return the recorded response; tool checks, tokens and the
      cross-site guard are exact; the graph changes only for an authorised Task
      Manager with a registered decision.
    - Merge queue ([QueueProps]): exclusive claims and operations, the candidate
      life cycle, first come first served.
    - Context graph ([ContextProps]): the graph stays well formed and typed under
      any interleaving of calls; mutations commit once or change nothing; the
      curator does not reach what belongs to tasks; task memory is collected,
      frozen and reviewed exactly once; exploring is bounded reachability; every
      change is dispatched to exactly the subscriptions that may see it and stays
      pending until it is acknowledged or its subscription ends; slices are what
      the subscriptions grant.
    - Workspaces ([WsProps]): bindings stay well formed, an invocation is active in
      at most one; every call is a step of the phase protocol, is stored only at
      the revision it was computed from, and keeps what is finished; creation is
      all or nothing; a path that may be written is inside the allowed
      directories by name, and the links on it were followed and stay below the root by
      name.
    - Evidence ([EvProps]): an event is recorded once and replays are exact, with
      events appended between the pages; a registered artifact can be read back by
      those it was registered for, and by nobody else.
    - Merging ([GitMergeProps], [ReconcilerProps]): what is prepared and committed
      stays within what the candidate wrote; a push publishes exactly the recorded
      commit or reports what happened; an operation begins only for a sealed
      workspace and a passed verification; what is reported merged is in the
      branch; delivered audits are in the log; the claim is given back.
    - Phases ([PhaseProps], [Catalog]): whatever fails or restarts, every report on
      an invocation is backed by what was done before it, outcomes are final and
      exclusive, agents get no tools beyond their role's and the runtime's, a
      command is applied once, an output whose receipt was persisted before a failure is
      recovered when it is submitted again; skills resolve to a
      topological order exactly when they can, and a loaded catalog serves every
      role.
    - Task Manager ([TaskManagerProps], [FakeHostProps]): every write to the graph is
      covered by a decision persisted before it and by the graph read at its
      revision, a call replies at most once, memory is frozen once; on the real
      service and store an accepted delivery leaves the task done, and an operator
      message has exactly the effect it names.
    - Host adapter ([AgentTeamsProps]): whatever the provider answers, and whatever
      runs while it is waited for, a task is delegated only after its files and its
      host are prepared, a slot is given back only after the authority was revoked or the host told to
      stop, an invocation has at most one execution that may hold a host and none after it
      was canceled, a dispatch that answers is durable; the host chosen is the least
      loaded suitable one; events are reported once each.
    - Phase host ([AgentPhaseHost]): executions are ended only on record; once an
      invocation was stopped, a dispatch or rehydration of it fails, stores nothing and
      asks to cancel what it has started, with the adapter, its store and other calls
      running in between.
    - Bindings ([BindingResolver]): a binding that was taken is used, or given back
      after its invocation is ended; an invocation keeps the context it started from,
      whatever is written to the context graph later.
    - Browser ([UiProjection]): apart from the revision, the cursor and the capacity,
      a snapshot is what it would be if the tasks that are hidden from the operator did
      not exist; the inspector shows one invocation of
      the endpoint and only what the grant allows; each visible event is delivered
      exactly once and in order, page by page or as a stream, while the log grows.

    ** Fuel and bounds

    [Acyclic.visit] recurses on fuel, one more than the number of nodes that
    occur in the graph: every recursive call grows the set on the call stack, so
    the search never runs out ([visit_Err]).  [GraphRuntime.selectLoop] is
    bounded by the number of candidates: a round that claims nothing removes the
    selected candidates, and a round that selects nothing stops.  Running out is
    the error value [Diverged], which no run returns.  [freeSubgraphID] gets one
    number more than there are subgraphs, so a free one is among them; the
    subscription loop of the code tries two numbers and then the second for
    ever, which [nextSubscriptionID] gives as [Diverged], and
    [identifier_loops_terminate] shows the first number is always free.
    [Catalog.visitSkill] gets as much fuel as there are skills: the stack only has
    known skills, each once ([visitSkill_ok]).  Waiting on the condition variable
    of [Phase] is [Diverged] too, and [controller_never_blocks] excludes it.
    A page of [UiProjection.readEvents] reads the log again until nothing is new:
    as many reads as there are events in the log it grows to, and one more, are
    enough ([readEvents_run]).
    [Explore] iterates [depth] times over the levels, as the code does, and the
    link resolution of [WsModel] follows 32 links, the limit of the code.  The
    capacity theorems assume capacities up to 2^62 - 1 ([int_half]), since the code adds costs in
    64-bit integers; with larger capacities the sum can wrap around.

    ** Not modelled

    One plan of the graph runtime runs without other writers between its calls of the
    store ([RuntimeProps]).  Values are copied on every read and write, so the deep
    copies of the context graph ([cloneLocked], [replaceLocked]) are the identity, and
    what code that forgot to copy would share is not expressed.  A restart of the phase
    controller happens between its calls and keeps the invocation store, as a durable
    one would ([phase_step]); a crash inside a call is a call whose collaborators fail
    from some point on.  The targeted verifier of the merge queue is any function on the
    clone and the artifacts.

    PostgreSQL stores (SQL run by a server), HTTP and MCP transport, process
    wiring and configuration ([app/production_*.go] build the components above and
    drive them from SQL and provider state), provider clients, prompting, the goroutine
    and channels of an event subscription, the front end and vendored code.  Paths are those of a system
    whose separator is the slash; the quoting of values inside error texts is not
    reproduced.  Overlapping dispatches of one reference, which
    [Adapter.dispatchOnce] coalesces, are modelled only as calls that do not overlap;
    so are the calls that the binding resolver coalesces.  The Context Agent's
    retrieval, the git backend of the workspaces and the outbox are left out.  The phase
    controller is proved for every implementation of its interfaces, and the graph
    runtime knows its phase controller as an interface whose effects on the store are
    store operations. *)

From stdpp Require Import base tactics option list strings gmap sorting pretty.
From Stdlib Require Import ZArith.

Declare Scope go_scope.
Delimit Scope go_scope with go.

(** ** Results and errors

    A Go function returning [(T, error)] is a function into [result E T]: the
    code always tests the error before it uses the value. *)

Inductive result (E A : Type) : Type :=
| Ok (a : A)
| Err (e : E).
Arguments Ok {E A} a.
Arguments Err {E A} e.

#[global] Instance result_ret {E} : MRet (result E) := fun A a => Ok a.
#[global] Instance result_bind {E} : MBind (result E) := fun A B k m =>
  match m with Ok a => k a | Err e => Err e end.

#[global] Instance result_eq_dec {E A} `{EqDecision E, EqDecision A} : EqDecision (result E A).
Proof. solve_decision. Defined.

Definition is_ok {E A} (r : result E A) : bool :=
  match r with Ok _ => true | Err _ => false end.

(** [if cond { return err }]. *)
Definition fail_if {E} (b : bool) (e : E) : result E unit :=
  if b then Err e else Ok tt.

(** [for _, x := range l { if err := f(x); err != nil { return err } }]. *)
Fixpoint each {E A} (f : A -> result E unit) (l : list A) : result E unit :=
  match l with
  | [] => Ok tt
  | x :: l' => f x ≫= fun _ => each f l'
  end.

(** The same loop carrying an accumulator. *)
Fixpoint foldM {E A B} (f : B -> A -> result E B) (b : B) (l : list A) : result E B :=
  match l with
  | [] => Ok b
  | x :: l' => f b x ≫= fun b' => foldM f b' l'
  end.

(** Stateful operations keep the state they reached when they fail: Go has no
    rollback. *)
Definition M (E S A : Type) : Type := S -> result E A * S.

#[global] Instance M_ret {E S} : MRet (M E S) := fun A a s => (Ok a, s).
#[global] Instance M_bind {E S} : MBind (M E S) := fun A B k m s =>
  match m s with
  | (Ok a, s') => k a s'
  | (Err e, s') => (Err e, s')
  end.

Definition lift {E S A} (r : result E A) : M E S A := fun s => (r, s).
Definition get_state {E S} : M E S S := fun s => (Ok s, s).
Definition put_state {E S} (s : S) : M E S unit := fun _ => (Ok tt, s).
Definition modify {E S} (f : S -> S) : M E S unit := fun s => (Ok tt, f s).
Definition throw {E S A} (e : E) : M E S A := fun s => (Err e, s).

(** [if err := m; err != nil { return handler(err) }]. *)
Definition catch {E S A} (m : M E S A) (handler : E -> M E S A) : M E S A := fun s =>
  match m s with
  | (Ok a, s') => (Ok a, s')
  | (Err e, s') => handler e s'
  end.

(** A stateful loop over a slice. *)
Fixpoint eachM {E S A} (f : A -> M E S unit) (l : list A) : M E S unit :=
  match l with
  | [] => mret tt
  | x :: l' => f x ≫= fun _ => eachM f l'
  end.

(** The same loop carrying an accumulator. *)
Fixpoint foldMM {E S A B} (f : B -> A -> M E S B) (b : B) (l : list A) : M E S B :=
  match l with
  | [] => mret b
  | x :: l' => f b x ≫= fun b' => foldMM f b' l'
  end.

Section bind_lemmas.
Context {E A B : Type}.
Implicit Types (m : result E A) (e : E).

Lemma bind_Ok (m : result E A) (k : A -> result E B) b :
  m ≫= k = Ok b <-> exists a, m = Ok a /\ k a = Ok b.
Proof. destruct m; simpl; naive_solver. Qed.

Lemma bind_Err (m : result E A) (k : A -> result E B) e :
  m ≫= k = Err e <-> m = Err e \/ exists a, m = Ok a /\ k a = Err e.
Proof. destruct m; simpl; naive_solver. Qed.
End bind_lemmas.

Section loop_lemmas.
Context {E A B : Type}.
Implicit Types (e : E).

Lemma fail_if_Ok (b : bool) e u : fail_if b e = Ok u <-> b = false.
Proof. destruct b, u; simpl; naive_solver. Qed.

Lemma guard_Ok (P : Prop) `{!Decision P} e u : fail_if (bool_decide P) e = Ok u <-> ~ P.
Proof. by rewrite fail_if_Ok, bool_decide_eq_false. Qed.

Lemma guard_not_Ok (P : Prop) `{!Decision P} e u : fail_if (bool_decide (~ P)) e = Ok u <-> P.
Proof. rewrite guard_Ok. split; [apply dec_stable|tauto]. Qed.

Lemma fail_if_Err (b : bool) e e' : fail_if b e = Err e' <-> b = true /\ e' = e.
Proof. destruct b; simpl; naive_solver. Qed.

Lemma each_Ok (f : A -> result E unit) l u :
  each f l = Ok u <-> forall x, x ∈ l -> f x = Ok tt.
Proof.
  destruct u. induction l as [|x l IH]; simpl; [set_solver|].
  split.
  - destruct (f x) as [[]|e] eqn:Hx; simpl; [|done].
    intros Hl y [->|Hy]%elem_of_cons; [done|]. by apply IH.
  - intros Hf. rewrite (Hf x) by set_solver. simpl. apply IH. set_solver.
Qed.

Lemma each_Err (f : A -> result E unit) l e :
  each f l = Err e -> exists x, x ∈ l /\ f x = Err e.
Proof.
  induction l as [|x l IH]; simpl; [done|].
  destruct (f x) as [u|e'] eqn:Hx; simpl; [|set_solver].
  intros (y & ? & ?)%IH. set_solver.
Qed.

Lemma each_not_Ok (f : A -> result E unit) l x :
  x ∈ l -> f x <> Ok tt -> exists e, each f l = Err e.
Proof.
  intros Hin Hx. destruct (each f l) as [u|e] eqn:He; [|by eauto].
  rewrite each_Ok in He. exfalso. by apply Hx, He.
Qed.

Lemma foldM_app (f : B -> A -> result E B) b l1 l2 :
  foldM f b (l1 ++ l2) = foldM f b l1 ≫= fun b' => foldM f b' l2.
Proof.
  revert b. induction l1 as [|x l1 IH]; intros b; simpl; [done|].
  destruct (f b x); simpl; auto.
Qed.

Lemma foldM_Ok_ind (P : B -> list A -> Prop) (f : B -> A -> result E B) b0 l b :
  P b0 [] ->
  (forall l1 x l2 b1 b2, l = l1 ++ x :: l2 -> P b1 l1 -> f b1 x = Ok b2 -> P b2 (l1 ++ [x])) ->
  foldM f b0 l = Ok b -> P b l.
Proof.
  intros H0 Hstep.
  cut (forall done rest b1, l = done ++ rest -> P b1 done -> foldM f b1 rest = Ok b -> P b l).
  { intros Hcut. by apply (Hcut [] l b0). }
  intros done rest. revert done.
  induction rest as [|x rest IH]; intros done b1 -> Hdone; simpl.
  - rewrite app_nil_r. intros [= <-]. done.
  - rewrite bind_Ok. intros (b2 & Hf & Hrest).
    apply (IH (done ++ [x]) b2); [by rewrite <- app_assoc| |done].
    eapply Hstep; eauto.
Qed.
(** A fact every successful step establishes of its element. *)
Lemma foldM_Ok_forall (f : B -> A -> result E B) (P : A -> Prop) b l b' :
  (forall b1 x b2, f b1 x = Ok b2 -> P x) ->
  foldM f b l = Ok b' -> forall x, x ∈ l -> P x.
Proof.
  intros Hf. revert b. induction l as [|y l IH]; intros b; simpl; [by intros _ ? ?%elem_of_nil|].
  rewrite bind_Ok. intros (b1 & Hy & Hl) x [->|Hx]%elem_of_cons; [by eapply Hf|by eapply IH].
Qed.
End loop_lemmas.

(** ** Hoare-style reasoning on stateful operations *)

Definition preserves {E S A} (I : S -> Prop) (m : M E S A) : Prop :=
  forall s, I s -> I (snd (m s)).

Definition readonly {E S A} (m : M E S A) : Prop := forall s, snd (m s) = s.

Section state_lemmas.
Context {E S A B : Type}.
Implicit Types (I : S -> Prop).

Lemma M_bind_Ok (m : M E S A) (k : A -> M E S B) s b s' :
  (m ≫= k) s = (Ok b, s') <-> exists a s1, m s = (Ok a, s1) /\ k a s1 = (Ok b, s').
Proof.
  unfold mbind, M_bind. destruct (m s) as [[a|e] s1]; naive_solver.
Qed.

Lemma M_bind_Err (m : M E S A) (k : A -> M E S B) s e s' :
  (m ≫= k) s = (Err e, s') <->
    m s = (Err e, s') \/ exists a s1, m s = (Ok a, s1) /\ k a s1 = (Err e, s').
Proof.
  unfold mbind, M_bind. destruct (m s) as [[a|e'] s1]; naive_solver.
Qed.

Lemma preserves_bind I (m : M E S A) (k : A -> M E S B) :
  preserves I m -> (forall a, preserves I (k a)) -> preserves I (m ≫= k).
Proof.
  intros Hm Hk s Hs. specialize (Hm s Hs). unfold mbind, M_bind.
  destruct (m s) as [[a|e] s1]; [by apply Hk|done].
Qed.

Lemma preserves_readonly I (m : M E S A) : readonly m -> preserves I m.
Proof. intros Hm s Hs. by rewrite Hm. Qed.

Lemma readonly_bind (m : M E S A) (k : A -> M E S B) :
  readonly m -> (forall a, readonly (k a)) -> readonly (m ≫= k).
Proof.
  intros Hm Hk s. specialize (Hm s). unfold mbind, M_bind.
  destruct (m s) as [[a|e] s1]; simpl in *; subst; [apply Hk|done].
Qed.

Lemma readonly_lift (r : result E A) : readonly (@lift E S A r).
Proof. done. Qed.

Lemma readonly_get : readonly (@get_state E S).
Proof. done. Qed.

Lemma readonly_ret (a : A) : readonly (mret a : M E S A).
Proof. done. Qed.

Lemma readonly_throw (e : E) : readonly (@throw E S A e).
Proof. done. Qed.

Lemma preserves_modify I (f : S -> S) :
  (forall s, I s -> I (f s)) -> preserves I (@modify E S f).
Proof. intros Hf s. apply Hf. Qed.
End state_lemmas.

Lemma preserves_eachM {E S A} (I : S -> Prop) (f : A -> M E S unit) l :
  (forall x, x ∈ l -> preserves I (f x)) -> preserves I (eachM f l).
Proof.
  induction l as [|x l IH]; simpl; intros Hf.
  - apply preserves_readonly, readonly_ret.
  - apply preserves_bind; [|intros _; apply IH; intros y Hy]; apply Hf; set_solver.
Qed.

Create HintDb threadmill.
#[export] Hint Resolve readonly_lift readonly_get readonly_ret readonly_throw : threadmill.
#[export] Hint Resolve preserves_readonly preserves_bind readonly_bind : threadmill.

(** [res_inv] takes a successful run apart, one bind, guard or loop at a time. *)
Ltac res_inv1 :=
  match goal with
  | H : @mbind (result _) _ _ _ _ _ = Ok _ |- _ => apply bind_Ok in H as (? & ? & H)
  | H : @mbind (M _ _) _ _ _ _ _ _ = (Ok _, _) |- _ => apply M_bind_Ok in H as (? & ? & ? & H)
  | H : fail_if _ _ = Ok _ |- _ => apply fail_if_Ok in H
  | H : each _ _ = Ok _ |- _ => rewrite each_Ok in H
  | H : lift _ _ = (_, _) |- _ => unfold lift in H; apply pair_equal_spec in H as [? ?]
  | H : throw _ _ = (Ok _, _) |- _ => discriminate H
  | H : @mret (M _ _) _ _ _ _ = (_, _) |- _ => apply pair_equal_spec in H as [? ?]
  | H : Ok _ = Ok _ |- _ => injection H as H
  | H : Ok _ = Err _ |- _ => discriminate H
  | H : Err _ = Ok _ |- _ => discriminate H
  | u : unit |- _ => destruct u
  end.
Ltac res_inv := repeat (res_inv1; subst).

(** ** Booleans that decide the code's conditions *)

Ltac bool_inv1 :=
  match goal with
  | H : bool_decide _ = true |- _ => apply bool_decide_eq_true in H
  | H : bool_decide _ = false |- _ => apply bool_decide_eq_false in H
  | H : andb _ _ = true |- _ => apply andb_true_iff in H as [? ?]
  | H : andb _ _ = false |- _ => apply andb_false_iff in H
  | H : orb _ _ = false |- _ => apply orb_false_iff in H as [? ?]
  | H : orb _ _ = true |- _ => apply orb_true_iff in H
  | H : negb _ = true |- _ => apply negb_true_iff in H
  | H : negb _ = false |- _ => apply negb_false_iff in H
  | H : ¬ ¬ _ |- _ => apply dec_stable in H
  end.
Ltac bool_inv := repeat bool_inv1.

Lemma existsb_elem {A} (f : A -> bool) l :
  existsb f l = true <-> exists x, x ∈ l /\ f x = true.
Proof. rewrite existsb_exists. by setoid_rewrite list_elem_of_In. Qed.

Lemma existsb_elem_false {A} (f : A -> bool) l :
  existsb f l = false <-> forall x, x ∈ l -> f x = false.
Proof.
  rewrite <- not_true_iff_false, existsb_elem. split.
  - intros Hn x Hx. apply not_true_iff_false. naive_solver.
  - intros Hn (x & Hx & Ht). by rewrite Hn in Ht.
Qed.

Lemma forallb_elem {A} (f : A -> bool) l :
  forallb f l = true <-> forall x, x ∈ l -> f x = true.
Proof. rewrite forallb_forall. by setoid_rewrite list_elem_of_In. Qed.

(** ** Machine integers

    [int] is 64 bits wide on the deployment targets; [Revision] is [uint64]. *)

Definition int_max : Z := 9223372036854775807.
Definition int_min : Z := -9223372036854775808.
Definition int_wrap (z : Z) : Z := (z - int_min) mod 18446744073709551616 + int_min.
Definition uint64_wrap (z : Z) : Z := z mod 18446744073709551616.

Definition is_int (z : Z) : Prop := (int_min <= z <= int_max)%Z.
Definition is_uint64 (z : Z) : Prop := (0 <= z < 18446744073709551616)%Z.

Lemma int_wrap_id z : is_int z -> int_wrap z = z.
Proof.
  unfold is_int, int_wrap, int_min, int_max. intros ?.
  rewrite Z.mod_small; lia.
Qed.

Lemma int_wrap_is_int z : is_int (int_wrap z).
Proof.
  unfold is_int, int_wrap, int_min, int_max.
  pose proof (Z.mod_pos_bound (z - -9223372036854775808) 18446744073709551616). lia.
Qed.

Lemma int_wrap_succ_pos z :
  is_int z -> (0 < z)%Z -> (0 < int_wrap (z + 1))%Z -> int_wrap (z + 1) = (z + 1)%Z.
Proof.
  intros Hz Hp Hw. destruct (decide (z = int_max)) as [->|Hne].
  - vm_compute in Hw. discriminate.
  - apply int_wrap_id. unfold is_int, int_max, int_min in *. lia.
Qed.

Lemma uint64_wrap_id z : is_uint64 z -> uint64_wrap z = z.
Proof. unfold is_uint64, uint64_wrap. intros. rewrite Z.mod_small; lia. Qed.

Lemma uint64_wrap_is z : is_uint64 (uint64_wrap z).
Proof.
  unfold is_uint64, uint64_wrap. pose proof (Z.mod_pos_bound z 18446744073709551616). lia.
Qed.

(** Instants are integers counted from Go's zero time; durations are in
    nanoseconds. *)
Abbreviation Time := Z.
Definition time_zero : Time := 0%Z.
Definition hour : Z := 3600000000000.
