(* ===== verification/GoLib.v ===== *)
(** * What the sources use of the Go language and its standard library

    Map iteration order and [sort.Slice] are not determined by the language:
    they are the operations of the class [GoRuntime], whose laws are all that
    the theorems may use of them.  [GoRuntime_list] is the executable instance
    the witnesses compute with.  The rest is deterministic: [strings.TrimSpace]
    on UTF-8 bytes, string order, [%d] formatting and [sort.SliceStable]. *)

From stdpp Require Import base tactics option list strings gmap sorting pretty.
From Stdlib Require Import ZArith Ascii.
From S2P Require Import Prelude.

(** ** Sorting *)

(** The order a comparison function sorts by: [x] may precede [y] when [y] is
    not less than [x]. *)
Definition sorts_by {A} (less : A -> A -> bool) (x y : A) : Prop := less y x = false.

#[global] Instance sorts_by_dec {A} (less : A -> A -> bool) : RelDecision (sorts_by less).
Proof. unfold sorts_by. intros x y. apply _. Defined.

(** The contract [sort.Slice] puts on its argument: a strict weak order. *)
Class LessOk {A} (less : A -> A -> bool) : Prop := {
  less_ok_trans :: Transitive (sorts_by less);
  less_ok_total :: Total (sorts_by less);
}.

Fixpoint insert_stable {A} (less : A -> A -> bool) (x : A) (l : list A) : list A :=
  match l with
  | [] => [x]
  | y :: l' => if less y x then y :: insert_stable less x l' else x :: y :: l'
  end.

(** [sort.SliceStable]. *)
Definition sort_stable {A} (less : A -> A -> bool) (l : list A) : list A :=
  foldr (insert_stable less) [] l.

Section sort_stable.
Context {A} (less : A -> A -> bool).

Lemma insert_stable_perm x l : insert_stable less x l ≡ₚ x :: l.
Proof.
  induction l as [|y l IH]; simpl; [done|].
  destruct (less y x); [|done]. rewrite IH. apply Permutation_swap.
Qed.

Lemma sort_stable_perm l : sort_stable less l ≡ₚ l.
Proof.
  induction l as [|x l IH]; simpl; [done|]. by rewrite insert_stable_perm, IH.
Qed.

Lemma insert_stable_sorted `{!LessOk less} x l :
  StronglySorted (sorts_by less) l -> StronglySorted (sorts_by less) (insert_stable less x l).
Proof.
  induction l as [|y l IH]; simpl; intros Hs.
  { repeat constructor. }
  inversion Hs as [|? ? Hl Hall]; subst. destruct (less y x) eqn:Hyx.
  - constructor; [by apply IH|]. rewrite insert_stable_perm. constructor; [|done].
    destruct (total (sorts_by less) y x) as [?|Hxy]; [done|]. unfold sorts_by in Hxy. congruence.
  - constructor; [done|]. constructor; [done|].
    eapply Forall_impl; [exact Hall|]. intros z Hz. by transitivity y.
Qed.

Lemma sort_stable_sorted `{!LessOk less} l : StronglySorted (sorts_by less) (sort_stable less l).
Proof.
  induction l as [|x l IH]; simpl; [constructor|]. by apply insert_stable_sorted.
Qed.
End sort_stable.

(** ** Unspecified iteration order and unstable sorting *)

Class GoRuntime := {
  range_map : forall {K V} `{EqDecision K} `{!Countable K}, gmap K V -> list (K * V);
  range_map_perm : forall {K V} `{EqDecision K} `{!Countable K} (m : gmap K V),
    range_map m ≡ₚ map_to_list m;
  sort_slice : forall {A}, (A -> A -> bool) -> list A -> list A;
  sort_slice_perm : forall {A} (less : A -> A -> bool) l, sort_slice less l ≡ₚ l;
  sort_slice_sorted : forall {A} (less : A -> A -> bool) `{!LessOk less} l,
    StronglySorted (sorts_by less) (sort_slice less l);
}.

#[global] Program Instance GoRuntime_list : GoRuntime := {|
  range_map K V _ _ m := map_to_list m;
  sort_slice A less l := sort_stable less l;
|}.
Next Obligation. done. Qed.
Next Obligation. intros. apply sort_stable_perm. Qed.
Next Obligation. intros. by apply sort_stable_sorted. Qed.

Definition range_values `{GoRuntime} {K V} `{Countable K} (m : gmap K V) : list V :=
  (range_map m).*2.
Definition range_keys `{GoRuntime} {K V} `{Countable K} (m : gmap K V) : list K :=
  (range_map m).*1.

Section range.
Context `{GR : GoRuntime} {K V : Type} `{Countable K}.
Implicit Types m : gmap K V.

Lemma elem_of_range_map m k v : (k, v) ∈ range_map m <-> m !! k = Some v.
Proof. by rewrite range_map_perm, elem_of_map_to_list. Qed.

Lemma elem_of_range_values m v : v ∈ range_values m <-> exists k, m !! k = Some v.
Proof.
  unfold range_values. rewrite list_elem_of_fmap. split.
  - intros ([k w] & -> & Hin). exists k. by apply elem_of_range_map.
  - intros (k & Hk). exists (k, v). by rewrite elem_of_range_map.
Qed.

Lemma elem_of_range_keys m k : k ∈ range_keys m <-> is_Some (m !! k).
Proof.
  unfold range_keys. rewrite list_elem_of_fmap. split.
  - intros ([k' w] & -> & Hin). exists w. by apply elem_of_range_map.
  - intros (v & Hk). exists (k, v). by rewrite elem_of_range_map.
Qed.

Lemma NoDup_range_keys m : NoDup (range_keys m).
Proof.
  unfold range_keys.
  rewrite (fmap_Permutation fst _ _ (range_map_perm m)). apply NoDup_fst_map_to_list.
Qed.

Lemma length_range_map m : length (range_map m) = size m.
Proof. rewrite range_map_perm. apply length_map_to_list. Qed.

Lemma NoDup_filter_keys (P : K * V -> Prop) `{!forall x, Decision (P x)} (l : list (K * V)) :
  NoDup l.*1 -> NoDup (filter P l).*1.
Proof.
  induction l as [|x l IH]; [done|]. rewrite fmap_cons, NoDup_cons, filter_cons. intros [Hx Hl].
  destruct (decide (P x)); [|by apply IH]. rewrite fmap_cons. constructor; [|by apply IH].
  rewrite list_elem_of_fmap. intros (y & Heq & [_ Hy]%list_elem_of_filter). apply Hx.
  rewrite Heq. by apply list_elem_of_fmap_2.
Qed.

(** Counting the values with a property. *)
Lemma length_filter_values (P : V -> Prop) `{!forall v, Decision (P v)} m :
  length (filter P (range_values m)) = size (filter (fun kv : K * V => P kv.2) m).
Proof.
  unfold range_values. rewrite <- length_map_to_list, map_filter_alt.
  rewrite map_to_list_to_map by apply NoDup_filter_keys, NoDup_fst_map_to_list.
  rewrite (filter_Permutation _ _ _ (fmap_Permutation snd _ _ (range_map_perm m))).
  induction (map_to_list m) as [|[k v] l IH]; [done|]. rewrite fmap_cons, !filter_cons. simpl.
  destruct (decide (P v)); simpl; by rewrite IH.
Qed.

Lemma list_to_map_range m : list_to_map (range_map m) = m.
Proof.
  rewrite <- (list_to_map_to_list m) at 2. apply list_to_map_proper.
  - apply NoDup_range_keys.
  - apply range_map_perm.
Qed.
End range.

(** ** Loops that rewrite the map they range over

    [for k, v := range m { m[k] = ... }] and [for k, v := range m { delete(m, k) }]
    touch only the current key, so the order does not matter. *)

Definition range_update `{GoRuntime} {K V} `{Countable K} (f : K -> V -> option V) (m : gmap K V) : gmap K V :=
  foldl (fun acc kv => match f kv.1 kv.2 with Some v' => <[kv.1 := v']> acc | None => acc end) m (range_map m).

Definition range_delete `{GoRuntime} {K V} `{Countable K} (p : K -> V -> bool) (m : gmap K V) : gmap K V :=
  foldl (fun acc kv => if p kv.1 kv.2 then delete kv.1 acc else acc) m (range_map m).

Section range_loops.
Context `{GR : GoRuntime} {K V : Type} `{Countable K}.
Implicit Types m : gmap K V.

(** A loop whose step at a key changes only that key. *)
Lemma lookup_range_fold (g : gmap K V -> K * V -> gmap K V) (h : K -> V -> option V) m k :
  (forall acc kv, g acc kv !! kv.1 = h kv.1 kv.2 \/ (g acc kv = acc /\ h kv.1 kv.2 = Some kv.2)) ->
  (forall acc kv k', k' <> kv.1 -> g acc kv !! k' = acc !! k') ->
  foldl g m (range_map m) !! k = match m !! k with Some v => h k v | None => None end.
Proof.
  intros Hsame Hother.
  assert (forall l acc, NoDup l.*1 -> (forall kv, kv ∈ l -> acc !! kv.1 = Some kv.2) ->
    foldl g acc l !! k = match list_find (fun kv : K * V => kv.1 = k) l with
                         | Some (_, kv) => h k kv.2 | None => acc !! k end) as Hl.
  { induction l as [|kv l IH]; intros acc Hnd Hacc; [done|].
    rewrite fmap_cons, NoDup_cons in Hnd. destruct Hnd as [Hk Hnd]. cbn [foldl list_find].
    rewrite IH; [|done|].
    2:{ intros kv' Hin. rewrite Hother; [apply Hacc; by right|].
        intros Heq. apply Hk. rewrite <- Heq. by apply list_elem_of_fmap_2. }
    destruct (decide (kv.1 = k)) as [<-|Hne].
    - destruct (list_find _ l) as [[i kv']|] eqn:Hf; cbn.
      + apply list_find_Some in Hf as (Hi & Heq & _). exfalso. apply Hk. rewrite <- Heq.
        by eapply list_elem_of_fmap_2, list_elem_of_lookup_2.
      + destruct (Hsame acc kv) as [?|[-> ->]]; [done|]. apply Hacc. by left.
    - destruct (list_find _ l) as [[i kv']|]; cbn; [done|]. by apply Hother, not_eq_sym. }
  rewrite Hl; [|apply NoDup_range_keys|by intros [k' v'] ?%elem_of_range_map].
  destruct (list_find _ _) as [[i [k' v]]|] eqn:Hf.
  - apply list_find_Some in Hf as (Hi & Heq & _). cbn in *. subst k'.
    apply list_elem_of_lookup_2, elem_of_range_map in Hi. by rewrite Hi.
  - destruct (m !! k) as [v|] eqn:Hm; [|done]. exfalso.
    apply list_find_None in Hf. rewrite Forall_forall in Hf. apply (Hf (k, v)); [|done].
    by apply elem_of_range_map.
Qed.

Lemma lookup_range_update (f : K -> V -> option V) m k :
  range_update f m !! k = match m !! k with Some v => Some (default v (f k v)) | None => None end.
Proof.
  apply (lookup_range_fold _ (fun k v => Some (default v (f k v)))).
  - intros acc kv. destruct (f kv.1 kv.2); [left; by rewrite lookup_insert_eq|by right].
  - intros acc kv k' Hne. destruct (f kv.1 kv.2); [by rewrite lookup_insert_ne|done].
Qed.

Lemma lookup_range_delete (p : K -> V -> bool) m k :
  range_delete p m !! k = match m !! k with Some v => if p k v then None else Some v | None => None end.
Proof.
  apply (lookup_range_fold _ (fun k v => if p k v then None else Some v)).
  - intros acc kv. destruct (p kv.1 kv.2); [left; by rewrite lookup_delete_eq|by right].
  - intros acc kv k' Hne. destruct (p kv.1 kv.2); [by rewrite lookup_delete_ne|done].
Qed.
End range_loops.

(** Two sorted permutations agree when the order separates the elements. *)
Lemma sorted_perm_unique {A} (less : A -> A -> bool) `{!LessOk less} (l1 l2 : list A) :
  (forall x y, x ∈ l1 -> y ∈ l1 -> sorts_by less x y -> sorts_by less y x -> x = y) ->
  StronglySorted (sorts_by less) l1 -> StronglySorted (sorts_by less) l2 ->
  l1 ≡ₚ l2 -> l1 = l2.
Proof.
  intros Hanti H1 H2 Hp. eapply StronglySorted_unique_strong; [|exact H1|exact H2|exact Hp].
  intros x y Hx Hy. apply Hanti; [done|]. by rewrite Hp.
Qed.

(** ** Strings *)

Definition string_lt (s t : string) : bool := String.ltb s t.

Lemma string_lt_false s t : string_lt s t = false <-> String.le t s.
Proof.
  unfold string_lt, String.ltb, String.le, String.leb.
  rewrite (String.compare_antisym t s).
  destruct (String.compare s t); simpl; split; done.
Qed.

#[global] Instance string_lt_ok : LessOk string_lt.
Proof.
  split; unfold sorts_by.
  - intros x y z. rewrite !string_lt_false. by apply transitivity.
  - intros x y. rewrite !string_lt_false. apply total, _.
Qed.

(** Sorting by a string key. *)
#[global] Instance key_less_ok {A} (key : A -> string) : LessOk (fun x y => string_lt (key x) (key y)).
Proof.
  split; unfold sorts_by.
  - intros x y z. rewrite !string_lt_false. by apply transitivity.
  - intros x y. rewrite !string_lt_false. apply total, _.
Qed.

Lemma sorts_by_key_anti {A} (key : A -> string) x y :
  sorts_by (fun x y => string_lt (key x) (key y)) x y ->
  sorts_by (fun x y => string_lt (key x) (key y)) y x -> key x = key y.
Proof.
  unfold sorts_by. rewrite !string_lt_false. intros. by apply (anti_symm String.le).
Qed.

(** Descending by an integer key, ties by another order. *)
Lemma lex_desc_ok {A} (f : A -> Z) (less : A -> A -> bool) `{!LessOk less} :
  LessOk (fun a b => if bool_decide (f a = f b) then less a b else (f b <? f a)%Z).
Proof.
  assert (forall a b, sorts_by (fun a b => if bool_decide (f a = f b) then less a b else (f b <? f a)%Z) a b <->
    (f b <= f a)%Z /\ (f a = f b -> sorts_by less a b)) as Hs.
  { intros a b. unfold sorts_by. case_bool_decide as Heq.
    - split; [intros; split; [lia|done]|]. intros [_ H]. by apply H.
    - rewrite Z.ltb_ge. split; [intros; split; [done|congruence]|]. by intros [? _]. }
  split.
  - intros a b c. rewrite !Hs. intros [H1 H2] [H3 H4]. split; [lia|]. intros Heq.
    transitivity b; [apply H2|apply H4]; lia.
  - intros a b. rewrite !Hs. destruct (Z.lt_trichotomy (f a) (f b)) as [?|[Heq|?]].
    + right. split; [lia|intros; lia].
    + rewrite Heq. destruct (total (sorts_by less) a b); [left|right]; split; auto; lia.
    + left. split; [lia|intros; lia].
Qed.

(** Ascending by an integer key, ties by another order. *)
Lemma lex_asc_spec {A} (f : A -> Z) (less : A -> A -> bool) a b :
  sorts_by (fun a b => if bool_decide (f a <> f b) then (f a <? f b)%Z else less a b) a b <->
  (f a <= f b)%Z /\ (f a = f b -> sorts_by less a b).
Proof.
  unfold sorts_by. case_bool_decide as Heq.
  - rewrite Z.ltb_ge. split; [intros; split; [done|intros Hab; by destruct Heq]|]. by intros [? _].
  - split; [intros; split; [lia|done]|]. intros [_ H]. by apply H.
Qed.

Lemma lex_asc_ok {A} (f : A -> Z) (less : A -> A -> bool) `{!LessOk less} :
  LessOk (fun a b => if bool_decide (f a <> f b) then (f a <? f b)%Z else less a b).
Proof.
  split.
  - intros a b c. rewrite !lex_asc_spec. intros [H1 H2] [H3 H4]. split; [lia|]. intros Heq. transitivity b; [apply H2|apply H4]; lia.
  - intros a b. rewrite !lex_asc_spec. destruct (Z.lt_trichotomy (f a) (f b)) as [?|[Heq|?]].
    + left. split; [lia|intros; lia].
    + rewrite Heq. destruct (total (sorts_by less) a b); [left|right]; split; auto; lia.
    + right. split; [lia|intros; lia].
Qed.

(** Ascending by a string key, ties by an integer key. *)
Lemma lex_string_ok {A} (f : A -> string) (g : A -> Z) :
  LessOk (fun a b => if bool_decide (f a = f b) then (g a <? g b)%Z else string_lt (f a) (f b)).
Proof.
  assert (forall a b, sorts_by (fun a b => if bool_decide (f a = f b) then (g a <? g b)%Z
      else string_lt (f a) (f b)) a b <->
    String.le (f a) (f b) /\ (f a = f b -> (g a <= g b)%Z)) as Hs.
  { intros a b. unfold sorts_by. case_bool_decide as Heq.
    - rewrite Z.ltb_ge, Heq. split; [intros; split; [done|by intros]|]. intros [_ H]. by apply H.
    - rewrite string_lt_false. split; [intros; split; [done|congruence]|]. by intros [? _]. }
  split.
  - intros a b c. rewrite !Hs. intros [H1 H2] [H3 H4]. split; [by etrans|]. intros Heq.
    assert (f a = f b) as Hab by (apply (anti_symm String.le); [done|by rewrite Heq]).
    etrans; [by apply H2|]. apply H4. congruence.
  - intros a b. rewrite !Hs. destruct (decide (f a = f b)) as [Heq|Hne].
    + rewrite Heq. destruct (Z.le_ge_cases (g a) (g b)); [left|right]; split; auto; done.
    + destruct (total String.le (f a) (f b)); [left|right]; (split; [done|]); intros; congruence.
Qed.

(** [unicode.IsSpace] on the UTF-8 encoding: one, two and three byte forms. *)
Definition space1 (a : ascii) : bool :=
  let a := N_of_ascii a in ((9 <=? a) && (a <=? 13) || (a =? 32))%N.
Definition space2 (a b : ascii) : bool :=
  let a := N_of_ascii a in let b := N_of_ascii b in
  ((a =? 194) && ((b =? 133) || (b =? 160)))%N.
Definition space3 (a b c : ascii) : bool :=
  let a := N_of_ascii a in let b := N_of_ascii b in let c := N_of_ascii c in
  ((a =? 225) && (b =? 154) && (c =? 128)
   || (a =? 226) && (b =? 128) && ((128 <=? c) && (c <=? 138) || (c =? 168) || (c =? 169) || (c =? 175))
   || (a =? 226) && (b =? 129) && (c =? 159)
   || (a =? 227) && (b =? 128) && (c =? 128))%N.

Fixpoint trim_left (s : string) : string :=
  match s with
  | EmptyString => EmptyString
  | String a s1 =>
    if space1 a then trim_left s1 else
    match s1 with
    | EmptyString => s
    | String b s2 =>
      if space2 a b then trim_left s2 else
      match s2 with
      | EmptyString => s
      | String c s3 => if space3 a b c then trim_left s3 else s
      end
    end
  end.

Definition is_blank (s : string) : bool := bool_decide (trim_left s = EmptyString).

Fixpoint trim_right (s : string) : string :=
  if is_blank s then EmptyString else
  match s with
  | EmptyString => EmptyString
  | String a s' => String a (trim_right s')
  end.

(** [strings.TrimSpace]. *)
Definition TrimSpace (s : string) : string := trim_right (trim_left s).

Lemma trim_right_empty s : trim_right s = EmptyString <-> is_blank s = true.
Proof.
  destruct s as [|a s]; [done|].
  assert (trim_right (String a s) =
    if is_blank (String a s) then EmptyString else String a (trim_right s)) as -> by done.
  destruct (is_blank (String a s)); split; done.
Qed.

Lemma string_length_ind (P : string -> Prop) :
  (forall s, (forall t, String.length t < String.length s -> P t) -> P s) -> forall s, P s.
Proof.
  intros H s. apply (well_founded_induction
    (Wf_nat.well_founded_ltof _ String.length) P). exact H.
Qed.

Lemma trim_left_idemp s : trim_left (trim_left s) = trim_left s.
Proof.
  induction s as [s IH] using string_length_ind.
  destruct s as [|a s1]; [done|]. cbn [trim_left].
  destruct (space1 a) eqn:H1; [apply IH; cbn; lia|].
  destruct s1 as [|b s2]; [cbn; by rewrite H1|].
  destruct (space2 a b) eqn:H2; [apply IH; cbn; lia|].
  destruct s2 as [|c s3]; [cbn; by rewrite H1, H2|].
  destruct (space3 a b c) eqn:H3; [apply IH; cbn; lia|]. cbn [trim_left]. by rewrite H1, H2, H3.
Qed.

Lemma TrimSpace_empty s : TrimSpace s = EmptyString <-> is_blank s = true.
Proof.
  unfold TrimSpace. rewrite trim_right_empty. unfold is_blank. by rewrite trim_left_idemp.
Qed.

(** [%d]. *)
Definition format_int (z : Z) : string := pretty z.
