(* ===== verification/GoStrings.v ===== *)
(** * Strings

    What is used of [strings] and [strconv], and composite string keys: identities are
    built with [fmt.Sprintf("%s:%s:%d", ...)] out of parts the caller chooses, and a
    key is unambiguous when the parts after the free one contain no separator
    ([key_inj]). *)

From stdpp Require Import base tactics option list strings gmap pretty sorting.
From Stdlib Require Import ZArith Ascii String.
From S2P Require Import Prelude GoLib.

Definition char_in (c : ascii) (s : string) : Prop := c ∈ list_ascii_of_string s.

#[global] Instance char_in_dec c s : Decision (char_in c s).
Proof. unfold char_in. apply _. Defined.

Lemma list_ascii_app s t :
  list_ascii_of_string (s +:+ t) = list_ascii_of_string s ++ list_ascii_of_string t.
Proof. induction s as [|a s IH]; simpl; [done|]. by f_equal. Qed.

Lemma list_ascii_inj s t : list_ascii_of_string s = list_ascii_of_string t -> s = t.
Proof. intros H. by rewrite <- (string_of_list_ascii_of_string s), H, string_of_list_ascii_of_string. Qed.

Lemma split_last_list {A} (c : A) (s1 s2 a1 a2 : list A) :
  c ∉ a1 -> c ∉ a2 -> s1 ++ c :: a1 = s2 ++ c :: a2 -> s1 = s2 /\ a1 = a2.
Proof.
  intros H1 H2 [(k & -> & Hk)|(k & -> & Hk)]%app_eq_inv.
  - destruct k as [|x k]; simplify_list_eq; [done|]. set_solver.
  - destruct k as [|x k]; simplify_list_eq; [done|]. set_solver.
Qed.

(** The part after the last separator is determined. *)
Lemma key_inj (c : ascii) s1 s2 a1 a2 :
  ~ char_in c a1 -> ~ char_in c a2 ->
  (s1 +:+ String c a1)%string = (s2 +:+ String c a2)%string -> s1 = s2 /\ a1 = a2.
Proof.
  intros H1 H2 Heq%(f_equal list_ascii_of_string). rewrite !list_ascii_app in Heq. simpl in Heq.
  apply split_last_list in Heq as [? ?]; [|done..]. split; by apply list_ascii_inj.
Qed.

Lemma pretty_N_go_char c x s :
  (forall y, (y < 10)%N -> pretty_N_char y <> c) -> ~ char_in c s -> ~ char_in c (pretty_N_go x s).
Proof.
  intros Hc. revert s. induction (N.lt_wf_0 x) as [x _ IH]; intros s Hs.
  destruct (decide (x = 0)%N) as [->|Hx]; [by rewrite pretty_N_go_0|].
  rewrite pretty_N_go_step by lia. apply IH; [by apply N.div_lt; lia|].
  unfold char_in in *. simpl. rewrite elem_of_cons. intros [Heq|?]; [|done].
  apply (Hc (x `mod` 10)%N); [by apply N.mod_lt|done].
Qed.

Lemma pretty_N_char_digit c y :
  c ∉ list_ascii_of_string "0123456789" -> pretty_N_char y <> c.
Proof.
  intros Hc <-. apply Hc. unfold pretty_N_char.
  repeat case_match; apply (bool_decide_unpack _); reflexivity.
Qed.

(** A formatted integer holds only digits and perhaps a minus sign. *)
Lemma format_int_char c z :
  c ∉ list_ascii_of_string "0123456789-" -> ~ char_in c (format_int z).
Proof.
  intros Hc. assert (c ∉ list_ascii_of_string "0123456789") as Hd.
  { intros Hin. apply Hc. simpl in *. set_solver. }
  assert (forall n : N, ~ char_in c (pretty n)) as HN.
  { intros n. unfold pretty, pretty_N. case_decide.
    - unfold char_in. simpl in *. set_solver.
    - apply pretty_N_go_char; [intros; by apply pretty_N_char_digit|]. unfold char_in. simpl. set_solver. }
  unfold format_int. destruct z as [|p|p].
  - apply (HN 0%N).
  - apply (HN (Npos p)).
  - change (pretty (Zneg p)) with ("-" +:+ pretty (Npos p))%string.
    unfold char_in. rewrite list_ascii_app, elem_of_app. intros [Hin|Hin]; [|exact (HN (Npos p) Hin)].
    apply Hc. simpl in Hin |- *. set_solver.
Qed.

Lemma format_int_inj z1 z2 : format_int z1 = format_int z2 -> z1 = z2.
Proof. apply (inj pretty). Qed.

Lemma string_app_assoc (s t u : string) : ((s +:+ t) +:+ u)%string = (s +:+ t +:+ u)%string.
Proof. induction s as [|a s IH]; [done|]. exact (f_equal (String a) IH). Qed.

(** * Strings and string lists

    What several components use of [strings] and [strconv], and the
    sort-and-deduplicate helper of which [mergequeue] and [contextgraph] each
    have a copy. *)

(** ** Substrings *)

(** [strings.HasPrefix], [strings.Contains], [strings.HasSuffix]. *)
Definition has_prefix (p s : string) : bool := String.prefix p s.

Fixpoint Contains (p s : string) : bool :=
  has_prefix p s || match s with EmptyString => false | String _ s' => Contains p s' end.

Fixpoint has_suffix (p s : string) : bool :=
  bool_decide (s = p) || match s with EmptyString => false | String _ s' => has_suffix p s' end.

(** [s[n:]]. *)
Fixpoint string_drop (n : nat) (s : string) : string :=
  match n, s with
  | 0, _ => s
  | S n', String _ s' => string_drop n' s'
  | S _, EmptyString => EmptyString
  end.

(** [strings.TrimPrefix]. *)
Definition TrimPrefix (p s : string) : string :=
  if has_prefix p s then string_drop (String.length p) s else s.

(** [strings.Cut] at a one-byte separator. *)
Fixpoint Cut (c : ascii) (s : string) : option (string * string) :=
  match s with
  | EmptyString => None
  | String a s' =>
    if Ascii.eqb a c then Some (EmptyString, s')
    else match Cut c s' with Some (b, t) => Some (String a b, t) | None => None end
  end.

Lemma Cut_app c b k : ~ char_in c b -> Cut c (b +:+ String c k) = Some (b, k).
Proof.
  induction b as [|a b IH]; intros H.
  - change (Cut c ("" +:+ String c k)) with (if Ascii.eqb c c then Some ("", k) else match Cut c k with Some (b, t) => Some (String c b, t) | None => None end).
    by rewrite Ascii.eqb_refl.
  - change (String a b +:+ String c k)%string with (String a (b +:+ String c k)). simpl Cut.
    assert (a <> c) as Hne by (intros ->; apply H; by left). apply Ascii.eqb_neq in Hne. rewrite Hne.
    rewrite IH; [done|]. intros Hb. apply H. by right.
Qed.

Lemma has_prefix_app p s : has_prefix p (p +:+ s) = true.
Proof.
  unfold has_prefix. induction p as [|a p IH]; [by destruct s|].
  change (String a p +:+ s) with (String a (p +:+ s)). cbn. by destruct (ascii_dec a a).
Qed.

Lemma string_drop_app p s : string_drop (String.length p) (p +:+ s) = s.
Proof. induction p as [|a p IH]; [done|]. exact IH. Qed.

Lemma TrimPrefix_app p s : TrimPrefix p (p +:+ s) = s.
Proof. unfold TrimPrefix. by rewrite has_prefix_app, string_drop_app. Qed.

Lemma has_prefix_true p s : has_prefix p s = true <-> exists t, s = (p +:+ t)%string.
Proof.
  split; [|intros [t ->]; apply has_prefix_app].
  unfold has_prefix. revert s. induction p as [|a p IH]; intros s; cbn; [intros _; by exists s|].
  destruct s as [|b s]; [done|]. cbn. destruct (ascii_dec a b) as [->|]; [|done].
  intros [t ->]%IH. by exists t.
Qed.

Lemma string_app_inj_l (p s t : string) : (p +:+ s)%string = (p +:+ t)%string -> s = t.
Proof. induction p as [|a p IH]; [by intros|]. intros [=]. auto. Qed.

(** ** Numbers *)

Definition digit_value (c : ascii) : option N :=
  let n := N_of_ascii c in if (48 <=? n)%N && (n <=? 57)%N then Some (n - 48)%N else None.

Fixpoint parse_digits (s : string) (acc : N) : option N :=
  match s with
  | EmptyString => Some acc
  | String c s' => match digit_value c with Some d => parse_digits s' (10 * acc + d)%N | None => None end
  end.

Lemma digit_value_char y : (y < 10)%N -> digit_value (pretty_N_char y) = Some y.
Proof.
  intros Hy. assert (y ∈ [0; 1; 2; 3; 4; 5; 6; 7; 8; 9]%N) as Hin.
  { rewrite !elem_of_cons, elem_of_nil. lia. }
  rewrite !elem_of_cons, elem_of_nil in Hin.
  repeat (destruct Hin as [->|Hin]; [reflexivity|]). done.
Qed.

Lemma parse_pretty_go x s : parse_digits (pretty_N_go x s) 0 = parse_digits s x.
Proof.
  revert s. induction (N.lt_wf_0 x) as [x _ IH]; intros s.
  destruct (decide (x = 0)%N) as [->|Hx]; [by rewrite pretty_N_go_0|].
  rewrite pretty_N_go_step by lia. rewrite IH by (apply N.div_lt; lia). simpl.
  rewrite digit_value_char by (apply N.mod_lt; lia). f_equal. symmetry. apply (N.div_mod x 10). lia.
Qed.

Lemma parse_format z : (0 <= z)%Z -> parse_digits (format_int z) 0 = Some (Z.to_N z).
Proof.
  intros Hz. assert (format_int z = pretty (Z.to_N z)) as -> by (unfold format_int; destruct z; [done|done|lia]).
  unfold pretty, pretty_N. destruct (decide (Z.to_N z = 0)%N) as [->|]; [reflexivity|]. by rewrite parse_pretty_go.
Qed.

(** [strconv.ParseUint(s, 10, 64)]. *)
Definition ParseUint (s : string) : option Z :=
  if bool_decide (s = "") then None else
  match parse_digits s 0 with
  | Some n => if (Z.of_N n <? 18446744073709551616)%Z then Some (Z.of_N n) else None
  | None => None
  end.

(** [strconv.ParseInt(s, 10, 64)]: an optional sign, then digits. *)
Definition ParseInt (s : string) : option Z :=
  let '(neg, digits) := match s with
                        | String "-" t => (true, t)
                        | String "+" t => (false, t)
                        | _ => (false, s)
                        end in
  if bool_decide (digits = "") then None else
  match parse_digits digits 0 with
  | Some n =>
    let z := if neg : bool then (- Z.of_N n)%Z else Z.of_N n in
    if ((int_min <=? z) && (z <=? int_max))%Z then Some z else None
  | None => None
  end.

Lemma ParseInt_format z : (0 <= z <= int_max)%Z -> ParseInt (format_int z) = Some z.
Proof.
  intros [H0 H1]. destruct (decide (z = 0)%Z) as [->|Hne]; [reflexivity|]. pose proof (parse_format z H0) as Hp. unfold ParseInt.
  destruct (format_int z) as [|c t]; [simpl in Hp; injection Hp; lia|].
  assert (match String c t with String "-" t => (true, t) | String "+" t => (false, t) | _ => (false, String c t) end = (false, String c t)) as ->.
  { destruct (decide (c = "-"%char)) as [->|]; [done|]. destruct (decide (c = "+"%char)) as [->|]; [done|]. destruct c as [[] [] [] [] [] [] [] []]; done. }
  rewrite bool_decide_eq_false_2 by done. rewrite Hp, Z2N.id by done. assert (int_min <= 0)%Z by (vm_compute; done).
  by rewrite (proj2 (Z.leb_le int_min z)), (proj2 (Z.leb_le z int_max)) by lia.
Qed.

(** ** Sorted lists without duplicates *)

Fixpoint dedupe_from (seen : gset string) (refs : list string) : list string :=
  match refs with
  | [] => []
  | ref :: refs' =>
    if bool_decide (ref = "") then dedupe_from seen refs'
    else if bool_decide (ref ∈ seen) then dedupe_from seen refs'
    else ref :: dedupe_from ({[ref]} ∪ seen) refs'
  end.

(** Sorted, without duplicates and without empty references. *)
Record normal (refs : list string) : Prop := {
  nm_sorted : StronglySorted String.le refs;
  nm_nodup : NoDup refs;
  nm_nonempty : "" ∉ refs;
}.

Lemma elem_of_dedupe_from seen refs x :
  x ∈ dedupe_from seen refs <-> x ∈ refs /\ x <> "" /\ x ∉ seen.
Proof.
  revert seen. induction refs as [|r refs IH]; intros seen; simpl; [set_solver|].
  repeat case_bool_decide; rewrite ?elem_of_cons, IH; [set_solver..|].
  rewrite not_elem_of_union, not_elem_of_singleton. destruct (decide (x = r)); set_solver.
Qed.

Lemma dedupe_from_nodup seen refs : NoDup (dedupe_from seen refs).
Proof.
  revert seen. induction refs as [|r refs IH]; intros seen; simpl; [constructor|].
  repeat case_bool_decide; [apply IH..|]. constructor; [|apply IH].
  rewrite elem_of_dedupe_from. set_solver.
Qed.

(** A normal list is determined by its elements. *)
Lemma normal_unique l1 l2 : normal l1 -> normal l2 -> (forall x, x ∈ l1 <-> x ∈ l2) -> l1 = l2.
Proof.
  intros [H1 N1 _] [H2 N2 _] Heq. apply (StronglySorted_unique String.le); [done..|].
  by apply NoDup_Permutation.
Qed.

Section sorted_dedupe.
Context `{GR : GoRuntime}.

Lemma elem_of_sorted_dedupe l x : x ∈ sort_slice string_lt (dedupe_from ∅ l) <-> x ∈ l /\ x <> "".
Proof. rewrite sort_slice_perm, elem_of_dedupe_from. set_solver. Qed.

Lemma sort_strings_sorted l : StronglySorted String.le (sort_slice string_lt l).
Proof.
  induction (sort_slice_sorted string_lt l) as [|x l' _ IH Hall]; constructor; [done|].
  eapply Forall_impl; [exact Hall|]. intros y. apply string_lt_false.
Qed.

Lemma sorted_dedupe_normal l : normal (sort_slice string_lt (dedupe_from ∅ l)).
Proof.
  split.
  - apply sort_strings_sorted.
  - rewrite sort_slice_perm. apply dedupe_from_nodup.
  - rewrite elem_of_sorted_dedupe. by intros [_ ?].
Qed.
End sorted_dedupe.
