(* ===== verification/GoPath.v ===== *)
(** * Slash-separated paths

    What the code uses of [path], and of [path/filepath] on a system whose
    separator is the slash (there [FromSlash] and [ToSlash] are the identity and
    both packages agree): [Clean], [Join], [IsAbs], [Dir], [Base] and [Rel], on
    the components between slashes.  Cleaned relative paths are characterised as
    joins of plain components. *)

From stdpp Require Import base tactics option list strings gmap.
From Stdlib Require Import Ascii.
From S2P Require Import Prelude GoLib GoStrings.

(** ** Splitting and joining *)

(** [strings.Split] at a one-byte separator. *)
Fixpoint Split (c : ascii) (s : string) : list string :=
  match s with
  | EmptyString => [EmptyString]
  | String a s' =>
    if Ascii.eqb a c then EmptyString :: Split c s'
    else match Split c s' with [] => [String a EmptyString] | x :: l => String a x :: l end
  end.

(** [strings.Join]. *)
Fixpoint Join (sep : string) (l : list string) : string :=
  match l with
  | [] => ""
  | x :: l' => match l' with [] => x | _ => x +:+ sep +:+ Join sep l' end
  end.

(** [strings.ReplaceAll] of one byte by another. *)
Fixpoint replace_char (a b : ascii) (s : string) : string :=
  match s with
  | EmptyString => EmptyString
  | String x s' => String (if Ascii.eqb x a then b else x) (replace_char a b s')
  end.

Definition backslashes (p : string) : string := replace_char "\" "/" p.

(** [strings.Trim] of one byte. *)
Fixpoint trim_left_char (c : ascii) (s : string) : string :=
  match s with
  | String a s' => if Ascii.eqb a c then trim_left_char c s' else s
  | EmptyString => EmptyString
  end.

Fixpoint trim_right_char (c : ascii) (s : string) : string :=
  match s with
  | String a s' => match trim_right_char c s' with
                   | EmptyString => if Ascii.eqb a c then EmptyString else String a EmptyString
                   | t => String a t
                   end
  | EmptyString => EmptyString
  end.

Definition trim_char (c : ascii) (s : string) : string := trim_right_char c (trim_left_char c s).

(** ** [path.Clean] *)

Definition IsAbs (p : string) : bool := has_prefix "/" p.

(** One component: ["."] and empty ones are dropped, [".."] removes the
    component before it, except that it stays at the front of a relative path and
    vanishes at the root. *)
Definition clean_push (rooted : bool) (stack : list string) (e : string) : list string :=
  if bool_decide (e = "") || bool_decide (e = ".") then stack
  else if bool_decide (e = "..") then
    match stack with
    | x :: rest => if bool_decide (x = "..") then e :: stack else rest
    | [] => if rooted then [] else [e]
    end
  else e :: stack.

Definition components (p : string) : list string := rev (foldl (clean_push (IsAbs p)) [] (Split "/" p)).

Definition Clean (p : string) : string :=
  if IsAbs p then "/" +:+ Join "/" (components p)
  else if bool_decide (components p = []) then "." else Join "/" (components p).

(** [path.Join] and [filepath.Join]. *)
Definition path_join (elems : list string) : string :=
  let l := filter (fun e => e <> "") elems in
  if bool_decide (l = []) then "" else Clean (Join "/" l).

(** [path.Base] and [filepath.Base]. *)
Definition Base (p : string) : string :=
  if bool_decide (p = "") then "."
  else match last (Split "/" (trim_right_char "/" p)) with
       | Some e => if bool_decide (e = "") then "/" else e
       | None => "/"
       end.

(** [filepath.Dir]: everything before the last slash, cleaned. *)
Definition Dir (p : string) : string :=
  let l := Split "/" p in
  Clean (Join "/" (take (length l - 1) l) +:+ (if bool_decide (length l = 1) then "" else "/")).

(** [filepath.Rel] of absolute paths, which does not fail: up from the base to
    the common directory, then down. *)
Fixpoint rel_components (base target : list string) : list string :=
  match base, target with
  | b :: base', t :: target' => if bool_decide (b = t) then rel_components base' target'
                                else (const ".." <$> base) ++ target
  | [], _ => target
  | _, [] => const ".." <$> base
  end.

Definition Rel (base target : string) : string :=
  let l := rel_components (components base) (components target) in
  if bool_decide (l = []) then "." else Join "/" l.

(** [filepath.Abs] in the working directory [cwd]. *)
Definition Abs (cwd p : string) : string := if IsAbs p then Clean p else path_join [cwd; p].

(** ** Plain components *)

(** A component between slashes, and one that names a directory entry. *)
Definition entry (e : string) : Prop := e <> "" /\ ~ char_in "/" e.
Definition plain (e : string) : Prop := e <> "" /\ e <> "." /\ e <> ".." /\ ~ char_in "/" e.

Lemma Split_nonempty c s : Split c s <> [].
Proof. destruct s as [|a s]; simpl; [done|]. destruct (Ascii.eqb a c); [done|]. by destruct (Split c s). Qed.

Lemma Split_char_free c s e : e ∈ Split c s -> ~ char_in c e.
Proof.
  unfold char_in. revert e. induction s as [|a s IH]; intros e; simpl.
  - intros ->%list_elem_of_singleton Hc. by apply elem_of_nil in Hc.
  - destruct (Ascii.eqb_spec a c) as [->|Hne].
    + rewrite elem_of_cons. intros [->|He]; [intros Hc; by apply elem_of_nil in Hc|auto].
    + destruct (Split c s) as [|x l] eqn:Hs; [by apply Split_nonempty in Hs|].
      rewrite elem_of_cons. intros [->|He]; [|apply IH; by right].
      simpl. rewrite elem_of_cons. intros [Heq|Hc]; [by apply Hne|]. eapply IH; [by left|done].
Qed.

Lemma Split_app c s t : ~ char_in c s -> Split c (s +:+ String c t) = s :: Split c t.
Proof.
  unfold char_in. induction s as [|a s IH]; intros Hs.
  - change ("" +:+ String c t)%string with (String c t). simpl. by rewrite Ascii.eqb_refl.
  - change (String a s +:+ String c t)%string with (String a (s +:+ String c t)). simpl in *. rewrite elem_of_cons in Hs.
    destruct (Ascii.eqb_spec a c) as [->|Hne]; [tauto|]. rewrite IH by tauto. done.
Qed.

Lemma Split_single c s : ~ char_in c s -> Split c s = [s].
Proof.
  unfold char_in. induction s as [|a s IH]; intros Hs; [done|]. simpl in *. rewrite elem_of_cons in Hs.
  destruct (Ascii.eqb_spec a c) as [->|Hne]; [tauto|]. by rewrite IH by tauto.
Qed.

Lemma Split_Join c l : l <> [] -> Forall (fun e => ~ char_in c e) l -> Split c (Join (String c "") l) = l.
Proof.
  intros Hne Hl. destruct Hl as [|x l Hx Hl]; [done|]. clear Hne. revert x Hx. induction Hl as [|y l Hy Hl IH]; intros x Hx.
  - by apply Split_single.
  - change (Join (String c "") (x :: y :: l)) with (x +:+ String c (Join (String c "") (y :: l)))%string.
    rewrite Split_app by done. f_equal. by apply IH.
Qed.

(** ** What [Clean] returns *)

(** A cleaned path: some [".."] in front when it is relative, then plain
    components. *)
Definition cleaned (rooted : bool) (l : list string) : Prop :=
  exists n rest, l = replicate n ".." ++ rest /\ Forall plain rest /\ (rooted = true -> n = 0).

Lemma clean_push_cleaned rooted stack e :
  ~ char_in "/" e -> cleaned rooted (rev stack) -> cleaned rooted (rev (clean_push rooted stack e)).
Proof.
  intros He (n & rest & Hl & Hrest & Hn). unfold clean_push.
  case_bool_decide as H1; [by exists n, rest|]. case_bool_decide as H2; [by exists n, rest|]. simpl.
  case_bool_decide as H3; simpl.
  - subst e. destruct stack as [|x stack]; simpl in *.
    + destruct rooted; [exists 0, []; auto|]. by exists 1, [].
    + destruct (decide (rest = [])) as [->|Hne].
      * rewrite app_nil_r in Hl. destruct n as [|n]; [by destruct (rev stack)|].
        rewrite replicate_S_end in Hl. apply app_inj_tail in Hl as [Hl ->]. rewrite bool_decide_eq_true_2 by done. simpl.
        rewrite Hl. exists (S (S n)), []. rewrite app_nil_r. split_and!; [|done|]; [by rewrite !replicate_S_end|].
        intros Hr. by specialize (Hn Hr).
      * destruct (exists_last Hne) as (rest' & y & ->). rewrite app_assoc in Hl. apply app_inj_tail in Hl as [Hl ->].
        apply Forall_app in Hrest as [Hrest' Hy]. apply Forall_cons in Hy as [Hy _].
        rewrite bool_decide_eq_false_2 by (apply Hy). by exists n, rest'.
  - exists n, (rest ++ [e]). split_and!; [by rewrite Hl, app_assoc| |done]. apply Forall_app. split; [done|].
    apply Forall_singleton. by split_and!.
Qed.

Lemma components_cleaned p : cleaned (IsAbs p) (components p).
Proof.
  unfold components. assert (Forall (fun e => ~ char_in "/" e) (Split "/" p)) as Hl.
  { apply Forall_forall. apply Split_char_free. }
  generalize (Split "/" p) Hl. intros l. assert (cleaned (IsAbs p) (rev [])) as Hc by (by exists 0, []).
  revert Hc. generalize (@nil string). induction l as [|e l IH]; intros stack Hc Hall; [done|].
  apply Forall_cons in Hall as [He Hall]. simpl. apply IH; [|done]. by apply clean_push_cleaned.
Qed.

(** Plain components are pushed as they are. *)
Lemma push_plain rooted stack l : Forall plain l -> foldl (clean_push rooted) stack l = rev l ++ stack.
Proof.
  intros Hl. revert stack. induction Hl as [|e l (H1 & H2 & H3 & _) _ IH]; intros stack; [done|]. simpl. rewrite IH.
  unfold clean_push. rewrite !bool_decide_eq_false_2 by done. simpl. by rewrite <- app_assoc.
Qed.

Lemma plain_no_slash l : Forall plain l -> Forall (fun e => ~ char_in "/" e) l.
Proof. intros Hl. eapply Forall_impl; [exact Hl|]. by intros e (_ & _ & _ & ?). Qed.

Lemma plain_entry l : Forall plain l -> Forall entry l.
Proof. intros Hl. eapply Forall_impl; [exact Hl|]. by intros e (? & _ & _ & ?). Qed.

Lemma entry_no_slash l : Forall entry l -> Forall (fun e => ~ char_in "/" e) l.
Proof. intros Hl. eapply Forall_impl; [exact Hl|]. by intros e []. Qed.

Lemma IsAbs_Join l : Forall entry l -> IsAbs (Join "/" l) = false.
Proof.
  intros Hl. destruct Hl as [|x l (Hne & Hx) Hl]; [done|]. destruct x as [|a x]; [done|].
  assert (exists t, Join "/" (String a x :: l) = String a t) as [t ->].
  { simpl. destruct l; [by eexists|]. eexists. change (String a x +:+ ?r)%string with (String a (x +:+ r)). reflexivity. }
  apply not_true_is_false. unfold IsAbs. rewrite has_prefix_true. intros [u Hu]. injection Hu as -> _. apply Hx.
  unfold char_in. simpl. by left.
Qed.

Lemma cleaned_entries rooted l : cleaned rooted l -> Forall entry l.
Proof.
  intros (n & rest & -> & Hrest & _). apply Forall_app. split.
  - apply Forall_replicate. split; [done|]. unfold char_in. simpl. rewrite !elem_of_cons, elem_of_nil. naive_solver.
  - eapply Forall_impl; [exact Hrest|]. by intros e (? & _ & _ & ?).
Qed.

Lemma plain_cleaned rooted l : Forall plain l -> cleaned rooted l.
Proof. intros Hl. by exists 0, l. Qed.

(** Pushing a cleaned list rebuilds it. *)
Lemma push_cleaned rooted l : cleaned rooted l -> rev (foldl (clean_push rooted) [] l) = l.
Proof.
  intros (n & rest & -> & Hrest & Hn). rewrite foldl_app, push_plain by done. rewrite rev_app_distr, rev_involutive. f_equal.
  destruct rooted; [by rewrite Hn|]. clear Hn.
  assert (forall k, foldl (clean_push false) (replicate k "..") (replicate n "..") = replicate (n + k) "..") as Hk.
  { induction n as [|n IH]; intros k; [done|]. simpl.
    replace (clean_push false (replicate k "..") "..") with (replicate (S k) "..") by (by destruct k).
    rewrite IH. by rewrite Nat.add_succ_r. }
  specialize (Hk 0). simpl in Hk. rewrite Hk, Nat.add_0_r. rewrite <- (reverse_replicate n "..") at 2. unfold reverse. by rewrite rev_alt.
Qed.

Lemma components_Join rooted l : l <> [] -> cleaned rooted l -> rooted = false -> components (Join "/" l) = l.
Proof.
  intros Hne Hl ->. pose proof (cleaned_entries _ _ Hl) as He. unfold components. rewrite IsAbs_Join by done.
  rewrite Split_Join; [by apply push_cleaned|done|]. eapply Forall_impl; [exact He|]. by intros e [].
Qed.

Lemma components_plain l : l <> [] -> Forall plain l -> components (Join "/" l) = l.
Proof. intros. apply (components_Join false); [done|by apply plain_cleaned|done]. Qed.

Lemma Clean_Join l : l <> [] -> Forall plain l -> Clean (Join "/" l) = Join "/" l.
Proof.
  intros Hne Hl. unfold Clean. rewrite IsAbs_Join, components_plain by (try done; by apply (cleaned_entries false), plain_cleaned).
  by rewrite bool_decide_eq_false_2.
Qed.

(** ** Joining below a directory *)

Lemma Split_concat c s t : Split c (s +:+ String c t) = Split c s ++ Split c t.
Proof.
  induction s as [|a s IH].
  - change ("" +:+ String c t)%string with (String c t). simpl. by rewrite Ascii.eqb_refl.
  - change (String a s +:+ String c t)%string with (String a (s +:+ String c t)). simpl. rewrite IH.
    destruct (Ascii.eqb a c); [done|]. by destruct (Split c s) eqn:Hs; [apply Split_nonempty in Hs|].
Qed.

Lemma IsAbs_app p q : p <> "" -> IsAbs (p +:+ q) = IsAbs p.
Proof.
  destruct p as [|a p]; [done|]. intros _. unfold IsAbs. change (String a p +:+ q)%string with (String a (p +:+ q)).
  apply eq_bool_prop_intro. split; intros H%Is_true_true; apply Is_true_true; apply has_prefix_true in H as [u Hu];
    injection Hu as -> _; by apply has_prefix_true; eexists.
Qed.

(** Joining plain components to a directory appends them to its components. *)
Lemma components_below root l : root <> "" -> Forall plain l ->
  components (root +:+ "/" +:+ Join "/" l) = components root ++ l.
Proof.
  intros Hroot Hl. unfold components. rewrite IsAbs_app by done.
  change ("/" +:+ Join "/" l)%string with (String "/" (Join "/" l)). rewrite Split_concat, foldl_app.
  destruct (decide (l = [])) as [->|Hne]; [simpl; by rewrite app_nil_r|].
  rewrite Split_Join by (try done; by apply plain_no_slash). rewrite push_plain by done.
  by rewrite rev_app_distr, rev_involutive.
Qed.

Lemma components_Clean p : components (Clean p) = components p.
Proof.
  pose proof (components_cleaned p) as Hc. unfold Clean. destruct (IsAbs p) eqn:Habs.
  - destruct Hc as (n & rest & Heq & Hrest & Hn). rewrite Hn in Heq by done. simpl in Heq. rewrite Heq.
    unfold components. change ("/" +:+ Join "/" rest)%string with (String "/" (Join "/" rest)).
    replace (IsAbs (String "/" (Join "/" rest))) with true by (symmetry; apply has_prefix_true; by eexists).
    change (Split "/" (String "/" (Join "/" rest))) with ("" :: Split "/" (Join "/" rest)). simpl.
    destruct (decide (rest = [])) as [->|Hne]; [done|].
    rewrite Split_Join by (try done; by apply plain_no_slash). rewrite push_plain by done. by rewrite app_nil_r, rev_involutive.
  - case_bool_decide as Hnil; [by rewrite Hnil|]. by apply (components_Join false).
Qed.

Lemma IsAbs_Clean p : IsAbs (Clean p) = IsAbs p.
Proof.
  unfold Clean. destruct (IsAbs p) eqn:Habs; [apply has_prefix_true; by eexists|].
  case_bool_decide; [done|]. apply IsAbs_Join. eapply cleaned_entries. apply components_cleaned.
Qed.

(** A path whose components start with those of [root], both absolute or both
    relative: it lies in the directory [root]. *)
Definition inside (root p : string) : Prop := IsAbs p = IsAbs root /\ components root `prefix_of` components p.

Lemma inside_join root l : root <> "" -> Forall plain l -> inside root (path_join [root; Join "/" l]).
Proof.
  intros Hroot Hl. unfold inside, path_join. rewrite filter_cons_True by done.
  destruct (decide (l = [])) as [->|Hne].
  - simpl. rewrite IsAbs_Clean, components_Clean. split; [done|]. exists []. by rewrite app_nil_r.
  - rewrite filter_cons_True, filter_nil, bool_decide_eq_false_2; [|done|].
    + change (Join "/" [root; Join "/" l]) with (root +:+ "/" +:+ Join "/" l)%string.
      rewrite IsAbs_Clean, components_Clean, IsAbs_app, components_below by done. split; [done|]. by exists l.
    + destruct Hl as [|x l (Hx & _) _]; [done|]. destruct x; [done|]. by destruct l.
Qed.

(** ** String prefixes of joined paths *)

Lemma Join_app l m : l <> [] -> m <> [] -> Join "/" (l ++ m) = (Join "/" l +:+ "/" +:+ Join "/" m)%string.
Proof.
  intros Hl Hm. destruct l as [|x l]; [done|]. clear Hl. revert x. induction l as [|y l IH]; intros x.
  - simpl. by destruct m.
  - change (Join "/" ((x :: y :: l) ++ m)) with (x +:+ "/" +:+ Join "/" ((y :: l) ++ m))%string. rewrite IH.
    change (Join "/" (x :: y :: l)) with (x +:+ "/" +:+ Join "/" (y :: l))%string. by rewrite !string_app_assoc.
Qed.

Lemma Join_inj l m : l <> [] -> m <> [] -> Forall entry l -> Forall entry m -> Join "/" l = Join "/" m -> l = m.
Proof.
  intros Hl Hm Pl Pm Heq. rewrite <- (Split_Join "/" l), <- (Split_Join "/" m) by (try done; by apply entry_no_slash). by f_equal.
Qed.

Lemma Join_prefix l m : l <> [] -> m <> [] -> Forall entry l -> Forall entry m ->
  (Join "/" l = Join "/" m \/ has_prefix (Join "/" m +:+ "/") (Join "/" l) = true) <-> m `prefix_of` l.
Proof.
  intros Hl Hm Pl Pm. split.
  - intros [Heq|[t Ht]%has_prefix_true]; [by rewrite (Join_inj l m)|].
    rewrite string_app_assoc in Ht. change ("/" +:+ t)%string with (String "/" t) in Ht.
    exists (Split "/" t). rewrite <- (Split_Join "/" l), <- (Split_Join "/" m) by (try done; by apply entry_no_slash).
    change (String "/" "") with "/". by rewrite Ht, Split_concat.
  - intros [k ->]. destruct (decide (k = [])) as [->|Hk]; [left; by rewrite app_nil_r|]. right.
    apply has_prefix_true. exists (Join "/" k). by rewrite Join_app, string_app_assoc.
Qed.

Lemma trim_right_char_id c s e : e <> "" -> ~ char_in c e -> trim_right_char c (s +:+ e) = (s +:+ e)%string.
Proof.
  intros Hne He. assert (trim_right_char c e = e) as Hbase.
  { unfold char_in in He. induction e as [|a e IH]; [done|]. simpl in *. rewrite elem_of_cons in He.
    destruct e as [|b e]; [simpl; destruct (Ascii.eqb_spec a c) as [->|]; [tauto|done]|]. rewrite IH; [done|done|tauto]. }
  induction s as [|a s IH]; [done|].
  change (String a s +:+ e)%string with (String a (s +:+ e)). simpl. rewrite IH.
  destruct (s +:+ e)%string eqn:Hse; [|done]. destruct s; [by destruct e|done].
Qed.

Lemma trim_char_Join l : l <> [] -> Forall entry l -> trim_char "/" (Join "/" l) = Join "/" l.
Proof.
  intros Hne Hl. unfold trim_char. assert (trim_left_char "/" (Join "/" l) = Join "/" l) as ->.
  { assert (IsAbs (Join "/" l) = false) as Habs by (by apply IsAbs_Join).
    destruct (Join "/" l) as [|a s]; [done|]. simpl. destruct (Ascii.eqb_spec a "/") as [->|]; [|done].
    exfalso. assert (IsAbs (String "/" s) = true) by (apply has_prefix_true; by eexists). congruence. }
  destruct (exists_last Hne) as (l' & e & ->). apply Forall_app in Hl as [_ He]. apply Forall_cons in He as [[H1 H2] _].
  destruct (decide (l' = [])) as [->|Hl']; [by apply (trim_right_char_id "/" "")|].
  rewrite Join_app by done. change (Join "/" [e]) with e. rewrite <- string_app_assoc. by apply trim_right_char_id.
Qed.
