(* ===== verification/Kernel.v ===== *)
(** * The shared kernel: errors, identifiers and revisions

    [internal/kernel/errors.go], [id.go] and [revision.go].  Every other
    component reports its failures as [error] values of this file. *)

From stdpp Require Import base tactics option list strings gmap pretty.
From Stdlib Require Import ZArith.
From S2P Require Import Prelude GoLib.

(** ** Error codes *)

Definition CodeUnauthorized : string := "unauthorized".
Definition CodeForbidden : string := "forbidden".
Definition CodeInvalidRequest : string := "invalid_request".
Definition CodeCSRFInvalid : string := "csrf_invalid".
Definition CodeOriginInvalid : string := "origin_invalid".
Definition CodeNotFound : string := "not_found".
Definition CodeRevisionConflict : string := "revision_conflict".
Definition CodeIdempotencyConflict : string := "idempotency_conflict".
Definition CodeCommandConflict : string := "command_conflict".
Definition CodeScopeNotPending : string := "scope_not_pending".
Definition CodeEndpointInFlight : string := "endpoint_in_flight".
Definition CodeInvalidGraph : string := "invalid_graph".
Definition CodeStaleBinding : string := "stale_binding".
Definition CodeStaleCommand : string := "stale_command".
Definition CodeStaleCheckpoint : string := "stale_checkpoint".
Definition CodeLeaseConflict : string := "lease_conflict".
Definition CodeExecutorUnavailable : string := "executor_unavailable".
Definition CodeIncompleteStopEvidence : string := "incomplete_stop_evidence".
Definition CodeTransitionRejected : string := "transition_rejected".
Definition CodeInternalError : string := "internal_error".

Record Error := mkError {
  err_Code : string;
  err_Message : string;
  err_Recoverable : bool;
  err_Details : gmap string string;
}.

#[global] Instance Error_eq_dec : EqDecision Error.
Proof. solve_decision. Defined.

(** A Go [error]: a [kernel.Error], any other error value, an error wrapped with
    a text in front ([fmt.Errorf] with [%w]) or around it, two joined errors
    ([errors.Join]), a value of an error type of its own that unwraps to [inner]
    (its type's name and one field), or [Diverged], the value the model gives to a
    loop whose fuel ran out (shown unreachable). *)
Inductive error :=
| KernelError (e : Error)
| OtherError (msg : string)
| WrapError (msg : string) (inner : error)
| FormatError (front : string) (inner : error) (back : string)
| TypedError (type field : string) (inner : error)
| JoinError (first second : error)
| Diverged.

#[global] Instance error_eq_dec : EqDecision error.
Proof. unfold EqDecision, Decision. decide equality; apply (decide (_ = _)). Defined.

Abbreviation res := (result error).

Definition Error_Error (e : Error) : string :=
  if bool_decide (err_Message e <> "") then (err_Code e +:+ ": " +:+ err_Message e)%string
  else err_Code e.

(** [errors.As] looks through wrapped and joined errors. *)
Fixpoint kernel_error (err : error) : option Error :=
  match err with
  | KernelError e => Some e
  | WrapError _ inner | FormatError _ inner _ | TypedError _ _ inner => kernel_error inner
  | JoinError first second => match kernel_error first with Some e => Some e | None => kernel_error second end
  | _ => None
  end.

(** [err.Error()]. *)
Fixpoint error_text (err : error) : string :=
  match err with
  | KernelError e => Error_Error e
  | OtherError msg => msg
  | WrapError msg inner => (msg +:+ ": " +:+ error_text inner)%string
  | FormatError front inner back => (front +:+ error_text inner +:+ back)%string
  | TypedError _ _ inner => error_text inner
  | JoinError first second => (error_text first +:+ String (Ascii.ascii_of_nat 10) (error_text second))%string
  | Diverged => ""
  end.

(** [errors.As] with a target of an error type of its own: its field. *)
Fixpoint errors_As (type : string) (err : error) : option string :=
  match err with
  | TypedError t field inner => if bool_decide (t = type) then Some field else errors_As type inner
  | WrapError _ inner | FormatError _ inner _ => errors_As type inner
  | JoinError first second => match errors_As type first with Some f => Some f | None => errors_As type second end
  | _ => None
  end.

Definition ErrorCodeOf (err : option error) : string :=
  match err with
  | None => ""
  | Some err => match kernel_error err with Some e => err_Code e | None => CodeInternalError end
  end.

(** [if err != nil { return fmt.Errorf("msg: %w", err) }]. *)
Definition wrap {A} (msg : string) (r : res A) : res A :=
  match r with Ok a => Ok a | Err e => Err (WrapError msg e) end.


Definition IsCode (err : option error) (code : string) : bool :=
  bool_decide (ErrorCodeOf err = code).

Definition kerr (code message : string) (recoverable : bool) : error :=
  KernelError (mkError code message recoverable ∅).

Definition Forbidden (message : string) : error := kerr CodeForbidden message false.
Definition InvalidArgument (message : string) : error := kerr CodeInvalidRequest message false.
Definition IdempotencyConflict : error :=
  kerr CodeIdempotencyConflict "idempotency key was already used with a different payload" false.
Definition StaleBinding (message : string) : error := kerr CodeStaleBinding message true.
Definition LeaseConflict (message : string) : error := kerr CodeLeaseConflict message true.
Definition ScopeNotPending (message : string) : error := kerr CodeScopeNotPending message true.
Definition EndpointInFlight (message : string) : error := kerr CodeEndpointInFlight message true.
Definition InvalidGraph (message : string) : error := kerr CodeInvalidGraph message false.
Definition IncompleteStopEvidence (message : string) : error := kerr CodeIncompleteStopEvidence message true.
Definition TransitionRejected (message : string) : error := kerr CodeTransitionRejected message true.

(** The state of a [context.Context] an operation tests on entry. *)
Abbreviation Context := (option error).
Definition ctx_Err (ctx : Context) : res unit :=
  match ctx with Some e => Err e | None => Ok tt end.

(** ** Identifiers *)

Abbreviation ProjectID := string.
Abbreviation TaskID := string.
Abbreviation EndpointID := string.
Abbreviation InvocationID := string.
Abbreviation ActorPrincipalID := string.
Abbreviation BindingRef := string.
Abbreviation LeaseID := string.
Abbreviation IdempotencyKey := string.
Abbreviation IDScope := string.

Definition IsZeroID (id : string) : bool := bool_decide (TrimSpace id = "").

Definition RequireID (name id : string) : res unit :=
  fail_if (IsZeroID id) (InvalidArgument (name +:+ " is required")).

Lemma RequireID_Ok name id u : RequireID name id = Ok u <-> IsZeroID id = false.
Proof. apply fail_if_Ok. Qed.

Lemma IsZeroID_empty : IsZeroID "" = true.
Proof. reflexivity. Qed.

Lemma not_zero_nonempty id : IsZeroID id = false -> id <> "".
Proof. intros H ->. by rewrite IsZeroID_empty in H. Qed.

(** ** Revisions: monotonic optimistic-concurrency tokens *)

Abbreviation Revision := Z.
Definition LatestRevision : Revision := 0%Z.
Definition IsLatestRead (r : Revision) : bool := bool_decide (r = LatestRevision).
Definition Revision_Next (r : Revision) : Revision := uint64_wrap (r + 1).

Definition RevisionConflict (expected actual : Revision) : error :=
  KernelError (mkError CodeRevisionConflict
    ("revision conflict: expected " +:+ format_int expected +:+ ", actual " +:+ format_int actual) true
    {[ "expected_revision" := format_int expected; "actual_revision" := format_int actual ]}).

Definition CheckExpectedRevision (expected actual : Revision) : res unit :=
  _ ← fail_if (bool_decide (expected = LatestRevision)) (RevisionConflict expected actual);
  fail_if (bool_decide (expected <> actual)) (RevisionConflict expected actual).

Lemma CheckExpectedRevision_Ok expected actual u :
  CheckExpectedRevision expected actual = Ok u <-> expected = actual /\ expected <> LatestRevision.
Proof.
  unfold CheckExpectedRevision, fail_if. destruct u.
  repeat case_bool_decide; simpl; naive_solver.
Qed.

Lemma CheckExpectedRevision_Err expected actual e :
  CheckExpectedRevision expected actual = Err e -> e = RevisionConflict expected actual.
Proof. unfold CheckExpectedRevision. rewrite bind_Err. setoid_rewrite fail_if_Err. naive_solver. Qed.

#[export] Hint Resolve not_zero_nonempty : threadmill.
