(* ===== verification/CoordTypes.v ===== *)
(** * Data model of the coordination graph

    [internal/coordination/types.go], the record types of [command_store.go]
    and [memory_store.go].  Go's string enumerations stay strings, because the
    validators of the component are what restricts them. *)

From stdpp Require Import base tactics option list strings gmap.
From Stdlib Require Import ZArith.
From S2P Require Import Prelude GoLib Kernel.

(** ** Enumerations *)

Definition EndpointPlan : EndpointID := "plan".
Definition EndpointExecute : EndpointID := "execute".
Definition EndpointVerify : EndpointID := "verify".

Definition TaskActive : string := "active".
Definition TaskDone : string := "done".
Definition TaskCanceled : string := "canceled".
Definition TaskFailed : string := "failed".

Definition EndpointPending : string := "pending".
Definition EndpointSubmitted : string := "submitted".
Definition EndpointSatisfied : string := "satisfied".
Definition EndpointRejected : string := "rejected".

Definition RunEnabled : string := "enabled".
Definition RunHeld : string := "held".

Definition SignalPhaseSatisfied : string := "phase_satisfied".
Definition SignalTaskDone : string := "task_done".

Definition RequiredByStart : string := "start".
Definition RequiredByCompletion : string := "completion".

Definition OnFalseBlock : string := "block".
Definition OnFalseReplan : string := "replan".
Definition OnFalseCancel : string := "cancel".

Definition BlockerActive : string := "active".
Definition BlockerResolved : string := "resolved".
Definition BlockerDenied : string := "denied".
Definition BlockerObsolete : string := "obsolete".

Definition VerdictSubmitted : string := "submitted".
Definition VerdictSatisfied : string := "satisfied".
Definition VerdictRejected : string := "rejected".
Definition VerdictInvalidated : string := "invalidated".

Definition CommandStart : string := "start".
Definition CommandStop : string := "stop".
Definition CommandResume : string := "resume".

Definition TargetPhaseEndpoint : string := "phase_endpoint".
Definition TargetBlocker : string := "blocker".
Definition TargetTask : string := "task".

(** ** Graph records *)

Record PhaseEndpointRef := mkRef {
  ref_TaskID : TaskID;
  ref_EndpointID : EndpointID;
}.

#[global] Instance PhaseEndpointRef_eq_dec : EqDecision PhaseEndpointRef.
Proof. solve_decision. Defined.

#[global] Program Instance PhaseEndpointRef_countable : Countable PhaseEndpointRef :=
  inj_countable' (fun r => (ref_TaskID r, ref_EndpointID r)) (fun p => mkRef p.1 p.2) _.
Next Obligation. by intros []. Qed.

Definition zeroRef : PhaseEndpointRef := mkRef "" "".

Record Task := mkTask {
  task_ID : TaskID;
  task_ContractRef : string;
  task_Outcome : string;
}.

#[global] Instance Task_eq_dec : EqDecision Task.
Proof. solve_decision. Defined.

Definition task_set_Outcome (o : string) (t : Task) : Task :=
  mkTask (task_ID t) (task_ContractRef t) o.

Record PhaseEndpoint := mkEndpoint {
  ep_Ref : PhaseEndpointRef;
  ep_SpecRef : string;
  ep_BindingRef : BindingRef;
  ep_Generation : Z;
  ep_State : string;
  ep_RunPolicy : string;
}.

#[global] Instance PhaseEndpoint_eq_dec : EqDecision PhaseEndpoint.
Proof. solve_decision. Defined.

Definition ep_set_State (s : string) (e : PhaseEndpoint) : PhaseEndpoint :=
  mkEndpoint (ep_Ref e) (ep_SpecRef e) (ep_BindingRef e) (ep_Generation e) s (ep_RunPolicy e).
Definition ep_set_RunPolicy (p : string) (e : PhaseEndpoint) : PhaseEndpoint :=
  mkEndpoint (ep_Ref e) (ep_SpecRef e) (ep_BindingRef e) (ep_Generation e) (ep_State e) p.
(** [endpoint.Generation++] together with the new binding. *)
Definition ep_next_Generation (b : BindingRef) (e : PhaseEndpoint) : PhaseEndpoint :=
  mkEndpoint (ep_Ref e) (ep_SpecRef e) b (int_wrap (ep_Generation e + 1)) (ep_State e) (ep_RunPolicy e).
Definition ep_set_SpecRef (s : string) (e : PhaseEndpoint) : PhaseEndpoint :=
  mkEndpoint (ep_Ref e) s (ep_BindingRef e) (ep_Generation e) (ep_State e) (ep_RunPolicy e).

Record Edge := mkEdge {
  edge_From : PhaseEndpointRef;
  edge_To : PhaseEndpointRef;
  edge_Signal : string;
  edge_RequiredBy : string;
  edge_ArtifactKinds : list string;
  edge_OnFalse : string;
}.

#[global] Instance Edge_eq_dec : EqDecision Edge.
Proof. solve_decision. Defined.

Record Blocker := mkBlocker {
  blk_ID : string;
  blk_Target : PhaseEndpointRef;
  blk_RequiredBy : string;
  blk_OnFalse : string;
  blk_State : string;
}.

#[global] Instance Blocker_eq_dec : EqDecision Blocker.
Proof. solve_decision. Defined.

Definition blk_set_State (s : string) (b : Blocker) : Blocker :=
  mkBlocker (blk_ID b) (blk_Target b) (blk_RequiredBy b) (blk_OnFalse b) s.

Record PhaseResult := mkResult {
  pr_ID : string;
  pr_Endpoint : PhaseEndpointRef;
  pr_BindingRef : BindingRef;
  pr_OutputRef : string;
  pr_Verdict : string;
}.

#[global] Instance PhaseResult_eq_dec : EqDecision PhaseResult.
Proof. solve_decision. Defined.

Definition zeroResult : PhaseResult := mkResult "" zeroRef "" "" "".

Record PhaseCommand := mkCommand {
  cmd_ID : string;
  cmd_Endpoint : PhaseEndpointRef;
  cmd_Generation : Z;
  cmd_BindingRef : BindingRef;
  cmd_LeaseRef : LeaseID;
  cmd_Action : string;
  cmd_CauseRef : string;
}.

#[global] Instance PhaseCommand_eq_dec : EqDecision PhaseCommand.
Proof. solve_decision. Defined.

Definition zeroCommand : PhaseCommand := mkCommand "" zeroRef 0 "" "" "" "".

Record GraphSnapshot := mkSnapshot {
  snap_Revision : Revision;
  snap_Tasks : list Task;
  snap_Endpoints : list PhaseEndpoint;
  snap_Edges : list Edge;
  snap_Blockers : list Blocker;
  snap_Results : list PhaseResult;
}.

Record PendingSubgraph := mkPending {
  ps_RequestID : IdempotencyKey;
  ps_BaseRevision : Revision;
  ps_Tasks : list Task;
  ps_Endpoints : list PhaseEndpoint;
  ps_Edges : list Edge;
  ps_Blockers : list Blocker;
}.

Record GraphTransition := mkTransition {
  tr_TargetKind : string;
  tr_Endpoint : PhaseEndpointRef;
  tr_BlockerID : string;
  tr_TaskID : TaskID;
  tr_Action : string;
  tr_Generation : Z;
  tr_Result : PhaseResult;
  tr_NewBindingRef : BindingRef;
  tr_ExecuteBindingRef : BindingRef;
  tr_VerifyBindingRef : BindingRef;
  tr_NewSpecRef : string;
  tr_CheckpointRef : string;
  tr_NonResumable : bool;
  tr_EvidenceRefs : list string;
}.

#[global] Instance GraphTransition_eq_dec : EqDecision GraphTransition.
Proof. solve_decision. Defined.

(** ** The graph state of a project *)

Record graphState := mkGraph {
  g_tasks : gmap TaskID Task;
  g_endpoints : gmap PhaseEndpointRef PhaseEndpoint;
  g_edges : list Edge;
  g_blockers : gmap string Blocker;
  g_results : gmap string PhaseResult;
}.

Definition newGraphState : graphState := mkGraph ∅ ∅ [] ∅ ∅.

Definition g_set_task (id : TaskID) (t : Task) (s : graphState) : graphState :=
  mkGraph (<[id:=t]> (g_tasks s)) (g_endpoints s) (g_edges s) (g_blockers s) (g_results s).
Definition g_set_endpoint (r : PhaseEndpointRef) (e : PhaseEndpoint) (s : graphState) : graphState :=
  mkGraph (g_tasks s) (<[r:=e]> (g_endpoints s)) (g_edges s) (g_blockers s) (g_results s).
Definition g_set_edges (es : list Edge) (s : graphState) : graphState :=
  mkGraph (g_tasks s) (g_endpoints s) es (g_blockers s) (g_results s).
Definition g_set_blockers (bs : gmap string Blocker) (s : graphState) : graphState :=
  mkGraph (g_tasks s) (g_endpoints s) (g_edges s) bs (g_results s).
Definition g_set_blocker (id : string) (b : Blocker) (s : graphState) : graphState :=
  g_set_blockers (<[id:=b]> (g_blockers s)) s.
Definition g_set_result (id : string) (r : PhaseResult) (s : graphState) : graphState :=
  mkGraph (g_tasks s) (g_endpoints s) (g_edges s) (g_blockers s) (<[id:=r]> (g_results s)).

(** ** Runtime records kept beside the graph *)

Record commandRecord := mkCommandRecord {
  cr_Command : PhaseCommand;
  cr_Accepted : bool;
  cr_ObservedEventRef : string;
  cr_CompletedEventRef : string;
  cr_RetryScheduled : bool;
  cr_Quarantined : bool;
  cr_NotExecutable : bool;
}.

Definition newCommandRecord (c : PhaseCommand) : commandRecord :=
  mkCommandRecord c false "" "" false false false.

Record phaseLease := mkLease {
  ls_LeaseRef : LeaseID;
  ls_Endpoint : PhaseEndpointRef;
  ls_Generation : Z;
  ls_BindingRef : BindingRef;
  ls_State : string;
  ls_ExpiresAt : Time;
  ls_Expired : bool;
}.

Definition ls_set_State (s : string) (l : phaseLease) : phaseLease :=
  mkLease (ls_LeaseRef l) (ls_Endpoint l) (ls_Generation l) (ls_BindingRef l) s (ls_ExpiresAt l) (ls_Expired l).
Definition ls_set_Expired (b : bool) (l : phaseLease) : phaseLease :=
  mkLease (ls_LeaseRef l) (ls_Endpoint l) (ls_Generation l) (ls_BindingRef l) (ls_State l) (ls_ExpiresAt l) b.

Record phaseObservation := mkObservation {
  ob_ID : string;
  ob_Kind : string;
  ob_CommandID : string;
  ob_Endpoint : PhaseEndpointRef;
  ob_Generation : Z;
  ob_BindingRef : BindingRef;
  ob_LeaseRef : LeaseID;
  ob_CheckpointRef : string;
  ob_NonResumable : bool;
  ob_DispatchError : string;
  ob_DispatchTarget : PhaseEndpointRef;
  ob_Folded : bool;
}.

Definition ob_set_Folded (b : bool) (o : phaseObservation) : phaseObservation :=
  mkObservation (ob_ID o) (ob_Kind o) (ob_CommandID o) (ob_Endpoint o) (ob_Generation o)
    (ob_BindingRef o) (ob_LeaseRef o) (ob_CheckpointRef o) (ob_NonResumable o)
    (ob_DispatchError o) (ob_DispatchTarget o) b.

Record bindingRuntimeInfo := mkBinding {
  bi_CheckpointRef : string;
  bi_NonResumable : bool;
}.

Definition zeroBinding : bindingRuntimeInfo := mkBinding "" false.

Record memoryRuntimeState := mkRuntime {
  rt_commands : gmap string commandRecord;
  rt_leases : gmap LeaseID phaseLease;
  rt_observations : list phaseObservation;
  rt_bindings : gmap BindingRef bindingRuntimeInfo;
}.

Definition newMemoryRuntimeState : memoryRuntimeState := mkRuntime ∅ ∅ [] ∅.

Definition rt_set_command (id : string) (c : commandRecord) (r : memoryRuntimeState) : memoryRuntimeState :=
  mkRuntime (<[id:=c]> (rt_commands r)) (rt_leases r) (rt_observations r) (rt_bindings r).
Definition rt_set_lease (id : LeaseID) (l : phaseLease) (r : memoryRuntimeState) : memoryRuntimeState :=
  mkRuntime (rt_commands r) (<[id:=l]> (rt_leases r)) (rt_observations r) (rt_bindings r).
Definition rt_set_observations (os : list phaseObservation) (r : memoryRuntimeState) : memoryRuntimeState :=
  mkRuntime (rt_commands r) (rt_leases r) os (rt_bindings r).
Definition rt_set_binding (b : BindingRef) (i : bindingRuntimeInfo) (r : memoryRuntimeState) : memoryRuntimeState :=
  mkRuntime (rt_commands r) (rt_leases r) (rt_observations r) (<[b:=i]> (rt_bindings r)).

Definition phaseObservationStarted : string := "PhaseInvocationStarted".
Definition phaseObservationOutput : string := "PhaseOutputSubmitted".
Definition phaseObservationFailed : string := "PhaseInvocationFailed".
Definition phaseObservationStopped : string := "PhaseInvocationStopped".

Definition isRunCommand (command : PhaseCommand) : bool :=
  bool_decide (cmd_Action command = CommandStart) || bool_decide (cmd_Action command = CommandResume).

(** [switch] over string constants: membership in the list of cases. *)
Definition one_of (s : string) (l : list string) : bool := bool_decide (s ∈ l).
