(* ===== verification/Acyclic.v ===== *)
(** * Depth-first cycle detection

    The recursive closure [visit] of [validateAcyclic]
    ([internal/coordination/validation.go]) over an arbitrary adjacency map.
    [visiting] is the set of nodes on the call stack, [visited] the set of
    finished nodes.  The recursion is bounded by fuel; [visit_Err] shows that
    one more than the number of nodes is always enough. *)

From stdpp Require Import base tactics option list gmap relations.
From S2P Require Import Prelude.

Section dfs.
Context {E A : Type} `{Countable A}.
Variable adjacent : gmap A (list A).
Variables cycle_error diverged : E.

Definition successors (x : A) : list A := default [] (adjacent !! x).
Definition edge_to (x y : A) : Prop := y ∈ successors x.
Definition before (y x : A) : Prop := edge_to x y.

Fixpoint visit (fuel : nat) (marks : gset A * gset A) (ref : A) : result E (gset A * gset A) :=
  match fuel with
  | 0 => Err diverged
  | S fuel' =>
    let '(visiting, visited) := marks in
    if decide (ref ∈ visiting) then Err cycle_error
    else if decide (ref ∈ visited) then Ok (visiting, visited)
    else
      marks' ← foldM (visit fuel') ({[ref]} ∪ visiting, visited) (successors ref);
      Ok (marks'.1 ∖ {[ref]}, {[ref]} ∪ marks'.2)
  end.

Definition visit_all (fuel : nat) (refs : list A) : result E (gset A * gset A) :=
  foldM (visit fuel) (∅, ∅) refs.

(** What a successful visit leaves behind. *)
Definition visit_post (V D : gset A) (xs : list A) (marks : gset A * gset A) : Prop :=
  marks.1 = V /\ D ⊆ marks.2 /\ (forall x, x ∈ xs -> x ∈ marks.2) /\
  ((forall y, y ∈ D -> Acc before y) -> forall y, y ∈ marks.2 -> Acc before y).

Lemma fold_visit_post fuel V D xs marks :
  (forall D x marks, visit fuel (V, D) x = Ok marks -> visit_post V D [x] marks) ->
  foldM (visit fuel) (V, D) xs = Ok marks -> visit_post V D xs marks.
Proof.
  intros Hv. revert D. induction xs as [|x xs IH]; intros D; simpl.
  - intros [= <-]. unfold visit_post; simpl. split_and!; [done|done|by intros ? ?%elem_of_nil|by auto].
  - rewrite bind_Ok. intros ([V1 D1] & Hx & Hxs).
    apply Hv in Hx as (HV & HD & Hin & Hacc). simpl in *. subst V1.
    apply IH in Hxs as (HV' & HD' & Hin' & Hacc'). unfold visit_post. split_and!.
    + done.
    + set_solver.
    + intros y [->|Hy]%elem_of_cons; [apply HD', Hin; set_solver|by apply Hin'].
    + auto.
Qed.

Lemma visit_Ok fuel V D x marks :
  visit fuel (V, D) x = Ok marks -> visit_post V D [x] marks.
Proof.
  revert V D x marks. induction fuel as [|fuel IH]; intros V D x marks; simpl; [done|].
  destruct (decide (x ∈ V)) as [|HxV]; [done|].
  destruct (decide (x ∈ D)) as [HxD|HxD].
  { intros [= <-]. unfold visit_post; simpl. split_and!; [done|done| |by auto].
    by intros y ->%list_elem_of_singleton. }
  rewrite bind_Ok. intros ([V1 D1] & Hfold & [= <-]).
  apply fold_visit_post in Hfold as (HV & HD & Hin & Hacc); [|by intros; apply IH].
  simpl in *. subst V1. unfold visit_post; simpl. split; [set_solver|].
  split; [set_solver|]. split; [set_solver|].
  intros HaccD y [->%elem_of_singleton|Hy]%elem_of_union; [|by apply Hacc].
  constructor. intros z Hz. apply Hacc; [done|]. apply Hin, Hz.
Qed.

Lemma Acc_no_cycle x : Acc before x -> ~ tc edge_to x x.
Proof.
  induction 1 as [x _ IH]. intros Hx. inversion Hx as [? ? Hxx|? y ? Hxy Hyx]; subst.
  - apply (IH x Hxx). by apply tc_once.
  - apply (IH y Hxy). eapply tc_r; [exact Hyx|exact Hxy].
Qed.

Section errors.
Variable nodes : gset A.
Hypothesis nodes_closed : forall x y, x ∈ nodes -> y ∈ successors x -> y ∈ nodes.

(** With enough fuel the only error is the cycle error, and there is a cycle. *)
Definition cycle_found (e : E) : Prop :=
  e = cycle_error /\ exists c, c ∈ nodes /\ tc edge_to c c.

Lemma fold_visit_Err fuel V D xs e :
  (forall D x, x ∈ xs -> visit fuel (V, D) x = Err e -> cycle_found e) ->
  foldM (visit fuel) (V, D) xs = Err e -> cycle_found e.
Proof.
  intros Hv. revert D. induction xs as [|x xs IH]; intros D; simpl; [done|].
  rewrite bind_Err. intros [Hx|([V1 D1] & Hx & Hxs)].
  - apply (Hv D x); [by left|done].
  - apply visit_Ok in Hx as (HV & _). simpl in HV. subst V1.
    apply (IH ltac:(intros; eapply Hv; [by right|done]) D1 Hxs).
Qed.

Lemma visit_Err fuel V D x e :
  x ∈ nodes -> size (nodes ∖ V) < fuel ->
  (forall v, v ∈ V -> tc edge_to v x) ->
  visit fuel (V, D) x = Err e -> cycle_found e.
Proof.
  revert V D x. induction fuel as [|fuel IH]; intros V D x Hx Hsz HV; [lia|]. simpl.
  destruct (decide (x ∈ V)) as [HxV|HxV].
  { intros [= <-]. split; [done|]. exists x. auto. }
  destruct (decide (x ∈ D)) as [HxD|HxD]; [done|].
  rewrite bind_Err. intros [Hfold|(? & _ & ?)]; [|done].
  eapply fold_visit_Err; [|exact Hfold].
  intros D' y Hy Hvis. apply (IH ({[x]} ∪ V) D' y); [by eapply nodes_closed| | |done].
  - assert (size (nodes ∖ ({[x]} ∪ V)) < size (nodes ∖ V)); [|lia].
    apply subset_size. set_solver.
  - intros v [->%elem_of_singleton|Hv]%elem_of_union; [by apply tc_once|].
    eapply tc_r; [by apply HV|exact Hy].
Qed.

(** The search from every node succeeds exactly when the graph has no cycle,
    and otherwise reports the cycle error. *)
Lemma visit_all_Ok_iff fuel refs :
  size nodes < fuel ->
  (forall x, x ∈ refs <-> x ∈ nodes) ->
  (exists marks, visit_all fuel refs = Ok marks) <->
  (forall x, x ∈ nodes -> ~ tc edge_to x x).
Proof.
  intros Hfuel Hrefs. unfold visit_all. split.
  - intros (marks & Hf).
    apply fold_visit_post in Hf as (_ & _ & Hin & Hacc); [|by intros; eapply visit_Ok].
    intros x Hx%Hrefs. apply Acc_no_cycle, Hacc; [set_solver|by apply Hin].
  - intros Hnc. destruct (foldM _ _ _) as [marks|e] eqn:Hf; [by eauto|exfalso].
    apply fold_visit_Err in Hf as (_ & c & Hc & Hcyc); [by apply (Hnc c)|].
    intros D x Hx%Hrefs Hvis. eapply visit_Err in Hvis; [done|done| |set_solver].
    rewrite difference_empty_L. lia.
Qed.

Lemma visit_all_Err fuel refs e :
  size nodes < fuel ->
  (forall x, x ∈ refs -> x ∈ nodes) ->
  visit_all fuel refs = Err e -> cycle_found e.
Proof.
  intros Hfuel Hrefs Hf. eapply fold_visit_Err; [|exact Hf].
  intros D x Hx%Hrefs Hvis. eapply visit_Err in Hvis; [done|done| |set_solver].
  rewrite difference_empty_L. lia.
Qed.
End errors.
End dfs.
