(* ===== verification/Validation.v ===== *)
(** * Graph validation

    [internal/coordination/validation.go]: the shape checks of every graph
    record, the whole-graph check [validateGraph] and the shape check of
    transitions. [valid_graph] is the order-free specification that
    [validateGraph] decides. *)

From stdpp Require Import base tactics option list strings gmap relations.
From Stdlib Require Import ZArith.
From S2P Require Import Prelude GoLib Kernel CoordTypes Acyclic.

Definition fixedEndpoints : list EndpointID := [EndpointPlan; EndpointExecute; EndpointVerify].

Definition isFixedEndpoint (endpointID : EndpointID) : bool :=
  existsb (fun fixed => bool_decide (endpointID = fixed)) fixedEndpoints.

Definition validateTask (task : Task) : res unit :=
  _ ← RequireID "task.id" (task_ID task);
  _ ← fail_if (bool_decide (task_ContractRef task = "")) (InvalidArgument "task.contract_ref is required");
  fail_if (negb (one_of (task_Outcome task) [TaskActive; TaskDone; TaskCanceled; TaskFailed]))
    (InvalidArgument "task.outcome is not allowed").

Definition validateEndpointRef (ref : PhaseEndpointRef) : res unit :=
  _ ← RequireID "endpoint.task_id" (ref_TaskID ref);
  fail_if (negb (isFixedEndpoint (ref_EndpointID ref)))
    (InvalidArgument "endpoint_id must be one of plan, execute, verify").

Definition validateEndpoint (endpoint : PhaseEndpoint) : res unit :=
  _ ← validateEndpointRef (ep_Ref endpoint);
  _ ← fail_if (bool_decide (ep_SpecRef endpoint = "")) (InvalidArgument "endpoint.spec_ref is required");
  _ ← RequireID "endpoint.binding_ref" (ep_BindingRef endpoint);
  _ ← fail_if (ep_Generation endpoint <=? 0)%Z (InvalidArgument "endpoint.generation must be positive");
  _ ← fail_if (negb (one_of (ep_State endpoint)
        [EndpointPending; EndpointSubmitted; EndpointSatisfied; EndpointRejected]))
      (InvalidArgument "endpoint.state is not allowed");
  fail_if (negb (one_of (ep_RunPolicy endpoint) [RunEnabled; RunHeld]))
    (InvalidArgument "endpoint.run_policy is not allowed").

Definition validateEdge (edge : Edge) : res unit :=
  _ ← validateEndpointRef (edge_From edge);
  _ ← validateEndpointRef (edge_To edge);
  _ ← fail_if (negb (one_of (edge_Signal edge) [SignalPhaseSatisfied; SignalTaskDone]))
      (InvalidArgument "edge.signal is not allowed");
  _ ← fail_if (negb (one_of (edge_RequiredBy edge) [RequiredByStart; RequiredByCompletion]))
      (InvalidArgument "edge.required_by is not allowed");
  _ ← fail_if (negb (one_of (edge_OnFalse edge) [OnFalseBlock; OnFalseReplan; OnFalseCancel]))
      (InvalidArgument "edge.on_false is not allowed");
  fail_if (bool_decide (ref_TaskID (edge_From edge) = ref_TaskID (edge_To edge)))
    (InvalidGraph "fixed plan/execute/verify order is not an editable edge").

Definition validateBlocker (blocker : Blocker) : res unit :=
  _ ← fail_if (bool_decide (blk_ID blocker = "")) (InvalidArgument "blocker.id is required");
  _ ← validateEndpointRef (blk_Target blocker);
  _ ← fail_if (negb (one_of (blk_RequiredBy blocker) [RequiredByStart; RequiredByCompletion]))
      (InvalidArgument "blocker.required_by is not allowed");
  _ ← fail_if (negb (one_of (blk_OnFalse blocker) [OnFalseBlock; OnFalseReplan; OnFalseCancel]))
      (InvalidArgument "blocker.on_false is not allowed");
  fail_if (negb (one_of (blk_State blocker)
      [BlockerActive; BlockerResolved; BlockerDenied; BlockerObsolete]))
    (InvalidArgument "blocker.state is not allowed").

Definition validateResult (result : PhaseResult) : res unit :=
  _ ← fail_if (bool_decide (pr_ID result = "")) (InvalidArgument "phase_result.id is required");
  _ ← validateEndpointRef (pr_Endpoint result);
  _ ← RequireID "phase_result.binding_ref" (pr_BindingRef result);
  _ ← fail_if (bool_decide (pr_OutputRef result = "")) (InvalidArgument "phase_result.output_ref is required");
  fail_if (negb (one_of (pr_Verdict result)
      [VerdictSubmitted; VerdictSatisfied; VerdictRejected; VerdictInvalidated]))
    (InvalidArgument "phase_result.verdict is not allowed").

(** The endpoint ids seen for a task among a list of endpoint refs. *)
Definition endpoints_seen (taskID : TaskID) (refs : list PhaseEndpointRef) : gset EndpointID :=
  list_to_set (ref_EndpointID <$> filter (fun r => ref_TaskID r = taskID) refs).

Definition requireFixedEndpointSet (taskID : TaskID) (endpoints : list PhaseEndpoint) : res unit :=
  let seen := endpoints_seen taskID (ep_Ref <$> endpoints) in
  _ ← each (fun endpointID => fail_if (bool_decide (endpointID ∉ seen))
        (InvalidArgument ("new task " +:+ taskID +:+ " must include " +:+ endpointID +:+ " endpoint")))
      fixedEndpoints;
  fail_if (bool_decide (size seen <> length fixedEndpoints))
    (InvalidArgument "new task endpoint set must be exactly plan, execute, verify").

Definition edgeKey (edge : Edge) : string :=
  ref_TaskID (edge_From edge) +:+ "/" +:+ ref_EndpointID (edge_From edge) +:+ ">" +:+
  ref_TaskID (edge_To edge) +:+ "/" +:+ ref_EndpointID (edge_To edge) +:+ ":" +:+
  edge_Signal edge +:+ ":" +:+ edge_RequiredBy edge.

Section with_runtime.
Context `{GR : GoRuntime}.

Definition taskHasFixedEndpointSet (state : graphState) (taskID : TaskID) : res unit :=
  let seen := endpoints_seen taskID (range_keys (g_endpoints state)) in
  _ ← each (fun endpointID => fail_if (bool_decide (endpointID ∉ seen))
        (InvalidArgument ("task " +:+ taskID +:+ " is missing " +:+ endpointID +:+ " endpoint")))
      fixedEndpoints;
  fail_if (bool_decide (size seen <> length fixedEndpoints))
    (InvalidArgument "task endpoint set must be exactly plan, execute, verify").

(** [adjacent[k] = append(adjacent[k], v)]. *)
Definition adjacent_append (m : gmap PhaseEndpointRef (list PhaseEndpointRef))
    (p : PhaseEndpointRef * PhaseEndpointRef) : gmap PhaseEndpointRef (list PhaseEndpointRef) :=
  <[p.1 := default [] (m !! p.1) ++ [p.2]]> m.

(** The pairs the two loops of [validateAcyclic] append, in order. *)
Definition dependency_pairs (state : graphState) : list (PhaseEndpointRef * PhaseEndpointRef) :=
  ((fun e => (edge_From e, edge_To e)) <$> g_edges state) ++
  (range_keys (g_tasks state) ≫= fun taskID =>
    [ (mkRef taskID EndpointPlan, mkRef taskID EndpointExecute);
      (mkRef taskID EndpointExecute, mkRef taskID EndpointVerify) ]).

Definition build_adjacent (state : graphState) : gmap PhaseEndpointRef (list PhaseEndpointRef) :=
  foldl adjacent_append ∅ (dependency_pairs state).

Definition graph_nodes (state : graphState) : gset PhaseEndpointRef :=
  dom (g_endpoints state) ∪ list_to_set (fst <$> dependency_pairs state)
    ∪ list_to_set (snd <$> dependency_pairs state).

Definition cycleError : error := InvalidGraph "coordination graph cannot contain cycles".

Definition validateAcyclic (state : graphState) : res unit :=
  _ ← visit_all (build_adjacent state) cycleError Diverged (S (size (graph_nodes state)))
        (range_keys (g_endpoints state));
  Ok tt.

Definition validateGraphEdge (state : graphState) (edgeKeys : gset string) (edge : Edge) : res (gset string) :=
  _ ← validateEdge edge;
  _ ← fail_if (bool_decide (edgeKey edge ∈ edgeKeys))
      (InvalidGraph "coordination graph cannot contain duplicate edges");
  _ ← fail_if (bool_decide (g_endpoints state !! edge_From edge = None))
      (InvalidGraph "edge source references unknown endpoint");
  _ ← fail_if (bool_decide (g_endpoints state !! edge_To edge = None))
      (InvalidGraph "edge target references unknown endpoint");
  Ok ({[edgeKey edge]} ∪ edgeKeys).

Definition validateGraph (state : graphState) : res unit :=
  _ ← each (fun task => _ ← validateTask task; taskHasFixedEndpointSet state (task_ID task))
      (range_values (g_tasks state));
  _ ← each (fun endpoint => _ ← validateEndpoint endpoint;
        fail_if (bool_decide (g_tasks state !! ref_TaskID (ep_Ref endpoint) = None))
          (InvalidGraph "endpoint references unknown task"))
      (range_values (g_endpoints state));
  _ ← foldM (validateGraphEdge state) ∅ (g_edges state);
  _ ← each (fun blocker => _ ← validateBlocker blocker;
        fail_if (bool_decide (g_endpoints state !! blk_Target blocker = None))
          (InvalidGraph "blocker references unknown endpoint"))
      (range_values (g_blockers state));
  _ ← each (fun result => _ ← validateResult result;
        fail_if (bool_decide (g_endpoints state !! pr_Endpoint result = None))
          (InvalidGraph "phase result references unknown endpoint"))
      (range_values (g_results state));
  validateAcyclic state.

End with_runtime.

Definition validateTransitionShape (transition : GraphTransition) : res unit :=
  if bool_decide (tr_TargetKind transition = TargetPhaseEndpoint) then
    _ ← validateEndpointRef (tr_Endpoint transition);
    _ ← fail_if (tr_Generation transition <=? 0)%Z
        (TransitionRejected "phase endpoint transition generation is required");
    fail_if (negb (one_of (tr_Action transition)
        [EndpointSubmitted; EndpointSatisfied; EndpointRejected; "reopened"; "held"; "released"; "stopped"]))
      (InvalidArgument "phase endpoint transition action is not allowed")
  else if bool_decide (tr_TargetKind transition = TargetBlocker) then
    _ ← fail_if (bool_decide (tr_BlockerID transition = "")) (InvalidArgument "blocker_id is required");
    fail_if (negb (one_of (tr_Action transition) [BlockerResolved; BlockerDenied; BlockerObsolete]))
      (InvalidArgument "blocker transition action is not allowed")
  else if bool_decide (tr_TargetKind transition = TargetTask) then
    _ ← RequireID "task_id" (tr_TaskID transition);
    if one_of (tr_Action transition) [TaskDone; TaskCanceled; TaskFailed] then Ok tt
    else if bool_decide (tr_Action transition = "reopen_round") then
      _ ← fail_if (bool_decide (tr_Endpoint transition <> zeroRef) || bool_decide (tr_BlockerID transition <> "")
            || bool_decide (tr_Generation transition <> 0%Z) || bool_decide (tr_Result transition <> zeroResult)
            || bool_decide (tr_NewBindingRef transition <> "") || bool_decide (tr_NewSpecRef transition <> "")
            || bool_decide (tr_CheckpointRef transition <> "") || tr_NonResumable transition)
          (InvalidArgument "reopen_round only accepts task_id, execute_binding_ref, verify_binding_ref, action, and evidence_refs");
      _ ← RequireID "execute_binding_ref" (tr_ExecuteBindingRef transition);
      _ ← RequireID "verify_binding_ref" (tr_VerifyBindingRef transition);
      fail_if (bool_decide (tr_ExecuteBindingRef transition = tr_VerifyBindingRef transition))
        (StaleBinding "reopen_round requires distinct execute and verify binding_ref values")
    else Err (InvalidArgument "task transition action is not allowed")
  else Err (InvalidArgument "transition target kind is not allowed").
