(* ===== verification/GraphSpec.v ===== *)
(** * Specification of a well-formed coordination graph

    [valid_graph] states, without any iteration order, what
    [Validation.validateGraph] decides: every record has its shape, every
    reference resolves, every task owns exactly its plan, execute and verify
    endpoints, and the dependency relation (edges plus the built-in
    plan-execute-verify order) has no cycle. *)

From stdpp Require Import base tactics option list strings gmap relations.
From Stdlib Require Import ZArith.
From S2P Require Import Prelude GoLib Kernel CoordTypes Acyclic Validation.

(** ** Shapes of records *)

Definition ref_ok (r : PhaseEndpointRef) : Prop :=
  IsZeroID (ref_TaskID r) = false /\ ref_EndpointID r ∈ fixedEndpoints.

Definition task_ok (t : Task) : Prop :=
  IsZeroID (task_ID t) = false /\ task_ContractRef t <> "" /\
  task_Outcome t ∈ [TaskActive; TaskDone; TaskCanceled; TaskFailed].

Definition endpoint_ok (e : PhaseEndpoint) : Prop :=
  ref_ok (ep_Ref e) /\ ep_SpecRef e <> "" /\ IsZeroID (ep_BindingRef e) = false /\
  (0 < ep_Generation e)%Z /\
  ep_State e ∈ [EndpointPending; EndpointSubmitted; EndpointSatisfied; EndpointRejected] /\
  ep_RunPolicy e ∈ [RunEnabled; RunHeld].

Definition edge_ok (e : Edge) : Prop :=
  ref_ok (edge_From e) /\ ref_ok (edge_To e) /\
  edge_Signal e ∈ [SignalPhaseSatisfied; SignalTaskDone] /\
  edge_RequiredBy e ∈ [RequiredByStart; RequiredByCompletion] /\
  edge_OnFalse e ∈ [OnFalseBlock; OnFalseReplan; OnFalseCancel] /\
  ref_TaskID (edge_From e) <> ref_TaskID (edge_To e).

Definition blocker_ok (b : Blocker) : Prop :=
  blk_ID b <> "" /\ ref_ok (blk_Target b) /\
  blk_RequiredBy b ∈ [RequiredByStart; RequiredByCompletion] /\
  blk_OnFalse b ∈ [OnFalseBlock; OnFalseReplan; OnFalseCancel] /\
  blk_State b ∈ [BlockerActive; BlockerResolved; BlockerDenied; BlockerObsolete].

Definition result_ok (r : PhaseResult) : Prop :=
  pr_ID r <> "" /\ ref_ok (pr_Endpoint r) /\ IsZeroID (pr_BindingRef r) = false /\
  pr_OutputRef r <> "" /\
  pr_Verdict r ∈ [VerdictSubmitted; VerdictSatisfied; VerdictRejected; VerdictInvalidated].

(** Task [id] owns exactly the three fixed endpoints. *)
Definition fixed_set (st : graphState) (id : TaskID) : Prop :=
  forall x, is_Some (g_endpoints st !! mkRef id x) <-> x ∈ fixedEndpoints.

(** The dependency relation: declared edges and the built-in phase order. *)
Inductive depends (st : graphState) : PhaseEndpointRef -> PhaseEndpointRef -> Prop :=
| depends_edge e : e ∈ g_edges st -> depends st (edge_From e) (edge_To e)
| depends_plan id : is_Some (g_tasks st !! id) ->
    depends st (mkRef id EndpointPlan) (mkRef id EndpointExecute)
| depends_execute id : is_Some (g_tasks st !! id) ->
    depends st (mkRef id EndpointExecute) (mkRef id EndpointVerify).

Record valid_graph (st : graphState) : Prop := {
  vg_tasks : forall id t, g_tasks st !! id = Some t -> task_ok t /\ fixed_set st (task_ID t);
  vg_endpoints : forall r e, g_endpoints st !! r = Some e ->
    endpoint_ok e /\ is_Some (g_tasks st !! ref_TaskID (ep_Ref e));
  vg_edges : forall e, e ∈ g_edges st ->
    edge_ok e /\ is_Some (g_endpoints st !! edge_From e) /\ is_Some (g_endpoints st !! edge_To e);
  vg_edge_keys : NoDup (edgeKey <$> g_edges st);
  vg_blockers : forall id b, g_blockers st !! id = Some b ->
    blocker_ok b /\ is_Some (g_endpoints st !! blk_Target b);
  vg_results : forall id r, g_results st !! id = Some r ->
    result_ok r /\ is_Some (g_endpoints st !! pr_Endpoint r);
  vg_acyclic : forall r, ~ tc (depends st) r r;
}.

(** Every map stores a record under the record's own identity. *)
Record coherent (st : graphState) : Prop := {
  co_tasks : forall id t, g_tasks st !! id = Some t -> task_ID t = id;
  co_endpoints : forall r e, g_endpoints st !! r = Some e -> ep_Ref e = r;
  co_blockers : forall id b, g_blockers st !! id = Some b -> blk_ID b = id;
  co_results : forall id r, g_results st !! id = Some r -> pr_ID r = id;
}.

(** ** Each validator decides its shape *)

Lemma one_of_true s l : one_of s l = true <-> s ∈ l.
Proof. apply bool_decide_eq_true. Qed.

Lemma isFixedEndpoint_true x : isFixedEndpoint x = true <-> x ∈ fixedEndpoints.
Proof.
  unfold isFixedEndpoint. rewrite existsb_elem. setoid_rewrite bool_decide_eq_true. naive_solver.
Qed.

Ltac validator :=
  rewrite ?bind_Ok, ?RequireID_Ok, ?fail_if_Ok, ?negb_false_iff, ?one_of_true,
    ?isFixedEndpoint_true, ?bool_decide_eq_false.

Lemma bind_unit_Ok {A} (m : res unit) (k : res A) a : (m ≫= fun _ => k) = Ok a <-> m = Ok tt /\ k = Ok a.
Proof. rewrite bind_Ok. split; [intros ([] & ? & ?); auto|naive_solver]. Qed.

Lemma validateEndpointRef_Ok r : validateEndpointRef r = Ok tt <-> ref_ok r.
Proof.
  unfold validateEndpointRef, ref_ok. rewrite bind_unit_Ok. validator. done.
Qed.

Lemma validateTask_Ok t : validateTask t = Ok tt <-> task_ok t.
Proof. unfold validateTask, task_ok. rewrite !bind_unit_Ok. validator. done. Qed.

Lemma validateEndpoint_Ok e : validateEndpoint e = Ok tt <-> endpoint_ok e.
Proof.
  unfold validateEndpoint, endpoint_ok. rewrite !bind_unit_Ok, validateEndpointRef_Ok. validator.
  rewrite Z.leb_gt. done.
Qed.

Lemma validateEdge_Ok e : validateEdge e = Ok tt <-> edge_ok e.
Proof. unfold validateEdge, edge_ok. rewrite !bind_unit_Ok, !validateEndpointRef_Ok. validator. done. Qed.

Lemma validateBlocker_Ok b : validateBlocker b = Ok tt <-> blocker_ok b.
Proof. unfold validateBlocker, blocker_ok. rewrite !bind_unit_Ok, validateEndpointRef_Ok. validator. done. Qed.

Lemma validateResult_Ok r : validateResult r = Ok tt <-> result_ok r.
Proof. unfold validateResult, result_ok. rewrite !bind_unit_Ok, validateEndpointRef_Ok. validator. done. Qed.

Lemma elem_of_endpoints_seen id refs x : x ∈ endpoints_seen id refs <-> mkRef id x ∈ refs.
Proof.
  unfold endpoints_seen. rewrite elem_of_list_to_set, list_elem_of_fmap.
  setoid_rewrite list_elem_of_filter. split.
  - intros ([t y] & -> & Ht & Hin). simpl in *. by subst.
  - intros Hin. by exists (mkRef id x).
Qed.

(** Three fixed endpoints present and three seen in all: exactly those. *)
Lemma seen_exact (seen : gset EndpointID) :
  (forall x, x ∈ fixedEndpoints -> x ∈ seen) /\ size seen = length fixedEndpoints <->
  (forall x, x ∈ seen <-> x ∈ fixedEndpoints).
Proof.
  assert (size (list_to_set fixedEndpoints : gset EndpointID) = length fixedEndpoints) as Hsz
    by reflexivity.
  split.
  - intros [Hin Hlen]. assert (list_to_set fixedEndpoints = seen) as <-.
    { apply set_subseteq_size_eq; [|by rewrite Hlen, Hsz].
      intros x Hx. apply Hin. by apply elem_of_list_to_set in Hx. }
    intros x. apply elem_of_list_to_set.
  - intros Hiff. split; [intros x; apply Hiff|].
    rewrite <- Hsz. f_equal. apply set_eq. intros x. by rewrite elem_of_list_to_set.
Qed.

Section with_runtime.
Context `{GR : GoRuntime}.

Lemma taskHasFixedEndpointSet_Ok st id :
  taskHasFixedEndpointSet st id = Ok tt <-> fixed_set st id.
Proof.
  unfold taskHasFixedEndpointSet, fixed_set. cbv zeta. rewrite bind_unit_Ok, each_Ok, guard_not_Ok.
  set (seen := endpoints_seen id _).
  assert (forall x, x ∈ seen <-> is_Some (g_endpoints st !! mkRef id x)) as Hseen.
  { intros x. unfold seen. by rewrite elem_of_endpoints_seen, elem_of_range_keys. }
  setoid_rewrite <- Hseen. rewrite <- seen_exact. by setoid_rewrite guard_not_Ok.
Qed.

Lemma is_Some_guard {A} (o : option A) (e : error) :
  fail_if (bool_decide (o = None)) e = Ok tt <-> is_Some o.
Proof. by rewrite fail_if_Ok, bool_decide_eq_false, not_eq_None_Some. Qed.

Lemma validate_edges_Ok st keys l :
  (exists keys', foldM (validateGraphEdge st) keys l = Ok keys') <->
  (forall e, e ∈ l -> edge_ok e /\ is_Some (g_endpoints st !! edge_From e) /\
     is_Some (g_endpoints st !! edge_To e)) /\
  NoDup (edgeKey <$> l) /\ (forall e, e ∈ l -> edgeKey e ∉ keys).
Proof.
  revert keys. induction l as [|e l IH]; intros keys; simpl.
  { split; [intros _|by eauto]. split_and!; [|constructor|]; by intros ? ?%elem_of_nil. }
  setoid_rewrite bind_Ok. setoid_rewrite elem_of_cons. rewrite NoDup_cons, list_elem_of_fmap.
  assert (forall keys', validateGraphEdge st keys e = Ok keys' <->
    (edge_ok e /\ is_Some (g_endpoints st !! edge_From e) /\ is_Some (g_endpoints st !! edge_To e)) /\
    edgeKey e ∉ keys /\ keys' = {[edgeKey e]} ∪ keys) as Hstep.
  { intros keys'. unfold validateGraphEdge.
    rewrite !bind_unit_Ok, validateEdge_Ok, !is_Some_guard, guard_Ok.
    split; [by intros (? & ? & ? & ? & [= <-])|by intros ((? & ? & ?) & ? & ->)]. }
  split.
  - intros (keys' & keys1 & (He & Hk & ->)%Hstep & Hl).
    destruct (proj1 (IH _) (ex_intro _ _ Hl)) as (Hall & Hnd & Hout).
    split_and!; [by intros e' [->|Hin]; [|apply Hall]| |done|].
    + intros (e' & Heq & Hin). apply (Hout e' Hin). rewrite Heq. set_solver.
    + intros e' [->|Hin]; [done|]. specialize (Hout e' Hin). set_solver.
  - intros (Hall & [Hnew Hnd] & Hout).
    destruct (proj2 (IH ({[edgeKey e]} ∪ keys))) as (keys' & Hl).
    { split_and!; [by auto|done|]. intros e' Hin.
      rewrite elem_of_union, elem_of_singleton. intros [Heq|Hk]; [|by apply (Hout e'); auto].
      apply Hnew. by exists e'. }
    exists keys', ({[edgeKey e]} ∪ keys). rewrite Hstep. auto 6.
Qed.

(** ** The adjacency map is the dependency relation *)

Lemma foldl_adjacent_append m l x y :
  y ∈ default [] (foldl adjacent_append m l !! x) <-> y ∈ default [] (m !! x) \/ (x, y) ∈ l.
Proof.
  revert m. induction l as [|[a b] l IH]; intros m; simpl.
  { rewrite elem_of_nil. tauto. }
  rewrite IH, elem_of_cons. unfold adjacent_append. simpl. destruct (decide (a = x)) as [->|Hne].
  - rewrite lookup_insert_eq. simpl. rewrite elem_of_app, list_elem_of_singleton. naive_solver.
  - rewrite lookup_insert_ne by done. naive_solver.
Qed.

Lemma elem_of_dependency_pairs st x y : (x, y) ∈ dependency_pairs st <-> depends st x y.
Proof.
  unfold dependency_pairs. rewrite elem_of_app, list_elem_of_fmap, list_elem_of_bind.
  setoid_rewrite elem_of_cons. setoid_rewrite elem_of_cons. setoid_rewrite elem_of_nil.
  setoid_rewrite elem_of_range_keys. split.
  - intros [(e & [= -> ->] & He)|(id & [[= -> ->]|[[= -> ->]|[]]] & Hid)]; by constructor.
  - inversion 1; subst; [left; eexists; eauto|right; eexists; split; [|done]; auto..].
Qed.

Lemma build_adjacent_spec st x y :
  edge_to (build_adjacent st) x y <-> depends st x y.
Proof.
  unfold edge_to, successors, build_adjacent.
  rewrite foldl_adjacent_append, lookup_empty, elem_of_dependency_pairs. simpl.
  rewrite elem_of_nil. tauto.
Qed.

Lemma tc_edge_to st x y : tc (edge_to (build_adjacent st)) x y <-> tc (depends st) x y.
Proof. by split; (induction 1 as [? ? ?|? ? ? ?];
  [apply tc_once|eapply tc_l; [|done]]; apply build_adjacent_spec). Qed.

(** Fuel: the search stays inside [graph_nodes]. *)
Lemma graph_nodes_closed st x y :
  x ∈ graph_nodes st -> y ∈ successors (build_adjacent st) x -> y ∈ graph_nodes st.
Proof.
  intros _ Hy. apply build_adjacent_spec, elem_of_dependency_pairs in Hy.
  unfold graph_nodes. rewrite !elem_of_union, !elem_of_list_to_set.
  right. apply list_elem_of_fmap. by exists (x, y).
Qed.

Lemma validateAcyclic_Err st e : validateAcyclic st = Err e ->
  e = cycleError /\ exists r, tc (depends st) r r.
Proof.
  unfold validateAcyclic. rewrite bind_Err. intros [Hv|(? & _ & ?)]; [|done].
  eapply (visit_all_Err _ _ _ (graph_nodes st)) in Hv as (-> & c & _ & Hc).
  - split; [done|]. exists c. by apply tc_edge_to.
  - apply graph_nodes_closed.
  - lia.
  - intros x Hx%elem_of_range_keys. unfold graph_nodes.
    rewrite !elem_of_union, elem_of_dom. by do 2 left.
Qed.

Lemma validateAcyclic_Ok st :
  (forall x y, depends st x y -> is_Some (g_endpoints st !! x) /\ is_Some (g_endpoints st !! y)) ->
  validateAcyclic st = Ok tt <-> forall r, ~ tc (depends st) r r.
Proof.
  intros Hclosed. split.
  - unfold validateAcyclic. rewrite bind_Ok. intros (marks & Hv & _) r Hr.
    revert r Hr. cut (forall r, r ∈ dom (g_endpoints st) -> ~ tc (edge_to (build_adjacent st)) r r).
    { intros Hcut r Hr. apply (Hcut r); [|by apply tc_edge_to].
      apply elem_of_dom. inversion Hr as [? ? Hd|? ? ? Hd]; subst; by apply (Hclosed _ _ Hd). }
    eapply visit_all_Ok_iff; [| | |exists marks; exact Hv].
    + intros x y _ Hy. apply elem_of_dom. by eapply Hclosed, build_adjacent_spec.
    + apply Nat.lt_succ_r, subseteq_size. unfold graph_nodes. set_solver.
    + intros x. by rewrite elem_of_range_keys, elem_of_dom.
  - intros Hnc. destruct (validateAcyclic st) as [[]|e] eqn:Hv; [done|].
    apply validateAcyclic_Err in Hv as (_ & r & Hr). by destruct (Hnc r).
Qed.

(** ** [validateGraph] decides [valid_graph] *)

Lemma each_values_Ok {K} `{Countable K} {V} (f g : V -> res unit) (P Q : V -> Prop) (m : gmap K V) :
  (forall v, f v = Ok tt <-> P v) -> (forall v, g v = Ok tt <-> Q v) ->
  each (fun v => f v ≫= fun _ => g v) (range_values m) = Ok tt <->
  forall k v, m !! k = Some v -> P v /\ Q v.
Proof.
  intros HP HQ. rewrite each_Ok. setoid_rewrite bind_unit_Ok.
  setoid_rewrite HP. setoid_rewrite HQ. setoid_rewrite elem_of_range_values. naive_solver.
Qed.

Lemma valid_depends_closed st x y :
  coherent st ->
  (forall id t, g_tasks st !! id = Some t -> task_ok t /\ fixed_set st (task_ID t)) ->
  (forall e, e ∈ g_edges st -> edge_ok e /\ is_Some (g_endpoints st !! edge_From e) /\
     is_Some (g_endpoints st !! edge_To e)) ->
  depends st x y -> is_Some (g_endpoints st !! x) /\ is_Some (g_endpoints st !! y).
Proof.
  intros Hco Htasks Hedges. inversion 1 as [e He|id [t Ht]|id [t Ht]]; subst.
  - naive_solver.
  - destruct (Htasks _ _ Ht) as [_ Hf]. rewrite (co_tasks _ Hco _ _ Ht) in Hf.
    split; apply Hf; unfold fixedEndpoints; set_solver.
  - destruct (Htasks _ _ Ht) as [_ Hf]. rewrite (co_tasks _ Hco _ _ Ht) in Hf.
    split; apply Hf; unfold fixedEndpoints; set_solver.
Qed.

Lemma validateGraph_Ok st : coherent st -> validateGraph st = Ok tt <-> valid_graph st.
Proof.
  intros Hco. unfold validateGraph. rewrite bind_unit_Ok, bind_unit_Ok, bind_Ok.
  setoid_rewrite bind_unit_Ok. setoid_rewrite bind_unit_Ok.
  rewrite (each_values_Ok _ _ _ _ _ validateTask_Ok
    (fun t => taskHasFixedEndpointSet_Ok st (task_ID t))).
  rewrite (each_values_Ok _ _ _ _ _ validateEndpoint_Ok (fun e => is_Some_guard _ _)).
  setoid_rewrite (each_values_Ok _ _ _ _ _ validateBlocker_Ok (fun e => is_Some_guard _ _)).
  setoid_rewrite (each_values_Ok _ _ _ _ _ validateResult_Ok (fun e => is_Some_guard _ _)).
  split.
  - intros (Ht & He & keys & Hedges & Hb & Hr & Hac).
    destruct (proj1 (validate_edges_Ok st ∅ (g_edges st)) (ex_intro _ _ Hedges)) as (Hes & Hnd & _).
    split; try assumption. eapply validateAcyclic_Ok; [|exact Hac]. intros. by eapply valid_depends_closed.
  - intros [Ht He Hes Hnd Hb Hr Hac]. split; [exact Ht|]. split; [exact He|].
    destruct (proj2 (validate_edges_Ok st ∅ (g_edges st))) as [keys Hkeys].
    { split_and!; [exact Hes|exact Hnd|]. intros ? _. apply not_elem_of_empty. }
    exists keys. split_and!; [exact Hkeys|exact Hb|exact Hr|]. apply validateAcyclic_Ok; [|done].
    intros. by eapply valid_depends_closed.
Qed.

End with_runtime.
