(* ===== verification/Pending.v ===== *)
(** * Replacing the pending subgraph

    The first half of [internal/coordination/validation.go]: what
    [ReplacePending] checks against the current graph and the runtime records,
    and how it applies the replacement. *)

From stdpp Require Import base tactics option list strings gmap.
From Stdlib Require Import ZArith.
From S2P Require Import Prelude GoLib Kernel CoordTypes Acyclic Validation GraphSpec.

Section with_runtime.
Context `{GR : GoRuntime}.

Definition rejectionRecorded (observations : list phaseObservation) (record : commandRecord) : bool :=
  existsb (fun observation =>
    bool_decide (ob_ID observation = cr_CompletedEventRef record) &&
    bool_decide (ob_Kind observation = "DispatchRejected") && ob_Folded observation &&
    bool_decide (ob_CommandID observation = cmd_ID (cr_Command record)) &&
    bool_decide (ob_LeaseRef observation = cmd_LeaseRef (cr_Command record))) observations.

Definition hasDefinitiveDispatchRejection (runtime : memoryRuntimeState) (endpoint : PhaseEndpoint) : bool :=
  existsb (fun record =>
    let command := cr_Command record in
    if bool_decide (cmd_Endpoint command <> ep_Ref endpoint) ||
       bool_decide (cmd_Generation command <> ep_Generation endpoint) ||
       bool_decide (cmd_BindingRef command <> ep_BindingRef endpoint) ||
       negb (isRunCommand command) || negb (cr_NotExecutable record) ||
       bool_decide (cr_ObservedEventRef record <> "") || bool_decide (cr_CompletedEventRef record = "")
    then false
    else match rt_leases runtime !! cmd_LeaseRef command with
    | None => false
    | Some lease =>
      if bool_decide (ls_State lease <> "released") || bool_decide (ls_Endpoint lease <> ep_Ref endpoint) ||
         bool_decide (ls_Generation lease <> ep_Generation endpoint) ||
         bool_decide (ls_BindingRef lease <> ep_BindingRef endpoint)
      then false
      else rejectionRecorded (rt_observations runtime) record
    end) (range_values (rt_commands runtime)).

(** The checks on an endpoint that already exists in the graph. *)
Definition validateReplacedEndpoint (runtime : memoryRuntimeState)
    (existing endpoint : PhaseEndpoint) : res unit :=
  _ ← fail_if (bool_decide (ep_State existing <> EndpointPending))
      (ScopeNotPending "only pending endpoints can be replaced");
  _ ← fail_if (bool_decide (ep_SpecRef existing <> ep_SpecRef endpoint))
      (StaleBinding "SpecRef is immutable for an endpoint generation");
  _ ← fail_if (bool_decide (ep_RunPolicy existing <> ep_RunPolicy endpoint))
      (InvalidArgument "ReplacePending cannot rewrite endpoint run policy");
  if bool_decide (ep_Generation existing = ep_Generation endpoint) then
    fail_if (bool_decide (ep_BindingRef existing <> ep_BindingRef endpoint))
      (StaleBinding "BindingRef is immutable for an endpoint generation")
  else
    fail_if (bool_decide (ep_Generation endpoint <> int_wrap (ep_Generation existing + 1)) ||
             bool_decide (ep_BindingRef endpoint = ep_BindingRef existing) ||
             negb (hasDefinitiveDispatchRejection runtime existing))
      (StaleBinding "pending endpoint generation can advance only after a definitive pre-start dispatch rejection").

Definition validatePendingEndpoint (current : graphState) (runtime : memoryRuntimeState)
    (scope : gset PhaseEndpointRef) (endpoint : PhaseEndpoint) : res (gset PhaseEndpointRef) :=
  _ ← validateEndpoint endpoint;
  _ ← fail_if (bool_decide (ep_Ref endpoint ∈ scope))
      (InvalidGraph "duplicate endpoint in pending subgraph scope");
  _ ← match g_endpoints current !! ep_Ref endpoint with
      | Some existing => validateReplacedEndpoint runtime existing endpoint
      | None => Ok tt
      end;
  Ok ({[ep_Ref endpoint]} ∪ scope).

Definition validatePendingTask (current : graphState) (next : PendingSubgraph) (task : Task) : res unit :=
  _ ← validateTask task;
  match g_tasks current !! task_ID task with
  | Some existing =>
    fail_if (bool_decide (existing <> task))
      (InvalidArgument "ReplacePending cannot rewrite an existing task contract or outcome")
  | None =>
    _ ← fail_if (bool_decide (task_Outcome task <> TaskActive)) (InvalidArgument "new tasks must be active");
    requireFixedEndpointSet (task_ID task) (ps_Endpoints next)
  end.

Definition validatePendingEdge (scope : gset PhaseEndpointRef) (edgeKeys : gset string)
    (edge : Edge) : res (gset string) :=
  _ ← validateEdge edge;
  _ ← fail_if (bool_decide (edgeKey edge ∈ edgeKeys)) (InvalidGraph "duplicate edge in pending subgraph");
  _ ← fail_if (bool_decide (edge_To edge ∉ scope))
      (InvalidArgument "pending subgraph edges must target an endpoint in scope");
  Ok ({[edgeKey edge]} ∪ edgeKeys).

Definition validatePendingBlocker (scope : gset PhaseEndpointRef) (blockerIDs : gset string)
    (blocker : Blocker) : res (gset string) :=
  _ ← validateBlocker blocker;
  _ ← fail_if (bool_decide (blk_ID blocker ∈ blockerIDs)) (InvalidGraph "duplicate blocker in pending subgraph");
  _ ← fail_if (bool_decide (blk_Target blocker ∉ scope))
      (InvalidArgument "pending subgraph blockers must target an endpoint in scope");
  Ok ({[blk_ID blocker]} ∪ blockerIDs).

Definition validatePendingSubgraph (current : graphState) (runtime : memoryRuntimeState)
    (next : PendingSubgraph) : res unit :=
  _ ← fail_if (IsLatestRead (ps_BaseRevision next)) (InvalidArgument "base_revision must be a concrete revision");
  _ ← fail_if (bool_decide (ps_Endpoints next = []))
      (InvalidArgument "pending subgraph endpoints define the replacement scope");
  scope ← foldM (validatePendingEndpoint current runtime) ∅ (ps_Endpoints next);
  _ ← each (validatePendingTask current next) (ps_Tasks next);
  _ ← foldM (validatePendingEdge scope) ∅ (ps_Edges next);
  _ ← foldM (validatePendingBlocker scope) ∅ (ps_Blockers next);
  Ok tt.

Definition pending_scope (next : PendingSubgraph) : gset PhaseEndpointRef :=
  list_to_set (ep_Ref <$> ps_Endpoints next).

Definition applyPendingSubgraph (state : graphState) (next : PendingSubgraph) : graphState :=
  let scope := pending_scope next in
  mkGraph
    (foldl (fun m t => <[task_ID t := t]> m) (g_tasks state) (ps_Tasks next))
    (foldl (fun m e => <[ep_Ref e := e]> m) (g_endpoints state) (ps_Endpoints next))
    (filter (fun e => edge_To e ∉ scope) (g_edges state) ++ ps_Edges next)
    (foldl (fun m b => <[blk_ID b := b]> m)
       (filter (fun p : string * Blocker => blk_Target p.2 ∉ scope) (g_blockers state)) (ps_Blockers next))
    (g_results state).

Definition validatePendingSubgraphRuntime (runtime : memoryRuntimeState) (next : PendingSubgraph) : res unit :=
  let scope := pending_scope next in
  each (fun lease =>
    if bool_decide (ls_State lease <> "active") then Ok tt
    else fail_if (bool_decide (ls_Endpoint lease ∈ scope))
      (EndpointInFlight "ReplacePending scope contains an endpoint with an active phase lease; hold and stop the phase before replacing it"))
    (range_values (rt_leases runtime)).

Definition validateReopenRoundRuntime (runtime : memoryRuntimeState) (taskID : TaskID) : res unit :=
  each (fun lease =>
    if bool_decide (ls_State lease <> "active") || bool_decide (ref_TaskID (ls_Endpoint lease) <> taskID) then Ok tt
    else Err (EndpointInFlight "reopen_round requires all task phase leases to be terminally released"))
    (range_values (rt_leases runtime)).

(** ** What an accepted replacement may change *)

(** The relation between a replaced endpoint and its replacement. *)
Definition replaces (runtime : memoryRuntimeState) (old new : PhaseEndpoint) : Prop :=
  ep_Ref new = ep_Ref old /\ ep_State old = EndpointPending /\
  ep_SpecRef new = ep_SpecRef old /\ ep_RunPolicy new = ep_RunPolicy old /\
  (ep_Generation new = ep_Generation old /\ ep_BindingRef new = ep_BindingRef old \/
   ep_Generation new = int_wrap (ep_Generation old + 1) /\ ep_BindingRef new <> ep_BindingRef old /\
   hasDefinitiveDispatchRejection runtime old = true).

Lemma validateReplacedEndpoint_Ok runtime old new :
  ep_Ref new = ep_Ref old ->
  validateReplacedEndpoint runtime old new = Ok tt -> replaces runtime old new.
Proof.
  intros Href. unfold validateReplacedEndpoint, replaces.
  rewrite !bind_unit_Ok, !guard_not_Ok. intros (-> & -> & -> & Hgen).
  split_and!; [done..|]. case_bool_decide as Hg.
  - left. apply guard_not_Ok in Hgen. by rewrite Hg, Hgen.
  - right. apply fail_if_Ok in Hgen. bool_inv. split_and!; [done..|by bool_inv].
Qed.

Lemma validate_pending_endpoints_Ok current runtime scope l scope' :
  foldM (validatePendingEndpoint current runtime) scope l = Ok scope' ->
  NoDup (ep_Ref <$> l) /\ scope' = list_to_set (ep_Ref <$> l) ∪ scope /\
  (forall e, e ∈ l -> ep_Ref e ∉ scope) /\
  (forall e, e ∈ l -> endpoint_ok e) /\
  (forall e old, e ∈ l -> g_endpoints current !! ep_Ref e = Some old ->
     validateReplacedEndpoint runtime old e = Ok tt).
Proof.
  revert scope. induction l as [|e l IH]; intros scope; simpl.
  { intros [= <-]. split_and!; [constructor|set_solver| | |]; by intros * ?%elem_of_nil. }
  rewrite bind_Ok. intros (scope1 & Hv & Hl). unfold validatePendingEndpoint in Hv.
  rewrite !bind_unit_Ok, validateEndpoint_Ok, guard_Ok in Hv.
  destruct Hv as (Hok & Hnew & Hex & [= <-]).
  apply IH in Hl as (Hnd & -> & Hfresh & Hoks & Hrep). split_and!.
  - constructor; [|done]. rewrite list_elem_of_fmap. intros (e' & Heq & Hin).
    apply (Hfresh e' Hin). rewrite Heq. set_solver.
  - clear. set_solver.
  - intros e' [->|Hin]%elem_of_cons; [done|]. specialize (Hfresh _ Hin). set_solver.
  - intros e' [->|Hin]%elem_of_cons; [done|by apply Hoks].
  - intros e' old [->|Hin]%elem_of_cons Hlk; [by rewrite Hlk in Hex|by eapply Hrep].
Qed.

Lemma foldl_insert_lookup {A K} `{Countable K} (key : A -> K) (l : list A) (m : gmap K A) k :
  NoDup (key <$> l) ->
  foldl (fun m x => <[key x := x]> m) m l !! k =
  match list_find (fun x => key x = k) l with Some (_, x) => Some x | None => m !! k end.
Proof.
  revert m. induction l as [|x l IH]; intros m Hnd; simpl; [done|].
  apply NoDup_cons in Hnd as [Hx Hnd]. rewrite IH by done. case_decide as Hk.
  - subst k. destruct (list_find _ l) as [[i y]|] eqn:Hf; [|by rewrite lookup_insert_eq].
    apply list_find_Some in Hf as (Hy & Hkey & _). exfalso. apply Hx.
    rewrite <- Hkey. apply list_elem_of_fmap. exists y. split; [done|]. by eapply list_elem_of_lookup_2.
  - destruct (list_find _ l) as [[i y]|]; simpl; [done|]. by rewrite lookup_insert_ne.
Qed.

Lemma foldl_insert_in {A K} `{Countable K} (key : A -> K) (l : list A) (m : gmap K A) x :
  NoDup (key <$> l) -> x ∈ l -> foldl (fun m x => <[key x := x]> m) m l !! key x = Some x.
Proof.
  intros Hnd Hx. rewrite foldl_insert_lookup by done.
  destruct (list_find _ l) as [[i y]|] eqn:Hf.
  - apply list_find_Some in Hf as (Hy & Hkey & _). f_equal.
    apply list_elem_of_lookup in Hx as [j Hj].
    assert (i = j) as ->; [|congruence].
    eapply NoDup_lookup; [exact Hnd|rewrite list_lookup_fmap, Hy; simpl; by rewrite Hkey|].
    by rewrite list_lookup_fmap, Hj.
  - apply list_find_None in Hf. rewrite Forall_forall in Hf. by destruct (Hf x Hx).
Qed.

(** Whatever the list, an entry of the result is an entry of the list or an
    old entry whose key the list does not mention. *)
Lemma foldl_insert_inv {A K} `{Countable K} (key : A -> K) (l : list A) (m : gmap K A) k x :
  foldl (fun m x => <[key x := x]> m) m l !! k = Some x ->
  (x ∈ l /\ key x = k) \/ (m !! k = Some x /\ k ∉ key <$> l).
Proof.
  revert m. induction l as [|y l IH]; intros m; simpl.
  { intros Hm. right. split; [done|]. apply not_elem_of_nil. }
  intros [[Hin Hk]|[Hm Hnin]]%IH; [left; set_solver|].
  destruct (decide (key y = k)) as [<-|Hne].
  - rewrite lookup_insert_eq in Hm. left. simplify_eq. set_solver.
  - rewrite lookup_insert_ne in Hm by done. right. set_solver.
Qed.

Lemma foldl_insert_notin {A K} `{Countable K} (key : A -> K) (l : list A) (m : gmap K A) k :
  k ∉ key <$> l -> foldl (fun m x => <[key x := x]> m) m l !! k = m !! k.
Proof.
  revert m. induction l as [|y l IH]; intros m; simpl; [done|].
  rewrite not_elem_of_cons. intros [Hne Hl]. rewrite IH by done. by rewrite lookup_insert_ne.
Qed.

Lemma foldl_insert_some {A K} `{Countable K} (key : A -> K) (l : list A) (m : gmap K A) k :
  k ∈ key <$> l -> exists x, x ∈ l /\ key x = k /\ foldl (fun m x => <[key x := x]> m) m l !! k = Some x.
Proof.
  revert m. induction l as [|y l IH]; intros m; simpl; [by intros ?%elem_of_nil|].
  intros Hk. destruct (decide (k ∈ key <$> l)) as [Hin|Hnin].
  - destruct (IH (<[key y := y]> m) Hin) as (x & ? & ? & ?). exists x. split_and!; [by right|done|done].
  - apply elem_of_cons in Hk as [->|?]; [|done]. exists y.
    rewrite foldl_insert_notin by done. rewrite lookup_insert_eq. split_and!; [by left|done|done].
Qed.

(** Everything [validatePendingSubgraph] establishes, in one statement. *)
Lemma validatePendingSubgraph_Ok current runtime next :
  validatePendingSubgraph current runtime next = Ok tt ->
  NoDup (ep_Ref <$> ps_Endpoints next) /\
  (forall e, e ∈ ps_Endpoints next -> endpoint_ok e) /\
  (forall e old, e ∈ ps_Endpoints next -> g_endpoints current !! ep_Ref e = Some old ->
     validateReplacedEndpoint runtime old e = Ok tt) /\
  (forall t, t ∈ ps_Tasks next -> validatePendingTask current next t = Ok tt) /\
  (forall e, e ∈ ps_Edges next -> edge_To e ∈ pending_scope next) /\
  (forall b, b ∈ ps_Blockers next -> blk_Target b ∈ pending_scope next).
Proof.
  unfold validatePendingSubgraph. rewrite bind_unit_Ok, bind_unit_Ok, bind_Ok.
  intros (_ & _ & scope & Hep & Hrest).
  apply validate_pending_endpoints_Ok in Hep as (Hnd & -> & _ & Hoks & Hrep).
  rewrite bind_unit_Ok, bind_Ok in Hrest. destruct Hrest as (Hts & keys & Hes & Hrest).
  rewrite bind_Ok in Hrest. destruct Hrest as (ids & Hbs & _). rewrite each_Ok in Hts.
  rewrite (right_id_L ∅ (∪)) in Hes, Hbs. fold (pending_scope next) in Hes, Hbs.
  split_and!; [done..| |].
  - eapply foldM_Ok_forall; [|exact Hes]. intros K e K' Hstep.
    unfold validatePendingEdge in Hstep. rewrite !bind_unit_Ok, guard_not_Ok in Hstep. apply Hstep.
  - eapply foldM_Ok_forall; [|exact Hbs]. intros K b K' Hstep.
    unfold validatePendingBlocker in Hstep. rewrite !bind_unit_Ok, guard_not_Ok in Hstep. apply Hstep.
Qed.

Lemma applyPendingSubgraph_coherent st next : coherent st -> coherent (applyPendingSubgraph st next).
Proof.
  intros [Ht He Hb Hr]. split; simpl.
  - intros id t [[? ?]|[? _]]%foldl_insert_inv; eauto.
  - intros id t [[? ?]|[? _]]%foldl_insert_inv; eauto.
  - intros id t [[? ?]|[Hf _]]%foldl_insert_inv; [done|].
    apply map_lookup_filter_Some in Hf as [? _]. eauto.
  - done.
Qed.

End with_runtime.
