(* ===== verification/Transition.v ===== *)
(** * Graph transitions

    [internal/coordination/transition.go]: the closed set of state changes of
    phase endpoints, blockers and tasks, and the runtime evidence some of them
    need. *)

From stdpp Require Import base tactics option list strings gmap pretty.
From Stdlib Require Import ZArith.
From S2P Require Import Prelude GoLib Kernel CoordTypes Acyclic Validation GraphSpec.

(** Whether a declared completion edge is satisfied. *)
Definition completionEdgeSatisfied (state : graphState) (edge : Edge) : bool :=
  if bool_decide (edge_Signal edge = SignalPhaseSatisfied) then
    match g_endpoints state !! edge_From edge with
    | Some source => bool_decide (ep_State source = EndpointSatisfied)
    | None => false
    end
  else if bool_decide (edge_Signal edge = SignalTaskDone) then
    match g_tasks state !! ref_TaskID (edge_From edge) with
    | Some source => bool_decide (task_Outcome source = TaskDone)
    | None => false
    end
  else false.

Section with_runtime.
Context `{GR : GoRuntime}.

Definition requireCompletionInputs (state : graphState) (target : PhaseEndpointRef) : res unit :=
  _ ← each (fun edge =>
        if bool_decide (edge_To edge <> target) || bool_decide (edge_RequiredBy edge <> RequiredByCompletion)
        then Ok tt
        else fail_if (negb (completionEdgeSatisfied state edge))
          (TransitionRejected "submitted transition is waiting for a declared completion edge"))
      (g_edges state);
  each (fun blocker =>
      if bool_decide (blk_Target blocker <> target) || bool_decide (blk_RequiredBy blocker <> RequiredByCompletion)
      then Ok tt
      else fail_if (one_of (blk_State blocker) [BlockerActive; BlockerDenied])
        (TransitionRejected "submitted transition is waiting for a declared completion blocker"))
    (range_values (g_blockers state)).

End with_runtime.

Definition pr_set (id verdict : string) (r : PhaseResult) : PhaseResult :=
  mkResult id (pr_Endpoint r) (pr_BindingRef r) (pr_OutputRef r) verdict.

Definition defaultResultID (endpoint : PhaseEndpoint) (verdict : string) : string :=
  ref_TaskID (ep_Ref endpoint) +:+ ":" +:+ ref_EndpointID (ep_Ref endpoint) +:+ ":" +:+
  format_int (ep_Generation endpoint) +:+ ":" +:+ verdict.

(** Returns the state with the result recorded. *)
Definition requireResultForTransition (state : graphState) (endpoint : PhaseEndpoint)
    (transition : GraphTransition) (verdict : string) : res graphState :=
  let result := tr_Result transition in
  let id := if bool_decide (pr_ID result = "") then defaultResultID endpoint verdict else pr_ID result in
  _ ← fail_if (bool_decide (pr_Endpoint result <> ep_Ref endpoint))
      (InvalidArgument "phase result endpoint must match transition endpoint");
  _ ← fail_if (bool_decide (pr_BindingRef result <> ep_BindingRef endpoint))
      (StaleBinding "phase result binding_ref must match current endpoint binding_ref");
  _ ← fail_if (bool_decide (pr_OutputRef result = "")) (InvalidArgument "phase result output_ref is required");
  let result := pr_set id verdict result in
  _ ← validateResult result;
  _ ← fail_if (bool_decide (is_Some (g_results state !! pr_ID result)))
      (TransitionRejected "phase result id already exists");
  Ok (g_set_result (pr_ID result) result state).

Definition requireStopEvidence (endpoint : PhaseEndpoint) (transition : GraphTransition) : res unit :=
  _ ← RequireID "new_binding_ref" (tr_NewBindingRef transition);
  _ ← fail_if (bool_decide (tr_NewBindingRef transition = ep_BindingRef endpoint))
      (StaleBinding "stopped transition requires a new binding_ref");
  _ ← fail_if (bool_decide (tr_EvidenceRefs transition = []))
      (IncompleteStopEvidence "stopped transition requires evidence_refs");
  fail_if (bool_decide (tr_CheckpointRef transition = "") && negb (tr_NonResumable transition))
    (IncompleteStopEvidence "stopped transition requires checkpoint_ref or non_resumable").

Definition requireVerifySatisfied (state : graphState) (taskID : TaskID) : res unit :=
  match g_endpoints state !! mkRef taskID EndpointVerify with
  | None => Err (InvalidArgument "task is missing verify endpoint")
  | Some verify =>
    fail_if (bool_decide (ep_State verify <> EndpointSatisfied))
      (TransitionRejected "task done requires satisfied verify endpoint")
  end.

(** [endpoint.State = EndpointPending; endpoint.Generation++; endpoint.BindingRef
    = new; if newSpec != "" { endpoint.SpecRef = newSpec }]. *)
Definition rollEndpoint (transition : GraphTransition) (endpoint : PhaseEndpoint) : PhaseEndpoint :=
  let endpoint := ep_next_Generation (tr_NewBindingRef transition) (ep_set_State EndpointPending endpoint) in
  if bool_decide (tr_NewSpecRef transition <> "") then ep_set_SpecRef (tr_NewSpecRef transition) endpoint
  else endpoint.

Section with_runtime.
Context `{GR : GoRuntime}.

(** The [switch transition.Action] of [applyEndpointTransition]: the state (with
    the result recorded, if any) and the changed endpoint. *)
Definition endpointAction (state : graphState) (endpoint : PhaseEndpoint)
    (transition : GraphTransition) : res (graphState * PhaseEndpoint) :=
  let action := tr_Action transition in
  if bool_decide (action = EndpointSubmitted) then
    _ ← fail_if (bool_decide (ep_State endpoint <> EndpointPending))
        (TransitionRejected "submitted transition requires pending endpoint");
    _ ← requireCompletionInputs state (ep_Ref endpoint);
    Ok (state, ep_set_State EndpointSubmitted endpoint)
  else if bool_decide (action = EndpointSatisfied) then
    _ ← fail_if (bool_decide (ep_RunPolicy endpoint = RunHeld))
        (TransitionRejected "satisfied transition requires endpoint not held");
    _ ← fail_if (bool_decide (ep_State endpoint <> EndpointSubmitted))
        (TransitionRejected "satisfied transition requires submitted endpoint");
    state ← requireResultForTransition state endpoint transition VerdictSatisfied;
    Ok (state, ep_set_State EndpointSatisfied endpoint)
  else if bool_decide (action = EndpointRejected) then
    _ ← fail_if (bool_decide (ep_RunPolicy endpoint = RunHeld))
        (TransitionRejected "rejected transition requires endpoint not held");
    _ ← fail_if (bool_decide (ep_State endpoint <> EndpointSubmitted))
        (TransitionRejected "rejected transition requires submitted endpoint");
    state ← requireResultForTransition state endpoint transition VerdictRejected;
    Ok (state, ep_set_State EndpointRejected endpoint)
  else if bool_decide (action = "reopened") then
    _ ← fail_if (bool_decide (ep_State endpoint <> EndpointRejected) &&
                 bool_decide (ep_State endpoint <> EndpointPending))
        (TransitionRejected "reopened transition requires rejected or pending endpoint");
    _ ← RequireID "new_binding_ref" (tr_NewBindingRef transition);
    _ ← fail_if (bool_decide (tr_NewBindingRef transition = ep_BindingRef endpoint))
        (StaleBinding "reopened transition requires a new binding_ref");
    Ok (state, rollEndpoint transition endpoint)
  else if bool_decide (action = "held") then
    Ok (state, ep_set_RunPolicy RunHeld endpoint)
  else if bool_decide (action = "released") then
    _ ← fail_if (bool_decide (ep_RunPolicy endpoint <> RunHeld))
        (TransitionRejected "released transition requires held endpoint");
    Ok (state, ep_set_RunPolicy RunEnabled endpoint)
  else if bool_decide (action = "stopped") then
    _ ← fail_if (bool_decide (ep_RunPolicy endpoint <> RunHeld))
        (TransitionRejected "stopped transition requires held endpoint");
    _ ← requireStopEvidence endpoint transition;
    Ok (state, rollEndpoint transition endpoint)
  else Err (InvalidArgument "phase endpoint transition action is not allowed").

Definition applyEndpointTransition (state : graphState) (transition : GraphTransition) : res graphState :=
  match g_endpoints state !! tr_Endpoint transition with
  | None => Err (InvalidArgument "phase endpoint transition references unknown endpoint")
  | Some endpoint =>
    _ ← fail_if (bool_decide (tr_Generation transition <> ep_Generation endpoint))
        (TransitionRejected "phase endpoint transition generation does not match current endpoint generation");
    p ← endpointAction state endpoint transition;
    Ok (g_set_endpoint (tr_Endpoint transition) p.2 p.1)
  end.

End with_runtime.

Definition applyBlockerTransition (state : graphState) (transition : GraphTransition) : res graphState :=
  match g_blockers state !! tr_BlockerID transition with
  | None => Err (InvalidArgument "blocker transition references unknown blocker")
  | Some blocker =>
    let action := tr_Action transition in
    new ← (if bool_decide (action = BlockerResolved) then
             _ ← fail_if (bool_decide (blk_State blocker <> BlockerActive))
                 (TransitionRejected "resolved transition requires active blocker");
             Ok BlockerResolved
           else if bool_decide (action = BlockerDenied) then
             _ ← fail_if (bool_decide (blk_State blocker <> BlockerActive))
                 (TransitionRejected "denied transition requires active blocker");
             Ok BlockerDenied
           else if bool_decide (action = BlockerObsolete) then
             _ ← fail_if (bool_decide (blk_State blocker <> BlockerActive))
                 (TransitionRejected "obsolete transition requires active blocker");
             Ok BlockerObsolete
           else Err (InvalidArgument "blocker transition action is not allowed"));
    Ok (g_set_blocker (tr_BlockerID transition) (blk_set_State new blocker) state)
  end.

Definition requireReopenableRoundEndpoint (name : string) (endpoint : PhaseEndpoint)
    (bindingRef : BindingRef) (allowPending : bool) : res unit :=
  _ ← (if one_of (ep_State endpoint) [EndpointSatisfied; EndpointRejected] then Ok tt
       else if bool_decide (ep_State endpoint = EndpointPending) then
         fail_if (negb allowPending)
           (TransitionRejected ("reopen_round requires " +:+ name +:+ " endpoint to be satisfied or rejected"))
       else Err (TransitionRejected ("reopen_round requires " +:+ name +:+
                   " endpoint to be satisfied, rejected, or an explicitly withheld pending verify")));
  _ ← fail_if (bool_decide (ep_RunPolicy endpoint = RunHeld))
      (TransitionRejected ("reopen_round requires " +:+ name +:+ " endpoint not held"));
  _ ← RequireID (name +:+ "_binding_ref") bindingRef;
  fail_if (bool_decide (ep_BindingRef endpoint = bindingRef))
    (StaleBinding ("reopen_round requires a new " +:+ name +:+ " binding_ref")).

Definition reopenEndpoint (bindingRef : BindingRef) (endpoint : PhaseEndpoint) : PhaseEndpoint :=
  ep_next_Generation bindingRef (ep_set_RunPolicy RunEnabled (ep_set_State EndpointPending endpoint)).

Definition reopenExecutionRound (state : graphState) (transition : GraphTransition) : res graphState :=
  let planRef := mkRef (tr_TaskID transition) EndpointPlan in
  let executeRef := mkRef (tr_TaskID transition) EndpointExecute in
  let verifyRef := mkRef (tr_TaskID transition) EndpointVerify in
  match g_endpoints state !! planRef, g_endpoints state !! executeRef, g_endpoints state !! verifyRef with
  | Some plan, Some execute, Some verify =>
    _ ← fail_if (bool_decide (ep_State plan <> EndpointSatisfied))
        (TransitionRejected "reopen_round requires satisfied plan endpoint");
    _ ← requireReopenableRoundEndpoint "execute" execute (tr_ExecuteBindingRef transition) false;
    _ ← requireReopenableRoundEndpoint "verify" verify (tr_VerifyBindingRef transition) true;
    Ok (g_set_endpoint verifyRef (reopenEndpoint (tr_VerifyBindingRef transition) verify)
         (g_set_endpoint executeRef (reopenEndpoint (tr_ExecuteBindingRef transition) execute) state))
  | _, _, _ => Err (InvalidGraph "reopen_round requires the fixed plan/execute/verify endpoint set")
  end.

Definition applyTaskTransition (state : graphState) (transition : GraphTransition) : res graphState :=
  match g_tasks state !! tr_TaskID transition with
  | None => Err (InvalidArgument "task transition references unknown task")
  | Some task =>
    let action := tr_Action transition in
    p ← (if bool_decide (action = TaskDone) then
           _ ← fail_if (bool_decide (task_Outcome task <> TaskActive))
               (TransitionRejected "done transition requires active task");
           _ ← requireVerifySatisfied state (tr_TaskID transition);
           Ok (state, task_set_Outcome TaskDone task)
         else if bool_decide (action = TaskCanceled) then
           _ ← fail_if (bool_decide (task_Outcome task <> TaskActive))
               (TransitionRejected "canceled transition requires active task");
           Ok (state, task_set_Outcome TaskCanceled task)
         else if bool_decide (action = TaskFailed) then
           _ ← fail_if (bool_decide (task_Outcome task <> TaskActive))
               (TransitionRejected "failed transition requires active task");
           Ok (state, task_set_Outcome TaskFailed task)
         else if bool_decide (action = "reopen_round") then
           _ ← fail_if (bool_decide (task_Outcome task <> TaskActive))
               (TransitionRejected "reopen_round transition requires active task");
           state' ← reopenExecutionRound state transition;
           Ok (state', task)
         else Err (InvalidArgument "task transition action is not allowed"));
    Ok (g_set_task (tr_TaskID transition) p.2 p.1)
  end.

Section with_runtime.
Context `{GR : GoRuntime}.

Definition applyTransition (state : graphState) (transition : GraphTransition) : res graphState :=
  if bool_decide (tr_TargetKind transition = TargetPhaseEndpoint) then applyEndpointTransition state transition
  else if bool_decide (tr_TargetKind transition = TargetBlocker) then applyBlockerTransition state transition
  else if bool_decide (tr_TargetKind transition = TargetTask) then applyTaskTransition state transition
  else Err (InvalidArgument "transition target kind is not allowed").

End with_runtime.

(** ** Runtime evidence *)

(** The identity checks an observation must pass against its command and lease. *)
Definition identityMatches (observation : phaseObservation) (command : PhaseCommand) (lease : phaseLease) : bool :=
  bool_decide (cmd_Endpoint command = ob_Endpoint observation) &&
  bool_decide (cmd_Generation command = ob_Generation observation) &&
  bool_decide (cmd_BindingRef command = ob_BindingRef observation) &&
  bool_decide (cmd_LeaseRef command = ob_LeaseRef observation) &&
  bool_decide (ls_Endpoint lease = ob_Endpoint observation) &&
  bool_decide (ls_Generation lease = ob_Generation observation) &&
  bool_decide (ls_BindingRef lease = ob_BindingRef observation).

(** The filter both evidence searches start with. *)
Definition observationOfEndpoint (kind : string) (endpoint : PhaseEndpoint) (observation : phaseObservation) : bool :=
  bool_decide (ob_Kind observation = kind) && bool_decide (ob_Endpoint observation = ep_Ref endpoint) &&
  bool_decide (ob_Generation observation = ep_Generation endpoint) &&
  bool_decide (ob_BindingRef observation = ep_BindingRef endpoint) &&
  bool_decide (ob_CommandID observation <> "") && bool_decide (ob_LeaseRef observation <> "").

Definition hasExactTerminalObservation (runtime : memoryRuntimeState) (endpoint : PhaseEndpoint)
    (kind : string) : bool :=
  existsb (fun observation =>
    observationOfEndpoint kind endpoint observation &&
    match rt_commands runtime !! ob_CommandID observation, rt_leases runtime !! ob_LeaseRef observation with
    | Some record, Some lease =>
      isRunCommand (cr_Command record) && identityMatches observation (cr_Command record) lease
    | _, _ => false
    end) (rt_observations runtime).

Definition hasFailedInvocation (runtime : memoryRuntimeState) (endpoint : PhaseEndpoint) : bool :=
  existsb (fun observation =>
    observationOfEndpoint phaseObservationFailed endpoint observation &&
    match rt_commands runtime !! ob_CommandID observation, rt_leases runtime !! ob_LeaseRef observation with
    | Some record, Some lease =>
      cr_Accepted record && isRunCommand (cr_Command record) &&
      identityMatches observation (cr_Command record) lease
    | _, _ => false
    end) (rt_observations runtime).

Definition validateRuntimeBackedTransition (state : graphState) (runtime : memoryRuntimeState)
    (transition : GraphTransition) : res unit :=
  if bool_decide (tr_TargetKind transition <> TargetPhaseEndpoint) then Ok tt else
  match g_endpoints state !! tr_Endpoint transition with
  | None => Ok tt
  | Some endpoint =>
    if bool_decide (tr_Action transition = EndpointSubmitted) && bool_decide (ep_RunPolicy endpoint = RunHeld) then
      if hasExactTerminalObservation runtime endpoint phaseObservationOutput then Ok tt
      else Err (TransitionRejected "held endpoint submission requires an exact PhaseOutputSubmitted observation")
    else if bool_decide (tr_Action transition <> "reopened") || bool_decide (ep_State endpoint <> EndpointPending)
            || bool_decide (ep_RunPolicy endpoint = RunHeld) then Ok tt
    else
      _ ← fail_if (bool_decide (tr_EvidenceRefs transition = []))
          (TransitionRejected "failed invocation reopen requires evidence_refs");
      if hasFailedInvocation runtime endpoint then Ok tt
      else Err (TransitionRejected "enabled pending reopen requires an exact PhaseInvocationFailed observation")
  end.
