(* ===== verification/TransitionSpec.v ===== *)
(** * The endpoint life cycle and what a transition may change

    [lifecycle] is the abstract state machine of a phase endpoint;
    [Transition.applyTransition] refines it for every endpoint at once.  The
    other lemmas are the frame conditions of a transition: results are only
    added, edges never change, finished tasks and decided blockers stay as they
    are. *)

From stdpp Require Import base tactics option list strings gmap.
From Stdlib Require Import ZArith.
From S2P Require Import Prelude GoLib Kernel CoordTypes Acyclic Validation GraphSpec Transition.

(** One step of an endpoint, or none. *)
Inductive lifecycle (e : PhaseEndpoint) : PhaseEndpoint -> Prop :=
| lc_stay : lifecycle e e
| lc_submit :
    ep_State e = EndpointPending -> lifecycle e (ep_set_State EndpointSubmitted e)
| lc_satisfy :
    ep_State e = EndpointSubmitted -> ep_RunPolicy e <> RunHeld ->
    lifecycle e (ep_set_State EndpointSatisfied e)
| lc_reject :
    ep_State e = EndpointSubmitted -> ep_RunPolicy e <> RunHeld ->
    lifecycle e (ep_set_State EndpointRejected e)
| lc_hold : lifecycle e (ep_set_RunPolicy RunHeld e)
| lc_release : ep_RunPolicy e = RunHeld -> lifecycle e (ep_set_RunPolicy RunEnabled e)
| lc_roll spec binding policy :
    (* reopened, stopped or reopened with its round: a new generation *)
    ep_State e <> EndpointSubmitted \/ ep_RunPolicy e = RunHeld ->
    policy = ep_RunPolicy e \/ ep_RunPolicy e <> RunHeld /\ policy = RunEnabled ->
    IsZeroID binding = false -> binding <> ep_BindingRef e ->
    spec = ep_SpecRef e \/ spec <> "" ->
    lifecycle e (mkEndpoint (ep_Ref e) spec binding (int_wrap (ep_Generation e + 1)) EndpointPending policy).

Lemma lifecycle_ref e e' : lifecycle e e' -> ep_Ref e' = ep_Ref e.
Proof. by destruct 1. Qed.

(** A step either keeps generation and binding, or advances the generation and
    replaces the binding. *)
Lemma lifecycle_generation e e' : lifecycle e e' ->
  (ep_Generation e' = ep_Generation e /\ ep_BindingRef e' = ep_BindingRef e) \/
  (ep_Generation e' = int_wrap (ep_Generation e + 1) /\ ep_BindingRef e' <> ep_BindingRef e).
Proof. destruct 1; simpl; auto. Qed.

(** Results recorded by a verdict. *)
Definition verdict_recorded (st st' : graphState) (e : PhaseEndpoint) (verdict : string) : Prop :=
  exists id r, g_results st !! id = None /\ g_results st' !! id = Some r /\
    pr_Endpoint r = ep_Ref e /\ pr_BindingRef r = ep_BindingRef e /\
    pr_Verdict r = verdict /\ pr_OutputRef r <> "".

Lemma requireResult_Ok st e tr verdict st' :
  requireResultForTransition st e tr verdict = Ok st' ->
  exists id r, g_results st !! id = None /\ st' = g_set_result id r st /\ pr_ID r = id /\
    pr_Endpoint r = ep_Ref e /\ pr_BindingRef r = ep_BindingRef e /\
    pr_Verdict r = verdict /\ pr_OutputRef r <> "".
Proof.
  unfold requireResultForTransition. cbv zeta.
  rewrite !bind_unit_Ok, !guard_not_Ok, !guard_Ok. simpl.
  intros (? & ? & ? & _ & Hnew & [= <-]).
  eexists _, _. split; [by apply eq_None_not_Some|]. simpl. split_and!; done.
Qed.

Lemma rollEndpoint_lifecycle tr e :
  ep_State e <> EndpointSubmitted \/ ep_RunPolicy e = RunHeld ->
  IsZeroID (tr_NewBindingRef tr) = false -> tr_NewBindingRef tr <> ep_BindingRef e ->
  lifecycle e (rollEndpoint tr e).
Proof.
  intros. unfold rollEndpoint, ep_next_Generation, ep_set_SpecRef, ep_set_State. cbv zeta.
  case_bool_decide; simpl; apply lc_roll; auto.
Qed.

Section with_runtime.
Context `{GR : GoRuntime}.

(** The successful endpoint actions, one constructor per [case]. *)
Inductive endpoint_action (st : graphState) (e : PhaseEndpoint) (tr : GraphTransition) :
    graphState * PhaseEndpoint -> Prop :=
| ea_submitted :
    tr_Action tr = EndpointSubmitted -> ep_State e = EndpointPending ->
    requireCompletionInputs st (ep_Ref e) = Ok tt ->
    endpoint_action st e tr (st, ep_set_State EndpointSubmitted e)
| ea_satisfied st' :
    tr_Action tr = EndpointSatisfied -> ep_RunPolicy e <> RunHeld -> ep_State e = EndpointSubmitted ->
    requireResultForTransition st e tr VerdictSatisfied = Ok st' ->
    endpoint_action st e tr (st', ep_set_State EndpointSatisfied e)
| ea_rejected st' :
    tr_Action tr = EndpointRejected -> ep_RunPolicy e <> RunHeld -> ep_State e = EndpointSubmitted ->
    requireResultForTransition st e tr VerdictRejected = Ok st' ->
    endpoint_action st e tr (st', ep_set_State EndpointRejected e)
| ea_reopened :
    tr_Action tr = "reopened" -> ep_State e = EndpointRejected \/ ep_State e = EndpointPending ->
    IsZeroID (tr_NewBindingRef tr) = false -> tr_NewBindingRef tr <> ep_BindingRef e ->
    endpoint_action st e tr (st, rollEndpoint tr e)
| ea_held :
    tr_Action tr = "held" -> endpoint_action st e tr (st, ep_set_RunPolicy RunHeld e)
| ea_released :
    tr_Action tr = "released" -> ep_RunPolicy e = RunHeld ->
    endpoint_action st e tr (st, ep_set_RunPolicy RunEnabled e)
| ea_stopped :
    tr_Action tr = "stopped" -> ep_RunPolicy e = RunHeld -> requireStopEvidence e tr = Ok tt ->
    endpoint_action st e tr (st, rollEndpoint tr e).

Lemma endpointAction_Ok st e tr p : endpointAction st e tr = Ok p -> endpoint_action st e tr p.
Proof.
  unfold endpointAction. cbv zeta.
  case_bool_decide as Ha; [|clear Ha; case_bool_decide as Ha;
    [|clear Ha; case_bool_decide as Ha; [|clear Ha; case_bool_decide as Ha;
      [|clear Ha; case_bool_decide as Ha; [|clear Ha; case_bool_decide as Ha;
        [|clear Ha; case_bool_decide as Ha; [|done]]]]]]].
  - rewrite !bind_unit_Ok, guard_not_Ok. intros (? & ? & [= <-]). by constructor.
  - rewrite !bind_unit_Ok, guard_not_Ok, guard_Ok, bind_Ok. intros (? & ? & st' & ? & [= <-]). by constructor.
  - rewrite !bind_unit_Ok, guard_not_Ok, guard_Ok, bind_Ok. intros (? & ? & st' & ? & [= <-]). by constructor.
  - rewrite !bind_unit_Ok, guard_Ok, RequireID_Ok, fail_if_Ok. intros (Hs & ? & ? & [= <-]).
    constructor; [done| |done..]. bool_inv. destruct Hs; bool_inv; auto.
  - intros [= <-]. by constructor.
  - rewrite !bind_unit_Ok, guard_not_Ok. intros (? & [= <-]). by constructor.
  - rewrite !bind_unit_Ok, guard_not_Ok. intros (? & ? & [= <-]). by constructor.
Qed.

Lemma requireStopEvidence_Ok e tr :
  requireStopEvidence e tr = Ok tt ->
  IsZeroID (tr_NewBindingRef tr) = false /\ tr_NewBindingRef tr <> ep_BindingRef e /\
  tr_EvidenceRefs tr <> [] /\ (tr_CheckpointRef tr <> "" \/ tr_NonResumable tr = true).
Proof.
  unfold requireStopEvidence. rewrite !bind_unit_Ok, RequireID_Ok, !guard_Ok, fail_if_Ok.
  intros (? & ? & ? & Hc). split_and!; [done..|]. bool_inv. destruct Hc; bool_inv; auto.
Qed.

Lemma endpoint_action_lifecycle st e tr p : endpoint_action st e tr p -> lifecycle e p.2.
Proof.
  destruct 1 as [| | |? Hs| | |? Hh Hev]; simpl.
  - by apply lc_submit.
  - by apply lc_satisfy.
  - by apply lc_reject.
  - apply rollEndpoint_lifecycle; [|done..]. left. by destruct Hs as [-> | ->].
  - apply lc_hold.
  - by apply lc_release.
  - apply requireStopEvidence_Ok in Hev as (? & ? & _). apply rollEndpoint_lifecycle; auto.
Qed.

(** The state returned beside the endpoint differs by at most one new result. *)
Lemma endpoint_action_state st e tr p : endpoint_action st e tr p ->
  p.1 = st \/ exists r, g_results st !! pr_ID r = None /\ p.1 = g_set_result (pr_ID r) r st /\
    pr_Endpoint r = ep_Ref e /\ pr_BindingRef r = ep_BindingRef e /\ pr_OutputRef r <> "" /\
    ep_State p.2 = pr_Verdict r.
Proof.
  destruct 1 as [| ? ? ? ? Hr | ? ? ? ? Hr | | | |]; simpl; auto;
    apply requireResult_Ok in Hr as (id & r & Hn & -> & <- & ? & ? & Hv & ?);
    right; exists r; rewrite Hv; done.
Qed.

(** Reaching a verdict state records the verdict. *)
Lemma endpoint_action_verdict st e tr p : endpoint_action st e tr p ->
  ep_State p.2 = EndpointSatisfied \/ ep_State p.2 = EndpointRejected ->
  ep_State p.2 = ep_State e \/ verdict_recorded st p.1 e (ep_State p.2).
Proof.
  destruct 1 as [| ? ? ? ? Hr | ? ? ? ? Hr | | | |]; intros Hs; simpl in *; auto.
  1: by destruct Hs.
  1, 2: right; apply requireResult_Ok in Hr as (id & r & ? & -> & _ & ? & ? & ? & ?);
    exists id, r; simpl; by rewrite lookup_insert_eq.
  all: by unfold rollEndpoint in Hs; cbv zeta in Hs; case_bool_decide; destruct Hs.
Qed.

(** ** Transitions of the whole graph *)

Inductive graph_step (st : graphState) (tr : GraphTransition) : graphState -> Prop :=
| gs_endpoint e p :
    tr_TargetKind tr = TargetPhaseEndpoint ->
    g_endpoints st !! tr_Endpoint tr = Some e -> tr_Generation tr = ep_Generation e ->
    endpoint_action st e tr p ->
    graph_step st tr (g_set_endpoint (tr_Endpoint tr) p.2 p.1)
| gs_blocker b :
    tr_TargetKind tr = TargetBlocker ->
    g_blockers st !! tr_BlockerID tr = Some b -> blk_State b = BlockerActive ->
    tr_Action tr ∈ [BlockerResolved; BlockerDenied; BlockerObsolete] ->
    graph_step st tr (g_set_blocker (tr_BlockerID tr) (blk_set_State (tr_Action tr) b) st)
| gs_task t :
    tr_TargetKind tr = TargetTask ->
    g_tasks st !! tr_TaskID tr = Some t -> task_Outcome t = TaskActive ->
    tr_Action tr ∈ [TaskDone; TaskCanceled; TaskFailed] ->
    (tr_Action tr = TaskDone -> exists v, g_endpoints st !! mkRef (tr_TaskID tr) EndpointVerify = Some v /\
       ep_State v = EndpointSatisfied) ->
    graph_step st tr (g_set_task (tr_TaskID tr) (task_set_Outcome (tr_Action tr) t) st)
| gs_round t plan execute verify :
    tr_TargetKind tr = TargetTask -> tr_Action tr = "reopen_round" ->
    g_tasks st !! tr_TaskID tr = Some t -> task_Outcome t = TaskActive ->
    g_endpoints st !! mkRef (tr_TaskID tr) EndpointPlan = Some plan ->
    g_endpoints st !! mkRef (tr_TaskID tr) EndpointExecute = Some execute ->
    g_endpoints st !! mkRef (tr_TaskID tr) EndpointVerify = Some verify ->
    ep_State plan = EndpointSatisfied ->
    requireReopenableRoundEndpoint "execute" execute (tr_ExecuteBindingRef tr) false = Ok tt ->
    requireReopenableRoundEndpoint "verify" verify (tr_VerifyBindingRef tr) true = Ok tt ->
    graph_step st tr (g_set_task (tr_TaskID tr) t
      (g_set_endpoint (mkRef (tr_TaskID tr) EndpointVerify) (reopenEndpoint (tr_VerifyBindingRef tr) verify)
        (g_set_endpoint (mkRef (tr_TaskID tr) EndpointExecute)
          (reopenEndpoint (tr_ExecuteBindingRef tr) execute) st))).

Lemma applyBlockerTransition_Ok st tr st' :
  tr_TargetKind tr = TargetBlocker -> applyBlockerTransition st tr = Ok st' -> graph_step st tr st'.
Proof.
  intros Hk. unfold applyBlockerTransition. destruct (g_blockers st !! _) as [b|] eqn:Hb; [|done].
  cbv zeta. rewrite bind_Ok. intros (new & Hnew & [= <-]).
  assert (blk_State b = BlockerActive /\ new = tr_Action tr /\
    tr_Action tr ∈ [BlockerResolved; BlockerDenied; BlockerObsolete]) as (Hact & -> & Hin).
  { case_bool_decide as Ha; [|clear Ha; case_bool_decide as Ha;
      [|clear Ha; case_bool_decide as Ha; [|done]]];
    rewrite bind_unit_Ok, guard_not_Ok in Hnew; destruct Hnew as [? [= <-]];
    rewrite Ha; (split_and!; [done..|]); rewrite !elem_of_cons; tauto. }
  by constructor.
Qed.

Lemma reopenExecutionRound_Ok st tr st' t :
  tr_TargetKind tr = TargetTask -> tr_Action tr = "reopen_round" ->
  g_tasks st !! tr_TaskID tr = Some t -> task_Outcome t = TaskActive ->
  reopenExecutionRound st tr = Ok st' -> graph_step st tr (g_set_task (tr_TaskID tr) t st').
Proof.
  intros ? ? ? ?. unfold reopenExecutionRound. cbv zeta.
  destruct (g_endpoints st !! mkRef _ EndpointPlan) as [plan|] eqn:?; [|done].
  destruct (g_endpoints st !! mkRef _ EndpointExecute) as [execute|] eqn:?; [|done].
  destruct (g_endpoints st !! mkRef _ EndpointVerify) as [verify|] eqn:?; [|done].
  rewrite !bind_unit_Ok, guard_not_Ok. intros (? & ? & ? & [= <-]). by eapply gs_round.
Qed.

Lemma applyTaskTransition_Ok st tr st' :
  tr_TargetKind tr = TargetTask -> applyTaskTransition st tr = Ok st' -> graph_step st tr st'.
Proof.
  intros Hk. unfold applyTaskTransition. destruct (g_tasks st !! _) as [t|] eqn:Ht; [|done].
  cbv zeta. rewrite bind_Ok. intros (p & Hp & [= <-]).
  case_bool_decide as Ha.
  { rewrite !bind_unit_Ok, guard_not_Ok in Hp. destruct Hp as (Hact & Hv & [= <-]). simpl.
    rewrite <- Ha. apply gs_task; [done..|rewrite Ha, !elem_of_cons; tauto|].
    intros _. unfold requireVerifySatisfied in Hv.
    destruct (g_endpoints st !! _) as [v|]; [|done]. apply guard_not_Ok in Hv. by exists v. }
  clear Ha. case_bool_decide as Ha.
  { rewrite !bind_unit_Ok, guard_not_Ok in Hp. destruct Hp as (Hact & [= <-]). simpl.
    rewrite <- Ha. apply gs_task; [done..|rewrite Ha, !elem_of_cons; tauto|by rewrite Ha]. }
  clear Ha. case_bool_decide as Ha.
  { rewrite !bind_unit_Ok, guard_not_Ok in Hp. destruct Hp as (Hact & [= <-]). simpl.
    rewrite <- Ha. apply gs_task; [done..|rewrite Ha, !elem_of_cons; tauto|by rewrite Ha]. }
  clear Ha. case_bool_decide as Ha; [|done].
  rewrite !bind_unit_Ok, guard_not_Ok, bind_Ok in Hp. destruct Hp as (Hact & st1 & Hr & [= <-]). simpl.
  by eapply reopenExecutionRound_Ok.
Qed.

Lemma applyTransition_Ok st tr st' : applyTransition st tr = Ok st' -> graph_step st tr st'.
Proof.
  unfold applyTransition. case_bool_decide as Hk.
  { unfold applyEndpointTransition. destruct (g_endpoints st !! _) as [e|] eqn:He; [|done].
    rewrite bind_unit_Ok, guard_not_Ok, bind_Ok.
    intros (? & p & ?%endpointAction_Ok & [= <-]). by eapply gs_endpoint. }
  clear Hk. case_bool_decide as Hk; [by apply applyBlockerTransition_Ok|].
  clear Hk. case_bool_decide as Hk; [by apply applyTaskTransition_Ok|done].
Qed.

Lemma requireReopenable_lifecycle name e b allow :
  requireReopenableRoundEndpoint name e b allow = Ok tt -> lifecycle e (reopenEndpoint b e).
Proof.
  unfold requireReopenableRoundEndpoint. rewrite !bind_unit_Ok, !guard_Ok, RequireID_Ok.
  intros (Hs & ? & ? & ?). unfold reopenEndpoint, ep_next_Generation, ep_set_State, ep_set_RunPolicy.
  simpl. apply lc_roll; [|by auto|done|by auto|by auto]. left. intros Heq. by rewrite Heq in Hs.
Qed.

(** ** Frame conditions *)

(** Pointwise life-cycle step of an endpoint map. *)
Definition endpoints_step (m m' : gmap PhaseEndpointRef PhaseEndpoint) : Prop :=
  forall r, match m !! r with
  | Some e => exists e', m' !! r = Some e' /\ lifecycle e e'
  | None => m' !! r = None
  end.

Lemma endpoints_step_refl m : endpoints_step m m.
Proof. intros r. destruct (m !! r); [|done]. eexists. split; [done|apply lc_stay]. Qed.

Lemma endpoints_step_insert m m' x e e' :
  endpoints_step m m' -> m !! x = Some e -> lifecycle e e' -> endpoints_step m (<[x:=e']> m').
Proof.
  intros Hs Hm Hl r. destruct (decide (x = r)) as [->|Hne].
  - rewrite Hm. exists e'. by rewrite lookup_insert_eq.
  - rewrite lookup_insert_ne by done. apply Hs.
Qed.

(** The endpoints a transition does not name are untouched, the others take a
    step of the life cycle; none appears or disappears. *)
Lemma graph_step_endpoints st tr st' :
  graph_step st tr st' -> endpoints_step (g_endpoints st) (g_endpoints st').
Proof.
  destruct 1 as [e p _ He _ Hp | | | t plan ex ve _ _ _ _ _ Hx Hv _ Hrx Hrv]; simpl;
    [|apply endpoints_step_refl..|].
  - assert (g_endpoints p.1 = g_endpoints st) as ->.
    { by destruct (endpoint_action_state _ _ _ _ Hp) as [-> | (r & _ & -> & _)]. }
    eapply endpoints_step_insert; [apply endpoints_step_refl|done|by eapply endpoint_action_lifecycle].
  - eapply endpoints_step_insert; [eapply endpoints_step_insert; [apply endpoints_step_refl| |]|..];
      try done; by eapply requireReopenable_lifecycle.
Qed.

(** Edges never change in a transition, and no result is removed or rewritten. *)
Lemma graph_step_edges st tr st' : graph_step st tr st' -> g_edges st' = g_edges st.
Proof.
  destruct 1 as [e p _ _ _ Hp | | |]; try done. simpl.
  by destruct (endpoint_action_state _ _ _ _ Hp) as [-> | (r & _ & -> & _)].
Qed.

Lemma graph_step_results st tr st' : graph_step st tr st' -> g_results st ⊆ g_results st'.
Proof.
  destruct 1 as [e p _ _ _ Hp | | |]; try done. simpl.
  destruct (endpoint_action_state _ _ _ _ Hp) as [-> | (r & Hn & -> & _)]; [done|].
  by apply insert_subseteq.
Qed.

(** Only an active task changes, only its outcome, and it is done only when its
    verify endpoint is satisfied. *)
Lemma graph_step_tasks st tr st' id :
  graph_step st tr st' ->
  match g_tasks st !! id with
  | None => g_tasks st' !! id = None
  | Some t => g_tasks st' !! id = Some t \/
      task_Outcome t = TaskActive /\
      exists o, g_tasks st' !! id = Some (task_set_Outcome o t) /\
        o ∈ [TaskDone; TaskCanceled; TaskFailed] /\
        (o = TaskDone -> exists v, g_endpoints st !! mkRef id EndpointVerify = Some v /\
           ep_State v = EndpointSatisfied)
  end.
Proof.
  assert (forall id, match g_tasks st !! id with
    | None => g_tasks st !! id = None
    | Some t => g_tasks st !! id = Some t \/ False end) as Hsame by (intros x; destruct (_ !! x); auto).
  destruct 1 as [e p _ _ _ Hp | | t _ Ht Ha Hin Hdone | t ? ? ? _ _ Ht]; simpl.
  - assert (g_tasks p.1 = g_tasks st) as ->.
    { by destruct (endpoint_action_state _ _ _ _ Hp) as [-> | (r & _ & -> & _)]. }
    specialize (Hsame id). destruct (g_tasks st !! id); tauto.
  - specialize (Hsame id). destruct (g_tasks st !! id); tauto.
  - destruct (decide (tr_TaskID tr = id)) as [<-|Hne].
    + rewrite Ht, lookup_insert_eq. right. split; [done|]. eauto.
    + rewrite lookup_insert_ne by done. specialize (Hsame id). destruct (g_tasks st !! id); tauto.
  - rewrite insert_id by done. specialize (Hsame id). destruct (g_tasks st !! id); tauto.
Qed.

(** Only an active blocker changes, and only to a decision. *)
Lemma graph_step_blockers st tr st' id :
  graph_step st tr st' ->
  match g_blockers st !! id with
  | None => g_blockers st' !! id = None
  | Some b => g_blockers st' !! id = Some b \/
      blk_State b = BlockerActive /\
      exists s, g_blockers st' !! id = Some (blk_set_State s b) /\
        s ∈ [BlockerResolved; BlockerDenied; BlockerObsolete]
  end.
Proof.
  destruct 1 as [e p _ _ _ Hp | b _ Hb Ha Hin | |]; simpl.
  - assert (g_blockers p.1 = g_blockers st) as ->.
    { by destruct (endpoint_action_state _ _ _ _ Hp) as [-> | (r & _ & -> & _)]. }
    destruct (g_blockers st !! id); auto.
  - destruct (decide (tr_BlockerID tr = id)) as [<-|Hne].
    + rewrite Hb, lookup_insert_eq. eauto.
    + rewrite lookup_insert_ne by done. destruct (g_blockers st !! id); auto.
  - destruct (g_blockers st !! id); auto.
  - destruct (g_blockers st !! id); auto.
Qed.

Lemma graph_step_coherent st tr st' : coherent st -> graph_step st tr st' -> coherent st'.
Proof.
  intros Hco Hstep. split.
  - intros id t Ht. pose proof (graph_step_tasks _ _ _ id Hstep) as Htask.
    destruct (g_tasks st !! id) as [t0|] eqn:H0; [|congruence].
    apply (co_tasks _ Hco) in H0. destruct Htask as [|(_ & o & ? & _)]; by simplify_eq.
  - intros r e He. pose proof (graph_step_endpoints _ _ _ Hstep r) as Hep.
    destruct (g_endpoints st !! r) as [e0|] eqn:H0; [|congruence].
    apply (co_endpoints _ Hco) in H0. destruct Hep as (e' & ? & Hl%lifecycle_ref). by simplify_eq.
  - intros id b Hb. pose proof (graph_step_blockers _ _ _ id Hstep) as Hblk.
    destruct (g_blockers st !! id) as [b0|] eqn:H0; [|congruence].
    apply (co_blockers _ Hco) in H0. destruct Hblk as [|(_ & o & ? & _)]; by simplify_eq.
  - intros id r. destruct Hstep as [e p _ _ _ Hp | | |]; simpl; try apply (co_results _ Hco).
    destruct (endpoint_action_state _ _ _ _ Hp) as [-> | (r0 & _ & -> & _)]; [apply (co_results _ Hco)|].
    simpl. rewrite lookup_insert_Some. intros [[<- <-]|[_ Hr]]; [done|by apply (co_results _ Hco)].
Qed.

(** An endpoint that newly reaches a verdict state has the verdict recorded for
    its current binding. *)
Lemma graph_step_verdict st tr st' r e e' :
  coherent st -> graph_step st tr st' ->
  g_endpoints st !! r = Some e -> g_endpoints st' !! r = Some e' ->
  ep_State e' = EndpointSatisfied \/ ep_State e' = EndpointRejected -> ep_State e' <> ep_State e ->
  verdict_recorded st st' e (ep_State e').
Proof.
  intros Hco Hstep He He' Hs Hne. destruct Hstep as [e0 p _ He0 _ Hp | | | t plan ex ve _ _ _ _ _ Hx Hv];
    simpl in *; try congruence.
  - assert (g_endpoints p.1 = g_endpoints st) as Heq.
    { by destruct (endpoint_action_state _ _ _ _ Hp) as [-> | (r0 & _ & -> & _)]. }
    rewrite Heq in He'. apply lookup_insert_Some in He' as [[<- <-]|[_ He']]; [|congruence].
    simplify_eq. by destruct (endpoint_action_verdict _ _ _ _ Hp Hs) as [|Hrec].
  - exfalso. apply lookup_insert_Some in He' as [[<- <-]|[_ He']].
    { simpl in Hs. by destruct Hs. }
    apply lookup_insert_Some in He' as [[<- <-]|[_ He']]; [|congruence]. simpl in Hs. by destruct Hs.
Qed.

End with_runtime.
