(* ===== verification/MemoryStore.v ===== *)
(** * The in-memory coordination store

    [internal/coordination/memory_store.go].  A store maps project ids to
    project states; every operation takes the store's mutex, so an operation is
    one atomic step of [M error MemoryStore].  What it does to its project is a
    computation of [M error projectState], and [locked] is the common prologue
    ([s.mu.Lock(); project := s.ensureProject(projectID)]). *)

From stdpp Require Import base tactics option list strings gmap sorting.
From Stdlib Require Import ZArith.
From S2P Require Import Prelude GoLib Kernel CoordTypes Acyclic Validation GraphSpec Pending Transition.
From S2P Require Import TransitionSpec.

Record projectState := mkProject {
  pj_latest : Revision;
  pj_history : gmap Revision graphState;
  pj_current : graphState;
  pj_runtime : memoryRuntimeState;
}.

Definition pj_set_runtime (rt : memoryRuntimeState) (p : projectState) : projectState :=
  mkProject (pj_latest p) (pj_history p) (pj_current p) rt.

Abbreviation MemoryStore := (gmap ProjectID projectState).
Definition NewMemoryStore : MemoryStore := ∅.

Definition phaseOrder (id : EndpointID) : Z :=
  if bool_decide (id = EndpointPlan) then 0%Z
  else if bool_decide (id = EndpointExecute) then 1%Z
  else if bool_decide (id = EndpointVerify) then 2%Z
  else 99%Z.

(** The comparison of endpoint references the snapshot sorts by. *)
Definition ref_less (r1 r2 : PhaseEndpointRef) : bool :=
  if bool_decide (ref_TaskID r1 = ref_TaskID r2)
  then (phaseOrder (ref_EndpointID r1) <? phaseOrder (ref_EndpointID r2))%Z
  else string_lt (ref_TaskID r1) (ref_TaskID r2).

Definition edge_less (e1 e2 : Edge) : bool :=
  if bool_decide (edge_To e1 <> edge_To e2) then ref_less (edge_To e1) (edge_To e2)
  else ref_less (edge_From e1) (edge_From e2).

Definition cloneEdges (edges : list Edge) : list Edge :=
  (fun e => mkEdge (edge_From e) (edge_To e) (edge_Signal e) (edge_RequiredBy e)
              ([] ++ edge_ArtifactKinds e) (edge_OnFalse e)) <$> edges.

Section with_runtime.
Context `{GR : GoRuntime}.

(** [for k, v := range m { copied[k] = v }]. *)
Definition copy_map {K V} `{Countable K} (m : gmap K V) : gmap K V :=
  foldl (fun acc (p : K * V) => <[p.1 := p.2]> acc) ∅ (range_map m).

Definition graphState_clone (s : graphState) : graphState :=
  mkGraph (copy_map (g_tasks s)) (copy_map (g_endpoints s)) (cloneEdges (g_edges s))
    (copy_map (g_blockers s)) (copy_map (g_results s)).

Definition graphState_snapshot (s : graphState) (revision : Revision) : GraphSnapshot :=
  mkSnapshot revision
    (sort_slice (fun a b => string_lt (task_ID a) (task_ID b)) (range_values (g_tasks s)))
    (sort_slice (fun a b => ref_less (ep_Ref a) (ep_Ref b)) (range_values (g_endpoints s)))
    (sort_slice edge_less (cloneEdges (g_edges s)))
    (sort_slice (fun a b => string_lt (blk_ID a) (blk_ID b)) (range_values (g_blockers s)))
    (sort_slice (fun a b => string_lt (pr_ID a) (pr_ID b)) (range_values (g_results s))).

Definition newProjectState : projectState :=
  mkProject 1 {[ 1%Z := graphState_clone newGraphState ]} newGraphState newMemoryRuntimeState.

Definition ensureProject (projectID : ProjectID) (s : MemoryStore) : projectState :=
  default newProjectState (s !! projectID).

(** Run [m] on the project, under the lock; the project exists afterwards. *)
Definition locked {A} (projectID : ProjectID) (m : M error projectState A) : M error MemoryStore A :=
  fun s => let '(r, p) := m (ensureProject projectID s) in (r, <[projectID := p]> s).

Definition commit (state : graphState) : M error projectState GraphSnapshot := fun project =>
  let latest := Revision_Next (pj_latest project) in
  let current := graphState_clone state in
  (Ok (graphState_snapshot current latest),
   mkProject latest (<[latest := graphState_clone state]> (pj_history project)) current (pj_runtime project)).

Definition recordRuntimeBinding (transition : GraphTransition) (project : projectState) : projectState :=
  let record := pj_set_runtime (rt_set_binding (tr_NewBindingRef transition)
    (mkBinding (tr_CheckpointRef transition) (tr_NonResumable transition)) (pj_runtime project)) project in
  if bool_decide (tr_TargetKind transition <> TargetPhaseEndpoint) then project
  else if bool_decide (tr_Action transition = "stopped") then record
  else if bool_decide (tr_Action transition = "reopened") then
    if bool_decide (tr_NewBindingRef transition <> "") then record else project
  else project.

Definition requireProjectID (projectID : ProjectID) : res unit :=
  fail_if (IsZeroID projectID) (InvalidArgument "project_id is required").

Definition Latest (projectID : ProjectID) : M error MemoryStore GraphSnapshot :=
  _ ← lift (requireProjectID projectID);
  locked projectID (
    project ← get_state;
    mret (graphState_snapshot (pj_current project) (pj_latest project))).

Definition Snapshot (projectID : ProjectID) (revision : Revision) : M error MemoryStore GraphSnapshot :=
  _ ← lift (requireProjectID projectID);
  _ ← lift (fail_if (IsLatestRead revision) (InvalidArgument "concrete revision is required"));
  locked projectID (
    project ← get_state;
    match pj_history project !! revision with
    | None => throw (kerr CodeNotFound ("graph revision " +:+ format_int revision +:+ " not found") false)
    | Some state => mret (graphState_snapshot state revision)
    end).

Definition replacePending (next : PendingSubgraph) : M error projectState GraphSnapshot :=
  project ← get_state;
  _ ← lift (CheckExpectedRevision (ps_BaseRevision next) (pj_latest project));
  let state := graphState_clone (pj_current project) in
  _ ← lift (validatePendingSubgraph (pj_current project) (pj_runtime project) next);
  _ ← lift (validatePendingSubgraphRuntime (pj_runtime project) next);
  let state := applyPendingSubgraph state next in
  _ ← lift (validateGraph state);
  commit state.

Definition ReplacePending (projectID : ProjectID) (next : PendingSubgraph) : M error MemoryStore GraphSnapshot :=
  _ ← lift (requireProjectID projectID);
  _ ← lift (fail_if (IsZeroID (ps_RequestID next)) (InvalidArgument "request_id is required"));
  locked projectID (replacePending next).

(** The lease test a "released" transition makes. *)
Definition releasedGuard (runtime : memoryRuntimeState) (transition : GraphTransition) : res unit :=
  if bool_decide (tr_TargetKind transition = TargetPhaseEndpoint) &&
     bool_decide (tr_Action transition = "released")
  then each (fun lease =>
         fail_if (bool_decide (ls_State lease = "active") &&
                  bool_decide (ls_Endpoint lease = tr_Endpoint transition))
           (TransitionRejected "released transition requires the phase lease to be terminally released"))
         (range_values (rt_leases runtime))
  else Ok tt.

Definition reopenRoundGuard (runtime : memoryRuntimeState) (transition : GraphTransition) : res unit :=
  if bool_decide (tr_TargetKind transition = TargetTask) &&
     bool_decide (tr_Action transition = "reopen_round")
  then validateReopenRoundRuntime runtime (tr_TaskID transition)
  else Ok tt.

Definition transitionProject (expectedRevision : Revision) (transition : GraphTransition) :
    M error projectState GraphSnapshot :=
  project ← get_state;
  _ ← lift (CheckExpectedRevision expectedRevision (pj_latest project));
  _ ← lift (releasedGuard (pj_runtime project) transition);
  _ ← lift (reopenRoundGuard (pj_runtime project) transition);
  _ ← lift (validateRuntimeBackedTransition (pj_current project) (pj_runtime project) transition);
  let state := graphState_clone (pj_current project) in
  state ← lift (applyTransition state transition);
  _ ← lift (validateGraph state);
  snapshot ← commit state;
  _ ← modify (recordRuntimeBinding transition);
  mret snapshot.

Definition store_transition (projectID : ProjectID) (expectedRevision : Revision)
    (transition : GraphTransition) : M error MemoryStore GraphSnapshot :=
  _ ← lift (requireProjectID projectID);
  _ ← lift (validateTransitionShape transition);
  locked projectID (transitionProject expectedRevision transition).

Definition Transition (projectID : ProjectID) (expectedRevision : Revision)
    (transition : GraphTransition) : M error MemoryStore GraphSnapshot :=
  store_transition projectID expectedRevision transition.

Definition TransitionWithDecisionRef (projectID : ProjectID) (expectedRevision : Revision)
    (decisionRef : string) (transition : GraphTransition) : M error MemoryStore GraphSnapshot :=
  _ ← lift (fail_if (bool_decide (decisionRef = "")) (InvalidArgument "decision_ref is required"));
  store_transition projectID expectedRevision transition.

(** ** Cloning is the identity on values *)

Lemma copy_map_id {K V} `{Countable K} (m : gmap K V) : copy_map m = m.
Proof.
  unfold copy_map. rewrite <- (list_to_map_range m) at 2.
  pose proof (NoDup_range_keys m) as Hnd. unfold range_keys in Hnd.
  enough (forall acc, foldl (fun acc (p : K * V) => <[p.1 := p.2]> acc) acc (range_map m) =
    list_to_map (range_map m) ∪ acc) as -> by apply (right_id_L ∅ (∪)).
  induction (range_map m) as [|[k v] l IH]; intros acc; simpl.
  { by rewrite (left_id_L ∅ (∪)). }
  apply NoDup_cons in Hnd as [Hk Hnd]. rewrite IH by done.
  rewrite <- insert_union_l, <- insert_union_r; [done|]. by apply not_elem_of_list_to_map_1.
Qed.

Lemma cloneEdges_id es : cloneEdges es = es.
Proof. unfold cloneEdges. induction es as [|[] es IH]; [done|]. simpl. by f_equal. Qed.

Lemma graphState_clone_id s : graphState_clone s = s.
Proof. unfold graphState_clone. rewrite !copy_map_id, cloneEdges_id. by destruct s. Qed.

End with_runtime.
