(* ===== verification/StoreInv.v ===== *)
(** * What the store guarantees about graphs and revisions

    [graph_inv] is the invariant of a project: the current graph is
    well formed, every recorded revision is, the newest record is the current
    graph and revisions are handed out in order without reuse.  The
    lemmas [replacePending_run] and [transitionProject_run] relate each
    successful write to the graph it commits. *)

From stdpp Require Import base tactics option list strings gmap sorting.
From Stdlib Require Import ZArith.
From S2P Require Import Prelude GoLib Kernel CoordTypes Acyclic Validation GraphSpec Pending Transition.
From S2P Require Import TransitionSpec MemoryStore.

(** Every generation is a Go [int]. *)
Definition typed_graph (st : graphState) : Prop :=
  forall r e, g_endpoints st !! r = Some e -> is_int (ep_Generation e).

Definition typed_pending (next : PendingSubgraph) : Prop :=
  forall e, e ∈ ps_Endpoints next -> is_int (ep_Generation e).

Record good_graph (st : graphState) : Prop := {
  gg_valid : valid_graph st;
  gg_coherent : coherent st;
  gg_typed : typed_graph st;
}.

Record graph_inv (p : projectState) : Prop := {
  gi_current : good_graph (pj_current p);
  gi_latest : is_uint64 (pj_latest p);
  gi_newest : pj_history p !! pj_latest p = Some (pj_current p);
  gi_history : forall r g, pj_history p !! r = Some g -> good_graph g;
  gi_revisions : pj_latest p <> LatestRevision ->
    forall r, is_Some (pj_history p !! r) <-> (1 <= r <= pj_latest p)%Z;
}.

(** Every project of a store satisfies [P]. *)
Definition store_all (P : projectState -> Prop) (s : MemoryStore) : Prop :=
  forall id p, s !! id = Some p -> P p.

Lemma newGraphState_good : good_graph newGraphState.
Proof.
  split.
  - split; simpl; try (intros ? ?; by rewrite lookup_empty).
    + by intros ? ?%elem_of_nil.
    + constructor.
    + intros r Hr. assert (forall x y, ~ depends newGraphState x y) as Hd.
      { intros x y [? ?%elem_of_nil|? [? Ht]|? [? Ht]]; [done|by simpl in Ht; rewrite lookup_empty in Ht..]. }
      inversion Hr as [? ? Hd1|? ? ? Hd1]; subst; by apply Hd in Hd1.
  - split; intros ? ?; simpl; by rewrite lookup_empty.
  - intros ? ?. simpl. by rewrite lookup_empty.
Qed.

Lemma typed_graph_pending st next :
  typed_graph st -> typed_pending next -> typed_graph (applyPendingSubgraph st next).
Proof. intros Hst Hn r e [[Hin _]|[Hin _]]%foldl_insert_inv; eauto. Qed.

Lemma lifecycle_typed e e' : lifecycle e e' -> is_int (ep_Generation e) -> is_int (ep_Generation e').
Proof. destruct 1; simpl; auto using int_wrap_is_int. Qed.

Section with_runtime.
Context `{GR : GoRuntime}.

Lemma typed_graph_step st tr st' : graph_step st tr st' -> typed_graph st -> typed_graph st'.
Proof.
  intros Hs Ht r e He. pose proof (graph_step_endpoints _ _ _ Hs r) as Hr.
  destruct (g_endpoints st !! r) as [e0|] eqn:H0; [|congruence].
  destruct Hr as (e' & ? & Hl). simplify_eq. eapply lifecycle_typed; eauto.
Qed.

Lemma newProjectState_inv : graph_inv newProjectState.
Proof.
  unfold newProjectState. rewrite graphState_clone_id.
  split; simpl; [apply newGraphState_good|done| | |].
  - by rewrite lookup_singleton_eq.
  - intros r g [<- <-]%lookup_singleton_Some. apply newGraphState_good.
  - intros _ r. rewrite lookup_singleton_is_Some. lia.
Qed.

Lemma commit_run st p :
  commit st p = (Ok (graphState_snapshot st (Revision_Next (pj_latest p))),
    mkProject (Revision_Next (pj_latest p)) (<[Revision_Next (pj_latest p) := st]> (pj_history p)) st
      (pj_runtime p)).
Proof. unfold commit. by rewrite graphState_clone_id. Qed.

(** The next revision is unused, at the end of the [uint64] range too. *)
Lemma next_unused p :
  graph_inv p -> pj_latest p <> LatestRevision ->
  pj_history p !! Revision_Next (pj_latest p) = None.
Proof.
  intros [_ Hl _ _ Hr] H0. apply eq_None_not_Some. rewrite (Hr H0).
  unfold Revision_Next, uint64_wrap, is_uint64, LatestRevision in *.
  destruct (decide (pj_latest p = 18446744073709551615%Z)) as [->|Hne].
  - change ((18446744073709551615 + 1) mod 18446744073709551616)%Z with 0%Z. lia.
  - rewrite Z.mod_small by lia. lia.
Qed.

Lemma commit_inv st p r p' :
  graph_inv p -> pj_latest p <> LatestRevision -> good_graph st ->
  commit st p = (r, p') -> graph_inv p'.
Proof.
  intros Hp H0 Hst. rewrite commit_run. intros [= _ <-].
  pose proof (next_unused p Hp H0) as Hnew. destruct Hp as [Hc Hl Hn Hh Hr].
  split; simpl; [done| |by rewrite lookup_insert_eq| |].
  - unfold Revision_Next, uint64_wrap, is_uint64. apply Z.mod_pos_bound. lia.
  - intros r' g. rewrite lookup_insert_Some. intros [[_ <-]|[_ Hg]]; [done|by eapply Hh].
  - intros Hne r'. rewrite lookup_insert_is_Some, (Hr H0).
    unfold Revision_Next, uint64_wrap, is_uint64, LatestRevision in *.
    destruct (decide (pj_latest p = 18446744073709551615%Z)) as [Heq|Hne'].
    { rewrite Heq in Hne. vm_compute in Hne. done. }
    rewrite Z.mod_small by lia. split; [intros [<-|[_ ?]]; lia|].
    intros ?.
    destruct (decide (pj_latest p + 1 = r')%Z); [by left|right]. split; [done|lia].
Qed.

(** ** Successful operations *)

Lemma replacePending_run next p snap p' :
  replacePending next p = (Ok snap, p') ->
  ps_BaseRevision next = pj_latest p /\ pj_latest p <> LatestRevision /\
  validatePendingSubgraph (pj_current p) (pj_runtime p) next = Ok tt /\
  validatePendingSubgraphRuntime (pj_runtime p) next = Ok tt /\
  validateGraph (applyPendingSubgraph (pj_current p) next) = Ok tt /\
  commit (applyPendingSubgraph (pj_current p) next) p = (Ok snap, p').
Proof.
  unfold replacePending. intros H. res_inv. rewrite graphState_clone_id in *.
  match goal with H : get_state _ = _ |- _ => injection H as <- <- end.
  match goal with H : CheckExpectedRevision _ _ = _ |- _ => apply CheckExpectedRevision_Ok in H as [? ?] end.
  split_and!; congruence.
Qed.

Lemma transitionProject_run rev tr p snap p' :
  transitionProject rev tr p = (Ok snap, p') ->
  rev = pj_latest p /\ pj_latest p <> LatestRevision /\
  releasedGuard (pj_runtime p) tr = Ok tt /\ reopenRoundGuard (pj_runtime p) tr = Ok tt /\
  validateRuntimeBackedTransition (pj_current p) (pj_runtime p) tr = Ok tt /\
  exists st p1, applyTransition (pj_current p) tr = Ok st /\ validateGraph st = Ok tt /\
    commit st p = (Ok snap, p1) /\ p' = recordRuntimeBinding tr p1.
Proof.
  unfold transitionProject. intros H. res_inv. rewrite graphState_clone_id in *.
  match goal with H : get_state _ = _ |- _ => injection H as <- <- end.
  match goal with H : CheckExpectedRevision _ _ = _ |- _ => apply CheckExpectedRevision_Ok in H as [? ?] end.
  match goal with H : modify _ _ = _ |- _ => injection H as <- end.
  split_and!; try congruence. eexists _, _. split_and!; done.
Qed.

Lemma recordRuntimeBinding_graph tr p :
  pj_latest (recordRuntimeBinding tr p) = pj_latest p /\
  pj_history (recordRuntimeBinding tr p) = pj_history p /\
  pj_current (recordRuntimeBinding tr p) = pj_current p.
Proof. unfold recordRuntimeBinding. cbv zeta. repeat case_bool_decide; done. Qed.

(** The invariant only looks at the graph side of a project. *)
Lemma graph_inv_ext p p' :
  pj_latest p' = pj_latest p -> pj_history p' = pj_history p -> pj_current p' = pj_current p ->
  graph_inv p -> graph_inv p'.
Proof. destruct p, p'; simpl. intros -> -> -> [? ? ? ? ?]. by split. Qed.

Lemma readonly_guarded {S A B} (m : M error S A) (k : A -> M error S B) s r s' :
  readonly m -> (m ≫= k) s = (r, s') ->
  (exists e, r = Err e /\ s' = s) \/ exists a, m s = (Ok a, s) /\ k a s = (r, s').
Proof.
  intros Hm. specialize (Hm s). unfold mbind, M_bind.
  destruct (m s) as [[a|e] s1]; simpl in *; subst; [by eauto|]. intros [= <- <-]. by eauto.
Qed.

(** Before the commit both operations only read. *)
Lemma replacePending_Err next p e p' : replacePending next p = (Err e, p') -> p' = p.
Proof.
  unfold replacePending. intros H.
  repeat (apply readonly_guarded in H as [(? & ? & ?)|(? & ? & H)]; [done| |auto with threadmill]).
  match goal with H : get_state _ = _ |- _ => injection H as <- end. done.
Qed.

Lemma transitionProject_Err rev tr p e p' : transitionProject rev tr p = (Err e, p') -> p' = p.
Proof.
  unfold transitionProject. intros H.
  do 7 (apply readonly_guarded in H as [(? & ? & ?)|(? & ? & H)]; [done| |auto with threadmill]).
  match goal with H : get_state _ = _ |- _ => injection H as <- end. done.
Qed.

Lemma replacePending_preserves next : typed_pending next -> preserves graph_inv (replacePending next).
Proof.
  intros Ht p Hp. destruct (replacePending next p) as [[snap|e] p'] eqn:Hrun; simpl.
  - apply replacePending_run in Hrun as (_ & H0 & _ & _ & Hv & Hc).
    eapply commit_inv; [exact Hp|exact H0| |exact Hc].
    assert (coherent (applyPendingSubgraph (pj_current p) next)) as Hco
      by apply applyPendingSubgraph_coherent, (gi_current _ Hp).
    split; [by apply validateGraph_Ok|done|]. apply typed_graph_pending; [apply (gi_current _ Hp)|done].
  - by apply replacePending_Err in Hrun as ->.
Qed.

Lemma transitionProject_preserves rev tr : preserves graph_inv (transitionProject rev tr).
Proof.
  intros p Hp. destruct (transitionProject rev tr p) as [[snap|e] p'] eqn:Hrun; simpl.
  - apply transitionProject_run in Hrun as (_ & H0 & _ & _ & _ & st & p1 & Hst & Hv & Hc & ->).
    apply applyTransition_Ok in Hst as Hstep.
    assert (graph_inv p1) as H1.
    { eapply commit_inv; [exact Hp|exact H0| |exact Hc]. destruct (gi_current _ Hp) as [? Hco ?].
      assert (coherent st) by by eapply graph_step_coherent.
      split; [by apply validateGraph_Ok|done|by eapply typed_graph_step]. }
    destruct (recordRuntimeBinding_graph tr p1) as (? & ? & ?). by eapply graph_inv_ext.
  - by apply transitionProject_Err in Hrun as ->.
Qed.

(** ** Lifting to the store *)

Lemma preserves_locked {A} (P : projectState -> Prop) id (m : M error projectState A) :
  P newProjectState -> preserves P m -> preserves (store_all P) (locked id m).
Proof.
  intros Hnew Hm s Hs. unfold locked.
  assert (P (ensureProject id s)) as H0.
  { unfold ensureProject. destruct (s !! id) as [p|] eqn:Hid; [by eapply Hs|done]. }
  specialize (Hm _ H0). destruct (m (ensureProject id s)) as [r p]. simpl in *.
  intros id' p'. rewrite lookup_insert_Some. intros [[_ <-]|[_ ?]]; [done|by eapply Hs].
Qed.

(** A locked operation touches no other project. *)
Lemma locked_frame {A} id id' (m : M error projectState A) s :
  id <> id' -> (snd (locked id m s)) !! id' = s !! id'.
Proof.
  intros Hne. unfold locked. destruct (m _) as [r p]. simpl. by rewrite lookup_insert_ne.
Qed.

End with_runtime.
