(* ===== verification/RuntimeView.v ===== *)
(** * The runtime view and the start condition

    [internal/coordination/recovery.go]: the immutable picture of a project one
    reconciliation works on, and [isRunnable], the condition under which a phase
    endpoint may be started. *)

From stdpp Require Import base tactics option list strings gmap sorting.
From Stdlib Require Import ZArith.
From S2P Require Import Prelude GoLib Kernel CoordTypes Acyclic Validation GraphSpec Pending Transition.
From S2P Require Import TransitionSpec MemoryStore StoreInv.

Record runtimeView := mkView {
  v_revision : Revision;
  v_tasks : gmap TaskID Task;
  v_endpoints : list PhaseEndpoint;
  v_endpointByRef : gmap PhaseEndpointRef PhaseEndpoint;
  v_edges : list Edge;
  v_blockers : list Blocker;
  v_results : list PhaseResult;
  v_commands : gmap string commandRecord;
  v_leases : gmap LeaseID phaseLease;
  v_observations : list phaseObservation;
  v_bindings : gmap BindingRef bindingRuntimeInfo;
  v_suppressed : gset string;
}.

Definition v_set_commands (c : gmap string commandRecord) (v : runtimeView) : runtimeView :=
  mkView (v_revision v) (v_tasks v) (v_endpoints v) (v_endpointByRef v) (v_edges v) (v_blockers v)
    (v_results v) c (v_leases v) (v_observations v) (v_bindings v) (v_suppressed v).
Definition v_set_leases (l : gmap LeaseID phaseLease) (v : runtimeView) : runtimeView :=
  mkView (v_revision v) (v_tasks v) (v_endpoints v) (v_endpointByRef v) (v_edges v) (v_blockers v)
    (v_results v) (v_commands v) l (v_observations v) (v_bindings v) (v_suppressed v).
Definition v_set_suppressed (x : gset string) (v : runtimeView) : runtimeView :=
  mkView (v_revision v) (v_tasks v) (v_endpoints v) (v_endpointByRef v) (v_edges v) (v_blockers v)
    (v_results v) (v_commands v) (v_leases v) (v_observations v) (v_bindings v) x.

Definition suppressionKey (ref : PhaseEndpointRef) (generation : Z) : string :=
  ref_TaskID ref +:+ "/" +:+ ref_EndpointID ref +:+ "/" +:+ format_int generation.

Definition revisionRef (v : runtimeView) : string := "revision://" +:+ format_int (v_revision v).
Definition view_task (v : runtimeView) (id : TaskID) : option Task := v_tasks v !! id.
Definition view_endpoint (v : runtimeView) (ref : PhaseEndpointRef) : option PhaseEndpoint :=
  v_endpointByRef v !! ref.
Definition view_binding (v : runtimeView) (ref : BindingRef) : bindingRuntimeInfo :=
  default zeroBinding (v_bindings v !! ref).

Definition checkpointCompatible (ref : BindingRef) (info : bindingRuntimeInfo) : bool :=
  bool_decide (ref <> "") && bool_decide (bi_CheckpointRef info <> "") && negb (bi_NonResumable info).

Definition leaseExpired (lease : phaseLease) : bool := ls_Expired lease.

Definition suppressRun (ref : PhaseEndpointRef) (generation : Z) (v : runtimeView) : runtimeView :=
  v_set_suppressed ({[suppressionKey ref generation]} ∪ v_suppressed v) v.
Definition runSuppressed (v : runtimeView) (ref : PhaseEndpointRef) (generation : Z) : bool :=
  bool_decide (suppressionKey ref generation ∈ v_suppressed v).

Definition unfoldedObservations (v : runtimeView) : list phaseObservation :=
  filter (fun o => ob_Folded o = false) (v_observations v).

Definition hasMatchingActiveLease (v : runtimeView) (command : PhaseCommand) : bool :=
  match v_leases v !! cmd_LeaseRef command with
  | None => false
  | Some lease =>
    if bool_decide (ls_State lease <> "active") then false
    else bool_decide (ls_Endpoint lease = cmd_Endpoint command) &&
         bool_decide (ls_Generation lease = cmd_Generation command) &&
         bool_decide (ls_BindingRef lease = cmd_BindingRef command)
  end.

Definition hasRemoteObservation (v : runtimeView) (lease : phaseLease) : bool :=
  existsb (fun observation =>
    bool_decide (ob_LeaseRef observation = ls_LeaseRef lease) &&
    bool_decide (ob_Endpoint observation = ls_Endpoint lease) &&
    bool_decide (ob_Generation observation = ls_Generation lease) &&
    bool_decide (ob_BindingRef observation = ls_BindingRef lease)) (v_observations v).

Definition endpointSatisfied (v : runtimeView) (ref : PhaseEndpointRef) : bool :=
  match view_endpoint v ref with
  | Some endpoint => bool_decide (ep_State endpoint = EndpointSatisfied)
  | None => false
  end.

Definition builtinPredecessorSatisfied (v : runtimeView) (ref : PhaseEndpointRef) : bool :=
  if bool_decide (ref_EndpointID ref = EndpointPlan) then true
  else if bool_decide (ref_EndpointID ref = EndpointExecute)
  then endpointSatisfied v (mkRef (ref_TaskID ref) EndpointPlan)
  else if bool_decide (ref_EndpointID ref = EndpointVerify)
  then endpointSatisfied v (mkRef (ref_TaskID ref) EndpointExecute)
  else false.

Definition edgeSatisfied (v : runtimeView) (edge : Edge) : bool :=
  if bool_decide (edge_Signal edge = SignalPhaseSatisfied) then endpointSatisfied v (edge_From edge)
  else if bool_decide (edge_Signal edge = SignalTaskDone) then
    match view_task v (ref_TaskID (edge_From edge)) with
    | Some task => bool_decide (task_Outcome task = TaskDone)
    | None => false
    end
  else false.

Definition startEdgesAndBlockersSatisfied (v : runtimeView) (ref : PhaseEndpointRef) : bool :=
  forallb (fun edge =>
    if bool_decide (edge_To edge <> ref) || bool_decide (edge_RequiredBy edge <> RequiredByStart) then true
    else edgeSatisfied v edge) (v_edges v) &&
  forallb (fun blocker =>
    if bool_decide (blk_Target blocker <> ref) || bool_decide (blk_RequiredBy blocker <> RequiredByStart) then true
    else negb (one_of (blk_State blocker) [BlockerActive; BlockerDenied])) (v_blockers v).

(** [!commandExists || !leaseExists || ...]: the observation closes its command
    and matches the command's and the lease's identity. *)
Definition closesCommand (v : runtimeView) (observation : phaseObservation) : bool :=
  match v_commands v !! ob_CommandID observation, v_leases v !! ob_LeaseRef observation with
  | Some record, Some lease =>
    bool_decide (cr_CompletedEventRef record = ob_ID observation) &&
    identityMatches observation (cr_Command record) lease
  | _, _ => false
  end.

Definition hasTerminalObservation (v : runtimeView) (ref : PhaseEndpointRef) (generation : Z) : bool :=
  existsb (fun observation =>
    if negb (ob_Folded observation) || bool_decide (ob_Endpoint observation <> ref) ||
       bool_decide (ob_Generation observation <> generation) || bool_decide (ob_CommandID observation = "") ||
       bool_decide (ob_LeaseRef observation = "") || bool_decide (ob_BindingRef observation = "") then false
    else if negb (closesCommand v observation) then false
    else one_of (ob_Kind observation) [phaseObservationOutput; phaseObservationFailed; phaseObservationStopped])
    (v_observations v).

Section with_runtime.
Context `{GR : GoRuntime}.

Definition newRuntimeViewFrom (snapshot : GraphSnapshot) (state : memoryRuntimeState) : runtimeView :=
  mkView (snap_Revision snapshot)
    (foldl (fun m t => <[task_ID t := t]> m) ∅ (snap_Tasks snapshot))
    (snap_Endpoints snapshot)
    (foldl (fun m e => <[ep_Ref e := e]> m) ∅ (snap_Endpoints snapshot))
    (cloneEdges (snap_Edges snapshot)) (snap_Blockers snapshot) (snap_Results snapshot)
    (copy_map (rt_commands state)) (copy_map (rt_leases state)) (rt_observations state)
    (copy_map (rt_bindings state)) ∅.

Definition newRuntimeView (project : projectState) : runtimeView :=
  newRuntimeViewFrom (graphState_snapshot (pj_current project) (pj_latest project)) (pj_runtime project).

Definition activeLeases (v : runtimeView) : list phaseLease :=
  filter (fun l => ls_State l = "active") (range_values (v_leases v)).

Definition pendingCommands (v : runtimeView) : list PhaseCommand :=
  cr_Command <$> filter (fun record =>
    ~ (cr_CompletedEventRef record <> "" \/ cr_Quarantined record = true \/ cr_NotExecutable record = true) /\
    ~ (isRunCommand (cr_Command record) = true /\ cr_ObservedEventRef record <> ""))
    (range_values (v_commands v)).

Definition hasCommandForLease (v : runtimeView) (leaseRef : LeaseID) : bool :=
  existsb (fun record =>
    bool_decide (cmd_LeaseRef (cr_Command record) = leaseRef) && negb (cr_Quarantined record) &&
    negb (cr_NotExecutable record)) (range_values (v_commands v)).

Definition hasActiveLease (v : runtimeView) (ref : PhaseEndpointRef) (generation : Z) : bool :=
  existsb (fun lease =>
    bool_decide (ls_State lease = "active") && bool_decide (ls_Endpoint lease = ref) &&
    bool_decide (ls_Generation lease = generation)) (range_values (v_leases v)).

Definition hasPendingRunCommand (v : runtimeView) (ref : PhaseEndpointRef) (generation : Z) : bool :=
  existsb (fun record =>
    if bool_decide (cr_CompletedEventRef record <> "") || cr_Quarantined record || cr_NotExecutable record
    then false
    else
      let command := cr_Command record in
      bool_decide (cmd_Endpoint command = ref) && bool_decide (cmd_Generation command = generation) &&
      isRunCommand command && bool_decide (cr_ObservedEventRef record = ""))
    (range_values (v_commands v)).

Definition isRunnable (v : runtimeView) (endpoint : PhaseEndpoint) : bool :=
  let ref := ep_Ref endpoint in
  match view_task v (ref_TaskID ref) with
  | None => false
  | Some task =>
    if bool_decide (task_Outcome task <> TaskActive) then false
    else if bool_decide (ep_State endpoint <> EndpointPending) ||
            bool_decide (ep_RunPolicy endpoint <> RunEnabled) then false
    else if bool_decide (ep_BindingRef endpoint = "") || bool_decide (ep_SpecRef endpoint = "") then false
    else if negb (builtinPredecessorSatisfied v ref) then false
    else if negb (startEdgesAndBlockersSatisfied v ref) then false
    else if hasActiveLease v ref (ep_Generation endpoint) ||
            hasPendingRunCommand v ref (ep_Generation endpoint) then false
    else negb (hasTerminalObservation v ref (ep_Generation endpoint))
  end.

Definition endpointRunnableLocked (p : projectState) (ref : PhaseEndpointRef) (generation : Z) : bool :=
  match g_endpoints (pj_current p) !! ref with
  | None => false
  | Some endpoint =>
    if bool_decide (ep_Generation endpoint <> generation) then false
    else isRunnable (newRuntimeView p) endpoint
  end.

(** ** The view shows the current graph *)

Lemma keys_of_values {K V} `{Countable K} (key : V -> K) (m : gmap K V) :
  (forall k v, m !! k = Some v -> key v = k) -> key <$> range_values m = range_keys m.
Proof.
  intros Hm. unfold range_values, range_keys. rewrite <- list_fmap_compose.
  apply list_fmap_ext. intros i [k v] Hi. simpl. apply Hm, elem_of_range_map.
  by eapply list_elem_of_lookup_2.
Qed.

(** Rebuilding a map from its values, in any order. *)
Lemma rebuild_map {K V} `{Countable K} (key : V -> K) (m : gmap K V) (l : list V) :
  (forall k v, m !! k = Some v -> key v = k) -> l ≡ₚ range_values m ->
  foldl (fun m v => <[key v := v]> m) ∅ l = m.
Proof.
  intros Hm Hl. assert (NoDup (key <$> l)) as Hnd.
  { rewrite Hl, keys_of_values by done. apply NoDup_range_keys. }
  apply map_eq. intros k. destruct (m !! k) as [v|] eqn:Hk.
  - rewrite <- (Hm k v Hk). apply foldl_insert_in; [done|].
    rewrite Hl. apply elem_of_range_values. eauto.
  - rewrite foldl_insert_notin; [by rewrite lookup_empty|].
    rewrite Hl, keys_of_values by done. rewrite elem_of_range_keys, Hk. by intros [? ?].
Qed.

Section view_of_project.
Context (p : projectState) (Hco : coherent (pj_current p)).

Lemma view_tasks_eq : v_tasks (newRuntimeView p) = g_tasks (pj_current p).
Proof. apply rebuild_map; [apply (co_tasks _ Hco)|apply sort_slice_perm]. Qed.

Lemma view_endpoints_eq : v_endpointByRef (newRuntimeView p) = g_endpoints (pj_current p).
Proof. apply rebuild_map; [apply (co_endpoints _ Hco)|apply sort_slice_perm]. Qed.

Lemma view_edges_elem e : e ∈ v_edges (newRuntimeView p) <-> e ∈ g_edges (pj_current p).
Proof. unfold newRuntimeView. simpl. by rewrite !cloneEdges_id, sort_slice_perm. Qed.

Lemma view_blockers_elem b :
  b ∈ v_blockers (newRuntimeView p) <-> exists id, g_blockers (pj_current p) !! id = Some b.
Proof. unfold newRuntimeView. simpl. by rewrite sort_slice_perm, elem_of_range_values. Qed.

Lemma view_endpoints_elem e :
  e ∈ v_endpoints (newRuntimeView p) <-> g_endpoints (pj_current p) !! ep_Ref e = Some e.
Proof.
  unfold newRuntimeView. simpl. rewrite sort_slice_perm, elem_of_range_values. split; [|by eauto].
  intros [r Hr]. by rewrite (co_endpoints _ Hco _ _ Hr).
Qed.
End view_of_project.

Lemma view_runtime_eq p :
  v_commands (newRuntimeView p) = rt_commands (pj_runtime p) /\
  v_leases (newRuntimeView p) = rt_leases (pj_runtime p) /\
  v_observations (newRuntimeView p) = rt_observations (pj_runtime p) /\
  v_bindings (newRuntimeView p) = rt_bindings (pj_runtime p).
Proof. unfold newRuntimeView. simpl. by rewrite !copy_map_id. Qed.

End with_runtime.

(** ** The start condition, without any view *)

Definition satisfied_in (st : graphState) (r : PhaseEndpointRef) : Prop :=
  exists e, g_endpoints st !! r = Some e /\ ep_State e = EndpointSatisfied.

Definition done_in (st : graphState) (id : TaskID) : Prop :=
  exists t, g_tasks st !! id = Some t /\ task_Outcome t = TaskDone.

(** The endpoint may start as far as the graph is concerned. *)
Record ready (st : graphState) (e : PhaseEndpoint) : Prop := {
  rd_task : exists t, g_tasks st !! ref_TaskID (ep_Ref e) = Some t /\ task_Outcome t = TaskActive;
  rd_pending : ep_State e = EndpointPending;
  rd_enabled : ep_RunPolicy e = RunEnabled;
  rd_fixed : ref_EndpointID (ep_Ref e) ∈ fixedEndpoints;
  rd_plan : ref_EndpointID (ep_Ref e) = EndpointExecute ->
    satisfied_in st (mkRef (ref_TaskID (ep_Ref e)) EndpointPlan);
  rd_execute : ref_EndpointID (ep_Ref e) = EndpointVerify ->
    satisfied_in st (mkRef (ref_TaskID (ep_Ref e)) EndpointExecute);
  rd_edges : forall d, d ∈ g_edges st -> edge_To d = ep_Ref e -> edge_RequiredBy d = RequiredByStart ->
    edge_Signal d = SignalPhaseSatisfied /\ satisfied_in st (edge_From d) \/
    edge_Signal d = SignalTaskDone /\ done_in st (ref_TaskID (edge_From d));
  rd_blockers : forall id b, g_blockers st !! id = Some b -> blk_Target b = ep_Ref e ->
    blk_RequiredBy b = RequiredByStart -> blk_State b ∉ [BlockerActive; BlockerDenied];
}.

(** No execution of this generation is under way or over. *)
Record idle (rt : memoryRuntimeState) (r : PhaseEndpointRef) (gen : Z) : Prop := {
  id_lease : forall id l, rt_leases rt !! id = Some l -> ls_State l = "active" ->
    ls_Endpoint l = r -> ls_Generation l <> gen;
  id_command : forall id c, rt_commands rt !! id = Some c -> isRunCommand (cr_Command c) = true ->
    cmd_Endpoint (cr_Command c) = r -> cmd_Generation (cr_Command c) = gen ->
    cr_CompletedEventRef c = "" -> cr_Quarantined c = false -> cr_NotExecutable c = false ->
    cr_ObservedEventRef c <> "";
  id_observation : forall o c l, o ∈ rt_observations rt -> ob_Folded o = true ->
    ob_Endpoint o = r -> ob_Generation o = gen ->
    ob_CommandID o <> "" -> ob_LeaseRef o <> "" -> ob_BindingRef o <> "" ->
    rt_commands rt !! ob_CommandID o = Some c -> rt_leases rt !! ob_LeaseRef o = Some l ->
    cr_CompletedEventRef c = ob_ID o -> identityMatches o (cr_Command c) l = true ->
    ob_Kind o ∉ [phaseObservationOutput; phaseObservationFailed; phaseObservationStopped];
}.
