(* ===== verification/RuntimeSpec.v ===== *)
(** * [isRunnable] decides the start condition

    The Boolean the code computes from sorted slices and map iterations is
    equivalent to [ready] and [idle], which mention neither. *)

From stdpp Require Import base tactics option list strings gmap sorting.
From Stdlib Require Import ZArith.
From S2P Require Import Prelude GoLib Kernel CoordTypes Acyclic Validation GraphSpec Pending Transition.
From S2P Require Import TransitionSpec MemoryStore StoreInv RuntimeView.

Section with_runtime.
Context `{GR : GoRuntime}.

Section conditions.
Context (p : projectState) (Hco : coherent (pj_current p)).

Lemma endpointSatisfied_true r :
  endpointSatisfied (newRuntimeView p) r = true <-> satisfied_in (pj_current p) r.
Proof.
  unfold endpointSatisfied, view_endpoint, satisfied_in. rewrite view_endpoints_eq by done.
  destruct (_ !! r) as [e|]; [rewrite bool_decide_eq_true|]; naive_solver.
Qed.

Lemma edgeSatisfied_true d :
  edgeSatisfied (newRuntimeView p) d = true <->
  edge_Signal d = SignalPhaseSatisfied /\ satisfied_in (pj_current p) (edge_From d) \/
  edge_Signal d = SignalTaskDone /\ done_in (pj_current p) (ref_TaskID (edge_From d)).
Proof.
  unfold edgeSatisfied. case_bool_decide as H1.
  { rewrite endpointSatisfied_true, H1. split; [auto|]. intros [[_ ?]|[? _]]; done. }
  case_bool_decide as H2; [|split; [done|]; by intros [[? _]|[? _]]].
  unfold view_task, done_in. rewrite view_tasks_eq by done.
  destruct (g_tasks _ !! _) as [t|] eqn:Ht; split; try done.
  - intros ?%bool_decide_eq_true. right. split; [done|]. by exists t.
  - intros [[? _]|[_ (t' & ? & ?)]]; [done|]. simplify_eq. by apply bool_decide_eq_true.
  - intros [[? _]|[_ (t' & ? & ?)]]; done.
Qed.

Lemma builtinPredecessor_true r :
  builtinPredecessorSatisfied (newRuntimeView p) r = true <->
  ref_EndpointID r ∈ fixedEndpoints /\
  (ref_EndpointID r = EndpointExecute -> satisfied_in (pj_current p) (mkRef (ref_TaskID r) EndpointPlan)) /\
  (ref_EndpointID r = EndpointVerify -> satisfied_in (pj_current p) (mkRef (ref_TaskID r) EndpointExecute)).
Proof.
  unfold builtinPredecessorSatisfied. rewrite <- isFixedEndpoint_true.
  case_bool_decide as H1; [by rewrite H1|].
  case_bool_decide as H2; [rewrite H2, endpointSatisfied_true; naive_solver|].
  case_bool_decide as H3; [rewrite H3, endpointSatisfied_true; naive_solver|].
  split; [done|]. unfold isFixedEndpoint. simpl. intros [Hf _].
  repeat (case_bool_decide; [done|]). done.
Qed.

Lemma startConditions_true r :
  startEdgesAndBlockersSatisfied (newRuntimeView p) r = true <->
  (forall d, d ∈ g_edges (pj_current p) -> edge_To d = r -> edge_RequiredBy d = RequiredByStart ->
    edge_Signal d = SignalPhaseSatisfied /\ satisfied_in (pj_current p) (edge_From d) \/
    edge_Signal d = SignalTaskDone /\ done_in (pj_current p) (ref_TaskID (edge_From d))) /\
  (forall id b, g_blockers (pj_current p) !! id = Some b -> blk_Target b = r ->
    blk_RequiredBy b = RequiredByStart -> blk_State b ∉ [BlockerActive; BlockerDenied]).
Proof.
  unfold startEdgesAndBlockersSatisfied. rewrite andb_true_iff, !forallb_elem.
  setoid_rewrite view_edges_elem. setoid_rewrite view_blockers_elem.
  setoid_rewrite <- edgeSatisfied_true. split.
  - intros [He Hb]. split.
    + intros d Hd Hto Hrb. specialize (He d Hd). by rewrite Hto, Hrb, !bool_decide_false in He by tauto.
    + intros id b Hid Hto Hrb. specialize (Hb b (ex_intro _ id Hid)).
      rewrite Hto, Hrb, !bool_decide_false in Hb by tauto. unfold one_of in Hb. simpl in Hb. by bool_inv.
  - intros [He Hb]. split.
    + intros d Hd. case_bool_decide as Hto; [done|]. case_bool_decide as Hrb; [done|]. simpl.
      by apply He.
    + intros b [id Hid]. case_bool_decide as Hto; [done|]. case_bool_decide as Hrb; [done|]. simpl.
      apply negb_true_iff, bool_decide_eq_false. by eapply Hb.
Qed.

End conditions.

Lemma idle_true p r gen :
  hasActiveLease (newRuntimeView p) r gen || hasPendingRunCommand (newRuntimeView p) r gen = false /\
  hasTerminalObservation (newRuntimeView p) r gen = false <-> idle (pj_runtime p) r gen.
Proof.
  destruct (view_runtime_eq p) as (Hc & Hl & Ho & _).
  unfold hasActiveLease, hasPendingRunCommand, hasTerminalObservation, closesCommand.
  rewrite Hc, Hl, Ho, orb_false_iff, !existsb_elem_false. setoid_rewrite elem_of_range_values. split.
  - intros [[Hls Hcs] Hos]. split.
    + intros id l Hid Hact Hep Hgen. specialize (Hls l (ex_intro _ id Hid)).
      by rewrite !bool_decide_true in Hls by done.
    + intros id c Hid Hrun Hep Hgen H1 H2 H3 H4. specialize (Hcs c (ex_intro _ id Hid)).
      rewrite H2, H3, Hrun, bool_decide_false in Hcs by tauto. simpl in Hcs.
      by rewrite !bool_decide_true in Hcs by done.
    + intros o c l Hin Hf Hep Hgen H1 H2 H3 H4 H5 H6 H7. specialize (Hos o Hin).
      rewrite Hf, H4, H5, H7, !(bool_decide_false _) in Hos by tauto.
      rewrite bool_decide_true in Hos by done. simpl in Hos. unfold one_of in Hos. by bool_inv.
  - intros [Hls Hcs Hos]. split; [split|].
    + intros l [id Hid]. specialize (Hls id l Hid). apply not_true_iff_false. intros Ht. bool_inv. naive_solver.
    + intros c [id Hid]. apply not_true_iff_false. intros Ht. destruct (_ || _) eqn:Hor in Ht; [done|].
      bool_inv. specialize (Hcs id c Hid). naive_solver.
    + intros o Hin. apply not_true_iff_false. intros Ht.
      destruct (_ || _) eqn:Hor in Ht; [done|]. bool_inv.
      destruct (rt_commands _ !! _) as [c|] eqn:Hcm; [|done].
      destruct (rt_leases _ !! _) as [l|] eqn:Hls'; [|done].
      destruct (_ && _) eqn:Hand in Ht; [|done]. simpl in Ht. bool_inv. apply one_of_true in Ht.
      eapply (Hos o c l); try done.
Qed.

(** The start condition of an endpoint of the current graph. *)
Lemma endpointRunnable_true p r gen :
  coherent (pj_current p) -> valid_graph (pj_current p) ->
  endpointRunnableLocked p r gen = true <->
  exists e, g_endpoints (pj_current p) !! r = Some e /\ ep_Generation e = gen /\
    ready (pj_current p) e /\ idle (pj_runtime p) r gen.
Proof.
  intros Hco Hv. unfold endpointRunnableLocked.
  destruct (g_endpoints _ !! r) as [e|] eqn:He; [|naive_solver].
  pose proof (co_endpoints _ Hco _ _ He) as Href.
  destruct (vg_endpoints _ Hv _ _ He) as [(_ & Hspec & Hbind & _) _].
  apply not_zero_nonempty in Hbind. case_bool_decide as Hg; [naive_solver|].
  transitivity (ready (pj_current p) e /\ idle (pj_runtime p) r gen); [|naive_solver].
  rewrite <- idle_true. unfold isRunnable, view_task. cbv zeta.
  rewrite view_tasks_eq, Hg, <- Href by done. rewrite (bool_decide_false (ep_BindingRef e = "")) by done.
  rewrite (bool_decide_false (ep_SpecRef e = "")) by done. split.
  - destruct (g_tasks _ !! _) as [t|] eqn:Ht; [|done]. case_bool_decide as Ho; [done|].
    case_bool_decide as Hp; [done|]. case_bool_decide as Hrp; [done|]. simpl.
    destruct (builtinPredecessorSatisfied _ _) eqn:Hb; [|done].
    destruct (startEdgesAndBlockersSatisfied _ _) eqn:Hst; [|done]. simpl.
    destruct (_ || _) eqn:Hidle; [done|]. intros Hobs%negb_true_iff.
    apply builtinPredecessor_true in Hb as (? & ? & ?); [|done].
    apply startConditions_true in Hst as [? ?]; [|done].
    split; [|done]. split; try done. by exists t.
  - intros ([(t & Ht & Ho) Hp Hrp Hfx Hpl Hex Hed Hbl] & Hidle & Hobs).
    rewrite Ht, Ho, Hp, Hrp. rewrite !bool_decide_false by tauto. simpl.
    rewrite (proj2 (builtinPredecessor_true p Hco (ep_Ref e))) by done.
    rewrite (proj2 (startConditions_true p Hco (ep_Ref e))) by done. simpl.
    by rewrite Hidle, Hobs.
Qed.

End with_runtime.
