(* ===== verification/CommandStore.v ===== *)
(** * Commands, leases and observations

    [internal/coordination/command_store.go], [phase_observation.go] and
    [phase_observation_payload.go]: the process-internal half of the store.  The
    clock a store reads is the argument [now]; a cancelled context is an
    argument [ctx] that carries the error. *)

From stdpp Require Import base tactics option list strings gmap sorting pretty.
From Stdlib Require Import ZArith.
From S2P Require Import Prelude GoLib Kernel CoordTypes Acyclic Validation GraphSpec Pending Transition.
From S2P Require Import TransitionSpec MemoryStore StoreInv RuntimeView.

Definition defaultPhaseLeaseTTL : Z := hour.

Definition commandError (code message : string) : error := kerr code message true.

(** ** Updates of a command record *)

Definition cr_set_Observed (ref : string) (c : commandRecord) : commandRecord :=
  mkCommandRecord (cr_Command c) (cr_Accepted c) ref (cr_CompletedEventRef c) (cr_RetryScheduled c)
    (cr_Quarantined c) (cr_NotExecutable c).
Definition cr_set_Completed (ref : string) (c : commandRecord) : commandRecord :=
  mkCommandRecord (cr_Command c) (cr_Accepted c) (cr_ObservedEventRef c) ref (cr_RetryScheduled c)
    (cr_Quarantined c) (cr_NotExecutable c).
Definition cr_accept (c : commandRecord) : commandRecord :=
  mkCommandRecord (cr_Command c) true (cr_ObservedEventRef c) (cr_CompletedEventRef c) false
    (cr_Quarantined c) (cr_NotExecutable c).
Definition cr_retry (c : commandRecord) : commandRecord :=
  mkCommandRecord (cr_Command c) (cr_Accepted c) (cr_ObservedEventRef c) (cr_CompletedEventRef c) true
    (cr_Quarantined c) (cr_NotExecutable c).
Definition cr_quarantine (c : commandRecord) : commandRecord :=
  mkCommandRecord (cr_Command c) (cr_Accepted c) (cr_ObservedEventRef c) (cr_CompletedEventRef c)
    (cr_RetryScheduled c) true (cr_NotExecutable c).
Definition cr_reject (ref : string) (c : commandRecord) : commandRecord :=
  mkCommandRecord (cr_Command c) (cr_Accepted c) (cr_ObservedEventRef c) ref false (cr_Quarantined c) true.

Definition set_runtime (f : memoryRuntimeState -> memoryRuntimeState) : M error projectState unit :=
  modify (fun p => pj_set_runtime (f (pj_runtime p)) p).
Definition get_runtime : M error projectState memoryRuntimeState :=
  p ← get_state; mret (pj_runtime p).

(** ** Deterministic identities *)

Definition leaseRefOf (ref : PhaseEndpointRef) (generation : Z) : LeaseID :=
  "lease:" +:+ ref_TaskID ref +:+ ":" +:+ ref_EndpointID ref +:+ ":" +:+ format_int generation.
Definition runCommandIDOf (ref : PhaseEndpointRef) (generation : Z) : string :=
  "cmd:run:" +:+ ref_TaskID ref +:+ ":" +:+ ref_EndpointID ref +:+ ":" +:+ format_int generation.
Definition stopCommandIDOf (lease : LeaseID) : string := "cmd:stop:" +:+ lease.

Definition deterministicPhaseObservationID (kind commandID : string) : string :=
  "phase-observation:" +:+ kind +:+ ":" +:+ commandID.

(** ** Observations *)

Definition samePhaseObservationPayload (left right : phaseObservation) : bool :=
  bool_decide (ob_ID left = ob_ID right) && bool_decide (ob_Kind left = ob_Kind right) &&
  bool_decide (ob_CommandID left = ob_CommandID right) && bool_decide (ob_Endpoint left = ob_Endpoint right) &&
  bool_decide (ob_Generation left = ob_Generation right) && bool_decide (ob_BindingRef left = ob_BindingRef right) &&
  bool_decide (ob_LeaseRef left = ob_LeaseRef right) && bool_decide (ob_CheckpointRef left = ob_CheckpointRef right) &&
  bool_decide (ob_NonResumable left = ob_NonResumable right) &&
  bool_decide (ob_DispatchError left = ob_DispatchError right) &&
  bool_decide (ob_DispatchTarget left = ob_DispatchTarget right).

Definition validatePhaseObservationCommand (kind : string) (command : PhaseCommand)
    (checkpointRef : string) (nonResumable : bool) : res unit :=
  _ ← fail_if (bool_decide (cmd_ID command = "")) (InvalidArgument "phase observation command_id is required");
  _ ← fail_if (bool_decide (ref_TaskID (cmd_Endpoint command) = "") ||
               bool_decide (ref_EndpointID (cmd_Endpoint command) = "") ||
               (cmd_Generation command <=? 0)%Z || bool_decide (cmd_BindingRef command = "") ||
               bool_decide (cmd_LeaseRef command = ""))
      (InvalidArgument "phase observation command identity is incomplete");
  if bool_decide (kind = phaseObservationStarted) then
    _ ← fail_if (negb (isRunCommand command))
        (commandError CodeStaleCommand "started observation requires start or resume command");
    fail_if (bool_decide (checkpointRef <> "") || nonResumable)
      (InvalidArgument "started observation cannot carry stop evidence")
  else if one_of kind [phaseObservationOutput; phaseObservationFailed] then
    _ ← fail_if (negb (isRunCommand command))
        (commandError CodeStaleCommand "terminal execution observation requires start or resume command");
    fail_if (bool_decide (checkpointRef <> "") || nonResumable)
      (InvalidArgument "terminal execution observation cannot carry stop evidence")
  else if bool_decide (kind = phaseObservationStopped) then
    _ ← fail_if (bool_decide (cmd_Action command <> CommandStop))
        (commandError CodeStaleCommand "stopped observation requires stop command");
    fail_if (bool_decide (checkpointRef = "") && negb nonResumable)
      (IncompleteStopEvidence "stopped observation requires checkpoint_ref or non_resumable")
  else Err (InvalidArgument "unsupported phase observation kind").

Definition newPhaseObservation (kind : string) (command : PhaseCommand) (checkpointRef : string)
    (nonResumable : bool) : res phaseObservation :=
  _ ← validatePhaseObservationCommand kind command checkpointRef nonResumable;
  Ok (mkObservation (deterministicPhaseObservationID kind (cmd_ID command)) kind (cmd_ID command)
        (cmd_Endpoint command) (cmd_Generation command) (cmd_BindingRef command) (cmd_LeaseRef command)
        checkpointRef nonResumable "" zeroRef false).

Definition matchingObservationLease (runtime : memoryRuntimeState) (command : PhaseCommand)
    (observation : phaseObservation) : res phaseLease :=
  _ ← fail_if (bool_decide (ob_CommandID observation = "") || bool_decide (ob_LeaseRef observation = "") ||
               bool_decide (ref_TaskID (ob_Endpoint observation) = "") ||
               bool_decide (ref_EndpointID (ob_Endpoint observation) = "") ||
               (ob_Generation observation <=? 0)%Z || bool_decide (ob_BindingRef observation = ""))
      (InvalidArgument "runtime observation requires command_id, lease_ref, endpoint, generation, and binding_ref");
  _ ← fail_if (bool_decide (cmd_Endpoint command <> ob_Endpoint observation) ||
               bool_decide (cmd_Generation command <> ob_Generation observation) ||
               bool_decide (cmd_BindingRef command <> ob_BindingRef observation) ||
               bool_decide (cmd_LeaseRef command <> ob_LeaseRef observation))
      (commandError CodeStaleCommand "observation does not match command identity");
  match rt_leases runtime !! ob_LeaseRef observation with
  | None => Err (LeaseConflict "observation lease does not exist")
  | Some lease =>
    _ ← fail_if (bool_decide (ls_Endpoint lease <> ob_Endpoint observation) ||
                 bool_decide (ls_Generation lease <> ob_Generation observation) ||
                 bool_decide (ls_BindingRef lease <> ob_BindingRef observation))
        (LeaseConflict "observation does not match lease identity");
    Ok lease
  end.

(** The first observation with the id is marked, the others stay. *)
Fixpoint markObservationFoldedLocked (eventID : string) (os : list phaseObservation) : list phaseObservation :=
  match os with
  | [] => []
  | o :: os' => if bool_decide (ob_ID o = eventID) then ob_set_Folded true o :: os'
                else o :: markObservationFoldedLocked eventID os'
  end.

Definition fold_observation (eventID : string) (rt : memoryRuntimeState) : memoryRuntimeState :=
  rt_set_observations (markObservationFoldedLocked eventID (rt_observations rt)) rt.

(** ** Operations on one project *)

Definition command_of (msg : string) (observation : phaseObservation) : M error projectState commandRecord :=
  rt ← get_runtime;
  match rt_commands rt !! ob_CommandID observation with
  | None => throw (commandError CodeStaleCommand msg)
  | Some record => mret record
  end.

Definition markObserved (observation : phaseObservation) : M error projectState unit :=
  record ← command_of "observation command does not exist" observation;
  rt ← get_runtime;
  lease ← lift (matchingObservationLease rt (cr_Command record) observation);
  _ ← lift (fail_if (negb (isRunCommand (cr_Command record)))
        (commandError CodeStaleCommand "started observation must match a start or resume command"));
  _ ← lift (fail_if (bool_decide (ls_State lease <> "active"))
        (LeaseConflict "started observation lease is not active"));
  set_runtime (fun rt => fold_observation (ob_ID observation)
    (rt_set_command (ob_CommandID observation) (cr_set_Observed (ob_ID observation) record) rt)).

Definition completeCommand (observation : phaseObservation) : M error projectState unit :=
  record ← command_of "terminal observation command does not exist" observation;
  rt ← get_runtime;
  lease ← lift (matchingObservationLease rt (cr_Command record) observation);
  _ ← lift (if bool_decide (ob_Kind observation = "PhaseInvocationStopped")
            then fail_if (bool_decide (cmd_Action (cr_Command record) <> CommandStop))
                   (commandError CodeStaleCommand "stopped observation must match a stop command")
            else fail_if (negb (isRunCommand (cr_Command record)))
                   (commandError CodeStaleCommand "terminal execution observation must match a start or resume command"));
  set_runtime (fun rt => fold_observation (ob_ID observation)
    (rt_set_lease (ob_LeaseRef observation) (ls_set_State "released" lease)
      (rt_set_command (ob_CommandID observation) (cr_set_Completed (ob_ID observation) record) rt))).

Definition change_lease (leaseRef : LeaseID) (f : phaseLease -> phaseLease) : M error projectState unit :=
  rt ← get_runtime;
  match rt_leases rt !! leaseRef with
  | None => throw (kerr CodeNotFound "lease not found" true)
  | Some lease => set_runtime (rt_set_lease leaseRef (f lease))
  end.

(** [record, ok := commands[id]; if !ok { return }; ...; commands[id] = record]. *)
Definition change_command (commandID : string) (f : commandRecord -> commandRecord) : M error projectState unit :=
  rt ← get_runtime;
  match rt_commands rt !! commandID with
  | None => mret tt
  | Some record => set_runtime (rt_set_command commandID (f record))
  end.

Definition stopCommandOf (revision : Revision) (lease : phaseLease) : PhaseCommand :=
  mkCommand (stopCommandIDOf (ls_LeaseRef lease)) (ls_Endpoint lease) (ls_Generation lease)
    (ls_BindingRef lease) (ls_LeaseRef lease) CommandStop ("revision://" +:+ format_int revision).

Definition getOrCreateStop (revision : Revision) (lease : phaseLease) : M error projectState (PhaseCommand * bool) :=
  rt ← get_runtime;
  let commandID := stopCommandIDOf (ls_LeaseRef lease) in
  match rt_commands rt !! commandID with
  | Some record =>
    mret (cr_Command record, bool_decide (cr_CompletedEventRef record = "") &&
            negb (cr_Quarantined record) && negb (cr_NotExecutable record))
  | None =>
    let command := stopCommandOf revision lease in
    _ ← set_runtime (rt_set_command (cmd_ID command) (newCommandRecord command));
    mret (command, true)
  end.

Definition leaseDeadline (now : Time) : Time := (now + defaultPhaseLeaseTTL)%Z.

Section with_runtime.
Context `{GR : GoRuntime}.

Definition existingRunCommand (runtime : memoryRuntimeState) (ref : PhaseEndpointRef) (generation : Z) : PhaseCommand :=
  match list_find (fun record => cmd_Endpoint (cr_Command record) = ref /\
          cmd_Generation (cr_Command record) = generation /\ isRunCommand (cr_Command record) = true)
        (range_values (rt_commands runtime)) with
  | Some (_, record) => cr_Command record
  | None => zeroCommand
  end.

Definition claimLease (revision : Revision) (endpoint : PhaseEndpoint) (action causeRef : string)
    (now : Time) : M error projectState (PhaseCommand * bool) :=
  project ← get_state;
  match CheckExpectedRevision revision (pj_latest project) with
  | Err _ => mret (zeroCommand, false)
  | Ok _ =>
    if negb (endpointRunnableLocked project (ep_Ref endpoint) (ep_Generation endpoint))
    then mret (zeroCommand, false)
    else
      let runtime := pj_runtime project in
      let leaseRef := leaseRefOf (ep_Ref endpoint) (ep_Generation endpoint) in
      if match rt_leases runtime !! leaseRef with
         | Some lease => bool_decide (ls_State lease = "active")
         | None => false
         end
      then mret (existingRunCommand runtime (ep_Ref endpoint) (ep_Generation endpoint), false)
      else
        let commandID := runCommandIDOf (ep_Ref endpoint) (ep_Generation endpoint) in
        match rt_commands runtime !! commandID with
        | Some record =>
          if negb (isRunCommand (cr_Command record))
          then throw (kerr CodeCommandConflict "run command id already has different content" false)
          else mret (cr_Command record, false)
        | None =>
          let command := mkCommand commandID (ep_Ref endpoint) (ep_Generation endpoint)
                           (ep_BindingRef endpoint) leaseRef action causeRef in
          _ ← set_runtime (fun rt => rt_set_command (cmd_ID command) (newCommandRecord command)
                (rt_set_lease leaseRef (mkLease leaseRef (ep_Ref endpoint) (ep_Generation endpoint)
                   (ep_BindingRef endpoint) "active" (leaseDeadline now) false) rt));
          mret (command, true)
        end
  end.

Definition appendRejection (o : phaseObservation) (rt : memoryRuntimeState) : memoryRuntimeState :=
  rt_set_observations (rt_observations rt ++ [o]) rt.

Definition releaseRejected (command : PhaseCommand) (record : commandRecord) (rt : memoryRuntimeState) :
    memoryRuntimeState :=
  if isRunCommand command && bool_decide (cr_ObservedEventRef record = "") then
    match rt_leases rt !! cmd_LeaseRef command with
    | Some lease =>
      if bool_decide (ls_State lease = "active") && bool_decide (ls_Endpoint lease = cmd_Endpoint command) &&
         bool_decide (ls_Generation lease = cmd_Generation command) &&
         bool_decide (ls_BindingRef lease = cmd_BindingRef command)
      then rt_set_lease (cmd_LeaseRef command) (ls_set_State "released" lease) rt
      else rt
    | None => rt
    end
  else rt.

Definition reject (command : PhaseCommand) (err : error) : M error projectState unit :=
  rt ← get_runtime;
  match rt_commands rt !! cmd_ID command with
  | None => mret tt
  | Some record =>
    if bool_decide (cr_Command record <> command) then mret tt
    else
      let eventID := "dispatch-rejection:" +:+ cmd_ID command +:+ ":" +:+ ErrorCodeOf (Some err) in
      if existsb (fun o => bool_decide (ob_ID o = eventID)) (rt_observations rt) then mret tt
      else
        set_runtime (fun rt =>
          let record := cr_reject eventID record in
          let rt := rt_set_command (cmd_ID command) record rt in
          let rt := releaseRejected command record rt in
          appendRejection (mkObservation eventID "DispatchRejected" (cmd_ID command) (cmd_Endpoint command)
            (cmd_Generation command) (cmd_BindingRef command) (cmd_LeaseRef command) "" false
            (ErrorCodeOf (Some err)) (cmd_Endpoint command) true) rt)
  end.

Definition recordRejection (endpoint : PhaseEndpointRef) (generation : Z) (bindingRef : BindingRef)
    (err : error) : M error projectState unit :=
  rt ← get_runtime;
  let eventID := "dispatch-rejection:" +:+ ref_TaskID endpoint +:+ ":" +:+ ref_EndpointID endpoint +:+ ":" +:+
                 format_int generation +:+ ":" +:+ ErrorCodeOf (Some err) in
  if existsb (fun o => bool_decide (ob_ID o = eventID)) (rt_observations rt) then mret tt
  else set_runtime (appendRejection (mkObservation eventID "DispatchRejected" "" endpoint generation bindingRef
         "" "" false (ErrorCodeOf (Some err)) endpoint true)).

Definition append (observation : phaseObservation) : M error projectState unit :=
  _ ← (if bool_decide (ob_Kind observation <> "DispatchRejected") then
         record ← command_of "observation command does not exist" observation;
         rt ← get_runtime;
         _ ← lift (matchingObservationLease rt (cr_Command record) observation);
         mret tt
       else mret tt);
  rt ← get_runtime;
  match list_find (fun existing => ob_ID existing = ob_ID observation) (rt_observations rt) with
  | Some (_, existing) =>
    if samePhaseObservationPayload existing observation then mret tt else throw IdempotencyConflict
  | None => set_runtime (fun rt => rt_set_observations (rt_observations rt ++ [observation]) rt)
  end.

(** ** The operations of the store *)

(** A method that does nothing when its context is cancelled. *)
Definition unless_done (ctx : Context) (m : M error MemoryStore unit) : M error MemoryStore unit :=
  match ctx with Some _ => mret tt | None => m end.

Definition mark_expired (now : Time) (lease : phaseLease) : phaseLease :=
  ls_set_Expired (ls_Expired lease || bool_decide (ls_ExpiresAt lease = time_zero) ||
                  negb (now <? ls_ExpiresAt lease)%Z) lease.

Definition loadRuntimeView (ctx : Context) (projectID : ProjectID) (now : Time) : M error MemoryStore runtimeView :=
  _ ← lift (ctx_Err ctx);
  locked projectID (
    project ← get_state;
    let view := newRuntimeView project in
    mret (v_set_leases (mark_expired now <$> v_leases view) view)).

Definition markCommandObserved (ctx : Context) (projectID : ProjectID) (observation : phaseObservation) :
    M error MemoryStore unit :=
  _ ← lift (ctx_Err ctx); locked projectID (markObserved observation).

Definition completeCommandAndReleaseLease (ctx : Context) (projectID : ProjectID)
    (observation : phaseObservation) : M error MemoryStore unit :=
  _ ← lift (ctx_Err ctx); locked projectID (completeCommand observation).

Definition releaseOrphanLease (ctx : Context) (projectID : ProjectID) (leaseRef : LeaseID) : M error MemoryStore unit :=
  _ ← lift (ctx_Err ctx); locked projectID (change_lease leaseRef (ls_set_State "released")).

Definition expireLease (ctx : Context) (projectID : ProjectID) (leaseRef : LeaseID) : M error MemoryStore unit :=
  _ ← lift (ctx_Err ctx); locked projectID (change_lease leaseRef (ls_set_Expired true)).

Definition getOrCreateStopCommand (ctx : Context) (projectID : ProjectID) (revision : Revision)
    (lease : phaseLease) : M error MemoryStore (PhaseCommand * bool) :=
  _ ← lift (ctx_Err ctx); locked projectID (getOrCreateStop revision lease).

Definition claimLeaseAndAppendCommand (ctx : Context) (projectID : ProjectID) (revision : Revision)
    (endpoint : PhaseEndpoint) (action causeRef : string) (now : Time) : M error MemoryStore (PhaseCommand * bool) :=
  _ ← lift (ctx_Err ctx); locked projectID (claimLease revision endpoint action causeRef now).

Definition markCommandAccepted (ctx : Context) (projectID : ProjectID) (commandID : string) : M error MemoryStore unit :=
  unless_done ctx (locked projectID (change_command commandID cr_accept)).

Definition scheduleRetry (ctx : Context) (projectID : ProjectID) (commandID : string) : M error MemoryStore unit :=
  unless_done ctx (locked projectID (change_command commandID cr_retry)).

Definition quarantineCommand (ctx : Context) (projectID : ProjectID) (commandID : string) : M error MemoryStore unit :=
  unless_done ctx (locked projectID (change_command commandID cr_quarantine)).

Definition rejectCommand (ctx : Context) (projectID : ProjectID) (command : PhaseCommand) (err : error) :
    M error MemoryStore unit :=
  unless_done ctx (locked projectID (reject command err)).

Definition recordEndpointDispatchRejection (ctx : Context) (projectID : ProjectID) (endpoint : PhaseEndpointRef)
    (generation : Z) (bindingRef : BindingRef) (err : error) : M error MemoryStore unit :=
  unless_done ctx (locked projectID (recordRejection endpoint generation bindingRef err)).

Definition appendObservation (ctx : Context) (projectID : ProjectID) (observation : phaseObservation) :
    M error MemoryStore unit :=
  _ ← lift (ctx_Err ctx);
  _ ← lift (fail_if (bool_decide (ob_ID observation = "")) (InvalidArgument "observation.id is required"));
  locked projectID (append observation).

Definition appendPhaseObservation (ctx : Context) (projectID : ProjectID) (command : PhaseCommand)
    (kind checkpointRef : string) (nonResumable : bool) : M error MemoryStore unit :=
  observation ← lift (newPhaseObservation kind command checkpointRef nonResumable);
  appendObservation ctx projectID observation.

Definition RecordPhaseInvocationStarted ctx projectID command :=
  appendPhaseObservation ctx projectID command phaseObservationStarted "" false.
Definition RecordPhaseOutputSubmitted ctx projectID command :=
  appendPhaseObservation ctx projectID command phaseObservationOutput "" false.
Definition RecordPhaseInvocationFailed ctx projectID command :=
  appendPhaseObservation ctx projectID command phaseObservationFailed "" false.
Definition RecordPhaseInvocationStopped ctx projectID command checkpointRef nonResumable :=
  appendPhaseObservation ctx projectID command phaseObservationStopped checkpointRef nonResumable.

Definition runtimeCommands (ctx : Context) (projectID : ProjectID) : M error MemoryStore (list PhaseCommand) :=
  match ctx with
  | Some _ => mret []
  | None => locked projectID (
      rt ← get_runtime;
      mret (sort_slice (fun a b => string_lt (cmd_ID a) (cmd_ID b))
              (cr_Command <$> range_values (rt_commands rt))))
  end.

Definition runtimeLeases (ctx : Context) (projectID : ProjectID) : M error MemoryStore (list phaseLease) :=
  match ctx with
  | Some _ => mret []
  | None => locked projectID (
      rt ← get_runtime;
      mret (sort_slice (fun a b => string_lt (ls_LeaseRef a) (ls_LeaseRef b)) (range_values (rt_leases rt))))
  end.

End with_runtime.
