(* ===== verification/CommandInv.v ===== *)
(** * The invariant of commands and leases

    [runtime_inv] ties the runtime records to each other and to the graph: keys
    are the records' own identities, every run command has its lease and every
    lease its run command, and a lease never runs ahead of its endpoint.
    [project_inv] adds the graph invariant; every operation of the store
    preserves it. *)

From stdpp Require Import base tactics option list strings gmap sorting pretty.
From Stdlib Require Import ZArith Ascii String.
From S2P Require Import Prelude GoLib GoStrings Kernel CoordTypes Acyclic Validation GraphSpec Pending Transition.
From S2P Require Import TransitionSpec MemoryStore StoreInv RuntimeView RuntimeSpec CommandStore.

(** ** Identities are unambiguous *)

Lemma fixed_no_colon x : x ∈ fixedEndpoints -> ~ char_in ":"%char x.
Proof.
  intros Hx. unfold fixedEndpoints in Hx. rewrite !elem_of_cons, elem_of_nil in Hx.
  destruct Hx as [->|[->|[->|[]]]]; apply (bool_decide_unpack _); reflexivity.
Qed.

Lemma triple_inj (prefix : string) r1 g1 r2 g2 :
  ref_EndpointID r1 ∈ fixedEndpoints -> ref_EndpointID r2 ∈ fixedEndpoints ->
  (prefix +:+ ref_TaskID r1 +:+ ":" +:+ ref_EndpointID r1 +:+ ":" +:+ format_int g1)%string =
  (prefix +:+ ref_TaskID r2 +:+ ":" +:+ ref_EndpointID r2 +:+ ":" +:+ format_int g2)%string ->
  r1 = r2 /\ g1 = g2.
Proof.
  intros H1%fixed_no_colon H2%fixed_no_colon Heq. apply (inj (String.app prefix)) in Heq.
  destruct r1 as [t1 e1], r2 as [t2 e2]. cbn [ref_TaskID ref_EndpointID] in *.
  assert (forall t e g, (t +:+ ":" +:+ e +:+ ":" +:+ format_int g)%string =
    ((t +:+ ":" +:+ e) +:+ String ":"%char (format_int g))%string) as Hshape.
  { intros. rewrite !string_app_assoc. done. }
  assert (forall g, ~ char_in ":"%char (format_int g)) as Hg.
  { intros g. apply format_int_char, (bool_decide_unpack _). reflexivity. }
  rewrite !Hshape in Heq. apply key_inj in Heq as [Heq ->%format_int_inj]; [|done..].
  apply key_inj in Heq as [-> ->]; done.
Qed.

Lemma leaseRefOf_inj r1 g1 r2 g2 :
  ref_EndpointID r1 ∈ fixedEndpoints -> ref_EndpointID r2 ∈ fixedEndpoints ->
  leaseRefOf r1 g1 = leaseRefOf r2 g2 -> r1 = r2 /\ g1 = g2.
Proof. apply triple_inj. Qed.

Lemma runCommandIDOf_inj r1 g1 r2 g2 :
  ref_EndpointID r1 ∈ fixedEndpoints -> ref_EndpointID r2 ∈ fixedEndpoints ->
  runCommandIDOf r1 g1 = runCommandIDOf r2 g2 -> r1 = r2 /\ g1 = g2.
Proof. apply triple_inj. Qed.

Lemma run_not_stop r g l : runCommandIDOf r g <> stopCommandIDOf l.
Proof. unfold runCommandIDOf, stopCommandIDOf. intros Heq. discriminate Heq. Qed.

(** ** The invariant *)

(** The lease is for the endpoint's current generation and binding, or for an
    earlier generation. *)
Definition behind (l : phaseLease) (e : PhaseEndpoint) : Prop :=
  (ls_Generation l < ep_Generation e)%Z \/
  ls_Generation l = ep_Generation e /\ ls_BindingRef l = ep_BindingRef e.

Definition matches (c : PhaseCommand) (l : phaseLease) : Prop :=
  cmd_Endpoint c = ls_Endpoint l /\ cmd_Generation c = ls_Generation l /\
  cmd_BindingRef c = ls_BindingRef l /\ cmd_LeaseRef c = ls_LeaseRef l.

Record runtime_inv (es : gmap PhaseEndpointRef PhaseEndpoint) (rt : memoryRuntimeState) : Prop := {
  ri_id : forall id c, rt_commands rt !! id = Some c -> cmd_ID (cr_Command c) = id;
  ri_run : forall id c, rt_commands rt !! id = Some c -> isRunCommand (cr_Command c) = true ->
    id = runCommandIDOf (cmd_Endpoint (cr_Command c)) (cmd_Generation (cr_Command c));
  ri_stop : forall id c, rt_commands rt !! id = Some c -> isRunCommand (cr_Command c) = false ->
    cmd_Action (cr_Command c) = CommandStop /\ id = stopCommandIDOf (cmd_LeaseRef (cr_Command c));
  ri_command : forall id c, rt_commands rt !! id = Some c ->
    exists l, rt_leases rt !! cmd_LeaseRef (cr_Command c) = Some l /\ matches (cr_Command c) l;
  ri_lease : forall id l, rt_leases rt !! id = Some l ->
    ls_LeaseRef l = id /\ id = leaseRefOf (ls_Endpoint l) (ls_Generation l) /\
    ref_EndpointID (ls_Endpoint l) ∈ fixedEndpoints /\
    exists e, es !! ls_Endpoint l = Some e /\ behind l e;
  ri_pair : forall id l, rt_leases rt !! id = Some l ->
    exists c, rt_commands rt !! runCommandIDOf (ls_Endpoint l) (ls_Generation l) = Some c /\
      isRunCommand (cr_Command c) = true /\ matches (cr_Command c) l;
  ri_observations : NoDup (ob_ID <$> rt_observations rt);
}.

Record project_inv (p : projectState) : Prop := {
  pi_graph : graph_inv p;
  pi_runtime : runtime_inv (g_endpoints (pj_current p)) (pj_runtime p);
}.

Section runtime_inv.
Context (es : gmap PhaseEndpointRef PhaseEndpoint).
Implicit Types (rt : memoryRuntimeState).

Lemma runtime_inv_new : runtime_inv es newMemoryRuntimeState.
Proof. split; simpl; try (intros ? ?; by rewrite lookup_empty). constructor. Qed.

Lemma inv_set_command rt id c c' :
  runtime_inv es rt -> rt_commands rt !! id = Some c -> cr_Command c' = cr_Command c ->
  runtime_inv es (rt_set_command id c' rt).
Proof.
  intros Hi Hc Heq. assert (forall x d, rt_commands (rt_set_command id c' rt) !! x = Some d ->
    exists d0, rt_commands rt !! x = Some d0 /\ cr_Command d = cr_Command d0) as Hback.
  { intros x d. simpl. rewrite lookup_insert_Some. intros [[<- <-]|[_ ?]]; eauto. }
  destruct Hi as [H1 H2 H3 H4 H5 H6 H7]. split; simpl; try done.
  - intros x d (d0 & ? & ->)%Hback. eauto.
  - intros x d (d0 & ? & ->)%Hback. eauto.
  - intros x d (d0 & ? & ->)%Hback. eauto.
  - intros x d (d0 & ? & ->)%Hback. eauto.
  - intros x l Hl. destruct (H6 x l Hl) as (d & Hd & Hrun & Hm).
    destruct (decide (id = runCommandIDOf (ls_Endpoint l) (ls_Generation l))) as [->|Hne].
    + exists c'. rewrite lookup_insert_eq. simplify_eq. by rewrite Heq.
    + exists d. by rewrite lookup_insert_ne.
Qed.

Definition same_lease (l l' : phaseLease) : Prop :=
  ls_LeaseRef l' = ls_LeaseRef l /\ ls_Endpoint l' = ls_Endpoint l /\
  ls_Generation l' = ls_Generation l /\ ls_BindingRef l' = ls_BindingRef l.

Lemma inv_set_lease rt id l l' :
  runtime_inv es rt -> rt_leases rt !! id = Some l -> same_lease l l' ->
  runtime_inv es (rt_set_lease id l' rt).
Proof.
  intros [H1 H2 H3 H4 H5 H6 H7] Hl (Ha & Hb & Hc & Hd). split; simpl; try done.
  - intros x c Hx. destruct (H4 x c Hx) as (l0 & Hl0 & Hm).
    destruct (decide (id = cmd_LeaseRef (cr_Command c))) as [->|Hne].
    + exists l'. rewrite lookup_insert_eq. simplify_eq. split; [done|].
      unfold matches in *. by rewrite Ha, Hb, Hc, Hd.
    + exists l0. by rewrite lookup_insert_ne.
  - intros x m. rewrite lookup_insert_Some. intros [[<- <-]|[_ Hm]]; [|by apply H5].
    unfold behind. rewrite Ha, Hb, Hc, Hd. by apply H5.
  - intros x m. rewrite lookup_insert_Some. intros [[<- <-]|[_ Hm]]; [|by eapply H6].
    unfold matches. rewrite Ha, Hb, Hc, Hd. by eapply H6.
Qed.

Lemma inv_set_observations rt os :
  runtime_inv es rt -> NoDup (ob_ID <$> os) -> runtime_inv es (rt_set_observations os rt).
Proof. intros [H1 H2 H3 H4 H5 H6 H7] Hnd. by split. Qed.

Lemma inv_set_binding rt b i : runtime_inv es rt -> runtime_inv es (rt_set_binding b i rt).
Proof. intros [H1 H2 H3 H4 H5 H6 H7]. by split. Qed.

Lemma folded_ids id os : ob_ID <$> markObservationFoldedLocked id os = ob_ID <$> os.
Proof.
  induction os as [|o os IH]; simpl; [done|]. case_bool_decide; simpl; [done|]. by f_equal.
Qed.

Lemma inv_fold_observation rt id : runtime_inv es rt -> runtime_inv es (fold_observation id rt).
Proof. intros Hi. apply inv_set_observations; [done|]. rewrite folded_ids. apply (ri_observations _ _ Hi). Qed.

Lemma inv_append_observation rt o :
  runtime_inv es rt -> ob_ID o ∉ ob_ID <$> rt_observations rt ->
  runtime_inv es (rt_set_observations (rt_observations rt ++ [o]) rt).
Proof.
  intros Hi Hnew. apply inv_set_observations; [done|]. rewrite fmap_app. apply NoDup_app.
  split_and!; [apply (ri_observations _ _ Hi)| |apply NoDup_singleton].
  intros x Hx ->%list_elem_of_singleton. done.
Qed.

(** A new stop command for a known lease. *)
Lemma inv_add_stop rt rev id l :
  runtime_inv es rt -> rt_leases rt !! id = Some l ->
  rt_commands rt !! stopCommandIDOf (ls_LeaseRef l) = None ->
  runtime_inv es (rt_set_command (stopCommandIDOf (ls_LeaseRef l)) (newCommandRecord (stopCommandOf rev l)) rt).
Proof.
  intros [H1 H2 H3 H4 H5 H6 H7] Hl Hnew. split; simpl; try done.
  - intros x c. rewrite lookup_insert_Some. intros [[<- <-]|[_ ?]]; [done|by apply H1].
  - intros x c. rewrite lookup_insert_Some. intros [[<- <-]|[_ ?]] Hr; [done|by apply H2].
  - intros x c. rewrite lookup_insert_Some. intros [[<- <-]|[_ ?]] Hr; [done|by apply H3].
  - intros x c. rewrite lookup_insert_Some. intros [[<- <-]|[_ ?]]; [|by eapply H4].
    simpl. exists l. destruct (H5 _ _ Hl) as (Href & _). rewrite Href. by split.
  - intros x m Hm. destruct (H6 x m Hm) as (d & Hd & Hrun & Hmt). exists d.
    rewrite lookup_insert_ne; [done|]. intros Heq. congruence.
Qed.

(** Where there is no run command there is no lease. *)
Lemma lease_free rt r g :
  runtime_inv es rt -> ref_EndpointID r ∈ fixedEndpoints ->
  rt_commands rt !! runCommandIDOf r g = None -> rt_leases rt !! leaseRefOf r g = None.
Proof.
  intros Hi Hfx Hnew. destruct (rt_leases rt !! _) as [l|] eqn:Hl; [|done]. exfalso.
  destruct (ri_lease _ _ Hi _ _ Hl) as (_ & Hk & Hf & _). apply leaseRefOf_inj in Hk as [Hr Hg]; [|done..].
  destruct (ri_pair _ _ Hi _ _ Hl) as (c & Hc & _). rewrite <- Hr, <- Hg in Hc. congruence.
Qed.

(** A claim adds a lease and its command together. *)
Lemma inv_claim rt e action cause deadline :
  runtime_inv es rt -> es !! ep_Ref e = Some e -> ref_EndpointID (ep_Ref e) ∈ fixedEndpoints ->
  action = CommandStart \/ action = CommandResume ->
  rt_commands rt !! runCommandIDOf (ep_Ref e) (ep_Generation e) = None ->
  let ref := leaseRefOf (ep_Ref e) (ep_Generation e) in
  let command := mkCommand (runCommandIDOf (ep_Ref e) (ep_Generation e)) (ep_Ref e) (ep_Generation e)
                   (ep_BindingRef e) ref action cause in
  runtime_inv es (rt_set_command (cmd_ID command) (newCommandRecord command)
    (rt_set_lease ref (mkLease ref (ep_Ref e) (ep_Generation e) (ep_BindingRef e) "active" deadline false) rt)).
Proof.
  intros Hi He Hfx Hact Hnew ref command.
  assert (isRunCommand command = true) as Hrun by by destruct Hact as [-> | ->].
  assert (rt_leases rt !! ref = None) as Hfree by by apply lease_free.
  destruct Hi as [H1 H2 H3 H4 H5 H6 H7].
  split; simpl; try done.
  - intros x c. rewrite lookup_insert_Some. intros [[<- <-]|[_ ?]]; [done|by apply H1].
  - intros x c. rewrite lookup_insert_Some. intros [[<- <-]|[_ ?]] Hr; [done|by apply H2].
  - intros x c. rewrite lookup_insert_Some. intros [[<- <-]|[_ ?]] Hr; [|by apply H3].
    simpl in Hr. fold command in Hr. congruence.
  - intros x c. rewrite lookup_insert_Some. intros [[<- <-]|[_ Hc]].
    + simpl. eexists. by rewrite lookup_insert_eq.
    + destruct (H4 x c Hc) as (l & Hl & Hm). exists l. split; [|done]. rewrite lookup_insert_ne; [done|congruence].
  - intros x l. rewrite lookup_insert_Some. intros [[<- <-]|[_ Hl]]; [|by apply H5].
    simpl. split_and!; [done..|]. exists e. split; [done|]. by right.
  - intros x l. rewrite lookup_insert_Some. intros [[<- <-]|[_ Hl]].
    + simpl. eexists. by rewrite lookup_insert_eq.
    + destruct (H6 x l Hl) as (c & Hc & Hr). exists c. split; [|done]. rewrite lookup_insert_ne; [done|congruence].
Qed.
End runtime_inv.

(** Endpoints only move forward when the graph changes. *)
Definition advances (es es' : gmap PhaseEndpointRef PhaseEndpoint) : Prop :=
  forall r e, es !! r = Some e -> exists e', es' !! r = Some e' /\
    ((ep_Generation e < ep_Generation e')%Z \/
     ep_Generation e = ep_Generation e' /\ ep_BindingRef e = ep_BindingRef e').

Lemma inv_advances es es' rt : runtime_inv es rt -> advances es es' -> runtime_inv es' rt.
Proof.
  intros [H1 H2 H3 H4 H5 H6 H7] Ha. split; try done. intros id l Hl.
  destruct (H5 id l Hl) as (? & ? & ? & e & He & Hb). split_and!; [done..|].
  destruct (Ha _ _ He) as (e' & He' & Hadv). exists e'. split; [done|]. unfold behind in *.
  destruct Hb as [?|[-> ->]], Hadv as [?|[<- <-]]; auto; left; lia.
Qed.

(** * Every store operation preserves the project invariant

    The lemmas here are stated on one project ([preserves project_inv]);
    [StoreReach] lifts them to every store reachable from the empty one. *)

Lemma pi_set_runtime p rt :
  project_inv p -> runtime_inv (g_endpoints (pj_current p)) rt -> project_inv (pj_set_runtime rt p).
Proof. intros [Hg _] Hr. split; [|done]. by eapply graph_inv_ext; [..|exact Hg]. Qed.

Section advances.
Context `{GR : GoRuntime}.

Lemma next_generation e g :
  is_int (ep_Generation e) -> (0 < ep_Generation e)%Z -> g = int_wrap (ep_Generation e + 1) ->
  (0 < g)%Z -> (ep_Generation e < g)%Z.
Proof. intros Ht Hp -> Hg. rewrite int_wrap_succ_pos by done. lia. Qed.

Lemma advances_step st tr st' :
  good_graph st -> graph_step st tr st' -> valid_graph st' ->
  advances (g_endpoints st) (g_endpoints st').
Proof.
  intros [Hv Hco Ht] Hs Hv' r e He. pose proof (graph_step_endpoints _ _ _ Hs r) as Hr.
  rewrite He in Hr. destruct Hr as (e' & He' & Hl). exists e'. split; [done|].
  destruct (lifecycle_generation _ _ Hl) as [[-> ->]|[Hg _]]; [by right|left].
  destruct (vg_endpoints _ Hv _ _ He) as [(_ & _ & _ & Hp & _) _].
  destruct (vg_endpoints _ Hv' _ _ He') as [(_ & _ & _ & Hp' & _) _].
  eapply next_generation; eauto.
Qed.

Lemma advances_pending st rt next :
  good_graph st -> validatePendingSubgraph st rt next = Ok tt ->
  valid_graph (applyPendingSubgraph st next) ->
  advances (g_endpoints st) (g_endpoints (applyPendingSubgraph st next)).
Proof.
  intros [Hv Hco Ht] Hval Hv' r e He.
  apply validatePendingSubgraph_Ok in Hval as (Hnd & _ & Hrep & _).
  destruct (decide (r ∈ ep_Ref <$> ps_Endpoints next)) as [Hin|Hout].
  - destruct (foldl_insert_some ep_Ref (ps_Endpoints next) (g_endpoints st) r Hin) as (e' & Hin' & <- & He').
    exists e'. split; [done|].
    pose proof (Hrep _ _ Hin' He) as Hr. apply validateReplacedEndpoint_Ok in Hr;
      [|by rewrite (co_endpoints _ Hco _ _ He)].
    destruct Hr as (_ & _ & _ & _ & [[-> ->]|(Hg & _)]); [by right|left].
    destruct (vg_endpoints _ Hv _ _ He) as [(_ & _ & _ & Hp & _) _].
    destruct (vg_endpoints _ Hv' _ _ He') as [(_ & _ & _ & Hp' & _) _].
    eapply next_generation; eauto.
  - exists e. split; [|by right]. simpl. by rewrite foldl_insert_notin.
Qed.

Lemma commit_project st p snap p' :
  project_inv p -> pj_latest p <> LatestRevision -> good_graph st ->
  advances (g_endpoints (pj_current p)) (g_endpoints st) ->
  commit st p = (Ok snap, p') -> project_inv p'.
Proof.
  intros [Hg Hr] H0 Hst Ha Hc. split; [by eapply commit_inv|].
  rewrite commit_run in Hc. injection Hc as _ <-. simpl. by eapply inv_advances.
Qed.

Lemma recordRuntimeBinding_inv tr p : project_inv p -> project_inv (recordRuntimeBinding tr p).
Proof.
  intros Hp. unfold recordRuntimeBinding. cbv zeta.
  case_bool_decide; [done|]. case_bool_decide; [|case_bool_decide; [case_bool_decide|]; try done];
    apply pi_set_runtime; [done| |done|]; apply inv_set_binding, (pi_runtime _ Hp).
Qed.

Lemma replacePending_inv next : typed_pending next -> preserves project_inv (replacePending next).
Proof.
  intros Ht p Hp. destruct (replacePending next p) as [[snap|e] p'] eqn:Hrun; simpl.
  - apply replacePending_run in Hrun as (_ & H0 & Hval & _ & Hv & Hc).
    pose proof (gi_current _ (pi_graph _ Hp)) as Hgood.
    assert (coherent (applyPendingSubgraph (pj_current p) next)) as Hco
      by apply applyPendingSubgraph_coherent, Hgood.
    apply validateGraph_Ok in Hv; [|done].
    eapply commit_project; [exact Hp|exact H0| | |exact Hc].
    + split; [done|done|]. apply typed_graph_pending; [apply Hgood|done].
    + by eapply advances_pending.
  - by apply replacePending_Err in Hrun as ->.
Qed.

Lemma transitionProject_inv rev tr : preserves project_inv (transitionProject rev tr).
Proof.
  intros p Hp. destruct (transitionProject rev tr p) as [[snap|e] p'] eqn:Hrun; simpl.
  - apply transitionProject_run in Hrun as (_ & H0 & _ & _ & _ & st & p1 & Hst & Hv & Hc & ->).
    apply applyTransition_Ok in Hst as Hstep. pose proof (gi_current _ (pi_graph _ Hp)) as Hgood.
    assert (coherent st) as Hco by (eapply graph_step_coherent; [apply Hgood|done]).
    apply validateGraph_Ok in Hv; [|done]. apply recordRuntimeBinding_inv.
    eapply commit_project; [exact Hp|exact H0| | |exact Hc].
    + split; [done|done|]. eapply typed_graph_step; [done|apply Hgood].
    + by eapply advances_step.
  - by apply transitionProject_Err in Hrun as ->.
Qed.

End advances.

(** ** Runtime operations *)

(** Runs of the small accessors. *)
Lemma get_runtime_run p : get_runtime p = (Ok (pj_runtime p), p).
Proof. done. Qed.

Lemma command_of_run msg o p :
  command_of msg o p =
  (match rt_commands (pj_runtime p) !! ob_CommandID o with
   | None => Err (commandError CodeStaleCommand msg) | Some c => Ok c end, p).
Proof. unfold command_of, mbind, M_bind. simpl. by destruct (_ !! _). Qed.

Lemma matchingObservationLease_Ok rt c o l :
  matchingObservationLease rt c o = Ok l ->
  rt_leases rt !! ob_LeaseRef o = Some l /\ identityMatches o c l = true /\
  ob_CommandID o <> "" /\ ob_LeaseRef o <> "" /\ ob_BindingRef o <> "".
Proof.
  unfold matchingObservationLease. rewrite !bind_unit_Ok, !fail_if_Ok. intros (H1 & H2 & H3).
  destruct (rt_leases rt !! _) as [l'|]; [|done].
  rewrite bind_unit_Ok, fail_if_Ok in H3. destruct H3 as [H3 [= <-]].
  rewrite !orb_false_iff, !bool_decide_eq_false in H1.
  rewrite !orb_false_iff, !bool_decide_eq_false in H2. rewrite !orb_false_iff, !bool_decide_eq_false in H3.
  destruct H1 as [[[[[? ?] ?] ?] ?] ?], H2 as [[[? ?] ?] ?], H3 as [[? ?] ?]. split_and!; try done.
  unfold identityMatches. rewrite !bool_decide_true by by apply dec_stable. done.
Qed.

Section with_runtime.
Context `{GR : GoRuntime}.

Lemma markObserved_inv o : preserves project_inv (markObserved o).
Proof.
  intros p Hp. unfold markObserved, mbind, M_bind. rewrite command_of_run.
  destruct (rt_commands _ !! _) as [c|] eqn:Hc; [|done]. rewrite get_runtime_run. unfold lift.
  destruct (matchingObservationLease _ _ _) as [l|]; [|done].
  destruct (fail_if _ _); [|done]. destruct (fail_if _ _); [|done]. simpl.
  apply pi_set_runtime; [done|]. apply inv_fold_observation.
  eapply inv_set_command; [apply (pi_runtime _ Hp)|done|done].
Qed.

Lemma completeCommand_inv o : preserves project_inv (completeCommand o).
Proof.
  intros p Hp. unfold completeCommand, mbind, M_bind. rewrite command_of_run.
  destruct (rt_commands _ !! _) as [c|] eqn:Hc; [|done]. rewrite get_runtime_run. unfold lift.
  destruct (matchingObservationLease _ _ _) as [l|] eqn:Hl; [|done].
  destruct (if bool_decide _ then _ else _); [|done]. simpl.
  apply matchingObservationLease_Ok in Hl as [Hl _].
  apply pi_set_runtime; [done|]. apply inv_fold_observation. eapply inv_set_lease; [|exact Hl|done].
  eapply inv_set_command; [apply (pi_runtime _ Hp)|done|done].
Qed.

Lemma change_lease_inv id f :
  (forall l, same_lease l (f l)) -> preserves project_inv (change_lease id f).
Proof.
  intros Hf p Hp. unfold change_lease, mbind, M_bind. rewrite get_runtime_run.
  destruct (rt_leases _ !! _) as [l|] eqn:Hl; [|done]. simpl.
  apply pi_set_runtime; [done|]. eapply inv_set_lease; [apply (pi_runtime _ Hp)|done|done].
Qed.

Lemma change_command_inv id f :
  (forall c, cr_Command (f c) = cr_Command c) -> preserves project_inv (change_command id f).
Proof.
  intros Hf p Hp. unfold change_command, mbind, M_bind. rewrite get_runtime_run.
  destruct (rt_commands _ !! _) as [c|] eqn:Hc; [|done]. simpl.
  apply pi_set_runtime; [done|]. eapply inv_set_command; [apply (pi_runtime _ Hp)|done|done].
Qed.

(** The stop command of a lease the project knows (up to its state). *)
Definition known_lease (l : phaseLease) (p : projectState) : Prop :=
  exists l0, rt_leases (pj_runtime p) !! ls_LeaseRef l = Some l0 /\ same_lease l l0.

Lemma getOrCreateStop_inv rev l p :
  known_lease l p -> project_inv p -> project_inv (snd (getOrCreateStop rev l p)).
Proof.
  intros (l0 & Hl0 & Ha & Hb & Hc & Hd) Hp. unfold getOrCreateStop, mbind, M_bind. rewrite get_runtime_run.
  destruct (rt_commands _ !! _) as [c|] eqn:Hcm; [done|]. simpl.
  apply pi_set_runtime; [done|].
  replace (stopCommandOf rev l) with (stopCommandOf rev l0) by (unfold stopCommandOf; congruence).
  rewrite <- Ha in Hcm |- *. eapply inv_add_stop; [apply (pi_runtime _ Hp)|exact Hl0|done].
Qed.

(** A claim is made for the endpoint the caller saw at that revision. *)
Definition current_endpoint (rev : Revision) (e : PhaseEndpoint) (p : projectState) : Prop :=
  rev = pj_latest p -> g_endpoints (pj_current p) !! ep_Ref e = Some e.

Lemma claimLease_run rev e action cause now p r p' :
  project_inv p -> claimLease rev e action cause now p = (r, p') ->
  p' = p /\ (forall c, r <> Ok (c, true)) \/
  rev = pj_latest p /\
  (exists e0, g_endpoints (pj_current p) !! ep_Ref e = Some e0 /\ ep_Generation e0 = ep_Generation e /\
     ready (pj_current p) e0 /\ idle (pj_runtime p) (ep_Ref e) (ep_Generation e)) /\
  rt_commands (pj_runtime p) !! runCommandIDOf (ep_Ref e) (ep_Generation e) = None /\
  let ref := leaseRefOf (ep_Ref e) (ep_Generation e) in
  let command := mkCommand (runCommandIDOf (ep_Ref e) (ep_Generation e)) (ep_Ref e) (ep_Generation e)
                   (ep_BindingRef e) ref action cause in
  r = Ok (command, true) /\
  p' = pj_set_runtime (rt_set_command (cmd_ID command) (newCommandRecord command)
    (rt_set_lease ref (mkLease ref (ep_Ref e) (ep_Generation e) (ep_BindingRef e) "active"
      (leaseDeadline now) false) (pj_runtime p))) p.
Proof.
  intros Hp. unfold claimLease, mbind, M_bind. cbn [get_state].
  destruct (CheckExpectedRevision rev (pj_latest p)) as [u|] eqn:Hrev; [|intros [= <- <-]; by left].
  apply CheckExpectedRevision_Ok in Hrev as [-> _].
  destruct (endpointRunnableLocked _ _ _) eqn:Hrun; [|intros [= <- <-]; by left].
  apply endpointRunnable_true in Hrun; [|apply (gi_current _ (pi_graph _ Hp))..]. simpl.
  destruct (match rt_leases _ !! _ with Some _ => _ | None => _ end); [intros [= <- <-]; by left|].
  destruct (rt_commands _ !! _) as [c|] eqn:Hc.
  - destruct (isRunCommand _); intros [= <- <-]; by left.
  - intros [= <- <-]. right. split_and!; try done.
Qed.

Lemma claimLease_inv rev e action cause now p :
  current_endpoint rev e p -> action = CommandStart \/ action = CommandResume ->
  project_inv p -> project_inv (snd (claimLease rev e action cause now p)).
Proof.
  intros Hcur Hact Hp. destruct (claimLease rev e action cause now p) as [r p'] eqn:Hrun. simpl.
  apply claimLease_run in Hrun as [[-> _]|(Hrev & (e0 & He0 & _ & Hready & _) & Hnew & _ & ->)]; [done| |done].
  pose proof (Hcur Hrev) as He. rewrite He in He0. injection He0 as <-.
  apply pi_set_runtime; [done|]. apply inv_claim; try done; [apply (pi_runtime _ Hp)|apply (rd_fixed _ _ Hready)].
Qed.

Lemma fresh_observation id os :
  existsb (fun o => bool_decide (ob_ID o = id)) os = false -> id ∉ ob_ID <$> os.
Proof.
  intros Hex (o & -> & Hin)%list_elem_of_fmap. apply (proj1 (existsb_elem_false _ _)) with (x := o) in Hex; [|done].
  by apply bool_decide_eq_false in Hex.
Qed.

Lemma releaseRejected_inv es c record rt : runtime_inv es rt -> runtime_inv es (releaseRejected c record rt).
Proof.
  intros Hi. unfold releaseRejected. destruct (_ && _); [|done].
  destruct (rt_leases rt !! _) as [l|] eqn:Hl; [|done]. destruct (_ && _); [|done].
  by eapply inv_set_lease.
Qed.

Lemma releaseRejected_observations c record rt : rt_observations (releaseRejected c record rt) = rt_observations rt.
Proof. unfold releaseRejected. destruct (_ && _); [|done]. destruct (_ !! _); [|done]. by destruct (_ && _). Qed.

Lemma reject_inv c err : preserves project_inv (reject c err).
Proof.
  intros p Hp. unfold reject, mbind, M_bind. rewrite get_runtime_run.
  destruct (rt_commands _ !! _) as [record|] eqn:Hc; [|done]. case_bool_decide; [done|].
  destruct (existsb _ _) eqn:Hex; [done|]. simpl. apply pi_set_runtime; [done|].
  apply inv_append_observation; [apply releaseRejected_inv|].
  - eapply inv_set_command; [apply (pi_runtime _ Hp)|done|done].
  - rewrite releaseRejected_observations. simpl. by apply fresh_observation.
Qed.

Lemma recordRejection_inv r gen b err : preserves project_inv (recordRejection r gen b err).
Proof.
  intros p Hp. unfold recordRejection, mbind, M_bind. rewrite get_runtime_run.
  destruct (existsb _ _) eqn:Hex; [done|]. simpl. apply pi_set_runtime; [done|].
  apply inv_append_observation; [apply (pi_runtime _ Hp)|]. simpl. by apply fresh_observation.
Qed.

(** ** Appending an observation *)

Definition append_guard (o : phaseObservation) : M error projectState unit :=
  if bool_decide (ob_Kind o <> "DispatchRejected") then
    record ← command_of "observation command does not exist" o;
    rt ← get_runtime;
    _ ← lift (matchingObservationLease rt (cr_Command record) o);
    mret tt
  else mret tt.

Lemma append_guard_readonly o : readonly (append_guard o).
Proof.
  intros p. unfold append_guard. case_bool_decide; [|done]. unfold mbind, M_bind. rewrite command_of_run.
  destruct (rt_commands _ !! _); [|done]. rewrite get_runtime_run. unfold lift.
  by destruct (matchingObservationLease _ _ _).
Qed.

Lemma append_run o p r p' :
  append o p = (r, p') ->
  (exists e, r = Err e /\ p' = p) \/
  append_guard o p = (Ok tt, p) /\
  match list_find (fun existing => ob_ID existing = ob_ID o) (rt_observations (pj_runtime p)) with
  | Some (_, existing) => p' = p /\
      r = (if samePhaseObservationPayload existing o then Ok tt else Err IdempotencyConflict)
  | None => r = Ok tt /\
      p' = pj_set_runtime (rt_set_observations (rt_observations (pj_runtime p) ++ [o]) (pj_runtime p)) p
  end.
Proof.
  unfold append. fold (append_guard o). intros H.
  apply readonly_guarded in H as [?|([] & Hg & H)]; [by left| |apply append_guard_readonly].
  right. split; [done|]. unfold mbind, M_bind in H. rewrite get_runtime_run in H.
  destruct (list_find _ _) as [[i existing]|]; [|by injection H as <- <-].
  destruct (samePhaseObservationPayload existing o); by injection H as <- <-.
Qed.

Lemma append_inv o : preserves project_inv (append o).
Proof.
  intros p Hp. destruct (append o p) as [r p'] eqn:Hrun. simpl.
  apply append_run in Hrun as [(e & _ & ->)|[_ Hrun]]; [done|].
  destruct (list_find _ _) as [[i existing]|] eqn:Hf; [by destruct Hrun as [-> _]|].
  destruct Hrun as [_ ->]. apply pi_set_runtime; [done|].
  apply inv_append_observation; [apply (pi_runtime _ Hp)|].
  apply list_find_None in Hf. rewrite Forall_forall in Hf.
  intros (o' & Heq & Hin)%list_elem_of_fmap. by apply (Hf o' Hin).
Qed.

End with_runtime.
