(* ===== verification/StoreReach.v ===== *)
(** * Reachable stores

    [store_op] lists every operation of the in-memory store, [op_ok] what its
    callers guarantee (the inputs are Go values; internal operations are called
    with records taken from the store), [store_step] one atomic step under the
    store's mutex.  Interleavings of concurrent callers are sequences of such
    steps. *)

From stdpp Require Import base tactics option list strings gmap sorting pretty relations.
From Stdlib Require Import ZArith String.
From S2P Require Import Prelude GoLib GoStrings Kernel CoordTypes Acyclic Validation GraphSpec Pending Transition.
From S2P Require Import TransitionSpec MemoryStore StoreInv RuntimeView RuntimeSpec CommandStore CommandInv.


Inductive store_op :=
| OpLatest (id : ProjectID)
| OpSnapshot (id : ProjectID) (rev : Revision)
| OpReplacePending (id : ProjectID) (next : PendingSubgraph)
| OpTransition (id : ProjectID) (rev : Revision) (tr : GraphTransition)
| OpTransitionDecision (id : ProjectID) (rev : Revision) (decision : string) (tr : GraphTransition)
| OpLoadView (ctx : Context) (id : ProjectID) (now : Time)
| OpMarkObserved (ctx : Context) (id : ProjectID) (o : phaseObservation)
| OpComplete (ctx : Context) (id : ProjectID) (o : phaseObservation)
| OpReleaseOrphan (ctx : Context) (id : ProjectID) (lease : LeaseID)
| OpExpire (ctx : Context) (id : ProjectID) (lease : LeaseID)
| OpStop (ctx : Context) (id : ProjectID) (rev : Revision) (lease : phaseLease)
| OpClaim (ctx : Context) (id : ProjectID) (rev : Revision) (e : PhaseEndpoint) (action cause : string) (now : Time)
| OpAccept (ctx : Context) (id : ProjectID) (command : string)
| OpRetry (ctx : Context) (id : ProjectID) (command : string)
| OpQuarantine (ctx : Context) (id : ProjectID) (command : string)
| OpReject (ctx : Context) (id : ProjectID) (command : PhaseCommand) (err : error)
| OpRecordRejection (ctx : Context) (id : ProjectID) (r : PhaseEndpointRef) (gen : Z) (b : BindingRef) (err : error)
| OpObserve (ctx : Context) (id : ProjectID) (o : phaseObservation)
| OpRecordPhase (ctx : Context) (id : ProjectID) (c : PhaseCommand) (kind checkpoint : string) (non_resumable : bool).

Section with_runtime.
Context `{GR : GoRuntime}.

Definition run_op (op : store_op) (s : MemoryStore) : MemoryStore :=
  match op with
  | OpLatest id => snd (Latest id s)
  | OpSnapshot id rev => snd (Snapshot id rev s)
  | OpReplacePending id next => snd (ReplacePending id next s)
  | OpTransition id rev tr => snd (MemoryStore.Transition id rev tr s)
  | OpTransitionDecision id rev d tr => snd (TransitionWithDecisionRef id rev d tr s)
  | OpLoadView ctx id now => snd (loadRuntimeView ctx id now s)
  | OpMarkObserved ctx id o => snd (markCommandObserved ctx id o s)
  | OpComplete ctx id o => snd (completeCommandAndReleaseLease ctx id o s)
  | OpReleaseOrphan ctx id l => snd (releaseOrphanLease ctx id l s)
  | OpExpire ctx id l => snd (expireLease ctx id l s)
  | OpStop ctx id rev l => snd (getOrCreateStopCommand ctx id rev l s)
  | OpClaim ctx id rev e a c now => snd (claimLeaseAndAppendCommand ctx id rev e a c now s)
  | OpAccept ctx id c => snd (markCommandAccepted ctx id c s)
  | OpRetry ctx id c => snd (scheduleRetry ctx id c s)
  | OpQuarantine ctx id c => snd (quarantineCommand ctx id c s)
  | OpReject ctx id c err => snd (rejectCommand ctx id c err s)
  | OpRecordRejection ctx id r g b err => snd (recordEndpointDispatchRejection ctx id r g b err s)
  | OpObserve ctx id o => snd (appendObservation ctx id o s)
  | OpRecordPhase ctx id c k cp nr => snd (appendPhaseObservation ctx id c k cp nr s)
  end.

Definition op_ok (op : store_op) (s : MemoryStore) : Prop :=
  match op with
  | OpReplacePending _ next => typed_pending next
  | OpStop _ id _ l => known_lease l (ensureProject id s)
  | OpClaim _ id rev e a _ _ =>
      current_endpoint rev e (ensureProject id s) /\ (a = CommandStart \/ a = CommandResume)
  | _ => True
  end.

Definition store_step (s s' : MemoryStore) : Prop := exists op, op_ok op s /\ s' = run_op op s.

Definition reachable (s : MemoryStore) : Prop := rtc store_step NewMemoryStore s.

(** ** The invariant holds in every reachable store *)

Lemma newProjectState_project_inv : project_inv newProjectState.
Proof. split; [apply newProjectState_inv|]. simpl. apply runtime_inv_new. Qed.

Lemma locked_inv {A} id (m : M error projectState A) s :
  store_all project_inv s ->
  (project_inv (ensureProject id s) -> project_inv (snd (m (ensureProject id s)))) ->
  store_all project_inv (snd (locked id m s)).
Proof.
  intros Hs Hm. assert (project_inv (ensureProject id s)) as H0.
  { unfold ensureProject. destruct (s !! id) eqn:Hid; [by eapply Hs|apply newProjectState_project_inv]. }
  specialize (Hm H0). unfold locked. destruct (m _) as [r p]. simpl in *.
  intros id' p'. rewrite lookup_insert_Some. intros [[_ <-]|[_ ?]]; [done|by eapply Hs].
Qed.

Lemma guarded_inv {A B} (r : res B) (m : M error MemoryStore A) s :
  store_all project_inv s -> store_all project_inv (snd (m s)) ->
  store_all project_inv (snd ((lift r ≫= fun _ => m) s)).
Proof. intros Hs Hm. unfold mbind, M_bind, lift. by destruct r. Qed.

Lemma store_transition_inv id rev tr s :
  store_all project_inv s -> store_all project_inv (snd (store_transition id rev tr s)).
Proof.
  intros Hs. unfold store_transition. apply guarded_inv; [done|]. apply guarded_inv; [done|].
  apply locked_inv; [done|]. intros H0. by apply transitionProject_inv.
Qed.

Lemma appendObservation_inv ctx id o s :
  store_all project_inv s -> store_all project_inv (snd (appendObservation ctx id o s)).
Proof.
  intros Hs. unfold appendObservation. apply guarded_inv; [done|]. apply guarded_inv; [done|].
  apply locked_inv; [done|]. intros H0. by apply append_inv.
Qed.

Lemma unless_done_inv ctx id (m : M error projectState unit) s :
  store_all project_inv s -> preserves project_inv m ->
  store_all project_inv (snd (unless_done ctx (locked id m) s)).
Proof.
  intros Hs Hm. destruct ctx; simpl; [done|]. apply locked_inv; [done|]. intros H0. by apply Hm.
Qed.

Lemma ctx_inv {A} ctx id (m : M error projectState A) s :
  store_all project_inv s ->
  (project_inv (ensureProject id s) -> project_inv (snd (m (ensureProject id s)))) ->
  store_all project_inv (snd ((lift (ctx_Err ctx) ≫= fun _ => locked id m) s)).
Proof. intros Hs Hm. apply guarded_inv; [done|]. by apply locked_inv. Qed.

Lemma run_op_inv op s : op_ok op s -> store_all project_inv s -> store_all project_inv (run_op op s).
Proof.
  intros Hok Hs. destruct op; simpl in *.
  - unfold Latest. apply guarded_inv; [done|]. by apply locked_inv.
  - unfold Snapshot. apply guarded_inv; [done|]. apply guarded_inv; [done|]. apply locked_inv; [done|].
    intros H0. unfold mbind, M_bind, get_state. by destruct (pj_history _ !! _).
  - unfold ReplacePending. apply guarded_inv; [done|]. apply guarded_inv; [done|].
    apply locked_inv; [done|]. by apply replacePending_inv.
  - by apply store_transition_inv.
  - unfold TransitionWithDecisionRef. apply guarded_inv; [done|]. by apply store_transition_inv.
  - by apply ctx_inv.
  - apply ctx_inv; [done|]. apply markObserved_inv.
  - apply ctx_inv; [done|]. apply completeCommand_inv.
  - apply ctx_inv; [done|]. by apply change_lease_inv.
  - apply ctx_inv; [done|]. by apply change_lease_inv.
  - apply ctx_inv; [done|]. by apply getOrCreateStop_inv.
  - apply ctx_inv; [done|]. destruct Hok. by apply claimLease_inv.
  - apply unless_done_inv; [done|]. by apply change_command_inv.
  - apply unless_done_inv; [done|]. by apply change_command_inv.
  - apply unless_done_inv; [done|]. by apply change_command_inv.
  - apply unless_done_inv; [done|]. apply reject_inv.
  - apply unless_done_inv; [done|]. apply recordRejection_inv.
  - by apply appendObservation_inv.
  - unfold appendPhaseObservation, mbind, M_bind, lift.
    destruct (newPhaseObservation _ _ _ _) as [o|e]; [by apply appendObservation_inv|done].
Qed.

Lemma steps_inv s s' : rtc store_step s s' -> store_all project_inv s -> store_all project_inv s'.
Proof.
  induction 1 as [|s s1 s' (op & Hok & ->) _ IH]; [done|]. intros Hs. apply IH. by apply run_op_inv.
Qed.

Lemma reachable_inv s : reachable s -> store_all project_inv s.
Proof. intros Hr. eapply steps_inv; [exact Hr|]. intros id p. unfold NewMemoryStore. by rewrite lookup_empty. Qed.

Lemma reachable_project s id : reachable s -> project_inv (ensureProject id s).
Proof.
  intros Hr%reachable_inv. unfold ensureProject.
  destruct (s !! id) eqn:Hid; [by eapply Hr|apply newProjectState_project_inv].
Qed.

End with_runtime.
