(* ===== verification/CoordProps.v ===== *)
(** * Properties of the coordination graph

    First a concrete history the witnesses evaluate: two tasks, [t2]'s plan waiting
    for [t1]'s verify, planned by [ReplacePending], run and judged through the
    store's own operations.  Then the theorems on validation and transitions. *)

From stdpp Require Import base tactics option list strings gmap relations.
From Stdlib Require Import ZArith.
From S2P Require Import Prelude GoLib GoStrings Kernel CoordTypes Acyclic Validation GraphSpec Pending Transition.
From S2P Require Import TransitionSpec MemoryStore StoreInv RuntimeView RuntimeSpec CommandStore CommandInv.
From S2P Require Import StoreReach.

#[local] Existing Instance GoRuntime_list.

Definition ref (task phase : string) : PhaseEndpointRef := mkRef task phase.

Definition endpoint_of (task phase : string) : PhaseEndpoint :=
  mkEndpoint (ref task phase) "spec" ("binding:" +:+ task +:+ phase) 1 EndpointPending RunEnabled.

Definition plan_subgraph : PendingSubgraph :=
  mkPending "request-1" 1
    [mkTask "t1" "contract-1" TaskActive; mkTask "t2" "contract-2" TaskActive]
    [endpoint_of "t1" "plan"; endpoint_of "t1" "execute"; endpoint_of "t1" "verify";
     endpoint_of "t2" "plan"; endpoint_of "t2" "execute"; endpoint_of "t2" "verify"]
    [mkEdge (ref "t1" "verify") (ref "t2" "plan") SignalPhaseSatisfied RequiredByStart [] OnFalseBlock]
    [mkBlocker "b1" (ref "t2" "execute") RequiredByStart OnFalseBlock BlockerActive].

Definition pid : ProjectID := "p1".

(** The graph after the plan was accepted. *)
Definition planned_store : MemoryStore := run_op (OpReplacePending pid plan_subgraph) NewMemoryStore.
Definition planned : projectState := ensureProject pid planned_store.

(** The plan phase of [t1] has been claimed. *)
Definition t1_plan : PhaseEndpoint := endpoint_of "t1" "plan".
Definition claimed_store : MemoryStore :=
  run_op (OpClaim None pid 2 t1_plan CommandStart "revision://2" 100) planned_store.
Definition claimed : projectState := ensureProject pid claimed_store.

Definition t1_command : PhaseCommand :=
  mkCommand "cmd:run:t1:plan:1" (ref "t1" "plan") 1 "binding:t1plan" "lease:t1:plan:1" CommandStart "revision://2".

Definition t1_output : phaseObservation :=
  mkObservation (deterministicPhaseObservationID phaseObservationOutput "cmd:run:t1:plan:1")
    phaseObservationOutput "cmd:run:t1:plan:1" (ref "t1" "plan") 1 "binding:t1plan" "lease:t1:plan:1" "" false ""
    zeroRef false.

(** Its output has been recorded, folded and judged. *)
Definition observed_store : MemoryStore :=
  run_op (OpRecordPhase None pid t1_command phaseObservationOutput "" false) claimed_store.
Definition completed_store : MemoryStore := run_op (OpComplete None pid t1_output) observed_store.

Definition endpoint_transition (r : PhaseEndpointRef) (action : string) (result : PhaseResult) : GraphTransition :=
  mkTransition TargetPhaseEndpoint r "" "" action 1 result "" "" "" "" "" false [].

Definition t1_result : PhaseResult :=
  mkResult "r1" (ref "t1" "plan") "binding:t1plan" "artifact://plan" "".

Definition submit_t1 : GraphTransition := endpoint_transition (ref "t1" "plan") EndpointSubmitted zeroResult.
Definition satisfy_t1 : GraphTransition := endpoint_transition (ref "t1" "plan") EndpointSatisfied t1_result.

Definition submitted_store : MemoryStore := run_op (OpTransition pid 2 submit_t1) completed_store.
Definition satisfied_store : MemoryStore := run_op (OpTransition pid 3 satisfy_t1) submitted_store.

Lemma planned_step : store_step NewMemoryStore planned_store.
Proof.
  exists (OpReplacePending pid plan_subgraph). split; [|done]. simpl.
  intros e He. unfold is_int, int_min, int_max.
  repeat (apply elem_of_cons in He as [->|He]; [simpl; lia|]). by apply elem_of_nil in He.
Qed.

Lemma claimed_step : store_step planned_store claimed_store.
Proof.
  exists (OpClaim None pid 2 t1_plan CommandStart "revision://2" 100). split; [|done]. split; [|by left].
  intros _. vm_compute. reflexivity.
Qed.

Lemma simple_step op s : op_ok op s -> store_step s (run_op op s).
Proof. intros Hop. by exists op. Qed.

Lemma planned_reachable : reachable planned_store.
Proof. apply rtc_once, planned_step. Qed.

Lemma claimed_reachable : reachable claimed_store.
Proof. eapply rtc_r; [apply planned_reachable|apply claimed_step]. Qed.

Lemma completed_reachable : reachable completed_store.
Proof.
  eapply rtc_r; [eapply rtc_r; [apply claimed_reachable|]|].
  - exact (simple_step (OpRecordPhase None pid t1_command phaseObservationOutput "" false) claimed_store I).
  - exact (simple_step (OpComplete None pid t1_output) observed_store I).
Qed.

Lemma satisfied_reachable : reachable satisfied_store.
Proof.
  eapply rtc_r; [eapply rtc_r; [apply completed_reachable|]|].
  - exact (simple_step (OpTransition pid 2 submit_t1) completed_store I).
  - exact (simple_step (OpTransition pid 3 satisfy_t1) submitted_store I).
Qed.

(** The history did what it says. *)
Example satisfied_state :
  ep_State <$> (g_endpoints (pj_current (ensureProject pid satisfied_store)) !! ref "t1" "plan") =
    Some EndpointSatisfied /\
  pj_latest (ensureProject pid satisfied_store) = 4%Z /\
  ls_State <$> (rt_leases (pj_runtime (ensureProject pid satisfied_store)) !! "lease:t1:plan:1") = Some "released".
Proof. vm_compute. done. Qed.

(** ** Graphs of the sample *)

Definition planned_graph : graphState := pj_current planned.
Definition completed_graph : graphState := pj_current (ensureProject pid completed_store).
Definition submitted_graph : graphState := pj_current (ensureProject pid submitted_store).
Definition satisfied_graph : graphState := pj_current (ensureProject pid satisfied_store).

Lemma submit_applies : applyTransition completed_graph submit_t1 = Ok submitted_graph.
Proof. vm_compute. reflexivity. Qed.

Lemma satisfy_applies : applyTransition submitted_graph satisfy_t1 = Ok satisfied_graph.
Proof. vm_compute. reflexivity. Qed.

Lemma sample_good s : reachable s -> good_graph (pj_current (ensureProject pid s)).
Proof. intros Hr. apply (gi_current _ (pi_graph _ (reachable_project s pid Hr))). Qed.

(** The sample with a second edge that closes a cycle. *)
Definition cyclic_graph : graphState :=
  g_set_edges (mkEdge (ref "t2" "verify") (ref "t1" "plan") SignalPhaseSatisfied RequiredByStart [] OnFalseBlock
               :: g_edges planned_graph) planned_graph.

(** A replacement of [t2]'s execute phase that drops its blocker. *)
Definition replace_t2 : PendingSubgraph :=
  mkPending "request-2" 2 [] [endpoint_of "t2" "execute"] [] [].

Definition replaced : projectState := snd (replacePending replace_t2 planned).
Definition replaced_snapshot : GraphSnapshot := graphState_snapshot (pj_current replaced) 3.

Lemma replace_accepted : replacePending replace_t2 planned = (Ok replaced_snapshot, replaced).
Proof. vm_compute. reflexivity. Qed.

(** * Properties of the coordination graph

    What validation decides, what a transition may change, and what a
    replacement of the pending subgraph may change. *)

Section with_runtime.
Context `{GR : GoRuntime}.

(** ** Helper lemmas *)

Lemma completionEdgeSatisfied_true st d :
  completionEdgeSatisfied st d = true ->
  edge_Signal d = SignalPhaseSatisfied /\ satisfied_in st (edge_From d) \/
  edge_Signal d = SignalTaskDone /\ done_in st (ref_TaskID (edge_From d)).
Proof.
  unfold completionEdgeSatisfied, satisfied_in, done_in. repeat case_bool_decide; [left|right|done]; split; auto.
  - destruct (g_endpoints st !! _) as [e|]; [|done]. exists e. by bool_inv.
  - destruct (g_tasks st !! _) as [t|]; [|done]. exists t. by bool_inv.
Qed.

Lemma requireCompletionInputs_Ok st r :
  requireCompletionInputs st r = Ok tt ->
  (forall d, d ∈ g_edges st -> edge_To d = r -> edge_RequiredBy d = RequiredByCompletion ->
    edge_Signal d = SignalPhaseSatisfied /\ satisfied_in st (edge_From d) \/
    edge_Signal d = SignalTaskDone /\ done_in st (ref_TaskID (edge_From d))) /\
  (forall id b, g_blockers st !! id = Some b -> blk_Target b = r -> blk_RequiredBy b = RequiredByCompletion ->
    blk_State b ∉ [BlockerActive; BlockerDenied]).
Proof.
  unfold requireCompletionInputs. rewrite bind_unit_Ok, !each_Ok. intros [He Hb]. split.
  - intros d Hd Hto Hrb. specialize (He d Hd). rewrite !bool_decide_false in He by tauto. simpl in He.
    apply fail_if_Ok, negb_false_iff in He. by apply completionEdgeSatisfied_true.
  - intros id b Hid Hto Hrb. assert (b ∈ range_values (g_blockers st)) as Hin by (apply elem_of_range_values; eauto).
    specialize (Hb b Hin). rewrite !bool_decide_false in Hb by tauto. simpl in Hb.
    apply fail_if_Ok in Hb. unfold one_of in Hb. by bool_inv.
Qed.

Lemma applied_endpoint st next e :
  NoDup (ep_Ref <$> ps_Endpoints next) -> e ∈ ps_Endpoints next ->
  g_endpoints (applyPendingSubgraph st next) !! ep_Ref e = Some e.
Proof. apply foldl_insert_in. Qed.

Lemma applied_outside st next r :
  r ∉ pending_scope next -> g_endpoints (applyPendingSubgraph st next) !! r = g_endpoints st !! r.
Proof. intros Hr. apply foldl_insert_notin. unfold pending_scope in Hr. by rewrite elem_of_list_to_set in Hr. Qed.

Lemma applied_task st rt next id t :
  validatePendingSubgraph st rt next = Ok tt -> coherent st -> g_tasks st !! id = Some t ->
  g_tasks (applyPendingSubgraph st next) !! id = Some t.
Proof.
  intros (_ & _ & _ & Hts & _)%validatePendingSubgraph_Ok Hco Ht. simpl.
  destruct (decide (id ∈ task_ID <$> ps_Tasks next)) as [Hin|Hout]; [|by rewrite foldl_insert_notin].
  destruct (foldl_insert_some task_ID (ps_Tasks next) (g_tasks st) id Hin) as (t' & Hin' & <- & ->).
  specialize (Hts t' Hin'). unfold validatePendingTask in Hts. rewrite bind_unit_Ok, Ht in Hts.
  destruct Hts as [_ ->%guard_not_Ok]. done.
Qed.

Lemma pending_unleased rt next id l :
  validatePendingSubgraphRuntime rt next = Ok tt -> rt_leases rt !! id = Some l -> ls_State l = "active" ->
  ls_Endpoint l ∉ pending_scope next.
Proof.
  unfold validatePendingSubgraphRuntime. rewrite each_Ok. intros Hl Hid Hact.
  assert (l ∈ range_values (rt_leases rt)) as Hin by (apply elem_of_range_values; eauto).
  specialize (Hl l Hin). rewrite bool_decide_false in Hl by tauto. by apply guard_Ok in Hl.
Qed.

(** ** Validation *)

(** C2: [validateGraph] is a decision procedure for well-formedness: on every
    graph whose maps are keyed by the records' own identities it succeeds
    exactly when all records have their shape, all references resolve, every
    task owns exactly its plan, execute and verify endpoints, edge keys are
    distinct and the dependency relation has no cycle. *)
Theorem validate_graph_decides (st : graphState) (Hco : coherent st) :
  validateGraph st = Ok tt <-> valid_graph st.
Proof. by apply validateGraph_Ok. Qed.

(** The depth-first search of [validateAcyclic] always terminates within
    its recursion bound, and the only error it reports is the cycle error, for a
    graph whose dependency relation really has a cycle. *)
Theorem acyclic_check_sound (st : graphState) (e : error) (Herr : validateAcyclic st = Err e) :
  e = cycleError /\ exists r, tc (depends st) r r.
Proof. by apply validateAcyclic_Err. Qed.

(** ** Transitions *)

(** C3: every accepted transition refines the endpoint life cycle at all
    endpoints at once: no endpoint appears or disappears, and each either stays
    or takes one step of [lifecycle]; edges never change and no recorded result
    is removed or rewritten. *)
Theorem transition_refines_lifecycle (st st' : graphState) (tr : GraphTransition)
    (Hok : applyTransition st tr = Ok st') :
  endpoints_step (g_endpoints st) (g_endpoints st') /\ g_edges st' = g_edges st /\
  g_results st ⊆ g_results st'.
Proof.
  apply applyTransition_Ok in Hok. split_and!.
  - by eapply graph_step_endpoints.
  - by eapply graph_step_edges.
  - by eapply graph_step_results.
Qed.

(** Outcomes and decisions are final: an accepted transition changes a task
    only from active to done, canceled or failed (to done only when its verify
    endpoint is satisfied) and a blocker only from active to resolved, denied or
    obsolete; every other task and blocker stays exactly as it was. *)
Theorem transition_decisions_final (st st' : graphState) (tr : GraphTransition) (id : string)
    (Hok : applyTransition st tr = Ok st') :
  (forall t, g_tasks st !! id = Some t ->
     g_tasks st' !! id = Some t \/
     task_Outcome t = TaskActive /\ exists o, g_tasks st' !! id = Some (task_set_Outcome o t) /\
       o ∈ [TaskDone; TaskCanceled; TaskFailed] /\
       (o = TaskDone -> satisfied_in st (mkRef id EndpointVerify))) /\
  (forall b, g_blockers st !! id = Some b ->
     g_blockers st' !! id = Some b \/
     blk_State b = BlockerActive /\ exists s, g_blockers st' !! id = Some (blk_set_State s b) /\
       s ∈ [BlockerResolved; BlockerDenied; BlockerObsolete]).
Proof.
  apply applyTransition_Ok in Hok. split.
  - intros t Ht. pose proof (graph_step_tasks _ _ _ id Hok) as H. by rewrite Ht in H.
  - intros b Hb. pose proof (graph_step_blockers _ _ _ id Hok) as H. by rewrite Hb in H.
Qed.

(** An endpoint reaches satisfied or rejected through a transition only
    together with a new result that records that verdict for the endpoint and
    its current binding, with a non-empty output. *)
Theorem transition_records_verdict (st st' : graphState) (tr : GraphTransition) (r : PhaseEndpointRef)
    (e e' : PhaseEndpoint) (Hco : coherent st) (Hok : applyTransition st tr = Ok st')
    (He : g_endpoints st !! r = Some e) (He' : g_endpoints st' !! r = Some e')
    (Hs : ep_State e' = EndpointSatisfied \/ ep_State e' = EndpointRejected)
    (Hne : ep_State e' <> ep_State e) :
  verdict_recorded st st' e (ep_State e').
Proof. apply applyTransition_Ok in Hok. by eapply graph_step_verdict. Qed.

(** An endpoint is submitted only from pending and only when every
    completion edge into it is satisfied and no completion blocker on it is
    active or denied. *)
Theorem submission_inputs_complete (st st' : graphState) (tr : GraphTransition) (e : PhaseEndpoint)
    (Hkind : tr_TargetKind tr = TargetPhaseEndpoint) (Hact : tr_Action tr = EndpointSubmitted)
    (He : g_endpoints st !! tr_Endpoint tr = Some e) (Hok : applyTransition st tr = Ok st') :
  ep_State e = EndpointPending /\
  g_endpoints st' = <[tr_Endpoint tr := ep_set_State EndpointSubmitted e]> (g_endpoints st) /\
  (forall d, d ∈ g_edges st -> edge_To d = ep_Ref e -> edge_RequiredBy d = RequiredByCompletion ->
    edge_Signal d = SignalPhaseSatisfied /\ satisfied_in st (edge_From d) \/
    edge_Signal d = SignalTaskDone /\ done_in st (ref_TaskID (edge_From d))) /\
  (forall id b, g_blockers st !! id = Some b -> blk_Target b = ep_Ref e -> blk_RequiredBy b = RequiredByCompletion ->
    blk_State b ∉ [BlockerActive; BlockerDenied]).
Proof.
  apply applyTransition_Ok in Hok. destruct Hok as [e0 p Hk He0 _ Hp|? Hk|? Hk|? ? ? ? Hk]; [|by rewrite Hkind in Hk..].
  rewrite He in He0. injection He0 as <-.
  destruct Hp as [_ Hs Hin|? Ha|? Ha|Ha|Ha|Ha|Ha]; [|by rewrite Hact in Ha..].
  split; [done|]. split; [done|]. by apply requireCompletionInputs_Ok.
Qed.

(** ** Replacing the pending subgraph *)

(** An accepted [ReplacePending] touches nothing outside its scope: other
    endpoints, existing tasks and all results are unchanged, edges into the
    scope are exactly the submitted ones and all other edges are kept.  Inside
    the scope an existing endpoint was pending, has no active lease, and keeps
    its spec, run policy, generation and binding unless a definitive dispatch
    rejection allows the next generation with a new binding. *)
Theorem replace_pending_frame (next : PendingSubgraph) (p p' : projectState) (snap : GraphSnapshot)
    (Hinv : project_inv p) (Hok : replacePending next p = (Ok snap, p')) :
  let st := pj_current p in let st' := pj_current p' in
  (forall r, r ∉ pending_scope next -> g_endpoints st' !! r = g_endpoints st !! r) /\
  (forall e, e ∈ ps_Endpoints next -> g_endpoints st' !! ep_Ref e = Some e) /\
  (forall e old, e ∈ ps_Endpoints next -> g_endpoints st !! ep_Ref e = Some old ->
     replaces (pj_runtime p) old e) /\
  (forall id t, g_tasks st !! id = Some t -> g_tasks st' !! id = Some t) /\
  g_results st' = g_results st /\
  (forall d, d ∈ g_edges st' <-> (d ∈ g_edges st /\ edge_To d ∉ pending_scope next) \/ d ∈ ps_Edges next) /\
  (forall id l, rt_leases (pj_runtime p) !! id = Some l -> ls_State l = "active" ->
     ls_Endpoint l ∉ pending_scope next).
Proof.
  apply replacePending_run in Hok as (_ & _ & Hval & Hrt & _ & Hc). rewrite commit_run in Hc.
  injection Hc as _ <-. simpl. pose proof (gg_coherent _ (gi_current _ (pi_graph _ Hinv))) as Hco.
  pose proof (validatePendingSubgraph_Ok _ _ _ Hval) as (Hnd & _ & Hrep & _). split_and!.
  - intros r. apply (applied_outside (pj_current p)).
  - intros e. by apply (applied_endpoint (pj_current p)).
  - intros e old He Hold. apply validateReplacedEndpoint_Ok; [|by apply Hrep].
    by rewrite (co_endpoints _ Hco _ _ Hold).
  - intros id t. by apply (applied_task (pj_current p) (pj_runtime p)).
  - done.
  - intros d. rewrite elem_of_app, list_elem_of_filter. tauto.
  - intros id l. by apply pending_unleased.
Qed.
End with_runtime.

(** ** Witnesses *)

#[local] Existing Instance GoRuntime_list.

Lemma validate_graph_decides_witness :
  coherent planned_graph /\ (validateGraph planned_graph = Ok tt <-> valid_graph planned_graph).
Proof.
  assert (coherent planned_graph) as Hco by apply (sample_good planned_store planned_reachable).
  split; [exact Hco|]. exact (validate_graph_decides planned_graph Hco).
Defined.

Lemma acyclic_check_sound_witness :
  validateAcyclic cyclic_graph = Err cycleError /\ exists r, tc (depends cyclic_graph) r r.
Proof.
  assert (validateAcyclic cyclic_graph = Err cycleError) as Herr by (vm_compute; reflexivity).
  split; [exact Herr|]. exact (proj2 (acyclic_check_sound cyclic_graph cycleError Herr)).
Defined.

Lemma transition_refines_lifecycle_witness :
  endpoints_step (g_endpoints submitted_graph) (g_endpoints satisfied_graph) /\
  g_results submitted_graph ⊆ g_results satisfied_graph.
Proof.
  destruct (transition_refines_lifecycle submitted_graph satisfied_graph satisfy_t1 satisfy_applies) as (H & _ & H').
  exact (conj H H').
Defined.

Definition resolve_b1 : GraphTransition :=
  mkTransition TargetBlocker zeroRef "b1" "" BlockerResolved 0 zeroResult "" "" "" "" "" false [].
Definition resolved_graph : graphState :=
  match applyTransition planned_graph resolve_b1 with Ok st => st | Err _ => planned_graph end.

Lemma transition_decisions_final_witness :
  applyTransition planned_graph resolve_b1 = Ok resolved_graph /\
  (forall b, g_blockers planned_graph !! "b1" = Some b ->
     g_blockers resolved_graph !! "b1" = Some b \/
     blk_State b = BlockerActive /\ exists s, g_blockers resolved_graph !! "b1" = Some (blk_set_State s b) /\
       s ∈ [BlockerResolved; BlockerDenied; BlockerObsolete]).
Proof.
  assert (applyTransition planned_graph resolve_b1 = Ok resolved_graph) as Hok by (vm_compute; reflexivity).
  split; [exact Hok|]. exact (proj2 (transition_decisions_final planned_graph resolved_graph resolve_b1 "b1" Hok)).
Defined.

Lemma transition_records_verdict_witness :
  verdict_recorded submitted_graph satisfied_graph (ep_set_State EndpointSubmitted t1_plan) EndpointSatisfied.
Proof.
  apply (transition_records_verdict submitted_graph satisfied_graph satisfy_t1 (ref "t1" "plan")
    (ep_set_State EndpointSubmitted t1_plan) (ep_set_State EndpointSatisfied t1_plan)).
  - apply (sample_good submitted_store). eapply rtc_r; [apply completed_reachable|].
    exact (simple_step (OpTransition pid 2 submit_t1) completed_store I).
  - exact satisfy_applies.
  - vm_compute. reflexivity.
  - vm_compute. reflexivity.
  - left. reflexivity.
  - discriminate.
Defined.

Lemma submission_inputs_complete_witness :
  ep_State t1_plan = EndpointPending /\
  g_endpoints submitted_graph =
    <[tr_Endpoint submit_t1 := ep_set_State EndpointSubmitted t1_plan]> (g_endpoints completed_graph).
Proof.
  destruct (submission_inputs_complete completed_graph submitted_graph submit_t1 t1_plan) as (H1 & H2 & _).
  - reflexivity.
  - reflexivity.
  - vm_compute. reflexivity.
  - exact submit_applies.
  - exact (conj H1 H2).
Defined.

Lemma replace_pending_frame_witness :
  replacePending replace_t2 planned = (Ok replaced_snapshot, replaced) /\
  (forall r, r ∉ pending_scope replace_t2 ->
     g_endpoints (pj_current replaced) !! r = g_endpoints (pj_current planned) !! r).
Proof.
  split; [exact replace_accepted|].
  exact (proj1 (replace_pending_frame replace_t2 planned replaced replaced_snapshot
    (reachable_project planned_store pid planned_reachable) replace_accepted)).
Defined.
