(* ===== verification/StoreProps.v ===== *)
(** * Properties of the coordination store

    What an operation leaves alone: history and commands only grow, an operation
    touches one project, and the order of a snapshot does not depend on iteration
    order.  Then the theorems on reachable stores. *)

From stdpp Require Import base tactics option list strings gmap sorting relations.
From Stdlib Require Import ZArith.
From S2P Require Import Prelude GoLib GoStrings Kernel CoordTypes Acyclic Validation GraphSpec Pending Transition.
From S2P Require Import TransitionSpec MemoryStore StoreInv RuntimeView RuntimeSpec CommandStore CommandInv.
From S2P Require Import StoreReach CoordProps.

(** ** Operations that leave the graph side alone *)

Definition commands_of (p : projectState) : gset string := dom (rt_commands (pj_runtime p)).

(** The graph and its history stay, and no command is forgotten. *)
Definition keeps {A} (m : M error projectState A) : Prop :=
  forall p, (exists rt, snd (m p) = pj_set_runtime rt p) /\ commands_of p ⊆ commands_of (snd (m p)).

Lemma frame_keeps_readonly {A} (m : M error projectState A) : readonly m -> keeps m.
Proof. intros Hm p. rewrite Hm. split; [|done]. exists (pj_runtime p). by destruct p. Qed.

Lemma frame_keeps_bind {A B} (m : M error projectState A) (k : A -> M error projectState B) :
  keeps m -> (forall a, keeps (k a)) -> keeps (m ≫= k).
Proof.
  intros Hm Hk p. unfold mbind, M_bind. destruct (Hm p) as [[rt Hrt] Hc].
  destruct (m p) as [[a|e] p1]; simpl in *; subst; [|by eauto].
  destruct (Hk a (pj_set_runtime rt p)) as [[rt' Hrt'] Hc']. split; [by exists rt'; rewrite Hrt'|by etrans].
Qed.

Lemma keeps_set f : (forall rt, dom (rt_commands rt) ⊆ dom (rt_commands (f rt))) -> keeps (set_runtime f).
Proof. intros Hf p. split; [by eexists|apply Hf]. Qed.

Lemma get_runtime_readonly : readonly get_runtime.
Proof. done. Qed.

Lemma command_of_readonly msg o : readonly (command_of msg o).
Proof. intros p. by rewrite command_of_run. Qed.

Lemma releaseRejected_commands c record rt : rt_commands (releaseRejected c record rt) = rt_commands rt.
Proof. unfold releaseRejected. by repeat case_match. Qed.

(** Takes a project operation apart into guards and runtime updates. *)
Ltac keeps_tac :=
  repeat (first
    [ apply keeps_set; intros ?; simpl; rewrite ?releaseRejected_commands; simpl; rewrite ?dom_insert;
      first [done | apply union_subseteq_r]
    | apply frame_keeps_readonly; first [apply readonly_lift | apply readonly_get | apply readonly_ret
        | apply readonly_throw | apply get_runtime_readonly | apply command_of_readonly]
    | apply frame_keeps_bind; [|intros ?]
    | case_match ]).

Section keeps.
Context `{GR : GoRuntime}.

Lemma markObserved_keeps o : keeps (markObserved o).
Proof. unfold markObserved. keeps_tac. Qed.
Lemma completeCommand_keeps o : keeps (completeCommand o).
Proof. unfold completeCommand. keeps_tac. Qed.
Lemma change_lease_keeps id f : keeps (change_lease id f).
Proof. unfold change_lease. keeps_tac. Qed.
Lemma change_command_keeps id f : keeps (change_command id f).
Proof. unfold change_command. keeps_tac. Qed.
Lemma getOrCreateStop_keeps rev l : keeps (getOrCreateStop rev l).
Proof. unfold getOrCreateStop. keeps_tac. Qed.
Lemma claimLease_keeps rev e a c now : keeps (claimLease rev e a c now).
Proof. unfold claimLease. keeps_tac. Qed.
Lemma reject_keeps c err : keeps (reject c err).
Proof. unfold reject. keeps_tac. Qed.
Lemma recordRejection_keeps r g b err : keeps (recordRejection r g b err).
Proof. unfold recordRejection. keeps_tac. Qed.
Lemma append_keeps o : keeps (append o).
Proof. unfold append. keeps_tac. Qed.

(** ** History and commands only grow *)

Record grows (p p' : projectState) : Prop := {
  gr_history : pj_history p ⊆ pj_history p';
  gr_commands : commands_of p ⊆ commands_of p';
}.

#[global] Instance grows_preorder : PreOrder grows.
Proof. split; [by intros p|]. intros p1 p2 p3 [? ?] [? ?]. split; by etrans. Qed.

Lemma keeps_grows {A} (m : M error projectState A) p : keeps m -> grows p (snd (m p)).
Proof. intros Hm. destruct (Hm p) as [[rt Hrt] Hc]. split; [by rewrite Hrt|done]. Qed.

Lemma commit_grows st p : graph_inv p -> pj_latest p <> LatestRevision -> grows p (snd (commit st p)).
Proof. intros Hp H0. rewrite commit_run. split; [|done]. by apply insert_subseteq, next_unused. Qed.

Lemma replacePending_grows next p : graph_inv p -> grows p (snd (replacePending next p)).
Proof.
  intros Hp. destruct (replacePending next p) as [[snap|e] p'] eqn:Hr.
  - apply replacePending_run in Hr as (_ & H0 & _ & _ & _ & Hc).
    pose proof (commit_grows (applyPendingSubgraph (pj_current p) next) p Hp H0) as Hg. by rewrite Hc in Hg.
  - apply replacePending_Err in Hr as ->. reflexivity.
Qed.

Lemma transitionProject_grows rev tr p : graph_inv p -> grows p (snd (transitionProject rev tr p)).
Proof.
  intros Hp. destruct (transitionProject rev tr p) as [[snap|e] p'] eqn:Hr.
  - apply transitionProject_run in Hr as (_ & H0 & _ & _ & _ & st & p1 & _ & _ & Hc & ->).
    pose proof (commit_grows st p Hp H0) as Hg. rewrite Hc in Hg. etrans; [exact Hg|].
    destruct (recordRuntimeBinding_graph tr p1) as (_ & Hh & _). split; cbn [snd]; [by rewrite Hh|].
    unfold recordRuntimeBinding. cbv zeta. by repeat case_match.
  - apply transitionProject_Err in Hr as ->. reflexivity.
Qed.

(** ** Every operation acts on one project *)

Definition op_project (op : store_op) : ProjectID :=
  match op with
  | OpLatest id | OpSnapshot id _ | OpReplacePending id _ | OpTransition id _ _
  | OpTransitionDecision id _ _ _ | OpLoadView _ id _ | OpMarkObserved _ id _ | OpComplete _ id _
  | OpReleaseOrphan _ id _ | OpExpire _ id _ | OpStop _ id _ _ | OpClaim _ id _ _ _ _ _
  | OpAccept _ id _ | OpRetry _ id _ | OpQuarantine _ id _ | OpReject _ id _ _
  | OpRecordRejection _ id _ _ _ _ | OpObserve _ id _ | OpRecordPhase _ id _ _ _ _ => id
  end.

(** An operation either stops before it takes the lock, or is a locked
    operation on its project whose history grows. *)
Definition acts (id : ProjectID) (s s' : MemoryStore) : Prop :=
  s' = s \/ exists p', s' = <[id := p']> s /\ (graph_inv (ensureProject id s) -> grows (ensureProject id s) p').

Lemma acts_locked {A} id (m : M error projectState A) s :
  (forall p, graph_inv p -> grows p (snd (m p))) -> acts id s (snd (locked id m s)).
Proof.
  intros Hm. right. unfold locked. specialize (Hm (ensureProject id s)).
  destruct (m (ensureProject id s)) as [r p']. by exists p'.
Qed.

Lemma acts_guarded {A B} id (r : res B) (m : M error MemoryStore A) s :
  acts id s (snd (m s)) -> acts id s (snd ((lift r ≫= fun _ => m) s)).
Proof. intros Hm. unfold mbind, M_bind, lift. destruct r; [done|by left]. Qed.

Lemma acts_unless_done ctx id (m : M error MemoryStore unit) s :
  acts id s (snd (m s)) -> acts id s (snd (unless_done ctx m s)).
Proof. intros Hm. destruct ctx; [by left|done]. Qed.

Lemma run_op_acts op s : acts (op_project op) s (run_op op s).
Proof.
  destruct op; simpl;
    unfold Latest, Snapshot, ReplacePending, Transition, TransitionWithDecisionRef, store_transition,
      loadRuntimeView, markCommandObserved, completeCommandAndReleaseLease, releaseOrphanLease, expireLease,
      getOrCreateStopCommand, claimLeaseAndAppendCommand, markCommandAccepted, scheduleRetry, quarantineCommand,
      rejectCommand, recordEndpointDispatchRejection, appendObservation;
    try apply acts_unless_done; repeat apply acts_guarded.
  all: try (apply acts_locked; intros p Hp;
    first [ by apply replacePending_grows | by apply transitionProject_grows
          | apply keeps_grows; first
            [ apply markObserved_keeps | apply completeCommand_keeps | apply change_lease_keeps
            | apply change_command_keeps | apply getOrCreateStop_keeps | apply claimLease_keeps
            | apply reject_keeps | apply recordRejection_keeps | apply append_keeps | keeps_tac ] ]).
  unfold appendPhaseObservation, mbind, M_bind, lift.
  destruct (newPhaseObservation _ _ _ _) as [o|e]; [|by left].
  unfold appendObservation. repeat apply acts_guarded. apply acts_locked. intros p Hp.
  apply keeps_grows, append_keeps.
Qed.

Lemma step_grows s s' id p :
  store_all project_inv s -> store_step s s' -> s !! id = Some p -> exists p', s' !! id = Some p' /\ grows p p'.
Proof.
  intros Hs (op & _ & ->) Hid.
  destruct (run_op_acts op s) as [->|(p' & -> & Hg)]; [exists p; split; [done|reflexivity]|].
  destruct (decide (op_project op = id)) as [<-|Hne].
  - exists p'. rewrite lookup_insert_eq. split; [done|]. unfold ensureProject in Hg. rewrite Hid in Hg.
    apply Hg, (pi_graph _ (Hs _ _ Hid)).
  - exists p. rewrite lookup_insert_ne by done. split; [done|reflexivity].
Qed.

Lemma steps_grow s s' id p :
  rtc store_step s s' -> store_all project_inv s -> s !! id = Some p ->
  exists p', s' !! id = Some p' /\ grows p p'.
Proof.
  intros Hr. revert p. induction Hr as [|s s1 s' H1 _ IH]; intros p Hs Hid; [exists p; split; [done|reflexivity]|].
  destruct (step_grows _ _ _ _ Hs H1 Hid) as (p1 & Hp1 & Hg1).
  destruct (IH p1) as (p' & Hp' & Hg'); [by eapply steps_inv; [apply rtc_once|]|done|].
  exists p'. split; [done|]. by etrans.
Qed.

Lemma run_op_other op s id : id <> op_project op -> run_op op s !! id = s !! id.
Proof.
  intros Hne. destruct (run_op_acts op s) as [->|(p' & -> & _)]; [done|]. by rewrite lookup_insert_ne.
Qed.
End keeps.

(** ** Snapshots do not depend on iteration order *)

Lemma sorted_values_unique (GR1 GR2 : GoRuntime) {K V} `{Countable K} (less : V -> V -> bool) `{!LessOk less}
    (m : gmap K V) :
  (forall k1 k2 v1 v2, m !! k1 = Some v1 -> m !! k2 = Some v2 -> sorts_by less v1 v2 -> sorts_by less v2 v1 ->
     v1 = v2) ->
  @sort_slice GR1 _ less (@range_values GR1 _ _ _ _ m) = @sort_slice GR2 _ less (@range_values GR2 _ _ _ _ m).
Proof.
  intros Hanti. apply (sorted_perm_unique less); [| apply sort_slice_sorted, _ | apply sort_slice_sorted, _ |].
  - intros x y. rewrite !sort_slice_perm, !elem_of_range_values. intros [k1 H1] [k2 H2]. by eapply Hanti.
  - rewrite !sort_slice_perm. unfold range_values. by rewrite !range_map_perm.
Qed.

#[global] Instance ref_less_ok {A} (key : A -> PhaseEndpointRef) : LessOk (fun a b => ref_less (key a) (key b)).
Proof. exact (lex_string_ok (fun a => ref_TaskID (key a)) (fun a => phaseOrder (ref_EndpointID (key a)))). Qed.

Lemma phaseOrder_inj x y :
  x ∈ fixedEndpoints -> y ∈ fixedEndpoints -> phaseOrder x = phaseOrder y -> x = y.
Proof.
  unfold fixedEndpoints. rewrite !elem_of_cons, !elem_of_nil.
  intros [->|[->|[->|[]]]] [->|[->|[->|[]]]]; vm_compute; intros; congruence.
Qed.

Lemma ref_less_anti r1 r2 :
  ref_EndpointID r1 ∈ fixedEndpoints -> ref_EndpointID r2 ∈ fixedEndpoints ->
  ref_less r1 r2 = false -> ref_less r2 r1 = false -> r1 = r2.
Proof.
  intros H1 H2. unfold ref_less. destruct r1 as [t1 e1], r2 as [t2 e2]. cbn [ref_TaskID ref_EndpointID] in *.
  destruct (decide (t1 = t2)) as [->|Hne].
  - rewrite !bool_decide_true, !Z.ltb_ge by done. intros. f_equal. apply phaseOrder_inj; [done..|lia].
  - rewrite !bool_decide_false, !string_lt_false by congruence. intros.
    destruct Hne. by apply (anti_symm String.le).
Qed.

(** * Properties of the store

    Revisions, history and snapshots of every reachable store. *)

Section with_runtime.
Context `{GR : GoRuntime}.

(** ** Helper lemmas *)

(** The two operations that commit a revision. *)
Inductive is_write : M error projectState GraphSnapshot -> Revision -> Prop :=
| write_replace next : is_write (replacePending next) (ps_BaseRevision next)
| write_transition rev tr : is_write (transitionProject rev tr) rev.

(** What a successful write does to the graph side of its project. *)
Lemma write_run m base p snap p' :
  is_write m base -> m p = (Ok snap, p') ->
  base = pj_latest p /\ pj_latest p <> LatestRevision /\
  exists st, pj_latest p' = Revision_Next (pj_latest p) /\ pj_current p' = st /\
    pj_history p' = <[Revision_Next (pj_latest p) := st]> (pj_history p) /\
    snap = graphState_snapshot st (Revision_Next (pj_latest p)).
Proof.
  intros [next|rev tr] Hr.
  - apply replacePending_run in Hr as (-> & H0 & _ & _ & _ & Hc). rewrite commit_run in Hc.
    injection Hc as <- <-. eauto 10.
  - apply transitionProject_run in Hr as (-> & H0 & _ & _ & _ & st & p1 & _ & _ & Hc & ->).
    rewrite commit_run in Hc. injection Hc as <- <-.
    destruct (recordRuntimeBinding_graph tr (mkProject (Revision_Next (pj_latest p))
      (<[Revision_Next (pj_latest p) := st]> (pj_history p)) st (pj_runtime p))) as (-> & -> & ->). eauto 10.
Qed.

Lemma write_Err m base p e p' : is_write m base -> m p = (Err e, p') -> p' = p.
Proof. intros [next|rev tr]; [apply replacePending_Err|apply transitionProject_Err]. Qed.

Lemma write_conflict m base p :
  is_write m base -> base <> pj_latest p -> m p = (Err (RevisionConflict base (pj_latest p)), p).
Proof.
  intros Hw Hne. assert (CheckExpectedRevision base (pj_latest p) = Err (RevisionConflict base (pj_latest p))) as Hck.
  { destruct (CheckExpectedRevision _ _) as [u|e] eqn:H; [by apply CheckExpectedRevision_Ok in H as [? _]|].
    by rewrite (CheckExpectedRevision_Err _ _ _ H). }
  destruct Hw as [next|rev tr]; unfold replacePending, transitionProject, mbind, M_bind, lift, get_state;
    by rewrite Hck.
Qed.

Lemma Revision_Next_ne r : is_uint64 r -> Revision_Next r <> r.
Proof.
  unfold is_uint64, Revision_Next, uint64_wrap. intros ?.
  destruct (decide (r = 18446744073709551615%Z)) as [->|]; [done|]. rewrite Z.mod_small; lia.
Qed.

(** ** Revisions *)

(** C1: every project of every reachable store holds a valid graph (valid,
    coherent and with generations in range), the newest revision of its history
    is its current graph, and every revision of the history is valid too. *)
Theorem reachable_graphs_valid (s : MemoryStore) (id : ProjectID) (p : projectState)
    (Hr : reachable s) (Hp : s !! id = Some p) :
  good_graph (pj_current p) /\ pj_history p !! pj_latest p = Some (pj_current p) /\
  forall rev g, pj_history p !! rev = Some g -> good_graph g.
Proof.
  pose proof (reachable_inv s Hr id p Hp) as [[Hc _ Hn Hh _] _]. by split_and!.
Qed.

(** A write ([ReplacePending] or [Transition]) commits exactly one revision or
    nothing: on success the base was the current revision, the project moves to
    the next revision, which was unused, the old history is kept, and the
    returned snapshot is that of the new graph; on error the project is
    unchanged. *)
Theorem write_commits_or_nothing (m : M error projectState GraphSnapshot) (base : Revision)
    (p p' : projectState) (r : res GraphSnapshot) (Hinv : project_inv p) (Hw : is_write m base)
    (Hrun : m p = (r, p')) :
  match r with
  | Err _ => p' = p
  | Ok snap =>
      base = pj_latest p /\ pj_latest p' = Revision_Next (pj_latest p) /\
      pj_history p !! pj_latest p' = None /\ pj_history p' = <[pj_latest p' := pj_current p']> (pj_history p) /\
      snap = graphState_snapshot (pj_current p') (pj_latest p')
  end.
Proof.
  destruct r as [snap|e]; [|by eapply write_Err].
  destruct (write_run _ _ _ _ _ Hw Hrun) as (-> & H0 & st & -> & <- & -> & ->). split_and!; try done.
  by apply next_unused; [apply (pi_graph _ Hinv)|].
Qed.

(** Optimistic concurrency control: after a successful write, any other
    write with the same base revision fails with a revision conflict and
    changes nothing. *)
Theorem concurrent_write_conflicts (m1 m2 : M error projectState GraphSnapshot) (base : Revision)
    (p p' : projectState) (snap : GraphSnapshot) (Hinv : project_inv p)
    (Hw1 : is_write m1 base) (Hw2 : is_write m2 base) (Hrun : m1 p = (Ok snap, p')) :
  m2 p' = (Err (RevisionConflict base (pj_latest p')), p').
Proof.
  destruct (write_run _ _ _ _ _ Hw1 Hrun) as (-> & H0 & st & Hl & _). apply write_conflict; [done|].
  rewrite Hl. intros Heq. symmetry in Heq. revert Heq. apply Revision_Next_ne, (gi_latest _ (pi_graph _ Hinv)).
Qed.

(** History is immutable: whatever operations run afterwards, a revision once
    committed is read back as the same graph, and its snapshot never changes. *)
Theorem history_immutable (s s' : MemoryStore) (id : ProjectID) (rev : Revision) (g : graphState) (p : projectState)
    (Hr : reachable s) (Hp : s !! id = Some p) (Hg : pj_history p !! rev = Some g)
    (Hsteps : rtc store_step s s') (Hid : IsZeroID id = false) (Hrev : rev <> LatestRevision) :
  fst (Snapshot id rev s') = Ok (graphState_snapshot g rev).
Proof.
  destruct (steps_grow s s' id p Hsteps (reachable_inv s Hr) Hp) as (p' & Hp' & [Hh _]).
  unfold Snapshot, mbind, M_bind, lift, requireProjectID, locked, ensureProject, get_state, IsLatestRead.
  rewrite Hid, bool_decide_false, Hp' by done. simpl.
  by rewrite (lookup_weaken _ _ _ _ Hg Hh).
Qed.

(** Projects are isolated: an operation on one project leaves every other
    project of the store as it is. *)
Theorem projects_isolated (op : store_op) (s : MemoryStore) (id : ProjectID) (Hne : id <> op_project op) :
  run_op op s !! id = s !! id.
Proof. by apply run_op_other. Qed.
End with_runtime.

(** A snapshot of a valid graph does not depend on map iteration order or on
    the sorting algorithm: tasks, endpoints, blockers and results come out as the
    same lists under any two Go runtimes, edges as permutations of each other. *)
Theorem snapshot_deterministic (GR1 GR2 : GoRuntime) (st : graphState) (rev : Revision)
    (Hco : coherent st) (Hv : valid_graph st) :
  let s1 := @graphState_snapshot GR1 st rev in let s2 := @graphState_snapshot GR2 st rev in
  snap_Tasks s1 = snap_Tasks s2 /\ snap_Endpoints s1 = snap_Endpoints s2 /\
  snap_Blockers s1 = snap_Blockers s2 /\ snap_Results s1 = snap_Results s2 /\
  snap_Edges s1 ≡ₚ snap_Edges s2.
Proof.
  simpl. split_and!.
  - apply (sorted_values_unique GR1 GR2 (fun a b => string_lt (task_ID a) (task_ID b))).
    intros k1 k2 v1 v2 H1 H2 Ha Hb. pose proof (sorts_by_key_anti task_ID v1 v2 Ha Hb) as Hk.
    rewrite (co_tasks _ Hco _ _ H1), (co_tasks _ Hco _ _ H2) in Hk. congruence.
  - apply (sorted_values_unique GR1 GR2 (fun a b => ref_less (ep_Ref a) (ep_Ref b))).
    intros k1 k2 v1 v2 H1 H2 Ha Hb. assert (ep_Ref v1 = ep_Ref v2) as Hk.
    { apply ref_less_anti; [apply (vg_endpoints _ Hv _ _ H1)|apply (vg_endpoints _ Hv _ _ H2)|exact Hb|exact Ha]. }
    rewrite (co_endpoints _ Hco _ _ H1), (co_endpoints _ Hco _ _ H2) in Hk. congruence.
  - apply (sorted_values_unique GR1 GR2 (fun a b => string_lt (blk_ID a) (blk_ID b))).
    intros k1 k2 v1 v2 H1 H2 Ha Hb. pose proof (sorts_by_key_anti blk_ID v1 v2 Ha Hb) as Hk.
    rewrite (co_blockers _ Hco _ _ H1), (co_blockers _ Hco _ _ H2) in Hk. congruence.
  - apply (sorted_values_unique GR1 GR2 (fun a b => string_lt (pr_ID a) (pr_ID b))).
    intros k1 k2 v1 v2 H1 H2 Ha Hb. pose proof (sorts_by_key_anti pr_ID v1 v2 Ha Hb) as Hk.
    rewrite (co_results _ Hco _ _ H1), (co_results _ Hco _ _ H2) in Hk. congruence.
  - by rewrite !sort_slice_perm.
Qed.

(** ** Witnesses *)

#[local] Existing Instance GoRuntime_list.

Lemma planned_lookup : planned_store !! pid = Some planned.
Proof. vm_compute. reflexivity. Qed.

Lemma planned_inv : project_inv planned.
Proof. exact (reachable_project planned_store pid planned_reachable). Qed.

Lemma reachable_graphs_valid_witness : good_graph (pj_current planned).
Proof. exact (proj1 (reachable_graphs_valid planned_store pid planned planned_reachable planned_lookup)). Defined.

Lemma write_commits_or_nothing_witness :
  replacePending replace_t2 planned = (Ok replaced_snapshot, replaced) /\ pj_latest replaced = 3%Z.
Proof.
  split; [exact replace_accepted|].
  destruct (write_commits_or_nothing (replacePending replace_t2) 2 planned replaced (Ok replaced_snapshot)
    planned_inv (write_replace replace_t2) replace_accepted) as (_ & H & _).
  rewrite H. vm_compute. reflexivity.
Defined.

Lemma concurrent_write_conflicts_witness :
  transitionProject 2 submit_t1 replaced = (Err (RevisionConflict 2 3), replaced).
Proof.
  exact (concurrent_write_conflicts (replacePending replace_t2) (transitionProject 2 submit_t1) 2 planned replaced
    replaced_snapshot planned_inv (write_replace replace_t2) (write_transition 2 submit_t1) replace_accepted).
Defined.

Lemma history_immutable_witness :
  fst (Snapshot pid 2 claimed_store) = Ok (graphState_snapshot planned_graph 2).
Proof.
  apply (history_immutable planned_store claimed_store pid 2 planned_graph planned planned_reachable planned_lookup).
  - vm_compute. reflexivity.
  - apply rtc_once, claimed_step.
  - vm_compute. reflexivity.
  - discriminate.
Defined.

Lemma projects_isolated_witness :
  run_op (OpTransition "p2" 1 submit_t1) planned_store !! pid = planned_store !! pid.
Proof. apply (projects_isolated (OpTransition "p2" 1 submit_t1) planned_store pid). discriminate. Defined.

(** A runtime that iterates maps in the opposite order. *)
#[local] Program Instance GoRuntime_reversed : GoRuntime := {|
  range_map K V _ _ m := reverse (map_to_list m);
  sort_slice A less l := sort_stable less (reverse l);
|}.
Next Obligation. intros. by rewrite reverse_Permutation. Qed.
Next Obligation. intros. by rewrite sort_stable_perm, reverse_Permutation. Qed.
Next Obligation. intros. by apply sort_stable_sorted. Qed.

Lemma snapshot_deterministic_witness :
  snap_Endpoints (@graphState_snapshot GoRuntime_list planned_graph 2) =
  snap_Endpoints (@graphState_snapshot GoRuntime_reversed planned_graph 2).
Proof.
  pose proof (sample_good planned_store planned_reachable) as Hg.
  exact (proj1 (proj2 (snapshot_deterministic GoRuntime_list GoRuntime_reversed planned_graph 2
    (gg_coherent _ Hg) (gg_valid _ Hg)))).
Defined.
