(* ===== verification/LeaseProps.v ===== *)
(** * Properties of leases, commands and observations

    Exclusive execution of an endpoint generation, the start condition, and the
    idempotence of the runtime records. *)

From stdpp Require Import base tactics option list strings gmap sorting relations.
From Stdlib Require Import ZArith.
From S2P Require Import Prelude GoLib GoStrings Kernel CoordTypes Acyclic Validation GraphSpec Pending Transition.
From S2P Require Import TransitionSpec MemoryStore StoreInv RuntimeView RuntimeSpec CommandStore CommandInv.
From S2P Require Import StoreReach StoreProps CoordProps.

Section with_runtime.
Context `{GR : GoRuntime}.

(** ** Helper lemmas *)

Lemma folded_elem os o :
  NoDup (ob_ID <$> os) -> o ∈ os -> ob_set_Folded true o ∈ markObservationFoldedLocked (ob_ID o) os.
Proof.
  induction os as [|x os IH]; [by intros _ ?%elem_of_nil|]. rewrite fmap_cons, NoDup_cons. intros [Hx Hnd].
  simpl. intros [->|Ho]%elem_of_cons; [rewrite bool_decide_true by done; by left|].
  rewrite bool_decide_false; [right; by apply IH|]. intros Heq. apply Hx. rewrite Heq. by apply list_elem_of_fmap_2.
Qed.

Lemma completeCommand_run o p p' :
  completeCommand o p = (Ok tt, p') -> exists c l,
    rt_commands (pj_runtime p) !! ob_CommandID o = Some c /\
    matchingObservationLease (pj_runtime p) (cr_Command c) o = Ok l /\
    p' = pj_set_runtime (fold_observation (ob_ID o) (rt_set_lease (ob_LeaseRef o) (ls_set_State "released" l)
      (rt_set_command (ob_CommandID o) (cr_set_Completed (ob_ID o) c) (pj_runtime p)))) p.
Proof.
  unfold completeCommand, mbind, M_bind. rewrite command_of_run.
  destruct (rt_commands _ !! _) as [c|]; [|done]. rewrite get_runtime_run. unfold lift.
  destruct (matchingObservationLease _ _ _) as [l|] eqn:Hl; [|done].
  destruct (if bool_decide _ then _ else _) as [u|]; [|done]. intros [= <-]. by exists c, l.
Qed.

(** A claim at the level of the store. *)
Lemma claim_run ctx id rev e a cause now s c s1 :
  project_inv (ensureProject id s) ->
  claimLeaseAndAppendCommand ctx id rev e a cause now s = (Ok (c, true), s1) ->
  exists p', s1 = <[id := p']> s /\ claimLease rev e a cause now (ensureProject id s) = (Ok (c, true), p').
Proof.
  intros Hp. unfold claimLeaseAndAppendCommand, mbind, M_bind, lift. destruct (ctx_Err ctx); [|done].
  unfold locked. destruct (claimLease _ _ _ _ _ _) as [r p']. intros [= -> <-]. by exists p'.
Qed.


(** An observation already recorded with the same payload. *)
Lemma recorded_same os o :
  NoDup (ob_ID <$> os) -> o ∈ os -> exists i, list_find (fun x => ob_ID x = ob_ID o) os = Some (i, o).
Proof.
  intros Hnd Ho. destruct (list_find (fun x => ob_ID x = ob_ID o) os) as [[i x]|] eqn:Hf.
  - exists i. apply list_find_Some in Hf as (Hi & Hid & _). apply list_elem_of_lookup in Ho as [j Hj].
    assert (i = j) as ->; [|congruence].
    eapply NoDup_lookup; [exact Hnd|rewrite list_lookup_fmap, Hi; simpl; by rewrite Hid|].
    by rewrite list_lookup_fmap, Hj.
  - apply list_find_None in Hf. rewrite Forall_forall in Hf. by destruct (Hf o Ho).
Qed.

Lemma samePayload_refl o : samePhaseObservationPayload o o = true.
Proof. unfold samePhaseObservationPayload. by rewrite !bool_decide_true. Qed.

Lemma ensure_insert id p (s : MemoryStore) : ensureProject id (<[id := p]> s) = p.
Proof. unfold ensureProject. by rewrite lookup_insert_eq. Qed.

(** ** Starting an execution *)

(** C5: the start condition the runtime computes from sorted slices and map
    iterations is exactly the specified one: the endpoint exists at this
    generation, is pending and enabled in an active task, its built-in
    predecessor, start edges and start blockers allow it, and the generation has no
    active lease, no run command that is still open (not completed, observed,
    quarantined or rejected), and no folded observation of its output, failure or stop
    that completed its command. *)
Theorem start_condition_exact (p : projectState) (r : PhaseEndpointRef) (gen : Z) (Hinv : project_inv p) :
  endpointRunnableLocked p r gen = true <->
  exists e, g_endpoints (pj_current p) !! r = Some e /\ ep_Generation e = gen /\
    ready (pj_current p) e /\ idle (pj_runtime p) r gen.
Proof. apply endpointRunnable_true; apply (gi_current _ (pi_graph _ Hinv)). Qed.

(** A successful claim is justified: the caller's revision is current, the
    endpoint satisfies the start condition, no lease existed for its generation,
    and afterwards exactly this generation has an active lease paired with the
    returned run command. *)
Theorem claim_justified (ctx : Context) (id : ProjectID) (rev : Revision) (e : PhaseEndpoint)
    (action cause : string) (now : Time) (s s1 : MemoryStore) (c : PhaseCommand) (Hr : reachable s)
    (Hrun : claimLeaseAndAppendCommand ctx id rev e action cause now s = (Ok (c, true), s1)) :
  let p := ensureProject id s in let rt1 := pj_runtime (ensureProject id s1) in
  let ref := leaseRefOf (ep_Ref e) (ep_Generation e) in
  rev = pj_latest p /\
  (exists e0, g_endpoints (pj_current p) !! ep_Ref e = Some e0 /\ ep_Generation e0 = ep_Generation e /\
     ready (pj_current p) e0 /\ idle (pj_runtime p) (ep_Ref e) (ep_Generation e)) /\
  rt_leases (pj_runtime p) !! ref = None /\
  (exists l, rt_leases rt1 !! ref = Some l /\ ls_State l = "active" /\ matches c l /\
     ls_ExpiresAt l = leaseDeadline now) /\
  rt_commands rt1 !! runCommandIDOf (ep_Ref e) (ep_Generation e) = Some (newCommandRecord c) /\
  cmd_Action c = action.
Proof.
  intros p rt1 ref. pose proof (reachable_project s id Hr) as Hp. fold p in Hp.
  destruct (claim_run _ _ _ _ _ _ _ _ _ _ Hp Hrun) as (p' & Hs1 & Hc). unfold rt1. rewrite Hs1, ensure_insert.
  apply claimLease_run in Hc as [[_ Hno]|(Hrev & Hready & Hnew & [= ->] & ->)]; [by destruct (Hno c)| |done].
  fold p in Hrev, Hready, Hnew. split_and!; [done|done| | |simpl; by rewrite lookup_insert_eq|done].
  - destruct Hready as (e0 & He0 & _ & Hrd & _).
    assert (ep_Ref e0 = ep_Ref e) as Hre by apply (co_endpoints _ (gg_coherent _ (gi_current _ (pi_graph _ Hp))) _ _ He0).
    eapply lease_free; [apply (pi_runtime _ Hp)|rewrite <- Hre; apply (rd_fixed _ _ Hrd)|done].
  - simpl. eexists. by rewrite lookup_insert_eq.
Qed.

(** An endpoint generation is executed at most once: after one successful
    claim, no claim of the same endpoint and generation ever succeeds again,
    whatever operations run in between. *)
Theorem claim_at_most_once (ctx ctx2 : Context) (id : ProjectID) (rev rev2 : Revision) (e e2 : PhaseEndpoint)
    (action action2 cause cause2 : string) (now now2 : Time) (s s1 s2 : MemoryStore) (c c2 : PhaseCommand)
    (Hr : reachable s) (Hcur : current_endpoint rev e (ensureProject id s))
    (Hact : action = CommandStart \/ action = CommandResume)
    (Hrun : claimLeaseAndAppendCommand ctx id rev e action cause now s = (Ok (c, true), s1))
    (Hsteps : rtc store_step s1 s2)
    (Href : ep_Ref e2 = ep_Ref e) (Hgen : ep_Generation e2 = ep_Generation e) :
  fst (claimLeaseAndAppendCommand ctx2 id rev2 e2 action2 cause2 now2 s2) <> Ok (c2, true).
Proof.
  pose proof (reachable_project s id Hr) as Hp.
  assert (reachable s1) as Hr1.
  { eapply rtc_r; [exact Hr|]. exists (OpClaim ctx id rev e action cause now). split; [done|]. simpl. by rewrite Hrun. }
  destruct (claim_run _ _ _ _ _ _ _ _ _ _ Hp Hrun) as (p' & Hs1 & Hc).
  apply claimLease_run in Hc as [[_ Hno]|(_ & _ & _ & _ & Hp')]; [by destruct (Hno c)| |done].
  destruct (steps_grow s1 s2 id p' Hsteps (reachable_inv s1 Hr1)) as (p2 & Hp2 & [_ Hcmds]).
  { rewrite Hs1. apply lookup_insert_eq. }
  assert (is_Some (rt_commands (pj_runtime p2) !! runCommandIDOf (ep_Ref e) (ep_Generation e))) as [c0 Hc0].
  { apply elem_of_dom, Hcmds. subst p'. apply elem_of_dom. eexists. apply lookup_insert_eq. }
  assert (reachable s2) as Hr2 by (unfold reachable in *; by etrans).
  pose proof (reachable_project s2 id Hr2) as Hpi. intros Hbad.
  destruct (claimLeaseAndAppendCommand ctx2 _ _ _ _ _ _ s2) as [r s3] eqn:Hrun2. simpl in Hbad. subst r.
  destruct (claim_run _ _ _ _ _ _ _ _ _ _ Hpi Hrun2) as (p3 & _ & Hc3).
  apply claimLease_run in Hc3 as [[_ Hno]|(_ & _ & Hnew & _)]; [by destruct (Hno c2)| |done].
  unfold ensureProject in Hnew. rewrite Hp2, Href, Hgen in Hnew. simpl in Hnew. congruence.
Qed.

(** ** Leases and commands of a reachable store *)

(** C4: executions are exclusive: in every reachable store an endpoint generation
    has at most one lease and at most one run command, every lease is paired with
    the run command of its generation, and command and lease agree on endpoint,
    generation, binding and lease reference. *)
Theorem execution_exclusive (s : MemoryStore) (id : ProjectID) (p : projectState)
    (Hr : reachable s) (Hp : s !! id = Some p) :
  let rt := pj_runtime p in
  (forall k1 k2 l1 l2, rt_leases rt !! k1 = Some l1 -> rt_leases rt !! k2 = Some l2 ->
     ls_Endpoint l1 = ls_Endpoint l2 -> ls_Generation l1 = ls_Generation l2 -> k1 = k2) /\
  (forall k1 k2 c1 c2, rt_commands rt !! k1 = Some c1 -> rt_commands rt !! k2 = Some c2 ->
     isRunCommand (cr_Command c1) = true -> isRunCommand (cr_Command c2) = true ->
     cmd_Endpoint (cr_Command c1) = cmd_Endpoint (cr_Command c2) ->
     cmd_Generation (cr_Command c1) = cmd_Generation (cr_Command c2) -> k1 = k2) /\
  (forall k l, rt_leases rt !! k = Some l -> exists c,
     rt_commands rt !! runCommandIDOf (ls_Endpoint l) (ls_Generation l) = Some c /\
     isRunCommand (cr_Command c) = true /\ matches (cr_Command c) l) /\
  (forall k c, rt_commands rt !! k = Some c -> exists l,
     rt_leases rt !! cmd_LeaseRef (cr_Command c) = Some l /\ matches (cr_Command c) l).
Proof.
  destruct (pi_runtime _ (reachable_inv s Hr id p Hp)) as [_ Hrn _ Hcmd Hls Hpair _]. split_and!.
  - intros k1 k2 l1 l2 H1 H2 He Hg. destruct (Hls _ _ H1) as (_ & -> & _), (Hls _ _ H2) as (_ & -> & _). congruence.
  - intros k1 k2 c1 c2 H1 H2 R1 R2 He Hg. rewrite (Hrn _ _ H1 R1), (Hrn _ _ H2 R2). congruence.
  - exact Hpair.
  - exact Hcmd.
Qed.

(** Lease and command identities are unambiguous: for the fixed phase names,
    different endpoints or generations never share a lease reference or a run
    command id, whatever characters the task ids contain. *)
Theorem identities_injective (r1 r2 : PhaseEndpointRef) (g1 g2 : Z)
    (H1 : ref_EndpointID r1 ∈ fixedEndpoints) (H2 : ref_EndpointID r2 ∈ fixedEndpoints)
    (Heq : leaseRefOf r1 g1 = leaseRefOf r2 g2 \/ runCommandIDOf r1 g1 = runCommandIDOf r2 g2) :
  r1 = r2 /\ g1 = g2.
Proof. destruct Heq; [by apply leaseRefOf_inj|by apply runCommandIDOf_inj]. Qed.

(** A lease never runs ahead of the graph: in every reachable store its
    endpoint exists, and the lease is for the endpoint's current generation with
    the current binding or for an earlier generation. *)
Theorem lease_not_ahead (s : MemoryStore) (id : ProjectID) (p : projectState) (k : LeaseID) (l : phaseLease)
    (Hr : reachable s) (Hp : s !! id = Some p) (Hl : rt_leases (pj_runtime p) !! k = Some l) :
  exists e, g_endpoints (pj_current p) !! ls_Endpoint l = Some e /\
    ((ls_Generation l < ep_Generation e)%Z \/
     ls_Generation l = ep_Generation e /\ ls_BindingRef l = ep_BindingRef e).
Proof. by destruct (ri_lease _ _ (pi_runtime _ (reachable_inv s Hr id p Hp)) _ _ Hl) as (_ & _ & _ & ?). Qed.

(** ** Observations *)

(** Recording an observation is idempotent and never overwrites: repeating
    one that is stored succeeds and changes nothing, one that reuses a stored id
    with another payload fails with an idempotency conflict and changes nothing. *)
Theorem observation_idempotent (p p1 : projectState) (o o2 : phaseObservation)
    (Hinv : project_inv p) (Hrun : append o p = (Ok tt, p1))
    (Hid : ob_ID o2 = ob_ID o) (Hmatch : append_guard o2 p1 = (Ok tt, p1)) :
  exists o', o' ∈ rt_observations (pj_runtime p1) /\ ob_ID o' = ob_ID o /\
    samePhaseObservationPayload o' o = true /\
    append o2 p1 = (if samePhaseObservationPayload o' o2 then Ok tt else Err IdempotencyConflict, p1).
Proof.
  pose proof (append_inv o p Hinv) as Hinv1. rewrite Hrun in Hinv1. simpl in Hinv1.
  assert (exists o', o' ∈ rt_observations (pj_runtime p1) /\ ob_ID o' = ob_ID o /\
    samePhaseObservationPayload o' o = true) as (o' & Hin & Hido & Hsame).
  { apply append_run in Hrun as [(e & He & _)|[_ Hrun]]; [done|].
    destruct (list_find _ _) as [[i x]|] eqn:Hf.
    - destruct Hrun as [-> Hres]. apply list_find_Some in Hf as (Hi & Hx & _). exists x.
      split; [by eapply list_elem_of_lookup_2|]. split; [done|]. by destruct (samePhaseObservationPayload x o).
    - destruct Hrun as [_ ->]. exists o. simpl. rewrite elem_of_app, list_elem_of_singleton.
      split_and!; [by right|done|apply samePayload_refl]. }
  exists o'. split_and!; [done..|].
  destruct (append o2 p1) as [r p2] eqn:Hrun2.
  assert (exists i, list_find (fun x => ob_ID x = ob_ID o2) (rt_observations (pj_runtime p1)) = Some (i, o')) as [i Hf].
  { destruct (recorded_same _ o' (ri_observations _ _ (pi_runtime _ Hinv1)) Hin) as [i Hf]. exists i.
    rewrite Hid, <- Hido. exact Hf. }
  unfold append in Hrun2. fold (append_guard o2) in Hrun2. unfold mbind, M_bind in Hrun2.
  rewrite Hmatch, get_runtime_run, Hf in Hrun2.
  destruct (samePhaseObservationPayload o' o2); by injection Hrun2 as <- <-.
Qed.

(** A folded terminal observation (output, failure or stop) closes its
    generation: the command is completed, its lease released, and the endpoint
    is not runnable at that generation afterwards. *)
Theorem terminal_observation_closes (p p' : projectState) (o : phaseObservation) (Hinv : project_inv p)
    (Ho : o ∈ rt_observations (pj_runtime p))
    (Hk : ob_Kind o ∈ [phaseObservationOutput; phaseObservationFailed; phaseObservationStopped])
    (Hrun : completeCommand o p = (Ok tt, p')) :
  (exists c, rt_commands (pj_runtime p') !! ob_CommandID o = Some c /\ cr_CompletedEventRef c = ob_ID o) /\
  (exists l, rt_leases (pj_runtime p') !! ob_LeaseRef o = Some l /\ ls_State l = "released") /\
  endpointRunnableLocked p' (ob_Endpoint o) (ob_Generation o) = false.
Proof.
  destruct (completeCommand_run _ _ _ Hrun) as (c & l & Hc & Hm & ->).
  apply matchingObservationLease_Ok in Hm as (Hl & Hid & Hn1 & Hn2 & Hn3). split_and!.
  - eexists. simpl. by rewrite lookup_insert_eq.
  - eexists. simpl. by rewrite lookup_insert_eq.
  - apply not_true_iff_false. intros Hrunnable.
    apply endpointRunnable_true in Hrunnable; [|apply (gi_current _ (pi_graph _ Hinv))..].
    destruct Hrunnable as (e & _ & _ & _ & [_ _ Hobs]). revert Hk.
    apply (Hobs (ob_set_Folded true o) (cr_set_Completed (ob_ID o) c) (ls_set_State "released" l));
      simpl; try done; [|by rewrite lookup_insert_eq..].
    apply folded_elem; [|done]. apply (ri_observations _ _ (pi_runtime _ Hinv)).
Qed.

(** Asking for the stop command of a lease is idempotent: a second request,
    at any revision, returns the same command and changes nothing, and offers it
    for delivery exactly while it is neither completed, quarantined nor marked as
    not executable. *)
Theorem stop_command_idempotent (rev1 rev2 : Revision) (l : phaseLease) (p p1 : projectState)
    (c : PhaseCommand) (offered : bool) (Hrun : getOrCreateStop rev1 l p = (Ok (c, offered), p1)) :
  exists record, rt_commands (pj_runtime p1) !! stopCommandIDOf (ls_LeaseRef l) = Some record /\
    cr_Command record = c /\
    offered = bool_decide (cr_CompletedEventRef record = "") && negb (cr_Quarantined record) &&
              negb (cr_NotExecutable record) /\
    getOrCreateStop rev2 l p1 = (Ok (c, offered), p1).
Proof.
  unfold getOrCreateStop, mbind, M_bind in *. rewrite get_runtime_run in *.
  destruct (rt_commands (pj_runtime p) !! _) as [record|] eqn:Hc.
  - injection Hrun as <- <- <-. exists record. rewrite Hc. done.
  - injection Hrun as <- <- <-. exists (newCommandRecord (stopCommandOf rev1 l)). simpl.
    rewrite !lookup_insert_eq. done.
Qed.
End with_runtime.

(** ** Witnesses *)

#[local] Existing Instance GoRuntime_list.

Lemma planned_project_inv : project_inv planned.
Proof. exact (reachable_project planned_store pid planned_reachable). Qed.

Lemma start_condition_exact_witness :
  endpointRunnableLocked planned (ref "t1" "plan") 1 = true /\ ready planned_graph t1_plan.
Proof.
  assert (endpointRunnableLocked planned (ref "t1" "plan") 1 = true) as Hr by (vm_compute; reflexivity).
  split; [exact Hr|].
  destruct (proj1 (start_condition_exact planned (ref "t1" "plan") 1 planned_project_inv) Hr)
    as (e & He & _ & Hready & _).
  assert (g_endpoints planned_graph !! ref "t1" "plan" = Some t1_plan) as Ht by (vm_compute; reflexivity).
  unfold planned_graph in *. rewrite Ht in He. injection He as <-. exact Hready.
Defined.

Definition claim_t1 : M error MemoryStore (PhaseCommand * bool) :=
  claimLeaseAndAppendCommand None pid 2 t1_plan CommandStart "revision://2" 100.

Lemma claim_t1_run : claim_t1 planned_store = (Ok (t1_command, true), claimed_store).
Proof. vm_compute. reflexivity. Qed.

Lemma claim_justified_witness :
  exists l, rt_leases (pj_runtime claimed) !! "lease:t1:plan:1" = Some l /\ ls_State l = "active" /\
    matches t1_command l /\ ls_ExpiresAt l = leaseDeadline 100.
Proof.
  exact (proj1 (proj2 (proj2 (proj2 (claim_justified None pid 2 t1_plan CommandStart "revision://2" 100
    planned_store claimed_store t1_command planned_reachable claim_t1_run))))).
Defined.

Lemma claim_at_most_once_witness :
  fst (claimLeaseAndAppendCommand None pid 2 t1_plan CommandResume "again" 200 completed_store)
    <> Ok (t1_command, true).
Proof.
  apply (claim_at_most_once None None pid 2 2 t1_plan t1_plan CommandStart CommandResume "revision://2" "again" 100 200
    planned_store claimed_store completed_store t1_command t1_command planned_reachable).
  - intros _. vm_compute. reflexivity.
  - left. reflexivity.
  - exact claim_t1_run.
  - eapply rtc_l;
      [exact (simple_step (OpRecordPhase None pid t1_command phaseObservationOutput "" false) claimed_store I)|].
    apply rtc_once. exact (simple_step (OpComplete None pid t1_output) observed_store I).
  - reflexivity.
  - reflexivity.
Defined.

Lemma claimed_lookup : claimed_store !! pid = Some claimed.
Proof. vm_compute. reflexivity. Qed.

Lemma execution_exclusive_witness :
  exists c l, rt_leases (pj_runtime claimed) !! "lease:t1:plan:1" = Some l /\
    rt_commands (pj_runtime claimed) !! "cmd:run:t1:plan:1" = Some c /\
    isRunCommand (cr_Command c) = true /\ matches (cr_Command c) l.
Proof.
  destruct (execution_exclusive claimed_store pid claimed claimed_reachable claimed_lookup) as (_ & _ & Hpair & _).
  set (l := mkLease "lease:t1:plan:1" (ref "t1" "plan") 1 "binding:t1plan" "active" (leaseDeadline 100) false).
  assert (rt_leases (pj_runtime claimed) !! "lease:t1:plan:1" = Some l) as Hl by (vm_compute; reflexivity).
  destruct (Hpair "lease:t1:plan:1" l Hl) as (c & Hc & Hrun & Hm).
  exists c, l. exact (conj Hl (conj Hc (conj Hrun Hm))).
Defined.

(** A task id that imitates the separators of a key. *)
Lemma identities_injective_witness :
  leaseRefOf (ref "a:plan:1" "plan") 2 <> leaseRefOf (ref "a" "plan") 12.
Proof.
  refine (fun Heq => _).
  destruct (identities_injective (ref "a:plan:1" "plan") (ref "a" "plan") 2 12) as [H1 H2].
  - left.
  - left.
  - left. exact Heq.
  - discriminate H2.
Defined.

Lemma lease_not_ahead_witness :
  exists e, g_endpoints (pj_current claimed) !! ref "t1" "plan" = Some e /\
    ((1 < ep_Generation e)%Z \/ 1%Z = ep_Generation e /\ "binding:t1plan" = ep_BindingRef e).
Proof.
  apply (lease_not_ahead claimed_store pid claimed "lease:t1:plan:1"
    (mkLease "lease:t1:plan:1" (ref "t1" "plan") 1 "binding:t1plan" "active" (leaseDeadline 100) false)
    claimed_reachable claimed_lookup).
  vm_compute. reflexivity.
Defined.

Definition observed : projectState := ensureProject pid observed_store.
(** The recorded observation with another checkpoint. *)
Definition t1_other : phaseObservation :=
  mkObservation (ob_ID t1_output) phaseObservationOutput "cmd:run:t1:plan:1" (ref "t1" "plan") 1 "binding:t1plan"
    "lease:t1:plan:1" "checkpoint" false "" zeroRef false.

Lemma observation_idempotent_witness : append t1_other observed = (Err IdempotencyConflict, observed).
Proof.
  destruct (observation_idempotent claimed observed t1_output t1_other) as (o' & _ & _ & Hs & Happ).
  - exact (reachable_project claimed_store pid claimed_reachable).
  - vm_compute. reflexivity.
  - reflexivity.
  - vm_compute. reflexivity.
  - rewrite Happ. unfold samePhaseObservationPayload in *. bool_inv. simpl in *.
    rewrite (bool_decide_false (ob_CheckpointRef o' = "checkpoint")) by congruence.
    by rewrite !andb_false_r.
Defined.

Lemma terminal_observation_closes_witness :
  endpointRunnableLocked (ensureProject pid completed_store) (ref "t1" "plan") 1 = false.
Proof.
  apply (terminal_observation_closes observed (ensureProject pid completed_store) t1_output).
  - apply (reachable_project observed_store pid). eapply rtc_r; [apply claimed_reachable|].
    exact (simple_step (OpRecordPhase None pid t1_command phaseObservationOutput "" false) claimed_store I).
  - apply (list_elem_of_lookup_2 _ 0). vm_compute. reflexivity.
  - left.
  - vm_compute. reflexivity.
Defined.

Definition t1_lease : phaseLease :=
  mkLease "lease:t1:plan:1" (ref "t1" "plan") 1 "binding:t1plan" "active" (leaseDeadline 100) false.
Definition stopped : projectState := snd (getOrCreateStop 2 t1_lease claimed).

Lemma stop_command_idempotent_witness :
  exists c, fst (getOrCreateStop 7 t1_lease stopped) = Ok (c, true).
Proof.
  destruct (stop_command_idempotent 2 7 t1_lease claimed stopped (stopCommandOf 2 t1_lease) true) as (r & _ & _ & _ & H).
  - vm_compute. reflexivity.
  - exists (stopCommandOf 2 t1_lease). rewrite H. reflexivity.
Defined.
