(* ===== verification/GraphRuntime.v ===== *)
(** * The graph runtime

    [internal/coordination/runtime.go] and [runtime_port.go]: one
    reconciliation of a project.  The phase controller, the selection strategy
    and the scheduling state are interfaces of the source and classes here;
    [Apply] may itself change the store, but only through store operations.
    The clock is read at the three loads ([now_load], [now_fold],
    [now_repair]) and at each claim ([now_claim]). *)

From stdpp Require Import base tactics option list strings gmap sorting pretty relations.
From Stdlib Require Import ZArith.
From S2P Require Import Prelude GoLib GoStrings Kernel CoordTypes Acyclic Validation GraphSpec Pending Transition.
From S2P Require Import TransitionSpec MemoryStore StoreInv RuntimeView RuntimeSpec CommandStore CommandInv.
From S2P Require Import StoreReach.

Record RuntimeCapacity := mkCapacity {
  cap_Desired : Z;
  cap_Healthy : Z;
  cap_Active : Z;
  cap_Revision : Z;
}.

Definition cap_set_Active (n : Z) (c : RuntimeCapacity) : RuntimeCapacity :=
  mkCapacity (cap_Desired c) (cap_Healthy c) n (cap_Revision c).

Definition Available (c : RuntimeCapacity) : Z :=
  let limit := if (cap_Healthy c <? cap_Desired c)%Z then cap_Healthy c else cap_Desired c in
  let available := int_wrap (limit - cap_Active c) in
  if (available <? 0)%Z then 0%Z else available.

Record RuntimeCandidate := mkCandidate {
  cand_Endpoint : PhaseEndpoint;
  cand_Runnable : bool;
  cand_CapacityCost : Z;
  cand_CapabilityMatched : bool;
  cand_LatestMainMergeCandidate : bool;
  cand_UnblocksDependents : bool;
  cand_WriteConflictRisk : Z;
  cand_Exploratory : bool;
}.

(** The budget record is opaque to the runtime: it is handed from the
    scheduling state to the selection. *)
Record RuntimeSelectionRequest (Budget : Type) := mkSelectionRequest {
  rq_Candidates : list RuntimeCandidate;
  rq_Capacity : RuntimeCapacity;
  rq_Budget : Budget;
}.
Arguments mkSelectionRequest {Budget}.
Arguments rq_Candidates {Budget}.
Arguments rq_Capacity {Budget}.
Arguments rq_Budget {Budget}.

Record RuntimeSchedulingState (Budget : Type) := mkSchedulingState {
  ss_Capacity : RuntimeCapacity;
  ss_Budget : Budget;
}.
Arguments mkSchedulingState {Budget}.
Arguments ss_Capacity {Budget}.
Arguments ss_Budget {Budget}.

(** ** Interfaces *)

(** A selection returns, and picks among the candidates it is offered. *)
Class RuntimeSelectionRuntime (Budget : Type) := {
  SelectRunnable : RuntimeSelectionRequest Budget -> res (list PhaseEndpoint);
  select_total : forall req, SelectRunnable req <> Err Diverged;
  select_sound : forall req selected e, SelectRunnable req = Ok selected -> e ∈ selected ->
    e ∈ (cand_Endpoint <$> rq_Candidates req);
}.

Section ctrl.
Context `{GR : GoRuntime}.

(** A phase controller reports a verdict on a command; whatever it does to the
    store, it does by store operations. *)
Class PhaseController := {
  Apply : PhaseCommand -> M error MemoryStore unit;
  Apply_steps : forall cmd s, rtc store_step s (snd (Apply cmd s));
}.
End ctrl.

(** ** Pure helpers *)

Definition selectRuntimeEndpoints (candidates : list PhaseEndpoint) (capacity : Z) : list PhaseEndpoint :=
  if (capacity <=? 0)%Z || bool_decide (candidates = []) then []
  else if (Z.of_nat (length candidates) <=? capacity)%Z then candidates
  else take (Z.to_nat capacity) candidates.

Definition runtimeCandidates (endpoints : list PhaseEndpoint) : list RuntimeCandidate :=
  (fun endpoint => mkCandidate endpoint true 1 true false false 0 false) <$> endpoints.

Definition runtimeCandidateEndpoints (candidates : list RuntimeCandidate) : list PhaseEndpoint :=
  cand_Endpoint <$> filter (fun c => cand_Runnable c = true) candidates.

Definition removeSelectedCandidates (candidates : list RuntimeCandidate)
    (selected : gset PhaseEndpointRef) : list RuntimeCandidate :=
  filter (fun c => ep_Ref (cand_Endpoint c) ∉ selected) candidates.

Fixpoint unique_from (seen : gset string) (commands : list PhaseCommand) : list PhaseCommand :=
  match commands with
  | [] => []
  | command :: commands' =>
    if bool_decide (cmd_ID command ∈ seen) then unique_from seen commands'
    else command :: unique_from ({[cmd_ID command]} ∪ seen) commands'
  end.

Definition uniqueByCommandID (commands : list PhaseCommand) : list PhaseCommand := unique_from ∅ commands.

(** [fixedCapacitySelectionRuntime]. *)
Definition fixedSelect {Budget} (request : RuntimeSelectionRequest Budget) : res (list PhaseEndpoint) :=
  Ok (selectRuntimeEndpoints (runtimeCandidateEndpoints (rq_Candidates request)) (Available (rq_Capacity request))).

Definition mustStop (view : runtimeView) (lease : phaseLease) : bool :=
  match view_endpoint view (ls_Endpoint lease) with
  | None => true
  | Some endpoint =>
    match view_task view (ref_TaskID (ls_Endpoint lease)) with
    | None => true
    | Some task =>
      bool_decide (task_Outcome task <> TaskActive) || bool_decide (ep_RunPolicy endpoint = RunHeld) ||
      bool_decide (ep_Generation endpoint <> ls_Generation lease) ||
      bool_decide (ep_BindingRef endpoint <> ls_BindingRef lease) || leaseExpired lease
    end
  end.

Definition runnable_less (a b : PhaseEndpoint) : bool :=
  let left := ep_Ref a in
  let right := ep_Ref b in
  if bool_decide (phaseOrder (ref_EndpointID left) = phaseOrder (ref_EndpointID right))
  then string_lt (ref_TaskID left) (ref_TaskID right)
  else (phaseOrder (ref_EndpointID right) <? phaseOrder (ref_EndpointID left))%Z.

Definition staleCheckpoint (message : string) : error := kerr CodeStaleCheckpoint message true.

Section with_runtime.
Context `{GR : GoRuntime}.

Definition graphRunnable (view : runtimeView) : list PhaseEndpoint :=
  sort_slice runnable_less (filter (fun e => isRunnable view e = true) (v_endpoints view)).

Section reconcile.
Context (ctx : Context) (projectID : ProjectID).
Context {Budget : Type} (selection : RuntimeSelectionRuntime Budget).
Context (controller : option PhaseController).
Context (schedulingStateProvider : res (RuntimeSchedulingState Budget)).
Context (now_load now_fold now_repair : Time) (now_claim : PhaseEndpoint -> Time).

Definition claimRun (view : runtimeView) (endpoint : PhaseEndpoint) : M error MemoryStore (PhaseCommand * bool) :=
  let binding := view_binding view (ep_BindingRef endpoint) in
  if bi_NonResumable binding then throw (staleCheckpoint "binding is non-resumable")
  else
    action ← (if bool_decide (bi_CheckpointRef binding <> "") then
                if negb (checkpointCompatible (ep_BindingRef endpoint) binding)
                then throw (staleCheckpoint "checkpoint is not compatible with binding")
                else mret CommandResume
              else mret CommandStart);
    claimLeaseAndAppendCommand ctx projectID (v_revision view) endpoint action (revisionRef view)
      (now_claim endpoint).

Definition deliver (cmd : PhaseCommand) : M error MemoryStore unit :=
  match controller with
  | None => scheduleRetry ctx projectID (cmd_ID cmd)
  | Some pc => fun s =>
    let '(r, s) := Apply cmd s in
    match r with
    | Ok _ => markCommandAccepted ctx projectID (cmd_ID cmd) s
    | Err err =>
      if IsCode (Some err) CodeExecutorUnavailable then scheduleRetry ctx projectID (cmd_ID cmd) s
      else if IsCode (Some err) CodeStaleCommand || IsCode (Some err) CodeLeaseConflict
      then rejectCommand ctx projectID cmd err s
      else if IsCode (Some err) CodeStaleCheckpoint then rejectCommand ctx projectID cmd err s
      else if IsCode (Some err) CodeCommandConflict then quarantineCommand ctx projectID (cmd_ID cmd) s
      else scheduleRetry ctx projectID (cmd_ID cmd) s
    end
  end.

Definition foldEvent (event : phaseObservation) : M error MemoryStore unit :=
  if bool_decide (ob_Kind event = "PhaseInvocationStarted") then markCommandObserved ctx projectID event
  else if one_of (ob_Kind event) ["PhaseOutputSubmitted"; "PhaseInvocationFailed"]
  then completeCommandAndReleaseLease ctx projectID event
  else if bool_decide (ob_Kind event = "PhaseInvocationStopped") then
    _ ← lift (fail_if (bool_decide (ob_CheckpointRef event = "") && negb (ob_NonResumable event))
          (IncompleteStopEvidence "stopped observation requires checkpoint_ref or non_resumable"));
    completeCommandAndReleaseLease ctx projectID event
  else mret tt.

Definition foldObservations (view : runtimeView) : M error MemoryStore runtimeView :=
  _ ← eachM foldEvent (unfoldedObservations view);
  loadRuntimeView ctx projectID now_fold.

Definition repairLease (view : runtimeView) (lease : phaseLease) : M error MemoryStore runtimeView :=
  if hasCommandForLease view (ls_LeaseRef lease) then mret view
  else if hasRemoteObservation view lease then
    p ← getOrCreateStopCommand ctx projectID (v_revision view) lease;
    mret (v_set_commands (<[cmd_ID p.1 := newCommandRecord p.1]> (v_commands view)) view)
  else
    _ ← releaseOrphanLease ctx projectID (ls_LeaseRef lease);
    mret view.

Definition repairCommand (view : runtimeView) (entry : string * commandRecord) : M error MemoryStore runtimeView :=
  let '(id, record) := entry in
  if bool_decide (cmd_Action (cr_Command record) = CommandStop) ||
     bool_decide (cr_CompletedEventRef record <> "") || cr_Quarantined record || cr_NotExecutable record
  then mret view
  else if negb (hasMatchingActiveLease view (cr_Command record)) then
    let record := mkCommandRecord (cr_Command record) (cr_Accepted record) (cr_ObservedEventRef record)
                    (cr_CompletedEventRef record) (cr_RetryScheduled record) (cr_Quarantined record) true in
    let view := v_set_commands (<[id := record]> (v_commands view)) view in
    _ ← quarantineCommand ctx projectID id;
    mret view
  else mret view.

Definition repairDecisionPairs (view : runtimeView) : M error MemoryStore runtimeView :=
  view ← foldMM repairLease view (activeLeases view);
  _ ← foldMM repairCommand view (range_map (v_commands view));
  loadRuntimeView ctx projectID now_repair.

Definition schedulingState (view : runtimeView) : res (RuntimeSchedulingState Budget) :=
  state ← schedulingStateProvider;
  Ok (mkSchedulingState (cap_set_Active (Z.of_nat (length (activeLeases view))) (ss_Capacity state))
        (ss_Budget state)).

(** The loop over the active leases: stop commands to deliver and the view
    with the suppressed runs. *)
Definition stopLease (acc : runtimeView * list PhaseCommand) (lease : phaseLease) :
    M error MemoryStore (runtimeView * list PhaseCommand) :=
  let '(view, out) := acc in
  if negb (mustStop view lease) then mret acc
  else
    p ← getOrCreateStopCommand ctx projectID (v_revision view) lease;
    let view := suppressRun (ls_Endpoint lease) (ls_Generation lease) view in
    mret (view, if (p.2 : bool) then out ++ [p.1] else out).

Definition redelivered (view : runtimeView) : list PhaseCommand :=
  filter (fun cmd => ~ (cmd_Action cmd <> CommandStop /\
    runSuppressed view (cmd_Endpoint cmd) (cmd_Generation cmd) = true)) (pendingCommands view).

(** One pass over the selected endpoints: the refs seen, whether any claim
    succeeded, and the commands to deliver. *)
Definition claimSelected (view : runtimeView)
    (acc : gset PhaseEndpointRef * bool * list PhaseCommand) (endpoint : PhaseEndpoint) :
    M error MemoryStore (gset PhaseEndpointRef * bool * list PhaseCommand) :=
  let '(refs, claimedAny, out) := acc in
  let refs := {[ep_Ref endpoint]} ∪ refs in
  fun s => match claimRun view endpoint s with
  | (Err err, s) =>
    if IsCode (Some err) CodeStaleCheckpoint then
      (_ ← recordEndpointDispatchRejection ctx projectID (ep_Ref endpoint) (ep_Generation endpoint)
             (ep_BindingRef endpoint) err;
       mret (refs, claimedAny, out)) s
    else (Err err, s)
  | (Ok (cmd, claimed), s) =>
    (Ok (refs, claimed || claimedAny, if (claimed : bool) then out ++ [cmd] else out), s)
  end.

(** [for len(candidates) > 0 { ... }]: each round that claims nothing removes
    the selected candidates. *)
Fixpoint selectLoop (fuel : nat) (view : runtimeView) (state : RuntimeSchedulingState Budget)
    (candidates : list RuntimeCandidate) (out : list PhaseCommand) : M error MemoryStore (list PhaseCommand) :=
  if bool_decide (candidates = []) then mret out
  else match fuel with
  | O => throw Diverged
  | S fuel =>
    selected ← lift (SelectRunnable (mkSelectionRequest candidates (ss_Capacity state) (ss_Budget state)));
    if bool_decide (selected = []) then mret out
    else
      acc ← foldMM (claimSelected view) (∅, false, out) selected;
      let '(selectedRefs, claimedAny, out) := acc in
      if (claimedAny : bool) then mret out
      else selectLoop fuel view state (removeSelectedCandidates candidates selectedRefs) out
  end.

(** Everything [reconcile] does before it delivers: the commands to deliver. *)
Definition planDeliveries : M error MemoryStore (list PhaseCommand) :=
  view ← loadRuntimeView ctx projectID now_load;
  view ← foldObservations view;
  view ← repairDecisionPairs view;
  schedulingState ← lift (schedulingState view);
  acc ← foldMM stopLease (view, []) (activeLeases view);
  let '(view, out) := acc in
  let out := out ++ redelivered view in
  let candidates := runtimeCandidates (graphRunnable view) in
  selectLoop (length candidates) view schedulingState candidates out.

Definition reconcile : M error MemoryStore unit :=
  out ← planDeliveries;
  eachM deliver (uniqueByCommandID out).

End reconcile.
End with_runtime.
