(* ===== verification/GraphRuntimeSpec.v ===== *)
(** * Reconciliation is a sequence of store operations

    [moves] is a small program logic for computations on the store: from a
    store that satisfies the precondition the computation takes store steps that
    keep the graph of the project fixed, and it ends with the postcondition or
    with an error of the code (never by running out of fuel). *)

From stdpp Require Import base tactics option list strings gmap sorting pretty relations.
From Stdlib Require Import ZArith.
From S2P Require Import Prelude GoLib GoStrings Kernel CoordTypes Acyclic Validation GraphSpec Pending Transition.
From S2P Require Import TransitionSpec MemoryStore StoreInv RuntimeView RuntimeSpec CommandStore CommandInv.
From S2P Require Import StoreReach GraphRuntime.

(** Commands and leases keep their identity. *)
Record rt_evolves (rt rt' : memoryRuntimeState) : Prop := {
  ev_leases : forall id l, rt_leases rt !! id = Some l ->
    exists l', rt_leases rt' !! id = Some l' /\ same_lease l l';
  ev_commands : forall id c, rt_commands rt !! id = Some c ->
    exists c', rt_commands rt' !! id = Some c' /\ cr_Command c' = cr_Command c;
}.

(** The graph is untouched as well. *)
Record evolves (p p' : projectState) : Prop := {
  ev_latest : pj_latest p' = pj_latest p;
  ev_current : pj_current p' = pj_current p;
  ev_runtime : rt_evolves (pj_runtime p) (pj_runtime p');
}.

#[global] Instance rt_evolves_preorder : PreOrder rt_evolves.
Proof.
  split.
  - intros rt. split; intros ? x ?; by exists x.
  - intros rt1 rt2 rt3 [A3 A4] [B3 B4]. split.
    + intros id l (l' & Hl' & Hs)%A3. destruct (B3 _ _ Hl') as (l'' & ? & Hs'). exists l''. split; [done|].
      unfold same_lease in *. naive_solver congruence.
    + intros id c (c' & Hc' & Hs)%A4. destruct (B4 _ _ Hc') as (c'' & ? & ?). exists c''. split; congruence.
Qed.

#[global] Instance evolves_preorder : PreOrder evolves.
Proof.
  split; [by intros p|]. intros p1 p2 p3 [A1 A2 A3] [B1 B2 B3]. split; [congruence..|by etrans].
Qed.

Lemma evolves_set_runtime p rt : rt_evolves (pj_runtime p) rt -> evolves p (pj_set_runtime rt p).
Proof. by split. Qed.

Lemma evolves_set_command rt id c c' :
  rt_commands rt !! id = Some c -> cr_Command c' = cr_Command c -> rt_evolves rt (rt_set_command id c' rt).
Proof.
  intros Hc Heq. split; simpl; try done; [intros ? l ?; by exists l|].
  intros x d Hd. destruct (decide (id = x)) as [->|Hne].
  - exists c'. rewrite lookup_insert_eq. split; congruence.
  - exists d. by rewrite lookup_insert_ne.
Qed.

Lemma evolves_new_command rt id c :
  rt_commands rt !! id = None -> rt_evolves rt (rt_set_command id c rt).
Proof.
  intros Hc. split; simpl; try done; [intros ? l ?; by exists l|].
  intros x d Hd. exists d. rewrite lookup_insert_ne by congruence. done.
Qed.

Lemma evolves_set_lease rt id l l' :
  rt_leases rt !! id = Some l -> same_lease l l' -> rt_evolves rt (rt_set_lease id l' rt).
Proof.
  intros Hl Heq. split; simpl; try done; [|intros ? c ?; by exists c].
  intros x d Hd. destruct (decide (id = x)) as [->|Hne].
  - exists l'. rewrite lookup_insert_eq. simplify_eq. done.
  - exists d. by rewrite lookup_insert_ne.
Qed.

Lemma evolves_observations rt os : rt_evolves rt (rt_set_observations os rt).
Proof. split; simpl; intros ? x ?; by exists x. Qed.

(** No lease becomes active. *)
Definition active_sub (p p' : projectState) : Prop :=
  forall id l', rt_leases (pj_runtime p') !! id = Some l' -> ls_State l' = "active" ->
    exists l, rt_leases (pj_runtime p) !! id = Some l /\ ls_State l = "active".

#[global] Instance active_sub_preorder : PreOrder active_sub.
Proof.
  split; [by intros p id l ? ?; eauto|]. intros p1 p2 p3 H12 H23 id l Hl Ha.
  destruct (H23 id l Hl Ha) as (l' & Hl' & Ha'). by eapply H12.
Qed.

Lemma active_sub_same p p' : rt_leases (pj_runtime p') = rt_leases (pj_runtime p) -> active_sub p p'.
Proof. intros Heq id l. rewrite Heq. eauto. Qed.

(** The leases that count against the capacity. *)
Definition active_leases (p : projectState) : gmap LeaseID phaseLease :=
  filter (fun kv : LeaseID * phaseLease => ls_State kv.2 = "active") (rt_leases (pj_runtime p)).

Definition active_count (p : projectState) : nat := size (active_leases p).

Lemma active_sub_count p p' : active_sub p p' -> active_count p' <= active_count p.
Proof.
  intros Hsub. unfold active_count, active_leases. rewrite <- !size_dom.
  apply subseteq_size. intros id. rewrite !elem_of_dom. intros [l Hl].
  apply map_lookup_filter_Some in Hl as [Hl Ha].
  destruct (Hsub id l Hl Ha) as (l0 & Hl0 & Ha0). exists l0. by apply map_lookup_filter_Some.
Qed.

(** ** Each runtime operation of a project *)

Section project_ops.
Context `{GR : GoRuntime}.

Lemma markObserved_evolves o p : evolves p (snd (markObserved o p)).
Proof.
  unfold markObserved, mbind, M_bind. rewrite command_of_run.
  destruct (rt_commands _ !! _) as [c|] eqn:Hc; [|done]. rewrite get_runtime_run. unfold lift.
  destruct (matchingObservationLease _ _ _) as [l|]; [|done].
  destruct (fail_if _ _); [|done]. destruct (fail_if _ _); [|done].
  apply evolves_set_runtime. etrans; [|apply evolves_observations]. by eapply evolves_set_command.
Qed.

Lemma completeCommand_evolves o p : evolves p (snd (completeCommand o p)).
Proof.
  unfold completeCommand, mbind, M_bind. rewrite command_of_run.
  destruct (rt_commands _ !! _) as [c|] eqn:Hc; [|done]. rewrite get_runtime_run. unfold lift.
  destruct (matchingObservationLease _ _ _) as [l|] eqn:Hl; [|done].
  destruct (if bool_decide _ then _ else _); [|done].
  apply matchingObservationLease_Ok in Hl as [Hl _].
  apply evolves_set_runtime. etrans; [|apply evolves_observations].
  etrans; [by apply (evolves_set_command _ (ob_CommandID o) c (cr_set_Completed (ob_ID o) c))|].
  by eapply evolves_set_lease.
Qed.

Lemma completeCommand_calm o p : active_sub p (snd (completeCommand o p)).
Proof.
  unfold completeCommand, mbind, M_bind. rewrite command_of_run.
  destruct (rt_commands _ !! _) as [c|] eqn:Hc; [|done]. rewrite get_runtime_run. unfold lift.
  destruct (matchingObservationLease _ _ _) as [l|] eqn:Hl; [|done].
  destruct (if bool_decide _ then _ else _); [|done]. intros id l' Hl' Ha. simpl in Hl'.
  apply lookup_insert_Some in Hl' as [[_ <-]|[_ ?]]; [done|by eauto].
Qed.

Lemma markObserved_calm o p : active_sub p (snd (markObserved o p)).
Proof.
  unfold markObserved, mbind, M_bind. rewrite command_of_run.
  destruct (rt_commands _ !! _) as [c|]; [|done]. rewrite get_runtime_run. unfold lift.
  destruct (matchingObservationLease _ _ _); [|done].
  destruct (fail_if _ _); [|done]. destruct (fail_if _ _); [|done]. by apply active_sub_same.
Qed.

Lemma release_calm id p : active_sub p (snd (change_lease id (ls_set_State "released") p)).
Proof.
  unfold change_lease, mbind, M_bind. rewrite get_runtime_run.
  destruct (rt_leases _ !! _) as [l|]; [|done]. intros x l' Hl' Ha. simpl in Hl'.
  apply lookup_insert_Some in Hl' as [[_ <-]|[_ ?]]; [done|by eauto].
Qed.

Lemma change_command_leases id f p :
  rt_leases (pj_runtime (snd (change_command id f p))) = rt_leases (pj_runtime p).
Proof. unfold change_command, mbind, M_bind. rewrite get_runtime_run. by destruct (rt_commands _ !! _). Qed.

Lemma getOrCreateStop_leases rev l p :
  rt_leases (pj_runtime (snd (getOrCreateStop rev l p))) = rt_leases (pj_runtime p).
Proof. unfold getOrCreateStop, mbind, M_bind. rewrite get_runtime_run. by destruct (rt_commands _ !! _). Qed.

Lemma recordRejection_leases r g b err p :
  rt_leases (pj_runtime (snd (recordRejection r g b err p))) = rt_leases (pj_runtime p).
Proof. unfold recordRejection, mbind, M_bind. rewrite get_runtime_run. by destruct (existsb _ _). Qed.

Lemma change_lease_evolves id f p : (forall l, same_lease l (f l)) -> evolves p (snd (change_lease id f p)).
Proof.
  intros Hf. unfold change_lease, mbind, M_bind. rewrite get_runtime_run.
  destruct (rt_leases _ !! _) as [l|] eqn:Hl; [|done]. apply evolves_set_runtime. by eapply evolves_set_lease.
Qed.

Lemma change_command_evolves id f p :
  (forall c, cr_Command (f c) = cr_Command c) -> evolves p (snd (change_command id f p)).
Proof.
  intros Hf. unfold change_command, mbind, M_bind. rewrite get_runtime_run.
  destruct (rt_commands _ !! _) as [c|] eqn:Hc; [|done]. apply evolves_set_runtime. by eapply evolves_set_command.
Qed.

Lemma getOrCreateStop_evolves rev l p : evolves p (snd (getOrCreateStop rev l p)).
Proof.
  unfold getOrCreateStop, mbind, M_bind. rewrite get_runtime_run.
  destruct (rt_commands _ !! _) as [c|] eqn:Hc; [done|]. apply evolves_set_runtime. by apply evolves_new_command.
Qed.

Lemma claimLease_evolves rev e action cause now p :
  project_inv p -> evolves p (snd (claimLease rev e action cause now p)).
Proof.
  intros Hp. destruct (claimLease rev e action cause now p) as [r p'] eqn:Hrun. simpl.
  apply claimLease_run in Hrun as [[-> _]|(_ & (e0 & He0 & Hg & Hready & Hidle) & Hnew & _ & ->)];
    [done| |done].
  apply evolves_set_runtime. split; simpl.
  - intros id l Hl. exists l. rewrite lookup_insert_ne; [done|]. intros <-.
    rewrite (lease_free _ _ _ _ (pi_runtime _ Hp)) in Hl; [done| |done].
    rewrite <- (co_endpoints _ (gg_coherent _ (gi_current _ (pi_graph _ Hp))) _ _ He0). apply (rd_fixed _ _ Hready).
  - intros id c Hc. exists c. rewrite lookup_insert_ne; [done|congruence].
Qed.

Lemma recordRejection_evolves r g b err p : evolves p (snd (recordRejection r g b err p)).
Proof.
  unfold recordRejection, mbind, M_bind. rewrite get_runtime_run.
  destruct (existsb _ _); [done|]. apply evolves_set_runtime, evolves_observations.
Qed.

End project_ops.

(** ** The logic *)

Section logic.
Context `{GR : GoRuntime} (projectID : ProjectID).

Definition moved (s s' : MemoryStore) : Prop :=
  rtc store_step s s' /\ evolves (ensureProject projectID s) (ensureProject projectID s').

Definition moves {A} (P : MemoryStore -> Prop) (m : M error MemoryStore A) (Q : A -> MemoryStore -> Prop) : Prop :=
  forall s, P s -> moved s (snd (m s)) /\
    match fst (m s) with Ok a => Q a (snd (m s)) | Err e => e <> Diverged end.

Definition stable (P : MemoryStore -> Prop) : Prop := forall s s', moved s s' -> P s -> P s'.

Lemma moved_refl s : moved s s.
Proof. by split. Qed.

Lemma moved_trans s1 s2 s3 : moved s1 s2 -> moved s2 s3 -> moved s1 s3.
Proof. intros [? ?] [? ?]. split; by etrans. Qed.

Lemma moves_ret {A} (a : A) (P : MemoryStore -> Prop) (Q : A -> MemoryStore -> Prop) :
  (forall s, P s -> Q a s) -> moves P (mret a) Q.
Proof. intros H s Hs. split; [apply moved_refl|]. by apply H. Qed.

Lemma moves_lift {A} (r : res A) (P : MemoryStore -> Prop) (Q : A -> MemoryStore -> Prop) :
  r <> Err Diverged -> (forall a s, r = Ok a -> P s -> Q a s) -> moves P (lift r) Q.
Proof.
  intros Hd H s Hs. split; [apply moved_refl|]. simpl. destruct r; [by apply H|congruence].
Qed.

Lemma moves_bind {A B} (P : MemoryStore -> Prop) (m : M error MemoryStore A) (k : A -> M error MemoryStore B) Q R :
  moves P m Q -> (forall a, moves (Q a) (k a) R) -> moves P (m ≫= k) R.
Proof.
  intros Hm Hk s Hs. destruct (Hm s Hs) as [Hmv Hq]. unfold mbind, M_bind.
  destruct (m s) as [[a|e] s1]; simpl in *; [|done].
  destruct (Hk a s1 Hq) as [Hmv' Hr]. split; [by eapply moved_trans|done].
Qed.

Lemma moves_weaken {A} (P P' : MemoryStore -> Prop) (m : M error MemoryStore A) (Q Q' : A -> MemoryStore -> Prop) :
  (forall s, P' s -> P s) -> (forall a s, Q a s -> Q' a s) -> moves P m Q -> moves P' m Q'.
Proof.
  intros HP HQ Hm s Hs. destruct (Hm s (HP s Hs)) as [? Hq]. split; [done|]. destruct (fst (m s)); auto.
Qed.

Lemma moves_pure {A} (phi : Prop) (P : MemoryStore -> Prop) (m : M error MemoryStore A) Q :
  (phi -> moves P m Q) -> moves (fun s => phi /\ P s) m Q.
Proof. intros Hm s [Hphi Hs]. by apply Hm. Qed.

Lemma moves_frame {A} F (P : MemoryStore -> Prop) (m : M error MemoryStore A) (Q : A -> MemoryStore -> Prop) :
  stable F -> moves P m Q -> moves (fun s => P s /\ F s) m (fun a s => Q a s /\ F s).
Proof.
  intros HF Hm s [Hs Hf]. destruct (Hm s Hs) as [Hmv Hq]. split; [done|].
  destruct (fst (m s)); [|done]. split; [done|by eapply HF].
Qed.

Lemma moves_foldMM {A B} (I : B -> MemoryStore -> Prop) (f : B -> A -> M error MemoryStore B) l b :
  (forall b x, x ∈ l -> moves (I b) (f b x) I) -> moves (I b) (foldMM f b l) I.
Proof.
  revert b. induction l as [|x l IH]; intros b Hf; simpl; [by apply moves_ret|].
  eapply moves_bind; [apply Hf; by left|]. intros b'. apply IH. intros b'' y Hy. apply Hf. by right.
Qed.

(** The same, with an invariant that knows the elements already visited. *)
Lemma moves_foldMM_prefix {A B} (I : list A -> B -> MemoryStore -> Prop) (f : B -> A -> M error MemoryStore B) l b :
  (forall seen b x, x ∈ l -> moves (I seen b) (f b x) (I (seen ++ [x]))) -> moves (I [] b) (foldMM f b l) (I l).
Proof.
  intros Hf. assert (forall seen, moves (I seen b) (foldMM f b l) (I (seen ++ l))) as H; [|exact (H [])].
  revert b Hf. induction l as [|x l IH]; intros b Hf seen; simpl.
  - rewrite app_nil_r. by apply moves_ret.
  - eapply moves_bind; [apply Hf; by left|]. intros b'.
    replace (seen ++ x :: l) with ((seen ++ [x]) ++ l) by by rewrite <- app_assoc.
    apply IH. intros ? ? y Hy. apply Hf. by right.
Qed.

Lemma moves_eachM {A} (P : MemoryStore -> Prop) (f : A -> M error MemoryStore unit) l :
  (forall x, x ∈ l -> moves P (f x) (fun _ => P)) -> moves P (eachM f l) (fun _ => P).
Proof.
  induction l as [|x l IH]; intros Hf; simpl; [by apply moves_ret|].
  eapply moves_bind; [apply Hf; by left|]. intros ?. apply IH. intros y Hy. apply Hf. by right.
Qed.

(** One store operation on the project. *)
Lemma ensure_locked {A} (m : M error projectState A) s :
  ensureProject projectID (snd (locked projectID m s)) = snd (m (ensureProject projectID s)).
Proof. unfold locked. destruct (m _) as [r p]. unfold ensureProject. simpl. by rewrite lookup_insert_eq. Qed.

Lemma fst_locked {A} (m : M error projectState A) s :
  fst (locked projectID m s) = fst (m (ensureProject projectID s)).
Proof. unfold locked. by destruct (m _) as [r p]. Qed.

Lemma moved_op op s (s' : MemoryStore) :
  op_ok op s -> s' = run_op op s ->
  evolves (ensureProject projectID s) (ensureProject projectID s') -> moved s s'.
Proof. intros Hok Heq Hev. split; [|done]. apply rtc_once. by exists op. Qed.

End logic.

(** * Correctness of a reconciliation

    Built on [moves]: planning a reconciliation is a sequence of allowed store
    steps that leaves the graph alone, never runs out of fuel, claims only
    within the capacity and leaves a stop command for every lease that must
    stop. *)

(** ** Errors of the code *)

Ltac not_diverged := repeat (case_match; simplify_eq/=); try done.

Lemma matchingObservationLease_total rt c o : matchingObservationLease rt c o <> Err Diverged.
Proof. unfold matchingObservationLease, fail_if. intros H. repeat (case_match; simplify_eq/=). Qed.

Lemma markObserved_total o p : fst (markObserved o p) <> Err Diverged.
Proof.
  unfold markObserved, mbind, M_bind. rewrite command_of_run.
  destruct (rt_commands _ !! _) as [c|]; [|done]. rewrite get_runtime_run. unfold lift.
  destruct (matchingObservationLease _ _ _) as [l|] eqn:Hl; simpl.
  - unfold fail_if. not_diverged.
  - intros [= ->]. by apply matchingObservationLease_total in Hl.
Qed.

Lemma completeCommand_total o p : fst (completeCommand o p) <> Err Diverged.
Proof.
  unfold completeCommand, mbind, M_bind. rewrite command_of_run.
  destruct (rt_commands _ !! _) as [c|]; [|done]. rewrite get_runtime_run. unfold lift.
  destruct (matchingObservationLease _ _ _) as [l|] eqn:Hl; simpl.
  - unfold fail_if. not_diverged.
  - intros [= ->]. by apply matchingObservationLease_total in Hl.
Qed.

Lemma unless_done_Ok ctx m s : (forall s, fst (m s) = Ok tt) -> fst (unless_done ctx m s) = Ok tt.
Proof. destruct ctx; [done|]. auto. Qed.

Lemma recordRejection_Ok r g b err p : fst (recordRejection r g b err p) = Ok tt.
Proof. unfold recordRejection, mbind, M_bind. rewrite get_runtime_run. by destruct (existsb _ _). Qed.

Lemma change_command_Ok id f p : fst (change_command id f p) = Ok tt.
Proof. unfold change_command, mbind, M_bind. rewrite get_runtime_run. by destruct (rt_commands _ !! _). Qed.

Lemma total_post {A} (r : res A) :
  r <> Err Diverged -> match r with Ok _ => True | Err e => e <> Diverged end.
Proof. destruct r as [a|e]; [done|]. intros H ->. by apply H. Qed.

Section reconcile.
Context `{GR : GoRuntime}.
Context (ctx : Context) (projectID : ProjectID) (ctx_code : ctx <> Some Diverged).
Context {Budget : Type} (selection : RuntimeSelectionRuntime Budget).
Context (provider : res (RuntimeSchedulingState Budget)) (provider_code : provider <> Err Diverged).
Context (now_load now_fold now_repair : Time) (now_claim : PhaseEndpoint -> Time).

Abbreviation project := (ensureProject projectID).
Abbreviation Inv := (store_all project_inv).

Lemma Inv_project s : Inv s -> project_inv (project s).
Proof.
  intros Hs. unfold ensureProject. destruct (s !! projectID) eqn:Hid;
    [by eapply Hs|apply newProjectState_project_inv].
Qed.

Lemma Inv_stable : stable projectID Inv.
Proof. intros s s' [Hsteps _] Hs. by eapply steps_inv. Qed.

(** What a view says of the project stays true while the graph is fixed. *)
Record view_ok (v : runtimeView) (p : projectState) : Prop := {
  vo_revision : v_revision v = pj_latest p;
  vo_tasks : v_tasks v = g_tasks (pj_current p);
  vo_by_ref : v_endpointByRef v = g_endpoints (pj_current p);
  vo_endpoints : forall e, e ∈ v_endpoints v -> g_endpoints (pj_current p) !! ep_Ref e = Some e;
  vo_leases : forall id l, v_leases v !! id = Some l -> ls_LeaseRef l = id /\ known_lease l p;
}.

Definition V (v : runtimeView) (s : MemoryStore) : Prop := Inv s /\ view_ok v (project s).

Lemma known_lease_evolves l p p' : evolves p p' -> known_lease l p -> known_lease l p'.
Proof.
  intros Hev (l0 & Hl0 & Hs). destruct (ev_leases _ _ (ev_runtime _ _ Hev) _ _ Hl0) as (l1 & Hl1 & Hs1).
  exists l1. split; [done|]. unfold same_lease in *. naive_solver congruence.
Qed.

Lemma view_ok_evolves v p p' : evolves p p' -> view_ok v p -> view_ok v p'.
Proof.
  intros Hev [H1 H2 H3 H4 H5]. split; rewrite ?(ev_latest _ _ Hev), ?(ev_current _ _ Hev); try done.
  intros id l Hl. destruct (H5 id l Hl). split; [done|by eapply known_lease_evolves].
Qed.

Lemma V_stable v : stable projectID (V v).
Proof. intros s s' Hm [Hi Hv]. split; [by eapply Inv_stable|]. eapply view_ok_evolves; [apply Hm|done]. Qed.

(** An operation that only touches the runtime records of the project. *)
Lemma moves_op {A} (P : MemoryStore -> Prop) (m : M error projectState A) op (Q : A -> projectState -> Prop) :
  (forall s, P s -> op_ok op s) ->
  (forall s, run_op op s = snd ((lift (ctx_Err ctx) ≫= fun _ => locked projectID m) s)) ->
  (forall s, P s -> evolves (project s) (snd (m (project s)))) ->
  (forall s, P s -> match fst (m (project s)) with Ok a => Q a (snd (m (project s))) | Err e => e <> Diverged end) ->
  moves projectID P (lift (ctx_Err ctx) ≫= fun _ => locked projectID m) (fun a s => Q a (project s)).
Proof.
  intros Hok Hrun Hev Hpost s Hs. destruct ctx as [e|] eqn:Hctx.
  { split; [apply moved_refl|]. simpl. congruence. }
  assert (forall B (x : M error MemoryStore B), (lift (ctx_Err None) ≫= fun _ => x) = x) as Hnone by done.
  rewrite Hnone in *. rewrite fst_locked. split.
  - eapply moved_op; [by apply Hok| |].
    + by rewrite Hrun.
    + rewrite ensure_locked. by apply Hev.
  - rewrite ensure_locked. by apply Hpost.
Qed.

Lemma moves_quiet (P : MemoryStore -> Prop) (m : M error projectState unit) op (Q : projectState -> Prop) :
  (forall s, P s -> op_ok op s) ->
  (forall s, run_op op s = snd (unless_done ctx (locked projectID m) s)) ->
  (forall s, P s -> evolves (project s) (snd (m (project s)))) ->
  (forall p, fst (m p) = Ok tt) ->
  (forall s, P s -> Q (project s)) -> (forall s, P s -> Q (snd (m (project s)))) ->
  moves projectID P (unless_done ctx (locked projectID m)) (fun _ s => Q (project s)).
Proof.
  intros Hok Hrun Hev Htot HQ0 HQ1 s Hs. destruct ctx as [e|] eqn:Hctx; simpl in *.
  { split; [apply moved_refl|by apply HQ0]. }
  rewrite fst_locked, Htot, ensure_locked. split; [|by apply HQ1]. eapply moved_op; [by apply Hok|by rewrite Hrun|].
  rewrite ensure_locked. by apply Hev.
Qed.

Lemma moves_stable {A} (P : MemoryStore -> Prop) (m : M error MemoryStore A) (Q : A -> MemoryStore -> Prop) F :
  stable projectID F -> (forall s, P s -> F s) ->
  moves projectID P m Q -> moves projectID P m (fun a s => F s /\ Q a s).
Proof.
  intros HF HPF Hm s Hs. destruct (Hm s Hs) as [Hmv Hq]. split; [done|].
  destruct (fst (m s)); [|done]. split; [|done]. eapply HF; [exact Hmv|by apply HPF].
Qed.

(** ** The calm phase: folding, repairing and stopping activate no lease *)

Section calm.
Context (p0 : projectState).

Definition W (v : runtimeView) (s : MemoryStore) : Prop := V v s /\ active_sub p0 (project s).

Lemma calm_op {A} v (m : M error projectState A) op (Q : A -> projectState -> Prop) :
  (forall s, V v s -> op_ok op s) ->
  (forall s, run_op op s = snd ((lift (ctx_Err ctx) ≫= fun _ => locked projectID m) s)) ->
  (forall p, evolves p (snd (m p))) -> (forall p, active_sub p (snd (m p))) ->
  (forall p, match fst (m p) with Ok a => Q a (snd (m p)) | Err e => e <> Diverged end) ->
  moves projectID (W v) (lift (ctx_Err ctx) ≫= fun _ => locked projectID m)
    (fun a s => W v s /\ Q a (project s)).
Proof.
  intros Hok Hrun Hev Hcalm Hpost. eapply moves_weaken; [intros s Hs; exact Hs|
    |apply (moves_stable (W v) _ (fun a s => active_sub p0 (project s) /\ Q a (project s)) (V v)); [apply V_stable|..]].
  - intros a s [? [? ?]]. split; [by split|done].
  - by intros s [? _].
  - eapply (moves_op (W v) m op (fun a p => active_sub p0 p /\ Q a p)); [|done|done|].
    + intros s [? _]. by apply Hok.
    + intros s [_ Hsub]. specialize (Hpost (project s)). destruct (fst (m (project s))); [|done].
      split; [|done]. etrans; [exact Hsub|apply Hcalm].
Qed.

Lemma newRuntimeView_ok now p :
  project_inv p -> view_ok (v_set_leases (mark_expired now <$> v_leases (newRuntimeView p)) (newRuntimeView p)) p.
Proof.
  intros Hp. pose proof (gg_coherent _ (gi_current _ (pi_graph _ Hp))) as Hco.
  split; simpl; [done|by apply view_tasks_eq|by apply view_endpoints_eq| |].
  - intros e He. by apply view_endpoints_elem in He.
  - intros id l. rewrite copy_map_id, lookup_fmap, fmap_Some. intros (l0 & Hl0 & ->).
    destruct (ri_lease _ _ (pi_runtime _ Hp) _ _ Hl0) as (Hid & _). split; [done|].
    exists l0. simpl. by rewrite Hid.
Qed.

(** A freshly loaded view shows exactly the leases of the project. *)
Definition fresh (now : Time) (v : runtimeView) (p : projectState) : Prop :=
  v_leases v = mark_expired now <$> rt_leases (pj_runtime p).

Lemma load_moves now :
  moves projectID (fun s => Inv s /\ active_sub p0 (project s)) (loadRuntimeView ctx projectID now)
    (fun v s => W v s /\ fresh now v (project s)).
Proof.
  eapply moves_weaken; [intros s Hs; exact Hs| |apply (moves_stable _ _
    (fun v s => view_ok v (project s) /\ active_sub p0 (project s) /\ fresh now v (project s)) Inv);
    [apply Inv_stable|by intros s [? _]|]].
  - intros v s [? (? & ? & ?)]. split; [split; [by split|done]|done].
  - eapply (moves_op _ _ (OpLoadView ctx projectID now)
      (fun v p => view_ok v p /\ active_sub p0 p /\ fresh now v p)); [done..|].
    intros s [Hs Hsub]. simpl. split_and!; [|done|].
    + apply newRuntimeView_ok. by apply Inv_project.
    + unfold fresh. simpl. by rewrite copy_map_id.
Qed.

Lemma foldEvent_moves v e : moves projectID (W v) (foldEvent ctx projectID e) (fun _ => W v).
Proof.
  assert (moves projectID (W v) (completeCommandAndReleaseLease ctx projectID e) (fun _ => W v)) as Hcomplete.
  { eapply moves_weaken; [intros s Hs; exact Hs| |eapply (calm_op v _ (OpComplete ctx projectID e) (fun _ _ => True))];
      [by intros ? s [? _]|done|done|..].
    - intros p. apply completeCommand_evolves.
    - intros p. apply completeCommand_calm.
    - intros p. apply total_post, completeCommand_total. }
  unfold foldEvent. case_bool_decide.
  { eapply moves_weaken; [intros s Hs; exact Hs| |eapply (calm_op v _ (OpMarkObserved ctx projectID e) (fun _ _ => True))];
      [by intros ? s [? _]|done|done|..].
    - intros p. apply markObserved_evolves.
    - intros p. apply markObserved_calm.
    - intros p. apply total_post, markObserved_total. }
  destruct (one_of _ _); [done|]. case_bool_decide; [|by apply moves_ret].
  eapply moves_bind; [|intros ?; exact Hcomplete]. apply moves_lift; [|done].
  unfold fail_if. by destruct (_ && _).
Qed.

Lemma foldObservations_moves v : moves projectID (W v) (foldObservations ctx projectID now_fold v) W.
Proof.
  unfold foldObservations. eapply moves_bind; [apply moves_eachM; intros e _; apply foldEvent_moves|].
  intros ?. eapply moves_weaken; [| |apply load_moves].
  - by intros s [[? ?] ?].
  - by intros v' s [? _].
Qed.

Lemma W_commands v c s : W v s -> W (v_set_commands c v) s.
Proof. intros [[? [? ? ? ? ?]] ?]. split; [split; [done|by split]|done]. Qed.

Lemma activeLeases_known v s l : V v s -> l ∈ activeLeases v -> known_lease l (project s).
Proof.
  intros [_ Hv] [_ [id Hl]%elem_of_range_values]%list_elem_of_filter. by apply (vo_leases _ _ Hv id).
Qed.

Lemma stop_moves v rev l :
  l ∈ activeLeases v ->
  moves projectID (W v) (getOrCreateStopCommand ctx projectID rev l)
    (fun r s => W v s /\ is_Some (rt_commands (pj_runtime (project s)) !! stopCommandIDOf (ls_LeaseRef l))).
Proof.
  intros Hl. eapply (calm_op v _ (OpStop ctx projectID rev l)
    (fun _ p => is_Some (rt_commands (pj_runtime p) !! stopCommandIDOf (ls_LeaseRef l)))).
  - intros s Hs. by eapply activeLeases_known.
  - done.
  - intros p. apply getOrCreateStop_evolves.
  - intros p. apply active_sub_same, getOrCreateStop_leases.
  - intros p. unfold getOrCreateStop, mbind, M_bind. rewrite get_runtime_run.
    destruct (rt_commands _ !! _) eqn:Hc; simpl; [by rewrite Hc|]. by rewrite lookup_insert_eq.
Qed.

Lemma repairLease_moves v0 v l :
  l ∈ activeLeases v0 ->
  moves projectID (fun s => W v s /\ v_leases v = v_leases v0) (repairLease ctx projectID v l)
    (fun v s => W v s /\ v_leases v = v_leases v0).
Proof.
  intros Hl s [Hs Heq]. assert (l ∈ activeLeases v) as Hl' by (unfold activeLeases in *; by rewrite Heq).
  revert s Hs. fold (moves projectID (W v) (repairLease ctx projectID v l)
    (fun v s => W v s /\ v_leases v = v_leases v0)).
  unfold repairLease. destruct (hasCommandForLease _ _); [by apply moves_ret|].
  destruct (hasRemoteObservation _ _).
  - eapply moves_bind; [by apply stop_moves|]. intros r. apply moves_ret. intros s [Hs _].
    split; [by apply W_commands|done].
  - eapply moves_bind; [eapply (calm_op v _ (OpReleaseOrphan ctx projectID (ls_LeaseRef l)) (fun _ _ => True))|];
      [done|done|..].
    + intros p. by apply change_lease_evolves.
    + intros p. apply release_calm.
    + intros p. unfold change_lease, mbind, M_bind. rewrite get_runtime_run. by destruct (rt_leases _ !! _).
    + intros ?. apply moves_ret. by intros s [? _].
Qed.

Lemma repairCommand_moves v entry : moves projectID (W v) (repairCommand ctx projectID v entry) W.
Proof.
  unfold repairCommand. destruct entry as [id record]. destruct (_ || _); [by apply moves_ret|].
  destruct (hasMatchingActiveLease _ _); simpl; [by apply moves_ret|].
  eapply (moves_bind _ _ _ _ (fun _ s => V v s /\ active_sub p0 (project s))).
  - apply (moves_stable (W v)); [apply V_stable|by intros s [? _]|].
    eapply (moves_quiet (W v) _ (OpQuarantine ctx projectID id)); [done|done|..].
    + intros s _. by apply change_command_evolves.
    + intros p. apply change_command_Ok.
    + by intros s [_ ?].
    + intros s [_ Hsub]. etrans; [exact Hsub|]. apply active_sub_same, change_command_leases.
  - intros ?. apply moves_ret. intros s Hs. by apply W_commands.
Qed.

Lemma repair_moves v :
  moves projectID (W v) (repairDecisionPairs ctx projectID now_repair v)
    (fun v s => W v s /\ fresh now_repair v (project s)).
Proof.
  unfold repairDecisionPairs.
  eapply (moves_bind _ _ _ _ (fun v' s => W v' s /\ v_leases v' = v_leases v)).
  - eapply moves_weaken; [| |apply (moves_foldMM projectID (fun v' s => W v' s /\ v_leases v' = v_leases v)
      (repairLease ctx projectID) (activeLeases v) v)]; [done|done|].
    intros v' l Hl. by apply repairLease_moves.
  - intros v'. eapply moves_bind.
    + eapply moves_weaken; [| |apply (moves_foldMM projectID W (repairCommand ctx projectID))].
      * by intros s [? _].
      * intros v'' s Hs. exact Hs.
      * intros ? entry _. apply repairCommand_moves.
    + intros v''. eapply moves_weaken; [| |apply load_moves]; [by intros s [[? ?] ?]|done].
Qed.

End calm.

End reconcile.
