(* ===== verification/ReconcilePlan.v ===== *)
(** * Stopping, claiming and delivering

    The second half of a reconciliation: stop commands, the selection loop and
    the delivery. *)

From stdpp Require Import base tactics option list strings gmap sorting pretty relations.
From Stdlib Require Import ZArith.
From S2P Require Import Prelude GoLib GoStrings Kernel CoordTypes Acyclic Validation GraphSpec Pending Transition.
From S2P Require Import TransitionSpec MemoryStore StoreInv RuntimeView RuntimeSpec CommandStore CommandInv.
From S2P Require Import StoreReach GraphRuntime GraphRuntimeSpec.

(** The graph no longer supports the execution under the lease. *)
Definition must_stop_in (st : graphState) (l : phaseLease) : Prop :=
  forall e t, g_endpoints st !! ls_Endpoint l = Some e -> g_tasks st !! ref_TaskID (ls_Endpoint l) = Some t ->
    task_Outcome t <> TaskActive \/ ep_RunPolicy e = RunHeld \/
    ep_Generation e <> ls_Generation l \/ ep_BindingRef e <> ls_BindingRef l.

(** Every active lease the graph no longer supports has a stop command. *)
Definition Stops (p : projectState) : Prop :=
  forall id l, rt_leases (pj_runtime p) !! id = Some l -> ls_State l = "active" ->
    must_stop_in (pj_current p) l -> is_Some (rt_commands (pj_runtime p) !! stopCommandIDOf id).

Lemma mustStop_true v p l :
  view_ok v p -> must_stop_in (pj_current p) l -> mustStop v l = true.
Proof.
  intros [_ Ht He _ _] Hm. unfold mustStop, view_endpoint, view_task. rewrite Ht, He.
  destruct (g_endpoints _ !! _) as [e|] eqn:Hep; [|done].
  destruct (g_tasks _ !! _) as [t|] eqn:Htk; [|done].
  destruct (Hm e t Hep Htk) as [H|[H|[H|H]]]; rewrite (bool_decide_true _ H), ?orb_true_r; done.
Qed.

Section reconcile.
Context `{GR : GoRuntime}.
Context (ctx : Context) (projectID : ProjectID) (ctx_code : ctx <> Some Diverged).
Context {Budget : Type} (selection : RuntimeSelectionRuntime Budget).
Context (provider : res (RuntimeSchedulingState Budget)) (provider_code : provider <> Err Diverged).
Context (now_load now_fold now_repair : Time) (now_claim : PhaseEndpoint -> Time).

Abbreviation project := (ensureProject projectID).
Abbreviation Inv := (store_all project_inv).
Abbreviation V := (V projectID).
Abbreviation W := (W projectID).
Abbreviation moves := (moves projectID).

(** ** Stop commands *)

Definition stop_inv (p0 : projectState) (v : runtimeView) (seen : list phaseLease)
    (acc : runtimeView * list PhaseCommand) (s : MemoryStore) : Prop :=
  W p0 acc.1 s /\ (exists x, acc.1 = v_set_suppressed x v) /\ fresh now_repair v (project s) /\
  forall l, l ∈ seen -> mustStop v l = true ->
    is_Some (rt_commands (pj_runtime (project s)) !! stopCommandIDOf (ls_LeaseRef l)).

Lemma is_Some_command_evolves p p' id :
  evolves p p' -> is_Some (rt_commands (pj_runtime p) !! id) -> is_Some (rt_commands (pj_runtime p') !! id).
Proof.
  intros Hev [c Hc]. destruct (ev_commands _ _ (ev_runtime _ _ Hev) _ _ Hc) as (c' & ? & _). by eexists.
Qed.

Lemma W_suppressed p0 v x s : W p0 v s -> W p0 (v_set_suppressed x v) s.
Proof. intros [[? [? ? ? ? ?]] ?]. split; [split; [done|by split]|done]. Qed.

Lemma getOrCreateStop_some rev l p :
  exists r, fst (getOrCreateStop rev l p) = Ok r /\
  is_Some (rt_commands (pj_runtime (snd (getOrCreateStop rev l p))) !! stopCommandIDOf (ls_LeaseRef l)).
Proof.
  unfold getOrCreateStop, mbind, M_bind. rewrite get_runtime_run.
  destruct (rt_commands _ !! _) eqn:Hc; simpl.
  - eexists. split; [done|]. by rewrite Hc.
  - eexists. split; [done|]. by rewrite lookup_insert_eq.
Qed.

Lemma stopLease_moves p0 v seen acc l :
  l ∈ activeLeases v ->
  moves (stop_inv p0 v seen acc) (stopLease ctx projectID acc l) (stop_inv p0 v (seen ++ [l])).
Proof.
  intros Hl. destruct acc as [v' out]. unfold stopLease.
  destruct (mustStop v' l) eqn:Hms; simpl.
  - eapply (moves_bind _ _ _ _ (fun _ s => W p0 v' s /\ (exists x, v' = v_set_suppressed x v) /\
      fresh now_repair v (project s) /\ forall l', l' ∈ seen ++ [l] -> mustStop v l' = true ->
        is_Some (rt_commands (pj_runtime (project s)) !! stopCommandIDOf (ls_LeaseRef l')))).
    + eapply moves_weaken; [intros s Hs; exact Hs| |apply (moves_stable projectID (stop_inv p0 v seen (v', out)) _
        (fun _ s => active_sub p0 (project s) /\ (exists x, v' = v_set_suppressed x v) /\
           fresh now_repair v (project s) /\ forall l', l' ∈ seen ++ [l] -> mustStop v l' = true ->
             is_Some (rt_commands (pj_runtime (project s)) !! stopCommandIDOf (ls_LeaseRef l')))
        (V v')); [apply V_stable|by intros s [[? ?] ?]|]].
      { intros ? s (? & ? & ? & ? & ?). split; [by split|]. by split_and!. }
      eapply (moves_op ctx projectID ctx_code _ _ (OpStop ctx projectID (v_revision v') l)
        (fun _ p => active_sub p0 p /\ (exists x, v' = v_set_suppressed x v) /\ fresh now_repair v p /\
           forall l', l' ∈ seen ++ [l] -> mustStop v l' = true ->
             is_Some (rt_commands (pj_runtime p) !! stopCommandIDOf (ls_LeaseRef l')))); [|done|..].
      * intros s ([Hv _] & (x & Hx) & _). simpl in Hx, Hv. subst v'. by eapply activeLeases_known.
      * intros s _. apply getOrCreateStop_evolves.
      * intros s ([_ Hsub] & Hx & Hf & Hseen).
        destruct (getOrCreateStop_some (v_revision v') l (project s)) as (r & -> & Hsome).
        split_and!; [|done| |].
        -- etrans; [exact Hsub|]. apply active_sub_same, getOrCreateStop_leases.
        -- unfold fresh. by rewrite getOrCreateStop_leases.
        -- intros l' [Hin| ->%list_elem_of_singleton]%elem_of_app Hm'; [|done].
           eapply is_Some_command_evolves; [apply getOrCreateStop_evolves|by apply Hseen].
    + intros r. apply moves_ret. intros s (Hw & (x & ->) & Hf & Hseen). simpl. split_and!; try done.
      * by apply W_suppressed.
      * by eexists.
  - apply moves_ret. intros s (Hw & (x & Heq) & Hf & Hseen). simpl in *. split_and!; try done; [by eexists|].
    intros l' [Hin| ->%list_elem_of_singleton]%elem_of_app Hm'; [by apply Hseen|].
    rewrite Heq in Hms. change (mustStop v l = false) in Hms. congruence.
Qed.

Lemma fresh_active now v p id l :
  fresh now v p -> rt_leases (pj_runtime p) !! id = Some l -> ls_State l = "active" ->
  mark_expired now l ∈ activeLeases v.
Proof.
  intros Hf Hl Ha. apply list_elem_of_filter. split; [done|]. apply elem_of_range_values.
  exists id. rewrite Hf, lookup_fmap, Hl. done.
Qed.

Lemma fresh_count now v p : fresh now v p -> length (activeLeases v) = active_count p.
Proof.
  intros Hf. unfold activeLeases, active_count, active_leases.
  rewrite length_filter_values, Hf, map_filter_fmap, map_size_fmap. done.
Qed.

Lemma stops_moves p0 v :
  moves (fun s => W p0 v s /\ fresh now_repair v (project s))
    (foldMM (stopLease ctx projectID) (v, []) (activeLeases v))
    (fun acc s => V acc.1 s /\ active_sub p0 (project s) /\ (exists x, acc.1 = v_set_suppressed x v) /\
       fresh now_repair v (project s) /\ Stops (project s)).
Proof.
  eapply moves_weaken; [| |apply (moves_foldMM_prefix projectID (stop_inv p0 v) (stopLease ctx projectID)
    (activeLeases v) (v, []))].
  - intros s [Hw Hf]. split_and!; [done|by exists (v_suppressed v); destruct v|done|].
    intros ? ?%elem_of_nil. done.
  - intros [v' out] s ([Hv Hsub] & (x & Heq) & Hf & Hseen). split_and!; [done|done|by eexists|done|].
    intros id l Hl Ha Hm. simpl in *. subst v'. destruct Hv as [Hi [? ? ? ? ?]].
    replace id with (ls_LeaseRef (mark_expired now_repair l)).
    2: { by destruct (ri_lease _ _ (pi_runtime _ (Inv_project projectID _ Hi)) _ _ Hl). }
    apply Hseen; [by eapply fresh_active|]. eapply (mustStop_true _ (project s)); [by split|done].
  - intros seen acc l Hl. by apply stopLease_moves.
Qed.

(** ** Claims *)

Lemma claimLease_count rev e action cause now p r p' :
  project_inv p -> current_endpoint rev e p -> claimLease rev e action cause now p = (r, p') ->
  Stops p ->
  match r with
  | Ok (_, claimed) => Stops p' /\ active_count p' = active_count p + if (claimed : bool) then 1 else 0
  | Err err => err <> Diverged /\ p' = p
  end.
Proof.
  intros Hp Hcur Hrun Hst. pose proof Hrun as Hrun'.
  apply claimLease_run in Hrun as [[-> Hn]|(Hrev & (e0 & He0 & Hg & Hready & _) & Hnew & -> & ->)]; [| |done].
  { destruct r as [[c [|]]|err]; [by destruct (Hn c)|by split; [|lia]|]. split; [|done].
    unfold claimLease, mbind, M_bind in Hrun'. cbn [get_state] in Hrun'. intros ->.
    repeat (case_match; simplify_eq/=). }
  specialize (Hcur Hrev). rewrite Hcur in He0. injection He0 as <-.
  assert (rt_leases (pj_runtime p) !! leaseRefOf (ep_Ref e) (ep_Generation e) = None) as Hfree.
  { eapply lease_free; [apply (pi_runtime _ Hp)|apply (rd_fixed _ _ Hready)|done]. }
  split.
  - intros id l. simpl. rewrite lookup_insert_Some. intros [[<- <-]|[_ Hl]] Ha Hm.
    + exfalso. destruct (rd_task _ _ Hready) as (t & Ht & Hact).
      destruct (Hm e t Hcur Ht) as [?|[Hh|[?|?]]]; simpl in *; try done.
      by rewrite (rd_enabled _ _ Hready) in Hh.
    + apply lookup_insert_is_Some. destruct (decide (runCommandIDOf (ep_Ref e) (ep_Generation e) = stopCommandIDOf id));
        [by left|right]. split; [done|]. by eapply Hst.
  - unfold active_count, active_leases. simpl. rewrite map_filter_insert_True by done.
    rewrite map_size_insert_None; [lia|]. apply map_lookup_filter_None. by left.
Qed.

Definition claim_inv (v : runtimeView) (n0 : nat) (seen : list PhaseEndpoint)
    (acc : gset PhaseEndpointRef * bool * list PhaseCommand) (s : MemoryStore) : Prop :=
  V v s /\ Stops (project s) /\ acc.1.1 = list_to_set (ep_Ref <$> seen) /\
  exists k, k <= length seen /\ active_count (project s) = n0 + k /\ (acc.1.2 = false -> k = 0).

Lemma claimRun_moves v n e :
  e ∈ v_endpoints v ->
  moves (fun s => V v s /\ Stops (project s) /\ active_count (project s) = n)
    (claimRun ctx projectID now_claim v e)
    (fun r s => V v s /\ Stops (project s) /\ active_count (project s) = n + if (r.2 : bool) then 1 else 0).
Proof.
  intros He. unfold claimRun. cbv zeta. destruct (bi_NonResumable _).
  { intros s Hs. split; [apply moved_refl|done]. }
  eapply (moves_bind _ _ _ _ (fun a s => (a = CommandStart \/ a = CommandResume) /\
    V v s /\ Stops (project s) /\ active_count (project s) = n)).
  { case_bool_decide; [|apply moves_ret; by auto].
    destruct (checkpointCompatible _ _); simpl; [apply moves_ret; by auto|].
    intros s Hs. split; [apply moved_refl|done]. }
  intros action. eapply moves_weaken; [intros s Hs; exact Hs| |apply (moves_stable projectID _ _
    (fun r s => Stops (project s) /\ active_count (project s) = n + if (r.2 : bool) then 1 else 0) (V v));
    [apply V_stable|by intros s (_ & ? & _)|]]; [done|].
  eapply (moves_op ctx projectID ctx_code _ _
    (OpClaim ctx projectID (v_revision v) e action (revisionRef v) (now_claim e))
    (fun r p => Stops p /\ active_count p = n + if (r.2 : bool) then 1 else 0)).
  - intros s (Ha & [_ Hv] & _). split; [|done]. intros _. by apply (vo_endpoints _ _ Hv).
  - done.
  - intros s (_ & [Hi _] & _). by apply claimLease_evolves, Inv_project.
  - intros s (_ & [Hi Hv] & Hst & Hn).
    destruct (claimLease _ _ _ _ _ (project s)) as [r p'] eqn:Hrun. simpl.
    eapply claimLease_count in Hrun; [|by apply Inv_project| |done].
    + destruct r as [[c b]|err]; simpl; [by rewrite <- Hn|by destruct Hrun].
    + intros _. by apply (vo_endpoints _ _ Hv).
Qed.

(** A failed claim leaves the project as it was. *)
Lemma claimRun_Err v e s err s1 :
  Inv s -> claimRun ctx projectID now_claim v e s = (Err err, s1) -> project s1 = project s.
Proof.
  intros Hi. unfold claimRun. cbv zeta. destruct (bi_NonResumable _); [by intros [= _ <-]|].
  intros [H|(action & s2 & Ha & H)]%M_bind_Err; unfold throw, mret, M_ret in *.
  { repeat (case_match; simplify_eq/=); done. }
  assert (s2 = s) as -> by (repeat (case_match; simplify_eq/=); done).
  unfold claimLeaseAndAppendCommand, mbind, M_bind, lift in H.
  destruct (ctx_Err ctx); [|by injection H as _ <-].
  pose proof (ensure_locked projectID (claimLease (v_revision v) e action (revisionRef v) (now_claim e)) s) as Hen.
  pose proof (fst_locked projectID (claimLease (v_revision v) e action (revisionRef v) (now_claim e)) s) as Hf.
  rewrite H in Hen, Hf. simpl in *. rewrite Hen.
  destruct (claimLease _ _ _ _ _ (project s)) as [r p'] eqn:Hrun. simpl in *. subst r.
  by apply claimLease_run in Hrun as [[-> _]|(_ & _ & _ & ? & _)]; [| |apply Inv_project].
Qed.

Lemma claimSelected_moves v n0 seen acc e :
  e ∈ v_endpoints v ->
  moves (claim_inv v n0 seen acc) (claimSelected ctx projectID now_claim v acc e) (claim_inv v n0 (seen ++ [e])).
Proof.
  intros He s (Hv & Hst & Hrefs & k & Hk & Hcount & Hany). destruct acc as [[refs any] out]. simpl in *.
  assert ({[ep_Ref e]} ∪ refs = list_to_set (ep_Ref <$> seen ++ [e])) as Hrefs'.
  { rewrite fmap_app, list_to_set_app_L, Hrefs. simpl. set_solver. }
  destruct (claimRun_moves v (n0 + k) e He s) as [Hmv Hpost]; [done|].
  unfold claimSelected. destruct (claimRun ctx projectID now_claim v e s) as [[[c claimed]|err] s1] eqn:Hclaim; simpl in *.
  - destruct Hpost as (Hv1 & Hst1 & Hc1). split; [done|]. split_and!; [done..|]. simpl.
    rewrite length_app. simpl. destruct claimed; simpl.
    + exists (S k). split_and!; [lia|lia|done].
    + exists k. split_and!; [lia|lia|done].
  - destruct (IsCode _ _); [|done].
    assert (moves (fun s => V v s /\ Stops (project s) /\ active_count (project s) = n0 + k)
      (unless_done ctx (locked projectID
         (recordRejection (ep_Ref e) (ep_Generation e) (ep_BindingRef e) err)))
      (fun _ s => V v s /\ Stops (project s) /\ active_count (project s) = n0 + k)) as Hrec.
    { apply moves_stable; [apply V_stable|by intros ? [? _]|].
      eapply (moves_quiet ctx projectID ctx_code _ _
        (OpRecordRejection ctx projectID (ep_Ref e) (ep_Generation e) (ep_BindingRef e) err)
        (fun p => Stops p /\ active_count p = n0 + k)); [done|done|..].
      - intros s' _. apply recordRejection_evolves.
      - intros p. apply recordRejection_Ok.
      - by intros s' [_ ?].
      - intros s' (_ & Hst' & Hn'). split.
        + intros id l. rewrite recordRejection_leases. intros Hl Ha Hm.
          eapply is_Some_command_evolves; [apply recordRejection_evolves|]. eapply Hst'; [done|done|].
          by rewrite (ev_current _ _ (recordRejection_evolves _ _ _ _ _)) in Hm.
        + unfold active_count, active_leases in *. by rewrite recordRejection_leases. }
    destruct (Hrec s1) as [Hmv1 Hpost1].
    { pose proof (V_stable projectID v _ _ Hmv Hv) as Hv1.
      split; [done|]. by rewrite (claimRun_Err v e s err s1 (proj1 Hv) Hclaim). }
    unfold recordEndpointDispatchRejection, mbind, M_bind.
    destruct (unless_done ctx _ s1) as [[u|err'] s2]; simpl in *; [|split; [by eapply moved_trans|done]].
    split; [by eapply moved_trans|]. destruct Hpost1 as (? & ? & ?). split_and!; [done..|]. simpl.
    exists k. rewrite length_app. simpl. split_and!; [lia|done|done].
Qed.

(** ** The selection loop *)

Definition bounded (st : RuntimeSchedulingState Budget) (b : nat) : Prop :=
  forall candidates selected,
    SelectRunnable (mkSelectionRequest candidates (ss_Capacity st) (ss_Budget st)) = Ok selected ->
    length selected <= b.

Lemma removeSelected_shorter candidates selected :
  selected <> [] -> (forall e, e ∈ selected -> e ∈ cand_Endpoint <$> candidates) ->
  length (removeSelectedCandidates candidates (list_to_set (ep_Ref <$> selected))) < length candidates.
Proof.
  intros Hne Hsub. destruct selected as [|e selected]; [done|].
  destruct (list_elem_of_fmap_1 _ _ _ (Hsub e ltac:(by left))) as (c & -> & Hc).
  eapply length_filter_lt; [exact Hc|]. intros Hn. apply Hn. simpl. set_solver.
Qed.

Lemma selectLoop_moves v st n0 fuel candidates out :
  length candidates <= fuel -> (forall c, c ∈ candidates -> cand_Endpoint c ∈ v_endpoints v) ->
  moves (fun s => V v s /\ Stops (project s) /\ active_count (project s) = n0)
    (selectLoop ctx projectID selection now_claim fuel v st candidates out)
    (fun _ s => V v s /\ Stops (project s) /\
       exists k, active_count (project s) = n0 + k /\ forall b, bounded st b -> k <= b).
Proof.
  revert candidates out. induction fuel as [|fuel IH]; intros candidates out Hlen Hcand; simpl;
    (case_bool_decide as Hnil;
      [apply moves_ret; intros s (? & ? & ?); split_and!; [done..|]; exists 0; split; [lia|intros; lia]|]).
  { destruct candidates; simpl in *; [done|lia]. }
  eapply (moves_bind _ _ _ _ (fun selected s =>
    SelectRunnable (mkSelectionRequest candidates (ss_Capacity st) (ss_Budget st)) = Ok selected /\
    V v s /\ Stops (project s) /\ active_count (project s) = n0)).
  { apply moves_lift; [apply select_total|]. by intros. }
  intros selected. apply moves_pure. intros Hselect. case_bool_decide as Hsel.
  { apply moves_ret. intros s (? & ? & ?). split_and!; [done..|]. exists 0. split; [lia|intros; lia]. }
  assert (forall e, e ∈ selected -> e ∈ cand_Endpoint <$> candidates) as Hsub.
  { intros e He. exact (select_sound _ _ e Hselect He). }
  eapply (moves_bind _ _ _ _ (claim_inv v n0 selected)).
  - eapply moves_weaken; [| |apply (moves_foldMM_prefix projectID (claim_inv v n0))].
    + intros s (? & ? & ?). split_and!; [done..|]. exists 0. split_and!; simpl; [lia|lia|done].
    + done.
    + intros seen acc e He. apply claimSelected_moves.
      destruct (list_elem_of_fmap_1 _ _ _ (Hsub e He)) as (c & -> & Hc). by apply Hcand.
  - intros [[refs any] out']. destruct any.
    + apply moves_ret. intros s (? & ? & _ & k & Hk & Hcount & _). split_and!; [done..|].
      exists k. split; [done|]. intros b Hb. specialize (Hb _ _ Hselect). lia.
    + intros s (Hv & Hst & Hrefs & k & Hk & Hcount & Hany). simpl in Hrefs. subst refs.
      rewrite (Hany eq_refl), Nat.add_0_r in Hcount.
      eapply IH; [| |by split_and!].
      * pose proof (removeSelected_shorter candidates selected Hsel Hsub). lia.
      * intros c [_ Hc]%list_elem_of_filter. by apply Hcand.
Qed.

Lemma graphRunnable_elem v e : e ∈ graphRunnable v -> e ∈ v_endpoints v.
Proof. unfold graphRunnable. rewrite sort_slice_perm. by intros [_ ?]%list_elem_of_filter. Qed.

(** ** The whole plan *)

(** The active leases of [p] number at most those of [p0] still active plus
    what one selection may pick. *)
Definition within_capacity (p0 p : projectState) : Prop :=
  exists st n k, provider = Ok st /\ n <= active_count p0 /\ active_count p = n + k /\
    forall b, bounded (mkSchedulingState (cap_set_Active (Z.of_nat n) (ss_Capacity st)) (ss_Budget st)) b -> k <= b.

Lemma plan_moves p0 :
  moves (fun s => Inv s /\ project s = p0)
    (planDeliveries ctx projectID selection provider now_load now_fold now_repair now_claim)
    (fun _ s => Inv s /\ Stops (project s) /\ within_capacity p0 (project s)).
Proof.
  unfold planDeliveries. eapply moves_bind.
  { eapply moves_weaken; [| |apply (load_moves ctx projectID ctx_code p0)].
    - intros s [? <-]. by split.
    - intros v s [Hw _]. exact Hw. }
  intros v1. eapply moves_bind; [by apply foldObservations_moves|].
  intros v2. eapply moves_bind; [by apply repair_moves|]. intros v3.
  eapply (moves_bind _ _ _ _ (fun st s => (exists st0, provider = Ok st0 /\
      st = mkSchedulingState (cap_set_Active (Z.of_nat (length (activeLeases v3))) (ss_Capacity st0)) (ss_Budget st0))
      /\ W p0 v3 s /\ fresh now_repair v3 (project s))).
  { apply moves_lift.
    - unfold schedulingState. destruct provider; [done|]. simpl. congruence.
    - intros st s Hst Hs. split; [|done]. unfold schedulingState in Hst.
      destruct provider as [st0|]; [|done]. injection Hst as <-. by exists st0. }
  intros st. apply moves_pure. intros (st0 & Hprov & ->).
  eapply moves_bind; [by apply stops_moves|]. intros [v4 out]. cbv beta.
  intros s (Hv & Hsub & (x & Heq) & Hf & Hst). simpl in Heq, Hv. subst v4.
  pose proof (fresh_count _ _ _ Hf) as Hcount. apply active_sub_count in Hsub.
  edestruct (selectLoop_moves (v_set_suppressed x v3)
    (mkSchedulingState (cap_set_Active (Z.of_nat (length (activeLeases v3))) (ss_Capacity st0)) (ss_Budget st0))
    (active_count (project s))) as [Hmv Hpost]; [apply Nat.le_refl| |by split_and!|split; [exact Hmv|]].
  - intros c Hc. apply list_elem_of_fmap in Hc as (e & -> & He). by apply graphRunnable_elem.
  - destruct (fst _); [|done]. destruct Hpost as ([Hi _] & Hst' & k & Hk & Hb). split_and!; [done..|].
    exists st0, (active_count (project s)), k. split_and!; [done..|].
    intros b. rewrite <- Hcount. apply Hb.
Qed.

(** ** Delivery *)

Section delivery.
Context (controller : option PhaseController).

Lemma deliver_steps cmd s :
  rtc store_step s (snd (deliver ctx projectID controller cmd s)) /\
  fst (deliver ctx projectID controller cmd s) = Ok tt.
Proof.
  assert (forall m op s, op_ok op s -> run_op op s = snd (m s) -> fst (m s) = Ok tt ->
    rtc store_step s (snd (m s)) /\ fst (m s) = (Ok tt : res unit)) as Hop.
  { intros m op s' Hok Hrun Hres. split; [|done]. apply rtc_once. by exists op. }
  assert (forall f id s, (forall p, fst (f p) = Ok tt) -> fst (unless_done ctx (locked id f) s) = (Ok tt : res unit)) as Hq.
  { intros f id s' Hf. apply unless_done_Ok. intros s''. unfold locked.
    specialize (Hf (ensureProject id s'')). by destruct (f _). }
  assert (forall c err p, fst (reject c err p) = Ok tt) as Hrej.
  { intros. unfold reject, mbind, M_bind. rewrite get_runtime_run. repeat case_match; done. }
  assert (forall s, rtc store_step s (snd (scheduleRetry ctx projectID (cmd_ID cmd) s)) /\
    fst (scheduleRetry ctx projectID (cmd_ID cmd) s) = Ok tt) as Hretry.
  { intros s'. apply (Hop _ (OpRetry ctx projectID (cmd_ID cmd))); [done|done|].
    apply Hq. intros. apply change_command_Ok. }
  unfold deliver. destruct controller as [pc|]; [|done].
  pose proof (Apply_steps cmd s) as Happ. destruct (Apply cmd s) as [r s1]. simpl in Happ.
  cut (forall m : M error MemoryStore unit,
    rtc store_step s1 (snd (m s1)) /\ fst (m s1) = Ok tt -> rtc store_step s (snd (m s1)) /\ fst (m s1) = Ok tt).
  2: { intros m [? ?]. split; [by etrans|done]. }
  intros Hcut. destruct r as [u|err].
  { apply Hcut, (Hop _ (OpAccept ctx projectID (cmd_ID cmd))); [done|done|]. apply Hq. intros. apply change_command_Ok. }
  destruct (IsCode _ _); [by apply Hcut|]. destruct (_ || _).
  { apply Hcut, (Hop _ (OpReject ctx projectID cmd err)); [done|done|]. apply Hq. intros. apply Hrej. }
  destruct (IsCode _ _).
  { apply Hcut, (Hop _ (OpReject ctx projectID cmd err)); [done|done|]. apply Hq. intros. apply Hrej. }
  destruct (IsCode _ _); [|by apply Hcut].
  apply Hcut, (Hop _ (OpQuarantine ctx projectID (cmd_ID cmd))); [done|done|]. apply Hq. intros. apply change_command_Ok.
Qed.

Lemma deliver_all_steps cmds s :
  rtc store_step s (snd (eachM (deliver ctx projectID controller) cmds s)) /\
  fst (eachM (deliver ctx projectID controller) cmds s) = Ok tt.
Proof.
  revert s. induction cmds as [|c cmds IH]; intros s; simpl; [done|]. unfold mbind, M_bind.
  destruct (deliver_steps c s) as [Hs Hr]. destruct (deliver ctx projectID controller c s) as [r s1].
  simpl in *. subst r. destruct (IH s1). split; [by etrans|done].
Qed.

Lemma reconcile_steps s :
  Inv s ->
  let r := reconcile ctx projectID selection controller provider now_load now_fold now_repair now_claim s in
  rtc store_step s (snd r) /\ fst r <> Err Diverged.
Proof.
  intros Hi. unfold reconcile, mbind, M_bind.
  destruct (plan_moves (project s) s (conj Hi eq_refl)) as [[Hsteps _] Hpost].
  destruct (planDeliveries _ _ _ _ _ _ _ _ s) as [[out|e] s1]; simpl in *; [|split; [done|congruence]].
  destruct (deliver_all_steps (uniqueByCommandID out) s1) as [Hd Hr].
  split; [by etrans|by rewrite Hr].
Qed.
End delivery.
End reconcile.

(** ** Commands are delivered once *)

Lemma unique_from_spec seen cmds :
  NoDup (cmd_ID <$> unique_from seen cmds) /\
  (forall c, c ∈ unique_from seen cmds -> c ∈ cmds /\ cmd_ID c ∉ seen) /\
  (forall c, c ∈ cmds -> cmd_ID c ∈ seen \/ cmd_ID c ∈ cmd_ID <$> unique_from seen cmds).
Proof.
  revert seen. induction cmds as [|c cmds IH]; intros seen; simpl.
  { split_and!; [constructor|..]; by intros ? ?%elem_of_nil. }
  case_bool_decide as Hin.
  - destruct (IH seen) as (H1 & H2 & H3). split_and!; [done| |].
    + intros d Hd. destruct (H2 d Hd). split; [by right|done].
    + intros d [->|Hd]%elem_of_cons; [by left|by apply H3].
  - destruct (IH ({[cmd_ID c]} ∪ seen)) as (H1 & H2 & H3). rewrite fmap_cons. split_and!.
    + constructor; [|done]. intros (d & Heq & Hd)%list_elem_of_fmap.
      destruct (H2 d Hd) as [_ Hn]. apply Hn. rewrite Heq. set_solver.
    + intros d [->|Hd]%elem_of_cons; [split; [by left|done]|].
      destruct (H2 d Hd). split; [by right|set_solver].
    + intros d [->|Hd]%elem_of_cons; [right; by left|].
      destruct (H3 d Hd) as [[->%elem_of_singleton|?]%elem_of_union|?]; [|by left|right; by right].
      right. simpl. by left.
Qed.
