(* ===== verification/Scheduler.v ===== *)
(** * The scheduler

    [internal/scheduler/scheduler.go]: capacity and budget ledgers, and the
    selection of runnable endpoints.  The scheduler is an instance of the
    runtime's selection interface; [Select_length] is the bound the runtime
    relies on.  Costs in dollars are IEEE doubles ([spec_float]). *)

From stdpp Require Import base tactics option list strings gmap sorting.
From Stdlib Require Import ZArith SpecFloat.
From S2P Require Import Prelude GoLib Kernel CoordTypes Validation MemoryStore GraphRuntime.

Record BudgetPolicy := mkPolicy {
  bp_MaxTokens : Z;
  bp_MaxCostUSD : spec_float;
  bp_MaxWallTimeMS : Z;
  bp_MaxAgentInvocations : Z;
  bp_MaxRetries : Z;
  bp_VerifyLevel : string;
  bp_ExplorationLevel : string;
}.

Record BudgetStatus := mkBudget {
  bs_TokensUsed : Z;
  bs_CostUSD : spec_float;
  bs_WallTimeMS : Z;
  bs_AgentInvocationsUsed : Z;
  bs_RetriesUsed : Z;
}.

Definition float_zero : spec_float := S754_zero false.
Definition zeroBudget : BudgetStatus := mkBudget 0 float_zero 0 0 0.
Definition zeroCapacity : RuntimeCapacity := mkCapacity 0 0 0 0.

(** ** Ledgers *)

Definition NewCapacityLedger (healthy desired : Z) : RuntimeCapacity :=
  let healthy := if (healthy <? 0)%Z then 0%Z else healthy in
  let desired := if (desired <? 0)%Z then 0%Z else desired in
  mkCapacity desired healthy 0 1.

(** On an error the Go methods also return the unchanged capacity: it is the
    state. *)
Definition SetDesired (expectedRevision desired : Z) : M error RuntimeCapacity RuntimeCapacity :=
  l ← get_state;
  _ ← lift (fail_if (bool_decide (expectedRevision <> cap_Revision l))
        (RevisionConflict (uint64_wrap expectedRevision) (uint64_wrap (cap_Revision l))));
  _ ← lift (fail_if (desired <? 0)%Z (InvalidArgument "desired concurrency must be zero or greater"));
  _ ← put_state (mkCapacity desired (cap_Healthy l) (cap_Active l) (int_wrap (cap_Revision l + 1)));
  get_state.

Definition CapacityLedger_Observe (healthy active : Z) : M error RuntimeCapacity RuntimeCapacity :=
  l ← get_state;
  _ ← lift (fail_if ((healthy <? 0)%Z || (active <? 0)%Z || (healthy <? active)%Z)
        (InvalidArgument "observed capacity requires 0 <= active <= healthy"));
  if bool_decide (cap_Healthy l = healthy) && bool_decide (cap_Active l = active) then mret l
  else
    _ ← put_state (mkCapacity (cap_Desired l) healthy active (int_wrap (cap_Revision l + 1)));
    get_state.

Definition BudgetLedger_Observe (budget : BudgetStatus) : M error BudgetStatus BudgetStatus :=
  _ ← lift (fail_if ((bs_TokensUsed budget <? 0)%Z || SFltb (bs_CostUSD budget) float_zero ||
                     (bs_WallTimeMS budget <? 0)%Z || (bs_AgentInvocationsUsed budget <? 0)%Z ||
                     (bs_RetriesUsed budget <? 0)%Z)
        (InvalidArgument "budget usage cannot be negative"));
  _ ← put_state budget;
  get_state.

(** A provider whose ledgers may be absent. *)
Definition provideSchedulingState (ctx : Context) (capacity : option RuntimeCapacity)
    (budget : option BudgetStatus) : res (RuntimeSchedulingState BudgetStatus) :=
  _ ← ctx_Err ctx;
  Ok (mkSchedulingState (default zeroCapacity capacity) (default zeroBudget budget)).

(** ** Selection *)

(** [max > 0 && used >= max]. *)
Definition exhausted (max used : Z) : bool := (0 <? max)%Z && (max <=? used)%Z.
Definition exhaustedF (max used : spec_float) : bool := SFltb float_zero max && SFleb max used.

Definition withinBudget (policy : BudgetPolicy) (candidate : RuntimeCandidate) (budget : BudgetStatus) : bool :=
  let verify := bool_decide (ref_EndpointID (ep_Ref (cand_Endpoint candidate)) = EndpointVerify) in
  if exhausted (bp_MaxAgentInvocations policy) (bs_AgentInvocationsUsed budget) then verify
  else if exhausted (bp_MaxRetries policy) (bs_RetriesUsed budget) then verify
  else if exhausted (bp_MaxTokens policy) (bs_TokensUsed budget) then verify
  else if exhaustedF (bp_MaxCostUSD policy) (bs_CostUSD budget) then verify
  else if exhausted (bp_MaxWallTimeMS policy) (bs_WallTimeMS budget) then verify
  else true.

Definition budgetConstrained (policy : BudgetPolicy) (budget : BudgetStatus) : bool :=
  exhausted (bp_MaxAgentInvocations policy) (bs_AgentInvocationsUsed budget) ||
  exhausted (bp_MaxRetries policy) (bs_RetriesUsed budget) ||
  exhausted (bp_MaxTokens policy) (bs_TokensUsed budget) ||
  exhaustedF (bp_MaxCostUSD policy) (bs_CostUSD budget) ||
  exhausted (bp_MaxWallTimeMS policy) (bs_WallTimeMS budget).

Definition score (candidate : RuntimeCandidate) (policy : BudgetPolicy) (budget : BudgetStatus) : Z :=
  let id := ref_EndpointID (ep_Ref (cand_Endpoint candidate)) in
  let value := 0%Z in
  let value := if cand_LatestMainMergeCandidate candidate then (value + 1000)%Z else value in
  let value := if cand_UnblocksDependents candidate then (value + 700)%Z else value in
  let value := if bool_decide (id = EndpointVerify) then (value + 600)%Z
               else if bool_decide (id = EndpointExecute) then (value + 300)%Z
               else if bool_decide (id = EndpointPlan) then (value + 100)%Z else value in
  let value := if cand_Exploratory candidate then (value - 200)%Z else value in
  let value := if budgetConstrained policy budget && bool_decide (id = EndpointVerify)
               then (value + 500)%Z else value in
  int_wrap (value - int_wrap (cand_WriteConflictRisk candidate * 25)).

Definition phaseRank (endpointID : EndpointID) : Z :=
  if bool_decide (endpointID = EndpointPlan) then 0%Z
  else if bool_decide (endpointID = EndpointExecute) then 1%Z
  else if bool_decide (endpointID = EndpointVerify) then 2%Z
  else 99%Z.

Definition endpointLess (left right : PhaseEndpointRef) : bool :=
  if bool_decide (ref_TaskID left = ref_TaskID right)
  then (phaseRank (ref_EndpointID left) <? phaseRank (ref_EndpointID right))%Z
  else string_lt (ref_TaskID left) (ref_TaskID right).

Definition candidate_less (policy : BudgetPolicy) (budget : BudgetStatus) (a b : RuntimeCandidate) : bool :=
  let left := score a policy budget in
  let right := score b policy budget in
  if bool_decide (left = right) then endpointLess (ep_Ref (cand_Endpoint a)) (ep_Ref (cand_Endpoint b))
  else (right <? left)%Z.

(** [if candidate.CapacityCost <= 0 { candidate.CapacityCost = 1 }]. *)
Definition defaultCost (c : RuntimeCandidate) : RuntimeCandidate :=
  if (cand_CapacityCost c <=? 0)%Z then
    mkCandidate (cand_Endpoint c) (cand_Runnable c) 1 (cand_CapabilityMatched c)
      (cand_LatestMainMergeCandidate c) (cand_UnblocksDependents c) (cand_WriteConflictRisk c)
      (cand_Exploratory c)
  else c.

Definition eligible (policy : BudgetPolicy) (available : Z) (budget : BudgetStatus)
    (candidate : RuntimeCandidate) : option RuntimeCandidate :=
  if negb (cand_Runnable candidate) || negb (cand_CapabilityMatched candidate) then None
  else
    let candidate := defaultCost candidate in
    if (available <? cand_CapacityCost candidate)%Z then None
    else if negb (withinBudget policy candidate budget) then None
    else Some candidate.

(** The loop that fills the available capacity in order. *)
Fixpoint fill (available used : Z) (candidates : list RuntimeCandidate) : list RuntimeCandidate :=
  match candidates with
  | [] => []
  | c :: candidates' =>
    if (available <? int_wrap (used + cand_CapacityCost c))%Z then fill available used candidates'
    else c :: fill available (int_wrap (used + cand_CapacityCost c)) candidates'
  end.

Definition pick (policy : BudgetPolicy) (candidates : list RuntimeCandidate) (available : Z)
    (budget : BudgetStatus) : list RuntimeCandidate :=
  fill available 0 (sort_stable (candidate_less policy budget) (omap (eligible policy available budget) candidates)).

Definition Select (policy : BudgetPolicy) (candidates : list RuntimeCandidate) (capacity : RuntimeCapacity)
    (budget : BudgetStatus) : list PhaseEndpoint :=
  let available := Available capacity in
  if (available <=? 0)%Z then [] else cand_Endpoint <$> pick policy candidates available budget.

Definition Scheduler_SelectRunnable (policy : BudgetPolicy) (request : RuntimeSelectionRequest BudgetStatus) :
    res (list PhaseEndpoint) :=
  Ok (Select policy (rq_Candidates request) (rq_Capacity request) (rq_Budget request)).

(** ** Properties *)

Definition total_cost (l : list RuntimeCandidate) : Z := foldr (fun c n => (cand_CapacityCost c + n)%Z) 0%Z l.

(** Half the [int] range: below it the running sum cannot wrap around. *)
Definition int_half : Z := 4611686018427387903.

Lemma fill_sublist available used l : fill available used l `sublist_of` l.
Proof.
  revert used. induction l as [|c l IH]; intros used; simpl; [constructor|].
  destruct (_ <? _)%Z; constructor; apply IH.
Qed.

Lemma fill_spec available used l :
  (0 <= used <= available)%Z -> (available <= int_half)%Z ->
  (forall c, c ∈ l -> (0 < cand_CapacityCost c <= available)%Z) ->
  (used + total_cost (fill available used l) <= available)%Z /\
  (forall c, c ∈ l -> c ∈ fill available used l \/
     (available < used + total_cost (fill available used l) + cand_CapacityCost c)%Z).
Proof.
  revert used. induction l as [|c l IH]; intros used Hu Ha Hc; simpl.
  { split; [lia|]. by intros ? ?%elem_of_nil. }
  assert (0 < cand_CapacityCost c <= available)%Z as Hcc by (apply Hc; by left).
  assert (int_wrap (used + cand_CapacityCost c) = used + cand_CapacityCost c)%Z as Hw.
  { apply int_wrap_id. unfold is_int, int_min, int_max, int_half in *. lia. }
  rewrite Hw. destruct (available <? used + cand_CapacityCost c)%Z eqn:Hlt.
  - apply Z.ltb_lt in Hlt. destruct (IH used Hu Ha) as [H1 H2]; [intros; apply Hc; by right|].
    split; [done|]. intros d [->|Hd]%elem_of_cons; [|by apply H2]. right.
    assert (0 <= total_cost (fill available used l))%Z; [|lia].
    assert (forall k, k ∈ fill available used l -> (0 < cand_CapacityCost k)%Z) as Hpos.
    { intros k Hk. apply Hc. right. by eapply elem_of_submseteq, sublist_submseteq, fill_sublist. }
    clear -Hpos. induction (fill available used l) as [|k m IHm]; simpl; [lia|].
    pose proof (Hpos k ltac:(by left)). specialize (IHm ltac:(intros; apply Hpos; by right)). lia.
  - apply Z.ltb_ge in Hlt. destruct (IH (used + cand_CapacityCost c)%Z) as [H1 H2]; [lia|done|intros; apply Hc; by right|].
    simpl. split; [lia|]. intros d [->|Hd]%elem_of_cons; [left; by left|].
    destruct (H2 d Hd) as [?|?]; [left; by right|right; lia].
Qed.

Lemma eligible_Some policy available budget c c' :
  eligible policy available budget c = Some c' ->
  cand_Runnable c = true /\ cand_CapabilityMatched c = true /\ c' = defaultCost c /\
  (0 < cand_CapacityCost c' <= available)%Z /\ withinBudget policy c' budget = true /\
  cand_Endpoint c' = cand_Endpoint c.
Proof.
  unfold eligible. destruct (_ || _) eqn:Hr; [done|]. bool_inv. cbv zeta.
  destruct (_ <? _)%Z eqn:Hlt; [done|]. destruct (withinBudget _ _ _) eqn:Hb; [|done]. intros [= <-].
  apply Z.ltb_ge in Hlt.
  assert (0 < cand_CapacityCost (defaultCost c))%Z.
  { unfold defaultCost. destruct (_ <=? 0)%Z eqn:Hle; simpl; [lia|]. apply Z.leb_gt in Hle. lia. }
  assert (cand_Endpoint (defaultCost c) = cand_Endpoint c).
  { unfold defaultCost. by destruct (_ <=? 0)%Z. }
  by split_and!.
Qed.

Lemma pick_elem policy candidates available budget c :
  c ∈ pick policy candidates available budget ->
  exists c0, c0 ∈ candidates /\ eligible policy available budget c0 = Some c.
Proof.
  unfold pick. intros Hc. eapply elem_of_submseteq in Hc; [|apply sublist_submseteq, fill_sublist].
  rewrite sort_stable_perm in Hc. by apply list_elem_of_omap in Hc.
Qed.

Lemma pick_spec policy candidates available budget :
  (0 <= available <= int_half)%Z ->
  (total_cost (pick policy candidates available budget) <= available)%Z /\
  (forall c c', c ∈ candidates -> eligible policy available budget c = Some c' ->
     c' ∈ pick policy candidates available budget \/
     (available < total_cost (pick policy candidates available budget) + cand_CapacityCost c')%Z).
Proof.
  intros Ha. destruct (fill_spec available 0 (sort_stable (candidate_less policy budget)
    (omap (eligible policy available budget) candidates))) as [H1 H2]; [lia|lia| |].
  - intros c. rewrite sort_stable_perm. intros (c0 & _ & He)%list_elem_of_omap.
    by apply eligible_Some in He as (_ & _ & _ & ? & _).
  - split; [done|]. intros c c' Hc He. apply H2. rewrite sort_stable_perm. apply list_elem_of_omap. eauto.
Qed.

Lemma length_total_cost l : (forall c, c ∈ l -> (0 < cand_CapacityCost c)%Z) -> (Z.of_nat (length l) <= total_cost l)%Z.
Proof.
  induction l as [|c l IH]; intros Hp; simpl; [lia|].
  pose proof (Hp c ltac:(by left)). specialize (IH ltac:(intros; apply Hp; by right)). lia.
Qed.

(** As many endpoints as the capacity allows, all of them candidates. *)
Lemma Select_length policy candidates capacity budget :
  (Available capacity <= int_half)%Z ->
  (Z.of_nat (length (Select policy candidates capacity budget)) <= Available capacity)%Z.
Proof.
  intros Ha. unfold Select. cbv zeta. destruct (Available capacity <=? 0)%Z eqn:Hz.
  { simpl. unfold Available in *. cbv zeta in *. repeat case_match; lia. }
  apply Z.leb_gt in Hz. rewrite length_fmap.
  destruct (pick_spec policy candidates (Available capacity) budget) as [H1 _]; [lia|].
  etrans; [apply length_total_cost|exact H1]. intros c (c0 & _ & He)%pick_elem.
  apply eligible_Some in He as (_ & _ & _ & ? & _). lia.
Qed.

Lemma Select_elem policy candidates capacity budget e :
  e ∈ Select policy candidates capacity budget ->
  exists c, c ∈ candidates /\ cand_Endpoint c = e /\ cand_Runnable c = true /\ cand_CapabilityMatched c = true /\
    withinBudget policy (defaultCost c) budget = true.
Proof.
  unfold Select. cbv zeta. destruct (_ <=? 0)%Z; [by intros ?%elem_of_nil|].
  intros (c & -> & (c0 & Hin & He)%pick_elem)%list_elem_of_fmap.
  apply eligible_Some in He as (? & ? & -> & ? & ? & ->). by exists c0.
Qed.

(** ** Instances of the runtime's selection interface *)

#[global] Program Instance Scheduler_selection (policy : BudgetPolicy) : RuntimeSelectionRuntime BudgetStatus := {|
  SelectRunnable := Scheduler_SelectRunnable policy;
|}.
Next Obligation. done. Qed.
Next Obligation.
  intros policy req selected e [= <-] (c & Hc & <- & _)%Select_elem. by apply list_elem_of_fmap_2.
Qed.

#[global] Program Instance fixed_selection (Budget : Type) : RuntimeSelectionRuntime Budget := {|
  SelectRunnable := fixedSelect;
|}.
Next Obligation. done. Qed.
Next Obligation.
  intros Budget req selected e [= <-]. unfold selectRuntimeEndpoints.
  assert (forall e, e ∈ runtimeCandidateEndpoints (rq_Candidates req) -> e ∈ cand_Endpoint <$> rq_Candidates req) as Hsub.
  { intros e' (c & -> & [_ Hc]%list_elem_of_filter)%list_elem_of_fmap. by apply list_elem_of_fmap_2. }
  destruct (_ || _); [by intros ?%elem_of_nil|]. destruct (_ <=? _)%Z; [apply Hsub|].
  intros He. apply Hsub. by eapply elem_of_submseteq, sublist_submseteq, sublist_take.
Qed.

(** ** The comparison is a strict weak order *)

#[global] Instance endpointLess_ok :
  LessOk (fun a b : RuntimeCandidate => endpointLess (ep_Ref (cand_Endpoint a)) (ep_Ref (cand_Endpoint b))).
Proof.
  exact (lex_string_ok (fun a => ref_TaskID (ep_Ref (cand_Endpoint a)))
    (fun a => phaseRank (ref_EndpointID (ep_Ref (cand_Endpoint a))))).
Qed.

#[global] Instance candidate_less_ok policy budget : LessOk (candidate_less policy budget).
Proof. exact (lex_desc_ok (fun c => score c policy budget) _). Qed.
