(* ===== verification/RuntimeProps.v ===== *)
(** * Properties of reconciliation and scheduling

    One reconciliation terminates and acts only through store operations; its
    plan stops what the graph no longer supports and stays within capacity when
    the scheduler selects. *)

From stdpp Require Import base tactics option list strings gmap sorting pretty relations.
From Stdlib Require Import ZArith SpecFloat.
From S2P Require Import Prelude GoLib GoStrings Kernel CoordTypes Acyclic Validation GraphSpec Pending Transition.
From S2P Require Import TransitionSpec MemoryStore StoreInv RuntimeView RuntimeSpec CommandStore CommandInv.
From S2P Require Import StoreReach CoordProps GraphRuntime GraphRuntimeSpec ReconcilePlan.
From S2P Require Import Scheduler.

(** ** Helper lemmas *)

Definition capacity_limit (c : RuntimeCapacity) : Z := Z.min (cap_Healthy c) (cap_Desired c).

Lemma Available_eq c n :
  (0 <= capacity_limit c <= int_half)%Z -> (0 <= n <= int_half)%Z ->
  Available (cap_set_Active n c) = Z.max 0 (capacity_limit c - n).
Proof.
  unfold capacity_limit, Available, cap_set_Active. simpl. intros Hl Hn.
  rewrite int_wrap_id by (unfold is_int, int_min, int_max, int_half in *; destruct (_ <? _)%Z eqn:?; lia).
  destruct (cap_Healthy c <? cap_Desired c)%Z eqn:H1; destruct (_ <? 0)%Z eqn:H2; lia.
Qed.

Lemma withinBudget_constrained policy c budget :
  budgetConstrained policy budget = true -> withinBudget policy c budget = true ->
  ref_EndpointID (ep_Ref (cand_Endpoint c)) = EndpointVerify.
Proof.
  unfold budgetConstrained, withinBudget. rewrite !orb_true_iff. cbv zeta.
  repeat destruct (exhausted _ _); destruct (exhaustedF _ _); intros Hc Hw; try by apply bool_decide_eq_true in Hw.
  all: destruct Hc as [[[[?|?]|?]|?]|?]; done.
Qed.

Lemma defaultCost_endpoint c : cand_Endpoint (defaultCost c) = cand_Endpoint c.
Proof. unfold defaultCost. by destruct (_ <=? 0)%Z. Qed.

Lemma sublist_sorted {A} (R : A -> A -> Prop) (l1 l2 : list A) :
  l1 `sublist_of` l2 -> StronglySorted R l2 -> StronglySorted R l1.
Proof.
  induction 1 as [|x l1 l2 Hs IH|x l1 l2 Hs IH]; [done| |]; intros [Hl Hall]%StronglySorted_cons.
  - constructor; [by apply IH|]. rewrite Forall_forall in *. intros y Hy. apply Hl.
    by eapply elem_of_submseteq, sublist_submseteq.
  - by apply IH.
Qed.

(** What a ledger holds. *)
Definition ledger_ok (c : RuntimeCapacity) : Prop :=
  (0 <= cap_Active c <= cap_Healthy c)%Z /\ (0 <= cap_Desired c)%Z.

Section reconcile.
Context `{GR : GoRuntime} {Budget : Type} (selection : RuntimeSelectionRuntime Budget).
Context (ctx : Context) (id : ProjectID) (controller : option PhaseController).
Context (provider : res (RuntimeSchedulingState Budget)).
Context (t1 t2 t3 : Time) (tc : PhaseEndpoint -> Time).

(** ** Reconciliation *)

(** C6: a reconciliation always returns, for any phase controller, scheduling
    state and selection strategy that picks among the candidates it is offered:
    its selection loop never exhausts its bound,
    and everything it does to the store, including what the controller does while
    a command is delivered, is a sequence of store operations, so the store stays
    reachable and keeps every invariant. *)
Theorem reconcile_terminates_safely (s : MemoryStore) (Hr : reachable s)
    (Hctx : ctx <> Some Diverged) (Hprov : provider <> Err Diverged) :
  let r := reconcile ctx id selection controller provider t1 t2 t3 tc s in
  rtc store_step s (snd r) /\ reachable (snd r) /\ store_all project_inv (snd r) /\ fst r <> Err Diverged.
Proof.
  intros r. pose proof (reachable_inv s Hr) as Hi.
  destruct (reconcile_steps ctx id Hctx selection provider Hprov t1 t2 t3 tc controller s Hi) as [Hs Hf].
  split_and!; [done|by unfold reachable in *; etrans|by eapply steps_inv|done].
Qed.

(** C7: planning only coordinates: whether it succeeds or fails it leaves the graph
    and its revision as they were, and when it succeeds every active lease whose
    execution the graph no longer supports (task finished, endpoint held, moved to
    another generation or binding) has a stop command.  This is a plan that runs with
    no other writer between its calls of the store. *)
Theorem plan_stops_unsupported (s : MemoryStore) (Hr : reachable s) (Hctx : ctx <> Some Diverged) (Hprov : provider <> Err Diverged) :
  let r := planDeliveries ctx id selection provider t1 t2 t3 tc s in
  let p := ensureProject id s in let p1 := ensureProject id r.2 in
  pj_current p1 = pj_current p /\ pj_latest p1 = pj_latest p /\
  (is_ok r.1 = true -> forall k l, rt_leases (pj_runtime p1) !! k = Some l -> ls_State l = "active" ->
    (forall e t, g_endpoints (pj_current p1) !! ls_Endpoint l = Some e ->
       g_tasks (pj_current p1) !! ref_TaskID (ls_Endpoint l) = Some t ->
       task_Outcome t <> TaskActive \/ ep_RunPolicy e = RunHeld \/
       ep_Generation e <> ls_Generation l \/ ep_BindingRef e <> ls_BindingRef l) ->
    is_Some (rt_commands (pj_runtime p1) !! stopCommandIDOf k)).
Proof.
  intros r p p1.
  destruct (plan_moves ctx id Hctx selection provider Hprov t1 t2 t3 tc p s (conj (reachable_inv s Hr) eq_refl))
    as [[_ [Hl Hc _]] Hpost]. fold r in Hl, Hc, Hpost. split_and!; [done|done|]. intros Hok. destruct r as [[out|e] s1]; [|done]. simpl in *. by destruct Hpost as (_ & Hst & _).
Qed.
End reconcile.

Section capacity.
Context `{GR : GoRuntime}.
Context (ctx : Context) (id : ProjectID) (policy : BudgetPolicy) (state : RuntimeSchedulingState BudgetStatus).
Context (t1 t2 t3 : Time) (tc : PhaseEndpoint -> Time).

(** C8: capacity is respected end to end: when the scheduler selects, one plan
    never leaves more active leases than the larger of what was active before and
    the limit min(healthy, desired). *)
Theorem plan_within_capacity (s s1 : MemoryStore) (out : list PhaseCommand) (Hr : reachable s)
    (Hctx : ctx <> Some Diverged)
    (Hlimit : (0 <= capacity_limit (ss_Capacity state) <= int_half)%Z)
    (Hactive : (Z.of_nat (active_count (ensureProject id s)) <= int_half)%Z)
    (Hrun : planDeliveries ctx id (Scheduler_selection policy) (Ok state) t1 t2 t3 tc s = (Ok out, s1)) :
  (Z.of_nat (active_count (ensureProject id s1)) <=
   Z.max (Z.of_nat (active_count (ensureProject id s))) (capacity_limit (ss_Capacity state)))%Z.
Proof.
  assert (Ok state <> Err Diverged :> res _) as Hprov by done.
  destruct (plan_moves ctx id Hctx (Scheduler_selection policy) (Ok state) Hprov t1 t2 t3 tc (ensureProject id s) s
    (conj (reachable_inv s Hr) eq_refl)) as [_ Hpost]. rewrite Hrun in Hpost. simpl in Hpost.
  destruct Hpost as (_ & _ & st & n & k & [= <-] & Hn & Hk & Hb).
  set (cap := cap_set_Active (Z.of_nat n) (ss_Capacity state)) in Hb.
  assert (Available cap = Z.max 0 (capacity_limit (ss_Capacity state) - Z.of_nat n)) as Hav
    by (apply Available_eq; [done|lia]).
  assert (k <= Z.to_nat (Available cap)); [|lia].
  apply Hb. intros candidates selected [= <-]. simpl.
  pose proof (Select_length policy candidates cap (ss_Budget state)). lia.
Qed.
End capacity.

(** Deliveries are deduplicated: the delivered list has no command id twice,
    contains only planned commands, and every planned command id is delivered. *)
Theorem deliveries_unique (cmds : list PhaseCommand) :
  NoDup (cmd_ID <$> uniqueByCommandID cmds) /\
  (forall c, c ∈ uniqueByCommandID cmds -> c ∈ cmds) /\
  (forall c, c ∈ cmds -> cmd_ID c ∈ cmd_ID <$> uniqueByCommandID cmds).
Proof.
  destruct (unique_from_spec ∅ cmds) as (H1 & H2 & H3). split_and!; [done| |].
  - intros c Hc. by apply H2.
  - intros c Hc. destruct (H3 c Hc) as [?%elem_of_empty|?]; done.
Qed.

(** ** The scheduler *)

(** A selection fits and is maximal: the selected candidates cost at most the
    available capacity, come in score order, each is an offered, runnable,
    capability-matched candidate within budget, and an eligible candidate left
    out would not have fitted in the remaining capacity. *)
Theorem selection_fits_and_maximal (policy : BudgetPolicy) (candidates : list RuntimeCandidate) (available : Z)
    (budget : BudgetStatus) (Ha : (0 <= available <= int_half)%Z) :
  let picked := pick policy candidates available budget in
  (total_cost picked <= available)%Z /\
  StronglySorted (sorts_by (candidate_less policy budget)) picked /\
  (forall c, c ∈ picked -> exists c0, c0 ∈ candidates /\ c = defaultCost c0 /\ cand_Runnable c0 = true /\
     cand_CapabilityMatched c0 = true /\ withinBudget policy c budget = true) /\
  (forall c c', c ∈ candidates -> eligible policy available budget c = Some c' ->
     c' ∈ picked \/ (available < total_cost picked + cand_CapacityCost c')%Z).
Proof.
  intros picked. destruct (pick_spec policy candidates available budget Ha) as [H1 H2].
  split_and!; [done| | |done].
  - eapply sublist_sorted; [apply fill_sublist|]. apply sort_stable_sorted, _.
  - intros c (c0 & Hin & He)%pick_elem. apply eligible_Some in He as (? & ? & -> & _ & ? & _). by exists c0.
Qed.

(** Once any budget dimension is exhausted, only verify phases are started. *)
Theorem exhausted_budget_verifies (policy : BudgetPolicy) (candidates : list RuntimeCandidate)
    (capacity : RuntimeCapacity) (budget : BudgetStatus) (e : PhaseEndpoint)
    (Hb : budgetConstrained policy budget = true) (He : e ∈ Select policy candidates capacity budget) :
  ref_EndpointID (ep_Ref e) = EndpointVerify.
Proof.
  apply Select_elem in He as (c & _ & <- & _ & _ & Hw).
  rewrite <- (defaultCost_endpoint c). by eapply withinBudget_constrained.
Qed.

(** The capacity ledger keeps 0 <= active <= healthy and a non-negative
    desired concurrency through every operation; a rejected operation changes
    nothing, and one based on an outdated revision is rejected. *)
Theorem capacity_ledger_consistent (c : RuntimeCapacity) (expected desired healthy active : Z) (Hok : ledger_ok c) :
  ledger_ok (snd (SetDesired expected desired c)) /\ ledger_ok (snd (CapacityLedger_Observe healthy active c)) /\
  (forall err, fst (SetDesired expected desired c) = Err err -> snd (SetDesired expected desired c) = c) /\
  (forall err, fst (CapacityLedger_Observe healthy active c) = Err err ->
     snd (CapacityLedger_Observe healthy active c) = c) /\
  (expected <> cap_Revision c -> exists err, fst (SetDesired expected desired c) = Err err).
Proof.
  unfold SetDesired, CapacityLedger_Observe, mbind, M_bind, lift, get_state, put_state, mret, M_ret, fail_if.
  destruct Hok as [Hact Hd]. split_and!.
  - case_bool_decide; [done|]. destruct (desired <? 0)%Z eqn:Hneg; [done|]. simpl. split; simpl; [done|lia].
  - destruct (_ || _) eqn:Hg; [done|]. destruct (_ && _); [done|]. split; simpl; [|done].
    rewrite !orb_false_iff, !Z.ltb_ge in Hg. lia.
  - case_bool_decide; [done|]. by destruct (desired <? 0)%Z.
  - destruct (_ || _); [done|]. by destruct (_ && _).
  - intros Hne. rewrite bool_decide_true by done. by eexists.
Qed.

(** ** Witnesses *)

#[local] Existing Instance GoRuntime_list.

Definition sample_policy : BudgetPolicy := mkPolicy 1000 float_zero 0 0 0 "" "".
Definition sample_state : RuntimeSchedulingState BudgetStatus := mkSchedulingState (mkCapacity 1 2 0 1) zeroBudget.

(** A controller that accepts every command and records that the phase started. *)
#[local] Program Instance recording_controller : PhaseController := {|
  Apply cmd := fun s => (Ok tt, run_op (OpRecordPhase None pid cmd phaseObservationStarted "" false) s);
|}.
Next Obligation.
  intros cmd s. apply rtc_once. exact (simple_step (OpRecordPhase None pid cmd phaseObservationStarted "" false) s I).
Qed.

Definition sample_reconcile : M error MemoryStore unit :=
  reconcile None pid (Scheduler_selection sample_policy) (Some recording_controller) (Ok sample_state) 50 60 70
    (fun _ => 80%Z).

Lemma reconcile_terminates_safely_witness :
  fst (sample_reconcile planned_store) = Ok tt /\ reachable (snd (sample_reconcile planned_store)).
Proof.
  split; [vm_compute; reflexivity|].
  apply (reconcile_terminates_safely (Scheduler_selection sample_policy) None pid (Some recording_controller)
    (Ok sample_state) 50 60 70 (fun _ => 80%Z) planned_store planned_reachable); discriminate.
Defined.

(** The leased plan phase of [t1] is put on hold. *)
Definition hold_t1 : GraphTransition := endpoint_transition (ref "t1" "plan") "held" zeroResult.
Definition held_store : MemoryStore := run_op (OpTransition pid 2 hold_t1) claimed_store.

Lemma held_reachable : reachable held_store.
Proof. eapply rtc_r; [apply claimed_reachable|]. exact (simple_step (OpTransition pid 2 hold_t1) claimed_store I). Qed.

Definition held_plan : M error MemoryStore (list PhaseCommand) :=
  planDeliveries None pid (Scheduler_selection sample_policy) (Ok sample_state) 150 160 170 (fun _ => 180%Z).
Definition held_lease : phaseLease :=
  mkLease "lease:t1:plan:1" (ref "t1" "plan") 1 "binding:t1plan" "active" (leaseDeadline 100) false.
Definition held_stop : PhaseCommand := stopCommandOf 3 held_lease.

Lemma held_plan_run : held_plan held_store = (Ok [held_stop], snd (held_plan held_store)).
Proof. vm_compute. reflexivity. Qed.

Lemma plan_stops_unsupported_witness :
  is_Some (rt_commands (pj_runtime (ensureProject pid (snd (held_plan held_store)))) !! "cmd:stop:lease:t1:plan:1").
Proof.
  destruct (plan_stops_unsupported (Scheduler_selection sample_policy) None pid (Ok sample_state) 150 160 170
    (fun _ => 180%Z) held_store held_reachable ltac:(discriminate) ltac:(discriminate)) as (_ & _ & Hstop).
  apply (Hstop ltac:(vm_compute; reflexivity) "lease:t1:plan:1" held_lease).
  - vm_compute. reflexivity.
  - reflexivity.
  - intros e t He _. right. left. vm_compute in He. injection He as <-. reflexivity.
Defined.

Definition sample_plan : M error MemoryStore (list PhaseCommand) :=
  planDeliveries None pid (Scheduler_selection sample_policy) (Ok sample_state) 50 60 70 (fun _ => 80%Z).

Lemma plan_within_capacity_witness :
  (Z.of_nat (active_count (ensureProject pid (snd (sample_plan planned_store)))) <= 1)%Z.
Proof.
  assert (exists c, sample_plan planned_store = (Ok [c], snd (sample_plan planned_store))) as [c Hrun]
    by (eexists; vm_compute; reflexivity).
  apply (plan_within_capacity None pid sample_policy sample_state 50 60 70 (fun _ => 80%Z) planned_store
    (snd (sample_plan planned_store)) [c] planned_reachable).
  - discriminate.
  - vm_compute. split; discriminate.
  - vm_compute. discriminate.
  - exact Hrun.
Defined.

Definition sample_candidates : list RuntimeCandidate :=
  [mkCandidate (endpoint_of "t1" "plan") true 1 true false false 0 false;
   mkCandidate (endpoint_of "t2" "verify") true 2 true false true 1 false].

Lemma selection_fits_and_maximal_witness :
  (total_cost (pick sample_policy sample_candidates 2 zeroBudget) <= 2)%Z.
Proof.
  apply (selection_fits_and_maximal sample_policy sample_candidates 2 zeroBudget). vm_compute. split; discriminate.
Defined.

Lemma exhausted_budget_verifies_witness :
  ref_EndpointID (ep_Ref (endpoint_of "t2" "verify")) = EndpointVerify.
Proof.
  apply (exhausted_budget_verifies sample_policy sample_candidates (mkCapacity 3 3 0 1)
    (mkBudget 1000 float_zero 0 0 0)).
  - vm_compute. reflexivity.
  - apply (list_elem_of_lookup_2 _ 0). vm_compute. reflexivity.
Defined.

Lemma capacity_ledger_consistent_witness : ledger_ok (snd (SetDesired 1 5 (NewCapacityLedger 4 (-2)))).
Proof.
  apply (capacity_ledger_consistent (NewCapacityLedger 4 (-2)) 1 5 4 0). split; [split|]; vm_compute; discriminate.
Defined.
