(* ===== verification/Idempotency.v ===== *)
(** * Idempotent execution

    [internal/kernel/idempotency.go].  [Execute] is the sequential reading of
    the method, for callers that do not overlap.  Module [Concurrent] models
    overlapping callers: records live on a heap and are shared by pointer, each
    caller is a thread whose program counter stops between the mutex sections,
    the executor call and the channel operations of the source.  SHA-256 is a
    parameter: nothing but its being a function is used. *)

From stdpp Require Import base tactics option list strings gmap relations.
From Stdlib Require Import ZArith Ascii.
From S2P Require Import Prelude GoLib Kernel.

Record IdempotencyResponse := mkResponse {
  ir_StatusCode : Z;
  ir_Body : string;
}.

#[global] Instance IdempotencyResponse_eq_dec : EqDecision IdempotencyResponse.
Proof. solve_decision. Defined.

Definition zeroResponse : IdempotencyResponse := mkResponse 0 "".

Abbreviation recordKey := (string * string)%type.

(** The runes compared are single bytes, and no byte of a longer rune equals
    one of them. *)
Fixpoint stringsBlank (value : string) : bool :=
  match value with
  | EmptyString => true
  | String c rest =>
    let n := N_of_ascii c in
    if negb (n =? 32)%N && negb (n =? 9)%N && negb (n =? 10)%N && negb (n =? 13)%N then false
    else stringsBlank rest
  end.

Definition validateExecute (scope key : string) : res unit :=
  _ ← fail_if (stringsBlank scope) (InvalidArgument "idempotency scope is required");
  fail_if (IsZeroID key) (InvalidArgument "idempotency key is required").

(** ** Sequential execution

    Between calls every record of the map is committed: a failed execution has
    removed its record. *)
Record idempotencyRecord := mkRecord {
  rec_payloadHash : string;
  rec_response : IdempotencyResponse;
}.

Abbreviation IdempotencyStore := (gmap recordKey idempotencyRecord).

Section sequential.
Context (hashPayload : string -> string).
Context {S : Type}.

(** [S] is the state the executor works on. *)
Definition Execute (scope key payload : string) (execute : M error S IdempotencyResponse) :
    M error (IdempotencyStore * S) IdempotencyResponse := fun st =>
  let '(records, s) := st in
  match validateExecute scope key with
  | Err e => (Err e, st)
  | Ok _ =>
    match records !! (scope, key) with
    | Some record =>
      if bool_decide (rec_payloadHash record <> hashPayload payload) then (Err IdempotencyConflict, st)
      else (Ok (rec_response record), st)
    | None =>
      match execute s with
      | (Err e, s') => (Err e, (records, s'))
      | (Ok response, s') =>
        (Ok response, (<[(scope, key) := mkRecord (hashPayload payload) response]> records, s'))
      end
    end
  end.

(** A repeated call returns the recorded response and does not run the
    executor again. *)
Lemma Execute_replay scope key payload (ex ex' : M error S IdempotencyResponse) st r st' :
  Execute scope key payload ex st = (Ok r, st') ->
  Execute scope key payload ex' st' = (Ok r, st').
Proof.
  destruct st as [records s]. unfold Execute. destruct (validateExecute scope key) as [u|e]; [|done].
  destruct (records !! (scope, key)) as [record|] eqn:Hr.
  - case_bool_decide as Hh; [done|]. intros [= <- <-]. rewrite Hr, Hh. by rewrite bool_decide_false by auto.
  - destruct (ex s) as [[r'|e] s'] eqn:Hex; [|done]. intros [= <- <-].
    rewrite lookup_insert_eq. simpl. by rewrite bool_decide_false by auto.
Qed.

Lemma Execute_failed scope key payload (ex : M error S IdempotencyResponse) records s e st' :
  Execute scope key payload ex (records, s) = (Err e, st') -> st'.1 = records.
Proof.
  unfold Execute. destruct (validateExecute scope key); [|by intros [= _ <-]].
  destruct (records !! (scope, key)).
  - case_bool_decide; by intros [= _ <-].
  - destruct (ex s) as [[?|?] ?]; intros [= _ <-]; done.
Qed.

Lemma Execute_run scope key payload (ex : M error S IdempotencyResponse) records s r st' :
  Execute scope key payload ex (records, s) = (Ok r, st') ->
  (st' = (records, s) /\ exists record, records !! (scope, key) = Some record /\
     rec_response record = r /\ rec_payloadHash record = hashPayload payload) \/
  (records !! (scope, key) = None /\ exists s', ex s = (Ok r, s') /\
     st' = (<[(scope, key) := mkRecord (hashPayload payload) r]> records, s')).
Proof.
  unfold Execute. destruct (validateExecute scope key); [|done].
  destruct (records !! (scope, key)) as [record|] eqn:Hr.
  - case_bool_decide as Hh; [done|]. intros [= <- <-]. left. split; [done|]. by exists record.
  - destruct (ex s) as [[r'|e] s'] eqn:Hex; [|done]. intros [= <- <-]. right. split; [done|]. by exists s'.
Qed.
End sequential.

(** ** Overlapping calls *)

Module Concurrent.

Abbreviation loc := nat.
Abbreviation tid := nat.

(** [idempotencyRecord] on the heap; [hr_key] is ghost: the key it was
    allocated for. *)
Record heapRecord := mkHeapRecord {
  hr_key : recordKey;
  hr_payloadHash : string;
  hr_done : bool;
  hr_response : IdempotencyResponse;
  hr_err : option error;
}.

Inductive pc :=
| Start
| Owner (r : loc)
| Executed (r : loc) (res : result error IdempotencyResponse)
| Closing (r : loc) (res : result error IdempotencyResponse)
| Waiting (r : loc)
| Finished (res : result error IdempotencyResponse).

Record thread := mkThread {
  th_key : recordKey;
  th_hash : string;
  th_pc : pc;
}.

Definition th_set_pc (p : pc) (t : thread) : thread := mkThread (th_key t) (th_hash t) p.

(** [log] is ghost: the executor calls in order, with their results. *)
Record config := mkConfig {
  records : gmap recordKey loc;
  heap : gmap loc heapRecord;
  threads : gmap tid thread;
  log : list (recordKey * string * result error IdempotencyResponse);
}.

Definition set_thread (i : tid) (t : thread) (c : config) : config :=
  mkConfig (records c) (heap c) (<[i := t]> (threads c)) (log c).
Definition set_heap (r : loc) (h : heapRecord) (c : config) : config :=
  mkConfig (records c) (<[r := h]> (heap c)) (threads c) (log c).

Definition hr_set_response (x : IdempotencyResponse) (h : heapRecord) : heapRecord :=
  mkHeapRecord (hr_key h) (hr_payloadHash h) (hr_done h) x (hr_err h).
Definition hr_set_err (e : error) (h : heapRecord) : heapRecord :=
  mkHeapRecord (hr_key h) (hr_payloadHash h) (hr_done h) (hr_response h) (Some e).
Definition hr_close (h : heapRecord) : heapRecord :=
  mkHeapRecord (hr_key h) (hr_payloadHash h) true (hr_response h) (hr_err h).

(** [reserve], one mutex section. *)
Definition reserve (i : tid) (t : thread) (fresh : loc) (c : config) : config :=
  match records c !! th_key t with
  | Some r =>
    match heap c !! r with
    | Some h =>
      if bool_decide (hr_payloadHash h <> th_hash t)
      then set_thread i (th_set_pc (Finished (Err IdempotencyConflict)) t) c
      else set_thread i (th_set_pc (Waiting r) t) c
    | None => c
    end
  | None =>
    mkConfig (<[th_key t := fresh]> (records c))
      (<[fresh := mkHeapRecord (th_key t) (th_hash t) false zeroResponse None]> (heap c))
      (<[i := th_set_pc (Owner fresh) t]> (threads c)) (log c)
  end.

(** The mutex section of [commit]. *)
Definition commit (i : tid) (t : thread) (r : loc) (h : heapRecord) (x : IdempotencyResponse) (c : config) : config :=
  let c := if bool_decide (records c !! th_key t = Some r) then set_heap r (hr_set_response x h) c else c in
  set_thread i (th_set_pc (Closing r (Ok x)) t) c.

(** The mutex section of [releaseFailed]. *)
Definition releaseFailed (i : tid) (t : thread) (r : loc) (h : heapRecord) (e : error) (c : config) : config :=
  let rs := if bool_decide (records c !! th_key t = Some r) then delete (th_key t) (records c) else records c in
  mkConfig rs (<[r := hr_set_err e h]> (heap c)) (<[i := th_set_pc (Closing r (Err e)) t]> (threads c)) (log c).

(** What [await] returns once the channel is closed. *)
Definition await_result (h : heapRecord) : result error IdempotencyResponse :=
  match hr_err h with Some e => Err e | None => Ok (hr_response h) end.

Inductive step (c : config) : config -> Prop :=
| step_call i key hash :
    threads c !! i = None -> step c (set_thread i (mkThread key hash Start) c)
| step_reserve i t fresh :
    threads c !! i = Some t -> th_pc t = Start -> heap c !! fresh = None ->
    step c (reserve i t fresh c)
| step_execute i t r res :
    threads c !! i = Some t -> th_pc t = Owner r ->
    step c (mkConfig (records c) (heap c) (<[i := th_set_pc (Executed r res) t]> (threads c))
              (log c ++ [(th_key t, th_hash t, res)]))
| step_commit i t r h x :
    threads c !! i = Some t -> th_pc t = Executed r (Ok x) -> heap c !! r = Some h ->
    step c (commit i t r h x c)
| step_release i t r h e :
    threads c !! i = Some t -> th_pc t = Executed r (Err e) -> heap c !! r = Some h ->
    step c (releaseFailed i t r h e c)
| step_close i t r h res :
    threads c !! i = Some t -> th_pc t = Closing r res -> heap c !! r = Some h ->
    step c (set_thread i (th_set_pc (Finished res) t) (set_heap r (hr_close h) c))
| step_await i t r h :
    threads c !! i = Some t -> th_pc t = Waiting r -> heap c !! r = Some h -> hr_done h = true ->
    step c (set_thread i (th_set_pc (Finished (await_result h)) t) c)
| step_cancel i t r e :
    threads c !! i = Some t -> th_pc t = Waiting r ->
    step c (set_thread i (th_set_pc (Finished (Err e)) t) c).

Definition init : config := mkConfig ∅ ∅ ∅ [].
Definition reach (c : config) : Prop := rtc step init c.

(** ** The invariant *)

(** The record a thread is responsible for. *)
Definition holds (t : thread) : option loc :=
  match th_pc t with
  | Owner r | Executed r _ | Closing r _ => Some r
  | _ => None
  end.

(** What each program counter guarantees. *)
Definition thread_ok (c : config) (t : thread) : Prop :=
  match th_pc t with
  | Start => True
  | Owner r => records c !! th_key t = Some r /\
      heap c !! r = Some (mkHeapRecord (th_key t) (th_hash t) false zeroResponse None)
  | Executed r res => records c !! th_key t = Some r /\
      heap c !! r = Some (mkHeapRecord (th_key t) (th_hash t) false zeroResponse None) /\
      (th_key t, th_hash t, res) ∈ log c
  | Closing r (Ok x) => records c !! th_key t = Some r /\
      heap c !! r = Some (mkHeapRecord (th_key t) (th_hash t) false x None) /\
      (th_key t, th_hash t, Ok x) ∈ log c
  | Closing r (Err e) => records c !! th_key t <> Some r /\
      exists x, heap c !! r = Some (mkHeapRecord (th_key t) (th_hash t) false x (Some e))
  | Waiting r => exists h, heap c !! r = Some h /\ hr_key h = th_key t /\ hr_payloadHash h = th_hash t
  | Finished (Ok x) => (th_key t, th_hash t, Ok x) ∈ log c
  | Finished (Err _) => True
  end.

Record inv (c : config) : Prop := {
  inv_threads : forall i t, threads c !! i = Some t -> thread_ok c t;
  inv_unique : forall i j t u r, threads c !! i = Some t -> threads c !! j = Some u ->
    holds t = Some r -> holds u = Some r -> i = j;
  inv_records : forall k r, records c !! k = Some r -> exists h, heap c !! r = Some h /\ hr_key h = k;
  inv_done : forall r h, heap c !! r = Some h -> hr_done h = true -> hr_err h = None ->
    (hr_key h, hr_payloadHash h, Ok (hr_response h)) ∈ log c;
  (* a logged success occupies its key for good *)
  inv_success : forall k hash x, (k, hash, Ok x) ∈ log c ->
    exists r h, records c !! k = Some r /\ heap c !! r = Some h /\ hr_payloadHash h = hash /\
      forall i t, threads c !! i = Some t -> holds t = Some r ->
        th_pc t = Executed r (Ok x) \/ th_pc t = Closing r (Ok x);
  inv_once : forall k, length (filter (fun en => en.1.1 = k /\ is_ok en.2 = true) (log c)) <= 1;
}.

(** A step of one thread keeps what another thread relies on. *)
Record keeps (c c' : config) (t : thread) : Prop := {
  kp_heap : forall r, holds t = Some r -> heap c' !! r = heap c !! r;
  kp_records : forall r, holds t = Some r -> records c' !! th_key t = Some r <-> records c !! th_key t = Some r;
  kp_ids : forall r h, heap c !! r = Some h ->
    exists h', heap c' !! r = Some h' /\ hr_key h' = hr_key h /\ hr_payloadHash h' = hr_payloadHash h;
  kp_log : forall en, en ∈ log c -> en ∈ log c';
}.

Lemma thread_ok_keeps c c' t : keeps c c' t -> thread_ok c t -> thread_ok c' t.
Proof.
  intros [Hh Hr Hi Hl]. unfold holds, thread_ok in *.
  destruct (th_pc t) as [|r|r res|r [x|e]|r|[x|e]]; try done.
  - rewrite (Hh r eq_refl), (Hr r eq_refl). done.
  - rewrite (Hh r eq_refl), (Hr r eq_refl). naive_solver.
  - rewrite (Hh r eq_refl), (Hr r eq_refl). naive_solver.
  - rewrite (Hh r eq_refl), (Hr r eq_refl). done.
  - intros (h & Hhp & Hk & Hp). destruct (Hi r h Hhp) as (h' & ? & ? & ?). exists h'. split_and!; congruence.
  - apply Hl.
Qed.

Lemma keeps_refl c c' t :
  heap c' = heap c -> records c' = records c -> (forall en, en ∈ log c -> en ∈ log c') -> keeps c c' t.
Proof.
  intros Hh Hr Hl. split; rewrite ?Hh, ?Hr; try done. intros r h ?. by exists h.
Qed.

(** A thread that holds a record knows its identity. *)
Lemma holds_heap c t r : thread_ok c t -> holds t = Some r ->
  exists h, heap c !! r = Some h /\ hr_key h = th_key t /\ hr_payloadHash h = th_hash t /\ hr_done h = false.
Proof.
  unfold thread_ok, holds. destruct (th_pc t) as [|?|? ?|? [x|e]|?|?]; intros Hok [= ->].
  - destruct Hok as [_ ->]. eexists. split; [done|]. done.
  - destruct Hok as (_ & -> & _). eexists. split; [done|]. done.
  - destruct Hok as (_ & -> & _). eexists. split; [done|]. done.
  - destruct Hok as (_ & x & ->). eexists. split; [done|]. done.
Qed.

Lemma once_app k (l : list (recordKey * string * result error IdempotencyResponse)) en :
  filter (fun en => en.1.1 = k /\ is_ok en.2 = true) (l ++ [en]) =
  filter (fun en => en.1.1 = k /\ is_ok en.2 = true) l ++
    (if decide (en.1.1 = k /\ is_ok en.2 = true) then [en] else []).
Proof. rewrite filter_app, filter_cons, filter_nil. done. Qed.

(** Threads after one of them moved. *)
Lemma lookup_moved (m : gmap tid thread) i t j u :
  <[i := t]> m !! j = Some u -> (j = i /\ u = t) \/ (j <> i /\ m !! j = Some u).
Proof. rewrite lookup_insert_Some. naive_solver. Qed.

(** Shared shape of a step of thread [i]: everyone else is kept, the thread
    itself is checked, no new record is held. *)
Lemma inv_threads_step c c' i t t' :
  inv c -> threads c !! i = Some t -> threads c' = <[i := t']> (threads c) ->
  (forall j u, j <> i -> threads c !! j = Some u -> keeps c c' u) -> thread_ok c' t' ->
  forall j u, threads c' !! j = Some u -> thread_ok c' u.
Proof.
  intros Hi Ht -> Hk Hok j u [[-> ->]|[Hne Hu]]%lookup_moved; [done|].
  eapply thread_ok_keeps; [by eapply Hk|by eapply (inv_threads _ Hi)].
Qed.

Lemma inv_unique_step c c' i t t' :
  inv c -> threads c !! i = Some t -> threads c' = <[i := t']> (threads c) ->
  (holds t' = None \/ holds t' = holds t) ->
  forall j k u w r, threads c' !! j = Some u -> threads c' !! k = Some w ->
    holds u = Some r -> holds w = Some r -> j = k.
Proof.
  intros Hi Ht -> Hh j k u w r [[-> ->]|[Hj Hu]]%lookup_moved [[-> ->]|[Hk Hw]]%lookup_moved Hur Hwr; try done.
  - destruct Hh as [Hh|Hh]; [congruence|]. rewrite Hh in Hur. by eapply (inv_unique _ Hi).
  - destruct Hh as [Hh|Hh]; [congruence|]. rewrite Hh in Hwr. by eapply (inv_unique _ Hi).
  - by eapply (inv_unique _ Hi).
Qed.

(** Steps that only change the thread. *)
Lemma inv_local c i t p :
  inv c -> threads c !! i = Some t -> holds (th_set_pc p t) = None ->
  thread_ok c (th_set_pc p t) -> inv (set_thread i (th_set_pc p t) c).
Proof.
  intros Hi Ht Hh Hok. split.
  - eapply (inv_threads_step c); [done|done|done| |done]. intros. by apply keeps_refl.
  - eapply (inv_unique_step c); [done|done|done|by left].
  - apply (inv_records _ Hi).
  - apply (inv_done _ Hi).
  - intros k hash x Hin. destruct (inv_success _ Hi _ _ _ Hin) as (r & h & Hr & Hhp & Hp & Hn).
    exists r, h. split_and!; try done. intros j u [[-> ->]|[_ Hu]]%lookup_moved Hur; [congruence|by eapply Hn].
  - apply (inv_once _ Hi).
Qed.

Lemma inv_call c i key hash :
  inv c -> threads c !! i = None -> inv (set_thread i (mkThread key hash Start) c).
Proof.
  intros Hi Ht. split; simpl.
  - intros j u [[-> ->]|[_ Hu]]%lookup_moved; [done|].
    apply (thread_ok_keeps c); [by apply keeps_refl|by eapply (inv_threads _ Hi)].
  - intros j k u w r [[-> ->]|[Hj Hu]]%lookup_moved [[-> ->]|[Hk Hw]]%lookup_moved Hur Hwr; try done.
    by eapply (inv_unique _ Hi).
  - apply (inv_records _ Hi).
  - apply (inv_done _ Hi).
  - intros k h0 x Hin. destruct (inv_success _ Hi _ _ _ Hin) as (r & h & Hr & Hhp & Hp & Hn).
    exists r, h. split_and!; try done. intros j u [[-> ->]|[_ Hu]]%lookup_moved Hur; [done|by eapply Hn].
  - apply (inv_once _ Hi).
Qed.

(** Reserving a new record. *)
Lemma inv_reserve_new c i t fresh :
  inv c -> threads c !! i = Some t -> th_pc t = Start -> heap c !! fresh = None ->
  records c !! th_key t = None -> inv (reserve i t fresh c).
Proof.
  intros Hi Ht Hpc Hf Hr. unfold reserve. rewrite Hr.
  assert (forall j u r, threads c !! j = Some u -> holds u = Some r -> r <> fresh) as Hne.
  { intros j u r Hu Hh ->. destruct (holds_heap c u fresh) as (h & ? & _); [by eapply (inv_threads _ Hi)|done|congruence]. }
  split.
  - eapply (inv_threads_step c); [done|done|done| |by unfold thread_ok; simpl; rewrite !lookup_insert_eq].
    intros j u Hj Hu. split; simpl.
    + intros r Hh. rewrite lookup_insert_ne; [done|]. intros <-. by eapply Hne.
    + intros r Hh. destruct (decide (th_key t = th_key u)) as [Heq|]; [|by rewrite lookup_insert_ne].
      rewrite Heq, lookup_insert_eq. rewrite Heq in Hr. rewrite Hr. split; [|done].
      intros [= <-]. by destruct (Hne j u fresh Hu Hh).
    + intros r h Hh. exists h. rewrite lookup_insert_ne; [done|congruence].
    + done.
  - simpl. intros j k u w r [[-> ->]|[Hj Hu]]%lookup_moved [[-> ->]|[Hk Hw]]%lookup_moved Hur Hwr; try done.
    + injection Hur as <-. by destruct (Hne k w fresh Hw Hwr).
    + injection Hwr as <-. by destruct (Hne j u fresh Hu Hur).
    + by eapply (inv_unique _ Hi).
  - simpl. intros k r. rewrite lookup_insert_Some. intros [[<- <-]|[_ Hk]].
    + eexists. by rewrite lookup_insert_eq.
    + destruct (inv_records _ Hi _ _ Hk) as (h & Hh & ?). exists h. rewrite lookup_insert_ne; [done|congruence].
  - simpl. intros r h. rewrite lookup_insert_Some. intros [[<- <-]|[_ Hh]]; [done|]. by eapply (inv_done _ Hi).
  - simpl. intros k hash x Hin. destruct (inv_success _ Hi _ _ _ Hin) as (r & h & Hk & Hhp & Hp & Hn).
    exists r, h. rewrite lookup_insert_ne by congruence. split; [done|].
    rewrite lookup_insert_ne by congruence. split_and!; [done|done|].
    intros j u [[-> ->]|[_ Hu]]%lookup_moved Hur; [|by eapply Hn].
    injection Hur as <-. congruence.
  - simpl. apply (inv_once _ Hi).
Qed.

Lemma inv_execute c i t r res :
  inv c -> threads c !! i = Some t -> th_pc t = Owner r ->
  inv (mkConfig (records c) (heap c) (<[i := th_set_pc (Executed r res) t]> (threads c))
        (log c ++ [(th_key t, th_hash t, res)])).
Proof.
  intros Hi Ht Hpc. pose proof (inv_threads _ Hi _ _ Ht) as Hok. unfold thread_ok in Hok. rewrite Hpc in Hok.
  destruct Hok as [Hr Hh]. assert (holds t = Some r) as Hholds by (unfold holds; by rewrite Hpc).
  assert (forall k hash x, (k, hash, Ok x) ∈ log c -> k <> th_key t) as Hno.
  { intros k hash x Hin ->. destruct (inv_success _ Hi _ _ _ Hin) as (r' & h & Hr' & _ & _ & Hn).
    assert (r' = r) as -> by congruence. destruct (Hn i t Ht Hholds); congruence. }
  split.
  - eapply (inv_threads_step c); [done|done|done| |].
    + intros. apply keeps_refl; [done|done|]. intros en Hen. simpl. apply elem_of_app. by left.
    + unfold thread_ok. simpl. split_and!; [done|done|]. apply elem_of_app. right. by left.
  - eapply (inv_unique_step c); [done|done|done|]. right. by rewrite Hholds.
  - simpl. apply (inv_records _ Hi).
  - simpl. intros r' h Hh' Hd He. apply elem_of_app. left. by eapply (inv_done _ Hi).
  - simpl. intros k hash x [Hin|[= -> -> <-]%list_elem_of_singleton]%elem_of_app.
    + destruct (inv_success _ Hi _ _ _ Hin) as (r' & h & Hr' & Hhp & Hp & Hn). exists r', h. split_and!; try done.
      intros j u [[-> ->]|[_ Hu]]%lookup_moved Hur; [|by eapply Hn].
      injection Hur as ->. destruct (Hn i t Ht Hholds); congruence.
    + exists r. eexists. split_and!; [done|done|done|].
      intros j u [[-> ->]|[Hj Hu]]%lookup_moved Hur; [by left|]. destruct Hj. by eapply (inv_unique _ Hi).
  - simpl. intros k. rewrite once_app. destruct (decide _) as [[Hk Hok]|_]; [|rewrite app_nil_r; apply (inv_once _ Hi)].
    simpl in Hk, Hok. subst k. destruct res as [x|]; [|done].
    destruct (filter _ (log c)) as [|[[k' hash'] res'] l] eqn:Hf; [simpl; lia|]. exfalso.
    assert ((k', hash', res') ∈ filter (fun en : recordKey * string * result error IdempotencyResponse =>
      en.1.1 = th_key t /\ is_ok en.2 = true) (log c)) as Hin by (rewrite Hf; by left).
    apply list_elem_of_filter in Hin as [[Hk' Hres] Hin]. simpl in *. destruct res' as [x'|]; [|done].
    by eapply Hno.
Qed.

(** Updates of the held record that keep its identity. *)
Lemma inv_held c i t r h h' p rs :
  inv c -> threads c !! i = Some t -> holds t = Some r -> heap c !! r = Some h ->
  hr_key h' = hr_key h -> hr_payloadHash h' = hr_payloadHash h ->
  (rs = records c \/ rs = delete (th_key t) (records c) /\ records c !! th_key t = Some r /\
     forall hash x, (th_key t, hash, Ok x) ∉ log c) ->
  (holds (th_set_pc p t) = None \/ holds (th_set_pc p t) = holds t) ->
  (forall x, (th_key t, th_hash t, Ok x) ∈ log c -> th_pc t = Executed r (Ok x) \/ th_pc t = Closing r (Ok x) ->
     holds (th_set_pc p t) = None \/ p = Closing r (Ok x)) ->
  (hr_done h' = true -> hr_err h' = None -> (hr_key h', hr_payloadHash h', Ok (hr_response h')) ∈ log c) ->
  thread_ok (mkConfig rs (<[r := h']> (heap c)) (<[i := th_set_pc p t]> (threads c)) (log c)) (th_set_pc p t) ->
  inv (mkConfig rs (<[r := h']> (heap c)) (<[i := th_set_pc p t]> (threads c)) (log c)).
Proof.
  intros Hi Ht Hholds Hh Hk1 Hk2 Hrs Hhold' Hkeep Hdone Hok.
  assert (hr_key h = th_key t) as Hkey.
  { destruct (holds_heap c t r) as (h0 & ? & ? & _); [by eapply (inv_threads _ Hi)|done|congruence]. }
  split.
  - eapply (inv_threads_step c); [done|done|done| |done].
    intros j u Hj Hu. split; simpl.
    + intros r' Hr'. rewrite lookup_insert_ne; [done|]. intros <-. destruct Hj. by eapply (inv_unique _ Hi).
    + intros r' Hr'. destruct Hrs as [-> | (-> & Hrec & _)]; [done|].
      destruct (decide (th_key t = th_key u)) as [Heq|]; [|by rewrite lookup_delete_ne].
      rewrite Heq, lookup_delete_eq. rewrite Heq in Hrec. rewrite Hrec. split; [done|].
      intros [= <-]. destruct Hj. by eapply (inv_unique _ Hi).
    + intros r' h0 Hr'. destruct (decide (r = r')) as [->|]; [|exists h0; by rewrite lookup_insert_ne].
      exists h'. rewrite lookup_insert_eq. split_and!; [done|congruence..].
    + done.
  - by eapply (inv_unique_step c).
  - simpl. intros k r' Hr'. assert (records c !! k = Some r') as Hr0.
    { destruct Hrs as [-> | (-> & _)]; [done|]. by apply lookup_delete_Some in Hr' as [_ ?]. }
    destruct (inv_records _ Hi _ _ Hr0) as (h0 & Hh0 & Hk0).
    destruct (decide (r = r')) as [->|]; [|exists h0; by rewrite lookup_insert_ne].
    exists h'. rewrite lookup_insert_eq. split; congruence.
  - simpl. intros r' h0. rewrite lookup_insert_Some. intros [[<- <-]|[_ ?]]; [by apply Hdone|by eapply (inv_done _ Hi)].
  - simpl. intros k hash x Hin. destruct (inv_success _ Hi _ _ _ Hin) as (r' & h0 & Hr' & Hhp & Hp & Hn).
    destruct (decide (r = r')) as [->|Hne].
    + exists r', h'. assert (k = th_key t) as ->.
      { destruct (inv_records _ Hi _ _ Hr') as (h1 & ? & ?). congruence. }
      split_and!.
      * destruct Hrs as [-> | (_ & _ & Hno)]; [done|]. by destruct (Hno hash x).
      * by rewrite lookup_insert_eq.
      * congruence.
      * intros j u [[-> ->]|[Hj Hu]]%lookup_moved Hur; [|destruct Hj; by eapply (inv_unique _ Hi)].
        assert (hash = th_hash t) as ->.
        { destruct (holds_heap c t r') as (h1 & ? & _ & ? & _); [by eapply (inv_threads _ Hi)|done|congruence]. }
        destruct (Hkeep x Hin (Hn i t Ht Hholds)) as [?| ->]; [congruence|]. by right.
    + exists r', h0. rewrite lookup_insert_ne by done. split_and!; try done.
      * destruct Hrs as [-> | (-> & Hrec & _)]; [done|]. rewrite lookup_delete_ne; [done|]. congruence.
      * intros j u [[-> ->]|[Hj Hu]]%lookup_moved Hur; [|by eapply Hn].
        destruct Hhold'; congruence.
  - simpl. apply (inv_once _ Hi).
Qed.

Lemma step_inv c c' : step c c' -> inv c -> inv c'.
Proof.
  intros Hs Hi. destruct Hs as [i key hash Ht|i t fresh Ht Hpc Hf|i t r res Ht Hpc|i t r h x Ht Hpc Hh
    |i t r h e Ht Hpc Hh|i t r h res Ht Hpc Hh|i t r h Ht Hpc Hh Hd|i t r e Ht Hpc].
  - by apply inv_call.
  - destruct (records c !! th_key t) as [r|] eqn:Hr; [|by apply inv_reserve_new].
    unfold reserve. rewrite Hr. destruct (heap c !! r) as [h|] eqn:Hh; [|done].
    case_bool_decide as Hhash; apply inv_local; try done. simpl.
    exists h. destruct (inv_records _ Hi _ _ Hr) as (h0 & Hh0 & Hk0). rewrite Hh in Hh0. injection Hh0 as <-. by split_and!.
  - by eapply inv_execute.
  - pose proof (inv_threads _ Hi _ _ Ht) as Hok. unfold thread_ok in Hok. rewrite Hpc in Hok.
    destruct Hok as (Hr & Hh' & Hlog). unfold commit. rewrite bool_decide_true by done. simplify_eq.
    eapply (inv_held c i t r _ (hr_set_response x _)); try done; try by left.
    + unfold holds. by rewrite Hpc.
    + right. unfold holds. simpl. by rewrite Hpc.
    + intros x' _ [Hx|Hx]; rewrite Hpc in Hx; [|done]. injection Hx as <-. by right.
    + unfold thread_ok. simpl. by rewrite lookup_insert_eq.
  - pose proof (inv_threads _ Hi _ _ Ht) as Hok. unfold thread_ok in Hok. rewrite Hpc in Hok.
    destruct Hok as (Hr & Hh' & Hlog). unfold releaseFailed. rewrite bool_decide_true by done. simplify_eq.
    assert (forall hash x, (th_key t, hash, Ok x) ∉ log c) as Hno.
    { intros hash x Hin. destruct (inv_success _ Hi _ _ _ Hin) as (r' & h' & Hr' & _ & _ & Hn).
      assert (r' = r) as -> by congruence.
      destruct (Hn i t Ht) as [Hx|Hx]; [unfold holds; by rewrite Hpc|congruence..]. }
    eapply (inv_held c i t r _ (hr_set_err e _)); try done.
    + unfold holds. by rewrite Hpc.
    + by right.
    + right. unfold holds. simpl. by rewrite Hpc.
    + intros x Hin. by apply Hno in Hin.
    + unfold thread_ok. simpl. rewrite lookup_delete_eq, lookup_insert_eq. split; [done|]. by eexists.
  - pose proof (inv_threads _ Hi _ _ Ht) as Hok. unfold thread_ok in Hok. rewrite Hpc in Hok.
    eapply (inv_held c i t r h (hr_close h)); try done; try by left.
    + unfold holds. by rewrite Hpc.
    + simpl. intros _ He. destruct res as [x|e].
      * destruct Hok as (_ & Hh' & ?). by simplify_eq.
      * destruct Hok as (_ & x & Hh'). by simplify_eq.
    + unfold thread_ok. simpl. destruct res as [x|e]; [|done]. by destruct Hok as (_ & _ & ?).
  - apply inv_local; try done. simpl. unfold await_result.
    pose proof (inv_threads _ Hi _ _ Ht) as Hok. unfold thread_ok in Hok. rewrite Hpc in Hok.
    destruct Hok as (h' & Hh' & Hk & Hp). simplify_eq. destruct (hr_err h) eqn:He; [done|].
    change ((th_key t, th_hash t, Ok (hr_response h)) ∈ log c).
    rewrite <- Hk, <- Hp. by eapply (inv_done _ Hi).
  - by apply inv_local.
Qed.

Lemma reach_inv c : reach c -> inv c.
Proof.
  intros Hr. assert (inv init) as Hinit.
  { split; simpl; try (intros *; by rewrite lookup_empty); try (intros * ?%elem_of_nil; done).
    intros k. simpl. lia. }
  unfold reach in Hr. revert Hinit. induction Hr as [|? ? ? Hs _ IH]; [done|]. intros. apply IH. by eapply step_inv.
Qed.

(** Two logged successes of a key are one. *)
Lemma success_unique c k h1 h2 x1 x2 :
  inv c -> (k, h1, Ok x1) ∈ log c -> (k, h2, Ok x2) ∈ log c -> h1 = h2 /\ x1 = x2.
Proof.
  intros Hi H1 H2. pose proof (inv_once _ Hi k) as Hlen.
  assert (forall h x, (k, h, Ok x) ∈ log c ->
    (k, h, Ok x) ∈ filter (fun en : recordKey * string * result error IdempotencyResponse =>
      en.1.1 = k /\ is_ok en.2 = true) (log c)) as Hf.
  { intros h x Hin. by apply list_elem_of_filter. }
  apply Hf in H1, H2. destruct (filter _ (log c)) as [|en [|en' l]]; [by apply elem_of_nil in H1| |simpl in Hlen; lia].
  apply list_elem_of_singleton in H1, H2. by simplify_eq.
Qed.

End Concurrent.
