(* ===== verification/Auth.v ===== *)
(** * Roles, tools and authorization

    [internal/platform/auth]: [types.go], [tools.go], [authorize.go], [csrf.go]
    and the policy functions of [authenticator.go].  Sets of tools are Go maps
    with unit values, iterated in an unspecified order. *)

From stdpp Require Import base tactics option list strings gmap sorting.
From Stdlib Require Import ZArith.
From S2P Require Import Prelude GoLib Kernel CoordTypes Acyclic GraphSpec.

Abbreviation Tool := string.
Abbreviation Role := string.
Abbreviation ToolMap := (gmap string unit).

Definition PrincipalOperator : string := "operator".
Definition PrincipalAgent : string := "agent".

Definition RoleOperator : Role := "operator".
Definition RoleTaskManager : Role := "task_manager".
Definition RoleContext : Role := "context_agent".
Definition RolePlanner : Role := "planner".
Definition RoleExecutor : Role := "executor".
Definition RoleVerifier : Role := "verifier".

Definition IsPhase (r : Role) : bool :=
  bool_decide (r = RolePlanner) || bool_decide (r = RoleExecutor) || bool_decide (r = RoleVerifier).

Definition ToolContextListSubgraphs : Tool := "context.listSubgraphs".
Definition ToolContextExplore : Tool := "context.explore".
Definition ToolContextSubscribe : Tool := "context.subscribe".
Definition ToolContextUnsubscribe : Tool := "context.unsubscribe".
Definition ToolContextAgentRetrieve : Tool := "contextAgent.retrieve".
Definition ToolRuntimeAwaitInputs : Tool := "runtime.awaitInputs".
Definition ToolAgentProposeOrchestration : Tool := "agent.proposeOrchestration".
Definition ToolAgentSubmitRequirement : Tool := "agent.submitRequirement".
Definition ToolAgentListTaskMemoryCandidates : Tool := "agent.listTaskMemoryCandidates".
Definition ToolAgentSubmitMemoryCandidate : Tool := "agent.submitMemoryCandidate".
Definition ToolAgentSubmitPhaseOutput : Tool := "agent.submitPhaseOutput".
Definition ToolCoordinationSnapshot : Tool := "coordination.snapshot".
Definition ToolTaskManagerSubmitDecision : Tool := "taskManager.submitDecision".
Definition ToolCoordinationReplacePending : Tool := "coordination.replacePending".
Definition ToolCoordinationTransition : Tool := "coordination.transition".
Definition ToolContextRegisterTaskSubgraph : Tool := "context.registerTaskSubgraph".
Definition ToolContextProjectTaskContext : Tool := "context.projectTaskContext".
Definition ToolContextFinalizeTaskMemory : Tool := "context.finalizeTaskMemory".
Definition ToolContextGetSubgraph : Tool := "context.getSubgraph".
Definition ToolContextGetNode : Tool := "context.getNode".
Definition ToolContextSearch : Tool := "context.search".
Definition ToolContextCreateNode : Tool := "context.createNode".
Definition ToolContextUpdateNode : Tool := "context.updateNode".
Definition ToolContextDeleteNode : Tool := "context.deleteNode".
Definition ToolContextCreateSubgraph : Tool := "context.createSubgraph".
Definition ToolContextUpdateSubgraph : Tool := "context.updateSubgraph".
Definition ToolContextDeleteSubgraph : Tool := "context.deleteSubgraph".
Definition ToolContextSubmitReview : Tool := "context.submitReview".
Definition ToolWorkspaceList : Tool := "workspace.list".
Definition ToolWorkspaceRead : Tool := "workspace.read".
Definition ToolWorkspaceWritePlan : Tool := "workspace.writePlan".
Definition ToolWorkspaceWrite : Tool := "workspace.write".
Definition ToolWorkspaceRun : Tool := "workspace.run".
Definition ToolWorkspaceDiff : Tool := "workspace.diff".
Definition ToolEvidenceRegister : Tool := "evidence.register".

Definition canonicalTools : list Tool := [
  ToolContextListSubgraphs; ToolContextExplore; ToolContextSubscribe; ToolContextUnsubscribe;
  ToolContextAgentRetrieve; ToolRuntimeAwaitInputs; ToolAgentProposeOrchestration;
  ToolAgentSubmitRequirement; ToolAgentListTaskMemoryCandidates; ToolAgentSubmitMemoryCandidate;
  ToolAgentSubmitPhaseOutput; ToolCoordinationSnapshot; ToolTaskManagerSubmitDecision;
  ToolCoordinationReplacePending; ToolCoordinationTransition; ToolContextRegisterTaskSubgraph;
  ToolContextProjectTaskContext; ToolContextFinalizeTaskMemory; ToolContextGetSubgraph;
  ToolContextGetNode; ToolContextSearch; ToolContextCreateNode; ToolContextUpdateNode;
  ToolContextDeleteNode; ToolContextCreateSubgraph; ToolContextUpdateSubgraph;
  ToolContextDeleteSubgraph; ToolContextSubmitReview; ToolWorkspaceList; ToolWorkspaceRead;
  ToolWorkspaceWritePlan; ToolWorkspaceWrite; ToolWorkspaceRun; ToolWorkspaceDiff; ToolEvidenceRegister].

Record Principal := mkPrincipal {
  pri_ActorPrincipalID : ActorPrincipalID;
  pri_Kind : string;
  pri_ProjectID : ProjectID;
  pri_Role : Role;
  pri_Operation : string;
  pri_TaskID : TaskID;
  pri_InvocationID : InvocationID;
  pri_ConsumerInvocationID : InvocationID;
  pri_ConsumerTaskID : TaskID;
  pri_ConsumerRole : Role;
  pri_Tools : ToolMap;
  pri_AuthenticatedAt : Time;
}.

Definition HasTool (p : Principal) (tool : Tool) : bool := bool_decide (is_Some (pri_Tools p !! tool)).

(** [for _, tool := range tools { set[tool] = struct{}{} }]. *)
Definition ToolSet (tools : list Tool) : ToolMap := foldl (fun m t => <[t := tt]> m) ∅ tools.

Record Capability := mkCapability {
  cp_ProjectID : ProjectID;
  cp_TaskID : TaskID;
  cp_InvocationID : InvocationID;
  cp_ConsumerInvocationID : InvocationID;
  cp_ConsumerTaskID : TaskID;
  cp_ConsumerRole : Role;
  cp_Role : Role;
  cp_Operation : string;
  cp_Tools : ToolMap;
  cp_ExpiresAt : Time;
}.

Definition cp_set_Tools (m : ToolMap) (c : Capability) : Capability :=
  mkCapability (cp_ProjectID c) (cp_TaskID c) (cp_InvocationID c) (cp_ConsumerInvocationID c)
    (cp_ConsumerTaskID c) (cp_ConsumerRole c) (cp_Role c) (cp_Operation c) m (cp_ExpiresAt c).

Record Scope := mkScope {
  sc_ProjectID : ProjectID;
  sc_TaskID : TaskID;
  sc_InvocationID : InvocationID;
}.

Definition isAgentRole (role : Role) : bool :=
  one_of role [RoleTaskManager; RoleContext; RolePlanner; RoleExecutor; RoleVerifier].

Definition taskManagerTools : list Tool := [
  ToolContextListSubgraphs; ToolContextExplore; ToolContextSubscribe; ToolContextUnsubscribe;
  ToolContextAgentRetrieve; ToolCoordinationSnapshot; ToolTaskManagerSubmitDecision;
  ToolCoordinationReplacePending; ToolCoordinationTransition; ToolContextRegisterTaskSubgraph;
  ToolContextProjectTaskContext; ToolContextFinalizeTaskMemory].
Definition contextTools : list Tool := [
  ToolContextListSubgraphs; ToolContextExplore; ToolContextGetSubgraph; ToolContextGetNode;
  ToolContextSearch; ToolContextCreateNode; ToolContextUpdateNode; ToolContextDeleteNode;
  ToolContextCreateSubgraph; ToolContextUpdateSubgraph; ToolContextDeleteSubgraph;
  ToolContextSubmitReview].
Definition plannerTools : list Tool := [
  ToolContextListSubgraphs; ToolContextExplore; ToolContextSubscribe; ToolContextUnsubscribe;
  ToolContextAgentRetrieve; ToolRuntimeAwaitInputs; ToolAgentProposeOrchestration;
  ToolAgentSubmitRequirement; ToolAgentListTaskMemoryCandidates; ToolAgentSubmitMemoryCandidate;
  ToolAgentSubmitPhaseOutput; ToolWorkspaceList; ToolWorkspaceRead; ToolWorkspaceWritePlan;
  ToolWorkspaceDiff; ToolEvidenceRegister].
Definition executorTools : list Tool := [
  ToolContextListSubgraphs; ToolContextExplore; ToolContextSubscribe; ToolContextUnsubscribe;
  ToolContextAgentRetrieve; ToolRuntimeAwaitInputs; ToolAgentProposeOrchestration;
  ToolAgentSubmitRequirement; ToolAgentListTaskMemoryCandidates; ToolAgentSubmitMemoryCandidate;
  ToolAgentSubmitPhaseOutput; ToolWorkspaceList; ToolWorkspaceRead; ToolWorkspaceWrite;
  ToolWorkspaceRun; ToolWorkspaceDiff; ToolEvidenceRegister].
Definition verifierTools : list Tool := [
  ToolContextListSubgraphs; ToolContextExplore; ToolContextSubscribe; ToolContextUnsubscribe;
  ToolContextAgentRetrieve; ToolRuntimeAwaitInputs; ToolAgentProposeOrchestration;
  ToolAgentSubmitRequirement; ToolAgentListTaskMemoryCandidates; ToolAgentSubmitMemoryCandidate;
  ToolAgentSubmitPhaseOutput; ToolWorkspaceList; ToolWorkspaceRead; ToolWorkspaceRun; ToolWorkspaceDiff;
  ToolEvidenceRegister].

Definition roleAllowsTool (role : Role) (tool : Tool) : bool :=
  if bool_decide (role = RoleTaskManager) then one_of tool taskManagerTools
  else if bool_decide (role = RoleContext) then one_of tool contextTools
  else if bool_decide (role = RolePlanner) then one_of tool plannerTools
  else if bool_decide (role = RoleExecutor) then one_of tool executorTools
  else if bool_decide (role = RoleVerifier) then one_of tool verifierTools
  else false.

Definition retrieveTools : list Tool := [
  ToolContextListSubgraphs; ToolContextExplore; ToolContextGetSubgraph; ToolContextGetNode;
  ToolContextSearch].
Definition curateTools : list Tool := [
  ToolContextListSubgraphs; ToolContextExplore; ToolContextGetSubgraph; ToolContextGetNode;
  ToolContextCreateNode; ToolContextUpdateNode; ToolContextDeleteNode; ToolContextCreateSubgraph;
  ToolContextUpdateSubgraph; ToolContextDeleteSubgraph].
Definition reviewTools : list Tool := [
  ToolContextListSubgraphs; ToolContextExplore; ToolContextGetSubgraph; ToolContextGetNode;
  ToolContextSearch; ToolContextSubmitReview].

Definition operationAllowsTool (role : Role) (operation : string) (tool : Tool) : bool :=
  if bool_decide (role <> RoleContext) then bool_decide (operation = "") && roleAllowsTool role tool
  else if bool_decide (operation = "retrieve") then one_of tool retrieveTools
  else if bool_decide (operation = "curate") then one_of tool curateTools
  else if bool_decide (operation = "review") then one_of tool reviewTools
  else false.

Definition IsCanonicalTool (tool : Tool) : bool :=
  existsb (fun candidate => bool_decide (candidate = tool)) canonicalTools.

Definition RoleCapabilityTools (role : Role) : ToolMap :=
  ToolSet (filter (fun t => roleAllowsTool role t = true) canonicalTools).

Definition InvocationCapabilityTools (role : Role) (operation : string) : ToolMap :=
  ToolSet (filter (fun t => operationAllowsTool role operation t = true) canonicalTools).

Definition unauthorized (message : string) : error := kerr CodeUnauthorized message false.

Definition RequireTool (principal : Principal) (tool : Tool) (requested : Scope) : res Scope :=
  _ ← fail_if (bool_decide (pri_ProjectID principal = "")) (unauthorized "principal has no project binding");
  _ ← fail_if (bool_decide (pri_Kind principal <> PrincipalAgent))
      (Forbidden "MCP tool requires an agent invocation principal");
  _ ← fail_if (bool_decide (sc_ProjectID requested <> "") &&
               bool_decide (sc_ProjectID requested <> pri_ProjectID principal))
      (Forbidden "requested project does not match authenticated principal");
  _ ← fail_if (bool_decide (sc_TaskID requested <> "") &&
               bool_decide (sc_TaskID requested <> pri_TaskID principal))
      (Forbidden "requested task does not match authenticated invocation");
  _ ← fail_if (bool_decide (sc_InvocationID requested <> "") &&
               bool_decide (sc_InvocationID requested <> pri_InvocationID principal))
      (Forbidden "requested invocation does not match authenticated invocation");
  _ ← fail_if (negb (roleAllowsTool (pri_Role principal) tool)) (Forbidden "tool is outside role capability");
  _ ← fail_if (negb (operationAllowsTool (pri_Role principal) (pri_Operation principal) tool))
      (Forbidden "tool is outside invocation operation capability");
  _ ← fail_if (negb (HasTool principal tool)) (Forbidden "tool is outside invocation capability");
  Ok (mkScope (pri_ProjectID principal) (pri_TaskID principal) (pri_InvocationID principal)).

Section with_runtime.
Context `{GR : GoRuntime}.

Definition cloneTools (tools : ToolMap) : ToolMap := ToolSet (range_keys tools).

Definition CanonicalTools : list Tool := sort_slice string_lt canonicalTools.

Definition validateCapability (capability : Capability) (now : Time) : res unit :=
  _ ← RequireID "project_id" (cp_ProjectID capability);
  _ ← RequireID "invocation_id" (cp_InvocationID capability);
  _ ← fail_if (bool_decide (cp_Role capability = "")) (InvalidArgument "role is required");
  _ ← fail_if (negb (isAgentRole (cp_Role capability))) (Forbidden "unsupported agent role");
  _ ← (if bool_decide (cp_Role capability = RoleContext) then
         fail_if (negb (one_of (cp_Operation capability) ["retrieve"; "curate"; "review"]))
           (InvalidArgument "context capability operation must be retrieve, curate, or review")
       else fail_if (bool_decide (cp_Operation capability <> ""))
              (InvalidArgument "operation is only valid for context capability"));
  _ ← fail_if ((bool_decide (cp_ConsumerInvocationID capability <> "") ||
                bool_decide (cp_ConsumerTaskID capability <> "") ||
                bool_decide (cp_ConsumerRole capability <> "")) &&
               (bool_decide (cp_Role capability <> RoleContext) ||
                bool_decide (cp_Operation capability <> "retrieve")))
      (Forbidden "consumer invocation is only valid for context retrieve capability");
  _ ← fail_if (bool_decide (cp_ConsumerRole capability <> "") && negb (isAgentRole (cp_ConsumerRole capability)))
      (Forbidden "consumer role is not a supported agent role");
  _ ← fail_if (bool_decide (size (cp_Tools capability) = 0))
      (Forbidden "capability must include at least one tool");
  _ ← each (fun tool =>
        _ ← fail_if (negb (roleAllowsTool (cp_Role capability) tool)) (Forbidden "tool is outside role capability");
        fail_if (negb (operationAllowsTool (cp_Role capability) (cp_Operation capability) tool))
          (Forbidden "tool is outside invocation operation capability"))
      (range_keys (cp_Tools capability));
  _ ← (if IsPhase (cp_Role capability)
       then fail_if (IsZeroID (cp_TaskID capability)) (StaleBinding "phase capability must bind a task")
       else Ok tt);
  fail_if (negb (now <? cp_ExpiresAt capability)%Z) (unauthorized "capability already expired").

End with_runtime.

Definition validateOperatorSessionRequest (actorPrincipalID : ActorPrincipalID) (projectIDs : list ProjectID)
    (ttl : Z) : res unit :=
  _ ← RequireID "actor_principal_id" actorPrincipalID;
  _ ← fail_if (bool_decide (projectIDs = [])) (Forbidden "operator session must bind at least one project");
  _ ← each (RequireID "project_id") projectIDs;
  fail_if (ttl <=? 0)%Z (InvalidArgument "session ttl must be positive").

(** ** State-changing requests *)

Definition isSafeMethod (method : string) : bool := one_of method ["GET"; "HEAD"; "OPTIONS"; "TRACE"].

Section csrf.
Context (HashOpaqueSecret : string -> string).

Definition StateChangeGuard_Check (AllowedOrigins : gmap string unit) (method origin csrf sessionCSRFHash : string) :
    res unit :=
  if isSafeMethod method then Ok tt
  else
    _ ← fail_if (bool_decide (origin = ""))
        (kerr CodeOriginInvalid "state changing request is missing Origin" false);
    _ ← fail_if (bool_decide (AllowedOrigins !! origin = None))
        (kerr CodeOriginInvalid "state changing request origin is not allowed" false);
    fail_if (bool_decide (csrf = "") || bool_decide (HashOpaqueSecret csrf <> sessionCSRFHash))
      (kerr CodeCSRFInvalid "state changing request has invalid CSRF token" false).
End csrf.

Definition NewStateChangeGuard (origins : list string) : gmap string unit := ToolSet origins.

(** ** Lemmas on the policy *)

Lemma lookup_ToolSet tools t : is_Some (ToolSet tools !! t) <-> t ∈ tools.
Proof.
  unfold ToolSet. enough (forall m, is_Some (foldl (fun m t => <[t := tt]> m) m tools !! t) <->
    is_Some (m !! t) \/ t ∈ tools) as ->.
  { rewrite lookup_empty. split; [intros [[? ?]|?]; done|by right]. }
  induction tools as [|x tools IH]; intros m; simpl.
  - rewrite elem_of_nil. tauto.
  - rewrite IH, lookup_insert_is_Some, elem_of_cons. destruct (decide (x = t)) as [->|]; naive_solver.
Qed.

Lemma HasTool_true p t : HasTool p t = true <-> is_Some (pri_Tools p !! t).
Proof. apply bool_decide_eq_true. Qed.

(** One policy table inside another, by evaluation. *)
Definition subset_of (l k : list Tool) : bool := forallb (fun t => one_of t k) l.

Lemma subset_of_elem l k t : subset_of l k = true -> t ∈ l -> t ∈ k.
Proof. unfold subset_of. rewrite forallb_elem. intros H Ht. by apply one_of_true, H. Qed.

Lemma operation_in_role role operation tool :
  operationAllowsTool role operation tool = true -> roleAllowsTool role tool = true.
Proof.
  unfold operationAllowsTool. case_bool_decide as Hr; [by intros [_ ?]%andb_true_iff|].
  rewrite Hr. assert (roleAllowsTool RoleContext tool = one_of tool contextTools) as -> by reflexivity.
  case_bool_decide; [|case_bool_decide; [|case_bool_decide; [|done]]];
    rewrite !one_of_true; apply subset_of_elem; reflexivity.
Qed.

Lemma role_in_canonical role tool : roleAllowsTool role tool = true -> tool ∈ canonicalTools.
Proof.
  unfold roleAllowsTool.
  case_bool_decide; [|case_bool_decide; [|case_bool_decide; [|case_bool_decide; [|case_bool_decide; [|done]]]]];
    rewrite one_of_true; apply subset_of_elem; reflexivity.
Qed.

Section lemmas.
Context `{GR : GoRuntime}.

Lemma cloneTools_id tools : cloneTools tools = tools.
Proof.
  apply map_eq. intros t. apply option_eq. intros [].
  pose proof (lookup_ToolSet (range_keys tools) t) as H. rewrite elem_of_range_keys in H.
  unfold cloneTools. split; intros Ht.
  - destruct (proj1 H (ex_intro _ tt Ht)) as [[] ?]. done.
  - destruct (proj2 H (ex_intro _ tt Ht)) as [[] ?]. done.
Qed.

(** What a valid capability may contain. *)
Lemma validateCapability_Ok c now :
  validateCapability c now = Ok tt ->
  IsZeroID (cp_ProjectID c) = false /\ IsZeroID (cp_InvocationID c) = false /\
  isAgentRole (cp_Role c) = true /\
  (forall t, is_Some (cp_Tools c !! t) -> operationAllowsTool (cp_Role c) (cp_Operation c) t = true) /\
  cp_Tools c <> ∅ /\
  (IsPhase (cp_Role c) = true -> IsZeroID (cp_TaskID c) = false) /\ (now < cp_ExpiresAt c)%Z.
Proof.
  unfold validateCapability. rewrite !bind_unit_Ok, !RequireID_Ok.
  intros (H1 & H2 & _ & H4 & _ & _ & _ & H8 & H9 & H10 & H11).
  apply fail_if_Ok in H4, H8, H11. apply negb_false_iff in H4, H11. apply bool_decide_eq_false in H8.
  apply Z.ltb_lt in H11. split_and!; try done.
  - intros t Ht. rewrite each_Ok in H9. specialize (H9 t (proj2 (elem_of_range_keys _ _) Ht)).
    rewrite bind_unit_Ok, !fail_if_Ok, !negb_false_iff in H9. apply H9.
  - intros Hempty. apply H8. by rewrite Hempty.
  - intros Hph. rewrite Hph in H10. by apply fail_if_Ok in H10.
Qed.
End lemmas.

Lemma RequireTool_Ok p t req sc :
  RequireTool p t req = Ok sc <->
  pri_ProjectID p <> "" /\ pri_Kind p = PrincipalAgent /\
  (sc_ProjectID req = "" \/ sc_ProjectID req = pri_ProjectID p) /\
  (sc_TaskID req = "" \/ sc_TaskID req = pri_TaskID p) /\
  (sc_InvocationID req = "" \/ sc_InvocationID req = pri_InvocationID p) /\
  operationAllowsTool (pri_Role p) (pri_Operation p) t = true /\ is_Some (pri_Tools p !! t) /\
  sc = mkScope (pri_ProjectID p) (pri_TaskID p) (pri_InvocationID p).
Proof.
  assert (forall a b : string, bool_decide (a <> "") && bool_decide (a <> b) = false <-> a = "" \/ a = b) as Hd.
  { intros a b. rewrite andb_false_iff, !bool_decide_eq_false. split.
    - intros [H|H]; apply dec_stable in H; auto.
    - intros [->| ->]; [left|right]; auto. }
  unfold RequireTool. rewrite !bind_unit_Ok, !fail_if_Ok, !Hd, !negb_false_iff, HasTool_true, !bool_decide_eq_false.
  split.
  - intros (? & ?%dec_stable & ? & ? & ? & ? & ? & ? & [= <-]). split_and!; done.
  - intros (? & -> & ? & ? & ? & Hop & ? & ->). split_and!; try done; [by auto|]. by eapply operation_in_role.
Qed.
