(* ===== verification/Authenticator.v ===== *)
(** * Sessions, agent tokens and their store

    [internal/platform/auth/store.go] and [authenticator.go].  The store keeps
    slices of records and searches them in order.  SHA-256 and the random source
    are parameters: [HashOpaqueSecret] is any function, [NewOpaqueSecret] hands
    in the secret it drew (or the error of the random source). *)

From stdpp Require Import base tactics option list strings gmap sorting.
From Stdlib Require Import ZArith.
From S2P Require Import Prelude GoLib Kernel CoordTypes Acyclic GraphSpec Auth.

Record SessionRecord := mkSession {
  se_SessionHash : string;
  se_ActorPrincipalID : ActorPrincipalID;
  se_ProjectIDs : gmap ProjectID unit;
  se_CSRFHash : string;
  se_ExpiresAt : Time;
  se_RevokedAt : option Time;
}.

Record TokenRecord := mkToken {
  tk_TokenHash : string;
  tk_ActorPrincipalID : ActorPrincipalID;
  tk_Capability : Capability;
  tk_ExpiresAt : Time;
  tk_RevokedAt : option Time;
}.

Record AuthStore := mkAuthStore {
  as_sessions : list SessionRecord;
  as_tokens : list TokenRecord;
}.

Definition NewAuthStore : AuthStore := mkAuthStore [] [].

(** ** Slices keyed by a hash *)

Section slices.
Context {R : Type} (hash_of : R -> string).

(** Replace the first record with the hash, or append. *)
Fixpoint upsert (records : list R) (record : R) : list R :=
  match records with
  | [] => [record]
  | x :: records' =>
    if bool_decide (hash_of x = hash_of record) then record :: records' else x :: upsert records' record
  end.

Fixpoint by_hash (records : list R) (hash : string) : option R :=
  match records with
  | [] => None
  | x :: records' => if bool_decide (hash_of x = hash) then Some x else by_hash records' hash
  end.

(** Change the first record with the hash; [None] when there is none. *)
Fixpoint update_first (f : R -> R) (hash : string) (records : list R) : option (list R) :=
  match records with
  | [] => None
  | x :: records' =>
    if bool_decide (hash_of x = hash) then Some (f x :: records')
    else (x ::.) <$> update_first f hash records'
  end.

Lemma by_hash_upsert records record h :
  by_hash (upsert records record) h =
  if bool_decide (hash_of record = h) then Some record else by_hash records h.
Proof.
  induction records as [|x records IH]; simpl; [done|].
  destruct (bool_decide (hash_of x = hash_of record)) eqn:Hx; simpl; [|rewrite IH];
    bool_inv; repeat case_bool_decide; congruence.
Qed.

Lemma update_first_None f h records : update_first f h records = None <-> by_hash records h = None.
Proof.
  induction records as [|x records IH]; simpl; [done|]. case_bool_decide; [done|].
  rewrite <- IH. by destruct (update_first f h records).
Qed.

Lemma by_hash_update f h h' records records' :
  (forall r, hash_of (f r) = hash_of r) -> update_first f h records = Some records' ->
  by_hash records' h' = if bool_decide (h = h') then f <$> by_hash records h' else by_hash records h'.
Proof.
  intros Hf. revert records'. induction records as [|x records IH]; intros records'; simpl; [done|].
  destruct (bool_decide (hash_of x = h)) eqn:Hx; bool_inv.
  - intros [= <-]. simpl. rewrite Hf. repeat case_bool_decide; simpl; congruence.
  - destruct (update_first f h records) as [l|]; [|done]. simpl. intros [= <-]. simpl.
    rewrite (IH _ eq_refl). repeat case_bool_decide; congruence.
Qed.
End slices.

Definition upsertSession : list SessionRecord -> SessionRecord -> list SessionRecord := upsert se_SessionHash.
Definition upsertToken : list TokenRecord -> TokenRecord -> list TokenRecord := upsert tk_TokenHash.

Definition se_revoke (at_ : Time) (r : SessionRecord) : SessionRecord :=
  mkSession (se_SessionHash r) (se_ActorPrincipalID r) (se_ProjectIDs r) (se_CSRFHash r) (se_ExpiresAt r) (Some at_).
Definition tk_revoke (at_ : Time) (r : TokenRecord) : TokenRecord :=
  mkToken (tk_TokenHash r) (tk_ActorPrincipalID r) (tk_Capability r) (tk_ExpiresAt r) (Some at_).

Section with_runtime.
Context `{GR : GoRuntime}.

Definition cloneSessionRecord (r : SessionRecord) : SessionRecord :=
  mkSession (se_SessionHash r) (se_ActorPrincipalID r) (cloneTools (se_ProjectIDs r)) (se_CSRFHash r)
    (se_ExpiresAt r) (se_RevokedAt r).
Definition cloneTokenRecord (r : TokenRecord) : TokenRecord :=
  mkToken (tk_TokenHash r) (tk_ActorPrincipalID r)
    (cp_set_Tools (cloneTools (cp_Tools (tk_Capability r))) (tk_Capability r)) (tk_ExpiresAt r) (tk_RevokedAt r).

Definition PutSession (ctx : Context) (record : SessionRecord) : M error AuthStore unit :=
  _ ← lift (ctx_Err ctx);
  modify (fun s => mkAuthStore (upsertSession (as_sessions s) (cloneSessionRecord record)) (as_tokens s)).

Definition SessionByHash (ctx : Context) (hash : string) : M error AuthStore (option SessionRecord) :=
  _ ← lift (ctx_Err ctx);
  s ← get_state;
  mret (cloneSessionRecord <$> by_hash se_SessionHash (as_sessions s) hash).

Definition RevokeSession (ctx : Context) (hash : string) (at_ : Time) : M error AuthStore unit :=
  _ ← lift (ctx_Err ctx);
  s ← get_state;
  match update_first se_SessionHash (se_revoke at_) hash (as_sessions s) with
  | Some sessions => put_state (mkAuthStore sessions (as_tokens s))
  | None => throw (unauthorized "session not found")
  end.

Definition PutToken (ctx : Context) (record : TokenRecord) : M error AuthStore unit :=
  _ ← lift (ctx_Err ctx);
  modify (fun s => mkAuthStore (as_sessions s) (upsertToken (as_tokens s) (cloneTokenRecord record))).

Definition TokenByHash (ctx : Context) (hash : string) : M error AuthStore (option TokenRecord) :=
  _ ← lift (ctx_Err ctx);
  s ← get_state;
  mret (cloneTokenRecord <$> by_hash tk_TokenHash (as_tokens s) hash).

Definition RevokeToken (ctx : Context) (hash : string) (at_ : Time) : M error AuthStore unit :=
  _ ← lift (ctx_Err ctx);
  s ← get_state;
  match update_first tk_TokenHash (tk_revoke at_) hash (as_tokens s) with
  | Some tokens => put_state (mkAuthStore (as_sessions s) tokens)
  | None => throw (unauthorized "token not found")
  end.

(** ** The authenticator *)

Section authenticator.
Context (HashOpaqueSecret : string -> string).

Definition IssueOperatorSession (ctx : Context) (actorPrincipalID : ActorPrincipalID) (projectIDs : list ProjectID)
    (ttl : Z) (sessionSecret csrfSecret : res string) (now : Time) : M error AuthStore (string * string) :=
  _ ← lift (validateOperatorSessionRequest actorPrincipalID projectIDs ttl);
  sessionSecret ← lift sessionSecret;
  csrfSecret ← lift csrfSecret;
  let record := mkSession (HashOpaqueSecret sessionSecret) actorPrincipalID (ToolSet projectIDs)
                  (HashOpaqueSecret csrfSecret) (now + ttl)%Z None in
  _ ← PutSession ctx record;
  mret (sessionSecret, csrfSecret).

Definition AuthenticateOperatorSession (ctx : Context) (sessionSecret : string) (projectID : ProjectID)
    (now : Time) : M error AuthStore (Principal * SessionRecord) :=
  found ← SessionByHash ctx (HashOpaqueSecret sessionSecret);
  match found with
  | None => throw (unauthorized "session is missing or invalid")
  | Some record =>
    _ ← lift (fail_if (negb (now <? se_ExpiresAt record)%Z) (unauthorized "session expired"));
    _ ← lift (fail_if (bool_decide (se_RevokedAt record <> None)) (unauthorized "session revoked"));
    _ ← lift (fail_if (bool_decide (se_ProjectIDs record !! projectID = None))
          (Forbidden "operator is not allowed for project"));
    mret (mkPrincipal (se_ActorPrincipalID record) PrincipalOperator projectID RoleOperator "" "" "" "" "" ""
            (ToolSet []) now, record)
  end.

Definition RevokeOperatorSession (ctx : Context) (sessionSecret : string) (now : Time) : M error AuthStore unit :=
  RevokeSession ctx (HashOpaqueSecret sessionSecret) now.

Definition IssueAgentToken (ctx : Context) (actorPrincipalID : ActorPrincipalID) (capability : Capability)
    (tokenSecret : res string) (now : Time) : M error AuthStore string :=
  _ ← lift (RequireID "actor_principal_id" actorPrincipalID);
  _ ← lift (validateCapability capability now);
  tokenSecret ← lift tokenSecret;
  let record := mkToken (HashOpaqueSecret tokenSecret) actorPrincipalID capability (cp_ExpiresAt capability) None in
  _ ← PutToken ctx record;
  mret tokenSecret.

Definition principalOf (record : TokenRecord) (now : Time) : Principal :=
  let capability := tk_Capability record in
  mkPrincipal (tk_ActorPrincipalID record) PrincipalAgent (cp_ProjectID capability) (cp_Role capability)
    (cp_Operation capability) (cp_TaskID capability) (cp_InvocationID capability)
    (cp_ConsumerInvocationID capability) (cp_ConsumerTaskID capability) (cp_ConsumerRole capability)
    (cloneTools (cp_Tools capability)) now.

Definition AuthenticateAgentToken (ctx : Context) (tokenSecret : string) (now : Time) : M error AuthStore Principal :=
  found ← TokenByHash ctx (HashOpaqueSecret tokenSecret);
  match found with
  | None => throw (unauthorized "agent token is missing or invalid")
  | Some record =>
    _ ← lift (fail_if (negb (now <? tk_ExpiresAt record)%Z) (unauthorized "agent token expired"));
    _ ← lift (fail_if (bool_decide (tk_RevokedAt record <> None)) (unauthorized "agent token revoked"));
    let capability := tk_Capability record in
    _ ← lift (fail_if (negb (is_ok (RequireID "actor_principal_id" (tk_ActorPrincipalID record))))
          (unauthorized "agent token has an invalid principal binding"));
    _ ← lift (validateCapability capability now);
    mret (principalOf record now)
  end.

Definition RevokeAgentToken (ctx : Context) (tokenSecret : string) (now : Time) : M error AuthStore unit :=
  RevokeToken ctx (HashOpaqueSecret tokenSecret) now.

(** ** Lemmas *)

Lemma cloneTokenRecord_id r : cloneTokenRecord r = r.
Proof. unfold cloneTokenRecord. rewrite cloneTools_id. by destruct r as [? ? [] ? ?]. Qed.

Lemma clone_found (o : option TokenRecord) : cloneTokenRecord <$> o = o.
Proof. destruct o; [|done]. simpl. by rewrite cloneTokenRecord_id. Qed.

Lemma cloneSessionRecord_id r : cloneSessionRecord r = r.
Proof. unfold cloneSessionRecord. rewrite cloneTools_id. by destruct r. Qed.

Lemma IssueAgentToken_run ctx actor cap secret now s tok s' :
  IssueAgentToken ctx actor cap secret now s = (Ok tok, s') ->
  ctx = None /\ secret = Ok tok /\ IsZeroID actor = false /\ validateCapability cap now = Ok tt /\
  s' = mkAuthStore (as_sessions s)
         (upsertToken (as_tokens s) (mkToken (HashOpaqueSecret tok) actor cap (cp_ExpiresAt cap) None)).
Proof.
  unfold IssueAgentToken, PutToken. intros H. res_inv. destruct ctx; [done|].
  match goal with H : modify _ _ = _ |- _ => injection H as <- end. rewrite cloneTokenRecord_id.
  split_and!; try done. by eapply RequireID_Ok.
Qed.

Lemma AuthenticateAgentToken_run ctx tok now s p s' :
  AuthenticateAgentToken ctx tok now s = (Ok p, s') ->
  s' = s /\ exists record, by_hash tk_TokenHash (as_tokens s) (HashOpaqueSecret tok) = Some record /\
    (now < tk_ExpiresAt record)%Z /\ tk_RevokedAt record = None /\
    validateCapability (tk_Capability record) now = Ok tt /\ p = principalOf record now.
Proof.
  unfold AuthenticateAgentToken, TokenByHash. intros H. res_inv.
  match goal with H : get_state _ = _ |- _ => injection H as <- <- end.
  rewrite clone_found in H. destruct (by_hash _ _ _) as [record|]; [|by res_inv].
  res_inv. bool_inv. split; [done|]. exists record. split_and!; try done. by apply Z.ltb_lt.
Qed.

Lemma AuthenticateAgentToken_Ok tok now s record :
  by_hash tk_TokenHash (as_tokens s) (HashOpaqueSecret tok) = Some record ->
  (now < tk_ExpiresAt record)%Z -> tk_RevokedAt record = None -> IsZeroID (tk_ActorPrincipalID record) = false ->
  validateCapability (tk_Capability record) now = Ok tt ->
  AuthenticateAgentToken None tok now s = (Ok (principalOf record now), s).
Proof.
  intros Hf Hexp Hrev Hact Hval. unfold AuthenticateAgentToken, TokenByHash, mbind, M_bind, lift.
  cbn [ctx_Err get_state mret M_ret]. rewrite clone_found, Hf, Hrev, Hval.
  apply Z.ltb_lt in Hexp. rewrite Hexp. unfold RequireID. by rewrite Hact.
Qed.

(** Validity at a later instant before the expiry. *)
Lemma validateCapability_later c now now' :
  validateCapability c now = Ok tt -> (now' < cp_ExpiresAt c)%Z -> validateCapability c now' = Ok tt.
Proof.
  unfold validateCapability. rewrite !bind_unit_Ok. intros (? & ? & ? & ? & ? & ? & ? & ? & ? & ? & _) Hn.
  split_and!; try done. apply fail_if_Ok. apply Z.ltb_lt in Hn. by rewrite Hn.
Qed.

End authenticator.
End with_runtime.
