(* ===== verification/Service.v ===== *)
(** * The decision log and the Task Manager's graph service

    [internal/coordination/decision.go] and [service.go]: the only public way to
    change a coordination graph.  A change needs a Task Manager principal with
    the tool, a registered decision, and it runs at most once per idempotency
    key.  The JSON encodings used as idempotency payloads are parameters; the
    stored response is the revision in decimal. *)

From stdpp Require Import base tactics option list strings gmap sorting pretty.
From Stdlib Require Import ZArith Ascii.
From S2P Require Import Prelude GoLib GoStrings Kernel CoordTypes Acyclic Validation GraphSpec Pending Transition.
From S2P Require Import TransitionSpec MemoryStore StoreInv Idempotency Auth.

(** ** Revisions as JSON numbers *)

(** Exactly the canonical decimal of a [uint64], which is what [json.Marshal]
    writes. *)
Definition decodeRevision (body : string) : option Revision :=
  match parse_digits body 0 with
  | Some n => if bool_decide (format_int (Z.of_N n) = body) && (Z.of_N n <? 18446744073709551616)%Z
              then Some (Z.of_N n) else None
  | None => None
  end.

Definition encodeRevision (r : Revision) : string := format_int r.

Lemma decode_encode r : is_uint64 r -> decodeRevision (encodeRevision r) = Some r.
Proof.
  intros [H0 H1]. pose proof (parse_format r H0) as Hp. fold (encodeRevision r) in Hp.
  unfold decodeRevision. rewrite Hp, Z2N.id by lia. rewrite bool_decide_true by done. simpl.
  apply Z.ltb_lt in H1. by rewrite H1.
Qed.

(** ** Decisions *)

Definition DecisionReplacePending : string := "replace_pending".
Definition DecisionTransition : string := "transition".

Record memoryDecision := mkDecision {
  de_kind : string;
  de_transition : GraphTransition;
}.

#[global] Instance memoryDecision_eq_dec : EqDecision memoryDecision.
Proof. solve_decision. Defined.

Definition zeroTransition : GraphTransition :=
  mkTransition "" zeroRef "" "" "" 0 zeroResult "" "" "" "" "" false [].

Abbreviation decisionKey := (ProjectID * string)%type.
Abbreviation DecisionLog := (gmap decisionKey memoryDecision).

Definition put (key : decisionKey) (decision : memoryDecision) : M error DecisionLog unit :=
  l ← get_state;
  match l !! key with
  | Some existing =>
    if bool_decide (de_kind existing <> de_kind decision) ||
       bool_decide (de_transition existing <> de_transition decision)
    then throw IdempotencyConflict else mret tt
  | None => put_state (<[key := decision]> l)
  end.

Definition RegisterReplacePending (projectID : ProjectID) (decisionRef : IdempotencyKey) : M error DecisionLog unit :=
  _ ← lift (requireProjectID projectID);
  _ ← lift (fail_if (IsZeroID decisionRef) (InvalidArgument "decision_ref is required"));
  put (projectID, decisionRef) (mkDecision DecisionReplacePending zeroTransition).

Definition RegisterTransition (projectID : ProjectID) (transitionRef : string) (transition : GraphTransition) :
    M error DecisionLog unit :=
  _ ← lift (requireProjectID projectID);
  _ ← lift (fail_if (bool_decide (transitionRef = "")) (InvalidArgument "transition_ref is required"));
  _ ← lift (validateTransitionShape transition);
  put (projectID, transitionRef) (mkDecision DecisionTransition transition).

Definition AuthorizeReplacePending (l : DecisionLog) (projectID : ProjectID) (decisionRef : IdempotencyKey) : res unit :=
  match l !! (projectID, decisionRef) with
  | None => Err (Forbidden "replacePending requires a persisted Task Manager decision")
  | Some decision =>
    fail_if (bool_decide (de_kind decision <> DecisionReplacePending))
      (Forbidden "decision_ref is not a replacePending decision")
  end.

Definition ResolveTransition (l : DecisionLog) (projectID : ProjectID) (transitionRef : string) : res GraphTransition :=
  match l !! (projectID, transitionRef) with
  | None => Err (Forbidden "transition requires a persisted Task Manager decision")
  | Some decision =>
    _ ← fail_if (bool_decide (de_kind decision <> DecisionTransition))
        (Forbidden "transition_ref is not a transition decision");
    Ok (de_transition decision)
  end.

(** ** The service *)

Section service.
Context `{GR : GoRuntime}.
Context (hashPayload : string -> string).
Context (encodePending : PendingSubgraph -> string).
Context (encodeTransition : Revision -> string -> GraphTransition -> string).
Context (principal : Principal).
(** Whether the store and the decision log were configured (are not [nil]). *)
Context (hasStore hasDecisions : bool).

(** Idempotency records, decisions and graphs. *)
Abbreviation world := (IdempotencyStore * (DecisionLog * MemoryStore))%type.

Definition require (tool : Tool) : res Scope :=
  scope ← RequireTool principal tool
            (mkScope (pri_ProjectID principal) (pri_TaskID principal) (pri_InvocationID principal));
  _ ← fail_if (bool_decide (pri_Role principal <> RoleTaskManager))
      (Forbidden "coordination graph tools require the canonical Task Manager role");
  Ok scope.

Definition on_store {A} (m : M error MemoryStore A) : M error (DecisionLog * MemoryStore) A := fun w =>
  let '(r, s) := m w.2 in (r, (w.1, s)).

Definition on_world {A} (m : M error MemoryStore A) : M error world A := fun w =>
  let '(r, s) := m w.2.2 in (r, (w.1, (w.2.1, s))).

Definition requireDependencies : res unit :=
  fail_if (negb hasStore || negb hasDecisions)
    (kerr CodeInternalError "coordination graph dependencies are not configured" true).

Definition badResponse : error :=
  kerr CodeInternalError "stored idempotency response is not a graph revision" true.

Definition revision_of (response : IdempotencyResponse) : res Revision :=
  match decodeRevision (ir_Body response) with Some r => Ok r | None => Err badResponse end.

Definition respond (updated : GraphSnapshot) : IdempotencyResponse :=
  mkResponse 200 (encodeRevision (snap_Revision updated)).

Definition Service_Snapshot (revision : Revision) : M error world GraphSnapshot :=
  scope ← lift (require ToolCoordinationSnapshot);
  _ ← lift (fail_if (negb hasStore) (kerr CodeInternalError "coordination store is not configured" true));
  on_world (if IsLatestRead revision then Latest (sc_ProjectID scope) else Snapshot (sc_ProjectID scope) revision).

Definition replaceExecutor (projectID : ProjectID) (next : PendingSubgraph) :
    M error (DecisionLog * MemoryStore) IdempotencyResponse :=
  w ← get_state;
  _ ← lift (AuthorizeReplacePending w.1 projectID (ps_RequestID next));
  updated ← on_store (ReplacePending projectID next);
  mret (respond updated).

Definition Service_ReplacePending (next : PendingSubgraph) : M error world Revision :=
  scope ← lift (require ToolCoordinationReplacePending);
  _ ← lift requireDependencies;
  response ← Execute hashPayload (sc_ProjectID scope +:+ ":coordination.replacePending") (ps_RequestID next)
               (encodePending next) (replaceExecutor (sc_ProjectID scope) next);
  lift (revision_of response).

Definition transitionExecutor (projectID : ProjectID) (expectedRevision : Revision) (transitionRef : string)
    (transition : GraphTransition) : M error (DecisionLog * MemoryStore) IdempotencyResponse :=
  updated ← on_store (TransitionWithDecisionRef projectID expectedRevision transitionRef transition);
  mret (respond updated).

Definition Service_Transition (expectedRevision : Revision) (transitionRef : string) : M error world Revision :=
  scope ← lift (require ToolCoordinationTransition);
  _ ← lift requireDependencies;
  _ ← lift (fail_if (bool_decide (transitionRef = "")) (InvalidArgument "transitionRef is required"));
  w ← get_state;
  transition ← lift (ResolveTransition w.2.1 (sc_ProjectID scope) transitionRef);
  response ← Execute hashPayload (sc_ProjectID scope +:+ ":coordination.transition") transitionRef
               (encodeTransition expectedRevision transitionRef transition)
               (transitionExecutor (sc_ProjectID scope) expectedRevision transitionRef transition);
  lift (revision_of response).

(** ** Lemmas *)

(** Only a Task Manager that carries the tool gets past [require]. *)
Lemma require_Ok tool scope :
  require tool = Ok scope ->
  pri_Kind principal = PrincipalAgent /\ pri_Role principal = RoleTaskManager /\
  is_Some (pri_Tools principal !! tool) /\ sc_ProjectID scope = pri_ProjectID principal.
Proof.
  unfold require. rewrite bind_Ok. intros (sc & Hr & Hrest). rewrite bind_unit_Ok, guard_not_Ok in Hrest.
  destruct Hrest as [Hrole [= <-]]. apply RequireTool_Ok in Hr as (_ & ? & _ & _ & _ & _ & ? & ->). done.
Qed.

Lemma put_run key d l r l' :
  put key d l = (r, l') -> l ⊆ l' /\ (r = Ok tt -> l' !! key = Some d).
Proof.
  unfold put, mbind, M_bind. cbn [get_state]. destruct (l !! key) as [existing|] eqn:Hl.
  - destruct (_ || _) eqn:Hor; intros [= <- <-]; [done|]. split; [done|]. intros _.
    rewrite orb_false_iff, !bool_decide_eq_false in Hor. destruct Hor as [H1%dec_stable H2%dec_stable].
    rewrite Hl. destruct existing, d. simpl in *. by subst.
  - intros [= <- <-]. split; [by apply insert_subseteq|]. by rewrite lookup_insert_eq.
Qed.

Lemma on_store_run {A} (m : M error MemoryStore A) l s r w :
  on_store m (l, s) = (r, w) -> exists s', m s = (r, s') /\ w = (l, s').
Proof. unfold on_store. simpl. destruct (m s) as [r' s']. intros [= <- <-]. by exists s'. Qed.

Lemma replaceExecutor_run projectID next l s r w :
  replaceExecutor projectID next (l, s) = (Ok r, w) ->
  exists snap s', AuthorizeReplacePending l projectID (ps_RequestID next) = Ok tt /\
    ReplacePending projectID next s = (Ok snap, s') /\ r = respond snap /\ w = (l, s').
Proof.
  unfold replaceExecutor. intros H. res_inv.
  match goal with H : get_state _ = _ |- _ => injection H as <- <- end.
  match goal with H : on_store _ _ = _ |- _ => apply on_store_run in H as (s' & ? & ->) end.
  eexists _, s'. done.
Qed.

Lemma transitionExecutor_run projectID rev ref tr l s r w :
  transitionExecutor projectID rev ref tr (l, s) = (Ok r, w) ->
  exists snap s', TransitionWithDecisionRef projectID rev ref tr s = (Ok snap, s') /\
    r = respond snap /\ w = (l, s').
Proof.
  unfold transitionExecutor. intros H. res_inv.
  match goal with H : on_store _ _ = _ |- _ => apply on_store_run in H as (s' & ? & ->) end.
  eexists _, s'. done.
Qed.

End service.
