(* ===== verification/PlatformProps.v ===== *)
(** * Properties of the platform: idempotency, authorization and the service

    Who may change a coordination graph, and that a repeated request changes it
    only once. *)

From stdpp Require Import base tactics option list strings gmap sorting pretty relations.
From Stdlib Require Import ZArith.
From S2P Require Import Prelude GoLib GoStrings Kernel CoordTypes Acyclic Validation GraphSpec Pending Transition.
From S2P Require Import TransitionSpec MemoryStore StoreInv Idempotency Auth Authenticator Service.

(** ** Helper lemmas *)

Section helpers.
Context `{GR : GoRuntime} (hashPayload : string -> string).

Lemma ReplacePending_revision id next s snap s' :
  ReplacePending id next s = (Ok snap, s') -> is_uint64 (snap_Revision snap).
Proof.
  unfold ReplacePending, mbind, M_bind, lift. destruct (requireProjectID id); [|done].
  destruct (fail_if _ _); [|done]. unfold locked.
  destruct (replacePending next (ensureProject id s)) as [r p] eqn:Hr. intros [= -> _].
  apply replacePending_run in Hr as (_ & _ & _ & _ & _ & Hc). rewrite commit_run in Hc. injection Hc as <- _.
  unfold Revision_Next, uint64_wrap, is_uint64. simpl. apply Z.mod_pos_bound. lia.
Qed.

(** A successful call of the service's [ReplacePending]. *)
Lemma Service_ReplacePending_run encode principal hasStore hasDecisions next w rev w' :
  Service_ReplacePending hashPayload encode principal hasStore hasDecisions next w = (Ok rev, w') ->
  exists scope response,
    require principal ToolCoordinationReplacePending = Ok scope /\
    requireDependencies hasStore hasDecisions = Ok tt /\
    Execute hashPayload (sc_ProjectID scope +:+ ":coordination.replacePending") (ps_RequestID next) (encode next)
      (replaceExecutor (sc_ProjectID scope) next) w = (Ok response, w') /\
    revision_of response = Ok rev.
Proof. unfold Service_ReplacePending. intros H. res_inv. by eexists _, _. Qed.

(** A successful call of the service's [Transition]. *)
Lemma Service_Transition_run encode principal hasStore hasDecisions rev ref w r w' :
  Service_Transition hashPayload encode principal hasStore hasDecisions rev ref w = (Ok r, w') ->
  exists scope tr response,
    require principal ToolCoordinationTransition = Ok scope /\
    requireDependencies hasStore hasDecisions = Ok tt /\ ref <> "" /\
    ResolveTransition w.2.1 (sc_ProjectID scope) ref = Ok tr /\
    Execute hashPayload (sc_ProjectID scope +:+ ":coordination.transition") ref (encode rev ref tr)
      (transitionExecutor (sc_ProjectID scope) rev ref tr) w = (Ok response, w') /\
    revision_of response = Ok r.
Proof.
  unfold Service_Transition. intros H. res_inv.
  match goal with H : get_state _ = _ |- _ => injection H as <- <- end. bool_inv. by eexists _, _, _.
Qed.

(** The executors leave the decision log alone. *)
Lemma Execute_decisions (scope key payload : string) (ex : M error (DecisionLog * MemoryStore) IdempotencyResponse) w r w' :
  (forall x res x', ex x = (Ok res, x') -> x'.1 = x.1) ->
  Execute hashPayload scope key payload ex w = (Ok r, w') -> w'.2.1 = w.2.1.
Proof.
  intros Hex. destruct w as [records x]. intros [[-> _]|(_ & x' & Hx & ->)]%Execute_run; [done|]. simpl.
  by eapply Hex.
Qed.

Lemma revision_respond snap rev :
  is_uint64 (snap_Revision snap) -> revision_of (respond snap) = Ok rev -> rev = snap_Revision snap.
Proof. intros Hu. unfold revision_of, respond. simpl. rewrite decode_encode by done. by intros [= ->]. Qed.
End helpers.

(** ** Idempotency *)

(** C38: overlapping calls execute at most once per key: in every reachable state
    of concurrent callers the executor has succeeded at most once for a key, and
    all callers of a key that finish successfully used the same payload hash and
    got the same response. *)
Theorem concurrent_execute_once (c : Concurrent.config) (Hr : Concurrent.reach c) :
  (forall k, length (filter (fun en : recordKey * string * result error IdempotencyResponse =>
     en.1.1 = k /\ is_ok en.2 = true) (Concurrent.log c)) <= 1) /\
  (forall i j t u x y, Concurrent.threads c !! i = Some t -> Concurrent.threads c !! j = Some u ->
     Concurrent.th_key t = Concurrent.th_key u ->
     Concurrent.th_pc t = Concurrent.Finished (Ok x) -> Concurrent.th_pc u = Concurrent.Finished (Ok y) ->
     Concurrent.th_hash t = Concurrent.th_hash u /\ x = y).
Proof.
  pose proof (Concurrent.reach_inv c Hr) as Hi. split; [apply (Concurrent.inv_once _ Hi)|].
  intros i j t u x y Ht Hu Hk Hx Hy.
  pose proof (Concurrent.inv_threads _ Hi _ _ Ht) as H1. pose proof (Concurrent.inv_threads _ Hi _ _ Hu) as H2.
  unfold Concurrent.thread_ok in H1, H2. rewrite Hx in H1. rewrite Hy in H2. rewrite Hk in H1.
  by eapply (Concurrent.success_unique c).
Qed.

(** Once a call has succeeded, a repetition with the same payload returns the
    recorded response without running the executor again, and a call with another
    payload hash fails with an idempotency conflict; neither changes anything. *)
Theorem execute_replay_or_conflict {S : Type} (hashPayload : string -> string) (scope key payload payload' : string)
    (ex ex' : M error S IdempotencyResponse) (st st' : IdempotencyStore * S) (r : IdempotencyResponse)
    (Hrun : Execute hashPayload scope key payload ex st = (Ok r, st')) :
  Execute hashPayload scope key payload ex' st' = (Ok r, st') /\
  (hashPayload payload' <> hashPayload payload ->
   Execute hashPayload scope key payload' ex' st' = (Err IdempotencyConflict, st')).
Proof.
  split; [by eapply Execute_replay|]. intros Hne. destruct st as [records s].
  assert (validateExecute scope key = Ok tt) as Hv.
  { unfold Execute in Hrun. by destruct (validateExecute scope key) as [[]|]. }
  assert (exists record, st'.1 !! (scope, key) = Some record /\ rec_payloadHash record = hashPayload payload)
    as (record & Hrec & Hh).
  { apply Execute_run in Hrun as [(-> & record & ? & _ & ?)|(_ & s' & _ & ->)]; [by eauto|].
    eexists. simpl. by rewrite lookup_insert_eq. }
  destruct st' as [records' s']. unfold Execute. simpl in Hrec. rewrite Hv, Hrec, Hh.
  by rewrite bool_decide_true by auto.
Qed.

(** ** Authorization *)

(** A tool call is authorized exactly when the principal is a project-bound
    agent, every requested identifier is empty or the principal's own, the tool
    belongs to the principal's role and operation, and the invocation carries it;
    the granted scope is always the principal's own, never the requested one. *)
Theorem require_tool_exact (p : Principal) (tool : Tool) (requested granted : Scope) :
  RequireTool p tool requested = Ok granted <->
  pri_ProjectID p <> "" /\ pri_Kind p = PrincipalAgent /\
  (sc_ProjectID requested = "" \/ sc_ProjectID requested = pri_ProjectID p) /\
  (sc_TaskID requested = "" \/ sc_TaskID requested = pri_TaskID p) /\
  (sc_InvocationID requested = "" \/ sc_InvocationID requested = pri_InvocationID p) /\
  operationAllowsTool (pri_Role p) (pri_Operation p) tool = true /\ is_Some (pri_Tools p !! tool) /\
  granted = mkScope (pri_ProjectID p) (pri_TaskID p) (pri_InvocationID p).
Proof. apply RequireTool_Ok. Qed.

Section authenticator.
Context `{GR : GoRuntime} (HashOpaqueSecret : string -> string).

(** Authentication never grants more than the policy: a principal obtained
    from an agent token is an agent with a supported role, and each of its tools
    is allowed by its operation, hence by its role, and is a canonical tool; the
    token is neither expired nor revoked, and a phase role is bound to a task. *)
Theorem agent_authority_bounded (ctx : Context) (secret : string) (now : Time) (s s' : AuthStore) (p : Principal)
    (Hrun : AuthenticateAgentToken HashOpaqueSecret ctx secret now s = (Ok p, s')) :
  s' = s /\ pri_Kind p = PrincipalAgent /\ isAgentRole (pri_Role p) = true /\
  (forall t, is_Some (pri_Tools p !! t) ->
     operationAllowsTool (pri_Role p) (pri_Operation p) t = true /\ roleAllowsTool (pri_Role p) t = true /\
     t ∈ canonicalTools) /\
  (IsPhase (pri_Role p) = true -> IsZeroID (pri_TaskID p) = false) /\
  exists record, by_hash tk_TokenHash (as_tokens s) (HashOpaqueSecret secret) = Some record /\
    (now < tk_ExpiresAt record)%Z /\ tk_RevokedAt record = None.
Proof.
  apply AuthenticateAgentToken_run in Hrun as (-> & record & Hf & Hexp & Hrev & Hval & ->).
  apply validateCapability_Ok in Hval as (_ & _ & Hrole & Htools & _ & Hphase & _).
  unfold principalOf. simpl. rewrite cloneTools_id. split_and!; try done; [|by exists record].
  intros t Ht%Htools. split; [done|]. pose proof (operation_in_role _ _ _ Ht). split; [done|].
  by eapply role_in_canonical.
Qed.

(** The life of an agent token: a token just issued authenticates at every
    instant before its expiry as exactly the capability it was issued for, and
    after a successful revocation it never authenticates again. *)
Theorem token_lifecycle (ctx ctx2 ctx3 : Context) (actor : ActorPrincipalID) (cap : Capability)
    (secret : res string) (now later at_ : Time) (s s1 s2 : AuthStore) (tok : string)
    (Hissue : IssueAgentToken HashOpaqueSecret ctx actor cap secret now s = (Ok tok, s1))
    (Hlater : (later < cp_ExpiresAt cap)%Z)
    (Hrevoke : RevokeAgentToken HashOpaqueSecret ctx2 tok at_ s1 = (Ok tt, s2)) :
  AuthenticateAgentToken HashOpaqueSecret None tok later s1 =
    (Ok (mkPrincipal actor PrincipalAgent (cp_ProjectID cap) (cp_Role cap) (cp_Operation cap) (cp_TaskID cap)
           (cp_InvocationID cap) (cp_ConsumerInvocationID cap) (cp_ConsumerTaskID cap) (cp_ConsumerRole cap)
           (cp_Tools cap) later), s1) /\
  forall instant p, fst (AuthenticateAgentToken HashOpaqueSecret ctx3 tok instant s2) <> Ok p.
Proof.
  apply IssueAgentToken_run in Hissue as (_ & _ & Hact & Hval & ->).
  set (record := mkToken (HashOpaqueSecret tok) actor cap (cp_ExpiresAt cap) None) in *.
  assert (by_hash tk_TokenHash (upsertToken (as_tokens s) record) (HashOpaqueSecret tok) = Some record) as Hf.
  { unfold upsertToken. rewrite by_hash_upsert. by rewrite bool_decide_true. }
  split.
  - rewrite (AuthenticateAgentToken_Ok _ _ later _ record); [|done|done|done|done|by eapply validateCapability_later].
    unfold principalOf. simpl. by rewrite cloneTools_id.
  - intros instant p Hauth.
    destruct (AuthenticateAgentToken HashOpaqueSecret ctx3 tok instant s2) as [r s3] eqn:Hrun. simpl in Hauth. subst r.
    apply AuthenticateAgentToken_run in Hrun as (_ & record' & Hf' & _ & Hrev & _).
    unfold RevokeAgentToken, RevokeToken in Hrevoke. res_inv.
    match goal with H : get_state _ = _ |- _ => injection H as <- <- end. simpl in Hrevoke.
    destruct (update_first _ _ _ _) as [tokens|] eqn:Hu; [|done]. injection Hrevoke as <-. simpl in Hf'.
    rewrite (by_hash_update tk_TokenHash (tk_revoke at_) _ _ _ _ (fun r => eq_refl) Hu), bool_decide_true, Hf in Hf' by done.
    simpl in Hf'. by simplify_eq.
Qed.
End authenticator.

(** A state-changing request passes the cross-site guard exactly when its
    origin is one of the configured origins and its non-empty token hashes to the
    session's token hash; safe methods always pass. *)
Theorem csrf_guard_exact (HashOpaqueSecret : string -> string) (origins : list string)
    (method origin csrf sessionCSRFHash : string) :
  StateChangeGuard_Check HashOpaqueSecret (NewStateChangeGuard origins) method origin csrf sessionCSRFHash = Ok tt <->
  isSafeMethod method = true \/
  (origin <> "" /\ origin ∈ origins /\ csrf <> "" /\ HashOpaqueSecret csrf = sessionCSRFHash).
Proof.
  unfold StateChangeGuard_Check. destruct (isSafeMethod method); [split; [by left|done]|].
  rewrite !bind_unit_Ok, !guard_Ok, fail_if_Ok, orb_false_iff, !bool_decide_eq_false.
  unfold NewStateChangeGuard. rewrite not_eq_None_Some, lookup_ToolSet. split.
  - intros (? & ? & ? & ?%dec_stable). by right.
  - intros [?|(? & ? & ? & ?)]; [done|]. split_and!; auto.
Qed.

(** ** The coordination service *)

Section service.
Context `{GR : GoRuntime} (hashPayload : string -> string).
Context (encodePending : PendingSubgraph -> string).
Context (encodeTransition : Revision -> string -> GraphTransition -> string).
Context (principal : Principal) (hasStore hasDecisions : bool).

(** A graph is replanned only with authority: a successful [ReplacePending] of
    the service was called by a Task Manager agent carrying the tool, leaves the
    decision log alone, and either replayed a recorded response for the same
    payload, changing nothing, or found the decision registered and committed the
    replacement in the caller's own project, returning the revision committed. *)
Theorem service_replace_authorized (next : PendingSubgraph) (records records' : IdempotencyStore)
    (log log' : DecisionLog) (s s' : MemoryStore) (rev : Revision)
    (Hrun : Service_ReplacePending hashPayload encodePending principal hasStore hasDecisions next
              (records, (log, s)) = (Ok rev, (records', (log', s')))) :
  pri_Kind principal = PrincipalAgent /\ pri_Role principal = RoleTaskManager /\
  is_Some (pri_Tools principal !! ToolCoordinationReplacePending) /\ log' = log /\
  ((records' = records /\ s' = s /\ exists record,
      records !! (pri_ProjectID principal +:+ ":coordination.replacePending", ps_RequestID next) = Some record /\
      rec_payloadHash record = hashPayload (encodePending next)) \/
   (AuthorizeReplacePending log (pri_ProjectID principal) (ps_RequestID next) = Ok tt /\
    exists snap, ReplacePending (pri_ProjectID principal) next s = (Ok snap, s') /\ rev = snap_Revision snap)).
Proof.
  apply Service_ReplacePending_run in Hrun as (scope & response & Hreq & _ & Hex & Hrev).
  apply require_Ok in Hreq as (Hk & Hrole & Htool & Hpid). rewrite Hpid in Hex. split_and!; [done..| |].
  - apply Execute_run in Hex as [([= _ -> _] & _)|(_ & w' & Hx & [= _ <-])]; [done|].
    by apply replaceExecutor_run in Hx as (snap & s'' & _ & _ & _ & [= -> _]).
  - apply Execute_run in Hex as [([= -> _ ->] & record & Hr & _ & Hh)|(_ & w' & Hx & [= _ <-])]; [left; by eauto|right].
    apply replaceExecutor_run in Hx as (snap & s'' & Hauth & Hrp & -> & [= _ ->]). split; [done|].
    exists snap. split; [done|]. apply revision_respond; [|done]. by eapply ReplacePending_revision.
Qed.

(** The service is idempotent: repeating a successful [ReplacePending] or
    [Transition] request returns the same revision and changes neither the
    records, nor the decisions, nor any graph. *)
Theorem service_idempotent (next : PendingSubgraph) (expected rev : Revision) (ref : string)
    (w w' : IdempotencyStore * (DecisionLog * MemoryStore)) :
  (Service_ReplacePending hashPayload encodePending principal hasStore hasDecisions next w = (Ok rev, w') ->
   Service_ReplacePending hashPayload encodePending principal hasStore hasDecisions next w' = (Ok rev, w')) /\
  (Service_Transition hashPayload encodeTransition principal hasStore hasDecisions expected ref w = (Ok rev, w') ->
   Service_Transition hashPayload encodeTransition principal hasStore hasDecisions expected ref w' = (Ok rev, w')).
Proof.
  split.
  - intros (scope & response & Hreq & Hdep & Hex & Hrev)%Service_ReplacePending_run.
    unfold Service_ReplacePending, mbind, M_bind, lift. rewrite Hreq, Hdep.
    rewrite (Execute_replay _ _ _ _ _ (replaceExecutor (sc_ProjectID scope) next) _ _ _ Hex). by rewrite Hrev.
  - intros (scope & tr & response & Hreq & Hdep & Href & Hres & Hex & Hrev)%Service_Transition_run.
    unfold Service_Transition, mbind, M_bind, lift, get_state. rewrite Hreq, Hdep.
    rewrite bool_decide_false by done. simpl.
    assert (w'.2.1 = w.2.1) as ->.
    { eapply Execute_decisions; [|exact Hex]. intros [l x] res x'.
      by intros (snap & s' & _ & _ & ->)%transitionExecutor_run. }
    rewrite Hres. rewrite (Execute_replay _ _ _ _ _ (transitionExecutor (sc_ProjectID scope) expected ref tr) _ _ _ Hex).
    by rewrite Hrev.
Qed.
End service.

(** ** Witnesses *)

#[local] Existing Instance GoRuntime_list.

(** Two overlapping callers of one key: the first executes, the second waits for
    its response. *)
Module Overlap.
Import Concurrent.

Definition key : recordKey := ("scope", "key").
Definition response : IdempotencyResponse := mkResponse 200 "5".
Definition th (p : pc) : thread := mkThread key "hash" p.
Definition h0 : heapRecord := mkHeapRecord key "hash" false zeroResponse None.

Definition c1 : config := set_thread 0 (th Start) init.
Definition c2 : config := reserve 0 (th Start) 0 c1.
Definition c3 : config := set_thread 1 (th Start) c2.
Definition c4 : config := reserve 1 (th Start) 1 c3.
Definition c5 : config :=
  mkConfig (records c4) (heap c4) (<[0 := th (Executed 0 (Ok response))]> (threads c4))
    (log c4 ++ [(key, "hash", Ok response)]).
Definition c6 : config := commit 0 (th (Executed 0 (Ok response))) 0 h0 response c5.
Definition c7 : config :=
  set_thread 0 (th (Finished (Ok response))) (set_heap 0 (hr_close (hr_set_response response h0)) c6).
Definition c8 : config := set_thread 1 (th (Finished (await_result (hr_close (hr_set_response response h0))))) c7.

Lemma reach_c8 : reach c8.
Proof.
  eapply rtc_l; [exact (step_call init 0 key "hash" eq_refl)|].
  eapply rtc_l; [exact (step_reserve c1 0 (th Start) 0 eq_refl eq_refl eq_refl)|].
  eapply rtc_l; [exact (step_call c2 1 key "hash" eq_refl)|].
  eapply rtc_l; [exact (step_reserve c3 1 (th Start) 1 eq_refl eq_refl eq_refl)|].
  eapply rtc_l; [exact (step_execute c4 0 (th (Owner 0)) 0 (Ok response) eq_refl eq_refl)|].
  eapply rtc_l; [exact (step_commit c5 0 (th (Executed 0 (Ok response))) 0 h0 response eq_refl eq_refl eq_refl)|].
  eapply rtc_l; [exact (step_close c6 0 (th (Closing 0 (Ok response))) 0 (hr_set_response response h0) (Ok response)
    eq_refl eq_refl eq_refl)|].
  apply rtc_once. exact (step_await c7 1 (th (Waiting 0)) 0 (hr_close (hr_set_response response h0))
    eq_refl eq_refl eq_refl eq_refl).
Qed.
End Overlap.

Lemma concurrent_execute_once_witness :
  length (filter (fun en : recordKey * string * result error IdempotencyResponse =>
    en.1.1 = Overlap.key /\ is_ok en.2 = true) (Concurrent.log Overlap.c8)) <= 1 /\
  forall x y, Concurrent.Finished (Ok x) = Concurrent.Finished (Ok Overlap.response) ->
    Concurrent.Finished (Ok y) = Concurrent.Finished (Ok Overlap.response) -> x = y.
Proof.
  destruct (concurrent_execute_once Overlap.c8 Overlap.reach_c8) as [Honce Hsame].
  split; [exact (Honce Overlap.key)|]. intros x y Hx Hy.
  apply (Hsame 0 1 (Overlap.th (Concurrent.Finished (Ok Overlap.response)))
    (Overlap.th (Concurrent.Finished (Ok Overlap.response))) x y); [reflexivity..| |]; symmetry; assumption.
Defined.

(** A counter as the executor's state. *)
Definition count_up : M error nat IdempotencyResponse := fun n => (Ok (mkResponse 200 "ok"), Datatypes.S n).

Lemma execute_replay_or_conflict_witness :
  Execute id "scope" "key" "payload" count_up ({[("scope", "key") := mkRecord "payload" (mkResponse 200 "ok")]}, 1) =
    (Ok (mkResponse 200 "ok"), ({[("scope", "key") := mkRecord "payload" (mkResponse 200 "ok")]}, 1)) /\
  Execute id "scope" "key" "other" count_up ({[("scope", "key") := mkRecord "payload" (mkResponse 200 "ok")]}, 1) =
    (Err IdempotencyConflict, ({[("scope", "key") := mkRecord "payload" (mkResponse 200 "ok")]}, 1)).
Proof.
  destruct (execute_replay_or_conflict id "scope" "key" "payload" "other" count_up count_up (∅, 0)
    ({[("scope", "key") := mkRecord "payload" (mkResponse 200 "ok")]}, 1) (mkResponse 200 "ok")) as [H1 H2].
  - vm_compute. reflexivity.
  - split; [exact H1|]. apply H2. discriminate.
Defined.

Definition planner_capability : Capability :=
  mkCapability "p1" "t1" "inv1" "" "" "" RolePlanner "" (ToolSet [ToolWorkspaceRead; ToolAgentSubmitPhaseOutput]) 1000.

Definition issued : AuthStore :=
  snd (IssueAgentToken id None "actor" planner_capability (Ok "secret") 10 NewAuthStore).
Definition planner : Principal :=
  mkPrincipal "actor" PrincipalAgent "p1" RolePlanner "" "t1" "inv1" "" "" ""
    (ToolSet [ToolWorkspaceRead; ToolAgentSubmitPhaseOutput]) 20.

Lemma agent_authority_bounded_witness :
  is_Some (pri_Tools planner !! ToolWorkspaceRead) /\ roleAllowsTool RolePlanner ToolWorkspaceRead = true /\
  IsZeroID (pri_TaskID planner) = false.
Proof.
  destruct (agent_authority_bounded id None "secret" 20 issued issued planner) as (_ & _ & _ & Ht & Hz & _).
  - vm_compute. reflexivity.
  - assert (is_Some (pri_Tools planner !! ToolWorkspaceRead)) as Hr by (vm_compute; eexists; reflexivity).
    split; [exact Hr|]. split; [exact (proj1 (proj2 (Ht _ Hr)))|]. apply Hz. reflexivity.
Defined.

Lemma token_lifecycle_witness :
  AuthenticateAgentToken id None "secret" 20 issued = (Ok planner, issued) /\
  forall instant p,
    fst (AuthenticateAgentToken id None "secret" instant (snd (RevokeAgentToken id None "secret" 30 issued))) <> Ok p.
Proof.
  apply (token_lifecycle id None None None "actor" planner_capability (Ok "secret") 10 20 30 NewAuthStore issued
    (snd (RevokeAgentToken id None "secret" 30 issued)) "secret").
  - vm_compute. reflexivity.
  - reflexivity.
  - vm_compute. reflexivity.
Defined.

Definition task_manager : Principal :=
  mkPrincipal "tm" PrincipalAgent "p1" RoleTaskManager "" "" "inv0" "" "" ""
    (ToolSet [ToolCoordinationReplacePending; ToolCoordinationTransition]) 20.

Definition service_plan : PendingSubgraph :=
  mkPending "request-1" 1 [mkTask "t1" "contract" TaskActive]
    [mkEndpoint (mkRef "t1" "plan") "spec" "b1" 1 EndpointPending RunEnabled;
     mkEndpoint (mkRef "t1" "execute") "spec" "b2" 1 EndpointPending RunEnabled;
     mkEndpoint (mkRef "t1" "verify") "spec" "b3" 1 EndpointPending RunEnabled] [] [].

Definition decided : DecisionLog := snd (RegisterReplacePending "p1" "request-1" ∅).
Definition service_call : M error (IdempotencyStore * (DecisionLog * MemoryStore)) Revision :=
  Service_ReplacePending id ps_RequestID task_manager true true service_plan.
Definition served : IdempotencyStore * (DecisionLog * MemoryStore) := snd (service_call (∅, (decided, ∅))).

Lemma service_replace_authorized_witness : served.2.1 = decided.
Proof.
  apply (service_replace_authorized id ps_RequestID task_manager true true service_plan ∅ served.1 decided served.2.1 ∅
    served.2.2 2).
  vm_compute. reflexivity.
Defined.

Lemma service_idempotent_witness : service_call served = (Ok 2%Z, served).
Proof.
  apply (service_idempotent id ps_RequestID (fun _ _ _ => "") task_manager true true service_plan 0 2 ""
    (∅, (decided, ∅)) served).
  vm_compute. reflexivity.
Defined.
