(* ===== verification/MergeQueue.v ===== *)
(** * The merge queue store

    [internal/mergequeue/model.go] and [store.go], with the operation records of
    [reconciler.go].  Path normalisation consults the host: its file
    system and path functions are the record [HostFS], an argument of the
    operations that normalise a path.  The random token of an operation and the
    clock are arguments too. *)

From stdpp Require Import base tactics option list strings gmap sorting.
From Stdlib Require Import ZArith Ascii.
From S2P Require Import Prelude GoLib GoStrings Kernel CoordTypes.

Definition StatusQueued : string := "queued".
Definition StatusMergeCheck : string := "merge_check".
Definition StatusTargetedVerify : string := "targeted_verify".
Definition StatusMerged : string := "merged".
Definition StatusFailed : string := "failed".

Definition FailureConflict : string := "conflict".
Definition FailurePermission : string := "permission".
Definition FailureMainDrift : string := "main_drift".
Definition FailureVerifyFailed : string := "verify_failed".

Record Candidate := mkMergeCandidate {
  mc_ID : string;
  mc_ProjectID : ProjectID;
  mc_TaskID : TaskID;
  mc_WorkspaceRef : BindingRef;
  mc_VerifyResultRef : string;
  mc_DiffArtifactRef : string;
  mc_TargetRepository : string;
  mc_TargetBranch : string;
  mc_BaseRevision : string;
  mc_MainRevision : string;
  mc_CandidateRevision : string;
  mc_Status : string;
  mc_FailureReason : string;
  mc_MergedRevision : string;
  mc_EvidenceRefs : list string;
  mc_CreatedAt : Time;
  mc_UpdatedAt : Time;
}.

(** The fields a transition may change. *)
Definition mc_set (status reason merged : string) (refs : list string) (now : Time) (c : Candidate) : Candidate :=
  mkMergeCandidate (mc_ID c) (mc_ProjectID c) (mc_TaskID c) (mc_WorkspaceRef c) (mc_VerifyResultRef c)
    (mc_DiffArtifactRef c) (mc_TargetRepository c) (mc_TargetBranch c) (mc_BaseRevision c) (mc_MainRevision c)
    (mc_CandidateRevision c) status reason merged refs (mc_CreatedAt c) now.

Record Claim := mkClaim {
  cl_Candidate : Candidate;
  cl_OwnerID : string;
  cl_Token : string;
  cl_ExpiresAt : Time;
}.

Record EnqueueRequest := mkEnqueue {
  eq_ID : string;
  eq_ProjectID : ProjectID;
  eq_TaskID : TaskID;
  eq_WorkspaceRef : BindingRef;
  eq_VerifyResultRef : string;
  eq_DiffArtifactRef : string;
  eq_TargetRepository : string;
  eq_TargetBranch : string;
  eq_BaseRevision : string;
  eq_MainRevision : string;
  eq_CandidateRevision : string;
  eq_EvidenceRefs : list string;
}.

(** [ArtifactRefs] tells a nil slice ([None]) from an empty one: their JSON
    encodings differ. *)
Record auditRecord := mkAudit {
  au_StableKey : IdempotencyKey;
  au_Type : string;
  au_ProjectID : ProjectID;
  au_TaskID : TaskID;
  au_WorkspaceRef : BindingRef;
  au_Payload : gmap string string;
  au_ArtifactRefs : option (list string);
  au_Delivered : bool;
}.

#[global] Instance auditRecord_eq_dec : EqDecision auditRecord.
Proof. solve_decision. Defined.

Definition au_set_Delivered (b : bool) (a : auditRecord) : auditRecord :=
  mkAudit (au_StableKey a) (au_Type a) (au_ProjectID a) (au_TaskID a) (au_WorkspaceRef a) (au_Payload a)
    (au_ArtifactRefs a) b.
Definition au_set_ArtifactRefs (refs : option (list string)) (a : auditRecord) : auditRecord :=
  mkAudit (au_StableKey a) (au_Type a) (au_ProjectID a) (au_TaskID a) (au_WorkspaceRef a) (au_Payload a)
    refs (au_Delivered a).

Record mergeOperation := mkOperation {
  op_ID : string;
  op_Token : string;
  op_CandidateID : string;
  op_TargetRepository : string;
  op_TargetBranch : string;
  op_ExpectedMainRevision : string;
  op_ExpectedMergedRevision : string;
  op_Status : string;
  op_EvidenceRefs : list string;
  op_Audit : auditRecord;
  op_RecoveryReason : string;
}.

Definition op_set_Status (status reason : string) (o : mergeOperation) : mergeOperation :=
  mkOperation (op_ID o) (op_Token o) (op_CandidateID o) (op_TargetRepository o) (op_TargetBranch o)
    (op_ExpectedMainRevision o) (op_ExpectedMergedRevision o) status (op_EvidenceRefs o) (op_Audit o) reason.

Record mergeOperationRequest := mkOperationRequest {
  or_ExpectedMainRevision : string;
  or_ExpectedMergedRevision : string;
  or_EvidenceRefs : list string;
  or_Audit : auditRecord;
}.

Record MergeStore := mkMergeStore {
  ms_candidates : gmap string Candidate;
  ms_repoClaims : gmap string Claim;
  ms_operations : gmap string mergeOperation;
  ms_audits : gmap IdempotencyKey auditRecord;
  ms_auditOrder : list IdempotencyKey;
}.

Definition NewMergeStore : MergeStore := mkMergeStore ∅ ∅ ∅ ∅ [].

Definition ms_set_candidate (c : Candidate) (s : MergeStore) : MergeStore :=
  mkMergeStore (<[mc_ID c := c]> (ms_candidates s)) (ms_repoClaims s) (ms_operations s) (ms_audits s) (ms_auditOrder s).
Definition ms_set_claims (m : gmap string Claim) (s : MergeStore) : MergeStore :=
  mkMergeStore (ms_candidates s) m (ms_operations s) (ms_audits s) (ms_auditOrder s).
Definition ms_set_operation (o : mergeOperation) (s : MergeStore) : MergeStore :=
  mkMergeStore (ms_candidates s) (ms_repoClaims s) (<[op_ID o := o]> (ms_operations s)) (ms_audits s) (ms_auditOrder s).
Definition ms_set_audits (m : gmap IdempotencyKey auditRecord) (order : list IdempotencyKey) (s : MergeStore) : MergeStore :=
  mkMergeStore (ms_candidates s) (ms_repoClaims s) (ms_operations s) m order.

(** ** Helpers *)

Definition validAdvance (from to : string) : bool :=
  (bool_decide (from = StatusMergeCheck) && bool_decide (to = StatusTargetedVerify)) ||
  (bool_decide (from = StatusTargetedVerify) && bool_decide (to = StatusMerged)).

Definition validFailureReason (reason : string) : bool :=
  bool_decide (reason = FailureConflict) || bool_decide (reason = FailurePermission) ||
  bool_decide (reason = FailureMainDrift) || bool_decide (reason = FailureVerifyFailed).

Fixpoint contains_any (chars s : string) : bool :=
  match s with
  | EmptyString => false
  | String c s' => Contains (String c EmptyString) chars || contains_any chars s'
  end.

(** A rune below 0x20 or equal to 0x7f is a single byte. *)
Fixpoint has_control (s : string) : bool :=
  match s with
  | EmptyString => false
  | String c s' => let n := N_of_ascii c in (n <? 32)%N || (n =? 127)%N || has_control s'
  end.

Definition validBranch (branch : string) : bool :=
  if bool_decide (branch = "") || has_prefix "-" branch || has_suffix "." branch || has_suffix ".lock" branch ||
     Contains ".." branch || contains_any " ~^:?*[\" branch || Contains "//" branch || has_prefix "/" branch ||
     has_suffix "/" branch
  then false
  else negb (has_control branch).

Definition is_hex (c : ascii) : bool :=
  let n := N_of_ascii c in
  ((48 <=? n) && (n <=? 57) || (97 <=? n) && (n <=? 102) || (65 <=? n) && (n <=? 70))%N.

Fixpoint all_hex (s : string) : bool :=
  match s with EmptyString => true | String c s' => is_hex c && all_hex s' end.

(** 40 and 64 are even, so [hex.DecodeString] fails only on a bad digit. *)
Definition validRevision (revision : string) : bool :=
  if bool_decide (String.length revision <> 40) && bool_decide (String.length revision <> 64) then false
  else all_hex revision.

Definition equalEvidence (left right : list string) : bool :=
  if bool_decide (length left <> length right) then false
  else forallb (fun p : string * string => bool_decide (p.1 = p.2)) (zip left right).

Definition candidate_order (a b : Candidate) : bool :=
  if bool_decide (mc_CreatedAt a = mc_CreatedAt b) then string_lt (mc_ID a) (mc_ID b)
  else (mc_CreatedAt a <? mc_CreatedAt b)%Z.

Definition notFoundCandidate : error := kerr CodeNotFound "merge candidate not found" false.
Definition statusChanged : error := kerr CodeTransitionRejected "merge candidate status changed" true.

Section with_runtime.
Context `{GR : GoRuntime}.

Definition dedupeEvidence (refs : list string) : list string := sort_slice string_lt (dedupe_from ∅ refs).

Definition validateEnqueue (req : EnqueueRequest) : res unit :=
  _ ← fail_if (bool_decide (eq_ID req = "") || bool_decide (eq_ProjectID req = "") ||
               bool_decide (eq_TaskID req = "") || bool_decide (eq_WorkspaceRef req = "") ||
               bool_decide (eq_VerifyResultRef req = "") || bool_decide (eq_DiffArtifactRef req = "") ||
               bool_decide (TrimSpace (eq_TargetRepository req) = "") ||
               bool_decide (TrimSpace (eq_BaseRevision req) = "") ||
               bool_decide (TrimSpace (eq_MainRevision req) = "") ||
               bool_decide (TrimSpace (eq_CandidateRevision req) = ""))
      (InvalidArgument "merge candidate requires identity, workspace, verify/diff refs, target, and revisions");
  _ ← fail_if (negb (validBranch (eq_TargetBranch req))) (InvalidArgument "target_branch is invalid");
  fail_if (negb (validRevision (eq_BaseRevision req)) || negb (validRevision (eq_MainRevision req)) ||
           negb (validRevision (eq_CandidateRevision req)))
    (InvalidArgument "merge candidate revisions must be immutable git object IDs").

Definition enqueueEvidence (req : EnqueueRequest) : list string :=
  dedupeEvidence ([eq_VerifyResultRef req; eq_DiffArtifactRef req] ++ eq_EvidenceRefs req).

Definition sameEnqueue (candidate : Candidate) (req : EnqueueRequest) : bool :=
  let branch := if bool_decide (eq_TargetBranch req = "") then "main" else eq_TargetBranch req in
  bool_decide (mc_ProjectID candidate = eq_ProjectID req) && bool_decide (mc_TaskID candidate = eq_TaskID req) &&
  bool_decide (mc_WorkspaceRef candidate = eq_WorkspaceRef req) &&
  bool_decide (mc_VerifyResultRef candidate = eq_VerifyResultRef req) &&
  bool_decide (mc_DiffArtifactRef candidate = eq_DiffArtifactRef req) &&
  bool_decide (mc_TargetRepository candidate = eq_TargetRepository req) &&
  bool_decide (mc_TargetBranch candidate = branch) &&
  bool_decide (mc_BaseRevision candidate = eq_BaseRevision req) &&
  bool_decide (mc_MainRevision candidate = eq_MainRevision req) &&
  bool_decide (mc_CandidateRevision candidate = eq_CandidateRevision req) &&
  equalEvidence (mc_EvidenceRefs candidate) (enqueueEvidence req).

(** [append([]T(nil), refs...)]: an empty slice becomes nil. *)
Definition clone_refs (refs : option (list string)) : option (list string) :=
  match refs with Some [] => None | _ => refs end.

Definition cloneAudit (audit : auditRecord) : auditRecord :=
  au_set_ArtifactRefs (clone_refs (au_ArtifactRefs audit)) audit.

(** The JSON encodings are compared; on valid UTF-8 they are equal exactly for
    equal records. *)
Definition equalAudit (left right : auditRecord) : bool :=
  bool_decide (au_set_Delivered false left = au_set_Delivered false right).

Definition cloneCandidate (c : Candidate) : Candidate :=
  mc_set (mc_Status c) (mc_FailureReason c) (mc_MergedRevision c) ([] ++ mc_EvidenceRefs c) (mc_UpdatedAt c) c.

Definition cloneMergeOperation (o : mergeOperation) : mergeOperation :=
  mkOperation (op_ID o) (op_Token o) (op_CandidateID o) (op_TargetRepository o) (op_TargetBranch o)
    (op_ExpectedMainRevision o) (op_ExpectedMergedRevision o) (op_Status o) ([] ++ op_EvidenceRefs o)
    (cloneAudit (op_Audit o)) (op_RecoveryReason o).

Definition appendAuditLocked (audit : auditRecord) : M error MergeStore unit :=
  _ ← lift (fail_if (bool_decide (au_StableKey audit = "") || bool_decide (au_Type audit = "") ||
                     bool_decide (au_ProjectID audit = "") || bool_decide (au_TaskID audit = "") ||
                     bool_decide (au_WorkspaceRef audit = ""))
        (InvalidArgument "merge audit identity is required"));
  let audit := au_set_ArtifactRefs (Some (dedupeEvidence (default [] (au_ArtifactRefs audit)))) audit in
  s ← get_state;
  match ms_audits s !! au_StableKey audit with
  | Some existing => if negb (equalAudit existing audit) then throw IdempotencyConflict else mret tt
  | None =>
    put_state (ms_set_audits (<[au_StableKey audit := cloneAudit audit]> (ms_audits s))
                 (ms_auditOrder s ++ [au_StableKey audit]) s)
  end.

Definition requireClaimLocked (s : MergeStore) (claim : Claim) : res unit :=
  match ms_repoClaims s !! mc_TargetRepository (cl_Candidate claim) with
  | None => Err (LeaseConflict "merge claim is no longer current")
  | Some current =>
    fail_if (bool_decide (mc_ID (cl_Candidate current) <> mc_ID (cl_Candidate claim)) ||
             bool_decide (cl_Token current <> cl_Token claim))
      (LeaseConflict "merge claim is no longer current")
  end.

Definition isActive (o : mergeOperation) : bool :=
  bool_decide (op_Status o = "pending") || bool_decide (op_Status o = "recovery_required").

Definition activeOperationLocked (s : MergeStore) (targetRepository : string) : option mergeOperation :=
  match list_find (fun o => op_TargetRepository o = targetRepository /\ isActive o = true)
          (range_values (ms_operations s)) with
  | Some (_, o) => Some (cloneMergeOperation o)
  | None => None
  end.

Definition requireOperationLocked (s : MergeStore) (op : mergeOperation) : res mergeOperation :=
  match ms_operations s !! op_ID op with
  | None => Err (LeaseConflict "merge operation is no longer current")
  | Some stored =>
    _ ← fail_if (bool_decide (op_Token stored <> op_Token op)) (LeaseConflict "merge operation is no longer current");
    _ ← fail_if (bool_decide (op_Status stored <> "pending") && bool_decide (op_Status stored <> "recovery_required"))
        (kerr CodeTransitionRejected "merge operation is not active" true);
    Ok (cloneMergeOperation stored)
  end.

Definition get_candidate (id : string) : M error MergeStore Candidate :=
  s ← get_state;
  match ms_candidates s !! id with
  | None => throw notFoundCandidate
  | Some c => mret c
  end.

Definition put_candidate (c : Candidate) : M error MergeStore Candidate :=
  _ ← modify (ms_set_candidate c);
  mret (cloneCandidate c).

(** ** Operations *)

(** What the host answers: [filepath.Abs], [filepath.EvalSymlinks] and [os.Stat]
    with their failures as [None] ([fs_Stat] says whether the path is a directory),
    [filepath.Clean], [strings.ToLower], and whether it runs Windows. *)
Record HostFS := mkHostFS {
  fs_Abs : string -> option string;
  fs_EvalSymlinks : string -> option string;
  fs_Stat : string -> option bool;
  fs_Clean : string -> string;
  fs_ToLower : string -> string;
  fs_windows : bool;
}.

Definition normalizeTargetRepository (fs : HostFS) (value : string) : res string :=
  let value := TrimSpace value in
  _ ← fail_if (bool_decide (value = "")) (InvalidArgument "target_repository is required");
  match fs_Abs fs value with
  | None => Err (InvalidArgument "target_repository is invalid")
  | Some abs =>
    let resolved := default abs (fs_EvalSymlinks fs abs) in
    if decide (fs_Stat fs resolved = Some true)
    then let resolved := fs_Clean fs resolved in
         Ok (if fs_windows fs then fs_ToLower fs resolved else resolved)
    else Err (InvalidArgument "target_repository must be a directory")
  end.

Section operations.
Context (fs : HostFS).

Definition eq_normalized (req : EnqueueRequest) (repository : string) : EnqueueRequest :=
  mkEnqueue (eq_ID req) (eq_ProjectID req) (eq_TaskID req) (eq_WorkspaceRef req) (eq_VerifyResultRef req)
    (eq_DiffArtifactRef req) repository
    (if bool_decide (eq_TargetBranch req = "") then "main" else eq_TargetBranch req)
    (eq_BaseRevision req) (eq_MainRevision req) (eq_CandidateRevision req) (eq_EvidenceRefs req).

Definition newCandidate (req : EnqueueRequest) (now : Time) : Candidate :=
  mkMergeCandidate (eq_ID req) (eq_ProjectID req) (eq_TaskID req) (eq_WorkspaceRef req) (eq_VerifyResultRef req)
    (eq_DiffArtifactRef req) (eq_TargetRepository req) (eq_TargetBranch req) (eq_BaseRevision req)
    (eq_MainRevision req) (eq_CandidateRevision req) StatusQueued "" "" (enqueueEvidence req) now now.

Definition enqueue (ctx : Context) (req : EnqueueRequest) (audit : auditRecord) (now : Time) :
    M error MergeStore Candidate :=
  _ ← lift (ctx_Err ctx);
  normalizedTarget ← lift (normalizeTargetRepository fs (eq_TargetRepository req));
  let req := eq_normalized req normalizedTarget in
  _ ← lift (validateEnqueue req);
  s ← get_state;
  match ms_candidates s !! eq_ID req with
  | Some existing =>
    if sameEnqueue existing req then
      _ ← appendAuditLocked audit;
      mret (cloneCandidate existing)
    else throw IdempotencyConflict
  | None =>
    let candidate := newCandidate req now in
    _ ← appendAuditLocked audit;
    put_candidate candidate
  end.

Definition Get (ctx : Context) (id : string) : M error MergeStore Candidate :=
  _ ← lift (ctx_Err ctx);
  c ← get_candidate id;
  mret (cloneCandidate c).

Definition claimable (targetRepository : string) (c : Candidate) : bool :=
  bool_decide (mc_TargetRepository c = targetRepository) &&
  (bool_decide (mc_Status c = StatusQueued) || bool_decide (mc_Status c = StatusMergeCheck) ||
   bool_decide (mc_Status c = StatusTargetedVerify)).

Definition ClaimNext (ctx : Context) (targetRepository : string) (now : Time) : M error MergeStore (option Claim) :=
  _ ← lift (ctx_Err ctx);
  targetRepository ← lift (normalizeTargetRepository fs targetRepository);
  s ← get_state;
  match activeOperationLocked s targetRepository with
  | Some _ => mret None
  | None =>
    match ms_repoClaims s !! targetRepository with
    | Some _ => mret None
    | None =>
      match sort_slice candidate_order
              (filter (fun c => claimable targetRepository c = true) (range_values (ms_candidates s))) with
      | [] => mret None
      | candidate :: _ =>
        let candidate' := if bool_decide (mc_Status candidate = StatusQueued)
                          then mc_set StatusMergeCheck (mc_FailureReason candidate) (mc_MergedRevision candidate)
                                 (mc_EvidenceRefs candidate) now candidate
                          else candidate in
        _ ← (if bool_decide (mc_Status candidate = StatusQueued) then modify (ms_set_candidate candidate') else mret tt);
        let claim := mkClaim (cloneCandidate candidate') "memory" ("memory:" +:+ mc_ID candidate') (now + hour)%Z in
        _ ← modify (fun s => ms_set_claims (<[targetRepository := claim]> (ms_repoClaims s)) s);
        mret (Some claim)
      end
    end
  end.

Definition RenewClaim (ctx : Context) (claim : Claim) (now : Time) : M error MergeStore Claim :=
  _ ← lift (ctx_Err ctx);
  s ← get_state;
  let repository := mc_TargetRepository (cl_Candidate claim) in
  match ms_repoClaims s !! repository with
  | None => throw (LeaseConflict "merge claim is no longer current")
  | Some current =>
    _ ← lift (fail_if (bool_decide (mc_ID (cl_Candidate current) <> mc_ID (cl_Candidate claim)) ||
                       bool_decide (cl_Token current <> cl_Token claim))
          (LeaseConflict "merge claim is no longer current"));
    candidate ← get_candidate (mc_ID (cl_Candidate claim));
    let current := mkClaim (cloneCandidate candidate) (cl_OwnerID current) (cl_Token current) (now + hour)%Z in
    _ ← modify (fun s => ms_set_claims (<[repository := current]> (ms_repoClaims s)) s);
    mret current
  end.

Definition pendingMergeOperation (ctx : Context) (targetRepository : string) : M error MergeStore (option mergeOperation) :=
  _ ← lift (ctx_Err ctx);
  targetRepository ← lift (normalizeTargetRepository fs targetRepository);
  s ← get_state;
  mret (activeOperationLocked s targetRepository).

Definition advance (ctx : Context) (claim : Claim) (from to : string) (evidenceRefs : list string)
    (mergedRevision : string) (now : Time) : M error MergeStore Candidate :=
  _ ← lift (ctx_Err ctx);
  _ ← lift (fail_if (negb (validAdvance from to)) (InvalidArgument "invalid merge candidate transition"));
  s ← get_state;
  _ ← lift (requireClaimLocked s claim);
  candidate ← get_candidate (mc_ID (cl_Candidate claim));
  _ ← lift (fail_if (bool_decide (mc_Status candidate <> from)) statusChanged);
  _ ← lift (fail_if (bool_decide (to = StatusMerged) && bool_decide (TrimSpace mergedRevision = ""))
        (InvalidArgument "merged_revision is required"));
  put_candidate (mc_set to (mc_FailureReason candidate) mergedRevision
    (dedupeEvidence (mc_EvidenceRefs candidate ++ evidenceRefs)) now candidate).

Definition beginMergeOperation (ctx : Context) (claim : Claim) (req : mergeOperationRequest) (token : string) :
    M error MergeStore mergeOperation :=
  _ ← lift (ctx_Err ctx);
  _ ← lift (fail_if (bool_decide (TrimSpace (or_ExpectedMainRevision req) = "") ||
                     bool_decide (TrimSpace (or_ExpectedMergedRevision req) = ""))
        (InvalidArgument "merge operation revisions are required"));
  s ← get_state;
  _ ← lift (requireClaimLocked s claim);
  candidate ← get_candidate (mc_ID (cl_Candidate claim));
  _ ← lift (fail_if (bool_decide (mc_Status candidate <> StatusTargetedVerify)) statusChanged);
  match activeOperationLocked s (mc_TargetRepository candidate) with
  | Some existing =>
    if bool_decide (op_CandidateID existing = mc_ID candidate) &&
       bool_decide (op_ExpectedMainRevision existing = or_ExpectedMainRevision req) &&
       bool_decide (op_ExpectedMergedRevision existing = or_ExpectedMergedRevision req)
    then mret (cloneMergeOperation existing)
    else throw (kerr CodeTransitionRejected "active merge operation already exists for repository" true)
  | None =>
    let op := mkOperation ("memory:" +:+ mc_ID candidate) token (mc_ID candidate) (mc_TargetRepository candidate)
                (mc_TargetBranch candidate) (or_ExpectedMainRevision req) (or_ExpectedMergedRevision req) "pending"
                (dedupeEvidence (or_EvidenceRefs req)) (cloneAudit (or_Audit req)) "" in
    _ ← modify (ms_set_operation op);
    mret (cloneMergeOperation op)
  end.

Definition finalizeMergeOperation (ctx : Context) (op : mergeOperation) (now : Time) : M error MergeStore Candidate :=
  _ ← lift (ctx_Err ctx);
  s ← get_state;
  stored ← lift (requireOperationLocked s op);
  candidate ← get_candidate (op_CandidateID stored);
  if bool_decide (mc_Status candidate = StatusMerged) &&
     bool_decide (mc_MergedRevision candidate = op_ExpectedMergedRevision stored)
  then mret (cloneCandidate candidate)
  else
    _ ← lift (fail_if (bool_decide (mc_Status candidate <> StatusTargetedVerify)) statusChanged);
    _ ← appendAuditLocked (op_Audit stored);
    let candidate := mc_set StatusMerged (mc_FailureReason candidate) (op_ExpectedMergedRevision stored)
                       (dedupeEvidence (mc_EvidenceRefs candidate ++ op_EvidenceRefs stored)) now candidate in
    _ ← modify (ms_set_candidate candidate);
    _ ← modify (ms_set_operation (op_set_Status "finalized" (op_RecoveryReason stored) stored));
    mret (cloneCandidate candidate).

Definition abortMergeOperation (ctx : Context) (op : mergeOperation) : M error MergeStore unit :=
  _ ← lift (ctx_Err ctx);
  s ← get_state;
  stored ← lift (requireOperationLocked s op);
  modify (ms_set_operation (op_set_Status "aborted" (op_RecoveryReason stored) stored)).

Definition markMergeOperationRecoveryRequired (ctx : Context) (op : mergeOperation) (reason : string) :
    M error MergeStore Candidate :=
  _ ← lift (ctx_Err ctx);
  s ← get_state;
  stored ← lift (requireOperationLocked s op);
  _ ← modify (ms_set_operation (op_set_Status "recovery_required" reason stored));
  candidate ← get_candidate (op_CandidateID stored);
  mret (cloneCandidate candidate).

Definition failCandidate (ctx : Context) (claim : Claim) (from reason : string) (evidenceRefs : list string)
    (audit : auditRecord) (now : Time) : M error MergeStore Candidate :=
  _ ← lift (ctx_Err ctx);
  _ ← lift (fail_if (negb (validFailureReason reason) || bool_decide (evidenceRefs = []))
        (InvalidArgument "merge failure requires a valid reason and evidence refs"));
  s ← get_state;
  _ ← lift (requireClaimLocked s claim);
  candidate ← get_candidate (mc_ID (cl_Candidate claim));
  if bool_decide (mc_Status candidate = StatusFailed) && bool_decide (mc_FailureReason candidate = reason) then
    _ ← appendAuditLocked audit;
    mret (cloneCandidate candidate)
  else
    _ ← lift (fail_if (bool_decide (mc_Status candidate <> from) ||
                       (bool_decide (from <> StatusMergeCheck) && bool_decide (from <> StatusTargetedVerify)))
          (kerr CodeTransitionRejected "merge candidate cannot fail from current status" true));
    let candidate := mc_set StatusFailed reason (mc_MergedRevision candidate)
                       (dedupeEvidence (mc_EvidenceRefs candidate ++ evidenceRefs)) now candidate in
    _ ← appendAuditLocked audit;
    put_candidate candidate.

(** The loop of [pendingAudits]: at most [limit] records when it is positive. *)
Definition pendingAudits (ctx : Context) (projectID : ProjectID) (limit : Z) : M error MergeStore (list auditRecord) :=
  _ ← lift (ctx_Err ctx);
  s ← get_state;
  let out := cloneAudit <$> filter (fun a => au_Delivered a = false /\
                 (projectID = "" \/ au_ProjectID a = projectID))
               (omap (fun key => ms_audits s !! key) (ms_auditOrder s)) in
  mret (if (0 <? limit)%Z then take (Z.to_nat limit) out else out).

Definition markAuditDelivered (ctx : Context) (key : IdempotencyKey) : M error MergeStore unit :=
  _ ← lift (ctx_Err ctx);
  s ← get_state;
  match ms_audits s !! key with
  | None => throw (kerr CodeNotFound "merge audit not found" false)
  | Some audit => put_state (ms_set_audits (<[key := au_set_Delivered true audit]> (ms_audits s)) (ms_auditOrder s) s)
  end.

Definition ReleaseClaim (ctx : Context) (claim : Claim) : M error MergeStore unit :=
  _ ← lift (ctx_Err ctx);
  s ← get_state;
  let repository := mc_TargetRepository (cl_Candidate claim) in
  match ms_repoClaims s !! repository with
  | None => mret tt
  | Some current =>
    if bool_decide (mc_ID (cl_Candidate current) = mc_ID (cl_Candidate claim)) &&
       bool_decide (cl_Token current = cl_Token claim)
    then put_state (ms_set_claims (delete repository (ms_repoClaims s)) s)
    else mret tt
  end.

End operations.
End with_runtime.
