(* ===== verification/MergeQueueSpec.v ===== *)
(** * The merge queue as atomic queue events

    The specification of the merge queue store: candidates move along a fixed
    lifecycle, claims and merge operations are exclusive per repository.  Every
    operation of [MergeQueue] is shown to be a sequence of [queue_event]s, and
    the queue's invariant is proved of the events. *)

From stdpp Require Import base tactics option list strings gmap sorting relations.
From Stdlib Require Import ZArith Ascii.
From S2P Require Import Prelude GoLib GoStrings Kernel CoordTypes MergeQueue.

(** ** Evidence lists *)

Section evidence.
Context `{GR : GoRuntime}.

Lemma elem_of_dedupeEvidence refs x : x ∈ dedupeEvidence refs <-> x ∈ refs /\ x <> "".
Proof. apply elem_of_sorted_dedupe. Qed.

Lemma dedupeEvidence_normal refs : normal (dedupeEvidence refs).
Proof. apply sorted_dedupe_normal. Qed.
End evidence.

Lemma equalEvidence_true l1 l2 : equalEvidence l1 l2 = true <-> l1 = l2.
Proof.
  unfold equalEvidence. case_bool_decide as Hlen.
  { split; [done|]. intros ->. done. }
  revert l2 Hlen.
  induction l1 as [|x l1 IH]; intros [|y l2] Hlen; simplify_eq/=; [done|].
  rewrite andb_true_iff, bool_decide_eq_true, IH by done. naive_solver.
Qed.

(** ** Queue order *)

#[global] Instance candidate_order_ok : LessOk candidate_order.
Proof.
  assert (forall a b, sorts_by candidate_order a b <->
    (mc_CreatedAt a <= mc_CreatedAt b)%Z /\
    (mc_CreatedAt a = mc_CreatedAt b -> String.le (mc_ID a) (mc_ID b))) as Hs.
  { intros a b. unfold sorts_by, candidate_order. case_bool_decide as Heq.
    - rewrite string_lt_false. split; [intros; split; [lia|done]|]. intros [_ H]. by apply H.
    - rewrite Z.ltb_ge. split; [intros; split; [done|congruence]|]. by intros [? _]. }
  split.
  - intros a b c. rewrite !Hs. intros [H1 H2] [H3 H4]. split; [lia|]. intros Heq.
    transitivity (mc_ID b); [apply H2|apply H4]; lia.
  - intros a b. rewrite !Hs.
    destruct (Z.lt_trichotomy (mc_CreatedAt a) (mc_CreatedAt b)) as [?|[Heq|?]].
    + left. split; [lia|intros; lia].
    + rewrite Heq. destruct (total String.le (mc_ID a) (mc_ID b)); [left|right]; split; auto; lia.
    + right. split; [lia|intros; lia].
Qed.

(** ** Candidate lifecycle *)

Inductive status_move : string -> string -> Prop :=
| move_claim : status_move StatusQueued StatusMergeCheck
| move_checked : status_move StatusMergeCheck StatusTargetedVerify
| move_merged : status_move StatusTargetedVerify StatusMerged
| move_fail_check : status_move StatusMergeCheck StatusFailed
| move_fail_verify : status_move StatusTargetedVerify StatusFailed.

Definition terminal (c : Candidate) : Prop := mc_Status c = StatusMerged \/ mc_Status c = StatusFailed.

Lemma status_move_not_terminal c st : status_move (mc_Status c) st -> ~ terminal c.
Proof. intros H [Ht|Ht]; rewrite Ht in H; inversion H. Qed.

(** What a candidate was enqueued with. *)
Definition mc_identity (c : Candidate) : Candidate := mc_set "" "" "" [] 0%Z c.

Record candidate_move (c c' : Candidate) : Prop := {
  cm_identity : mc_identity c' = mc_identity c;
  cm_status : status_move (mc_Status c) (mc_Status c');
  cm_evidence : forall x, x ∈ mc_EvidenceRefs c -> x <> "" -> x ∈ mc_EvidenceRefs c';
  cm_normal : normal (mc_EvidenceRefs c) -> normal (mc_EvidenceRefs c');
  cm_merged : mc_Status c' = StatusMerged -> TrimSpace (mc_MergedRevision c') <> "";
  cm_failed : mc_Status c' = StatusFailed -> validFailureReason (mc_FailureReason c') = true;
}.

Lemma cm_id c c' : candidate_move c c' -> mc_ID c' = mc_ID c.
Proof. intros [H _ _ _ _ _]. by injection H. Qed.

Lemma cm_repository c c' : candidate_move c c' -> mc_TargetRepository c' = mc_TargetRepository c.
Proof. intros [H _ _ _ _ _]. by injection H. Qed.

(** ** Events *)

Definition active_in (s : MergeStore) (repository : string) : Prop :=
  exists k o, ms_operations s !! k = Some o /\ op_TargetRepository o = repository /\ isActive o = true.

Definition operation_move (s : MergeStore) (o : mergeOperation) (status : string) : Prop :=
  status = "aborted" \/ status = "recovery_required" \/
  (status = "finalized" /\ exists c, ms_candidates s !! op_CandidateID o = Some c /\
    mc_Status c = StatusMerged /\ mc_MergedRevision c = op_ExpectedMergedRevision o).

Inductive queue_event (s : MergeStore) : MergeStore -> Prop :=
| ev_enqueue c :
    ms_candidates s !! mc_ID c = None -> mc_Status c = StatusQueued -> normal (mc_EvidenceRefs c) ->
    queue_event s (ms_set_candidate c s)
| ev_move c c' :
    ms_candidates s !! mc_ID c = Some c -> candidate_move c c' ->
    queue_event s (ms_set_candidate c' s)
| ev_claim c cl :
    ms_candidates s !! mc_ID c = Some c -> cl_Candidate cl = c -> ~ terminal c ->
    ~ active_in s (mc_TargetRepository c) -> ms_repoClaims s !! mc_TargetRepository c = None ->
    queue_event s (ms_set_claims (<[mc_TargetRepository c := cl]> (ms_repoClaims s)) s)
| ev_renew c cl cl' :
    ms_repoClaims s !! mc_TargetRepository c = Some cl -> mc_ID (cl_Candidate cl) = mc_ID c ->
    ms_candidates s !! mc_ID c = Some c -> cl_Candidate cl' = c -> cl_Token cl' = cl_Token cl ->
    queue_event s (ms_set_claims (<[mc_TargetRepository c := cl']> (ms_repoClaims s)) s)
| ev_release repository cl :
    ms_repoClaims s !! repository = Some cl ->
    queue_event s (ms_set_claims (delete repository (ms_repoClaims s)) s)
| ev_begin c o :
    ms_candidates s !! mc_ID c = Some c -> mc_Status c = StatusTargetedVerify ->
    ~ active_in s (mc_TargetRepository c) ->
    op_ID o = "memory:" +:+ mc_ID c -> op_CandidateID o = mc_ID c ->
    op_TargetRepository o = mc_TargetRepository c -> op_Status o = "pending" ->
    TrimSpace (op_ExpectedMergedRevision o) <> "" ->
    queue_event s (ms_set_operation o s)
| ev_operation o status reason :
    ms_operations s !! op_ID o = Some o -> isActive o = true -> operation_move s o status ->
    queue_event s (ms_set_operation (op_set_Status status reason (cloneMergeOperation o)) s)
| ev_audit a :
    ms_audits s !! au_StableKey a = None ->
    queue_event s (ms_set_audits (<[au_StableKey a := a]> (ms_audits s)) (ms_auditOrder s ++ [au_StableKey a]) s)
| ev_delivered k a :
    ms_audits s !! k = Some a ->
    queue_event s (ms_set_audits (<[k := au_set_Delivered true a]> (ms_audits s)) (ms_auditOrder s) s).

(** ** The queue invariant *)

Record candidate_ok (k : string) (c : Candidate) : Prop := {
  co_id : mc_ID c = k;
  co_evidence : normal (mc_EvidenceRefs c);
  co_merged : mc_Status c = StatusMerged -> TrimSpace (mc_MergedRevision c) <> "";
  co_failed : mc_Status c = StatusFailed -> validFailureReason (mc_FailureReason c) = true;
  co_status : mc_Status c ∈ [StatusQueued; StatusMergeCheck; StatusTargetedVerify; StatusMerged; StatusFailed];
}.

(** An operation belongs to a candidate that passed its merge check; once
    finalized, the candidate is merged at the revision the operation expected. *)
Record operation_ok (s : MergeStore) (k : string) (o : mergeOperation) : Prop := {
  oo_key : op_ID o = k;
  oo_candidate : exists c, ms_candidates s !! op_CandidateID o = Some c /\
    op_TargetRepository o = mc_TargetRepository c /\
    (mc_Status c = StatusTargetedVerify \/ terminal c) /\
    (op_Status o = "finalized" -> mc_Status c = StatusMerged /\ mc_MergedRevision c = op_ExpectedMergedRevision o);
  oo_id : op_ID o = "memory:" +:+ op_CandidateID o;
  oo_revision : TrimSpace (op_ExpectedMergedRevision o) <> "";
}.

Record queue_inv (s : MergeStore) : Prop := {
  qi_candidates : forall k c, ms_candidates s !! k = Some c -> candidate_ok k c;
  qi_claims : forall r cl, ms_repoClaims s !! r = Some cl ->
    exists c, ms_candidates s !! mc_ID (cl_Candidate cl) = Some c /\ mc_TargetRepository c = r;
  qi_operations : forall k o, ms_operations s !! k = Some o -> operation_ok s k o;
  qi_exclusive : forall k1 k2 o1 o2, ms_operations s !! k1 = Some o1 -> ms_operations s !! k2 = Some o2 ->
    op_TargetRepository o1 = op_TargetRepository o2 -> isActive o1 = true -> isActive o2 = true -> k1 = k2;
  qi_audits : forall k, k ∈ ms_auditOrder s <-> is_Some (ms_audits s !! k);
  qi_order : NoDup (ms_auditOrder s);
}.

Lemma queue_inv_new : queue_inv NewMergeStore.
Proof.
  split; simpl; [intros k c|intros r cl|intros k o|intros k1 k2 o1 o2|intros k|constructor];
    rewrite lookup_empty; [done..|].
  rewrite elem_of_nil. split; [done|by intros [? ?]].
Qed.

Lemma isActive_set_Status status reason o :
  isActive (op_set_Status status reason o) =
  bool_decide (status = "pending") || bool_decide (status = "recovery_required").
Proof. done. Qed.

(** ** Every event preserves the invariant *)

Lemma operation_ok_ext s s' k o :
  (forall c, ms_candidates s !! op_CandidateID o = Some c ->
     exists c', ms_candidates s' !! op_CandidateID o = Some c' /\
       mc_TargetRepository c' = mc_TargetRepository c /\
       (mc_Status c = StatusTargetedVerify -> mc_Status c' = StatusTargetedVerify \/ terminal c') /\
       (terminal c -> c' = c)) ->
  operation_ok s k o -> operation_ok s' k o.
Proof.
  intros Hext [Hk (c & Hc & Hr & Hst & Hfin) Hid Hrev]. destruct (Hext c Hc) as (c' & Hc' & Hr' & Hmv & Ht).
  split; [done| |done..]. exists c'. split; [done|]. split; [congruence|]. split.
  - destruct Hst as [?|Hterm]; [by apply Hmv|]. rewrite (Ht Hterm). by right.
  - intros [Hm Hrv]%Hfin. rewrite Ht; [done|by left].
Qed.

Lemma set_candidate_inv s c :
  queue_inv s -> candidate_ok (mc_ID c) c ->
  (forall c0, ms_candidates s !! mc_ID c = Some c0 ->
     mc_TargetRepository c = mc_TargetRepository c0 /\ candidate_move c0 c) ->
  queue_inv (ms_set_candidate c s).
Proof.
  intros [Hc Hcl Ho Hex Ha Hn] Hok Hold. split; simpl; [| | |done..].
  - intros k c'. rewrite lookup_insert_Some. intros [[<- <-]|[_ ?]]; [done|by apply Hc].
  - intros r cl (c0 & H0 & Hr)%Hcl. destruct (decide (mc_ID c = mc_ID (cl_Candidate cl))) as [Heq|Hne].
    + exists c. rewrite Heq, lookup_insert_eq. split; [done|]. rewrite <- Heq in H0. by destruct (Hold c0 H0) as [-> _].
    + exists c0. by rewrite lookup_insert_ne.
  - intros k o H0%Ho. eapply operation_ok_ext; [|exact H0]. intros c0 Hc0. simpl.
    destruct (decide (mc_ID c = op_CandidateID o)) as [Heq|Hne].
    + exists c. rewrite Heq, lookup_insert_eq. split; [done|]. rewrite <- Heq in Hc0.
      destruct (Hold c0 Hc0) as [Hr Hmv]. split; [done|]. split.
      * intros Hst. pose proof (cm_status _ _ Hmv) as Hm. rewrite Hst in Hm. right.
        inversion Hm; [by left|by right].
      * intros Hterm. by destruct (status_move_not_terminal _ _ (cm_status _ _ Hmv)).
    + exists c0. rewrite lookup_insert_ne by done. auto.
Qed.

Lemma set_claims_inv s m :
  queue_inv s ->
  (forall r cl, m !! r = Some cl ->
     exists c, ms_candidates s !! mc_ID (cl_Candidate cl) = Some c /\ mc_TargetRepository c = r) ->
  queue_inv (ms_set_claims m s).
Proof.
  intros [Hc Hcl Ho Hex Ha Hn] Hm. split; simpl; [done..| |done|done|done].
  intros k o H0%Ho. eapply operation_ok_ext; [|exact H0]. eauto 10.
Qed.

Lemma set_operation_inv s o :
  queue_inv s -> operation_ok s (op_ID o) o ->
  (isActive o = true -> forall k o', ms_operations s !! k = Some o' -> isActive o' = true ->
     op_TargetRepository o' = op_TargetRepository o -> k = op_ID o) ->
  queue_inv (ms_set_operation o s).
Proof.
  intros [Hc Hcl Ho Hex Ha Hn] Hok Hact. split; simpl; [done..| | |done|done].
  - intros k o'. rewrite lookup_insert_Some. intros [[<- <-]|[_ H0%Ho]];
      (eapply operation_ok_ext; [|eassumption]); eauto 10.
  - intros k1 k2 o1 o2. rewrite !lookup_insert_Some.
    intros [[<- <-]|[? H1]] [[<- <-]|[? H2]] Hr A1 A2; [done| | |by eapply Hex].
    + symmetry. by eapply Hact.
    + by eapply Hact.
Qed.

Lemma set_audits_inv s m order :
  queue_inv s -> (forall k, k ∈ order <-> is_Some (m !! k)) -> NoDup order -> queue_inv (ms_set_audits m order s).
Proof.
  intros [Hc Hcl Ho Hex Ha Hn] Hm Hd. split; simpl; [done..| |done|done|done].
  intros k o H0%Ho. eapply operation_ok_ext; [|exact H0]. eauto 10.
Qed.

Lemma candidate_move_ok c c' : candidate_ok (mc_ID c) c -> candidate_move c c' -> candidate_ok (mc_ID c') c'.
Proof.
  intros [_ He _ _ _] [Hi Hs _ Hn Hm Hf]. split; [done|by apply Hn|done|done|].
  inversion Hs; unfold terminal; set_solver.
Qed.

Lemma queue_event_inv s s' : queue_event s s' -> queue_inv s -> queue_inv s'.
Proof.
  intros Hev Hs. destruct Hev as [c Hnone Hst Hn|c c' Hc Hmv|c cl Hc Hcl _ _ _|c cl cl' Hold Hid Hc Hcl _|r cl Hcl
    |c o Hc Hst Hna Hid Hcid Hr Hp Hrev|o st r Ho Hact Hmv|a Hnone|k a Ha].
  - apply set_candidate_inv; [done| |by rewrite Hnone].
    split; [done|done|by rewrite Hst..|rewrite Hst; set_solver].
  - pose proof (cm_id _ _ Hmv) as Hid. apply set_candidate_inv; [done| |].
    + eapply candidate_move_ok; [by apply (qi_candidates _ Hs)|done].
    + rewrite Hid, Hc. intros ? [= <-]. split; [by apply cm_repository|done].
  - apply set_claims_inv; [done|]. intros r cl'. rewrite lookup_insert_Some.
    intros [[<- <-]|[_ ?]]; [exists c; by rewrite Hcl|by apply (qi_claims _ Hs)].
  - apply set_claims_inv; [done|]. intros r cl0. rewrite lookup_insert_Some.
    intros [[<- <-]|[_ ?]]; [exists c; by rewrite Hcl|by apply (qi_claims _ Hs)].
  - apply set_claims_inv; [done|]. intros r' cl'. rewrite lookup_delete_Some.
    intros [_ ?]. by apply (qi_claims _ Hs).
  - apply set_operation_inv; [done| |].
    + split; [done| |congruence|done]. exists c. rewrite Hcid. split; [done|]. split; [done|]. split; [by left|].
      by rewrite Hp.
    + intros _ k o' Hk Ha Hr'. destruct Hna. exists k, o'. by rewrite Hr', Hr.
  - destruct (qi_operations _ Hs _ _ Ho) as [_ (c & Hc & Hr & Hcs & Hfin) Hid Hrev].
    apply set_operation_inv; [done| |].
    + split; [done| |done|done]. exists c. split_and!; [done|done|done|]. simpl. intros ->.
      destruct Hmv as [?|[?|(_ & c0 & Hc0 & ?)]]; [done|done|]. by simplify_eq.
    + intros _ k o' Hk Ha Hr'. by eapply (qi_exclusive _ Hs).
  - apply set_audits_inv; [done| |].
    + intros k. rewrite elem_of_app, list_elem_of_singleton, (qi_audits _ Hs), lookup_insert_is_Some.
      destruct (decide (au_StableKey a = k)); naive_solver.
    + apply NoDup_app. split_and!; [apply (qi_order _ Hs)| |apply NoDup_singleton].
      intros k Hk%(qi_audits _ Hs) ->%list_elem_of_singleton. rewrite Hnone in Hk. by destruct Hk.
  - apply set_audits_inv; [done| |apply (qi_order _ Hs)].
    intros k'. rewrite (qi_audits _ Hs), lookup_insert_is_Some. split.
    + destruct (decide (k = k')); naive_solver.
    + intros [<-|[_ ?]]; [by rewrite Ha|done].
Qed.

Lemma queue_events_inv s s' : rtc queue_event s s' -> queue_inv s -> queue_inv s'.
Proof. induction 1; eauto using queue_event_inv. Qed.

(** * The merge queue's operations refine the queue events

    Every call of the store, on every branch, performs a sequence of
    [queue_event]s; [queue_op] lists the calls and [queue_reachable] the stores
    they lead to. *)

(** ** A call performs events *)

Definition emits {A} (m : M error MergeStore A) (s : MergeStore) : Prop := rtc queue_event s (snd (m s)).

Lemma emits_readonly {A} (m : M error MergeStore A) s : readonly m -> emits m s.
Proof. intros Hm. unfold emits. by rewrite Hm. Qed.

Lemma emits_bind {A B} (m : M error MergeStore A) (k : A -> M error MergeStore B) s :
  emits m s -> (forall a s1, m s = (Ok a, s1) -> emits (k a) s1) -> emits (m ≫= k) s.
Proof.
  unfold emits, mbind, M_bind. intros Hm Hk. destruct (m s) as [[a|e] s1] eqn:Hr; simpl in *; [|done].
  etrans; [exact Hm|]. by apply Hk.
Qed.

(** A prefix of guards does not touch the store. *)
Lemma emits_guard {A B} (r : res A) (k : A -> M error MergeStore B) s :
  (forall a, r = Ok a -> emits (k a) s) -> emits (lift r ≫= k) s.
Proof.
  intros Hk. apply emits_bind; [by apply emits_readonly|]. intros a s1. unfold lift. intros [= -> <-]. by apply Hk.
Qed.

Lemma emits_get {B} (k : MergeStore -> M error MergeStore B) s : emits (k s) s -> emits (get_state ≫= k) s.
Proof. done. Qed.

Lemma emits_modify f s : queue_event s (f s) -> emits (@modify error _ f) s.
Proof. intros ?. by apply rtc_once. Qed.

Lemma emits_candidate {B} id (k : Candidate -> M error MergeStore B) s :
  (forall c, ms_candidates s !! id = Some c -> emits (k c) s) -> emits (get_candidate id ≫= k) s.
Proof.
  intros Hk. unfold emits, get_candidate, mbind, M_bind, get_state, mret, M_ret, throw.
  destruct (ms_candidates s !! id); [by apply Hk|done].
Qed.

Lemma emits_put c s : queue_event s (ms_set_candidate c s) -> emits (put_candidate c) s.
Proof. intros ?. by apply rtc_once. Qed.

#[export] Hint Resolve emits_readonly : threadmill.

(** ** Candidate moves *)

Section moves.
Context `{GR : GoRuntime}.
Implicit Types c : Candidate.

Lemma claim_candidate_move c now :
  mc_Status c = StatusQueued ->
  candidate_move c (mc_set StatusMergeCheck (mc_FailureReason c) (mc_MergedRevision c) (mc_EvidenceRefs c) now c).
Proof. intros Hst. split; simpl; [done|rewrite Hst; constructor|done..]. Qed.

Lemma evidence_candidate_move c status reason merged refs now :
  status_move (mc_Status c) status ->
  (status = StatusMerged -> TrimSpace merged <> "") ->
  (status = StatusFailed -> validFailureReason reason = true) ->
  candidate_move c (mc_set status reason merged (dedupeEvidence (mc_EvidenceRefs c ++ refs)) now c).
Proof.
  intros Hs Hm Hf. split; simpl; [done|done| | |done|done].
  - intros x Hx Hne. rewrite elem_of_dedupeEvidence, elem_of_app. auto.
  - intros _. apply dedupeEvidence_normal.
Qed.

Lemma validAdvance_true from to : validAdvance from to = true -> status_move from to /\ to <> StatusFailed.
Proof.
  unfold validAdvance. intros H. apply orb_true_iff in H as [H|H]; apply andb_true_iff in H as [H1 H2];
    apply bool_decide_eq_true in H1 as ->; apply bool_decide_eq_true in H2 as ->; (split; [constructor|done]).
Qed.

(** ** What the guards establish *)

Lemma activeOperationLocked_None s repository : activeOperationLocked s repository = None -> ~ active_in s repository.
Proof.
  unfold activeOperationLocked. destruct (list_find _ _) as [[i o]|] eqn:Hf; [done|]. intros _ (k & o & Ho & Hr & Ha).
  apply list_find_None in Hf. rewrite Forall_forall in Hf. apply (Hf o); [|done].
  apply elem_of_range_values. eauto.
Qed.

Lemma activeOperationLocked_Some s repository o :
  activeOperationLocked s repository = Some o -> exists k o0, ms_operations s !! k = Some o0 /\
    op_TargetRepository o0 = repository /\ isActive o0 = true /\ o = cloneMergeOperation o0.
Proof.
  unfold activeOperationLocked. destruct (list_find _ _) as [[i o0]|] eqn:Hf; [|done]. intros [= <-].
  apply list_find_Some in Hf as (Hi & [Hr Ha] & _).
  apply list_elem_of_lookup_2, elem_of_range_values in Hi as (k & Hk). by exists k, o0.
Qed.

Lemma requireClaimLocked_Ok s claim u :
  requireClaimLocked s claim = Ok u <-> exists cl,
    ms_repoClaims s !! mc_TargetRepository (cl_Candidate claim) = Some cl /\
    mc_ID (cl_Candidate cl) = mc_ID (cl_Candidate claim) /\ cl_Token cl = cl_Token claim.
Proof.
  unfold requireClaimLocked. destruct (ms_repoClaims s !! _) as [cl|]; [|naive_solver].
  rewrite fail_if_Ok, orb_false_iff, !bool_decide_eq_false. split.
  - intros [H1%dec_stable H2%dec_stable]. eauto.
  - intros (? & [= <-] & ? & ?). split; tauto.
Qed.

Lemma isActive_clone o : isActive (cloneMergeOperation o) = isActive o.
Proof. done. Qed.

Lemma requireOperationLocked_Ok s op o :
  requireOperationLocked s op = Ok o -> exists o0, ms_operations s !! op_ID op = Some o0 /\
    op_Token o0 = op_Token op /\ isActive o0 = true /\ o = cloneMergeOperation o0.
Proof.
  unfold requireOperationLocked. destruct (ms_operations s !! _) as [o0|]; [|done]. intros H. res_inv.
  exists o0. bool_inv. split; [done|]. split; [done|]. split; [|done]. unfold isActive.
  apply orb_true_iff. rewrite !bool_decide_eq_true. destruct (decide (op_Status o0 = "pending")); [by left|right].
  match goal with H : _ \/ _ |- _ => destruct H as [Hb|Hb]; bool_inv; tauto end.
Qed.

Lemma cloneCandidate_id c : cloneCandidate c = c.
Proof. by destruct c. Qed.

(** ** Each call *)

Lemma appendAuditLocked_emits audit s : emits (appendAuditLocked audit) s.
Proof.
  apply emits_guard. intros _ _. apply emits_get. simpl.
  destruct (ms_audits s !! au_StableKey audit) as [a|] eqn:Ha.
  - destruct (equalAudit _ _); by apply emits_readonly.
  - apply rtc_once. simpl. set (a := cloneAudit _). by apply (ev_audit s a).
Qed.

(** The audit log is all it touches. *)
Lemma appendAuditLocked_frame audit s r s1 :
  appendAuditLocked audit s = (r, s1) ->
  ms_candidates s1 = ms_candidates s /\ ms_repoClaims s1 = ms_repoClaims s /\ ms_operations s1 = ms_operations s.
Proof.
  unfold appendAuditLocked, mbind, M_bind, lift, get_state. destruct (fail_if _ _) as [u|e]; [|by intros [= <- <-]].
  simpl. destruct (ms_audits s !! _); [|by intros [= <- <-]]. destruct (equalAudit _ _); by intros [= <- <-].
Qed.

Lemma claimable_true repository c :
  claimable repository c = true <-> mc_TargetRepository c = repository /\
    (mc_Status c = StatusQueued \/ mc_Status c = StatusMergeCheck \/ mc_Status c = StatusTargetedVerify).
Proof.
  unfold claimable. rewrite andb_true_iff, !orb_true_iff, !bool_decide_eq_true. tauto.
Qed.

Context (fs : HostFS).

Lemma enqueue_emits ctx req audit now s : emits (enqueue fs ctx req audit now) s.
Proof.
  apply emits_guard. intros _ _. apply emits_guard. intros target _. apply emits_guard. intros _ _. apply emits_get.
  destruct (ms_candidates s !! _) as [c|] eqn:Hc.
  - destruct (sameEnqueue _ _); [|by apply emits_readonly].
    apply emits_bind; [apply appendAuditLocked_emits|]. intros. by apply emits_readonly.
  - apply emits_bind; [apply appendAuditLocked_emits|]. intros [] s1 Ha.
    apply appendAuditLocked_frame in Ha as (Hs & _ & _).
    apply emits_put, ev_enqueue; [by rewrite Hs|done|apply dedupeEvidence_normal].
Qed.

(** The first of the sorted queue. *)
Lemma queue_head s repository c rest :
  sort_slice candidate_order
    (filter (fun c => claimable repository c = true) (range_values (ms_candidates s))) = c :: rest ->
  claimable repository c = true /\ (exists k, ms_candidates s !! k = Some c) /\
  forall k c', ms_candidates s !! k = Some c' -> claimable repository c' = true -> sorts_by candidate_order c c'.
Proof.
  intros Hq. set (l := filter _ _) in Hq.
  assert (forall x, x ∈ c :: rest <-> claimable repository x = true /\ exists k, ms_candidates s !! k = Some x) as Hel.
  { intros x. rewrite <- Hq, sort_slice_perm. unfold l.
    by rewrite list_elem_of_filter, elem_of_range_values. }
  destruct (proj1 (Hel c)) as [Hcl Hk]; [by left|]. split; [done|]. split; [done|].
  intros k c' Hk' Hcl'. pose proof (sort_slice_sorted candidate_order l) as Hs. rewrite Hq in Hs.
  apply StronglySorted_cons in Hs as [Hall _].
  assert (c' ∈ c :: rest) as [->|?]%elem_of_cons by (apply Hel; eauto).
  - by destruct (total (sorts_by candidate_order) c c).
  - rewrite Forall_forall in Hall. by apply Hall.
Qed.

Lemma ClaimNext_emits ctx repository now s : queue_inv s -> emits (ClaimNext fs ctx repository now) s.
Proof.
  intros Hs. apply emits_guard. intros _ _. apply emits_guard. intros r _. apply emits_get.
  destruct (activeOperationLocked s r) as [o|] eqn:Ho; [by apply emits_readonly|].
  apply activeOperationLocked_None in Ho.
  destruct (ms_repoClaims s !! r) as [cl|] eqn:Hcl; [by apply emits_readonly|].
  destruct (sort_slice _ _) as [|c rest] eqn:Hq; [by apply emits_readonly|].
  apply queue_head in Hq as ([<- Hst]%claimable_true & (k & Hk) & _).
  pose proof (co_id _ _ (qi_candidates _ Hs _ _ Hk)) as <-.
  destruct (bool_decide (mc_Status c = StatusQueued)) eqn:Hqd.
  - apply bool_decide_eq_true in Hqd. set (c' := mc_set _ _ _ _ _ _).
    pose proof (claim_candidate_move c now Hqd) as Hmv. fold c' in Hmv.
    apply emits_bind; [by eapply emits_modify, ev_move|]. intros [] s1 [= <-].
    apply emits_bind; [apply emits_modify|intros; by apply emits_readonly].
    apply (ev_claim (ms_set_candidate c' s) c').
    + apply lookup_insert_eq.
    + apply cloneCandidate_id.
    + intros [?|?]; done.
    + done.
    + done.
  - apply bool_decide_eq_false in Hqd. apply emits_bind; [by apply emits_readonly|]. intros [] s1 [= <-].
    apply emits_bind; [apply emits_modify|intros; by apply emits_readonly].
    apply (ev_claim s c); [done|apply cloneCandidate_id| |done|done].
    intros [Ht|Ht]; rewrite Ht in Hst; destruct Hst as [?|[?|?]]; done.
Qed.

(** The candidate of a current claim is stored, in the claim's repository. *)
Lemma claimed_candidate s claim cl c :
  queue_inv s -> ms_repoClaims s !! mc_TargetRepository (cl_Candidate claim) = Some cl ->
  mc_ID (cl_Candidate cl) = mc_ID (cl_Candidate claim) ->
  ms_candidates s !! mc_ID (cl_Candidate claim) = Some c ->
  mc_ID c = mc_ID (cl_Candidate claim) /\ mc_TargetRepository c = mc_TargetRepository (cl_Candidate claim).
Proof.
  intros Hs Hcl Hid Hc. split; [by apply (co_id _ _ (qi_candidates _ Hs _ _ Hc))|].
  destruct (qi_claims _ Hs _ _ Hcl) as (c0 & Hc0 & <-). rewrite Hid in Hc0. by simplify_eq.
Qed.

Lemma RenewClaim_emits ctx claim now s : queue_inv s -> emits (RenewClaim ctx claim now) s.
Proof.
  intros Hs. apply emits_guard. intros _ _. apply emits_get.
  destruct (ms_repoClaims s !! mc_TargetRepository (cl_Candidate claim)) as [cl|] eqn:Hcl;
    [|cbn zeta; rewrite Hcl; by apply emits_readonly].
  cbn zeta. rewrite Hcl. apply emits_guard. intros [] Hg. apply fail_if_Ok, orb_false_iff in Hg as [Hid Htok]. bool_inv.
  apply emits_candidate. intros c Hc.
  destruct (claimed_candidate s claim cl c Hs Hcl Hid Hc) as [Heq Hr].
  apply emits_bind; [apply emits_modify|intros; by apply emits_readonly]. rewrite <- Hr.
  apply (ev_renew s c cl); [by rewrite Hr|congruence|by rewrite Heq|apply cloneCandidate_id|done].
Qed.

Lemma advance_emits ctx claim from to refs merged now s :
  queue_inv s -> emits (advance ctx claim from to refs merged now) s.
Proof.
  intros Hs. apply emits_guard. intros _ _. apply emits_guard. intros [] Hv. apply emits_get.
  apply emits_guard. intros [] (cl & Hcl & Hid & _)%requireClaimLocked_Ok. apply emits_candidate. intros c Hc.
  apply emits_guard. intros [] Hst%guard_not_Ok. apply emits_guard. intros [] Hm.
  apply fail_if_Ok in Hv, Hm. apply negb_false_iff, validAdvance_true in Hv as [Hv Hnf].
  destruct (claimed_candidate s claim cl c Hs Hcl Hid Hc) as [Heq _].
  apply emits_put, (ev_move s c); [by rewrite Heq|]. apply evidence_candidate_move; [by rewrite Hst| |].
  - intros ->. apply andb_false_iff in Hm as [?|?]; by bool_inv.
  - done.
Qed.

Lemma beginMergeOperation_emits ctx claim req token s :
  queue_inv s -> emits (beginMergeOperation ctx claim req token) s.
Proof.
  intros Hs. apply emits_guard. intros _ _. apply emits_guard. intros [] Hrev. apply emits_get.
  apply emits_guard. intros [] (cl & Hcl & Hid & _)%requireClaimLocked_Ok. apply emits_candidate. intros c Hc.
  apply emits_guard. intros [] Hst%guard_not_Ok. apply fail_if_Ok, orb_false_iff in Hrev as [_ Hrev]. bool_inv.
  destruct (claimed_candidate s claim cl c Hs Hcl Hid Hc) as [Heq _].
  destruct (activeOperationLocked s _) as [o|] eqn:Ho.
  { destruct (_ && _); by apply emits_readonly. }
  apply activeOperationLocked_None in Ho.
  apply emits_bind; [apply emits_modify|intros; by apply emits_readonly].
  by apply (ev_begin s c); [rewrite Heq|..].
Qed.

(** The stored operation an active handle names. *)
Lemma active_operation s op o0 : queue_inv s -> ms_operations s !! op_ID op = Some o0 -> op_ID o0 = op_ID op.
Proof. intros Hs Ho. by apply (oo_key _ _ _ (qi_operations _ Hs _ _ Ho)). Qed.

Lemma operation_emits s op o0 status reason :
  queue_inv s -> ms_operations s !! op_ID op = Some o0 -> isActive o0 = true -> operation_move s o0 status ->
  emits (modify (ms_set_operation (op_set_Status status reason (cloneMergeOperation o0)))) s.
Proof.
  intros Hs Ho Ha Hmv. apply emits_modify, ev_operation; [|done..].
  by rewrite (active_operation s op o0 Hs Ho).
Qed.

Lemma abortMergeOperation_emits ctx op s : queue_inv s -> emits (abortMergeOperation ctx op) s.
Proof.
  intros Hs. apply emits_guard. intros _ _. apply emits_get. apply emits_guard.
  intros o (o0 & Ho & _ & Ha & ->)%requireOperationLocked_Ok. apply (operation_emits s op o0); [done..|]. by left.
Qed.

Lemma markMergeOperationRecoveryRequired_emits ctx op reason s :
  queue_inv s -> emits (markMergeOperationRecoveryRequired ctx op reason) s.
Proof.
  intros Hs. apply emits_guard. intros _ _. apply emits_get. apply emits_guard.
  intros o (o0 & Ho & _ & Ha & ->)%requireOperationLocked_Ok.
  apply emits_bind; [apply (operation_emits s op o0); [done..|]; by right; left|].
  intros [] s1 _. apply emits_candidate. intros c _. by apply emits_readonly.
Qed.

Lemma finalizeMergeOperation_emits ctx op now s : queue_inv s -> emits (finalizeMergeOperation ctx op now) s.
Proof.
  intros Hs. apply emits_guard. intros _ _. apply emits_get. apply emits_guard.
  intros o (o0 & Ho & _ & Ha & ->)%requireOperationLocked_Ok. apply emits_candidate. intros c Hc.
  destruct (bool_decide _ && bool_decide _); [by apply emits_readonly|].
  apply emits_guard. intros [] Hst%guard_not_Ok.
  apply emits_bind; [apply appendAuditLocked_emits|]. intros [] s1 Haud.
  assert (queue_inv s1) as Hs1.
  { eapply queue_events_inv; [|exact Hs].
    pose proof (appendAuditLocked_emits (op_Audit (cloneMergeOperation o0)) s) as He. unfold emits in He.
    by rewrite Haud in He. }
  apply appendAuditLocked_frame in Haud as (Hcs & _ & Hos).
  pose proof (co_id _ _ (qi_candidates _ Hs _ _ Hc)) as Hid.
  set (c' := mc_set _ _ _ _ _ _).
  assert (queue_event s1 (ms_set_candidate c' s1)) as Hev.
  { apply (ev_move s1 c); [by rewrite Hid, Hcs|]. apply evidence_candidate_move; [rewrite Hst; constructor| |done].
    intros _. apply (oo_revision _ _ _ (qi_operations _ Hs _ _ Ho)). }
  apply emits_bind; [by apply emits_modify|]. intros [] s2 [= <-].
  apply emits_bind; [|intros; by apply emits_readonly].
  apply (operation_emits _ op o0); [by eapply queue_event_inv|simpl; by rewrite Hos|done|].
  right; right. split; [done|]. exists c'. simpl in *. rewrite <- Hid. by rewrite lookup_insert_eq.
Qed.

Lemma failCandidate_emits ctx claim from reason refs audit now s :
  queue_inv s -> emits (failCandidate ctx claim from reason refs audit now) s.
Proof.
  intros Hs. apply emits_guard. intros _ _. apply emits_guard. intros [] Hv. apply emits_get.
  apply emits_guard. intros [] (cl & Hcl & Hid & _)%requireClaimLocked_Ok. apply emits_candidate. intros c Hc.
  apply fail_if_Ok, orb_false_iff in Hv as [Hv _]. apply negb_false_iff in Hv.
  destruct (bool_decide (mc_Status c = StatusFailed) && _).
  { apply emits_bind; [apply appendAuditLocked_emits|]. intros. by apply emits_readonly. }
  apply emits_guard. intros [] Hg. apply fail_if_Ok, orb_false_iff in Hg as [Hst Hfrom]. bool_inv.
  destruct (claimed_candidate s claim cl c Hs Hcl Hid Hc) as [Heq _].
  apply emits_bind; [apply appendAuditLocked_emits|]. intros [] s1 (Hcs & _ & _)%appendAuditLocked_frame.
  apply emits_put, (ev_move s1 c); [by rewrite Heq, Hcs|]. apply evidence_candidate_move; [|done|done].
  rewrite Hst. destruct Hfrom as [Hf|Hf]; bool_inv; rewrite Hf; constructor.
Qed.

Lemma markAuditDelivered_emits ctx key s : emits (markAuditDelivered ctx key) s.
Proof.
  apply emits_guard. intros _ _. apply emits_get.
  destruct (ms_audits s !! key) as [a|] eqn:Ha; [|by apply emits_readonly].
  apply rtc_once. by apply ev_delivered.
Qed.

Lemma ReleaseClaim_emits ctx claim s : emits (ReleaseClaim ctx claim) s.
Proof.
  apply emits_guard. intros _ _. apply emits_get. cbn zeta.
  destruct (ms_repoClaims s !! mc_TargetRepository (cl_Candidate claim)) as [cl|] eqn:Hcl; [|by apply emits_readonly].
  destruct (_ && _); [|by apply emits_readonly]. apply rtc_once. by eapply ev_release.
Qed.
End moves.

(** ** Reachable queues *)

Inductive queue_op :=
| QEnqueue (fs : HostFS) (ctx : Context) (req : EnqueueRequest) (audit : auditRecord) (now : Time)
| QGet (ctx : Context) (id : string)
| QClaimNext (fs : HostFS) (ctx : Context) (repository : string) (now : Time)
| QRenew (ctx : Context) (claim : Claim) (now : Time)
| QPendingOperation (fs : HostFS) (ctx : Context) (repository : string)
| QAdvance (ctx : Context) (claim : Claim) (from to : string) (refs : list string) (merged : string) (now : Time)
| QBegin (ctx : Context) (claim : Claim) (req : mergeOperationRequest) (token : string)
| QFinalize (ctx : Context) (op : mergeOperation) (now : Time)
| QAbort (ctx : Context) (op : mergeOperation)
| QRecovery (ctx : Context) (op : mergeOperation) (reason : string)
| QFail (ctx : Context) (claim : Claim) (from reason : string) (refs : list string) (audit : auditRecord) (now : Time)
| QPendingAudits (ctx : Context) (project : ProjectID) (limit : Z)
| QDelivered (ctx : Context) (key : IdempotencyKey)
| QRelease (ctx : Context) (claim : Claim).

Section reach.
Context `{GR : GoRuntime}.

Definition run_queue (op : queue_op) (s : MergeStore) : MergeStore :=
  match op with
  | QEnqueue fs ctx req audit now => snd (enqueue fs ctx req audit now s)
  | QGet ctx id => snd (Get ctx id s)
  | QClaimNext fs ctx r now => snd (ClaimNext fs ctx r now s)
  | QRenew ctx cl now => snd (RenewClaim ctx cl now s)
  | QPendingOperation fs ctx r => snd (pendingMergeOperation fs ctx r s)
  | QAdvance ctx cl from to refs merged now => snd (advance ctx cl from to refs merged now s)
  | QBegin ctx cl req token => snd (beginMergeOperation ctx cl req token s)
  | QFinalize ctx o now => snd (finalizeMergeOperation ctx o now s)
  | QAbort ctx o => snd (abortMergeOperation ctx o s)
  | QRecovery ctx o reason => snd (markMergeOperationRecoveryRequired ctx o reason s)
  | QFail ctx cl from reason refs audit now => snd (failCandidate ctx cl from reason refs audit now s)
  | QPendingAudits ctx p limit => snd (pendingAudits ctx p limit s)
  | QDelivered ctx key => snd (markAuditDelivered ctx key s)
  | QRelease ctx cl => snd (ReleaseClaim ctx cl s)
  end.

Definition queue_step (s s' : MergeStore) : Prop := exists op, s' = run_queue op s.
Definition queue_reachable (s : MergeStore) : Prop := rtc queue_step NewMergeStore s.

Lemma run_queue_events op s : queue_inv s -> rtc queue_event s (run_queue op s).
Proof.
  intros Hs. destruct op; simpl.
  - apply enqueue_emits.
  - apply emits_guard. intros _ _. apply emits_candidate. intros c _. by apply emits_readonly.
  - by apply ClaimNext_emits.
  - by apply RenewClaim_emits.
  - apply emits_guard. intros _ _. apply emits_guard. intros r _. by apply emits_readonly.
  - by apply advance_emits.
  - by apply beginMergeOperation_emits.
  - by apply finalizeMergeOperation_emits.
  - by apply abortMergeOperation_emits.
  - by apply markMergeOperationRecoveryRequired_emits.
  - by apply failCandidate_emits.
  - apply emits_guard. intros _ _. by apply emits_readonly.
  - apply markAuditDelivered_emits.
  - apply ReleaseClaim_emits.
Qed.

Lemma queue_steps_events s s' : rtc queue_step s s' -> queue_inv s -> rtc queue_event s s' /\ queue_inv s'.
Proof.
  induction 1 as [|s s1 s' (op & ->) _ IH]; intros Hs; [done|].
  pose proof (run_queue_events op s Hs) as He. destruct IH as [IH Hi]; [by eapply queue_events_inv|].
  split; [by etrans|done].
Qed.

Lemma queue_reachable_inv s : queue_reachable s -> queue_inv s.
Proof. intros Hr. by eapply queue_steps_events; [|apply queue_inv_new]. Qed.
End reach.
