(* ===== verification/QueueProps.v ===== *)
(** * Properties of the merge queue

    Exclusive claims and operations, the candidate life cycle, first-come
    first-served claims. *)

From stdpp Require Import base tactics option list strings gmap sorting relations.
From Stdlib Require Import ZArith.
From S2P Require Import Prelude GoLib GoStrings Kernel CoordTypes MergeQueue MergeQueueSpec.

(** ** Helper lemmas *)

Lemma candidate_moves_terminal c c' : rtc candidate_move c c' -> terminal c -> c' = c.
Proof.
  intros Hr Ht. destruct Hr as [|? c1 ? Hm _]; [done|].
  by destruct (status_move_not_terminal _ _ (cm_status _ _ Hm)).
Qed.

Lemma candidate_moves_identity c c' : rtc candidate_move c c' -> mc_identity c' = mc_identity c.
Proof. induction 1 as [|c c1 c' Hm _ IH]; [done|]. rewrite IH. apply (cm_identity _ _ Hm). Qed.

Lemma event_candidates s s' k c :
  queue_inv s -> queue_event s s' -> ms_candidates s !! k = Some c ->
  exists c', ms_candidates s' !! k = Some c' /\ rtc candidate_move c c'.
Proof.
  intros Hs Hev Hc. assert (mc_ID c = k) as Hk by apply (co_id _ _ (qi_candidates _ Hs _ _ Hc)).
  destruct Hev as [c0 Hnone| c0 c' Hc0 Hmv| | | | | | |]; simpl; try by exists c.
  - exists c. rewrite lookup_insert_ne; [done|]. congruence.
  - pose proof (cm_id _ _ Hmv) as Hid. destruct (decide (mc_ID c' = k)) as [Heq|Hne].
    + exists c'. rewrite Heq, lookup_insert_eq. split; [done|]. rewrite <- Hid, Heq in Hc0. simplify_eq.
      by apply rtc_once.
    + exists c. by rewrite lookup_insert_ne.
Qed.

Lemma events_candidates s s' k c :
  rtc queue_event s s' -> queue_inv s -> ms_candidates s !! k = Some c ->
  exists c', ms_candidates s' !! k = Some c' /\ rtc candidate_move c c'.
Proof.
  intros Hr. revert c. induction Hr as [|s s1 s' Hev _ IH]; intros c Hs Hc; [by exists c|].
  destruct (event_candidates _ _ _ _ Hs Hev Hc) as (c1 & Hc1 & Hm1).
  destruct (IH c1) as (c' & Hc' & Hm'); [by eapply queue_event_inv|done|]. exists c'. split; [done|by etrans].
Qed.

Section with_runtime.
Context `{GR : GoRuntime}.

(** A claim handed out by [ClaimNext]. *)
Lemma ClaimNext_run fs ctx repository now s claim s' :
  ClaimNext fs ctx repository now s = (Ok (Some claim), s') ->
  exists r c, normalizeTargetRepository fs repository = Ok r /\ activeOperationLocked s r = None /\ ms_repoClaims s !! r = None /\
    claimable r c = true /\ (exists k, ms_candidates s !! k = Some c) /\
    (forall k c', ms_candidates s !! k = Some c' -> claimable r c' = true -> sorts_by candidate_order c c') /\
    mc_ID (cl_Candidate claim) = mc_ID c /\ mc_Status (cl_Candidate claim) <> StatusQueued /\
    ms_repoClaims s' !! r = Some claim.
Proof.
  unfold ClaimNext, mbind, M_bind, lift. destruct (ctx_Err ctx); [|done].
  destruct (normalizeTargetRepository fs repository) as [r|]; [|done]. cbn [get_state].
  destruct (activeOperationLocked s r) eqn:Ho; [done|].
  destruct (ms_repoClaims s !! r) eqn:Hcl; [done|].
  destruct (sort_slice _ _) as [|c rest] eqn:Hq; [done|].
  apply queue_head in Hq as (Hclaim & Hk & Hmin).
  destruct (bool_decide (mc_Status c = StatusQueued)) eqn:Hst; intros [= <- <-]; bool_inv; exists r, c;
    split_and!; try done; simpl; by rewrite lookup_insert_eq.
Qed.

(** ** Theorems *)

(** C39: in every reachable queue at most one merge operation per repository is
    active, every claim is on a stored candidate of its repository, a merged
    candidate carries a merged revision and a failed one a valid reason, an
    operation marked finalized has its candidate merged at the expected revision,
    and evidence lists are sorted, duplicate-free and without empty references. *)
Theorem merge_queue_invariant (s : MergeStore) (Hr : queue_reachable s) :
  (forall k1 k2 o1 o2, ms_operations s !! k1 = Some o1 -> ms_operations s !! k2 = Some o2 ->
     op_TargetRepository o1 = op_TargetRepository o2 -> isActive o1 = true -> isActive o2 = true -> k1 = k2) /\
  (forall r cl, ms_repoClaims s !! r = Some cl ->
     exists c, ms_candidates s !! mc_ID (cl_Candidate cl) = Some c /\ mc_TargetRepository c = r) /\
  (forall k c, ms_candidates s !! k = Some c -> mc_ID c = k /\ normal (mc_EvidenceRefs c) /\
     (mc_Status c = StatusMerged -> TrimSpace (mc_MergedRevision c) <> "") /\
     (mc_Status c = StatusFailed -> validFailureReason (mc_FailureReason c) = true)) /\
  (forall k o, ms_operations s !! k = Some o -> op_Status o = "finalized" ->
     exists c, ms_candidates s !! op_CandidateID o = Some c /\ mc_Status c = StatusMerged /\
       mc_MergedRevision c = op_ExpectedMergedRevision o).
Proof.
  destruct (queue_reachable_inv s Hr) as [Hc Hcl Ho Hex _ _]. split_and!; [done|done| |].
  - intros k c Hk. by destruct (Hc k c Hk).
  - intros k o Hk Hfin. destruct (Ho k o Hk) as [_ (c & Hcc & _ & _ & Hf) _ _]. destruct (Hf Hfin). by exists c.
Qed.

(** Candidates only move along the life cycle queued, merge check, targeted
    verify, merged, with failure from the two middle states: whatever calls run, a
    candidate is never removed, keeps everything it was enqueued with, moves only
    by such steps and never loses evidence; merged and failed candidates never
    change again. *)
Theorem merge_candidate_lifecycle (s s' : MergeStore) (k : string) (c : Candidate)
    (Hr : queue_reachable s) (Hsteps : rtc queue_step s s')
    (Hc : ms_candidates s !! k = Some c) :
  exists c', ms_candidates s' !! k = Some c' /\ mc_identity c' = mc_identity c /\ rtc candidate_move c c' /\
    (terminal c -> c' = c).
Proof.
  pose proof (queue_reachable_inv s Hr) as Hi.
  destruct (queue_steps_events s s' Hsteps Hi) as [He _].
  destruct (events_candidates _ _ _ _ He Hi Hc) as (c' & Hc' & Hm). exists c'.
  split_and!; [done|by apply candidate_moves_identity|done|by apply candidate_moves_terminal].
Qed.

(** Claims are first come, first served and exclusive: [ClaimNext] hands out a
    claim only when the repository has neither a claim nor an active merge
    operation, and then on the oldest unfinished candidate of the repository (ties
    broken by id), which leaves the queued state; while the claim stands no other
    claim on the repository is handed out. *)
Theorem claim_next_fifo (fs : HostFS) (ctx ctx2 : Context) (repository : string) (now now2 : Time) (s s' : MergeStore) (claim : Claim)
    (Hr : queue_reachable s)
    (Hrun : ClaimNext fs ctx repository now s = (Ok (Some claim), s')) :
  exists r c, normalizeTargetRepository fs repository = Ok r /\ ms_repoClaims s !! r = None /\ ~ active_in s r /\
    ms_candidates s !! mc_ID c = Some c /\ mc_TargetRepository c = r /\ ~ terminal c /\
    (forall k c', ms_candidates s !! k = Some c' -> mc_TargetRepository c' = r -> ~ terminal c' ->
       (mc_CreatedAt c < mc_CreatedAt c')%Z \/
       mc_CreatedAt c = mc_CreatedAt c' /\ String.le (mc_ID c) (mc_ID c')) /\
    mc_ID (cl_Candidate claim) = mc_ID c /\ mc_Status (cl_Candidate claim) <> StatusQueued /\
    (forall claim2 s2, ClaimNext fs ctx2 repository now2 s' <> (Ok (Some claim2), s2)).
Proof.
  pose proof (queue_reachable_inv s Hr) as Hi.
  apply ClaimNext_run in Hrun as (r & c & Hn & Ho & Hcl & Hclaim & (k & Hk) & Hmin & Hid & Hst & Hnow).
  apply claimable_true in Hclaim as [Hrep Hstat]. exists r, c. split_and!; try done.
  - by apply activeOperationLocked_None.
  - by rewrite (co_id _ _ (qi_candidates _ Hi _ _ Hk)).
  - intros [Ht|Ht]; rewrite Ht in Hstat; destruct Hstat as [?|[?|?]]; done.
  - intros k' c' Hk' Hrep' Hterm. assert (sorts_by candidate_order c c') as Hord.
    { eapply Hmin; [exact Hk'|]. apply (proj2 (claimable_true _ _)). split; [done|].
      pose proof (co_status _ _ (qi_candidates _ Hi _ _ Hk')) as Hs. rewrite !elem_of_cons, elem_of_nil in Hs.
      unfold terminal in Hterm. tauto. }
    unfold sorts_by, candidate_order in Hord. case_bool_decide as Heq.
    + right. split; [done|]. by apply string_lt_false.
    + left. apply Z.ltb_ge in Hord. lia.
  - intros claim2 s2 (r2 & c2 & Hn2 & _ & Hno & _)%ClaimNext_run. rewrite Hn in Hn2. injection Hn2 as <-. congruence.
Qed.
End with_runtime.

(** ** Witnesses *)

#[local] Existing Instance GoRuntime_list.

Definition revision_a : string := "aaaaaaaaaaaaaaaaaaaaaaaaaaaaaaaaaaaaaaaa".
Definition enqueue_request (id : string) : EnqueueRequest :=
  mkEnqueue id "p1" "t1" "ws1" "verify-1" "diff-1" "/repo" "" revision_a revision_a revision_a [].
Definition audit_of (key : string) (refs : list string) : auditRecord :=
  mkAudit key "merge" "p1" "t1" "ws1" ∅ (Some refs) false.

(** A host where every path is an existing directory in normal form. *)
Definition plain : HostFS := mkHostFS Some Some (fun _ => Some true) id id false.

Definition queue2 : MergeStore :=
  run_queue (QEnqueue plain None (enqueue_request "c2") (audit_of "a2" ["diff-1"]) 20)
    (run_queue (QEnqueue plain None (enqueue_request "c1") (audit_of "a1" ["diff-1"]) 10) NewMergeStore).

Lemma queue2_reachable : queue_reachable queue2.
Proof.
  eapply rtc_l; [by exists (QEnqueue plain None (enqueue_request "c1") (audit_of "a1" ["diff-1"]) 10)|].
  apply rtc_once. by exists (QEnqueue plain None (enqueue_request "c2") (audit_of "a2" ["diff-1"]) 20).
Qed.

Definition claimed_queue : MergeStore := run_queue (QClaimNext plain None "/repo" 30) queue2.

Definition first_candidate : Candidate := newCandidate (eq_normalized (enqueue_request "c1") "/repo") 10.

Lemma merge_queue_invariant_witness :
  ms_candidates queue2 !! "c1" = Some first_candidate /\ normal (mc_EvidenceRefs first_candidate).
Proof.
  destruct (merge_queue_invariant queue2 queue2_reachable) as (_ & _ & H & _).
  assert (ms_candidates queue2 !! "c1" = Some first_candidate) as Hc by (vm_compute; reflexivity).
  split; [exact Hc|]. exact (proj1 (proj2 (H "c1" first_candidate Hc))).
Defined.

Lemma merge_candidate_lifecycle_witness :
  exists c', ms_candidates claimed_queue !! "c1" = Some c' /\ mc_identity c' = mc_identity first_candidate.
Proof.
  destruct (merge_candidate_lifecycle queue2 claimed_queue "c1" first_candidate) as (c' & H1 & H2 & _).
  - exact queue2_reachable.
  - apply rtc_once. exists (QClaimNext plain None "/repo" 30). reflexivity.
  - vm_compute. reflexivity.
  - exists c'. exact (conj H1 H2).
Defined.

Definition first_claim : Claim :=
  mkClaim (mc_set StatusMergeCheck "" "" ["diff-1"; "verify-1"] 30 first_candidate) "memory" "memory:c1" (30 + hour).

Lemma claim_next_fifo_witness : exists r c, normalizeTargetRepository plain "/repo" = Ok r /\ mc_ID (cl_Candidate first_claim) = mc_ID c.
Proof.
  destruct (claim_next_fifo plain None None "/repo" 30 40 queue2 claimed_queue first_claim)
    as (r & c & H1 & _ & _ & _ & _ & _ & _ & H2 & _).
  - exact queue2_reachable.
  - vm_compute. reflexivity.
  - exists r, c. exact (conj H1 H2).
Defined.
