(* ===== verification/CtxModel.v ===== *)
(** * The context graph: data

    [internal/contextgraph/model.go] and [permissions.go], the state of the
    in-memory store ([store.go]) and its pure helpers.  Payloads of outbox
    events are kept as the values [mustJSON] encodes; [strings.ToLower] is an
    argument of the functions that use it. *)

From stdpp Require Import base tactics option list strings gmap sorting.
From Stdlib Require Import ZArith Ascii.
From S2P Require Import Prelude GoLib GoStrings Kernel CoordTypes Acyclic GraphSpec Auth.

(** ** Values *)

Definition NodeKindDirective : string := "directive".
Definition NodeKindFact : string := "fact".
Definition NodeKindHypothesis : string := "hypothesis".

Definition NodeStatusAccepted : string := "accepted".
Definition NodeStatusDisputed : string := "disputed".
Definition NodeStatusSuperseded : string := "superseded".
Definition NodeStatusOutdated : string := "outdated".

Definition SubgraphKindGeneral : string := "general".
Definition SubgraphKindTask : string := "task".

Definition EdgeKindLogicalAdjacent : string := "logical_adjacent".
Definition EdgeKindDerivesFromSubgraph : string := "derives_from_subgraph".

Record ContextNode := mkNode {
  cn_ID : string;
  cn_Kind : string;
  cn_Statement : string;
  cn_Status : string;
  cn_SubgraphIDs : list string;
  cn_SourceRefs : list string;
  cn_CreatorAgentID : string;
}.

Definition cn_set_SubgraphIDs (v : list string) (r : ContextNode) : ContextNode :=
  mkNode (cn_ID r) (cn_Kind r) (cn_Statement r) (cn_Status r) v (cn_SourceRefs r) (cn_CreatorAgentID r).
Definition cn_set_Status (v : string) (r : ContextNode) : ContextNode :=
  mkNode (cn_ID r) (cn_Kind r) (cn_Statement r) v (cn_SubgraphIDs r) (cn_SourceRefs r) (cn_CreatorAgentID r).

Record NodeCreationContext := mkCreation {
  ncc_CreatorAgentID : string;
  ncc_PreviousNodeID : string;
  ncc_SubscribedSubgraphIDs : list string;
}.

Record MemoryCandidate := mkCandidate {
  mem_Statement : string;
  mem_Kind : string;
  mem_SourceRefs : list string;
  mem_SubgraphIDs : list string;
}.

Record CandidateBufferRecord := mkBufferRecord {
  cbr_CandidateID : string;
  cbr_TaskID : string;
  cbr_Candidate : MemoryCandidate;
  cbr_CreationContext : NodeCreationContext;
  cbr_CreatedByInvocationID : InvocationID;
  cbr_CreatedAt : Time;
}.

Record ContextEdge := mkEdge {
  ce_FromRef : string;
  ce_ToNodeID : string;
  ce_Kind : string;
}.

Record ContextSubgraph := mkSubgraph {
  csg_ID : string;
  csg_Name : string;
  csg_Summary : string;
  csg_Revision : Z;
  csg_Kind : string;
}.

Record NodeRecord := mkNodeRecord {
  nr_Node : ContextNode;
  nr_Revision : Revision;
  nr_ProjectID : ProjectID;
  nr_CreatedAt : Time;
  nr_Sequence : Z;
}.

Definition nr_set_Node (v : ContextNode) (r : NodeRecord) : NodeRecord :=
  mkNodeRecord v (nr_Revision r) (nr_ProjectID r) (nr_CreatedAt r) (nr_Sequence r).

Record SubgraphRecord := mkSubgraphRecord {
  sr_Subgraph : ContextSubgraph;
  sr_ProjectID : ProjectID;
  sr_TaskID : TaskID;
  sr_CreatedAt : Time;
  sr_UpdatedAt : Time;
}.

Record AuditEvent := mkAuditEvent {
  ae_ID : string;
  ae_ProjectID : ProjectID;
  ae_ActorID : ActorPrincipalID;
  ae_Action : string;
  ae_SubjectID : string;
  ae_CreatedAt : Time;
}.

(** ** Requests *)

Record CreateNodeInput := mkNodeInput {
  cni_Node : ContextNode;
  cni_CreationContext : NodeCreationContext;
}.

Record CreateNodesRequest := mkCreateNodes {
  cnr_ExpectedGraphRevision : Revision;
  cnr_Nodes : list CreateNodeInput;
}.

Record ExploreRequest := mkExplore {
  er_AnchorRef : string;
  er_Depth : Z;
}.

Record ContextSliceDelta := mkSliceDelta {
  sd_Nodes : list ContextNode;
  sd_Frontier : list string;
  sd_GraphRevision : Z;
}.

Record SearchRequest := mkSearch {
  sq_Keywords : list string;
  sq_Scope : list string;
  sq_AnchorRefs : list string;
}.

Record ContextSearchResult := mkSearchResult {
  sx_Slice : ContextSliceDelta;
  sx_MatchedKeywords : list string;
  sx_SubscriptionIDs : list string;
}.

Record SubscribeRequest := mkSubscribe {
  sb_SubgraphIDs : list string;
  sb_EventKinds : list string;
}.

Record ContextSubscription := mkSubscription {
  sub_ID : string;
  sub_ConsumerInvocationID : InvocationID;
  sub_SubgraphIDs : list string;
  sub_EventKinds : list string;
  sub_PermissionSnapshot : string;
}.

Record ContextSubscriptionRecord := mkSubRecord {
  csr_Subscription : ContextSubscription;
  csr_ProjectID : ProjectID;
  csr_TaskID : TaskID;
  csr_Role : string;
  csr_Source : string;
  csr_Active : bool;
  csr_CanceledAt : option Time;
  csr_ExpiredAt : option Time;
  csr_CreatedAt : Time;
}.

Record ContextDelta := mkDelta {
  cd_ID : string;
  cd_ProjectID : string;
  cd_SubscriptionID : string;
  cd_InvocationID : string;
  cd_EventID : string;
  cd_EventKind : string;
  cd_SubgraphIDs : list string;
  cd_GraphRevision : Z;
}.

Definition cd_set_SubgraphIDs (v : list string) (r : ContextDelta) : ContextDelta :=
  mkDelta (cd_ID r) (cd_ProjectID r) (cd_SubscriptionID r) (cd_InvocationID r) (cd_EventID r) (cd_EventKind r)
    v (cd_GraphRevision r).

Record ContextSlice := mkSlice {
  sl_Nodes : list ContextNode;
  sl_SubscriptionIDs : list string;
  sl_GraphRevision : Z;
}.

Record SubscriptionInspection := mkInspection {
  si_ID : string;
  si_ConsumerInvocationID : string;
  si_Source : string;
  si_SubgraphIDs : list string;
  si_EventKinds : list string;
  si_Active : bool;
}.

Record PhaseEndpointRef := mkEndpointRef {
  per_TaskID : TaskID;
  per_EndpointID : EndpointID;
}.

Record TaskContextSubgraphBinding := mkTaskBinding {
  tb_TaskID : string;
  tb_SubgraphID : string;
}.

Record TaskContextRecipient := mkRecipient {
  tr_TaskID : string;
  tr_EndpointRefs : list PhaseEndpointRef;
}.

Record TaskContextProjection := mkProjection {
  tp_ProjectionID : string;
  tp_SourceRevision : string;
  tp_Statement : string;
  tp_Kind : string;
  tp_SourceRefs : list string;
  tp_SubgraphIDs : list string;
  tp_Recipients : list TaskContextRecipient;
}.

Record TaskMemoryCandidateView := mkCandidateView {
  cv_CandidateID : string;
  cv_Candidate : MemoryCandidate;
}.

Record FrozenCandidateBatch := mkBatch {
  fb_TaskID : string;
  fb_Candidates : list TaskMemoryCandidateView;
}.

Record CandidateReviewDecision := mkReviewDecision {
  rd_CandidateID : string;
  rd_Action : string;
  rd_Statement : string;
  rd_Kind : string;
  rd_SubgraphIDs : list string;
  rd_TargetNodeID : string;
  rd_Reason : string;
}.

Record TaskMemoryReviewReceipt := mkReceipt {
  rr_TaskID : string;
  rr_ReviewedIDs : list string;
  rr_NodeIDs : list string;
  rr_RejectedIDs : list string;
}.

Definition TaskMemoryOpen : string := "open".
Definition TaskMemoryFrozenUnreviewed : string := "frozen-unreviewed".
Definition TaskMemoryReviewed : string := "reviewed".

Record CreateGeneralNodeRequest := mkCreateNode {
  gn_Statement : string;
  gn_Kind : string;
  gn_SourceRefs : list string;
  gn_SubgraphIDs : list string;
}.

Record UpdateGeneralNodeRequest := mkUpdateNode {
  un_NodeID : string;
  un_SourceRevision : string;
  un_Statement : string;
  un_Kind : string;
  un_SourceRefs : list string;
  un_SubgraphIDs : list string;
  un_Status : string;
}.

Record DeleteGeneralNodeRequest := mkDeleteNode {
  dn_NodeID : string;
  dn_SourceRevision : string;
  dn_Reason : string;
}.

Record CreateGeneralSubgraphRequest := mkCreateSubgraph {
  gs_Name : string;
  gs_Summary : string;
  gs_NodeIDs : list string;
}.

Record UpdateGeneralSubgraphRequest := mkUpdateSubgraph {
  us_SubgraphID : string;
  us_Revision : Z;
  us_Name : string;
  us_Summary : string;
  us_NodeIDs : list string;
}.

Record DeleteGeneralSubgraphRequest := mkDeleteSubgraph {
  ds_SubgraphID : string;
  ds_Revision : Z;
  ds_Reason : string;
}.

(** The values the store encodes into outbox payloads. *)
Inductive OutboxPayload :=
| PayloadNode (node : ContextNode)
| PayloadSubgraph (subgraph : ContextSubgraph)
| PayloadDeleteNode (req : DeleteGeneralNodeRequest)
| PayloadDeleteSubgraph (req : DeleteGeneralSubgraphRequest)
| PayloadDecision (decision : CandidateReviewDecision).

Record OutboxEvent := mkOutboxEvent {
  oe_ID : string;
  oe_Topic : string;
  oe_Key : string;
  oe_Payload : OutboxPayload;
  oe_CreatedAt : Time;
}.

Record CreateNodesResult := mkCreateNodesResult {
  cnx_GraphRevision : Revision;
  cnx_Nodes : list ContextNode;
  cnx_Edges : list ContextEdge;
  cnx_AuditEvents : list AuditEvent;
  cnx_OutboxEvents : list OutboxEvent;
}.

(** What the coordination graph answers about a task; an answer may be an
    error. *)
Record TaskEndpointResolver := mkResolver {
  te_TaskExists : ProjectID -> TaskID -> res bool;
  te_TaskDone : ProjectID -> TaskID -> res bool;
  te_EndpointExists : ProjectID -> PhaseEndpointRef -> res bool;
}.

(** ** State *)

Abbreviation taskScopeKey := (ProjectID * TaskID)%type.
Abbreviation projectionScopeKey := (ProjectID * string)%type.
Abbreviation invocationScopeKey := (ProjectID * InvocationID)%type.

Inductive Fault := NoFault | FaultAudit | FaultOutbox | FaultEdge.

#[global] Instance Fault_eq_dec : EqDecision Fault.
Proof. solve_decision. Defined.

Record memoryData := mkData {
  md_graphRevision : Revision;
  md_nextSeq : Z;
  md_nodes : gmap string NodeRecord;
  md_subgraphs : gmap string SubgraphRecord;
  md_edges : gmap string ContextEdge;
  md_subscriptions : gmap string ContextSubscriptionRecord;
  md_deltas : gmap string ContextDelta;
  md_deltaAck : gmap string bool;
  md_taskBindings : gmap taskScopeKey TaskContextSubgraphBinding;
  md_projections : gmap projectionScopeKey string;
  md_recipients : gmap string (list TaskContextRecipient);
  md_candidates : gmap taskScopeKey (list CandidateBufferRecord);
  md_taskMemory : gmap taskScopeKey string;
  md_reviewReceipts : gmap taskScopeKey TaskMemoryReviewReceipt;
  md_audit : list AuditEvent;
  md_outbox : list OutboxEvent;
  md_failNext : Fault;
}.

Definition md_set_graphRevision (v : Revision) (r : memoryData) : memoryData :=
  mkData v (md_nextSeq r) (md_nodes r) (md_subgraphs r) (md_edges r) (md_subscriptions r) (md_deltas r)
    (md_deltaAck r) (md_taskBindings r) (md_projections r) (md_recipients r) (md_candidates r)
    (md_taskMemory r) (md_reviewReceipts r) (md_audit r) (md_outbox r) (md_failNext r).
Definition md_set_nextSeq (v : Z) (r : memoryData) : memoryData :=
  mkData (md_graphRevision r) v (md_nodes r) (md_subgraphs r) (md_edges r) (md_subscriptions r) (md_deltas r)
    (md_deltaAck r) (md_taskBindings r) (md_projections r) (md_recipients r) (md_candidates r)
    (md_taskMemory r) (md_reviewReceipts r) (md_audit r) (md_outbox r) (md_failNext r).
Definition md_set_nodes (v : gmap string NodeRecord) (r : memoryData) : memoryData :=
  mkData (md_graphRevision r) (md_nextSeq r) v (md_subgraphs r) (md_edges r) (md_subscriptions r)
    (md_deltas r) (md_deltaAck r) (md_taskBindings r) (md_projections r) (md_recipients r) (md_candidates r)
    (md_taskMemory r) (md_reviewReceipts r) (md_audit r) (md_outbox r) (md_failNext r).
Definition md_set_subgraphs (v : gmap string SubgraphRecord) (r : memoryData) : memoryData :=
  mkData (md_graphRevision r) (md_nextSeq r) (md_nodes r) v (md_edges r) (md_subscriptions r) (md_deltas r)
    (md_deltaAck r) (md_taskBindings r) (md_projections r) (md_recipients r) (md_candidates r)
    (md_taskMemory r) (md_reviewReceipts r) (md_audit r) (md_outbox r) (md_failNext r).
Definition md_set_edges (v : gmap string ContextEdge) (r : memoryData) : memoryData :=
  mkData (md_graphRevision r) (md_nextSeq r) (md_nodes r) (md_subgraphs r) v (md_subscriptions r)
    (md_deltas r) (md_deltaAck r) (md_taskBindings r) (md_projections r) (md_recipients r) (md_candidates r)
    (md_taskMemory r) (md_reviewReceipts r) (md_audit r) (md_outbox r) (md_failNext r).
Definition md_set_subscriptions (v : gmap string ContextSubscriptionRecord) (r : memoryData) : memoryData :=
  mkData (md_graphRevision r) (md_nextSeq r) (md_nodes r) (md_subgraphs r) (md_edges r) v (md_deltas r)
    (md_deltaAck r) (md_taskBindings r) (md_projections r) (md_recipients r) (md_candidates r)
    (md_taskMemory r) (md_reviewReceipts r) (md_audit r) (md_outbox r) (md_failNext r).
Definition md_set_deltas (v : gmap string ContextDelta) (r : memoryData) : memoryData :=
  mkData (md_graphRevision r) (md_nextSeq r) (md_nodes r) (md_subgraphs r) (md_edges r) (md_subscriptions r) v
    (md_deltaAck r) (md_taskBindings r) (md_projections r) (md_recipients r) (md_candidates r)
    (md_taskMemory r) (md_reviewReceipts r) (md_audit r) (md_outbox r) (md_failNext r).
Definition md_set_deltaAck (v : gmap string bool) (r : memoryData) : memoryData :=
  mkData (md_graphRevision r) (md_nextSeq r) (md_nodes r) (md_subgraphs r) (md_edges r) (md_subscriptions r)
    (md_deltas r) v (md_taskBindings r) (md_projections r) (md_recipients r) (md_candidates r)
    (md_taskMemory r) (md_reviewReceipts r) (md_audit r) (md_outbox r) (md_failNext r).
Definition md_set_taskBindings (v : gmap taskScopeKey TaskContextSubgraphBinding) (r : memoryData) : memoryData :=
  mkData (md_graphRevision r) (md_nextSeq r) (md_nodes r) (md_subgraphs r) (md_edges r) (md_subscriptions r)
    (md_deltas r) (md_deltaAck r) v (md_projections r) (md_recipients r) (md_candidates r) (md_taskMemory r)
    (md_reviewReceipts r) (md_audit r) (md_outbox r) (md_failNext r).
Definition md_set_projections (v : gmap projectionScopeKey string) (r : memoryData) : memoryData :=
  mkData (md_graphRevision r) (md_nextSeq r) (md_nodes r) (md_subgraphs r) (md_edges r) (md_subscriptions r)
    (md_deltas r) (md_deltaAck r) (md_taskBindings r) v (md_recipients r) (md_candidates r) (md_taskMemory r)
    (md_reviewReceipts r) (md_audit r) (md_outbox r) (md_failNext r).
Definition md_set_recipients (v : gmap string (list TaskContextRecipient)) (r : memoryData) : memoryData :=
  mkData (md_graphRevision r) (md_nextSeq r) (md_nodes r) (md_subgraphs r) (md_edges r) (md_subscriptions r)
    (md_deltas r) (md_deltaAck r) (md_taskBindings r) (md_projections r) v (md_candidates r) (md_taskMemory r)
    (md_reviewReceipts r) (md_audit r) (md_outbox r) (md_failNext r).
Definition md_set_candidates (v : gmap taskScopeKey (list CandidateBufferRecord)) (r : memoryData) : memoryData :=
  mkData (md_graphRevision r) (md_nextSeq r) (md_nodes r) (md_subgraphs r) (md_edges r) (md_subscriptions r)
    (md_deltas r) (md_deltaAck r) (md_taskBindings r) (md_projections r) (md_recipients r) v (md_taskMemory r)
    (md_reviewReceipts r) (md_audit r) (md_outbox r) (md_failNext r).
Definition md_set_taskMemory (v : gmap taskScopeKey string) (r : memoryData) : memoryData :=
  mkData (md_graphRevision r) (md_nextSeq r) (md_nodes r) (md_subgraphs r) (md_edges r) (md_subscriptions r)
    (md_deltas r) (md_deltaAck r) (md_taskBindings r) (md_projections r) (md_recipients r) (md_candidates r) v
    (md_reviewReceipts r) (md_audit r) (md_outbox r) (md_failNext r).
Definition md_set_reviewReceipts (v : gmap taskScopeKey TaskMemoryReviewReceipt) (r : memoryData) : memoryData :=
  mkData (md_graphRevision r) (md_nextSeq r) (md_nodes r) (md_subgraphs r) (md_edges r) (md_subscriptions r)
    (md_deltas r) (md_deltaAck r) (md_taskBindings r) (md_projections r) (md_recipients r) (md_candidates r)
    (md_taskMemory r) v (md_audit r) (md_outbox r) (md_failNext r).
Definition md_set_audit (v : list AuditEvent) (r : memoryData) : memoryData :=
  mkData (md_graphRevision r) (md_nextSeq r) (md_nodes r) (md_subgraphs r) (md_edges r) (md_subscriptions r)
    (md_deltas r) (md_deltaAck r) (md_taskBindings r) (md_projections r) (md_recipients r) (md_candidates r)
    (md_taskMemory r) (md_reviewReceipts r) v (md_outbox r) (md_failNext r).
Definition md_set_outbox (v : list OutboxEvent) (r : memoryData) : memoryData :=
  mkData (md_graphRevision r) (md_nextSeq r) (md_nodes r) (md_subgraphs r) (md_edges r) (md_subscriptions r)
    (md_deltas r) (md_deltaAck r) (md_taskBindings r) (md_projections r) (md_recipients r) (md_candidates r)
    (md_taskMemory r) (md_reviewReceipts r) (md_audit r) v (md_failNext r).
Definition md_set_failNext (v : Fault) (r : memoryData) : memoryData :=
  mkData (md_graphRevision r) (md_nextSeq r) (md_nodes r) (md_subgraphs r) (md_edges r) (md_subscriptions r)
    (md_deltas r) (md_deltaAck r) (md_taskBindings r) (md_projections r) (md_recipients r) (md_candidates r)
    (md_taskMemory r) (md_reviewReceipts r) (md_audit r) (md_outbox r) v.

(** [MemoryStore] holds the fields of [memoryData], the startup slices and the
    resolver; the clock is an argument of the operations. *)
Record CtxStore := mkCtxStore {
  cs_data : memoryData;
  cs_initialSlices : gmap invocationScopeKey ContextSlice;
  cs_taskResolver : option TaskEndpointResolver;
}.

Definition cs_set_data (v : memoryData) (r : CtxStore) : CtxStore :=
  mkCtxStore v (cs_initialSlices r) (cs_taskResolver r).
Definition cs_set_initialSlices (v : gmap invocationScopeKey ContextSlice) (r : CtxStore) : CtxStore :=
  mkCtxStore (cs_data r) v (cs_taskResolver r).
Definition cs_set_taskResolver (v : option TaskEndpointResolver) (r : CtxStore) : CtxStore :=
  mkCtxStore (cs_data r) (cs_initialSlices r) v.

Definition NewMemoryStore : CtxStore :=
  mkCtxStore (mkData 1 0 ∅ ∅ ∅ ∅ ∅ ∅ ∅ ∅ ∅ ∅ ∅ ∅ [] [] NoFault) ∅ None.

Definition ctxNotFound (message : string) : error := kerr CodeNotFound message false.

(** ** Permissions *)

Definition requireTool (principal : Principal) (tool : Tool) (projectID : ProjectID) : res unit :=
  _ ← RequireTool principal tool (mkScope projectID "" "");
  Ok tt.

Definition requireContextAgent (principal : Principal) (tool : Tool) (projectID : ProjectID) : res unit :=
  _ ← fail_if (bool_decide (pri_Role principal <> RoleContext))
      (Forbidden "context graph mutation requires Context Agent");
  requireTool principal tool projectID.

Definition canSeeSubgraph (principal : Principal) (subgraph : SubgraphRecord) : bool :=
  if bool_decide (pri_ProjectID principal <> sr_ProjectID subgraph) then false
  else if bool_decide (csg_Kind (sr_Subgraph subgraph) = SubgraphKindGeneral) then true
  else if bool_decide (pri_TaskID principal = "") then false
  else bool_decide (sr_TaskID subgraph = pri_TaskID principal).

Definition canSeeNode (principal : Principal) (subgraphs : gmap string SubgraphRecord) (record : NodeRecord) : bool :=
  if bool_decide (pri_ProjectID principal <> nr_ProjectID record) then false
  else if bool_decide (cn_SubgraphIDs (nr_Node record) = []) then true
  else existsb (fun subgraphID => match subgraphs !! subgraphID with
                                  | Some subgraph => canSeeSubgraph principal subgraph
                                  | None => false
                                  end) (cn_SubgraphIDs (nr_Node record)).

Definition validateNodeKind (kind : string) : res unit :=
  fail_if (negb (one_of kind [NodeKindDirective; NodeKindFact; NodeKindHypothesis]))
    (InvalidArgument "node kind must be directive, fact, or hypothesis").

Definition validateNodeStatus (status : string) : res unit :=
  fail_if (negb (one_of status [NodeStatusAccepted; NodeStatusDisputed; NodeStatusSuperseded; NodeStatusOutdated]))
    (InvalidArgument "node status must be accepted, disputed, superseded, or outdated").

Definition validateSubgraphKind (kind : string) : res unit :=
  fail_if (negb (one_of kind [SubgraphKindGeneral; SubgraphKindTask]))
    (InvalidArgument "subgraph kind must be general or task").

(** ** Helpers *)

Definition contains (values : list string) (needle : string) : bool :=
  existsb (fun value => bool_decide (value = needle)) values.

Definition intersects (a b : list string) : bool := existsb (contains b) a.

Definition removeString (values : list string) (remove : string) : list string :=
  filter (fun value => value <> remove) values.

Definition edgeKey (edge : ContextEdge) : string :=
  ce_FromRef edge +:+ String "000" (ce_ToNodeID edge +:+ String "000" (ce_Kind edge)).

Definition scopedTask (projectID : ProjectID) (taskID : TaskID) : taskScopeKey := (projectID, taskID).
Definition scopedProjection (projectID : ProjectID) (projectionID : string) : projectionScopeKey := (projectID, projectionID).

Definition cloneNode (node : ContextNode) : ContextNode := node.
Definition cloneSubgraph (subgraph : ContextSubgraph) : ContextSubgraph := subgraph.

(** [subgraph.Subgraph.Revision++; subgraph.UpdatedAt = now]. *)
Definition touch (now : Time) (r : SubgraphRecord) : SubgraphRecord :=
  let g := sr_Subgraph r in
  mkSubgraphRecord (mkSubgraph (csg_ID g) (csg_Name g) (csg_Summary g) (int_wrap (csg_Revision g + 1)) (csg_Kind g))
    (sr_ProjectID r) (sr_TaskID r) (sr_CreatedAt r) now.

(** The value a Go map gives for a missing key. *)
Definition zeroSubgraphRecord : SubgraphRecord := mkSubgraphRecord (mkSubgraph "" "" "" 0 "") "" "" 0 0.
Definition zeroNodeRecord : NodeRecord := mkNodeRecord (mkNode "" "" "" "" [] [] "") 0 "" 0 0.

Definition touchSubgraphs (now : Time) (ids : list string) (m : gmap string SubgraphRecord) : gmap string SubgraphRecord :=
  foldl (fun m id => <[id := touch now (default zeroSubgraphRecord (m !! id))]> m) m ids.

Definition rejectTaskMembership (subgraphs : gmap string SubgraphRecord) (subgraphIDs : list string) : res unit :=
  each (fun subgraphID =>
    match subgraphs !! subgraphID with
    | Some subgraph => fail_if (bool_decide (csg_Kind (sr_Subgraph subgraph) = SubgraphKindTask))
        (Forbidden "Context Agent curator cannot mutate task nodes or task subgraphs")
    | None => Ok tt
    end) subgraphIDs.

Definition validateNewNode (principal : Principal) (subgraphs : gmap string SubgraphRecord) (node : ContextNode)
    (creation : NodeCreationContext) : res unit :=
  _ ← fail_if (bool_decide (cn_ID node = "") || bool_decide (cn_Statement node = "") ||
               bool_decide (cn_CreatorAgentID node = ""))
      (InvalidArgument "node id, statement, and creator_agent_id are required");
  _ ← fail_if (bool_decide (cn_CreatorAgentID node <> ncc_CreatorAgentID creation) &&
               bool_decide (ncc_CreatorAgentID creation <> ""))
      (Forbidden "node creator does not match trusted creation context");
  _ ← validateNodeKind (cn_Kind node);
  _ ← validateNodeStatus (cn_Status node);
  _ ← fail_if (bool_decide (cn_SourceRefs node = [])) (InvalidArgument "source_refs are required");
  each (fun subgraphID =>
    match subgraphs !! subgraphID with
    | None => Err (ctxNotFound "subgraph not found")
    | Some subgraph =>
      _ ← fail_if (negb (canSeeSubgraph principal subgraph)) (Forbidden "subgraph is not visible to principal");
      fail_if (bool_decide (csg_Kind (sr_Subgraph subgraph) <> SubgraphKindGeneral))
        (Forbidden "Context Agent cannot write task subgraphs")
    end) (cn_SubgraphIDs node).

Definition validateGeneralNode (principal : Principal) (subgraphs : gmap string SubgraphRecord) (node : ContextNode)
    (creation : NodeCreationContext) : res unit :=
  _ ← validateNewNode principal subgraphs node creation;
  rejectTaskMembership subgraphs (cn_SubgraphIDs node).

Definition parseExpectedRevision (value : string) : res Revision :=
  _ ← fail_if (bool_decide (value = "")) (InvalidArgument "source_revision is required");
  match ParseUint value with
  | Some parsed =>
    if bool_decide (parsed = 0%Z) then Err (InvalidArgument "source_revision must be a positive integer")
    else Ok parsed
  | None => Err (InvalidArgument "source_revision must be a positive integer")
  end.

Definition lastOutboxID (working : memoryData) : string :=
  match last (md_outbox working) with Some event => oe_ID event | None => "" end.

Section with_runtime.
Context `{GR : GoRuntime}.

Definition uniqueStrings (values : list string) : list string :=
  if bool_decide (values = []) then [] else sort_slice string_lt (dedupe_from ∅ values).

Definition normalizeNode (node : ContextNode) : ContextNode :=
  mkNode (cn_ID node) (cn_Kind node) (cn_Statement node) (cn_Status node) (uniqueStrings (cn_SubgraphIDs node))
    (uniqueStrings (cn_SourceRefs node)) (cn_CreatorAgentID node).

Definition sortedStringSet (values : gmap string unit) : list string := sort_slice string_lt (range_keys values).

(** [set[value] = struct{}{}] for every value. *)
Definition stringSet (values : list string) : gmap string unit := foldl (fun m value => <[value := tt]> m) ∅ values.

Definition changedSubgraphMemberships (before after : list string) : list string :=
  let beforeSet := stringSet before in
  let afterSet := stringSet after in
  sortedStringSet (stringSet (filter (fun id => beforeSet !! id = None) after ++
                              filter (fun id => afterSet !! id = None) before)).

Definition unionStringSlices (left right : list string) : list string :=
  sortedStringSet (stringSet (filter (fun value => value <> "") (left ++ right))).

Definition node_less (a b : NodeRecord) : bool :=
  if bool_decide (nr_Sequence a = nr_Sequence b) then string_lt (cn_ID (nr_Node a)) (cn_ID (nr_Node b))
  else (nr_Sequence a <? nr_Sequence b)%Z.

Definition sortedNodesLocked (d : memoryData) : list NodeRecord := sort_slice node_less (range_values (md_nodes d)).

Definition sortedEdgesLocked (d : memoryData) : list ContextEdge :=
  sort_slice (fun a b => string_lt (edgeKey a) (edgeKey b)) (range_values (md_edges d)).

End with_runtime.
