(* ===== verification/CtxSubs.v ===== *)
(** * The context graph: subscriptions and deltas

    [internal/contextgraph/subscription.go] and [delta_dispatcher.go].  A change
    of the graph is dispatched to the active subscriptions of the project; a
    consumer reads its pending deltas and acknowledges them one by one.  The
    order in which one change numbers its deltas is the iteration order of the
    subscription map. *)

From stdpp Require Import base tactics option list strings gmap sorting.
From Stdlib Require Import ZArith Ascii.
From S2P Require Import Prelude GoLib GoStrings Kernel CoordTypes Acyclic GraphSpec Auth CtxModel.

(** ** Working copies

    A mutation works on [cloneLocked], a deep copy of the data, and installs it
    with [replaceLocked] when it succeeds. *)

Definition cloneLocked (s : CtxStore) : memoryData := cs_data s.
Definition replaceLocked (working : memoryData) (s : CtxStore) : CtxStore := cs_set_data working s.

Definition transact {A} (m : M error memoryData A) : M error CtxStore A := fun s =>
  match m (cloneLocked s) with
  | (Ok a, working) => (Ok a, replaceLocked working s)
  | (Err e, _) => (Err e, s)
  end.

(** A method of the store that writes its fields directly. *)
Definition in_place {A} (m : M error memoryData A) : M error CtxStore A := fun s =>
  let '(r, d) := m (cs_data s) in (r, cs_set_data d s).

Definition get_data : M error CtxStore memoryData := s ← get_state; mret (cs_data s).

(** [fmt.Sprintf("<prefix>-%d", len+n)]. *)
Definition numbered (prefix : string) (n : Z) : string := prefix +:+ format_int n.

Definition auditEvent (d : memoryData) (principal : Principal) (action subjectID : string) (now : Time) : AuditEvent :=
  mkAuditEvent (numbered "audit-" (Z.of_nat (length (md_audit d)) + 1)) (pri_ProjectID principal)
    (pri_ActorPrincipalID principal) action subjectID now.

(** ** Subscriptions *)

Definition subscriptionSourceExplicit : string := "explicit".
Definition subscriptionSourceInitial : string := "initial_slice".
Definition subscriptionSourceSearch : string := "search".

Definition consumerInvocationID (principal : Principal) : InvocationID := pri_InvocationID principal.

Definition subscriptionConsumerInvocationID (principal : Principal) (source : string) : res InvocationID :=
  if bool_decide (source = subscriptionSourceSearch) then
    _ ← fail_if (bool_decide (pri_Role principal <> RoleContext) || bool_decide (pri_Operation principal <> "retrieve"))
        (Forbidden "search subscription requires context retrieve principal");
    _ ← fail_if (bool_decide (pri_ConsumerInvocationID principal = ""))
        (InvalidArgument "search subscription requires trusted consumer invocation");
    Ok (pri_ConsumerInvocationID principal)
  else Ok (consumerInvocationID principal).

Definition subscriptionConsumerTaskID (principal : Principal) (source : string) : TaskID :=
  if bool_decide (source = subscriptionSourceSearch) then pri_ConsumerTaskID principal else pri_TaskID principal.

Definition subscriptionConsumerRole (principal : Principal) (source : string) : string :=
  if bool_decide (source = subscriptionSourceSearch) then pri_ConsumerRole principal else pri_Role principal.

Definition subscriptionNotFound : error := ctxNotFound "subscription_not_found".

(** [record.Active = false] with the time it was canceled or expired. *)
Definition csr_cancel (now : Time) (r : ContextSubscriptionRecord) : ContextSubscriptionRecord :=
  mkSubRecord (csr_Subscription r) (csr_ProjectID r) (csr_TaskID r) (csr_Role r) (csr_Source r) false
    (Some now) (csr_ExpiredAt r) (csr_CreatedAt r).
Definition csr_expire (now : Time) (r : ContextSubscriptionRecord) : ContextSubscriptionRecord :=
  mkSubRecord (csr_Subscription r) (csr_ProjectID r) (csr_TaskID r) (csr_Role r) (csr_Source r) false
    (csr_CanceledAt r) (Some now) (csr_CreatedAt r).

(** The subscriptions of an invocation. *)
Definition consumed_by (projectID : ProjectID) (invocationID : InvocationID) (record : ContextSubscriptionRecord) : bool :=
  bool_decide (csr_ProjectID record = projectID) &&
  bool_decide (sub_ConsumerInvocationID (csr_Subscription record) = invocationID).

(** The loop tries [len+1], then [len+2] for ever. *)
Definition nextSubscriptionID (m : gmap string ContextSubscriptionRecord) : res string :=
  let first := numbered "sub-" (Z.of_nat (size m) + 1) in
  let second := numbered "sub-" (Z.of_nat (size m) + 2) in
  match m !! first with
  | None => Ok first
  | Some _ => match m !! second with None => Ok second | Some _ => Err Diverged end
  end.

Definition canSubscriptionSeeSubgraph (subscription : ContextSubscriptionRecord) (subgraph : SubgraphRecord) : bool :=
  if bool_decide (csr_ProjectID subscription <> sr_ProjectID subgraph) then false
  else if bool_decide (csg_Kind (sr_Subgraph subgraph) = SubgraphKindGeneral) then true
  else bool_decide (csr_TaskID subscription <> "") && bool_decide (sr_TaskID subgraph = csr_TaskID subscription).

Definition recordMatchesDelta (subscription : ContextSubscription) (eventKind : string) (subgraphIDs : list string) : bool :=
  if bool_decide (sub_EventKinds subscription <> []) && negb (contains (sub_EventKinds subscription) eventKind) then false
  else intersects (sub_SubgraphIDs subscription) subgraphIDs.

Section with_runtime.
Context `{GR : GoRuntime}.

Definition visibleSubscriptionSubgraphs (d : memoryData) (principal : Principal) (subgraphIDs : list string) :
    res (list string) :=
  _ ← fail_if (bool_decide (subgraphIDs = [])) (InvalidArgument "subgraph_ids are required");
  foldM (fun out subgraphID =>
    match md_subgraphs d !! subgraphID with
    | Some record => if canSeeSubgraph principal record then Ok (out ++ [subgraphID])
                     else Err (ctxNotFound "subgraph not found")
    | None => Err (ctxNotFound "subgraph not found")
    end) [] (uniqueStrings subgraphIDs).

Definition createSubscription (now : Time) (principal : Principal) (req : SubscribeRequest) (source : string) :
    M error memoryData ContextSubscription :=
  invocationID ← lift (subscriptionConsumerInvocationID principal source);
  _ ← lift (fail_if (bool_decide (invocationID = "")) (InvalidArgument "consumer invocation is required"));
  d ← get_state;
  subgraphIDs ← lift (visibleSubscriptionSubgraphs d principal (sb_SubgraphIDs req));
  id ← lift (nextSubscriptionID (md_subscriptions d));
  let sub := mkSubscription id invocationID subgraphIDs (uniqueStrings (sb_EventKinds req))
               (pri_ProjectID principal +:+ ":" +:+ pri_TaskID principal +:+ ":" +:+ pri_Role principal) in
  _ ← put_state (md_set_subscriptions
        (<[id := mkSubRecord sub (pri_ProjectID principal) (subscriptionConsumerTaskID principal source)
                   (subscriptionConsumerRole principal source) source true None None now]> (md_subscriptions d)) d);
  mret sub.

Definition Subscribe (ctx : Context) (principal : Principal) (req : SubscribeRequest) (now : Time) :
    M error CtxStore ContextSubscription :=
  _ ← lift (ctx_Err ctx);
  _ ← lift (requireTool principal ToolContextSubscribe (pri_ProjectID principal));
  transact (createSubscription now principal req subscriptionSourceExplicit).

Definition Unsubscribe (ctx : Context) (principal : Principal) (subscriptionID : string) (now : Time) :
    M error CtxStore unit :=
  _ ← lift (ctx_Err ctx);
  _ ← lift (requireTool principal ToolContextUnsubscribe (pri_ProjectID principal));
  _ ← lift (fail_if (bool_decide (TrimSpace subscriptionID = "")) (InvalidArgument "subscription_id is required"));
  d ← get_data;
  match md_subscriptions d !! subscriptionID with
  | None => throw subscriptionNotFound
  | Some record =>
    if negb (consumed_by (pri_ProjectID principal) (consumerInvocationID principal) record) then throw subscriptionNotFound
    else if negb (csr_Active record) then mret tt
    else
      in_place (modify (fun d =>
        md_set_audit (md_audit d ++ [auditEvent d principal "context.subscription.cancel" subscriptionID now])
          (md_set_subscriptions (<[subscriptionID := csr_cancel now record]> (md_subscriptions d)) d)))
  end.

Definition EndInvocation (ctx : Context) (principal : Principal) (invocationID : InvocationID) (now : Time) :
    M error CtxStore unit :=
  _ ← lift (ctx_Err ctx);
  _ ← lift (fail_if (bool_decide (invocationID = "")) (InvalidArgument "invocation_id is required"));
  _ ← lift (fail_if (bool_decide (pri_ProjectID principal = "") || bool_decide (pri_Kind principal <> PrincipalAgent))
        (Forbidden "invocation expiry requires agent principal"));
  _ ← lift (fail_if (bool_decide (invocationID <> pri_InvocationID principal))
        (Forbidden "invocation expiry is limited to the authenticated invocation"));
  in_place (modify (fun d => md_set_subscriptions
    (range_update (fun _ record =>
       if negb (consumed_by (pri_ProjectID principal) invocationID record) || negb (csr_Active record) then None
       else Some (csr_expire now record)) (md_subscriptions d)) d)).

(** Who may look at what an invocation subscribed to or started with. *)
Definition authorizeInspection (head what : string) (principal : Principal) (invocationID : InvocationID) : res InvocationID :=
  _ ← fail_if (bool_decide (pri_ProjectID principal = "")) (Forbidden (head +:+ " requires project principal"));
  let invocationID := if bool_decide (invocationID = "") then consumerInvocationID principal else invocationID in
  if bool_decide (pri_Kind principal = PrincipalAgent) then
    _ ← fail_if (bool_decide (invocationID = "") || bool_decide (invocationID <> pri_InvocationID principal))
        (Forbidden ("agent " +:+ what +:+ " is limited to the authenticated invocation"));
    Ok invocationID
  else if bool_decide (pri_Kind principal = PrincipalOperator) then
    _ ← fail_if (bool_decide (pri_Role principal <> RoleOperator) || bool_decide (invocationID = ""))
        (Forbidden ("operator " +:+ what +:+ " requires an invocation"));
    Ok invocationID
  else Err (Forbidden (what +:+ " requires an authenticated principal")).

Definition InspectSubscriptions (ctx : Context) (principal : Principal) (invocationID : InvocationID) :
    M error CtxStore (list SubscriptionInspection) :=
  _ ← lift (ctx_Err ctx);
  invocationID ← lift (authorizeInspection "inspection" "subscription inspection" principal invocationID);
  d ← get_data;
  mret (sort_slice (fun a b => string_lt (si_ID a) (si_ID b))
    ((fun record => let sub := csr_Subscription record in
        mkInspection (sub_ID sub) (sub_ConsumerInvocationID sub) (csr_Source record) (sub_SubgraphIDs sub)
          (sub_EventKinds sub) (csr_Active record)) <$>
     filter (fun record => consumed_by (pri_ProjectID principal) invocationID record = true)
       (range_values (md_subscriptions d)))).

(** ** Deltas *)

Definition visibleDeltaSubgraphs (record : ContextSubscriptionRecord) (subgraphs : gmap string SubgraphRecord)
    (changedSubgraphs : list string) : list string :=
  filter (fun subgraphID => contains (sub_SubgraphIDs (csr_Subscription record)) subgraphID &&
            match subgraphs !! subgraphID with
            | Some subgraph => canSubscriptionSeeSubgraph record subgraph
            | None => false
            end = true) (uniqueStrings changedSubgraphs).

(** The changed subgraphs a subscription is told about; none when it is
    skipped. *)
Definition deltaSubgraphs (d : memoryData) (projectID : ProjectID) (eventKind : string) (subgraphIDs : list string)
    (record : ContextSubscriptionRecord) : list string :=
  if bool_decide (csr_ProjectID record <> projectID) || negb (csr_Active record) ||
     negb (recordMatchesDelta (csr_Subscription record) eventKind subgraphIDs)
  then [] else visibleDeltaSubgraphs record (md_subgraphs d) subgraphIDs.

Definition deltaStep (principal : Principal) (eventID eventKind : string) (subgraphIDs : list string)
    (acc : memoryData * list ContextDelta) (record : ContextSubscriptionRecord) : memoryData * list ContextDelta :=
  let '(d, created) := acc in
  match deltaSubgraphs d (pri_ProjectID principal) eventKind subgraphIDs record with
  | [] => acc
  | visible =>
    let id := numbered "delta-" (Z.of_nat (size (md_deltas d)) + 1) in
    let delta := mkDelta id (pri_ProjectID principal) (sub_ID (csr_Subscription record))
                   (sub_ConsumerInvocationID (csr_Subscription record)) eventID eventKind visible
                   (int_wrap (md_graphRevision d)) in
    (md_set_deltas (<[id := delta]> (md_deltas d)) d, created ++ [delta])
  end.

Definition appendContextDeltas (principal : Principal) (eventID eventKind : string) (subgraphIDs : list string) :
    M error memoryData (list ContextDelta) := fun d =>
  let '(d', created) := foldl (deltaStep principal eventID eventKind subgraphIDs) (d, []) (range_values (md_subscriptions d)) in
  (Ok (sort_slice (fun a b => string_lt (cd_ID a) (cd_ID b)) created), d').

Definition RecordContextDelta (ctx : Context) (principal : Principal) (eventID eventKind : string)
    (subgraphIDs : list string) : M error CtxStore (list ContextDelta) :=
  _ ← lift (ctx_Err ctx);
  _ ← lift (fail_if (bool_decide (eventID = "") || bool_decide (eventKind = ""))
        (InvalidArgument "event_id and event_kind are required"));
  in_place (appendContextDeltas principal eventID eventKind subgraphIDs).

(** What a consumer sees of a delta: nothing once it is acknowledged, belongs to
    someone else, or its subscription has ended. *)
Definition pendingDelta (d : memoryData) (principal : Principal) (kv : string * ContextDelta) : option ContextDelta :=
  let '(id, delta) := kv in
  let invocationID := consumerInvocationID principal in
  if default false (md_deltaAck d !! id) || bool_decide (cd_ProjectID delta <> pri_ProjectID principal) ||
     bool_decide (cd_InvocationID delta <> invocationID)
  then None
  else match md_subscriptions d !! cd_SubscriptionID delta with
  | None => None
  | Some record =>
    if negb (csr_Active record) || negb (consumed_by (pri_ProjectID principal) invocationID record) then None
    else match visibleDeltaSubgraphs record (md_subgraphs d) (cd_SubgraphIDs delta) with
    | [] => None
    | visible => Some (cd_set_SubgraphIDs visible delta)
    end
  end.

Definition PendingDeltas (ctx : Context) (principal : Principal) : M error CtxStore (list ContextDelta) :=
  _ ← lift (ctx_Err ctx);
  d ← get_data;
  mret (sort_slice (fun a b => string_lt (cd_ID a) (cd_ID b)) (omap (pendingDelta d principal) (range_map (md_deltas d)))).

Definition AckDelta (ctx : Context) (principal : Principal) (deltaID : string) : M error CtxStore unit :=
  _ ← lift (ctx_Err ctx);
  d ← get_data;
  match md_deltas d !! deltaID with
  | None => throw (ctxNotFound "delta not found")
  | Some delta =>
    _ ← lift (fail_if (bool_decide (cd_ProjectID delta <> pri_ProjectID principal) ||
                       bool_decide (cd_InvocationID delta <> consumerInvocationID principal))
          (ctxNotFound "delta not found"));
    match md_subscriptions d !! cd_SubscriptionID delta with
    | None => throw (ctxNotFound "delta not found")
    | Some record =>
      _ ← lift (fail_if (negb (consumed_by (pri_ProjectID principal) (cd_InvocationID delta) record))
            (ctxNotFound "delta not found"));
      in_place (modify (fun d => md_set_deltaAck (<[deltaID := true]> (md_deltaAck d)) d))
    end
  end.

End with_runtime.
