(* ===== verification/CtxCurate.v ===== *)
(** * The context graph: mutations

    The mutating operations of [internal/contextgraph/store.go]: [CreateNodes],
    the curator's operations on general nodes and subgraphs, and the fault
    points of a working copy. *)

From stdpp Require Import base tactics option list strings gmap sorting.
From Stdlib Require Import ZArith Ascii.
From S2P Require Import Prelude GoLib GoStrings Kernel CoordTypes Acyclic GraphSpec Auth CtxModel CtxSubs.

Definition SetTaskEndpointResolver (resolver : option TaskEndpointResolver) : M error CtxStore unit :=
  modify (cs_set_taskResolver resolver).

Definition SetNextFault (fault : Fault) : M error CtxStore unit :=
  in_place (modify (md_set_failNext fault)).

Definition GraphRevision : M error CtxStore Revision := d ← get_data; mret (md_graphRevision d).
Definition AuditEvents : M error CtxStore (list AuditEvent) := d ← get_data; mret (md_audit d).
Definition OutboxEvents : M error CtxStore (list OutboxEvent) := d ← get_data; mret (md_outbox d).

(** ** Steps on a working copy *)

(** An armed fault fires once and is disarmed in the working copy. *)
Definition fault_point (fault : Fault) (message : string) : M error memoryData unit :=
  d ← get_state;
  if bool_decide (md_failNext d = fault) then
    _ ← put_state (md_set_failNext NoFault d);
    throw (OtherError message)
  else mret tt.

Definition addEdge (edge : ContextEdge) : M error memoryData unit :=
  _ ← fault_point FaultEdge "injected edge failure";
  _ ← lift (fail_if (bool_decide (ce_FromRef edge = "") || bool_decide (ce_ToNodeID edge = "") ||
                     bool_decide (ce_Kind edge = "")) (InvalidArgument "edge fields are required"));
  modify (fun d => md_set_edges (<[edgeKey edge := edge]> (md_edges d)) d).

Definition appendAudit (event : AuditEvent) : M error memoryData unit :=
  _ ← fault_point FaultAudit "injected audit failure";
  modify (fun d => md_set_audit (md_audit d ++ [event]) d).

Definition appendOutbox (event : OutboxEvent) : M error memoryData unit :=
  _ ← fault_point FaultOutbox "injected outbox failure";
  modify (fun d => md_set_outbox (md_outbox d ++ [event]) d).

Definition appendMutationEvents (now : Time) (principal : Principal) (auditAction outboxTopic subjectID : string)
    (payload : OutboxPayload) : M error memoryData unit :=
  d ← get_state;
  _ ← appendAudit (auditEvent d principal auditAction subjectID now);
  d ← get_state;
  appendOutbox (mkOutboxEvent (numbered "outbox-" (Z.of_nat (length (md_outbox d)) + 1)) outboxTopic subjectID payload now).

Definition bump_revision : M error memoryData unit :=
  modify (fun d => md_set_graphRevision (Revision_Next (md_graphRevision d)) d).

Definition bump_seq : M error memoryData Z :=
  _ ← modify (fun d => md_set_nextSeq (uint64_wrap (md_nextSeq d + 1)) d);
  d ← get_state;
  mret (md_nextSeq d).

Definition put_node (id : string) (record : NodeRecord) : M error memoryData unit :=
  modify (fun d => md_set_nodes (<[id := record]> (md_nodes d)) d).

Definition touch_all (now : Time) (ids : list string) : M error memoryData unit :=
  modify (fun d => md_set_subgraphs (touchSubgraphs now ids (md_subgraphs d)) d).

(** The first unused [subgraph-<i>] from [i] on; [fuel] numbers are tried. *)
Fixpoint freeSubgraphID (fuel : nat) (i : Z) (m : gmap string SubgraphRecord) : res string :=
  match fuel with
  | 0 => Err Diverged
  | S fuel => match m !! numbered "subgraph-" i with
              | None => Ok (numbered "subgraph-" i)
              | Some _ => freeSubgraphID fuel (i + 1) m
              end
  end.

Section with_runtime.
Context `{GR : GoRuntime}.

(** The end of every mutation: count the revision and notify the subscribers. *)
Definition publish (principal : Principal) (eventKind : string) (changed : list string) : M error memoryData unit :=
  _ ← bump_revision;
  d ← get_state;
  _ ← appendContextDeltas principal (lastOutboxID d) eventKind changed;
  mret tt.

(** ** [CreateNodes] *)

Definition continues (principal : Principal) (d : memoryData) (creation : NodeCreationContext) (previous : NodeRecord) : bool :=
  bool_decide (nr_ProjectID previous = pri_ProjectID principal) && canSeeNode principal (md_subgraphs d) previous &&
  bool_decide (cn_CreatorAgentID (nr_Node previous) = ncc_CreatorAgentID creation) &&
  bool_decide (cn_Status (nr_Node previous) <> NodeStatusSuperseded) &&
  bool_decide (cn_Status (nr_Node previous) <> NodeStatusOutdated).

Definition previousEdge (principal : Principal) (creation : NodeCreationContext) (node : ContextNode)
    (edges : list ContextEdge) : M error memoryData (list ContextEdge) :=
  if bool_decide (ncc_PreviousNodeID creation = "") then mret edges else
  d ← get_state;
  match md_nodes d !! ncc_PreviousNodeID creation with
  | None => mret edges
  | Some previous =>
    if continues principal d creation previous then
      let edge := mkEdge ("node:" +:+ cn_ID (nr_Node previous)) (cn_ID node) EdgeKindLogicalAdjacent in
      _ ← addEdge edge;
      mret (edges ++ [edge])
    else mret edges
  end.

Definition derivedEdge (principal : Principal) (node : ContextNode) (edges : list ContextEdge) (subgraphID : string) :
    M error memoryData (list ContextEdge) :=
  d ← get_state;
  match md_subgraphs d !! subgraphID with
  | None => mret edges
  | Some subgraph =>
    if canSeeSubgraph principal subgraph then
      let edge := mkEdge ("subgraph:" +:+ subgraphID) (cn_ID node) EdgeKindDerivesFromSubgraph in
      _ ← addEdge edge;
      mret (edges ++ [edge])
    else mret edges
  end.

(** What the loop of [CreateNodes] carries: the nodes and edges created and the
    subgraphs changed. *)
Abbreviation creation_acc := (list ContextNode * list ContextEdge * gmap string unit)%type.

Definition createOne (principal : Principal) (now : Time) (acc : creation_acc) (input : CreateNodeInput) :
    M error memoryData creation_acc :=
  let '(created, edges, changed) := acc in
  let node := normalizeNode (cni_Node input) in
  let creation := cni_CreationContext input in
  d ← get_state;
  _ ← lift (validateNewNode principal (md_subgraphs d) node creation);
  _ ← lift (fail_if (bool_decide (is_Some (md_nodes d !! cn_ID node))) (InvalidArgument "node already exists"));
  seq ← bump_seq;
  _ ← put_node (cn_ID node) (mkNodeRecord node 1 (pri_ProjectID principal) now seq);
  _ ← touch_all now (cn_SubgraphIDs node);
  edges ← previousEdge principal creation node edges;
  edges ← foldMM (derivedEdge principal node) edges (uniqueStrings (ncc_SubscribedSubgraphIDs creation));
  _ ← appendMutationEvents now principal "context.node.create" "context.node.created" (cn_ID node) (PayloadNode node);
  mret (created ++ [node], edges, foldl (fun m id => <[id := tt]> m) changed (cn_SubgraphIDs node)).

Definition CreateNodes (ctx : Context) (principal : Principal) (req : CreateNodesRequest) (now : Time) :
    M error CtxStore CreateNodesResult :=
  _ ← lift (ctx_Err ctx);
  _ ← lift (requireTool principal ToolContextSubmitReview (pri_ProjectID principal));
  transact (
    d ← get_state;
    _ ← lift (CheckExpectedRevision (cnr_ExpectedGraphRevision req) (md_graphRevision d));
    acc ← foldMM (createOne principal now) ([], [], ∅) (cnr_Nodes req);
    let '(created, edges, changed) := acc in
    _ ← publish principal "context.node.created" (sortedStringSet changed);
    w ← get_state;
    mret (mkCreateNodesResult (md_graphRevision w) created edges
            (drop (length (md_audit d)) (md_audit w)) (drop (length (md_outbox d)) (md_outbox w)))).

(** ** The curator *)

Definition CreateNode (ctx : Context) (principal : Principal) (req : CreateGeneralNodeRequest) (now : Time) :
    M error CtxStore string :=
  _ ← lift (ctx_Err ctx);
  _ ← lift (requireContextAgent principal ToolContextCreateNode (pri_ProjectID principal));
  transact (
    seq ← bump_seq;
    let node := normalizeNode (mkNode (numbered "node-" seq) (gn_Kind req) (gn_Statement req) NodeStatusAccepted
                  (gn_SubgraphIDs req) (gn_SourceRefs req) (pri_ActorPrincipalID principal)) in
    d ← get_state;
    _ ← lift (validateGeneralNode principal (md_subgraphs d) node (mkCreation (cn_CreatorAgentID node) "" []));
    _ ← put_node (cn_ID node) (mkNodeRecord node 1 (pri_ProjectID principal) now seq);
    _ ← touch_all now (cn_SubgraphIDs node);
    _ ← appendMutationEvents now principal "context.node.create" "context.node.created" (cn_ID node) (PayloadNode node);
    _ ← publish principal "context.node.created" (cn_SubgraphIDs node);
    mret (cn_ID node)).

(** A node of the principal's project that is in no task subgraph, at the
    expected revision. *)
Definition curatedNode (principal : Principal) (expected : Revision) (nodeID : string) : M error memoryData NodeRecord :=
  d ← get_state;
  match md_nodes d !! nodeID with
  | None => throw (ctxNotFound "node not found")
  | Some record =>
    _ ← lift (fail_if (bool_decide (nr_ProjectID record <> pri_ProjectID principal)) (ctxNotFound "node not found"));
    _ ← lift (rejectTaskMembership (md_subgraphs d) (cn_SubgraphIDs (nr_Node record)));
    _ ← lift (CheckExpectedRevision expected (nr_Revision record));
    mret record
  end.

(** [record.Node = node; record.Revision++]. *)
Definition nr_revise (node : ContextNode) (r : NodeRecord) : NodeRecord :=
  mkNodeRecord node (Revision_Next (nr_Revision r)) (nr_ProjectID r) (nr_CreatedAt r) (nr_Sequence r).

Definition UpdateNode (ctx : Context) (principal : Principal) (req : UpdateGeneralNodeRequest) (now : Time) :
    M error CtxStore string :=
  _ ← lift (ctx_Err ctx);
  _ ← lift (requireContextAgent principal ToolContextUpdateNode (pri_ProjectID principal));
  expected ← lift (parseExpectedRevision (un_SourceRevision req));
  transact (
    record ← curatedNode principal expected (un_NodeID req);
    let old := nr_Node record in
    let node := normalizeNode (mkNode (cn_ID old) (un_Kind req) (un_Statement req) (un_Status req)
                  (un_SubgraphIDs req) (un_SourceRefs req) (cn_CreatorAgentID old)) in
    d ← get_state;
    _ ← lift (validateGeneralNode principal (md_subgraphs d) node (mkCreation (cn_CreatorAgentID old) "" []));
    _ ← put_node (cn_ID node) (nr_revise node record);
    _ ← touch_all now (changedSubgraphMemberships (cn_SubgraphIDs old) (cn_SubgraphIDs node));
    _ ← appendMutationEvents now principal "context.node.update" "context.node.updated" (cn_ID node) (PayloadNode node);
    _ ← publish principal "context.node.updated" (unionStringSlices (cn_SubgraphIDs old) (cn_SubgraphIDs node));
    mret (cn_ID node)).

Definition DeleteNode (ctx : Context) (principal : Principal) (req : DeleteGeneralNodeRequest) (now : Time) :
    M error CtxStore unit :=
  _ ← lift (ctx_Err ctx);
  _ ← lift (requireContextAgent principal ToolContextDeleteNode (pri_ProjectID principal));
  expected ← lift (parseExpectedRevision (dn_SourceRevision req));
  transact (
    record ← curatedNode principal expected (dn_NodeID req);
    _ ← modify (fun d =>
          md_set_edges (range_delete (fun _ edge => bool_decide (ce_ToNodeID edge = dn_NodeID req) ||
                                                    bool_decide (ce_FromRef edge = "node:" +:+ dn_NodeID req)) (md_edges d))
            (md_set_nodes (delete (dn_NodeID req) (md_nodes d)) d));
    _ ← touch_all now (cn_SubgraphIDs (nr_Node record));
    _ ← appendMutationEvents now principal "context.node.delete" "context.node.deleted" (dn_NodeID req) (PayloadDeleteNode req);
    publish principal "context.node.deleted" (cn_SubgraphIDs (nr_Node record))).

(** The membership a node of the project gets. *)
Definition memberUpdate (principal : Principal) (subgraphID : string) (wanted : gset string) (id : string)
    (record : NodeRecord) : option NodeRecord :=
  if bool_decide (nr_ProjectID record <> pri_ProjectID principal) then None else
  let shouldHave := bool_decide (id ∈ wanted) in
  let ids := cn_SubgraphIDs (nr_Node record) in
  let has := contains ids subgraphID in
  if shouldHave && negb has then
    Some (nr_set_Node (cn_set_SubgraphIDs (uniqueStrings (ids ++ [subgraphID])) (nr_Node record)) record)
  else if negb shouldHave && has then
    Some (nr_set_Node (cn_set_SubgraphIDs (removeString ids subgraphID) (nr_Node record)) record)
  else None.

Definition setGeneralSubgraphMembers (principal : Principal) (subgraphID : string) (nodeIDs : list string) :
    M error memoryData unit :=
  d ← get_state;
  _ ← lift (each (fun nodeID =>
        match md_nodes d !! nodeID with
        | None => Err (ctxNotFound "node not found")
        | Some record =>
          _ ← fail_if (bool_decide (nr_ProjectID record <> pri_ProjectID principal)) (ctxNotFound "node not found");
          rejectTaskMembership (md_subgraphs d) (cn_SubgraphIDs (nr_Node record))
        end) (uniqueStrings nodeIDs));
  put_state (md_set_nodes (range_update (memberUpdate principal subgraphID (list_to_set (uniqueStrings nodeIDs))) (md_nodes d)) d).

Definition put_subgraph (id : string) (record : SubgraphRecord) : M error memoryData unit :=
  modify (fun d => md_set_subgraphs (<[id := record]> (md_subgraphs d)) d).

Definition CreateSubgraph (ctx : Context) (principal : Principal) (req : CreateGeneralSubgraphRequest) (now : Time) :
    M error CtxStore ContextSubgraph :=
  _ ← lift (ctx_Err ctx);
  _ ← lift (requireContextAgent principal ToolContextCreateSubgraph (pri_ProjectID principal));
  _ ← lift (fail_if (bool_decide (gs_Name req = "")) (InvalidArgument "subgraph name is required"));
  transact (
    d ← get_state;
    id ← lift (freeSubgraphID (S (size (md_subgraphs d))) (Z.of_nat (size (md_subgraphs d)) + 1) (md_subgraphs d));
    let subgraph := mkSubgraph id (gs_Name req) (gs_Summary req) 1 SubgraphKindGeneral in
    _ ← put_subgraph id (mkSubgraphRecord subgraph (pri_ProjectID principal) "" now now);
    _ ← setGeneralSubgraphMembers principal id (gs_NodeIDs req);
    _ ← appendMutationEvents now principal "context.subgraph.create" "context.subgraph.created" id (PayloadSubgraph subgraph);
    _ ← publish principal "context.subgraph.created" [id];
    mret (cloneSubgraph subgraph)).

(** A general subgraph of the principal's project at the expected revision. *)
Definition curatedSubgraph (principal : Principal) (expected : Z) (subgraphID verb : string) :
    M error memoryData SubgraphRecord :=
  d ← get_state;
  match md_subgraphs d !! subgraphID with
  | None => throw (ctxNotFound "subgraph not found")
  | Some record =>
    _ ← lift (fail_if (bool_decide (sr_ProjectID record <> pri_ProjectID principal)) (ctxNotFound "subgraph not found"));
    _ ← lift (fail_if (bool_decide (csg_Kind (sr_Subgraph record) <> SubgraphKindGeneral))
          (Forbidden ("Context Agent curator cannot " +:+ verb +:+ " task subgraphs")));
    _ ← lift (CheckExpectedRevision (uint64_wrap expected) (uint64_wrap (csg_Revision (sr_Subgraph record))));
    mret record
  end.

Definition UpdateSubgraph (ctx : Context) (principal : Principal) (req : UpdateGeneralSubgraphRequest) (now : Time) :
    M error CtxStore ContextSubgraph :=
  _ ← lift (ctx_Err ctx);
  _ ← lift (requireContextAgent principal ToolContextUpdateSubgraph (pri_ProjectID principal));
  transact (
    record ← curatedSubgraph principal (us_Revision req) (us_SubgraphID req) "update";
    let g := sr_Subgraph record in
    let subgraph := mkSubgraph (csg_ID g) (us_Name req) (us_Summary req) (int_wrap (csg_Revision g + 1)) (csg_Kind g) in
    _ ← put_subgraph (us_SubgraphID req)
          (mkSubgraphRecord subgraph (sr_ProjectID record) (sr_TaskID record) (sr_CreatedAt record) now);
    _ ← setGeneralSubgraphMembers principal (us_SubgraphID req) (us_NodeIDs req);
    _ ← appendMutationEvents now principal "context.subgraph.update" "context.subgraph.updated" (us_SubgraphID req)
          (PayloadSubgraph subgraph);
    _ ← publish principal "context.subgraph.updated" [us_SubgraphID req];
    mret (cloneSubgraph subgraph)).

Definition DeleteSubgraph (ctx : Context) (principal : Principal) (req : DeleteGeneralSubgraphRequest) (now : Time) :
    M error CtxStore unit :=
  _ ← lift (ctx_Err ctx);
  _ ← lift (requireContextAgent principal ToolContextDeleteSubgraph (pri_ProjectID principal));
  transact (
    _ ← curatedSubgraph principal (ds_Revision req) (ds_SubgraphID req) "delete";
    _ ← modify (fun d =>
          md_set_edges (range_delete (fun _ edge => bool_decide (ce_FromRef edge = "subgraph:" +:+ ds_SubgraphID req)) (md_edges d))
            (md_set_nodes (range_update (fun _ node => Some (nr_set_Node
                 (cn_set_SubgraphIDs (removeString (cn_SubgraphIDs (nr_Node node)) (ds_SubgraphID req)) (nr_Node node)) node))
               (md_nodes d))
              (md_set_subgraphs (delete (ds_SubgraphID req) (md_subgraphs d)) d)));
    _ ← appendMutationEvents now principal "context.subgraph.delete" "context.subgraph.deleted" (ds_SubgraphID req)
          (PayloadDeleteSubgraph req);
    publish principal "context.subgraph.deleted" [ds_SubgraphID req]).

End with_runtime.
