(* ===== verification/CtxReads.v ===== *)
(** * The context graph: reads, search and slices

    The reading operations of [internal/contextgraph/store.go], the startup and
    runtime slices of [slice.go] and the project snapshot of [snapshot.go].
    [Search] and [EnsureInitialSlice] also subscribe the reader. *)

From stdpp Require Import base tactics option list strings gmap sorting.
From Stdlib Require Import ZArith Ascii.
From S2P Require Import Prelude GoLib GoStrings Kernel CoordTypes Acyclic GraphSpec Auth CtxModel CtxSubs.

(** ** Visibility *)

Definition visibleNode (principal : Principal) (subgraphs : gmap string SubgraphRecord) (node : ContextNode) : ContextNode :=
  cn_set_SubgraphIDs (filter (fun subgraphID => match subgraphs !! subgraphID with
                                                | Some subgraph => canSeeSubgraph principal subgraph
                                                | None => false
                                                end = true) (cn_SubgraphIDs node)) (cloneNode node).

Definition generalSubgraphOf (projectID : ProjectID) (subgraphs : gmap string SubgraphRecord) (subgraphID : string) : bool :=
  match subgraphs !! subgraphID with
  | Some subgraph => bool_decide (sr_ProjectID subgraph = projectID) &&
                     bool_decide (csg_Kind (sr_Subgraph subgraph) = SubgraphKindGeneral)
  | None => false
  end.

Definition generalVisibleNode (projectID : ProjectID) (subgraphs : gmap string SubgraphRecord) (node : ContextNode) :
    option ContextNode :=
  let ids := filter (fun subgraphID => generalSubgraphOf projectID subgraphs subgraphID = true) (cn_SubgraphIDs node) in
  if bool_decide (cn_SubgraphIDs node <> []) && bool_decide (ids = []) then None
  else Some (cn_set_SubgraphIDs ids (cloneNode node)).

Definition canSeeEdge (d : memoryData) (principal : Principal) (edge : ContextEdge) : bool :=
  match md_nodes d !! ce_ToNodeID edge with
  | None => false
  | Some to =>
    if negb (canSeeNode principal (md_subgraphs d) to) then false
    else if has_prefix "node:" (ce_FromRef edge) then
      match md_nodes d !! TrimPrefix "node:" (ce_FromRef edge) with
      | Some from => canSeeNode principal (md_subgraphs d) from
      | None => false
      end
    else if has_prefix "subgraph:" (ce_FromRef edge) then
      match md_subgraphs d !! TrimPrefix "subgraph:" (ce_FromRef edge) with
      | Some from => canSeeSubgraph principal from
      | None => false
      end
    else false
  end.

Definition badAnchor : error := InvalidArgument "anchor_ref must be node:<id> or subgraph:<id>".

Definition parseAnchorRef (ref : string) : res (string * string) :=
  if bool_decide (ref = "") then Ok ("", "") else
  match Cut ":" ref with
  | None => Err badAnchor
  | Some (kind, id) =>
    if bool_decide (id = "") then Err badAnchor
    else if bool_decide (kind = "node") || bool_decide (kind = "subgraph") then Ok (kind, id)
    else Err badAnchor
  end.

(** ** Search terms *)

Section lower.
Context (ToLower : string -> string).

Definition lowerAll (values : list string) : list string :=
  filter (fun value => value <> "") ((fun value => TrimSpace (ToLower value)) <$> values).

Definition keywordMatch (statement : string) (keywords : list string) : bool :=
  if bool_decide (keywords = []) then true
  else forallb (fun keyword => Contains keyword (ToLower statement)) keywords.
End lower.

(** ** Snapshot data *)

Record ContextSnapshotNode := mkSnapshotNode {
  sn_NodeID : string;
  sn_Kind : string;
  sn_Statement : string;
  sn_Status : string;
  sn_SourceRefs : list string;
  sn_SubgraphIDs : list string;
  sn_UsageCount : Z;
  sn_LastUsedAt : option Time;
}.

Record ContextSnapshotSubgraph := mkSnapshotSubgraph {
  ss_SubgraphID : string;
  ss_Name : string;
  ss_Summary : string;
  ss_Revision : Z;
  ss_Kind : string;
  ss_TaskID : TaskID;
}.

Record ContextGraphSnapshot := mkGraphSnapshot {
  cgs_ProjectID : ProjectID;
  cgs_Revision : Revision;
  cgs_Nodes : list ContextSnapshotNode;
  cgs_Edges : list ContextEdge;
  cgs_Subgraphs : list ContextSnapshotSubgraph;
}.

Record contextNodeUsage := mkUsage {
  cu_Count : Z;
  cu_LastUsedAt : option Time;
}.

Definition snapshotNode (node : ContextNode) (usage : contextNodeUsage) : ContextSnapshotNode :=
  mkSnapshotNode (cn_ID node) (cn_Kind node) (cn_Statement node) (cn_Status node) (cn_SourceRefs node)
    (cn_SubgraphIDs node) (cu_Count usage) (cu_LastUsedAt usage).

Definition snapshotSubgraph (record : SubgraphRecord) : ContextSnapshotSubgraph :=
  let g := sr_Subgraph record in
  mkSnapshotSubgraph (csg_ID g) (csg_Name g) (csg_Summary g) (csg_Revision g) (csg_Kind g) (sr_TaskID record).

Definition snapshotFromRefVisible (fromRef : string) (nodes subgraphs : gset string) : bool :=
  if bool_decide (5 < String.length fromRef) && has_prefix "node:" fromRef then
    bool_decide (string_drop 5 fromRef ∈ nodes)
  else if bool_decide (9 < String.length fromRef) && has_prefix "subgraph:" fromRef then
    bool_decide (string_drop 9 fromRef ∈ subgraphs)
  else false.

Definition cloneContextSlice (slice : ContextSlice) : ContextSlice :=
  mkSlice (cloneNode <$> sl_Nodes slice) (sl_SubscriptionIDs slice) (sl_GraphRevision slice).

Section with_runtime.
Context `{GR : GoRuntime}.

(** ** Listing and exploring *)

Definition ListSubgraphs (ctx : Context) (principal : Principal) (filterKind : string) :
    M error CtxStore (list ContextSubgraph) :=
  _ ← lift (ctx_Err ctx);
  _ ← lift (requireTool principal ToolContextListSubgraphs (pri_ProjectID principal));
  d ← get_data;
  mret (sort_slice (fun a b => string_lt (csg_ID a) (csg_ID b))
    ((fun record => cloneSubgraph (sr_Subgraph record)) <$>
     filter (fun record => (filterKind = "" \/ csg_Kind (sr_Subgraph record) = filterKind) /\
                           canSeeSubgraph principal record = true) (range_values (md_subgraphs d)))).

(** The state of the breadth-first expansion: the nodes added so far, the slice
    and the next frontier. *)
Record expansion := mkExpansion {
  ex_added : gset string;
  ex_nodes : list ContextNode;
  ex_next : gmap string unit;
}.

(** Where an edge leads from the current node, if it touches it at all. *)
Definition edgeOther (currentID : string) (edge : ContextEdge) : option string :=
  if bool_decide (ce_FromRef edge <> "node:" +:+ currentID) && bool_decide (ce_ToNodeID edge <> currentID) then None
  else if bool_decide (ce_ToNodeID edge = currentID) && has_prefix "node:" (ce_FromRef edge)
       then Some (TrimPrefix "node:" (ce_FromRef edge))
       else Some (ce_ToNodeID edge).

Definition expandEdge (d : memoryData) (principal : Principal) (currentID : string) (x : expansion) (edge : ContextEdge) :
    expansion :=
  if negb (canSeeEdge d principal edge) then x else
  match edgeOther currentID edge with
  | None => x
  | Some otherID =>
    match md_nodes d !! otherID with
    | None => x
    | Some other =>
      let id := cn_ID (nr_Node other) in
      if negb (canSeeNode principal (md_subgraphs d) other) then x
      else if bool_decide (id ∈ ex_added x) then x
      else mkExpansion ({[id]} ∪ ex_added x)
             (ex_nodes x ++ [visibleNode principal (md_subgraphs d) (nr_Node other)]) (<[id := tt]> (ex_next x))
    end
  end.

Definition expandLevel (d : memoryData) (principal : Principal) (added : gset string) (nodes : list ContextNode)
    (frontier : gmap string unit) : expansion :=
  foldl (fun x currentID => foldl (expandEdge d principal currentID) x (sortedEdgesLocked d))
    (mkExpansion added nodes ∅) (range_keys frontier).

Fixpoint expandLevels (d : memoryData) (principal : Principal) (depth : nat) (added : gset string)
    (nodes : list ContextNode) (frontier : gmap string unit) : list ContextNode * gmap string unit :=
  match depth with
  | 0 => (nodes, frontier)
  | S depth => let x := expandLevel d principal added nodes frontier in
               expandLevels d principal depth (ex_added x) (ex_nodes x) (ex_next x)
  end.

Definition expandNodeLocked (d : memoryData) (principal : Principal) (anchorID : string) (depth : Z)
    (added : gset string) (nodes : list ContextNode) : list ContextNode * list string :=
  let '(nodes, frontier) := expandLevels d principal (Z.to_nat depth) added nodes {[anchorID := tt]} in
  (nodes, sort_slice string_lt ((fun nodeID => "node:" +:+ nodeID) <$> range_keys frontier)).

Definition exploreSubgraph (d : memoryData) (principal : Principal) (anchorID : string) : list ContextNode * list string :=
  let members := filter (fun record => contains (cn_SubgraphIDs (nr_Node record)) anchorID = true /\
                           canSeeNode principal (md_subgraphs d) record = true) (sortedNodesLocked d) in
  let fresh := foldl (fun acc record =>
                 if bool_decide (cn_ID (nr_Node record) ∈ (fun r => cn_ID (nr_Node r)) <$> acc) then acc
                 else acc ++ [record]) [] members in
  ((fun record => visibleNode principal (md_subgraphs d) (nr_Node record)) <$> fresh,
   (fun record => "node:" +:+ cn_ID (nr_Node record)) <$> fresh).

Definition Explore (ctx : Context) (principal : Principal) (req : ExploreRequest) : M error CtxStore ContextSliceDelta :=
  _ ← lift (ctx_Err ctx);
  _ ← lift (requireTool principal ToolContextExplore (pri_ProjectID principal));
  let depth := if (er_Depth req <=? 0)%Z then 1%Z else er_Depth req in
  d ← get_data;
  let revision := int_wrap (md_graphRevision d) in
  anchor ← lift (parseAnchorRef (er_AnchorRef req));
  let '(anchorKind, anchorID) := anchor in
  if bool_decide (er_AnchorRef req = "") then mret (mkSliceDelta [] [] revision)
  else if bool_decide (anchorKind = "subgraph") then
    match md_subgraphs d !! anchorID with
    | None => throw (ctxNotFound "subgraph not found")
    | Some record =>
      if negb (canSeeSubgraph principal record) then throw (ctxNotFound "subgraph not found")
      else let '(nodes, frontier) := exploreSubgraph d principal anchorID in mret (mkSliceDelta nodes frontier revision)
    end
  else
    match md_nodes d !! anchorID with
    | None => throw (ctxNotFound "node not found")
    | Some record =>
      if negb (canSeeNode principal (md_subgraphs d) record) then throw (ctxNotFound "node not found")
      else let '(nodes, frontier) := expandNodeLocked d principal anchorID depth {[cn_ID (nr_Node record)]}
                                       [visibleNode principal (md_subgraphs d) (nr_Node record)] in
           mret (mkSliceDelta nodes frontier revision)
    end.

Definition GetSubgraph (ctx : Context) (principal : Principal) (subgraphID : string) : M error CtxStore ContextSubgraph :=
  _ ← lift (ctx_Err ctx);
  _ ← lift (requireContextAgent principal ToolContextGetSubgraph (pri_ProjectID principal));
  d ← get_data;
  match md_subgraphs d !! subgraphID with
  | None => throw (ctxNotFound "subgraph not found")
  | Some record => if canSeeSubgraph principal record then mret (cloneSubgraph (sr_Subgraph record))
                   else throw (ctxNotFound "subgraph not found")
  end.

Definition GetNode (ctx : Context) (principal : Principal) (nodeID : string) : M error CtxStore ContextNode :=
  _ ← lift (ctx_Err ctx);
  _ ← lift (requireContextAgent principal ToolContextGetNode (pri_ProjectID principal));
  d ← get_data;
  match md_nodes d !! nodeID with
  | None => throw (ctxNotFound "node not found")
  | Some record => if canSeeNode principal (md_subgraphs d) record
                   then mret (visibleNode principal (md_subgraphs d) (nr_Node record))
                   else throw (ctxNotFound "node not found")
  end.

(** ** Search *)

Definition visibleScopeLocked (d : memoryData) (principal : Principal) (scopeRefs : list string) : res (list string) :=
  foldM (fun scope ref =>
    let subgraphID := TrimPrefix "subgraph:" ref in
    if generalSubgraphOf (pri_ProjectID principal) (md_subgraphs d) subgraphID then Ok (scope ++ [subgraphID])
    else Err (ctxNotFound "scope not found")) [] (uniqueStrings scopeRefs).

Definition visibleAnchorNodesLocked (d : memoryData) (principal : Principal) (anchorRefs : list string) : res (gset string) :=
  foldM (fun nodes ref =>
    anchor ← parseAnchorRef ref;
    let '(kind, id) := anchor in
    if bool_decide (kind = "node") then
      match md_nodes d !! id with
      | None => Err (ctxNotFound "anchor not found")
      | Some record => match generalVisibleNode (pri_ProjectID principal) (md_subgraphs d) (nr_Node record) with
                       | None => Err (ctxNotFound "anchor not found")
                       | Some _ => Ok ({[id]} ∪ nodes)
                       end
      end
    else
      if generalSubgraphOf (pri_ProjectID principal) (md_subgraphs d) id then
        Ok (foldl (fun nodes record => {[cn_ID (nr_Node record)]} ∪ nodes) nodes
              (filter (fun record => contains (cn_SubgraphIDs (nr_Node record)) id = true) (sortedNodesLocked d)))
      else Err (ctxNotFound "anchor not found")) ∅ (uniqueStrings anchorRefs).

Section search.
Context (ToLower : string -> string).

(** What a node record contributes to a search. *)
Definition searchHit (d : memoryData) (principal : Principal) (scope keywords : list string) (anchored : gset string)
    (record : NodeRecord) : option ContextNode :=
  match generalVisibleNode (pri_ProjectID principal) (md_subgraphs d) (nr_Node record) with
  | None => None
  | Some node =>
    if bool_decide (scope <> []) && negb (intersects (cn_SubgraphIDs node) scope) then None
    else if bool_decide (anchored <> ∅) && negb (bool_decide (cn_ID (nr_Node record) ∈ anchored)) then None
    else if keywordMatch ToLower (cn_Statement node) keywords then Some node
    else None
  end.

Definition Search (ctx : Context) (principal : Principal) (req : SearchRequest) (now : Time) :
    M error CtxStore ContextSearchResult :=
  _ ← lift (ctx_Err ctx);
  _ ← lift (fail_if (bool_decide (pri_Role principal <> RoleContext))
        (Forbidden "search is exposed only to Context Agent"));
  _ ← lift (requireTool principal ToolContextSearch (pri_ProjectID principal));
  let keywords := lowerAll ToLower (sq_Keywords req) in
  d ← get_data;
  scope ← lift (visibleScopeLocked d principal (sq_Scope req));
  anchored ← lift (visibleAnchorNodesLocked d principal (sq_AnchorRefs req));
  let nodes := omap (searchHit d principal scope keywords anchored) (sortedNodesLocked d) in
  let subgraphIDs := sortedStringSet (stringSet (nodes ≫= cn_SubgraphIDs)) in
  subscriptionIDs ← (if bool_decide (subgraphIDs = []) then mret []
                     else sub ← in_place (createSubscription now principal (mkSubscribe subgraphIDs []) subscriptionSourceSearch);
                          mret [sub_ID sub]);
  mret (mkSearchResult (mkSliceDelta nodes [] (int_wrap (md_graphRevision d))) keywords subscriptionIDs).

End search.

(** ** Slices *)

(** The active subscriptions of an invocation. *)
Definition active_for (projectID : ProjectID) (invocationID : InvocationID) (record : ContextSubscriptionRecord) : bool :=
  consumed_by projectID invocationID record && csr_Active record.

Definition effectiveSubgraphsLocked (d : memoryData) (principal : Principal) (invocationID : InvocationID) : list string :=
  sortedStringSet (stringSet (
    filter (fun record => active_for (pri_ProjectID principal) invocationID record = true) (range_values (md_subscriptions d))
    ≫= fun record => filter (fun subgraphID => match md_subgraphs d !! subgraphID with
                                               | Some subgraph => canSeeSubgraph principal subgraph
                                               | None => false
                                               end = true) (sub_SubgraphIDs (csr_Subscription record)))).

Definition activeSubscriptionIDsLocked (d : memoryData) (projectID : ProjectID) (invocationID : InvocationID) : list string :=
  sort_slice string_lt (filter (fun kv : string * ContextSubscriptionRecord => active_for projectID invocationID kv.2 = true)
                          (range_map (md_subscriptions d))).*1.

Definition materializeNode (d : memoryData) (principal : Principal) (effective : list string) (record : NodeRecord) :
    option ContextNode :=
  if negb (canSeeNode principal (md_subgraphs d) record) || negb (intersects (cn_SubgraphIDs (nr_Node record)) effective)
  then None
  else Some (cn_set_SubgraphIDs (filter (fun subgraphID => subgraphID ∈ effective) (cn_SubgraphIDs (nr_Node record)))
               (visibleNode principal (md_subgraphs d) (nr_Node record))).

(** The loop keeps the first node of every id. *)
Definition materializeStep (d : memoryData) (principal : Principal) (effective : list string)
    (acc : list ContextNode) (record : NodeRecord) : list ContextNode :=
  if bool_decide (cn_ID (nr_Node record) ∈ cn_ID <$> acc) then acc
  else match materializeNode d principal effective record with
       | Some node => acc ++ [node]
       | None => acc
       end.

Definition materializeInvocationSliceLocked (d : memoryData) (principal : Principal) (invocationID : InvocationID) : ContextSlice :=
  mkSlice (foldl (materializeStep d principal (effectiveSubgraphsLocked d principal invocationID)) [] (sortedNodesLocked d))
    (activeSubscriptionIDsLocked d (pri_ProjectID principal) invocationID) (int_wrap (md_graphRevision d)).

Definition EnsureInitialSlice (ctx : Context) (principal : Principal) (subgraphIDs : list string) (now : Time) :
    M error CtxStore ContextSlice :=
  _ ← lift (ctx_Err ctx);
  _ ← lift (requireTool principal ToolContextSubscribe (pri_ProjectID principal));
  s ← get_state;
  let key := (pri_ProjectID principal, consumerInvocationID principal) in
  match cs_initialSlices s !! key with
  | Some initial => mret (cloneContextSlice initial)
  | None =>
    let existing := list_find (fun record => active_for (pri_ProjectID principal) (consumerInvocationID principal) record = true /\
                                 csr_Source record = subscriptionSourceInitial) (range_values (md_subscriptions (cs_data s))) in
    let found := match existing with Some (_, record) => sub_ID (csr_Subscription record) | None => "" end in
    id ← (if bool_decide (found = "") then
            sub ← in_place (createSubscription now principal (mkSubscribe subgraphIDs []) subscriptionSourceInitial);
            mret (sub_ID sub)
          else mret found);
    d ← get_data;
    let slice := materializeInvocationSliceLocked d principal (consumerInvocationID principal) in
    let slice := mkSlice (sl_Nodes slice) [id] (sl_GraphRevision slice) in
    _ ← modify (fun s => cs_set_initialSlices (<[key := cloneContextSlice slice]> (cs_initialSlices s)) s);
    mret (cloneContextSlice slice)
  end.

Definition CreateInitialSlice (ctx : Context) (principal : Principal) (subgraphIDs : list string) (now : Time) :
    M error CtxStore ContextSlice :=
  EnsureInitialSlice ctx principal subgraphIDs now.

Definition authorizeInitialSliceInspection (principal : Principal) (invocationID : InvocationID) : res InvocationID :=
  authorizeInspection "initial slice inspection" "initial slice inspection" principal invocationID.

Definition InspectInitialSlice (ctx : Context) (principal : Principal) (invocationID : InvocationID) :
    M error CtxStore ContextSlice :=
  _ ← lift (ctx_Err ctx);
  invocationID ← lift (authorizeInitialSliceInspection principal invocationID);
  s ← get_state;
  match cs_initialSlices s !! (pri_ProjectID principal, invocationID) with
  | None => throw (ctxNotFound "initial context slice not found")
  | Some initial => mret (cloneContextSlice initial)
  end.

Definition EffectiveSubgraphs (ctx : Context) (principal : Principal) : M error CtxStore (list string) :=
  _ ← lift (ctx_Err ctx);
  _ ← lift (fail_if (bool_decide (consumerInvocationID principal = "")) (InvalidArgument "consumer invocation is required"));
  d ← get_data;
  mret (effectiveSubgraphsLocked d principal (consumerInvocationID principal)).

Definition MaterializeRuntimeContext (ctx : Context) (principal : Principal) : M error CtxStore ContextSlice :=
  _ ← lift (ctx_Err ctx);
  _ ← lift (fail_if (bool_decide (consumerInvocationID principal = "")) (InvalidArgument "consumer invocation is required"));
  d ← get_data;
  mret (materializeInvocationSliceLocked d principal (consumerInvocationID principal)).

(** ** The project snapshot *)

Definition countUsage (now : Time) (usage : gmap string contextNodeUsage) (nodeID : string) : gmap string contextNodeUsage :=
  let item := default (mkUsage 0 None) (usage !! nodeID) in
  <[nodeID := mkUsage (int_wrap (cu_Count item + 1)) (Some now)]> usage.

Definition sliceUsage (projectID : ProjectID) (now : Time) (usage : gmap string contextNodeUsage)
    (kv : invocationScopeKey * ContextSlice) : gmap string contextNodeUsage :=
  if bool_decide (kv.1.1 <> projectID) then usage
  else foldl (countUsage now) usage
         (range_keys (stringSet (filter (fun id => id <> "") (cn_ID <$> sl_Nodes kv.2)))).

Definition ProjectContextSnapshot (ctx : Context) (projectID : ProjectID) (now : Time) : M error CtxStore ContextGraphSnapshot :=
  _ ← lift (ctx_Err ctx);
  _ ← lift (RequireID "project_id" projectID);
  s ← get_state;
  let d := cs_data s in
  let usage := foldl (sliceUsage projectID now) ∅ (range_map (cs_initialSlices s)) in
  let records := filter (fun record => nr_ProjectID record = projectID) (sortedNodesLocked d) in
  let nodes := (fun record => snapshotNode (nr_Node record)
                  (default (mkUsage 0 None) (usage !! cn_ID (nr_Node record)))) <$> records in
  let visibleNodes := list_to_set (sn_NodeID <$> nodes) in
  let subgraphRecords := filter (fun record => sr_ProjectID record = projectID) (range_values (md_subgraphs d)) in
  let visibleSubgraphs := list_to_set ((fun record => csg_ID (sr_Subgraph record)) <$> subgraphRecords) in
  let subgraphs := sort_slice (fun a b => string_lt (ss_SubgraphID a) (ss_SubgraphID b)) (snapshotSubgraph <$> subgraphRecords) in
  let edges := filter (fun edge => ce_ToNodeID edge ∈ (visibleNodes : gset string) /\
                         snapshotFromRefVisible (ce_FromRef edge) visibleNodes visibleSubgraphs = true) (sortedEdgesLocked d) in
  mret (mkGraphSnapshot projectID (md_graphRevision d) nodes edges subgraphs).

End with_runtime.
