(* ===== verification/CtxTasks.v ===== *)
(** * The context graph: task memory

    [internal/contextgraph/task_binding.go], [projection.go], [memory_buffer.go]
    and [review.go].  The two patterns of [memory_buffer.go] are regular
    expressions over bytes, matched by the small matcher below. *)

From stdpp Require Import base tactics option list strings gmap sorting.
From Stdlib Require Import ZArith Ascii.
From S2P Require Import Prelude GoLib GoStrings Kernel CoordTypes Acyclic GraphSpec Auth CtxModel CtxSubs CtxCurate.
From S2P Require Import CtxReads.

(** ** Regular expressions

    The fragment of [regexp] the patterns use.  [ends r s i] are the positions
    at which a match of [r] starting at [i] may end. *)

Inductive regex :=
| Lit (s : string)
| Class (p : ascii -> bool)
| Seq (a b : regex)
| Alt (a b : regex)
| Plus (a : regex)
| Opt (a : regex)
| WordBoundary.

Definition in_range (lo hi : N) (c : ascii) : bool := let n := N_of_ascii c in ((lo <=? n) && (n <=? hi))%N.
Definition is_word (c : ascii) : bool :=
  in_range 48 57 c || in_range 65 90 c || in_range 97 122 c || Ascii.eqb c "_".
Definition word_at (s : list ascii) (i : nat) : bool := match s !! i with Some c => is_word c | None => false end.
Definition at_boundary (s : list ascii) (i : nat) : bool :=
  xorb (match i with 0 => false | S j => word_at s j end) (word_at s i).

Fixpoint lit_end (l s : list ascii) (i : nat) : list nat :=
  match l with
  | [] => [i]
  | c :: l' => match s !! i with
               | Some c' => if Ascii.eqb c c' then lit_end l' s (S i) else []
               | None => []
               end
  end.

Fixpoint ends (r : regex) (s : list ascii) (i : nat) : list nat :=
  match r with
  | Lit l => lit_end (String.list_ascii_of_string l) s i
  | Class p => match s !! i with Some c => if p c then [S i] else [] | None => [] end
  | Seq a b => ends a s i ≫= ends b s
  | Alt a b => ends a s i ++ ends b s i
  | Plus a => (fix go (n : nat) (i : nat) : list nat :=
                 ends a s i ≫= fun j => j :: match n with 0 => [] | S n' => go n' j end) (length s) i
  | Opt a => i :: ends a s i
  | WordBoundary => if at_boundary s i then [i] else []
  end.

(** [Regexp.MatchString]: a match may start anywhere. *)
Definition MatchString (r : regex) (s : string) : bool :=
  let l := String.list_ascii_of_string s in
  existsb (fun i => match ends r l i with [] => false | _ => true end) (seq 0 (S (length l))).

(** A letter under [(?i)]: both cases, and the two letters outside ASCII that
    fold to [s] and [k]. *)
Definition fold_letter (c : ascii) : regex :=
  let n := N_of_ascii c in
  let both := Class (fun x => Ascii.eqb x c || Ascii.eqb x (ascii_of_N (n - 32))) in
  if Ascii.eqb c "s" then Alt both (Lit (String "197" (String "191" EmptyString)))
  else if Ascii.eqb c "k" then Alt both (Lit (String "226" (String "132" (String "170" EmptyString))))
  else both.

Fixpoint fold_lit (s : string) : regex :=
  match s with
  | EmptyString => Lit ""
  | String c s' => Seq (if in_range 97 122 c then fold_letter c else Lit (String c EmptyString)) (fold_lit s')
  end.

(** [[a-z0-9]] and [[a-z0-9._:-]] under [(?i)], with extra characters. *)
Definition folded_class (extra : string) : regex :=
  Alt (Class (fun c => in_range 97 122 c || in_range 65 90 c || in_range 48 57 c ||
                       Contains (String c EmptyString) extra))
    (Alt (Lit (String "197" (String "191" EmptyString))) (Lit (String "226" (String "132" (String "170" EmptyString))))).

Definition space_class : regex := Class (fun c => Contains (String c EmptyString) (String "009" (String "010" (String "012" (String "013" " "))))).
Definition alts (l : list regex) : regex := foldr Alt (Class (fun _ => false)) l.
Definition seqs (l : list regex) : regex := foldr Seq (Lit "") l.

Definition obviousRecoverableMemoryPattern : regex := alts [
  seqs [WordBoundary; fold_lit "inv_"; Plus (folded_class ""); WordBoundary];
  seqs [WordBoundary; alts [fold_lit "tm"; fold_lit "context"]; fold_lit "-invocation:"; Plus (folded_class ""); WordBoundary];
  seqs [WordBoundary; fold_lit "subscription"; Opt (fold_lit "_id"); Opt (Plus space_class);
        Class (fun c => Ascii.eqb c ":" || Ascii.eqb c "="); Opt (Plus space_class); Plus (folded_class "._:-")];
  seqs [WordBoundary; fold_lit "sub-"; Plus (folded_class "._:-")];
  seqs [WordBoundary; fold_lit "task-contract:"; Plus (folded_class "._:-")];
  seqs [WordBoundary; fold_lit "phase-spec:"; Plus (folded_class "._:-")];
  seqs [WordBoundary; fold_lit "binding"; Opt (fold_lit "_ref"); Opt (Plus space_class);
        Class (fun c => Ascii.eqb c ":" || Ascii.eqb c "="); Opt (Plus space_class); Plus (folded_class "._:-")];
  seqs [WordBoundary; fold_lit "threadmill-"; Plus (folded_class "._-"); fold_lit "-task-";
        Plus (Class (in_range 48 57)); WordBoundary]].

Definition obviousEphemeralMemoryPattern : regex := alts [
  seqs [WordBoundary; fold_lit "current"; Opt (fold_lit "ly"); Plus space_class;
        alts [fold_lit "queue"; fold_lit "queued"; fold_lit "waiting"; fold_lit "running"]; WordBoundary];
  seqs [Lit "当前"; alts [Lit "队列"; Lit "排队"; Lit "等待"; Lit "运行状态"]];
  seqs [Lit "目前"; alts [Lit "排队"; Lit "等待"; Lit "运行"]]].

(** ** Task subgraphs *)

Definition resolver_of (s : CtxStore) : res TaskEndpointResolver :=
  match cs_taskResolver s with
  | Some r => Ok r
  | None => Err (InvalidArgument "task endpoint resolver is required")
  end.

(** [if taskID == "" { taskID = principal.TaskID }]. *)
Definition taskOrOwn (principal : Principal) (taskID : TaskID) : TaskID :=
  if bool_decide (taskID = "") then pri_TaskID principal else taskID.

Definition RegisterTaskSubgraph (ctx : Context) (principal : Principal) (taskID : TaskID) (now : Time) :
    M error CtxStore TaskContextSubgraphBinding :=
  _ ← lift (ctx_Err ctx);
  _ ← lift (requireTool principal ToolContextRegisterTaskSubgraph (pri_ProjectID principal));
  let taskID := taskOrOwn principal taskID in
  _ ← lift (fail_if (bool_decide (taskID = "")) (InvalidArgument "task_id is required"));
  s ← get_state;
  resolver ← lift (resolver_of s);
  exists_ ← lift (te_TaskExists resolver (pri_ProjectID principal) taskID);
  _ ← lift (fail_if (negb exists_) (ctxNotFound "task not found"));
  let d := cs_data s in
  let key := scopedTask (pri_ProjectID principal) taskID in
  match md_taskBindings d !! key with
  | Some binding => mret binding
  | None =>
    let subgraphID := pri_ProjectID principal +:+ "-" +:+ taskID +:+ "-context" in
    _ ← lift (fail_if (bool_decide (is_Some (md_subgraphs d !! subgraphID)))
          (InvalidGraph "task context subgraph id already exists"));
    let binding := mkTaskBinding taskID subgraphID in
    _ ← in_place (modify (fun d =>
          md_set_audit (md_audit d ++ [auditEvent d principal "context.task_subgraph.register" subgraphID now])
            (md_set_graphRevision (Revision_Next (md_graphRevision d))
              (md_set_subgraphs (<[subgraphID := mkSubgraphRecord (mkSubgraph subgraphID taskID "task context" 1 SubgraphKindTask)
                                                   (pri_ProjectID principal) taskID now now]> (md_subgraphs d))
                (md_set_taskBindings (<[key := binding]> (md_taskBindings d)) d)))));
    mret binding
  end.

(** ** Projections *)

Definition validateTaskProjectionShape (projection : TaskContextProjection) : res unit :=
  _ ← fail_if (bool_decide (tp_ProjectionID projection = "") || bool_decide (tp_SourceRevision projection = "") ||
               bool_decide (tp_Statement projection = ""))
      (InvalidArgument "projection_id, source_revision, and statement are required");
  _ ← validateNodeKind (tp_Kind projection);
  fail_if (bool_decide (tp_SourceRefs projection = []) || bool_decide (tp_SubgraphIDs projection = []) ||
           bool_decide (tp_Recipients projection = []))
    (InvalidArgument "source_refs, subgraph_ids, and recipients are required").

Definition firstSourceRevision (sourceRefs : list string) : string :=
  match list_find (fun ref => 20 < String.length ref /\ has_prefix "projection-revision:" ref = true) sourceRefs with
  | Some (_, ref) => string_drop 20 ref
  | None => ""
  end.

(** The sign of [next] against [current]; [None] when one of them is no integer. *)
Definition compareSourceRevision (next current : string) : option Z :=
  nextInt ← ParseInt next;
  currentInt ← ParseInt current;
  Some (if (currentInt <? nextInt)%Z then 1%Z else if (nextInt <? currentInt)%Z then (-1)%Z else 0%Z).

Definition cloneRecipients (recipients : list TaskContextRecipient) : list TaskContextRecipient := recipients.

Section with_runtime.
Context `{GR : GoRuntime}.

Definition validateRecipient (principal : Principal) (resolver : TaskEndpointResolver) (d : memoryData)
    (subgraphSet : gset string) (seen : gset string) (recipient : TaskContextRecipient) : res (gset string) :=
  _ ← fail_if (bool_decide (tr_TaskID recipient = "")) (InvalidArgument "recipient task_id is required");
  let taskID := tr_TaskID recipient in
  taskExists ← te_TaskExists resolver (pri_ProjectID principal) taskID;
  _ ← fail_if (negb taskExists) (ctxNotFound "task not found");
  match md_taskBindings d !! scopedTask (pri_ProjectID principal) taskID with
  | None => Err (ctxNotFound "task binding not found")
  | Some binding =>
    _ ← fail_if (bool_decide (tb_SubgraphID binding ∉ subgraphSet))
        (Forbidden "recipient task binding must be included in subgraph_ids");
    _ ← each (fun endpoint =>
          _ ← fail_if (bool_decide (per_TaskID endpoint <> taskID) || bool_decide (per_EndpointID endpoint = ""))
              (Forbidden "recipient endpoint_ref must belong to recipient task");
          endpointExists ← te_EndpointExists resolver (pri_ProjectID principal) endpoint;
          fail_if (negb endpointExists) (ctxNotFound "endpoint not found")) (tr_EndpointRefs recipient);
    Ok ({[tb_SubgraphID binding]} ∪ seen)
  end.

Definition validateProjectionBindings (principal : Principal) (resolver : option TaskEndpointResolver) (d : memoryData)
    (projection : TaskContextProjection) : res unit :=
  match resolver with
  | None => Err (InvalidArgument "task endpoint resolver is required")
  | Some resolver =>
    let ids := uniqueStrings (tp_SubgraphIDs projection) in
    _ ← each (fun subgraphID =>
          match md_subgraphs d !! subgraphID with
          | None => Err (ctxNotFound "task subgraph not found")
          | Some record => fail_if (bool_decide (sr_ProjectID record <> pri_ProjectID principal) ||
                                    bool_decide (csg_Kind (sr_Subgraph record) <> SubgraphKindTask))
                             (ctxNotFound "task subgraph not found")
          end) ids;
    let subgraphSet : gset string := list_to_set ids in
    recipientTaskSet ← foldM (validateRecipient principal resolver d subgraphSet) ∅ (tp_Recipients projection);
    fail_if (bool_decide (size recipientTaskSet <> size subgraphSet))
      (Forbidden "subgraph_ids must match recipient task bindings")
  end.

Definition projectionSourceRefs (projection : TaskContextProjection) : list string :=
  uniqueStrings (("projection-revision:" +:+ tp_SourceRevision projection) :: tp_SourceRefs projection).

Definition put_recipients (nodeID : string) (recipients : list TaskContextRecipient) : M error memoryData unit :=
  modify (fun d => md_set_recipients (<[nodeID := cloneRecipients recipients]> (md_recipients d)) d).

(** The node a later revision of a projection rewrites. *)
Definition updateProjection (principal : Principal) (projection : TaskContextProjection) (now : Time)
    (existingNodeID : string) : M error memoryData string :=
  d ← get_state;
  let record := default zeroNodeRecord (md_nodes d !! existingNodeID) in
  _ ← lift (fail_if (bool_decide (nr_ProjectID record <> pri_ProjectID principal)) (ctxNotFound "projection not found"));
  match compareSourceRevision (tp_SourceRevision projection) (firstSourceRevision (cn_SourceRefs (nr_Node record))) with
  | None => throw (kerr CodeRevisionConflict "projection source_revision is stale or not comparable" false)
  | Some cmp =>
    _ ← lift (fail_if (cmp <? 0)%Z
          (kerr CodeRevisionConflict "projection source_revision is stale or not comparable" false));
    if bool_decide (cmp = 0%Z) then mret existingNodeID
    else
      let old := nr_Node record in
      let node := mkNode (cn_ID old) (tp_Kind projection) (tp_Statement projection) NodeStatusAccepted
                    (uniqueStrings (tp_SubgraphIDs projection)) (projectionSourceRefs projection) (cn_CreatorAgentID old) in
      _ ← put_node existingNodeID (nr_revise node record);
      _ ← put_recipients existingNodeID (tp_Recipients projection);
      _ ← touch_all now (changedSubgraphMemberships (cn_SubgraphIDs old) (cn_SubgraphIDs node));
      _ ← appendMutationEvents now principal "context.task_projection.update" "context.task_projection.updated"
            existingNodeID (PayloadNode node);
      _ ← publish principal "context.task_projection.updated" (unionStringSlices (cn_SubgraphIDs old) (cn_SubgraphIDs node));
      mret existingNodeID
  end.

Definition createProjection (principal : Principal) (projection : TaskContextProjection) (now : Time) : M error memoryData string :=
  seq ← bump_seq;
  let nodeID := numbered "task-node-" seq in
  let node := normalizeNode (mkNode nodeID (tp_Kind projection) (tp_Statement projection) NodeStatusAccepted
                (tp_SubgraphIDs projection) (projectionSourceRefs projection) (pri_ActorPrincipalID principal)) in
  _ ← put_node nodeID (mkNodeRecord node 1 (pri_ProjectID principal) now seq);
  _ ← modify (fun d => md_set_projections
        (<[scopedProjection (pri_ProjectID principal) (tp_ProjectionID projection) := nodeID]> (md_projections d)) d);
  _ ← put_recipients nodeID (tp_Recipients projection);
  _ ← touch_all now (cn_SubgraphIDs node);
  _ ← appendMutationEvents now principal "context.task_projection.create" "context.task_projection.created" nodeID (PayloadNode node);
  _ ← publish principal "context.task_projection.created" (cn_SubgraphIDs node);
  mret nodeID.

Definition ProjectTaskContext (ctx : Context) (principal : Principal) (projection : TaskContextProjection) (now : Time) :
    M error CtxStore string :=
  _ ← lift (ctx_Err ctx);
  _ ← lift (requireTool principal ToolContextProjectTaskContext (pri_ProjectID principal));
  _ ← lift (validateTaskProjectionShape projection);
  s ← get_state;
  transact (
    d ← get_state;
    _ ← lift (validateProjectionBindings principal (cs_taskResolver s) d projection);
    match md_projections d !! scopedProjection (pri_ProjectID principal) (tp_ProjectionID projection) with
    | Some existingNodeID => updateProjection principal projection now existingNodeID
    | None => createProjection principal projection now
    end).

(** ** The candidate buffer *)

Definition candidateView (records : list CandidateBufferRecord) : list TaskMemoryCandidateView :=
  (fun record => mkCandidateView (cbr_CandidateID record) (cbr_Candidate record)) <$> records.

Definition buffered (d : memoryData) (key : taskScopeKey) : list CandidateBufferRecord := default [] (md_candidates d !! key).
Definition memoryState (d : memoryData) (key : taskScopeKey) : string := default "" (md_taskMemory d !! key).

Definition ListTaskCandidates (ctx : Context) (principal : Principal) : M error CtxStore (list TaskMemoryCandidateView) :=
  _ ← lift (ctx_Err ctx);
  _ ← lift (requireTool principal ToolAgentListTaskMemoryCandidates (pri_ProjectID principal));
  _ ← lift (fail_if (bool_decide (pri_TaskID principal = "")) (InvalidArgument "task_id is required"));
  d ← get_data;
  mret (candidateView (buffered d (scopedTask (pri_ProjectID principal) (pri_TaskID principal)))).

Definition validateMemoryCandidate (candidate : MemoryCandidate) : res unit :=
  let statement := TrimSpace (mem_Statement candidate) in
  _ ← fail_if (bool_decide (statement = "")) (InvalidArgument "candidate statement is required");
  _ ← fail_if (MatchString obviousRecoverableMemoryPattern statement || MatchString obviousEphemeralMemoryPattern statement)
      (InvalidArgument "candidate statement copies a runtime identifier, authoritative binding pointer, or ephemeral execution state");
  _ ← validateNodeKind (mem_Kind candidate);
  _ ← fail_if (bool_decide (mem_SourceRefs candidate = [])) (InvalidArgument "candidate source_refs are required");
  each (fun sourceRef => fail_if (bool_decide (TrimSpace sourceRef = "node:"))
          (InvalidArgument "candidate node source ref requires a node id")) (mem_SourceRefs candidate).

Definition candidateNodeRefs (sourceRefs : list string) : list string :=
  TrimPrefix "node:" <$> filter (fun ref => has_prefix "node:" ref = true) (uniqueStrings sourceRefs).

Definition validateCandidateNodeRefsLocked (d : memoryData) (principal : Principal) (sourceRefs : list string) : res unit :=
  let nodeRefs := candidateNodeRefs sourceRefs in
  if bool_decide (nodeRefs = []) then Ok tt else
  let visible : gset string :=
    list_to_set (cn_ID <$> sl_Nodes (materializeInvocationSliceLocked d principal (consumerInvocationID principal))) in
  let unavailable := ctxNotFound "candidate node_ref is not available in the current context" in
  each (fun nodeID =>
    match md_nodes d !! nodeID with
    | None => Err unavailable
    | Some record =>
      match generalVisibleNode (pri_ProjectID principal) (md_subgraphs d) (nr_Node record) with
      | None => Err unavailable
      | Some _ => fail_if (bool_decide (nodeID ∉ visible)) unavailable
      end
    end) (uniqueStrings nodeRefs).

Definition SubmitCandidate (ctx : Context) (principal : Principal) (candidate : MemoryCandidate) (now : Time) :
    M error CtxStore TaskMemoryCandidateView :=
  _ ← lift (ctx_Err ctx);
  _ ← lift (requireTool principal ToolAgentSubmitMemoryCandidate (pri_ProjectID principal));
  _ ← lift (fail_if (bool_decide (pri_TaskID principal = "")) (InvalidArgument "task_id is required"));
  _ ← lift (validateMemoryCandidate candidate);
  d ← get_data;
  let key := scopedTask (pri_ProjectID principal) (pri_TaskID principal) in
  _ ← lift (fail_if (bool_decide (memoryState d key = TaskMemoryFrozenUnreviewed) ||
                     bool_decide (memoryState d key = TaskMemoryReviewed))
        (TransitionRejected "task memory is frozen"));
  _ ← lift (validateCandidateNodeRefsLocked d principal (mem_SourceRefs candidate));
  _ ← lift (rejectTaskMembership (md_subgraphs d) (mem_SubgraphIDs candidate));
  let id := "candidate-" +:+ pri_ProjectID principal +:+ "-" +:+ pri_TaskID principal +:+ "-" +:+
              format_int (Z.of_nat (length (buffered d key)) + 1) in
  let record := mkBufferRecord id (pri_TaskID principal) candidate (mkCreation (pri_ActorPrincipalID principal) "" [])
                  (pri_InvocationID principal) now in
  _ ← in_place (modify (fun d => md_set_candidates (<[key := buffered d key ++ [record]]> (md_candidates d)) d));
  mret (mkCandidateView id candidate).

(** ** Review *)

Definition FinalizeTaskMemory (ctx : Context) (principal : Principal) (taskID : TaskID) (now : Time) :
    M error CtxStore FrozenCandidateBatch :=
  _ ← lift (ctx_Err ctx);
  _ ← lift (requireTool principal ToolContextFinalizeTaskMemory (pri_ProjectID principal));
  let taskID := taskOrOwn principal taskID in
  _ ← lift (fail_if (bool_decide (taskID = "")) (InvalidArgument "task_id is required"));
  s ← get_state;
  resolver ← lift (resolver_of s);
  done ← lift (te_TaskDone resolver (pri_ProjectID principal) taskID);
  let key := scopedTask (pri_ProjectID principal) taskID in
  if negb done then
    _ ← in_place (modify (fun d => md_set_audit
          (md_audit d ++ [auditEvent d principal "context.task_memory.finalize_rejected" taskID now]) d));
    throw (TransitionRejected "task memory can only be finalized after done")
  else
    let d := cs_data s in
    let state := memoryState d key in
    if bool_decide (state = TaskMemoryReviewed) then
      mret (mkBatch (match md_reviewReceipts d !! key with Some r => rr_TaskID r | None => "" end)
              (candidateView (buffered d key)))
    else
      _ ← (if bool_decide (state = "") || bool_decide (state = TaskMemoryOpen)
           then in_place (modify (fun d => md_set_taskMemory (<[key := TaskMemoryFrozenUnreviewed]> (md_taskMemory d)) d))
           else mret tt);
      mret (mkBatch taskID (candidateView (buffered d key))).

Definition normalizeReviewDecision (record : CandidateBufferRecord) (decision : CandidateReviewDecision) : CandidateReviewDecision :=
  let c := cbr_Candidate record in
  mkReviewDecision (rd_CandidateID decision) (rd_Action decision)
    (if bool_decide (rd_Statement decision = "") then mem_Statement c else rd_Statement decision)
    (if bool_decide (rd_Kind decision = "") then mem_Kind c else rd_Kind decision)
    (if bool_decide (rd_SubgraphIDs decision = []) then mem_SubgraphIDs c else rd_SubgraphIDs decision)
    (rd_TargetNodeID decision) (rd_Reason decision).

Definition validateReviewDecision (principal : Principal) (d : memoryData) (decision : CandidateReviewDecision) : res unit :=
  _ ← fail_if (negb (one_of (rd_Action decision) ["create"; "revise"; "supersede"; "dispute"; "reject"]))
      (InvalidArgument "review action is not allowed");
  if bool_decide (rd_Action decision = "reject") then Ok tt else
  _ ← validateNodeKind (rd_Kind decision);
  _ ← rejectTaskMembership (md_subgraphs d) (rd_SubgraphIDs decision);
  _ ← each (fun subgraphID =>
        match md_subgraphs d !! subgraphID with
        | None => Err (ctxNotFound "general subgraph not found")
        | Some subgraph => fail_if (negb (canSeeSubgraph principal subgraph) ||
                                    bool_decide (csg_Kind (sr_Subgraph subgraph) <> SubgraphKindGeneral))
                             (ctxNotFound "general subgraph not found")
        end) (rd_SubgraphIDs decision);
  if bool_decide (rd_Action decision = "create") then Ok tt else
  _ ← fail_if (bool_decide (rd_TargetNodeID decision = "")) (InvalidArgument "target_node_id is required");
  match md_nodes d !! rd_TargetNodeID decision with
  | None => Err (ctxNotFound "target node not found")
  | Some target =>
    _ ← fail_if (bool_decide (nr_ProjectID target <> pri_ProjectID principal) ||
                 negb (canSeeNode principal (md_subgraphs d) target)) (ctxNotFound "target node not found");
    rejectTaskMembership (md_subgraphs d) (cn_SubgraphIDs (nr_Node target))
  end.

Definition reviewStatus (action : string) : string :=
  if bool_decide (action = "dispute") then NodeStatusDisputed else NodeStatusAccepted.

Definition targetStatus (action : string) : string :=
  if bool_decide (action = "supersede") then NodeStatusSuperseded
  else if bool_decide (action = "dispute") then NodeStatusDisputed
  else NodeStatusOutdated.

(** The frozen batch by candidate id; a later record of an id wins. *)
Definition candidateMap (records : list CandidateBufferRecord) : gmap string CandidateBufferRecord :=
  foldl (fun m record => <[cbr_CandidateID record := record]> m) ∅ records.

(** The first loop: no duplicates, every decision about a candidate of the
    batch, normalised and valid.  It carries the ids seen and the decisions. *)
Definition checkDecision (principal : Principal) (d : memoryData) (candidates : gmap string CandidateBufferRecord)
    (acc : gset string * list CandidateReviewDecision) (decision : CandidateReviewDecision) :
    res (gset string * list CandidateReviewDecision) :=
  let '(seen, out) := acc in
  let id := rd_CandidateID decision in
  _ ← fail_if (bool_decide (id ∈ seen)) (InvalidArgument "duplicate candidate review decision");
  match candidates !! id with
  | None => Err (InvalidArgument "review decision references candidate outside frozen batch")
  | Some record =>
    _ ← validateReviewDecision principal d (normalizeReviewDecision record decision);
    Ok ({[id]} ∪ seen, out ++ [normalizeReviewDecision record decision])
  end.

Definition checkDecisions (principal : Principal) (d : memoryData) (candidates : gmap string CandidateBufferRecord)
    (decisions : list CandidateReviewDecision) : res (list CandidateReviewDecision) :=
  match foldM (checkDecision principal d candidates) (∅, []) decisions with
  | Ok (_, out) => Ok out
  | Err e => Err e
  end.

(** The target of a decision, while it belongs to the project. *)
Definition retarget (principal : Principal) (decision : CandidateReviewDecision) : M error memoryData unit :=
  if bool_decide (rd_TargetNodeID decision = "") then mret tt else
  d ← get_state;
  match md_nodes d !! rd_TargetNodeID decision with
  | None => mret tt
  | Some target =>
    if bool_decide (nr_ProjectID target = pri_ProjectID principal)
    then put_node (rd_TargetNodeID decision)
           (nr_revise (cn_set_Status (targetStatus (rd_Action decision)) (nr_Node target)) target)
    else mret tt
  end.

(** The second loop carries the node ids and the rejected ids of the receipt. *)
Definition applyDecision (principal : Principal) (now : Time) (candidates : gmap string CandidateBufferRecord)
    (acc : list string * list string) (decision : CandidateReviewDecision) : M error memoryData (list string * list string) :=
  let '(nodeIDs, rejected) := acc in
  let id := rd_CandidateID decision in
  if bool_decide (rd_Action decision = "reject") then
    _ ← appendMutationEvents now principal "context.candidate_review.reject" "context.candidate_review.reject" id
          (PayloadDecision decision);
    mret (nodeIDs, rejected ++ [id])
  else
    let refs := match candidates !! id with Some record => mem_SourceRefs (cbr_Candidate record) | None => [] end in
    seq ← bump_seq;
    let nodeID := numbered "review-node-" seq in
    let node := normalizeNode (mkNode nodeID (rd_Kind decision) (rd_Statement decision) (reviewStatus (rd_Action decision))
                  (rd_SubgraphIDs decision) (uniqueStrings (refs ++ ["candidate:" +:+ id])) (pri_ActorPrincipalID principal)) in
    _ ← put_node nodeID (mkNodeRecord node 1 (pri_ProjectID principal) now seq);
    _ ← touch_all now (cn_SubgraphIDs node);
    _ ← retarget principal decision;
    let topic := "context.candidate_review." +:+ rd_Action decision in
    _ ← appendMutationEvents now principal topic topic nodeID (PayloadNode node);
    mret (nodeIDs ++ [nodeID], rejected).

Definition reviewChangedSubgraphs (d : memoryData) (nodeIDs : list string) : list string :=
  sortedStringSet (stringSet (nodeIDs ≫= fun nodeID =>
    match md_nodes d !! nodeID with Some record => cn_SubgraphIDs (nr_Node record) | None => [] end)).

Definition reviewFrozenBatch (now : Time) (principal : Principal) (decisions : list CandidateReviewDecision) :
    M error memoryData TaskMemoryReviewReceipt :=
  d ← get_state;
  let records := buffered d (scopedTask (pri_ProjectID principal) (pri_TaskID principal)) in
  _ ← lift (fail_if (bool_decide (length decisions <> length records))
        (InvalidArgument "review decisions must cover frozen batch exactly once"));
  let candidates := candidateMap records in
  decisions ← lift (checkDecisions principal d candidates decisions);
  acc ← foldMM (applyDecision principal now candidates) ([], []) decisions;
  let '(nodeIDs, rejected) := acc in
  _ ← bump_revision;
  w ← get_state;
  _ ← appendContextDeltas principal (lastOutboxID w) "context.candidate_review.reviewed" (reviewChangedSubgraphs w nodeIDs);
  mret (mkReceipt (pri_TaskID principal) (sort_slice string_lt (rd_CandidateID <$> decisions)) nodeIDs
          (sort_slice string_lt rejected)).

Definition SubmitReview (ctx : Context) (principal : Principal) (decisions : list CandidateReviewDecision) (now : Time) :
    M error CtxStore TaskMemoryReviewReceipt :=
  _ ← lift (ctx_Err ctx);
  _ ← lift (requireContextAgent principal ToolContextSubmitReview (pri_ProjectID principal));
  _ ← lift (fail_if (bool_decide (pri_TaskID principal = "")) (InvalidArgument "task_id is required for candidate review"));
  d ← get_data;
  let key := scopedTask (pri_ProjectID principal) (pri_TaskID principal) in
  if bool_decide (memoryState d key = TaskMemoryReviewed) then
    mret (default (mkReceipt "" [] [] []) (md_reviewReceipts d !! key))
  else
    _ ← lift (fail_if (bool_decide (memoryState d key <> TaskMemoryFrozenUnreviewed))
          (TransitionRejected "task memory batch is not frozen"));
    transact (
      receipt ← reviewFrozenBatch now principal decisions;
      _ ← modify (fun d => md_set_reviewReceipts (<[key := receipt]> (md_reviewReceipts d))
                             (md_set_taskMemory (<[key := TaskMemoryReviewed]> (md_taskMemory d)) d));
      mret receipt).

End with_runtime.
