(* ===== verification/CtxSpec.v ===== *)
(** * The context graph as atomic events

    The specification of the context graph store: every operation performs a
    sequence of [ctx_event]s, each labelled with the part of the graph it
    belongs to, and the graph's invariant [data_inv] is proved of the events. *)

From stdpp Require Import base tactics option list strings gmap sorting relations.
From Stdlib Require Import ZArith Ascii.
From S2P Require Import Prelude GoLib GoStrings Kernel CoordTypes Acyclic GraphSpec Auth CtxModel CtxSubs CtxCurate.
From S2P Require Import CtxReads CtxTasks.

(** ** Shapes *)

(** What a subgraph is, apart from its name, summary, revision and times. *)
Definition sub_sig (r : SubgraphRecord) : string * string * ProjectID * TaskID :=
  (csg_ID (sr_Subgraph r), csg_Kind (sr_Subgraph r), sr_ProjectID r, sr_TaskID r).

Definition sig_of (d : memoryData) (id : string) : option (string * string * ProjectID * TaskID) :=
  sub_sig <$> (md_subgraphs d !! id).

Definition is_general (d : memoryData) (p : ProjectID) (id : string) : Prop :=
  exists r, md_subgraphs d !! id = Some r /\ csg_Kind (sr_Subgraph r) = SubgraphKindGeneral /\ sr_ProjectID r = p.
Definition is_task (d : memoryData) (p : ProjectID) (id : string) : Prop :=
  exists r, md_subgraphs d !! id = Some r /\ csg_Kind (sr_Subgraph r) = SubgraphKindTask /\ sr_ProjectID r = p.

(** A node is in general subgraphs of its project only, or is the projection of
    a task: in task subgraphs of its project only. *)
Definition general_node (d : memoryData) (r : NodeRecord) : Prop :=
  forall x, x ∈ cn_SubgraphIDs (nr_Node r) -> is_general d (nr_ProjectID r) x.
Definition task_node (d : memoryData) (r : NodeRecord) : Prop :=
  cn_SubgraphIDs (nr_Node r) <> [] /\ forall x, x ∈ cn_SubgraphIDs (nr_Node r) -> is_task d (nr_ProjectID r) x.

Definition node_kinds : list string := [NodeKindDirective; NodeKindFact; NodeKindHypothesis].
Definition node_statuses : list string := [NodeStatusAccepted; NodeStatusDisputed; NodeStatusSuperseded; NodeStatusOutdated].

Record node_shape (id : string) (r : NodeRecord) : Prop := {
  ns_id : cn_ID (nr_Node r) = id;
  ns_kind : cn_Kind (nr_Node r) ∈ node_kinds;
  ns_status : cn_Status (nr_Node r) ∈ node_statuses;
  ns_statement : cn_Statement (nr_Node r) <> "";
  ns_refs : normal (cn_SourceRefs (nr_Node r)) /\ cn_SourceRefs (nr_Node r) <> [];
  ns_subgraphs : normal (cn_SubgraphIDs (nr_Node r));
  ns_revision : is_uint64 (nr_Revision r);
  ns_sequence : is_uint64 (nr_Sequence r);
}.

Definition task_node_id (id : string) : Prop := exists n, id = numbered "task-node-" n.

Definition node_ok (d : memoryData) (id : string) (r : NodeRecord) : Prop :=
  node_shape id r /\ (general_node d r \/ (task_node d r /\ task_node_id id)).

(** An edge leads from a node or a subgraph of the graph to a node. *)
Definition edge_ok (d : memoryData) (e : ContextEdge) : Prop :=
  is_Some (md_nodes d !! ce_ToNodeID e) /\
  ((exists x, ce_FromRef e = "node:" +:+ x /\ is_Some (md_nodes d !! x)) \/
   (exists x, ce_FromRef e = "subgraph:" +:+ x /\ is_Some (md_subgraphs d !! x))).

(** Keys numbered without gaps. *)
Definition numbered_keys {V} (prefix : string) (m : gmap string V) : Prop :=
  forall k, is_Some (m !! k) <-> exists i, (1 <= i <= Z.of_nat (size m))%Z /\ k = numbered prefix i.

Definition numbered_list (prefix : string) (l : list string) : Prop :=
  l = (fun i => numbered prefix (Z.of_nat i)) <$> seq 1 (length l).

Record sub_ok (k : string) (r : ContextSubscriptionRecord) : Prop := {
  so_id : sub_ID (csr_Subscription r) = k;
  so_consumer : sub_ConsumerInvocationID (csr_Subscription r) <> "";
  so_subgraphs : normal (sub_SubgraphIDs (csr_Subscription r));
  so_active : csr_Active r = true -> csr_CanceledAt r = None /\ csr_ExpiredAt r = None;
}.

(** A delta belongs to a subscription and names subgraphs of it. *)
Definition delta_ok (d : memoryData) (k : string) (x : ContextDelta) : Prop :=
  cd_ID x = k /\ cd_SubgraphIDs x <> [] /\
  exists r, md_subscriptions d !! cd_SubscriptionID x = Some r /\ csr_ProjectID r = cd_ProjectID x /\
    sub_ConsumerInvocationID (csr_Subscription r) = cd_InvocationID x /\
    (forall g, g ∈ cd_SubgraphIDs x -> g ∈ sub_SubgraphIDs (csr_Subscription r)).

Definition candidate_id (key : taskScopeKey) (i : Z) : string :=
  "candidate-" +:+ key.1 +:+ "-" +:+ key.2 +:+ "-" +:+ format_int i.

Record batch_ok (key : taskScopeKey) (l : list CandidateBufferRecord) : Prop := {
  bo_ids : cbr_CandidateID <$> l = (fun i => candidate_id key (Z.of_nat i)) <$> seq 1 (length l);
  bo_valid : Forall (fun r => cbr_TaskID r = key.2 /\ validateMemoryCandidate (cbr_Candidate r) = Ok tt) l;
}.

(** A receipt decides every candidate of the batch once. *)
Record receipt_ok (batch : list CandidateBufferRecord) (key : taskScopeKey) (r : TaskMemoryReviewReceipt) : Prop := {
  ro_task : rr_TaskID r = key.2;
  ro_ids : rr_ReviewedIDs r ≡ₚ cbr_CandidateID <$> batch;
  ro_rejected : forall x, x ∈ rr_RejectedIDs r -> x ∈ rr_ReviewedIDs r;
  ro_count : length (rr_NodeIDs r) + length (rr_RejectedIDs r) = length (rr_ReviewedIDs r);
}.

(** ** The invariant *)

Record data_inv (d : memoryData) : Prop := {
  di_nodes : forall id r, md_nodes d !! id = Some r -> node_ok d id r;
  di_subgraphs : forall id r, md_subgraphs d !! id = Some r ->
    csg_ID (sr_Subgraph r) = id /\ is_int (csg_Revision (sr_Subgraph r)) /\
    ((csg_Kind (sr_Subgraph r) = SubgraphKindGeneral /\ sr_TaskID r = "") \/
     (csg_Kind (sr_Subgraph r) = SubgraphKindTask /\ sr_TaskID r <> "" /\
      md_taskBindings d !! (sr_ProjectID r, sr_TaskID r) = Some (mkTaskBinding (sr_TaskID r) id)));
  di_bindings : forall p t b, md_taskBindings d !! (p, t) = Some b ->
    tb_TaskID b = t /\ sig_of d (tb_SubgraphID b) = Some (tb_SubgraphID b, SubgraphKindTask, p, t);
  di_edges : forall k e, md_edges d !! k = Some e -> k = edgeKey e /\ edge_ok d e;
  di_sub_keys : numbered_keys "sub-" (md_subscriptions d);
  di_subs : forall k r, md_subscriptions d !! k = Some r -> sub_ok k r;
  di_delta_keys : numbered_keys "delta-" (md_deltas d);
  di_deltas : forall k x, md_deltas d !! k = Some x -> delta_ok d k x;
  di_acks : forall k, is_Some (md_deltaAck d !! k) -> is_Some (md_deltas d !! k);
  di_projections : forall k id, md_projections d !! k = Some id ->
    exists r, md_nodes d !! id = Some r /\ task_node d r;
  di_batches : forall key l, md_candidates d !! key = Some l -> batch_ok key l;
  di_memory : forall key st, md_taskMemory d !! key = Some st ->
    st = TaskMemoryFrozenUnreviewed \/ st = TaskMemoryReviewed;
  di_reviewed : forall key, memoryState d key = TaskMemoryReviewed <-> is_Some (md_reviewReceipts d !! key);
  di_receipts : forall key r, md_reviewReceipts d !! key = Some r -> receipt_ok (buffered d key) key r;
  di_audit : numbered_list "audit-" (ae_ID <$> md_audit d);
  di_outbox : numbered_list "outbox-" (oe_ID <$> md_outbox d);
  di_counters : is_uint64 (md_graphRevision d) /\ is_uint64 (md_nextSeq d);
}.

(** ** Events *)

Inductive label := LGeneral | LTask | LStatus | LLog | LSubscription | LDelta | LMemory (key : taskScopeKey).

#[global] Instance label_eq_dec : EqDecision label.
Proof. solve_decision. Defined.

(** The label of a subgraph's kind. *)
Definition kind_label (kind : string) : label := if bool_decide (kind = SubgraphKindTask) then LTask else LGeneral.

Inductive ctx_event (d : memoryData) : label -> memoryData -> Prop :=
(* General nodes: new ones never replace a task's node. *)
| ev_general_node id r :
    node_shape id r -> general_node d r ->
    (forall r0, md_nodes d !! id = Some r0 -> general_node d r0) ->
    ctx_event d LGeneral (md_set_nodes (<[id := r]> (md_nodes d)) d)
| ev_delete_node id r edges :
    md_nodes d !! id = Some r -> general_node d r ->
    (forall k e, edges !! k = Some e <-> md_edges d !! k = Some e /\ ce_ToNodeID e <> id /\ ce_FromRef e <> "node:" +:+ id) ->
    ctx_event d LGeneral (md_set_edges edges (md_set_nodes (delete id (md_nodes d)) d))
| ev_general_subgraph id r :
    md_subgraphs d !! id = None -> csg_ID (sr_Subgraph r) = id ->
    csg_Kind (sr_Subgraph r) = SubgraphKindGeneral -> sr_TaskID r = "" -> is_int (csg_Revision (sr_Subgraph r)) ->
    ctx_event d LGeneral (md_set_subgraphs (<[id := r]> (md_subgraphs d)) d)
| ev_subgraph id r r' :
    md_subgraphs d !! id = Some r -> sub_sig r' = sub_sig r -> is_int (csg_Revision (sr_Subgraph r')) ->
    ctx_event d (kind_label (csg_Kind (sr_Subgraph r))) (md_set_subgraphs (<[id := r']> (md_subgraphs d)) d)
(* The members of a general subgraph are replaced. *)
| ev_members nodes :
    (forall id, match md_nodes d !! id with
                | None => nodes !! id = None
                | Some r => exists r', nodes !! id = Some r' /\
                    (r' = r \/ (general_node d r /\ general_node d r' /\ node_shape id r'))
                end) ->
    ctx_event d LGeneral (md_set_nodes nodes d)
| ev_delete_subgraph id r nodes edges :
    md_subgraphs d !! id = Some r -> csg_Kind (sr_Subgraph r) = SubgraphKindGeneral ->
    (forall k, nodes !! k = (fun n => nr_set_Node (cn_set_SubgraphIDs (removeString (cn_SubgraphIDs (nr_Node n)) id)
                               (nr_Node n)) n) <$> (md_nodes d !! k)) ->
    (forall k e, edges !! k = Some e <-> md_edges d !! k = Some e /\ ce_FromRef e <> "subgraph:" +:+ id) ->
    ctx_event d LGeneral
      (md_set_edges edges (md_set_nodes nodes (md_set_subgraphs (delete id (md_subgraphs d)) d)))
| ev_edge e :
    edge_ok d e -> ctx_event d LGeneral (md_set_edges (<[edgeKey e := e]> (md_edges d)) d)
(* The status of any node. *)
| ev_status id r st :
    md_nodes d !! id = Some r -> st ∈ node_statuses ->
    ctx_event d LStatus (md_set_nodes (<[id := nr_revise (cn_set_Status st (nr_Node r)) r]> (md_nodes d)) d)
(* Tasks. *)
| ev_task_node id r :
    node_shape id r -> task_node d r -> task_node_id id ->
    ctx_event d LTask (md_set_nodes (<[id := r]> (md_nodes d)) d)
| ev_task_subgraph p t r :
    md_taskBindings d !! (p, t) = None -> t <> "" -> md_subgraphs d !! csg_ID (sr_Subgraph r) = None ->
    sub_sig r = (csg_ID (sr_Subgraph r), SubgraphKindTask, p, t) -> is_int (csg_Revision (sr_Subgraph r)) ->
    ctx_event d LTask
      (md_set_subgraphs (<[csg_ID (sr_Subgraph r) := r]> (md_subgraphs d))
        (md_set_taskBindings (<[(p, t) := mkTaskBinding t (csg_ID (sr_Subgraph r))]> (md_taskBindings d)) d))
| ev_projection k id r :
    md_nodes d !! id = Some r -> task_node d r ->
    ctx_event d LTask (md_set_projections (<[k := id]> (md_projections d)) d)
| ev_recipients id l : ctx_event d LTask (md_set_recipients (<[id := l]> (md_recipients d)) d)
(* Counters and logs. *)
| ev_seq n : is_uint64 n -> ctx_event d LLog (md_set_nextSeq n d)
| ev_revision : ctx_event d LLog (md_set_graphRevision (Revision_Next (md_graphRevision d)) d)
| ev_fault f : ctx_event d LLog (md_set_failNext f d)
| ev_audit a :
    ae_ID a = numbered "audit-" (Z.of_nat (length (md_audit d)) + 1) ->
    ctx_event d LLog (md_set_audit (md_audit d ++ [a]) d)
| ev_outbox o :
    oe_ID o = numbered "outbox-" (Z.of_nat (length (md_outbox d)) + 1) ->
    ctx_event d LLog (md_set_outbox (md_outbox d ++ [o]) d)
(* Subscriptions and deltas. *)
| ev_subscribe r :
    sub_ID (csr_Subscription r) = numbered "sub-" (Z.of_nat (size (md_subscriptions d)) + 1) ->
    sub_ok (sub_ID (csr_Subscription r)) r -> csr_Active r = true ->
    ctx_event d LSubscription (md_set_subscriptions (<[sub_ID (csr_Subscription r) := r]> (md_subscriptions d)) d)
| ev_deactivate (P : string -> ContextSubscriptionRecord -> Prop) subs :
    (forall k, match md_subscriptions d !! k with
               | None => subs !! k = None
               | Some r => exists r', subs !! k = Some r' /\
                   (r' = r \/ (P k r /\ csr_Active r = true /\ csr_Active r' = false /\
                      csr_Subscription r' = csr_Subscription r /\ csr_ProjectID r' = csr_ProjectID r))
               end) ->
    ctx_event d LSubscription (md_set_subscriptions subs d)
| ev_delta x r :
    cd_ID x = numbered "delta-" (Z.of_nat (size (md_deltas d)) + 1) ->
    delta_ok d (cd_ID x) x -> md_subscriptions d !! cd_SubscriptionID x = Some r -> csr_Active r = true ->
    ctx_event d LDelta (md_set_deltas (<[cd_ID x := x]> (md_deltas d)) d)
| ev_ack k x :
    md_deltas d !! k = Some x ->
    ctx_event d LDelta (md_set_deltaAck (<[k := true]> (md_deltaAck d)) d)
(* Task memory. *)
| ev_candidate key l r :
    buffered d key = l -> batch_ok key (l ++ [r]) -> memoryState d key = "" ->
    ctx_event d (LMemory key) (md_set_candidates (<[key := l ++ [r]]> (md_candidates d)) d)
| ev_freeze key :
    memoryState d key = "" ->
    ctx_event d (LMemory key) (md_set_taskMemory (<[key := TaskMemoryFrozenUnreviewed]> (md_taskMemory d)) d)
| ev_review key r :
    memoryState d key = TaskMemoryFrozenUnreviewed -> receipt_ok (buffered d key) key r ->
    ctx_event d (LMemory key)
      (md_set_reviewReceipts (<[key := r]> (md_reviewReceipts d))
        (md_set_taskMemory (<[key := TaskMemoryReviewed]> (md_taskMemory d)) d)).
