(* ===== verification/CtxInv.v ===== *)
(** * The context graph's events keep its invariant *)

From stdpp Require Import base tactics option list strings gmap sorting relations.
From Stdlib Require Import ZArith Ascii.
From S2P Require Import Prelude GoLib GoStrings Kernel CoordTypes Acyclic GraphSpec Auth CtxModel CtxSubs CtxCurate.
From S2P Require Import CtxReads CtxTasks CtxSpec.

(** ** Numbered keys *)

Lemma numbered_inj prefix i j : numbered prefix i = numbered prefix j -> i = j.
Proof. unfold numbered. intros H%string_app_inj_l. by apply format_int_inj. Qed.

Lemma numbered_keys_fresh {V} prefix (m : gmap string V) :
  numbered_keys prefix m -> m !! numbered prefix (Z.of_nat (size m) + 1) = None.
Proof.
  intros H. apply eq_None_not_Some. rewrite (H _). intros (i & Hi & Heq%numbered_inj). lia.
Qed.

Lemma numbered_keys_insert {V} prefix (m : gmap string V) v :
  numbered_keys prefix m -> numbered_keys prefix (<[numbered prefix (Z.of_nat (size m) + 1) := v]> m).
Proof.
  intros H k. rewrite map_size_insert_None by by apply numbered_keys_fresh.
  rewrite lookup_insert_is_Some', (H k). split.
  - intros [<-|(i & Hi & ->)]; eexists; (split; [|done]); lia.
  - intros (i & Hi & ->). destruct (decide (i = Z.of_nat (size m) + 1)%Z) as [->|]; [by left|right].
    exists i. split; [lia|done].
Qed.

Lemma numbered_keys_dom {V W} prefix (m : gmap string V) (m' : gmap string W) :
  dom m' = dom m -> numbered_keys prefix m -> numbered_keys prefix m'.
Proof.
  intros Hd H k. rewrite <- (size_dom m'), Hd, size_dom, <- (H k), <- !elem_of_dom, Hd. done.
Qed.

Lemma numbered_list_snoc prefix l x :
  numbered_list prefix l -> x = numbered prefix (Z.of_nat (length l) + 1) -> numbered_list prefix (l ++ [x]).
Proof.
  unfold numbered_list. intros Hl ->. rewrite length_app, Nat.add_1_r, seq_S, fmap_app, <- Hl. simpl.
  do 3 f_equal. lia.
Qed.

(** ** Membership *)

Lemma is_general_sig d p x : is_general d p x <-> exists i t, sig_of d x = Some (i, SubgraphKindGeneral, p, t).
Proof.
  unfold is_general, sig_of. split.
  - intros (r & -> & Hk & Hp). simpl. unfold sub_sig. rewrite Hk, Hp. eauto.
  - intros (i & t & H). destruct (md_subgraphs d !! x) as [r|]; [|done]. unfold sub_sig in H. simpl in H.
    simplify_eq. by exists r.
Qed.

Lemma is_task_sig d p x : is_task d p x <-> exists i t, sig_of d x = Some (i, SubgraphKindTask, p, t).
Proof.
  unfold is_task, sig_of. split.
  - intros (r & -> & Hk & Hp). simpl. unfold sub_sig. rewrite Hk, Hp. eauto.
  - intros (i & t & H). destruct (md_subgraphs d !! x) as [r|]; [|done]. unfold sub_sig in H. simpl in H.
    simplify_eq. by exists r.
Qed.

(** The signatures of [d] survive in [d']. *)
Definition sig_le (d d' : memoryData) : Prop := forall x s, sig_of d x = Some s -> sig_of d' x = Some s.

Section sig_le.
Context (d d' : memoryData) (Hle : sig_le d d').

Lemma general_node_le r : general_node d r -> general_node d' r.
Proof.
  intros H x Hx. specialize (H x Hx). rewrite is_general_sig in *. destruct H as (i & t & H). eauto.
Qed.

Lemma task_node_le r : task_node d r -> task_node d' r.
Proof.
  intros [Hne H]. split; [done|]. intros x Hx. specialize (H x Hx). rewrite is_task_sig in *.
  destruct H as (i & t & H). eauto.
Qed.

Lemma node_ok_le id r : node_ok d id r -> node_ok d' id r.
Proof.
  intros [Hs [Hg|[Ht Hi]]]; (split; [done|]); [left; by apply general_node_le|right].
  split; [by apply task_node_le|done].
Qed.
End sig_le.

Lemma sig_le_same d d' : md_subgraphs d' = md_subgraphs d -> sig_le d d'.
Proof. intros Heq x s. unfold sig_of. by rewrite Heq. Qed.

Lemma sig_le_insert d id r : md_subgraphs d !! id = None -> sig_le d (md_set_subgraphs (<[id := r]> (md_subgraphs d)) d).
Proof.
  intros Hn x s. unfold sig_of. simpl. intros H. rewrite lookup_insert_ne; [done|]. intros ->. by rewrite Hn in H.
Qed.

Lemma sig_of_update d id r r' x :
  md_subgraphs d !! id = Some r -> sub_sig r' = sub_sig r ->
  sig_of (md_set_subgraphs (<[id := r']> (md_subgraphs d)) d) x = sig_of d x.
Proof.
  intros Hr Hs. unfold sig_of. simpl. destruct (decide (id = x)) as [->|Hne].
  - rewrite lookup_insert_eq, Hr. simpl. by rewrite Hs.
  - by rewrite lookup_insert_ne.
Qed.

(** No task is both kinds at once. *)
Lemma kinds_differ : SubgraphKindGeneral <> SubgraphKindTask.
Proof. done. Qed.

Lemma task_not_general d r : task_node d r -> ~ general_node d r.
Proof.
  intros [Hne Ht] Hg. destruct (cn_SubgraphIDs (nr_Node r)) as [|x l] eqn:Hl; [done|].
  assert (x ∈ cn_SubgraphIDs (nr_Node r)) as Hx by (rewrite Hl; by left). rewrite <- Hl in *.
  destruct (Ht x Hx) as (r1 & H1 & K1 & _), (Hg x Hx) as (r2 & H2 & K2 & _). simplify_eq.
  rewrite K1 in K2. by apply kinds_differ.
Qed.

Lemma node_ok_general d id r : node_ok d id r -> ~ task_node_id id -> general_node d r.
Proof. intros [_ [H|[_ H]]] Hn; [done|by destruct Hn]. Qed.

(** ** Preservation *)

Ltac inv_rest H :=
  first [ exact (di_nodes _ H) | exact (di_subgraphs _ H) | exact (di_bindings _ H) | exact (di_edges _ H)
        | exact (di_sub_keys _ H) | exact (di_subs _ H) | exact (di_delta_keys _ H) | exact (di_deltas _ H)
        | exact (di_acks _ H) | exact (di_projections _ H) | exact (di_batches _ H) | exact (di_memory _ H)
        | exact (di_reviewed _ H) | exact (di_receipts _ H) | exact (di_audit _ H) | exact (di_outbox _ H)
        | exact (di_counters _ H) ].

(** Inserting a node keeps edges that resolve. *)
Lemma edge_ok_insert d id r e :
  edge_ok d e -> edge_ok (md_set_nodes (<[id := r]> (md_nodes d)) d) e.
Proof.
  intros [Ht Hf]. split; simpl; [by apply lookup_insert_is_Some'; right|].
  destruct Hf as [(x & ? & ?)|?]; [left|by right]. exists x. split; [done|].
  by apply lookup_insert_is_Some'; right.
Qed.

(** A node is written whose key keeps the task nodes that projections name. *)
Lemma inv_put_node d id r :
  data_inv d -> node_ok d id r ->
  (forall r0, md_nodes d !! id = Some r0 -> task_node d r0 -> task_node d r) ->
  data_inv (md_set_nodes (<[id := r]> (md_nodes d)) d).
Proof.
  intros H Hr Hkeep. constructor; try inv_rest H; simpl.
  - intros k r0. rewrite lookup_insert_Some. intros [[<- <-]|[_ Hk]]; [done|by apply (di_nodes _ H)].
  - intros k e Hk. destruct (di_edges _ H k e Hk) as [? ?]. split; [done|by apply edge_ok_insert].
  - intros k x Hk. destruct (di_projections _ H k x Hk) as (r0 & Hr0 & Ht).
    destruct (decide (id = x)) as [->|Hne].
    + exists r. rewrite lookup_insert_eq. split; [done|]. by apply (Hkeep r0).
    + exists r0. by rewrite lookup_insert_ne.
Qed.

Lemma inv_delete_node d id r edges :
  data_inv d -> md_nodes d !! id = Some r -> general_node d r ->
  (forall k e, edges !! k = Some e <-> md_edges d !! k = Some e /\ ce_ToNodeID e <> id /\ ce_FromRef e <> "node:" +:+ id) ->
  data_inv (md_set_edges edges (md_set_nodes (delete id (md_nodes d)) d)).
Proof.
  intros H Hr Hg He. constructor; try inv_rest H; simpl.
  - intros k r0 [_ Hk]%lookup_delete_Some. by apply (di_nodes _ H).
  - intros k e (Hk & Hto & Hfrom)%He. destruct (di_edges _ H k e Hk) as [? [Ht Hf]]. split; [done|].
    split; simpl; [by rewrite lookup_delete_ne|].
    destruct Hf as [(x & Hx & ?)|?]; [left|by right]. exists x. split; [done|].
    rewrite lookup_delete_ne; [done|]. intros ->. by apply Hfrom.
  - intros k x Hk. destruct (di_projections _ H k x Hk) as (r0 & Hr0 & Ht). exists r0. split; [|done].
    rewrite lookup_delete_ne; [done|]. intros ->. simplify_eq. by apply (task_not_general d r).
Qed.

Lemma inv_sig d d' :
  data_inv d -> d' = md_set_subgraphs (md_subgraphs d') d -> (forall x, sig_of d' x = sig_of d x) ->
  (forall x r, md_subgraphs d' !! x = Some r -> is_int (csg_Revision (sr_Subgraph r))) -> data_inv d'.
Proof.
  intros H Heq Hsig Hrev. assert (sig_le d d') as Hle by (intros x s; by rewrite Hsig).
  assert (forall x, is_Some (md_subgraphs d !! x) -> is_Some (md_subgraphs d' !! x)) as Hdom.
  { intros x [r Hx]. specialize (Hsig x). unfold sig_of in Hsig. rewrite Hx in Hsig.
    destruct (md_subgraphs d' !! x); [by eexists|done]. }
  rewrite Heq. constructor; try inv_rest H; simpl.
  - intros id r Hr. eapply node_ok_le; [|by apply (di_nodes _ H)]. by rewrite <- Heq.
  - intros id r Hr. specialize (Hsig id). unfold sig_of in Hsig. rewrite Hr in Hsig.
    destruct (md_subgraphs d !! id) as [r0|] eqn:Hr0; [|done]. unfold sub_sig in Hsig. simpl in Hsig.
    injection Hsig as -> -> -> ->. destruct (di_subgraphs _ H id r0 Hr0) as (? & _ & ?). split_and!; [done|by eapply Hrev|done].
  - intros p t b Hb. destruct (di_bindings _ H p t b Hb) as [? Hs]. split; [done|].
    rewrite <- Hsig in Hs. exact Hs.
  - intros k e Hk. destruct (di_edges _ H k e Hk) as [? [Ht Hf]]. split; [done|]. split; [done|]. simpl.
    destruct Hf as [?|(x & ? & ?)]; [by left|right]. exists x. split; [done|by apply Hdom].
  - intros k x Hk. destruct (di_projections _ H k x Hk) as (r0 & Hr0 & Ht). exists r0. split; [done|].
    eapply task_node_le; [|done]. by rewrite <- Heq.
Qed.

Lemma inv_general_subgraph d id r :
  data_inv d -> md_subgraphs d !! id = None -> csg_ID (sr_Subgraph r) = id ->
  csg_Kind (sr_Subgraph r) = SubgraphKindGeneral -> sr_TaskID r = "" -> is_int (csg_Revision (sr_Subgraph r)) ->
  data_inv (md_set_subgraphs (<[id := r]> (md_subgraphs d)) d).
Proof.
  intros H Hn Hid Hk Ht Hrev. pose proof (sig_le_insert d id r Hn) as Hle.
  constructor; try inv_rest H; simpl.
  - intros k r0 Hr0. eapply node_ok_le; [exact Hle|by apply (di_nodes _ H)].
  - intros k r0. rewrite lookup_insert_Some. intros [[<- <-]|[_ Hr0]]; [auto|by apply (di_subgraphs _ H)].
  - intros p t b Hb. destruct (di_bindings _ H p t b Hb) as [? Hs]. split; [done|]. by apply Hle.
  - intros k e Hk'. destruct (di_edges _ H k e Hk') as [? [Hto Hf]]. split; [done|]. split; [done|]. simpl.
    destruct Hf as [?|(x & ? & ?)]; [by left|right]. exists x. split; [done|]. by apply lookup_insert_is_Some'; right.
  - intros k x Hk'. destruct (di_projections _ H k x Hk') as (r0 & Hr0 & Htn). exists r0. split; [done|].
    by eapply task_node_le.
Qed.

Lemma inv_task_subgraph d p t r :
  data_inv d -> md_taskBindings d !! (p, t) = None -> t <> "" -> md_subgraphs d !! csg_ID (sr_Subgraph r) = None ->
  sub_sig r = (csg_ID (sr_Subgraph r), SubgraphKindTask, p, t) -> is_int (csg_Revision (sr_Subgraph r)) ->
  data_inv (md_set_subgraphs (<[csg_ID (sr_Subgraph r) := r]> (md_subgraphs d))
        (md_set_taskBindings (<[(p, t) := mkTaskBinding t (csg_ID (sr_Subgraph r))]> (md_taskBindings d)) d)).
Proof.
  intros H Hb Ht Hn Hs Hrev. set (id := csg_ID (sr_Subgraph r)) in *.
  assert (sig_le d (md_set_subgraphs (<[id := r]> (md_subgraphs d))
    (md_set_taskBindings (<[(p, t) := mkTaskBinding t id]> (md_taskBindings d)) d))) as Hle.
  { exact (sig_le_insert d id r Hn). }
  unfold sub_sig in Hs. injection Hs as Hk Hp Htask.
  constructor; try inv_rest H; simpl.
  - intros k r0 Hr0. eapply node_ok_le; [exact Hle|by apply (di_nodes _ H)].
  - intros k r0. rewrite lookup_insert_Some. intros [[<- <-]|[_ Hr0]].
    + split; [done|]. split; [done|right]. rewrite Hp, Htask, lookup_insert_eq. done.
    + destruct (di_subgraphs _ H k r0 Hr0) as (? & ? & [?|(? & ? & Hb0)]); split_and!; auto. right. split_and!; [done..|].
      rewrite lookup_insert_ne; [done|]. intros [= -> ->]. by rewrite Hb in Hb0.
  - intros p0 t0 b. rewrite lookup_insert_Some. intros [[[= <- <-] <-]|[_ Hb0]]; simpl.
    + split; [done|]. unfold sig_of. simpl. rewrite lookup_insert_eq. simpl. unfold sub_sig. by rewrite Hk, Hp, Htask.
    + destruct (di_bindings _ H p0 t0 b Hb0) as [? Hs]. split; [done|]. by apply Hle.
  - intros k e Hk'. destruct (di_edges _ H k e Hk') as [? [Hto Hf]]. split; [done|]. split; [done|]. simpl.
    destruct Hf as [?|(x & ? & ?)]; [by left|right]. exists x. split; [done|]. by apply lookup_insert_is_Some'; right.
  - intros k x Hk'. destruct (di_projections _ H k x Hk') as (r0 & Hr0 & Htn). exists r0. split; [done|].
    by eapply task_node_le.
Qed.

Lemma inv_members d nodes :
  data_inv d ->
  (forall id, match md_nodes d !! id with
              | None => nodes !! id = None
              | Some r => exists r', nodes !! id = Some r' /\
                  (r' = r \/ (general_node d r /\ general_node d r' /\ node_shape id r'))
              end) ->
  data_inv (md_set_nodes nodes d).
Proof.
  intros H Hn.
  assert (forall x, is_Some (md_nodes d !! x) -> is_Some (nodes !! x)) as Hdom.
  { intros x [r Hx]. specialize (Hn x). rewrite Hx in Hn. destruct Hn as (r' & ? & _). by eexists. }
  constructor; try inv_rest H; simpl.
  - intros id r' Hr'. specialize (Hn id). destruct (md_nodes d !! id) as [r|] eqn:Hr; [|congruence].
    destruct Hn as (r1 & Hr1 & Hcase). simplify_eq.
    destruct Hcase as [->|(_ & Hg & Hs)]; [by apply (di_nodes _ H)|]. split; [done|by left].
  - intros k e Hk. destruct (di_edges _ H k e Hk) as [? [Ht Hf]]. split; [done|]. split; simpl; [by apply Hdom|].
    destruct Hf as [(x & ? & ?)|?]; [left|by right]. exists x. split; [done|by apply Hdom].
  - intros k x Hk. destruct (di_projections _ H k x Hk) as (r0 & Hr0 & Ht). specialize (Hn x).
    rewrite Hr0 in Hn. destruct Hn as (r' & Hr' & [->|(Hg & _)]); [by exists r0|].
    exfalso. by apply (task_not_general d r0).
Qed.

Lemma elem_of_removeString l x y : y ∈ removeString l x <-> y ∈ l /\ y <> x.
Proof. unfold removeString. rewrite list_elem_of_filter. tauto. Qed.

Lemma removeString_absent l x : x ∉ l -> removeString l x = l.
Proof.
  unfold removeString. induction l as [|y l IH]; [done|]. intros Hx. rewrite filter_cons.
  rewrite decide_True by set_solver. f_equal. apply IH. set_solver.
Qed.

Lemma StronglySorted_filter {A} (R : relation A) (P : A -> Prop) `{!forall x, Decision (P x)} l :
  StronglySorted R l -> StronglySorted R (filter P l).
Proof.
  induction 1 as [|x l Hl IH Hall]; [constructor|]. rewrite filter_cons. case_decide; [|done].
  constructor; [done|]. rewrite Forall_forall in *. intros y [_ Hy]%list_elem_of_filter. auto.
Qed.

Lemma normal_filter (P : string -> Prop) `{!forall x, Decision (P x)} l : normal l -> normal (filter P l).
Proof.
  intros [Hs Hn He]. split; [by apply StronglySorted_filter|by apply NoDup_filter|].
  intros [_ ?]%list_elem_of_filter. done.
Qed.

Lemma normal_removeString l x : normal l -> normal (removeString l x).
Proof. apply normal_filter. Qed.

Lemma inv_delete_subgraph d id r nodes edges :
  data_inv d -> md_subgraphs d !! id = Some r -> csg_Kind (sr_Subgraph r) = SubgraphKindGeneral ->
  (forall k, nodes !! k = (fun n => nr_set_Node (cn_set_SubgraphIDs (removeString (cn_SubgraphIDs (nr_Node n)) id)
                             (nr_Node n)) n) <$> (md_nodes d !! k)) ->
  (forall k e, edges !! k = Some e <-> md_edges d !! k = Some e /\ ce_FromRef e <> "subgraph:" +:+ id) ->
  data_inv (md_set_edges edges (md_set_nodes nodes (md_set_subgraphs (delete id (md_subgraphs d)) d))).
Proof.
  intros H Hr Hk Hn He. set (d' := md_set_edges _ _).
  assert (forall x s, x <> id -> sig_of d x = Some s -> sig_of d' x = Some s) as Hsig.
  { intros x s Hx. unfold sig_of. simpl. by rewrite lookup_delete_ne. }
  assert (forall x, is_Some (md_nodes d !! x) -> is_Some (nodes !! x)) as Hdom.
  { intros x [n Hx]. rewrite Hn, Hx. by eexists. }
  assert (forall n, task_node d n -> id ∉ cn_SubgraphIDs (nr_Node n)) as Htask.
  { intros n [_ Ht] Hin. destruct (Ht _ Hin) as (r1 & H1 & K1 & _). simplify_eq. rewrite Hk in K1. done. }
  assert (forall n, general_node d n -> general_node d'
    (nr_set_Node (cn_set_SubgraphIDs (removeString (cn_SubgraphIDs (nr_Node n)) id) (nr_Node n)) n)) as Hgen.
  { intros n Hg x Hx. simpl in Hx. apply elem_of_removeString in Hx as [Hx Hne].
    specialize (Hg x Hx). rewrite is_general_sig in *. destruct Hg as (i & t & Hg). eauto. }
  assert (forall n, task_node d n -> nr_set_Node (cn_set_SubgraphIDs (removeString (cn_SubgraphIDs (nr_Node n)) id)
    (nr_Node n)) n = n /\ task_node d' n) as Htn.
  { intros n Ht. pose proof (Htask n Ht) as Hni. split.
    - assert (removeString (cn_SubgraphIDs (nr_Node n)) id = cn_SubgraphIDs (nr_Node n)) as ->.
      { by apply removeString_absent. }
      by destruct n as [[] ? ? ? ?].
    - destruct Ht as [Hne Ht]. split; [done|]. intros x Hx. specialize (Ht x Hx). rewrite is_task_sig in *.
      destruct Ht as (i & t & Ht). exists i, t. apply Hsig; [|done]. by intros ->. }
  constructor; try inv_rest H; simpl.
  - intros k n'. rewrite Hn, fmap_Some. intros (n & Hn0 & ->). destruct (di_nodes _ H k n Hn0) as [Hs Hm].
    split.
    + destruct Hs. split; simpl; try done. by apply normal_removeString.
    + destruct Hm as [Hg|[Ht Hi]]; [left; by apply Hgen|right]. destruct (Htn n Ht) as [-> Ht']. done.
  - intros k r0 [Hne Hr0]%lookup_delete_Some. by apply (di_subgraphs _ H).
  - intros p t b Hb. destruct (di_bindings _ H p t b Hb) as [? Hs]. split; [done|]. apply Hsig; [|done].
    intros Heq. rewrite Heq in Hs. unfold sig_of in Hs. rewrite Hr in Hs. unfold sub_sig in Hs. simpl in Hs.
    injection Hs as _ Hs _ _. rewrite Hk in Hs. done.
  - intros k e (Hk' & Hfrom)%He. destruct (di_edges _ H k e Hk') as [? [Ht Hf]]. split; [done|].
    split; simpl; [by apply Hdom|]. destruct Hf as [(x & ? & ?)|(x & Hx & ?)]; [left|right]; exists x; (split; [done|]).
    + by apply Hdom.
    + rewrite lookup_delete_ne; [done|]. intros ->. by apply Hfrom.
  - intros k x Hk'. destruct (di_projections _ H k x Hk') as (n & Hn0 & Ht). destruct (Htn n Ht) as [Heq Ht'].
    exists n. split; [|done]. rewrite Hn, Hn0. simpl. by rewrite Heq.
Qed.

Lemma inv_edge d e : data_inv d -> edge_ok d e -> data_inv (md_set_edges (<[edgeKey e := e]> (md_edges d)) d).
Proof.
  intros H He. constructor; try inv_rest H; simpl. intros k e0. rewrite lookup_insert_Some.
  intros [[<- <-]|[_ Hk]]; [done|by apply (di_edges _ H)].
Qed.

Lemma inv_subscriptions d subs :
  data_inv d -> numbered_keys "sub-" subs -> (forall k r, subs !! k = Some r -> sub_ok k r) ->
  (forall k r, md_subscriptions d !! k = Some r -> exists r', subs !! k = Some r' /\
     csr_Subscription r' = csr_Subscription r /\ csr_ProjectID r' = csr_ProjectID r) ->
  data_inv (md_set_subscriptions subs d).
Proof.
  intros H Hk Hs Hold. constructor; try inv_rest H; simpl; [done|done|].
  intros k x Hx. destruct (di_deltas _ H k x Hx) as (? & ? & r & Hr & Hp & Hi & Hg).
  destruct (Hold _ _ Hr) as (r' & Hr' & Hsub & Hproj). split_and!; [done..|]. exists r'. simpl.
  rewrite Hsub, Hproj. done.
Qed.

Lemma inv_deactivate d (P : string -> ContextSubscriptionRecord -> Prop) subs :
  data_inv d ->
  (forall k, match md_subscriptions d !! k with
             | None => subs !! k = None
             | Some r => exists r', subs !! k = Some r' /\
                 (r' = r \/ (P k r /\ csr_Active r = true /\ csr_Active r' = false /\
                    csr_Subscription r' = csr_Subscription r /\ csr_ProjectID r' = csr_ProjectID r))
             end) ->
  data_inv (md_set_subscriptions subs d).
Proof.
  intros H Hs.
  assert (forall k r, md_subscriptions d !! k = Some r -> exists r', subs !! k = Some r' /\
     csr_Subscription r' = csr_Subscription r /\ csr_ProjectID r' = csr_ProjectID r) as Hold.
  { intros k r Hr. specialize (Hs k). rewrite Hr in Hs. destruct Hs as (r' & ? & Hc). exists r'. destruct Hc as [->|(? & ? & ? & ? & ?)]; done. }
  apply inv_subscriptions; [done| | |done].
  - eapply numbered_keys_dom; [|exact (di_sub_keys _ H)]. apply set_eq. intros k. rewrite !elem_of_dom.
    specialize (Hs k). destruct (md_subscriptions d !! k) as [r|]; [|rewrite Hs; done].
    destruct Hs as (r' & -> & _). split; by eexists.
  - intros k r' Hr'. specialize (Hs k). destruct (md_subscriptions d !! k) as [r|] eqn:Hr; [|congruence].
    destruct Hs as (r1 & Hr1 & Hcase). simplify_eq. destruct (di_subs _ H k r Hr) as [S1 S2 S3 S4].
    destruct Hcase as [->|(_ & _ & Ha & Hsub & _)]; [done|]. split; rewrite ?Hsub; try done. by rewrite Ha.
Qed.

Lemma inv_subscribe d r :
  data_inv d -> sub_ID (csr_Subscription r) = numbered "sub-" (Z.of_nat (size (md_subscriptions d)) + 1) ->
  sub_ok (sub_ID (csr_Subscription r)) r ->
  data_inv (md_set_subscriptions (<[sub_ID (csr_Subscription r) := r]> (md_subscriptions d)) d).
Proof.
  intros H Hid Hok. pose proof (numbered_keys_fresh _ _ (di_sub_keys _ H)) as Hfresh.
  apply inv_subscriptions; [done| | |].
  - rewrite Hid. apply numbered_keys_insert, (di_sub_keys _ H).
  - intros k r0. rewrite lookup_insert_Some. intros [[<- <-]|[_ Hr0]]; [done|by apply (di_subs _ H)].
  - intros k r0 Hr0. exists r0. split; [|done]. rewrite lookup_insert_ne; [done|]. rewrite Hid. intros <-. congruence.
Qed.

Lemma inv_delta d x :
  data_inv d -> cd_ID x = numbered "delta-" (Z.of_nat (size (md_deltas d)) + 1) -> delta_ok d (cd_ID x) x ->
  data_inv (md_set_deltas (<[cd_ID x := x]> (md_deltas d)) d).
Proof.
  intros H Hid Hok. constructor; try inv_rest H; simpl.
  - rewrite Hid. apply numbered_keys_insert, (di_delta_keys _ H).
  - intros k y. rewrite lookup_insert_Some. intros [[<- <-]|[_ Hy]]; [done|by apply (di_deltas _ H)].
  - intros k Hk. apply lookup_insert_is_Some'. right. by apply (di_acks _ H).
Qed.

Lemma inv_ack d k x : data_inv d -> md_deltas d !! k = Some x ->
  data_inv (md_set_deltaAck (<[k := true]> (md_deltaAck d)) d).
Proof.
  intros H Hx. constructor; try inv_rest H; simpl. intros k0. rewrite lookup_insert_is_Some'.
  intros [<-|Hk]; [by eexists|by apply (di_acks _ H)].
Qed.

Lemma inv_candidate d key l r :
  data_inv d -> buffered d key = l -> batch_ok key (l ++ [r]) -> memoryState d key = "" ->
  data_inv (md_set_candidates (<[key := l ++ [r]]> (md_candidates d)) d).
Proof.
  intros H <- Hb Hst. constructor; try inv_rest H; simpl.
  - intros k l0. rewrite lookup_insert_Some. intros [[<- <-]|[_ Hl]]; [done|by apply (di_batches _ H)].
  - intros k r0 Hr0. pose proof (di_receipts _ H k r0 Hr0) as Hold.
    assert (k <> key) as Hne.
    { intros ->. assert (memoryState d key = TaskMemoryReviewed) as Hr by (apply (di_reviewed _ H); by eexists).
      rewrite Hst in Hr. done. }
    assert (buffered (md_set_candidates (<[key := buffered d key ++ [r]]> (md_candidates d)) d) k = buffered d k) as ->.
    { unfold buffered. simpl. by rewrite lookup_insert_ne. }
    done.
Qed.

Lemma inv_freeze d key :
  data_inv d -> memoryState d key = "" ->
  data_inv (md_set_taskMemory (<[key := TaskMemoryFrozenUnreviewed]> (md_taskMemory d)) d).
Proof.
  intros H Hst. constructor; try inv_rest H; simpl.
  - intros k st. rewrite lookup_insert_Some. intros [[_ <-]|[_ Hk]]; [by left|by apply (di_memory _ H k)].
  - intros k. rewrite <- (di_reviewed _ H k). unfold memoryState. simpl.
    destruct (decide (key = k)) as [<-|Hne]; [|by rewrite lookup_insert_ne].
    rewrite lookup_insert_eq. simpl. unfold memoryState in Hst. rewrite Hst. done.
Qed.

Lemma inv_review d key r :
  data_inv d -> receipt_ok (buffered d key) key r ->
  data_inv (md_set_reviewReceipts (<[key := r]> (md_reviewReceipts d))
        (md_set_taskMemory (<[key := TaskMemoryReviewed]> (md_taskMemory d)) d)).
Proof.
  intros H Hr. constructor; try inv_rest H; simpl.
  - intros k st. rewrite lookup_insert_Some. intros [[_ <-]|[_ Hk]]; [by right|by apply (di_memory _ H k)].
  - intros k. rewrite lookup_insert_is_Some', <- (di_reviewed _ H k). unfold memoryState. simpl.
    destruct (decide (key = k)) as [<-|Hne]; [|rewrite lookup_insert_ne by done; naive_solver].
    rewrite lookup_insert_eq. naive_solver.
  - intros k r0. rewrite lookup_insert_Some. intros [[<- <-]|[_ Hk]]; [done|].
    exact (di_receipts _ H k r0 Hk).
Qed.

Lemma inv_log_audit d a :
  data_inv d -> ae_ID a = numbered "audit-" (Z.of_nat (length (md_audit d)) + 1) ->
  data_inv (md_set_audit (md_audit d ++ [a]) d).
Proof.
  intros H Ha. constructor; try inv_rest H; simpl. rewrite fmap_app. apply numbered_list_snoc; [apply (di_audit _ H)|].
  by rewrite length_fmap.
Qed.

Lemma inv_log_outbox d o :
  data_inv d -> oe_ID o = numbered "outbox-" (Z.of_nat (length (md_outbox d)) + 1) ->
  data_inv (md_set_outbox (md_outbox d ++ [o]) d).
Proof.
  intros H Ha. constructor; try inv_rest H; simpl. rewrite fmap_app. apply numbered_list_snoc; [apply (di_outbox _ H)|].
  by rewrite length_fmap.
Qed.

#[export] Hint Resolve inv_delete_node inv_general_subgraph inv_task_subgraph inv_members inv_delete_subgraph
  inv_edge inv_deactivate inv_subscribe inv_delta inv_ack inv_candidate inv_freeze inv_review inv_log_audit
  inv_log_outbox : threadmill.

Lemma ctx_event_inv d l d' : ctx_event d l d' -> data_inv d -> data_inv d'.
Proof.
  intros He H. destruct He; eauto with threadmill; try (constructor; inv_rest H).
  - apply inv_put_node; [done|split; auto|]. intros r0 Hr0 Ht. exfalso. by eapply task_not_general, H2.
  - eapply inv_sig; [done|done|intros x; by eapply sig_of_update|]. simpl. intros x r0. rewrite lookup_insert_Some.
    intros [[_ <-]|[_ Hx]]; [done|by apply (di_subgraphs _ H) in Hx as (_ & ? & _)].
  - destruct (di_nodes _ H id r) as [Hs Hm]; [done|]. apply inv_put_node; [done| |by intros; simplify_eq].
    split; [|exact Hm]. destruct Hs. split; try done. apply uint64_wrap_is.
  - apply inv_put_node; [done|split; auto|done].
  - constructor; try inv_rest H. simpl. intros k' x. rewrite lookup_insert_Some.
    intros [[_ <-]|[_ Hk]]; [by exists r|by apply (di_projections _ H k')].
  - constructor; try inv_rest H. split; [apply (di_counters _ H)|done].
  - constructor; try inv_rest H. split; [apply uint64_wrap_is|apply (di_counters _ H)].
Qed.

Lemma data_inv_new : data_inv (cs_data NewMemoryStore).
Proof.
  constructor; simpl; try done; try (intros; simplify_map_eq; done).
  - intros k. rewrite lookup_empty, map_size_empty. split; [by intros [? ?]|]. intros (i & ? & _). lia.
  - intros k. rewrite lookup_empty, map_size_empty. split; [by intros [? ?]|]. intros (i & ? & _). lia.
Qed.
