(* ===== verification/CtxOps.v ===== *)
(** * The context graph's operations refine its events

    [moves] is a small program logic for computations on a working copy: from a
    copy that satisfies the invariant, a successful run performs events with
    allowed labels and ends with the postcondition.  [emits] is the same for a
    call of the store, whatever it answers. *)

From stdpp Require Import base tactics option list strings gmap sorting relations.
From Stdlib Require Import ZArith Ascii.
From S2P Require Import Prelude GoLib GoStrings Kernel CoordTypes Acyclic GraphSpec Auth CtxModel CtxSubs CtxCurate.
From S2P Require Import CtxReads CtxTasks CtxSpec CtxInv.

Definition step (P : label -> Prop) (d d' : memoryData) : Prop := exists l, P l /\ ctx_event d l d'.

Lemma labelled_step_inv P d d' : step P d d' -> data_inv d -> data_inv d'.
Proof. intros (l & _ & He). by eapply ctx_event_inv. Qed.

Lemma labelled_steps_inv P d d' : rtc (step P) d d' -> data_inv d -> data_inv d'.
Proof. induction 1 as [|d d1 d' Hs _ IH]; [done|]. intros H. by eapply IH, labelled_step_inv. Qed.

Lemma step_mono (P P' : label -> Prop) d d' : (forall l, P l -> P' l) -> step P d d' -> step P' d d'.
Proof. intros Hp (l & ? & ?). exists l. auto. Qed.

Lemma steps_mono (P P' : label -> Prop) d d' :
  (forall l, P l -> P' l) -> rtc (step P) d d' -> rtc (step P') d d'.
Proof. intros Hp H. eapply rtc_subrel; [|exact H]. intros. by eapply step_mono. Qed.

Definition moves {A} (P : label -> Prop) (m : M error memoryData A) (Q : A -> memoryData -> Prop) (d : memoryData) : Prop :=
  data_inv d -> match m d with
                | (Ok a, d') => rtc (step P) d d' /\ Q a d'
                | (Err _, _) => True
                end.

Section rules.
Context {A B : Type} (P : label -> Prop).
Implicit Types (d : memoryData) (R : B -> memoryData -> Prop).

Lemma moves_with_inv (m : M error memoryData A) Q d : (data_inv d -> moves P m Q d) -> moves P m Q d.
Proof. intros H Hd. by apply H. Qed.

Lemma ctx_moves_bind (m : M error memoryData A) (k : A -> M error memoryData B) Q R d :
  moves P m Q d -> (forall a d1, Q a d1 -> moves P (k a) R d1) -> moves P (m ≫= k) R d.
Proof.
  intros Hm Hk Hd. specialize (Hm Hd). unfold mbind, M_bind. destruct (m d) as [[a|e] d1]; [|done].
  destruct Hm as [Hr Hq]. specialize (Hk a d1 Hq (labelled_steps_inv _ _ _ Hr Hd)). destruct (k a d1) as [[b|e] d2]; [|done].
  destruct Hk as [Hr2 HR]. split; [by etrans|done].
Qed.

Lemma moves_guard (r : res A) (k : A -> M error memoryData B) R d :
  (forall a, r = Ok a -> moves P (k a) R d) -> moves P (lift r ≫= k) R d.
Proof. intros Hk Hd. unfold mbind, M_bind, lift. destruct r as [a|e]; [by apply Hk|done]. Qed.

Lemma moves_get (k : memoryData -> M error memoryData B) R d : moves P (k d) R d -> moves P (get_state ≫= k) R d.
Proof. done. Qed.

Lemma ctx_moves_ret (a : A) (Q : A -> memoryData -> Prop) d : Q a d -> moves P (mret a) Q d.
Proof. intros Hq _. split; [done|exact Hq]. Qed.

Lemma moves_throw e (Q : A -> memoryData -> Prop) d : moves P (throw e) Q d.
Proof. by intros _. Qed.

Lemma moves_modify f (k : unit -> M error memoryData B) R d :
  step P d (f d) -> moves P (k tt) R (f d) -> moves P (modify f ≫= k) R d.
Proof.
  intros Hs Hk Hd. specialize (Hk (labelled_step_inv _ _ _ Hs Hd)). unfold mbind, M_bind, modify.
  destruct (k tt (f d)) as [[b|e] d2]; [|done]. destruct Hk as [Hr HR]. split; [by eapply rtc_l|done].
Qed.

Lemma moves_put d1 (k : unit -> M error memoryData B) R d :
  step P d d1 -> moves P (k tt) R d1 -> moves P (put_state d1 ≫= k) R d.
Proof. apply (moves_modify (fun _ => d1)). Qed.
End rules.

Lemma ctx_moves_weaken {A} (P P' : label -> Prop) (m : M error memoryData A) (Q Q' : A -> memoryData -> Prop) d :
  (forall l, P l -> P' l) -> (forall a d', Q a d' -> Q' a d') -> moves P m Q d -> moves P' m Q' d.
Proof.
  intros Hp Hq Hm Hd. specialize (Hm Hd). destruct (m d) as [[a|e] d1]; [|done]. destruct Hm as [Hr HQ].
  split; [by eapply steps_mono|by apply Hq].
Qed.

Lemma ctx_moves_foldMM {A C} (P : label -> Prop) (I : memoryData -> Prop) (f : C -> A -> M error memoryData C) l c d :
  (forall c x d1, x ∈ l -> I d1 -> moves P (f c x) (fun _ d2 => I d2) d1) -> I d ->
  moves P (foldMM f c l) (fun _ d2 => I d2) d.
Proof.
  revert c d. induction l as [|x l IH]; intros c d Hf Hd; simpl; [by apply ctx_moves_ret|].
  eapply ctx_moves_bind; [apply Hf; [by left|done]|]. intros c1 d1 H1. apply IH; [|done].
  intros. apply Hf; [by right|done].
Qed.

(** ** Calls of the store *)

Definition emits {A} (P : label -> Prop) (m : M error CtxStore A) (s : CtxStore) : Prop :=
  data_inv (cs_data s) -> rtc (step P) (cs_data s) (cs_data (snd (m s))).

Lemma emits_transact {A} P (m : M error memoryData A) Q s : moves P m Q (cs_data s) -> emits P (transact m) s.
Proof.
  intros Hm Hd. specialize (Hm Hd). unfold transact, cloneLocked. destruct (m (cs_data s)) as [[a|e] d1]; [|done].
  apply Hm.
Qed.

Lemma ctx_emits_guard {A B} P (r : res A) (k : A -> M error CtxStore B) s :
  (forall a, r = Ok a -> emits P (k a) s) -> emits P (lift r ≫= k) s.
Proof. intros Hk. unfold emits, mbind, M_bind, lift. destruct r; [by apply Hk|done]. Qed.

Lemma ctx_emits_get {B} P (k : CtxStore -> M error CtxStore B) s : emits P (k s) s -> emits P (get_state ≫= k) s.
Proof. done. Qed.

Lemma emits_data {B} P (k : memoryData -> M error CtxStore B) s : emits P (k (cs_data s)) s -> emits P (get_data ≫= k) s.
Proof. done. Qed.

Lemma ctx_emits_readonly {A} P (m : M error CtxStore A) s : readonly m -> emits P m s.
Proof. intros Hm _. by rewrite Hm. Qed.

Lemma ctx_emits_bind {A B} P (m : M error CtxStore A) (k : A -> M error CtxStore B) s :
  emits P m s -> (forall a s1, m s = (Ok a, s1) -> emits P (k a) s1) -> emits P (m ≫= k) s.
Proof.
  unfold emits, mbind, M_bind. intros Hm Hk Hd. specialize (Hm Hd). destruct (m s) as [[a|e] s1] eqn:Hr; simpl in *; [|done].
  etrans; [exact Hm|]. apply Hk; [done|]. by eapply labelled_steps_inv.
Qed.

Lemma emits_in_place P f s : step P (cs_data s) (f (cs_data s)) -> emits P (in_place (@modify error _ f)) s.
Proof. intros Hs _. by apply rtc_once. Qed.

Lemma emits_mono {A} (P P' : label -> Prop) (m : M error CtxStore A) s :
  (forall l, P l -> P' l) -> emits P m s -> emits P' m s.
Proof. intros Hp Hm Hd. eapply steps_mono; [exact Hp|by apply Hm]. Qed.

#[export] Hint Resolve ctx_emits_readonly moves_throw : threadmill.

(** ** Helpers *)

Section with_runtime.
Context `{GR : GoRuntime}.

Lemma elem_of_uniqueStrings l x : x ∈ uniqueStrings l <-> x ∈ l /\ x <> "".
Proof.
  unfold uniqueStrings. case_bool_decide as Hl; [subst; set_solver|]. apply elem_of_sorted_dedupe.
Qed.

Lemma uniqueStrings_normal l : normal (uniqueStrings l).
Proof.
  unfold uniqueStrings. case_bool_decide; [|apply sorted_dedupe_normal].
  split; [constructor|constructor|apply not_elem_of_nil].
Qed.

Lemma uniqueStrings_nonempty l x : x ∈ l -> x <> "" -> uniqueStrings l <> [].
Proof.
  intros Hx Hne Heq. assert (x ∈ uniqueStrings l) as H by by apply elem_of_uniqueStrings.
  rewrite Heq in H. by apply elem_of_nil in H.
Qed.

Lemma contains_true l x : contains l x = true <-> x ∈ l.
Proof.
  unfold contains. rewrite existsb_elem. split.
  - intros (y & Hy & ->%bool_decide_eq_true). done.
  - intros Hx. exists x. by rewrite bool_decide_eq_true.
Qed.

Lemma intersects_true a b : intersects a b = true <-> exists x, x ∈ a /\ x ∈ b.
Proof. unfold intersects. rewrite existsb_elem. by setoid_rewrite contains_true. Qed.

Lemma lookup_stringSet l x : is_Some (stringSet l !! x) <-> x ∈ l.
Proof.
  unfold stringSet. assert (forall m, is_Some (foldl (fun (m : gmap string unit) v => <[v := tt]> m) m l !! x) <->
    is_Some (m !! x) \/ x ∈ l) as H.
  { induction l as [|y l IH]; intros m; simpl; [rewrite elem_of_nil; tauto|].
    rewrite IH, lookup_insert_is_Some', elem_of_cons. split; [intros [[<-|?]|?]; auto|intros [?|[->|?]]; auto]. }
  rewrite H, lookup_empty. split; [by intros [[? ?]|?]|by right].
Qed.

Lemma elem_of_sortedStringSet m x : x ∈ sortedStringSet m <-> is_Some (m !! x).
Proof. unfold sortedStringSet. by rewrite sort_slice_perm, elem_of_range_keys. Qed.

Lemma elem_of_sorted_stringSet l x : x ∈ sortedStringSet (stringSet l) <-> x ∈ l.
Proof. by rewrite elem_of_sortedStringSet, lookup_stringSet. Qed.

Lemma elem_of_changed before after x :
  x ∈ changedSubgraphMemberships before after <-> (x ∈ after /\ x ∉ before) \/ (x ∈ before /\ x ∉ after).
Proof.
  unfold changedSubgraphMemberships. rewrite elem_of_sorted_stringSet, elem_of_app, !list_elem_of_filter.
  rewrite <- !(lookup_stringSet before), <- !(lookup_stringSet after), !eq_None_not_Some. tauto.
Qed.

(** ** Rules for the steps of a mutation *)

Lemma step_log P d l d' : P l -> ctx_event d l d' -> step P d d'.
Proof. intros. by exists l. Qed.

Lemma moves_bump_seq {B} (P : label -> Prop) (k : Z -> M error memoryData B) R d :
  P LLog -> (forall n, is_uint64 n -> moves P (k n) R (md_set_nextSeq n d)) -> moves P (bump_seq ≫= k) R d.
Proof.
  intros HP Hk. intros Hd. pose proof (uint64_wrap_is (md_nextSeq d + 1)) as Hn.
  specialize (Hk (uint64_wrap (md_nextSeq d + 1)) Hn (ctx_event_inv _ _ _ (ev_seq d _ Hn) Hd)).
  unfold bump_seq, mbind, M_bind, modify, get_state, mret, M_ret in *. simpl in *.
  destruct (k _ _) as [[b|e] d2]; [|done]. destruct Hk as [Hr HR]. split; [|done].
  eapply rtc_l; [exists LLog; split; [done|by apply ev_seq]|exact Hr].
Qed.

Lemma moves_put_node {B} (P : label -> Prop) l id r (k : unit -> M error memoryData B) R d :
  P l -> ctx_event d l (md_set_nodes (<[id := r]> (md_nodes d)) d) ->
  moves P (k tt) R (md_set_nodes (<[id := r]> (md_nodes d)) d) -> moves P (put_node id r ≫= k) R d.
Proof. intros HP He Hk. unfold put_node. apply moves_modify; [by exists l|exact Hk]. Qed.

(** The subgraphs keep what they are. *)
Definition same_sigs (m m' : gmap string SubgraphRecord) : Prop := forall x, sub_sig <$> (m' !! x) = sub_sig <$> (m !! x).

Lemma touch_sig now r : sub_sig (touch now r) = sub_sig r.
Proof. done. Qed.

Lemma touch_steps (P : label -> Prop) now ids d :
  (forall x, x ∈ ids -> exists r, md_subgraphs d !! x = Some r /\ P (kind_label (csg_Kind (sr_Subgraph r)))) ->
  rtc (step P) d (md_set_subgraphs (touchSubgraphs now ids (md_subgraphs d)) d) /\
  same_sigs (md_subgraphs d) (touchSubgraphs now ids (md_subgraphs d)).
Proof.
  revert d. induction ids as [|x ids IH]; intros d Hids; simpl.
  { split; [by destruct d|by intros x]. }
  destruct (Hids x) as (r & Hr & HP); [by left|]. rewrite Hr. simpl.
  set (d1 := md_set_subgraphs (<[x := touch now r]> (md_subgraphs d)) d).
  assert (forall y, sig_of d1 y = sig_of d y) as Hsig by (intros y; by eapply sig_of_update).
  destruct (IH d1) as [Hr1 Hs1].
  { intros y Hy. destruct (Hids y) as (r' & Hr' & HP'); [by right|]. specialize (Hsig y). unfold sig_of in Hsig.
    rewrite Hr' in Hsig. destruct (md_subgraphs d1 !! y) as [r1|]; [|done]. exists r1. split; [done|].
    unfold sub_sig in Hsig. simpl in Hsig. injection Hsig as _ -> _ _. done. }
  split.
  - eapply rtc_l; [|exact Hr1]. exists (kind_label (csg_Kind (sr_Subgraph r))). split; [done|].
    apply ev_subgraph; [done|by apply touch_sig|apply int_wrap_is_int].
  - intros y. etrans; [exact (Hs1 y)|apply Hsig].
Qed.

Lemma moves_touch {B} (P : label -> Prop) now ids (k : unit -> M error memoryData B) R d :
  (forall x, x ∈ ids -> exists r, md_subgraphs d !! x = Some r /\ P (kind_label (csg_Kind (sr_Subgraph r)))) ->
  (forall m, same_sigs (md_subgraphs d) m -> moves P (k tt) R (md_set_subgraphs m d)) ->
  moves P (touch_all now ids ≫= k) R d.
Proof.
  intros Hids Hk Hd. destruct (touch_steps P now ids d Hids) as [Hr Hs].
  specialize (Hk _ Hs (labelled_steps_inv _ _ _ Hr Hd)). unfold touch_all, mbind, M_bind, modify.
  destruct (k tt _) as [[b|e] d2]; [|done]. destruct Hk as [Hr2 HR]. split; [by etrans|done].
Qed.

Lemma fault_point_Ok f msg d u d' : fault_point f msg d = (Ok u, d') -> d' = d.
Proof.
  unfold fault_point. intros H. res_inv. unfold get_state in *. simplify_eq. case_bool_decide; res_inv; done.
Qed.

Lemma appendMutationEvents_Ok now principal action topic subject payload d u d' :
  appendMutationEvents now principal action topic subject payload d = (Ok u, d') ->
  d' = md_set_outbox (md_outbox d ++ [mkOutboxEvent (numbered "outbox-" (Z.of_nat (length (md_outbox d)) + 1)) topic subject payload now])
         (md_set_audit (md_audit d ++ [auditEvent d principal action subject now]) d).
Proof.
  unfold appendMutationEvents, appendAudit, appendOutbox. intros H. res_inv.
  repeat match goal with H : fault_point _ _ _ = _ |- _ => apply fault_point_Ok in H end.
  unfold get_state, modify in *. by simplify_eq/=.
Qed.

Lemma moves_events {B} (P : label -> Prop) now principal action topic subject payload (k : unit -> M error memoryData B) R d :
  P LLog -> (forall o a, moves P (k tt) R (md_set_outbox o (md_set_audit a d))) ->
  moves P (appendMutationEvents now principal action topic subject payload ≫= k) R d.
Proof.
  intros HP Hk. apply ctx_moves_bind with (Q := fun _ d1 => exists o a, d1 = md_set_outbox o (md_set_audit a d)).
  - intros Hd. destruct (appendMutationEvents _ _ _ _ _ _ d) as [[u|e] d1] eqn:Hr; [|done].
    apply appendMutationEvents_Ok in Hr as ->. split; [|by eexists _, _].
    eapply rtc_l; [exists LLog; split; [done|by apply (ev_audit d (auditEvent d principal action subject now))]|].
    apply rtc_once. exists LLog. split; [done|]. by refine (ev_outbox (md_set_audit _ d) _ _).
  - intros [] d1 (o & a & ->). apply Hk.
Qed.

Lemma moves_edge {B} (P : label -> Prop) e (k : unit -> M error memoryData B) R d :
  P LGeneral -> edge_ok d e -> (forall m, moves P (k tt) R (md_set_edges m d)) -> moves P (addEdge e ≫= k) R d.
Proof.
  intros HP He Hk. apply ctx_moves_bind with (Q := fun _ d1 => exists m, d1 = md_set_edges m d).
  - intros Hd. destruct (addEdge e d) as [[u|err] d1] eqn:Hr; [|done]. unfold addEdge in Hr. res_inv.
    match goal with H : fault_point _ _ _ = _ |- _ => apply fault_point_Ok in H as -> end.
    unfold modify in *. simplify_eq. split; [|by eexists]. apply rtc_once. exists LGeneral. split; [done|by apply ev_edge].
  - intros [] d1 (m & ->). apply Hk.
Qed.

(** ** Deltas *)

Lemma elem_of_visibleDelta record subgraphs changed x :
  x ∈ visibleDeltaSubgraphs record subgraphs changed <->
    x ∈ changed /\ x <> "" /\ x ∈ sub_SubgraphIDs (csr_Subscription record) /\
    exists g, subgraphs !! x = Some g /\ canSubscriptionSeeSubgraph record g = true.
Proof.
  unfold visibleDeltaSubgraphs. rewrite list_elem_of_filter, andb_true_iff, contains_true, elem_of_uniqueStrings.
  destruct (subgraphs !! x) as [g|]; naive_solver.
Qed.

Lemma deltaSubgraphs_active d p kind changed record x :
  x ∈ deltaSubgraphs d p kind changed record ->
  csr_ProjectID record = p /\ csr_Active record = true /\ recordMatchesDelta (csr_Subscription record) kind changed = true /\
  x ∈ visibleDeltaSubgraphs record (md_subgraphs d) changed.
Proof.
  unfold deltaSubgraphs. destruct (_ || _) eqn:Hg; [by intros ?%elem_of_nil|]. bool_inv. intros. split_and!; auto.
Qed.

Lemma deltaStep_moves (P : label -> Prop) principal event kind changed d created k record :
  P LDelta -> data_inv d -> md_subscriptions d !! k = Some record ->
  exists m, (deltaStep principal event kind changed (d, created) record).1 = md_set_deltas m d /\
    rtc (step P) d (md_set_deltas m d).
Proof.
  intros HP Hd Hk. unfold deltaStep. destruct (deltaSubgraphs _ _ _ _ _) as [|x l] eqn:Hv.
  { exists (md_deltas d). split; [by destruct d|]. by destruct d. }
  eexists. split; [done|]. apply rtc_once. exists LDelta. split; [done|].
  set (y := mkDelta _ _ _ _ _ _ _ _). change (numbered "delta-" _) with (cd_ID y).
  assert (x ∈ deltaSubgraphs d (pri_ProjectID principal) kind changed record) as Hx by (rewrite Hv; by left).
  apply deltaSubgraphs_active in Hx as (Hp & Ha & _).
  destruct (di_subs _ Hd k record Hk) as [Hid _ _ _]. apply (ev_delta d y record); simpl; [done| |by rewrite Hid|done].
  split; [done|]. split; [done|]. exists record. simpl. rewrite Hid. split_and!; [done..|].
  intros g Hg. rewrite <- Hv in Hg. apply deltaSubgraphs_active in Hg as (_ & _ & _ & Hg).
  apply elem_of_visibleDelta in Hg. tauto.
Qed.

Lemma appendContextDeltas_moves (P : label -> Prop) principal event kind changed d :
  P LDelta -> data_inv d -> exists created m, appendContextDeltas principal event kind changed d = (Ok created, md_set_deltas m d) /\
    rtc (step P) d (md_set_deltas m d).
Proof.
  intros HP Hd. unfold appendContextDeltas.
  assert (forall l d1 created, data_inv d1 -> (forall r, r ∈ l -> exists k, md_subscriptions d1 !! k = Some r) ->
    exists m created', foldl (deltaStep principal event kind changed) (d1, created) l = (md_set_deltas m d1, created') /\
      rtc (step P) d1 (md_set_deltas m d1)) as Hl.
  { induction l as [|r l IH]; intros d1 created Hd1 Hin.
    - exists (md_deltas d1), created. simpl. split; by destruct d1.
    - destruct (Hin r) as (k & Hk); [by left|]. cbn [foldl].
      destruct (deltaStep_moves P principal event kind changed d1 created k r HP Hd1 Hk) as (m & Hm & Hs).
      destruct (deltaStep _ _ _ _ (d1, created) r) as [d2 created2]. simpl in Hm. subst d2.
      destruct (IH (md_set_deltas m d1) created2) as (m' & c' & Heq & Hs').
      { by eapply labelled_steps_inv. } { intros. apply Hin. by right. }
      exists m', c'. split; [by rewrite Heq|]. etrans; [exact Hs|exact Hs']. }
  destruct (Hl (range_values (md_subscriptions d)) d [] Hd) as (m & c & -> & Hs).
  { intros r Hr. by apply elem_of_range_values. }
  eauto.
Qed.

Lemma moves_deltas {B} (P : label -> Prop) principal event kind changed (k : list ContextDelta -> M error memoryData B) R d :
  P LDelta -> (forall c m, moves P (k c) R (md_set_deltas m d)) ->
  moves P (appendContextDeltas principal event kind changed ≫= k) R d.
Proof.
  intros HP Hk. apply ctx_moves_bind with (Q := fun _ d1 => exists m, d1 = md_set_deltas m d).
  - intros Hd. destruct (appendContextDeltas_moves P principal event kind changed d HP Hd) as (c & m & -> & Hs).
    split; [done|by eexists].
  - intros c d1 (m & ->). apply Hk.
Qed.

Lemma moves_revision {B} (P : label -> Prop) (k : unit -> M error memoryData B) R d :
  P LLog -> moves P (k tt) R (md_set_graphRevision (Revision_Next (md_graphRevision d)) d) ->
  moves P (bump_revision ≫= k) R d.
Proof. intros HP Hk. apply moves_modify; [|done]. exists LLog. split; [done|apply ev_revision]. Qed.

Lemma moves_publish (P : label -> Prop) principal kind changed Q d :
  P LLog -> P LDelta ->
  (forall m, Q tt (md_set_deltas m (md_set_graphRevision (Revision_Next (md_graphRevision d)) d))) ->
  moves P (publish principal kind changed) Q d.
Proof.
  intros HL HD HQ. unfold publish. apply moves_revision; [done|]. apply moves_get.
  apply moves_deltas; [done|]. intros c m. apply ctx_moves_ret, HQ.
Qed.

Lemma moves_publish_bind {B} (P : label -> Prop) principal kind changed (k : unit -> M error memoryData B) R d :
  P LLog -> P LDelta -> (forall d1, moves P (k tt) R d1) -> moves P (publish principal kind changed ≫= k) R d.
Proof.
  intros HL HD Hk. apply ctx_moves_bind with (Q := fun _ _ => True); [by apply moves_publish|]. intros [] d1 _. apply Hk.
Qed.

End with_runtime.

(** A list of labels as a predicate. *)
Definition among (ls : list label) (l : label) : Prop := l ∈ ls.

Definition graph_labels : list label := [LGeneral; LLog; LDelta].
Definition task_labels : list label := [LTask; LLog; LDelta].

Lemma general_label kind : kind = SubgraphKindGeneral -> kind_label kind = LGeneral.
Proof. intros ->. reflexivity. Qed.
Lemma task_label kind : kind = SubgraphKindTask -> kind_label kind = LTask.
Proof. intros ->. reflexivity. Qed.

Ltac in_labels := unfold among, graph_labels, task_labels; rewrite ?elem_of_cons; auto 8.

Lemma graph_general : among graph_labels LGeneral.
Proof. in_labels. Qed.
Lemma task_task : among task_labels LTask.
Proof. in_labels. Qed.
