(* ===== verification/CtxCalls.v ===== *)
(** * Every call of the context graph store performs events *)

From stdpp Require Import base tactics option list strings gmap sorting relations.
From Stdlib Require Import ZArith Ascii.
From S2P Require Import Prelude GoLib GoStrings Kernel CoordTypes Acyclic GraphSpec Auth CtxModel.
From S2P Require Import CtxSubs CtxCurate CtxReads CtxTasks CtxSpec CtxInv CtxOps.

(** ** What the guards establish *)

Lemma canSeeSubgraph_true p g :
  canSeeSubgraph p g = true <-> pri_ProjectID p = sr_ProjectID g /\
    (csg_Kind (sr_Subgraph g) = SubgraphKindGeneral \/ (pri_TaskID p <> "" /\ sr_TaskID g = pri_TaskID p)).
Proof.
  unfold canSeeSubgraph. repeat case_bool_decide; rewrite ?bool_decide_eq_true; try tauto; split; try done; intros; tauto.
Qed.

Lemma validateNodeKind_Ok kind u : validateNodeKind kind = Ok u <-> kind ∈ node_kinds.
Proof. unfold validateNodeKind. by rewrite fail_if_Ok, negb_false_iff, one_of_true. Qed.

Lemma validateNodeStatus_Ok st u : validateNodeStatus st = Ok u <-> st ∈ node_statuses.
Proof. unfold validateNodeStatus. by rewrite fail_if_Ok, negb_false_iff, one_of_true. Qed.

Lemma rejectTaskMembership_Ok subs ids u :
  rejectTaskMembership subs ids = Ok u <->
    forall x g, x ∈ ids -> subs !! x = Some g -> csg_Kind (sr_Subgraph g) <> SubgraphKindTask.
Proof.
  unfold rejectTaskMembership. rewrite each_Ok. split.
  - intros H x g Hx Hg. specialize (H x Hx). rewrite Hg in H. by apply guard_Ok in H.
  - intros H x Hx. destruct (subs !! x) as [g|] eqn:Hg; [|done]. apply guard_Ok. by eapply H.
Qed.

Lemma validateNewNode_Ok p subs node creation u :
  validateNewNode p subs node creation = Ok u ->
    cn_ID node <> "" /\ cn_Statement node <> "" /\ cn_CreatorAgentID node <> "" /\ cn_Kind node ∈ node_kinds /\ cn_Status node ∈ node_statuses /\
    cn_SourceRefs node <> [] /\
    forall x, x ∈ cn_SubgraphIDs node -> exists g, subs !! x = Some g /\
      csg_Kind (sr_Subgraph g) = SubgraphKindGeneral /\ sr_ProjectID g = pri_ProjectID p.
Proof.
  unfold validateNewNode. intros H. res_inv. bool_inv.
  repeat match goal with
  | H : validateNodeKind _ = Ok _ |- _ => apply validateNodeKind_Ok in H
  | H : validateNodeStatus _ = Ok _ |- _ => apply validateNodeStatus_Ok in H
  end. split_and!; try done. intros x Hx. specialize (H x Hx). destruct (subs !! x) as [g|]; [|done]. res_inv. bool_inv.
  exists g. match goal with H : canSeeSubgraph _ _ = true |- _ => apply canSeeSubgraph_true in H as [? _] end. done.
Qed.

Lemma CheckExpected_eq e a u : CheckExpectedRevision e a = Ok u -> e = a.
Proof. rewrite CheckExpectedRevision_Ok. tauto. Qed.

(** The names the store gives are apart. *)
Lemma not_task_node_id prefix n c s :
  prefix = String c s -> c <> "t"%char -> ~ task_node_id (numbered prefix n).
Proof. intros -> Hc [m H]. unfold numbered in H. by injection H. Qed.

Lemma node_id_general n : ~ task_node_id (numbered "node-" n).
Proof. by eapply not_task_node_id. Qed.
Lemma review_id_general n : ~ task_node_id (numbered "review-node-" n).
Proof. by eapply not_task_node_id. Qed.

Section with_runtime.
Context `{GR : GoRuntime}.

Lemma normalizeNode_shape id r node :
  nr_Node r = normalizeNode node -> cn_ID node = id -> cn_Kind node ∈ node_kinds -> cn_Status node ∈ node_statuses ->
  cn_Statement node <> "" -> uniqueStrings (cn_SourceRefs node) <> [] -> is_uint64 (nr_Revision r) ->
  is_uint64 (nr_Sequence r) -> node_shape id r.
Proof.
  intros Hr <- Hk Hs Hst Href Hrev Hseq. split; rewrite ?Hr; simpl; auto using uniqueStrings_normal.
Qed.

(** A record whose node passed validation. *)
Lemma general_record d p r node creation u :
  validateNewNode p (md_subgraphs d) node creation = Ok u -> nr_Node r = node -> nr_ProjectID r = pri_ProjectID p ->
  general_node d r.
Proof.
  intros (_ & _ & _ & _ & _ & _ & Hg)%validateNewNode_Ok <- Hp x Hx. destruct (Hg x Hx) as (g & ? & ? & ?).
  exists g. by rewrite Hp.
Qed.

Lemma general_members (P : label -> Prop) d r :
  P LGeneral -> general_node d r ->
  forall x, x ∈ cn_SubgraphIDs (nr_Node r) ->
    exists g, md_subgraphs d !! x = Some g /\ P (kind_label (csg_Kind (sr_Subgraph g))).
Proof.
  intros HP Hg x Hx. destruct (Hg x Hx) as (g & Hx' & Hk & _). exists g. split; [done|]. by rewrite general_label.
Qed.

Lemma task_members (P : label -> Prop) d r :
  P LTask -> task_node d r ->
  forall x, x ∈ cn_SubgraphIDs (nr_Node r) ->
    exists g, md_subgraphs d !! x = Some g /\ P (kind_label (csg_Kind (sr_Subgraph g))).
Proof.
  intros HP [_ Hg] x Hx. destruct (Hg x Hx) as (g & Hx' & Hk & _). exists g. split; [done|]. by rewrite task_label.
Qed.

(** A node that passed the membership check is general. *)
Lemma untasked_general d id r u :
  data_inv d -> md_nodes d !! id = Some r -> rejectTaskMembership (md_subgraphs d) (cn_SubgraphIDs (nr_Node r)) = Ok u ->
  general_node d r.
Proof.
  intros Hd Hr Hj. destruct (di_nodes _ Hd id r Hr) as [_ [?|[[Hne Ht] _]]]; [done|]. exfalso.
  destruct (cn_SubgraphIDs (nr_Node r)) as [|x l] eqn:Hl; [done|]. rewrite <- Hl in *.
  assert (x ∈ cn_SubgraphIDs (nr_Node r)) as Hx by (rewrite Hl; by left).
  destruct (Ht x Hx) as (g & Hg & Hk & _). rewrite rejectTaskMembership_Ok in Hj. by apply (Hj x g).
Qed.

(** ** General nodes *)

(** A node is written that is general, over nothing or over a general node. *)
Lemma moves_general_node {B} (P : label -> Prop) id r (k : unit -> M error memoryData B) R d :
  P LGeneral -> node_shape id r -> general_node d r ->
  (forall r0, md_nodes d !! id = Some r0 -> data_inv d -> general_node d r0) ->
  moves P (k tt) R (md_set_nodes (<[id := r]> (md_nodes d)) d) -> moves P (put_node id r ≫= k) R d.
Proof.
  intros HP Hs Hg Hold Hk. apply moves_with_inv. intros Hd. eapply moves_put_node; [exact HP| |done].
  apply ev_general_node; auto.
Qed.

Lemma curatedNode_moves {B} (P : label -> Prop) p expected id (k : NodeRecord -> M error memoryData B) R d :
  (forall r, md_nodes d !! id = Some r -> nr_ProjectID r = pri_ProjectID p -> nr_Revision r = expected ->
     general_node d r -> node_shape id r -> moves P (k r) R d) ->
  moves P (curatedNode p expected id ≫= k) R d.
Proof.
  intros Hk. apply moves_with_inv. intros Hd Hd'. unfold curatedNode, mbind, M_bind, get_state.
  destruct (md_nodes d !! id) as [r|] eqn:Hr; [|done]. unfold lift.
  destruct (fail_if _ _) as [u|e] eqn:H1; [|done]. apply fail_if_Ok in H1. bool_inv.
  destruct (rejectTaskMembership _ _) as [u2|e] eqn:H2; [|done].
  destruct (CheckExpectedRevision _ _) as [u3|e] eqn:H3; [|done]. apply CheckExpected_eq in H3.
  apply Hk; auto; [by eapply untasked_general|]. by apply (di_nodes _ Hd).
Qed.

Lemma CreateNode_emits ctx p req now s : emits (among graph_labels) (CreateNode ctx p req now) s.
Proof.
  unfold CreateNode. apply ctx_emits_guard. intros _ _. apply ctx_emits_guard. intros _ _.
  apply emits_transact with (Q := fun _ _ => True). apply moves_bump_seq; [in_labels|]. intros seq Hseq. apply moves_get.
  apply moves_guard. intros u Hu. unfold validateGeneralNode in Hu. res_inv.
  match goal with H : validateNewNode _ _ _ _ = _ |- _ => rename H into Hv end.
  set (node := normalizeNode _) in *. set (r := mkNodeRecord node 1 (pri_ProjectID p) now seq).
  set (d := md_set_nextSeq seq (cs_data s)) in *.
  assert (general_node d r) as Hg by by eapply general_record.
  apply validateNewNode_Ok in Hv as (_ & Hst & _ & Hk & Hss & Href & _).
  apply moves_general_node; [in_labels| |done| |].
  - eapply normalizeNode_shape; done.
  - intros r0 Hr0 Hd. eapply node_ok_general; [by apply (di_nodes _ Hd)|apply node_id_general].
  - apply moves_touch; [exact (general_members _ d r graph_general Hg)|]. intros m Hm.
    apply moves_events; [in_labels|]. intros ? ?. apply moves_publish_bind; [in_labels..|].
    intros d1. by apply ctx_moves_ret.
Qed.

Lemma UpdateNode_emits ctx p req now s : emits (among graph_labels) (UpdateNode ctx p req now) s.
Proof.
  unfold UpdateNode. do 3 (apply ctx_emits_guard; intros ? ?).
  apply emits_transact with (Q := fun _ _ => True). apply curatedNode_moves. intros r Hr Hp _ Hgr Hsr. apply moves_get.
  apply moves_guard. intros u Hu. unfold validateGeneralNode in Hu. res_inv.
  match goal with H : validateNewNode _ _ _ _ = _ |- _ => rename H into Hv end.
  set (node := normalizeNode _) in *. set (r' := nr_revise node r). set (d := cs_data s) in *.
  assert (general_node d r') as Hg by by eapply general_record.
  apply validateNewNode_Ok in Hv as (_ & Hst & _ & Hk & Hss & Href & _).
  assert (cn_ID node = un_NodeID req) as Hid by (unfold node; simpl; by apply Hsr).
  rewrite Hid. apply moves_general_node; [in_labels| |done| |].
  - eapply normalizeNode_shape; [done|exact Hid|done..|apply uint64_wrap_is|apply Hsr].
  - intros r0 Hr0 _. by simplify_eq.
  - apply moves_touch.
    + intros x [[Hx _]|[Hx _]]%elem_of_changed.
      * apply (general_members (among graph_labels) d r' graph_general Hg x Hx).
      * apply (general_members (among graph_labels) d r graph_general Hgr x Hx).
    + intros m Hm. apply moves_events; [in_labels|]. intros ? ?. apply moves_publish_bind; [in_labels..|].
      intros d1. by apply ctx_moves_ret.
Qed.

Lemma DeleteNode_emits ctx p req now s : emits (among graph_labels) (DeleteNode ctx p req now) s.
Proof.
  unfold DeleteNode. do 3 (apply ctx_emits_guard; intros ? ?).
  apply emits_transact with (Q := fun _ _ => True). apply curatedNode_moves. intros r Hr Hp _ Hgr Hsr.
  apply moves_modify.
  - exists LGeneral. split; [in_labels|]. eapply ev_delete_node; [done|done|]. intros k e. rewrite lookup_range_delete.
    destruct (md_edges _ !! k) as [e0|]; [|naive_solver]. destruct (_ || _) eqn:Hb; bool_inv.
    + split; [done|]. intros ([= <-] & Hn1 & Hn2). destruct Hb as [Hb|Hb]; bool_inv; done.
    + split; [intros [= ->]; auto|]. by intros (? & _).
  - apply moves_touch; [exact (general_members _ (cs_data s) r graph_general Hgr)|]. intros m Hm.
    apply moves_events; [in_labels|]. intros ? ?. by apply moves_publish; [in_labels..|].
Qed.

(** ** General subgraphs *)

Lemma memberUpdate_general d p sid nodeIDs id r :
  data_inv d -> is_general d (pri_ProjectID p) sid -> md_nodes d !! id = Some r ->
  (id ∈ nodeIDs -> id <> "" -> general_node d r) ->
  exists r', Some (default r (memberUpdate p sid (list_to_set (uniqueStrings nodeIDs)) id r)) = Some r' /\
    (r' = r \/ (general_node d r /\ general_node d r' /\ node_shape id r')).
Proof.
  intros Hd Hs Hr Hwant. unfold memberUpdate. destruct (di_nodes _ Hd id r Hr) as [Hsh Hm].
  case_bool_decide as Hp; [exists r; by split; [|left]|].
  destruct (bool_decide (id ∈ _)) eqn:Hw; destruct (contains _ sid) eqn:Hc; simpl; try (exists r; by split; [|left]).
  - eexists. split; [done|right]. bool_inv. rewrite elem_of_list_to_set, elem_of_uniqueStrings in Hw.
    destruct Hw as [Hin Hne']. specialize (Hwant Hin Hne'). split; [done|]. split.
    + intros x. simpl. rewrite elem_of_uniqueStrings, elem_of_app, list_elem_of_singleton.
      intros [[Hx| ->] _]; [by apply Hwant|by rewrite Hp].
    + destruct Hsh. split; simpl; auto using uniqueStrings_normal.
  - eexists. split; [done|right]. apply contains_true in Hc.
    assert (general_node d r) as Hg.
    { destruct Hm as [?|[[_ Ht] _]]; [done|]. exfalso. destruct (Ht sid Hc) as (g1 & H1 & K1 & _), Hs as (g2 & H2 & K2 & _).
      simplify_eq. rewrite K1 in K2. done. }
    split; [done|]. split.
    + intros x Hx. simpl in Hx. apply elem_of_removeString in Hx as [Hx _]. by apply Hg.
    + destruct Hsh. split; simpl; auto using normal_removeString.
Qed.

Lemma moves_members {B} (P : label -> Prop) p sid nodeIDs (k : unit -> M error memoryData B) R d :
  P LGeneral -> is_general d (pri_ProjectID p) sid ->
  (forall m, moves P (k tt) R (md_set_nodes m d)) -> moves P (setGeneralSubgraphMembers p sid nodeIDs ≫= k) R d.
Proof.
  intros HP Hs Hk. apply ctx_moves_bind with (Q := fun _ d1 => exists m, d1 = md_set_nodes m d).
  2:{ intros [] d1 (m & ->). apply Hk. }
  unfold setGeneralSubgraphMembers. apply moves_get, moves_guard. intros u Hu. rewrite each_Ok in Hu.
  intros Hd. simpl. split; [|by eexists]. apply rtc_once. exists LGeneral. split; [done|]. apply ev_members.
  intros id. rewrite lookup_range_update. destruct (md_nodes d !! id) as [r|] eqn:Hr; [|done].
  apply memberUpdate_general; [done..|]. intros Hin Hne'.
  specialize (Hu id). rewrite elem_of_uniqueStrings, Hr in Hu. specialize (Hu (conj Hin Hne')). res_inv. by eapply untasked_general.
Qed.

Lemma freeSubgraphID_Ok fuel i m id : freeSubgraphID fuel i m = Ok id -> m !! id = None /\ exists j, id = numbered "subgraph-" j.
Proof.
  revert i. induction fuel as [|fuel IH]; intros i; simpl; [done|].
  destruct (m !! numbered "subgraph-" i) eqn:Hm; [apply IH|]. intros [= <-]. eauto.
Qed.

Lemma CreateSubgraph_emits ctx p req now s : emits (among graph_labels) (CreateSubgraph ctx p req now) s.
Proof.
  unfold CreateSubgraph. do 3 (apply ctx_emits_guard; intros ? ?).
  apply emits_transact with (Q := fun _ _ => True). apply moves_get, moves_guard.
  intros id (Hfree & j & Hj)%freeSubgraphID_Ok. unfold put_subgraph. apply moves_modify.
  - exists LGeneral. split; [in_labels|]. by apply ev_general_subgraph.
  - apply moves_members; [in_labels| |].
    + eexists. simpl. rewrite lookup_insert_eq. done.
    + intros m. apply moves_events; [in_labels|]. intros ? ?. apply moves_publish_bind; [in_labels..|].
      intros d1. by apply ctx_moves_ret.
Qed.

Lemma curatedSubgraph_moves {B} (P : label -> Prop) p expected id verb (k : SubgraphRecord -> M error memoryData B) R d :
  (forall r, md_subgraphs d !! id = Some r -> sr_ProjectID r = pri_ProjectID p ->
     csg_Kind (sr_Subgraph r) = SubgraphKindGeneral -> moves P (k r) R d) ->
  moves P (curatedSubgraph p expected id verb ≫= k) R d.
Proof.
  intros Hk Hd. unfold curatedSubgraph, mbind, M_bind, get_state.
  destruct (md_subgraphs d !! id) as [r|] eqn:Hr; [|done]. unfold lift.
  destruct (fail_if (bool_decide (sr_ProjectID r <> _)) _) as [u|e] eqn:H1; [|done]. apply fail_if_Ok in H1. bool_inv.
  destruct (fail_if _ _) as [u2|e] eqn:H2; [|done]. apply fail_if_Ok in H2. bool_inv.
  destruct (CheckExpectedRevision _ _) as [u3|e] eqn:H3; [|done]. by apply Hk.
Qed.

(** A subgraph has a name. *)
Lemma subgraph_named d id r : data_inv d -> md_subgraphs d !! id = Some r -> csg_ID (sr_Subgraph r) = id.
Proof. intros Hd Hr. by apply (di_subgraphs _ Hd). Qed.

Lemma UpdateSubgraph_emits ctx p req now s : emits (among graph_labels) (UpdateSubgraph ctx p req now) s.
Proof.
  unfold UpdateSubgraph. do 2 (apply ctx_emits_guard; intros ? ?).
  apply emits_transact with (Q := fun _ _ => True). apply curatedSubgraph_moves. intros r Hr Hp Hk.
  unfold put_subgraph. apply moves_modify.
  - exists (kind_label (csg_Kind (sr_Subgraph r))). split; [rewrite general_label by done; in_labels|]. apply ev_subgraph; [done|done|apply int_wrap_is_int].
  - apply moves_members; [in_labels| |].
    + eexists. simpl. rewrite lookup_insert_eq. done.
    + intros m. apply moves_events; [in_labels|]. intros ? ?. apply moves_publish_bind; [in_labels..|].
      intros d1. by apply ctx_moves_ret.
Qed.

Lemma DeleteSubgraph_emits ctx p req now s : emits (among graph_labels) (DeleteSubgraph ctx p req now) s.
Proof.
  unfold DeleteSubgraph. do 2 (apply ctx_emits_guard; intros ? ?).
  apply emits_transact with (Q := fun _ _ => True). apply curatedSubgraph_moves. intros r Hr Hp Hk.
  apply moves_modify.
  - exists LGeneral. split; [in_labels|]. eapply ev_delete_subgraph; [done|done| |].
    + intros k. rewrite lookup_range_update. by destruct (md_nodes _ !! k).
    + intros k e. rewrite lookup_range_delete. destruct (md_edges _ !! k) as [e0|]; [|naive_solver].
      case_bool_decide as Hb; split; [done|by intros ([= <-] & ?)|by intros [= ->]|by intros (? & _)].
  - apply moves_events; [in_labels|]. intros ? ?. by apply moves_publish; [in_labels..|].
Qed.

End with_runtime.

(** * Every call of the context graph store performs events: the rest

    Node creation in bulk, subscriptions, deltas, slices, task projections and
    the review of task memory.  [ctx_op] lists the calls of the store and
    [ctx_reachable] the stores they lead to. *)

Definition review_labels (key : taskScopeKey) : list label := [LGeneral; LLog; LDelta; LMemory key].

Section with_runtime.
Context `{GR : GoRuntime}.

(** ** [CreateNodes] *)

(** What the edges of a new node need: the node itself and what was there. *)
Definition has_node (id : string) (d : memoryData) : Prop := is_Some (md_nodes d !! id).

Lemma previousEdge_moves p creation node edges d :
  has_node (cn_ID node) d ->
  moves (among graph_labels) (previousEdge p creation node edges) (fun _ d1 => has_node (cn_ID node) d1) d.
Proof.
  intros Hn. unfold previousEdge. case_bool_decide; [by apply ctx_moves_ret|]. apply moves_get.
  destruct (md_nodes d !! _) as [r|] eqn:Hr; [|by apply ctx_moves_ret]. destruct (continues _ _ _ _); [|by apply ctx_moves_ret].
  apply moves_with_inv. intros Hd. destruct (di_nodes _ Hd _ r Hr) as [[Hid _ _ _ _ _ _ _] _].
  apply moves_edge; [in_labels| |intros m; by apply ctx_moves_ret]. split; [done|]. left. simpl.
  eexists. split; [done|]. rewrite Hid. by eexists.
Qed.

Lemma derivedEdge_moves p node edges x d :
  has_node (cn_ID node) d ->
  moves (among graph_labels) (derivedEdge p node edges x) (fun _ d1 => has_node (cn_ID node) d1) d.
Proof.
  intros Hn. unfold derivedEdge. apply moves_get.
  destruct (md_subgraphs d !! x) as [g|] eqn:Hg; [|by apply ctx_moves_ret]. destruct (canSeeSubgraph p g); [|by apply ctx_moves_ret].
  apply moves_edge; [in_labels| |intros m; by apply ctx_moves_ret]. split; [done|]. right. simpl.
  eexists. split; [done|]. by eexists.
Qed.

Lemma createOne_moves p now acc input d : moves (among graph_labels) (createOne p now acc input) (fun _ _ => True) d.
Proof.
  unfold createOne. destruct acc as [[created edges] changed]. apply moves_get.
  apply moves_guard. intros u Hv. apply moves_guard. intros u2 Hfresh%guard_Ok. apply eq_None_not_Some in Hfresh.
  apply moves_bump_seq; [in_labels|]. intros seq Hseq.
  set (node := normalizeNode (cni_Node input)) in *. set (r := mkNodeRecord node 1 (pri_ProjectID p) now seq).
  set (d1 := md_set_nextSeq seq d) in *.
  assert (general_node d1 r) as Hg by exact (general_record d p r node _ _ Hv eq_refl eq_refl).
  apply validateNewNode_Ok in Hv as (_ & Hst & _ & Hk & Hss & Href & _).
  apply moves_general_node; [in_labels| |done| |].
  - eapply normalizeNode_shape; done.
  - intros r0 Hr0. change (md_nodes d !! cn_ID node = Some r0) in Hr0. congruence.
  - apply moves_touch; [exact (general_members _ d1 r graph_general Hg)|]. intros m Hm.
    eapply ctx_moves_bind; [apply previousEdge_moves; unfold has_node; simpl; rewrite lookup_insert_eq; by eexists|].
    intros edges1 d2 H2. eapply ctx_moves_bind.
    + apply (ctx_moves_foldMM _ (has_node (cn_ID node))); [|exact H2]. intros. by apply derivedEdge_moves.
    + intros edges2 d3 _. apply moves_events; [in_labels|]. intros o a. by apply ctx_moves_ret.
Qed.

Lemma CreateNodes_emits ctx p req now s : emits (among graph_labels) (CreateNodes ctx p req now) s.
Proof.
  unfold CreateNodes. do 2 (apply ctx_emits_guard; intros ? ?).
  apply emits_transact with (Q := fun _ _ => True). apply moves_get, moves_guard. intros _ _.
  eapply ctx_moves_bind; [apply (ctx_moves_foldMM _ (fun _ => True)); [|done]|].
  - intros. apply createOne_moves.
  - intros [[created edges] changed] d1 _. apply moves_publish_bind; [in_labels..|]. intros d2. apply moves_get.
    by apply ctx_moves_ret.
Qed.

(** ** Subscriptions *)

Lemma nextSubscriptionID_fresh (m : gmap string ContextSubscriptionRecord) :
  numbered_keys "sub-" m -> nextSubscriptionID m = Ok (numbered "sub-" (Z.of_nat (size m) + 1)).
Proof. intros Hm. unfold nextSubscriptionID. by rewrite numbered_keys_fresh. Qed.

Lemma visibleSubscriptionSubgraphs_Ok d p ids out :
  visibleSubscriptionSubgraphs d p ids = Ok out ->
  out = uniqueStrings ids /\ forall x, x ∈ out -> exists g, md_subgraphs d !! x = Some g /\ canSeeSubgraph p g = true.
Proof.
  unfold visibleSubscriptionSubgraphs. intros H. res_inv.
  revert H. apply (foldM_Ok_ind (fun acc done => acc = done /\
    forall x, x ∈ acc -> exists g, md_subgraphs d !! x = Some g /\ canSeeSubgraph p g = true)); [set_solver|].
  intros l1 x l2 b1 b2 _ [-> Hb] Hx. destruct (md_subgraphs d !! x) as [g|] eqn:Hg; [|done].
  destruct (canSeeSubgraph p g) eqn:Hc; [|done]. injection Hx as <-. split; [done|].
  intros y. rewrite elem_of_app, list_elem_of_singleton. intros [?| ->]; [by apply Hb|eauto].
Qed.

(** A new subscription, or nothing at all. *)
Lemma createSubscription_run now p req source d r d' :
  data_inv d -> createSubscription now p req source d = (r, d') ->
  match r with
  | Ok sub => exists record, csr_Subscription record = sub /\ csr_Active record = true /\ csr_Source record = source /\
      csr_ProjectID record = pri_ProjectID p /\
      sub_SubgraphIDs sub = uniqueStrings (sb_SubgraphIDs req) /\
      d' = md_set_subscriptions (<[sub_ID sub := record]> (md_subscriptions d)) d /\
      ctx_event d LSubscription d'
  | Err _ => d' = d
  end.
Proof.
  intros Hd. unfold createSubscription, mbind, M_bind, lift, get_state, put_state, mret, M_ret.
  destruct (subscriptionConsumerInvocationID p source) as [inv|e]; [|by intros [= <- <-]].
  destruct (fail_if _ _) as [u|e] eqn:Hinv; [|by intros [= <- <-]]. apply fail_if_Ok in Hinv. bool_inv.
  destruct (visibleSubscriptionSubgraphs _ _ _) as [ids|e] eqn:Hids; [|by intros [= <- <-]].
  apply visibleSubscriptionSubgraphs_Ok in Hids as [-> _].
  rewrite nextSubscriptionID_fresh by apply (di_sub_keys _ Hd). intros [= <- <-].
  exists (mkSubRecord (mkSubscription (numbered "sub-" (Z.of_nat (size (md_subscriptions d)) + 1)) inv
    (uniqueStrings (sb_SubgraphIDs req)) (uniqueStrings (sb_EventKinds req))
    (pri_ProjectID p +:+ ":" +:+ pri_TaskID p +:+ ":" +:+ pri_Role p)) (pri_ProjectID p)
    (subscriptionConsumerTaskID p source) (subscriptionConsumerRole p source) source true None None now).
  do 6 (split; [reflexivity|]).
  match goal with |- ctx_event _ _ (md_set_subscriptions (<[_ := ?x]> _) _) => apply (ev_subscribe d x) end; [done| |done].
  split; simpl; auto using uniqueStrings_normal.
Qed.

Lemma createSubscription_moves (P : label -> Prop) now p req source d :
  P LSubscription -> moves P (createSubscription now p req source) (fun _ _ => True) d.
Proof.
  intros HP Hd. destruct (createSubscription now p req source d) as [[sub|e] d'] eqn:Hr; [|done].
  apply createSubscription_run in Hr as (record & _ & _ & _ & _ & _ & _ & He); [|done].
  split; [|done]. apply rtc_once. by exists LSubscription.
Qed.

Lemma createSubscription_emits (P : label -> Prop) now p req source s :
  P LSubscription -> emits P (in_place (createSubscription now p req source)) s.
Proof.
  intros HP Hd. unfold in_place. destruct (createSubscription now p req source (cs_data s)) as [r d'] eqn:Hr.
  apply createSubscription_run in Hr; [|done]. destruct r as [sub|e]; simpl; [|by subst].
  destruct Hr as (record & _ & _ & _ & _ & _ & _ & He). apply rtc_once. by exists LSubscription.
Qed.

Definition sub_labels : list label := [LSubscription; LLog].

Lemma Subscribe_emits ctx p req now s : emits (among sub_labels) (Subscribe ctx p req now) s.
Proof.
  unfold Subscribe. do 2 (apply ctx_emits_guard; intros ? ?). eapply emits_transact, createSubscription_moves.
  unfold sub_labels. in_labels.
Qed.

(** Deactivating the subscriptions of one invocation. *)
Definition owned (p : ProjectID) (i : InvocationID) (_ : string) (r : ContextSubscriptionRecord) : Prop := consumed_by p i r = true.

Lemma deactivate_one d k r r' p i :
  md_subscriptions d !! k = Some r -> consumed_by p i r = true -> csr_Active r = true -> csr_Active r' = false ->
  csr_Subscription r' = csr_Subscription r -> csr_ProjectID r' = csr_ProjectID r ->
  ctx_event d LSubscription (md_set_subscriptions (<[k := r']> (md_subscriptions d)) d).
Proof.
  intros Hr Ho Ha Ha' Hs Hp. apply (ev_deactivate d (owned p i)). intros k0.
  destruct (decide (k = k0)) as [<-|Hne].
  - rewrite Hr, lookup_insert_eq. exists r'. split; [done|right]. done.
  - rewrite lookup_insert_ne by done. destruct (md_subscriptions d !! k0) as [r0|]; [|done]. exists r0. split; [done|by left].
Qed.

Lemma Unsubscribe_emits ctx p id now s : emits (among sub_labels) (Unsubscribe ctx p id now) s.
Proof.
  unfold Unsubscribe. do 3 (apply ctx_emits_guard; intros ? ?). apply emits_data.
  destruct (md_subscriptions (cs_data s) !! id) as [r|] eqn:Hr; [|by intros _].
  destruct (consumed_by _ _ r) eqn:Ho; simpl; [|by intros _]. destruct (csr_Active r) eqn:Ha; simpl; [|by intros _].
  intros Hd. unfold in_place. simpl. eapply rtc_l; [exists LSubscription; split; [unfold sub_labels; in_labels|]|].
  - by apply (deactivate_one _ id r (csr_cancel now r) (pri_ProjectID p) (consumerInvocationID p)).
  - apply rtc_once. exists LLog. split; [unfold sub_labels; in_labels|].
    by refine (ev_audit (md_set_subscriptions _ (cs_data s)) _ _).
Qed.

Lemma EndInvocation_emits ctx p i now s : emits (among sub_labels) (EndInvocation ctx p i now) s.
Proof.
  unfold EndInvocation. do 4 (apply ctx_emits_guard; intros ? ?). apply emits_in_place.
  exists LSubscription. split; [unfold sub_labels; in_labels|]. apply (ev_deactivate _ (owned (pri_ProjectID p) i)).
  intros k. rewrite lookup_range_update. destruct (md_subscriptions _ !! k) as [r|]; [|done].
  eexists. split; [done|]. destruct (negb (consumed_by _ _ r) || _) eqn:Hb; [by left|]. bool_inv. right. by split_and!.
Qed.

Lemma RecordContextDelta_emits ctx p event kind ids s :
  emits (among [LDelta]) (RecordContextDelta ctx p event kind ids) s.
Proof.
  unfold RecordContextDelta. do 2 (apply ctx_emits_guard; intros ? ?). intros Hd. unfold in_place.
  destruct (appendContextDeltas_moves (among [LDelta]) p event kind ids (cs_data s)) as (c & m & -> & Hs); [in_labels|done|].
  exact Hs.
Qed.

Lemma AckDelta_emits ctx p id s : emits (among [LDelta]) (AckDelta ctx p id) s.
Proof.
  unfold AckDelta. apply ctx_emits_guard. intros _ _. apply emits_data.
  destruct (md_deltas (cs_data s) !! id) as [x|] eqn:Hx; [|by intros _]. apply ctx_emits_guard. intros _ _.
  destruct (md_subscriptions (cs_data s) !! cd_SubscriptionID x) as [r|]; [|by intros _]. apply ctx_emits_guard. intros _ _.
  apply emits_in_place. exists LDelta. split; [in_labels|]. by eapply ev_ack.
Qed.

Lemma Search_emits ToLower ctx p req now s : emits (among sub_labels) (Search ToLower ctx p req now) s.
Proof.
  unfold Search. do 3 (apply ctx_emits_guard; intros ? _). apply emits_data. do 2 (apply ctx_emits_guard; intros ? _).
  apply ctx_emits_bind; [|by intros ? ? _ _].
  case_bool_decide; [by apply ctx_emits_readonly|]. apply ctx_emits_bind; [|by intros ? ? _ _].
  apply createSubscription_emits. unfold sub_labels. in_labels.
Qed.

Lemma EnsureInitialSlice_emits ctx p ids now s : emits (among sub_labels) (EnsureInitialSlice ctx p ids now) s.
Proof.
  unfold EnsureInitialSlice. do 2 (apply ctx_emits_guard; intros ? _). apply ctx_emits_get.
  destruct (cs_initialSlices s !! _); [by apply ctx_emits_readonly|]. apply ctx_emits_bind.
  - case_bool_decide; [|by apply ctx_emits_readonly]. apply ctx_emits_bind; [|by intros ? ? _ _].
    apply createSubscription_emits. unfold sub_labels. in_labels.
  - intros id s1 _ _. done.
Qed.

(** ** Task subgraphs and projections *)

Lemma RegisterTaskSubgraph_emits ctx p t now s : emits (among task_labels) (RegisterTaskSubgraph ctx p t now) s.
Proof.
  unfold RegisterTaskSubgraph. do 2 (apply ctx_emits_guard; intros ? ?). apply ctx_emits_guard. intros ? Ht%guard_Ok.
  apply ctx_emits_get. do 3 (apply ctx_emits_guard; intros ? ?).
  destruct (md_taskBindings _ !! _) eqn:Hb; [by apply ctx_emits_readonly|]. apply ctx_emits_guard. intros ? Hfree%guard_Ok.
  apply ctx_emits_bind; [|by intros ? ? _ _]. intros Hd. unfold in_place. simpl. apply eq_None_not_Some in Hfree.
  set (r := mkSubgraphRecord _ _ _ _ _).
  eapply rtc_l; [exists LTask; split; [in_labels|]; by apply (ev_task_subgraph _ (pri_ProjectID p) (taskOrOwn p t) r)|].
  eapply rtc_l; [exists LLog; split; [in_labels|apply ev_revision]|].
  apply rtc_once. exists LLog. split; [in_labels|].
  by refine (ev_audit (md_set_graphRevision _ (md_set_subgraphs _ (md_set_taskBindings _ _))) _ _).
Qed.

Lemma validateTaskProjectionShape_Ok pr u :
  validateTaskProjectionShape pr = Ok u ->
  tp_SourceRevision pr <> "" /\ tp_Statement pr <> "" /\ tp_Kind pr ∈ node_kinds /\ tp_Recipients pr <> [].
Proof.
  unfold validateTaskProjectionShape. intros H. res_inv. bool_inv.
  match goal with H : validateNodeKind _ = _ |- _ => apply validateNodeKind_Ok in H end. done.
Qed.

Lemma validateRecipient_binding p resolver d subs seen rc out :
  validateRecipient p resolver d subs seen rc = Ok out ->
  exists b, md_taskBindings d !! (pri_ProjectID p, tr_TaskID rc) = Some b /\ tb_SubgraphID b ∈ subs.
Proof.
  unfold validateRecipient. intros H. res_inv. destruct (md_taskBindings d !! _) as [b|] eqn:Hb; [|done].
  res_inv. bool_inv. exists b. split; [done|]. done.
Qed.

Lemma validateProjectionBindings_Ok p resolver d pr u :
  validateProjectionBindings p resolver d pr = Ok u -> tp_Recipients pr <> [] ->
  uniqueStrings (tp_SubgraphIDs pr) <> [] /\
  forall x, x ∈ uniqueStrings (tp_SubgraphIDs pr) -> is_task d (pri_ProjectID p) x.
Proof.
  unfold validateProjectionBindings. destruct resolver as [resolver|]; [|done]. intros H Hne. res_inv.
  match goal with H : foldM _ _ _ = Ok _ |- _ => rename H into Hf end.
  match goal with H : forall x, x ∈ uniqueStrings _ -> _ |- _ => rename H into He end. split.
  - destruct (tp_Recipients pr) as [|rc l]; [done|]. cbn [foldM] in Hf. res_inv.
    match goal with H : validateRecipient _ _ _ _ _ _ = _ |- _ => apply validateRecipient_binding in H as (b & _ & Hb) end.
    intros Heq. rewrite Heq in Hb. set_solver.
  - intros x Hx. specialize (He x Hx). destruct (md_subgraphs d !! x) as [g|] eqn:Hg; [|done].
    apply fail_if_Ok in He. bool_inv. by exists g.
Qed.

Lemma projectionSourceRefs_ok pr : normal (projectionSourceRefs pr) /\ projectionSourceRefs pr <> [].
Proof.
  split; [apply uniqueStrings_normal|]. eapply uniqueStrings_nonempty; [by left|]. done.
Qed.

Lemma updateProjection_moves p pr now id d k u v :
  validateTaskProjectionShape pr = Ok u -> validateProjectionBindings p v d pr = Ok u ->
  md_projections d !! k = Some id ->
  moves (among task_labels) (updateProjection p pr now id) (fun _ _ => True) d.
Proof.
  intros (_ & Hst & Hk & Hrc)%validateTaskProjectionShape_Ok Hb Hid. apply validateProjectionBindings_Ok in Hb as [Hne Ht]; [|done].
  apply moves_with_inv. intros Hd. destruct (di_projections _ Hd k id Hid) as (r & Hr & Htn).
  destruct (di_nodes _ Hd id r Hr) as [Hsh [Hg|[_ Hti]]]; [by destruct (task_not_general d r Htn)|].
  unfold updateProjection. apply moves_get. rewrite Hr. simpl. apply moves_guard. intros _ Hp%guard_not_Ok.
  destruct (compareSourceRevision _ _) as [c|]; [|apply moves_throw]. apply moves_guard. intros _ _.
  case_bool_decide; [by apply ctx_moves_ret|].
  set (node := mkNode _ _ _ _ _ _ _). set (r' := nr_revise node r).
  assert (task_node d r') as Htn'. { split; [done|]. intros x Hx. simpl. rewrite Hp. by apply Ht. }
  eapply moves_put_node; [exact task_task| |].
  - apply ev_task_node; [|done|done]. destruct Hsh as [S1 _ _ _ _ _ _ S8].
    split; simpl; auto using uniqueStrings_normal, projectionSourceRefs_ok; [unfold node_statuses; by left|apply uint64_wrap_is].
  - unfold put_recipients. apply moves_modify; [exists LTask; split; [in_labels|apply ev_recipients]|].
    apply moves_touch.
    + intros x [[Hx _]|[Hx _]]%elem_of_changed.
      * apply (task_members (among task_labels) d r' task_task Htn' x Hx).
      * apply (task_members (among task_labels) d r task_task Htn x Hx).
    + intros m Hm. apply moves_events; [in_labels|]. intros ? ?. apply moves_publish_bind; [in_labels..|].
      intros d1. by apply ctx_moves_ret.
Qed.

Lemma createProjection_moves p pr now d u v :
  validateTaskProjectionShape pr = Ok u -> validateProjectionBindings p v d pr = Ok u ->
  moves (among task_labels) (createProjection p pr now) (fun _ _ => True) d.
Proof.
  intros (_ & Hst & Hk & Hrc)%validateTaskProjectionShape_Ok Hb. apply validateProjectionBindings_Ok in Hb as [Hne Ht]; [|done].
  unfold createProjection. apply moves_bump_seq; [in_labels|]. intros seq Hseq.
  set (node := normalizeNode _). set (r := mkNodeRecord node 1 (pri_ProjectID p) now seq).
  set (d1 := md_set_nextSeq seq d).
  assert (task_node d1 r) as Htn by (split; [done|exact Ht]).
  assert (projectionSourceRefs pr = uniqueStrings (projectionSourceRefs pr)) as Hrefs.
  { destruct (projectionSourceRefs_ok pr) as [Hn _]. apply normal_unique; [done|apply uniqueStrings_normal|].
    intros x. rewrite elem_of_uniqueStrings. split; [|tauto]. intros Hx. split; [done|]. intros ->. by apply (nm_nonempty _ Hn). }
  eapply moves_put_node; [exact task_task| |].
  - apply ev_task_node; [|done|by eexists]. eapply normalizeNode_shape; [done|done|done| |done| |done|done].
    + unfold node_statuses. by left.
    + simpl. rewrite <- Hrefs. apply projectionSourceRefs_ok.
  - apply moves_modify.
    { exists LTask. split; [in_labels|]. eapply ev_projection; [simpl; by rewrite lookup_insert_eq|exact Htn]. }
    unfold put_recipients. apply moves_modify; [exists LTask; split; [in_labels|apply ev_recipients]|].
    apply moves_touch; [exact (task_members _ d1 r task_task Htn)|]. intros m Hm.
    apply moves_events; [in_labels|]. intros ? ?. apply moves_publish_bind; [in_labels..|].
    intros d2. by apply ctx_moves_ret.
Qed.

Lemma ProjectTaskContext_emits ctx p pr now s : emits (among task_labels) (ProjectTaskContext ctx p pr now) s.
Proof.
  unfold ProjectTaskContext. do 2 (apply ctx_emits_guard; intros ? ?). apply ctx_emits_guard. intros [] Hs. apply ctx_emits_get.
  apply emits_transact with (Q := fun _ _ => True). apply moves_get, moves_guard. intros [] Hb.
  destruct (md_projections _ !! _) as [id|] eqn:Hid; [by eapply updateProjection_moves|by eapply createProjection_moves].
Qed.

End with_runtime.
