(* ===== verification/CtxReview.v ===== *)
(** * Task memory and exploration perform events

    Candidates, freezing and review as sequences of events, and exploration as bounded
    reachability. *)

From stdpp Require Import base tactics option list strings gmap sorting relations.
From Stdlib Require Import ZArith Ascii.
From S2P Require Import Prelude GoLib GoStrings Kernel CoordTypes Acyclic GraphSpec Auth CtxModel.
From S2P Require Import CtxSubs CtxCurate CtxReads CtxTasks CtxSpec CtxInv CtxOps CtxCalls.

(** A loop with an invariant on what it carries and what it has done. *)
Lemma moves_fold {A C} (P : label -> Prop) (I : C -> list A -> memoryData -> Prop) (f : C -> A -> M error memoryData C) l c d :
  (forall c done x rest d1, l = done ++ x :: rest -> I c done d1 ->
     moves P (f c x) (fun c' d2 => I c' (done ++ [x]) d2) d1) ->
  I c [] d -> moves P (foldMM f c l) (fun c' d2 => I c' l d2) d.
Proof.
  intros Hf. cut (forall rest done c d, l = done ++ rest -> I c done d -> moves P (foldMM f c rest) (fun c' d2 => I c' l d2) d).
  { intros H Hd. by apply (H l []). }
  induction rest as [|x rest IH]; intros done c0 d0 -> Hd; simpl.
  - rewrite app_nil_r. by apply ctx_moves_ret.
  - eapply ctx_moves_bind; [by eapply Hf|]. intros c1 d1 H1. apply (IH (done ++ [x])); [by rewrite <- app_assoc|done].
Qed.

(** ** The buffer *)

Lemma memoryState_cases d key :
  data_inv d -> memoryState d key = "" \/ memoryState d key = TaskMemoryFrozenUnreviewed \/ memoryState d key = TaskMemoryReviewed.
Proof.
  intros Hd. unfold memoryState. destruct (md_taskMemory d !! key) as [st|] eqn:Hst; [|by left]. right. by eapply di_memory.
Qed.

Lemma batch_ok_snoc key l r :
  batch_ok key l -> cbr_CandidateID r = candidate_id key (Z.of_nat (length l) + 1) -> cbr_TaskID r = key.2 ->
  validateMemoryCandidate (cbr_Candidate r) = Ok tt -> batch_ok key (l ++ [r]).
Proof.
  intros [Hi Hv] Hid Ht Hc. split.
  - rewrite length_app, Nat.add_1_r, seq_S, !fmap_app, Hi. simpl. rewrite Hid. do 3 f_equal. lia.
  - rewrite Forall_app. split; [done|]. by constructor.
Qed.

Lemma batch_buffered d key : data_inv d -> batch_ok key (buffered d key).
Proof.
  intros Hd. unfold buffered. destruct (md_candidates d !! key) as [l|] eqn:Hl; [by apply (di_batches _ Hd)|].
  split; [done|constructor].
Qed.

Lemma candidate_id_inj key i j : candidate_id key i = candidate_id key j -> i = j.
Proof.
  unfold candidate_id. intros H%string_app_inj_l%string_app_inj_l%string_app_inj_l%string_app_inj_l%string_app_inj_l.
  by apply format_int_inj.
Qed.

Lemma batch_nodup key l : batch_ok key l -> NoDup (cbr_CandidateID <$> l).
Proof.
  intros [-> _]. apply NoDup_fmap_2_strong; [|apply NoDup_seq]. intros i j _ _ H%candidate_id_inj. lia.
Qed.

Section with_runtime.
Context `{GR : GoRuntime}.

Definition own_key (p : Principal) : taskScopeKey := scopedTask (pri_ProjectID p) (pri_TaskID p).

Lemma SubmitCandidate_emits ctx p c now s : emits (among [LMemory (own_key p)]) (SubmitCandidate ctx p c now) s.
Proof.
  unfold SubmitCandidate. do 3 (apply ctx_emits_guard; intros ? _). apply ctx_emits_guard. intros [] Hv. apply emits_data.
  apply ctx_emits_guard. intros ? Hst%fail_if_Ok. bool_inv. do 2 (apply ctx_emits_guard; intros ? _).
  apply ctx_emits_bind; [|by intros ? ? _ _]. intros Hd. apply rtc_once. exists (LMemory (own_key p)). split; [in_labels|].
  apply ev_candidate; [done| |].
  - apply batch_ok_snoc; [by apply batch_buffered|done..].
  - by destruct (memoryState_cases (cs_data s) (own_key p) Hd) as [?|[?|?]].
Qed.

Lemma FinalizeTaskMemory_emits ctx p t now s :
  emits (among [LLog; LMemory (scopedTask (pri_ProjectID p) (taskOrOwn p t))]) (FinalizeTaskMemory ctx p t now) s.
Proof.
  unfold FinalizeTaskMemory. do 3 (apply ctx_emits_guard; intros ? _). apply ctx_emits_get. do 2 (apply ctx_emits_guard; intros ? _).
  destruct (negb _).
  { apply ctx_emits_bind; [|by intros ? ? _ _]. apply emits_in_place. exists LLog. split; [in_labels|]. by apply ev_audit. }
  case_bool_decide as Hr; [by apply ctx_emits_readonly|]. apply ctx_emits_bind; [|by intros ? ? _ _].
  destruct (_ || _) eqn:Hb; [|by apply ctx_emits_readonly]. intros Hd.
  apply rtc_once. eexists. split; [by right; left|]. apply ev_freeze.
  destruct (memoryState_cases (cs_data s) (scopedTask (pri_ProjectID p) (taskOrOwn p t)) Hd) as [?|[Hf|?]]; [done| |done].
  rewrite Hf in Hb. by vm_compute in Hb.
Qed.

(** ** Review *)

(** What a review keeps of the graph it was checked against. *)
Record grows (d0 d1 : memoryData) : Prop := {
  gr_sig : forall x, sig_of d1 x = sig_of d0 x;
  gr_general : forall id r, md_nodes d0 !! id = Some r -> general_node d0 r ->
    exists r1, md_nodes d1 !! id = Some r1 /\ general_node d1 r1;
  gr_candidates : md_candidates d1 = md_candidates d0;
  gr_memory : md_taskMemory d1 = md_taskMemory d0;
}.

Lemma grows_refl d : grows d d.
Proof. split; eauto. Qed.

Lemma grows_le d0 d1 : grows d0 d1 -> sig_le d0 d1.
Proof. intros [Hs _ _ _] x s. by rewrite Hs. Qed.

(** Only logs, counters and deltas change. *)
Lemma grows_same d0 d1 d2 :
  grows d0 d1 -> md_subgraphs d2 = md_subgraphs d1 -> md_nodes d2 = md_nodes d1 -> md_candidates d2 = md_candidates d1 ->
  md_taskMemory d2 = md_taskMemory d1 -> grows d0 d2.
Proof.
  intros [G1 G2 G3 G4] Hs Hn Hc Hm. split; [|rewrite Hn|by rewrite Hc|by rewrite Hm].
  - intros x. unfold sig_of. rewrite Hs. apply G1.
  - intros id r Hr Hg. destruct (G2 id r Hr Hg) as (r1 & ? & ?). exists r1. split; [done|].
    by eapply general_node_le; [apply sig_le_same|].
Qed.

Lemma grows_sigs d0 d1 m : grows d0 d1 -> same_sigs (md_subgraphs d1) m -> grows d0 (md_set_subgraphs m d1).
Proof.
  intros [G1 G2 G3 G4] Hs. split; [|simpl|done..].
  - intros x. rewrite <- G1. apply Hs.
  - intros id r Hr Hg. destruct (G2 id r Hr Hg) as (r1 & ? & ?). exists r1. split; [done|].
    eapply general_node_le; [|done]. intros x s Hx. rewrite <- Hx. apply Hs.
Qed.

Lemma grows_node d0 d1 id r :
  grows d0 d1 -> (forall r1, md_nodes d1 !! id = Some r1 -> general_node d1 r1 -> general_node d1 r) ->
  grows d0 (md_set_nodes (<[id := r]> (md_nodes d1)) d1).
Proof.
  intros [G1 G2 G3 G4] Hr. split; [done| |done..]. simpl. intros id0 r0 Hr0 Hg0.
  destruct (G2 id0 r0 Hr0 Hg0) as (r1 & Hr1 & Hg1). destruct (decide (id = id0)) as [->|Hne].
  - exists r. rewrite lookup_insert_eq. split; [done|]. by eapply Hr.
  - exists r1. by rewrite lookup_insert_ne.
Qed.

(** A decision that may be applied: its node is well formed and general; a
    target it may move is a general node, or moving any node is allowed. *)
Definition retargetable (P : label -> Prop) (d : memoryData) (decision : CandidateReviewDecision) : Prop :=
  P LStatus \/ rd_TargetNodeID decision = "" \/
  exists r, md_nodes d !! rd_TargetNodeID decision = Some r /\ general_node d r.

Record applicable (P : label -> Prop) (d : memoryData) (p : ProjectID) (decision : CandidateReviewDecision) : Prop := {
  ap_kind : rd_Kind decision ∈ node_kinds;
  ap_statement : rd_Statement decision <> "";
  ap_subgraphs : forall x, x ∈ rd_SubgraphIDs decision -> is_general d p x;
  ap_target : retargetable P d decision;
}.

Lemma target_status_ok action : targetStatus action ∈ node_statuses.
Proof.
  unfold targetStatus, node_statuses. repeat case_bool_decide; rewrite !elem_of_cons; auto.
Qed.

Lemma review_status_ok action : reviewStatus action ∈ node_statuses.
Proof. unfold reviewStatus, node_statuses. case_bool_decide; rewrite !elem_of_cons; auto. Qed.

Lemma moves_retarget (P : label -> Prop) p decision d0 d :
  P LGeneral -> retargetable P d0 decision -> grows d0 d ->
  moves P (retarget p decision) (fun _ d1 => grows d0 d1) d.
Proof.
  intros HP Ht Hg. unfold retarget. case_bool_decide as Hne; [by apply ctx_moves_ret|]. apply moves_get.
  destruct (md_nodes d !! _) as [r|] eqn:Hr; [|by apply ctx_moves_ret]. case_bool_decide; [|by apply ctx_moves_ret].
  set (r' := nr_revise _ r).
  assert (grows d0 (md_set_nodes (<[rd_TargetNodeID decision := r']> (md_nodes d)) d)) as Hg'.
  { apply grows_node; [done|]. intros r1 Hr1 Hg1. simplify_eq. exact Hg1. }
  intros Hd. simpl. split; [|exact Hg']. apply rtc_once. destruct Ht as [HS|[?|(r0 & Hr0 & Hg0)]]; [|done|].
  - exists LStatus. split; [done|]. apply ev_status; [done|apply target_status_ok].
  - exists LGeneral. split; [done|]. destruct (gr_general _ _ Hg _ _ Hr0 Hg0) as (r1 & Hr1 & Hg1). simplify_eq.
    apply ev_general_node; [|exact Hg1|by intros; simplify_eq].
    destruct (di_nodes _ Hd _ r Hr) as [[] _]. split; try done; [apply target_status_ok|apply uint64_wrap_is].
Qed.

Lemma applyDecision_moves (P : label -> Prop) p now cands acc decision d0 d :
  P LGeneral -> P LLog -> (rd_Action decision <> "reject" -> applicable P d0 (pri_ProjectID p) decision) -> grows d0 d ->
  moves P (applyDecision p now cands acc decision)
    (fun acc' d1 => grows d0 d1 /\ length acc'.1 + length acc'.2 = S (length acc.1 + length acc.2) /\
                    forall x, x ∈ acc'.2 -> x ∈ acc.2 \/ x = rd_CandidateID decision) d.
Proof.
  intros HG HL Hap Hg. unfold applyDecision. destruct acc as [nodeIDs rejected]. case_bool_decide as Hact.
  { apply moves_events; [done|]. intros o a. apply ctx_moves_ret. simpl. split_and!; [by eapply grows_same| |].
    - rewrite length_app. simpl. lia.
    - intros x. rewrite elem_of_app, list_elem_of_singleton. tauto. }
  destruct (Hap Hact) as [Hk Hst Hsub Htarget]. apply moves_bump_seq; [done|]. intros seq Hseq.
  set (node := normalizeNode _). set (r := mkNodeRecord node 1 (pri_ProjectID p) now seq).
  set (d1 := md_set_nextSeq seq d). assert (grows d0 d1) as Hg1 by by eapply grows_same.
  assert (general_node d1 r) as Hgen.
  { intros x. simpl. rewrite elem_of_uniqueStrings. intros [Hx _]. specialize (Hsub x Hx).
    rewrite is_general_sig in *. destruct Hsub as (i & t & Hs). exists i, t. by rewrite (gr_sig _ _ Hg1). }
  apply moves_general_node; [done| |done| |].
  - eapply normalizeNode_shape; [done|done|done|apply review_status_ok|done| |done|done].
    apply (uniqueStrings_nonempty _ ("candidate:" +:+ rd_CandidateID decision)); [|done].
    apply elem_of_uniqueStrings. split; [|done]. apply elem_of_app. right. by left.
  - intros r0 Hr0 Hd. eapply node_ok_general; [by apply (di_nodes _ Hd)|apply review_id_general].
  - apply moves_touch; [exact (general_members P d1 r HG Hgen)|]. intros m Hm.
    eapply ctx_moves_bind.
    + eapply (moves_retarget P p decision d0); [done|done|]. apply grows_sigs; [|done]. by apply grows_node.
    + intros [] d2 Hg2. apply moves_events; [done|]. intros o a. apply ctx_moves_ret. simpl.
      split_and!; [by eapply grows_same|rewrite length_app; simpl; lia|auto].
Qed.

(** What the first loop of a review establishes. *)
Lemma checkDecisions_Ok p d cands decisions out :
  checkDecisions p d cands decisions = Ok out ->
  rd_CandidateID <$> out = rd_CandidateID <$> decisions /\ NoDup (rd_CandidateID <$> out) /\
  forall x, x ∈ out -> exists record dec0, cands !! rd_CandidateID x = Some record /\ dec0 ∈ decisions /\
    x = normalizeReviewDecision record dec0 /\ validateReviewDecision p d x = Ok tt.
Proof.
  unfold checkDecisions. destruct (foldM _ _ _) as [[seen out']|e] eqn:Hf; [|done]. intros [= ->].
  cut (rd_CandidateID <$> out = rd_CandidateID <$> decisions /\ NoDup (rd_CandidateID <$> out) /\
    seen = list_to_set (rd_CandidateID <$> out) /\
    forall x, x ∈ out -> exists record dec0, cands !! rd_CandidateID x = Some record /\ dec0 ∈ decisions /\
      x = normalizeReviewDecision record dec0 /\ validateReviewDecision p d x = Ok tt); [naive_solver|].
  revert Hf. apply (foldM_Ok_ind (fun (acc : gset string * list CandidateReviewDecision) done =>
    rd_CandidateID <$> acc.2 = rd_CandidateID <$> done /\ NoDup (rd_CandidateID <$> acc.2) /\
    acc.1 = list_to_set (rd_CandidateID <$> acc.2) /\
    forall x, x ∈ acc.2 -> exists record dec0, cands !! rd_CandidateID x = Some record /\ dec0 ∈ done /\
      x = normalizeReviewDecision record dec0 /\ validateReviewDecision p d x = Ok tt)
    (checkDecision p d cands) (∅, []) decisions (seen, out)).
  { split_and!; [done|constructor|done|]. by intros x ?%elem_of_nil. }
  intros l1 x l2 [s1 o1] [s2 o2] _ (H1 & H2 & H3 & H4) Hx. unfold checkDecision in Hx. simpl in *.
  res_inv. bool_inv. destruct (cands !! rd_CandidateID x) as [record|] eqn:Hr; [|done]. res_inv.
  rewrite !fmap_app. simpl. split_and!.
  - by rewrite H1.
  - apply NoDup_app. split_and!; [done| |apply NoDup_singleton]. intros y Hy ->%list_elem_of_singleton.
    match goal with H : _ ∉ _ |- _ => apply H end. rewrite elem_of_list_to_set. done.
  - rewrite list_to_set_app_L. simpl. set_solver.
  - intros y. rewrite elem_of_app, list_elem_of_singleton. intros [Hy| ->].
    + destruct (H4 y Hy) as (rec & dec0 & ? & ? & ? & ?). exists rec, dec0. split_and!; try done. apply elem_of_app. by left.
    + exists record, x. split_and!; [done|apply elem_of_app; right; by left|done|done].
Qed.

Lemma candidateMap_Some records id r : candidateMap records !! id = Some r -> r ∈ records /\ cbr_CandidateID r = id.
Proof.
  unfold candidateMap. assert (forall m : gmap string CandidateBufferRecord, foldl (fun m record => <[cbr_CandidateID record := record]> m) m records !! id = Some r ->
    m !! id = Some r \/ (r ∈ records /\ cbr_CandidateID r = id)) as H.
  { induction records as [|x l IH]; intros m; simpl; [by left|]. intros [Hm|[? ?]]%IH; [|by right; split; [right|]].
    rewrite lookup_insert_Some in Hm. destruct Hm as [[? <-]|[_ ?]]; [right; by split; [left|]|by left]. }
  intros [Hm|?]%H; [by rewrite lookup_empty in Hm|done].
Qed.

Lemma validateReviewDecision_Ok p d x u :
  validateReviewDecision p d x = Ok u -> rd_Action x <> "reject" ->
  rd_Kind x ∈ node_kinds /\ (forall g, g ∈ rd_SubgraphIDs x -> is_general d (pri_ProjectID p) g) /\
  (rd_Action x <> "create" -> exists r, md_nodes d !! rd_TargetNodeID x = Some r /\ nr_ProjectID r = pri_ProjectID p /\
     rejectTaskMembership (md_subgraphs d) (cn_SubgraphIDs (nr_Node r)) = Ok tt).
Proof.
  unfold validateReviewDecision. intros H Hr. res_inv. rewrite bool_decide_eq_false_2 in H by done. res_inv.
  match goal with H : validateNodeKind _ = _ |- _ => apply validateNodeKind_Ok in H end.
  split; [done|]. split.
  - intros g Hg. match goal with H : forall x, x ∈ rd_SubgraphIDs _ -> _ |- _ => specialize (H g Hg) end.
    destruct (md_subgraphs d !! g) as [gr|] eqn:Hgr; [|done]. res_inv. bool_inv. exists gr. split; [done|]. split; [done|].
    match goal with H : canSeeSubgraph _ _ = true |- _ => by apply canSeeSubgraph_true in H as [? _] end.
  - intros Hc. rewrite bool_decide_eq_false_2 in H by done. res_inv.
    destruct (md_nodes d !! rd_TargetNodeID x) as [r|] eqn:Hn; [|done]. res_inv. bool_inv. by exists r.
Qed.

(** No decision names a target it does not need. *)
Definition targets_needed (decisions : list CandidateReviewDecision) : Prop :=
  Forall (fun x => rd_Action x = "create" -> rd_TargetNodeID x = "") decisions.

Lemma decision_applicable (P : label -> Prop) p d decisions out x :
  data_inv d -> checkDecisions p d (candidateMap (buffered d (own_key p))) decisions = Ok out ->
  (P LStatus \/ targets_needed decisions) -> x ∈ out -> rd_Action x <> "reject" -> applicable P d (pri_ProjectID p) x.
Proof.
  intros Hd (_ & _ & Hout)%checkDecisions_Ok Ht Hx Hact. destruct (Hout x Hx) as (record & dec0 & Hrec & Hdec & Heq & Hv).
  destruct (validateReviewDecision_Ok p d x _ Hv Hact) as (Hk & Hg & Htarget).
  apply candidateMap_Some in Hrec as [Hrec _]. destruct (batch_buffered d (own_key p) Hd) as [_ Hvalid].
  rewrite Forall_forall in Hvalid. destruct (Hvalid record Hrec) as [_ Hcand].
  split; [done| |done|].
  - rewrite Heq. simpl. case_bool_decide as Hs; [|done]. unfold validateMemoryCandidate in Hcand. res_inv. bool_inv.
    intros Hempty. by rewrite Hempty in *.
  - destruct (decide (rd_Action x = "create")) as [Hc|Hc].
    + destruct Ht as [HS|Hn]; [by left|]. right. left. unfold targets_needed in Hn. rewrite Forall_forall in Hn.
      rewrite Heq in *. simpl in *. by apply Hn.
    + right. right. destruct (Htarget Hc) as (r & Hr & _ & Hj). exists r. split; [done|]. by eapply untasked_general.
Qed.

(** The decided ids are those of the batch. *)
Lemma decided_batch p d decisions out :
  data_inv d -> length decisions = length (buffered d (own_key p)) ->
  checkDecisions p d (candidateMap (buffered d (own_key p))) decisions = Ok out ->
  rd_CandidateID <$> out ≡ₚ cbr_CandidateID <$> buffered d (own_key p).
Proof.
  intros Hd Hlen (Heq & Hnd & Hout)%checkDecisions_Ok. apply submseteq_length_Permutation.
  - apply NoDup_submseteq; [done|]. intros y (x & -> & Hx)%list_elem_of_fmap.
    destruct (Hout x Hx) as (record & dec0 & Hrec & _). apply candidateMap_Some in Hrec as [Hrec <-].
    by apply list_elem_of_fmap_2.
  - rewrite Heq, !length_fmap. lia.
Qed.

Lemma reviewFrozenBatch_moves (P : label -> Prop) now p decisions d :
  P LGeneral -> P LLog -> P LDelta -> (P LStatus \/ targets_needed decisions) ->
  moves P (reviewFrozenBatch now p decisions)
    (fun receipt d1 => receipt_ok (buffered d1 (own_key p)) (own_key p) receipt /\
       md_taskMemory d1 = md_taskMemory d /\ md_candidates d1 = md_candidates d) d.
Proof.
  intros HG HL HD Ht. apply moves_with_inv. intros Hd. unfold reviewFrozenBatch. apply moves_get, moves_guard.
  intros _ Hlen%guard_not_Ok. apply moves_guard. intros out Hout.
  eapply ctx_moves_bind.
  - eapply (moves_fold P (fun (acc : list string * list string) done d1 => grows d d1 /\
      length acc.1 + length acc.2 = length done /\ (forall x, x ∈ acc.2 -> x ∈ rd_CandidateID <$> done))).
    + intros acc done x rest d1 Heq (Hg & Hc & Hin). eapply ctx_moves_weaken; [done| |eapply applyDecision_moves with (d0 := d)]; [|done..| |done].
      * intros acc' d2 (Hg2 & Hc2 & Hin2). split_and!; [done|rewrite length_app; simpl; lia|].
        intros y Hy. rewrite fmap_app, elem_of_app. destruct (Hin2 y Hy) as [?| ->]; [left; auto|right; by left].
      * intros Hact. eapply decision_applicable; try done. rewrite Heq. apply elem_of_app. right. by left.
    + split_and!; [apply grows_refl|done|by intros x ?%elem_of_nil].
  - intros [nodeIDs rejected] d1 (Hg & Hc & Hin). simpl in *. apply moves_revision; [done|]. apply moves_get.
    apply moves_deltas; [done|]. intros c m. apply ctx_moves_ret.
    assert (buffered d1 (own_key p) = buffered d (own_key p)) as Hb.
    { unfold buffered. by rewrite (gr_candidates _ _ Hg). }
    split; [|split; [apply (gr_memory _ _ Hg)|apply (gr_candidates _ _ Hg)]].
    change (buffered (md_set_deltas _ _) (own_key p)) with (buffered d1 (own_key p)). rewrite Hb.
    split; simpl.
    + done.
    + rewrite sort_slice_perm. by apply decided_batch with (decisions := decisions).
    + intros x. rewrite !sort_slice_perm. apply Hin.
    + rewrite (Permutation_length (sort_slice_perm string_lt rejected)).
      rewrite (Permutation_length (sort_slice_perm string_lt (rd_CandidateID <$> out))), length_fmap. lia.
Qed.

Lemma SubmitReview_emits (P : label -> Prop) ctx p decisions now s :
  P LGeneral -> P LLog -> P LDelta -> P (LMemory (own_key p)) -> (P LStatus \/ targets_needed decisions) ->
  emits P (SubmitReview ctx p decisions now) s.
Proof.
  intros HG HL HD HM Ht. unfold SubmitReview. do 3 (apply ctx_emits_guard; intros ? _). apply emits_data.
  case_bool_decide; [by apply ctx_emits_readonly|]. apply ctx_emits_guard. intros _ Hst%guard_not_Ok.
  apply emits_transact with (Q := fun _ _ => True).
  eapply ctx_moves_bind; [by eapply reviewFrozenBatch_moves|]. intros receipt d1 (Hr & Hm & Hc). simpl.
  apply moves_modify; [|by apply ctx_moves_ret]. exists (LMemory (own_key p)). split; [done|].
  apply ev_review; [|done]. unfold memoryState in *. by rewrite Hm.
Qed.

End with_runtime.

(** * Exploring is bounded reachability

    [expandNodeLocked] walks the visible edges breadth first.  The nodes it adds
    are those within [depth] steps of the anchor, each once, and the frontier
    those at distance exactly [depth], whatever the iteration order. *)

(** Two nodes joined by an edge the principal can see, in either direction. *)
Definition adjacent (d : memoryData) (p : Principal) (a b : string) : Prop :=
  exists k e, md_edges d !! k = Some e /\ canSeeEdge d p e = true /\
    ((ce_FromRef e = "node:" +:+ a /\ ce_ToNodeID e = b) \/ (ce_ToNodeID e = a /\ ce_FromRef e = "node:" +:+ b)).

(** At most [n] steps away. *)
Definition within (d : memoryData) (p : Principal) (n : nat) (a b : string) : Prop := bsteps (adjacent d p) n a b.

Definition shown (d : memoryData) (p : Principal) (node : ContextNode) : Prop :=
  exists r, md_nodes d !! cn_ID node = Some r /\ canSeeNode p (md_subgraphs d) r = true /\
    node = visibleNode p (md_subgraphs d) (nr_Node r).

Lemma within_S d p n a b : within d p (S n) a b <-> within d p n a b \/ exists c, within d p n a c /\ adjacent d p c b.
Proof.
  unfold within. split.
  - intros (m & Hm & Hs)%bsteps_nsteps. destruct (decide (m <= n)) as [Hle|Hgt].
    { left. apply bsteps_nsteps. eauto. }
    assert (m = S n) as -> by lia. right. apply nsteps_inv_r in Hs as (c & Hs & Hc). exists c. split; [|done].
    apply bsteps_nsteps. exists n. split; [lia|done].
  - intros [H|(c & Hc & Hb)]; [by apply bsteps_S|by eapply bsteps_r].
Qed.

Lemma within_0 d p a b : within d p 0 a b <-> a = b.
Proof.
  unfold within. split.
  - intros (m & Hm & Hs)%bsteps_nsteps. assert (m = 0) as -> by lia. by inversion Hs.
  - intros ->. apply bsteps_refl.
Qed.

Lemma within_mono d p n m a b : n <= m -> within d p n a b -> within d p m a b.
Proof. intros. by eapply bsteps_weaken. Qed.

Lemma visibleNode_id p subs node : cn_ID (visibleNode p subs node) = cn_ID node.
Proof. done. Qed.

Section with_runtime.
Context `{GR : GoRuntime}.
Context (d : memoryData) (p : Principal) (Hd : data_inv d).

(** ** One edge *)

(** The node an edge adds when the walk stands on [a]. *)
Definition target (a : string) (e : ContextEdge) : option NodeRecord :=
  if negb (canSeeEdge d p e) then None else
  match edgeOther a e with
  | None => None
  | Some b => match md_nodes d !! b with
              | Some r => if canSeeNode p (md_subgraphs d) r then Some r else None
              | None => None
              end
  end.

Definition add (x : expansion) (r : NodeRecord) : expansion :=
  if bool_decide (cn_ID (nr_Node r) ∈ ex_added x) then x
  else mkExpansion ({[cn_ID (nr_Node r)]} ∪ ex_added x) (ex_nodes x ++ [visibleNode p (md_subgraphs d) (nr_Node r)])
         (<[cn_ID (nr_Node r) := tt]> (ex_next x)).

Lemma expandEdge_target a x e : expandEdge d p a x e = match target a e with Some r => add x r | None => x end.
Proof.
  unfold expandEdge, target, add. destruct (canSeeEdge d p e); simpl; [|done].
  destruct (edgeOther a e) as [b|]; [|done]. destruct (md_nodes d !! b) as [r|]; [|done].
  by destruct (canSeeNode p (md_subgraphs d) r).
Qed.

Lemma target_visible a e r :
  target a e = Some r -> md_nodes d !! cn_ID (nr_Node r) = Some r /\ canSeeNode p (md_subgraphs d) r = true.
Proof.
  unfold target. destruct (canSeeEdge d p e); simpl; [|done]. destruct (edgeOther a e) as [b|]; [|done].
  destruct (md_nodes d !! b) as [r0|] eqn:Hr; [|done]. destruct (canSeeNode _ _ r0) eqn:Hc; [|done]. intros [= ->].
  destruct (di_nodes _ Hd b r Hr) as [Hs _]. by rewrite (ns_id _ _ Hs).
Qed.

Lemma edgeOther_Some a e b :
  edgeOther a e = Some b ->
  b = a \/ (ce_FromRef e = "node:" +:+ a /\ ce_ToNodeID e = b) \/ (ce_ToNodeID e = a /\ ce_FromRef e = "node:" +:+ b).
Proof.
  unfold edgeOther. destruct (bool_decide (ce_FromRef e <> _) && _) eqn:Hg; [done|].
  destruct (bool_decide (ce_ToNodeID e = a) && _) eqn:Ht; intros [= <-]; bool_inv.
  - right. right. split; [done|]. match goal with H : has_prefix _ _ = true |- _ => apply has_prefix_true in H as (t & ->) end.
    by rewrite TrimPrefix_app.
  - destruct Hg as [Hg|Hg]; bool_inv; [by right; left|by left].
Qed.

Lemma adjacent_edgeOther a b e :
  (ce_FromRef e = "node:" +:+ a /\ ce_ToNodeID e = b) \/ (ce_ToNodeID e = a /\ ce_FromRef e = "node:" +:+ b) ->
  edgeOther a e = Some b.
Proof.
  unfold edgeOther. intros [[Hf Ht]|[Ht Hf]]; rewrite Hf, Ht, ?TrimPrefix_app, has_prefix_app, ?andb_true_r.
  - rewrite (bool_decide_eq_false_2 ("node:" +:+ a <> _)) by tauto. simpl. case_bool_decide as Hb; [by subst|done].
  - rewrite (bool_decide_eq_false_2 (a <> a)) by tauto. rewrite andb_false_r. by rewrite bool_decide_eq_true_2.
Qed.

(** Both ends of a visible edge between nodes are visible. *)
Lemma canSeeEdge_ends e : canSeeEdge d p e = true ->
  (exists r, md_nodes d !! ce_ToNodeID e = Some r /\ canSeeNode p (md_subgraphs d) r = true) /\
  (forall b, ce_FromRef e = "node:" +:+ b -> exists r, md_nodes d !! b = Some r /\ canSeeNode p (md_subgraphs d) r = true).
Proof.
  unfold canSeeEdge. destruct (md_nodes d !! ce_ToNodeID e) as [r|]; [|done].
  destruct (canSeeNode p (md_subgraphs d) r) eqn:Hr; simpl; [|done]. intros H. split; [by exists r|].
  intros b Hb. rewrite Hb, has_prefix_app, TrimPrefix_app in H. destruct (md_nodes d !! b) as [r0|]; [|done]. by exists r0.
Qed.

Lemma target_adjacent a e r k :
  md_edges d !! k = Some e -> target a e = Some r -> cn_ID (nr_Node r) = a \/ adjacent d p a (cn_ID (nr_Node r)).
Proof.
  intros Hk. unfold target. destruct (canSeeEdge d p e) eqn:Hc; simpl; [|done].
  destruct (edgeOther a e) as [b|] eqn:Hb; [|done]. destruct (md_nodes d !! b) as [r0|] eqn:Hr; [|done].
  destruct (canSeeNode _ _ r0); [|done]. intros [= ->]. destruct (di_nodes _ Hd b r Hr) as [Hs _]. rewrite (ns_id _ _ Hs).
  apply edgeOther_Some in Hb as [->|Hb]; [by left|]. right. by exists k, e.
Qed.

Lemma adjacent_target a b : adjacent d p a b ->
  exists e r, e ∈ sortedEdgesLocked d /\ target a e = Some r /\ cn_ID (nr_Node r) = b.
Proof.
  intros (k & e & Hk & Hc & Hends). exists e.
  assert (exists r, md_nodes d !! b = Some r /\ canSeeNode p (md_subgraphs d) r = true) as (r & Hr & Hs).
  { destruct (canSeeEdge_ends e Hc) as [Ht Hf]. destruct Hends as [[_ <-]|[_ Hb]]; [done|by apply Hf]. }
  exists r. split.
  - unfold sortedEdgesLocked. rewrite sort_slice_perm, elem_of_range_values. by exists k.
  - unfold target. rewrite Hc. simpl. rewrite (adjacent_edgeOther _ _ _ Hends), Hr, Hs. split; [done|].
    by apply (di_nodes _ Hd b r Hr).
Qed.

(** ** One level *)

Definition reached (frontier : gmap string unit) : list NodeRecord :=
  range_keys frontier ≫= fun a => omap (target a) (sortedEdgesLocked d).

Lemma expandLevel_add added nodes frontier :
  expandLevel d p added nodes frontier = foldl add (mkExpansion added nodes ∅) (reached frontier).
Proof.
  unfold expandLevel, reached. generalize (mkExpansion added nodes ∅).
  induction (range_keys frontier) as [|a l IH]; intros x; [done|]. cbn [foldl mbind list_bind].
  rewrite foldl_app, IH. f_equal. clear IH. revert x. induction (sortedEdgesLocked d) as [|e es IHe]; intros x; [done|].
  cbn [foldl omap list_omap]. rewrite expandEdge_target, IHe. by destruct (target a e).
Qed.

Record level_ok (added0 : gset string) (rs : list NodeRecord) (x : expansion) : Prop := {
  lo_added : forall b, b ∈ ex_added x <-> b ∈ added0 \/ b ∈ (fun r => cn_ID (nr_Node r)) <$> rs;
  lo_next : forall b, is_Some (ex_next x !! b) <-> b ∈ (fun r => cn_ID (nr_Node r)) <$> rs /\ b ∉ added0;
  lo_nodes : forall b, b ∈ cn_ID <$> ex_nodes x <-> b ∈ ex_added x;
  lo_nodup : NoDup (cn_ID <$> ex_nodes x);
  lo_shown : Forall (shown d p) (ex_nodes x);
}.

Lemma add_level added0 rs x r :
  level_ok added0 rs x -> md_nodes d !! cn_ID (nr_Node r) = Some r -> canSeeNode p (md_subgraphs d) r = true ->
  level_ok added0 (rs ++ [r]) (add x r).
Proof.
  intros [H1 H2 H3 H4 H5] Hr Hs. unfold add. case_bool_decide as Hin.
  - split; [| |done..].
    + intros b. rewrite H1, fmap_app, elem_of_app. simpl. rewrite list_elem_of_singleton.
      split; [tauto|]. intros [?|[?| ->]]; [auto..|]. by apply H1.
    + intros b. rewrite H2, fmap_app, elem_of_app. simpl. rewrite list_elem_of_singleton. split; [tauto|].
      intros [[?| ->] Hn]; [auto|]. apply H1 in Hin as [?|?]; [done|auto].
  - split; cbn [ex_added ex_next ex_nodes].
    + intros b. rewrite elem_of_union, elem_of_singleton, H1, fmap_app, elem_of_app. simpl. rewrite list_elem_of_singleton. tauto.
    + intros b. rewrite lookup_insert_is_Some', H2, fmap_app, elem_of_app. simpl. rewrite list_elem_of_singleton. split.
      * intros [<-|[? ?]]; [|tauto]. split; [by right|]. intros Ha. apply Hin, H1. by left.
      * intros [[?| ->] Hn]; [right; done|by left].
    + intros b. rewrite fmap_app, elem_of_app, H3. simpl. rewrite list_elem_of_singleton, elem_of_union, elem_of_singleton. tauto.
    + rewrite fmap_app. apply NoDup_app. split_and!; [done| |apply NoDup_singleton].
      intros b Hb. simpl. rewrite list_elem_of_singleton. intros ->. by apply Hin, H3.
    + apply Forall_app. split; [done|]. constructor; [|done]. by exists r.
Qed.

Lemma fold_level added0 nodes rs :
  (forall b, b ∈ cn_ID <$> nodes <-> b ∈ added0) -> NoDup (cn_ID <$> nodes) -> Forall (shown d p) nodes ->
  (forall r, r ∈ rs -> md_nodes d !! cn_ID (nr_Node r) = Some r /\ canSeeNode p (md_subgraphs d) r = true) ->
  level_ok added0 rs (foldl add (mkExpansion added0 nodes ∅) rs).
Proof.
  intros Hn Hnd Hs. induction rs as [|r rs IH] using rev_ind; intros Hrs; simpl.
  - split; cbn [ex_added ex_next ex_nodes]; [set_solver| |done..]. intros b. rewrite lookup_empty. simpl.
    rewrite elem_of_nil. split; [by intros [? ?]|tauto].
  - rewrite foldl_app. simpl. apply add_level; [apply IH; intros; apply Hrs, elem_of_app; by left|..];
      apply Hrs, elem_of_app; right; by left.
Qed.

(** ** All levels *)

(** At distance exactly [n]. *)
Definition at_distance (n : nat) (a b : string) : Prop :=
  within d p n a b /\ match n with 0 => True | S m => ~ within d p m a b end.

(** The walk after [n] levels. *)
Record walk_ok (anchor : string) (n : nat) (added : gset string) (nodes : list ContextNode) (frontier : gmap string unit) : Prop := {
  wo_added : forall b, b ∈ added <-> within d p n anchor b;
  wo_frontier : forall b, is_Some (frontier !! b) <-> at_distance n anchor b;
  wo_closer : forall b, within d p n anchor b -> at_distance n anchor b \/ exists m, S m = n /\ within d p m anchor b;
  wo_nodes : forall b, b ∈ cn_ID <$> nodes <-> b ∈ added;
  wo_nodup : NoDup (cn_ID <$> nodes);
  wo_shown : Forall (shown d p) nodes;
}.

Lemma elem_of_reached frontier r :
  r ∈ reached frontier <-> exists a e, is_Some (frontier !! a) /\ e ∈ sortedEdgesLocked d /\ target a e = Some r.
Proof.
  unfold reached. rewrite list_elem_of_bind. setoid_rewrite elem_of_range_keys. setoid_rewrite list_elem_of_omap.
  naive_solver.
Qed.

Lemma reached_within anchor n added nodes frontier b :
  walk_ok anchor n added nodes frontier -> b ∈ (fun r => cn_ID (nr_Node r)) <$> reached frontier ->
  within d p (S n) anchor b.
Proof.
  intros [_ Hf _ _ _ _] (r & -> & (a & e & Ha & He & Ht)%elem_of_reached)%list_elem_of_fmap.
  apply Hf in Ha as [Ha _]. unfold sortedEdgesLocked in He. rewrite sort_slice_perm, elem_of_range_values in He.
  destruct He as (k & Hk). apply within_S. destruct (target_adjacent a e r k Hk Ht) as [->|Hadj]; [by left|right; eauto].
Qed.

Lemma within_reached anchor n added nodes frontier b :
  walk_ok anchor n added nodes frontier -> within d p (S n) anchor b ->
  within d p n anchor b \/ b ∈ (fun r => cn_ID (nr_Node r)) <$> reached frontier.
Proof.
  intros [_ Hf Hcl _ _ _] [?|(a & Ha & Hadj)]%within_S; [by left|].
  destruct (Hcl a Ha) as [Hfa%Hf|(m & <- & Hm)].
  - right. destruct (adjacent_target a b Hadj) as (e & r & He & Ht & <-).
    apply (list_elem_of_fmap_2 (fun r => cn_ID (nr_Node r))), elem_of_reached. eauto.
  - left. apply within_S. right. eauto.
Qed.

Lemma walk_level anchor n added nodes frontier :
  walk_ok anchor n added nodes frontier ->
  let x := expandLevel d p added nodes frontier in walk_ok anchor (S n) (ex_added x) (ex_nodes x) (ex_next x).
Proof.
  intros Hw. pose proof Hw as [Ha Hf Hcl Hn Hnd Hs].
  assert (level_ok added (reached frontier) (foldl add (mkExpansion added nodes ∅) (reached frontier))) as [L1 L2 L3 L4 L5].
  { apply fold_level; [done..|]. intros r (a & e & _ & _ & Ht)%elem_of_reached. by eapply target_visible. }
  rewrite expandLevel_add. set (x := foldl _ _ _) in *.
  assert (forall b, b ∈ ex_added x <-> within d p (S n) anchor b) as Hadd.
  { intros b. rewrite L1, Ha. split.
    - intros [?|?]; [by apply within_S; left|by eapply reached_within].
    - intros ?. by eapply within_reached. }
  split; [done| | |done..].
  - intros b. rewrite L2, Ha. unfold at_distance. split.
    + intros [Hr Hnot]. split; [by eapply reached_within|done].
    + intros [Hw' Hnot]. split; [|done]. eapply within_reached in Hw' as [?|?]; done.
  - intros b Hb. destruct (decide (b ∈ added)) as [Hin|Hnin].
    + right. exists n. split; [done|by apply Ha].
    + left. split; [done|]. by rewrite <- Ha.
Qed.

Lemma walk_levels anchor k n added nodes frontier :
  walk_ok anchor n added nodes frontier ->
  exists added', walk_ok anchor (n + k) added' (expandLevels d p k added nodes frontier).1 (expandLevels d p k added nodes frontier).2.
Proof.
  revert n added nodes frontier. induction k as [|k IH]; intros n added nodes frontier Hw; simpl.
  - rewrite Nat.add_0_r. by exists added.
  - rewrite Nat.add_succ_r, <- Nat.add_succ_l. by apply IH, walk_level.
Qed.

Lemma walk_start anchor r :
  md_nodes d !! anchor = Some r -> canSeeNode p (md_subgraphs d) r = true ->
  walk_ok anchor 0 {[cn_ID (nr_Node r)]} [visibleNode p (md_subgraphs d) (nr_Node r)] {[anchor := tt]}.
Proof.
  intros Hr Hs. destruct (di_nodes _ Hd anchor r Hr) as [Hsh _]. pose proof (ns_id _ _ Hsh) as Hid. split.
  - intros b. rewrite within_0, Hid, elem_of_singleton. split; by intros ->.
  - intros b. unfold at_distance. rewrite within_0. rewrite lookup_singleton_is_Some. tauto.
  - intros b Hb. left. by split.
  - intros b. simpl. rewrite list_elem_of_singleton, elem_of_singleton. done.
  - apply NoDup_singleton.
  - constructor; [|done]. exists r. rewrite visibleNode_id, Hid. done.
Qed.

(** The slice an exploration from a node returns. *)
Lemma expandNodeLocked_spec anchor r depth nodes frontier :
  md_nodes d !! anchor = Some r -> canSeeNode p (md_subgraphs d) r = true ->
  expandNodeLocked d p anchor depth {[cn_ID (nr_Node r)]} [visibleNode p (md_subgraphs d) (nr_Node r)] = (nodes, frontier) ->
  (forall b, b ∈ cn_ID <$> nodes <-> within d p (Z.to_nat depth) anchor b) /\
  NoDup (cn_ID <$> nodes) /\ Forall (shown d p) nodes /\
  StronglySorted String.le frontier /\
  (forall x, x ∈ frontier <-> exists b, x = ("node:" +:+ b)%string /\ at_distance (Z.to_nat depth) anchor b).
Proof.
  intros Hr Hs. unfold expandNodeLocked.
  destruct (walk_levels anchor (Z.to_nat depth) 0 _ _ _ (walk_start anchor r Hr Hs)) as (added & Hw).
  destruct (expandLevels _ _ _ _ _ _) as [ns fr]. simpl in Hw. destruct Hw as [H1 H2 _ H3 H4 H5]. intros [= <- <-].
  split_and!; [|done|done|apply sort_strings_sorted|].
  - intros b. by rewrite H3, H1.
  - intros x. rewrite sort_slice_perm, list_elem_of_fmap. setoid_rewrite elem_of_range_keys. by setoid_rewrite H2.
Qed.

End with_runtime.
