(* ===== verification/CtxReach.v ===== *)
(** * Reachable context graph stores

    [ctx_op] lists the calls that may change the store; every one takes the
    store's mutex, so an interleaving of callers is a sequence of them.  The
    resolver and the armed fault may be exchanged at any time. *)

From stdpp Require Import base tactics option list strings gmap sorting relations.
From Stdlib Require Import ZArith Ascii.
From S2P Require Import Prelude GoLib GoStrings Kernel CoordTypes Acyclic GraphSpec Auth CtxModel CtxSubs CtxCurate.
From S2P Require Import CtxReads CtxTasks CtxSpec CtxInv CtxOps CtxCalls CtxReview.

Inductive ctx_op :=
| CtxSetResolver (r : option TaskEndpointResolver)
| CtxSetFault (f : Fault)
| CtxCreateNodes (ctx : Context) (p : Principal) (req : CreateNodesRequest) (now : Time)
| CtxCreateNode (ctx : Context) (p : Principal) (req : CreateGeneralNodeRequest) (now : Time)
| CtxUpdateNode (ctx : Context) (p : Principal) (req : UpdateGeneralNodeRequest) (now : Time)
| CtxDeleteNode (ctx : Context) (p : Principal) (req : DeleteGeneralNodeRequest) (now : Time)
| CtxCreateSubgraph (ctx : Context) (p : Principal) (req : CreateGeneralSubgraphRequest) (now : Time)
| CtxUpdateSubgraph (ctx : Context) (p : Principal) (req : UpdateGeneralSubgraphRequest) (now : Time)
| CtxDeleteSubgraph (ctx : Context) (p : Principal) (req : DeleteGeneralSubgraphRequest) (now : Time)
| CtxSubscribe (ctx : Context) (p : Principal) (req : SubscribeRequest) (now : Time)
| CtxUnsubscribe (ctx : Context) (p : Principal) (id : string) (now : Time)
| CtxEndInvocation (ctx : Context) (p : Principal) (i : InvocationID) (now : Time)
| CtxSearch (ToLower : string -> string) (ctx : Context) (p : Principal) (req : SearchRequest) (now : Time)
| CtxEnsureSlice (ctx : Context) (p : Principal) (ids : list string) (now : Time)
| CtxRecordDelta (ctx : Context) (p : Principal) (event kind : string) (ids : list string)
| CtxAckDelta (ctx : Context) (p : Principal) (id : string)
| CtxRegisterTask (ctx : Context) (p : Principal) (t : TaskID) (now : Time)
| CtxProject (ctx : Context) (p : Principal) (projection : TaskContextProjection) (now : Time)
| CtxSubmitCandidate (ctx : Context) (p : Principal) (candidate : MemoryCandidate) (now : Time)
| CtxFinalize (ctx : Context) (p : Principal) (t : TaskID) (now : Time)
| CtxReview (ctx : Context) (p : Principal) (decisions : list CandidateReviewDecision) (now : Time).

(** The parts of the graph a call may touch. *)
Definition op_labels (op : ctx_op) : label -> Prop :=
  match op with
  | CtxSetResolver _ => fun _ => False
  | CtxSetFault _ => among [LLog]
  | CtxCreateNodes _ _ _ _ | CtxCreateNode _ _ _ _ | CtxUpdateNode _ _ _ _ | CtxDeleteNode _ _ _ _
  | CtxCreateSubgraph _ _ _ _ | CtxUpdateSubgraph _ _ _ _ | CtxDeleteSubgraph _ _ _ _ => among graph_labels
  | CtxSubscribe _ _ _ _ | CtxUnsubscribe _ _ _ _ | CtxEndInvocation _ _ _ _ | CtxSearch _ _ _ _ _
  | CtxEnsureSlice _ _ _ _ => among sub_labels
  | CtxRecordDelta _ _ _ _ _ | CtxAckDelta _ _ _ => among [LDelta]
  | CtxRegisterTask _ _ _ _ | CtxProject _ _ _ _ => among task_labels
  | CtxSubmitCandidate _ p _ _ => among [LMemory (own_key p)]
  | CtxFinalize _ p t _ => among [LLog; LMemory (scopedTask (pri_ProjectID p) (taskOrOwn p t))]
  | CtxReview _ p _ _ => among (LStatus :: review_labels (own_key p))
  end.

Section with_runtime.
Context `{GR : GoRuntime}.

Definition run_ctx (op : ctx_op) (s : CtxStore) : CtxStore :=
  match op with
  | CtxSetResolver r => snd (SetTaskEndpointResolver r s)
  | CtxSetFault f => snd (SetNextFault f s)
  | CtxCreateNodes ctx p req now => snd (CreateNodes ctx p req now s)
  | CtxCreateNode ctx p req now => snd (CreateNode ctx p req now s)
  | CtxUpdateNode ctx p req now => snd (UpdateNode ctx p req now s)
  | CtxDeleteNode ctx p req now => snd (DeleteNode ctx p req now s)
  | CtxCreateSubgraph ctx p req now => snd (CreateSubgraph ctx p req now s)
  | CtxUpdateSubgraph ctx p req now => snd (UpdateSubgraph ctx p req now s)
  | CtxDeleteSubgraph ctx p req now => snd (DeleteSubgraph ctx p req now s)
  | CtxSubscribe ctx p req now => snd (Subscribe ctx p req now s)
  | CtxUnsubscribe ctx p id now => snd (Unsubscribe ctx p id now s)
  | CtxEndInvocation ctx p i now => snd (EndInvocation ctx p i now s)
  | CtxSearch lower ctx p req now => snd (Search lower ctx p req now s)
  | CtxEnsureSlice ctx p ids now => snd (EnsureInitialSlice ctx p ids now s)
  | CtxRecordDelta ctx p event kind ids => snd (RecordContextDelta ctx p event kind ids s)
  | CtxAckDelta ctx p id => snd (AckDelta ctx p id s)
  | CtxRegisterTask ctx p t now => snd (RegisterTaskSubgraph ctx p t now s)
  | CtxProject ctx p projection now => snd (ProjectTaskContext ctx p projection now s)
  | CtxSubmitCandidate ctx p c now => snd (SubmitCandidate ctx p c now s)
  | CtxFinalize ctx p t now => snd (FinalizeTaskMemory ctx p t now s)
  | CtxReview ctx p decisions now => snd (SubmitReview ctx p decisions now s)
  end.

Inductive ctx_step (s : CtxStore) : CtxStore -> Prop :=
| ctx_call op : ctx_step s (run_ctx op s).

Definition ctx_steps : CtxStore -> CtxStore -> Prop := rtc ctx_step.
Definition ctx_reachable (s : CtxStore) : Prop := ctx_steps NewMemoryStore s.

(** Every call performs events with its labels. *)
Lemma run_ctx_events op s :
  data_inv (cs_data s) -> rtc (step (op_labels op)) (cs_data s) (cs_data (run_ctx op s)).
Proof.
  intros Hd. destruct op; cbn [op_labels run_ctx].
  - apply rtc_refl.
  - apply rtc_once. exists LLog. split; [in_labels|apply ev_fault].
  - by apply CreateNodes_emits.
  - by apply CreateNode_emits.
  - by apply UpdateNode_emits.
  - by apply DeleteNode_emits.
  - by apply CreateSubgraph_emits.
  - by apply UpdateSubgraph_emits.
  - by apply DeleteSubgraph_emits.
  - by apply Subscribe_emits.
  - by apply Unsubscribe_emits.
  - by apply EndInvocation_emits.
  - by apply Search_emits.
  - by apply EnsureInitialSlice_emits.
  - by apply RecordContextDelta_emits.
  - by apply AckDelta_emits.
  - by apply RegisterTaskSubgraph_emits.
  - by apply ProjectTaskContext_emits.
  - by apply SubmitCandidate_emits.
  - by apply FinalizeTaskMemory_emits.
  - apply SubmitReview_emits; [..|left|done]; unfold review_labels; in_labels.
Qed.

Lemma ctx_step_inv s s' : ctx_step s s' -> data_inv (cs_data s) -> data_inv (cs_data s').
Proof. intros [op] Hd. eapply labelled_steps_inv; [by apply run_ctx_events|done]. Qed.

Lemma ctx_steps_inv s s' : ctx_steps s s' -> data_inv (cs_data s) -> data_inv (cs_data s').
Proof. induction 1 as [|s s1 s' Hs _ IH]; [done|]. intros Hd. by eapply IH, ctx_step_inv. Qed.

Lemma ctx_reachable_inv s : ctx_reachable s -> data_inv (cs_data s).
Proof. intros H. eapply ctx_steps_inv; [exact H|apply data_inv_new]. Qed.

(** Whatever calls do, they do through events. *)
Lemma ctx_steps_events s s' : ctx_steps s s' -> data_inv (cs_data s) -> rtc (step (fun _ => True)) (cs_data s) (cs_data s').
Proof.
  induction 1 as [|s s1 s' [op] _ IH]; [done|]. intros Hd. etrans.
  - eapply steps_mono; [|by apply run_ctx_events]. done.
  - apply IH. by eapply ctx_step_inv; [constructor|].
Qed.

(** An invariant of events is an invariant of calls. *)
Lemma steps_preserve (R : memoryData -> memoryData -> Prop) P d d' :
  PreOrder R -> (forall d1 l d2, P l -> data_inv d1 -> ctx_event d1 l d2 -> R d1 d2) ->
  rtc (step P) d d' -> data_inv d -> R d d'.
Proof.
  intros HR He. induction 1 as [|d d1 d' (l & Hl & Hev) _ IH]; intros Hd; [done|].
  etrans; [by eapply He|]. apply IH. by eapply ctx_event_inv.
Qed.

Lemma ctx_steps_preserve (R : memoryData -> memoryData -> Prop) s s' :
  PreOrder R -> (forall d1 l d2, data_inv d1 -> ctx_event d1 l d2 -> R d1 d2) ->
  ctx_steps s s' -> data_inv (cs_data s) -> R (cs_data s) (cs_data s').
Proof.
  intros HR He Hs Hd. eapply (steps_preserve R (fun _ => True)); [done| |by apply ctx_steps_events|done]. eauto.
Qed.

(** ** Termination of the identifier loops *)

Lemma freeSubgraphID_Err fuel i (m : gmap string SubgraphRecord) e :
  freeSubgraphID fuel i m = Err e -> forall j : nat, j < fuel -> is_Some (m !! numbered "subgraph-" (i + Z.of_nat j)).
Proof.
  revert i. induction fuel as [|fuel IH]; intros i; simpl; [intros; lia|].
  destruct (m !! numbered "subgraph-" i) as [r|] eqn:Hr; [|done]. intros He [|j] Hj.
  - rewrite Z.add_0_r, Hr. by eexists.
  - replace (i + Z.of_nat (S j))%Z with (i + 1 + Z.of_nat j)%Z by lia. apply IH; [done|lia].
Qed.

(** A map cannot hold more keys than it has. *)
Lemma freeSubgraphID_total fuel i (m : gmap string SubgraphRecord) :
  size m < fuel -> exists id, freeSubgraphID fuel i m = Ok id.
Proof.
  intros Hlt. destruct (freeSubgraphID fuel i m) as [id|e] eqn:He; [by eauto|]. exfalso.
  pose proof (freeSubgraphID_Err _ _ _ _ He) as Hall.
  set (keys := (fun j : nat => numbered "subgraph-" (i + Z.of_nat j)) <$> seq 0 fuel).
  assert (NoDup keys) as Hnd.
  { apply NoDup_fmap_2_strong; [|apply NoDup_seq]. intros x y _ _ H%numbered_inj. lia. }
  assert (list_to_set keys ⊆ dom m) as Hsub.
  { intros k. rewrite elem_of_list_to_set. unfold keys. rewrite list_elem_of_fmap. intros (j & -> & Hj%elem_of_seq).
    apply elem_of_dom, Hall. lia. }
  apply subseteq_size in Hsub. rewrite size_list_to_set, size_dom in Hsub by done.
  unfold keys in Hsub. rewrite length_fmap, length_seq in Hsub. lia.
Qed.

End with_runtime.
