(* ===== verification/CtxCommit.v ===== *)
(** * What calls of the context graph store leave alone, and how they commit

    Consequences of the events: what a label cannot touch, what is never lost, the
    life cycle of task memory; then commits, clean failures, dispatch, pending deltas
    and slices. *)

From stdpp Require Import base tactics option list strings gmap sorting relations.
From Stdlib Require Import ZArith Ascii.
From S2P Require Import Prelude GoLib GoStrings Kernel CoordTypes Acyclic GraphSpec Auth CtxModel.
From S2P Require Import CtxSubs CtxCurate CtxReads CtxTasks CtxSpec CtxInv CtxOps CtxCalls CtxReview CtxReach.

(** ** Tasks *)

(** Everything tasks own is the same in [d'] as in [d]. *)
Record tasks_kept (d d' : memoryData) : Prop := {
  tk_subgraphs : forall id r, csg_Kind (sr_Subgraph r) = SubgraphKindTask ->
    md_subgraphs d' !! id = Some r <-> md_subgraphs d !! id = Some r;
  tk_nodes : forall id r, task_node d r -> md_nodes d !! id = Some r -> md_nodes d' !! id = Some r;
  tk_no_more : forall id r, task_node d' r -> md_nodes d' !! id = Some r -> md_nodes d !! id = Some r;
  tk_bindings : md_taskBindings d' = md_taskBindings d;
  tk_projections : md_projections d' = md_projections d;
  tk_recipients : md_recipients d' = md_recipients d;
}.

(** A node is a task's by the task subgraphs alone. *)
Lemma tasks_kept_node d d' r :
  (forall id r, csg_Kind (sr_Subgraph r) = SubgraphKindTask ->
     md_subgraphs d' !! id = Some r <-> md_subgraphs d !! id = Some r) ->
  task_node d' r <-> task_node d r.
Proof.
  intros H. unfold task_node, is_task. split; intros [Hne Ht]; (split; [done|]); intros x Hx;
    destruct (Ht x Hx) as (g & Hg & Hk & Hp); exists g; (split; [by apply H|done]).
Qed.

#[global] Instance tasks_kept_preorder : PreOrder tasks_kept.
Proof.
  split.
  - by split.
  - intros d1 d2 d3 [A1 A2 A3 A4 A5 A6] [B1 B2 B3 B4 B5 B6]. split; try congruence.
    + intros id r Hk. rewrite B1, A1; done.
    + intros id r Ht Hr. apply B2; [by apply (tasks_kept_node d1)|by apply A2].
    + intros id r Ht Hr. apply A3; [by apply (tasks_kept_node d2 d3) in Ht|by apply B3].
Qed.

Lemma tasks_kept_refl d d' :
  md_subgraphs d' = md_subgraphs d -> md_nodes d' = md_nodes d -> md_taskBindings d' = md_taskBindings d ->
  md_projections d' = md_projections d -> md_recipients d' = md_recipients d -> tasks_kept d d'.
Proof. intros Hs Hn Hb Hp Hr. split; try done; intros; by rewrite ?Hs, ?Hn in *. Qed.

(** The labels that belong to no task. *)
Definition taskless (l : label) : Prop := l <> LTask /\ l <> LStatus.

(** Replacing nodes by general ones, where there was no task node. *)
Lemma tasks_kept_nodes d nodes :
  (forall id r, md_nodes d !! id = Some r -> task_node d r -> nodes !! id = Some r) ->
  (forall id r, nodes !! id = Some r -> task_node d r -> md_nodes d !! id = Some r) ->
  tasks_kept d (md_set_nodes nodes d).
Proof. intros H1 H2. split; try done; intros id r Ht Hr; [by apply H1|by apply H2]. Qed.

Lemma general_event_keeps_tasks d d' : data_inv d -> ctx_event d LGeneral d' -> tasks_kept d d'.
Proof.
  intros Hd He. remember LGeneral as l. destruct He; try discriminate Heql.
  - apply tasks_kept_nodes.
    + intros id0 r0 Hr0 Ht. rewrite lookup_insert_ne; [done|]. intros ->. eapply task_not_general; eauto.
    + intros id0 r0. rewrite lookup_insert_Some. intros [[<- <-]|[_ ?]] Ht; [|done]. exfalso. by eapply task_not_general.
  - transitivity (md_set_nodes (delete id (md_nodes d)) d); [|by apply tasks_kept_refl]. apply tasks_kept_nodes.
    + intros id0 r0 Hr0 Ht. rewrite lookup_delete_ne; [done|]. intros ->. simplify_eq. by eapply task_not_general.
    + intros id0 r0 [_ ?]%lookup_delete_Some. done.
  - assert (forall id0 r0, csg_Kind (sr_Subgraph r0) = SubgraphKindTask ->
      <[id := r]> (md_subgraphs d) !! id0 = Some r0 <-> md_subgraphs d !! id0 = Some r0) as Hs.
    { intros id0 r0 Hk. rewrite lookup_insert_Some. split; [|intros; right; split; [congruence|done]].
      intros [[_ <-]|[_ ?]]; [|done]. exfalso. apply kinds_differ. congruence. }
    by split.
  - unfold kind_label in Heql. case_bool_decide as Hk; [done|].
    assert (forall id0 r0, csg_Kind (sr_Subgraph r0) = SubgraphKindTask ->
      <[id := r']> (md_subgraphs d) !! id0 = Some r0 <-> md_subgraphs d !! id0 = Some r0) as Hs.
    { intros id0 r0 Hk0. rewrite lookup_insert_Some. split.
      - intros [[_ <-]|[_ ?]]; [|done]. match goal with H : sub_sig _ = _ |- _ => injection H as _ H _ _ end. congruence.
      - intros Hr0. right. split; [|done]. intros ->. congruence. }
    by split.
  - apply tasks_kept_nodes.
    + intros id r Hr Ht. specialize (H id). rewrite Hr in H. destruct H as (r' & Hr' & [->|(Hg & _)]); [done|].
      exfalso. by eapply task_not_general.
    + intros id r Hr Ht. specialize (H id). destruct (md_nodes d !! id) as [r0|]; [|congruence].
      destruct H as (r' & Hr' & Hcase). simplify_eq. destruct Hcase as [->|(_ & Hg & _)]; [done|].
      exfalso. by eapply task_not_general.
  - assert (forall id0 r0, csg_Kind (sr_Subgraph r0) = SubgraphKindTask ->
      delete id (md_subgraphs d) !! id0 = Some r0 <-> md_subgraphs d !! id0 = Some r0) as Hs.
    { intros id0 r0 Hk. rewrite lookup_delete_Some. split; [tauto|]. intros Hr0. split; [|done]. intros ->. apply kinds_differ. congruence. }
    assert (forall r0, task_node d r0 -> nr_set_Node (cn_set_SubgraphIDs (removeString (cn_SubgraphIDs (nr_Node r0)) id)
      (nr_Node r0)) r0 = r0) as Hsame.
    { intros r0 [_ Ht]. assert (removeString (cn_SubgraphIDs (nr_Node r0)) id = cn_SubgraphIDs (nr_Node r0)) as ->;
        [|by destruct r0 as [[]]]. apply removeString_absent. intros Hx. destruct (Ht _ Hx) as (g & ? & ? & _). apply kinds_differ. congruence. }
    split; try done; simpl.
    + intros id0 r0 Ht Hr0. rewrite H1, Hr0. simpl. by rewrite Hsame.
    + intros id0 r0 Ht. rewrite H1, fmap_Some. intros (n & Hn & Heq). destruct (di_nodes _ Hd id0 n Hn) as [_ [Hg|[Htn _]]].
      * exfalso. destruct Ht as [Hne Ht]. rewrite Heq in *. simpl in *.
        destruct (removeString (cn_SubgraphIDs (nr_Node n)) id) as [|x l] eqn:Hl; [done|].
        assert (x ∈ removeString (cn_SubgraphIDs (nr_Node n)) id) as Hx by (rewrite Hl; by left).
        destruct (Ht x) as (g & Hg1 & Hk & _); [by left|]. apply Hs in Hg1; [|done].
        apply elem_of_removeString in Hx as [Hx _]. destruct (Hg x Hx) as (g2 & ? & ? & _). apply kinds_differ. congruence.
      * rewrite Hn, Heq. by rewrite Hsame.
  - by apply tasks_kept_refl.
Qed.

Lemma taskless_event_keeps d l d' : taskless l -> data_inv d -> ctx_event d l d' -> tasks_kept d d'.
Proof.
  intros [Hnt Hns] Hd He. destruct (decide (l = LGeneral)) as [->|Hg]; [by apply general_event_keeps_tasks|].
  destruct He; try done; try by apply tasks_kept_refl. unfold kind_label in *. by case_bool_decide.
Qed.

Lemma taskless_keeps P d d' : (forall l, P l -> taskless l) -> rtc (step P) d d' -> data_inv d -> tasks_kept d d'.
Proof.
  intros HP. apply steps_preserve; [apply _|]. intros d1 l d2 Hl. by apply taskless_event_keeps, HP.
Qed.

(** ** Task memory *)

Inductive memory_state :=
| MemOpen (batch : list CandidateBufferRecord)
| MemFrozen (batch : list CandidateBufferRecord)
| MemReviewed (batch : list CandidateBufferRecord) (receipt : TaskMemoryReviewReceipt).

(** The life cycle of the memory of a task: candidates are added while it is
    open, it is frozen once, and reviewed once with a receipt for the batch. *)
Inductive memory_move (key : taskScopeKey) : memory_state -> memory_state -> Prop :=
| mm_add l r : batch_ok key (l ++ [r]) -> memory_move key (MemOpen l) (MemOpen (l ++ [r]))
| mm_freeze l : memory_move key (MemOpen l) (MemFrozen l)
| mm_review l r : receipt_ok l key r -> memory_move key (MemFrozen l) (MemReviewed l r).

Definition memory_of (d : memoryData) (key : taskScopeKey) : memory_state :=
  let batch := buffered d key in
  if bool_decide (memoryState d key = TaskMemoryReviewed) then
    MemReviewed batch (default (mkReceipt "" [] [] []) (md_reviewReceipts d !! key))
  else if bool_decide (memoryState d key = TaskMemoryFrozenUnreviewed) then MemFrozen batch
  else MemOpen batch.

Lemma memory_of_same d d' key :
  md_candidates d' = md_candidates d -> md_taskMemory d' = md_taskMemory d -> md_reviewReceipts d' = md_reviewReceipts d ->
  memory_of d' key = memory_of d key.
Proof. intros Hc Hm Hr. unfold memory_of, memoryState, buffered. by rewrite Hc, Hm, Hr. Qed.

Lemma memory_of_other d d' key k0 :
  k0 <> key -> md_candidates d' !! k0 = md_candidates d !! k0 -> md_taskMemory d' !! k0 = md_taskMemory d !! k0 ->
  md_reviewReceipts d' !! k0 = md_reviewReceipts d !! k0 -> memory_of d' k0 = memory_of d k0.
Proof. intros _ Hc Hm Hr. unfold memory_of, memoryState, buffered. by rewrite Hc, Hm, Hr. Qed.

Lemma memory_of_open d key : memoryState d key = "" -> memory_of d key = MemOpen (buffered d key).
Proof. intros H. unfold memory_of. by rewrite H. Qed.
Lemma memory_of_frozen d key :
  memoryState d key = TaskMemoryFrozenUnreviewed -> memory_of d key = MemFrozen (buffered d key).
Proof. intros H. unfold memory_of. by rewrite H. Qed.
Lemma memory_of_reviewed d key r :
  memoryState d key = TaskMemoryReviewed -> md_reviewReceipts d !! key = Some r ->
  memory_of d key = MemReviewed (buffered d key) r.
Proof. intros H Hr. unfold memory_of. by rewrite H, Hr. Qed.

(** An event moves the memory of its own task, if it moves any. *)
Lemma event_memory d l d' key :
  ctx_event d l d' ->
  memory_of d' key = memory_of d key \/ (l = LMemory key /\ memory_move key (memory_of d key) (memory_of d' key)).
Proof.
  intros He. destruct He as [| | | | | | | | | | | | | | | | | | | | |k l r Hl Hb Hst|k Hst|k r Hst Hr]; try (left; by apply memory_of_same).
  - destruct (decide (k = key)) as [->|Hne];
      [|left; apply (memory_of_other _ _ k); [by apply not_eq_sym| |done..]; simpl; by rewrite lookup_insert_ne].
    right. split; [done|]. rewrite (memory_of_open d) by done. rewrite memory_of_open by exact Hst.
    unfold buffered at 2. simpl. rewrite lookup_insert_eq, Hl. simpl. by apply mm_add.
  - destruct (decide (k = key)) as [->|Hne];
      [|left; apply (memory_of_other _ _ k); [by apply not_eq_sym|done| |done]; simpl; by rewrite lookup_insert_ne].
    right. split; [done|]. rewrite (memory_of_open d) by done. rewrite memory_of_frozen.
    + apply mm_freeze.
    + unfold memoryState. simpl. by rewrite lookup_insert_eq.
  - destruct (decide (k = key)) as [->|Hne];
      [|left; apply (memory_of_other _ _ k); [by apply not_eq_sym|done|simpl; by rewrite lookup_insert_ne..]].
    right. split; [done|]. rewrite (memory_of_frozen d) by done. rewrite (memory_of_reviewed _ key r).
    + by apply mm_review.
    + unfold memoryState. simpl. by rewrite lookup_insert_eq.
    + simpl. by rewrite lookup_insert_eq.
Qed.

Lemma steps_memory P d d' key : rtc (step P) d d' -> rtc (memory_move key) (memory_of d key) (memory_of d' key).
Proof.
  induction 1 as [|d d1 d' (l & _ & He) _ IH]; [done|]. destruct (event_memory _ _ _ key He) as [Heq|[_ Hm]].
  - by rewrite <- Heq.
  - by eapply rtc_l.
Qed.

(** ** Deltas are never lost *)

(** Deltas, and the identity of subscriptions, are permanent; acknowledging is
    too. *)
Record deliveries_kept (d d' : memoryData) : Prop := {
  dk_deltas : forall k x, md_deltas d !! k = Some x -> md_deltas d' !! k = Some x;
  dk_acks : forall k, md_deltaAck d !! k = Some true -> md_deltaAck d' !! k = Some true;
  dk_subs : forall k r, md_subscriptions d !! k = Some r -> exists r', md_subscriptions d' !! k = Some r' /\
    csr_Subscription r' = csr_Subscription r /\ csr_ProjectID r' = csr_ProjectID r /\
    (csr_Active r' = true -> r' = r);
}.

#[global] Instance deliveries_kept_preorder : PreOrder deliveries_kept.
Proof.
  split.
  - split; try done. intros k r Hr. by exists r.
  - intros d1 d2 d3 [A1 A2 A3] [B1 B2 B3]. split; auto. intros k r Hr. destruct (A3 k r Hr) as (r2 & Hr2 & S2 & P2 & C2).
    destruct (B3 k r2 Hr2) as (r3 & Hr3 & S3 & P3 & C3). exists r3. split_and!; [done|congruence|congruence|].
    intros Ha. specialize (C3 Ha) as ->. auto.
Qed.

Lemma deliveries_same d d' :
  md_deltas d' = md_deltas d -> md_deltaAck d' = md_deltaAck d -> md_subscriptions d' = md_subscriptions d -> deliveries_kept d d'.
Proof. intros H1 H2 H3. split; rewrite ?H1, ?H2, ?H3; try done. intros k r Hr. by exists r. Qed.

Lemma event_keeps_deliveries d l d' : data_inv d -> ctx_event d l d' -> deliveries_kept d d'.
Proof.
  intros Hd He. destruct He; try by apply deliveries_same.
  - split; try done. simpl. intros k r0 Hr0. exists r0. split; [|done]. rewrite lookup_insert_ne; [done|].
    rewrite H. intros <-. by rewrite (numbered_keys_fresh _ _ (di_sub_keys _ Hd)) in Hr0.
  - split; try done. simpl. intros k r Hr. specialize (H k). rewrite Hr in H. destruct H as (r' & Hr' & Hc).
    exists r'. destruct Hc as [->|(_ & _ & Ha & ? & ?)]; split_and!; try done. by rewrite Ha.
  - split; try done; [|intros k r0 Hr0; by exists r0]. simpl. intros k y Hy. rewrite lookup_insert_ne; [done|].
    rewrite H. intros <-. by rewrite (numbered_keys_fresh _ _ (di_delta_keys _ Hd)) in Hy.
  - split; try done; [|intros k0 r0 Hr0; by exists r0]. simpl. intros k0 Hk0. destruct (decide (k = k0)) as [->|Hne].
    + by rewrite lookup_insert_eq.
    + by rewrite lookup_insert_ne.
Qed.

Section with_runtime.
Context `{GR : GoRuntime}.

Lemma ctx_steps_deliveries s s' : ctx_steps s s' -> data_inv (cs_data s) -> deliveries_kept (cs_data s) (cs_data s').
Proof. apply ctx_steps_preserve; [apply _|]. intros. by eapply event_keeps_deliveries. Qed.

(** ** Startup slices *)

(** Only [EnsureInitialSlice] writes slices, and only missing ones. *)
Definition slices_kept (s s' : CtxStore) : Prop :=
  forall k x, cs_initialSlices s !! k = Some x -> cs_initialSlices s' !! k = Some x.

Definition keeps_slices {A} (m : M error CtxStore A) : Prop := forall s, slices_kept s (snd (m s)).

Lemma keeps_slices_readonly {A} (m : M error CtxStore A) : readonly m -> keeps_slices m.
Proof. intros Hm s k x. by rewrite Hm. Qed.
Lemma keeps_slices_bind {A B} (m : M error CtxStore A) (k : A -> M error CtxStore B) :
  keeps_slices m -> (forall a, keeps_slices (k a)) -> keeps_slices (m ≫= k).
Proof.
  intros Hm Hk s. specialize (Hm s). unfold mbind, M_bind. destruct (m s) as [[a|e] s1]; [|done].
  intros key x Hx. by apply Hk, Hm.
Qed.
Lemma keeps_slices_transact {A} (m : M error memoryData A) : keeps_slices (transact m).
Proof. intros s. unfold transact, cloneLocked. destruct (m (cs_data s)) as [[a|e] d]; by intros k x. Qed.
Lemma keeps_slices_in_place {A} (m : M error memoryData A) : keeps_slices (in_place m).
Proof. intros s. unfold in_place. destruct (m (cs_data s)) as [r d]. by intros k x. Qed.

End with_runtime.

#[export] Hint Resolve keeps_slices_bind keeps_slices_transact keeps_slices_in_place keeps_slices_readonly : threadmill.

Ltac slices :=
  repeat first
    [ apply keeps_slices_transact | apply keeps_slices_in_place
    | apply keeps_slices_readonly; solve [auto with threadmill; done]
    | apply keeps_slices_bind; [|intros ?] | case_match ].

Section slices.
Context `{GR : GoRuntime}.

Lemma EnsureInitialSlice_keeps ctx p ids now : keeps_slices (EnsureInitialSlice ctx p ids now).
Proof.
  intros s. unfold EnsureInitialSlice, mbind, M_bind, lift, get_state, modify, get_data, mret, M_ret. simpl.
  destruct (ctx_Err ctx); [|by intros k x]. destruct (requireTool _ _ _); [|by intros k x].
  destruct (cs_initialSlices s !! _) as [initial|] eqn:Hnone; [by intros k x|].
  assert (forall id s1, cs_initialSlices s1 = cs_initialSlices s ->
    slices_kept s (cs_set_initialSlices (<[(pri_ProjectID p, consumerInvocationID p) := id]> (cs_initialSlices s1)) s1)) as Hput.
  { intros id s1 Hs1 k x Hx. simpl. rewrite Hs1, lookup_insert_ne; [done|]. congruence. }
  case_bool_decide; simpl.
  - unfold in_place. destruct (createSubscription _ _ _ _ _) as [[sub|e] d]; simpl; [by apply (Hput _ (cs_set_data d s))|by intros k x].
  - by apply Hput.
Qed.

Lemma run_ctx_slices op s : slices_kept s (run_ctx op s).
Proof.
  destruct op; cbn [run_ctx]; try (by intros k x);
    first [apply EnsureInitialSlice_keeps | match goal with |- slices_kept _ (snd (?m ?s)) => revert s; change (keeps_slices m) end].
  - unfold CreateNodes. slices.
  - unfold CreateNode. slices.
  - unfold UpdateNode. slices.
  - unfold DeleteNode. slices.
  - unfold CreateSubgraph. slices.
  - unfold UpdateSubgraph. slices.
  - unfold DeleteSubgraph. slices.
  - unfold Subscribe. slices.
  - unfold Unsubscribe. slices.
  - unfold EndInvocation. slices.
  - unfold Search. slices.
  - unfold RecordContextDelta. slices.
  - unfold AckDelta. slices.
  - unfold RegisterTaskSubgraph. slices.
  - unfold ProjectTaskContext. slices.
  - unfold SubmitCandidate. slices.
  - unfold FinalizeTaskMemory. slices.
  - unfold SubmitReview. slices.
Qed.

Lemma ctx_steps_slices s s' : ctx_steps s s' -> slices_kept s s'.
Proof.
  induction 1 as [|s s1 s' [op] _ IH]; [by intros ??|]. intros k x Hx. apply IH. by apply run_ctx_slices.
Qed.

Lemma cloneContextSlice_id slice : cloneContextSlice slice = slice.
Proof. destruct slice as [nodes ids rev]. unfold cloneContextSlice, cloneNode. simpl. by rewrite list_fmap_id. Qed.

(** A successful call leaves its result as the slice of the consumer. *)
Lemma EnsureInitialSlice_stored p ids now s slice s1 :
  EnsureInitialSlice None p ids now s = (Ok slice, s1) ->
  requireTool p ToolContextSubscribe (pri_ProjectID p) = Ok tt /\
  cs_initialSlices s1 !! (pri_ProjectID p, consumerInvocationID p) = Some slice.
Proof.
  unfold EnsureInitialSlice, mbind, M_bind, lift, get_state, modify, get_data, mret, M_ret. simpl.
  destruct (requireTool _ _ _) as [[]|e]; [|done]. destruct (cs_initialSlices s !! _) as [initial|] eqn:Hsome; [rewrite cloneContextSlice_id; by intros [= <- <-]|].
  case_bool_decide; simpl.
  - unfold in_place. destruct (createSubscription _ _ _ _ _) as [[sub|e] d]; simpl; [|done].
    intros [= <- <-]. simpl. by rewrite lookup_insert_eq.
  - intros [= <- <-]. simpl. by rewrite lookup_insert_eq.
Qed.

End slices.

(** * A mutation of the context graph commits once or changes nothing

    [logs n m] says of a step on a working copy that it writes [n] audit and [n]
    outbox entries and leaves the revision; [commits n m] that it also counts
    the revision, once. *)

Definition logged (n : nat) (d d' : memoryData) : Prop :=
  length (md_audit d') = length (md_audit d) + n /\ length (md_outbox d') = length (md_outbox d) + n.

Definition logs {A} (n : nat) (m : M error memoryData A) : Prop :=
  forall d a d', m d = (Ok a, d') -> logged n d d' /\ md_graphRevision d' = md_graphRevision d.
Definition commits {A} (n : nat) (m : M error memoryData A) : Prop :=
  forall d a d', m d = (Ok a, d') -> logged n d d' /\ md_graphRevision d' = Revision_Next (md_graphRevision d).

Lemma logged_trans n k d1 d2 d3 : logged n d1 d2 -> logged k d2 d3 -> logged (n + k) d1 d3.
Proof. unfold logged. lia. Qed.

Section rules.
Context {A B : Type}.
Implicit Types (m : M error memoryData A) (k : A -> M error memoryData B).

Lemma logs_bind n j m k : logs n m -> (forall a, logs j (k a)) -> logs (n + j) (m ≫= k).
Proof.
  intros Hm Hk d b d' (a & d1 & H1 & H2)%M_bind_Ok. apply Hm in H1 as [L1 R1]. apply Hk in H2 as [L2 R2].
  split; [by eapply logged_trans|congruence].
Qed.

Lemma commits_bind_r n j m k : logs n m -> (forall a, commits j (k a)) -> commits (n + j) (m ≫= k).
Proof.
  intros Hm Hk d b d' (a & d1 & H1 & H2)%M_bind_Ok. apply Hm in H1 as [L1 R1]. apply Hk in H2 as [L2 R2].
  split; [by eapply logged_trans|congruence].
Qed.

Lemma commits_bind_l n j m k : commits n m -> (forall a, logs j (k a)) -> commits (n + j) (m ≫= k).
Proof.
  intros Hm Hk d b d' (a & d1 & H1 & H2)%M_bind_Ok. apply Hm in H1 as [L1 R1]. apply Hk in H2 as [L2 R2].
  split; [by eapply logged_trans|congruence].
Qed.

Lemma logs_readonly m : readonly m -> logs 0 m.
Proof. intros Hm d a d' H. specialize (Hm d). rewrite H in Hm. simpl in Hm. subst. split; [by split|done]. Qed.

Lemma logs_throw n e : logs n (@throw error memoryData A e).
Proof. by intros d a d'. Qed.
End rules.

(** A write to fields other than the logs and the revision. *)
Lemma logs_modify f :
  (forall d, md_audit (f d) = md_audit d /\ md_outbox (f d) = md_outbox d /\ md_graphRevision (f d) = md_graphRevision d) ->
  logs 0 (@modify error memoryData f).
Proof.
  intros Hf d a d' [= _ <-]. destruct (Hf d) as (H1 & H2 & H3). unfold logged. rewrite H1, H2. split; [lia|done].
Qed.

Lemma logs_foldMM {A C} (f : C -> A -> M error memoryData C) c l :
  (forall c x, logs 1 (f c x)) -> logs (length l) (foldMM f c l).
Proof.
  intros Hf. revert c. induction l as [|x l IH]; intros c; simpl; [by apply logs_readonly|].
  apply (logs_bind 1 (length l)); [apply Hf|]. intros. apply IH.
Qed.

Lemma logs_foldMM_0 {A C} (f : C -> A -> M error memoryData C) c l :
  (forall c x, logs 0 (f c x)) -> logs 0 (foldMM f c l).
Proof.
  intros Hf. revert c. induction l as [|x l IH]; intros c; simpl; [by apply logs_readonly|].
  apply (logs_bind 0 0); [apply Hf|]. intros. apply IH.
Qed.

Section with_runtime.
Context `{GR : GoRuntime}.

Lemma logs_events now p action topic subject payload : logs 1 (appendMutationEvents now p action topic subject payload).
Proof.
  intros d a d' ->%appendMutationEvents_Ok. split; [|done]. split; simpl; by rewrite length_app.
Qed.

Lemma logs_edge e : logs 0 (addEdge e).
Proof.
  intros d a d' H. unfold addEdge in H. res_inv.
  match goal with H : fault_point _ _ _ = _ |- _ => apply fault_point_Ok in H as -> end.
  unfold modify in H. simplify_eq. split; [by split|done].
Qed.

Lemma deltas_frame p event kind changed l d created :
  let d' := (foldl (deltaStep p event kind changed) (d, created) l).1 in
  md_audit d' = md_audit d /\ md_outbox d' = md_outbox d /\ md_graphRevision d' = md_graphRevision d.
Proof.
  revert d created. induction l as [|r l IH]; intros d created; [done|]. cbn [foldl].
  destruct (deltaStep p event kind changed (d, created) r) as [d1 c1] eqn:Hs.
  assert (md_audit d1 = md_audit d /\ md_outbox d1 = md_outbox d /\ md_graphRevision d1 = md_graphRevision d) as (<- & <- & <-).
  { unfold deltaStep in Hs. destruct (deltaSubgraphs _ _ _ _ _); by simplify_eq. }
  apply IH.
Qed.

Lemma logs_deltas p event kind changed : logs 0 (appendContextDeltas p event kind changed).
Proof.
  intros d a d'. unfold appendContextDeltas. pose proof (deltas_frame p event kind changed (range_values (md_subscriptions d)) d []) as H.
  destruct (foldl _ _ _) as [d1 c]. intros [= _ <-]. simpl in H. destruct H as (H1 & H2 & H3).
  unfold logged. rewrite H1, H2. split; [lia|done].
Qed.

Lemma commits_publish p kind changed : commits 0 (publish p kind changed).
Proof.
  unfold publish. apply (commits_bind_l 0 0); [|intros _; apply (logs_bind 0 0); [by apply logs_readonly|intros w]].
  - intros d a d' [= _ <-]. split; [by split|done].
  - apply (logs_bind 0 0); [apply logs_deltas|intros; by apply logs_readonly].
Qed.

Lemma logs_bump_seq : logs 0 bump_seq.
Proof. unfold bump_seq. apply (logs_bind 0 0); [by apply logs_modify|intros _]. by apply (logs_bind 0 0); [apply logs_readonly|intros; apply logs_readonly]. Qed.

Lemma logs_put_node id r : logs 0 (put_node id r).
Proof. by apply logs_modify. Qed.
Lemma logs_touch now ids : logs 0 (touch_all now ids).
Proof. by apply logs_modify. Qed.
Lemma logs_put_subgraph id r : logs 0 (put_subgraph id r).
Proof. by apply logs_modify. Qed.

Lemma logs_curatedNode p expected id : logs 0 (curatedNode p expected id).
Proof.
  apply logs_readonly. unfold curatedNode. apply readonly_bind; [done|]. intros d. destruct (md_nodes d !! id); [|done].
  repeat (apply readonly_bind; [done|intros _]). done.
Qed.

Lemma logs_curatedSubgraph p expected id verb : logs 0 (curatedSubgraph p expected id verb).
Proof.
  apply logs_readonly. unfold curatedSubgraph. apply readonly_bind; [done|]. intros d. destruct (md_subgraphs d !! id); [|done].
  repeat (apply readonly_bind; [done|intros _]). done.
Qed.

Lemma logs_members p sid ids : logs 0 (setGeneralSubgraphMembers p sid ids).
Proof.
  unfold setGeneralSubgraphMembers. intros d a d' H. res_inv. unfold get_state in *. simplify_eq.
  unfold put_state in H. simplify_eq. split; [by split|done].
Qed.

Lemma logs_previousEdge p creation node edges : logs 0 (previousEdge p creation node edges).
Proof.
  unfold previousEdge. case_bool_decide; [by apply logs_readonly|]. apply (logs_bind 0 0); [by apply logs_readonly|]. intros d.
  destruct (md_nodes d !! _); [|by apply logs_readonly]. destruct (continues _ _ _ _); [|by apply logs_readonly].
  by apply (logs_bind 0 0); [apply logs_edge|intros; apply logs_readonly].
Qed.

Lemma logs_derivedEdge p node edges x : logs 0 (derivedEdge p node edges x).
Proof.
  unfold derivedEdge. apply (logs_bind 0 0); [by apply logs_readonly|]. intros d.
  destruct (md_subgraphs d !! _); [|by apply logs_readonly]. destruct (canSeeSubgraph _ _); [|by apply logs_readonly].
  by apply (logs_bind 0 0); [apply logs_edge|intros; apply logs_readonly].
Qed.

Lemma logs_createOne p now acc input : logs 1 (createOne p now acc input).
Proof.
  unfold createOne. destruct acc as [[created edges] changed].
  apply (logs_bind 0 1); [by apply logs_readonly|intros d].
  do 2 (apply (logs_bind 0 1); [by apply logs_readonly|intros _]).
  apply (logs_bind 0 1); [apply logs_bump_seq|intros seq].
  apply (logs_bind 0 1); [apply logs_put_node|intros _].
  apply (logs_bind 0 1); [apply logs_touch|intros _].
  apply (logs_bind 0 1); [apply logs_previousEdge|intros e1].
  apply (logs_bind 0 1); [apply logs_foldMM_0; intros; apply logs_derivedEdge|intros e2].
  apply (logs_bind 1 0); [apply logs_events|intros _]. by apply logs_readonly.
Qed.

End with_runtime.

(** ** Calls *)

(** The store is as before, or the call committed: the revision counted once and
    [n] audit and [n] outbox entries appended; slices and resolver are kept. *)
Definition all_or_nothing {A} (n : nat) (m : M error CtxStore A) : Prop :=
  forall s, match m s with
            | (Ok _, s') => logged n (cs_data s) (cs_data s') /\
                md_graphRevision (cs_data s') = Revision_Next (md_graphRevision (cs_data s)) /\
                cs_initialSlices s' = cs_initialSlices s /\ cs_taskResolver s' = cs_taskResolver s
            | (Err _, s') => s' = s
            end.

Lemma all_or_nothing_guard {A B} n (r : res A) (k : A -> M error CtxStore B) :
  (forall a, all_or_nothing n (k a)) -> all_or_nothing n (lift r ≫= k).
Proof. intros Hk s. unfold mbind, M_bind, lift. destruct r as [a|e]; [apply Hk|done]. Qed.

Lemma all_or_nothing_transact {A} n (m : M error memoryData A) : commits n m -> all_or_nothing n (transact m).
Proof.
  intros Hm s. unfold transact, cloneLocked. destruct (m (cs_data s)) as [[a|e] d] eqn:Hr; [|done].
  apply Hm in Hr as [? ?]. done.
Qed.

(** Walks through the steps of a mutation. *)
Ltac log_step :=
  first [ by apply logs_readonly | apply logs_bump_seq | apply logs_put_node | apply logs_touch | apply logs_put_subgraph
        | apply logs_curatedNode | apply logs_curatedSubgraph | apply logs_members | by apply logs_modify ].
Ltac commit_steps :=
  repeat (apply all_or_nothing_guard; intros ?); apply all_or_nothing_transact;
  repeat (apply (commits_bind_r 0 1); [log_step|intros ?]); apply (commits_bind_r 1 0); [apply logs_events|intros _].

Section calls.
Context `{GR : GoRuntime}.

Lemma CreateNode_commits ctx p req now : all_or_nothing 1 (CreateNode ctx p req now).
Proof. unfold CreateNode. commit_steps. apply (commits_bind_l 0 0); [apply commits_publish|intros; by apply logs_readonly]. Qed.
Lemma UpdateNode_commits ctx p req now : all_or_nothing 1 (UpdateNode ctx p req now).
Proof. unfold UpdateNode. commit_steps. apply (commits_bind_l 0 0); [apply commits_publish|intros; by apply logs_readonly]. Qed.
Lemma DeleteNode_commits ctx p req now : all_or_nothing 1 (DeleteNode ctx p req now).
Proof. unfold DeleteNode. commit_steps. apply commits_publish. Qed.
Lemma CreateSubgraph_commits ctx p req now : all_or_nothing 1 (CreateSubgraph ctx p req now).
Proof. unfold CreateSubgraph. commit_steps. apply (commits_bind_l 0 0); [apply commits_publish|intros; by apply logs_readonly]. Qed.
Lemma UpdateSubgraph_commits ctx p req now : all_or_nothing 1 (UpdateSubgraph ctx p req now).
Proof. unfold UpdateSubgraph. commit_steps. apply (commits_bind_l 0 0); [apply commits_publish|intros; by apply logs_readonly]. Qed.
Lemma DeleteSubgraph_commits ctx p req now : all_or_nothing 1 (DeleteSubgraph ctx p req now).
Proof. unfold DeleteSubgraph. commit_steps. apply commits_publish. Qed.

Lemma CreateNodes_commits ctx p req now : all_or_nothing (length (cnr_Nodes req)) (CreateNodes ctx p req now).
Proof.
  unfold CreateNodes. repeat (apply all_or_nothing_guard; intros ?). apply all_or_nothing_transact.
  do 2 (apply (commits_bind_r 0 (length (cnr_Nodes req))); [by apply logs_readonly|intros ?]).
  rewrite <- (Nat.add_0_r (length (cnr_Nodes req))).
  apply commits_bind_r; [apply logs_foldMM, logs_createOne|]. intros [[created edges] changed].
  apply (commits_bind_l 0 0); [apply commits_publish|intros _]. apply (logs_bind 0 0); intros; by apply logs_readonly.
Qed.

(** A failed call that is no mutation of the graph leaves the store alone, too. *)
Definition clean_failure {A} (m : M error CtxStore A) : Prop := forall s e s', m s = (Err e, s') -> s' = s.

Lemma clean_guard {A B} (r : res A) (k : A -> M error CtxStore B) :
  (forall a, clean_failure (k a)) -> clean_failure (lift r ≫= k).
Proof. intros Hk s e s'. unfold mbind, M_bind, lift. destruct r as [a|e0]; [apply Hk|by intros [= _ <-]]. Qed.
Lemma clean_get {B} (k : CtxStore -> M error CtxStore B) : (forall a, clean_failure (k a)) -> clean_failure (get_state ≫= k).
Proof. intros Hk s. apply (Hk s). Qed.
Lemma clean_data {B} (k : memoryData -> M error CtxStore B) : (forall a, clean_failure (k a)) -> clean_failure (get_data ≫= k).
Proof. intros Hk s. apply (Hk (cs_data s)). Qed.
Lemma clean_transact {A} (m : M error memoryData A) : clean_failure (transact m).
Proof. intros s e s'. unfold transact, cloneLocked. destruct (m (cs_data s)) as [[a|e0] d]; [done|by intros [= _ <-]]. Qed.
Lemma clean_readonly {A} (m : M error CtxStore A) : readonly m -> clean_failure m.
Proof. intros Hm s e s' H. specialize (Hm s). rewrite H in Hm. simpl in Hm. done. Qed.
(** Something that cannot fail, and what follows it cannot either. *)
Lemma clean_total {A B} (m : M error CtxStore A) (k : A -> M error CtxStore B) :
  (forall s, is_ok (m s).1 = true) -> (forall a s, is_ok (k a s).1 = true) -> clean_failure (m ≫= k).
Proof.
  intros Hm Hk s e s'. unfold mbind, M_bind. specialize (Hm s). destruct (m s) as [[a|e0] s1]; [|done].
  specialize (Hk a s1). intros H. by rewrite H in Hk.
Qed.

Lemma Subscribe_clean ctx p req now : clean_failure (Subscribe ctx p req now).
Proof. unfold Subscribe. repeat (apply clean_guard; intros ?). apply clean_transact. Qed.

Lemma ProjectTaskContext_clean ctx p pr now : clean_failure (ProjectTaskContext ctx p pr now).
Proof. unfold ProjectTaskContext. repeat (apply clean_guard; intros ?). apply clean_get. intros s. apply clean_transact. Qed.

Lemma SubmitReview_clean ctx p decisions now : clean_failure (SubmitReview ctx p decisions now).
Proof.
  unfold SubmitReview. repeat (apply clean_guard; intros ?). apply clean_data. intros d.
  case_bool_decide; [by apply clean_readonly|]. apply clean_guard. intros _. apply clean_transact.
Qed.

Lemma SubmitCandidate_clean ctx p c now : clean_failure (SubmitCandidate ctx p c now).
Proof.
  unfold SubmitCandidate. repeat (apply clean_guard; intros ?). apply clean_data. intros d.
  repeat (apply clean_guard; intros ?). by apply clean_total.
Qed.

Lemma RegisterTaskSubgraph_clean ctx p t now : clean_failure (RegisterTaskSubgraph ctx p t now).
Proof.
  unfold RegisterTaskSubgraph. repeat (apply clean_guard; intros ?). apply clean_get. intros s.
  repeat (apply clean_guard; intros ?). destruct (md_taskBindings _ !! _); [by apply clean_readonly|].
  apply clean_guard. intros _. by apply clean_total.
Qed.
End calls.

(** * What subscribers get

    The deltas one change creates, what a consumer finds pending, and the slice
    its subscriptions amount to. *)

Section with_runtime.
Context `{GR : GoRuntime}.

(** ** Dispatch *)

(** The delta a subscription record gets. *)
Record dispatched (d : memoryData) (p : Principal) (event kind : string) (changed : list string)
    (x : ContextDelta) (r : ContextSubscriptionRecord) : Prop := {
  dp_subscription : cd_SubscriptionID x = sub_ID (csr_Subscription r);
  dp_consumer : cd_InvocationID x = sub_ConsumerInvocationID (csr_Subscription r);
  dp_project : cd_ProjectID x = pri_ProjectID p;
  dp_event : cd_EventID x = event /\ cd_EventKind x = kind;
  dp_subgraphs : cd_SubgraphIDs x = deltaSubgraphs d (pri_ProjectID p) kind changed r;
  dp_some : cd_SubgraphIDs x <> [];
}.

(** Those a change concerns, in the order they were met. *)
Definition concerned (d : memoryData) (p : Principal) (kind : string) (changed : list string)
    (rs : list ContextSubscriptionRecord) : list ContextSubscriptionRecord :=
  filter (fun r => deltaSubgraphs d (pri_ProjectID p) kind changed r <> []) rs.

Lemma dispatch_fold p event kind changed rs d :
  data_inv d -> (forall r, r ∈ rs -> exists k, md_subscriptions d !! k = Some r) ->
  exists m created, foldl (deltaStep p event kind changed) (d, []) rs = (md_set_deltas m d, created) /\
    data_inv (md_set_deltas m d) /\
    Forall2 (dispatched d p event kind changed) created (concerned d p kind changed rs) /\
    (forall id x, m !! id = Some x <-> md_deltas d !! id = Some x \/ (x ∈ created /\ id = cd_ID x)).
Proof.
  intros Hd. induction rs as [|r rs IH] using rev_ind; intros Hrs.
  { exists (md_deltas d), []. simpl. replace (md_set_deltas (md_deltas d) d) with d by by destruct d.
    split_and!; [done|done|constructor|]. intros id x. rewrite elem_of_nil. tauto. }
  destruct IH as (m & created & Heq & Hinv & Hall & Hm); [intros r0 Hr0; apply Hrs, elem_of_app; by left|].
  destruct (Hrs r) as (k & Hk); [apply elem_of_app; right; by left|].
  rewrite foldl_app, Heq. cbn [foldl]. unfold concerned. rewrite filter_app, filter_cons.
  change (filter _ []) with (@nil ContextSubscriptionRecord). fold (concerned d p kind changed rs).
  unfold deltaStep. change (deltaSubgraphs (md_set_deltas m d)) with (deltaSubgraphs d).
  destruct (deltaSubgraphs d (pri_ProjectID p) kind changed r) as [|v vs] eqn:Hv.
  { rewrite decide_False by tauto. rewrite app_nil_r. exists m, created. by split_and!. }
  rewrite decide_True by done. simpl.
  set (id := numbered "delta-" _). set (x := mkDelta id _ _ _ _ _ _ _).
  assert (m !! id = None) as Hfresh by exact (numbered_keys_fresh _ _ (di_delta_keys _ Hinv)).
  eexists _, _. split; [reflexivity|].
  assert (dispatched d p event kind changed x r) as Hx by (split; simpl; auto).
  split.
  - apply (inv_delta (md_set_deltas m d) x Hinv); [done|]. split; [done|]. split; [done|]. exists r.
    destruct (di_subs _ Hd k r Hk) as [Hid _ _ _]. simpl. rewrite Hid.
    assert (v ∈ deltaSubgraphs d (pri_ProjectID p) kind changed r) as Hin by (rewrite Hv; by left).
    apply deltaSubgraphs_active in Hin as (Hp & _). split_and!; [done..|]. intros g Hg. rewrite <- Hv in Hg.
    apply deltaSubgraphs_active in Hg as (_ & _ & _ & Hg). apply elem_of_visibleDelta in Hg. tauto.
  - split; [apply Forall2_app; [done|by repeat constructor]|].
    intros id0 x0. rewrite lookup_insert_Some, Hm, elem_of_app, list_elem_of_singleton. split.
    + intros [[<- <-]|[_ [?|[? ?]]]]; auto.
    + intros [Hold|[[Hc| ->] ->]]; [right|right|by left].
      * split; [|by left]. intros <-. assert (m !! id = Some x0) as Hc by (apply Hm; by left). congruence.
      * split; [|by right]. intros Heq'. assert (m !! id = Some x0) as Hc' by (apply Hm; right; by rewrite Heq'). congruence.
Qed.

(** Subscriptions have distinct ids. *)
Lemma subscription_ids d : data_inv d -> (fun r => sub_ID (csr_Subscription r)) <$> range_values (md_subscriptions d) = range_keys (md_subscriptions d).
Proof.
  intros Hd. unfold range_values, range_keys. rewrite <- list_fmap_compose. apply list_fmap_ext.
  intros i [k r] Hi. apply list_elem_of_lookup_2, elem_of_range_map in Hi. simpl.
  by apply (so_id _ _ (di_subs _ Hd k r Hi)).
Qed.

Lemma dispatch_spec p event kind changed d :
  data_inv d -> exists m created, appendContextDeltas p event kind changed d = (Ok created, md_set_deltas m d) /\
    (forall x, x ∈ created -> exists k r, md_subscriptions d !! k = Some r /\ dispatched d p event kind changed x r) /\
    (forall k r, md_subscriptions d !! k = Some r -> deltaSubgraphs d (pri_ProjectID p) kind changed r <> [] ->
       exists x, x ∈ created /\ dispatched d p event kind changed x r) /\
    NoDup (cd_SubscriptionID <$> created) /\
    (forall id x, m !! id = Some x <-> md_deltas d !! id = Some x \/ (x ∈ created /\ id = cd_ID x)).
Proof.
  intros Hd. destruct (dispatch_fold p event kind changed (range_values (md_subscriptions d)) d Hd)
    as (m & created & Heq & _ & Hall & Hm). { intros r Hr. by apply elem_of_range_values. }
  unfold appendContextDeltas. rewrite Heq. exists m. eexists. split; [reflexivity|].
  set (sorted := sort_slice _ created). assert (sorted ≡ₚ created) as Hperm by apply sort_slice_perm.
  split_and!.
  - intros x. rewrite Hperm. intros (i & Hi)%list_elem_of_lookup.
    destruct (Forall2_lookup_l _ _ _ _ _ Hall Hi) as (r & Hr & Hdp). apply list_elem_of_lookup_2, list_elem_of_filter in Hr as [_ Hr].
    apply elem_of_range_values in Hr as (k & Hk). eauto.
  - intros k r Hr Hne. assert (r ∈ concerned d p kind changed (range_values (md_subscriptions d))) as Hin.
    { apply list_elem_of_filter. split; [done|]. apply elem_of_range_values. eauto. }
    apply list_elem_of_lookup in Hin as (i & Hi). destruct (Forall2_lookup_r _ _ _ _ _ Hall Hi) as (x & Hx & Hdp).
    exists x. split; [|done]. rewrite Hperm. by eapply list_elem_of_lookup_2.
  - rewrite Hperm. assert (cd_SubscriptionID <$> created = (fun r => sub_ID (csr_Subscription r)) <$>
      concerned d p kind changed (range_values (md_subscriptions d))) as ->.
    { clear -Hall. induction Hall as [|x r l l' [Hx _ _ _ _ _] _ IH]; [done|]. by rewrite !fmap_cons, Hx, IH. }
    eapply sublist_NoDup; [|apply fmap_sublist, sublist_filter]. rewrite subscription_ids by done. apply NoDup_range_keys.
  - intros id x. rewrite Hm, Hperm. done.
Qed.

(** ** Pending deltas *)

Lemma pendingDelta_Some d p k x y :
  pendingDelta d p (k, x) = Some y ->
  default false (md_deltaAck d !! k) = false /\ cd_ProjectID x = pri_ProjectID p /\ cd_InvocationID x = consumerInvocationID p /\
  exists r, md_subscriptions d !! cd_SubscriptionID x = Some r /\ csr_Active r = true /\
    csr_ProjectID r = pri_ProjectID p /\ sub_ConsumerInvocationID (csr_Subscription r) = consumerInvocationID p /\
    visibleDeltaSubgraphs r (md_subgraphs d) (cd_SubgraphIDs x) <> [] /\
    y = cd_set_SubgraphIDs (visibleDeltaSubgraphs r (md_subgraphs d) (cd_SubgraphIDs x)) x.
Proof.
  unfold pendingDelta. destruct (default false _ || _ || _) eqn:Hg; [done|]. bool_inv.
  destruct (md_subscriptions d !! _) as [r|]; [|done]. destruct (negb (csr_Active r) || _) eqn:Hr; [done|]. bool_inv.
  unfold consumed_by in *. bool_inv. destruct (visibleDeltaSubgraphs _ _ _) as [|v vs] eqn:Hv; [done|]. intros [= <-].
  split_and!; [done..|]. exists r. rewrite Hv. done.
Qed.

Lemma pendingDelta_intro d p k x r :
  default false (md_deltaAck d !! k) = false -> cd_ProjectID x = pri_ProjectID p -> cd_InvocationID x = consumerInvocationID p ->
  md_subscriptions d !! cd_SubscriptionID x = Some r -> csr_Active r = true ->
  csr_ProjectID r = pri_ProjectID p -> sub_ConsumerInvocationID (csr_Subscription r) = consumerInvocationID p ->
  visibleDeltaSubgraphs r (md_subgraphs d) (cd_SubgraphIDs x) <> [] ->
  pendingDelta d p (k, x) = Some (cd_set_SubgraphIDs (visibleDeltaSubgraphs r (md_subgraphs d) (cd_SubgraphIDs x)) x).
Proof.
  intros Ha Hp Hi Hr Hact Hp' Hi' Hv. unfold pendingDelta, consumed_by. rewrite Ha, Hr, Hact, Hp, Hi, Hp', Hi'.
  rewrite !(bool_decide_eq_false_2 (_ <> _)) by tauto. rewrite !(bool_decide_eq_true_2 (_ = _)) by done. simpl.
  by destruct (visibleDeltaSubgraphs _ _ _).
Qed.

Lemma elem_of_PendingDeltas s p y :
  exists out, PendingDeltas None p s = (Ok out, s) /\
    (y ∈ out <-> exists k x, md_deltas (cs_data s) !! k = Some x /\ pendingDelta (cs_data s) p (k, x) = Some y).
Proof.
  eexists. split; [reflexivity|]. rewrite sort_slice_perm, list_elem_of_omap. split.
  - intros ([k x] & Hin%elem_of_range_map & Hy). eauto.
  - intros (k & x & Hx & Hy). exists (k, x). by rewrite elem_of_range_map.
Qed.

(** ** Slices *)

Lemma elem_of_effective d p i x :
  x ∈ effectiveSubgraphsLocked d p i <-> exists k r g, md_subscriptions d !! k = Some r /\
    active_for (pri_ProjectID p) i r = true /\ x ∈ sub_SubgraphIDs (csr_Subscription r) /\
    md_subgraphs d !! x = Some g /\ canSeeSubgraph p g = true.
Proof.
  unfold effectiveSubgraphsLocked. rewrite elem_of_sorted_stringSet, list_elem_of_bind. split.
  - intros (r & Hx & Hr). apply list_elem_of_filter in Hx as [Hc Hx], Hr as [Ha Hr].
    apply elem_of_range_values in Hr as (k & Hk). destruct (md_subgraphs d !! x) as [g|] eqn:Hg; [|done].
    by exists k, r, g.
  - intros (k & r & g & Hk & Ha & Hx & Hg & Hc). exists r. rewrite !list_elem_of_filter, Hg. split; [done|]. split; [done|].
    apply elem_of_range_values. eauto.
Qed.

Lemma NoDup_node_ids d : data_inv d -> NoDup ((fun r => cn_ID (nr_Node r)) <$> sortedNodesLocked d).
Proof.
  intros Hd. unfold sortedNodesLocked. rewrite (fmap_Permutation _ _ _ (sort_slice_perm _ _)). unfold range_values.
  rewrite <- list_fmap_compose. replace (_ <$> range_map (md_nodes d)) with (range_keys (md_nodes d)); [apply NoDup_range_keys|].
  unfold range_keys. apply list_fmap_ext. intros i [k r] Hi. apply list_elem_of_lookup_2, elem_of_range_map in Hi. simpl.
  destruct (di_nodes _ Hd k r Hi) as [Hs _]. by rewrite (ns_id _ _ Hs).
Qed.

Lemma elem_of_sortedNodes d r : r ∈ sortedNodesLocked d <-> exists k, md_nodes d !! k = Some r.
Proof. unfold sortedNodesLocked. by rewrite sort_slice_perm, elem_of_range_values. Qed.

Lemma materializeNode_id d p eff r n : materializeNode d p eff r = Some n -> cn_ID n = cn_ID (nr_Node r).
Proof. unfold materializeNode. by destruct (_ || _); intros [= <-]. Qed.

(** No id comes twice, so the loop skips nothing. *)
Lemma materialize_fold d p eff rs :
  NoDup ((fun r => cn_ID (nr_Node r)) <$> rs) -> foldl (materializeStep d p eff) [] rs = omap (materializeNode d p eff) rs.
Proof.
  induction rs as [|r rs IH] using rev_ind; [done|]. rewrite fmap_app, NoDup_app. intros (Hnd & Hdis & _).
  rewrite foldl_app, omap_app, IH by done. cbn [foldl omap list_omap]. unfold materializeStep.
  rewrite bool_decide_eq_false_2.
  - destruct (materializeNode d p eff r); [done|by rewrite app_nil_r].
  - intros (n & Hid & (r0 & Hr0 & Hn)%list_elem_of_omap)%list_elem_of_fmap.
    apply materializeNode_id in Hn. apply (Hdis (cn_ID (nr_Node r0))); [by apply (list_elem_of_fmap_2 (fun r => cn_ID (nr_Node r)))|].
    simpl. rewrite <- Hn, <- Hid. by left.
Qed.

Lemma elem_of_slice d p i n :
  data_inv d ->
  n ∈ sl_Nodes (materializeInvocationSliceLocked d p i) <-> exists k r, md_nodes d !! k = Some r /\
    canSeeNode p (md_subgraphs d) r = true /\
    (exists x, x ∈ cn_SubgraphIDs (nr_Node r) /\ x ∈ effectiveSubgraphsLocked d p i) /\
    n = cn_set_SubgraphIDs (filter (fun x => x ∈ effectiveSubgraphsLocked d p i) (cn_SubgraphIDs (nr_Node r))) (nr_Node r).
Proof.
  intros Hd. unfold materializeInvocationSliceLocked. simpl. rewrite materialize_fold by by apply NoDup_node_ids.
  rewrite list_elem_of_omap. setoid_rewrite elem_of_sortedNodes. unfold materializeNode. split.
  - intros (r & (k & Hk) & Hn). destruct (_ || _) eqn:Hg; [done|]. bool_inv. injection Hn as <-. exists k, r.
    match goal with H : intersects _ _ = true |- _ => apply intersects_true in H end. by split_and!.
  - intros (k & r & Hk & Hc & Hx & ->). exists r. split; [eauto|]. apply intersects_true in Hx. by rewrite Hc, Hx.
Qed.

End with_runtime.
