(* ===== verification/ContextProps.v ===== *)
(** * Properties of the context graph store *)

From stdpp Require Import base tactics option list strings gmap sorting relations.
From Stdlib Require Import ZArith Ascii.
From S2P Require Import Prelude GoLib GoStrings Kernel CoordTypes Acyclic GraphSpec Auth CtxModel CtxSubs CtxCurate.
From S2P Require Import CtxReads CtxTasks CtxSpec CtxInv CtxOps CtxCalls CtxReview CtxReach.
From S2P Require Import CtxCommit.

(** ** A sample history

    A Task Manager registers the task [t1], a curator builds a subgraph with
    three linked nodes, and a planner of [t1] subscribes to it. *)

Definition ctx_agent (role operation : string) (task : TaskID) (inv : InvocationID) (tools : list Tool) : Principal :=
  mkPrincipal "actor" PrincipalAgent "p1" role operation task inv "" "" "" (ToolSet tools) 0.

Definition ctx_manager : Principal := ctx_agent RoleTaskManager "" "" "i0" taskManagerTools.
Definition ctx_curator : Principal := ctx_agent RoleContext "curate" "" "i2" curateTools.
Definition ctx_reviewer : Principal := ctx_agent RoleContext "review" "t1" "i3" reviewTools.
Definition ctx_planner : Principal := ctx_agent RolePlanner "" "t1" "i1" plannerTools.

Definition ctx_resolver : TaskEndpointResolver :=
  mkResolver (fun _ _ => Ok true) (fun _ _ => Ok true) (fun _ _ => Ok true).

Definition ctx_input (id previous : string) : CreateNodeInput :=
  mkNodeInput (mkNode id NodeKindFact ("statement " +:+ id) NodeStatusAccepted ["subgraph-2"] ["doc:1"] "actor")
    (mkCreation "actor" previous ["subgraph-2"]).

Definition ctx_candidate : MemoryCandidate := mkCandidate "prefer small commits" NodeKindFact ["doc:2"] ["subgraph-2"].

Definition ctx_history : list ctx_op := [
  CtxSetResolver (Some ctx_resolver);
  CtxRegisterTask None ctx_manager "t1" 10;
  CtxCreateSubgraph None ctx_curator (mkCreateSubgraph "design" "decisions" []) 11;
  CtxCreateNodes None ctx_reviewer (mkCreateNodes 3 [ctx_input "n1" ""; ctx_input "n2" "n1"; ctx_input "n3" "n2"]) 12;
  CtxSubscribe None ctx_planner (mkSubscribe ["subgraph-2"] []) 13;
  CtxCreateNode None ctx_curator (mkCreateNode "a fact" NodeKindFact ["doc:1"] ["subgraph-2"]) 14;
  CtxSubmitCandidate None ctx_planner ctx_candidate 15].

Definition ctx_sample : CtxStore := foldl (fun s op => run_ctx op s) NewMemoryStore ctx_history.

Lemma ctx_run_steps `{GR : GoRuntime} ops s : ctx_steps s (foldl (fun s op => run_ctx op s) s ops).
Proof.
  revert s. induction ops as [|op ops IH]; intros s; simpl; [apply rtc_refl|]. eapply rtc_l; [constructor|apply IH].
Qed.

Lemma ctx_sample_reachable : ctx_reachable ctx_sample.
Proof. apply ctx_run_steps. Qed.

Section with_runtime.
Context `{GR : GoRuntime}.

(** C9: The context graph stays well formed under any interleaving of calls:
    records sit under their ids; every node is in existing subgraphs of its own
    project, all general or all of tasks; edges join existing nodes and
    subgraphs; bindings and task subgraphs determine each other; subscriptions,
    deltas, audit and outbox entries are numbered without gaps, and each delta
    belongs to a subscription; a reviewed batch has a receipt for exactly its
    candidates. *)
Theorem context_graph_invariant s : ctx_reachable s -> data_inv (cs_data s).
Proof. apply ctx_reachable_inv. Qed.

(** C35: A mutation of the graph is atomic.  It either fails and leaves the whole
    store as it was, injected faults included, or commits: the graph revision is
    counted once and one audit and one outbox entry are written per change (per
    node for a bulk creation).  Subscribing, projecting, registering, submitting
    and reviewing leave the store as it was when they fail. *)
Theorem context_mutations_atomic ctx p now :
  (forall req, all_or_nothing (length (cnr_Nodes req)) (CreateNodes ctx p req now)) /\
  (forall req, all_or_nothing 1 (CreateNode ctx p req now)) /\
  (forall req, all_or_nothing 1 (UpdateNode ctx p req now)) /\
  (forall req, all_or_nothing 1 (DeleteNode ctx p req now)) /\
  (forall req, all_or_nothing 1 (CreateSubgraph ctx p req now)) /\
  (forall req, all_or_nothing 1 (UpdateSubgraph ctx p req now)) /\
  (forall req, all_or_nothing 1 (DeleteSubgraph ctx p req now)) /\
  (forall req, clean_failure (Subscribe ctx p req now)) /\
  (forall projection, clean_failure (ProjectTaskContext ctx p projection now)) /\
  (forall task, clean_failure (RegisterTaskSubgraph ctx p task now)) /\
  (forall candidate, clean_failure (SubmitCandidate ctx p candidate now)) /\
  (forall decisions, clean_failure (SubmitReview ctx p decisions now)).
Proof.
  split_and!; intros;
    [apply CreateNodes_commits|apply CreateNode_commits|apply UpdateNode_commits|apply DeleteNode_commits
    |apply CreateSubgraph_commits|apply UpdateSubgraph_commits|apply DeleteSubgraph_commits|apply Subscribe_clean
    |apply ProjectTaskContext_clean|apply RegisterTaskSubgraph_clean|apply SubmitCandidate_clean|apply SubmitReview_clean].
Qed.

(** The calls that may change what tasks own: registration, projection, and a
    review that names a target for a node it only creates. *)
Definition task_free (op : ctx_op) : Prop :=
  match op with
  | CtxRegisterTask _ _ _ _ | CtxProject _ _ _ _ => False
  | CtxReview _ _ decisions _ => targets_needed decisions
  | _ => True
  end.

(** The Context Agent never changes what belongs to tasks.  Every call other
    than registering or projecting a task keeps all task subgraphs, the nodes in
    them, the bindings, projections and recipients exactly as they are and adds
    none; a review does so when no creating decision names a target. *)
Theorem curation_keeps_tasks op s :
  ctx_reachable s -> task_free op -> tasks_kept (cs_data s) (cs_data (run_ctx op s)).
Proof.
  intros Hs%ctx_reachable_inv Hop. pose proof (run_ctx_events op s Hs) as Hev.
  destruct op as [| | | | | | | | | | | | | | | | | | | |ctx p ds now]; try done;
    try (eapply taskless_keeps; [|exact Hev|exact Hs]; intros l; unfold op_labels, among, graph_labels, sub_labels;
         rewrite ?elem_of_cons, ?elem_of_nil; unfold taskless; naive_solver).
  assert (emits (among (review_labels (own_key p))) (SubmitReview ctx p ds now) s) as Hemit.
  { apply SubmitReview_emits; [..|by right]; unfold review_labels; in_labels. }
  eapply taskless_keeps; [|exact (Hemit Hs)|exact Hs]. intros l. unfold among, review_labels.
  rewrite ?elem_of_cons, ?elem_of_nil. unfold taskless. naive_solver.
Qed.

(** C33: Exploring from a node returns exactly what is within reach.  The call
    succeeds when the principal can see the anchor; the nodes of the slice are
    those at most [depth] visible edges away in either direction, each once, as
    the principal may see them; the frontier, sorted, names those at distance
    exactly [depth].  Only which nodes there are is said, not their order. *)
Theorem explore_bounded_reachability s p req anchor r :
  ctx_reachable s -> er_AnchorRef req = "node:" +:+ anchor -> anchor <> "" ->
  is_ok (requireTool p ToolContextExplore (pri_ProjectID p)) = true ->
  md_nodes (cs_data s) !! anchor = Some r -> canSeeNode p (md_subgraphs (cs_data s)) r = true ->
  let depth := if (er_Depth req <=? 0)%Z then 1 else Z.to_nat (er_Depth req) in
  exists slice, Explore None p req s = (Ok slice, s) /\
    (forall b, b ∈ cn_ID <$> sd_Nodes slice <-> within (cs_data s) p depth anchor b) /\
    NoDup (cn_ID <$> sd_Nodes slice) /\ Forall (shown (cs_data s) p) (sd_Nodes slice) /\
    StronglySorted String.le (sd_Frontier slice) /\
    (forall x, x ∈ sd_Frontier slice <-> exists b, x = "node:" +:+ b /\ at_distance (cs_data s) p depth anchor b).
Proof.
  intros Hs%ctx_reachable_inv Hreq Hne Htool Hr Hsee depth.
  destruct (requireTool _ _ _) as [[]|e] eqn:Ht; [|done].
  assert (parseAnchorRef (er_AnchorRef req) = Ok ("node", anchor)) as Hparse.
  { rewrite Hreq. unfold parseAnchorRef. rewrite bool_decide_eq_false_2 by done.
    change (Cut ":" ("node:" +:+ anchor)) with (Some ("node", anchor)). cbv iota beta. by rewrite bool_decide_eq_false_2. }
  set (z := if (er_Depth req <=? 0)%Z then 1%Z else er_Depth req).
  assert (Z.to_nat z = depth) as Hz by (unfold z, depth; by destruct (er_Depth req <=? 0)%Z).
  destruct (expandNodeLocked (cs_data s) p anchor z {[cn_ID (nr_Node r)]}
    [visibleNode p (md_subgraphs (cs_data s)) (nr_Node r)]) as [nodes frontier] eqn:Hx.
  exists (mkSliceDelta nodes frontier (int_wrap (md_graphRevision (cs_data s)))).
  apply expandNodeLocked_spec in Hx as Hspec; [|done..]. rewrite Hz in Hspec. split; [|exact Hspec].
  unfold Explore, mbind, M_bind, lift, get_data, get_state, mret, M_ret. simpl. unfold z in Hx.
  rewrite Ht, Hparse, Hreq, Hr, Hsee. simpl. unfold z in Hx. by rewrite Hx.
Qed.

(** C32: Task memory follows its life cycle.  Whatever calls run, the memory of
    every task moves by adding candidates while it is open, by being frozen, and
    by one review whose receipt decides each candidate of the frozen batch
    exactly once; a reviewed memory, its batch and its receipt never change. *)
Theorem task_memory_lifecycle s s' key :
  ctx_reachable s -> ctx_steps s s' ->
  rtc (memory_move key) (memory_of (cs_data s) key) (memory_of (cs_data s') key) /\
  (forall batch receipt, memory_of (cs_data s) key = MemReviewed batch receipt ->
     memory_of (cs_data s') key = MemReviewed batch receipt).
Proof.
  intros Hs%ctx_reachable_inv Hsteps.
  assert (rtc (memory_move key) (memory_of (cs_data s) key) (memory_of (cs_data s') key)) as Hm.
  { eapply steps_memory, ctx_steps_events; done. }
  split; [done|]. intros batch receipt Heq. rewrite Heq in Hm. inversion Hm as [|? ? ? Hstep]; [done|]. inversion Hstep.
Qed.

(** A change is dispatched exactly.  Recording it creates one delta for every
    active subscription of the project that asked for the event kind and can see
    a changed subgraph it subscribed to, naming exactly those subgraphs; no other
    subscription gets one, and no recorded delta is touched. *)
Theorem delta_dispatch_exact s p event kind changed :
  ctx_reachable s -> event <> "" -> kind <> "" ->
  exists created s', RecordContextDelta None p event kind changed s = (Ok created, s') /\
    (forall x, x ∈ created -> exists k r, md_subscriptions (cs_data s) !! k = Some r /\
       dispatched (cs_data s) p event kind changed x r) /\
    (forall k r, md_subscriptions (cs_data s) !! k = Some r -> csr_ProjectID r = pri_ProjectID p -> csr_Active r = true ->
       recordMatchesDelta (csr_Subscription r) kind changed = true ->
       visibleDeltaSubgraphs r (md_subgraphs (cs_data s)) changed <> [] ->
       exists x, x ∈ created /\ dispatched (cs_data s) p event kind changed x r) /\
    NoDup (cd_SubscriptionID <$> created) /\
    (forall id x, md_deltas (cs_data s') !! id = Some x <->
       md_deltas (cs_data s) !! id = Some x \/ (x ∈ created /\ id = cd_ID x)).
Proof.
  intros Hs%ctx_reachable_inv He Hk.
  destruct (dispatch_spec p event kind changed (cs_data s) Hs) as (m & created & Hrun & H1 & H2 & H3 & H4).
  exists created, (cs_set_data (md_set_deltas m (cs_data s)) s).
  split; [|split_and!; [done| |done|done]].
  - unfold RecordContextDelta, mbind, M_bind, lift, in_place. simpl. rewrite !bool_decide_eq_false_2 by done. simpl. by rewrite Hrun.
  - intros k r Hr Hp Ha Hm Hv. apply (H2 k r Hr). unfold deltaSubgraphs. by rewrite bool_decide_eq_false_2, Ha, Hm by tauto.
Qed.

(** What a consumer finds pending. *)
Definition pending (s : CtxStore) (p : Principal) (y : ContextDelta) : Prop :=
  exists out, PendingDeltas None p s = (Ok out, s) /\ y ∈ out.

(** The delta is over for its consumer: acknowledged, its subscription ended, or
    none of its subgraphs visible to it. *)
Definition over (s : CtxStore) (y : ContextDelta) : Prop :=
  md_deltaAck (cs_data s) !! cd_ID y = Some true \/
  exists r, md_subscriptions (cs_data s) !! cd_SubscriptionID y = Some r /\
    (csr_Active r = false \/
     forall g gr, g ∈ cd_SubgraphIDs y -> md_subgraphs (cs_data s) !! g = Some gr -> canSubscriptionSeeSubgraph r gr = false).

(** C34: A delivery is not lost.  A delta that is pending for a consumer is still
    pending after any further calls, until it is acknowledged, its subscription
    ends, or none of its subgraphs is visible any more; and what is acknowledged
    is never pending again. *)
Theorem delta_pending_until_acknowledged s s' p y :
  ctx_reachable s -> ctx_steps s s' -> pending s p y ->
  ((exists y', pending s' p y' /\ cd_ID y' = cd_ID y /\ cd_SubscriptionID y' = cd_SubscriptionID y /\
      cd_EventID y' = cd_EventID y /\ cd_EventKind y' = cd_EventKind y) \/ over s' y) /\
  (md_deltaAck (cs_data s) !! cd_ID y <> Some true) /\
  (md_deltaAck (cs_data s') !! cd_ID y = Some true -> forall y', pending s' p y' -> cd_ID y' <> cd_ID y).
Proof.
  intros Hs%ctx_reachable_inv Hsteps (out & Hout & Hy).
  pose proof (ctx_steps_inv _ _ Hsteps Hs) as Hs'. destruct (ctx_steps_deliveries _ _ Hsteps Hs) as [Kd Ka Ks].
  destruct (elem_of_PendingDeltas s p y) as (out' & Hout' & Hiff). rewrite Hout in Hout'. simplify_eq.
  apply Hiff in Hy as (k & x & Hx & Hpend). destruct (di_deltas _ Hs k x Hx) as [Hid _].
  apply pendingDelta_Some in Hpend as (Hack & Hproj & Hinv & r & Hr & Hact & Hrp & Hri & Hv & ->). simpl. rewrite Hid.
  split_and!.
  - destruct (Ks _ _ Hr) as (r' & Hr' & Hsub & Hp' & Hsame).
    destruct (decide (default false (md_deltaAck (cs_data s') !! k) = true)) as [Hak|Hak].
    { right. left. simpl. rewrite Hid. by destruct (md_deltaAck (cs_data s') !! k) as [[]|]. }
    destruct (csr_Active r') eqn:Hact'; [|right; right; exists r'; simpl; auto]. specialize (Hsame eq_refl) as ->.
    destruct (decide (visibleDeltaSubgraphs r (md_subgraphs (cs_data s')) (cd_SubgraphIDs x) = [])) as [Hnone|Hsome].
    + right. right. exists r. split; [done|]. right. simpl. intros g gr Hg Hgr. apply elem_of_visibleDelta in Hg as (Hg & Hne & Hin & _).
      apply not_true_is_false. intros Hcan.
      assert (g ∈ visibleDeltaSubgraphs r (md_subgraphs (cs_data s')) (cd_SubgraphIDs x)) as Hvis by (apply elem_of_visibleDelta; eauto 10).
      rewrite Hnone in Hvis. by apply elem_of_nil in Hvis.
    + left. eexists. split; [|split; [|split; [|split]]].
      * destruct (elem_of_PendingDeltas s' p (cd_set_SubgraphIDs (visibleDeltaSubgraphs r (md_subgraphs (cs_data s')) (cd_SubgraphIDs x)) x))
          as (out2 & Hout2 & Hiff2). exists out2. split; [done|]. apply Hiff2. exists k, x. split; [by apply Kd|].
        apply pendingDelta_intro; try done. by apply not_true_is_false.
      * exact Hid.
      * done.
      * done.
      * done.
  - intros Ht. by rewrite Ht in Hack.
  - intros Ht y' (out2 & Hout2 & Hy') Heq. destruct (elem_of_PendingDeltas s' p y') as (out3 & Hout3 & Hiff3).
    rewrite Hout2 in Hout3. simplify_eq. apply Hiff3 in Hy' as (k2 & x2 & Hx2 & Hp2). destruct (di_deltas _ Hs' k2 x2 Hx2) as [Hid2 _].
    apply pendingDelta_Some in Hp2 as (Hack2 & _ & _ & r2 & _ & _ & _ & _ & _ & ->). simpl in Heq. rewrite Hid2 in Heq. subst k2.
    by rewrite Ht in Hack2.
Qed.

(** The context an invocation works with is the union of its subscriptions.
    The runtime slice holds exactly the nodes the principal can see that are in a
    subgraph some active subscription of the invocation names and the principal
    can see, labelled with those subgraphs only; all of them are of its project. *)
Theorem runtime_slice_exact s p :
  ctx_reachable s -> consumerInvocationID p <> "" ->
  exists slice, MaterializeRuntimeContext None p s = (Ok slice, s) /\
    forall n, n ∈ sl_Nodes slice <-> exists k r, md_nodes (cs_data s) !! k = Some r /\
      nr_ProjectID r = pri_ProjectID p /\
      (exists x, x ∈ cn_SubgraphIDs (nr_Node r) /\ x ∈ effectiveSubgraphsLocked (cs_data s) p (consumerInvocationID p)) /\
      n = cn_set_SubgraphIDs (filter (fun x => x ∈ effectiveSubgraphsLocked (cs_data s) p (consumerInvocationID p))
            (cn_SubgraphIDs (nr_Node r))) (nr_Node r) /\
      (forall x, x ∈ cn_SubgraphIDs n -> exists j sub g, md_subscriptions (cs_data s) !! j = Some sub /\
         active_for (pri_ProjectID p) (consumerInvocationID p) sub = true /\ x ∈ sub_SubgraphIDs (csr_Subscription sub) /\
         md_subgraphs (cs_data s) !! x = Some g /\ canSeeSubgraph p g = true).
Proof.
  intros Hs%ctx_reachable_inv Hne. exists (materializeInvocationSliceLocked (cs_data s) p (consumerInvocationID p)). split.
  { unfold MaterializeRuntimeContext, mbind, M_bind, lift, get_data, get_state, mret, M_ret. simpl. by rewrite bool_decide_eq_false_2. }
  intros n. rewrite elem_of_slice by done. split.
  - intros (k & r & Hr & Hc & Hx & ->). exists k, r. split_and!; try done.
    + unfold canSeeNode in Hc. case_bool_decide; [done|]. done.
    + intros x Hin. simpl in Hin. apply list_elem_of_filter in Hin as [Hin _]. by apply elem_of_effective.
  - intros (k & r & Hr & Hp & (x & Hx & Heff) & -> & _). exists k, r. split_and!; [done| |eauto|done].
    unfold canSeeNode. rewrite bool_decide_eq_false_2 by congruence. case_bool_decide; [done|].
    apply existsb_elem. exists x. split; [done|]. apply elem_of_effective in Heff as (_ & _ & g & _ & _ & _ & Hg & Hc). by rewrite Hg.
Qed.

(** The loops that look for a free identifier end.  In every reachable store
    the subscription loop stops at its first number, and the subgraph loop finds
    an unused number among the first [size + 1]; both names are unused. *)
Theorem identifier_loops_terminate s :
  ctx_reachable s ->
  (exists id, nextSubscriptionID (md_subscriptions (cs_data s)) = Ok id /\ md_subscriptions (cs_data s) !! id = None) /\
  (exists id, let m := md_subgraphs (cs_data s) in
     freeSubgraphID (S (size m)) (Z.of_nat (size m) + 1) m = Ok id /\ m !! id = None).
Proof.
  intros Hs%ctx_reachable_inv. split.
  - eexists. rewrite nextSubscriptionID_fresh by apply (di_sub_keys _ Hs). split; [done|].
    apply numbered_keys_fresh, (di_sub_keys _ Hs).
  - destruct (freeSubgraphID_total (S (size (md_subgraphs (cs_data s)))) (Z.of_nat (size (md_subgraphs (cs_data s))) + 1)
      (md_subgraphs (cs_data s))) as (id & Hid); [lia|]. exists id. split; [done|]. by apply freeSubgraphID_Ok in Hid as [? _].
Qed.

(** The startup slice of an invocation is fixed when it is first asked for.
    Once the call has succeeded, then whatever calls run in between, asking again
    with any subgraphs at any time returns the same slice and changes nothing. *)
Theorem initial_slice_fixed p ids now s slice s1 s2 :
  EnsureInitialSlice None p ids now s = (Ok slice, s1) -> ctx_steps s1 s2 ->
  forall ids' now', EnsureInitialSlice None p ids' now' s2 = (Ok slice, s2).
Proof.
  intros Hrun Hsteps ids' now'. destruct (EnsureInitialSlice_stored p ids now s slice s1 Hrun) as [Htool Hslice].
  apply (ctx_steps_slices _ _ Hsteps) in Hslice.
  unfold EnsureInitialSlice, mbind, M_bind, lift, get_state, mret, M_ret. simpl. by rewrite Htool, Hslice, cloneContextSlice_id.
Qed.

End with_runtime.

(** ** The properties on the sample history *)

Lemma context_graph_invariant_witness :
  data_inv (cs_data ctx_sample) /\ is_Some (md_taskBindings (cs_data ctx_sample) !! ("p1", "t1")).
Proof.
  split; [exact (context_graph_invariant ctx_sample ctx_sample_reachable)|]. vm_compute. eexists. reflexivity.
Defined.

Definition ctx_delete : ctx_op := CtxDeleteNode None ctx_curator (mkDeleteNode "n2" "1" "obsolete") 20.

Example ctx_delete_runs : md_nodes (cs_data (run_ctx ctx_delete ctx_sample)) !! "n2" = None.
Proof. vm_compute. reflexivity. Qed.

Lemma curation_keeps_tasks_witness : tasks_kept (cs_data ctx_sample) (cs_data (run_ctx ctx_delete ctx_sample)).
Proof. exact (curation_keeps_tasks ctx_delete ctx_sample ctx_sample_reachable I). Defined.

Lemma explore_bounded_reachability_witness : exists slice,
  Explore None ctx_planner (mkExplore "node:n1" 2) ctx_sample = (Ok slice, ctx_sample) /\ NoDup (cn_ID <$> sd_Nodes slice).
Proof.
  destruct (md_nodes (cs_data ctx_sample) !! "n1") as [r|] eqn:Hr; [|exfalso; revert Hr; vm_compute; discriminate].
  destruct (explore_bounded_reachability ctx_sample ctx_planner (mkExplore "node:n1" 2) "n1" r) as (slice & H1 & _ & H2 & _).
  - exact ctx_sample_reachable.
  - reflexivity.
  - discriminate.
  - vm_compute. reflexivity.
  - exact Hr.
  - revert Hr. vm_compute. intros [= <-]. reflexivity.
  - exists slice. exact (conj H1 H2).
Defined.

Definition ctx_finalize : ctx_op := CtxFinalize None ctx_manager "t1" 20.

Lemma task_memory_lifecycle_witness :
  rtc (memory_move ("p1", "t1")) (memory_of (cs_data ctx_sample) ("p1", "t1"))
    (memory_of (cs_data (run_ctx ctx_finalize ctx_sample)) ("p1", "t1")).
Proof.
  apply (task_memory_lifecycle ctx_sample (run_ctx ctx_finalize ctx_sample) ("p1", "t1") ctx_sample_reachable).
  apply rtc_once. constructor.
Defined.

Lemma delta_dispatch_exact_witness : exists created s',
  RecordContextDelta None ctx_curator "e1" "context.node.created" ["subgraph-2"] ctx_sample = (Ok created, s').
Proof.
  destruct (delta_dispatch_exact ctx_sample ctx_curator "e1" "context.node.created" ["subgraph-2"]) as (created & s' & H & _).
  - exact ctx_sample_reachable.
  - discriminate.
  - discriminate.
  - exists created, s'. exact H.
Defined.

Definition ctx_delta : ContextDelta :=
  mkDelta "delta-1" "p1" "sub-1" "i1" "outbox-5" "context.node.created" ["subgraph-2"] 5.

Lemma delta_pending_until_acknowledged_witness :
  md_deltaAck (cs_data ctx_sample) !! "delta-1" <> Some true.
Proof.
  refine (proj1 (proj2 (delta_pending_until_acknowledged ctx_sample (run_ctx ctx_delete ctx_sample) ctx_planner ctx_delta _ _ _))).
  - exact ctx_sample_reachable.
  - apply rtc_once. constructor.
  - exists [ctx_delta]. split; [vm_compute; reflexivity|apply list_elem_of_here].
Defined.

Lemma runtime_slice_exact_witness : exists slice, MaterializeRuntimeContext None ctx_planner ctx_sample = (Ok slice, ctx_sample).
Proof.
  destruct (runtime_slice_exact ctx_sample ctx_planner) as (slice & H & _).
  - exact ctx_sample_reachable.
  - discriminate.
  - exists slice. exact H.
Defined.

Lemma identifier_loops_terminate_witness : exists id, nextSubscriptionID (md_subscriptions (cs_data ctx_sample)) = Ok id.
Proof.
  destruct (identifier_loops_terminate ctx_sample ctx_sample_reachable) as [(id & H & _) _]. exists id. exact H.
Defined.

Definition ctx_slice : ContextSlice := match EnsureInitialSlice None ctx_planner ["subgraph-2"] 20 ctx_sample with
                                       | (Ok slice, _) => slice
                                       | _ => mkSlice [] [] 0
                                       end.

Lemma initial_slice_fixed_witness :
  let s1 := run_ctx (CtxEnsureSlice None ctx_planner ["subgraph-2"] 20) ctx_sample in
  EnsureInitialSlice None ctx_planner [] 30 (run_ctx ctx_delete s1) = (Ok ctx_slice, run_ctx ctx_delete s1).
Proof.
  intros s1. eapply (initial_slice_fixed ctx_planner ["subgraph-2"] 20 ctx_sample ctx_slice s1).
  - vm_compute. reflexivity.
  - apply rtc_once. constructor.
Defined.
