(* ===== verification/WsModel.v ===== *)
(** * Workspace bindings: data and path policy

    [workspace/model.go] and the policy of [agent_tools.go]: bindings, write
    sets, the paths a phase may write, and the search for symbolic links that
    leave the workspace.  The host (working directory, links on disk) is the
    record [Host]; lower-casing of Unicode text is a parameter. *)

From stdpp Require Import base tactics option list strings gmap sorting.
From Stdlib Require Import ZArith Ascii.
From S2P Require Import Prelude GoLib GoStrings GoPath Kernel CoordTypes.

(** ** Data *)

Definition KindGitWorktree : string := "git_worktree".
Definition KindClone : string := "clone".
Definition KindContainer : string := "container".
Definition KindRemote : string := "remote".

Definition PhasePlan : string := "plan".
Definition PhaseExecute : string := "execute".
Definition PhaseVerify : string := "verify".

Definition StatusPrepared : string := "prepared".
Definition StatusSealed : string := "sealed".

Record WriteSet := mkWriteSet {
  ws_Files : list string;
  ws_Modules : list string;
  ws_Symbols : list string;
  ws_Contracts : list string;
  ws_Tests : list string;
  ws_Owners : list string;
}.

#[global] Instance WriteSet_eq_dec : EqDecision WriteSet.
Proof. solve_decision. Defined.

Definition zeroWriteSet : WriteSet := mkWriteSet [] [] [] [] [] [].

Record Binding := mkBinding {
  bd_ID : BindingRef;
  bd_Revision : Revision;
  bd_TaskID : TaskID;
  bd_Generation : Z;
  bd_Kind : string;
  bd_Root : string;
  bd_BranchName : string;
  bd_ContainerID : string;
  bd_VolumeRefs : list string;
  bd_BaseRevision : string;
  bd_CurrentRevision : string;
  bd_AllowedDirs : list string;
  bd_DeclaredWrites : WriteSet;
  bd_ObservedWrites : WriteSet;
  bd_PhaseLeases : gmap string InvocationID;
  bd_ActivePhase : string;
  bd_ActiveInvocation : InvocationID;
  bd_Status : string;
  bd_RepositoryPath : string;
  bd_CreationFingerprint : string;
}.

#[global] Instance Binding_eq_dec : EqDecision Binding.
Proof. solve_decision. Defined.

Definition bd_set_Revision (v : Revision) (b : Binding) : Binding :=
  mkBinding (bd_ID b) v (bd_TaskID b) (bd_Generation b) (bd_Kind b) (bd_Root b) (bd_BranchName b)
    (bd_ContainerID b) (bd_VolumeRefs b) (bd_BaseRevision b) (bd_CurrentRevision b) (bd_AllowedDirs b)
    (bd_DeclaredWrites b) (bd_ObservedWrites b) (bd_PhaseLeases b) (bd_ActivePhase b) (bd_ActiveInvocation b)
    (bd_Status b) (bd_RepositoryPath b) (bd_CreationFingerprint b).
Definition bd_set_CurrentRevision (v : string) (b : Binding) : Binding :=
  mkBinding (bd_ID b) (bd_Revision b) (bd_TaskID b) (bd_Generation b) (bd_Kind b) (bd_Root b) (bd_BranchName b)
    (bd_ContainerID b) (bd_VolumeRefs b) (bd_BaseRevision b) v (bd_AllowedDirs b) (bd_DeclaredWrites b)
    (bd_ObservedWrites b) (bd_PhaseLeases b) (bd_ActivePhase b) (bd_ActiveInvocation b) (bd_Status b)
    (bd_RepositoryPath b) (bd_CreationFingerprint b).
Definition bd_set_AllowedDirs (v : list string) (b : Binding) : Binding :=
  mkBinding (bd_ID b) (bd_Revision b) (bd_TaskID b) (bd_Generation b) (bd_Kind b) (bd_Root b) (bd_BranchName b)
    (bd_ContainerID b) (bd_VolumeRefs b) (bd_BaseRevision b) (bd_CurrentRevision b) v (bd_DeclaredWrites b)
    (bd_ObservedWrites b) (bd_PhaseLeases b) (bd_ActivePhase b) (bd_ActiveInvocation b) (bd_Status b)
    (bd_RepositoryPath b) (bd_CreationFingerprint b).
Definition bd_set_DeclaredWrites (v : WriteSet) (b : Binding) : Binding :=
  mkBinding (bd_ID b) (bd_Revision b) (bd_TaskID b) (bd_Generation b) (bd_Kind b) (bd_Root b) (bd_BranchName b)
    (bd_ContainerID b) (bd_VolumeRefs b) (bd_BaseRevision b) (bd_CurrentRevision b) (bd_AllowedDirs b) v
    (bd_ObservedWrites b) (bd_PhaseLeases b) (bd_ActivePhase b) (bd_ActiveInvocation b) (bd_Status b)
    (bd_RepositoryPath b) (bd_CreationFingerprint b).
Definition bd_set_ObservedWrites (v : WriteSet) (b : Binding) : Binding :=
  mkBinding (bd_ID b) (bd_Revision b) (bd_TaskID b) (bd_Generation b) (bd_Kind b) (bd_Root b) (bd_BranchName b)
    (bd_ContainerID b) (bd_VolumeRefs b) (bd_BaseRevision b) (bd_CurrentRevision b) (bd_AllowedDirs b)
    (bd_DeclaredWrites b) v (bd_PhaseLeases b) (bd_ActivePhase b) (bd_ActiveInvocation b) (bd_Status b)
    (bd_RepositoryPath b) (bd_CreationFingerprint b).
Definition bd_set_PhaseLeases (v : gmap string InvocationID) (b : Binding) : Binding :=
  mkBinding (bd_ID b) (bd_Revision b) (bd_TaskID b) (bd_Generation b) (bd_Kind b) (bd_Root b) (bd_BranchName b)
    (bd_ContainerID b) (bd_VolumeRefs b) (bd_BaseRevision b) (bd_CurrentRevision b) (bd_AllowedDirs b)
    (bd_DeclaredWrites b) (bd_ObservedWrites b) v (bd_ActivePhase b) (bd_ActiveInvocation b) (bd_Status b)
    (bd_RepositoryPath b) (bd_CreationFingerprint b).
Definition bd_set_Status (v : string) (b : Binding) : Binding :=
  mkBinding (bd_ID b) (bd_Revision b) (bd_TaskID b) (bd_Generation b) (bd_Kind b) (bd_Root b) (bd_BranchName b)
    (bd_ContainerID b) (bd_VolumeRefs b) (bd_BaseRevision b) (bd_CurrentRevision b) (bd_AllowedDirs b)
    (bd_DeclaredWrites b) (bd_ObservedWrites b) (bd_PhaseLeases b) (bd_ActivePhase b) (bd_ActiveInvocation b) v
    (bd_RepositoryPath b) (bd_CreationFingerprint b).
Definition bd_set_active (phase : string) (invocation : InvocationID) (b : Binding) : Binding :=
  mkBinding (bd_ID b) (bd_Revision b) (bd_TaskID b) (bd_Generation b) (bd_Kind b) (bd_Root b) (bd_BranchName b)
    (bd_ContainerID b) (bd_VolumeRefs b) (bd_BaseRevision b) (bd_CurrentRevision b) (bd_AllowedDirs b)
    (bd_DeclaredWrites b) (bd_ObservedWrites b) (bd_PhaseLeases b) phase invocation (bd_Status b)
    (bd_RepositoryPath b) (bd_CreationFingerprint b).

(** [binding.PhaseLeases[phase]]: the empty id when there is none. *)
Definition lease_of (b : Binding) (phase : string) : InvocationID := default "" (bd_PhaseLeases b !! phase).

Definition zeroBinding : Binding :=
  mkBinding "" 0 "" 0 "" "" "" "" [] "" "" [] zeroWriteSet zeroWriteSet ∅ "" "" "" "" "".

Record CreateRequest := mkCreateWorktree {
  cw_TaskID : TaskID;
  cw_Generation : Z;
  cw_RepoPath : string;
  cw_WorktreeParent : string;
  cw_BaseRevision : string;
  cw_AllowedDirs : list string;
  cw_DeclaredWrites : WriteSet;
  (** What the hook answers, when there is one. *)
  cw_AfterWorktreeAdd : option (res unit);
}.

Definition validPhase (phase : string) : bool :=
  bool_decide (phase = PhasePlan) || bool_decide (phase = PhaseExecute) || bool_decide (phase = PhaseVerify).

Definition phasePrerequisitesMet (binding : Binding) (phase : string) : bool :=
  if bool_decide (phase = PhasePlan) then true
  else if bool_decide (phase = PhaseExecute) then bool_decide (lease_of binding PhasePlan <> "")
  else if bool_decide (phase = PhaseVerify) then bool_decide (lease_of binding PhaseExecute <> "")
  else false.

Definition phasePrerequisites (phase : string) : list string :=
  if bool_decide (phase = PhasePlan) then []
  else if bool_decide (phase = PhaseExecute) then [PhasePlan]
  else if bool_decide (phase = PhaseVerify) then [PhasePlan; PhaseExecute]
  else [].

Definition workspaceNotFound : error := kerr CodeNotFound "workspace binding not found" false.

(** ** Paths *)

Definition cleanRelativePath (p : string) : res string :=
  _ ← fail_if (bool_decide (p = "")) (InvalidArgument "path is required");
  _ ← fail_if (IsAbs p || IsAbs (backslashes p)) (Forbidden "absolute paths are not allowed");
  let clean := Clean (backslashes p) in
  _ ← fail_if (bool_decide (clean = ".") || bool_decide (clean = "..") || has_prefix "../" clean)
      (Forbidden "parent path traversal is not allowed");
  Ok clean.

Definition hasPathPrefix (p prefix : string) : bool :=
  let p := trim_char "/" (Clean p) in
  let prefix := trim_char "/" (Clean prefix) in
  bool_decide (p = prefix) || has_prefix (prefix +:+ "/") p.

Definition phaseAllows (binding : Binding) (phase clean : string) : bool :=
  if bool_decide (phase = PhasePlan) then hasPathPrefix clean "plan"
  else if bool_decide (phase = PhaseVerify) then hasPathPrefix clean "evidence"
  else if bool_decide (phase = PhaseExecute) then existsb (hasPathPrefix clean) (bd_AllowedDirs binding)
  else false.

(** What the host answers.  [h_Lstat] tells whether the entry is a symbolic
    link, [None] that there is none. *)
Record Host := mkHost {
  h_Getwd : res string;
  h_EvalSymlinks : string -> res string;
  h_Lstat : string -> res (option bool);
  h_Readlink : string -> res string;
}.

Section host.
Context (host : Host).

(** [filepath.Abs] fails only when the working directory is unknown. *)
Definition host_Abs (p : string) : res string :=
  if IsAbs p then Ok (Clean p) else cwd ← h_Getwd host; Ok (Abs cwd p).

Definition canonicalExistingPath (value : string) : res string :=
  abs ← host_Abs value;
  resolved ← h_EvalSymlinks host abs;
  Ok (Clean resolved).

(** The relative path leaves the base: [rel == ".."] or a prefix [../], or it is
    absolute. *)
Definition escapes (rel : string) : bool :=
  bool_decide (rel = "..") || has_prefix "../" rel || IsAbs rel.

(** At most 32 links are followed; the result says whether the entry exists. *)
Fixpoint resolveExistingLinksWithinRoot (depth : nat) (rootAbs current : string) : res (string * bool) :=
  match depth with
  | 0 => Err (Forbidden "workspace symbolic link chain is too deep")
  | S depth =>
    info ← wrap "inspect workspace path" (h_Lstat host current);
    match info with
    | None => Ok (current, false)
    | Some false => Ok (current, true)
    | Some true =>
      destination ← wrap "read workspace symbolic link" (h_Readlink host current);
      let destination := if IsAbs destination then destination else path_join [Dir current; destination] in
      destination ← wrap "resolve workspace symbolic link" (host_Abs destination);
      _ ← fail_if (escapes (Rel rootAbs destination))
          (Forbidden "path escapes workspace root through symbolic link");
      resolveExistingLinksWithinRoot depth rootAbs destination
    end
  end.

(** The loop over the components stops at the first missing entry. *)
Fixpoint walkComponents (rootAbs current : string) (entries : list string) : res unit :=
  match entries with
  | [] => Ok tt
  | component :: rest =>
    if bool_decide (component = "") || bool_decide (component = ".") then walkComponents rootAbs current rest
    else
      match resolveExistingLinksWithinRoot 32 rootAbs (path_join [current; component]) with
      | Err e => Err e
      | Ok (_, false) => Ok tt
      | Ok (resolved, true) => walkComponents rootAbs resolved rest
      end
  end.

Definition ensureNoSymlinkEscape (root target : string) : res unit :=
  rootAbs ← wrap "resolve workspace root" (host_Abs root);
  targetAbs ← wrap "resolve workspace target" (host_Abs target);
  let rel := Rel rootAbs targetAbs in
  _ ← fail_if (escapes rel) (Forbidden "path escapes workspace root");
  rootInfo ← wrap "inspect workspace root" (h_Lstat host rootAbs);
  match rootInfo with
  | None => Err (WrapError "inspect workspace root" (OtherError "file does not exist"))
  | Some true => Err (Forbidden "workspace root must not be a symbolic link")
  | Some false => walkComponents rootAbs rootAbs (Split "/" rel)
  end.

Definition ResolveWritePath (binding : Binding) (phase relPath : string) : res string :=
  _ ← fail_if (bool_decide (bd_Status binding = StatusSealed)) (Forbidden "workspace binding is sealed");
  _ ← fail_if (negb (validPhase phase)) (InvalidArgument "invalid phase");
  clean ← cleanRelativePath relPath;
  _ ← fail_if (negb (phaseAllows binding phase clean)) (Forbidden "path is outside phase allowed dirs");
  let full := path_join [bd_Root binding; clean] in
  _ ← ensureNoSymlinkEscape (bd_Root binding) full;
  Ok full.

End host.

Section lower.
Context (ToLower : string -> string).

Definition protectedNames : list string :=
  [".git"; ".env"; "credentials"; "sessions"; "logs"; "tool results"; "tool-results"; "auth.json"; "id_rsa"; "id_ed25519"].

Definition protectedWorkspacePath (relative : string) : bool :=
  existsb (fun component => bool_decide (TrimSpace component ∈ protectedNames)) (Split "/" (ToLower relative)).

Definition resolveReadPath (host : Host) (binding : Binding) (requested : string) (allowRoot : bool) : res (string * string) :=
  clean ← (if bool_decide (TrimSpace requested = "") then
             _ ← fail_if (negb allowRoot) (InvalidArgument "path is required"); Ok ""
           else
             clean ← cleanRelativePath requested;
             _ ← fail_if (protectedWorkspacePath clean) (Forbidden "workspace path is protected");
             Ok clean);
  let target := path_join [bd_Root binding; clean] in
  _ ← ensureNoSymlinkEscape host (bd_Root binding) target;
  Ok (target, clean).

Definition normalizeExecutable (command : string) : string :=
  let command := ToLower (TrimSpace (Base command)) in
  if has_suffix ".exe" command then String.substring 0 (String.length command - 4) command else command.

(** Some byte of [s] is among [chars]. *)
Fixpoint ContainsAny (s : string) (chars : list ascii) : bool :=
  match s with
  | EmptyString => false
  | String a s' => existsb (Ascii.eqb a) chars || ContainsAny s' chars
  end.

Definition validateArgument (arg : string) : res unit :=
  _ ← fail_if (ContainsAny arg ["000"; "010"; "013"]%char) (InvalidArgument "command arguments contain control characters");
  let normalized := backslashes arg in
  _ ← fail_if (IsAbs arg || bool_decide (normalized = "..") || has_prefix "../" normalized || Contains "/../" normalized)
      (Forbidden "command arguments may not escape the workspace");
  fail_if (bool_decide (arg = "-C") || has_prefix "--git-dir" arg || has_prefix "--work-tree" arg ||
           has_prefix "--exec-path" arg) (Forbidden "command may not redirect repository scope").

Definition interpreters : list string :=
  ["cmd"; "powershell"; "pwsh"; "sh"; "bash"; "zsh"; "fish"; "wsl"; "python"; "python3"; "node"].
Definition gitSubcommands : list string := ["status"; "diff"; "rev-parse"; "ls-files"; "show"].

Definition validateCommand (allowed : gset string) (command : list string) : res unit :=
  match command with
  | [] => Err (InvalidArgument "command argv is required")
  | first :: args =>
    _ ← fail_if (bool_decide (TrimSpace first = "")) (InvalidArgument "command argv is required");
    let executable := normalizeExecutable first in
    _ ← fail_if (ContainsAny first ["/"; "\"]%char) (Forbidden "workspace command executable must not contain a path");
    _ ← fail_if (bool_decide (executable ∈ interpreters))
        (Forbidden "shell and interpreter commands are not allowed by workspace.run");
    _ ← fail_if (bool_decide (executable ∉ allowed)) (Forbidden "workspace command is not in the configured allowlist");
    _ ← each validateArgument args;
    if bool_decide (executable = "git") then
      match args with
      | [] => Err (Forbidden "git global options are not allowed")
      | sub :: _ =>
        _ ← fail_if (has_prefix "-" sub) (Forbidden "git global options are not allowed");
        fail_if (bool_decide (sub ∉ gitSubcommands)) (Forbidden "git subcommand is not allowed in an agent workspace")
      end
    else Ok tt
  end.

End lower.

Definition validateObservedForPhase (binding : Binding) (phase : string) : res unit :=
  each (fun file => fail_if (negb (phaseAllows binding phase file))
          (Forbidden "workspace command wrote outside the active phase boundary")) (ws_Files (bd_ObservedWrites binding)).

Section with_runtime.
Context `{GR : GoRuntime}.

Definition normalizedStrings (values : list string) : list string :=
  sort_slice string_lt (dedupe_from ∅ (TrimSpace <$> values)).

Definition normalizeAllowedDirs (dirs : list string) : res (list string) :=
  if bool_decide (dirs = []) then Ok ["workspace"] else
  out ← foldM (fun out dir =>
          clean ← wrap ("invalid allowed dir " +:+ dir) (cleanRelativePath dir);
          let clean := if has_suffix "/" clean then String.substring 0 (String.length clean - 1) clean else clean in
          Ok (if bool_decide (clean ∈ out) then out else out ++ [clean])) [] dirs;
  Ok (sort_slice string_lt out).

Definition normalizeWriteSet (set : WriteSet) (allowed : list string) : res WriteSet :=
  files ← foldM (fun files file =>
            clean ← wrap ("invalid declared write " +:+ file) (cleanRelativePath file);
            _ ← fail_if (negb (existsb (hasPathPrefix clean) allowed)) (Forbidden "declared write is outside allowed dirs");
            Ok (files ++ [clean])) [] (ws_Files set);
  Ok (mkWriteSet (normalizedStrings files) (normalizedStrings (ws_Modules set)) (normalizedStrings (ws_Symbols set))
        (normalizedStrings (ws_Contracts set)) (normalizedStrings (ws_Tests set)) (normalizedStrings (ws_Owners set))).

Definition allowedDirsForDeclaredWrites (ToLower : string -> string) (files : list string) : res (list string) :=
  _ ← fail_if (bool_decide (files = [])) (InvalidArgument "declared write set requires at least one file");
  dirs ← foldM (fun dirs file =>
           clean ← wrap ("invalid declared write " +:+ file) (cleanRelativePath file);
           _ ← fail_if (protectedWorkspacePath ToLower clean || hasPathPrefix clean "plan" || hasPathPrefix clean "evidence")
               (Forbidden "declared execute write targets a protected phase path");
           Ok (dirs ++ [clean])) [] files;
  Ok (normalizedStrings dirs).

Definition candidateObservedFiles (files : list string) : list string :=
  normalizedStrings (filter (fun clean => hasPathPrefix clean "plan" || hasPathPrefix clean "evidence" = false) (Clean <$> files)).

End with_runtime.

Definition writeSetsEqual (left right : WriteSet) : bool := bool_decide (left = right).
Definition stringSlicesEqual (left right : list string) : bool := bool_decide (left = right).
