(* ===== verification/WsPaths.v ===== *)
(** * Workspace paths: lemmas

    A relative path the policy accepts is a join of plain components, the phase
    boundary is a condition on those components, and the file a write resolves to
    lies below the workspace root. *)

From stdpp Require Import base tactics option list strings gmap.
From Stdlib Require Import ZArith Ascii.
From S2P Require Import Prelude GoLib GoStrings GoPath Kernel CoordTypes WsModel.

(** A path below the directory it is relative to. *)
Definition below (c : string) (l : list string) : Prop := l <> [] /\ Forall plain l /\ c = Join "/" l.

Lemma Join_dotdot n rest : n <> 0 -> has_prefix "../" (Join "/" (replicate n ".." ++ rest)) = true \/
  Join "/" (replicate n ".." ++ rest) = "..".
Proof.
  destruct n as [|n]; [done|]. intros _. simpl. destruct (replicate n ".." ++ rest) as [|x l]; [by right|]. left.
  apply has_prefix_true. by eexists.
Qed.

Lemma cleanRelativePath_Ok p c : cleanRelativePath p = Ok c -> exists l, below c l.
Proof.
  unfold cleanRelativePath. intros (_ & _ & (_ & Habs%fail_if_Ok & (_ & Hc%fail_if_Ok & [= <-])%bind_Ok)%bind_Ok)%bind_Ok.
  apply orb_false_iff in Habs as [_ Habs]. apply orb_false_iff in Hc as [Hc Hdd]. apply orb_false_iff in Hc as [Hdot Hdot2].
  apply bool_decide_eq_false in Hdot. apply bool_decide_eq_false in Hdot2.
  unfold Clean in *. rewrite Habs in *. pose proof (components_cleaned (backslashes p)) as (n & rest & Heq & Hrest & _).
  case_bool_decide as Hnil; [done|]. exists (components (backslashes p)). split; [done|]. split; [|done].
  destruct (decide (n = 0)) as [->|Hn]; [by rewrite Heq|]. rewrite Heq in *.
  destruct (Join_dotdot n rest Hn) as [H|H]; congruence.
Qed.

(** What [strings.Trim] leaves of a cleaned path. *)
Lemma trim_Clean d : trim_char "/" (Clean d) =
  if bool_decide (components d = []) then (if IsAbs d then "" else ".") else Join "/" (components d).
Proof.
  pose proof (cleaned_entries _ _ (components_cleaned d)) as He. unfold Clean. case_bool_decide as Hnil.
  - rewrite Hnil. by destruct (IsAbs d).
  - destruct (IsAbs d); [|by apply trim_char_Join].
    change ("/" +:+ Join "/" (components d))%string with (String "/" (Join "/" (components d))).
    unfold trim_char. simpl. by apply trim_char_Join.
Qed.

(** The boundary test is a prefix test on components. *)
Lemma hasPathPrefix_true l d : l <> [] -> Forall plain l ->
  hasPathPrefix (Join "/" l) d = true <-> components d <> [] /\ components d `prefix_of` l.
Proof.
  intros Hne Hl. unfold hasPathPrefix. rewrite Clean_Join, trim_char_Join by (try done; by apply plain_entry).
  rewrite trim_Clean, orb_true_iff, bool_decide_eq_true. case_bool_decide as Hnil.
  - split; [|intros [? _]; done]. intros H. exfalso. destruct Hl as [|x l (Hx & Hdot & Hdd & Hs) Hl]; [done|].
    destruct (IsAbs d).
    + destruct x as [|a x]; [done|].
      assert (exists t, Join "/" (String a x :: l) = String a t) as [t Ht].
      { simpl. destruct l; [by eexists|]. eexists. change (String a x +:+ ?r)%string with (String a (x +:+ r)). reflexivity. }
      rewrite Ht in H. destruct H as [H|[u Hu]%has_prefix_true]; [done|]. injection Hu as -> _. apply Hs. unfold char_in. simpl. by left.
    + assert (["."] `prefix_of` x :: l) as [k Hk]; [|naive_solver].
      apply Join_prefix; [done|done|by apply plain_entry, Forall_cons| |done].
      apply Forall_cons. split; [|done]. split; [done|]. unfold char_in. simpl. rewrite elem_of_cons, elem_of_nil. naive_solver.
  - rewrite Join_prefix; [tauto|done|done|by apply plain_entry|]. eapply cleaned_entries, components_cleaned.
Qed.

(** The components of [plan] and [evidence] are themselves. *)
Lemma phaseAllows_true b phase l : l <> [] -> Forall plain l ->
  phaseAllows b phase (Join "/" l) = true <->
  (phase = PhasePlan /\ head l = Some "plan") \/ (phase = PhaseVerify /\ head l = Some "evidence") \/
  (phase = PhaseExecute /\ exists d, d ∈ bd_AllowedDirs b /\ components d <> [] /\ components d `prefix_of` l).
Proof.
  intros Hne Hl. assert (forall e, components e = [e] -> hasPathPrefix (Join "/" l) e = true <-> head l = Some e) as Hhead.
  { intros e He. rewrite hasPathPrefix_true, He by done. split.
    - intros [_ [k ->]]. done.
    - destruct l as [|x l]; [done|]. intros [= ->]. split; [done|]. by exists l. }
  unfold phaseAllows. repeat case_bool_decide; subst; try done.
  - rewrite Hhead by done. naive_solver.
  - rewrite Hhead by done. naive_solver.
  - rewrite existsb_elem. setoid_rewrite hasPathPrefix_true; [|done..]. naive_solver.
  - naive_solver.
Qed.

Lemma Join_plain_ne l : l <> [] -> Forall plain l -> Join "/" l <> "".
Proof. intros Hne Hl. destruct Hl as [|x l (Hx & _) _]; [done|]. destruct x; [done|]. by destruct l. Qed.

Lemma join_components root l : root <> "" -> l <> [] -> Forall plain l ->
  IsAbs (path_join [root; Join "/" l]) = IsAbs root /\ components (path_join [root; Join "/" l]) = components root ++ l.
Proof.
  intros Hroot Hne Hl. unfold path_join. rewrite !filter_cons_True, filter_nil, bool_decide_eq_false_2; [|done|by apply Join_plain_ne|done].
  change (Join "/" [root; Join "/" l]) with (root +:+ "/" +:+ Join "/" l)%string.
  by rewrite IsAbs_Clean, components_Clean, components_below, IsAbs_app.
Qed.
