(* ===== verification/WsService.v ===== *)
(** * Workspace bindings: the store and the service

    [workspace/store.go], [Service] of [model.go] and the parts of
    [agent_tools.go] and [native_snapshot.go] that change bindings.

    The git backend is an interface: its answers during a call are the record
    [GitBackend], and the calls that change a repository are logged.  A mutation
    reads the binding, computes the next one and stores it by compare-and-swap;
    the two halves are [mutate]'s, and the mutexes of [WithLock] only narrow what
    may happen between them. *)

From stdpp Require Import base tactics option list strings gmap sorting.
From Stdlib Require Import ZArith Ascii.
From S2P Require Import Prelude GoLib GoStrings GoPath Kernel CoordTypes WsModel.

(** ** The binding store *)

Abbreviation roundKey := (TaskID * Z)%type.

Record Materialization := mkMaterialization {
  mt_Head : string;
  mt_WorktreeCreated : bool;
  mt_BranchCreated : bool;
}.

Inductive GitCall :=
| CallMaterialize (b : Binding)
| CallRemove (b : Binding) (m : Materialization)
| CallCheckpoint (b : Binding) (label : string).

(** The maps of [MemoryStore] and the repository-changing calls so far. *)
Record WsStore := mkWsStore {
  st_bindings : gmap BindingRef Binding;
  st_byRound : gmap roundKey BindingRef;
  st_git : list GitCall;
}.

Definition NewWsStore : WsStore := mkWsStore ∅ ∅ [].

Definition st_set_bindings (m : gmap BindingRef Binding) (s : WsStore) : WsStore := mkWsStore m (st_byRound s) (st_git s).
Definition st_log (c : GitCall) (s : WsStore) : WsStore := mkWsStore (st_bindings s) (st_byRound s) (st_git s ++ [c]).

Record GitBackend := mkGitBackend {
  gb_ResolveRevision : string -> string -> res string;
  gb_Materialize : Binding -> res Materialization;
  gb_Remove : Binding -> Materialization -> res unit;
  gb_CurrentRevision : Binding -> res string;
  gb_ObservedWrites : Binding -> res (list string);
  gb_Checkpoint : Binding -> string -> res string;
}.

Definition Insert (ctx : Context) (binding : Binding) : M error WsStore unit :=
  _ ← lift (ctx_Err ctx);
  s ← get_state;
  let key := (bd_TaskID binding, bd_Generation binding) in
  _ ← lift (fail_if (bool_decide (is_Some (st_bindings s !! bd_ID binding))) IdempotencyConflict);
  _ ← lift (fail_if (bool_decide (is_Some (st_byRound s !! key))) IdempotencyConflict);
  put_state (mkWsStore (<[bd_ID binding := binding]> (st_bindings s)) (<[key := bd_ID binding]> (st_byRound s)) (st_git s)).

Definition Get (ctx : Context) (id : BindingRef) : M error WsStore Binding :=
  _ ← lift (ctx_Err ctx);
  s ← get_state;
  match st_bindings s !! id with
  | None => throw workspaceNotFound
  | Some binding => mret binding
  end.

Definition GetByRound (ctx : Context) (taskID : TaskID) (generation : Z) : M error WsStore (option Binding) :=
  _ ← lift (ctx_Err ctx);
  s ← get_state;
  match st_byRound s !! (taskID, generation) with
  | None => mret None
  | Some id => mret (Some (default zeroBinding (st_bindings s !! id)))
  end.

(** What a mutation makes of the binding it reads: nothing to do, or the next
    binding. *)
Abbreviation Change := (Binding -> res (option Binding)).

Section with_runtime.
Context `{GR : GoRuntime}.

Definition GetLatestByTask (ctx : Context) (taskID : TaskID) : M error WsStore (option Binding) :=
  _ ← lift (ctx_Err ctx);
  s ← get_state;
  mret (foldl (fun latest kv =>
    let '(key, id) := (kv : roundKey * BindingRef) in
    if bool_decide (key.1 <> taskID) || match latest with Some b => (key.2 <=? bd_Generation b)%Z | None => false end
    then latest else Some (default zeroBinding (st_bindings s !! id))) None (range_map (st_byRound s))).

Definition GetByInvocation (ctx : Context) (invocationID : InvocationID) : M error WsStore (option Binding) :=
  _ ← lift (ctx_Err ctx);
  s ← get_state;
  mret (snd <$> list_find (fun binding => bd_ActiveInvocation binding = invocationID) (range_values (st_bindings s))).

(** Another binding whose active invocation is that of [next]. *)
Definition boundElsewhere (s : WsStore) (next : Binding) : bool :=
  existsb (fun kv : BindingRef * Binding =>
    bool_decide (kv.1 <> bd_ID next) && bool_decide (bd_ActiveInvocation next <> "") &&
    bool_decide (bd_ActiveInvocation kv.2 = bd_ActiveInvocation next)) (range_map (st_bindings s)).

Definition UpdateCAS (ctx : Context) (next : Binding) (expected : Revision) : M error WsStore Binding :=
  _ ← lift (ctx_Err ctx);
  s ← get_state;
  match st_bindings s !! bd_ID next with
  | None => throw workspaceNotFound
  | Some current =>
    _ ← lift (CheckExpectedRevision expected (bd_Revision current));
    _ ← lift (fail_if (boundElsewhere s next) (LeaseConflict "invocation is already bound to another workspace"));
    let next := bd_set_Revision (Revision_Next (bd_Revision current)) next in
    _ ← put_state (st_set_bindings (<[bd_ID next := next]> (st_bindings s)) s);
    mret next
  end.

Definition WithLock {A} (ctx : Context) (fn : M error WsStore A) : M error WsStore A :=
  _ ← lift (ctx_Err ctx);
  _ ← lift (ctx_Err ctx);
  fn.

(** ** Mutations *)

Definition firstRevision (values : list Revision) : Revision :=
  match values with [] => LatestRevision | v :: _ => v end.

(** The second half of [mutate], for the binding that was read. *)
Definition commitChange (ctx : Context) (expected : Revision) (apply : Change) (binding : Binding) : M error WsStore Binding :=
  next ← lift (apply binding);
  match next with
  | None => mret binding
  | Some next =>
    let expected := if bool_decide (expected = LatestRevision) then bd_Revision binding else expected in
    _ ← lift (CheckExpectedRevision expected (bd_Revision binding));
    UpdateCAS ctx next expected
  end.

Definition mutate (ctx : Context) (id : BindingRef) (expected : Revision) (apply : Change) : M error WsStore Binding :=
  _ ← lift (fail_if (bool_decide (id = "")) (InvalidArgument "binding_ref is required"));
  WithLock ctx (binding ← Get ctx id; commitChange ctx expected apply binding).

Definition bindChange (phase : string) (invocationID : InvocationID) : Change := fun binding =>
  _ ← fail_if (bool_decide (bd_Status binding = StatusSealed)) (Forbidden "workspace binding is sealed");
  if bool_decide (bd_ActivePhase binding = phase) && bool_decide (bd_ActiveInvocation binding = invocationID) then Ok None
  else if bool_decide (lease_of binding phase <> "") then
    if bool_decide (lease_of binding phase = invocationID) then Ok None
    else Err (LeaseConflict "phase already completed by another invocation")
  else
    _ ← fail_if (bool_decide (bd_ActiveInvocation binding <> "")) (LeaseConflict "another phase holds the workspace write lease");
    _ ← fail_if (negb (phasePrerequisitesMet binding phase))
        (TransitionRejected "workspace phase prerequisites are not complete");
    Ok (Some (bd_set_active phase invocationID binding)).

Definition BindPhase (ctx : Context) (id : BindingRef) (phase : string) (invocationID : InvocationID)
    (expectedRevision : list Revision) : M error WsStore Binding :=
  _ ← lift (fail_if (bool_decide (invocationID = "")) (InvalidArgument "invocation_id is required"));
  _ ← lift (fail_if (negb (validPhase phase)) (InvalidArgument "invalid phase"));
  mutate ctx id (firstRevision expectedRevision) (bindChange phase invocationID).

Definition authorizeChange (allowed : list string) (normalized : WriteSet) : Change := fun binding =>
  _ ← fail_if (bool_decide (bd_Status binding = StatusSealed)) (Forbidden "workspace binding is sealed");
  _ ← fail_if (bool_decide (bd_ActiveInvocation binding <> ""))
      (LeaseConflict "cannot change execute write authority while a phase lease is active");
  _ ← fail_if (bool_decide (lease_of binding PhasePlan = ""))
      (TransitionRejected "planner phase must complete before execute write authority is promoted");
  let same := stringSlicesEqual (bd_AllowedDirs binding) allowed && writeSetsEqual (bd_DeclaredWrites binding) normalized in
  if bool_decide (lease_of binding PhaseExecute <> "") then
    if same then Ok None else Err (LeaseConflict "execute write authority cannot change after execute completion")
  else if same then Ok None
  else Ok (Some (bd_set_DeclaredWrites normalized (bd_set_AllowedDirs allowed binding))).

Definition AuthorizeExecuteWrites (ToLower : string -> string) (ctx : Context) (id : BindingRef) (declared : WriteSet)
    (expectedRevision : list Revision) : M error WsStore Binding :=
  allowed ← lift (allowedDirsForDeclaredWrites ToLower (ws_Files declared));
  normalized ← lift (normalizeWriteSet declared allowed);
  mutate ctx id (firstRevision expectedRevision) (authorizeChange allowed normalized).

Definition finishChange (phase : string) (invocationID : InvocationID) (complete : bool) : Change := fun binding =>
  if complete && bool_decide (bd_ActiveInvocation binding = "") && bool_decide (lease_of binding phase = invocationID) then Ok None
  else
    _ ← fail_if (bool_decide (bd_ActivePhase binding <> phase) || bool_decide (bd_ActiveInvocation binding <> invocationID))
        (LeaseConflict "invocation does not hold active phase lease");
    let leases := if complete then <[phase := invocationID]> (bd_PhaseLeases binding) else bd_PhaseLeases binding in
    Ok (Some (bd_set_active "" "" (bd_set_PhaseLeases leases binding))).

Definition finishPhaseLease (ctx : Context) (id : BindingRef) (phase : string) (invocationID : InvocationID)
    (expected : Revision) (complete : bool) : M error WsStore Binding :=
  _ ← lift (fail_if (bool_decide (invocationID = "")) (InvalidArgument "invocation_id is required"));
  _ ← lift (fail_if (negb (validPhase phase)) (InvalidArgument "invalid phase"));
  mutate ctx id expected (finishChange phase invocationID complete).

Definition ReleasePhase (ctx : Context) (id : BindingRef) (phase : string) (invocationID : InvocationID)
    (expectedRevision : list Revision) : M error WsStore Binding :=
  finishPhaseLease ctx id phase invocationID (firstRevision expectedRevision) false.

Definition CompletePhase (ctx : Context) (id : BindingRef) (phase : string) (invocationID : InvocationID)
    (expectedRevision : list Revision) : M error WsStore Binding :=
  finishPhaseLease ctx id phase invocationID (firstRevision expectedRevision) true.

Definition sealChange : Change := fun binding =>
  if bool_decide (bd_Status binding = StatusSealed) then Ok None
  else
    _ ← fail_if (bool_decide (bd_ActiveInvocation binding <> ""))
        (LeaseConflict "cannot seal a workspace with an active phase lease");
    Ok (Some (bd_set_Status StatusSealed binding)).

Definition Seal (ctx : Context) (id : BindingRef) (expectedRevision : list Revision) : M error WsStore Binding :=
  mutate ctx id (firstRevision expectedRevision) sealChange.

Definition observed_as (files : list string) (current : string) (binding : Binding) : Binding :=
  bd_set_CurrentRevision current
    (bd_set_ObservedWrites (mkWriteSet (candidateObservedFiles files) [] [] [] [] []) binding).

Definition refreshChange (git : GitBackend) : Change := fun binding =>
  files ← gb_ObservedWrites git binding;
  current ← gb_CurrentRevision git binding;
  let next := observed_as files current binding in
  if writeSetsEqual (bd_ObservedWrites binding) (bd_ObservedWrites next) && bool_decide (bd_CurrentRevision binding = current)
  then Ok None else Ok (Some next).

Definition RefreshObservedWrites (git : GitBackend) (ctx : Context) (id : BindingRef) (expectedRevision : list Revision) :
    M error WsStore Binding :=
  mutate ctx id (firstRevision expectedRevision) (refreshChange git).

(** ** Inheriting completed phases *)

(** One prerequisite: kept, copied from the source, or refused. *)
Definition inheritOne (source : Binding) (replayingActive : bool) (acc : Binding * bool) (prerequisite : string) :
    res (Binding * bool) :=
  let '(target, changed) := acc in
  let completed := lease_of source prerequisite in
  let existing := lease_of target prerequisite in
  _ ← fail_if (bool_decide (completed = "")) (TransitionRejected "previous workspace phase prerequisites are not complete");
  if bool_decide (existing <> "") then
    if bool_decide (existing = completed) then Ok acc
    else Err (LeaseConflict "workspace prerequisite was inherited from a different invocation")
  else
    _ ← fail_if replayingActive (LeaseConflict "active workspace is missing an inherited phase prerequisite");
    Ok (bd_set_PhaseLeases (<[prerequisite := completed]> (bd_PhaseLeases target)) target, true).

Definition unless_unchanged (r : res (Binding * bool)) : res (option Binding) :=
  acc ← r; Ok (if (acc : Binding * bool).2 then Some acc.1 else None).

Definition nextGeneration (source target : Binding) : bool :=
  bool_decide (bd_TaskID target = bd_TaskID source) && bool_decide (bd_Generation target = int_wrap (bd_Generation source + 1)).

Definition inheritChange (source : Binding) (phase : string) (replayInvocation : InvocationID) : Change := fun target =>
  _ ← fail_if (negb (nextGeneration source target))
      (StaleBinding "workspace prerequisite source is not the previous Task generation");
  _ ← fail_if (bool_decide (bd_BaseRevision target <> bd_CurrentRevision source))
      (StaleBinding "new workspace is not based on the previous generation revision");
  _ ← fail_if (bool_decide (bd_Status target = StatusSealed))
      (LeaseConflict "new workspace is not available for prerequisite inheritance");
  let replayingActive := bool_decide (bd_ActiveInvocation target <> "") in
  _ ← fail_if (replayingActive && (bool_decide (bd_ActiveInvocation target <> replayInvocation) ||
                                   bool_decide (bd_ActivePhase target <> phase)))
      (LeaseConflict "new workspace is not available for prerequisite inheritance");
  unless_unchanged (foldM (inheritOne source replayingActive) (target, false) (phasePrerequisites phase)).

(** The source binding, outside the lock of the target. *)
Definition inheritSource (ctx : Context) (targetID sourceID : BindingRef) (busy : string) : M error WsStore Binding :=
  _ ← lift (fail_if (bool_decide (targetID = "") || bool_decide (sourceID = "") || bool_decide (targetID = sourceID))
        (InvalidArgument "distinct source and target workspace bindings are required"));
  source ← Get ctx sourceID;
  _ ← lift (fail_if (bool_decide (bd_ActiveInvocation source <> "")) (LeaseConflict busy));
  mret source.

Definition InheritPhasePrerequisites (ctx : Context) (targetID sourceID : BindingRef) (phase : string)
    (activeInvocation : list InvocationID) : M error WsStore Binding :=
  _ ← lift (fail_if (negb (validPhase phase)) (InvalidArgument "invalid phase"));
  _ ← lift (fail_if (bool_decide (1 < length activeInvocation))
        (InvalidArgument "at most one active invocation may be supplied"));
  _ ← lift (fail_if (bool_decide (activeInvocation = [""])) (InvalidArgument "active invocation cannot be empty"));
  let replayInvocation := default "" (head activeInvocation) in
  source ← inheritSource ctx targetID sourceID "previous workspace generation still has an active phase";
  mutate ctx targetID LatestRevision (inheritChange source phase replayInvocation).

Definition inheritPlanChange (source : Binding) : Change := fun target =>
  let planInvocation := lease_of source PhasePlan in
  _ ← fail_if (negb (nextGeneration source target))
      (StaleBinding "workspace prerequisite source is not the previous Task generation");
  _ ← fail_if (bool_decide (bd_Status target = StatusSealed) || bool_decide (bd_ActiveInvocation target <> ""))
      (LeaseConflict "new workspace is not available for prerequisite inheritance");
  _ ← fail_if (bool_decide (lease_of target PhaseExecute <> "") || bool_decide (lease_of target PhaseVerify <> ""))
      (LeaseConflict "new workspace already contains later phase completion");
  acc ← (if bool_decide (lease_of target PhasePlan <> "") then
           _ ← fail_if (bool_decide (lease_of target PhasePlan <> planInvocation))
               (LeaseConflict "workspace plan prerequisite was inherited from a different invocation");
           Ok (target, false)
         else Ok (bd_set_PhaseLeases (<[PhasePlan := planInvocation]> (bd_PhaseLeases target)) target, true));
  let '(target, changed) := (acc : Binding * bool) in
  if negb (writeSetsEqual (bd_DeclaredWrites target) (bd_DeclaredWrites source)) ||
     negb (stringSlicesEqual (bd_AllowedDirs target) (bd_AllowedDirs source))
  then Ok (Some (bd_set_AllowedDirs (bd_AllowedDirs source) (bd_set_DeclaredWrites (bd_DeclaredWrites source) target)))
  else Ok (if changed then Some target else None).

Definition InheritPlanPrerequisite (ctx : Context) (targetID sourceID : BindingRef) : M error WsStore Binding :=
  source ← inheritSource ctx targetID sourceID "previous workspace generation still has an active phase";
  _ ← lift (fail_if (bool_decide (lease_of source PhasePlan = ""))
        (TransitionRejected "previous workspace plan prerequisite is not complete"));
  mutate ctx targetID LatestRevision (inheritPlanChange source).

(** One entry of the map the loop ranges over. *)
Definition inheritMergedOne (acc : Binding * bool) (entry : string * InvocationID) : res (Binding * bool) :=
  let '(target, changed) := acc in
  let '(phase, invocationID) := entry in
  if bool_decide (lease_of target phase <> "") then
    if bool_decide (lease_of target phase = invocationID) then Ok acc
    else Err (LeaseConflict "merged verification prerequisite came from another execution lineage")
  else Ok (bd_set_PhaseLeases (<[phase := invocationID]> (bd_PhaseLeases target)) target, true).

Definition inheritMergedChange (source : Binding) : Change := fun target =>
  _ ← fail_if (negb (nextGeneration source target))
      (StaleBinding "merged verification workspace is not the next Task generation");
  _ ← fail_if (bool_decide (bd_Status target = StatusSealed) || bool_decide (bd_ActiveInvocation target <> ""))
      (LeaseConflict "merged verification workspace is not available");
  _ ← fail_if (bool_decide (lease_of target PhaseVerify <> ""))
      (LeaseConflict "merged verification workspace is already complete");
  let leases : gmap string InvocationID :=
    <[PhasePlan := lease_of source PhasePlan]> {[PhaseExecute := lease_of source PhaseExecute]} in
  unless_unchanged (foldM inheritMergedOne (target, false) (range_map leases)).

Definition InheritMergedVerifyPrerequisites (ctx : Context) (targetID sourceID : BindingRef) : M error WsStore Binding :=
  source ← inheritSource ctx targetID sourceID "execute workspace still has an active phase";
  _ ← lift (fail_if (bool_decide (lease_of source PhasePlan = "") || bool_decide (lease_of source PhaseExecute = ""))
        (TransitionRejected "merged verification requires completed plan and execute prerequisites"));
  mutate ctx targetID LatestRevision (inheritMergedChange source).

(** ** Creating and materialising *)

(** The width of the rune at the front of a string, as [utf8.DecodeRune] has it:
    a malformed byte is a rune of its own. *)
Definition rune_width (s : string) : nat :=
  let byte i := match String.get i s with Some a => N_of_ascii a | None => 0%N end in
  let between a lo hi := ((lo <=? a) && (a <=? hi))%N in
  let cont i := between (byte i) 128%N 191%N in
  let b := byte 0 in
  if between b 194%N 223%N && cont 1 then 2
  else if (between b 225%N 236%N || between b 238%N 239%N) && cont 1 && cont 2 then 3
  else if bool_decide (b = 224%N) && between (byte 1) 160%N 191%N && cont 2 then 3
  else if bool_decide (b = 237%N) && between (byte 1) 128%N 159%N && cont 2 then 3
  else if bool_decide (b = 240%N) && between (byte 1) 144%N 191%N && cont 2 && cont 3 then 4
  else if between b 241%N 243%N && cont 1 && cont 2 && cont 3 then 4
  else if bool_decide (b = 244%N) && between (byte 1) 128%N 143%N && cont 2 && cont 3 then 4
  else 1.

Definition id_char (a : ascii) : bool :=
  let n := N_of_ascii a in ((97 <=? n) && (n <=? 122) || (48 <=? n) && (n <=? 57) || (n =? 45))%N.

(** Every other rune becomes a dash; [skip] bytes of the current rune are left. *)
Fixpoint dashes (skip : nat) (s : string) : string :=
  match s with
  | EmptyString => EmptyString
  | String a s' => match skip with
                   | S skip => dashes skip s'
                   | 0 => String (if id_char a then a else "-") (dashes (rune_width s - 1) s')
                   end
  end.

Definition sanitizeID (ToLower : string -> string) (id : string) : string := trim_char "-" (dashes 0 (ToLower id)).

(** [%03d] of a positive number. *)
Definition pad3 (n : Z) : string :=
  let s := format_int n in
  match String.length s with 1 => "00" +:+ s | 2 => "0" +:+ s | _ => s end.

(** [taskHash] is the hexadecimal text of the first six bytes of the SHA-256 of
    the task id, [fingerprint] the digest of the encoded creation request. *)
Record Digests := mkDigests {
  dg_taskHash : TaskID -> string;
  dg_fingerprint : string -> string -> string -> list string -> WriteSet -> string;
}.

Section create.
Context (ToLower : string -> string) (digests : Digests) (host : Host) (git : GitBackend).

Definition bindingIdentity (taskID : TaskID) (generation : Z) : BindingRef * string :=
  let prefix := String.substring 0 36 (sanitizeID ToLower taskID) in
  let hash := dg_taskHash digests taskID in
  ("ws_" +:+ prefix +:+ "_" +:+ hash +:+ "_" +:+ pad3 generation,
   "threadmill/" +:+ prefix +:+ "-" +:+ hash +:+ "/" +:+ pad3 generation).

Definition createFingerprint (repositoryPath worktreeParent base : string) (allowed : list string) (declared : WriteSet) : string :=
  dg_fingerprint digests repositoryPath (Clean worktreeParent) base allowed declared.

Definition materializeCall (binding : Binding) : M error WsStore Materialization :=
  _ ← modify (st_log (CallMaterialize binding));
  lift (gb_Materialize git binding).

(** [s.git.Remove], whose failure is joined to the cause. *)
Definition rollback {A} (binding : Binding) (materialized : Materialization) (cause : error) : M error WsStore A :=
  _ ← modify (st_log (CallRemove binding materialized));
  match gb_Remove git binding materialized with
  | Ok _ => throw cause
  | Err e => throw (JoinError cause (WrapError "rollback workspace materialization" e))
  end.

(** A round that was created before: the same request materialises it again. *)
Definition recreate (ctx : Context) (req : CreateRequest) (repositoryPath worktreeParent : string) (allowed : list string)
    (declared : WriteSet) (existing : Binding) : M error WsStore Binding :=
  base ← lift (if bool_decide (cw_BaseRevision req <> "") then gb_ResolveRevision git repositoryPath (cw_BaseRevision req)
               else Ok (bd_BaseRevision existing));
  _ ← lift (fail_if (bool_decide (bd_CreationFingerprint existing <> createFingerprint repositoryPath worktreeParent base allowed declared))
        IdempotencyConflict);
  materialized ← materializeCall existing;
  if bool_decide (mt_Head materialized <> bd_CurrentRevision existing)
  then UpdateCAS ctx (bd_set_CurrentRevision (mt_Head materialized) existing) (bd_Revision existing)
  else mret existing.

Definition newBinding (req : CreateRequest) (repositoryPath worktreeParent base : string) (allowed : list string)
    (declared : WriteSet) : Binding :=
  let '(id, branch) := bindingIdentity (cw_TaskID req) (cw_Generation req) in
  mkBinding id 1 (cw_TaskID req) (cw_Generation req) KindGitWorktree (path_join [worktreeParent; id]) branch "" [] base base
    allowed declared zeroWriteSet ∅ "" "" StatusPrepared repositoryPath
    (createFingerprint repositoryPath worktreeParent base allowed declared).

Definition createNew (ctx : Context) (req : CreateRequest) (repositoryPath worktreeParent : string) (allowed : list string)
    (declared : WriteSet) : M error WsStore Binding :=
  base ← lift (gb_ResolveRevision git repositoryPath (cw_BaseRevision req));
  let binding := newBinding req repositoryPath worktreeParent base allowed declared in
  materialized ← materializeCall binding;
  let binding := bd_set_CurrentRevision (mt_Head materialized) binding in
  match cw_AfterWorktreeAdd req with
  | Some (Err e) => rollback binding materialized (WrapError "after worktree add" e)
  | _ => catch (_ ← Insert ctx binding; mret binding) (rollback binding materialized)
  end.

Definition CreateGitWorktree (ctx : Context) (req : CreateRequest) : M error WsStore Binding :=
  _ ← lift (RequireID "task_id" (cw_TaskID req));
  _ ← lift (fail_if (cw_Generation req <=? 0)%Z (InvalidArgument "generation must be positive"));
  _ ← lift (fail_if (bool_decide (cw_RepoPath req = "") || bool_decide (cw_WorktreeParent req = ""))
        (InvalidArgument "repo_path and worktree_parent are required"));
  repositoryPath ← lift (wrap "resolve repository path" (canonicalExistingPath host (cw_RepoPath req)));
  worktreeParent ← lift (wrap "resolve worktree parent" (host_Abs host (cw_WorktreeParent req)));
  allowed ← lift (normalizeAllowedDirs (cw_AllowedDirs req));
  declared ← lift (normalizeWriteSet (cw_DeclaredWrites req) allowed);
  WithLock ctx (
    existing ← GetByRound ctx (cw_TaskID req) (cw_Generation req);
    match existing with
    | Some existing => recreate ctx req repositoryPath worktreeParent allowed declared existing
    | None => createNew ctx req repositoryPath worktreeParent allowed declared
    end).

Definition Materialize (ctx : Context) (id : BindingRef) : M error WsStore Binding :=
  WithLock ctx (
    binding ← Get ctx id;
    materialized ← materializeCall binding;
    if bool_decide (mt_Head materialized <> bd_CurrentRevision binding)
    then UpdateCAS ctx (bd_set_CurrentRevision (mt_Head materialized) binding) (bd_Revision binding)
    else mret binding).

End create.

(** ** Access by invocation *)

Definition refreshLocked (git : GitBackend) (ctx : Context) (binding : Binding) : M error WsStore Binding :=
  next ← lift (refreshChange git binding);
  match next with
  | None => mret binding
  | Some next => UpdateCAS ctx next (bd_Revision binding)
  end.

(** The binding an invocation is working in, looked up again under its lock. *)
Definition withInvocation {A} (ctx : Context) (invocationID : InvocationID) (fn : Binding -> M error WsStore A) : M error WsStore A :=
  _ ← lift (fail_if (bool_decide (invocationID = "")) (InvalidArgument "invocation_id is required"));
  found ← GetByInvocation ctx invocationID;
  match found with
  | None => throw (StaleBinding "invocation has no active workspace phase lease")
  | Some binding =>
    WithLock ctx (
      found ← GetByInvocation ctx invocationID;
      match found with
      | None => throw (StaleBinding "invocation workspace phase lease is no longer active")
      | Some current =>
        _ ← lift (fail_if (bool_decide (bd_ID current <> bd_ID binding) || bool_decide (bd_Status current = StatusSealed))
              (StaleBinding "invocation workspace phase lease is no longer active"));
        fn current
      end)
  end.

(** ** Lookups of the service *)

Definition Service_GetByRound (ctx : Context) (taskID : TaskID) (generation : Z) : M error WsStore (option Binding) :=
  _ ← lift (RequireID "task_id" taskID);
  _ ← lift (fail_if (generation <=? 0)%Z (InvalidArgument "generation must be positive"));
  GetByRound ctx taskID generation.

Definition Service_GetLatestByTask (ctx : Context) (taskID : TaskID) : M error WsStore (option Binding) :=
  _ ← lift (RequireID "task_id" taskID);
  GetLatestByTask ctx taskID.

End with_runtime.
