(* ===== verification/WsReach.v ===== *)
(** * Workspace bindings: specification

    What a binding promises ([binding_ok]), the changes a binding may undergo
    ([binding_move]), and the interleavings of the service's calls: a call reads
    a binding, computes the next one and stores it by compare-and-swap later;
    anything may happen in between ([ws_step]).  Every call of the service is a run of
    such steps. *)

From stdpp Require Import base tactics option list strings gmap sorting relations.
From Stdlib Require Import ZArith Ascii.
From S2P Require Import Prelude GoLib GoStrings GoPath Kernel CoordTypes WsModel WsService.

(** ** Bindings *)

Definition phase_order (leases : string -> InvocationID) : Prop :=
  (leases PhaseExecute <> "" -> leases PhasePlan <> "") /\ (leases PhaseVerify <> "" -> leases PhaseExecute <> "").

(** Phases complete in order; an invocation is active in one phase that may run
    and has not completed; a sealed binding has none. *)
Record binding_ok (b : Binding) : Prop := {
  bo_order : phase_order (lease_of b);
  bo_idle : bd_ActiveInvocation b = "" -> bd_ActivePhase b = "";
  bo_active : bd_ActiveInvocation b <> "" ->
    validPhase (bd_ActivePhase b) = true /\ phasePrerequisitesMet b (bd_ActivePhase b) = true /\
    lease_of b (bd_ActivePhase b) = "" /\ bd_Status b <> StatusSealed;
  bo_status : bd_Status b ∈ [StatusPrepared; StatusSealed];
}.

(** Completed phases stay completed by the same invocation. *)
Definition leases_extend (old new : string -> InvocationID) : Prop := forall phase, old phase <> "" -> new phase = old phase.

Inductive binding_move (b : Binding) : Binding -> Prop :=
| move_bind phase invocation :
    bd_Status b <> StatusSealed -> bd_ActiveInvocation b = "" -> invocation <> "" -> validPhase phase = true ->
    lease_of b phase = "" -> phasePrerequisitesMet b phase = true -> binding_move b (bd_set_active phase invocation b)
| move_release : bd_ActiveInvocation b <> "" -> binding_move b (bd_set_active "" "" b)
| move_complete : bd_ActiveInvocation b <> "" ->
    binding_move b (bd_set_active "" ""
      (bd_set_PhaseLeases (<[bd_ActivePhase b := bd_ActiveInvocation b]> (bd_PhaseLeases b)) b))
| move_inherit leases :
    bd_Status b <> StatusSealed -> bd_ActiveInvocation b = "" ->
    leases_extend (lease_of b) (lease_of (bd_set_PhaseLeases leases b)) ->
    phase_order (lease_of (bd_set_PhaseLeases leases b)) -> binding_move b (bd_set_PhaseLeases leases b)
| move_authorize leases allowed declared :
    bd_Status b <> StatusSealed -> bd_ActiveInvocation b = "" -> lease_of b PhaseExecute = "" ->
    leases_extend (lease_of b) (lease_of (bd_set_PhaseLeases leases b)) ->
    phase_order (lease_of (bd_set_PhaseLeases leases b)) ->
    binding_move b (bd_set_AllowedDirs allowed (bd_set_DeclaredWrites declared (bd_set_PhaseLeases leases b)))
| move_seal : bd_ActiveInvocation b = "" -> binding_move b (bd_set_Status StatusSealed b)
| move_observe writes current :
    binding_move b (bd_set_CurrentRevision current (bd_set_ObservedWrites writes b)).

(** What never changes, and what a completed execute phase or the seal fixes. *)
Record binding_kept (b b' : Binding) : Prop := {
  bk_id : bd_ID b' = bd_ID b /\ bd_TaskID b' = bd_TaskID b /\ bd_Generation b' = bd_Generation b /\
    bd_Root b' = bd_Root b /\ bd_BranchName b' = bd_BranchName b /\ bd_BaseRevision b' = bd_BaseRevision b /\
    bd_RepositoryPath b' = bd_RepositoryPath b /\ bd_CreationFingerprint b' = bd_CreationFingerprint b;
  bk_leases : leases_extend (lease_of b) (lease_of b');
  bk_authority : lease_of b PhaseExecute <> "" ->
    bd_AllowedDirs b' = bd_AllowedDirs b /\ bd_DeclaredWrites b' = bd_DeclaredWrites b;
  bk_sealed : bd_Status b = StatusSealed ->
    bd_Status b' = StatusSealed /\ bd_PhaseLeases b' = bd_PhaseLeases b /\ bd_AllowedDirs b' = bd_AllowedDirs b /\
    bd_DeclaredWrites b' = bd_DeclaredWrites b /\ bd_ActiveInvocation b' = bd_ActiveInvocation b;
}.

(** ** The store *)

Record ws_inv (s : WsStore) : Prop := {
  wi_bindings : forall id b, st_bindings s !! id = Some b ->
    bd_ID b = id /\ binding_ok b /\ st_byRound s !! (bd_TaskID b, bd_Generation b) = Some id;
  wi_rounds : forall key id, st_byRound s !! key = Some id ->
    exists b, st_bindings s !! id = Some b /\ (bd_TaskID b, bd_Generation b) = key;
  wi_exclusive : forall id1 id2 b1 b2, st_bindings s !! id1 = Some b1 -> st_bindings s !! id2 = Some b2 ->
    bd_ActiveInvocation b1 <> "" -> bd_ActiveInvocation b1 = bd_ActiveInvocation b2 -> id1 = id2;
}.

(** A binding as it is created. *)
Definition fresh_binding (b : Binding) : Prop :=
  bd_Revision b = 1%Z /\ bd_PhaseLeases b = ∅ /\ bd_ActivePhase b = "" /\ bd_ActiveInvocation b = "" /\
  bd_Status b = StatusPrepared.

(** The store as single atomic changes. *)
Inductive ws_event (s : WsStore) : WsStore -> Prop :=
| ev_insert b :
    fresh_binding b -> st_bindings s !! bd_ID b = None -> st_byRound s !! (bd_TaskID b, bd_Generation b) = None ->
    ws_event s (mkWsStore (<[bd_ID b := b]> (st_bindings s)) (<[(bd_TaskID b, bd_Generation b) := bd_ID b]> (st_byRound s)) (st_git s))
| ev_update b b' :
    st_bindings s !! bd_ID b = Some b -> binding_move b b' ->
    (forall id x, st_bindings s !! id = Some x -> id <> bd_ID b -> bd_ActiveInvocation b' <> "" ->
       bd_ActiveInvocation x <> bd_ActiveInvocation b') ->
    ws_event s (st_set_bindings (<[bd_ID b := bd_set_Revision (Revision_Next (bd_Revision b)) b']> (st_bindings s)) s)
| ev_git c : ws_event s (st_log c s).

(** ** Interleavings *)

Section with_runtime.
Context `{GR : GoRuntime}.

(** The changes the service computes from a binding [b] it read, given the
    source bindings read before. *)
Inductive service_change (sources : list Binding) (b : Binding) : Binding -> Prop :=
| sc_bind phase invocation b' :
    invocation <> "" -> validPhase phase = true -> bindChange phase invocation b = Ok (Some b') -> service_change sources b b'
| sc_authorize ToLower declared allowed normalized b' :
    allowedDirsForDeclaredWrites ToLower (ws_Files declared) = Ok allowed -> normalizeWriteSet declared allowed = Ok normalized ->
    authorizeChange allowed normalized b = Ok (Some b') -> service_change sources b b'
| sc_finish phase invocation complete b' :
    invocation <> "" -> validPhase phase = true -> finishChange phase invocation complete b = Ok (Some b') ->
    service_change sources b b'
| sc_seal b' : sealChange b = Ok (Some b') -> service_change sources b b'
| sc_refresh git b' : refreshChange git b = Ok (Some b') -> service_change sources b b'
| sc_inherit source phase replay b' :
    source ∈ sources -> validPhase phase = true -> inheritChange source phase replay b = Ok (Some b') ->
    service_change sources b b'
| sc_inherit_plan source b' :
    source ∈ sources -> lease_of source PhasePlan <> "" -> inheritPlanChange source b = Ok (Some b') ->
    service_change sources b b'
| sc_inherit_merged source b' :
    source ∈ sources -> lease_of source PhasePlan <> "" -> lease_of source PhaseExecute <> "" ->
    inheritMergedChange source b = Ok (Some b') -> service_change sources b b'
| sc_materialized head : service_change sources b (bd_set_CurrentRevision head b).

(** The store, the source bindings read so far, and the updates computed from a
    binding that was read but not stored yet. *)
Record ws_config := mkWsConfig {
  wc_store : WsStore;
  wc_sources : list Binding;
  wc_pending : list (Binding * Binding);
}.

Inductive ws_step (c : ws_config) : ws_config -> Prop :=
| step_source id b : st_bindings (wc_store c) !! id = Some b ->
    ws_step c (mkWsConfig (wc_store c) (b :: wc_sources c) (wc_pending c))
| step_read id b b' : st_bindings (wc_store c) !! id = Some b -> service_change (wc_sources c) b b' ->
    ws_step c (mkWsConfig (wc_store c) (wc_sources c) ((b, b') :: wc_pending c))
| step_commit b b' rest : wc_pending c ≡ₚ (b, b') :: rest ->
    ws_step c (mkWsConfig (UpdateCAS None b' (bd_Revision b) (wc_store c)).2 (wc_sources c) rest)
| step_abandon b b' rest : wc_pending c ≡ₚ (b, b') :: rest -> ws_step c (mkWsConfig (wc_store c) (wc_sources c) rest)
| step_insert b : fresh_binding b -> ws_step c (mkWsConfig (Insert None b (wc_store c)).2 (wc_sources c) (wc_pending c))
| step_git call : ws_step c (mkWsConfig (st_log call (wc_store c)) (wc_sources c) (wc_pending c)).

Definition ws_start : ws_config := mkWsConfig NewWsStore [] [].

(** Reachable in [n] steps; [n] bounds how far a revision has counted. *)
Definition ws_reachable (n : nat) (c : ws_config) : Prop := nsteps ws_step n ws_start c.

(** Too few steps for a 64-bit revision to wrap around. *)
Definition few (n : nat) : Prop := (Z.of_nat n < 18446744073709551614)%Z.

(** What the pending updates rely on: the binding that was read is an earlier
    version of the stored one, and the stored one itself if the revisions agree. *)
Record config_inv (n : nat) (c : ws_config) : Prop := {
  ci_store : ws_inv (wc_store c);
  ci_revisions : forall id b, st_bindings (wc_store c) !! id = Some b -> (1 <= bd_Revision b <= Z.of_nat n + 1)%Z;
  ci_sources : Forall binding_ok (wc_sources c);
  ci_pending : forall b b', (b, b') ∈ wc_pending c ->
    binding_ok b /\ binding_move b b' /\
    exists cur, st_bindings (wc_store c) !! bd_ID b = Some cur /\ (bd_Revision b <= bd_Revision cur)%Z /\
      (bd_Revision b = bd_Revision cur -> cur = b);
}.

End with_runtime.

(** * Workspace bindings: moves and interleavings

    Every change the service computes is a move; moves keep bindings well formed
    and what they fix; every step of an interleaving is one atomic change. *)

(** ** Leases *)

Lemma lease_set_active b phase invocation q : lease_of (bd_set_active phase invocation b) q = lease_of b q.
Proof. done. Qed.

Lemma lease_insert b k v q :
  lease_of (bd_set_PhaseLeases (<[k := v]> (bd_PhaseLeases b)) b) q = if decide (q = k) then v else lease_of b q.
Proof.
  unfold lease_of. simpl. destruct (decide (q = k)) as [->|Hne]; [by rewrite lookup_insert_eq|by rewrite lookup_insert_ne].
Qed.

Lemma phases_differ : PhasePlan <> PhaseExecute /\ PhasePlan <> PhaseVerify /\ PhaseExecute <> PhaseVerify.
Proof. done. Qed.

Lemma prerequisites_met b phase : phasePrerequisitesMet b phase = true <->
  phase = PhasePlan \/ (phase = PhaseExecute /\ lease_of b PhasePlan <> "") \/ (phase = PhaseVerify /\ lease_of b PhaseExecute <> "").
Proof. unfold phasePrerequisitesMet. repeat case_bool_decide; subst; naive_solver. Qed.

Lemma leases_extend_refl f : leases_extend f f.
Proof. by intros ?. Qed.

Lemma leases_extend_trans f g h : leases_extend f g -> leases_extend g h -> leases_extend f h.
Proof. intros H1 H2 q Hq. rewrite H2; [by apply H1|]. by rewrite H1. Qed.

(** ** Moves *)

Lemma binding_ok_revision r b : binding_ok b -> binding_ok (bd_set_Revision r b).
Proof. intros [H1 H2 H3 H4]. by constructor. Qed.

(** Leases change only while nothing is active. *)
Lemma binding_ok_idle b b' :
  binding_ok b -> phase_order (lease_of b') -> bd_ActiveInvocation b' = "" -> bd_ActivePhase b' = "" ->
  bd_Status b' ∈ [StatusPrepared; StatusSealed] -> binding_ok b'.
Proof. intros Hb Ho Ha Hp Hs. constructor; [done|done| |done]. by rewrite Ha. Qed.

Lemma complete_order b : binding_ok b -> bd_ActiveInvocation b <> "" ->
  phase_order (lease_of (bd_set_PhaseLeases (<[bd_ActivePhase b := bd_ActiveInvocation b]> (bd_PhaseLeases b)) b)).
Proof.
  intros [[He Hv] _ Hact _] Hne. destruct (Hact Hne) as (_ & Hmet%prerequisites_met & _ & _). destruct phases_differ as (? & ? & ?).
  unfold phase_order. rewrite !lease_insert. destruct Hmet as [Hp|[[Hp Hx]|[Hp Hx]]]; rewrite Hp;
    rewrite ?decide_True, ?decide_False by done; tauto.
Qed.

Lemma binding_move_ok b b' : binding_ok b -> binding_move b b' -> binding_ok b'.
Proof.
  intros Hb Hm. destruct Hm as [phase inv Hs Ha Hi Hv Hl Hp|Ha|Ha|leases Hs Ha He Ho|leases allowed declared Hs Ha Hx He Ho|Ha|writes cur].
  - destruct Hb as [H1 H2 H3 H4]. constructor; simpl; [done|done| |done]. intros _. by split_and!.
  - apply (binding_ok_idle b); try done; apply Hb.
  - apply (binding_ok_idle b); try done; [|apply Hb]. apply (complete_order b Hb Ha).
  - apply (binding_ok_idle b); try done; [|apply Hb]. by apply Hb.
  - apply (binding_ok_idle b); try done; [|apply Hb]. by apply Hb.
  - apply (binding_ok_idle b); try done; [apply Hb| |set_solver]. by apply Hb.
  - destruct Hb as [H1 H2 H3 H4]. by constructor.
Qed.

Lemma binding_kept_refl b : binding_kept b b.
Proof. constructor; try done. Qed.

Lemma binding_kept_trans b1 b2 b3 : binding_kept b1 b2 -> binding_kept b2 b3 -> binding_kept b1 b3.
Proof.
  intros [I1 L1 A1 S1] [I2 L2 A2 S2]. constructor.
  - destruct_and!. split_and!; congruence.
  - by eapply leases_extend_trans.
  - intros He. destruct (A1 He) as [? ?]. destruct A2 as [? ?]; [by rewrite L1|]. split; congruence.
  - intros Hs. destruct (S1 Hs) as (? & ? & ? & ? & ?). destruct S2 as (? & ? & ? & ? & ?); [done|]. split_and!; congruence.
Qed.

Lemma binding_move_kept b b' : binding_ok b -> binding_move b b' -> binding_kept b b'.
Proof.
  intros Hb Hm. destruct Hm as [phase inv Hs Ha Hi Hv Hl Hp|Ha|Ha|leases Hs Ha He Ho|leases allowed declared Hs Ha Hx He Ho|Ha|writes cur].
  - by constructor.
  - constructor; try done. intros Hs. by destruct (bo_active _ Hb Ha) as (_ & _ & _ & []).
  - destruct (bo_active _ Hb Ha) as (_ & _ & Hl & Hs). constructor; try done.
    intros q Hq. rewrite lease_set_active, lease_insert. destruct (decide _) as [->|]; congruence.
  - by constructor.
  - by constructor.
  - by constructor.
  - by constructor.
Qed.

Lemma binding_move_id b b' : binding_move b b' -> bd_ID b' = bd_ID b.
Proof. by intros []. Qed.

(** ** Changes are moves *)

Section with_runtime.
Context `{GR : GoRuntime}.

Lemma set_same_leases b : bd_set_PhaseLeases (bd_PhaseLeases b) b = b.
Proof. by destruct b. Qed.

(** Filling in missing completions, [done] being the phases handled. *)
Definition filled (target : Binding) (done : list string) (t : Binding) : Prop :=
  (exists leases, t = bd_set_PhaseLeases leases target) /\ leases_extend (lease_of target) (lease_of t) /\
  (forall q, q ∉ done -> lease_of t q = lease_of target q) /\ (forall q, q ∈ done -> lease_of t q <> "").

Lemma filled_start target : filled target [] target.
Proof. split_and!; [exists (bd_PhaseLeases target); by rewrite set_same_leases|done|done|by intros q ?%elem_of_nil]. Qed.

Lemma filled_keep target done t k : filled target done t -> lease_of t k <> "" -> filled target (done ++ [k]) t.
Proof.
  intros (H1 & H2 & H3 & H4) Hk. split_and!; [done|done| |].
  - intros q Hq. apply H3. intros ?. apply Hq, elem_of_app. by left.
  - intros q [Hq|Hq%list_elem_of_singleton]%elem_of_app; [auto|by subst q].
Qed.

Lemma filled_add target done t k v :
  filled target done t -> lease_of t k = "" -> v <> "" ->
  filled target (done ++ [k]) (bd_set_PhaseLeases (<[k := v]> (bd_PhaseLeases t)) t).
Proof.
  intros ([leases ->] & H2 & H3 & H4) Hk Hv. split_and!.
  - by eexists.
  - intros q Hq. rewrite lease_insert. destruct (decide _) as [->|]; [|by apply H2]. rewrite (H2 k Hq) in Hk. congruence.
  - intros q Hq. rewrite not_elem_of_app, not_elem_of_cons in Hq. destruct Hq as (Hq & Hne & _).
    rewrite lease_insert, decide_False by done. auto.
  - intros q Hq. rewrite lease_insert. destruct (decide _) as [->|]; [done|].
    apply elem_of_app in Hq as [?|?%list_elem_of_singleton]; auto.
Qed.

Lemma filled_order target done t : filled target done t -> phase_order (lease_of target) ->
  (PhaseExecute ∈ done -> PhasePlan ∈ done) -> PhaseVerify ∉ done -> phase_order (lease_of t).
Proof.
  intros (_ & H2 & H3 & H4) [He Hv] Hdone Hver. split.
  - intros Hx. destruct (decide (PhasePlan ∈ done)) as [Hp|Hp]; [by apply H4|].
    rewrite H3 in Hx by auto. rewrite H3 by done. auto.
  - rewrite (H3 PhaseVerify) by done. intros Hx%Hv. by rewrite H2.
Qed.

Lemma bindChange_move phase invocation b b' :
  invocation <> "" -> validPhase phase = true -> bindChange phase invocation b = Ok (Some b') -> binding_move b b'.
Proof.
  intros Hi Hv H. unfold bindChange in H. res_inv. case_match; [done|]. case_match; [by case_match|]. res_inv. bool_inv.
  simplify_eq. by apply move_bind.
Qed.

Lemma authorizeChange_move allowed declared b b' : binding_ok b ->
  authorizeChange allowed declared b = Ok (Some b') -> binding_move b b'.
Proof.
  intros Hb H. unfold authorizeChange in H. res_inv. case_match; [by case_match|]. case_match; [done|]. res_inv. bool_inv.
  simplify_eq. apply (move_authorize b (bd_PhaseLeases b) allowed declared); try done.
  rewrite set_same_leases. apply Hb.
Qed.

Lemma finishChange_move phase invocation complete b b' :
  invocation <> "" -> finishChange phase invocation complete b = Ok (Some b') -> binding_move b b'.
Proof.
  intros Hi H. unfold finishChange in H. case_match; [done|]. res_inv. bool_inv. simplify_eq. subst.
  destruct complete; [by apply move_complete|]. rewrite set_same_leases. by apply move_release.
Qed.

Lemma sealChange_move b b' : sealChange b = Ok (Some b') -> binding_move b b'.
Proof. intros H. unfold sealChange in H. case_match; [done|]. res_inv. bool_inv. simplify_eq. by apply move_seal. Qed.

Lemma refreshChange_move git b b' : refreshChange git b = Ok (Some b') -> binding_move b b'.
Proof. intros H. unfold refreshChange in H. res_inv. case_match; [done|]. simplify_eq. apply move_observe. Qed.

Lemma materialized_move head b : binding_move b (bd_set_CurrentRevision head b).
Proof.
  replace (bd_set_CurrentRevision head b) with (bd_set_CurrentRevision head (bd_set_ObservedWrites (bd_ObservedWrites b) b)) by (by destruct b).
  apply move_observe.
Qed.

(** The loops over prerequisites fill in completions of the source. *)
Lemma inheritOne_filled source target done t changed k t' changed' replaying :
  filled target done t -> inheritOne source replaying (t, changed) k = Ok (t', changed') ->
  filled target (done ++ [k]) t' /\ (replaying = true -> changed = false -> changed' = false).
Proof.
  intros Ht H. unfold inheritOne in H. res_inv. bool_inv. case_match; bool_inv.
  - case_match; [|done]. simplify_eq. split; [by apply filled_keep|done].
  - res_inv. simplify_eq. split; [by apply filled_add|]. by intros ->.
Qed.

Lemma inherit_loop source target replaying phases t changed :
  foldM (inheritOne source replaying) (target, false) phases = Ok (t, changed) ->
  filled target phases t /\ (replaying = true -> changed = false).
Proof.
  intros H. pose (P := fun (acc : Binding * bool) done => filled target done acc.1 /\ (replaying = true -> acc.2 = false)).
  apply (foldM_Ok_ind P) in H; [done| |].
  - by split; [apply filled_start|].
  - intros l1 k l2 [t1 c1] [t2 c2] _ [Hf Hc] Hk. destruct (inheritOne_filled source target l1 t1 c1 k t2 c2 replaying Hf Hk) as [Hf' Hc'].
    split; [done|]. intros Hr. by apply Hc', Hc.
Qed.

Lemma merged_loop target (entries : list (string * InvocationID)) t changed :
  (forall k v, (k, v) ∈ entries -> v <> "") ->
  foldM inheritMergedOne (target, false) entries = Ok (t, changed) -> filled target entries.*1 t.
Proof.
  intros Hv H. pose (P := fun (acc : Binding * bool) (done : list (string * InvocationID)) => filled target done.*1 acc.1).
  apply (foldM_Ok_ind P) in H; [done| |].
  - apply filled_start.
  - intros l1 [k v] l2 [t1 c1] [t2 c2] Hl Hf Hk. unfold P in *. rewrite fmap_app. simpl. unfold inheritMergedOne in Hk.
    assert (v <> "") by (apply (Hv k); rewrite Hl, elem_of_app, elem_of_cons; auto). case_match; bool_inv.
    + case_match; [|done]. simplify_eq. by apply filled_keep.
    + simplify_eq. by apply filled_add.
Qed.

(** A filled binding is a move when something was filled in. *)
Lemma filled_move target done t : binding_ok target -> filled target done t ->
  bd_Status target <> StatusSealed -> bd_ActiveInvocation target = "" ->
  (PhaseExecute ∈ done -> PhasePlan ∈ done) -> PhaseVerify ∉ done -> binding_move target t.
Proof.
  intros Hb Hf Hs Ha Hdone Hver. pose proof (filled_order _ _ _ Hf (bo_order _ Hb) Hdone Hver) as Ho.
  destruct Hf as ([leases ->] & H2 & _ & _). by apply move_inherit.
Qed.

Lemma inheritChange_move source phase replay target t : binding_ok target ->
  inheritChange source phase replay target = Ok (Some t) -> binding_move target t.
Proof.
  intros Hb H. unfold inheritChange, unless_unchanged in H. res_inv. bool_inv.
  match goal with H : foldM _ _ _ = Ok ?acc |- _ => destruct acc as [t1 [|]]; [|done]; apply inherit_loop in H as [Hf Hr] end.
  simpl in *. simplify_eq. assert (bd_ActiveInvocation target = "") as Ha.
  { destruct (decide (bd_ActiveInvocation target = "")) as [?|Hne]; [done|].
    rewrite bool_decide_eq_true_2 in Hr by done. by specialize (Hr eq_refl). }
  eapply filled_move; [done|exact Hf|done|done|..]; unfold phasePrerequisites;
    repeat case_bool_decide; rewrite ?elem_of_cons, ?elem_of_nil; naive_solver.
Qed.

Lemma inheritPlanChange_move source target t : binding_ok target -> lease_of source PhasePlan <> "" ->
  inheritPlanChange source target = Ok (Some t) -> binding_move target t.
Proof.
  intros Hb Hp H. unfold inheritPlanChange in H. res_inv. bool_inv.
  match goal with H : (if _ then _ else _) = Ok ?acc |- _ => destruct acc as [t1 changed]; rename H into Hacc end.
  assert (filled target [PhasePlan] t1) as Hf.
  { destruct (bool_decide (lease_of target PhasePlan <> "")) eqn:Hbd; res_inv; bool_inv; simplify_eq.
    - by apply (filled_keep _ []); [apply filled_start|].
    - by apply (filled_add _ []); [apply filled_start| |]. }
  pose proof (filled_move target [PhasePlan] t1 Hb Hf) as Hm. pose proof (filled_order _ _ _ Hf (bo_order _ Hb)) as Ho.
  assert (PhaseExecute ∈ [PhasePlan] -> PhasePlan ∈ [PhasePlan]) as Hd by set_solver.
  assert (PhaseVerify ∉ [PhasePlan]) as Hv by (rewrite elem_of_cons, elem_of_nil; naive_solver).
  case_match; [|destruct changed; simplify_eq; auto]. simplify_eq.
  destruct Hf as ([leases ->] & Hext & _ & _).
  apply (move_authorize target leases (bd_AllowedDirs source) (bd_DeclaredWrites source)); auto.
Qed.

Lemma inheritMergedChange_move source target t : binding_ok target ->
  lease_of source PhasePlan <> "" -> lease_of source PhaseExecute <> "" ->
  inheritMergedChange source target = Ok (Some t) -> binding_move target t.
Proof.
  intros Hb Hp He H. unfold inheritMergedChange, unless_unchanged in H. res_inv. bool_inv.
  match goal with H : foldM _ _ _ = Ok ?acc |- _ => destruct acc as [t1 [|]]; [|done]; apply merged_loop in H as Hf end.
  2: { intros k v Hkv%elem_of_range_map. apply lookup_insert_Some in Hkv as [[_ <-]|[_ [_ <-]%lookup_singleton_Some]]; done. }
  simpl in *. simplify_eq. eapply filled_move; [done|exact Hf|done|done|..].
  - intros _. change (PhasePlan ∈ range_keys (<[PhasePlan:=lease_of source PhasePlan]> {[PhaseExecute:=lease_of source PhaseExecute]} : gmap string InvocationID)).
    apply elem_of_range_keys. by rewrite lookup_insert_eq.
  - change (PhaseVerify ∉ range_keys (<[PhasePlan:=lease_of source PhasePlan]> {[PhaseExecute:=lease_of source PhaseExecute]} : gmap string InvocationID)).
    rewrite elem_of_range_keys. rewrite lookup_insert_ne, lookup_singleton_ne by done. by intros [].
Qed.

Lemma service_change_move sources b b' : binding_ok b -> service_change sources b b' -> binding_move b b'.
Proof.
  intros Hb [phase inv x|lower declared allowed normalized x|phase inv complete x|x|git x|source phase replay x|source x|source x|head].
  - intros. by eapply bindChange_move.
  - intros. by eapply authorizeChange_move.
  - intros. by eapply finishChange_move.
  - intros. by eapply sealChange_move.
  - intros. by eapply refreshChange_move.
  - intros. by eapply inheritChange_move.
  - intros. by eapply inheritPlanChange_move.
  - intros. by eapply inheritMergedChange_move.
  - apply materialized_move.
Qed.

End with_runtime.

(** * Workspace bindings: reachable stores

    Events keep the invariant of the store, and every step of an interleaving
    stores nothing or performs one event on the current version of a binding. *)

Lemma fresh_binding_ok b : fresh_binding b -> binding_ok b.
Proof.
  intros (_ & Hl & Hp & Ha & Hs). constructor; [|done|by rewrite Ha|rewrite Hs; set_solver].
  unfold phase_order, lease_of. by rewrite Hl, !lookup_empty.
Qed.

Lemma ws_inv_new : ws_inv NewWsStore.
Proof. constructor; intros *; simpl; by rewrite ?lookup_empty. Qed.

(** Replacing a binding by a later version of itself. *)
Lemma ws_inv_update s b b' :
  ws_inv s -> st_bindings s !! bd_ID b = Some b -> bd_ID b' = bd_ID b -> bd_TaskID b' = bd_TaskID b ->
  bd_Generation b' = bd_Generation b -> binding_ok b' ->
  (forall id x, st_bindings s !! id = Some x -> id <> bd_ID b -> bd_ActiveInvocation b' <> "" ->
     bd_ActiveInvocation x <> bd_ActiveInvocation b') ->
  ws_inv (st_set_bindings (<[bd_ID b := b']> (st_bindings s)) s).
Proof.
  intros [H1 H2 H3] Hb Hid Ht Hg Hok Hex. destruct (H1 _ _ Hb) as (_ & _ & Hround). constructor; simpl.
  - intros id x [[<- <-]|[Hne Hx]]%lookup_insert_Some; [|auto]. rewrite Ht, Hg. auto.
  - intros key id Hkey. destruct (H2 key id Hkey) as (x & Hx & Hk). destruct (decide (id = bd_ID b)) as [->|Hne].
    + exists b'. rewrite lookup_insert_eq, Ht, Hg. split; [done|]. congruence.
    + exists x. by rewrite lookup_insert_ne.
  - intros id1 id2 b1 b2 [[<- <-]|[Hn1 Hb1]]%lookup_insert_Some [[<- <-]|[Hn2 Hb2]]%lookup_insert_Some Ha Heq;
      [done| | |by eapply H3].
    + exfalso. by eapply (Hex id2 b2).
    + exfalso. eapply (Hex id1 b1); [done|done| |done]. by rewrite <- Heq.
Qed.

Lemma ws_event_inv s s' : ws_inv s -> ws_event s s' -> ws_inv s'.
Proof.
  intros Hs [b Hfresh Hid Hround|b b' Hb Hm Hex|c].
  - pose proof Hs as [H1 H2 H3]. assert (forall id x, st_bindings s !! id = Some x -> id <> bd_ID b) as Hne by congruence.
    assert (bd_ActiveInvocation b = "") as Ha by apply Hfresh. constructor; simpl.
    + intros id x [[<- <-]|[_ Hx]]%lookup_insert_Some.
      { split_and!; [done|by apply fresh_binding_ok|by rewrite lookup_insert_eq]. }
      destruct (H1 _ _ Hx) as (? & ? & Hr). split_and!; [done|done|]. rewrite lookup_insert_ne; [done|]. congruence.
    + intros key id [[<- <-]|[_ Hkey]]%lookup_insert_Some; [exists b; by rewrite lookup_insert_eq|].
      destruct (H2 key id Hkey) as (x & Hx & Hk). exists x. rewrite lookup_insert_ne; [done|]. intros <-. congruence.
    + intros id1 id2 b1 b2 [[<- <-]|[_ Hb1]]%lookup_insert_Some [[<- <-]|[_ Hb2]]%lookup_insert_Some Hx Heq; [done|..|by eapply H3];
        congruence.
  - destruct (wi_bindings _ Hs _ _ Hb) as (_ & Hok & _). destruct (bk_id _ _ (binding_move_kept b b' Hok Hm)) as (H1 & H2 & H3 & _).
    apply (ws_inv_update s b); try done. by apply binding_ok_revision, (binding_move_ok b).
  - by destruct Hs.
Qed.

Section with_runtime.
Context `{GR : GoRuntime}.

Lemma boundElsewhere_false s next : boundElsewhere s next = false <->
  forall id x, st_bindings s !! id = Some x -> id <> bd_ID next -> bd_ActiveInvocation next <> "" ->
    bd_ActiveInvocation x <> bd_ActiveInvocation next.
Proof.
  unfold boundElsewhere. rewrite existsb_elem_false. split.
  - intros H id x Hx Hid Ha Heq. specialize (H (id, x)). rewrite elem_of_range_map in H. specialize (H Hx). simpl in H.
    by rewrite !bool_decide_eq_true_2 in H by done.
  - intros H [id x] Hx%elem_of_range_map. simpl. repeat case_bool_decide; simpl; try done. exfalso. by eapply H.
Qed.

(** Compare-and-swap: the store is unchanged, or the current version is replaced. *)
Lemma UpdateCAS_cases b' expected s :
  (UpdateCAS None b' expected s).2 = s \/
  exists current, st_bindings s !! bd_ID b' = Some current /\ expected = bd_Revision current /\
    boundElsewhere s b' = false /\
    UpdateCAS None b' expected s = (Ok (bd_set_Revision (Revision_Next (bd_Revision current)) b'),
      st_set_bindings (<[bd_ID b' := bd_set_Revision (Revision_Next (bd_Revision current)) b']> (st_bindings s)) s).
Proof.
  unfold UpdateCAS, mbind, M_bind, lift, get_state, put_state, mret, M_ret. simpl.
  destruct (st_bindings s !! bd_ID b') as [current|] eqn:Hcur; [|by left].
  destruct (CheckExpectedRevision expected (bd_Revision current)) as [u|e] eqn:Hrev; [|by left].
  apply CheckExpectedRevision_Ok in Hrev as [Hrev _]. destruct (boundElsewhere s b') eqn:Hbound; simpl; [by left|].
  right. exists current. by split_and!.
Qed.

Lemma Insert_cases b s :
  (Insert None b s).2 = s \/
  (st_bindings s !! bd_ID b = None /\ st_byRound s !! (bd_TaskID b, bd_Generation b) = None /\
   Insert None b s = (Ok tt, mkWsStore (<[bd_ID b := b]> (st_bindings s))
     (<[(bd_TaskID b, bd_Generation b) := bd_ID b]> (st_byRound s)) (st_git s))).
Proof.
  unfold Insert, mbind, M_bind, lift, get_state, put_state. simpl. case_bool_decide as H1; simpl; [by left|].
  case_bool_decide as H2; simpl; [by left|]. right. rewrite <- !eq_None_not_Some in *. done.
Qed.

(** ** Steps are events *)

Lemma config_inv_start : config_inv 0 ws_start.
Proof. constructor; simpl; [apply ws_inv_new| |done|by intros ? ? ?%elem_of_nil]. intros id b. by rewrite lookup_empty. Qed.

Lemma config_inv_more n c : config_inv n c -> config_inv (S n) c.
Proof. intros [H1 H2 H3 H4]. constructor; try done. intros id b Hb%H2. lia. Qed.

Lemma config_inv_drop n c b rest : config_inv n c -> wc_pending c ≡ₚ b :: rest ->
  config_inv n (mkWsConfig (wc_store c) (wc_sources c) rest).
Proof. intros [H1 H2 H3 H4] Hp. constructor; simpl; try done. intros x y Hxy. apply H4. rewrite Hp. by right. Qed.

(** The stored binding replaced by a newer version. *)
Lemma config_inv_commit n c b b' rest : few n -> config_inv n c -> wc_pending c ≡ₚ (b, b') :: rest ->
  let s' := (UpdateCAS None b' (bd_Revision b) (wc_store c)).2 in
  config_inv (S n) (mkWsConfig s' (wc_sources c) rest) /\ (s' = wc_store c \/ ws_event (wc_store c) s').
Proof.
  intros Hfew Hinv Hp s'. assert ((b, b') ∈ wc_pending c) as Hin by (rewrite Hp; by left).
  destruct (ci_pending _ _ Hinv _ _ Hin) as (Hok & Hm & cur & Hcur & Hle & Hsame).
  pose proof (binding_move_id _ _ Hm) as Hid. destruct (UpdateCAS_cases b' (bd_Revision b) (wc_store c)) as [Heq|Hrun].
  { subst s'. rewrite Heq. split; [|by left]. apply config_inv_more. by eapply config_inv_drop. }
  destruct Hrun as (cur' & Hcur' & Hrev & Hbound & Hrun). rewrite Hid, Hcur in Hcur'. injection Hcur' as <-.
  specialize (Hsame Hrev). subst cur. clear Hrev Hle.
  assert (ws_event (wc_store c) s') as Hev.
  { subst s'. rewrite Hrun, Hid. apply (ev_update (wc_store c) b b'); [done|done|]. intros id x Hx Hne Ha.
    apply boundElsewhere_false with (id := id) (x := x) in Hbound; try done. by rewrite Hid. }
  split; [|by right]. pose proof (ci_revisions _ _ Hinv _ _ Hcur) as Hr.
  assert (Revision_Next (bd_Revision b) = bd_Revision b + 1)%Z as Hnext.
  { unfold Revision_Next. apply uint64_wrap_id. unfold few in Hfew. unfold is_uint64. lia. }
  subst s'. rewrite Hrun, Hid, Hnext in *. simpl in *. constructor; simpl.
  - by eapply ws_event_inv; [apply Hinv|].
  - intros id x [[<- <-]|[_ Hx%(ci_revisions _ _ Hinv)]]%lookup_insert_Some; simpl; lia.
  - apply Hinv.
  - intros x y Hxy. destruct (ci_pending _ _ Hinv x y) as (H1 & H2 & curx & Hcurx & Hlex & Hsamex); [rewrite Hp; by right|].
    split_and!; [done|done|]. destruct (decide (bd_ID x = bd_ID b)) as [Hxb|Hxb].
    + exists (bd_set_Revision (bd_Revision b + 1) b'). rewrite Hxb, lookup_insert_eq. rewrite Hxb, Hcur in Hcurx. simplify_eq.
      simpl. split_and!; [done|lia|lia].
    + exists curx. by rewrite lookup_insert_ne.
Qed.

Lemma config_inv_insert n c b : fresh_binding b -> config_inv n c ->
  let s' := (Insert None b (wc_store c)).2 in
  config_inv (S n) (mkWsConfig s' (wc_sources c) (wc_pending c)) /\ (s' = wc_store c \/ ws_event (wc_store c) s').
Proof.
  intros Hfresh Hinv s'. destruct (Insert_cases b (wc_store c)) as [Heq|(Hid & Hround & Hrun)].
  { subst s'. rewrite Heq. split; [|by left]. apply config_inv_more. by destruct c. }
  assert (ws_event (wc_store c) s') as Hev by (subst s'; rewrite Hrun; by apply ev_insert). split; [|by right].
  subst s'. rewrite Hrun in *. simpl in *. constructor; simpl.
  - by eapply ws_event_inv; [apply Hinv|].
  - intros id x [[<- <-]|[_ Hx%(ci_revisions _ _ Hinv)]]%lookup_insert_Some; simpl; [|lia]. destruct Hfresh as [-> _]. lia.
  - apply Hinv.
  - intros x y Hxy. destruct (ci_pending _ _ Hinv x y Hxy) as (H1 & H2 & cur & Hcur & H3 & H4). split_and!; [done|done|].
    exists cur. rewrite lookup_insert_ne; [done|]. congruence.
Qed.

Lemma config_inv_step n c c' : few n -> config_inv n c -> ws_step c c' ->
  config_inv (S n) c' /\ (wc_store c' = wc_store c \/ ws_event (wc_store c) (wc_store c')).
Proof.
  intros Hfew Hinv [id b Hb|id b b' Hb Hch|b b' rest Hp|b b' rest Hp|b Hfresh|call].
  - split; [|by left]. apply config_inv_more. destruct (wi_bindings _ (ci_store _ _ Hinv) _ _ Hb) as (_ & Hok & _).
    destruct Hinv as [H1 H2 H3 H4]. constructor; simpl; try done. by constructor.
  - split; [|by left]. apply config_inv_more. destruct (wi_bindings _ (ci_store _ _ Hinv) _ _ Hb) as (Hid & Hok & _).
    pose proof (service_change_move _ _ _ Hok Hch) as Hm. destruct Hinv as [H1 H2 H3 H4]. constructor; simpl; try done.
    intros x y [Hxy|Hxy]%elem_of_cons; [|by apply H4]. simplify_eq. split_and!; [done|done|]. exists b. by split_and!.
  - by apply config_inv_commit.
  - split; [|by left]. apply config_inv_more. by eapply config_inv_drop.
  - by apply config_inv_insert.
  - split; [|right; simpl; apply ev_git]. apply config_inv_more. destruct Hinv as [H1 H2 H3 H4]. constructor; simpl; try done.
    by eapply ws_event_inv; [|apply ev_git].
Qed.

Lemma few_S n : few (S n) -> few n.
Proof. unfold few. lia. Qed.

Lemma ws_reachable_inv n c : few n -> ws_reachable n c -> config_inv n c.
Proof.
  intros Hfew Hr. unfold ws_reachable in Hr. revert c Hfew Hr. induction n as [|n IH]; intros c Hfew Hr.
  - inversion Hr; subst. apply config_inv_start.
  - apply nsteps_inv_r in Hr as (c1 & Hr & Hstep). by eapply config_inv_step; [apply few_S|apply IH; [apply few_S|]|].
Qed.

(** ** Calls are steps

    Run without interruption, a call of the service is a sequence of steps. *)

Definition runs_at {A} (m : M error WsStore A) (s : WsStore) : Prop := forall sources pending, exists sources',
  rtc ws_step (mkWsConfig s sources pending) (mkWsConfig (m s).2 sources' pending).

Definition runs {A} (m : M error WsStore A) : Prop := forall s, runs_at m s.

Lemma runs_readonly {A} (m : M error WsStore A) : readonly m -> runs m.
Proof. intros Hm s sources pending. exists sources. rewrite Hm. apply rtc_refl. Qed.

Lemma runs_bind {A B} (m : M error WsStore A) (k : A -> M error WsStore B) : runs m -> (forall a, runs (k a)) -> runs (m ≫= k).
Proof.
  intros Hm Hk s sources pending. destruct (Hm s sources pending) as [src1 H1]. unfold mbind, M_bind.
  destruct (m s) as [[a|e] s1]; [|by exists src1]. destruct (Hk a s1 src1 pending) as [src2 H2]. exists src2. by etrans.
Qed.

Lemma runs_guard {A B} (r : res A) (k : A -> M error WsStore B) : (forall a, r = Ok a -> runs (k a)) -> runs (lift r ≫= k).
Proof.
  intros Hk s sources pending. unfold mbind, M_bind, lift. destruct r as [a|e]; [by apply Hk|]. exists sources. apply rtc_refl.
Qed.

Lemma runs_catch {A} (m : M error WsStore A) h : runs m -> (forall e, runs (h e)) -> runs (catch m h).
Proof.
  intros Hm Hh s sources pending. destruct (Hm s sources pending) as [src1 H1]. unfold catch.
  destruct (m s) as [[a|e] s1]; [by exists src1|]. destruct (Hh e s1 src1 pending) as [src2 H2]. exists src2. by etrans.
Qed.

Lemma runs_log call : runs (modify (E := error) (st_log call)).
Proof. intros s sources pending. exists sources. apply rtc_once. apply (step_git (mkWsConfig s sources pending)). Qed.

Lemma readonly_Get ctx id : readonly (Get ctx id).
Proof. intros s. unfold Get, mbind, M_bind, lift, get_state. by destruct (ctx_Err ctx); simpl; [destruct (_ !! _)|]. Qed.
Lemma readonly_GetByRound ctx t g : readonly (GetByRound ctx t g).
Proof. intros s. unfold GetByRound, mbind, M_bind, lift, get_state. by destruct (ctx_Err ctx); simpl; [destruct (_ !! _)|]. Qed.
Lemma readonly_GetByInvocation ctx i : readonly (GetByInvocation ctx i).
Proof. intros s. unfold GetByInvocation, mbind, M_bind, lift, get_state. by destruct (ctx_Err ctx). Qed.

(** Storing a change of a binding that is in the store. *)
Lemma cas_steps ctx s sources pending id b b' :
  st_bindings s !! id = Some b -> service_change sources b b' ->
  rtc ws_step (mkWsConfig s sources pending) (mkWsConfig (UpdateCAS ctx b' (bd_Revision b) s).2 sources pending).
Proof.
  intros Hb Hch. destruct ctx as [e|]; [apply rtc_refl|].
  eapply rtc_l; [by apply (step_read (mkWsConfig s sources pending) id b b')|]. simpl.
  eapply rtc_once, (step_commit (mkWsConfig s sources ((b, b') :: pending)) b b' pending). done.
Qed.

Lemma mutate_steps ctx id expected (f : Change) s sources pending :
  (forall b b', st_bindings s !! id = Some b -> f b = Ok (Some b') -> service_change sources b b') ->
  rtc ws_step (mkWsConfig s sources pending) (mkWsConfig (mutate ctx id expected f s).2 sources pending).
Proof.
  intros Hf. unfold mutate, WithLock, commitChange, mbind, M_bind, lift. destruct (fail_if _ _); [|apply rtc_refl].
  destruct (ctx_Err ctx) as [[]|e] eqn:Hctx; [|apply rtc_refl]. unfold Get, mbind, M_bind, lift, get_state. rewrite Hctx.
  destruct (st_bindings s !! id) as [b|] eqn:Hb; [|apply rtc_refl]. simpl. destruct (f b) as [[b'|]|e] eqn:Hfb; try apply rtc_refl.
  destruct (CheckExpectedRevision _ _) as [u|e] eqn:Hrev; [|apply rtc_refl]. apply CheckExpectedRevision_Ok in Hrev as [-> _].
  apply (cas_steps ctx s sources pending id b b'); auto.
Qed.

Lemma runs_mutate ctx id expected (f : Change) :
  (forall sources b b', f b = Ok (Some b') -> service_change sources b b') -> runs (mutate ctx id expected f).
Proof. intros Hf s sources pending. exists sources. apply mutate_steps. intros b b' _. apply Hf. Qed.

(** A mutation that looks at a source binding first. *)
Lemma runs_inherit {A} ctx targetID sourceID busy (k : Binding -> M error WsStore A) :
  (forall source s sources pending, source ∈ sources ->
     rtc ws_step (mkWsConfig s sources pending) (mkWsConfig (k source s).2 sources pending)) ->
  runs (inheritSource ctx targetID sourceID busy ≫= k).
Proof.
  intros Hk s sources pending. unfold inheritSource, Get, mbind, M_bind, lift, get_state, mret, M_ret.
  destruct (fail_if _ _); [|exists sources; apply rtc_refl]. destruct (ctx_Err ctx); [|exists sources; apply rtc_refl].
  destruct (st_bindings s !! sourceID) as [b|] eqn:Hb; [|exists sources; apply rtc_refl]. simpl.
  destruct (fail_if _ _); [|exists sources; apply rtc_refl]. exists (b :: sources).
  eapply rtc_l; [by apply (step_source (mkWsConfig s sources pending) sourceID b)|]. simpl. apply Hk. by left.
Qed.

(** ** The calls *)

Lemma runs_lock {A} ctx (m : M error WsStore A) : runs m -> runs (WithLock ctx m).
Proof. intros Hm. by do 2 (apply runs_guard; intros ? _). Qed.

Lemma BindPhase_runs ctx id phase invocation expected : runs (BindPhase ctx id phase invocation expected).
Proof.
  do 2 (apply runs_guard; intros ? ?). res_inv. bool_inv. apply runs_mutate. intros. by eapply sc_bind.
Qed.

Lemma AuthorizeExecuteWrites_runs lower ctx id declared expected : runs (AuthorizeExecuteWrites lower ctx id declared expected).
Proof. do 2 (apply runs_guard; intros ? ?). apply runs_mutate. intros. by eapply sc_authorize. Qed.

Lemma finish_runs ctx id phase invocation expected complete : runs (finishPhaseLease ctx id phase invocation expected complete).
Proof. do 2 (apply runs_guard; intros ? ?). res_inv. bool_inv. apply runs_mutate. intros. by eapply sc_finish. Qed.

Lemma Seal_runs ctx id expected : runs (Seal ctx id expected).
Proof. apply runs_mutate. intros. by apply sc_seal. Qed.

Lemma RefreshObservedWrites_runs git ctx id expected : runs (RefreshObservedWrites git ctx id expected).
Proof. apply runs_mutate. intros. by eapply sc_refresh. Qed.

Lemma InheritPhasePrerequisites_runs ctx target source phase active : runs (InheritPhasePrerequisites ctx target source phase active).
Proof.
  do 3 (apply runs_guard; intros ? ?). res_inv. bool_inv. apply runs_inherit. intros b s sources pending Hin.
  apply mutate_steps. intros. by eapply sc_inherit.
Qed.

Lemma steps_guard {A B} (r : res A) (k : A -> M error WsStore B) s sources pending :
  (forall a, r = Ok a -> rtc ws_step (mkWsConfig s sources pending) (mkWsConfig (k a s).2 sources pending)) ->
  rtc ws_step (mkWsConfig s sources pending) (mkWsConfig ((lift r ≫= k) s).2 sources pending).
Proof. intros Hk. unfold mbind, M_bind, lift. destruct r; [by apply Hk|apply rtc_refl]. Qed.

Lemma InheritPlanPrerequisite_runs ctx target source : runs (InheritPlanPrerequisite ctx target source).
Proof.
  apply runs_inherit. intros b s sources pending Hin. apply steps_guard. intros ? ?. res_inv. bool_inv.
  apply mutate_steps. intros. by eapply sc_inherit_plan.
Qed.

Lemma InheritMergedVerifyPrerequisites_runs ctx target source : runs (InheritMergedVerifyPrerequisites ctx target source).
Proof.
  apply runs_inherit. intros b s sources pending Hin. apply steps_guard. intros ? ?. res_inv. bool_inv.
  apply mutate_steps. intros. by eapply sc_inherit_merged.
Qed.

(** A stored binding whose repository moved on. *)
Lemma materialized_steps ctx git id b s sources pending : st_bindings s !! id = Some b ->
  rtc ws_step (mkWsConfig s sources pending)
    (mkWsConfig ((materialized ← materializeCall git b;
                  if bool_decide (mt_Head materialized <> bd_CurrentRevision b)
                  then UpdateCAS ctx (bd_set_CurrentRevision (mt_Head materialized) b) (bd_Revision b)
                  else mret b) s).2 sources pending).
Proof.
  intros Hb. unfold materializeCall, mbind, M_bind, modify, lift. simpl.
  eapply rtc_l; [apply (step_git _ (CallMaterialize b))|]. simpl. destruct (gb_Materialize git b) as [mt|e]; [|apply rtc_refl].
  case_bool_decide; [|apply rtc_refl]. eapply cas_steps; [exact Hb|apply sc_materialized].
Qed.

Lemma Get_run ctx id s : Get ctx id s =
  match ctx with
  | Some e => (Err e, s)
  | None => match st_bindings s !! id with Some b => (Ok b, s) | None => (Err workspaceNotFound, s) end
  end.
Proof. destruct ctx; [done|]. unfold Get, mbind, M_bind, lift, get_state. simpl. by destruct (_ !! _). Qed.

Lemma GetByRound_run ctx task generation s : GetByRound ctx task generation s =
  match ctx with
  | Some e => (Err e, s)
  | None => (Ok (id ← st_byRound s !! (task, generation); Some (default zeroBinding (st_bindings s !! id))), s)
  end.
Proof. destruct ctx; [done|]. unfold GetByRound, mbind at 1 2, M_bind, lift, get_state. simpl. by destruct (st_byRound s !! _). Qed.

Lemma bind_run {A B} (m : M error WsStore A) (k : A -> M error WsStore B) s :
  (m ≫= k) s = match m s with (Ok a, s1) => k a s1 | (Err e, s1) => (Err e, s1) end.
Proof. done. Qed.

Lemma guard_run {A B} (r : res A) (k : A -> M error WsStore B) s :
  (lift r ≫= k) s = match r with Ok a => k a s | Err e => (Err e, s) end.
Proof. by destruct r. Qed.

Lemma Materialize_runs git ctx id : runs (Materialize git ctx id).
Proof.
  apply runs_lock. intros s sources pending. exists sources. rewrite bind_run, Get_run.
  destruct ctx as [e|]; [apply rtc_refl|]. destruct (st_bindings s !! id) as [b|] eqn:Hb; [|apply rtc_refl].
  by eapply materialized_steps.
Qed.

Lemma refreshLocked_runs git ctx invocation : runs (withInvocation ctx invocation (refreshLocked git ctx)).
Proof.
  apply runs_guard. intros ? ?. apply runs_bind; [apply runs_readonly, readonly_GetByInvocation|]. intros [b|]; [|by apply runs_readonly].
  apply runs_lock. intros s sources pending. exists sources. unfold GetByInvocation, mbind, M_bind, lift, get_state, mret, M_ret.
  destruct (ctx_Err ctx); [|apply rtc_refl]. simpl.
  destruct (list_find _ (range_values (st_bindings s))) as [[i cur]|] eqn:Hfind; [|apply rtc_refl]. simpl.
  apply list_find_Some in Hfind as (Hcur%list_elem_of_lookup_2 & _ & _). apply elem_of_range_values in Hcur as [id Hcur].
  destruct (fail_if (_ || _) _); [|apply rtc_refl]. unfold refreshLocked, mbind, M_bind, lift.
  destruct (refreshChange git cur) as [[b'|]|e] eqn:Hch; [|apply rtc_refl..]. eapply cas_steps; [exact Hcur|by eapply sc_refresh].
Qed.

Lemma newBinding_fresh lower digests req repo parent base allowed declared head :
  fresh_binding (bd_set_CurrentRevision head (newBinding lower digests req repo parent base allowed declared)).
Proof. unfold newBinding. by destruct (bindingIdentity _ _ _ _). Qed.

Lemma Insert_runs ctx b : fresh_binding b -> runs (Insert ctx b).
Proof.
  intros Hb s sources pending. exists sources. destruct ctx as [e|]; [apply rtc_refl|]. apply rtc_once.
  by apply (step_insert (mkWsConfig s sources pending)).
Qed.

Lemma rollback_runs {A} git b mt cause : runs (rollback (A := A) git b mt cause).
Proof. apply runs_bind; [apply runs_log|]. intros _. destruct (gb_Remove git b mt); by apply runs_readonly. Qed.

Lemma createNew_runs lower digests git ctx req repo parent allowed declared :
  runs (createNew lower digests git ctx req repo parent allowed declared).
Proof.
  apply runs_guard. intros base _. apply runs_bind; [apply runs_bind; [apply runs_log|intros; by apply runs_readonly]|]. intros mt.
  assert (runs (catch (_ ← Insert ctx (bd_set_CurrentRevision (mt_Head mt) (newBinding lower digests req repo parent base allowed declared));
                       mret (bd_set_CurrentRevision (mt_Head mt) (newBinding lower digests req repo parent base allowed declared)))
                  (rollback git (bd_set_CurrentRevision (mt_Head mt) (newBinding lower digests req repo parent base allowed declared)) mt))) as Hins.
  { apply runs_catch; [|intros; apply rollback_runs]. apply runs_bind; [apply Insert_runs, newBinding_fresh|intros; by apply runs_readonly]. }
  destruct (cw_AfterWorktreeAdd req) as [[u|e]|]; [done|apply rollback_runs|done].
Qed.

(** Creating relies on the rounds of the store pointing at bindings. *)
Lemma runs_at_guard {A B} (r : res A) (k : A -> M error WsStore B) s :
  (forall a, r = Ok a -> runs_at (k a) s) -> runs_at (lift r ≫= k) s.
Proof.
  intros Hk sources pending. unfold mbind, M_bind, lift. destruct r as [a|e]; [by apply Hk|]. exists sources. apply rtc_refl.
Qed.

Lemma CreateGitWorktree_runs lower digests host git ctx req s :
  ws_inv s -> runs_at (CreateGitWorktree lower digests host git ctx req) s.
Proof.
  intros Hs. unfold CreateGitWorktree, WithLock. do 9 (apply runs_at_guard; intros ? _). intros sources pending.
  rewrite bind_run, GetByRound_run. destruct ctx as [e|]; [exists sources; apply rtc_refl|].
  destruct (st_byRound s !! _) as [id|] eqn:Hround; simpl; [|apply createNew_runs].
  destruct (wi_rounds _ Hs _ _ Hround) as (b & Hb & _). rewrite Hb. simpl. exists sources. unfold recreate.
  do 2 (apply steps_guard; intros ? _). by eapply materialized_steps.
Qed.

(** ** Binding a phase *)

(** Both ends of the call for a stored binding. *)
Lemma UpdateCAS_ok s b b' : st_bindings s !! bd_ID b' = Some b -> (1 <= bd_Revision b)%Z ->
  is_ok (UpdateCAS None b' (bd_Revision b) s).1 = negb (boundElsewhere s b').
Proof.
  intros Hb Hrev. unfold UpdateCAS. rewrite !bind_run. simpl. rewrite bind_run. simpl. rewrite Hb.
  assert (CheckExpectedRevision (bd_Revision b) (bd_Revision b) = Ok tt) as Hck.
  { apply CheckExpectedRevision_Ok. split; [done|]. unfold LatestRevision. lia. }
  rewrite bind_run. unfold lift at 1. rewrite Hck, bind_run. by destruct (boundElsewhere s b').
Qed.

(** A compare-and-swap that succeeds replaces the version it expects. *)
Lemma UpdateCAS_success s b' expected cur r s' : UpdateCAS None b' expected s = (Ok r, s') ->
  st_bindings s !! bd_ID b' = Some cur -> expected = bd_Revision cur /\ boundElsewhere s b' = false /\
  r = bd_set_Revision (Revision_Next (bd_Revision cur)) b' /\
  s' = st_set_bindings (<[bd_ID b' := bd_set_Revision (Revision_Next (bd_Revision cur)) b']> (st_bindings s)) s.
Proof.
  intros H Hb. unfold UpdateCAS in H. rewrite !bind_run in H. simpl in H. rewrite bind_run in H. simpl in H. rewrite Hb in H.
  rewrite bind_run in H. unfold lift at 1 in H. destruct (CheckExpectedRevision _ _) eqn:Hrev; [|done].
  apply CheckExpectedRevision_Ok in Hrev as [Hrev _].
  rewrite bind_run in H. destruct (boundElsewhere s b'); [done|]. simpl in H. by injection H as <- <-.
Qed.

Lemma mutate_ok s id b (f : Change) :
  st_bindings s !! id = Some b -> bd_ID b = id -> id <> "" -> (1 <= bd_Revision b)%Z ->
  (forall b', f b = Ok (Some b') -> bd_ID b' = bd_ID b) ->
  is_ok (mutate None id LatestRevision f s).1 =
  match f b with Ok None => true | Ok (Some b') => negb (boundElsewhere s b') | Err _ => false end.
Proof.
  intros Hb Hbid Hid Hrev Hf. unfold mutate, WithLock, commitChange. rewrite (bool_decide_eq_false_2 (id = "")) by done.
  rewrite !bind_run. simpl. rewrite !bind_run. simpl. rewrite bind_run. simpl. rewrite bind_run, Get_run, Hb, bind_run. unfold lift at 1.
  destruct (f b) as [[b'|]|e] eqn:Hfb; [|done..]. specialize (Hf b' eq_refl).
  assert (CheckExpectedRevision (bd_Revision b) (bd_Revision b) = Ok tt) as Hck.
  { apply CheckExpectedRevision_Ok. split; [done|]. unfold LatestRevision. lia. }
  rewrite bind_run. unfold lift at 1. rewrite Hck. apply UpdateCAS_ok; [by rewrite Hf, Hbid|done].
Qed.

Lemma BindPhase_ok s id b phase invocation :
  st_bindings s !! id = Some b -> bd_ID b = id -> id <> "" -> invocation <> "" -> validPhase phase = true ->
  (1 <= bd_Revision b)%Z ->
  is_ok (BindPhase None id phase invocation [] s).1 =
  match bindChange phase invocation b with Ok None => true | Ok (Some b') => negb (boundElsewhere s b') | Err _ => false end.
Proof.
  intros Hb Hbid Hid Hi Hv Hrev. unfold BindPhase. rewrite bool_decide_eq_false_2, Hv by done. rewrite bind_run. simpl. rewrite bind_run. simpl.
  apply mutate_ok; try done. intros b' Hch. by eapply binding_move_id, bindChange_move.
Qed.

(** The idle bindings a phase may start in. *)
Lemma bound_nowhere s id b phase invocation : ws_inv s -> st_bindings s !! id = Some b -> bd_ActiveInvocation b = "" ->
  invocation <> "" ->
  boundElsewhere s (bd_set_active phase invocation b) = false <->
  forall id' b', st_bindings s !! id' = Some b' -> bd_ActiveInvocation b' <> invocation.
Proof.
  intros Hs Hb Ha Hi. rewrite boundElsewhere_false. simpl. destruct (wi_bindings _ Hs _ _ Hb) as (-> & _).
  split; [|naive_solver]. intros H id' b' Hb'. destruct (decide (id' = id)) as [->|]; [|by eapply H]. simplify_eq. congruence.
Qed.

Lemma bind_allowed s id b phase invocation : ws_inv s -> st_bindings s !! id = Some b -> invocation <> "" ->
  match bindChange phase invocation b with Ok None => true | Ok (Some b') => negb (boundElsewhere s b') | Err _ => false end = true <->
  bd_Status b <> StatusSealed /\
  ((bd_ActivePhase b = phase /\ bd_ActiveInvocation b = invocation) \/ lease_of b phase = invocation \/
   (bd_ActiveInvocation b = "" /\ lease_of b phase = "" /\ phasePrerequisitesMet b phase = true /\
    forall id' b', st_bindings s !! id' = Some b' -> bd_ActiveInvocation b' <> invocation)).
Proof.
  intros Hs Hb Hi. unfold bindChange. destruct (decide (bd_Status b = StatusSealed)) as [Hsealed|Hopen].
  { rewrite (bool_decide_eq_true_2 (bd_Status b = StatusSealed)) by done. simpl. intuition done. }
  rewrite (bool_decide_eq_false_2 (bd_Status b = StatusSealed)) by done. simpl.
  destruct (decide (bd_ActivePhase b = phase /\ bd_ActiveInvocation b = invocation)) as [[Hp Ha]|Hact].
  { rewrite !bool_decide_eq_true_2 by done. simpl. tauto. }
  replace (bool_decide (bd_ActivePhase b = phase) && bool_decide (bd_ActiveInvocation b = invocation)) with false
    by (symmetry; apply andb_false_iff; rewrite !bool_decide_eq_false; destruct (decide (bd_ActivePhase b = phase)); tauto).
  destruct (decide (lease_of b phase = "")) as [Hl|Hl].
  - rewrite (bool_decide_eq_false_2 (lease_of b phase <> "")) by tauto. destruct (decide (bd_ActiveInvocation b = "")) as [Ha|Ha].
    + rewrite (bool_decide_eq_false_2 (bd_ActiveInvocation b <> "")) by tauto. simpl. destruct (phasePrerequisitesMet b phase) eqn:Hm; simpl.
      * rewrite negb_true_iff, bound_nowhere by done. intuition congruence.
      * intuition congruence.
    + rewrite (bool_decide_eq_true_2 (bd_ActiveInvocation b <> "")) by done. simpl. intuition congruence.
  - rewrite (bool_decide_eq_true_2 (lease_of b phase <> "")) by done. case_bool_decide; intuition congruence.
Qed.

(** ** Creating a new binding *)

(** A failed creation leaves the store as it was, and undoes the worktree it
    made; a successful one stores the binding. *)
Definition created (git : GitBackend) (key : roundKey) (s : WsStore) (r : res Binding) (s' : WsStore) : Prop :=
  match r with
  | Ok b => (bd_TaskID b, bd_Generation b) = key /\ st_bindings s !! bd_ID b = None /\ st_bindings s' = <[bd_ID b := b]> (st_bindings s) /\
      st_byRound s' = <[key := bd_ID b]> (st_byRound s)
  | Err _ => st_bindings s' = st_bindings s /\ st_byRound s' = st_byRound s /\
      exists calls, st_git s' = st_git s ++ calls /\
        forall b mt, CallMaterialize b ∈ calls -> gb_Materialize git b = Ok mt ->
          exists b', CallRemove b' mt ∈ calls /\ bd_Root b' = bd_Root b /\ bd_BranchName b' = bd_BranchName b /\
            bd_RepositoryPath b' = bd_RepositoryPath b
  end.

Lemma created_refused git key s e : created git key s (Err e) s.
Proof. split_and!; [done|done|]. exists []. rewrite app_nil_r. split; [done|]. by intros ? ? ?%elem_of_nil. Qed.

Lemma created_guard {A} git key (x : res A) k s r s' :
  (forall a, k a s = (r, s') -> created git key s r s') -> (lift x ≫= k) s = (r, s') -> created git key s r s'.
Proof. intros Hk. rewrite guard_run. destruct x; [apply Hk|]. intros [= <- <-]. apply created_refused. Qed.

Lemma rollback_created git key b mt head cause s r s' :
  gb_Materialize git b = Ok mt ->
  rollback git (bd_set_CurrentRevision head b) mt cause (st_log (CallMaterialize b) s) = (r, s') -> created git key s r s'.
Proof.
  intros Hmt H. unfold rollback in H. rewrite bind_run in H. simpl in H.
  assert (exists e, r = Err e /\ s' = st_log (CallRemove (bd_set_CurrentRevision head b) mt) (st_log (CallMaterialize b) s)) as (e & -> & ->)
    by (destruct (gb_Remove git _ mt); injection H as <- <-; eauto).
  split_and!; [done|done|]. exists [CallMaterialize b; CallRemove (bd_set_CurrentRevision head b) mt].
  simpl. rewrite <- app_assoc. split; [done|]. intros x m Hx Hm.
  assert (x = b) as -> by (apply elem_of_cons in Hx as [?|Hx%list_elem_of_singleton]; congruence).
  rewrite Hmt in Hm. injection Hm as <-. exists (bd_set_CurrentRevision head b). split; [set_solver|done].
Qed.

Lemma Insert_created git ctx b mt head s :
  gb_Materialize git b = Ok mt ->
  let b' := bd_set_CurrentRevision head b in
  forall r s', catch (_ ← Insert ctx b'; mret b') (rollback git b' mt) (st_log (CallMaterialize b) s) = (r, s') ->
  created git (bd_TaskID b, bd_Generation b) s r s'.
Proof.
  intros Hmt b' r s' H. unfold catch in H. rewrite bind_run in H. destruct ctx as [e|].
  { simpl in H. by eapply rollback_created. }
  destruct (Insert_cases b' (st_log (CallMaterialize b) s)) as [Heq|(Hid & Hround & Hrun)].
  - destruct (Insert None b' _) as [[u|e] s1] eqn:Hins; simpl in Heq; subst s1; [|by eapply rollback_created].
    exfalso. unfold Insert in Hins. rewrite !bind_run in Hins. simpl in Hins. rewrite bind_run in Hins. simpl in Hins.
    rewrite bind_run in Hins. unfold lift, fail_if in Hins. case_bool_decide as Hid; [done|]. rewrite bind_run in Hins.
    case_bool_decide; [done|]. injection Hins as _ Hins.
    apply Hid. rewrite <- Hins. exists b'. apply lookup_insert_eq.
  - rewrite Hrun in H. injection H as <- <-. by split_and!.
Qed.

Lemma createNew_created lower digests git ctx req repo parent allowed declared s r s' :
  createNew lower digests git ctx req repo parent allowed declared s = (r, s') ->
  created git (cw_TaskID req, cw_Generation req) s r s'.
Proof.
  unfold createNew. rewrite bind_run. destruct (gb_ResolveRevision git repo _) as [base|e]; simpl;
    [|intros [= <- <-]; apply created_refused].
  set (b := newBinding _ _ _ _ _ _ _ _). rewrite bind_run. unfold materializeCall. rewrite bind_run. simpl.
  unfold lift. destruct (gb_Materialize git b) as [mt|e] eqn:Hmt.
  - assert ((cw_TaskID req, cw_Generation req) = (bd_TaskID b, bd_Generation b)) as ->.
    { subst b. unfold newBinding. by destruct (bindingIdentity _ _ _ _). }
    destruct (cw_AfterWorktreeAdd req) as [[u|e]|]; [by eapply Insert_created|by eapply rollback_created|by eapply Insert_created].
  - intros [= <- <-]. split_and!; [done|done|]. exists [CallMaterialize b]. split; [done|].
    intros x m [= ->]%list_elem_of_singleton. congruence.
Qed.

(** ** Bindings survive events *)

Lemma event_keeps_binding s s' id b : ws_inv s -> st_bindings s !! id = Some b -> s' = s \/ ws_event s s' ->
  exists b', st_bindings s' !! id = Some b' /\ binding_kept b b'.
Proof.
  intros Hs Hb [->|[x Hf Hid Hr|x x' Hx Hm Hex|call]].
  - exists b. split; [done|apply binding_kept_refl].
  - exists b. simpl. rewrite lookup_insert_ne by congruence. split; [done|apply binding_kept_refl].
  - destruct (decide (id = bd_ID x)) as [->|Hne].
    + rewrite Hx in Hb. injection Hb as <-. eexists. simpl. rewrite lookup_insert_eq. split; [done|].
      destruct (wi_bindings _ Hs _ _ Hx) as (_ & Hok & _). destruct (binding_move_kept _ _ Hok Hm). by constructor.
    + exists b. simpl. rewrite lookup_insert_ne by done. split; [done|apply binding_kept_refl].
  - exists b. split; [done|apply binding_kept_refl].
Qed.

End with_runtime.
