(* ===== verification/WsProps.v ===== *)
(** * Properties of workspace bindings *)

From stdpp Require Import base tactics option list strings gmap sorting relations.
From Stdlib Require Import ZArith Ascii.
From S2P Require Import Prelude GoLib GoStrings GoPath Kernel CoordTypes WsModel WsPaths WsService WsReach.

Section with_runtime.
Context `{GR : GoRuntime}.

(** C29: Whatever calls interleave, and even if the locks did not exist, the
    bindings stay well formed: phases complete in order, a binding has at most
    one active invocation, in a phase that may run and is not complete, none when
    it is sealed; an invocation is active in at most one binding; there is one
    binding per task and generation. *)
Theorem workspace_invariant n c : few n -> ws_reachable n c -> ws_inv (wc_store c).
Proof. intros Hfew Hc. apply (ws_reachable_inv n c Hfew Hc). Qed.

(** C30: Updates are not lost.  When an update that was computed from a binding is
    stored later, it fails without effect, or the binding it was computed from is
    still the stored one and is replaced in one atomic change. *)
Theorem workspace_update_atomic n c b b' rest r s' :
  few n -> ws_reachable n c -> wc_pending c ≡ₚ (b, b') :: rest ->
  UpdateCAS None b' (bd_Revision b) (wc_store c) = (r, s') ->
  (is_ok r = false /\ s' = wc_store c) \/
  (st_bindings (wc_store c) !! bd_ID b = Some b /\ r = Ok (bd_set_Revision (Revision_Next (bd_Revision b)) b') /\
   ws_event (wc_store c) s').
Proof.
  intros Hfew Hc Hp Hrun. pose proof (ws_reachable_inv n c Hfew Hc) as Hinv.
  destruct (ci_pending _ _ Hinv b b') as (Hok & Hm & cur & Hcur & _ & Hsame); [rewrite Hp; by left|].
  pose proof (binding_move_id _ _ Hm) as Hid. destruct r as [x|e].
  - right. destruct (UpdateCAS_success _ _ _ cur _ _ Hrun) as (Hrev & Hbound & -> & ->); [by rewrite Hid|].
    specialize (Hsame Hrev). subst cur. split_and!; [done|done|]. rewrite Hid. apply ev_update; [done|done|].
    by rewrite boundElsewhere_false, Hid in Hbound.
  - left. split; [done|]. by destruct (UpdateCAS_cases b' (bd_Revision b) (wc_store c)) as [Heq|(? & _ & _ & _ & Heq)];
      rewrite Hrun in Heq.
Qed.

(** What a binding fixes stays fixed.  Along any interleaving no binding
    disappears or changes its identity; a completed phase stays completed by the
    same invocation; the write authority is fixed once execute has completed; of
    a sealed binding only the observed writes and the current revision move. *)
Theorem workspace_history_fixed n m c c' id b :
  few (n + m) -> ws_reachable n c -> nsteps ws_step m c c' -> st_bindings (wc_store c) !! id = Some b ->
  exists b', st_bindings (wc_store c') !! id = Some b' /\ binding_kept b b'.
Proof.
  revert n c b. induction m as [|m IH]; intros n c b Hfew Hc Hsteps Hb.
  - inversion Hsteps; subst. exists b. split; [done|apply binding_kept_refl].
  - inversion Hsteps as [|? ? c1 ? Hstep Hrest]; subst. assert (few n) as Hn by (unfold few in *; lia).
    pose proof (ws_reachable_inv n c Hn Hc) as Hinv. destruct (config_inv_step n c c1 Hn Hinv Hstep) as [_ Hev].
    assert (exists b1, st_bindings (wc_store c1) !! id = Some b1 /\ binding_kept b b1) as (b1 & Hb1 & Hk1).
    { apply (event_keeps_binding (wc_store c)); [apply Hinv|done|]. destruct Hev as [->|]; auto. }
    destruct (IH (S n) c1 b1) as (b' & Hb' & Hk'); [unfold few in *; lia|by eapply nsteps_r|done|done|].
    exists b'. split; [done|]. by eapply binding_kept_trans.
Qed.

(** Every call of the workspace service is made of the steps above: creating,
    binding, releasing and completing phases, promoting write authority,
    inheriting completions, sealing, refreshing and materialising. *)
Theorem workspace_calls_are_steps ToLower digests host git ctx id s : ws_inv s ->
  (forall req, runs_at (CreateGitWorktree ToLower digests host git ctx req) s) /\
  runs_at (Materialize git ctx id) s /\
  (forall phase invocation expected, runs_at (BindPhase ctx id phase invocation expected) s) /\
  (forall declared expected, runs_at (AuthorizeExecuteWrites ToLower ctx id declared expected) s) /\
  (forall phase invocation expected, runs_at (ReleasePhase ctx id phase invocation expected) s) /\
  (forall phase invocation expected, runs_at (CompletePhase ctx id phase invocation expected) s) /\
  (forall source phase active, runs_at (InheritPhasePrerequisites ctx id source phase active) s) /\
  (forall source, runs_at (InheritPlanPrerequisite ctx id source) s) /\
  (forall source, runs_at (InheritMergedVerifyPrerequisites ctx id source) s) /\
  (forall expected, runs_at (Seal ctx id expected) s) /\
  (forall expected, runs_at (RefreshObservedWrites git ctx id expected) s) /\
  (forall invocation, runs_at (withInvocation ctx invocation (refreshLocked git ctx)) s).
Proof.
  intros Hs. split_and!; intros;
    [by apply CreateGitWorktree_runs|apply Materialize_runs|apply BindPhase_runs|apply AuthorizeExecuteWrites_runs
    |apply finish_runs|apply finish_runs|apply InheritPhasePrerequisites_runs|apply InheritPlanPrerequisite_runs
    |apply InheritMergedVerifyPrerequisites_runs|apply Seal_runs|apply RefreshObservedWrites_runs|apply refreshLocked_runs].
Qed.

(** Creating a workspace for a new round is all or nothing.  On success the
    new binding, under an unused id, is the only change of the store; on failure,
    at whatever point, the store is as before, and a worktree that was made has
    been handed back to the git backend for removal. *)
Theorem create_all_or_nothing ToLower digests host git ctx req s r s' :
  CreateGitWorktree ToLower digests host git ctx req s = (r, s') ->
  st_byRound s !! (cw_TaskID req, cw_Generation req) = None ->
  created git (cw_TaskID req, cw_Generation req) s r s'.
Proof.
  intros H Hround. revert H. unfold CreateGitWorktree, WithLock. do 9 (apply created_guard; intros ?).
  rewrite bind_run, GetByRound_run. destruct ctx as [e|]; [intros [= <- <-]; apply created_refused|].
  rewrite Hround. simpl. apply createNew_created.
Qed.

(** Links are followed from [c] to [e], where an entry that is no link was found, or
    none; the destination of each link is below the root by its name. *)
Inductive leads_to (host : Host) (rootAbs : string) : string -> string -> bool -> Prop :=
| leads_missing c : h_Lstat host c = Ok None -> leads_to host rootAbs c c false
| leads_entry c : h_Lstat host c = Ok (Some false) -> leads_to host rootAbs c c true
| leads_link c target d e found : h_Lstat host c = Ok (Some true) -> h_Readlink host c = Ok target ->
    host_Abs host (if IsAbs target then target else path_join [Dir c; target]) = Ok d -> escapes (Rel rootAbs d) = false ->
    leads_to host rootAbs d e found -> leads_to host rootAbs c e found.

(** The entries [l] in turn, each looked up in what the one before leads to, until one
    is missing. *)
Inductive walked (host : Host) (rootAbs : string) : string -> list string -> Prop :=
| walked_end c : walked host rootAbs c []
| walked_missing c x e l : leads_to host rootAbs (path_join [c; x]) e false -> walked host rootAbs c (x :: l)
| walked_entry c x e l : leads_to host rootAbs (path_join [c; x]) e true -> walked host rootAbs e l -> walked host rootAbs c (x :: l).

Lemma wrap_Ok {A} message (x : res A) a : wrap message x = Ok a -> x = Ok a.
Proof. by destruct x. Qed.

Lemma resolved_leads host depth rootAbs c e found : resolveExistingLinksWithinRoot host depth rootAbs c = Ok (e, found) -> leads_to host rootAbs c e found.
Proof.
  revert c. induction depth as [|depth IH]; intros c H; simpl in H; [done|]. apply bind_Ok in H as (info & Hi%wrap_Ok & H).
  destruct info as [[]|]; [|by injection H as <- <-; constructor|by injection H as <- <-; constructor].
  apply bind_Ok in H as (target & Ht%wrap_Ok & H). apply bind_Ok in H as (d & Hd%wrap_Ok & H). apply bind_Ok in H as (? & He%fail_if_Ok & H).
  eapply leads_link; [done..|]. by apply IH.
Qed.

Lemma walk_walked host rootAbs c l : Forall plain l -> walkComponents host rootAbs c l = Ok tt -> walked host rootAbs c l.
Proof.
  intros Hl. revert c. induction Hl as [|x l (Hx & Hdot & _) _ IH]; intros c H; [constructor|]. cbn [walkComponents] in H.
  rewrite (bool_decide_eq_false_2 (x = "")), (bool_decide_eq_false_2 (x = ".")) in H by done. cbn [orb] in H.
  destruct (resolveExistingLinksWithinRoot _ _ _ _) as [[e []]|err] eqn:Hr; [| |done]; apply resolved_leads in Hr.
  - eapply walked_entry; [done|by apply IH].
  - by eapply walked_missing.
Qed.

Lemma Rel_below root full l : l <> [] -> components full = components root ++ l -> Rel (Clean root) (Clean full) = Join "/" l.
Proof.
  intros Hne Hc. unfold Rel. rewrite !components_Clean, Hc. assert (rel_components (components root) (components root ++ l) = l) as ->.
  { generalize (components root) as base. intros base. induction base as [|x base IH]; simpl; [by destruct l|]. by rewrite bool_decide_eq_true_2. }
  by rewrite bool_decide_eq_false_2.
Qed.

Lemma link_check_walked host root full l : ensureNoSymlinkEscape host root full = Ok tt -> IsAbs root = true -> IsAbs full = true ->
  l <> [] -> Forall plain l -> components full = components root ++ l ->
  h_Lstat host (Clean root) = Ok (Some false) /\ walked host (Clean root) (Clean root) l.
Proof.
  intros H Hroot Hfull Hne Hl Hc. unfold ensureNoSymlinkEscape, host_Abs in H. rewrite Hroot, Hfull in H. simpl in H.
  apply bind_Ok in H as (? & _ & H). apply bind_Ok in H as (info & Hi%wrap_Ok & H). destruct info as [[]|]; [done| |done]. split; [done|].
  rewrite (Rel_below root full l), Split_Join in H by (try done; by apply plain_no_slash). by apply walk_walked.
Qed.

(** C31: A write path stays in the workspace by name, and was checked for links.  The file
    that a write resolves to is below the root by directory entries only (no parent or
    empty components, so not by any way of writing the request), and inside what the
    phase may write: [plan] for planning, [evidence] for verification, an allowed
    directory for execution; nothing is writable in a sealed binding.  Below an absolute
    root, which is a directory entry and no link, each component of the path leads, up
    to the first that does not exist, to an entry that is no link, through links whose
    destinations are below the root by name. *)
Theorem write_paths_confined host b phase p full :
  ResolveWritePath host b phase p = Ok full -> bd_Root b <> "" ->
  bd_Status b <> StatusSealed /\
  exists l, l <> [] /\ Forall plain l /\ full = path_join [bd_Root b; Join "/" l] /\
    IsAbs full = IsAbs (bd_Root b) /\ components full = components (bd_Root b) ++ l /\
    ((phase = PhasePlan /\ head l = Some "plan") \/ (phase = PhaseVerify /\ head l = Some "evidence") \/
     (phase = PhaseExecute /\ exists d, d ∈ bd_AllowedDirs b /\ components d <> [] /\ components d `prefix_of` l)) /\
    (IsAbs (bd_Root b) = true -> h_Lstat host (Clean (bd_Root b)) = Ok (Some false) /\ walked host (Clean (bd_Root b)) (Clean (bd_Root b)) l).
Proof.
  intros H Hroot. unfold ResolveWritePath in H. res_inv. bool_inv. split; [done|].
  match goal with H : cleanRelativePath _ = Ok _ |- _ => apply cleanRelativePath_Ok in H as (l & Hne & Hl & ->) end.
  exists l. destruct (join_components (bd_Root b) l Hroot Hne Hl) as [Habs Hcomp]. split_and!; try done; [by apply phaseAllows_true|].
  intros Hr. eapply link_check_walked; try done. by rewrite Habs.
Qed.

(** When a phase can be bound.  In a reachable store, binding a phase succeeds
    exactly when the binding is not sealed and the phase is already active for or
    completed by the invocation, or the binding is idle, the phase is not
    complete, its prerequisite is, and the invocation is active nowhere else. *)
Theorem bind_phase_exact n c id b phase invocation :
  few n -> ws_reachable n c -> st_bindings (wc_store c) !! id = Some b -> id <> "" -> invocation <> "" ->
  validPhase phase = true ->
  is_ok (BindPhase None id phase invocation [] (wc_store c)).1 = true <->
  bd_Status b <> StatusSealed /\
  ((bd_ActivePhase b = phase /\ bd_ActiveInvocation b = invocation) \/ lease_of b phase = invocation \/
   (bd_ActiveInvocation b = "" /\ lease_of b phase = "" /\ phasePrerequisitesMet b phase = true /\
    forall id' b', st_bindings (wc_store c) !! id' = Some b' -> bd_ActiveInvocation b' <> invocation)).
Proof.
  intros Hfew Hc Hb Hid Hi Hv. pose proof (ws_reachable_inv n c Hfew Hc) as Hinv.
  destruct (wi_bindings _ (ci_store _ _ Hinv) _ _ Hb) as (Hbid & Hok & _). pose proof (ci_revisions _ _ Hinv _ _ Hb) as Hrev.
  rewrite (BindPhase_ok (wc_store c) id b phase invocation) by (done || lia). by eapply bind_allowed; [apply Hinv|..].
Qed.

End with_runtime.

(** ** Witnesses

    A small workspace: task [t1], created, planned by [i1]; execution by [i2] is
    under way, and [i3] has computed its own binding of the same phase from the
    same version. *)

#[local] Existing Instance GoRuntime_list.

Definition ws_host : Host :=
  mkHost (Ok "/") (fun p => Ok p) (fun p => Ok (if bool_decide (p = "/wt/ws_t1_h_001") then Some false else None)) (fun _ => Err (OtherError "no link")).

Definition ws_git : GitBackend :=
  mkGitBackend (fun _ _ => Ok "base") (fun _ => Ok (mkMaterialization "base" true true)) (fun _ _ => Ok tt) (fun _ => Ok "base")
    (fun _ => Ok []) (fun _ _ => Ok "base").

Definition ws_digests : Digests := mkDigests (fun _ => "h") (fun _ _ _ _ _ => "f").

Definition ws_request : CreateRequest :=
  mkCreateWorktree "t1" 1 "/repo" "/wt" "main" ["src"] zeroWriteSet None.

Definition ws_binding : Binding :=
  newBinding (fun x => x) ws_digests ws_request "/repo" "/wt" "base" ["src"] zeroWriteSet.

(** The steps: create, read for [i1]'s planning, store, read its completion, store. *)
Definition ws_s1 : WsStore := snd (Insert None ws_binding NewWsStore).
Definition ws_b2 : Binding := bd_set_active PhasePlan "i1" ws_binding.
Definition ws_s2 : WsStore := snd (UpdateCAS None ws_b2 1 ws_s1).
Definition ws_b3 : Binding := bd_set_PhaseLeases {[ PhasePlan := "i1" ]} (bd_set_Revision 2 ws_binding).
Definition ws_s3 : WsStore := snd (UpdateCAS None ws_b3 2 ws_s2).
Definition ws_idle : Binding := bd_set_Revision 3 ws_b3.
Definition ws_pending : list (Binding * Binding) :=
  [(ws_idle, bd_set_active PhaseExecute "i2" ws_idle); (ws_idle, bd_set_active PhaseExecute "i3" ws_idle)].
Definition ws_config3 : ws_config := mkWsConfig ws_s3 [] ws_pending.

Lemma ws_config3_reachable : ws_reachable 7 ws_config3.
Proof.
  unfold ws_reachable. eapply nsteps_l; [apply (step_insert ws_start ws_binding); vm_compute; done|].
  eapply nsteps_l. { apply (step_read _ "ws_t1_h_001" ws_binding ws_b2); [vm_compute; done|]. by apply (sc_bind _ _ PhasePlan "i1"). }
  eapply nsteps_l; [by eapply (step_commit _ ws_binding ws_b2 [])|].
  eapply nsteps_l.
  { apply (step_read _ "ws_t1_h_001" (bd_set_Revision 2 ws_b2) ws_b3); [vm_compute; done|].
    apply (sc_finish _ _ PhasePlan "i1" true); [done|done|]. vm_compute. done. }
  eapply nsteps_l; [by eapply (step_commit _ (bd_set_Revision 2 ws_b2) ws_b3 [])|].
  eapply nsteps_l.
  { apply (step_read _ "ws_t1_h_001" ws_idle (bd_set_active PhaseExecute "i3" ws_idle)); [vm_compute; done|].
    by apply (sc_bind _ _ PhaseExecute "i3"). }
  eapply nsteps_l.
  { apply (step_read _ "ws_t1_h_001" ws_idle (bd_set_active PhaseExecute "i2" ws_idle)); [vm_compute; done|].
    by apply (sc_bind _ _ PhaseExecute "i2"). }
  apply nsteps_O.
Qed.

Lemma workspace_invariant_witness : ws_inv ws_s3.
Proof. exact (workspace_invariant 7 ws_config3 eq_refl ws_config3_reachable). Defined.

Definition ws_execute : Binding := bd_set_active PhaseExecute "i2" ws_idle.

Lemma workspace_update_atomic_witness : exists r s', UpdateCAS None ws_execute (bd_Revision ws_idle) ws_s3 = (r, s') /\
  ((is_ok r = false /\ s' = ws_s3) \/
   (st_bindings ws_s3 !! bd_ID ws_idle = Some ws_idle /\ r = Ok (bd_set_Revision (Revision_Next (bd_Revision ws_idle)) ws_execute) /\
    ws_event ws_s3 s')).
Proof.
  exists (UpdateCAS None ws_execute (bd_Revision ws_idle) ws_s3).1, (UpdateCAS None ws_execute (bd_Revision ws_idle) ws_s3).2.
  split; [apply surjective_pairing|].
  apply (workspace_update_atomic 7 ws_config3 ws_idle ws_execute [(ws_idle, bd_set_active PhaseExecute "i3" ws_idle)]).
  - reflexivity.
  - exact ws_config3_reachable.
  - reflexivity.
  - apply surjective_pairing.
Defined.

Lemma workspace_history_fixed_witness : exists b', st_bindings ws_s3 !! "ws_t1_h_001" = Some b' /\ binding_kept ws_idle b'.
Proof.
  apply (workspace_history_fixed 7 1 ws_config3 (mkWsConfig ws_s3 [ws_idle] ws_pending) "ws_t1_h_001" ws_idle).
  - reflexivity.
  - exact ws_config3_reachable.
  - apply nsteps_once. by apply (step_source ws_config3 "ws_t1_h_001").
  - reflexivity.
Defined.

Lemma workspace_calls_are_steps_witness : runs_at (Seal None "ws_t1_h_001" []) NewWsStore.
Proof.
  destruct (workspace_calls_are_steps (fun x => x) ws_digests ws_host ws_git None "ws_t1_h_001" NewWsStore ws_inv_new)
    as (_ & _ & _ & _ & _ & _ & _ & _ & _ & H & _). exact (H []).
Defined.

Lemma create_all_or_nothing_witness :
  created ws_git ("t1", 1%Z) NewWsStore (Ok ws_binding) (mkWsStore {[ "ws_t1_h_001" := ws_binding ]} {[ ("t1", 1%Z) := "ws_t1_h_001" ]} [CallMaterialize ws_binding]).
Proof.
  apply (create_all_or_nothing (fun x => x) ws_digests ws_host ws_git None ws_request NewWsStore).
  - vm_compute. reflexivity.
  - reflexivity.
Defined.

(** A host on which [src] is a link to [code] in the workspace. *)
Definition linking_host : Host :=
  mkHost (Ok "/") (fun p => Ok p)
    (fun p => Ok (if bool_decide (p ∈ ["/wt/ws_t1_h_001"; "/wt/ws_t1_h_001/code"]) then Some false
                  else if bool_decide (p = "/wt/ws_t1_h_001/src") then Some true else None))
    (fun _ => Ok "code").

Lemma write_paths_confined_witness : exists l, components "/wt/ws_t1_h_001/src/main.go" = ["wt"; "ws_t1_h_001"] ++ l /\
  walked linking_host "/wt/ws_t1_h_001" "/wt/ws_t1_h_001" l.
Proof.
  destruct (write_paths_confined linking_host ws_binding PhaseExecute "src/./main.go" "/wt/ws_t1_h_001/src/main.go") as [_ (l & _ & _ & _ & _ & Hc & _ & Hw)].
  - vm_compute. reflexivity.
  - discriminate.
  - exists l. split; [exact Hc|]. exact (proj2 (Hw eq_refl)).
Defined.

Lemma bind_phase_exact_witness : is_ok (BindPhase None "ws_t1_h_001" PhaseExecute "i2" [] ws_s3).1 = true.
Proof.
  apply (proj2 (bind_phase_exact 7 ws_config3 "ws_t1_h_001" ws_idle PhaseExecute "i2" eq_refl ws_config3_reachable eq_refl
    ltac:(discriminate) ltac:(discriminate) eq_refl)).
  split; [discriminate|]. right. right. split_and!; [reflexivity..|].
  intros id' b'.
  change (st_bindings (wc_store ws_config3)) with ({[ "ws_t1_h_001" := ws_idle ]} : gmap BindingRef Binding).
  intros [_ <-]%lookup_singleton_Some. discriminate.
Defined.
