(* ===== verification/ObjStore.v ===== *)
(** * The object store

    [platform/objectstore]: the interface [Store], the in-memory store of
    [store.go], the key-prefixing store of [prefix.go] and the key checks of
    [minio.go].  Bodies are byte strings; a reader is what reading it to the end
    gives ([None] for a nil reader).  The hexadecimal SHA-256 is an arbitrary
    function. *)

From stdpp Require Import base tactics option list strings gmap.
From Stdlib Require Import ZArith Ascii.
From S2P Require Import Prelude GoLib GoStrings GoPath Kernel.

Record ObjectRef := mkObjectRef {
  or_Bucket : string;
  or_Key : string;
}.

#[global] Instance ObjectRef_eq_dec : EqDecision ObjectRef.
Proof. solve_decision. Defined.

Record PutObject := mkPutObject {
  po_Bucket : string;
  po_Key : string;
  po_ContentType : string;
  po_Body : option (res string);
}.

Record PutResult := mkPutResult {
  pt_Ref : ObjectRef;
  pt_SHA256 : string;
  pt_Size : Z;
}.

Record GetResult := mkGetResult {
  gt_Ref : ObjectRef;
  gt_ContentType : string;
  gt_SHA256 : string;
  gt_Size : Z;
  gt_Body : string;
}.

(** The interface [objectstore.Store] over a state of type [S]. *)
Record Store (S : Type) := mkStore {
  os_Put : Context -> PutObject -> M error S PutResult;
  os_Get : Context -> ObjectRef -> M error S GetResult;
  os_Delete : Context -> ObjectRef -> M error S unit;
}.
Arguments mkStore {S}.
Arguments os_Put {S}.
Arguments os_Get {S}.
Arguments os_Delete {S}.

(** [errors.New]. *)
Definition ErrObjectNotFound : error := OtherError "object not found".

Definition validateBucket (bucket : string) : res unit :=
  _ ← fail_if (bool_decide (bucket = "")) (OtherError "bucket is required");
  fail_if (bool_decide (bucket <> TrimSpace bucket) || Contains "/" bucket || Contains "\" bucket)
    (OtherError "bucket is invalid").

Definition cleanKey (key : string) : res string :=
  _ ← fail_if (bool_decide (TrimSpace key = "")) (OtherError "object key is required");
  _ ← fail_if (Contains "\" key) (OtherError "object key is invalid");
  let cleaned := TrimPrefix "/" (Clean ("/" +:+ key)) in
  _ ← fail_if (bool_decide (cleaned = ".") || bool_decide (cleaned = "") || has_prefix "../" cleaned || bool_decide (cleaned = ".."))
      (OtherError "object key is invalid");
  _ ← fail_if (bool_decide (cleaned <> key)) (OtherError "object key must already be clean");
  Ok cleaned.

(** ** The in-memory store *)

Record memoryObject := mkMemoryObject {
  mo_ref : ObjectRef;
  mo_contentType : string;
  mo_sha256 : string;
  mo_body : string;
}.

Record MemObjects := mkMemObjects {
  mo_objects : gmap string memoryObject;
  mo_byHash : gmap string ObjectRef;
}.

Definition NewMemObjects : MemObjects := mkMemObjects ∅ ∅.

Definition objectKey (ref : ObjectRef) : string := or_Bucket ref +:+ "/" +:+ or_Key ref.

Section memory.
Context (hashBytes : string -> string).

Definition MemObjects_Put (ctx : Context) (obj : PutObject) : M error MemObjects PutResult :=
  _ ← lift (ctx_Err ctx);
  _ ← lift (fail_if (bool_decide (po_Bucket obj = "")) (OtherError "bucket is required"));
  _ ← lift (validateBucket (po_Bucket obj));
  body ← lift (match po_Body obj with None => Err (OtherError "body is required") | Some r => wrap "read object body" r end);
  let hash := hashBytes body in
  let size := Z.of_nat (String.length body) in
  s ← get_state;
  match mo_byHash s !! (po_Bucket obj +:+ "/" +:+ hash) with
  | Some existing => mret (mkPutResult existing hash size)
  | None =>
    let key := if bool_decide (po_Key obj = "") then hash else po_Key obj in
    key ← lift (cleanKey key);
    let ref := mkObjectRef (po_Bucket obj) key in
    let stored := mkMemoryObject ref (po_ContentType obj) hash body in
    _ ← put_state (mkMemObjects (<[objectKey ref := stored]> (mo_objects s)) (<[po_Bucket obj +:+ "/" +:+ hash := ref]> (mo_byHash s)));
    mret (mkPutResult ref hash size)
  end.

Definition MemObjects_Get (ctx : Context) (ref : ObjectRef) : M error MemObjects GetResult :=
  _ ← lift (ctx_Err ctx);
  s ← get_state;
  match mo_objects s !! objectKey ref with
  | None => throw ErrObjectNotFound
  | Some stored =>
    _ ← lift (fail_if (bool_decide (hashBytes (mo_body stored) <> mo_sha256 stored))
          (OtherError ("object hash mismatch: got " +:+ hashBytes (mo_body stored) +:+ " want " +:+ mo_sha256 stored)));
    mret (mkGetResult ref (mo_contentType stored) (mo_sha256 stored) (Z.of_nat (String.length (mo_body stored))) (mo_body stored))
  end.

Definition MemObjects_Delete (ctx : Context) (ref : ObjectRef) : M error MemObjects unit :=
  _ ← lift (ctx_Err ctx);
  modify (fun s => mkMemObjects (delete (objectKey ref) (mo_objects s)) (mo_byHash s)).

Definition memoryStore : Store MemObjects := mkStore MemObjects_Put MemObjects_Get MemObjects_Delete.

End memory.

(** ** The prefixing store *)

Section prefixed.
Context {S : Type} (store : Store S) (prefix : string).

Definition prefixed_Put (ctx : Context) (obj : PutObject) : M error S PutResult :=
  let logicalKey := TrimSpace (po_Key obj) in
  key ← lift (if bool_decide (logicalKey <> "") then cleaned ← cleanKey logicalKey; Ok (path_join [prefix; cleaned])
              else Ok (po_Key obj));
  put ← os_Put store ctx (mkPutObject (po_Bucket obj) key (po_ContentType obj) (po_Body obj));
  let key := if bool_decide (logicalKey <> "") then logicalKey
             else TrimPrefix "/" (TrimPrefix prefix (or_Key (pt_Ref put))) in
  mret (mkPutResult (mkObjectRef (or_Bucket (pt_Ref put)) key) (pt_SHA256 put) (pt_Size put)).

Definition prefixed_Get (ctx : Context) (ref : ObjectRef) : M error S GetResult :=
  logicalKey ← lift (cleanKey (or_Key ref));
  got ← os_Get store ctx (mkObjectRef (or_Bucket ref) (path_join [prefix; logicalKey]));
  mret (mkGetResult (mkObjectRef (or_Bucket (gt_Ref got)) logicalKey) (gt_ContentType got) (gt_SHA256 got) (gt_Size got) (gt_Body got)).

Definition prefixed_Delete (ctx : Context) (ref : ObjectRef) : M error S unit :=
  logicalKey ← lift (cleanKey (or_Key ref));
  os_Delete store ctx (mkObjectRef (or_Bucket ref) (path_join [prefix; logicalKey])).

Definition prefixedStore : Store S := mkStore prefixed_Put prefixed_Get prefixed_Delete.

End prefixed.

Definition WithKeyPrefix {S} (store : Store S) (prefix : string) : res (Store S) :=
  cleaned ← cleanKey prefix;
  Ok (prefixedStore store cleaned).
