(* ===== verification/EvLog.v ===== *)
(** * The event log

    [evidence/eventlog.go] and the ports of [evidence/ports.go]: an append-only
    log with stable keys, read page by page.  [json.Marshal] of a payload is what
    the request carries ([None] for a nil payload); the encoding of the request
    that is hashed and the hexadecimal SHA-256 are arbitrary functions. *)

From stdpp Require Import base tactics option list strings gmap.
From Stdlib Require Import ZArith Ascii.
From S2P Require Import Prelude GoLib GoStrings Kernel CoordTypes.

Abbreviation ArtifactID := string.
Abbreviation Cursor := Z.

Record Event := mkEvent {
  ev_ID : string;
  ev_Sequence : Cursor;
  ev_StableKey : IdempotencyKey;
  ev_Type : string;
  ev_ProjectID : ProjectID;
  ev_TaskID : TaskID;
  ev_WorkspaceRef : BindingRef;
  ev_PhaseEndpoint : EndpointID;
  ev_AgentInvocationID : InvocationID;
  ev_Payload : string;
  ev_ArtifactRefs : list ArtifactID;
  ev_GraphRevision : Z;
  ev_CreatedAt : Time;
}.

Record AppendEvent := mkAppend {
  ae_StableKey : IdempotencyKey;
  ae_Type : string;
  ae_ProjectID : ProjectID;
  ae_TaskID : TaskID;
  ae_WorkspaceRef : BindingRef;
  ae_PhaseEndpoint : EndpointID;
  ae_AgentInvocationID : InvocationID;
  ae_Payload : option (res string);
  ae_ArtifactRefs : list ArtifactID;
  ae_GraphRevision : Z;
}.

(** The anonymous struct of [canonicalEventRequestHash]. *)
Record EventRequest := mkEventRequest {
  rq_Type : string;
  rq_ProjectID : ProjectID;
  rq_TaskID : TaskID;
  rq_WorkspaceRef : BindingRef;
  rq_PhaseEndpoint : EndpointID;
  rq_AgentInvocationID : InvocationID;
  rq_Payload : string;
  rq_ArtifactRefs : list ArtifactID;
  rq_GraphRevision : Z;
}.

Record stableEventRecord := mkStableEvent {
  se_event : Event;
  se_requestHash : string;
}.

Record EventLog := mkEventLog {
  el_maxPayloadBytes : Z;
  el_events : list Event;
  el_byStableKey : gmap IdempotencyKey stableEventRecord;
}.

Definition NewEventLog (maxPayloadBytes : Z) : EventLog :=
  mkEventLog (if (maxPayloadBytes <=? 0)%Z then 64 * 1024 else maxPayloadBytes) [] ∅.

(** The payload is copied; a JSON text is never empty, so nil is the empty one. *)
Definition encodePayload (payload : option (res string)) (maxBytes : Z) : res string :=
  match payload with
  | None => Ok ""
  | Some marshalled =>
    raw ← wrap "marshal event payload" marshalled;
    _ ← fail_if (maxBytes <? Z.of_nat (String.length raw))%Z
        (InvalidArgument "event payload exceeds limit; use ArtifactRef for large objects");
    Ok raw
  end.

(** [%012d] of a positive number. *)
Fixpoint zeros (n : nat) (s : string) : string := match n with 0 => s | S n => String "0" (zeros n s) end.
Definition pad12 (n : Z) : string := let s := format_int n in zeros (12 - String.length s) s.

(** [evidence.Principal] of [artifact.go]. *)
Record Principal := mkEvPrincipal {
  ep_Role : string;
  ep_ProjectID : ProjectID;
  ep_TaskID : TaskID;
}.

Definition requirePrincipal (principal : Principal) : res unit :=
  _ ← fail_if (bool_decide (ep_Role principal = "")) (Forbidden "principal role is required");
  _ ← fail_if (bool_decide (ep_ProjectID principal = "")) (Forbidden "principal project is required");
  fail_if (bool_decide (ep_TaskID principal = "")) (Forbidden "principal task is required").

Definition ev_set_ArtifactRefs (refs : list ArtifactID) (e : Event) : Event :=
  mkEvent (ev_ID e) (ev_Sequence e) (ev_StableKey e) (ev_Type e) (ev_ProjectID e) (ev_TaskID e) (ev_WorkspaceRef e)
    (ev_PhaseEndpoint e) (ev_AgentInvocationID e) (ev_Payload e) refs (ev_GraphRevision e) (ev_CreatedAt e).

Section log.
Context (hashBytes : string -> string) (encodeRequest : EventRequest -> string).

Definition canonicalEventRequestHash (appendEvent : AppendEvent) (payload : string) : string :=
  hashBytes (encodeRequest (mkEventRequest (ae_Type appendEvent) (ae_ProjectID appendEvent) (ae_TaskID appendEvent)
    (ae_WorkspaceRef appendEvent) (ae_PhaseEndpoint appendEvent) (ae_AgentInvocationID appendEvent) payload
    (ae_ArtifactRefs appendEvent) (ae_GraphRevision appendEvent))).

Definition newEvent (appendEvent : AppendEvent) (payload : string) (n : Z) (now : Time) : Event :=
  mkEvent ("evt_" +:+ pad12 n) n (ae_StableKey appendEvent) (ae_Type appendEvent) (ae_ProjectID appendEvent)
    (ae_TaskID appendEvent) (ae_WorkspaceRef appendEvent) (ae_PhaseEndpoint appendEvent) (ae_AgentInvocationID appendEvent)
    payload (ae_ArtifactRefs appendEvent) (ae_GraphRevision appendEvent) now.

Definition Append (ctx : Context) (appendEvent : AppendEvent) (now : Time) : M error EventLog Event :=
  _ ← lift (ctx_Err ctx);
  _ ← lift (fail_if (bool_decide (ae_Type appendEvent = "")) (InvalidArgument "event type is required"));
  _ ← lift (fail_if (bool_decide (ae_StableKey appendEvent = "")) (InvalidArgument "stable event key is required"));
  l ← get_state;
  payload ← lift (encodePayload (ae_Payload appendEvent) (el_maxPayloadBytes l));
  let requestHash := canonicalEventRequestHash appendEvent payload in
  match el_byStableKey l !! ae_StableKey appendEvent with
  | Some existing =>
    _ ← lift (fail_if (bool_decide (se_requestHash existing <> requestHash)) IdempotencyConflict);
    mret (se_event existing)
  | None =>
    let event := newEvent appendEvent payload (Z.of_nat (length (el_events l)) + 1) now in
    _ ← put_state (mkEventLog (el_maxPayloadBytes l) (el_events l ++ [event])
                     (<[ae_StableKey appendEvent := mkStableEvent event requestHash]> (el_byStableKey l)));
    mret event
  end.

(** The loop of both replays: skip, collect, stop at [limit] events. *)
Fixpoint collect (keep : Event -> bool) (limit : nat) (events : list Event) : list Event :=
  match events with
  | [] => []
  | event :: rest =>
    if negb (keep event) then collect keep limit rest
    else event :: (if bool_decide (limit = 1) then [] else collect keep (limit - 1) rest)
  end.

Definition pageSize (limit : Z) : nat := if (limit <=? 0)%Z then 100 else Z.to_nat limit.

Definition nextCursor (after : Cursor) (events : list Event) : Cursor :=
  match last events with Some event => ev_Sequence event | None => after end.

Definition Replay (ctx : Context) (after : Cursor) (limit : Z) : M error EventLog (list Event * Cursor) :=
  _ ← lift (ctx_Err ctx);
  l ← get_state;
  let events := collect (fun event => negb (ev_Sequence event <=? after)%Z) (pageSize limit) (el_events l) in
  mret (events, nextCursor after events).

Definition taskEvent (projectID : ProjectID) (taskID : TaskID) (after : Cursor) (event : Event) : bool :=
  negb (ev_Sequence event <=? after)%Z &&
  negb (bool_decide (ev_ProjectID event <> projectID) || bool_decide (ev_TaskID event <> taskID)).

Definition ReplayTask (ctx : Context) (projectID : ProjectID) (taskID : TaskID) (after : Cursor) (limit : Z) :
    M error EventLog (list Event * Cursor) :=
  _ ← lift (ctx_Err ctx);
  _ ← lift (fail_if (bool_decide (projectID = "")) (InvalidArgument "project_id is required"));
  _ ← lift (fail_if (bool_decide (taskID = "")) (InvalidArgument "task_id is required"));
  l ← get_state;
  let events := collect (taskEvent projectID taskID after) (pageSize limit) (el_events l) in
  mret (events, nextCursor after events).

(** The artifact store of the reader, when it has one, tells who may read what. *)
Definition visibleArtifactRefs (artifacts : option (Principal -> ArtifactID -> bool)) (principal : Principal)
    (refs : list ArtifactID) : list ArtifactID :=
  match artifacts with
  | None => refs
  | Some canRead => filter (fun ref => canRead principal ref = true) refs
  end.

Definition ReadTask (artifacts : option (Principal -> ArtifactID -> bool)) (ctx : Context) (principal : Principal)
    (taskID : TaskID) (after : Cursor) (limit : Z) : M error EventLog (list Event * Cursor) :=
  _ ← lift (requirePrincipal principal);
  _ ← lift (fail_if (bool_decide (taskID = "")) (InvalidArgument "task_id is required"));
  _ ← lift (fail_if (bool_decide (ep_TaskID principal <> taskID)) (Forbidden "principal cannot read task projection"));
  let limit := (if (limit <=? 0)%Z then 100 else limit)%Z in
  page ← ReplayTask ctx (ep_ProjectID principal) taskID after limit;
  mret ((fun event => ev_set_ArtifactRefs (visibleArtifactRefs artifacts principal (ev_ArtifactRefs event)) event) <$> page.1, page.2).

End log.
