(* ===== verification/EvArtifacts.v ===== *)
(** * The artifact registry

    [evidence/artifact.go] over an object store.  [Register] looks for the content
    under a read lock and grants what it found under the write lock, or writes the
    object without a lock and then stores the record under the write lock, looking
    again; [registerLookup], [registerGrant] and [registerStore] are the locked parts.  [strings.ToLower] is a parameter. *)

From stdpp Require Import base tactics option list strings gmap sets.
From Stdlib Require Import ZArith Ascii.
From S2P Require Import Prelude GoLib GoStrings GoPath Kernel CoordTypes ObjStore EvLog.

Definition ArtifactAgentTranscript : string := "agent_transcript".
Definition ArtifactToolOutput : string := "tool_output".
Definition ArtifactTestOutput : string := "test_output".
Definition ArtifactDiffPatch : string := "diff_patch".
Definition ArtifactScreenshot : string := "screenshot".
Definition ArtifactGeneratedReport : string := "generated_report".

Definition EvRoleTaskManager : string := "task_manager".

Record Artifact := mkArtifact {
  ar_ID : ArtifactID;
  ar_Type : string;
  ar_PathOrBlobRef : string;
  ar_ContentHash : string;
  ar_Size : Z;
  ar_ProjectID : ProjectID;
  ar_TaskID : TaskID;
  ar_AgentInvocationID : InvocationID;
  ar_CreatedAt : Time;
}.

Record RegisterArtifact := mkRegister {
  ra_Type : string;
  ra_ProjectID : ProjectID;
  ra_Path : string;
  ra_ContentType : string;
  ra_Body : string;
  ra_TaskID : TaskID;
  ra_AgentInvocationID : InvocationID;
}.

Abbreviation ArtifactGrant := (ProjectID * TaskID)%type.
Abbreviation artifactContentKey := (string * string)%type.

(** The registry and the object store it writes to. *)
Record ArtifactRegistry (S : Type) := mkRegistry {
  rg_bucket : string;
  rg_records : gmap ArtifactID Artifact;
  rg_byKey : gmap artifactContentKey ArtifactID;
  rg_grants : gmap ArtifactID (gset ArtifactGrant);
  rg_objects : S;
}.
Arguments mkRegistry {S}.
Arguments rg_bucket {S}.
Arguments rg_records {S}.
Arguments rg_byKey {S}.
Arguments rg_grants {S}.
Arguments rg_objects {S}.

Definition NewArtifactRegistry {S} (objects : S) (bucket : string) : ArtifactRegistry S :=
  mkRegistry (if bool_decide (bucket = "") then "artifacts" else bucket) ∅ ∅ ∅ objects.

Definition parseBlobRef (ref : string) : res ObjectRef :=
  match Cut "/" ref with
  | Some (bucket, key) =>
    _ ← fail_if (bool_decide (bucket = "") || bool_decide (key = "")) (InvalidArgument "invalid artifact blob ref");
    Ok (mkObjectRef bucket key)
  | None => Err (InvalidArgument "invalid artifact blob ref")
  end.

Definition zeroArtifact : Artifact := mkArtifact "" "" "" "" 0 "" "" "" time_zero.

Section registry.
Context {S : Type} (store : Store S).
Context (hashBytes : string -> string) (ToLower : string -> string).

(** The text of [string(typ) + "\x00" + hash], and the first 20 digits of its hash. *)
Definition artifactID (typ hash : string) : ArtifactID :=
  "art_" +:+ String.substring 0 20 (hashBytes (typ +:+ String "000" hash)).

Definition rejectSensitivePath (p : string) : res unit :=
  if bool_decide (p = "") then Ok tt
  else
    let clean := ToLower (Clean (backslashes p)) in
    each (fun part =>
      _ ← fail_if (bool_decide (part ∈ ["sessions"; "credentials"; "secrets"; ".ssh"; ".aws"]))
          (Forbidden "sensitive artifact path is not allowed");
      fail_if (has_suffix ".pem" part || has_suffix ".key" part || bool_decide (part = ".env"))
        (Forbidden "sensitive artifact path is not allowed")) (Split "/" clean).

Definition sensitiveMarkers : list string :=
  ["-----begin private key-----"; "aws_secret_access_key"; "private_key="; "password="; "secret="].

Definition rejectSensitiveContent (body : string) : res unit :=
  let lower := ToLower body in
  each (fun marker => fail_if (Contains marker lower) (Forbidden "sensitive artifact content is not allowed")) sensitiveMarkers.

Definition addGrantLocked (id : ArtifactID) (grant : ArtifactGrant) (r : ArtifactRegistry S) : ArtifactRegistry S :=
  mkRegistry (rg_bucket r) (rg_records r) (rg_byKey r) (<[id := {[grant]} ∪ default ∅ (rg_grants r !! id)]> (rg_grants r)) (rg_objects r).

Definition grantOf (req : RegisterArtifact) : ArtifactGrant := (ra_ProjectID req, ra_TaskID req).

Definition registerGuards (req : RegisterArtifact) : res unit :=
  _ ← fail_if (bool_decide (ra_Type req = "")) (InvalidArgument "artifact type is required");
  _ ← fail_if (bool_decide (ra_ProjectID req = "")) (InvalidArgument "project_id is required");
  _ ← fail_if (bool_decide (ra_TaskID req = "")) (InvalidArgument "task_id is required");
  _ ← rejectSensitivePath (ra_Path req);
  rejectSensitiveContent (ra_Body req).

(** Under the read lock: the existing record. *)
Definition registerLookup (req : RegisterArtifact) : M error (ArtifactRegistry S) (option (ArtifactID * Artifact)) :=
  r ← get_state;
  mret (match rg_byKey r !! (ra_Type req, hashBytes (ra_Body req)) with
        | Some existingID => Some (existingID, default zeroArtifact (rg_records r !! existingID))
        | None => None
        end).

(** [addGrant], under the write lock. *)
Definition registerGrant (existingID : ArtifactID) (req : RegisterArtifact) : M error (ArtifactRegistry S) unit :=
  modify (addGrantLocked existingID (grantOf req)).

(** [r.store.Put] and the check of its answer. *)
Definition registerPut (ctx : Context) (req : RegisterArtifact) : M error (ArtifactRegistry S) PutResult := fun r =>
  let hash := hashBytes (ra_Body req) in
  let '(answer, objects) := os_Put store ctx (mkPutObject (rg_bucket r) (path_join [ra_Type req; hash]) (ra_ContentType req)
                                (Some (Ok (ra_Body req)))) (rg_objects r) in
  (put ← wrap "put artifact object" answer;
   _ ← fail_if (bool_decide (pt_SHA256 put <> hash)) (InvalidArgument "artifact hash mismatch after write");
   Ok put,
   mkRegistry (rg_bucket r) (rg_records r) (rg_byKey r) (rg_grants r) objects).

(** Under the write lock. *)
Definition registerStore (req : RegisterArtifact) (put : PutResult) (now : Time) : M error (ArtifactRegistry S) Artifact :=
  let hash := hashBytes (ra_Body req) in
  r ← get_state;
  match rg_byKey r !! (ra_Type req, hash) with
  | Some existingID =>
    _ ← modify (addGrantLocked existingID (grantOf req));
    mret (default zeroArtifact (rg_records r !! existingID))
  | None =>
    let artifact := mkArtifact (artifactID (ra_Type req) hash) (ra_Type req)
      (or_Bucket (pt_Ref put) +:+ "/" +:+ or_Key (pt_Ref put)) hash (pt_Size put) (ra_ProjectID req) (ra_TaskID req)
      (ra_AgentInvocationID req) now in
    _ ← put_state (mkRegistry (rg_bucket r) (<[ar_ID artifact := artifact]> (rg_records r))
                     (<[(ra_Type req, hash) := ar_ID artifact]> (rg_byKey r)) (rg_grants r) (rg_objects r));
    _ ← modify (addGrantLocked (ar_ID artifact) (grantOf req));
    mret artifact
  end.

Definition Register (ctx : Context) (req : RegisterArtifact) (now : Time) : M error (ArtifactRegistry S) Artifact :=
  _ ← lift (registerGuards req);
  found ← registerLookup req;
  match found with
  | Some (existingID, existing) => _ ← registerGrant existingID req; mret existing
  | None => put ← registerPut ctx req; registerStore req put now
  end.

Definition CanRead (r : ArtifactRegistry S) (principal : Principal) (id : ArtifactID) : bool :=
  if negb (is_ok (requirePrincipal principal)) then false
  else
    let granted := bool_decide ((ep_ProjectID principal, ep_TaskID principal) ∈ default ∅ (rg_grants r !! id)) in
    match rg_records r !! id with
    | None => false
    | Some artifact =>
      if bool_decide (ar_Type artifact = ArtifactAgentTranscript) && bool_decide (ep_Role principal = EvRoleTaskManager) then false
      else granted
    end.

Definition Open (ctx : Context) (principal : Principal) (id : ArtifactID) : M error (ArtifactRegistry S) (Artifact * string) := fun r =>
  if negb (CanRead r principal id) then (Err (Forbidden "artifact is not readable by principal"), r)
  else
    match rg_records r !! id with
    | None => (Err (kerr CodeNotFound "artifact not found" false), r)
    | Some artifact =>
      match parseBlobRef (ar_PathOrBlobRef artifact) with
      | Err e => (Err e, r)
      | Ok ref =>
        let '(answer, objects) := os_Get store ctx ref (rg_objects r) in
        (got ← wrap "get artifact object" answer;
         _ ← fail_if (bool_decide (hashBytes (gt_Body got) <> ar_ContentHash artifact) ||
                      bool_decide (gt_SHA256 got <> ar_ContentHash artifact))
             (kerr CodeInvalidRequest "artifact hash verification failed" false);
         Ok (artifact, gt_Body got),
         mkRegistry (rg_bucket r) (rg_records r) (rg_byKey r) (rg_grants r) objects)
      end
    end.

End registry.
