(* ===== verification/EvProps.v ===== *)
(** * Properties of the event log and the artifact registry

    The log is numbered without gaps, its index of stable keys is exact, and a page is
    a segment of the events that were asked for; the registry under overlapping
    callers; then the theorems. *)

From stdpp Require Import base tactics option list strings gmap relations sorting sets.
From Stdlib Require Import ZArith Ascii.
From S2P Require Import Prelude GoLib GoStrings GoPath Kernel CoordTypes WsPaths ObjStore EvLog.
From S2P Require Import EvArtifacts.

(** ** Pages *)

Lemma collect_take keep n events : 1 <= n -> collect keep n events = take n (filter (fun e => keep e = true) events).
Proof.
  revert n. induction events as [|e events IH]; intros n Hn; [simpl; by rewrite filter_nil, take_nil|]. simpl.
  destruct (keep e) eqn:He; simpl.
  - rewrite filter_cons_True by done. destruct n as [|n]; [lia|]. simpl. f_equal. case_bool_decide as H1.
    + by replace n with 0 by lia.
    + rewrite Nat.sub_0_r. apply IH. lia.
  - rewrite filter_cons_False by congruence. by apply IH.
Qed.

Lemma pageSize_pos limit : 1 <= pageSize limit.
Proof. unfold pageSize. destruct (limit <=? 0)%Z eqn:H; [lia|]. apply Z.leb_gt in H. lia. Qed.

Lemma filter_all {A} (P : A -> Prop) `{!forall x, Decision (P x)} l : Forall P l -> filter P l = l.
Proof. induction 1; [done|]. rewrite filter_cons_True by done. by f_equal. Qed.

Lemma filter_none {A} (P : A -> Prop) `{!forall x, Decision (P x)} l : Forall (fun x => ~ P x) l -> filter P l = [].
Proof. induction 1; [done|]. by rewrite filter_cons_False by done. Qed.

(** The events that pass [sel], after a cursor. *)
Definition events_after (sel : Event -> bool) (c : Cursor) (events : list Event) : list Event :=
  filter (fun e => negb (ev_Sequence e <=? c)%Z && sel e = true) events.

Definition increasing (events : list Event) : Prop := StronglySorted (fun a b => ev_Sequence a < ev_Sequence b)%Z events.

Lemma increasing_filter P `{!forall e, Decision (P e)} events : increasing events -> increasing (filter P events).
Proof.
  unfold increasing. induction 1 as [|e events Hs IH Hf]; [constructor|].
  destruct (decide (P e)); [rewrite filter_cons_True by done|by rewrite filter_cons_False by done].
  constructor; [done|]. rewrite Forall_forall in *. intros x [_ Hx]%list_elem_of_filter. by apply Hf.
Qed.

Lemma increasing_app l1 l2 x y : increasing (l1 ++ l2) -> x ∈ l1 -> y ∈ l2 -> (ev_Sequence x < ev_Sequence y)%Z.
Proof. intros H Hx Hy. by apply (StronglySorted_app_1_elem_of _ l1 l2 x y H). Qed.

(** What is left after a page is what follows its last event. *)
Lemma events_after_page sel c n events page :
  increasing events -> page = take n (events_after sel c events) ->
  events_after sel c events = page ++ events_after sel (nextCursor c page) events.
Proof.
  intros Hinc ->. set (F := events_after sel c events). assert (increasing F) as HF by by apply increasing_filter.
  unfold nextCursor. destruct (last (take n F)) as [e|] eqn:Hlast.
  - rewrite <- (take_drop n F) at 1. f_equal. rewrite <- (take_drop n F) in HF.
    pose proof (proj1 (last_Some _ _) Hlast) as [init Hinit].
    assert (e ∈ F) as He. { rewrite <- (take_drop n F), Hinit. set_solver. }
    assert (c < ev_Sequence e)%Z as Hce.
    { unfold F, events_after in He. apply list_elem_of_filter in He as [He _]. apply andb_true_iff in He as [He _].
      apply negb_true_iff, Z.leb_gt in He. done. }
    assert (events_after sel (ev_Sequence e) events = filter (fun x => negb (ev_Sequence x <=? ev_Sequence e)%Z = true) F) as ->.
    { unfold F, events_after. rewrite list_filter_filter. apply list_filter_iff. intros x. rewrite !andb_true_iff, !negb_true_iff, !Z.leb_gt. intuition lia. }
    rewrite <- (take_drop n F) at 2. rewrite filter_app, (filter_none _ (take n F)), filter_all; [done|..].
    + apply Forall_forall. intros x Hx. rewrite negb_true_iff, Z.leb_gt.
      eapply increasing_app; [exact HF| |done]. rewrite Hinit. set_solver.
    + apply Forall_forall. intros x Hx. rewrite negb_true_iff, Z.leb_gt. rewrite Hinit in Hx.
      apply elem_of_app in Hx as [Hx| ->%list_elem_of_singleton]; [|lia]. rewrite Hinit, <- app_assoc in HF.
      assert (ev_Sequence x < ev_Sequence e)%Z; [|lia]. eapply increasing_app; [exact HF|done|set_solver].
  - apply last_None in Hlast. by rewrite Hlast.
Qed.

(** ** Appending *)

Section log.
Context (hashBytes : string -> string) (encodeRequest : EventRequest -> string).

Record log_inv (l : EventLog) : Prop := {
  li_events : forall i e, el_events l !! i = Some e ->
    ev_Sequence e = (Z.of_nat i + 1)%Z /\ ev_ID e = ("evt_" +:+ pad12 (Z.of_nat i + 1))%string /\
    exists hash, el_byStableKey l !! ev_StableKey e = Some (mkStableEvent e hash);
  li_keys : forall key r, el_byStableKey l !! key = Some r -> se_event r ∈ el_events l /\ ev_StableKey (se_event r) = key;
}.

Definition log_step (l l' : EventLog) : Prop :=
  exists ctx req now, l' = (Append hashBytes encodeRequest ctx req now l).2.

(** What an append does: nothing, or one new event at the end. *)
Lemma Append_cases ctx req now l r l' : Append hashBytes encodeRequest ctx req now l = (r, l') ->
  (exists e, r = Err e /\ l' = l) \/
  (ctx = None /\ ae_Type req <> "" /\ ae_StableKey req <> "" /\
   exists payload, encodePayload (ae_Payload req) (el_maxPayloadBytes l) = Ok payload /\
   let hash := canonicalEventRequestHash hashBytes encodeRequest req payload in
   ((exists e, el_byStableKey l !! ae_StableKey req = Some (mkStableEvent e hash) /\ r = Ok e /\ l' = l) \/
    (el_byStableKey l !! ae_StableKey req = None /\
     let e := newEvent req payload (Z.of_nat (length (el_events l)) + 1) now in
     r = Ok e /\ l' = mkEventLog (el_maxPayloadBytes l) (el_events l ++ [e])
                        (<[ae_StableKey req := mkStableEvent e hash]> (el_byStableKey l))))).
Proof.
  unfold Append, mbind, M_bind, lift, get_state, put_state, mret, M_ret. destruct ctx as [e|]; simpl.
  { intros [= <- <-]. left. eauto. }
  case_bool_decide as Ht; simpl; [intros [= <- <-]; left; by eauto|].
  case_bool_decide as Hk; simpl; [intros [= <- <-]; left; by eauto|].
  destruct (encodePayload _ _) as [payload|e] eqn:Hp; [|intros [= <- <-]; left; by eauto].
  destruct (_ !! _) as [[e hash]|] eqn:Hkey; simpl.
  - case_bool_decide as Hh; simpl; intros [= <- <-]; [left; by eauto|]. right. split_and!; try done. exists payload. split; [done|].
    left. exists e. split_and!; [|done..]. by rewrite <- Hh.
  - intros [= <- <-]. right. split_and!; try done. exists payload. split; [done|]. by right.
Qed.

Lemma log_inv_new n : log_inv (NewEventLog n).
Proof. constructor; simpl; [intros i e; by rewrite lookup_nil|intros key r; by rewrite lookup_empty]. Qed.

Lemma log_inv_append ctx req now l r l' : log_inv l -> Append hashBytes encodeRequest ctx req now l = (r, l') -> log_inv l'.
Proof.
  intros [H1 H2] [(e & _ & ->)|(_ & _ & _ & payload & _ & [(e & _ & _ & ->)|(Hkey & _ & ->)])]%Append_cases;
    [by constructor|by constructor|].
  constructor; simpl.
  - intros i e [Hi|[Hlen Hi]]%lookup_app_Some.
    + destruct (H1 i e Hi) as (? & ? & hash & Hh). split_and!; try done. exists hash. rewrite lookup_insert_ne; [done|]. congruence.
    + apply list_lookup_singleton_Some in Hi as [Hi <-]. replace i with (length (el_events l)) by lia. simpl. split_and!; [done..|].
      eexists. by rewrite lookup_insert_eq.
  - intros key r' [[<- <-]|[_ Hr]]%lookup_insert_Some; simpl; [set_solver|]. destruct (H2 _ _ Hr). set_solver.
Qed.

(** Later logs extend earlier ones, and keep their index. *)
Definition extends (l l' : EventLog) : Prop :=
  el_maxPayloadBytes l' = el_maxPayloadBytes l /\ el_events l `prefix_of` el_events l' /\ el_byStableKey l ⊆ el_byStableKey l'.

#[global] Instance extends_preorder : PreOrder extends.
Proof.
  split; [by intros l|]. intros l1 l2 l3 (? & ? & ?) (? & ? & ?). split_and!; [congruence|by etrans|by etrans].
Qed.

Lemma log_step_extends l l' : log_step l l' -> extends l l'.
Proof.
  intros (ctx & req & now & ->). destruct (Append _ _ _ _ _ l) as [r l'] eqn:H. simpl.
  apply Append_cases in H as [(e & _ & ->)|(_ & _ & _ & payload & _ & [(e & _ & _ & ->)|(Hkey & _ & ->)])]; [done|done|].
  split_and!; simpl; [done|by eexists|by apply insert_subseteq].
Qed.

Lemma log_steps_extends l l' : rtc log_step l l' -> extends l l'.
Proof. induction 1 as [|l1 l2 l3 H _ IH]; [done|]. etrans; [by apply log_step_extends|done]. Qed.

Lemma log_steps_inv l l' : log_inv l -> rtc log_step l l' -> log_inv l'.
Proof.
  intros Hl H. induction H as [|l1 l2 l3 (ctx & req & now & ->) _ IH]; [done|]. apply IH.
  by eapply log_inv_append; [|apply surjective_pairing].
Qed.

Lemma log_inv_increasing l : log_inv l -> increasing (el_events l).
Proof.
  intros [H _]. unfold increasing. assert (forall k, (forall i e, el_events l !! i = Some e -> ev_Sequence e = (Z.of_nat (k + i) + 1)%Z) ->
    StronglySorted (fun a b => ev_Sequence a < ev_Sequence b)%Z (el_events l)) as Hgen; [|apply (Hgen 0); intros i e Hi; apply (H i e Hi)].
  clear H. induction (el_events l) as [|e es IH]; intros k Hk; constructor.
  - apply (IH (S k)). intros i x Hx. rewrite (Hk (S i) x Hx). lia.
  - apply Forall_forall. intros x [i Hx]%list_elem_of_lookup_1. rewrite (Hk (S i) x Hx), (Hk 0 e eq_refl). lia.
Qed.

(** ** Reading *)

Lemma page_extends sel c n l l' : log_inv l' -> extends l l' -> 1 <= n ->
  let page := take n (events_after sel c (el_events l)) in
  events_after sel c (el_events l') = page ++ events_after sel (nextCursor c page) (el_events l').
Proof.
  intros Hinv (_ & [new Hnew] & _) Hn page. apply (events_after_page sel c (length page)); [by apply log_inv_increasing|].
  rewrite Hnew. unfold events_after. rewrite filter_app. fold (events_after sel c (el_events l)) (events_after sel c new).
  unfold page. rewrite take_app_le by (rewrite length_take; lia). rewrite length_take.
  destruct (decide (n <= length (events_after sel c (el_events l)))).
  - by rewrite Nat.min_l.
  - rewrite Nat.min_r by lia. rewrite !take_ge by lia. done.
Qed.

End log.

(** * Content-addressed object stores

    What the artifact registry relies on of the object store it writes to
    ([BlobStore]), for keys that end in the hash of the content, and that the
    in-memory store promises it. *)

(** A put under a key that ends in the hash of the body. *)
Definition content_keyed (hashBytes : string -> string) (obj : PutObject) (body : string) : Prop :=
  po_Body obj = Some (Ok body) /\ exists dir, dir <> "" /\ po_Key obj = path_join [dir; hashBytes body].

(** A reference that can be written as [bucket/key] and read back. *)
Definition printable (ref : ObjectRef) : Prop := or_Bucket ref <> "" /\ ~ char_in "/" (or_Bucket ref) /\ or_Key ref <> "".

(** [bl_body] is the content a state holds under a reference: content never
    changes, and reading it gives it back. *)
Class BlobStore {S} (store : Store S) (hashBytes : string -> string) := {
  bl_ok : S -> Prop;
  bl_body : S -> ObjectRef -> option string;
  bl_ref : forall s ref b, bl_ok s -> bl_body s ref = Some b -> printable ref;
  bl_put : forall ctx obj body s r s', bl_ok s -> content_keyed hashBytes obj body -> os_Put store ctx obj s = (r, s') ->
    bl_ok s' /\ (forall ref b, bl_body s ref = Some b -> bl_body s' ref = Some b) /\
    match r with
    | Ok p => pt_SHA256 p = hashBytes body /\ exists b, bl_body s' (pt_Ref p) = Some b /\ hashBytes b = hashBytes body
    | Err _ => True
    end;
  bl_get : forall s ref b, bl_ok s -> bl_body s ref = Some b ->
    exists g, os_Get store None ref s = (Ok g, s) /\ gt_Body g = b /\ gt_SHA256 g = hashBytes b;
  bl_get_keeps : forall ctx ref s, (os_Get store ctx ref s).2 = s;
}.

(** ** Strings *)

Lemma Contains_char c s : Contains (String c EmptyString) s = false -> ~ char_in c s.
Proof.
  induction s as [|a s IH]; [intros _ H; by apply elem_of_nil in H|]. cbn. intros [H1 H2]%orb_false_iff [->|H]%elem_of_cons.
  - unfold has_prefix in H1. simpl in H1. destruct (ascii_dec a a); [by destruct s|done].
  - by apply IH.
Qed.

Lemma slash_inj (b1 k1 b2 k2 : string) : ~ char_in "/" b1 -> ~ char_in "/" b2 ->
  (b1 +:+ "/" +:+ k1 = b2 +:+ "/" +:+ k2)%string -> b1 = b2 /\ k1 = k2.
Proof.
  intros H1 H2 H. change ("/" +:+ k1)%string with (String "/" k1) in H. change ("/" +:+ k2)%string with (String "/" k2) in H.
  apply (f_equal (Cut "/")) in H. rewrite !Cut_app in H by done. by simplify_eq.
Qed.

(** ** The in-memory store *)

Section memory.
Context (hashBytes : string -> string).
Context (hash_plain : forall body, plain (hashBytes body)).

Definition hash_key (bucket hash : string) : string := bucket +:+ "/" +:+ hash.

Record mem_ok (s : MemObjects) : Prop := {
  mk_objects : forall k o, mo_objects s !! k = Some o ->
    k = objectKey (mo_ref o) /\ printable (mo_ref o) /\ mo_sha256 o = hashBytes (mo_body o) /\
    last (components (or_Key (mo_ref o))) = Some (mo_sha256 o) /\
    is_Some (mo_byHash s !! hash_key (or_Bucket (mo_ref o)) (mo_sha256 o));
  mk_hashes : forall h ref, mo_byHash s !! h = Some ref ->
    exists o, mo_objects s !! objectKey ref = Some o /\ mo_ref o = ref /\ h = hash_key (or_Bucket ref) (mo_sha256 o);
}.

Definition mem_body (s : MemObjects) (ref : ObjectRef) : option string :=
  match mo_objects s !! objectKey ref with
  | Some o => if decide (mo_ref o = ref) then Some (mo_body o) else None
  | None => None
  end.

Lemma mem_body_Some s ref b : mem_body s ref = Some b <->
  exists o, mo_objects s !! objectKey ref = Some o /\ mo_ref o = ref /\ mo_body o = b.
Proof. unfold mem_body. destruct (_ !! _) as [o|]; [|naive_solver]. destruct (decide (mo_ref o = ref)); naive_solver. Qed.

Lemma objectKey_inj ref1 ref2 : printable ref1 -> printable ref2 -> objectKey ref1 = objectKey ref2 -> ref1 = ref2.
Proof.
  intros (_ & H1 & _) (_ & H2 & _) H. apply slash_inj in H as [Hb Hk]; [|done..]. destruct ref1, ref2. simpl in *. congruence.
Qed.

Lemma content_key_last dir body : dir <> "" -> last (components (path_join [dir; hashBytes body])) = Some (hashBytes body).
Proof.
  intros Hd. change (hashBytes body) with (Join "/" [hashBytes body]) at 1.
  destruct (join_components dir [hashBytes body] Hd) as [_ ->]; [done|by constructor|]. by rewrite last_snoc.
Qed.

(** A put that finds no equal content writes a new key. *)
Lemma mem_put_fresh s bucket key hash :
  mem_ok s -> printable (mkObjectRef bucket key) -> last (components key) = Some hash ->
  mo_byHash s !! hash_key bucket hash = None -> mo_objects s !! objectKey (mkObjectRef bucket key) = None.
Proof.
  intros Hs Hp Hlast Hnone. destruct (_ !! objectKey _) as [o|] eqn:Ho; [|done]. exfalso.
  destruct (mk_objects _ Hs _ _ Ho) as (Hk & Hpo & _ & Hl & Hsome). apply objectKey_inj in Hk; [|done..].
  rewrite <- Hk in *. simpl in *. rewrite Hlast in Hl. injection Hl as Hl. rewrite <- Hl, Hnone in Hsome. by destruct Hsome.
Qed.

Lemma mem_ok_put s bucket key type body :
  let ref := mkObjectRef bucket key in
  mem_ok s -> printable ref -> last (components key) = Some (hashBytes body) ->
  mo_byHash s !! hash_key bucket (hashBytes body) = None ->
  mem_ok (mkMemObjects (<[objectKey ref := mkMemoryObject ref type (hashBytes body) body]> (mo_objects s))
            (<[hash_key bucket (hashBytes body) := ref]> (mo_byHash s))).
Proof.
  intros ref Hs Hp Hlast Hnone. pose proof (mem_put_fresh _ _ _ _ Hs Hp Hlast Hnone) as Hfresh. constructor; simpl.
  - intros k o [[<- <-]|[_ Ho]]%lookup_insert_Some; simpl.
    + split_and!; [done..|]. by rewrite lookup_insert_eq.
    + destruct (mk_objects _ Hs _ _ Ho) as (? & ? & ? & ? & Hsome). split_and!; [done..|].
      destruct (decide (hash_key (or_Bucket (mo_ref o)) (mo_sha256 o) = hash_key bucket (hashBytes body))) as [->|Hne];
        [by rewrite lookup_insert_eq|by rewrite lookup_insert_ne].
  - intros h r [[<- <-]|[_ Hr]]%lookup_insert_Some.
    + eexists. by rewrite lookup_insert_eq.
    + destruct (mk_hashes _ Hs _ _ Hr) as (o & Ho & Hor & Hh). exists o. rewrite lookup_insert_ne; [done|]. intros Heq. 
      subst ref. rewrite Heq in Hfresh. congruence.
Qed.

(** The two ways a put can succeed. *)
Lemma mem_put_cases ctx obj body s r s' : po_Body obj = Some (Ok body) -> MemObjects_Put hashBytes ctx obj s = (r, s') ->
  (exists e, r = Err e /\ s' = s) \/
  (exists ref size, mo_byHash s !! hash_key (po_Bucket obj) (hashBytes body) = Some ref /\
     r = Ok (mkPutResult ref (hashBytes body) size) /\ s' = s) \/
  (mo_byHash s !! hash_key (po_Bucket obj) (hashBytes body) = None /\ po_Bucket obj <> "" /\ ~ char_in "/" (po_Bucket obj) /\
   exists key size, cleanKey (if bool_decide (po_Key obj = "") then hashBytes body else po_Key obj) = Ok key /\
     let ref := mkObjectRef (po_Bucket obj) key in
     r = Ok (mkPutResult ref (hashBytes body) size) /\
     s' = mkMemObjects (<[objectKey ref := mkMemoryObject ref (po_ContentType obj) (hashBytes body) body]> (mo_objects s))
            (<[hash_key (po_Bucket obj) (hashBytes body) := ref]> (mo_byHash s))).
Proof.
  intros Hbody. unfold MemObjects_Put, mbind, M_bind, lift, get_state, put_state, mret, M_ret. rewrite Hbody.
  destruct ctx as [e|]; simpl; [intros [= <- <-]; left; by eauto|].
  case_bool_decide as Hb; simpl; [intros [= <- <-]; left; by eauto|].
  destruct (validateBucket (po_Bucket obj)) as [u|e] eqn:Hv; [|intros [= <- <-]; left; by eauto].
  fold (hash_key (po_Bucket obj) (hashBytes body)). destruct (mo_byHash s !! _) as [ref|] eqn:Hh.
  { intros [= <- <-]. right. left. by eauto. }
  destruct (cleanKey _) as [key|e] eqn:Hk; [|intros [= <- <-]; left; by eauto]. intros [= <- <-]. right. right.
  unfold validateBucket in Hv. res_inv. bool_inv. split_and!; [done|done|by apply Contains_char|]. by eauto.
Qed.

Lemma cleanKey_Ok key k : cleanKey key = Ok k -> k = key /\ key <> "".
Proof. unfold cleanKey. intros H. res_inv. bool_inv. split; congruence. Qed.

Lemma mem_body_put s k o h ref b r0 : mem_ok s -> mo_objects s !! k = None -> mem_body s ref = Some b ->
  mem_body (mkMemObjects (<[k := o]> (mo_objects s)) (<[h := r0]> (mo_byHash s))) ref = Some b.
Proof.
  intros Hs Hk (x & Hx & Hr & Hb)%mem_body_Some. apply mem_body_Some. exists x. simpl. rewrite lookup_insert_ne; [done|]. congruence.
Qed.

Lemma mem_put_law ctx obj body s r s' : mem_ok s -> content_keyed hashBytes obj body -> MemObjects_Put hashBytes ctx obj s = (r, s') ->
  mem_ok s' /\ (forall ref b, mem_body s ref = Some b -> mem_body s' ref = Some b) /\
  match r with
  | Ok p => pt_SHA256 p = hashBytes body /\ exists b, mem_body s' (pt_Ref p) = Some b /\ hashBytes b = hashBytes body
  | Err _ => True
  end.
Proof.
  intros Hs (Hbody & dir & Hdir & Hkey) Hput. destruct (mem_put_cases _ _ _ _ _ _ Hbody Hput) as [(e & -> & ->)|[H|H]]; [done|..].
  - destruct H as (ref & size & Href & -> & ->). split_and!; [done|done|done|]. simpl.
    destruct (mk_hashes _ Hs _ _ Href) as (o & Ho & Hor & Hh). exists (mo_body o). split; [apply mem_body_Some; by eauto|].
    destruct (mk_objects _ Hs _ _ Ho) as (_ & (_ & Hslash & _) & <- & _). rewrite Hor in Hslash.
    apply key_inj in Hh as [_ Hh]; [done|apply hash_plain|]. pose proof (mk_objects _ Hs _ _ Ho) as (_ & _ & -> & _). apply hash_plain.
  - destruct H as (Hnone & Hb & Hslash & key & size & Hck & -> & ->). simpl.
    assert (last (components (po_Key obj)) = Some (hashBytes body)) as Hlast by (rewrite Hkey; by apply content_key_last).
    assert (po_Key obj <> "") as Hne. { intros Heq. rewrite Heq in Hlast. discriminate Hlast. }
    rewrite bool_decide_eq_false_2 in Hck by done. apply cleanKey_Ok in Hck as [-> _].
    assert (printable (mkObjectRef (po_Bucket obj) (po_Key obj))) as Hp by by split_and!.
    split_and!; [by apply mem_ok_put|intros ref b; apply mem_body_put; [done|by eapply mem_put_fresh]|done|].
    exists body. split; [|done]. apply mem_body_Some. eexists. simpl. by rewrite lookup_insert_eq.
Qed.

#[global] Program Instance memory_BlobStore : BlobStore (memoryStore hashBytes) hashBytes := {|
  bl_ok := mem_ok;
  bl_body := mem_body;
|}.
Next Obligation.
  intros s ref b Hs (o & Ho & <- & _)%mem_body_Some. by destruct (mk_objects _ Hs _ _ Ho) as (_ & Hp & _).
Qed.
Next Obligation. intros ctx obj body s r s' H1 H2 H3. exact (mem_put_law ctx obj body s r s' H1 H2 H3). Qed.
Next Obligation.
  intros s ref b Hs (o & Ho & Hr & <-)%mem_body_Some. destruct (mk_objects _ Hs _ _ Ho) as (_ & _ & Hh & _).
  unfold os_Get, memoryStore, MemObjects_Get, mbind, M_bind, lift, get_state, mret, M_ret. simpl. rewrite Ho.
  rewrite bool_decide_eq_false_2 by (rewrite Hh; naive_solver). simpl. eexists. by split_and!.
Qed.
Next Obligation.
  intros ctx ref s. simpl. unfold MemObjects_Get, mbind, M_bind, lift, get_state. destruct (ctx_Err ctx); [|done]. simpl.
  destruct (_ !! _); [|done]. by destruct (fail_if _ _).
Qed.

Lemma mem_ok_new : mem_ok NewMemObjects.
Proof. constructor; intros *; simpl; by rewrite lookup_empty. Qed.

End memory.

(** * The artifact registry: interleavings and their invariant

    [Register] is made of three atomic parts; those of different callers may
    interleave in any way.  SHA-256 is collision free on the contents in use
    ([used]): the identifiers of different contents differ. *)

(** ** Who may read *)

Lemma CanRead_true {S} (r : ArtifactRegistry S) principal id : CanRead r principal id = true <->
  requirePrincipal principal = Ok tt /\ (ep_ProjectID principal, ep_TaskID principal) ∈ default ∅ (rg_grants r !! id) /\
  exists a, rg_records r !! id = Some a /\ ~ (ar_Type a = ArtifactAgentTranscript /\ ep_Role principal = EvRoleTaskManager).
Proof.
  unfold CanRead. destruct (requirePrincipal principal) as [[]|e]; simpl; [|naive_solver].
  destruct (rg_records r !! id) as [a|]; [|naive_solver].
  destruct (bool_decide (ar_Type a = ArtifactAgentTranscript) && bool_decide (ep_Role principal = EvRoleTaskManager)) eqn:Hb.
  - apply andb_true_iff in Hb as [H1%bool_decide_eq_true H2%bool_decide_eq_true]. naive_solver.
  - apply andb_false_iff in Hb. rewrite !bool_decide_eq_false in Hb. rewrite bool_decide_eq_true. naive_solver.
Qed.

Section registry.
Context {S : Type} (store : Store S) (hashBytes ToLower : string -> string) `{BS : !BlobStore store hashBytes}.
Context (used : string -> string -> Prop).
Context (used_inj : forall t h t' h', used t h -> used t' h' -> artifactID hashBytes t h = artifactID hashBytes t' h' -> t = t' /\ h = h').

(** The registry, the objects written by callers that have not stored their
    record yet, and the requests admitted so far.  What the read lock has found is
    granted later: the index is never taken back, so it is found then too. *)
Record reg_config := mkRegConfig {
  rc_reg : ArtifactRegistry S;
  rc_pending : list (RegisterArtifact * PutResult);
  rc_requests : list RegisterArtifact;
}.

Inductive reg_step (c : reg_config) : reg_config -> Prop :=
| rs_admit req : registerGuards ToLower req = Ok tt -> used (ra_Type req) (hashBytes (ra_Body req)) ->
    reg_step c (mkRegConfig (registerLookup hashBytes req (rc_reg c)).2 (rc_pending c) (req :: rc_requests c))
| rs_grant req id a : req ∈ rc_requests c -> (registerLookup hashBytes req (rc_reg c)).1 = Ok (Some (id, a)) ->
    reg_step c (mkRegConfig (registerGrant id req (rc_reg c)).2 (rc_pending c) (rc_requests c))
| rs_put ctx req : req ∈ rc_requests c ->
    reg_step c (mkRegConfig (registerPut store hashBytes ctx req (rc_reg c)).2
                  (match (registerPut store hashBytes ctx req (rc_reg c)).1 with
                   | Ok put => (req, put) :: rc_pending c
                   | Err _ => rc_pending c
                   end) (rc_requests c))
| rs_store req put rest now : rc_pending c ≡ₚ (req, put) :: rest ->
    reg_step c (mkRegConfig (registerStore hashBytes req put now (rc_reg c)).2 rest (rc_requests c)).

Definition holds_content (objects : S) (ref : ObjectRef) (hash : string) : Prop :=
  exists b, bl_body objects ref = Some b /\ hashBytes b = hash.

Definition record_ok (objects : S) (a : Artifact) : Prop :=
  used (ar_Type a) (ar_ContentHash a) /\ ar_ID a = artifactID hashBytes (ar_Type a) (ar_ContentHash a) /\
  exists ref, ar_PathOrBlobRef a = objectKey ref /\ holds_content objects ref (ar_ContentHash a).

Record reg_inv (c : reg_config) : Prop := {
  ri_objects : bl_ok (rg_objects (rc_reg c));
  ri_records : forall id a, rg_records (rc_reg c) !! id = Some a -> ar_ID a = id /\ record_ok (rg_objects (rc_reg c)) a /\
    rg_byKey (rc_reg c) !! (ar_Type a, ar_ContentHash a) = Some id;
  ri_keys : forall t h id, rg_byKey (rc_reg c) !! (t, h) = Some id ->
    exists a, rg_records (rc_reg c) !! id = Some a /\ ar_Type a = t /\ ar_ContentHash a = h;
  ri_grants : forall id g, g ∈ default ∅ (rg_grants (rc_reg c) !! id) ->
    exists req, req ∈ rc_requests c /\ grantOf req = g /\ id = artifactID hashBytes (ra_Type req) (hashBytes (ra_Body req));
  ri_pending : forall req put, (req, put) ∈ rc_pending c -> req ∈ rc_requests c /\
    holds_content (rg_objects (rc_reg c)) (pt_Ref put) (hashBytes (ra_Body req));
  ri_requests : forall req, req ∈ rc_requests c -> registerGuards ToLower req = Ok tt /\ used (ra_Type req) (hashBytes (ra_Body req));
}.

(** ** What steps keep *)

(** Records and grants are never taken back. *)
Record reg_grows (r r' : ArtifactRegistry S) : Prop := {
  rgw_records : rg_records r ⊆ rg_records r';
  rgw_grants : forall id, default ∅ (rg_grants r !! id) ⊆ default ∅ (rg_grants r' !! id);
}.

#[global] Instance reg_grows_preorder : PreOrder reg_grows.
Proof. split; [by intros r|]. intros r1 r2 r3 [H1 H2] [H3 H4]. split; [by etrans|]. intros id. etrans; [apply H2|apply H4]. Qed.

Lemma addGrant_lookup id g (r : ArtifactRegistry S) id' :
  default ∅ (rg_grants (addGrantLocked id g r) !! id') =
  if decide (id' = id) then {[g]} ∪ default ∅ (rg_grants r !! id') else default ∅ (rg_grants r !! id').
Proof. simpl. destruct (decide (id' = id)) as [->|Hne]; [by rewrite lookup_insert_eq|by rewrite lookup_insert_ne]. Qed.

Lemma addGrant_grows id g (r : ArtifactRegistry S) : reg_grows r (addGrantLocked id g r).
Proof. split; [done|]. intros id'. rewrite addGrant_lookup. case_decide; set_solver. Qed.

(** Granting an existing record to an admitted request. *)
Lemma reg_inv_grant c req : reg_inv c -> req ∈ rc_requests c ->
  let id := artifactID hashBytes (ra_Type req) (hashBytes (ra_Body req)) in
  reg_inv (mkRegConfig (addGrantLocked id (grantOf req) (rc_reg c)) (rc_pending c) (rc_requests c)).
Proof.
  intros [H1 H2 H3 H4 H5 H6] Hreq id. constructor; try done. intros id' g. change (rc_reg (mkRegConfig ?r _ _)) with r. rewrite addGrant_lookup. case_decide; [|apply H4].
  rewrite elem_of_union, elem_of_singleton. intros [->|Hg]; [|by apply H4]. exists req. by subst.
Qed.

Lemma byKey_id c t h id : reg_inv c -> rg_byKey (rc_reg c) !! (t, h) = Some id -> id = artifactID hashBytes t h.
Proof.
  intros Hc (a & Ha & <- & <-)%(ri_keys _ Hc). by destruct (ri_records _ Hc _ _ Ha) as (<- & (_ & -> & _) & _).
Qed.

Lemma reg_inv_admit c req : reg_inv c -> registerGuards ToLower req = Ok tt -> used (ra_Type req) (hashBytes (ra_Body req)) ->
  reg_inv (mkRegConfig (rc_reg c) (rc_pending c) (req :: rc_requests c)).
Proof.
  intros [H1 H2 H3 H4 H5 H6] Hg Hu. constructor; simpl; try done.
  - intros id g (q & Hq & ?)%H4. exists q. split; [by right|done].
  - intros q put (Hq & ?)%H5. split; [by right|done].
  - intros q [->|Hq]%elem_of_cons; [done|by apply H6].
Qed.

Lemma reg_inv_drop c q rest : reg_inv c -> rc_pending c ≡ₚ q :: rest -> reg_inv (mkRegConfig (rc_reg c) rest (rc_requests c)).
Proof. intros [H1 H2 H3 H4 H5 H6] Hp. constructor; try done. intros req put Hin. apply H5. rewrite Hp. by right. Qed.

Lemma lookup_run req (r : ArtifactRegistry S) : registerLookup hashBytes req r =
  (Ok ((fun id => (id, default zeroArtifact (rg_records r !! id))) <$> rg_byKey r !! (ra_Type req, hashBytes (ra_Body req))), r).
Proof. unfold registerLookup, mbind, M_bind, get_state, mret, M_ret. simpl. by destruct (_ !! _). Qed.

Definition newArtifact (req : RegisterArtifact) (put : PutResult) (now : Time) : Artifact :=
  mkArtifact (artifactID hashBytes (ra_Type req) (hashBytes (ra_Body req))) (ra_Type req) (objectKey (pt_Ref put)) (hashBytes (ra_Body req))
    (pt_Size put) (ra_ProjectID req) (ra_TaskID req) (ra_AgentInvocationID req) now.

Definition with_record (a : Artifact) (r : ArtifactRegistry S) : ArtifactRegistry S :=
  mkRegistry (rg_bucket r) (<[ar_ID a := a]> (rg_records r)) (<[(ar_Type a, ar_ContentHash a) := ar_ID a]> (rg_byKey r)) (rg_grants r) (rg_objects r).

Lemma store_run req put now (r : ArtifactRegistry S) : registerStore hashBytes req put now r =
  match rg_byKey r !! (ra_Type req, hashBytes (ra_Body req)) with
  | Some id => (Ok (default zeroArtifact (rg_records r !! id)), addGrantLocked id (grantOf req) r)
  | None => let a := newArtifact req put now in (Ok a, addGrantLocked (ar_ID a) (grantOf req) (with_record a r))
  end.
Proof. unfold registerStore, mbind, M_bind, get_state, put_state, modify, mret, M_ret. simpl. by destruct (_ !! _). Qed.

Lemma reg_inv_record c req put now : reg_inv c -> (req, put) ∈ rc_pending c ->
  rg_byKey (rc_reg c) !! (ra_Type req, hashBytes (ra_Body req)) = None ->
  rg_records (rc_reg c) !! artifactID hashBytes (ra_Type req) (hashBytes (ra_Body req)) = None /\
  reg_inv (mkRegConfig (with_record (newArtifact req put now) (rc_reg c)) (rc_pending c) (rc_requests c)).
Proof.
  intros Hc Hin Hnone. destruct (ri_pending _ Hc _ _ Hin) as [Hreq Hcontent]. destruct (ri_requests _ Hc _ Hreq) as [_ Hused].
  set (id := artifactID hashBytes (ra_Type req) (hashBytes (ra_Body req))).
  assert (rg_records (rc_reg c) !! id = None) as Hfresh.
  { destruct (_ !! id) as [a|] eqn:Ha; [|done]. exfalso. destruct (ri_records _ Hc _ _ Ha) as (Hid & (Hu & Hida & _) & Hk).
    rewrite Hid in Hida. unfold id in Hida. apply used_inj in Hida as [Ht Hh]; [|done..]. rewrite <- Ht, <- Hh, Hnone in Hk. done. }
  split; [done|]. constructor; try apply Hc; simpl.
  - intros id' a [[<- <-]|[Hne Ha]]%lookup_insert_Some; simpl.
    + split_and!; [done| |by rewrite lookup_insert_eq]. split_and!; [done|done|]. by exists (pt_Ref put).
    + destruct (ri_records _ Hc _ _ Ha) as (Hid & Hok & Hk). split_and!; [done|done|]. rewrite lookup_insert_ne; [done|]. intros [= Ht Hh].
      rewrite <- Ht, <- Hh, Hnone in Hk. done.
  - intros t h id' [[[= <- <-] <-]|[_ Hk]]%lookup_insert_Some.
    + eexists. by rewrite lookup_insert_eq.
    + destruct (ri_keys _ Hc _ _ _ Hk) as (a & Ha & ? & ?). exists a. rewrite lookup_insert_ne; [done|]. simpl. fold id. congruence.
Qed.

Lemma put_keyed req (r : ArtifactRegistry S) : ra_Type req <> "" ->
  content_keyed hashBytes (mkPutObject (rg_bucket r) (path_join [ra_Type req; hashBytes (ra_Body req)]) (ra_ContentType req) (Some (Ok (ra_Body req))))
    (ra_Body req).
Proof. intros Ht. split; [done|]. by exists (ra_Type req). Qed.

Lemma reg_inv_put c ctx req : reg_inv c -> req ∈ rc_requests c ->
  reg_inv (mkRegConfig (registerPut store hashBytes ctx req (rc_reg c)).2
             (match (registerPut store hashBytes ctx req (rc_reg c)).1 with
              | Ok put => (req, put) :: rc_pending c
              | Err _ => rc_pending c
              end) (rc_requests c)) /\
  reg_grows (rc_reg c) (registerPut store hashBytes ctx req (rc_reg c)).2.
Proof.
  intros Hc Hreq. destruct (ri_requests _ Hc _ Hreq) as [Hg Hused].
  assert (ra_Type req <> "") as Ht. { unfold registerGuards in Hg. res_inv. bool_inv. done. }
  unfold registerPut. destruct (os_Put _ _ _ _) as [answer objects] eqn:Hput. simpl. split; [|done].
  destruct (bl_put _ _ _ _ _ _ (ri_objects _ Hc) (put_keyed req (rc_reg c) Ht) Hput) as (Hok & Hkeep & Hres).
  assert (forall ref hash, holds_content (rg_objects (rc_reg c)) ref hash -> holds_content objects ref hash) as Hcontent.
  { intros ref hash (b & Hb & Hh). exists b. auto. }
  destruct Hc as [H1 H2 H3 H4 H5 H6]. constructor; simpl; try done.
  - intros id a Ha. destruct (H2 id a Ha) as (? & (? & ? & ref & ? & ?) & ?). split_and!; try done. split_and!; [done|done|]. exists ref. auto.
  - intros q put Hin. assert ((q, put) ∈ rc_pending c \/ (q = req /\ answer = Ok put)) as [Hq|[-> ->]].
    + destruct answer as [p|e]; simpl in Hin; [|by left]. destruct (fail_if _ _); simpl in Hin; [|by left].
      apply elem_of_cons in Hin as [[= -> ->]|Hin]; [by right|by left].
    + destruct (H5 _ _ Hq) as [? ?]. split; [done|auto].
    + split; [done|]. destruct Hres as (_ & b & Hb & Hh). by exists b.
Qed.

Lemma reg_inv_step c c' : reg_inv c -> reg_step c c' -> reg_inv c' /\ reg_grows (rc_reg c) (rc_reg c').
Proof.
  intros Hc [req Hg Hu|req id a Hreq Hlook|ctx req Hreq|req put rest now Hp]; simpl.
  - split; [by apply reg_inv_admit|done].
  - rewrite lookup_run in Hlook. injection Hlook as Hlook. apply fmap_Some in Hlook as (id' & Hk & [= -> _]).
    rewrite (byKey_id c _ _ _ Hc Hk). split; [by apply reg_inv_grant|apply addGrant_grows].
  - by apply reg_inv_put.
  - assert ((req, put) ∈ rc_pending c) as Hin by (rewrite Hp; by left). destruct (ri_pending _ Hc _ _ Hin) as [Hreq _].
    rewrite store_run. destruct (_ !! _) as [id|] eqn:Hk; simpl.
    + rewrite (byKey_id c _ _ id Hc Hk). split; [|apply addGrant_grows].
      apply (reg_inv_grant (mkRegConfig (rc_reg c) rest (rc_requests c))); [by eapply reg_inv_drop|done].
    + destruct (reg_inv_record c req put now Hc Hin Hk) as [Hfresh Hc']. split.
      * apply (reg_inv_grant (mkRegConfig (with_record (newArtifact req put now) (rc_reg c)) rest (rc_requests c))); [|done].
        by apply (reg_inv_drop _ (req, put) rest) in Hc'.
      * etrans; [|apply addGrant_grows]. split; [simpl; by apply insert_subseteq|done].
Qed.

Lemma reg_steps_inv c c' : reg_inv c -> rtc reg_step c c' -> reg_inv c' /\ reg_grows (rc_reg c) (rc_reg c').
Proof.
  intros Hc H. induction H as [|c1 c2 c3 H _ IH]; [done|]. destruct (reg_inv_step _ _ Hc H) as [H2 Hg].
  destruct (IH H2). split; [done|by etrans].
Qed.

Definition reg_start (objects : S) (bucket : string) : reg_config := mkRegConfig (NewArtifactRegistry objects bucket) [] [].

Lemma reg_inv_start objects bucket : bl_ok objects -> reg_inv (reg_start objects bucket).
Proof.
  intros Ho. constructor; simpl; try done; try (intros *; by rewrite lookup_empty); try (intros * H; by apply elem_of_nil in H).
Qed.

(** ** Opening *)

Lemma parse_objectKey ref : printable ref -> parseBlobRef (objectKey ref) = Ok ref.
Proof.
  intros (Hb & Hs & Hk). unfold parseBlobRef, objectKey. change ("/" +:+ or_Key ref)%string with (String "/" (or_Key ref)).
  rewrite Cut_app by done. rewrite !bool_decide_eq_false_2 by done. by destruct ref.
Qed.

Lemma Open_ok c principal id a : reg_inv c -> rg_records (rc_reg c) !! id = Some a -> CanRead (rc_reg c) principal id = true ->
  exists body, Open store hashBytes None principal id (rc_reg c) = (Ok (a, body), rc_reg c) /\ hashBytes body = ar_ContentHash a.
Proof.
  clear used_inj. intros Hc Ha Hcan. destruct (ri_records _ Hc _ _ Ha) as (_ & (_ & _ & ref & Hpath & body & Hbody & Hhash) & _).
  exists body. split; [|done]. unfold Open. rewrite Hcan, Ha. simpl. rewrite Hpath, parse_objectKey by (by eapply bl_ref; [apply Hc|]).
  destruct (bl_get _ _ _ (ri_objects _ Hc) Hbody) as (g & Hget & Hgb & Hgs). rewrite Hget. simpl. rewrite Hgb, Hgs, Hhash.
  rewrite !bool_decide_eq_false_2 by naive_solver. simpl. by destruct (rc_reg c).
Qed.

(** ** Registering *)

(** What an uninterrupted call leaves behind. *)
Definition registered (req : RegisterArtifact) (a : Artifact) (r : ArtifactRegistry S) : Prop :=
  rg_records r !! ar_ID a = Some a /\ ar_Type a = ra_Type req /\ ar_ContentHash a = hashBytes (ra_Body req) /\
  grantOf req ∈ default ∅ (rg_grants r !! ar_ID a).

Lemma granted_registered c id req : reg_inv c -> rg_byKey (rc_reg c) !! (ra_Type req, hashBytes (ra_Body req)) = Some id ->
  registered req (default zeroArtifact (rg_records (rc_reg c) !! id)) (addGrantLocked id (grantOf req) (rc_reg c)).
Proof.
  intros Hc Hk. destruct (ri_keys _ Hc _ _ _ Hk) as (a & Ha & Ht & Hh). destruct (ri_records _ Hc _ _ Ha) as (Hid & _). rewrite Ha. simpl.
  unfold registered. rewrite addGrant_lookup, decide_True, Hid by done. split_and!; [done|done|done|]. set_solver.
Qed.

Lemma Register_steps c ctx req now a r' : reg_inv c -> used (ra_Type req) (hashBytes (ra_Body req)) ->
  Register store hashBytes ToLower ctx req now (rc_reg c) = (Ok a, r') ->
  exists c', rtc reg_step c c' /\ rc_reg c' = r' /\ registered req a r'.
Proof.
  intros Hc Hu H. unfold Register, mbind, M_bind, lift, mret, M_ret in H.
  destruct (registerGuards ToLower req) as [[]|e] eqn:Hg; [|done].
  pose proof (rs_admit c req Hg Hu) as Hstep. destruct (reg_inv_step _ _ Hc Hstep) as [Hc1 _]. rewrite lookup_run in H, Hstep, Hc1.
  destruct (rg_byKey (rc_reg c) !! _) as [id|] eqn:Hk; simpl in *.
  { injection H as <- <-. eexists. split; [eapply rtc_l; [exact Hstep|]; apply rtc_once; eapply (rs_grant _ req id); [by left|]|].
    - rewrite lookup_run. simpl. rewrite Hk. done.
    - split; [done|]. by apply granted_registered. }
  destruct (registerPut store hashBytes ctx req (rc_reg c)) as [[put|e] r1] eqn:Hput; [|done].
  pose proof (rs_put (mkRegConfig (rc_reg c) (rc_pending c) (req :: rc_requests c)) ctx req ltac:(by left)) as Hstep2.
  simpl in Hstep2. rewrite Hput in Hstep2. simpl in Hstep2. destruct (reg_inv_step _ _ Hc1 Hstep2) as [Hc2 _].
  pose proof (rs_store (mkRegConfig r1 ((req, put) :: rc_pending c) (req :: rc_requests c)) req put (rc_pending c) now ltac:(done)) as Hstep3.
  simpl in Hstep3. rewrite H in Hstep3. simpl in Hstep3.
  eexists. split; [eapply rtc_l; [exact Hstep|]; eapply rtc_l; [exact Hstep2|]; by apply rtc_once|]. split; [done|].
  rewrite store_run in H. destruct (rg_byKey r1 !! _) as [id|] eqn:Hk1.
  - injection H as <- <-. exact (granted_registered _ id req Hc2 Hk1).
  - injection H as <- <-. unfold registered. rewrite addGrant_lookup, decide_True by done. simpl. rewrite lookup_insert_eq. split_and!; [done..|set_solver].
Qed.

End registry.

(** * Properties of the event log and the artifact registry *)

Section log.
Context (hashBytes : string -> string) (encodeRequest : EventRequest -> string).

Local Abbreviation Append := (Append hashBytes encodeRequest).
Local Abbreviation log_step := (log_step hashBytes encodeRequest).

(** C40: An event is recorded once.  From any reachable log, an append that fails
    changes nothing; one that succeeds returns the event that the log has under the key,
    which either was there, with the log unchanged, or is added at the end with the next
    sequence number; and whatever is appended later, the same request, not cancelled, is
    answered with the same event and without effect, and events keep their place. *)
Theorem append_once n ctx req now l r l' :
  rtc log_step (NewEventLog n) l -> Append ctx req now l = (r, l') ->
  match r with
  | Err _ => l' = l
  | Ok e =>
    ev_StableKey e = ae_StableKey req /\ e ∈ el_events l' /\
    (l' = l \/ el_events l' = el_events l ++ [e] /\ ev_Sequence e = (Z.of_nat (length (el_events l)) + 1)%Z) /\
    forall l'' now', rtc log_step l' l'' -> Append None req now' l'' = (Ok e, l'') /\ el_events l' `prefix_of` el_events l''
  end.
Proof.
  intros Hl H. destruct r as [e|err]; [|apply Append_cases in H as [(? & _ & ->)|(_ & _ & _ & payload & _ & [(e' & _ & [=] & _)|(_ & [=] & _)])]; done].
  assert (log_inv l) as Hinv by (eapply log_steps_inv; [apply log_inv_new|exact Hl]).
  pose proof (log_inv_append _ _ _ _ _ _ _ _ Hinv H) as Hinv'.
  assert (forall payload, encodePayload (ae_Payload req) (el_maxPayloadBytes l) = Ok payload ->
    el_maxPayloadBytes l' = el_maxPayloadBytes l -> ae_Type req <> "" -> ae_StableKey req <> "" ->
    el_byStableKey l' !! ae_StableKey req = Some (mkStableEvent e (canonicalEventRequestHash hashBytes encodeRequest req payload)) ->
    forall l'' now', rtc log_step l' l'' -> Append None req now' l'' = (Ok e, l'') /\ el_events l' `prefix_of` el_events l'') as Hlater.
  { intros payload Hp Hmax Ht Hk Hkey l'' now' (Hmax' & Hpre & Hsub)%log_steps_extends. split; [|done].
    apply (lookup_weaken _ _ _ _ Hkey) in Hsub. unfold EvLog.Append, mbind, M_bind, lift, get_state, mret, M_ret. simpl.
    rewrite !bool_decide_eq_false_2 by done. simpl. rewrite Hmax', Hmax, Hp, Hsub. simpl. by rewrite bool_decide_eq_false_2 by naive_solver. }
  apply Append_cases in H as [(? & [=] & _)|(_ & Ht & Hk & payload & Hp & [(e' & Hkey & [= <-] & ->)|(Hkey & [= ->] & ->)])].
  - destruct (li_keys _ Hinv _ _ Hkey) as [Hin Hek]. split_and!; [done|done|by left|by eapply Hlater].
  - split_and!; simpl; [done|set_solver|by right|]. eapply Hlater; [done..|]. simpl. by rewrite lookup_insert_eq.
Qed.

(** Paging loses nothing and repeats nothing.  A page taken from a log,
    followed by what comes after its cursor in any later log, is everything after
    the old cursor in that later log, in order; a page is empty only when there is
    nothing to read.  This holds for the whole log and for the events of one task,
    with events appended between the pages. *)
Theorem replay_no_gaps n l l' projectID taskID after limit :
  rtc log_step (NewEventLog n) l -> rtc log_step l l' ->
  (exists page next, Replay None after limit l = (Ok (page, next), l) /\
     events_after (fun _ => true) after (el_events l') = page ++ events_after (fun _ => true) next (el_events l') /\
     (page = [] -> events_after (fun _ => true) after (el_events l) = [])) /\
  (projectID <> "" -> taskID <> "" ->
   let sel e := bool_decide (ev_ProjectID e = projectID) && bool_decide (ev_TaskID e = taskID) in
   exists page next, ReplayTask None projectID taskID after limit l = (Ok (page, next), l) /\
     events_after sel after (el_events l') = page ++ events_after sel next (el_events l') /\
     (page = [] -> events_after sel after (el_events l) = [])).
Proof.
  intros Hl Hl'. assert (log_inv l') as Hinv by (eapply log_steps_inv; [apply log_inv_new|by etrans]).
  apply log_steps_extends in Hl'. pose proof (pageSize_pos limit) as Hpos.
  assert (forall sel, let page := take (pageSize limit) (events_after sel after (el_events l)) in
    page = [] -> events_after sel after (el_events l) = []) as Hempty.
  { intros sel page Hpage. unfold page in Hpage. destruct (events_after sel after (el_events l)); [done|]. by destruct (pageSize limit); [lia|]. }
  split.
  - eexists _, _. unfold Replay, mbind, M_bind, lift, get_state, mret, M_ret. simpl. split; [done|].
    rewrite (collect_take _ (pageSize limit)) by done.
    rewrite (list_filter_iff _ (fun e => negb (ev_Sequence e <=? after)%Z && true = true)) by (intros e; by rewrite andb_true_r).
    split; [by apply page_extends|apply (Hempty (fun _ => true))].
  - intros Hp Ht sel. eexists _, _. unfold ReplayTask, mbind, M_bind, lift, get_state, mret, M_ret. simpl.
    rewrite !bool_decide_eq_false_2 by done. simpl. split; [done|]. rewrite (collect_take _ (pageSize limit)) by done.
    rewrite (list_filter_iff _ (fun e => negb (ev_Sequence e <=? after)%Z && sel e = true)).
    + split; [by apply page_extends|apply (Hempty sel)].
    + intros e. unfold taskEvent, sel. by destruct (decide (ev_ProjectID e = projectID)) as [H1|H1], (decide (ev_TaskID e = taskID)) as [H2|H2];
        rewrite ?(bool_decide_eq_true_2 _ H1), ?(bool_decide_eq_false_2 _ H1), ?(bool_decide_eq_true_2 _ H2), ?(bool_decide_eq_false_2 _ H2);
        repeat case_bool_decide.
Qed.

End log.

Section registry.
Context {S : Type} (store : Store S) (hashBytes ToLower : string -> string) `{BS : !BlobStore store hashBytes}.
Context (used : string -> string -> Prop).
Context (used_inj : forall t h t' h', used t h -> used t' h' -> artifactID hashBytes t h = artifactID hashBytes t' h' -> t = t' /\ h = h').

Local Abbreviation reg_step := (reg_step store hashBytes ToLower used).

(** C36: What is registered can be read back.  Over any object store that keeps its
    promise, and with any number of callers in between, the artifact returned by
    [Register] stays readable for the project and task it was registered for, and
    opening it gives a body with the hash of the one registered (the body itself
    when SHA-256 has no collision there); only agent transcripts are withheld, from
    task managers.  It is supposed that no two of the contents that are registered get
    the same artifact id, which is 80 bits of a hash: a second one would overwrite the
    record of the first. *)
Theorem artifact_round_trip objects bucket c ctx req now a r' :
  bl_ok objects -> rtc reg_step (reg_start objects bucket) c -> used (ra_Type req) (hashBytes (ra_Body req)) ->
  Register store hashBytes ToLower ctx req now (rc_reg c) = (Ok a, r') ->
  exists c1, rtc reg_step c c1 /\ rc_reg c1 = r' /\
  forall c2 role, rtc reg_step c1 c2 -> role <> "" ->
    ~ (ra_Type req = ArtifactAgentTranscript /\ role = EvRoleTaskManager) ->
    exists body, Open store hashBytes None (mkEvPrincipal role (ra_ProjectID req) (ra_TaskID req)) (ar_ID a) (rc_reg c2) =
                   (Ok (a, body), rc_reg c2) /\ hashBytes body = hashBytes (ra_Body req).
Proof.
  intros Ho Hc Hu Hreg. destruct (reg_steps_inv store hashBytes ToLower used used_inj _ _ (reg_inv_start _ _ _ _ objects bucket Ho) Hc) as [Hinv _].
  destruct (Register_steps store hashBytes ToLower used used_inj c ctx req now a r' Hinv Hu Hreg) as (c1 & Hsteps & Hr & Hrec & Ht & Hh & Hgrant).
  exists c1. split_and!; [done|done|]. intros c2 role Hc2 Hrole Htm. destruct (reg_steps_inv store hashBytes ToLower used used_inj _ _ Hinv Hsteps) as [Hinv1 _].
  destruct (reg_steps_inv store hashBytes ToLower used used_inj _ _ Hinv1 Hc2) as [Hinv2 [Hrecs Hgrants]]. rewrite Hr in Hrecs, Hgrants.
  pose proof (lookup_weaken _ _ _ _ Hrec Hrecs) as Ha2. rewrite <- Hh. eapply (Open_ok store hashBytes ToLower used); [exact Hinv2|exact Ha2|].
  assert (ra_ProjectID req <> "" /\ ra_TaskID req <> "") as [Hp Hti].
  { unfold Register, mbind, M_bind, lift in Hreg. destruct (registerGuards ToLower req) as [u|e] eqn:Hg; [|done].
    unfold registerGuards in Hg. res_inv. bool_inv. done. }
  apply CanRead_true. split_and!.
  - unfold requirePrincipal. simpl. by rewrite !bool_decide_eq_false_2 by done.
  - simpl. by apply (Hgrants (ar_ID a)).
  - exists a. simpl. split; [done|]. by rewrite Ht.
Qed.

(** Nobody reads what was not registered for them.  In any reachable registry
    a principal that can read an artifact has a project and task for which exactly
    that content was registered; a task manager never reads an agent transcript. *)
Theorem artifact_access_justified objects bucket c principal id :
  bl_ok objects -> rtc reg_step (reg_start objects bucket) c -> CanRead (rc_reg c) principal id = true ->
  exists a req, rg_records (rc_reg c) !! id = Some a /\ req ∈ rc_requests c /\ registerGuards ToLower req = Ok tt /\
    ra_ProjectID req = ep_ProjectID principal /\ ra_TaskID req = ep_TaskID principal /\
    ra_Type req = ar_Type a /\ hashBytes (ra_Body req) = ar_ContentHash a /\
    ~ (ar_Type a = ArtifactAgentTranscript /\ ep_Role principal = EvRoleTaskManager).
Proof.
  intros Ho Hc (Hp & Hg & a & Ha & Htm)%CanRead_true.
  destruct (reg_steps_inv store hashBytes ToLower used used_inj _ _ (reg_inv_start _ _ _ _ objects bucket Ho) Hc) as [Hinv _].
  destruct (ri_grants _ _ _ _ _ Hinv _ _ Hg) as (req & Hreq & Hgr & Hid). destruct (ri_requests _ _ _ _ _ Hinv _ Hreq) as [Hguards Hu].
  destruct (ri_records _ _ _ _ _ Hinv _ _ Ha) as (Hida & (Hua & Hart & _) & _).
  destruct (used_inj _ _ _ _ Hu Hua) as [Ht Hh]; [congruence|]. injection Hgr as Hpj Htk. exists a, req. by split_and!.
Qed.

End registry.

(** ** Witnesses

    A hash that keeps the content behind a letter; contents here have no slash. *)

Definition ev_hash (s : string) : string := "h" +:+ (if bool_decide (char_in "/" s) then "" else s).

Lemma ev_hash_plain body : plain (ev_hash body).
Proof.
  unfold plain, ev_hash. split_and!; [discriminate..|]. change ("h" +:+ ?x)%string with (String "h" x).
  intros [H|H]%elem_of_cons; [discriminate|]. case_bool_decide as Hc; [by apply elem_of_nil in H|done].
Qed.

#[local] Existing Instance memory_BlobStore.
#[local] Instance ev_store : BlobStore (memoryStore ev_hash) ev_hash := memory_BlobStore ev_hash ev_hash_plain.

Definition ev_append : AppendEvent := mkAppend "k1" "TaskCreated" "p1" "t1" "" "" "" None [] 0.
Definition ev_log1 : EventLog := (Append ev_hash (fun _ => "r") None ev_append 5 (NewEventLog 0)).2.

Lemma ev_log1_reachable : rtc (log_step ev_hash (fun _ => "r")) (NewEventLog 0) ev_log1.
Proof. apply rtc_once. by exists None, ev_append, 5%Z. Qed.

Lemma append_once_witness : exists e, Append ev_hash (fun _ => "r") None ev_append 9 ev_log1 = (Ok e, ev_log1).
Proof.
  destruct (Append ev_hash (fun _ => "r") None ev_append 5 (NewEventLog 0)) as [[e|err] l] eqn:H; [|vm_compute in H; discriminate H].
  assert (l = ev_log1) as -> by (unfold ev_log1; by rewrite H).
  destruct (append_once ev_hash (fun _ => "r") 0 None ev_append 5 (NewEventLog 0) (Ok e) ev_log1) as (_ & _ & _ & Hagain).
  - apply rtc_refl.
  - exact H.
  - exists e. apply (Hagain ev_log1 9%Z). apply rtc_refl.
Defined.

Lemma replay_no_gaps_witness : exists page next, Replay None 0 1 (NewEventLog 0) = (Ok (page, next), NewEventLog 0) /\
  events_after (fun _ => true) 0 (el_events ev_log1) = page ++ events_after (fun _ => true) next (el_events ev_log1).
Proof.
  destruct (proj1 (replay_no_gaps ev_hash (fun _ => "r") 0 (NewEventLog 0) ev_log1 "p1" "t1" 0 1 (rtc_refl _ _) ev_log1_reachable))
    as (page & next & H1 & H2 & _). exists page, next. split; [exact H1|exact H2].
Defined.

Definition ev_request : RegisterArtifact := mkRegister ArtifactTestOutput "p1" "out.txt" "text/plain" "ok" "t1" "i1".

(** Two contents are in use, one of them under two types. *)
Definition ev_used (t h : string) : Prop :=
  (t = ArtifactTestOutput \/ t = ArtifactDiffPatch) /\ h = ev_hash "ok" \/ t = ArtifactDiffPatch /\ h = ev_hash "diff".

Lemma ev_used_inj t h t' h' : ev_used t h -> ev_used t' h' -> artifactID ev_hash t h = artifactID ev_hash t' h' -> t = t' /\ h = h'.
Proof.
  intros [[[->| ->] ->]|[-> ->]] [[[->| ->] ->]|[-> ->]] Heq; try (split; reflexivity); vm_compute in Heq; discriminate Heq.
Qed.

Lemma artifact_round_trip_witness :
  match Register (memoryStore ev_hash) ev_hash (fun s => s) None ev_request 7 (NewArtifactRegistry NewMemObjects "") with
  | (Ok a, r) => exists body, Open (memoryStore ev_hash) ev_hash None (mkEvPrincipal "auditor" "p1" "t1") (ar_ID a) r = (Ok (a, body), r) /\
      ev_hash body = ev_hash "ok"
  | (Err _, _) => False
  end.
Proof.
  destruct (Register (memoryStore ev_hash) ev_hash (fun s => s) None ev_request 7 (NewArtifactRegistry NewMemObjects "")) as [[a|e] r] eqn:H;
    [|vm_compute in H; discriminate H].
  destruct (artifact_round_trip (memoryStore ev_hash) ev_hash (fun s => s) ev_used ev_used_inj NewMemObjects ""
    (reg_start NewMemObjects "") None ev_request 7 a r) as (c1 & _ & <- & Hopen).
  - exact (mem_ok_new ev_hash).
  - apply rtc_refl.
  - left. split; [left|]; reflexivity.
  - exact H.
  - apply (Hopen c1 "auditor"); [apply rtc_refl|discriminate|]. intros [? _]. discriminate.
Defined.

Definition ev_registered := Register (memoryStore ev_hash) ev_hash (fun s => s) None ev_request 7 (NewArtifactRegistry NewMemObjects "").

Lemma artifact_access_justified_witness :
  exists c a req, rc_reg c = ev_registered.2 /\ rg_records (rc_reg c) !! artifactID ev_hash ArtifactTestOutput (ev_hash "ok") = Some a /\
    req ∈ rc_requests c /\ ra_TaskID req = "t1".
Proof.
  destruct ev_registered as [[artifact|e] r] eqn:H; [|vm_compute in H; discriminate H].
  destruct (Register_steps (memoryStore ev_hash) ev_hash (fun s => s) ev_used ev_used_inj (reg_start NewMemObjects "") None ev_request 7 artifact r)
    as (c & Hsteps & Hr & _).
  - exact (reg_inv_start _ _ _ _ NewMemObjects "" (mem_ok_new ev_hash)).
  - left. split; [left|]; reflexivity.
  - exact H.
  - destruct (artifact_access_justified (memoryStore ev_hash) ev_hash (fun s => s) ev_used ev_used_inj NewMemObjects "" c
      (mkEvPrincipal "auditor" "p1" "t1") (artifactID ev_hash ArtifactTestOutput (ev_hash "ok"))) as (a & req & Ha & Hreq & _ & _ & Ht & _).
    + exact (mem_ok_new ev_hash).
    + exact Hsteps.
    + rewrite Hr. replace r with ev_registered.2 by (by rewrite H). vm_compute. reflexivity.
    + exists c, a, req. split; [exact Hr|split; [exact Ha|split; [exact Hreq|exact Ht]]].
Defined.
