(* ===== verification/Hoare.v ===== *)
(** * Weakest preconditions for stateful operations

    [wp m Q s]: run from [s], the operation ends with a result and a state that
    satisfy [Q].  The rules follow the shape of the code. *)

From stdpp Require Import base tactics option list.
From S2P Require Import Prelude.

Definition wp {E S A} (m : M E S A) (Q : result E A -> S -> Prop) (s : S) : Prop := Q (m s).1 (m s).2.

Section rules.
Context {E S A B : Type}.
Implicit Types (s : S) (Q : result E A -> S -> Prop).

Lemma wp_run (m : M E S A) Q s r s' : wp m Q s -> m s = (r, s') -> Q r s'.
Proof. unfold wp. intros H Heq. by rewrite Heq in H. Qed.

Lemma wp_intro (m : M E S A) Q s : (forall r s', m s = (r, s') -> Q r s') -> wp m Q s.
Proof. intros H. apply H, surjective_pairing. Qed.

Lemma wp_mono (m : M E S A) Q Q' s : wp m Q s -> (forall r s', Q r s' -> Q' r s') -> wp m Q' s.
Proof. unfold wp. auto. Qed.

Lemma wp_ret a Q s : Q (Ok a) s -> wp (mret a) Q s.
Proof. done. Qed.

Lemma wp_throw e Q s : Q (Err e) s -> wp (throw e) Q s.
Proof. done. Qed.

Lemma wp_lift r Q s : Q r s -> wp (lift r) Q s.
Proof. done. Qed.

Lemma wp_readonly (m : M E S A) Q s : readonly m -> (forall r, Q r s) -> wp m Q s.
Proof. unfold wp. intros -> H. apply H. Qed.

Lemma wp_catch (m : M E S A) h Q s :
  wp m (fun r s' => match r with Ok a => Q (Ok a) s' | Err e => wp (h e) Q s' end) s -> wp (catch m h) Q s.
Proof. unfold wp, catch. by destruct (m s) as [[a|e] s']. Qed.

Context (Q : result E B -> S -> Prop).

Lemma wp_bind (m : M E S A) (k : A -> M E S B) s :
  wp m (fun r s' => match r with Ok a => wp (k a) Q s' | Err e => Q (Err e) s' end) s -> wp (m ≫= k) Q s.
Proof. unfold wp, mbind, M_bind. by destruct (m s) as [[a|e] s']. Qed.

Lemma wp_guard (r : result E A) (k : A -> M E S B) s :
  (forall e, r = Err e -> Q (Err e) s) -> (forall a, r = Ok a -> wp (k a) Q s) -> wp (lift r ≫= k) Q s.
Proof. intros He Ha. apply wp_bind, wp_lift. destruct r; auto. Qed.

Lemma wp_get (k : S -> M E S B) s : wp (k s) Q s -> wp (get_state ≫= k) Q s.
Proof. done. Qed.

Lemma wp_modify f (k : unit -> M E S B) s : wp (k tt) Q (f s) -> wp (modify f ≫= k) Q s.
Proof. done. Qed.

Lemma wp_put s' (k : unit -> M E S B) s : wp (k tt) Q s' -> wp (put_state s' ≫= k) Q s.
Proof. done. Qed.

Lemma wp_reading (m : M E S A) (k : A -> M E S B) s : readonly m -> (forall e, Q (Err e) s) ->
  (forall a, wp (k a) Q s) -> wp (m ≫= k) Q s.
Proof. intros Hm He Hk. apply wp_bind, wp_readonly; [done|]. by intros []. Qed.
End rules.

(** An operation that keeps [I] whatever it returns. *)
Definition keeps {E S A} (I : S -> Prop) (m : M E S A) : Prop := forall s, I s -> wp m (fun _ s' => I s') s.

Section keeps.
Context {E S A B : Type} (I : S -> Prop).

Lemma keeps_bind (m : M E S A) (k : A -> M E S B) : keeps I m -> (forall a, keeps I (k a)) -> keeps I (m ≫= k).
Proof. intros Hm Hk s Hs. apply wp_bind. eapply wp_mono; [by apply Hm|]. intros [a|e] s' H; [by apply Hk|done]. Qed.

Lemma keeps_readonly (m : M E S A) : readonly m -> keeps I m.
Proof. intros Hm s Hs. by apply wp_readonly. Qed.

Lemma keeps_guard (r : result E A) (k : A -> M E S B) : (forall a, r = Ok a -> keeps I (k a)) -> keeps I (lift r ≫= k).
Proof. intros Hk s Hs. apply wp_guard; [done|]. intros a Ha. by apply Hk. Qed.

Lemma keeps_catch (m : M E S A) h : keeps I m -> (forall e, keeps I (h e)) -> keeps I (catch m h).
Proof. intros Hm Hh s Hs. apply wp_catch. eapply wp_mono; [by apply Hm|]. intros [a|e] s' H; [done|by apply Hh]. Qed.
End keeps.

Lemma keeps_eachM {E S C} (I : S -> Prop) (f : C -> M E S unit) l : (forall x, x ∈ l -> keeps I (f x)) -> keeps I (eachM f l).
Proof.
  induction l as [|x l IH]; intros Hf; simpl; [by apply keeps_readonly|].
  apply keeps_bind; [apply Hf; by left|]. intros _. apply IH. intros y Hy. apply Hf. by right.
Qed.

(** ** Deferred calls *)

(** [defer]: [cleanup] runs however the rest ends; its error is dropped. *)
Definition deferring {E S A} (cleanup : M E S unit) (m : M E S A) : M E S A := fun s =>
  let '(r, s') := m s in (r, (cleanup s').2).

Lemma wp_deferring {E S A} (cleanup : M E S unit) (m : M E S A) Q (s : S) :
  wp m (fun r s' => wp cleanup (fun _ s'' => Q r s'') s') s -> wp (deferring cleanup m) Q s.
Proof. unfold wp, deferring. by destruct (m s). Qed.

Lemma keeps_deferring {E S A} (I : S -> Prop) (cleanup : M E S unit) (m : M E S A) :
  keeps I cleanup -> keeps I m -> keeps I (deferring cleanup m).
Proof. intros Hc Hm s Hs. apply wp_deferring. eapply wp_mono; [by apply Hm|]. intros r s' Hs'. by apply Hc. Qed.

(** ** Traces *)

(** Every entry of a trace is backed by the entries before it. *)
Definition trace_ok {X} (backed : list X -> X -> Prop) (new : list X) : Prop := forall t1 x t2, new = t1 ++ x :: t2 -> backed t1 x.

Lemma trace_ok_nil {X} (backed : list X -> X -> Prop) : trace_ok backed [].
Proof. intros t1 x t2 Heq. by apply app_cons_not_nil in Heq. Qed.

Lemma trace_ok_snoc {X} (backed : list X -> X -> Prop) new x : trace_ok backed new -> backed new x -> trace_ok backed (new ++ [x]).
Proof.
  intros Hb Hx t1 y t2 Heq. destruct t2 as [|z t2 _] using rev_ind.
  - apply app_inj_tail in Heq as [-> ->]. done.
  - rewrite app_comm_cons, app_assoc in Heq. apply app_inj_tail in Heq as [-> _]. by eapply Hb.
Qed.

Lemma elem_snoc {X} (l : list X) x : x ∈ l ++ [x].
Proof. apply elem_of_app. right. by left. Qed.

Lemma elem_kept {X} (l l' : list X) x : x ∈ l -> x ∈ l ++ l'.
Proof. intros H. apply elem_of_app. by left. Qed.
