(* ===== verification/Catalog.v ===== *)
(** * The prompt catalog

    [runtime/promptcatalog/catalog.go]: the prompts and skills of a repository, the
    skills and tools of a role, and the prompt text.  Reading a file and SHA-256 are
    parameters. *)

From stdpp Require Import base tactics option list strings gmap sorting.
From Stdlib Require Import ZArith Ascii.
From S2P Require Import Prelude GoLib GoStrings GoPath Kernel Auth.

(** ** Text *)

(** [strings.ReplaceAll] of a text that is not empty: [skip] bytes of a match are
    still to be dropped. *)
Fixpoint replace_from (old new : string) (skip : nat) (s : string) : string :=
  match s with
  | EmptyString => EmptyString
  | String c rest =>
    match skip with
    | S skip => replace_from old new skip rest
    | 0 => if has_prefix old s then new +:+ replace_from old new (String.length old - 1) rest
           else String c (replace_from old new 0 rest)
    end
  end.

Definition ReplaceAll (s old new : string) : string := replace_from old new 0 s.

Definition drop_last (n : nat) (s : string) : string := String.substring 0 (String.length s - n) s.

Definition TrimSuffix (p s : string) : string := if has_suffix p s then drop_last (String.length p) s else s.

Definition MissingValue : string := "未提供".

Definition present (value : string) : string := if bool_decide (TrimSpace value = "") then MissingValue else value.

Definition quote : ascii := Ascii.ascii_of_nat 34.

(** [strings.Trim(strings.TrimSpace(strings.TrimPrefix(line, prefix)), quote)]. *)
Definition cutField (line prefix : string) : option string :=
  if has_prefix prefix line then Some (trim_char quote (TrimSpace (TrimPrefix prefix line))) else None.

(** ** Assets *)

Record Asset := mkAsset {
  as_ID : string;
  as_Body : string;
  as_SHA256 : string;
}.

Record Skill := mkSkill {
  sk_ID : string;
  sk_Description : string;
  sk_Dependencies : list string;
  sk_Tools : list Tool;
  sk_Body : string;
  sk_SHA256 : string;
}.

#[global] Instance Skill_eq_dec : EqDecision Skill.
Proof. solve_decision. Defined.

Record Catalog := mkCatalog {
  ca_Prompts : gmap string Asset;
  ca_Skills : gmap string Skill;
  ca_availableTools : ToolMap;
}.

Record Bundle := mkBundle {
  bu_Role : Role;
  bu_Operation : string;
  bu_SharedPrompt : Asset;
  bu_RolePrompt : Asset;
  bu_Skills : list Skill;
  bu_EffectiveTools : list Tool;
}.

Record RenderData := mkRenderData {
  rd_RuntimeEnvelope : string;
  rd_BoundaryInput : string;
  rd_StartOrResumeInput : string;
  rd_TaskContract : string;
  rd_PhaseSpec : string;
  rd_WorkspaceBinding : string;
  rd_ContextSlice : string;
  rd_TaskMemoryBuffer : string;
  rd_RepositoryPolicy : string;
  rd_LatestEvents : string;
}.

Record Rendered := mkRendered {
  re_Text : string;
  re_PromptHashes : gmap string string;
  re_SkillHashes : gmap string string;
  re_SHA256 : string;
}.

Definition zeroAsset : Asset := mkAsset "" "" "".

Definition requiredSkills : list string :=
  ["candidate-review"; "context-navigation"; "context-retrieval-request"; "context-semantic-retrieval"; "context-subscription";
   "coordination-control"; "execution-delivery"; "general-context-curation"; "orchestration-escalation"; "phase-runtime"; "phase-submit";
   "planning-delivery"; "task-context-lifecycle"; "task-memory"; "verification-delivery"].

Definition promptFiles : gmap string string :=
  list_to_map [("shared", "shared.md"); ("task_manager", "task-manager.md"); ("context_agent", "context-agent.md"); ("planner", "planner.md");
               ("executor", "executor.md"); ("verifier", "verifier.md")].

(** ** Skill files *)

(** What the line scanner has seen so far. *)
Record scan := mkScan {
  sc_section : string;
  sc_inFrontMatter : bool;
  sc_frontMatterSeen : bool;
  sc_skill : Skill;
}.

Definition sk_set_ID (v : string) (s : Skill) : Skill := mkSkill v (sk_Description s) (sk_Dependencies s) (sk_Tools s) (sk_Body s) (sk_SHA256 s).
Definition sk_set_Description (v : string) (s : Skill) : Skill := mkSkill (sk_ID s) v (sk_Dependencies s) (sk_Tools s) (sk_Body s) (sk_SHA256 s).
Definition sk_add_Dependency (v : string) (s : Skill) : Skill :=
  mkSkill (sk_ID s) (sk_Description s) (sk_Dependencies s ++ [v]) (sk_Tools s) (sk_Body s) (sk_SHA256 s).
Definition sk_add_Tool (v : Tool) (s : Skill) : Skill :=
  mkSkill (sk_ID s) (sk_Description s) (sk_Dependencies s) (sk_Tools s ++ [v]) (sk_Body s) (sk_SHA256 s).

Definition frontMatterLine (line : string) (skill : Skill) : Skill :=
  let skill := match cutField line "name:" with Some value => sk_set_ID value skill | None => skill end in
  match cutField line "description:" with Some value => sk_set_Description value skill | None => skill end.

Definition bodyLine (section line : string) (skill : Skill) : Skill :=
  if negb (has_prefix "- `" line) || negb (has_suffix "`" line) then skill
  else
    let value := TrimSuffix "`" (TrimPrefix "- `" line) in
    if bool_decide (section = "依赖") then sk_add_Dependency value skill
    else if bool_decide (section = "工具") then sk_add_Tool value skill
    else skill.

Definition scanLine (s : scan) (text : string) : scan :=
  let line := TrimSpace text in
  if bool_decide (line = "---") then
    if negb (sc_frontMatterSeen s) then mkScan (sc_section s) true true (sc_skill s)
    else if sc_inFrontMatter s then mkScan (sc_section s) false (sc_frontMatterSeen s) (sc_skill s)
    else s
  else if sc_inFrontMatter s then mkScan (sc_section s) true (sc_frontMatterSeen s) (frontMatterLine line (sc_skill s))
  else if has_prefix "## " line then mkScan (TrimSpace (TrimPrefix "## " line)) false (sc_frontMatterSeen s) (sc_skill s)
  else mkScan (sc_section s) false (sc_frontMatterSeen s) (bodyLine (sc_section s) line (sc_skill s)).

(** The longest line a [bufio.Scanner] takes. *)
Definition maxLine : Z := 65535.

Definition newline : ascii := Ascii.ascii_of_nat 10.

Section with_runtime.
Context `{GR : GoRuntime} (hash : string -> string).

Definition parseSkill (body : string) : res Skill :=
  let lines := Split newline body in
  _ ← fail_if (existsb (fun line => (maxLine <? Z.of_nat (String.length line))%Z) lines) (OtherError "bufio.Scanner: token too long");
  let skill := sc_skill (foldl scanLine (mkScan "" false false (mkSkill "" "" [] [] body (hash body))) lines) in
  _ ← fail_if (bool_decide (sk_ID skill = "") || bool_decide (sk_Description skill = ""))
      (OtherError "skill front matter requires name and description");
  Ok skill.

(** ** Resolving *)

(** The state of [visit]: the skills on the call stack, the ones that are done,
    and the result. *)
Record resolution := mkResolution {
  rl_visiting : gset string;
  rl_done : gset string;
  rl_resolved : list Skill;
}.

Fixpoint visitSkill (fuel : nat) (skills : gmap string Skill) (id : string) (r : resolution) : res resolution :=
  match skills !! id with
  | None => Err (OtherError ("unknown skill " +:+ id))
  | Some skill =>
    if bool_decide (id ∈ rl_visiting r) then Err (OtherError ("skill dependency cycle at " +:+ id))
    else if bool_decide (id ∈ rl_done r) then Ok r
    else
      match fuel with
      | 0 => Err Diverged
      | S fuel =>
        r' ← foldM (fun r dependency => visitSkill fuel skills dependency r)
               (mkResolution ({[id]} ∪ rl_visiting r) (rl_done r) (rl_resolved r)) (sk_Dependencies skill);
        Ok (mkResolution (rl_visiting r' ∖ {[id]}) ({[id]} ∪ rl_done r') (rl_resolved r' ++ [skill]))
      end
  end.

(** The stack never has more skills than there are. *)
Definition ResolveSkills (c : Catalog) (ids : list string) : res (list Skill) :=
  r ← foldM (fun r id => visitSkill (size (ca_Skills c)) (ca_Skills c) id r) (mkResolution ∅ ∅ []) ids;
  Ok (rl_resolved r).

(** ** Loading *)

Context (readFile : string -> res string).

Definition loadPrompt (repoRoot : string) (prompts : gmap string Asset) (entry : string * string) : res (gmap string Asset) :=
  let '(id, name) := entry in
  match readFile (path_join [repoRoot; "runtime-assets"; "prompts"; name]) with
  | Err e => Err (WrapError ("load required prompt " +:+ id) e)
  | Ok body => Ok (<[id := mkAsset id body (hash body)]> prompts)
  end.

Definition checkTool (availableTools : ToolMap) (id : string) (tool : Tool) : res unit :=
  _ ← fail_if (negb (IsCanonicalTool tool)) (OtherError ("skill " +:+ id +:+ " declares unknown tool " +:+ tool));
  fail_if (bool_decide (availableTools !! tool = None)) (OtherError ("skill " +:+ id +:+ " requires unavailable tool " +:+ tool)).

Definition loadSkill (repoRoot : string) (availableTools : ToolMap) (skills : gmap string Skill) (id : string) : res (gmap string Skill) :=
  match readFile (path_join [repoRoot; "docs"; "agent-skills"; id; "SKILL.md"]) with
  | Err e => Err (WrapError ("load required skill " +:+ id) e)
  | Ok body =>
    match parseSkill body with
    | Err e => Err (WrapError ("parse skill " +:+ id) e)
    | Ok skill =>
      _ ← fail_if (bool_decide (sk_ID skill <> id)) (OtherError ("skill directory " +:+ id +:+ " declares name " +:+ sk_ID skill));
      _ ← each (checkTool availableTools id) (sk_Tools skill);
      Ok (<[id := skill]> skills)
    end
  end.

Definition Load (repoRoot : string) (availableTools : ToolMap) : res Catalog :=
  _ ← fail_if (bool_decide (TrimSpace repoRoot = "")) (OtherError "repo root is required");
  _ ← fail_if (bool_decide (availableTools = ∅)) (OtherError "runtime available tools are required");
  prompts ← foldM (loadPrompt repoRoot) ∅ (range_map promptFiles);
  skills ← foldM (loadSkill repoRoot availableTools) ∅ requiredSkills;
  let catalog := mkCatalog prompts skills availableTools in
  _ ← ResolveSkills catalog requiredSkills;
  Ok catalog.

(** ** Bundles *)

Definition phaseSkills (deliverySkill operation : string) : res (list string) :=
  _ ← fail_if (bool_decide (operation <> "")) (OtherError "phase role does not accept operation");
  Ok ["context-navigation"; "context-subscription"; "context-retrieval-request"; "phase-runtime"; "orchestration-escalation"; "task-memory";
      "phase-submit"; deliverySkill].

Definition contextSkills (operation : string) : res (list string) :=
  if bool_decide (operation = "retrieve") then Ok ["context-navigation"; "context-semantic-retrieval"]
  else if bool_decide (operation = "curate") then Ok ["context-navigation"; "general-context-curation"]
  else if bool_decide (operation = "review") then Ok ["context-navigation"; "candidate-review"]
  else Err (OtherError "context agent requires retrieve, curate, or review operation").

Definition directSkills (role : Role) (operation : string) : res (list string) :=
  if bool_decide (role = RoleTaskManager) then
    _ ← fail_if (bool_decide (operation <> "")) (OtherError "task manager does not accept operation");
    Ok ["context-navigation"; "context-subscription"; "context-retrieval-request"; "coordination-control"; "task-context-lifecycle"]
  else if bool_decide (role = RoleContext) then contextSkills operation
  else if bool_decide (role = RolePlanner) then phaseSkills "planning-delivery" operation
  else if bool_decide (role = RoleExecutor) then phaseSkills "execution-delivery" operation
  else if bool_decide (role = RoleVerifier) then phaseSkills "verification-delivery" operation
  else Err (OtherError ("unsupported runtime role " +:+ role)).

(** [intersectTools] of its three sets. *)
Definition intersectTools (first second third : ToolMap) : list Tool :=
  sort_slice string_lt (filter (fun tool => is_Some (second !! tool) /\ is_Some (third !! tool)) (range_keys first)).

Definition addSkillTools (role : Role) (roleTools tools : ToolMap) (skill : Skill) : res ToolMap :=
  foldM (fun tools tool =>
    _ ← fail_if (bool_decide (roleTools !! tool = None))
        (OtherError ("skill " +:+ sk_ID skill +:+ " tool " +:+ tool +:+ " is outside role " +:+ role +:+ " capability"));
    Ok (<[tool := tt]> tools)) tools (sk_Tools skill).

Definition bundle (c : Catalog) (role : Role) (operation : string) : res Bundle :=
  direct ← directSkills role operation;
  skills ← ResolveSkills c direct;
  match ca_Prompts c !! role with
  | None => Err (OtherError ("missing role prompt for " +:+ role))
  | Some rolePrompt =>
    let roleTools := InvocationCapabilityTools role operation in
    skillTools ← foldM (addSkillTools role roleTools) ∅ skills;
    Ok (mkBundle role operation (default zeroAsset (ca_Prompts c !! "shared")) rolePrompt skills
          (intersectTools roleTools skillTools (ca_availableTools c)))
  end.

(** ** Rendering *)

Definition values (b : Bundle) (data : RenderData) : gmap string string :=
  list_to_map
    [("{{RUNTIME_ENVELOPE}}", present (rd_RuntimeEnvelope data)); ("{{BOUNDARY_INPUT}}", present (rd_BoundaryInput data));
     ("{{START_OR_RESUME_INPUT}}", present (rd_StartOrResumeInput data)); ("{{TASK_CONTRACT}}", present (rd_TaskContract data));
     ("{{PHASE_SPEC}}", present (rd_PhaseSpec data)); ("{{WORKSPACE_BINDING}}", present (rd_WorkspaceBinding data));
     ("{{CONTEXT_SLICE}}", present (rd_ContextSlice data)); ("{{TASK_MEMORY_BUFFER}}", present (rd_TaskMemoryBuffer data));
     ("{{REPOSITORY_POLICIES}}", present (rd_RepositoryPolicy data)); ("{{LATEST_RUNTIME_EVENTS}}", present (rd_LatestEvents data));
     ("{{LOADED_SKILLS}}", Join ", " (sk_ID <$> bu_Skills b)); ("{{AVAILABLE_TOOLS}}", Join ", " (bu_EffectiveTools b))].

Definition separator : string := String newline (String newline ("---" +:+ String newline (String newline ""))).

(** The placeholders are replaced in the order of the map. *)
Definition Render (b : Bundle) (data : RenderData) : Rendered :=
  let text := Join separator ([as_Body (bu_SharedPrompt b); as_Body (bu_RolePrompt b)] ++ (sk_Body <$> bu_Skills b)) in
  let text := foldl (fun text entry => ReplaceAll text (entry : string * string).1 entry.2) text (range_map (values b data)) in
  mkRendered text (<[bu_Role b := as_SHA256 (bu_RolePrompt b)]> {["shared" := as_SHA256 (bu_SharedPrompt b)]})
    (foldl (fun m skill => <[sk_ID skill := sk_SHA256 skill]> m) ∅ (bu_Skills b)) (hash text).

End with_runtime.

(** ** Resolving is a topological sort *)

Section resolving.
Context (skills : gmap string Skill).

(** [a] depends on [b]. *)
Definition depends (a b : string) : Prop := exists skill, skills !! a = Some skill /\ b ∈ sk_Dependencies skill.

(** The skills that are done, in [order], each after what it depends on. *)
Record ordered (r : resolution) (order : list string) : Prop := mkOrdered {
  or_skills : Forall2 (fun id skill => skills !! id = Some skill) order (rl_resolved r);
  or_done : forall id, id ∈ rl_done r <-> id ∈ order;
  or_nodup : NoDup order;
  or_topo : forall i a b, order !! i = Some a -> depends a b -> exists j, j < i /\ order !! j = Some b;
  or_visiting : forall id, id ∈ rl_visiting r -> is_Some (skills !! id) /\ id ∉ order;
}.

(** Something below [id] keeps it from being resolved: it is unknown, on the stack,
    or on a cycle. *)
Definition stuck (id : string) (r : resolution) : Prop :=
  exists x, rtc depends id x /\ (skills !! x = None \/ x ∈ rl_visiting r \/ tc depends x x).

Definition visited (id : string) (r : resolution) (order : list string) (out : res resolution) : Prop :=
  match out with
  | Ok r' => exists new, ordered r' (order ++ new) /\ rl_visiting r' = rl_visiting r /\ id ∈ order ++ new /\ forall x, x ∈ new -> rtc depends id x
  | Err e => e <> Diverged /\ stuck id r
  end.

Lemma depends_stack a d r r' : depends a d -> rl_visiting r' = {[a]} ∪ rl_visiting r -> stuck d r' -> stuck a r.
Proof.
  intros Hd Hv (x & Hx & Hwhy). rewrite Hv in Hwhy. destruct Hwhy as [Hn|[Hin|Hc]].
  - exists x. split; [by eapply rtc_l|by left].
  - apply elem_of_union in Hin as [->%elem_of_singleton|Hin].
    + exists a. split; [apply rtc_refl|]. right. right. eapply tc_rtc_r; [by apply tc_once|done].
    + exists x. split; [by eapply rtc_l|by right; left].
  - exists x. split; [by eapply rtc_l|by right; right].
Qed.

(** Visiting a list of skills, each of which is visited right. *)
Lemma visit_all f ids r order :
  (forall id r' order', id ∈ ids -> ordered r' order' -> rl_visiting r' = rl_visiting r -> visited id r' order' (f r' id)) -> ordered r order ->
  match foldM f r ids with
  | Ok r' => exists new, ordered r' (order ++ new) /\ rl_visiting r' = rl_visiting r /\ (forall id, id ∈ ids -> id ∈ order ++ new) /\
      forall x, x ∈ new -> exists id, id ∈ ids /\ rtc depends id x
  | Err e => e <> Diverged /\ exists id, id ∈ ids /\ exists r', rl_visiting r' = rl_visiting r /\ stuck id r'
  end.
Proof.
  revert r order. induction ids as [|id ids IH]; intros r order Hf Hr; simpl.
  { exists []. rewrite app_nil_r. split_and!; [done|done|set_solver|set_solver]. }
  assert (visited id r order (f r id)) as Hv by (apply Hf; [by left|done|done]). unfold visited in Hv. unfold mbind, result_bind.
  destruct (f r id) as [r1|e]; [|destruct Hv as [He Hs]; split; [done|]; exists id; split; [by left|by exists r]].
  destruct Hv as (new1 & Hr1 & Hv1 & Hid1 & Hn1).
  assert (forall id' r' order', id' ∈ ids -> ordered r' order' -> rl_visiting r' = rl_visiting r1 -> visited id' r' order' (f r' id')) as Hf'
    by (intros id' r' order' Hin Hr' Hv'; apply Hf; [by right|done|by rewrite Hv', Hv1]).
  specialize (IH r1 (order ++ new1) Hf' Hr1). destruct (foldM f r1 ids) as [r2|e].
  - destruct IH as (new2 & Hr2 & Hv2 & Hid2 & Hn2). exists (new1 ++ new2). rewrite app_assoc. split_and!; [done|by rewrite Hv2| |].
    + intros x [->|Hx]%elem_of_cons; [apply elem_of_app; by left|by apply Hid2].
    + intros x [Hx|Hx]%elem_of_app; [exists id; split; [by left|by apply Hn1]|]. destruct (Hn2 x Hx) as (y & Hy & Hxy). exists y. split; [by right|done].
  - destruct IH as (He & y & Hy & r' & Hv' & Hs). split; [done|]. exists y. split; [by right|]. exists r'. by rewrite Hv', Hv1.
Qed.

(** A skill is added behind what it depends on. *)
Lemma ordered_done r r' order id skill : ordered r order -> skills !! id = Some skill -> id ∈ rl_visiting r ->
  (forall d, d ∈ sk_Dependencies skill -> d ∈ order) -> rl_visiting r' = rl_visiting r ∖ {[id]} -> rl_done r' = {[id]} ∪ rl_done r ->
  rl_resolved r' = rl_resolved r ++ [skill] -> ordered r' (order ++ [id]).
Proof.
  intros [Hs Hd Hn Ht Hv] Hid Hin Hdep Hv' Hd' Hr'. split.
  - rewrite Hr'. apply Forall2_app; [done|by repeat constructor].
  - intros x. rewrite Hd'. rewrite elem_of_app, elem_of_union, elem_of_singleton, list_elem_of_singleton, Hd. tauto.
  - apply NoDup_app. split_and!; [done| |apply NoDup_singleton]. intros x Hx ->%list_elem_of_singleton. by apply (Hv id Hin).
  - intros i a b Hi Hab. apply lookup_app_Some in Hi as [Hi|[Hlen Hi]].
    + destruct (Ht i a b Hi Hab) as (j & Hj & Hb). exists j. split; [done|]. by apply lookup_app_l_Some.
    + apply list_lookup_singleton_Some in Hi as [Hi <-]. destruct Hab as (sk & Hsk & Hb). simplify_eq. apply Hdep, list_elem_of_lookup_1 in Hb as (j & Hj).
      exists j. split; [apply lookup_lt_Some in Hj; lia|]. by apply lookup_app_l_Some.
  - intros x. rewrite Hv', elem_of_difference, elem_of_singleton. intros [Hx Hne]. destruct (Hv x Hx) as [Hsk Hno]. split; [done|].
    rewrite elem_of_app, list_elem_of_singleton. tauto.
Qed.

Lemma visitSkill_ok fuel id r order : ordered r order -> size skills <= size (rl_visiting r) + fuel -> visited id r order (visitSkill fuel skills id r).
Proof.
  revert id r order. induction fuel as [|fuel IH]; intros id r order Hr Hfuel; simpl.
  - destruct (skills !! id) as [skill|] eqn:Hsk; [|split; [done|]; exists id; split; [apply rtc_refl|by left]].
    case_bool_decide as Hv; [split; [done|]; exists id; split; [apply rtc_refl|by right; left]|]. exfalso.
    assert (size ({[id]} ∪ rl_visiting r) <= size (dom skills)) as Hle
      by (apply subseteq_size; intros x [->%elem_of_singleton|Hx]%elem_of_union; apply elem_of_dom; [done|by apply (or_visiting _ _ Hr)]).
    rewrite size_union, size_singleton, size_dom in Hle by set_solver. lia.
  - destruct (skills !! id) as [skill|] eqn:Hsk; [|split; [done|]; exists id; split; [apply rtc_refl|by left]].
    case_bool_decide as Hv; [split; [done|]; exists id; split; [apply rtc_refl|by right; left]|].
    case_bool_decide as Hd.
    { exists []. rewrite app_nil_r. split_and!; [done|done|by apply (or_done _ _ Hr)|set_solver]. }
    set (r0 := mkResolution ({[id]} ∪ rl_visiting r) (rl_done r) (rl_resolved r)).
    assert (ordered r0 order) as Hr0.
    { destruct Hr as [Hs Hdn Hn Ht Hvs]. split; [done|done|done|done|]. intros x [->%elem_of_singleton|Hx]%elem_of_union; [|by apply Hvs].
      split; [done|]. by rewrite <- Hdn. }
    assert (size (rl_visiting r0) = S (size (rl_visiting r))) as Hsz by (simpl; rewrite size_union, size_singleton by set_solver; lia).
    pose proof (visit_all (fun r dependency => visitSkill fuel skills dependency r) (sk_Dependencies skill) r0 order) as Hall.
    assert (forall d, d ∈ sk_Dependencies skill -> depends id d) as Hdep by (intros d Hd'; by exists skill).
    unfold mbind, result_bind. destruct (foldM _ r0 (sk_Dependencies skill)) as [r1|e].
    + destruct Hall as (new & Hr1 & Hv1 & Hin1 & Hn1); [intros d' r' order' _ Hr' Hv'; apply IH; [done|]; rewrite Hv', Hsz; lia|done|]. exists (new ++ [id]). rewrite app_assoc. split_and!.
      * eapply ordered_done; [exact Hr1|exact Hsk| |exact Hin1|done|done|done]. rewrite Hv1. set_solver.
      * simpl. rewrite Hv1. simpl. set_solver.
      * rewrite elem_of_app. right. by left.
      * intros x [Hx| ->%list_elem_of_singleton]%elem_of_app; [|apply rtc_refl]. destruct (Hn1 x Hx) as (d & Hd' & Hdx). eapply rtc_l; [by apply Hdep|done].
    + destruct Hall as (He & d & Hd' & r' & Hv' & Hs); [intros d' r2 order' _ Hr2 Hv2; apply IH; [done|]; rewrite Hv2, Hsz; lia|done|]. split; [done|].
      eapply depends_stack; [by apply Hdep|exact Hv'|exact Hs].
Qed.

Lemma topo_descends (order : list string) i a b : (forall i a b, order !! i = Some a -> depends a b -> exists j, j < i /\ order !! j = Some b) ->
  order !! i = Some a -> tc depends a b -> exists j, j < i /\ order !! j = Some b.
Proof.
  intros Ht Hi Hab. revert i Hi. induction Hab as [a b Hab|a c b Hac _ IH]; intros i Hi; [by eapply Ht|].
  destruct (Ht _ _ _ Hi Hac) as (j & Hj & Hc). destruct (IH j Hc) as (k & Hk & Hb). exists k. split; [lia|done].
Qed.

End resolving.

(** A list of skills can be resolved when all that is below them is known and none
    of it is on a cycle. *)
Definition resolvable (skills : gmap string Skill) (ids : list string) : Prop :=
  forall id x, id ∈ ids -> rtc (depends skills) id x -> is_Some (skills !! x) /\ ~ tc (depends skills) x x.

(** [order] lists the skills below [ids], each once and after what it depends on. *)
Definition resolution_order (skills : gmap string Skill) (ids order : list string) : Prop :=
  NoDup order /\ (forall x, x ∈ order <-> exists id, id ∈ ids /\ rtc (depends skills) id x) /\
  forall i a b, order !! i = Some a -> depends skills a b -> exists j, j < i /\ order !! j = Some b.

Lemma ordered_start skills : ordered skills (mkResolution ∅ ∅ []) [].
Proof. split; simpl; [done|set_solver|apply NoDup_nil_2|done|set_solver]. Qed.

Lemma resolve_order c ids skills : ResolveSkills c ids = Ok skills -> exists order,
  resolution_order (ca_Skills c) ids order /\ Forall2 (fun id skill => ca_Skills c !! id = Some skill) order skills.
Proof.
  unfold ResolveSkills. intros Hr. apply bind_Ok in Hr as (r & Hf & Hr). injection Hr as <-.
  pose proof (visit_all (ca_Skills c) (fun r id => visitSkill (size (ca_Skills c)) (ca_Skills c) id r) ids (mkResolution ∅ ∅ []) []) as Hall.
  rewrite Hf in Hall. destruct Hall as (order & [Hs Hd Hn Ht _] & _ & Hin & Hnew); [|apply ordered_start|].
  { intros id r' order' _ Hr' Hv'. apply visitSkill_ok; [done|]. lia. }
  simpl in *. exists order. split; [|done]. split_and!; [done| |done]. intros x. split; [by apply Hnew|]. intros (id & Hid & Hx).
  specialize (Hin id Hid). clear Hid Hnew. induction Hx as [|a b x Hab _ IH]; [done|]. apply IH.
  apply list_elem_of_lookup_1 in Hin as (i & Hi). destruct (Ht i a b Hi Hab) as (j & _ & Hj). by eapply list_elem_of_lookup_2.
Qed.

Lemma resolve_resolvable c ids skills : ResolveSkills c ids = Ok skills -> resolvable (ca_Skills c) ids.
Proof.
  intros (order & (Hn & Hin & Ht) & Hs)%resolve_order id x Hid Hx.
  assert (x ∈ order) as Hxo by (apply Hin; eauto). apply list_elem_of_lookup_1 in Hxo as (i & Hi). split.
  - destruct (Forall2_lookup_l _ _ _ _ _ Hs Hi) as (sk & _ & Hsk). by eexists.
  - intros Hc. destruct (topo_descends _ _ _ _ _ Ht Hi Hc) as (j & Hj & Hx'). rewrite (NoDup_lookup _ _ _ _ Hn Hi Hx') in Hj. lia.
Qed.

Lemma resolve_fails c ids e : ResolveSkills c ids = Err e -> e <> Diverged /\ ~ resolvable (ca_Skills c) ids.
Proof.
  unfold ResolveSkills. intros Hr. apply bind_Err in Hr as [Hf|(r & _ & Hr)]; [|done].
  pose proof (visit_all (ca_Skills c) (fun r id => visitSkill (size (ca_Skills c)) (ca_Skills c) id r) ids (mkResolution ∅ ∅ []) []) as Hall.
  rewrite Hf in Hall. destruct Hall as (He & id & Hid & r' & Hv' & x & Hx & Hwhy); [|apply ordered_start|].
  { intros id r' order' _ Hr' Hv'. apply visitSkill_ok; [done|]. lia. }
  split; [done|]. intros Hres. destruct (Hres id x Hid Hx) as [[sk Hsk] Hno]. destruct Hwhy as [?|[Hin|?]]; [by simplify_eq| |done].
  rewrite Hv' in Hin. simpl in Hin. set_solver.
Qed.

(** C13: [ResolveSkills] decides whether the requested skills can be loaded, for every
    catalog, cyclic ones included: it succeeds exactly when every skill below the
    requested ones is known and none is on a dependency cycle (so the recursion
    always ends, within the fuel), and then lists exactly those skills, each once and
    after everything it depends on. *)
Theorem resolve_skills_correct c ids :
  match ResolveSkills c ids with
  | Ok skills => resolvable (ca_Skills c) ids /\
      exists order, resolution_order (ca_Skills c) ids order /\ Forall2 (fun id skill => ca_Skills c !! id = Some skill) order skills
  | Err e => e <> Diverged /\ ~ resolvable (ca_Skills c) ids
  end.
Proof.
  destruct (ResolveSkills c ids) as [skills|e] eqn:Hr; [|by apply resolve_fails]. split; [by eapply resolve_resolvable|by apply resolve_order].
Qed.

(** ** Loaded catalogs *)

Section loaded.
Context `{GR : GoRuntime} (hash : string -> string) (readFile : string -> res string).

(** A skill file that was accepted. *)
Definition skill_loaded (availableTools : ToolMap) (id : string) (skill : Skill) : Prop :=
  sk_ID skill = id /\ sk_Description skill <> "" /\ forall tool, tool ∈ sk_Tools skill -> tool ∈ canonicalTools /\ is_Some (availableTools !! tool).

Lemma parseSkill_fields body skill : parseSkill hash body = Ok skill -> sk_ID skill <> "" /\ sk_Description skill <> "".
Proof.
  unfold parseSkill. intros Hp. apply bind_Ok in Hp as (_ & _ & Hp). apply bind_Ok in Hp as ([] & Hne & Hp). injection Hp as <-.
  apply fail_if_Ok, orb_false_iff in Hne as [H1%bool_decide_eq_false_1 H2%bool_decide_eq_false_1]. done.
Qed.

Lemma loadSkill_ok root tools m id m' : loadSkill hash readFile root tools m id = Ok m' -> exists skill, m' = <[id := skill]> m /\ skill_loaded tools id skill.
Proof.
  unfold loadSkill. destruct (readFile _) as [body|]; [|done]. destruct (parseSkill hash body) as [skill|] eqn:Hp; [|done].
  intros Hl. apply bind_Ok in Hl as ([] & Hid & Hl). apply bind_Ok in Hl as ([] & Ht & Hl). simplify_eq. apply guard_not_Ok in Hid.
  exists skill. split; [done|]. split_and!; [done|by apply (parseSkill_fields body)|]. intros tool Hin.
  rewrite each_Ok in Ht. specialize (Ht tool Hin). unfold checkTool in Ht. apply bind_Ok in Ht as ([] & Hc & Ha).
  apply fail_if_Ok, negb_false_iff in Hc. apply guard_Ok in Ha. split; [|by apply not_eq_None_Some].
  unfold IsCanonicalTool in Hc. apply existsb_exists in Hc as (x & Hx & Heq%bool_decide_eq_true_1). subst x. by apply list_elem_of_In.
Qed.

Lemma loadSkills_ok root tools ids m m' : foldM (loadSkill hash readFile root tools) m ids = Ok m' ->
  (forall id skill, m !! id = Some skill -> skill_loaded tools id skill) ->
  (forall id skill, m' !! id = Some skill -> skill_loaded tools id skill) /\ forall id, id ∈ ids \/ is_Some (m !! id) -> is_Some (m' !! id).
Proof.
  revert m. induction ids as [|x ids IH]; intros m Hf Hm; simpl in Hf.
  - simplify_eq. split; [done|]. intros id [Hin|?]; [by apply not_elem_of_nil in Hin|done].
  - apply bind_Ok in Hf as (m1 & Hx & Hf). apply loadSkill_ok in Hx as (skill & -> & Hs). destruct (IH _ Hf) as [H1 H2].
    { intros id sk [[<- <-]|[_ ?]]%lookup_insert_Some; [done|by apply Hm]. }
    split; [done|]. intros id Hid. apply H2. destruct (decide (id = x)) as [->|Hne]; [right; by rewrite lookup_insert_eq|].
    destruct Hid as [[->|Hin]%elem_of_cons|Hs']; [done|by left|right; by rewrite lookup_insert_ne].
Qed.

Lemma loadPrompts_ok root entries m m' : foldM (loadPrompt hash readFile root) m entries = Ok m' ->
  forall id, id ∈ entries.*1 \/ is_Some (m !! id) -> is_Some (m' !! id).
Proof.
  revert m. induction entries as [|[x name] entries IH]; intros m Hf id Hid; simpl in Hf.
  - simplify_eq. destruct Hid as [Hin|?]; [by apply not_elem_of_nil in Hin|done].
  - apply bind_Ok in Hf as (m1 & Hx & Hf). unfold loadPrompt in Hx. destruct (readFile _) as [body|]; [|done]. injection Hx as <-.
    apply (IH _ Hf). destruct (decide (id = x)) as [->|Hne]; [right; by rewrite lookup_insert_eq|].
    destruct Hid as [Hin|?]; [|right; by rewrite lookup_insert_ne]. simpl in Hin. apply elem_of_cons in Hin as [->|Hin]; [done|by left].
Qed.

Lemma resolvable_mono skills ids ids' : (forall id, id ∈ ids -> id ∈ ids') -> resolvable skills ids' -> resolvable skills ids.
Proof. intros Hin Hr id x Hid. by apply Hr, Hin. Qed.

Lemma directSkills_required role operation ids : directSkills role operation = Ok ids ->
  (forall id, id ∈ ids -> id ∈ requiredSkills) /\ is_Some (promptFiles !! role).
Proof.
  unfold directSkills, contextSkills, phaseSkills. intros Hd.
  repeat (case_bool_decide; [subst|]); repeat (apply bind_Ok in Hd as (_ & _ & Hd)); simplify_eq;
    (split; [intros id Hid; apply (bool_decide_unpack (id ∈ requiredSkills)); revert id Hid; apply Forall_forall; repeat constructor|by eexists]).
Qed.

(** A catalog that loads serves every role: each required skill has the name of its
    directory and only tools that are canonical and available, and the skills of
    every role and operation resolve, with the role's prompt and the shared prompt
    present. *)
Theorem loaded_catalog_serves root tools c : Load hash readFile root tools = Ok c ->
  (forall id, id ∈ requiredSkills -> exists skill, ca_Skills c !! id = Some skill /\ skill_loaded tools id skill) /\
  is_Some (ca_Prompts c !! "shared") /\
  forall role operation ids, directSkills role operation = Ok ids ->
    is_Some (ca_Prompts c !! role) /\ exists skills, ResolveSkills c ids = Ok skills.
Proof.
  unfold Load. intros Hl. apply bind_Ok in Hl as (_ & _ & Hl). apply bind_Ok in Hl as (_ & _ & Hl). apply bind_Ok in Hl as (prompts & Hp & Hl).
  apply bind_Ok in Hl as (skills & Hs & Hl). apply bind_Ok in Hl as (resolved & Hr & Hl). simplify_eq. simpl.
  assert (forall id, is_Some (promptFiles !! id) -> is_Some (prompts !! id)) as Hprompt.
  { intros id Hid. apply (loadPrompts_ok _ _ _ _ Hp). left. by apply elem_of_range_keys. }
  destruct (loadSkills_ok _ _ _ _ _ Hs) as [Hok Hall]; [done|]. split_and!.
  - intros id Hid. destruct (Hall id (or_introl Hid)) as [skill Hsk]. eauto.
  - apply Hprompt. by eexists.
  - intros role operation ids Hd. apply directSkills_required in Hd as [Hreq Hrole]. split; [by apply Hprompt|].
    apply resolve_resolvable in Hr. destruct (ResolveSkills _ ids) as [l|e] eqn:He; [by exists l|]. exfalso.
    apply resolve_fails in He as [_ He]. by eapply He, resolvable_mono.
Qed.

End loaded.

(** ** A sample *)

Module CatalogSample.
#[local] Existing Instance GoRuntime_list.

Definition lines (l : list string) : string := Join (String newline "") l.

(** [phase-submit] has a tool and needs [task-memory]. *)
Definition skill_file (id : string) : string :=
  lines (["---"; "name: " +:+ id; "description: sample"; "---"; "# " +:+ id] ++
         (if bool_decide (id = "phase-submit") then ["## 依赖"; "- `task-memory`"; "## 工具"; "- `" +:+ ToolAgentSubmitPhaseOutput +:+ "`"] else [])).

Definition sample_files (path : string) : res string :=
  match list_find (fun id => path_join ["/repo"; "docs"; "agent-skills"; id; "SKILL.md"] = path) requiredSkills with
  | Some (_, id) => Ok (skill_file id)
  | None => Ok "{{ROLE}} {{AVAILABLE_TOOLS}}"
  end.

Definition sample_tools : ToolMap := ToolSet [ToolAgentSubmitPhaseOutput; ToolWorkspaceRead].
Definition loaded : res Catalog := Load id sample_files "/repo" sample_tools.

Definition loaded_ids (ids : list string) : res (list string) := c ← loaded; skills ← ResolveSkills c ids; Ok (map sk_ID skills).

Example loaded_order : loaded_ids ["phase-submit"; "task-memory"; "planning-delivery"] = Ok ["task-memory"; "phase-submit"; "planning-delivery"].
Proof. vm_compute. reflexivity. Qed.

Lemma loaded_catalog_serves_witness : exists c, loaded = Ok c /\ is_Some (ca_Prompts c !! "shared").
Proof.
  destruct loaded as [c|e] eqn:Hl.
  - exists c. split; [reflexivity|]. destruct (loaded_catalog_serves id sample_files "/repo" sample_tools c) as (_ & Hs & _); [exact Hl|exact Hs].
  - exfalso. assert (is_ok loaded = true) as Hok by (vm_compute; reflexivity). rewrite Hl in Hok. discriminate Hok.
Defined.

End CatalogSample.
