(* ===== verification/Invocation.v ===== *)
(** * Invocations

    [runtime/invocation.go], [policy.go], [envelope.go]: the record of an agent's
    run, the in-memory store of invocations with its status machine, and the tools
    an invocation gets.  The canonical JSON hash of an invocation is a
    parameter. *)

From stdpp Require Import base tactics option list strings gmap sorting.
From Stdlib Require Import ZArith Ascii.
From S2P Require Import Prelude GoLib GoStrings Kernel CoordTypes Auth Catalog.

Definition InvocationPrepared : string := "prepared".
Definition InvocationRunning : string := "running".
Definition InvocationWaiting : string := "waiting".
Definition InvocationStopped : string := "stopped".
Definition InvocationCompleted : string := "completed".
Definition InvocationFailed : string := "failed".

Record Invocation := mkInvocation {
  in_ID : InvocationID;
  in_ActorPrincipalID : ActorPrincipalID;
  in_ProjectID : ProjectID;
  in_TaskID : TaskID;
  in_EndpointID : EndpointID;
  in_ConsumerInvocationID : InvocationID;
  in_ConsumerTaskID : TaskID;
  in_ConsumerRole : Role;
  in_Generation : Z;
  in_Role : Role;
  in_Operation : string;
  in_Status : string;
  in_BindingRef : BindingRef;
  in_LeaseID : LeaseID;
  in_WorkspaceRef : string;
  in_ContextSliceRef : string;
  in_TaskMemoryBufferRef : string;
  in_PromptHashes : gmap string string;
  in_SkillHashes : gmap string string;
  in_EffectiveTools : list Tool;
  in_CreatedAt : Time;
  in_ExpiresAt : Time;
}.

(** Which invocations a reader asks for: a zero field is no condition. *)
Record InvocationFilter := mkFilter {
  fi_ProjectID : ProjectID;
  fi_TaskID : TaskID;
  fi_EndpointID : EndpointID;
  fi_Generation : Z;
}.

#[global] Instance Invocation_eq_dec : EqDecision Invocation.
Proof. solve_decision. Defined.

Definition in_set_Status (status : string) (i : Invocation) : Invocation :=
  mkInvocation (in_ID i) (in_ActorPrincipalID i) (in_ProjectID i) (in_TaskID i) (in_EndpointID i) (in_ConsumerInvocationID i)
    (in_ConsumerTaskID i) (in_ConsumerRole i) (in_Generation i) (in_Role i) (in_Operation i) status (in_BindingRef i) (in_LeaseID i)
    (in_WorkspaceRef i) (in_ContextSliceRef i) (in_TaskMemoryBufferRef i) (in_PromptHashes i) (in_SkillHashes i) (in_EffectiveTools i)
    (in_CreatedAt i) (in_ExpiresAt i).

Definition in_set_assembled (prompts skills : gmap string string) (tools : list Tool) (i : Invocation) : Invocation :=
  mkInvocation (in_ID i) (in_ActorPrincipalID i) (in_ProjectID i) (in_TaskID i) (in_EndpointID i) (in_ConsumerInvocationID i)
    (in_ConsumerTaskID i) (in_ConsumerRole i) (in_Generation i) (in_Role i) (in_Operation i) (in_Status i) (in_BindingRef i) (in_LeaseID i)
    (in_WorkspaceRef i) (in_ContextSliceRef i) (in_TaskMemoryBufferRef i) prompts skills tools (in_CreatedAt i) (in_ExpiresAt i).

Definition zeroInvocation : Invocation :=
  mkInvocation "" "" "" "" "" "" "" "" 0 "" "" "" "" "" "" "" "" ∅ ∅ [] time_zero time_zero.

(** ** Validation *)

Definition validStatuses : list string :=
  [InvocationPrepared; InvocationRunning; InvocationWaiting; InvocationStopped; InvocationCompleted; InvocationFailed].

(** The fields of a phase. *)
Definition validatePhaseFields (i : Invocation) : res unit :=
  _ ← RequireID "task_id" (in_TaskID i);
  _ ← RequireID "endpoint_id" (in_EndpointID i);
  _ ← fail_if (bool_decide (in_Generation i = 0%Z)) (InvalidArgument "phase generation must be positive");
  _ ← RequireID "binding_ref" (in_BindingRef i);
  RequireID "lease_id" (in_LeaseID i).

Definition contextOperations : list string := ["retrieve"; "curate"; "review"].

Definition validateOperation (i : Invocation) : res unit :=
  if bool_decide (in_Role i = RoleContext)
  then fail_if (bool_decide (in_Operation i ∉ contextOperations)) (InvalidArgument "context agent operation must be retrieve, curate, or review")
  else fail_if (bool_decide (in_Operation i <> "")) (InvalidArgument "operation is only valid for context agent").

Definition consumerRoles : list Role := [RoleTaskManager; RoleContext; RolePlanner; RoleExecutor; RoleVerifier].

Definition validateConsumer (i : Invocation) : res unit :=
  _ ← fail_if ((bool_decide (in_ConsumerInvocationID i <> "") || bool_decide (in_ConsumerTaskID i <> "") || bool_decide (in_ConsumerRole i <> "")) &&
               (bool_decide (in_Role i <> RoleContext) || bool_decide (in_Operation i <> "retrieve")))
      (Forbidden "consumer invocation is only valid for context retrieve invocation");
  fail_if (bool_decide (in_ConsumerRole i <> "") && bool_decide (in_ConsumerRole i ∉ consumerRoles))
    (Forbidden "consumer role is not a supported agent role").

Definition Validate (i : Invocation) : res unit :=
  _ ← RequireID "invocation_id" (in_ID i);
  _ ← RequireID "actor_principal_id" (in_ActorPrincipalID i);
  _ ← RequireID "project_id" (in_ProjectID i);
  _ ← fail_if (bool_decide (in_Role i = "") || bool_decide (in_Role i = RoleOperator)) (InvalidArgument "invocation requires an agent role");
  _ ← fail_if (bool_decide (in_Status i ∉ validStatuses)) (InvalidArgument "invocation status is invalid");
  _ ← fail_if (negb (in_CreatedAt i <? in_ExpiresAt i)%Z) (InvalidArgument "invocation expiry must be after creation");
  _ ← (if IsPhase (in_Role i) then validatePhaseFields i else Ok tt);
  _ ← validateOperation i;
  _ ← validateConsumer i;
  _ ← fail_if (bool_decide (in_EffectiveTools i = [])) (Forbidden "invocation has no effective tools");
  fail_if (bool_decide (in_PromptHashes i = ∅) || bool_decide (in_SkillHashes i = ∅))
    (InvalidArgument "invocation prompt and skill hashes are required").

(** [Invocation.Capability]. *)
Definition capabilityOf (i : Invocation) : Capability :=
  mkCapability (in_ProjectID i) (in_TaskID i) (in_ID i) (in_ConsumerInvocationID i) (in_ConsumerTaskID i) (in_ConsumerRole i) (in_Role i)
    (in_Operation i) (ToolSet (in_EffectiveTools i)) (in_ExpiresAt i).

(** ** The store *)

Record InvocationStore := mkInvocationStore {
  is_invocations : gmap InvocationID Invocation;
  is_fingerprints : gmap InvocationID string;
}.

Definition NewMemoryInvocationStore : InvocationStore := mkInvocationStore ∅ ∅.

Definition validInvocationTransition (from to : string) : bool :=
  if bool_decide (from = InvocationPrepared)
  then bool_decide (to = InvocationRunning) || bool_decide (to = InvocationFailed) || bool_decide (to = InvocationStopped)
  else if bool_decide (from = InvocationRunning)
  then bool_decide (to = InvocationWaiting) || bool_decide (to = InvocationStopped) || bool_decide (to = InvocationCompleted) ||
       bool_decide (to = InvocationFailed)
  else if bool_decide (from = InvocationWaiting)
  then bool_decide (to = InvocationRunning) || bool_decide (to = InvocationStopped) || bool_decide (to = InvocationFailed)
  else false.

Section store.
Context `{GR : GoRuntime} (hashInvocation : Invocation -> string).

(** The hash does not depend on the order of the tools. *)
Definition invocationFingerprint (i : Invocation) : string :=
  hashInvocation (in_set_assembled (in_PromptHashes i) (in_SkillHashes i) (sort_slice string_lt (in_EffectiveTools i)) i).

Definition inv_Create (ctx : Context) (invocation : Invocation) : M error InvocationStore unit :=
  _ ← lift (ctx_Err ctx);
  _ ← lift (Validate invocation);
  s ← get_state;
  let fingerprint := invocationFingerprint invocation in
  match is_invocations s !! in_ID invocation with
  | Some _ =>
    if bool_decide (default "" (is_fingerprints s !! in_ID invocation) = fingerprint) then mret tt
    else throw (kerr CodeIdempotencyConflict "invocation id already has a different creation payload" false)
  | None =>
    put_state (mkInvocationStore (<[in_ID invocation := invocation]> (is_invocations s)) (<[in_ID invocation := fingerprint]> (is_fingerprints s)))
  end.

Definition inv_Get (ctx : Context) (id : InvocationID) : M error InvocationStore (option Invocation) :=
  _ ← lift (ctx_Err ctx);
  s ← get_state;
  mret (is_invocations s !! id).

(** The first in the order of the map. *)
Definition inv_GetByLease (ctx : Context) (lease : LeaseID) : M error InvocationStore (option Invocation) :=
  _ ← lift (ctx_Err ctx);
  s ← get_state;
  mret (snd <$> list_find (fun i => in_LeaseID i = lease) (range_values (is_invocations s))).

Definition inv_Transition (ctx : Context) (id : InvocationID) (from to : string) : M error InvocationStore unit :=
  _ ← lift (ctx_Err ctx);
  _ ← lift (fail_if (negb (validInvocationTransition from to)) (InvalidArgument "invalid invocation status transition"));
  s ← get_state;
  match is_invocations s !! id with
  | None => throw (kerr CodeNotFound "invocation not found" false)
  | Some invocation =>
    _ ← lift (fail_if (bool_decide (in_Status invocation <> from)) (kerr CodeRevisionConflict "invocation status changed" false));
    put_state (mkInvocationStore (<[id := in_set_Status to invocation]> (is_invocations s)) (is_fingerprints s))
  end.

(** ** Tools *)

Definition EffectiveTools (role skill available : ToolMap) : res (list Tool) :=
  _ ← fail_if (bool_decide (role = ∅) || bool_decide (skill = ∅) || bool_decide (available = ∅))
      (OtherError "role, skill, and runtime tool sets are all required");
  let tools := sort_slice string_lt (filter (fun tool => is_Some (skill !! tool) /\ is_Some (available !! tool)) (range_keys role)) in
  _ ← fail_if (bool_decide (tools = [])) (OtherError "effective tool intersection is empty");
  Ok tools.

Definition Assemble (hash : string -> string) (c : Catalog) (invocation : Invocation) (data : RenderData) : res (Invocation * Rendered) :=
  b ← bundle c (in_Role invocation) (in_Operation invocation);
  let rendered := Render hash b data in
  let invocation := in_set_assembled (re_PromptHashes rendered) (re_SkillHashes rendered) (bu_EffectiveTools b) invocation in
  _ ← Validate invocation;
  Ok (invocation, rendered).

End store.

(** ** The envelope *)

Record Envelope := mkEnvelope {
  en_InvocationID : InvocationID;
  en_ActorPrincipalID : ActorPrincipalID;
  en_ProjectID : ProjectID;
  en_TaskID : TaskID;
  en_EndpointID : EndpointID;
  en_Generation : Z;
  en_Role : Role;
  en_Operation : string;
  en_BindingRef : BindingRef;
  en_LeaseID : LeaseID;
  en_EffectiveTools : list Tool;
}.

Definition EnvelopeFromInvocation (i : Invocation) : Envelope :=
  mkEnvelope (in_ID i) (in_ActorPrincipalID i) (in_ProjectID i) (in_TaskID i) (in_EndpointID i) (in_Generation i) (in_Role i) (in_Operation i)
    (in_BindingRef i) (in_LeaseID i) (in_EffectiveTools i).
