(* ===== verification/PhaseTypes.v ===== *)
(** * The phase controller: data

    The records of [runtime/phase/controller.go] and [proposal.go], the checks on
    them, and the collaborators of the controller as interfaces over a state [H]. *)

From stdpp Require Import base tactics option list strings gmap sorting.
From Stdlib Require Import ZArith Ascii.
From S2P Require Import Prelude GoLib GoStrings Kernel CoordTypes Auth Catalog Invocation.

(** ** Inputs and outputs *)

Record InputRequirement := mkRequirement {
  ir_InputID : string;
  ir_FromEndpoint : PhaseEndpointRef;
  ir_RequiredArtifacts : list string;
  ir_RequiredBy : string;
}.

Record InputDelivery := mkDelivery {
  id_InputID : string;
  id_FromEndpoint : PhaseEndpointRef;
  id_PhaseOutputRef : string;
  id_ArtifactRefs : list string;
  id_SourceRevision : string;
}.

Record PendingInput := mkPendingInput {
  pi_InputID : string;
  pi_FromEndpoint : PhaseEndpointRef;
  pi_RequiredBy : string;
}.

Record PhaseInputSet := mkInputSet {
  pis_InputRevision : string;
  pis_Required : list InputRequirement;
  pis_Delivered : list InputDelivery;
  pis_Pending : list PendingInput;
}.

Record StartPhaseInput := mkStartInput {
  sp_InvocationID : InvocationID;
  sp_Endpoint : PhaseEndpointRef;
  sp_Generation : Z;
  sp_BindingRef : BindingRef;
  sp_Inputs : PhaseInputSet;
}.

Record AwaitInputsRequest := mkAwait {
  aw_InputIDs : list string;
}.

(** A missing slice is [None]. *)
Record InputWaitResult := mkWaitResult {
  iw_InputRevision : string;
  iw_Delivered : option (list InputDelivery);
  iw_Pending : option (list PendingInput);
  iw_TerminalReason : string;
}.

Record PhaseOutput := mkPhaseOutput {
  po_Phase : string;
  po_DeliveryRefs : list string;
  po_ReportRef : string;
  po_EvidenceRefs : list string;
}.

Record OutputReceipt := mkReceipt {
  rc_Output : PhaseOutput;
  rc_InvocationID : InvocationID;
  rc_CommandID : string;
  rc_CommandAction : string;
  rc_CauseRef : string;
  rc_Endpoint : PhaseEndpointRef;
  rc_Generation : Z;
  rc_BindingRef : BindingRef;
  rc_LeaseRef : LeaseID;
  rc_InputRevision : string;
  rc_WorkspaceRef : string;
  rc_WorkspaceHead : string;
  rc_OutputFingerprint : string;
  rc_SubmittedAtUTC : Time;
}.

Record BindingSnapshot := mkSnapshot {
  bs_ProjectID : ProjectID;
  bs_ActorPrincipalID : ActorPrincipalID;
  bs_TaskID : TaskID;
  bs_EndpointID : EndpointID;
  bs_Generation : Z;
  bs_BindingRef : BindingRef;
  bs_LeaseRef : LeaseID;
  bs_WorkspaceRef : string;
  bs_WorkspaceRevision : string;
  bs_WorkspaceBinding : string;
  bs_ContextSliceRef : string;
  bs_ContextSlice : string;
  bs_TaskMemoryBufferRef : string;
  bs_TaskMemoryBuffer : string;
  bs_TaskContract : string;
  bs_PhaseSpec : string;
  bs_Inputs : PhaseInputSet;
  bs_CheckpointRef : string;
  bs_NonResumable : bool;
}.

Record ActiveInvocation := mkActive {
  ai_Invocation : Invocation;
  ai_Command : PhaseCommand;
  ai_Binding : BindingSnapshot;
  ai_Inputs : PhaseInputSet;
  ai_Revoked : bool;
}.

Record DispatchRequest := mkDispatch {
  dr_Invocation : Invocation;
  dr_Capability : Capability;
  dr_Prompt : Rendered;
  dr_Start : StartPhaseInput;
  dr_Binding : BindingSnapshot;
  dr_CheckpointRef : string;
}.

Record StopRequest := mkStopRequest {
  sr_Invocation : Invocation;
  sr_Command : PhaseCommand;
  sr_Binding : BindingSnapshot;
}.

Record StopResult := mkStopResult {
  st_ResumeStateRef : string;
  st_CheckpointRef : string;
  st_WorkspaceRevision : string;
  st_NonResumable : bool;
}.

Definition ai_set_Invocation (i : Invocation) (a : ActiveInvocation) : ActiveInvocation :=
  mkActive i (ai_Command a) (ai_Binding a) (ai_Inputs a) (ai_Revoked a).
Definition ai_set_Binding (b : BindingSnapshot) (a : ActiveInvocation) : ActiveInvocation :=
  mkActive (ai_Invocation a) (ai_Command a) b (ai_Inputs a) (ai_Revoked a).
Definition ai_set_Inputs (inputs : PhaseInputSet) (a : ActiveInvocation) : ActiveInvocation :=
  mkActive (ai_Invocation a) (ai_Command a) (ai_Binding a) inputs (ai_Revoked a).

(** ** Checks *)

Definition staleCommand (message : string) : error := kerr CodeStaleCommand message true.

Definition validateCommand (command : PhaseCommand) : res unit :=
  _ ← fail_if (bool_decide (cmd_ID command = "")) (InvalidArgument "command id is required");
  _ ← RequireID "task_id" (ref_TaskID (cmd_Endpoint command));
  _ ← RequireID "endpoint_id" (ref_EndpointID (cmd_Endpoint command));
  _ ← fail_if (bool_decide (cmd_Generation command = 0%Z)) (InvalidArgument "generation must be positive");
  _ ← RequireID "binding_ref" (cmd_BindingRef command);
  RequireID "lease_ref" (cmd_LeaseRef command).

Definition validateBindingForCommand (binding : BindingSnapshot) (command : PhaseCommand) : res unit :=
  _ ← fail_if (bool_decide (bs_TaskID binding <> ref_TaskID (cmd_Endpoint command)) ||
               bool_decide (bs_EndpointID binding <> ref_EndpointID (cmd_Endpoint command)) ||
               bool_decide (bs_Generation binding <> cmd_Generation command) ||
               bool_decide (bs_BindingRef binding <> cmd_BindingRef command))
      (StaleBinding "binding snapshot does not match command");
  _ ← fail_if (bool_decide (bs_LeaseRef binding <> cmd_LeaseRef command)) (LeaseConflict "binding lease does not match command");
  fail_if (bool_decide (bs_ProjectID binding = "") || bool_decide (bs_ActorPrincipalID binding = "") ||
           bool_decide (bs_WorkspaceRef binding = "") || bool_decide (bs_WorkspaceRevision binding = ""))
    (StaleBinding "binding snapshot is incomplete").

Definition validateBindingForActive (binding : BindingSnapshot) (active : ActiveInvocation) : res unit :=
  _ ← validateBindingForCommand binding (ai_Command active);
  let invocation := ai_Invocation active in
  fail_if (bool_decide (bs_ProjectID binding <> in_ProjectID invocation) || bool_decide (bs_TaskID binding <> in_TaskID invocation) ||
           bool_decide (bs_EndpointID binding <> in_EndpointID invocation) ||
           bool_decide (uint64_wrap (bs_Generation binding) <> in_Generation invocation) ||
           bool_decide (bs_BindingRef binding <> in_BindingRef invocation) || bool_decide (bs_LeaseRef binding <> in_LeaseID invocation))
    (StaleBinding "binding snapshot does not match active invocation").

Definition validateStopResult (result : StopResult) : res unit :=
  if st_NonResumable result then Ok tt
  else fail_if (bool_decide (st_ResumeStateRef result = "") || bool_decide (st_WorkspaceRevision result = "") ||
                bool_decide (st_CheckpointRef result = ""))
         (IncompleteStopEvidence "resumable stop requires resume_state_ref, workspace_revision, and checkpoint_ref").

Definition validateAwaitRequest (inputs : PhaseInputSet) (req : AwaitInputsRequest) : res unit :=
  each (fun id => fail_if (bool_decide (id ∉ pi_InputID <$> pis_Pending inputs)) (InvalidArgument "await input id is not pending"))
    (aw_InputIDs req).

(** The deliveries by input; the last one counts. *)
Definition deliveryMap (deliveries : list InputDelivery) : res (gmap string InputDelivery) :=
  foldM (fun m delivery =>
    _ ← fail_if (bool_decide (id_InputID delivery = "") || bool_decide (id_PhaseOutputRef delivery = "") ||
                 bool_decide (id_SourceRevision delivery = ""))
        (TransitionRejected "delivered completion input is missing identity, output ref, or source revision");
    _ ← fail_if (bool_decide (ref_TaskID (id_FromEndpoint delivery) = "") || bool_decide (ref_EndpointID (id_FromEndpoint delivery) = ""))
        (TransitionRejected "delivered completion input is missing source endpoint");
    Ok (<[id_InputID delivery := delivery]> m)) ∅ deliveries.

Definition checkRequirement (delivered : gmap string InputDelivery) (req : InputRequirement) : res unit :=
  if bool_decide (ir_RequiredBy req <> "completion") then Ok tt
  else
    match delivered !! ir_InputID req with
    | None => Err (TransitionRejected "required completion input has not been delivered")
    | Some delivery =>
      _ ← fail_if (bool_decide (ref_TaskID (ir_FromEndpoint req) = "") || bool_decide (ref_EndpointID (ir_FromEndpoint req) = "") ||
                   bool_decide (id_FromEndpoint delivery <> ir_FromEndpoint req))
          (TransitionRejected "completion input source endpoint does not match requirement");
      each (fun required => fail_if (bool_decide (required ∉ id_ArtifactRefs delivery))
              (TransitionRejected "completion input is missing required artifact")) (ir_RequiredArtifacts req)
    end.

Definition validateCompletionInputs (inputs : PhaseInputSet) : res unit :=
  delivered ← deliveryMap (pis_Delivered inputs);
  each (checkRequirement delivered) (pis_Required inputs).

Definition validatePhaseOutput (active : ActiveInvocation) (output : PhaseOutput) : res unit :=
  _ ← fail_if (bool_decide (po_Phase output = "") || bool_decide (po_ReportRef output = ""))
      (InvalidArgument "phase output requires phase and report_ref");
  _ ← validateCompletionInputs (ai_Inputs active);
  fail_if (bool_decide (po_Phase output <> ref_EndpointID (cmd_Endpoint (ai_Command active))))
    (InvalidArgument "phase output phase does not match endpoint").

Definition phaseRole (endpoint : EndpointID) : res Role :=
  if bool_decide (endpoint = "plan") then Ok RolePlanner
  else if bool_decide (endpoint = "execute") then Ok RoleExecutor
  else if bool_decide (endpoint = "verify") then Ok RoleVerifier
  else Err (InvalidArgument "endpoint id must be plan, execute, or verify").

Definition mergeInputWaitResult (current : PhaseInputSet) (result : InputWaitResult) : PhaseInputSet :=
  let revision := if bool_decide (iw_InputRevision result <> "") then iw_InputRevision result else pis_InputRevision current in
  let '(delivered, pending) :=
    match iw_Delivered result with
    | None => (pis_Delivered current, pis_Pending current)
    | Some new =>
      let all := pis_Delivered current ++ new in
      (all, filter (fun p => pi_InputID p ∉ id_InputID <$> all) (pis_Pending current))
    end in
  mkInputSet revision (pis_Required current) delivered (default pending (iw_Pending result)).

Definition commandFromOutputReceipt (receipt : OutputReceipt) : res PhaseCommand :=
  _ ← fail_if (bool_decide (rc_CommandID receipt = "") || bool_decide (rc_CommandAction receipt = "") ||
               bool_decide (ref_TaskID (rc_Endpoint receipt) = "") || bool_decide (ref_EndpointID (rc_Endpoint receipt) = "") ||
               (rc_Generation receipt <=? 0)%Z || bool_decide (rc_BindingRef receipt = "") || bool_decide (rc_LeaseRef receipt = ""))
      (kerr CodeInternalError "persisted output receipt is missing command identity" true);
  _ ← fail_if (bool_decide (rc_CommandAction receipt <> CommandStart) && bool_decide (rc_CommandAction receipt <> CommandResume))
      (kerr CodeInternalError "persisted output receipt has invalid command action" true);
  Ok (mkCommand (rc_CommandID receipt) (rc_Endpoint receipt) (rc_Generation receipt) (rc_BindingRef receipt) (rc_LeaseRef receipt)
        (rc_CommandAction receipt) (rc_CauseRef receipt)).

(** ** Proposals *)

Definition OrchestrationSplit : string := "split".
Definition OrchestrationDependency : string := "dependency".
Definition OrchestrationReplan : string := "replan".
Definition OrchestrationRetry : string := "retry".
Definition OrchestrationSerialParallel : string := "serial_parallel".

Record OrchestrationIntent := mkIntent {
  oi_OrchestrationAdvice : string;
  oi_DeliverySpecAdvice : string;
  oi_ReportSpecAdvice : string;
  oi_Rationale : string;
  oi_EvidenceRefs : list string;
}.

Definition ValidateOrchestrationIntent (intent : OrchestrationIntent) : res unit :=
  _ ← fail_if (bool_decide (oi_OrchestrationAdvice intent ∉
        [OrchestrationSplit; OrchestrationDependency; OrchestrationReplan; OrchestrationRetry; OrchestrationSerialParallel]))
      (InvalidArgument "orchestration_advice must be split, dependency, replan, retry, or serial_parallel");
  _ ← fail_if (bool_decide (TrimSpace (oi_Rationale intent) = "")) (InvalidArgument "rationale is required");
  _ ← fail_if (bool_decide (TrimSpace (oi_DeliverySpecAdvice intent) = "")) (InvalidArgument "delivery_spec_advice is required");
  fail_if (bool_decide (TrimSpace (oi_ReportSpecAdvice intent) = "")) (InvalidArgument "report_spec_advice is required").

(** ** The collaborators *)

(** The binding resolver, the input runtime, the artifact router, the host and the
    lifecycle.  [ph_Err] is the state of the context of the call, which may be
    cancelled between any two steps. *)
Record PhaseHost (H : Type) := mkPhaseHost {
  ph_Err : H -> Context * H;
  ph_Resolve : PhaseCommand -> M error H BindingSnapshot;
  ph_Refresh : ActiveInvocation -> M error H BindingSnapshot;
  ph_AwaitInputs : ActiveInvocation -> AwaitInputsRequest -> M error H InputWaitResult;
  ph_Route : ActiveInvocation -> string -> M error H string;
  ph_Dispatch : DispatchRequest -> M error H unit;
  ph_Rehydrate : DispatchRequest -> M error H unit;
  ph_Suspend : InvocationID -> M error H unit;
  ph_Stop : StopRequest -> M error H StopResult;
  ph_Fence : InvocationID -> M error H unit;
  ph_Revoke : InvocationID -> M error H unit;
  ph_Complete : Invocation -> M error H unit;
  ph_End : Invocation -> M error H unit;
}.
Arguments ph_Err {H}.
Arguments ph_Resolve {H}.
Arguments ph_Refresh {H}.
Arguments ph_AwaitInputs {H}.
Arguments ph_Route {H}.
Arguments ph_Dispatch {H}.
Arguments ph_Rehydrate {H}.
Arguments ph_Suspend {H}.
Arguments ph_Stop {H}.
Arguments ph_Fence {H}.
Arguments ph_Revoke {H}.
Arguments ph_Complete {H}.
Arguments ph_End {H}.

Record RecoveryStore (H : Type) := mkRecovery {
  rs_RecordActiveInvocation : ActiveInvocation -> M error H unit;
  rs_RecoverActiveInvocation : PhaseCommand -> BindingSnapshot -> M error H (option ActiveInvocation);
  rs_RecordOutputReceipt : ActiveInvocation -> OutputReceipt -> M error H unit;
  rs_GetOutputReceipt : InvocationID -> string -> M error H (option OutputReceipt);
  rs_RecordStopEvidence : ActiveInvocation -> PhaseCommand -> StopResult -> M error H unit;
  rs_GetStopEvidence : InvocationID -> string -> M error H (option StopResult);
  rs_ClearActiveInvocation : InvocationID -> M error H unit;
  rs_ValidateResume : PhaseCommand -> BindingSnapshot -> M error H unit;
}.
Arguments rs_RecordActiveInvocation {H}.
Arguments rs_RecoverActiveInvocation {H}.
Arguments rs_RecordOutputReceipt {H}.
Arguments rs_GetOutputReceipt {H}.
Arguments rs_RecordStopEvidence {H}.
Arguments rs_GetStopEvidence {H}.
Arguments rs_ClearActiveInvocation {H}.
Arguments rs_ValidateResume {H}.

(** [coordination.PhaseObservationWriter]. *)
Record ObservationWriter (H : Type) := mkObservationWriter {
  ow_Started : ProjectID -> PhaseCommand -> M error H unit;
  ow_OutputSubmitted : ProjectID -> PhaseCommand -> M error H unit;
  ow_Failed : ProjectID -> PhaseCommand -> M error H unit;
  ow_Stopped : ProjectID -> PhaseCommand -> string -> bool -> M error H unit;
}.
Arguments ow_Started {H}.
Arguments ow_OutputSubmitted {H}.
Arguments ow_Failed {H}.
Arguments ow_Stopped {H}.
