(* ===== verification/Phase.v ===== *)
(** * The phase controller

    [runtime/phase/controller.go]: commands of the graph runtime become invocations
    of agents, and what becomes of an invocation is reported to the coordination
    graph.  A call runs to its end before the next one begins, except that other
    calls run while [AwaitInputs] waits; every collaborator may fail at any step, the
    context may be cancelled between any two, and the process may be restarted
    between calls.  [pw_trace] records what the collaborators have done, in
    order. *)

From stdpp Require Import base tactics option list strings gmap sorting.
From Stdlib Require Import ZArith Ascii.
From S2P Require Import Prelude GoLib GoStrings Kernel CoordTypes Auth Hoare Catalog Invocation PhaseTypes.

(** ** State *)

Record commandRecord := mkCommandState {
  cs_fingerprint : string;
  cs_inFlight : bool;
  cs_done : bool;
  cs_err : option error;
}.

Record Controller := mkController {
  ct_commands : gmap string commandRecord;
  ct_active : gmap InvocationID ActiveInvocation;
  ct_byLease : gmap LeaseID InvocationID;
  ct_receipts : gmap InvocationID OutputReceipt;
  ct_pending : gmap InvocationID OutputReceipt;
  ct_byCommand : gmap string InvocationID;
  ct_termLocks : gset InvocationID;
}.

Definition NewController : Controller := mkController ∅ ∅ ∅ ∅ ∅ ∅ ∅.

Definition ct_set_command (id : string) (r : commandRecord) (c : Controller) : Controller :=
  mkController (<[id := r]> (ct_commands c)) (ct_active c) (ct_byLease c) (ct_receipts c) (ct_pending c) (ct_byCommand c) (ct_termLocks c).
Definition ct_set_active (active : gmap InvocationID ActiveInvocation) (byLease : gmap LeaseID InvocationID) (c : Controller) : Controller :=
  mkController (ct_commands c) active byLease (ct_receipts c) (ct_pending c) (ct_byCommand c) (ct_termLocks c).
Definition ct_set_receipts (receipts pending : gmap InvocationID OutputReceipt) (byCommand : gmap string InvocationID) (c : Controller) : Controller :=
  mkController (ct_commands c) (ct_active c) (ct_byLease c) receipts pending byCommand (ct_termLocks c).
Definition ct_set_termLocks (locks : gset InvocationID) (c : Controller) : Controller :=
  mkController (ct_commands c) (ct_active c) (ct_byLease c) (ct_receipts c) (ct_pending c) (ct_byCommand c) locks.

(** [c.active[id] = active]. *)
Definition put_active (id : InvocationID) (active : ActiveInvocation) (c : Controller) : Controller :=
  ct_set_active (<[id := active]> (ct_active c)) (ct_byLease c) c.

(** [delete(c.active, id); delete(c.byLease, lease)]. *)
Definition drop_active (id : InvocationID) (lease : LeaseID) (c : Controller) : Controller :=
  ct_set_active (delete id (ct_active c)) (delete lease (ct_byLease c)) c.

(** What a collaborator has done. *)
Inductive PhaseCall :=
| Dispatched (request : DispatchRequest)
| Rehydrated (request : DispatchRequest)
| ReceiptRecorded (id : InvocationID) (receipt : OutputReceipt)
| ReceiptFound (id : InvocationID) (receipt : OutputReceipt)
| EvidenceRecorded (id : InvocationID) (commandID : string) (result : StopResult)
| EvidenceFound (id : InvocationID) (commandID : string) (result : StopResult)
| Fenced (id : InvocationID)
| Revoked (id : InvocationID)
| CompletedLife (id : InvocationID)
| EndedLife (id : InvocationID)
| ObservedStarted (id : InvocationID) (project : ProjectID) (command : PhaseCommand)
| ObservedOutput (id : InvocationID) (project : ProjectID) (command : PhaseCommand)
| ObservedFailed (id : InvocationID) (project : ProjectID) (command : PhaseCommand)
| ObservedStopped (id : InvocationID) (project : ProjectID) (command : PhaseCommand) (checkpoint : string) (nonResumable : bool).

Record PhaseWorld (H : Type) := mkPhaseWorld {
  pw_ctrl : Controller;
  pw_store : InvocationStore;
  pw_host : H;
  pw_trace : list PhaseCall;
}.
Arguments mkPhaseWorld {H}.
Arguments pw_ctrl {H}.
Arguments pw_store {H}.
Arguments pw_host {H}.
Arguments pw_trace {H}.

Section with_runtime.
Context `{GR : GoRuntime} {H : Type} (host : PhaseHost H) (recovery : option (RecoveryStore H)) (obs : option (ObservationWriter H)).
Context (catalog : Catalog) (hash : string -> string) (hashInvocation : Invocation -> string) (hashCommand : PhaseCommand -> string).
Context (hashOutput : PhaseOutput -> string) (encodeEnvelope : Envelope -> string) (encodeStart : StartPhaseInput -> string) (ttl : Z).

Local Abbreviation W := (PhaseWorld H).

Definition ctrl : M error W Controller := w ← get_state; mret (pw_ctrl w).

Definition update (f : Controller -> Controller) : M error W unit :=
  modify (fun w => mkPhaseWorld (f (pw_ctrl w)) (pw_store w) (pw_host w) (pw_trace w)).

(** A call of a collaborator; what it did is recorded when it succeeds. *)
Definition calling {A} (what : A -> list PhaseCall) (m : M error H A) : M error W A := fun w =>
  let '(r, h) := m (pw_host w) in
  (r, mkPhaseWorld (pw_ctrl w) (pw_store w) h (pw_trace w ++ match r with Ok a => what a | Err _ => [] end)).

Definition call {A} (m : M error H A) : M error W A := calling (fun _ => []) m.

(** A call of the invocation store, with the context as it is then. *)
Definition stored {A} (m : Context -> M error InvocationStore A) : M error W A := fun w =>
  let '(ctx, h) := ph_Err host (pw_host w) in
  let '(r, s) := m ctx (pw_store w) in
  (r, mkPhaseWorld (pw_ctrl w) s h (pw_trace w)).

(** [_ = m]. *)
Definition ignoring {A} (m : M error W A) : M error W unit := fun w => (Ok tt, (m w).2).

(** [if err := m; err != nil { return fmt.Errorf("message: %w", err) }]. *)
Definition wrapping {A} (message : string) (m : M error W A) : M error W A := catch m (fun e => throw (WrapError message e)).

(** [if c.recovery != nil { ... }]. *)
Definition recovering (f : RecoveryStore H -> M error W unit) : M error W unit :=
  match recovery with Some rs => f rs | None => mret tt end.

Definition clearActive (id : InvocationID) : M error W unit := recovering (fun rs => call (rs_ClearActiveInvocation rs id)).

Definition fence (id : InvocationID) : M error W unit := calling (fun _ => [Fenced id]) (ph_Fence host id).
Definition revoke (id : InvocationID) : M error W unit := calling (fun _ => [Revoked id]) (ph_Revoke host id).
Definition completeLife (i : Invocation) : M error W unit := calling (fun _ => [CompletedLife (in_ID i)]) (ph_Complete host i).
Definition endLife (i : Invocation) : M error W unit := calling (fun _ => [EndedLife (in_ID i)]) (ph_End host i).

(** ** Observations *)

Definition observing (f : ObservationWriter H -> M error W unit) : M error W unit := match obs with Some w => f w | None => mret tt end.

Definition recordInvocationStarted (a : ActiveInvocation) : M error W unit :=
  observing (fun w => calling (fun _ => [ObservedStarted (in_ID (ai_Invocation a)) (in_ProjectID (ai_Invocation a)) (ai_Command a)])
                        (ow_Started w (in_ProjectID (ai_Invocation a)) (ai_Command a))).

Definition recordOutputSubmitted (a : ActiveInvocation) : M error W unit :=
  observing (fun w => calling (fun _ => [ObservedOutput (in_ID (ai_Invocation a)) (in_ProjectID (ai_Invocation a)) (ai_Command a)])
                        (ow_OutputSubmitted w (in_ProjectID (ai_Invocation a)) (ai_Command a))).

Definition recordInvocationFailed (id : InvocationID) (projectID : ProjectID) (command : PhaseCommand) : M error W unit :=
  observing (fun w => calling (fun _ => [ObservedFailed id projectID command]) (ow_Failed w projectID command)).

Definition recordInvocationStopped (a : ActiveInvocation) (command : PhaseCommand) (result : StopResult) : M error W unit :=
  observing (fun w => calling (fun _ => [ObservedStopped (in_ID (ai_Invocation a)) (in_ProjectID (ai_Invocation a)) command (st_CheckpointRef result)
                                           (st_NonResumable result)])
                        (ow_Stopped w (in_ProjectID (ai_Invocation a)) command (st_CheckpointRef result) (st_NonResumable result))).

(** ** Commands *)

Definition deterministicInvocationID (command : PhaseCommand) : InvocationID := "inv_" +:+ String.substring 0 16 (hash (cmd_ID command)).

(** Replayed, done, and the error.  A record in flight is waited for: no call of
    this world can end the wait. *)
Definition recordCommandStart (id fingerprint : string) : M error W (bool * bool * option error) :=
  c ← ctrl;
  match ct_commands c !! id with
  | None => _ ← update (ct_set_command id (mkCommandState fingerprint true false None)); mret (false, false, None)
  | Some existing =>
    if bool_decide (cs_fingerprint existing <> fingerprint)
    then mret (true, true, Some (kerr CodeCommandConflict "command id was reused with different payload" false))
    else if cs_inFlight existing then throw Diverged
    else mret (true, cs_done existing, cs_err existing)
  end.

Definition recordCommandFinish (id : string) (err : option error) : M error W unit :=
  c ← ctrl;
  let record := default (mkCommandState "" false false None) (ct_commands c !! id) in
  update (ct_set_command id (mkCommandState (cs_fingerprint record) false (match err with None => true | Some _ => cs_done record end) err)).

Definition activeInvocation (id : InvocationID) : M error W ActiveInvocation :=
  c ← ctrl;
  match ct_active c !! id with
  | None => throw (staleCommand "invocation is no longer active")
  | Some active => if ai_Revoked active then throw (staleCommand "invocation is no longer active") else mret active
  end.

Definition activeByLease (lease : LeaseID) : M error W ActiveInvocation :=
  c ← ctrl;
  match ct_byLease c !! lease with
  | None => throw (staleCommand "no active invocation for lease")
  | Some id => activeInvocation id
  end.

Definition lockTerminal (id : InvocationID) : M error W unit :=
  c ← ctrl;
  if bool_decide (id ∈ ct_termLocks c) then throw Diverged else update (fun c => ct_set_termLocks ({[id]} ∪ ct_termLocks c) c).

Definition unlockTerminal (id : InvocationID) : M error W unit := update (fun c => ct_set_termLocks (ct_termLocks c ∖ {[id]}) c).

Definition terminally {A} (id : InvocationID) (m : M error W A) : M error W A := _ ← lockTerminal id; deferring (unlockTerminal id) m.

(** ** Status *)

(** [Get], and [not_found] when there is none. *)
Definition getInvocation (id : InvocationID) (message : string) : M error W Invocation :=
  found ← stored (fun ctx => inv_Get ctx id);
  match found with Some i => mret i | None => throw (kerr CodeNotFound message false) end.

(** The transition from one of the statuses [from], nothing in the status [to]. *)
Definition transitionTo (id : InvocationID) (from : list string) (to message : string) : M error W unit :=
  invocation ← getInvocation id "invocation not found";
  if bool_decide (in_Status invocation ∈ from) then stored (fun ctx => inv_Transition ctx id (in_Status invocation) to)
  else if bool_decide (in_Status invocation = to) then mret tt
  else throw (staleCommand message).

Definition transitionToWaiting (id : InvocationID) : M error W unit :=
  transitionTo id [InvocationRunning] InvocationWaiting "invocation is not running or waiting".
Definition transitionToCompleted (id : InvocationID) : M error W unit :=
  transitionTo id [InvocationRunning] InvocationCompleted "invocation is not running or completed".
Definition transitionToStopped (id : InvocationID) : M error W unit :=
  transitionTo id [InvocationPrepared; InvocationRunning; InvocationWaiting] InvocationStopped "invocation is not running or waiting".
Definition transitionToFailed (id : InvocationID) : M error W unit :=
  transitionTo id [InvocationPrepared; InvocationRunning; InvocationWaiting] InvocationFailed "invocation is not active or failed".

(** ** Prompts *)

Definition renderData (invocation : Invocation) (start : StartPhaseInput) (binding : BindingSnapshot) : RenderData :=
  mkRenderData (encodeEnvelope (EnvelopeFromInvocation invocation)) "" (encodeStart start) (bs_TaskContract binding) (bs_PhaseSpec binding)
    (bs_WorkspaceBinding binding) (bs_ContextSlice binding) (bs_TaskMemoryBuffer binding) "" "".

Definition startInput (id : InvocationID) (command : PhaseCommand) (inputs : PhaseInputSet) : StartPhaseInput :=
  mkStartInput id (cmd_Endpoint command) (cmd_Generation command) (cmd_BindingRef command) inputs.

Definition rehydrate (active : ActiveInvocation) : M error W unit :=
  binding ← call (ph_Refresh host active);
  _ ← lift (validateBindingForActive binding active);
  let active := ai_set_Binding binding active in
  let start := startInput (in_ID (ai_Invocation active)) (ai_Command active) (ai_Inputs active) in
  assembly ← lift (Assemble hash catalog (ai_Invocation active) (renderData (ai_Invocation active) start binding));
  let '(invocation, prompt) := assembly in
  let request := mkDispatch invocation (capabilityOf invocation) prompt start binding (bs_CheckpointRef binding) in
  _ ← calling (fun _ => [Rehydrated request]) (ph_Rehydrate host request);
  update (put_active (in_ID (ai_Invocation active)) active).

(** ** Inputs and context *)

(** Up to the wait for the inputs, during which other calls run. *)
Definition beginAwait (id : InvocationID) (req : AwaitInputsRequest) : M error W ActiveInvocation :=
  active ← activeInvocation id;
  _ ← lift (validateAwaitRequest (ai_Inputs active) req);
  _ ← call (ph_Suspend host id);
  _ ← transitionToWaiting id;
  mret active.

(** From the wait on. *)
Definition finishAwait (id : InvocationID) (req : AwaitInputsRequest) (active : ActiveInvocation) : M error W InputWaitResult :=
  result ← call (ph_AwaitInputs host active req);
  let updated := ai_set_Inputs (mergeInputWaitResult (ai_Inputs active) result) active in
  _ ← update (put_active id updated);
  _ ← (if bool_decide (iw_TerminalReason result = "") then
         _ ← stored (fun ctx => inv_Transition ctx id InvocationWaiting InvocationRunning);
         rehydrate updated
       else mret tt);
  mret result.

Definition AwaitInputs (id : InvocationID) (req : AwaitInputsRequest) : M error W InputWaitResult :=
  active ← beginAwait id req;
  finishAwait id req active.

Definition OnInputsChanged (id : InvocationID) (inputs : PhaseInputSet) : M error W unit :=
  active ← activeInvocation id;
  let active := ai_set_Inputs inputs active in
  _ ← update (put_active id active);
  rehydrate active.

Definition OnContextDelta (id : InvocationID) : M error W unit :=
  active ← activeInvocation id;
  rehydrate active.

(** ** Output *)

Definition settleReceipt (id : InvocationID) (receipt : OutputReceipt) (commandID : string) (lease : LeaseID) : M error W unit :=
  update (fun c => drop_active id lease (ct_set_receipts (<[id := receipt]> (ct_receipts c)) (delete id (ct_pending c))
                                           (<[commandID := id]> (ct_byCommand c)) c)).

(** The record of an invocation whose output is persisted. *)
Definition receiptActive (invocation : Invocation) (command : PhaseCommand) (receipt : OutputReceipt) : ActiveInvocation :=
  mkActive invocation command
    (mkSnapshot (in_ProjectID invocation) (in_ActorPrincipalID invocation) (ref_TaskID (rc_Endpoint receipt)) (ref_EndpointID (rc_Endpoint receipt))
       (rc_Generation receipt) (rc_BindingRef receipt) (rc_LeaseRef receipt) (rc_WorkspaceRef receipt) (rc_WorkspaceHead receipt) "" "" "" "" "" "" ""
       (mkInputSet "" [] [] []) "" false)
    (mkInputSet "" [] [] []) false.

Definition findReceipt (rs : RecoveryStore H) (id : InvocationID) (commandID : string) : M error W (option OutputReceipt) :=
  calling (fun found => match found with Some receipt => [ReceiptFound id receipt] | None => [] end) (rs_GetOutputReceipt rs id commandID).

Definition completedOutputReceipt (id : InvocationID) (output : PhaseOutput) : M error W OutputReceipt :=
  match recovery with
  | None => throw (staleCommand "output recovery store is required")
  | Some rs =>
    found ← stored (fun ctx => inv_Get ctx id);
    match found with
    | None => throw (staleCommand "invocation is no longer active")
    | Some invocation =>
      if bool_decide (in_Status invocation <> InvocationRunning) && bool_decide (in_Status invocation <> InvocationCompleted)
      then throw (staleCommand "invocation is no longer active")
      else
        persisted ← findReceipt rs id "";
        match persisted with
        | None => throw (staleCommand "completed invocation has no persisted output receipt")
        | Some receipt =>
          _ ← lift (fail_if (bool_decide (rc_OutputFingerprint receipt <> "") && bool_decide (rc_OutputFingerprint receipt <> hashOutput output))
                (kerr CodeIdempotencyConflict "phase output payload differs from persisted receipt" false));
          command ← lift (commandFromOutputReceipt receipt);
          let active := receiptActive invocation command receipt in
          active ← (if bool_decide (in_Status invocation = InvocationRunning) then
                      _ ← fence id;
                      _ ← completeLife invocation;
                      _ ← transitionToCompleted id;
                      mret (ai_set_Invocation (in_set_Status InvocationCompleted invocation) active)
                    else mret active);
          _ ← recordOutputSubmitted active;
          _ ← call (rs_ClearActiveInvocation rs id);
          _ ← settleReceipt id receipt (cmd_ID command) (cmd_LeaseRef command);
          mret receipt
        end
    end
  end.

Fixpoint routeAll (active : ActiveInvocation) (refs : list string) : M error W (list string) :=
  match refs with
  | [] => mret []
  | ref :: rest => routed ← call (ph_Route host active ref); others ← routeAll active rest; mret (routed :: others)
  end.

Definition newReceipt (active : ActiveInvocation) (output : PhaseOutput) (fingerprint : string) (now : Time) : OutputReceipt :=
  mkReceipt output (in_ID (ai_Invocation active)) (cmd_ID (ai_Command active)) (cmd_Action (ai_Command active)) (cmd_CauseRef (ai_Command active))
    (cmd_Endpoint (ai_Command active)) (cmd_Generation (ai_Command active)) (cmd_BindingRef (ai_Command active)) (cmd_LeaseRef (ai_Command active))
    (pis_InputRevision (ai_Inputs active)) (bs_WorkspaceRef (ai_Binding active)) (bs_WorkspaceRevision (ai_Binding active)) fingerprint now.

Definition samePending (receipt : OutputReceipt) (fingerprint : string) : res OutputReceipt :=
  _ ← fail_if (bool_decide (rc_OutputFingerprint receipt <> "") && bool_decide (rc_OutputFingerprint receipt <> fingerprint))
      (kerr CodeIdempotencyConflict "phase output payload differs from pending receipt" false);
  Ok receipt.

Definition pendingOrRouteReceipt (active : ActiveInvocation) (output : PhaseOutput) (now : Time) : M error W OutputReceipt :=
  let fingerprint := hashOutput output in
  let id := in_ID (ai_Invocation active) in
  c ← ctrl;
  match ct_pending c !! id with
  | Some receipt => lift (samePending receipt fingerprint)
  | None =>
    deliveries ← routeAll active (po_DeliveryRefs output);
    report ← call (ph_Route host active (po_ReportRef output));
    evidence ← routeAll active (po_EvidenceRefs output);
    let receipt := newReceipt active (mkPhaseOutput (po_Phase output) deliveries report evidence) fingerprint now in
    c ← ctrl;
    match ct_pending c !! id with
    | Some existing => lift (samePending existing fingerprint)
    | None =>
      _ ← update (fun c => ct_set_receipts (ct_receipts c) (<[id := receipt]> (ct_pending c)) (ct_byCommand c) c);
      mret receipt
    end
  end.

(** With the terminal lock held. *)
Definition submitActive (id : InvocationID) (output : PhaseOutput) (now : Time) (active : ActiveInvocation) : M error W OutputReceipt :=
  refreshed ← wrapping "phase output binding refresh" (call (ph_Refresh host active));
  _ ← wrapping "phase output binding validation" (lift (validateBindingForActive refreshed active));
  let active := ai_set_Binding refreshed active in
  _ ← wrapping "phase output contract validation" (lift (validatePhaseOutput active output));
  receipt ← wrapping "phase output artifact routing" (pendingOrRouteReceipt active output now);
  _ ← recovering (fun rs => wrapping "phase output receipt persistence"
        (calling (fun _ => [ReceiptRecorded id receipt]) (rs_RecordOutputReceipt rs active receipt)));
  _ ← wrapping "phase output capability fencing" (fence id);
  _ ← wrapping "phase output lifecycle completion" (completeLife (ai_Invocation active));
  _ ← wrapping "phase output invocation completion" (transitionToCompleted id);
  _ ← wrapping "phase output observation persistence" (recordOutputSubmitted active);
  _ ← wrapping "phase output recovery cleanup" (clearActive id);
  _ ← settleReceipt id receipt (cmd_ID (ai_Command active)) (cmd_LeaseRef (ai_Command active));
  mret receipt.

(** An invocation that is not active may have its output persisted. *)
Definition orCompleted (id : InvocationID) (output : PhaseOutput) (k : ActiveInvocation -> M error W OutputReceipt) : M error W OutputReceipt := fun w =>
  match activeInvocation id w with
  | (Ok active, w) => k active w
  | (Err e, w) => if IsCode (Some e) CodeStaleCommand then completedOutputReceipt id output w else (Err e, w)
  end.

Definition SubmitPhaseOutput (id : InvocationID) (output : PhaseOutput) (now : Time) : M error W OutputReceipt :=
  orCompleted id output (fun _ => terminally id (orCompleted id output (submitActive id output now))).

Definition Output (ctx : Context) (id : InvocationID) : M error W (option OutputReceipt) :=
  _ ← lift (ctx_Err ctx);
  c ← ctrl;
  mret (ct_receipts c !! id).

Definition OutputByCommand (ctx : Context) (commandID : string) : M error W (option OutputReceipt) :=
  _ ← lift (ctx_Err ctx);
  c ← ctrl;
  mret (id ← ct_byCommand c !! commandID; ct_receipts c !! id).

(** ** Failing and abandoning *)

Definition startLike (command : PhaseCommand) : bool := bool_decide (cmd_Action command = CommandStart) || bool_decide (cmd_Action command = CommandResume).

Definition matchesCommand (i : Invocation) (command : PhaseCommand) : bool :=
  bool_decide (in_TaskID i = ref_TaskID (cmd_Endpoint command)) && bool_decide (in_EndpointID i = ref_EndpointID (cmd_Endpoint command)) &&
  bool_decide (in_Generation i = uint64_wrap (cmd_Generation command)) && bool_decide (in_BindingRef i = cmd_BindingRef command) &&
  bool_decide (in_LeaseID i = cmd_LeaseRef command).

(** What both have in common; [observe] is what only a failure does. *)
Definition closeInvocation (kind adjective : string) (command : PhaseCommand) (observe : InvocationID -> Invocation -> M error W unit) : M error W unit :=
  _ ← lift (validateCommand command);
  _ ← lift (fail_if (negb (startLike command)) (staleCommand (kind +:+ " invocation requires start or resume command")));
  let id := deterministicInvocationID command in
  terminally id (
    invocation ← getInvocation id "phase invocation not found";
    _ ← lift (fail_if (negb (matchesCommand invocation command)) (staleCommand (kind +:+ " invocation command does not match persisted invocation")));
    _ ← lift (fail_if (bool_decide (in_Status invocation = InvocationCompleted) || bool_decide (in_Status invocation = InvocationStopped))
          (staleCommand "phase invocation already reached a different terminal state"));
    _ ← lift (fail_if (bool_decide (in_Status invocation ∉ [InvocationPrepared; InvocationRunning; InvocationWaiting; InvocationFailed]))
          (staleCommand ("phase invocation is not " +:+ adjective +:+ "-eligible")));
    _ ← revoke id;
    _ ← endLife invocation;
    _ ← transitionToFailed id;
    _ ← observe id invocation;
    _ ← clearActive id;
    update (drop_active id (cmd_LeaseRef command))).

Definition FailInvocation (command : PhaseCommand) : M error W unit :=
  closeInvocation "failed" "failure" command (fun id invocation => recordInvocationFailed id (in_ProjectID invocation) command).

Definition AbandonInvocation (command : PhaseCommand) : M error W unit :=
  closeInvocation "abandoned" "abandonment" command (fun _ _ => mret tt).

(** ** Starting *)

Definition finishStarted (active : ActiveInvocation) : M error W unit :=
  _ ← recovering (fun rs => call (rs_RecordActiveInvocation rs active));
  let id := in_ID (ai_Invocation active) in
  _ ← update (fun c => ct_set_active (<[id := active]> (ct_active c)) (<[cmd_LeaseRef (ai_Command active) := id]> (ct_byLease c)) c);
  recordInvocationStarted active.

Definition finishPersistedOutput (active : ActiveInvocation) : M error W unit :=
  match recovery with
  | None => throw (staleCommand "output recovery store is required")
  | Some rs =>
    let id := in_ID (ai_Invocation active) in
    let command := ai_Command active in
    persisted ← findReceipt rs id (cmd_ID command);
    match persisted with
    | None => throw (staleCommand "completed invocation has no persisted output receipt")
    | Some receipt =>
      _ ← lift (fail_if (bool_decide (rc_InvocationID receipt <> id) || bool_decide (rc_CommandID receipt <> cmd_ID command) ||
                         bool_decide (rc_CommandAction receipt <> cmd_Action command) || bool_decide (rc_Endpoint receipt <> cmd_Endpoint command) ||
                         bool_decide (rc_Generation receipt <> cmd_Generation command) || bool_decide (rc_BindingRef receipt <> cmd_BindingRef command) ||
                         bool_decide (rc_LeaseRef receipt <> cmd_LeaseRef command))
            (kerr CodeIdempotencyConflict "persisted output receipt does not match command" false));
      _ ← recordOutputSubmitted active;
      _ ← completeLife (ai_Invocation active);
      _ ← call (rs_ClearActiveInvocation rs id);
      update (fun c => drop_active id (cmd_LeaseRef command)
                (ct_set_receipts (<[id := receipt]> (ct_receipts c)) (ct_pending c) (<[cmd_ID command := id]> (ct_byCommand c)) c))
    end
  end.

Definition newInvocation (command : PhaseCommand) (role : Role) (binding : BindingSnapshot) (now : Time) : Invocation :=
  mkInvocation (deterministicInvocationID command) (bs_ActorPrincipalID binding) (bs_ProjectID binding) (ref_TaskID (cmd_Endpoint command))
    (ref_EndpointID (cmd_Endpoint command)) "" "" "" (uint64_wrap (cmd_Generation command)) role "" InvocationPrepared (cmd_BindingRef command)
    (cmd_LeaseRef command) (bs_WorkspaceRef binding) (bs_ContextSliceRef binding) (bs_TaskMemoryBufferRef binding) ∅ ∅ [] now (now + ttl)%Z.

(** The invocation that [cleanupResolvedBinding] ends. *)
Definition resolvedInvocation (command : PhaseCommand) (role : Role) (binding : BindingSnapshot) : Invocation :=
  mkInvocation (deterministicInvocationID command) (bs_ActorPrincipalID binding) (bs_ProjectID binding) (ref_TaskID (cmd_Endpoint command))
    (ref_EndpointID (cmd_Endpoint command)) "" "" "" (uint64_wrap (cmd_Generation command)) role "" "" (cmd_BindingRef command)
    (cmd_LeaseRef command) "" "" "" ∅ ∅ [] time_zero time_zero.

(** [if err := m; err != nil { cleanup; return err }]. *)
Definition orCleanup {A} (cleanup : Invocation) (m : M error W A) : M error W A := catch m (fun e => _ ← ignoring (endLife cleanup); throw e).

Definition validateResumable (command : PhaseCommand) (binding : BindingSnapshot) : M error W unit :=
  _ ← lift (validateBindingForCommand binding command);
  _ ← lift (fail_if (bool_decide (cmd_Action command = CommandStart) && bool_decide (bs_CheckpointRef binding <> ""))
        (kerr CodeStaleCheckpoint "start command cannot use checkpoint-bound binding" true));
  if bool_decide (cmd_Action command = CommandResume) then
    _ ← lift (fail_if (bs_NonResumable binding || bool_decide (bs_CheckpointRef binding = ""))
          (kerr CodeStaleCheckpoint "resume checkpoint is missing or non-resumable" true));
    match recovery with
    | None => throw (kerr CodeStaleCheckpoint "resume evidence store is required" true)
    | Some rs => call (rs_ValidateResume rs command binding)
    end
  else mret tt.

(** From the prepared invocation on; [known] when the store has it already. *)
Definition dispatchPrepared (command : PhaseCommand) (binding : BindingSnapshot) (invocation : Invocation) (known : bool) : M error W unit :=
  let start := startInput (in_ID invocation) command (bs_Inputs binding) in
  assembly ← orCleanup invocation (lift (Assemble hash catalog invocation (renderData invocation start binding)));
  let '(invocation, prompt) := assembly in
  _ ← (if (known : bool) then mret tt else orCleanup invocation (stored (fun ctx => inv_Create hashInvocation ctx invocation)));
  let active := mkActive invocation command binding (bs_Inputs binding) false in
  _ ← recovering (fun rs => orCleanup invocation (call (rs_RecordActiveInvocation rs active)));
  let request := mkDispatch invocation (capabilityOf invocation) prompt start binding (bs_CheckpointRef binding) in
  _ ← catch (calling (fun _ => [Dispatched request]) (ph_Dispatch host request)) (fun e =>
        _ ← ignoring (clearActive (in_ID invocation));
        _ ← ignoring (revoke (in_ID invocation));
        _ ← ignoring (endLife invocation);
        throw e);
  _ ← catch (stored (fun ctx => inv_Transition ctx (in_ID invocation) InvocationPrepared InvocationRunning)) (fun e =>
        _ ← ignoring (revoke (in_ID invocation));
        _ ← ignoring (endLife invocation);
        throw e);
  finishStarted (ai_set_Invocation (in_set_Status InvocationRunning invocation) active).

Definition applyStartLike (command : PhaseCommand) (now : Time) : M error W unit :=
  role ← lift (phaseRole (ref_EndpointID (cmd_Endpoint command)));
  binding ← call (ph_Resolve host command);
  _ ← orCleanup (resolvedInvocation command role binding) (validateResumable command binding);
  let invocation := newInvocation command role binding now in
  existing ← orCleanup invocation (stored (fun ctx => inv_Get ctx (in_ID invocation)));
  match existing with
  | Some existing =>
    let active := mkActive existing command binding (bs_Inputs binding) false in
    if bool_decide (in_Status existing = InvocationRunning) then finishStarted active
    else if bool_decide (in_Status existing = InvocationCompleted) then finishPersistedOutput active
    else if bool_decide (in_Status existing <> InvocationPrepared) then
      orCleanup invocation (throw (kerr CodeRevisionConflict "existing phase invocation is not running" true))
    else dispatchPrepared command binding existing true
  | None => dispatchPrepared command binding invocation false
  end.

(** ** Stopping *)

(** [None] when there is nothing to recover. *)
Definition recoverActiveByLease (command : PhaseCommand) (binding : BindingSnapshot) : M error W (option ActiveInvocation) :=
  match recovery with
  | None => mret None
  | Some rs =>
    found ← call (rs_RecoverActiveInvocation rs command binding);
    match found with
    | None => mret None
    | Some active =>
      _ ← lift (validateBindingForActive binding active);
      invocation ← getInvocation (in_ID (ai_Invocation active)) "invocation not found";
      let active := ai_set_Invocation invocation active in
      let id := in_ID invocation in
      if bool_decide (in_Status invocation = InvocationCompleted) || bool_decide (in_Status invocation = InvocationFailed) then
        _ ← call (rs_ClearActiveInvocation rs id);
        mret None
      else if bool_decide (in_Status invocation = InvocationStopped) then mret (Some active)
      else
        _ ← update (fun c => ct_set_active (<[id := active]> (ct_active c)) (<[cmd_LeaseRef command := id]> (ct_byLease c)) c);
        mret (Some active)
    end
  end.

Definition stopAlreadyApplied (command : PhaseCommand) : M error W bool :=
  found ← stored (fun ctx => inv_GetByLease ctx (cmd_LeaseRef command));
  match found with
  | None => mret false
  | Some invocation =>
    if bool_decide (in_BindingRef invocation <> cmd_BindingRef command) || bool_decide (in_Generation invocation <> uint64_wrap (cmd_Generation command))
    then mret false
    else mret (bool_decide (in_Status invocation = InvocationStopped))
  end.

Definition finishPersistedStop (active : ActiveInvocation) (command : PhaseCommand) (result : StopResult) : M error W unit :=
  let id := in_ID (ai_Invocation active) in
  _ ← revoke id;
  _ ← endLife (ai_Invocation active);
  _ ← transitionToStopped id;
  _ ← recordInvocationStopped active command result;
  _ ← clearActive id;
  update (drop_active id (cmd_LeaseRef (ai_Command active))).

(** With the terminal lock held and the invocation known to be stoppable. *)
Definition stopWithEvidence (active : ActiveInvocation) (command : PhaseCommand) (binding : BindingSnapshot) : M error W unit :=
  match recovery with
  | None => throw (IncompleteStopEvidence "stop evidence store is required")
  | Some rs =>
    let id := in_ID (ai_Invocation active) in
    existing ← calling (fun found => match found with Some result => [EvidenceFound id (cmd_ID command) result] | None => [] end)
                 (rs_GetStopEvidence rs id (cmd_ID command));
    match existing with
    | Some existing => _ ← lift (validateStopResult existing); finishPersistedStop active command existing
    | None =>
      result ← call (ph_Stop host (mkStopRequest (ai_Invocation active) command binding));
      _ ← lift (validateStopResult result);
      _ ← calling (fun _ => [EvidenceRecorded id (cmd_ID command) result]) (rs_RecordStopEvidence rs active command result);
      finishPersistedStop active command result
    end
  end.

Definition stopActive (active : ActiveInvocation) (command : PhaseCommand) (binding : BindingSnapshot) : M error W unit :=
  let id := in_ID (ai_Invocation active) in
  invocation ← getInvocation id "invocation not found";
  if bool_decide (in_Status invocation = InvocationCompleted) || bool_decide (in_Status invocation = InvocationFailed) then
    _ ← clearActive (in_ID invocation);
    _ ← update (drop_active (in_ID invocation) (cmd_LeaseRef command));
    throw (staleCommand "invocation already reached a terminal output state")
  else if bool_decide (in_Status invocation = InvocationStopped) then stopWithEvidence (ai_set_Invocation invocation active) command binding
  else
    refreshed ← activeByLease (cmd_LeaseRef command);
    stopWithEvidence (ai_set_Invocation invocation refreshed) command binding.

(** The active invocation, recovered when the controller does not have it; [None]
    when the stop was applied before. *)
Definition activeForStop (command : PhaseCommand) (binding : BindingSnapshot) : M error W (option ActiveInvocation) :=
  catch (active ← activeByLease (cmd_LeaseRef command); mret (Some active)) (fun e =>
    recovered ← recoverActiveByLease command binding;
    match recovered with
    | Some active => mret (Some active)
    | None =>
      stopped ← stopAlreadyApplied command;
      if (stopped : bool) then mret None else throw e
    end).

Definition applyStop (command : PhaseCommand) : M error W unit :=
  binding ← call (ph_Resolve host command);
  _ ← lift (validateBindingForCommand binding command);
  found ← activeForStop command binding;
  match found with
  | None => mret tt
  | Some active =>
    _ ← lift (fail_if (bool_decide (cmd_BindingRef (ai_Command active) <> cmd_BindingRef command) ||
                       bool_decide (cmd_Generation (ai_Command active) <> cmd_Generation command))
          (staleCommand "stop command does not match active invocation"));
    terminally (in_ID (ai_Invocation active)) (stopActive active command binding)
  end.

(** ** Commands *)

Definition runCommand (command : PhaseCommand) (now : Time) : M error W unit :=
  if startLike command then applyStartLike command now
  else if bool_decide (cmd_Action command = CommandStop) then applyStop command
  else throw (InvalidArgument "phase command action must be start, stop, or resume").

Definition Apply (command : PhaseCommand) (now : Time) : M error W unit :=
  _ ← lift (validateCommand command);
  start ← recordCommandStart (cmd_ID command) (hashCommand command);
  let '(replayed, done, err) := start in
  if (replayed : bool) && (done : bool) then match err with Some e => throw e | None => mret tt end
  else fun w =>
    let '(r, w) := runCommand command now w in
    (r, (recordCommandFinish (cmd_ID command) (match r with Ok _ => None | Err e => Some e end) w).2).

(** ** Runs *)

(** A call of [AwaitInputs] that waits. *)
Record Waiter := mkWaiter {
  wt_id : InvocationID;
  wt_request : AwaitInputsRequest;
  wt_active : ActiveInvocation;
}.

(** A call, one of the halves of a wait, or anything on the side of the
    collaborators. *)
Inductive call_step : W * list Waiter -> W * list Waiter -> Prop :=
| step_apply command now w ws : call_step (w, ws) ((Apply command now w).2, ws)
| step_begin id req w ws active w' : beginAwait id req w = (Ok active, w') -> call_step (w, ws) (w', mkWaiter id req active :: ws)
| step_begin_fails id req w ws e w' : beginAwait id req w = (Err e, w') -> call_step (w, ws) (w', ws)
| step_finish ws1 ws2 x w :
    call_step (w, ws1 ++ x :: ws2) ((finishAwait (wt_id x) (wt_request x) (wt_active x) w).2, ws1 ++ ws2)
| step_inputs id inputs w ws : call_step (w, ws) ((OnInputsChanged id inputs w).2, ws)
| step_context id w ws : call_step (w, ws) ((OnContextDelta id w).2, ws)
| step_submit id output now w ws : call_step (w, ws) ((SubmitPhaseOutput id output now w).2, ws)
| step_fail command w ws : call_step (w, ws) ((FailInvocation command w).2, ws)
| step_abandon command w ws : call_step (w, ws) ((AbandonInvocation command w).2, ws)
| step_host h w ws : call_step (w, ws) (mkPhaseWorld (pw_ctrl w) (pw_store w) h (pw_trace w), ws).

(** A restart of the process loses what the controller has in memory; the invocation
    store, the collaborators and the trace stay. *)
Inductive phase_step : W * list Waiter -> W * list Waiter -> Prop :=
| step_call x y : call_step x y -> phase_step x y
| step_restart w ws : phase_step (w, ws) (mkPhaseWorld NewController (pw_store w) (pw_host w) (pw_trace w), []).

Definition initialWorld (h : H) : W := mkPhaseWorld NewController NewMemoryInvocationStore h [].

Definition phase_reachable (w : W) (ws : list Waiter) : Prop := exists h, rtc phase_step (initialWorld h, []) (w, ws).

End with_runtime.
