(* ===== verification/PhaseInv.v ===== *)
(** * The invariant of the phase controller

    What the reports on an invocation are backed by, whatever the collaborators do,
    with restarts of the process and calls that run during a wait. *)

From stdpp Require Import base tactics option list strings gmap relations.
From Stdlib Require Import ZArith Ascii.
From S2P Require Import Prelude GoLib GoStrings Kernel CoordTypes Auth Hoare Catalog Invocation PhaseTypes Phase.

(** ** Statuses *)

Definition terminal (status : string) : Prop := status ∈ [InvocationStopped; InvocationCompleted; InvocationFailed].

(** One step of the status machine. *)
Definition status_step (from to : string) : Prop := validInvocationTransition from to = true.

(** [s'] has the invocations of [s], with only their statuses moved along the
    machine. *)
Definition store_le (s s' : InvocationStore) : Prop :=
  forall id i, is_invocations s !! id = Some i ->
    exists status, is_invocations s' !! id = Some (in_set_Status status i) /\ rtc status_step (in_Status i) status.

Lemma in_set_Status_id (i : Invocation) : in_set_Status (in_Status i) i = i.
Proof. by destruct i. Qed.

Lemma store_le_refl s : store_le s s.
Proof. intros id i Hi. exists (in_Status i). rewrite in_set_Status_id. split; [done|apply rtc_refl]. Qed.

Lemma store_le_trans s1 s2 s3 : store_le s1 s2 -> store_le s2 s3 -> store_le s1 s3.
Proof.
  intros H12 H23 id i Hi. destruct (H12 _ _ Hi) as (st & H2 & Hr). destruct (H23 _ _ H2) as (st' & H3 & Hr').
  exists st'. split; [by rewrite H3|]. simpl in Hr'. by etrans.
Qed.

#[global] Instance store_le_preorder : PreOrder store_le.
Proof. split; [exact store_le_refl|exact store_le_trans]. Qed.

Lemma status_step_not_terminal from to : status_step from to -> ~ terminal from.
Proof.
  unfold status_step, validInvocationTransition, terminal. intros H Ht.
  repeat (apply elem_of_cons in Ht as [->|Ht]; [by vm_compute in H|]). by apply not_elem_of_nil in Ht.
Qed.

(** A terminal status is final. *)
Lemma terminal_final from to : rtc status_step from to -> terminal from -> to = from.
Proof. intros [|? ? ? Hs _] Ht; [done|]. exfalso. by apply (status_step_not_terminal _ _ Hs). Qed.

(** ** What is recorded *)

Definition dispatched (id : InvocationID) (t : list PhaseCall) : Prop :=
  exists request, Dispatched request ∈ t /\ in_ID (dr_Invocation request) = id.

(** The output of [id] is persisted. *)
Definition receipted (id : InvocationID) (t : list PhaseCall) : Prop :=
  exists receipt, ReceiptRecorded id receipt ∈ t \/ ReceiptFound id receipt ∈ t.

(** The stop of [id] is persisted, and complete. *)
Definition evidenced (id : InvocationID) (commandID : string) (result : StopResult) (t : list PhaseCall) : Prop :=
  (EvidenceRecorded id commandID result ∈ t \/ EvidenceFound id commandID result ∈ t) /\ validateStopResult result = Ok tt.

Definition ended (id : InvocationID) (t : list PhaseCall) : Prop := Revoked id ∈ t /\ EndedLife id ∈ t.

Lemma dispatched_app id t t' : dispatched id t -> dispatched id (t ++ t').
Proof. intros (r & Hr & Hid). exists r. split; [|done]. apply elem_of_app. by left. Qed.

Lemma receipted_app id t t' : receipted id t -> receipted id (t ++ t').
Proof. intros (r & Hr). exists r. rewrite !elem_of_app. naive_solver. Qed.

Lemma evidenced_app id c r t t' : evidenced id c r t -> evidenced id c r (t ++ t').
Proof. unfold evidenced. rewrite !elem_of_app. naive_solver. Qed.

Lemma ended_app id t t' : ended id t -> ended id (t ++ t').
Proof. unfold ended. rewrite !elem_of_app. naive_solver. Qed.

Lemma unlocked (id : InvocationID) (locks : gset InvocationID) : id ∉ locks -> ({[id]} ∪ locks) ∖ {[id]} = locks.
Proof. set_solver. Qed.

Section with_runtime.
Context `{GR : GoRuntime} {H : Type} (host : PhaseHost H) (recovery : option (RecoveryStore H)) (obs : option (ObservationWriter H)).
Context (catalog : Catalog) (hash : string -> string) (hashInvocation : Invocation -> string) (hashCommand : PhaseCommand -> string).
Context (hashOutput : PhaseOutput -> string) (encodeEnvelope : Envelope -> string) (encodeStart : StartPhaseInput -> string) (ttl : Z).

Local Abbreviation W := (PhaseWorld H).

(** What a status is backed by. *)
Definition status_backed (t : list PhaseCall) (id : InvocationID) (status : string) : Prop :=
  (status ∈ [InvocationRunning; InvocationWaiting; InvocationCompleted] -> dispatched id t) /\
  (status = InvocationCompleted -> Fenced id ∈ t /\ CompletedLife id ∈ t /\ (recovery <> None -> receipted id t)) /\
  (status = InvocationStopped -> ended id t /\ exists c result, evidenced id c result t) /\
  (status = InvocationFailed -> ended id t).

(** The tools an agent gets are the ones its role has, the skills ask for and the
    runtime offers. *)
Definition tools_bounded (request : DispatchRequest) : Prop :=
  dr_Capability request = capabilityOf (dr_Invocation request) /\
  forall tool, is_Some (cp_Tools (dr_Capability request) !! tool) ->
    is_Some (InvocationCapabilityTools (in_Role (dr_Invocation request)) (in_Operation (dr_Invocation request)) !! tool) /\
    is_Some (ca_availableTools catalog !! tool).

Definition observed (id : InvocationID) (t : list PhaseCall) : Prop :=
  exists p c, ObservedStarted id p c ∈ t \/ ObservedOutput id p c ∈ t \/ ObservedFailed id p c ∈ t \/
    exists cp nr, ObservedStopped id p c cp nr ∈ t.

Definition reports_output (id : InvocationID) (t : list PhaseCall) : Prop := exists p c, ObservedOutput id p c ∈ t.
Definition reports_failure (id : InvocationID) (t : list PhaseCall) : Prop := exists p c, ObservedFailed id p c ∈ t.
Definition reports_stop (id : InvocationID) (t : list PhaseCall) : Prop := exists p c cp nr, ObservedStopped id p c cp nr ∈ t.

(** What is recorded before [x]. *)
Definition backed (t : list PhaseCall) (x : PhaseCall) : Prop :=
  match x with
  | Dispatched request => tools_bounded request /\ ~ observed (in_ID (dr_Invocation request)) t
  | Rehydrated request => tools_bounded request
  | ObservedStarted id _ command => id = deterministicInvocationID hash command /\ dispatched id t
  | ObservedOutput id _ _ =>
    dispatched id t /\ Fenced id ∈ t /\ CompletedLife id ∈ t /\ (recovery <> None -> receipted id t) /\
    ~ reports_failure id t /\ ~ reports_stop id t
  | ObservedFailed id _ command =>
    id = deterministicInvocationID hash command /\ ended id t /\ ~ reports_output id t /\ ~ reports_stop id t
  | ObservedStopped id _ command checkpoint nonResumable =>
    ended id t /\ ~ reports_output id t /\ ~ reports_failure id t /\
    exists result, evidenced id (cmd_ID command) result t /\ checkpoint = st_CheckpointRef result /\ nonResumable = st_NonResumable result
  | _ => True
  end.

(** What the store has of an invocation that was reported. *)
Definition status_of (s : InvocationStore) (id : InvocationID) (P : string -> Prop) : Prop :=
  exists i, is_invocations s !! id = Some i /\ P (in_Status i).

Definition consistent (s : InvocationStore) (x : PhaseCall) : Prop :=
  match x with
  | ObservedStarted id _ _ => status_of s id (fun st => st <> InvocationPrepared)
  | ObservedOutput id _ _ => status_of s id (fun st => st = InvocationCompleted)
  | ObservedFailed id _ _ => status_of s id (fun st => st = InvocationFailed)
  | ObservedStopped id _ _ _ _ => status_of s id (fun st => st = InvocationStopped)
  | _ => True
  end.

(** Since the store was [s0] and the record [t0]. *)
Record sound (s0 : InvocationStore) (t0 : list PhaseCall) (w : W) : Prop := mkSound {
  so_active : forall id a, ct_active (pw_ctrl w) !! id = Some a -> in_ID (ai_Invocation a) = id;
  so_keys : forall id i, is_invocations (pw_store w) !! id = Some i -> in_ID i = id;
  so_status : forall id i, is_invocations (pw_store w) !! id = Some i -> status_backed (pw_trace w) id (in_Status i);
  so_consistent : forall x, x ∈ pw_trace w -> consistent (pw_store w) x;
  so_backed : forall t1 x t2, pw_trace w = t1 ++ x :: t2 -> backed t1 x;
  so_store : store_le s0 (pw_store w);
  so_trace : t0 `prefix_of` pw_trace w;
}.

Lemma status_backed_app t t' id status : status_backed t id status -> status_backed (t ++ t') id status.
Proof.
  unfold status_backed. intros (H1 & H2 & H3 & H4). split_and!.
  - intros Hs. by apply dispatched_app, H1.
  - intros Hs. rewrite !elem_of_app. destruct (H2 Hs) as (? & ? & Hr). split_and!; [by left|by left|]. intros Hn. by apply receipted_app, Hr.
  - intros Hs. destruct (H3 Hs) as (? & c & r & ?). split; [by apply ended_app|]. exists c, r. by apply evidenced_app.
  - intros Hs. by apply ended_app, H4.
Qed.

Lemma sound_refl w t0 s0 : sound s0 t0 w -> sound (pw_store w) (pw_trace w) w.
Proof. intros []. split; auto. apply store_le_refl. Qed.

(** *** Changes *)

Lemma sound_host s0 t0 c s h h' t : sound s0 t0 (mkPhaseWorld c s h t) -> sound s0 t0 (mkPhaseWorld c s h' t).
Proof. intros []. by split. Qed.

Lemma sound_ctrl s0 t0 c c' s h t : sound s0 t0 (mkPhaseWorld c s h t) ->
  (forall id a, ct_active c' !! id = Some a -> in_ID (ai_Invocation a) = id) -> sound s0 t0 (mkPhaseWorld c' s h t).
Proof. intros [] Hc. by split. Qed.

Lemma split_snoc {A} (t t1 t2 : list A) x y : t ++ [y] = t1 ++ x :: t2 -> (t2 = [] /\ x = y /\ t1 = t) \/ exists t2', t = t1 ++ x :: t2'.
Proof.
  destruct t2 as [|z t2 _] using rev_ind; intros Heq.
  - apply app_inj_tail in Heq as [-> ->]. by left.
  - right. exists t2. rewrite app_comm_cons, app_assoc in Heq. by apply app_inj_tail in Heq as [-> _].
Qed.

Lemma sound_record s0 t0 c s h t x : sound s0 t0 (mkPhaseWorld c s h t) -> backed t x -> consistent s x ->
  sound s0 t0 (mkPhaseWorld c s h (t ++ [x])).
Proof.
  intros [Ha Hk Hs Hc Hb Hl Ht] Hbx Hcx. split; simpl in *; [done|done| | | |done|].
  - intros id i Hi. by apply status_backed_app, Hs.
  - intros y [Hy|Hy]%elem_of_app; [by apply Hc|]. by apply list_elem_of_singleton in Hy as ->.
  - intros t1 y t2 [(-> & -> & ->)|(t2' & ->)]%split_snoc; [done|]. by eapply Hb.
  - by apply prefix_app_r.
Qed.

Lemma sound_silent s0 t0 c s h t x : sound s0 t0 (mkPhaseWorld c s h t) -> (forall t1, backed t1 x) -> (forall s1, consistent s1 x) ->
  sound s0 t0 (mkPhaseWorld c s h (t ++ [x])).
Proof. intros. by apply sound_record. Qed.

(** A move of the status of [id]. *)
Definition moved (id : InvocationID) (i : Invocation) (to : string) (s : InvocationStore) : InvocationStore :=
  mkInvocationStore (<[id := in_set_Status to i]> (is_invocations s)) (is_fingerprints s).

Lemma lookup_moved_status id i to s : is_invocations (moved id i to s) !! id = Some (in_set_Status to i).
Proof. apply lookup_insert_eq. Qed.

Lemma store_le_moved s id i to : is_invocations s !! id = Some i -> status_step (in_Status i) to -> store_le s (moved id i to s).
Proof.
  intros Hi Hst id' i' Hi'. destruct (decide (id' = id)) as [->|Hne].
  - simplify_eq. exists to. rewrite lookup_moved_status. split; [done|by apply rtc_once].
  - exists (in_Status i'). rewrite in_set_Status_id. simpl. rewrite lookup_insert_ne by done. split; [done|apply rtc_refl].
Qed.

Lemma status_of_moved s id i to id' (P : string -> Prop) : is_invocations s !! id = Some i ->
  (P (in_Status i) -> P to) -> status_of s id' P -> status_of (moved id i to s) id' P.
Proof.
  intros Hi HP (i' & Hi' & Hp). destruct (decide (id' = id)) as [->|Hne].
  - simplify_eq. exists (in_set_Status to i). rewrite lookup_moved_status. by auto.
  - exists i'. simpl. by rewrite lookup_insert_ne.
Qed.

Lemma status_step_facts from to : status_step from to ->
  from <> InvocationCompleted /\ from <> InvocationFailed /\ from <> InvocationStopped /\ (from <> InvocationPrepared -> to <> InvocationPrepared).
Proof.
  unfold status_step, validInvocationTransition. intros Hs. split_and!; [intros ->; by vm_compute in Hs ..|].
  intros _ ->. repeat case_bool_decide; by simplify_eq/=.
Qed.

Lemma sound_moved s0 t0 c s h t id i to : sound s0 t0 (mkPhaseWorld c s h t) -> is_invocations s !! id = Some i ->
  status_step (in_Status i) to -> status_backed t id to -> sound s0 t0 (mkPhaseWorld c (moved id i to s) h t).
Proof.
  intros [Ha Hk Hs Hc Hb Hl Ht] Hi Hst Hto. destruct (status_step_facts _ _ Hst) as (Hn1 & Hn2 & Hn3 & Hn4).
  split; simpl in *; [done| | | |done| |done].
  - intros id' i' [[<- <-]|[? Hi']]%lookup_insert_Some; [by apply (Hk id i)|by apply Hk].
  - intros id' i' [[<- <-]|[? Hi']]%lookup_insert_Some; [done|by apply Hs].
  - intros x Hx. specialize (Hc x Hx). destruct x; simpl in *; try done; (eapply status_of_moved; [done|naive_solver|done]).
  - etrans; [done|by apply store_le_moved].
Qed.

(** ** Rules *)

Lemma wp_calling {A} what (m : M error H A) Q c s h t :
  (forall e h', Q (Err e) (mkPhaseWorld c s h' t)) -> (forall a h', Q (Ok a) (mkPhaseWorld c s h' (t ++ what a))) ->
  wp (calling what m) Q (mkPhaseWorld c s h t).
Proof.
  intros He Ha. unfold wp, calling. simpl. destruct (m h) as [[a|e] h']; simpl; [apply Ha|]. rewrite app_nil_r. apply He.
Qed.

Lemma wp_ctrl {A} (k : Controller -> M error W A) Q w : wp (k (pw_ctrl w)) Q w -> wp (ctrl ≫= k) Q w.
Proof. done. Qed.

Lemma wp_call {A} (m : M error H A) Q c s h t :
  (forall e h', Q (Err e) (mkPhaseWorld c s h' t)) -> (forall a h', Q (Ok a) (mkPhaseWorld c s h' t)) ->
  wp (call m) Q (mkPhaseWorld c s h t).
Proof. intros He Ha. apply wp_calling; [done|]. intros a h'. rewrite app_nil_r. apply Ha. Qed.

Lemma wp_stored {A} (m : Context -> M error InvocationStore A) Q c s h t :
  (forall ctx h', wp (m ctx) (fun r s' => Q r (mkPhaseWorld c s' h' t)) s) -> wp (stored host m) Q (mkPhaseWorld c s h t).
Proof.
  intros Hm. unfold wp, stored. simpl. destruct (ph_Err host h) as [ctx h']. specialize (Hm ctx h'). unfold wp in Hm.
  by destruct (m ctx s) as [r s'].
Qed.

Lemma wp_inv_Get ctx id Q s : (forall e, Q (Err e) s) -> Q (Ok (is_invocations s !! id)) s -> wp (inv_Get ctx id) Q s.
Proof. intros He Ha. unfold inv_Get. apply wp_guard; [by intros|]. intros _ _. by apply wp_get. Qed.

Lemma wp_inv_Transition ctx id from to Q s : (forall e, Q (Err e) s) ->
  (forall i, is_invocations s !! id = Some i -> in_Status i = from -> status_step from to -> Q (Ok tt) (moved id i to s)) ->
  wp (inv_Transition ctx id from to) Q s.
Proof.
  intros He Ha. unfold inv_Transition. apply wp_guard; [by intros|]. intros _ _. apply wp_guard; [by intros|].
  intros _ Hst%fail_if_Ok. apply negb_false_iff in Hst. apply wp_get. destruct (is_invocations s !! id) as [i|] eqn:Hi; [|by apply wp_throw].
  apply wp_guard; [by intros|]. intros _ Hf%guard_not_Ok. by apply Ha.
Qed.

Lemma wp_transition id from to Q c s h t : (forall e h', Q (Err e) (mkPhaseWorld c s h' t)) ->
  (forall i h', is_invocations s !! id = Some i -> in_Status i = from -> status_step from to -> Q (Ok tt) (mkPhaseWorld c (moved id i to s) h' t)) ->
  wp (stored host (fun ctx => inv_Transition ctx id from to)) Q (mkPhaseWorld c s h t).
Proof. intros He Ha. apply wp_stored. intros ctx h'. apply wp_inv_Transition; [by intros|]. intros. by apply Ha. Qed.

Lemma wp_getInvocation id message Q c s h t : (forall e h', Q (Err e) (mkPhaseWorld c s h' t)) ->
  (forall i h', is_invocations s !! id = Some i -> Q (Ok i) (mkPhaseWorld c s h' t)) ->
  wp (getInvocation host id message) Q (mkPhaseWorld c s h t).
Proof.
  intros He Ha. unfold getInvocation. apply wp_bind, wp_stored. intros ctx h'. apply wp_inv_Get; [by intros|].
  destruct (is_invocations s !! id) as [i|] eqn:Hi; [by apply Ha|by apply He].
Qed.

(** After a move the invocation has the status [to]: it had it, or the machine
    moved it there. *)
Lemma wp_transitionTo id from to message Q c s h t : (forall e h', Q (Err e) (mkPhaseWorld c s h' t)) ->
  (forall i h', is_invocations s !! id = Some i -> in_Status i = to -> Q (Ok tt) (mkPhaseWorld c s h' t)) ->
  (forall i h', is_invocations s !! id = Some i -> in_Status i ∈ from -> status_step (in_Status i) to -> Q (Ok tt) (mkPhaseWorld c (moved id i to s) h' t)) ->
  wp (transitionTo host id from to message) Q (mkPhaseWorld c s h t).
Proof.
  intros He Hs Hm. unfold transitionTo. apply wp_bind, wp_getInvocation; [done|]. intros i h' Hi. case_bool_decide as Hf.
  - apply wp_transition; [done|]. intros i' h'' Hi' Hst Hstep. simplify_eq. by apply Hm.
  - case_bool_decide; [|by apply wp_throw]. by apply wp_ret, (Hs i).
Qed.

(** *** Steps that keep the invariant *)

Section keeping.
Context (s0 : InvocationStore) (t0 : list PhaseCall).
Local Abbreviation snd0 := (sound s0 t0).

Lemma keeps_intro {A} (m : M error W A) :
  (forall c s h t, snd0 (mkPhaseWorld c s h t) -> wp m (fun _ w' => snd0 w') (mkPhaseWorld c s h t)) -> keeps snd0 m.
Proof. intros Hm [c s h t]. apply Hm. Qed.

Lemma keeps_calling {A} what (m : M error H A) : (forall a, what a = [] \/ exists x, what a = [x] /\ (forall t1, backed t1 x) /\ forall s1, consistent s1 x) ->
  keeps snd0 (calling what m).
Proof.
  intros Hw. apply keeps_intro. intros c s h t Hs. apply wp_calling; [intros; by eapply sound_host|].
  intros a h'. destruct (Hw a) as [->|(x & -> & Hb & Hc)]; [rewrite app_nil_r; by eapply sound_host|].
  apply sound_silent; [by eapply sound_host|done|done].
Qed.

Lemma keeps_call {A} (m : M error H A) : keeps snd0 (call m).
Proof. apply keeps_calling. by left. Qed.

Lemma keeps_revoke id : keeps snd0 (revoke host id).
Proof. apply keeps_calling. intros _. right. by exists (Revoked id). Qed.

Lemma keeps_endLife i : keeps snd0 (endLife host i).
Proof. apply keeps_calling. intros _. right. by exists (EndedLife (in_ID i)). Qed.

Lemma keeps_ignoring {A} (m : M error W A) : keeps snd0 m -> keeps snd0 (ignoring m).
Proof. intros Hm w Hw. apply (Hm w Hw). Qed.

Lemma keeps_wrapping {A} message (m : M error W A) : keeps snd0 m -> keeps snd0 (wrapping message m).
Proof. intros Hm. apply keeps_catch; [done|]. intros e. by apply keeps_readonly. Qed.

Lemma keeps_recovering f : (forall rs, keeps snd0 (f rs)) -> keeps snd0 (recovering recovery f).
Proof. intros Hf. unfold recovering. destruct recovery; [apply Hf|by apply keeps_readonly]. Qed.

Lemma keeps_clearActive id : keeps snd0 (clearActive recovery id).
Proof. apply keeps_recovering. intros rs. apply keeps_call. Qed.

Lemma keeps_update f :
  (forall c, (forall id a, ct_active c !! id = Some a -> in_ID (ai_Invocation a) = id) ->
     forall id a, ct_active (f c) !! id = Some a -> in_ID (ai_Invocation a) = id) -> keeps snd0 (update f).
Proof. intros Hf. apply keeps_intro. intros c s h t Hs. eapply sound_ctrl; [done|]. apply Hf. by apply Hs. Qed.

Lemma keeps_put_active id a : in_ID (ai_Invocation a) = id -> keeps snd0 (update (put_active id a)).
Proof. intros Ha. apply keeps_update. intros c Hc id' a'. simpl. intros [[<- <-]|[_ ?]]%lookup_insert_Some; auto. Qed.

Lemma keeps_drop_active id lease (f : Controller -> Controller) : (forall c, ct_active (f c) = ct_active c) ->
  keeps snd0 (update (fun c => drop_active id lease (f c))).
Proof. intros Hf. apply keeps_update. intros c Hc id' a'. simpl. rewrite Hf. intros [_ ?]%lookup_delete_Some. auto. Qed.

Lemma keeps_same_active (f : Controller -> Controller) : (forall c, ct_active (f c) = ct_active c) -> keeps snd0 (update f).
Proof. intros Hf. apply keeps_update. intros c Hc id' a'. rewrite Hf. auto. Qed.

Lemma keeps_getInvocation id message : keeps snd0 (getInvocation host id message).
Proof. apply keeps_intro. intros c s h t Hs. apply wp_getInvocation; intros; by eapply sound_host. Qed.

Lemma wp_activeInvocation id Q c s h t : snd0 (mkPhaseWorld c s h t) -> (forall e, Q (Err e) (mkPhaseWorld c s h t)) ->
  (forall a, in_ID (ai_Invocation a) = id -> Q (Ok a) (mkPhaseWorld c s h t)) -> wp (activeInvocation id) Q (mkPhaseWorld c s h t).
Proof.
  intros Hs He Ha. unfold activeInvocation. apply wp_ctrl. simpl. destruct (ct_active c !! id) as [a|] eqn:Hc; [|by apply wp_throw].
  destruct (ai_Revoked a); [by apply wp_throw|]. apply wp_ret, Ha. by apply (so_active _ _ _ Hs).
Qed.

(** A move whose target is backed. *)
Lemma wp_move id from to message Q c s h t : snd0 (mkPhaseWorld c s h t) ->
  (forall i, is_invocations s !! id = Some i -> in_Status i ∈ from -> status_backed t id to) ->
  (forall e h', snd0 (mkPhaseWorld c s h' t) -> Q (Err e) (mkPhaseWorld c s h' t)) ->
  (forall s' h', snd0 (mkPhaseWorld c s' h' t) -> status_of s' id (eq to) -> Q (Ok tt) (mkPhaseWorld c s' h' t)) ->
  wp (transitionTo host id from to message) Q (mkPhaseWorld c s h t).
Proof.
  intros Hs Hb He Ha. apply wp_transitionTo.
  - intros. by apply He, (sound_host _ _ _ _ h).
  - intros i h' Hi Hto. apply Ha; [by eapply sound_host|]. by exists i.
  - intros i h' Hi Hf Hst. apply Ha; [eapply sound_moved; eauto using sound_host|]. exists (in_set_Status to i). by rewrite lookup_moved_status.
Qed.

Lemma running_dispatched c s h t id i : snd0 (mkPhaseWorld c s h t) -> is_invocations s !! id = Some i ->
  in_Status i ∈ [InvocationRunning; InvocationWaiting; InvocationCompleted] -> dispatched id t.
Proof. intros Hs Hi Hst. by apply (so_status _ _ _ Hs id i Hi). Qed.

Lemma dispatched_backed t id status : dispatched id t -> status ∈ [InvocationRunning; InvocationWaiting] -> status_backed t id status.
Proof.
  intros Hd Hin. split; [by intros|]. split_and!; intros ->; exfalso;
    repeat (apply elem_of_cons in Hin as [Hin|Hin]; [done|]); by apply not_elem_of_nil in Hin.
Qed.

(** *** Tools *)

Lemma elem_of_ToolSet tools tool : is_Some (ToolSet tools !! tool) <-> tool ∈ tools.
Proof.
  unfold ToolSet. induction tools as [|x l IH] using rev_ind.
  - simpl. rewrite lookup_empty, elem_of_nil. split; [intros [? ?]|]; done.
  - rewrite foldl_snoc, elem_of_app, list_elem_of_singleton. destruct (decide (tool = x)) as [->|Hne].
    + rewrite lookup_insert_eq. naive_solver.
    + rewrite lookup_insert_ne by done. rewrite IH. naive_solver.
Qed.

Lemma Assemble_spec i data i' prompt : Assemble hash catalog i data = Ok (i', prompt) ->
  (exists prompts skills tools, i' = in_set_assembled prompts skills tools i) /\
  forall request, dr_Invocation request = i' -> dr_Capability request = capabilityOf i' -> tools_bounded request.
Proof.
  unfold Assemble. intros Ha. apply bind_Ok in Ha as (b & Hb & Ha). apply bind_Ok in Ha as (_ & _ & Ha). simplify_eq/=. split; [by do 3 eexists|].
  intros [] Hi Hc. simpl in *. subst. split; simpl; [done|]. intros tool. rewrite elem_of_ToolSet.
  unfold bundle in Hb. apply bind_Ok in Hb as (direct & _ & Hb). apply bind_Ok in Hb as (skills & _ & Hb).
  destruct (ca_Prompts catalog !! in_Role i) as [rolePrompt|]; [|done]. apply bind_Ok in Hb as (tools & _ & Hb). simplify_eq/=.
  unfold intersectTools. rewrite sort_slice_perm, list_elem_of_filter, elem_of_range_keys. tauto.
Qed.

Lemma keeps_rehydrate active : keeps snd0 (rehydrate host catalog hash encodeEnvelope encodeStart active).
Proof.
  apply keeps_bind; [apply keeps_call|]. intros binding. apply keeps_guard. intros _ _. apply keeps_guard. intros [i prompt] Ha.
  destruct (Assemble_spec _ _ _ _ Ha) as [_ Ht]. apply keeps_bind; [|intros _; by apply keeps_put_active].
  apply keeps_intro. intros c s h t Hs. apply wp_calling; [intros; by eapply sound_host|]. intros _ h'.
  apply sound_record; [by eapply sound_host| |done]. by apply Ht.
Qed.

(** *** Inputs and context *)

Lemma wp_beginAwait id req Q c s h t : snd0 (mkPhaseWorld c s h t) -> (forall e w', snd0 w' -> Q (Err e) w') ->
  (forall a w', snd0 w' -> in_ID (ai_Invocation a) = id -> Q (Ok a) w') -> wp (beginAwait host id req) Q (mkPhaseWorld c s h t).
Proof.
  intros Hs He Ha. unfold beginAwait. apply wp_bind, wp_activeInvocation; [done|by intros; apply He|]. intros a Hid.
  apply wp_guard; [by intros; apply He|]. intros _ _. apply wp_bind, wp_call; [intros; by eapply He, sound_host|].
  intros _ h'. apply sound_host with (h' := h') in Hs. apply wp_bind. apply wp_move; [done| |by intros; apply He|].
  - intros i Hi Hst. apply dispatched_backed; [|set_solver]. apply (running_dispatched _ _ _ _ _ _ Hs Hi). set_solver.
  - intros s' h'' Hs' _. by apply wp_ret, Ha.
Qed.

Lemma keeps_resume id : keeps snd0 (stored host (fun ctx => inv_Transition ctx id InvocationWaiting InvocationRunning)).
Proof.
  apply keeps_intro. intros c s h t Hs. apply wp_transition; [intros; by eapply sound_host|]. intros i h' Hi Hst Hstep.
  apply sound_moved; [by eapply sound_host|done|by rewrite Hst|]. apply dispatched_backed; [|set_solver].
  apply (running_dispatched _ _ _ _ _ _ Hs Hi). rewrite Hst. set_solver.
Qed.

Lemma keeps_finishAwait id req active : in_ID (ai_Invocation active) = id ->
  keeps snd0 (finishAwait host catalog hash encodeEnvelope encodeStart id req active).
Proof.
  intros Hid. apply keeps_bind; [apply keeps_call|]. intros result. apply keeps_bind; [by apply keeps_put_active|]. intros _.
  apply keeps_bind; [|by intros; apply keeps_readonly]. case_bool_decide; [|by apply keeps_readonly].
  apply keeps_bind; [apply keeps_resume|]. intros _. apply keeps_rehydrate.
Qed.

Lemma keeps_OnInputsChanged id inputs : keeps snd0 (OnInputsChanged host catalog hash encodeEnvelope encodeStart id inputs).
Proof.
  apply keeps_intro. intros c s h t Hs. apply wp_bind, wp_activeInvocation; [done|done|]. intros a Hid.
  assert (keeps snd0 (_ ← update (put_active id (ai_set_Inputs inputs a)); rehydrate host catalog hash encodeEnvelope encodeStart (ai_set_Inputs inputs a)))
    as Hk by (apply keeps_bind; [by apply keeps_put_active|intros _; apply keeps_rehydrate]).
  by apply Hk.
Qed.

Lemma keeps_OnContextDelta id : keeps snd0 (OnContextDelta host catalog hash encodeEnvelope encodeStart id).
Proof. apply keeps_intro. intros c s h t Hs. apply wp_bind, wp_activeInvocation; [done|done|]. intros a Hid. by apply keeps_rehydrate. Qed.

(** *** Reports *)

Lemma keeps_observing f x c s h t : snd0 (mkPhaseWorld c s h t) -> (forall h', snd0 (mkPhaseWorld c s h' (t ++ [x]))) ->
  wp (observing obs (fun w => calling (fun _ => [x]) (f w))) (fun _ w' => snd0 w') (mkPhaseWorld c s h t).
Proof.
  intros Hs Hx. unfold observing. destruct obs; [|by apply wp_ret]. apply wp_calling; [intros; by eapply sound_host|]. intros _ h'. apply Hx.
Qed.

Lemma status_of_eq s id (P P' : string -> Prop) : status_of s id P -> status_of s id P' -> exists st, P st /\ P' st.
Proof. intros (i & Hi & Hp) (i' & Hi' & Hp'). simplify_eq. eauto. Qed.

Lemma not_reported_output c s h t id st : snd0 (mkPhaseWorld c s h t) -> status_of s id (eq st) -> st <> InvocationCompleted -> ~ reports_output id t.
Proof.
  intros Hs Hst Hne (p & cmd & Hin). apply (so_consistent _ _ _ Hs) in Hin. simpl in Hin. destruct (status_of_eq _ _ _ _ Hst Hin) as (? & <- & ?). done.
Qed.

Lemma not_reported_failure c s h t id st : snd0 (mkPhaseWorld c s h t) -> status_of s id (eq st) -> st <> InvocationFailed -> ~ reports_failure id t.
Proof.
  intros Hs Hst Hne (p & cmd & Hin). apply (so_consistent _ _ _ Hs) in Hin. simpl in Hin. destruct (status_of_eq _ _ _ _ Hst Hin) as (? & <- & ?). done.
Qed.

Lemma not_reported_stop c s h t id st : snd0 (mkPhaseWorld c s h t) -> status_of s id (eq st) -> st <> InvocationStopped -> ~ reports_stop id t.
Proof.
  intros Hs Hst Hne (p & cmd & cp & nr & Hin). apply (so_consistent _ _ _ Hs) in Hin. simpl in Hin.
  destruct (status_of_eq _ _ _ _ Hst Hin) as (? & <- & ?). done.
Qed.

Lemma status_of_backed c s h t id st : snd0 (mkPhaseWorld c s h t) -> status_of s id (eq st) -> status_backed t id st.
Proof. intros Hs (i & Hi & ->). by apply (so_status _ _ _ Hs). Qed.

Lemma keeps_recordOutput a id c s h t : snd0 (mkPhaseWorld c s h t) -> in_ID (ai_Invocation a) = id -> status_of s id (eq InvocationCompleted) ->
  wp (recordOutputSubmitted obs a) (fun _ w' => snd0 w') (mkPhaseWorld c s h t).
Proof.
  intros Hs <- Hst. apply keeps_observing; [done|]. intros h'. destruct (status_of_backed _ _ _ _ _ _ Hs Hst) as (Hd & Hc & _).
  destruct (Hc eq_refl) as (Hf & Hl & Hr). apply sound_record; [by eapply sound_host| |].
  - split_and!; [by apply Hd; set_solver|done|done|done|by eapply not_reported_failure|by eapply not_reported_stop].
  - destruct Hst as (i & Hi & Heq). by exists i.
Qed.

Lemma keeps_recordFailed id p command c s h t : snd0 (mkPhaseWorld c s h t) -> id = deterministicInvocationID hash command ->
  status_of s id (eq InvocationFailed) -> wp (recordInvocationFailed obs id p command) (fun _ w' => snd0 w') (mkPhaseWorld c s h t).
Proof.
  intros Hs Hid Hst. apply keeps_observing; [done|]. intros h'. destruct (status_of_backed _ _ _ _ _ _ Hs Hst) as (_ & _ & _ & He).
  apply sound_record; [by eapply sound_host| |].
  - split_and!; [done|by apply He|by eapply not_reported_output|by eapply not_reported_stop].
  - destruct Hst as (i & Hi & Heq). by exists i.
Qed.

Lemma keeps_recordStopped a command result c s h t : snd0 (mkPhaseWorld c s h t) -> status_of s (in_ID (ai_Invocation a)) (eq InvocationStopped) ->
  evidenced (in_ID (ai_Invocation a)) (cmd_ID command) result t ->
  wp (recordInvocationStopped obs a command result) (fun _ w' => snd0 w') (mkPhaseWorld c s h t).
Proof.
  intros Hs Hst Hev. apply keeps_observing; [done|]. intros h'. destruct (status_of_backed _ _ _ _ _ _ Hs Hst) as (_ & _ & He & _).
  apply sound_record; [by eapply sound_host| |].
  - split_and!; [by apply He|by eapply not_reported_output|by eapply not_reported_failure|by exists result].
  - destruct Hst as (i & Hi & Heq). by exists i.
Qed.

Lemma keeps_recordStarted a c s h t : snd0 (mkPhaseWorld c s h t) -> in_ID (ai_Invocation a) = deterministicInvocationID hash (ai_Command a) ->
  status_of s (in_ID (ai_Invocation a)) (eq InvocationRunning) ->
  wp (recordInvocationStarted obs a) (fun _ w' => snd0 w') (mkPhaseWorld c s h t).
Proof.
  intros Hs Hid Hst. apply keeps_observing; [done|]. intros h'. destruct (status_of_backed _ _ _ _ _ _ Hs Hst) as (Hd & _).
  apply sound_record; [by eapply sound_host| |].
  - split; [done|]. apply Hd. set_solver.
  - destruct Hst as (i & Hi & Heq). exists i. split; [done|]. by rewrite <- Heq.
Qed.

(** *** Outputs *)

(** A call of a collaborator of which nothing but its success is known. *)
Lemma wp_recorded {A} what (m : M error H A) Q c s h t : snd0 (mkPhaseWorld c s h t) ->
  (forall a, what a = [] \/ exists x, what a = [x] /\ (forall t1, backed t1 x) /\ forall s1, consistent s1 x) ->
  (forall e w', snd0 w' -> Q (Err e) w') ->
  (forall a h', snd0 (mkPhaseWorld c s h' (t ++ what a)) -> Q (Ok a) (mkPhaseWorld c s h' (t ++ what a))) ->
  wp (calling what m) Q (mkPhaseWorld c s h t).
Proof.
  intros Hs Hw He Ha. apply wp_calling; [intros; by eapply He, sound_host|]. intros a h'. apply Ha.
  destruct (Hw a) as [->|(x & -> & Hb & Hc)]; [rewrite app_nil_r; by eapply sound_host|]. apply sound_silent; [by eapply sound_host|done|done].
Qed.

Lemma wp_fence id Q c s h t : snd0 (mkPhaseWorld c s h t) -> (forall e w', snd0 w' -> Q (Err e) w') ->
  (forall h', snd0 (mkPhaseWorld c s h' (t ++ [Fenced id])) -> Q (Ok tt) (mkPhaseWorld c s h' (t ++ [Fenced id]))) ->
  wp (fence host id) Q (mkPhaseWorld c s h t).
Proof. intros Hs He Ha. apply wp_recorded; [done|intros; right; by eexists|done|]. intros []. apply Ha. Qed.

Lemma wp_completeLife i Q c s h t : snd0 (mkPhaseWorld c s h t) -> (forall e w', snd0 w' -> Q (Err e) w') ->
  (forall h', snd0 (mkPhaseWorld c s h' (t ++ [CompletedLife (in_ID i)])) -> Q (Ok tt) (mkPhaseWorld c s h' (t ++ [CompletedLife (in_ID i)]))) ->
  wp (completeLife host i) Q (mkPhaseWorld c s h t).
Proof. intros Hs He Ha. apply wp_recorded; [done|intros; right; by eexists|done|]. intros []. apply Ha. Qed.

Lemma wp_revoke id Q c s h t : snd0 (mkPhaseWorld c s h t) -> (forall e w', snd0 w' -> Q (Err e) w') ->
  (forall h', snd0 (mkPhaseWorld c s h' (t ++ [Revoked id])) -> Q (Ok tt) (mkPhaseWorld c s h' (t ++ [Revoked id]))) ->
  wp (revoke host id) Q (mkPhaseWorld c s h t).
Proof. intros Hs He Ha. apply wp_recorded; [done|intros; right; by eexists|done|]. intros []. apply Ha. Qed.

Lemma wp_endLife i Q c s h t : snd0 (mkPhaseWorld c s h t) -> (forall e w', snd0 w' -> Q (Err e) w') ->
  (forall h', snd0 (mkPhaseWorld c s h' (t ++ [EndedLife (in_ID i)])) -> Q (Ok tt) (mkPhaseWorld c s h' (t ++ [EndedLife (in_ID i)]))) ->
  wp (endLife host i) Q (mkPhaseWorld c s h t).
Proof. intros Hs He Ha. apply wp_recorded; [done|intros; right; by eexists|done|]. intros []. apply Ha. Qed.

Lemma wp_wrapping {A} message (m : M error W A) (Q : res A -> W -> Prop) w : (forall e w', snd0 w' -> Q (Err e) w') ->
  wp m (fun r w' => match r with Ok a => Q (Ok a) w' | Err _ => snd0 w' end) w -> wp (wrapping message m) Q w.
Proof. intros He Hm. apply wp_catch. eapply wp_mono; [exact Hm|]. intros [a|e] w' Hw; [done|]. by apply wp_throw, He. Qed.

(** Fenced and completed, with the output persisted. *)
Lemma wp_completed id Q c s h t : snd0 (mkPhaseWorld c s h t) -> Fenced id ∈ t -> CompletedLife id ∈ t -> (recovery <> None -> receipted id t) ->
  (forall e w', snd0 w' -> Q (Err e) w') ->
  (forall s' h', snd0 (mkPhaseWorld c s' h' t) -> status_of s' id (eq InvocationCompleted) -> Q (Ok tt) (mkPhaseWorld c s' h' t)) ->
  wp (transitionToCompleted host id) Q (mkPhaseWorld c s h t).
Proof.
  intros Hs Hf Hl Hr He Ha. apply wp_move; [done| |by intros; apply He|done]. intros i Hi Hst.
  split_and!; [|done|done|done]. intros _. apply (running_dispatched _ _ _ _ _ _ Hs Hi). set_solver.
Qed.

Lemma keeps_finally {A} (a : A) id receipt commandID lease :
  keeps snd0 (_ ← settleReceipt id receipt commandID lease; mret a).
Proof.
  apply keeps_bind; [|intros; by apply keeps_readonly].
  apply (keeps_drop_active id lease (fun c => ct_set_receipts (<[id := receipt]> (ct_receipts c)) (delete id (ct_pending c))
                                           (<[commandID := id]> (ct_byCommand c)) c)). done.
Qed.

Lemma wp_findReceipt rs id commandID Q c s h t : snd0 (mkPhaseWorld c s h t) -> (forall e w', snd0 w' -> Q (Err e) w') ->
  (forall h', snd0 (mkPhaseWorld c s h' t) -> Q (Ok None) (mkPhaseWorld c s h' t)) ->
  (forall r h' t', snd0 (mkPhaseWorld c s h' t') -> t' = t ++ [ReceiptFound id r] -> Q (Ok (Some r)) (mkPhaseWorld c s h' t')) ->
  wp (findReceipt rs id commandID) Q (mkPhaseWorld c s h t).
Proof.
  intros Hs He Hn Ha. apply wp_recorded; [done| |done|].
  - intros [r|]; [right; by eexists|by left].
  - intros [r|] h'; [intros ?; by eapply Ha|]. rewrite app_nil_r. apply Hn.
Qed.

Lemma receipted_found id r t : receipted id (t ++ [ReceiptFound id r]).
Proof. exists r. right. apply elem_of_app. right. by left. Qed.

Lemma receipted_recorded id r t : receipted id (t ++ [ReceiptRecorded id r]).
Proof. exists r. left. apply elem_of_app. right. by left. Qed.

Lemma keeps_completedOutputReceipt id output : keeps snd0 (completedOutputReceipt host recovery obs hashOutput id output).
Proof.
  apply keeps_intro. intros c s h t Hs. unfold completedOutputReceipt. destruct recovery as [rs|] eqn:Hrec; [|by apply wp_throw].
  apply wp_bind, wp_stored. intros ctx h'. apply sound_host with (h' := h') in Hs. apply wp_inv_Get; [done|].
  destruct (is_invocations s !! id) as [i|] eqn:Hi; [|by apply wp_throw]. pose proof (so_keys _ _ _ Hs _ _ Hi) as Hid. simpl in Hid.
  destruct (_ && _) eqn:Hst; [by apply wp_throw|].
  assert (in_Status i <> InvocationRunning -> InvocationCompleted = in_Status i) as Hcomp by
    (intros Hne; rewrite bool_decide_eq_true_2 in Hst by done; apply bool_decide_eq_false_1, dec_stable in Hst; done).
  clear Hst. apply wp_bind. apply wp_findReceipt; [done|done| |]; [intros; by apply wp_throw|].
  intros r h1 t1 Hs1 Ht1. apply wp_guard; [done|]. intros _ _. apply wp_guard; [done|]. intros command _.
  assert (forall a c2 s2 h2 t2, in_ID (ai_Invocation a) = id -> snd0 (mkPhaseWorld c2 s2 h2 t2) -> status_of s2 id (eq InvocationCompleted) ->
    wp (_ ← recordOutputSubmitted obs a; _ ← call (rs_ClearActiveInvocation rs id); _ ← settleReceipt id r (cmd_ID command) (cmd_LeaseRef command); mret r)
      (fun _ w' => snd0 w') (mkPhaseWorld c2 s2 h2 t2)) as Hrest.
  { intros a c2 s2 h2 t2 Ha Hs2 Hst2. apply wp_bind. eapply wp_mono; [by apply (keeps_recordOutput a id)|]. intros [[]|e] w2 Hw2; [|done].
    revert w2 Hw2. apply (keeps_bind snd0 _ _ (keeps_call _)). intros _. apply keeps_finally. }
  apply wp_bind. case_bool_decide as Hrun.
  - apply wp_bind, wp_fence; [done|done|]. intros h2 Hs2. apply wp_bind, wp_completeLife; [done|done|]. intros h3 Hs3. rewrite Hid in *.
    apply wp_bind. apply wp_completed; [done| | | |by intros|].
    + rewrite !elem_of_app. set_solver.
    + rewrite !elem_of_app. set_solver.
    + intros _. do 2 apply receipted_app. subst t1. apply receipted_found.
    + intros s' h4 Hs4 Hc4. apply wp_ret. apply Hrest; [done|done|done].
  - apply wp_ret. apply Hrest; [done|done|]. exists i. split; [done|]. by apply Hcomp.
Qed.

Lemma keeps_routeAll active refs : keeps snd0 (routeAll host active refs).
Proof.
  induction refs as [|ref rest IH]; simpl; [by apply keeps_readonly|]. apply keeps_bind; [apply keeps_call|]. intros routed.
  apply keeps_bind; [done|]. intros others. by apply keeps_readonly.
Qed.

Lemma keeps_pending active output now : keeps snd0 (pendingOrRouteReceipt host hashOutput active output now).
Proof.
  apply keeps_bind; [by apply keeps_readonly|]. intros c. destruct (_ !! _); [by apply keeps_readonly|].
  apply keeps_bind; [apply keeps_routeAll|]. intros deliveries. apply keeps_bind; [apply keeps_call|]. intros report.
  apply keeps_bind; [apply keeps_routeAll|]. intros evidence. apply keeps_bind; [by apply keeps_readonly|]. intros c'.
  destruct (_ !! _); [by apply keeps_readonly|]. apply keeps_bind; [by apply keeps_same_active|]. intros _. by apply keeps_readonly.
Qed.

(** [m], then [k], for an operation of which only the invariant matters. *)
Lemma wp_keeps {A B} (m : M error W A) (k : A -> M error W B) (Q : res B -> W -> Prop) w : keeps snd0 m -> snd0 w -> (forall e w', snd0 w' -> Q (Err e) w') ->
  (forall a c s h t, snd0 (mkPhaseWorld c s h t) -> wp (k a) Q (mkPhaseWorld c s h t)) -> wp (m ≫= k) Q w.
Proof. intros Hm Hw He Ha. apply wp_bind. eapply wp_mono; [by apply Hm|]. intros [a|e] [] Hw'; [by apply Ha|by apply He]. Qed.

Lemma wp_receipt id active receipt c s h t (k : unit -> M error W OutputReceipt) : snd0 (mkPhaseWorld c s h t) ->
  (forall h' t', snd0 (mkPhaseWorld c s h' t') -> (recovery <> None -> receipted id t') -> wp (k tt) (fun _ w' => snd0 w') (mkPhaseWorld c s h' t')) ->
  wp (recovering recovery (fun rs => wrapping "phase output receipt persistence"
        (calling (fun _ => [ReceiptRecorded id receipt]) (rs_RecordOutputReceipt rs active receipt))) ≫= k) (fun _ w' => snd0 w') (mkPhaseWorld c s h t).
Proof.
  intros Hs Hk. unfold recovering. apply wp_bind. destruct recovery as [rs|]; [|apply wp_ret, Hk; done].
  apply wp_wrapping; [done|]. apply wp_recorded; [done|intros; right; by eexists|done|]. intros [] h' Hs'. apply Hk; [done|]. intros _.
  apply receipted_recorded.
Qed.

Lemma keeps_submitActive id output now active : in_ID (ai_Invocation active) = id ->
  keeps snd0 (submitActive host recovery obs hashOutput id output now active).
Proof.
  intros Hid w Hw. unfold submitActive. apply wp_keeps; [apply keeps_wrapping, keeps_call|done|done|]. intros refreshed c1 s1 h1 t1 Hs1.
  apply wp_keeps; [by apply keeps_wrapping, keeps_readonly|done|done|]. intros _ c2 s2 h2 t2 Hs2.
  apply wp_keeps; [by apply keeps_wrapping, keeps_readonly|done|done|]. intros _ c3 s3 h3 t3 Hs3.
  apply wp_keeps; [apply keeps_wrapping, keeps_pending|done|done|]. intros receipt c4 s4 h4 t4 Hs4.
  apply wp_receipt; [done|]. intros h5 t5 Hs5 Hr5.
  apply wp_bind, wp_wrapping, wp_fence; [done|done|done|]. intros h6 Hs6.
  apply wp_bind, wp_wrapping, wp_completeLife; [done|done|done|]. intros h7 Hs7. simpl in *. rewrite Hid in *.
  apply wp_bind, wp_wrapping; [done|]. apply wp_completed; [done|rewrite !elem_of_app; set_solver|rewrite !elem_of_app; set_solver| |by intros|].
  { intros Hn. by apply receipted_app, receipted_app, Hr5. }
  intros s8 h8 Hs8 Hst8. apply wp_bind, wp_wrapping; [done|].
  eapply wp_mono; [by apply (keeps_recordOutput (ai_set_Binding refreshed active) id)|]. intros [[]|e] w9 Hs9; [|done]. revert w9 Hs9.
  apply (keeps_bind snd0 _ _ (keeps_wrapping _ _ (keeps_clearActive _))). intros _. apply keeps_finally.
Qed.

Lemma keeps_orCompleted id output k : (forall a, in_ID (ai_Invocation a) = id -> keeps snd0 (k a)) ->
  keeps snd0 (orCompleted host recovery obs hashOutput id output k).
Proof.
  intros Hk w Hw. unfold wp, orCompleted.
  assert (wp (activeInvocation id) (fun r w' => match r with Ok a => in_ID (ai_Invocation a) = id | Err _ => True end /\ snd0 w') w) as Ha
    by (destruct w; apply wp_activeInvocation; auto).
  unfold wp in Ha. destruct (activeInvocation id w) as [[a|e] w']; simpl in Ha; destruct Ha as [Ha Hw'].
  - by apply Hk.
  - destruct (IsCode _ _); [by apply keeps_completedOutputReceipt|done].
Qed.

Lemma keeps_terminally {A} id (m : M error W A) : keeps snd0 m -> keeps snd0 (terminally id m).
Proof.
  intros Hm. apply keeps_bind.
  - apply keeps_bind; [by apply keeps_readonly|]. intros c. case_bool_decide; [by apply keeps_readonly|by apply keeps_same_active].
  - intros _. apply keeps_deferring; [by apply keeps_same_active|done].
Qed.

Lemma keeps_SubmitPhaseOutput id output now : keeps snd0 (SubmitPhaseOutput host recovery obs hashOutput id output now).
Proof. apply keeps_orCompleted. intros _ _. apply keeps_terminally, keeps_orCompleted. intros a Ha. by apply keeps_submitActive. Qed.

(** *** Failures *)

Lemma keeps_closeInvocation kind adjective command observe :
  (forall i c s h t, snd0 (mkPhaseWorld c s h t) -> status_of s (deterministicInvocationID hash command) (eq InvocationFailed) ->
     wp (observe (deterministicInvocationID hash command) i) (fun _ w' => snd0 w') (mkPhaseWorld c s h t)) ->
  keeps snd0 (closeInvocation host recovery hash kind adjective command observe).
Proof.
  intros Ho. apply keeps_guard. intros _ _. apply keeps_guard. intros _ _. apply keeps_terminally, keeps_intro. intros c s h t Hs.
  apply wp_bind, wp_getInvocation; [intros; by eapply sound_host|]. intros i h1 Hi. apply sound_host with (h' := h1) in Hs.
  pose proof (so_keys _ _ _ Hs _ _ Hi) as Hid. simpl in Hid. do 3 (apply wp_guard; [done|]; intros _ _).
  apply wp_bind, wp_revoke; [done|done|]. intros h2 Hs2. apply wp_bind, wp_endLife; [done|done|]. intros h3 Hs3. rewrite Hid in *.
  apply wp_bind. apply wp_move; [done| |by intros|].
  { intros _ _ _. split_and!; [intros Hin; exfalso; set_solver|done|done|]. intros _. split; rewrite !elem_of_app; set_solver. }
  intros s4 h4 Hs4 Hst4. apply wp_bind. eapply wp_mono; [by apply Ho|]. intros [[]|e] w5 Hs5; [|done]. revert w5 Hs5.
  apply (keeps_bind snd0 _ _ (keeps_clearActive _)). intros _. by apply (keeps_drop_active _ _ (fun c => c)).
Qed.

Lemma keeps_FailInvocation command : keeps snd0 (FailInvocation host recovery obs hash command).
Proof. apply keeps_closeInvocation. intros. by apply keeps_recordFailed. Qed.

Lemma keeps_AbandonInvocation command : keeps snd0 (AbandonInvocation host recovery hash command).
Proof. apply keeps_closeInvocation. intros. by apply wp_ret. Qed.

(** *** Starts *)

Lemma sound_created c s h t i fingerprints : snd0 (mkPhaseWorld c s h t) -> is_invocations s !! in_ID i = None -> in_Status i = InvocationPrepared ->
  snd0 (mkPhaseWorld c (mkInvocationStore (<[in_ID i := i]> (is_invocations s)) fingerprints) h t).
Proof.
  intros [Ha Hk Hs Hc Hb Hl Ht] Hn Hst. split; simpl in *; [done| | | |done| |done].
  - intros id' i' [[<- <-]|[? Hi']]%lookup_insert_Some; [done|by apply Hk].
  - intros id' i' [[<- <-]|[? Hi']]%lookup_insert_Some; [|by apply Hs]. rewrite Hst. split_and!; [intros Hin; exfalso; set_solver|done|done|done].
  - assert (forall id P, status_of s id P -> status_of (mkInvocationStore (<[in_ID i := i]> (is_invocations s)) fingerprints) id P) as Hmono.
    { intros id P (i' & Hi' & Hp). exists i'. simpl. split; [|done]. rewrite lookup_insert_ne; [done|]. intros <-. by simplify_eq. }
    intros x Hx. specialize (Hc x Hx). destruct x; simpl in *; auto.
  - intros id i' Hi'. destruct (Hl _ _ Hi') as (st & Hst' & Hr). exists st. split; [|done]. simpl. rewrite lookup_insert_ne; [done|]. intros <-. by simplify_eq.
Qed.

Lemma wp_Create i Q c s h t : snd0 (mkPhaseWorld c s h t) -> is_invocations s !! in_ID i = None -> in_Status i = InvocationPrepared ->
  (forall e w', snd0 w' -> Q (Err e) w') ->
  (forall s' h', snd0 (mkPhaseWorld c s' h' t) -> status_of s' (in_ID i) (eq InvocationPrepared) -> Q (Ok tt) (mkPhaseWorld c s' h' t)) ->
  wp (stored host (fun ctx => inv_Create hashInvocation ctx i)) Q (mkPhaseWorld c s h t).
Proof.
  intros Hs Hn Hst He Ha. apply wp_stored. intros ctx h'. apply sound_host with (h' := h') in Hs. unfold inv_Create.
  apply wp_guard; [by intros; apply He|]. intros _ _. apply wp_guard; [by intros; apply He|]. intros _ _. apply wp_get. rewrite Hn.
  apply Ha; [by apply sound_created|]. exists i. simpl. by rewrite lookup_insert_eq.
Qed.

Lemma wp_orCleanup {A} i (m : M error W A) (Q : res A -> W -> Prop) w : (forall e w', snd0 w' -> Q (Err e) w') ->
  wp m (fun r w' => match r with Ok a => Q (Ok a) w' | Err _ => snd0 w' end) w -> wp (orCleanup host i m) Q w.
Proof.
  intros He Hm. apply wp_catch. eapply wp_mono; [exact Hm|]. intros [a|e] w' Hw; [done|].
  apply wp_keeps; [apply keeps_ignoring, keeps_endLife|done|done|]. intros _ c s h t Hs. by apply wp_throw, He.
Qed.

Lemma prepared_not_observed c s h t id : snd0 (mkPhaseWorld c s h t) -> status_of s id (eq InvocationPrepared) -> ~ observed id t.
Proof.
  intros Hs Hst (p & cmd & [Hin|[Hin|[Hin|(cp & nr & Hin)]]]); apply (so_consistent _ _ _ Hs) in Hin; simpl in Hin;
    destruct (status_of_eq _ _ _ _ Hst Hin) as (? & <- & ?); done.
Qed.

Lemma keeps_finishStarted a c s h t : snd0 (mkPhaseWorld c s h t) -> in_ID (ai_Invocation a) = deterministicInvocationID hash (ai_Command a) ->
  status_of s (in_ID (ai_Invocation a)) (eq InvocationRunning) -> wp (finishStarted recovery obs a) (fun _ w' => snd0 w') (mkPhaseWorld c s h t).
Proof.
  intros Hs Hid Hst. unfold finishStarted, recovering. apply wp_bind.
  assert (forall h', snd0 (mkPhaseWorld c s h' t) ->
    wp (_ ← update (fun c => ct_set_active (<[in_ID (ai_Invocation a) := a]> (ct_active c)) (<[cmd_LeaseRef (ai_Command a) := in_ID (ai_Invocation a)]> (ct_byLease c)) c);
        recordInvocationStarted obs a) (fun _ w' => snd0 w') (mkPhaseWorld c s h' t)) as Hrest.
  { intros h' Hs'. apply wp_modify. simpl. apply keeps_recordStarted; [|done|done]. eapply sound_ctrl; [done|]. simpl.
    intros id' a' [[<- <-]|[_ ?]]%lookup_insert_Some; [done|]. by apply (so_active _ _ _ Hs'). }
  destruct recovery as [rs|]; [|by apply wp_ret, Hrest]. apply wp_call; [intros; by eapply sound_host|]. intros _ h'. by eapply Hrest, sound_host.
Qed.

(** From the dispatch on. *)
Lemma wp_dispatched command a request c s h t : snd0 (mkPhaseWorld c s h t) -> tools_bounded request ->
  dr_Invocation request = ai_Invocation a -> in_ID (ai_Invocation a) = deterministicInvocationID hash command -> ai_Command a = command ->
  status_of s (in_ID (ai_Invocation a)) (eq InvocationPrepared) ->
  wp (_ ← catch (calling (fun _ => [Dispatched request]) (ph_Dispatch host request)) (fun e =>
            _ ← ignoring (clearActive recovery (in_ID (ai_Invocation a)));
            _ ← ignoring (revoke host (in_ID (ai_Invocation a)));
            _ ← ignoring (endLife host (ai_Invocation a));
            throw e);
      _ ← catch (stored host (fun ctx => inv_Transition ctx (in_ID (ai_Invocation a)) InvocationPrepared InvocationRunning)) (fun e =>
            _ ← ignoring (revoke host (in_ID (ai_Invocation a)));
            _ ← ignoring (endLife host (ai_Invocation a));
            throw e);
      finishStarted recovery obs (ai_set_Invocation (in_set_Status InvocationRunning (ai_Invocation a)) a))
    (fun _ w' => snd0 w') (mkPhaseWorld c s h t).
Proof.
  intros Hs Hb Hreq Hid Hcmd Hst. apply wp_bind, wp_catch, wp_calling.
  { intros e h'. apply sound_host with (h' := h') in Hs. revert Hs. generalize (mkPhaseWorld c s h' t). apply keeps_bind; [apply keeps_ignoring, keeps_clearActive|]. intros _.
    apply keeps_bind; [apply keeps_ignoring, keeps_revoke|]. intros _. apply keeps_bind; [apply keeps_ignoring, keeps_endLife|]. intros _. by apply keeps_readonly. }
  intros _ h1. assert (snd0 (mkPhaseWorld c s h1 (t ++ [Dispatched request]))) as Hs1.
  { apply sound_record; [by eapply sound_host| |done]. split; [done|]. rewrite Hreq. by eapply prepared_not_observed. }
  apply wp_bind, wp_catch, wp_transition.
  { intros e h'. apply sound_host with (h' := h') in Hs1. revert Hs1. generalize (mkPhaseWorld c s h' (t ++ [Dispatched request])).
    apply keeps_bind; [apply keeps_ignoring, keeps_revoke|]. intros _. apply keeps_bind; [apply keeps_ignoring, keeps_endLife|]. intros _. by apply keeps_readonly. }
  intros i h2 Hi Hp Hstep. apply keeps_finishStarted.
  - apply sound_moved; [by eapply sound_host|done|by rewrite Hp|]. apply dispatched_backed; [|set_solver]. exists request.
    rewrite elem_of_app, Hreq. split; [right; by left|done].
  - simpl. by rewrite Hcmd.
  - eexists. by rewrite lookup_moved_status.
Qed.

Lemma keeps_dispatchPrepared command binding i (known : bool) c s h t : snd0 (mkPhaseWorld c s h t) -> in_ID i = deterministicInvocationID hash command ->
  in_Status i = InvocationPrepared -> is_invocations s !! in_ID i = (if known then Some i else None) ->
  wp (dispatchPrepared host recovery obs catalog hash hashInvocation encodeEnvelope encodeStart command binding i known) (fun _ w' => snd0 w') (mkPhaseWorld c s h t).
Proof.
  intros Hs Hid Hst Hlk. unfold dispatchPrepared. apply wp_bind, wp_orCleanup; [done|]. apply wp_lift.
  destruct (Assemble _ _ _ _) as [[i' prompt]|e] eqn:Ha; [|done]. destruct (Assemble_spec _ _ _ _ Ha) as [(ph & sh & tools & Hi') Hb].
  assert (in_ID i' = in_ID i /\ in_Status i' = InvocationPrepared) as [Hid' Hst'] by (by subst i'). clear Hi' Ha.
  assert (forall s' h', snd0 (mkPhaseWorld c s' h' t) -> status_of s' (in_ID i') (eq InvocationPrepared) -> wp
     (let active := mkActive i' command binding (bs_Inputs binding) false in
      _ ← recovering recovery (fun rs => orCleanup host i' (call (rs_RecordActiveInvocation rs active)));
      let request := mkDispatch i' (capabilityOf i') prompt (startInput (in_ID i) command (bs_Inputs binding)) binding (bs_CheckpointRef binding) in
      _ ← catch (calling (fun _ => [Dispatched request]) (ph_Dispatch host request)) (fun e =>
            _ ← ignoring (clearActive recovery (in_ID i')); _ ← ignoring (revoke host (in_ID i')); _ ← ignoring (endLife host i'); throw e);
      _ ← catch (stored host (fun ctx => inv_Transition ctx (in_ID i') InvocationPrepared InvocationRunning)) (fun e =>
            _ ← ignoring (revoke host (in_ID i')); _ ← ignoring (endLife host i'); throw e);
      finishStarted recovery obs (ai_set_Invocation (in_set_Status InvocationRunning i') active)) (fun _ w' => snd0 w') (mkPhaseWorld c s' h' t)) as Hrest.
  { intros s' h' Hs' Hp. set (active := mkActive i' command binding (bs_Inputs binding) false).
    set (request := mkDispatch i' (capabilityOf i') prompt (startInput (in_ID i) command (bs_Inputs binding)) binding (bs_CheckpointRef binding)). cbv zeta.
    assert (in_ID (ai_Invocation active) = deterministicInvocationID hash command) as Heq by (simpl; congruence).
    pose proof (fun h2 Hs2 => wp_dispatched command active request c s' h2 t Hs2 (Hb request eq_refl eq_refl) eq_refl Heq eq_refl Hp) as Hd.
    unfold recovering. apply wp_bind. destruct recovery as [rs|]; [|by apply wp_ret, Hd]. apply wp_orCleanup; [done|].
    apply wp_call; [intros; by eapply sound_host|]. intros _ h2. by eapply Hd, sound_host. }
  apply wp_bind. destruct known; [apply wp_ret, Hrest; [done|]; rewrite Hid'; by exists i|].
  apply wp_orCleanup; [done|]. apply wp_Create; [done|by rewrite Hid'|done|done|]. intros s' h' Hs' Hp. by apply Hrest.
Qed.

Lemma keeps_finishPersistedOutput a c s h t : snd0 (mkPhaseWorld c s h t) -> status_of s (in_ID (ai_Invocation a)) (eq InvocationCompleted) ->
  wp (finishPersistedOutput host recovery obs a) (fun _ w' => snd0 w') (mkPhaseWorld c s h t).
Proof.
  intros Hs Hst. unfold finishPersistedOutput. destruct recovery as [rs|]; [|by apply wp_throw].
  apply wp_bind. apply wp_findReceipt; [done|done|intros; by apply wp_throw|]. intros receipt h1 t1 Hs1 _.
  apply wp_guard; [done|]. intros _ _. apply wp_bind. eapply wp_mono; [by apply (keeps_recordOutput a _ _ _ _ _ Hs1 eq_refl)|].
  intros [[]|e] w2 Hs2; [|done]. revert w2 Hs2. apply (keeps_bind snd0); [apply keeps_calling; intros; right; by eexists|]. intros _.
  apply keeps_bind; [apply keeps_call|]. intros _.
  by apply (keeps_drop_active _ _ (fun c => ct_set_receipts (<[in_ID (ai_Invocation a) := receipt]> (ct_receipts c)) (ct_pending c)
              (<[cmd_ID (ai_Command a) := in_ID (ai_Invocation a)]> (ct_byCommand c)) c)).
Qed.

Lemma keeps_validateResumable command binding : keeps snd0 (validateResumable recovery command binding).
Proof.
  apply keeps_guard. intros _ _. apply keeps_guard. intros _ _. case_bool_decide; [|by apply keeps_readonly].
  apply keeps_guard. intros _ _. destruct recovery; [apply keeps_call|by apply keeps_readonly].
Qed.

Lemma keeps_orCleanup {A} i (m : M error W A) : keeps snd0 m -> keeps snd0 (orCleanup host i m).
Proof.
  intros Hm w Hw. apply wp_orCleanup; [done|]. eapply wp_mono; [by apply Hm|]. by intros [] w'.
Qed.

Lemma keeps_applyStartLike command now :
  keeps snd0 (applyStartLike host recovery obs catalog hash hashInvocation encodeEnvelope encodeStart ttl command now).
Proof.
  intros w Hw. apply wp_guard; [done|]. intros role _. apply wp_keeps; [apply keeps_call|done|done|]. intros binding c1 s1 h1 t1 Hs1.
  apply wp_keeps; [apply keeps_orCleanup, keeps_validateResumable|done|done|]. intros _ c s h t Hs.
  set (i := newInvocation hash ttl command role binding now). apply wp_bind, wp_orCleanup; [done|]. apply wp_stored.
  intros ctx h'. apply sound_host with (h' := h') in Hs. apply wp_inv_Get; [done|].
  destruct (is_invocations s !! in_ID i) as [existing|] eqn:Hi; [|by apply keeps_dispatchPrepared].
  pose proof (so_keys _ _ _ Hs _ _ Hi) as Hid. simpl in Hid.
  case_bool_decide as Hr; [apply keeps_finishStarted; [done|done|]; simpl; rewrite Hid; by exists existing|].
  case_bool_decide as Hc; [apply keeps_finishPersistedOutput; [done|]; simpl; rewrite Hid; by exists existing|].
  case_bool_decide as Hp; [apply keeps_orCleanup; [by apply keeps_readonly|done]|].
  apply keeps_dispatchPrepared; [done|done|done|]. by rewrite Hid.
Qed.

(** *** Stops *)

Lemma wp_activeByLease lease Q c s h t : snd0 (mkPhaseWorld c s h t) -> (forall e, Q (Err e) (mkPhaseWorld c s h t)) ->
  (forall a, Q (Ok a) (mkPhaseWorld c s h t)) -> wp (activeByLease lease) Q (mkPhaseWorld c s h t).
Proof.
  intros Hs He Ha. unfold activeByLease. apply wp_ctrl. destruct (_ !! _); [|by apply wp_throw]. apply wp_activeInvocation; [done|done|]. intros a _. apply Ha.
Qed.

Lemma keeps_recoverActiveByLease command binding : keeps snd0 (recoverActiveByLease host recovery command binding).
Proof.
  unfold recoverActiveByLease. destruct recovery as [rs|]; [|by apply keeps_readonly]. apply keeps_bind; [apply keeps_call|].
  intros [active|]; [|by apply keeps_readonly]. apply keeps_guard. intros _ _. apply keeps_bind; [apply keeps_getInvocation|]. intros i.
  destruct (_ || _); [apply keeps_bind; [apply keeps_call|intros _; by apply keeps_readonly]|]. case_bool_decide; [by apply keeps_readonly|].
  apply keeps_bind; [|intros _; by apply keeps_readonly]. apply keeps_update. intros c Hc id' a'. simpl.
  intros [[<- <-]|[_ ?]]%lookup_insert_Some; [done|by apply Hc].
Qed.

Lemma keeps_stopAlreadyApplied command : keeps snd0 (stopAlreadyApplied host command).
Proof.
  apply keeps_bind; [|intros []; [destruct (_ || _)|]; by apply keeps_readonly]. apply keeps_intro. intros c s h t Hs. apply wp_stored. intros ctx h'.
  unfold inv_GetByLease. apply wp_guard; [intros; by eapply sound_host|]. intros _ _. by eapply sound_host.
Qed.

Lemma keeps_activeForStop command binding : keeps snd0 (activeForStop host recovery command binding).
Proof.
  apply keeps_catch; [apply keeps_intro; intros; apply wp_bind; by apply wp_activeByLease|]. intros e.
  apply keeps_bind; [apply keeps_recoverActiveByLease|]. intros [a|]; [by apply keeps_readonly|].
  apply keeps_bind; [apply keeps_stopAlreadyApplied|]. intros []; by apply keeps_readonly.
Qed.

Lemma keeps_finishPersistedStop a command result c s h t : snd0 (mkPhaseWorld c s h t) ->
  evidenced (in_ID (ai_Invocation a)) (cmd_ID command) result t ->
  wp (finishPersistedStop host recovery obs a command result) (fun _ w' => snd0 w') (mkPhaseWorld c s h t).
Proof.
  intros Hs Hev. unfold finishPersistedStop. apply wp_bind, wp_revoke; [done|done|]. intros h2 Hs2. apply wp_bind, wp_endLife; [done|done|]. intros h3 Hs3.
  assert (evidenced (in_ID (ai_Invocation a)) (cmd_ID command) result ((t ++ [Revoked (in_ID (ai_Invocation a))]) ++ [EndedLife (in_ID (ai_Invocation a))])) as Hev'
    by (by apply evidenced_app, evidenced_app).
  apply wp_bind. apply wp_move; [done| |by intros|].
  { intros _ _ _. split_and!; [intros Hin; exfalso; set_solver|done| |done]. intros _. split; [|eauto]. split; rewrite !elem_of_app; set_solver. }
  intros s4 h4 Hs4 Hst4. apply wp_bind. eapply wp_mono; [by apply keeps_recordStopped|]. intros [[]|e] w5 Hs5; [|done]. revert w5 Hs5.
  apply (keeps_bind snd0 _ _ (keeps_clearActive _)). intros _. by apply (keeps_drop_active _ _ (fun c => c)).
Qed.

Lemma keeps_stopWithEvidence a command binding : keeps snd0 (stopWithEvidence host recovery obs a command binding).
Proof.
  unfold stopWithEvidence. destruct recovery as [rs|] eqn:Hrec; [|by apply keeps_readonly]. rewrite <- Hrec. apply keeps_intro. intros c s h t Hs.
  apply wp_bind, wp_recorded; [done|intros [r|]; [right; by eexists|by left]|done|]. intros [existing|] h1 Hs1.
  - apply wp_guard; [done|]. intros [] Hv. apply keeps_finishPersistedStop; [done|]. split; [|done]. right. rewrite elem_of_app. right. by left.
  - apply wp_keeps; [apply keeps_call|done|done|]. intros result c2 s2 h2 t2 Hs2. apply wp_guard; [done|]. intros [] Hv.
    apply wp_bind, wp_recorded; [done|intros; right; by eexists|done|]. intros [] h3 Hs3. apply keeps_finishPersistedStop; [done|]. split; [|done].
    left. rewrite elem_of_app. right. by left.
Qed.

Lemma keeps_stopActive a command binding : keeps snd0 (stopActive host recovery obs a command binding).
Proof.
  apply keeps_bind; [apply keeps_getInvocation|]. intros i. destruct (_ || _).
  - apply keeps_bind; [apply keeps_clearActive|]. intros _. apply keeps_bind; [by apply (keeps_drop_active _ _ (fun c => c))|]. intros _. by apply keeps_readonly.
  - case_bool_decide; [apply keeps_stopWithEvidence|]. apply keeps_bind; [apply keeps_intro; intros; by apply wp_activeByLease|]. intros refreshed.
    apply keeps_stopWithEvidence.
Qed.

Lemma keeps_applyStop command : keeps snd0 (applyStop host recovery obs command).
Proof.
  apply keeps_bind; [apply keeps_call|]. intros binding. apply keeps_guard. intros _ _. apply keeps_bind; [apply keeps_activeForStop|].
  intros [a|]; [|by apply keeps_readonly]. apply keeps_guard. intros _ _. apply keeps_terminally, keeps_stopActive.
Qed.

(** *** Commands *)

Lemma keeps_runCommand command now :
  keeps snd0 (runCommand host recovery obs catalog hash hashInvocation encodeEnvelope encodeStart ttl command now).
Proof.
  unfold runCommand. destruct (startLike command); [apply keeps_applyStartLike|]. case_bool_decide; [apply keeps_applyStop|by apply keeps_readonly].
Qed.

Lemma keeps_recordCommandFinish id err : keeps snd0 (recordCommandFinish id err).
Proof. apply keeps_bind; [by apply keeps_readonly|]. intros c. by apply keeps_same_active. Qed.

Lemma keeps_Apply command now :
  keeps snd0 (Apply host recovery obs catalog hash hashInvocation hashCommand encodeEnvelope encodeStart ttl command now).
Proof.
  apply keeps_guard. intros _ _. apply keeps_bind.
  - apply keeps_bind; [by apply keeps_readonly|]. intros c. destruct (_ !! _) as [r|].
    + case_bool_decide; [by apply keeps_readonly|]. destruct (cs_inFlight r); by apply keeps_readonly.
    + apply keeps_bind; [by apply keeps_same_active|]. intros _. by apply keeps_readonly.
  - intros [[replayed done] err]. destruct (replayed && done); [destruct err; by apply keeps_readonly|].
    intros w Hw. pose proof (keeps_runCommand command now w Hw) as Hr. unfold wp in *. destruct (runCommand _ _ _ _ _ _ _ _ _ _ _ w) as [r w'].
    simpl in *. by apply keeps_recordCommandFinish.
Qed.

End keeping.

(** ** Runs *)

Local Abbreviation step := (phase_step host recovery obs catalog hash hashInvocation hashCommand hashOutput encodeEnvelope encodeStart ttl).
Local Abbreviation callStep := (call_step host recovery obs catalog hash hashInvocation hashCommand hashOutput encodeEnvelope encodeStart ttl).
Local Abbreviation reachable := (phase_reachable host recovery obs catalog hash hashInvocation hashCommand hashOutput encodeEnvelope encodeStart ttl).

(** A waiter holds the invocation it waits for. *)
Definition run_sound (s0 : InvocationStore) (t0 : list PhaseCall) (x : W * list Waiter) : Prop :=
  sound s0 t0 x.1 /\ Forall (fun waiter => in_ID (ai_Invocation (wt_active waiter)) = wt_id waiter) x.2.

Lemma call_step_sound s0 t0 x y : run_sound s0 t0 x -> callStep x y -> run_sound s0 t0 y.
Proof.
  intros [Hs Hw] Hst. destruct Hst; simpl in *; (split; [|try done]); simpl.
  - by apply (keeps_Apply s0 t0).
  - destruct w as [c s h t]. by refine (wp_run _ (fun _ w' => sound s0 t0 w') _ _ _ (wp_beginAwait s0 t0 id req _ c s h t Hs _ _) H0).
  - constructor; [|done]. destruct w as [c s h t].
    by refine (wp_run _ (fun r _ => match r with Ok a => in_ID (ai_Invocation a) = id | Err _ => True end) _ _ _ (wp_beginAwait s0 t0 id req _ c s h t Hs _ _) H0).
  - destruct w as [c s h t]. by refine (wp_run _ (fun _ w' => sound s0 t0 w') _ _ _ (wp_beginAwait s0 t0 id req _ c s h t Hs _ _) H0).
  - apply (keeps_finishAwait s0 t0); [|done]. rewrite Forall_app, Forall_cons in Hw. tauto.
  - rewrite Forall_app, Forall_cons in Hw. rewrite Forall_app. tauto.
  - by apply (keeps_OnInputsChanged s0 t0).
  - by apply (keeps_OnContextDelta s0 t0).
  - by apply (keeps_SubmitPhaseOutput s0 t0).
  - by apply (keeps_FailInvocation s0 t0).
  - by apply (keeps_AbandonInvocation s0 t0).
  - destruct w. by eapply sound_host.
Qed.

Lemma step_sound s0 t0 x y : run_sound s0 t0 x -> step x y -> run_sound s0 t0 y.
Proof.
  intros Hx Hst. destruct Hst as [x y Hst|w ws]; [by eapply call_step_sound|]. destruct Hx as [Hs _]. split; [|done].
  destruct w as [c s h t]. by eapply sound_ctrl.
Qed.

Lemma run_sound_rtc s0 t0 x y : run_sound s0 t0 x -> rtc step x y -> run_sound s0 t0 y.
Proof. intros Hx Hr. induction Hr; [done|]. eauto using step_sound. Qed.

Lemma initial_sound h : sound NewMemoryInvocationStore [] (initialWorld h).
Proof.
  split; simpl; try done.
  - intros x Hx. by apply not_elem_of_nil in Hx.
  - intros t1 x t2 Heq. by apply app_cons_not_nil in Heq.
Qed.

Lemma reachable_sound w ws : reachable w ws -> run_sound (pw_store w) (pw_trace w) (w, ws).
Proof.
  intros (h & Hr). eapply (run_sound_rtc NewMemoryInvocationStore []) in Hr as [Hs Hw]; [|split; [apply initial_sound|by apply Forall_nil]].
  split; [by eapply sound_refl|done].
Qed.

(** ** Commands and locks *)

(** A call changes the record of its own command only, and gives its lock back. *)
Definition quiet (commands : gmap string commandRecord) (locks : gset InvocationID) (w : W) : Prop :=
  ct_commands (pw_ctrl w) = commands /\ ct_termLocks (pw_ctrl w) = locks.

Section quiet.
Context (commands : gmap string commandRecord).

Lemma quiet_calling locks {A} what (m : M error H A) : keeps (quiet commands locks) (calling what m).
Proof. intros w Hw. unfold wp, calling. by destruct (m (pw_host w)). Qed.

Lemma quiet_stored locks {A} (m : Context -> M error InvocationStore A) : keeps (quiet commands locks) (stored host m).
Proof. intros w Hw. unfold wp, stored. destruct (ph_Err host (pw_host w)) as [ctx h]. by destruct (m ctx (pw_store w)). Qed.

Lemma quiet_update locks f : (forall c, ct_commands (f c) = ct_commands c /\ ct_termLocks (f c) = ct_termLocks c) ->
  keeps (quiet commands locks) (update f).
Proof. intros Hf [c s h t] [Hc Hl]. split; simpl in *; [by rewrite (proj1 (Hf c))|by rewrite (proj2 (Hf c))]. Qed.

Lemma quiet_ignoring locks {A} (m : M error W A) : keeps (quiet commands locks) m -> keeps (quiet commands locks) (ignoring m).
Proof. intros Hm w Hw. apply (Hm w Hw). Qed.

Lemma quiet_terminally {A} locks id (m : M error W A) : (forall locks', keeps (quiet commands locks') m) -> keeps (quiet commands locks) (terminally id m).
Proof.
  intros Hm w [Hc Hl]. apply wp_bind. unfold lockTerminal. apply wp_ctrl. case_bool_decide as Hin; [by apply wp_throw|]. apply wp_deferring.
  eapply wp_mono; [apply (Hm ({[id]} ∪ locks)); by split; simpl; rewrite ?Hl|]. intros r w' [Hc' Hl']. split; simpl; [done|]. rewrite Hl'. apply unlocked. by rewrite <- Hl.
Qed.

End quiet.

Ltac quiet_tac :=
  repeat (intros; simpl; match goal with
  | |- keeps _ (terminally _ _) => apply quiet_terminally
  | |- keeps _ (calling _ _) => apply quiet_calling
  | |- keeps _ (call _) => apply quiet_calling
  | |- keeps _ (stored _ _) => apply quiet_stored
  | |- keeps _ (ignoring _) => apply quiet_ignoring
  | |- keeps _ (update _) => apply quiet_update; by intros
  | |- keeps _ (wrapping _ _) => apply keeps_catch
  | |- keeps _ (catch _ _) => apply keeps_catch
  | |- keeps _ (lift _) => by apply keeps_readonly
  | |- keeps _ (mret _) => by apply keeps_readonly
  | |- keeps _ (throw _) => by apply keeps_readonly
  | |- keeps _ ctrl => by apply keeps_readonly
  | |- keeps _ (_ ≫= _) => apply keeps_bind
  | |- keeps _ (match ?x with _ => _ end) => destruct x
  | |- keeps _ _ => progress auto with quiet
  end); intros.

#[local] Hint Extern 0 (keeps _ (recovering _ _)) => unfold recovering; quiet_tac : quiet.
#[local] Hint Extern 0 (keeps _ (observing _ _)) => unfold observing; quiet_tac : quiet.

Section quiet_ops.
Context (commands : gmap string commandRecord) (locks : gset InvocationID).

Lemma quiet_activeInvocation id : keeps (quiet commands locks) (activeInvocation id).
Proof. unfold activeInvocation. quiet_tac. Qed.

Lemma quiet_transitionTo id from to message : keeps (quiet commands locks) (transitionTo host id from to message).
Proof. unfold transitionTo, getInvocation. quiet_tac. Qed.

Lemma quiet_rehydrate active : keeps (quiet commands locks) (rehydrate host catalog hash encodeEnvelope encodeStart active).
Proof. unfold rehydrate. quiet_tac. Qed.

Lemma quiet_routeAll active refs : keeps (quiet commands locks) (routeAll host active refs).
Proof. induction refs; quiet_tac; done. Qed.

End quiet_ops.
#[local] Hint Resolve quiet_activeInvocation quiet_transitionTo quiet_rehydrate quiet_routeAll : quiet.
#[local] Hint Extern 0 (keeps _ (transitionToCompleted _ _)) => apply quiet_transitionTo : quiet.
#[local] Hint Extern 0 (keeps _ (transitionToWaiting _ _)) => apply quiet_transitionTo : quiet.
#[local] Hint Extern 0 (keeps _ (transitionToStopped _ _)) => apply quiet_transitionTo : quiet.
#[local] Hint Extern 0 (keeps _ (transitionToFailed _ _)) => apply quiet_transitionTo : quiet.

Section quiet_calls.
Context (commands : gmap string commandRecord).

Lemma quiet_beginAwait locks id req : keeps (quiet commands locks) (beginAwait host id req).
Proof. unfold beginAwait. quiet_tac. Qed.

Lemma quiet_finishAwait locks id req active :
  keeps (quiet commands locks) (finishAwait host catalog hash encodeEnvelope encodeStart id req active).
Proof. unfold finishAwait. quiet_tac. Qed.

Lemma quiet_OnInputsChanged locks id inputs : keeps (quiet commands locks) (OnInputsChanged host catalog hash encodeEnvelope encodeStart id inputs).
Proof. unfold OnInputsChanged. quiet_tac. Qed.

Lemma quiet_OnContextDelta locks id : keeps (quiet commands locks) (OnContextDelta host catalog hash encodeEnvelope encodeStart id).
Proof. unfold OnContextDelta. quiet_tac. Qed.

Lemma quiet_completedOutputReceipt locks id output :
  keeps (quiet commands locks) (completedOutputReceipt host recovery obs hashOutput id output).
Proof. unfold completedOutputReceipt, findReceipt, fence, completeLife, recordOutputSubmitted, settleReceipt. quiet_tac. Qed.

Lemma quiet_submitActive locks id output now active :
  keeps (quiet commands locks) (submitActive host recovery obs hashOutput id output now active).
Proof. unfold submitActive, pendingOrRouteReceipt, fence, completeLife, recordOutputSubmitted, settleReceipt, clearActive. quiet_tac. Qed.

Lemma quiet_orCompleted locks id output k : (forall a, keeps (quiet commands locks) (k a)) ->
  keeps (quiet commands locks) (orCompleted host recovery obs hashOutput id output k).
Proof.
  intros Hk w Hw. unfold wp, orCompleted. pose proof (quiet_activeInvocation commands locks id w Hw) as Ha. unfold wp in Ha.
  destruct (activeInvocation id w) as [[a|e] w']; simpl in Ha; [by apply Hk|]. destruct (IsCode _ _); [by apply quiet_completedOutputReceipt|done].
Qed.

Lemma quiet_SubmitPhaseOutput locks id output now :
  keeps (quiet commands locks) (SubmitPhaseOutput host recovery obs hashOutput id output now).
Proof. apply quiet_orCompleted. intros _. apply quiet_terminally. intros locks'. apply quiet_orCompleted. intros a. apply quiet_submitActive. Qed.

Lemma quiet_FailInvocation locks command : keeps (quiet commands locks) (FailInvocation host recovery obs hash command).
Proof. unfold FailInvocation, closeInvocation, getInvocation, revoke, endLife, recordInvocationFailed, clearActive. quiet_tac. Qed.

Lemma quiet_AbandonInvocation locks command : keeps (quiet commands locks) (AbandonInvocation host recovery hash command).
Proof. unfold AbandonInvocation, closeInvocation, getInvocation, revoke, endLife, clearActive. quiet_tac. Qed.

Lemma quiet_finishStarted locks a : keeps (quiet commands locks) (finishStarted recovery obs a).
Proof. unfold finishStarted, recordInvocationStarted. quiet_tac. Qed.

Lemma quiet_dispatchPrepared locks command binding i known :
  keeps (quiet commands locks) (dispatchPrepared host recovery obs catalog hash hashInvocation encodeEnvelope encodeStart command binding i known).
Proof. unfold dispatchPrepared, orCleanup, revoke, endLife, clearActive. quiet_tac; apply quiet_finishStarted. Qed.

Lemma quiet_applyStartLike locks command now :
  keeps (quiet commands locks) (applyStartLike host recovery obs catalog hash hashInvocation encodeEnvelope encodeStart ttl command now).
Proof.
  unfold applyStartLike, orCleanup, validateResumable, finishPersistedOutput, findReceipt, endLife, completeLife, recordOutputSubmitted.
  quiet_tac; first [apply quiet_finishStarted|apply quiet_dispatchPrepared].
Qed.

Lemma quiet_stopActive locks a command binding : keeps (quiet commands locks) (stopActive host recovery obs a command binding).
Proof.
  unfold stopActive, stopWithEvidence, finishPersistedStop, recordInvocationStopped, revoke, endLife, clearActive, activeByLease, getInvocation. quiet_tac.
Qed.

Lemma quiet_applyStop locks command : keeps (quiet commands locks) (applyStop host recovery obs command).
Proof.
  unfold applyStop, activeForStop, activeByLease, recoverActiveByLease, stopAlreadyApplied, getInvocation. quiet_tac; apply quiet_stopActive.
Qed.

Lemma quiet_runCommand locks command now :
  keeps (quiet commands locks) (runCommand host recovery obs catalog hash hashInvocation encodeEnvelope encodeStart ttl command now).
Proof. unfold runCommand. quiet_tac; first [apply quiet_applyStartLike|apply quiet_applyStop]. Qed.

End quiet_calls.

End with_runtime.
