(* ===== verification/PhaseProps.v ===== *)
(** * Properties of the phase controller *)

From stdpp Require Import base tactics option list strings gmap relations.
From Stdlib Require Import ZArith Ascii.
From S2P Require Import Prelude GoLib GoStrings Kernel CoordTypes Auth Hoare Catalog Invocation PhaseTypes Phase PhaseInv.

(** ** Commands *)

(** Between calls no command is in flight, no terminal lock is held, and a command
    that is done has no error. *)
Definition idle {H} (w : PhaseWorld H) : Prop :=
  ct_termLocks (pw_ctrl w) = ∅ /\
  map_Forall (fun _ r => cs_inFlight r = false /\ (cs_done r = true -> cs_err r = None)) (ct_commands (pw_ctrl w)).

(** The command [id] is done, with this payload. *)
Definition done_as {H} (id fingerprint : string) (w : PhaseWorld H) : Prop :=
  ct_commands (pw_ctrl w) !! id = Some (mkCommandState fingerprint false true None).

Definition conflict : error := kerr CodeCommandConflict "command id was reused with different payload" false.

Section with_runtime.
Context `{GR : GoRuntime} {H : Type} (host : PhaseHost H) (recovery : option (RecoveryStore H)) (obs : option (ObservationWriter H)).
Context (catalog : Catalog) (hash : string -> string) (hashInvocation : Invocation -> string) (hashCommand : PhaseCommand -> string).
Context (hashOutput : PhaseOutput -> string) (encodeEnvelope : Envelope -> string) (encodeStart : StartPhaseInput -> string) (ttl : Z).

Local Abbreviation W := (PhaseWorld H).
Local Abbreviation step := (phase_step host recovery obs catalog hash hashInvocation hashCommand hashOutput encodeEnvelope encodeStart ttl).
Local Abbreviation callStep := (call_step host recovery obs catalog hash hashInvocation hashCommand hashOutput encodeEnvelope encodeStart ttl).
Local Abbreviation reachable := (phase_reachable host recovery obs catalog hash hashInvocation hashCommand hashOutput encodeEnvelope encodeStart ttl).
Local Abbreviation apply := (Apply host recovery obs catalog hash hashInvocation hashCommand encodeEnvelope encodeStart ttl).

Lemma Apply_done command now (w : W) : validateCommand command = Ok tt -> done_as (cmd_ID command) (hashCommand command) w -> apply command now w = (Ok tt, w).
Proof.
  intros Hv Hd. unfold Apply, mbind, M_bind, lift. rewrite Hv. unfold recordCommandStart, ctrl, get_state, mbind, M_bind, mret, M_ret. simpl.
  rewrite Hd. simpl. by rewrite bool_decide_eq_false_2 by (by intros []).
Qed.

Lemma Apply_conflict command now fingerprint (w : W) : validateCommand command = Ok tt -> done_as (cmd_ID command) fingerprint w ->
  hashCommand command <> fingerprint -> apply command now w = (Err conflict, w).
Proof.
  intros Hv Hd Hne. unfold Apply, mbind, M_bind, lift. rewrite Hv. unfold recordCommandStart, ctrl, get_state, mbind, M_bind, mret, M_ret. simpl.
  rewrite Hd. simpl. by rewrite bool_decide_eq_true_2 by done.
Qed.

(** What is left of the command records when a command has run. *)
Lemma finish_idle id err (w : W) r : idle w \/ (ct_termLocks (pw_ctrl w) = ∅ /\ map_Forall (fun k r => k <> id -> cs_inFlight r = false /\ (cs_done r = true -> cs_err r = None)) (ct_commands (pw_ctrl w))) ->
  ct_commands (pw_ctrl w) !! id = Some r -> cs_done r = false ->
  let w' := (recordCommandFinish id err w).2 in
  idle w' /\ (forall id' f, done_as id' f w -> done_as id' f w') /\ (err = None -> done_as id (cs_fingerprint r) w').
Proof.
  intros Hi Hr Hd w'. subst w'. unfold recordCommandFinish, ctrl, get_state, mbind, M_bind, mret, M_ret. simpl. rewrite Hr. simpl.
  assert (ct_termLocks (pw_ctrl w) = ∅ /\ map_Forall (fun k r => k <> id -> cs_inFlight r = false /\ (cs_done r = true -> cs_err r = None)) (ct_commands (pw_ctrl w)))
    as [Hl Hm] by (destruct Hi as [[Hl Hm]|]; [split; [done|]; intros k r' Hk _; by apply (Hm k)|done]).
  split_and!.
  - split; simpl; [done|]. intros k r' [[<- <-]|[Hne Hk]]%lookup_insert_Some; simpl; [|by apply (Hm k)]. split; [done|]. rewrite Hd. by destruct err.
  - intros id' f Hf. unfold done_as in *. simpl. rewrite lookup_insert_ne; [done|]. intros <-. rewrite Hf in Hr. by simplify_eq/=.
  - intros ->. unfold done_as. simpl. by rewrite lookup_insert_eq.
Qed.

Lemma Apply_idle command now (w : W) r w' : idle w -> apply command now w = (r, w') ->
  idle w' /\ (forall id f, done_as id f w -> done_as id f w') /\ (r = Ok tt -> validateCommand command = Ok tt /\ done_as (cmd_ID command) (hashCommand command) w').
Proof.
  intros [Hl Hm]. unfold Apply. destruct (validateCommand command) as [[]|e] eqn:Hv; unfold mbind, M_bind, lift; [|intros [= <- <-]; by split_and!].
  set (id := cmd_ID command). set (f := hashCommand command).
  assert (forall (w1 : W) r1, ct_commands (pw_ctrl w1) !! id = Some r1 -> cs_done r1 = false -> cs_fingerprint r1 = f ->
    ct_termLocks (pw_ctrl w1) = ∅ -> (forall k, k <> id -> ct_commands (pw_ctrl w1) !! k = ct_commands (pw_ctrl w) !! k) ->
    (let '(r2, w2) := runCommand host recovery obs catalog hash hashInvocation encodeEnvelope encodeStart ttl command now w1 in
     (r2, (recordCommandFinish id (match r2 with Ok _ => None | Err e => Some e end) w2).2)) = (r, w') ->
    idle w' /\ (forall id' f', id' <> id -> done_as id' f' w -> done_as id' f' w') /\ (r = Ok tt -> done_as id f w')) as Hrun.
  { intros w1 r1 Hr1 Hd1 Hf1 Hl1 Hk1. pose proof (quiet_runCommand host recovery obs catalog hash hashInvocation encodeEnvelope encodeStart ttl
      (ct_commands (pw_ctrl w1)) ∅ command now w1 (conj eq_refl Hl1)) as Hq. unfold wp in Hq.
    destruct (runCommand _ _ _ _ _ _ _ _ _ _ _ w1) as [r2 w2]. simpl in Hq. destruct Hq as [Hc2 Hl2]. intros [= <- <-].
    edestruct (finish_idle id (match r2 with Ok _ => None | Err e => Some e end) w2 r1) as (Hi' & Hk' & Hd'); [|by rewrite Hc2|done|].
    - right. split; [done|]. rewrite Hc2. intros k r' Hk Hne. rewrite (Hk1 k Hne) in Hk. by apply (Hm k).
    - split_and!; [done| |].
      + intros id' f' Hne Hd. apply Hk'. unfold done_as in *. by rewrite Hc2, Hk1.
      + intros ->. rewrite <- Hf1. by apply Hd'. }
  unfold recordCommandStart, ctrl, get_state, mbind, M_bind, mret, M_ret. simpl. fold id f.
  destruct (ct_commands (pw_ctrl w) !! id) as [r0|] eqn:Hr0.
  - destruct (Hm _ _ Hr0) as [Hfl Hde]. case_bool_decide as Hne; simpl; [intros [= <- <-]; by split_and!|]. rewrite Hfl. simpl.
    destruct (cs_done r0) eqn:Hdone.
    + rewrite (Hde eq_refl). intros [= <- <-]. split_and!; [by split|done|]. intros _. split; [done|]. unfold done_as. rewrite Hr0. destruct r0; simpl in *. by rewrite Hde, Hfl, Hdone, Hne.
    + intros Hrw. destruct (Hrun w r0 Hr0 Hdone Hne Hl (fun _ _ => eq_refl) Hrw) as (Hi & Hk & Hd). split_and!; [done| |by auto].
      intros id' f' Hd'. apply Hk; [|done]. intros ->. unfold done_as in Hd'. rewrite Hd' in Hr0. by simplify_eq/=.
  - intros Hrw. eapply Hrun in Hrw as (Hi & Hk & Hd); [|simpl; by rewrite lookup_insert_eq|done|done|done|simpl; intros; by rewrite lookup_insert_ne].
    split_and!; [done| |by auto]. intros id' f' Hd'. apply Hk; [|done]. intros ->. unfold done_as in Hd'. by rewrite Hd' in Hr0.
Qed.

Lemma quiet_idle (w w' : W) : quiet (ct_commands (pw_ctrl w)) (ct_termLocks (pw_ctrl w)) w' ->
  (idle w -> idle w') /\ forall id f, done_as id f w -> done_as id f w'.
Proof. intros [Hc Hl]. unfold idle, done_as. by rewrite Hc, Hl. Qed.

Lemma call_step_idle x y : callStep x y -> idle x.1 -> idle y.1 /\ forall id f, done_as id f x.1 -> done_as id f y.1.
Proof.
  intros Hst Hi.
  assert (forall A (m : M error W A), keeps (quiet (ct_commands (pw_ctrl x.1)) (ct_termLocks (pw_ctrl x.1))) m ->
    idle (m x.1).2 /\ forall id f, done_as id f x.1 -> done_as id f (m x.1).2) as Hq.
  { intros A m Hm. destruct (quiet_idle x.1 (m x.1).2) as [H1 H2]; [by apply Hm|]. auto. }
  destruct Hst as [command now w ws|id req w ws active w' Hb|id req w ws e w' Hb|ws1 ws2 x w|id inputs w ws|id w ws|id output now w ws|command w ws|command w ws|h w ws]; simpl in *.
  - destruct (apply command now w) as [r w'] eqn:Ha. destruct (Apply_idle _ _ _ _ _ Hi Ha) as (? & ? & ?). done.
  - specialize (Hq _ _ (quiet_beginAwait host _ _ id req)). by rewrite Hb in Hq.
  - specialize (Hq _ _ (quiet_beginAwait host _ _ id req)). by rewrite Hb in Hq.
  - apply Hq, quiet_finishAwait.
  - apply Hq, quiet_OnInputsChanged.
  - apply Hq, quiet_OnContextDelta.
  - apply Hq, quiet_SubmitPhaseOutput.
  - apply Hq, quiet_FailInvocation.
  - apply Hq, quiet_AbandonInvocation.
  - split; [exact Hi|done].
Qed.

Lemma calls_idle x y : rtc callStep x y -> idle x.1 -> idle y.1 /\ forall id f, done_as id f x.1 -> done_as id f y.1.
Proof.
  intros Hr. induction Hr as [x|x y z Hst _ IH]; intros Hi; [done|]. destruct (call_step_idle _ _ Hst Hi) as [Hi' Hd']. destruct (IH Hi') as [Hi'' Hd'']. auto.
Qed.

Lemma reachable_idle w ws : reachable w ws -> idle w.
Proof.
  intros (h & Hr). assert (forall x y, rtc step x y -> idle x.1 -> idle y.1) as Hrun; [|by apply (Hrun _ _ Hr)]. clear. intros x y Hr.
  induction Hr as [x|x y z Hst _ IH]; intros Hi; [done|]. apply IH. destruct Hst as [x y Hst|w ws]; [by apply (call_step_idle x y)|done].
Qed.

(** C10: In every run of the phase controller (calls in any order, other calls
    during a wait, collaborators that fail, contexts that are cancelled, restarts of
    the process) every report to the coordination graph is backed by what was done
    before it: an output is reported only after the invocation was dispatched, its
    receipt persisted, its authority fenced and its life completed; a stop only with
    complete stop evidence, after the authority was revoked; a failure only after
    revocation; no invocation gets two different outcomes reported, none is
    dispatched again once anything was reported of it, and no dispatch or
    rehydration gives tools outside the role's or the runtime's.  The store holds the
    status that was reported. *)
Theorem phase_reports_backed w ws : reachable w ws ->
  (forall t1 x t2, pw_trace w = t1 ++ x :: t2 -> backed recovery catalog hash t1 x) /\
  forall x, x ∈ pw_trace w -> consistent (pw_store w) x.
Proof. intros Hr%reachable_sound. destruct Hr as [Hs _]. split; [exact (so_backed _ _ _ _ _ _ Hs)|exact (so_consistent _ _ _ _ _ _ Hs)]. Qed.

(** C11: Whatever happens after it was created, an invocation keeps its identity, and
    its status only moves along the status machine; an invocation that is stopped,
    completed or failed stays so, across restarts too, and what was recorded stays
    recorded. *)
Theorem invocation_outcome_final w ws w' ws' : reachable w ws -> rtc step (w, ws) (w', ws') ->
  pw_trace w `prefix_of` pw_trace w' /\
  forall id i, is_invocations (pw_store w) !! id = Some i -> exists status,
    is_invocations (pw_store w') !! id = Some (in_set_Status status i) /\ rtc status_step (in_Status i) status /\
    (terminal (in_Status i) -> status = in_Status i).
Proof.
  intros Hr%reachable_sound Hst. destruct (run_sound_rtc _ _ _ _ _ _ _ _ _ _ _ _ _ _ _ Hr Hst) as [Hs _]. split; [exact (so_trace _ _ _ _ _ _ Hs)|].
  intros id i Hi. destruct (so_store _ _ _ _ _ _ Hs id i Hi) as (status & Hs' & Hrtc). exists status. split_and!; [done|done|]. intros Ht. by apply terminal_final.
Qed.

(** A command that was applied is not applied again: for as long as the process
    runs, [Apply] of the same command answers without an effect, and [Apply] of another
    command under its identifier is refused as a conflict without an effect. *)
Theorem command_applied_once command now w ws w1 ws1 w2 ws2 : reachable w ws -> apply command now w = (Ok tt, w1) -> rtc callStep (w1, ws1) (w2, ws2) ->
  (forall now', apply command now' w2 = (Ok tt, w2)) /\
  forall command' now', cmd_ID command' = cmd_ID command -> validateCommand command' = Ok tt -> hashCommand command' <> hashCommand command ->
    apply command' now' w2 = (Err conflict, w2).
Proof.
  intros Hr%reachable_idle Ha Hst. destruct (Apply_idle _ _ _ _ _ Hr Ha) as (Hi & _ & Hd). destruct (Hd eq_refl) as [Hv Hd'].
  destruct (calls_idle _ _ Hst Hi) as [_ Hk]. specialize (Hk _ _ Hd'). simpl in Hk. split; [intros now'; by apply Apply_done|].
  intros command' now' Hid Hv' Hne. eapply Apply_conflict; [done|by rewrite Hid|done].
Qed.

(** No call leaves a command in flight or a terminal lock held, so a call never
    waits for one that has ended. *)
Theorem controller_never_blocks w ws id fingerprint : reachable w ws ->
  (exists r w', recordCommandStart (H := H) id fingerprint w = (Ok r, w')) /\ exists w', lockTerminal (H := H) id w = (Ok tt, w').
Proof.
  intros [Hl Hm]%reachable_idle. split.
  - unfold recordCommandStart, ctrl, get_state, mbind, M_bind, mret, M_ret. simpl. destruct (ct_commands (pw_ctrl w) !! id) as [r|] eqn:Hr; [|by do 2 eexists].
    case_bool_decide; [by do 2 eexists|]. destruct (Hm _ _ Hr) as [-> _]. by do 2 eexists.
  - unfold lockTerminal, ctrl, get_state, mbind, M_bind, mret, M_ret. simpl. rewrite Hl, bool_decide_eq_false_2 by set_solver. by eexists.
Qed.

(** ** Recovery of an output *)

Section recovered.
Context (rs : RecoveryStore H) (ow : ObservationWriter H) (holds : InvocationID -> OutputReceipt -> H -> Prop) (up : H -> Prop).
Context (Hrec : recovery = Some rs) (Hobs : obs = Some ow).

(** A recovery store that holds a receipt once it has taken it, and goes on holding it
    during the other calls that follow. *)
Record keeps_receipts : Prop := mkKeepsReceipts {
  kr_record : forall a receipt h, (rs_RecordOutputReceipt rs a receipt h).1 = Ok tt -> holds (in_ID (ai_Invocation a)) receipt (rs_RecordOutputReceipt rs a receipt h).2;
  kr_err : forall id receipt h, holds id receipt h -> holds id receipt (ph_Err host h).2;
  kr_fence : forall id receipt id' h, holds id receipt h -> holds id receipt (ph_Fence host id' h).2;
  kr_complete : forall id receipt i h, holds id receipt h -> holds id receipt (ph_Complete host i h).2;
  kr_observe : forall id receipt p c h, holds id receipt h -> holds id receipt (ow_OutputSubmitted ow p c h).2;
  kr_clear : forall id receipt id' h, holds id receipt h -> holds id receipt (rs_ClearActiveInvocation rs id' h).2;
}.

(** While [up], the collaborators do what they are asked. *)
Record reliable : Prop := mkReliable {
  rl_alive : forall h, up h -> (ph_Err host h).1 = None /\ up (ph_Err host h).2 /\ forall id receipt, holds id receipt h -> holds id receipt (ph_Err host h).2;
  rl_found : forall id receipt h, up h -> holds id receipt h -> (rs_GetOutputReceipt rs id "" h).1 = Ok (Some receipt) /\ up (rs_GetOutputReceipt rs id "" h).2;
  rl_fence : forall id h, up h -> (ph_Fence host id h).1 = Ok tt /\ up (ph_Fence host id h).2;
  rl_complete : forall i h, up h -> (ph_Complete host i h).1 = Ok tt /\ up (ph_Complete host i h).2;
  rl_clear : forall id h, up h -> (rs_ClearActiveInvocation rs id h).1 = Ok tt /\ up (rs_ClearActiveInvocation rs id h).2;
  rl_observe : forall p c h, up h -> (ow_OutputSubmitted ow p c h).1 = Ok tt /\ up (ow_OutputSubmitted ow p c h).2;
}.

(** *** The first submission, wherever it ends *)

Section first.
Context (Hkeep : keeps_receipts) (id : InvocationID) (i : Invocation) (output : PhaseOutput) (t0 : list PhaseCall) (Hrun : in_Status i = InvocationRunning).

(** Nothing of this call is recorded yet, as of [t0]. *)
Definition unrecorded (w : W) : Prop := exists new, pw_trace w = t0 ++ new /\ forall receipt, ReceiptRecorded id receipt ∉ new.

Definition fresh (w : W) : Prop :=
  unrecorded w /\ is_invocations (pw_store w) !! id = Some i /\ forall a, ct_active (pw_ctrl w) !! id = Some a -> in_ID (ai_Invocation a) = id.

Definition matching (receipt : OutputReceipt) : Prop :=
  bool_decide (rc_OutputFingerprint receipt <> "") && bool_decide (rc_OutputFingerprint receipt <> hashOutput output) = false.

(** The receipt is recorded, and nothing else is. *)
Definition persisted (receipt : OutputReceipt) (w : W) : Prop :=
  (exists new, pw_trace w = t0 ++ new /\ forall receipt', ReceiptRecorded id receipt' ∈ new -> receipt' = receipt) /\
  holds id receipt (pw_host w) /\ matching receipt /\
  (is_invocations (pw_store w) !! id = Some i \/ is_invocations (pw_store w) !! id = Some (in_set_Status InvocationCompleted i)).

Definition first_ends (w : W) : Prop := unrecorded w \/ exists receipt, persisted receipt w.

Lemma unrecorded_app w c s h what : unrecorded w -> (forall receipt, ReceiptRecorded id receipt ∉ what) -> unrecorded (mkPhaseWorld c s h (pw_trace w ++ what)).
Proof. intros (new & Ht & Hn) Hw. exists (new ++ what). simpl. rewrite Ht, app_assoc. split; [done|]. intros receipt. rewrite elem_of_app. naive_solver. Qed.

Lemma unrecorded_calling {A} what (m : M error H A) : (forall a receipt, ReceiptRecorded id receipt ∉ what a) -> keeps unrecorded (calling what m).
Proof.
  intros Hw w Hu. unfold wp, calling. destruct (m (pw_host w)) as [[a|e] h]; simpl; apply (unrecorded_app w); try done. intros receipt. by apply not_elem_of_nil.
Qed.

Lemma unrecorded_stored {A} (m : Context -> M error InvocationStore A) : keeps unrecorded (stored host m).
Proof. intros w Hu. unfold wp, stored. destruct (ph_Err host (pw_host w)) as [ctx h]. by destruct (m ctx (pw_store w)). Qed.

Lemma unrecorded_update f : keeps unrecorded (update f).
Proof. by intros w Hu. Qed.

Lemma unrecorded_transition from to message : keeps unrecorded (transitionTo host id from to message).
Proof.
  unfold transitionTo, getInvocation. apply keeps_bind; [apply keeps_bind; [apply unrecorded_stored|]; intros [|]; by apply keeps_readonly|].
  intros j. case_bool_decide; [apply unrecorded_stored|]. case_bool_decide; by apply keeps_readonly.
Qed.

Lemma unrecorded_completed : keeps unrecorded (completedOutputReceipt host recovery obs hashOutput id output).
Proof.
  unfold completedOutputReceipt. rewrite Hrec. apply keeps_bind; [apply unrecorded_stored|]. intros [j|]; [|by apply keeps_readonly].
  destruct (_ && _); [by apply keeps_readonly|]. apply keeps_bind; [apply unrecorded_calling; intros [r|] receipt; set_solver|].
  intros [r|]; [|by apply keeps_readonly]. apply keeps_guard. intros _ _. apply keeps_guard. intros command _.
  apply keeps_bind; [|intros a; unfold recordOutputSubmitted, observing; rewrite Hobs; apply keeps_bind; [apply unrecorded_calling; set_solver|]; intros _;
    apply keeps_bind; [apply unrecorded_calling; set_solver|]; intros _; apply keeps_bind; [apply unrecorded_update|]; intros _; by apply keeps_readonly].
  case_bool_decide; [|by apply keeps_readonly]. apply keeps_bind; [apply unrecorded_calling; set_solver|]. intros _.
  apply keeps_bind; [apply unrecorded_calling; set_solver|]. intros _. apply keeps_bind; [apply unrecorded_transition|]. intros _. by apply keeps_readonly.
Qed.

Lemma fresh_call {A} (m : M error H A) : keeps fresh (call m).
Proof.
  intros w (Hu & Hi & Ha). pose proof (unrecorded_calling (fun _ : A => []) m ltac:(set_solver) w Hu) as Hw. unfold wp in *. unfold call in *. unfold calling in *.
  destruct (m (pw_host w)) as [r h]. by split_and!.
Qed.

Lemma fresh_routeAll active refs : keeps fresh (routeAll host active refs).
Proof.
  induction refs as [|ref refs IH]; simpl; [by apply keeps_readonly|]. apply keeps_bind; [apply fresh_call|]. intros routed. apply keeps_bind; [apply IH|]. intros. by apply keeps_readonly.
Qed.

Lemma matching_new active o now : matching (newReceipt active o (hashOutput output) now).
Proof. unfold matching. simpl. rewrite andb_comm, bool_decide_eq_false_2; [done|]. by intros []. Qed.

Lemma wp_pending active now w : fresh w ->
  wp (pendingOrRouteReceipt host hashOutput active output now) (fun r w' => fresh w' /\ match r with Ok receipt => matching receipt | Err _ => True end) w.
Proof.
  assert (forall w receipt, fresh w -> wp (lift (samePending receipt (hashOutput output)))
    (fun r w' => fresh w' /\ match r with Ok receipt => matching receipt | Err _ => True end) w) as Hsame.
  { intros w' receipt Hw. apply wp_lift. split; [done|]. unfold samePending. destruct (fail_if _ _) eqn:Hf; simpl; [|done]. by apply fail_if_Ok in Hf. }
  intros Hw. unfold pendingOrRouteReceipt. apply wp_ctrl. destruct (ct_pending (pw_ctrl w) !! _); [by apply Hsame|].
  apply wp_bind. eapply wp_mono; [by apply fresh_routeAll|]. intros [deliveries|e] w1 H1; [|done]. apply wp_bind. eapply wp_mono; [by apply fresh_call|].
  intros [report|e] w2 H2; [|done]. apply wp_bind. eapply wp_mono; [by apply fresh_routeAll|]. intros [evidence|e] w3 H3; [|done].
  apply wp_ctrl. destruct (ct_pending (pw_ctrl w3) !! _); [by apply Hsame|]. apply wp_bind. unfold update. split; [|apply matching_new].
  destruct H3 as (Hu & Hi & Ha). by split_and!.
Qed.

Lemma persisted_calling receipt {A} what (m : M error H A) : (forall a receipt, ReceiptRecorded id receipt ∉ what a) ->
  (forall h, holds id receipt h -> holds id receipt (m h).2) -> keeps (persisted receipt) (calling what m).
Proof.
  intros Hw Hm w ((new & Ht & Hn) & Hh & Hmt & Hs). unfold wp, calling. specialize (Hm _ Hh). destruct (m (pw_host w)) as [r h]. simpl in *.
  split_and!; [|done..]. exists (new ++ match r with Ok a => what a | Err _ => [] end). simpl. rewrite Ht, app_assoc. split; [done|].
  intros receipt' [?|Hin]%elem_of_app; [by apply Hn|]. destruct r as [a|e]; [by apply Hw in Hin|by apply not_elem_of_nil in Hin].
Qed.

Lemma persisted_completed receipt : keeps (persisted receipt) (transitionToCompleted host id).
Proof.
  intros [c s h t] (Hnew & Hh & Hm & Hs). simpl in Hh, Hs. unfold transitionToCompleted, transitionTo, getInvocation.
  assert (forall h', holds id receipt h' -> persisted receipt (mkPhaseWorld c s h' t)) as Hsame by (intros h' Hh'; by split_and!).
  unfold wp, mbind, M_bind, stored. simpl. pose proof (kr_err Hkeep _ _ _ Hh) as He. destruct (ph_Err host h) as [ctx h1]. simpl in He. unfold inv_Get, lift, mbind, M_bind, get_state, mret, M_ret.
  destruct (ctx_Err ctx); simpl; [|by apply Hsame]. destruct (is_invocations s !! id) as [j|] eqn:Hj; simpl; [|by apply Hsame].
  case_bool_decide as Hst; [|case_bool_decide; by apply Hsame]. pose proof (kr_err Hkeep _ _ _ He) as He2. simpl. destruct (ph_Err host h1) as [ctx2 h2]. simpl in He2.
  assert (wp (inv_Transition ctx2 id (in_Status j) InvocationCompleted) (fun _ s' => persisted receipt (mkPhaseWorld c s' h2 t)) s) as Hwp.
  { apply wp_inv_Transition; [intros; by apply Hsame|]. intros j' Hj' _ _. assert (j' = i) as ->.
    { rewrite Hj' in Hj. injection Hj as ->. destruct Hs as [Hs|Hs]; injection Hs as ->; [done|]. apply list_elem_of_singleton in Hst. done. }
    split_and!; [done..|]. right. apply lookup_moved_status. }
  unfold wp in Hwp. by destruct (inv_Transition _ _ _ _ s).
Qed.

Lemma persisted_finish receipt active commandID lease : keeps (persisted receipt)
  (_ ← wrapping "phase output capability fencing" (fence host id); _ ← wrapping "phase output lifecycle completion" (completeLife host (ai_Invocation active));
   _ ← wrapping "phase output invocation completion" (transitionToCompleted host id); _ ← wrapping "phase output observation persistence" (recordOutputSubmitted obs active);
   _ ← wrapping "phase output recovery cleanup" (clearActive recovery id); _ ← settleReceipt id receipt commandID lease; mret receipt).
Proof.
  assert (forall {A} message (m : M error W A), keeps (persisted receipt) m -> keeps (persisted receipt) (wrapping message m)) as Hwrap.
  { intros A message m Hm. apply keeps_catch; [done|]. intros e. by apply keeps_readonly. }
  apply keeps_bind; [apply Hwrap, persisted_calling; [set_solver|apply (kr_fence Hkeep)]|]. intros _.
  apply keeps_bind; [apply Hwrap, persisted_calling; [set_solver|apply (kr_complete Hkeep)]|]. intros _.
  apply keeps_bind; [apply Hwrap, persisted_completed|]. intros _.
  apply keeps_bind; [apply Hwrap; unfold recordOutputSubmitted, observing; rewrite Hobs; apply persisted_calling; [set_solver|apply (kr_observe Hkeep)]|]. intros _.
  apply keeps_bind; [apply Hwrap; unfold clearActive, recovering; rewrite Hrec; apply persisted_calling; [set_solver|apply (kr_clear Hkeep)]|]. intros _.
  apply keeps_bind; [by intros w Hw|]. intros _. by apply keeps_readonly.
Qed.

Lemma wp_record active receipt w : fresh w -> matching receipt -> in_ID (ai_Invocation active) = id ->
  wp (calling (fun _ => [ReceiptRecorded id receipt]) (rs_RecordOutputReceipt rs active receipt))
    (fun r w' => match r with Ok _ => persisted receipt w' | Err _ => unrecorded w' end) w.
Proof.
  intros ((new & Ht & Hn) & Hi & _) Hm Hid. unfold wp, calling. pose proof (kr_record Hkeep active receipt (pw_host w)) as Hr. rewrite Hid in Hr.
  destruct (rs_RecordOutputReceipt rs active receipt (pw_host w)) as [[[]|e] h]; simpl in *.
  - split_and!; [|by apply Hr|done|by left]. exists (new ++ [ReceiptRecorded id receipt]). simpl. rewrite Ht, app_assoc. split; [done|].
    intros receipt' [Hin|Hin]%elem_of_app; [by apply Hn in Hin|]. apply list_elem_of_singleton in Hin. congruence.
  - exists new. simpl. by rewrite app_nil_r.
Qed.

Lemma wp_submitActive active now w : fresh w -> in_ID (ai_Invocation active) = id ->
  wp (submitActive host recovery obs hashOutput id output now active) (fun _ w' => first_ends w') w.
Proof.
  intros Hw Hid. unfold submitActive, wrapping at 1 2 3 4.
  apply wp_bind, wp_catch. eapply wp_mono; [by apply fresh_call|]. intros [refreshed|e] w1 H1; [|left; apply H1].
  apply wp_bind, wp_catch, wp_lift. destruct (validateBindingForActive refreshed active); [|left; apply H1].
  apply wp_bind, wp_catch, wp_lift. destruct (validatePhaseOutput _ output); [|left; apply H1].
  apply wp_bind, wp_catch. eapply wp_mono; [by apply wp_pending|]. intros [receipt|e] w2 [H2 Hm]; [|left; apply H2].
  apply wp_bind. unfold recovering at 1. rewrite Hrec at 1. unfold wrapping at 1. apply wp_catch. eapply wp_mono; [by apply wp_record|].
  intros [_|e] w3 H3; [|by left]. eapply wp_mono; [by apply (persisted_finish receipt (ai_set_Binding refreshed active))|].
  intros ? w4 H4. right. by exists receipt.
Qed.

Lemma wp_first_orCompleted k w : fresh w -> (forall a, in_ID (ai_Invocation a) = id -> wp (k a) (fun _ w' => first_ends w') w) ->
  wp (orCompleted host recovery obs hashOutput id output k) (fun _ w' => first_ends w') w.
Proof.
  intros Hw Hk. pose proof Hw as (Hu & _ & Ha). unfold wp, orCompleted, activeInvocation, ctrl, get_state, mbind, M_bind, mret, M_ret, throw. simpl.
  destruct (ct_active (pw_ctrl w) !! id) as [a|] eqn:Hact; [destruct (ai_Revoked a)|].
  - left. by apply unrecorded_completed.
  - apply Hk. by apply Ha.
  - left. by apply unrecorded_completed.
Qed.

Lemma wp_first now w : fresh w -> wp (SubmitPhaseOutput host recovery obs hashOutput id output now) (fun _ w' => first_ends w') w.
Proof.
  intros Hw. unfold SubmitPhaseOutput. apply wp_first_orCompleted; [done|]. intros _ _. unfold terminally, lockTerminal. apply wp_bind, wp_ctrl.
  case_bool_decide; [left; apply Hw|]. unfold update, wp at 1. simpl. apply wp_deferring. set (w1 := mkPhaseWorld _ _ _ _). assert (fresh w1) as H1 by apply Hw.
  eapply wp_mono; [apply wp_first_orCompleted; [done|]; intros a Ha; by apply wp_submitActive|]. intros ? w2 H2. apply H2.
Qed.

End first.

(** *** The second submission *)

Lemma wp_calling_up {A} what (m : M error H A) a (Q : res A -> W -> Prop) c s h t : (m h).1 = Ok a /\ up (m h).2 ->
  (forall h', up h' -> Q (Ok a) (mkPhaseWorld c s h' (t ++ what a))) -> wp (calling what m) Q (mkPhaseWorld c s h t).
Proof. intros [Hm Hu] HQ. unfold wp, calling. simpl. destruct (m h) as [r h']. simpl in *. subst r. by apply HQ. Qed.

Lemma wp_stored_up {A} (m : Context -> M error InvocationStore A) (Q : res A -> W -> Prop) c s h t : reliable -> up h ->
  (forall h', up h' -> (forall id receipt, holds id receipt h -> holds id receipt h') -> wp (m None) (fun r s' => Q r (mkPhaseWorld c s' h' t)) s) ->
  wp (stored host m) Q (mkPhaseWorld c s h t).
Proof.
  intros Hrl Hu Hm. unfold wp, stored. simpl. destruct (rl_alive Hrl h Hu) as (He & Hu' & Hh). destruct (ph_Err host h) as [ctx h']. simpl in *. subst ctx.
  specialize (Hm h' Hu' Hh). unfold wp in Hm. by destruct (m None s).
Qed.

Lemma wp_completed_up id i (Q : res unit -> W -> Prop) c s h t : reliable -> up h -> is_invocations s !! id = Some i ->
  in_Status i = InvocationRunning -> (forall h', up h' -> Q (Ok tt) (mkPhaseWorld c (moved id i InvocationCompleted s) h' t)) ->
  wp (transitionToCompleted host id) Q (mkPhaseWorld c s h t).
Proof.
  intros Hrl Hu Hi Hst HQ. unfold transitionToCompleted, transitionTo, getInvocation. apply wp_bind, wp_bind, wp_stored_up; [done|done|]. intros h1 Hu1 _.
  unfold inv_Get, wp. simpl. rewrite Hi. simpl. rewrite bool_decide_eq_true_2 by (rewrite Hst; set_solver). rewrite Hst.
  apply wp_stored_up; [done|done|]. intros h2 Hu2 _. unfold inv_Transition. apply wp_guard; [done|]. intros _ _. apply wp_guard; [done|]. intros _ _.
  apply wp_get. rewrite Hi. apply wp_guard; [intros e Hne; by rewrite Hst in Hne|]. intros _ _. by apply HQ.
Qed.

(** The end of an output, from the report on. *)
Lemma wp_report_output id a receipt commandID lease Q c s h t : reliable -> up h ->
  (forall h' c', ct_receipts c' !! id = Some receipt ->
     Q (Ok receipt) (mkPhaseWorld c' s h' (t ++ [ObservedOutput (in_ID (ai_Invocation a)) (in_ProjectID (ai_Invocation a)) (ai_Command a)]))) ->
  wp (_ ← recordOutputSubmitted obs a; _ ← call (rs_ClearActiveInvocation rs id); _ ← settleReceipt id receipt commandID lease; mret receipt) Q
    (mkPhaseWorld c s h t).
Proof.
  intros Hrl Hu HQ. unfold recordOutputSubmitted, observing. rewrite Hobs. apply wp_bind. apply (wp_calling_up _ _ tt); [by apply (rl_observe Hrl)|]. intros h1 Hu1.
  apply wp_bind. apply (wp_calling_up _ _ tt); [by apply (rl_clear Hrl)|].
  intros h2 _. rewrite app_nil_r. apply wp_modify. apply HQ. simpl. by rewrite lookup_insert_eq.
Qed.

Definition completed_with (id : InvocationID) (i : Invocation) (receipt : OutputReceipt) (command : PhaseCommand) (w : W) : Prop :=
  is_invocations (pw_store w) !! id = Some (in_set_Status InvocationCompleted i) /\
  ObservedOutput id (in_ProjectID i) command ∈ pw_trace w /\ ct_receipts (pw_ctrl w) !! id = Some receipt.

Lemma wp_found id i output receipt command c s h t : reliable -> up h -> holds id receipt h -> in_ID i = id -> is_invocations s !! id = Some i ->
  in_Status i ∈ [InvocationRunning; InvocationCompleted] -> matching output receipt -> commandFromOutputReceipt receipt = Ok command ->
  wp (completedOutputReceipt host recovery obs hashOutput id output) (fun r w => r = Ok receipt /\ completed_with id i receipt command w) (mkPhaseWorld c s h t).
Proof.
  intros Hrl Hu Hh Hid Hi Hst Hm Hcmd. unfold completedOutputReceipt. rewrite Hrec. apply wp_bind, wp_stored_up; [done|done|]. intros h1 Hu1 Hk1.
  unfold inv_Get, wp. simpl. rewrite Hi.
  assert (bool_decide (in_Status i <> InvocationRunning) && bool_decide (in_Status i <> InvocationCompleted) = false) as -> by
    (apply not_true_iff_false; intros [?%bool_decide_eq_true_1 ?%bool_decide_eq_true_1]%andb_true_iff; set_solver).
  apply wp_bind. apply (wp_calling_up _ _ (Some receipt)); [apply (rl_found Hrl); [done|by apply Hk1]|]. intros h2 Hu2. unfold matching in Hm. rewrite Hm, Hcmd.
  apply wp_bind. apply wp_lift. simpl. apply wp_bind, wp_lift. apply wp_bind. clear Hm. case_bool_decide as Hrun.
  - apply wp_bind. apply (wp_calling_up _ _ tt); [by apply (rl_fence Hrl)|]. intros h3 Hu3. apply wp_bind. apply (wp_calling_up _ _ tt); [by apply (rl_complete Hrl)|].
    intros h4 Hu4. apply wp_bind. apply (wp_completed_up id i); [done..|]. intros h5 Hu5. apply wp_ret. apply wp_report_output; [done|done|].
    intros h6 c6 Hc6. split; [done|]. split_and!; [apply lookup_moved_status|apply elem_of_app; right; simpl; rewrite Hid; by left|done].
  - apply wp_ret. apply wp_report_output; [done|done|]. intros h6 c6 Hc6. assert (in_Status i = InvocationCompleted) as Heq by set_solver. split; [done|].
    split_and!; [simpl; by rewrite <- Heq, in_set_Status_id|apply elem_of_app; right; simpl; rewrite Hid; by left|done].
Qed.

(** C12: An output whose receipt is persisted is not lost.  Let a call of
    [SubmitPhaseOutput] for a running invocation persist a receipt and then end in any
    way: each collaborator may fail from any call on, so the call may end at any point
    after the receipt.  Then, with the process restarted on the same invocation store
    and collaborators that work again, submitting the same output once more completes the invocation, reports it
    for the command of the receipt, and answers with the receipt.  The recovery store
    is relied on to hold a receipt that it has accepted; the receipt is one that names
    its command. *)
Theorem output_recovered w ws id i output now r w1 new receipt command h2 now' : keeps_receipts -> reliable ->
  reachable w ws -> is_invocations (pw_store w) !! id = Some i -> in_Status i = InvocationRunning ->
  SubmitPhaseOutput host recovery obs hashOutput id output now w = (r, w1) -> pw_trace w1 = pw_trace w ++ new -> ReceiptRecorded id receipt ∈ new ->
  commandFromOutputReceipt receipt = Ok command -> up h2 -> (holds id receipt (pw_host w1) -> holds id receipt h2) ->
  exists w3, SubmitPhaseOutput host recovery obs hashOutput id output now' (mkPhaseWorld NewController (pw_store w1) h2 (pw_trace w1)) = (Ok receipt, w3) /\
    completed_with id i receipt command w3.
Proof.
  intros Hkeep Hrl Hr Hi Hst Hsub Ht Hin Hcmd Hu Hh. pose proof (reachable_sound _ _ _ _ _ _ _ _ _ _ _ _ _ Hr) as [Hs _].
  pose proof (so_keys _ _ _ _ _ _ Hs id i Hi) as Hid.
  assert (fresh id i (pw_trace w) w) as Hf.
  { split_and!; [|done|intros a Ha; by apply (so_active _ _ _ _ _ _ Hs)]. exists []. rewrite app_nil_r. split; [done|]. intros. apply not_elem_of_nil. }
  pose proof (wp_run _ _ _ _ _ (wp_first Hkeep id i output (pw_trace w) Hst now w Hf) Hsub) as [(new' & Ht' & Hn)|(receipt' & (new' & Ht' & Hn) & Hh' & Hm & Hs')];
    rewrite Ht in Ht'; apply app_inv_head in Ht' as <-; [by apply Hn in Hin|]. apply Hn in Hin as <-.
  assert (exists j, is_invocations (pw_store w1) !! id = Some j /\ in_ID j = id /\ in_Status j ∈ [InvocationRunning; InvocationCompleted] /\ in_ProjectID j = in_ProjectID i /\
    in_set_Status InvocationCompleted j = in_set_Status InvocationCompleted i) as (j & Hj & Hjid & Hjst & Hjp & Hje).
  { destruct Hs' as [Hs'|Hs']; eexists; (split_and!; [exact Hs'|done| |done|done]); simpl; rewrite ?Hst; set_solver. }
  pose proof (wp_found id j output receipt command NewController (pw_store w1) h2 (pw_trace w1) Hrl Hu (Hh Hh') Hjid Hj Hjst Hm Hcmd) as (Hok & Hdone).
  exists (completedOutputReceipt host recovery obs hashOutput id output (mkPhaseWorld NewController (pw_store w1) h2 (pw_trace w1))).2. split.
  - unfold SubmitPhaseOutput, orCompleted at 1, activeInvocation, ctrl, get_state, mbind, M_bind, mret, M_ret, throw. simpl. rewrite lookup_empty. simpl.
    by rewrite (surjective_pairing (completedOutputReceipt _ _ _ _ _ _ _)), Hok.
  - destruct Hdone as (H1 & H2 & H3). unfold completed_with. by rewrite <- Hje, <- Hjp.
Qed.

End recovered.

End with_runtime.

(** ** A sample *)

Module PhaseSample.
#[local] Existing Instance GoRuntime_list.

(** What the collaborators remember: the receipts, and whether the recovery store
    refuses to clear. *)
Record memory := mkMemory {
  me_receipts : gmap InvocationID OutputReceipt;
  me_stuck : bool;
}.

Definition started : PhaseCommand := mkCommand "cmd-1" (mkRef "t1" "plan") 1 "b1" "l1" CommandStart "cause".
Definition stopped : PhaseCommand := mkCommand "cmd-2" (mkRef "t1" "plan") 1 "b1" "l1" CommandStop "cause".

Definition snapshot (c : PhaseCommand) : BindingSnapshot :=
  mkSnapshot "p1" "actor" (ref_TaskID (cmd_Endpoint c)) (ref_EndpointID (cmd_Endpoint c)) (cmd_Generation c) (cmd_BindingRef c) (cmd_LeaseRef c)
    "ws1" "rev1" "" "" "" "" "" "" "" (mkInputSet "1" [] [] []) "" false.

Definition sample_host : PhaseHost memory :=
  mkPhaseHost memory (fun h => (None, h)) (fun c h => (Ok (snapshot c), h)) (fun a h => (Ok (snapshot (ai_Command a)), h))
    (fun _ _ h => (Ok (mkWaitResult "2" None None ""), h)) (fun _ ref h => (Ok ref, h)) (fun _ h => (Ok tt, h)) (fun _ h => (Ok tt, h))
    (fun _ h => (Ok tt, h)) (fun _ h => (Ok (mkStopResult "" "" "" true), h)) (fun _ h => (Ok tt, h)) (fun _ h => (Ok tt, h))
    (fun _ h => (Ok tt, h)) (fun _ h => (Ok tt, h)).

Definition sample_recovery : RecoveryStore memory :=
  mkRecovery memory (fun _ h => (Ok tt, h)) (fun _ _ h => (Ok None, h))
    (fun a r h => (Ok tt, mkMemory (<[in_ID (ai_Invocation a) := r]> (me_receipts h)) (me_stuck h)))
    (fun id _ h => (Ok (me_receipts h !! id), h)) (fun _ _ _ h => (Ok tt, h)) (fun _ _ h => (Ok None, h))
    (fun _ h => (if me_stuck h then Err (OtherError "connection refused") else Ok tt, h)) (fun _ _ h => (Ok tt, h)).

Definition sample_writer : ObservationWriter memory :=
  mkObservationWriter memory (fun _ _ h => (Ok tt, h)) (fun _ _ h => (Ok tt, h)) (fun _ _ h => (Ok tt, h)) (fun _ _ _ _ h => (Ok tt, h)).

Definition sample_skill (id : string) (tools : list Tool) : Skill := mkSkill id "d" [] tools "body" "h".

Definition sample_catalog : Catalog :=
  mkCatalog (list_to_map [("shared", mkAsset "shared" "s" "h"); ("planner", mkAsset "planner" "p" "h")])
    (list_to_map ((fun id => (id, sample_skill id (if bool_decide (id = "phase-submit") then [ToolAgentSubmitPhaseOutput] else []))) <$> requiredSkills))
    (ToolSet [ToolAgentSubmitPhaseOutput; ToolWorkspaceRead]).

Definition hashC (c : PhaseCommand) : string := cmd_ID c +:+ cmd_BindingRef c.
Definition hashO (o : PhaseOutput) : string := po_Phase o.

Definition apply_sample := Apply sample_host (Some sample_recovery) (Some sample_writer) sample_catalog id (fun _ => "") hashC (fun _ => "") (fun _ => "") 3600.
Definition submit_sample := SubmitPhaseOutput sample_host (Some sample_recovery) (Some sample_writer) hashO.
Definition step_sample := phase_step sample_host (Some sample_recovery) (Some sample_writer) sample_catalog id (fun _ => "") hashC hashO (fun _ => "") (fun _ => "") 3600.
Definition reachable_sample :=
  phase_reachable sample_host (Some sample_recovery) (Some sample_writer) sample_catalog id (fun _ => "") hashC hashO (fun _ => "") (fun _ => "") 3600.

Definition before : PhaseWorld memory := initialWorld (mkMemory ∅ false).
Definition running : PhaseWorld memory := (apply_sample started 10 before).2.
Definition inv1 : InvocationID := "inv_cmd-1".
Definition output1 : PhaseOutput := mkPhaseOutput "plan" ["d1"] "r1" [].
Definition finished : PhaseWorld memory := (submit_sample inv1 output1 20 running).2.

Lemma running_reachable : reachable_sample running [].
Proof. exists (mkMemory ∅ false). eapply rtc_l; [|apply rtc_refl]. apply step_call, (step_apply _ _ _ _ _ _ _ _ _ _ _ started 10). Qed.

Lemma finished_reachable : reachable_sample finished [].
Proof.
  destruct running_reachable as (h & Hr). exists h. eapply rtc_r; [exact Hr|]. apply step_call, (step_submit _ _ _ _ _ _ _ _ _ _ _ inv1 output1 20).
Qed.

Lemma phase_reports_backed_witness :
  backed (Some sample_recovery) sample_catalog id (take 5 (pw_trace finished)) (ObservedOutput inv1 "p1" started).
Proof.
  refine (proj1 (phase_reports_backed sample_host (Some sample_recovery) (Some sample_writer) sample_catalog id (fun _ => "") hashC hashO (fun _ => "") (fun _ => "")
    3600 finished [] _) (take 5 (pw_trace finished)) (ObservedOutput inv1 "p1" started) [] _).
  - exact finished_reachable.
  - vm_compute. reflexivity.
Defined.

Definition restarted : PhaseWorld memory := mkPhaseWorld NewController (pw_store finished) (pw_host finished) (pw_trace finished).

Lemma invocation_outcome_final_witness : exists i status, is_invocations (pw_store finished) !! inv1 = Some i /\
  is_invocations (pw_store restarted) !! inv1 = Some (in_set_Status status i) /\ status = InvocationCompleted.
Proof.
  destruct (invocation_outcome_final sample_host (Some sample_recovery) (Some sample_writer) sample_catalog id (fun _ => "") hashC hashO (fun _ => "") (fun _ => "")
    3600 finished [] restarted []) as [_ Hf].
  - exact finished_reachable.
  - eapply rtc_l; [|apply rtc_refl]. apply (step_restart _ _ _ _ _ _ _ _ _ _ _ finished []).
  - destruct (is_invocations (pw_store finished) !! inv1) as [i|] eqn:Hi; [|vm_compute in Hi; discriminate Hi].
    destruct (Hf inv1 i Hi) as (status & Hs & _ & Ht). exists i, status. split; [reflexivity|]. split; [exact Hs|].
    assert (in_Status i = InvocationCompleted) as Hc by (vm_compute in Hi; injection Hi as <-; reflexivity).
    rewrite <- Hc. apply Ht. unfold terminal. rewrite Hc. right. left.
Defined.

Lemma command_applied_once_witness : apply_sample started 30 finished = (Ok tt, finished).
Proof.
  refine (proj1 (command_applied_once sample_host (Some sample_recovery) (Some sample_writer) sample_catalog id (fun _ => "") hashC hashO (fun _ => "") (fun _ => "")
    3600 started 10 before [] running [] finished [] _ _ _) 30%Z).
  - exists (mkMemory ∅ false). apply rtc_refl.
  - vm_compute. reflexivity.
  - eapply rtc_l; [|apply rtc_refl]. apply (step_submit _ _ _ _ _ _ _ _ _ _ _ inv1 output1 20).
Defined.

Lemma controller_never_blocks_witness : exists w', lockTerminal inv1 finished = (Ok tt, w').
Proof.
  refine (proj2 (controller_never_blocks sample_host (Some sample_recovery) (Some sample_writer) sample_catalog id (fun _ => "") hashC hashO (fun _ => "") (fun _ => "")
    3600 finished [] inv1 "" _)).
  exact finished_reachable.
Defined.

(** A host whose sandbox cannot be completed while it is stuck: the submission persists
    its receipt and then fails, with the invocation left running. *)
Definition failing_host : PhaseHost memory :=
  mkPhaseHost memory (fun h => (None, h)) (fun c h => (Ok (snapshot c), h)) (fun a h => (Ok (snapshot (ai_Command a)), h))
    (fun _ _ h => (Ok (mkWaitResult "2" None None ""), h)) (fun _ ref h => (Ok ref, h)) (fun _ h => (Ok tt, h)) (fun _ h => (Ok tt, h))
    (fun _ h => (Ok tt, h)) (fun _ h => (Ok (mkStopResult "" "" "" true), h)) (fun _ h => (Ok tt, h)) (fun _ h => (Ok tt, h))
    (fun _ h => (if me_stuck h then Err (OtherError "connection refused") else Ok tt, h)) (fun _ h => (Ok tt, h)).

Definition receipt1 : OutputReceipt := mkReceipt output1 inv1 "cmd-1" CommandStart "cause" (mkRef "t1" "plan") 1 "b1" "l1" "1" "ws1" "rev1" "plan" 20.
Definition stuck_running : PhaseWorld memory :=
  (Apply failing_host (Some sample_recovery) (Some sample_writer) sample_catalog id (fun _ => "") hashC (fun _ => "") (fun _ => "") 3600 started 10
     (initialWorld (mkMemory ∅ true))).2.
Definition failed_submit := SubmitPhaseOutput failing_host (Some sample_recovery) (Some sample_writer) hashO inv1 output1 20 stuck_running.
Definition mended : memory := mkMemory (me_receipts (pw_host failed_submit.2)) false.
Definition holding (id : InvocationID) (receipt : OutputReceipt) (h : memory) : Prop := me_receipts h !! id = Some receipt.

Lemma sample_keeps_receipts : keeps_receipts failing_host sample_recovery sample_writer holding.
Proof. split; try done. intros a receipt h _. apply lookup_insert_eq. Qed.

Lemma sample_reliable : reliable failing_host sample_recovery sample_writer holding (fun h => me_stuck h = false).
Proof.
  split; simpl; try done; [|by intros _ h ->..]. intros id receipt h Hu Hh. unfold holding in Hh. by rewrite Hh.
Qed.

Lemma output_recovered_witness : exists w',
  SubmitPhaseOutput failing_host (Some sample_recovery) (Some sample_writer) hashO inv1 output1 40
    (mkPhaseWorld NewController (pw_store failed_submit.2) mended (pw_trace failed_submit.2)) = (Ok receipt1, w') /\
  ObservedOutput inv1 "p1" started ∈ pw_trace w'.
Proof.
  destruct (is_invocations (pw_store stuck_running) !! inv1) as [i|] eqn:Hi; [|vm_compute in Hi; discriminate Hi].
  destruct (output_recovered failing_host (Some sample_recovery) (Some sample_writer) sample_catalog id (fun _ => "") hashC hashO (fun _ => "") (fun _ => "")
    3600 sample_recovery sample_writer holding (fun h => me_stuck h = false) eq_refl eq_refl
    stuck_running [] inv1 i output1 20 failed_submit.1 failed_submit.2 (drop (length (pw_trace stuck_running)) (pw_trace failed_submit.2)) receipt1 started mended 40)
    as (w' & Hs & _ & Ho & _).
  - exact sample_keeps_receipts.
  - exact sample_reliable.
  - exists (mkMemory ∅ true). eapply rtc_l; [|apply rtc_refl]. apply step_call, (step_apply _ _ _ _ _ _ _ _ _ _ _ started 10).
  - exact Hi.
  - vm_compute in Hi. injection Hi as <-. reflexivity.
  - apply surjective_pairing.
  - vm_compute. reflexivity.
  - apply list_elem_of_In. vm_compute. tauto.
  - reflexivity.
  - reflexivity.
  - done.
  - exists w'. split; [exact Hs|]. replace "p1" with (in_ProjectID i); [exact Ho|]. vm_compute in Hi. injection Hi as <-. reflexivity.
Defined.

End PhaseSample.
