(* ===== verification/TaskManager.v ===== *)
(** * The Task Manager application

    [taskmanager/app.go]: requirements, decisions of the manager agent, stopped
    phases and deliveries become decisions, graph writes and replies.  The graph, the
    decision store, the contract store, the context projector, the reply recorder and
    the memory finalizer are interfaces over a state [S]; [mg_trace] records what
    they have done, in order. *)

From stdpp Require Import base tactics option list strings gmap.
From Stdlib Require Import ZArith.
From S2P Require Import Prelude GoLib GoStrings Kernel CoordTypes.

(** ** Data *)

Definition DeliveryPolicyNonCodeArtifact : string := "non_code_artifact".
Definition DeliveryPolicyCodeMerge : string := "code_merge".
Definition DeliveryPolicyHumanAcceptance : string := "human_acceptance".
Definition DeliveryPolicyExternalDelivery : string := "external_delivery".

Definition ReplyAccepted : string := "accepted".
Definition ReplyRejected : string := "rejected".
Definition ReplyConflict : string := "conflict".
Definition ReplyDeferred : string := "deferred".

Definition DecisionKindReplacePending : string := "replace_pending".
Definition DecisionKindTransition : string := "transition".
Definition DecisionKindTerminal : string := "terminal".

Record Requirement := mkRequirementText {
  rq_Text : string;
  rq_Goal : string;
  rq_Constraints : list string;
  rq_EvidenceRefs : list string;
}.

Record RequirementInput := mkRequirementInput {
  ri_InputRef : string;
  ri_TaskID : TaskID;
  ri_ContractRef : string;
  ri_Requirement : Requirement;
}.

Record ManagerDecisionInput := mkManagerInput {
  mi_InputRef : string;
  mi_Endpoint : PhaseEndpointRef;
  mi_SeenRevision : Revision;
}.

Record Replacement := mkReplacement {
  rp_Endpoints : list PhaseEndpoint;
  rp_Edges : list Edge;
  rp_Blockers : list Blocker;
}.

Record PhaseStoppedInput := mkStoppedInput {
  si_InputRef : string;
  si_Endpoint : PhaseEndpointRef;
  si_CommandID : string;
  si_LeaseRef : LeaseID;
  si_Generation : Z;
  si_EvidenceRefs : list string;
  si_CheckpointRef : string;
  si_NonResumable : bool;
  si_NewBindingRef : BindingRef;
  si_NewSpecRef : string;
  si_Replacement : Replacement;
  si_ReleaseAfterReplace : bool;
}.

Record DeliveryEvidence := mkDeliveryEvidence {
  dv_ArtifactRefs : list string;
  dv_EvidenceRefs : list string;
  dv_ExternalDelivered : bool;
  dv_HumanAccepted : bool;
  dv_LatestMainVerified : bool;
  dv_MergeSucceeded : bool;
  dv_MergeCommitRef : string;
}.

Record DeliveryInput := mkDeliveryInput {
  di_InputRef : string;
  di_TaskID : TaskID;
  di_Evidence : DeliveryEvidence;
}.

Record TaskManagerDecision := mkManagerDecision {
  md_Action : string;
  md_TargetRef : string;
  md_EvidenceRefs : list string;
  md_Reason : string;
}.

Record DecisionSubmission := mkSubmission {
  su_ProjectID : ProjectID;
  su_InputRef : string;
  su_ExpectedRevision : Revision;
  su_Decision : TaskManagerDecision;
  su_Kind : string;
  su_Transition : GraphTransition;
}.

Record TaskContract := mkContract {
  co_TaskID : TaskID;
  co_ContractRef : string;
  co_DeliveryPolicy : string;
  co_PhaseSpecs : gmap EndpointID string;
}.

Record ProjectionRequest := mkProjectionRequest {
  pq_ProjectionID : string;
  pq_TaskID : TaskID;
  pq_SourceRevision : Revision;
  pq_Requirement : Requirement;
}.

Record ManagerReplyEvent := mkReply {
  ry_InputRef : string;
  ry_Status : string;
  ry_DecisionRef : string;
  ry_GraphRevision : Revision;
  ry_Reason : string;
}.

Record Result := mkManagerResult {
  mr_InputRef : string;
  mr_Status : string;
  mr_DecisionRef : string;
  mr_GraphRevision : Revision;
}.

Definition noTransition : GraphTransition := mkTransition "" zeroRef "" "" "" 0 zeroResult "" "" "" "" "" false [].

(** ** The collaborators *)

Record TaskContextProjector (S : Type) := mkProjector {
  tc_RegisterTaskSubgraph : TaskID -> M error S unit;
  tc_EnqueueProjection : ProjectionRequest -> M error S unit;
  tc_RetryProjection : string -> M error S unit;
}.
Arguments tc_RegisterTaskSubgraph {S}.
Arguments tc_EnqueueProjection {S}.
Arguments tc_RetryProjection {S}.

Record Options (S : Type) := mkOptions {
  op_Snapshot : Revision -> M error S GraphSnapshot;
  op_ReplacePending : PendingSubgraph -> M error S Revision;
  op_Transition : Revision -> string -> M error S Revision;
  op_SubmitDecision : DecisionSubmission -> M error S string;
  op_ResolveRequirementContract : RequirementInput -> M error S TaskContract;
  op_TaskContract : TaskID -> M error S TaskContract;
  op_TaskContext : option (TaskContextProjector S);
  op_Replies : option (ManagerReplyEvent -> M error S unit);
  op_MemoryFinalize : option (TaskID -> string -> M error S unit);
}.
Arguments op_Snapshot {S}.
Arguments op_ReplacePending {S}.
Arguments op_Transition {S}.
Arguments op_SubmitDecision {S}.
Arguments op_ResolveRequirementContract {S}.
Arguments op_TaskContract {S}.
Arguments op_TaskContext {S}.
Arguments op_Replies {S}.
Arguments op_MemoryFinalize {S}.

(** What a collaborator has done. *)
Inductive ManagerCall :=
| Saw (snapshot : GraphSnapshot)
| ContractRead (task : TaskID) (contract : TaskContract)
| ContractResolved (input : RequirementInput) (contract : TaskContract)
| Decided (submission : DecisionSubmission) (ref : string)
| Replaced (subgraph : PendingSubgraph)
| Transitioned (revision : Revision) (ref : string)
| SubgraphRegistered (task : TaskID)
| ProjectionEnqueued (projection : ProjectionRequest)
| Replied (reply : ManagerReplyEvent)
| MemoryFrozen (task : TaskID) (batchID : string).

Record Manager (S : Type) := mkManager {
  mg_finalizeBatches : gmap TaskID string;
  mg_finalized : gset TaskID;
  mg_world : S;
  mg_trace : list ManagerCall;
}.
Arguments mkManager {S}.
Arguments mg_finalizeBatches {S}.
Arguments mg_finalized {S}.
Arguments mg_world {S}.
Arguments mg_trace {S}.

Definition NewManager {S} (s : S) : Manager S := mkManager ∅ ∅ s [].

(** ** Checks *)

Definition validateRequirementInput (input : RequirementInput) : res unit :=
  _ ← fail_if (bool_decide (ri_InputRef input = "")) (InvalidArgument "input_ref is required");
  _ ← RequireID "requirement_input.task_id" (ri_TaskID input);
  fail_if (bool_decide (ri_ContractRef input = "")) (InvalidArgument "requirement_input.contract_ref is required").

Definition deliveryPolicies : list string :=
  [DeliveryPolicyNonCodeArtifact; DeliveryPolicyCodeMerge; DeliveryPolicyHumanAcceptance; DeliveryPolicyExternalDelivery].

Definition specOf (contract : TaskContract) (endpointID : EndpointID) : string := default "" (co_PhaseSpecs contract !! endpointID).

Definition validateTaskContract (contract : TaskContract) : res unit :=
  _ ← RequireID "task_contract.task_id" (co_TaskID contract);
  _ ← fail_if (bool_decide (co_ContractRef contract = "")) (InvalidArgument "task contract_ref is required");
  _ ← fail_if (bool_decide (co_DeliveryPolicy contract ∉ deliveryPolicies)) (InvalidArgument "task contract delivery policy is required");
  each (fun endpointID => fail_if (bool_decide (specOf contract endpointID = ""))
          (InvalidArgument ("task contract " +:+ endpointID +:+ " spec_ref is required"))) [EndpointPlan; EndpointExecute; EndpointVerify].

Definition validateStoppedInput (input : PhaseStoppedInput) : res unit :=
  _ ← fail_if (bool_decide (si_InputRef input = "")) (InvalidArgument "input_ref is required");
  _ ← fail_if (bool_decide (si_CommandID input = "")) (InvalidArgument "stopped command_id is required");
  _ ← RequireID "stopped lease_ref" (si_LeaseRef input);
  _ ← fail_if (si_Generation input <=? 0)%Z (InvalidArgument "stopped generation is required");
  _ ← fail_if (bool_decide (si_EvidenceRefs input = [])) (IncompleteStopEvidence "stopped event requires evidence_refs");
  _ ← fail_if (bool_decide (si_NewBindingRef input = "")) (InvalidArgument "stopped new_binding_ref is required");
  fail_if (bool_decide (si_CheckpointRef input = "") && negb (si_NonResumable input))
    (IncompleteStopEvidence "stopped event requires checkpoint_ref or non_resumable").

Definition newEndpoint (contract : TaskContract) (endpointID : EndpointID) : PhaseEndpoint :=
  mkEndpoint (mkRef (co_TaskID contract) endpointID) (specOf contract endpointID)
    ("binding://" +:+ co_TaskID contract +:+ "/" +:+ endpointID +:+ "/1") 1 EndpointPending RunEnabled.

Definition requirementSubgraph (contract : TaskContract) (revision : Revision) : PendingSubgraph :=
  mkPending "" revision [mkTask (co_TaskID contract) (co_ContractRef contract) TaskActive]
    [newEndpoint contract EndpointPlan; newEndpoint contract EndpointExecute; newEndpoint contract EndpointVerify] [] [].

Definition normalizeReplacement (replacement : Replacement) (current : PhaseEndpoint) (revision : Revision) : PendingSubgraph :=
  let endpoints := (fun e => if bool_decide (ep_Ref e = ep_Ref current)
                             then mkEndpoint (ep_Ref e) (ep_SpecRef current) (ep_BindingRef current) (ep_Generation current) (ep_State current)
                                    (ep_RunPolicy current)
                             else e) <$> rp_Endpoints replacement in
  mkPending "" revision [] endpoints (rp_Edges replacement) (rp_Blockers replacement).

Definition deliverySatisfied (policy : string) (evidence : DeliveryEvidence) : bool :=
  if bool_decide (policy = DeliveryPolicyNonCodeArtifact) then bool_decide (dv_ArtifactRefs evidence <> [])
  else if bool_decide (policy = DeliveryPolicyHumanAcceptance) then dv_HumanAccepted evidence
  else if bool_decide (policy = DeliveryPolicyCodeMerge)
  then dv_LatestMainVerified evidence && dv_MergeSucceeded evidence && bool_decide (dv_MergeCommitRef evidence <> "")
  else if bool_decide (policy = DeliveryPolicyExternalDelivery)
  then dv_ExternalDelivered evidence && bool_decide (dv_EvidenceRefs evidence <> [])
  else false.

Definition findEndpoint (snapshot : GraphSnapshot) (ref : PhaseEndpointRef) : option PhaseEndpoint :=
  snd <$> list_find (fun e => ep_Ref e = ref) (snap_Endpoints snapshot).

Definition findTask (snapshot : GraphSnapshot) (id : TaskID) : option Task :=
  snd <$> list_find (fun t => task_ID t = id) (snap_Tasks snapshot).

Definition zeroEndpoint : PhaseEndpoint := mkEndpoint zeroRef "" "" 0 "" "".

Definition targetRef (ref : PhaseEndpointRef) : string := ref_TaskID ref +:+ "/" +:+ ref_EndpointID ref.

Definition projectionID (taskID : TaskID) (revision : Revision) : string := "task-context:" +:+ taskID +:+ ":" +:+ format_int revision.

(** ** Operations *)

Section manager.
Context {S : Type} (options : Options S) (projectID : ProjectID).

Local Abbreviation W := (Manager S).

(** A call of a collaborator; what it did is recorded when it succeeds. *)
Definition porting {A} (what : A -> list ManagerCall) (m : M error S A) : M error W A := fun w =>
  let '(r, s) := m (mg_world w) in
  (r, mkManager (mg_finalizeBatches w) (mg_finalized w) s (mg_trace w ++ match r with Ok a => what a | Err _ => [] end)).

(** The error of a call, if there is one. *)
Definition attempting {A} (m : M error W A) : M error W (option error) := catch (_ ← m; mret None) (fun e => mret (Some e)).

Definition latestSnapshot : M error W GraphSnapshot := porting (fun snapshot => [Saw snapshot]) (op_Snapshot options LatestRevision).

(** [0] when the graph cannot be read. *)
Definition latestRevision : M error W Revision :=
  catch (snapshot ← latestSnapshot; mret (snap_Revision snapshot)) (fun _ => mret 0%Z).

Definition submitDecision (submission : DecisionSubmission) : M error W string :=
  porting (fun ref => [Decided submission ref]) (op_SubmitDecision options submission).

Definition submitTerminalDecision (inputRef : string) (revision : Revision) (decision : TaskManagerDecision) : M error W string :=
  submitDecision (mkSubmission projectID inputRef revision decision DecisionKindTerminal noTransition).

(** The reference of the decision, and the error of the write. *)
Definition replacePending (inputRef : string) (revision : Revision) (decision : TaskManagerDecision) (subgraph : PendingSubgraph) :
    M error W (string * option error) :=
  ref ← submitDecision (mkSubmission projectID inputRef revision decision DecisionKindReplacePending noTransition);
  let subgraph := mkPending ref (ps_BaseRevision subgraph) (ps_Tasks subgraph) (ps_Endpoints subgraph) (ps_Edges subgraph) (ps_Blockers subgraph) in
  failed ← attempting (porting (fun _ => [Replaced subgraph]) (op_ReplacePending options subgraph));
  mret (ref, failed).

Definition transition (inputRef : string) (revision : Revision) (decision : TaskManagerDecision) (t : GraphTransition) :
    M error W string :=
  ref ← submitDecision (mkSubmission projectID inputRef revision decision DecisionKindTransition t);
  _ ← porting (fun _ => [Transitioned revision ref]) (op_Transition options revision ref);
  mret ref.

(** The result, with the error of the reply unless there is one already. *)
Definition reply (event : ManagerReplyEvent) (err : option error) : M error W (Result * option error) :=
  let result := mkManagerResult (ry_InputRef event) (ry_Status event) (ry_DecisionRef event) (ry_GraphRevision event) in
  match op_Replies options with
  | None => mret (result, err)
  | Some append =>
    failed ← attempting (porting (fun _ => [Replied event]) (append event));
    mret (result, match err with None => failed | Some _ => err end)
  end.

(** A decision that changes nothing in the graph, and the reply to it. *)
Definition replyTerminal (inputRef : string) (revision : Revision) (decision : TaskManagerDecision) (status : string) (err : option error) :
    M error W (Result * option error) :=
  decisionRef ← submitTerminalDecision inputRef revision decision;
  reply (mkReply inputRef status decisionRef revision (md_Reason decision)) err.

(** The context of a task that was created; an error is answered as deferred. *)
Definition projectTask (input : RequirementInput) (contract : TaskContract) (ref : string) (revision : Revision) (reason : string) :
    M error W (Result * option error) :=
  let accepted := reply (mkReply (ri_InputRef input) ReplyAccepted ref revision reason) None in
  let deferred message e := reply (mkReply (ri_InputRef input) ReplyDeferred ref revision message) (Some e) in
  match op_TaskContext options with
  | None => accepted
  | Some context =>
    failed ← attempting (porting (fun _ => [SubgraphRegistered (co_TaskID contract)]) (tc_RegisterTaskSubgraph context (co_TaskID contract)));
    match failed with
    | Some e => deferred "graph applied; task context registration requires retry" e
    | None =>
      let projection := mkProjectionRequest (projectionID (co_TaskID contract) revision) (co_TaskID contract) revision (ri_Requirement input) in
      failed ← attempting (porting (fun _ => [ProjectionEnqueued projection]) (tc_EnqueueProjection context projection));
      match failed with
      | Some e => deferred "graph applied; task context projection requires retry" e
      | None => accepted
      end
    end
  end.

Definition HandleRequirement (input : RequirementInput) : M error W (Result * option error) :=
  _ ← lift (validateRequirementInput input);
  contract ← porting (fun contract => [ContractResolved input contract]) (op_ResolveRequirementContract options input);
  snapshot ← latestSnapshot;
  match validateTaskContract contract with
  | Err e => replyTerminal (ri_InputRef input) (snap_Revision snapshot) (mkManagerDecision "defer" (ri_TaskID input) [] (error_text e)) ReplyDeferred None
  | Ok _ =>
    let decision := mkManagerDecision DecisionKindReplacePending (co_TaskID contract) [] "create task from persisted requirement input" in
    outcome ← replacePending (ri_InputRef input) (snap_Revision snapshot) decision (requirementSubgraph contract (snap_Revision snapshot));
    match outcome with
    | (ref, Some e) =>
      if IsCode (Some e) CodeRevisionConflict
      then reply (mkReply (ri_InputRef input) ReplyConflict ref (snap_Revision snapshot) "graph revision conflict") (Some e)
      else throw e
    | (ref, None) =>
      revision ← latestRevision;
      projectTask input contract ref revision (md_Reason decision)
    end
  end.

Definition terminalActions : list string := ["reject"; "defer"; "no_change"].

Definition terminalStatus (action : string) : string :=
  if bool_decide (action = "reject") then ReplyRejected else if bool_decide (action = "defer") then ReplyDeferred else ReplyAccepted.

Definition endpointTransition (endpoint : PhaseEndpointRef) (action : string) (generation : Z) : GraphTransition :=
  mkTransition TargetPhaseEndpoint endpoint "" "" action generation zeroResult "" "" "" "" "" false [].

(** [held] and [released]. *)
Definition controlEndpoint (input : ManagerDecisionInput) (decision : TaskManagerDecision) (snapshot : GraphSnapshot) :
    M error W (Result * option error) :=
  match findEndpoint snapshot (mi_Endpoint input) with
  | None => throw (kerr CodeNotFound "manager decision target endpoint was not found" false)
  | Some endpoint =>
    _ ← lift (fail_if (bool_decide (md_TargetRef decision <> targetRef (mi_Endpoint input)))
          (InvalidArgument "manager decision target_ref does not match Runtime-selected endpoint"));
    _ ← lift (fail_if (bool_decide (md_Action decision = "held") && bool_decide (ep_RunPolicy endpoint = RunHeld))
          (TransitionRejected "endpoint is already held"));
    _ ← lift (fail_if (bool_decide (md_Action decision = "released") && bool_decide (ep_RunPolicy endpoint <> RunHeld))
          (TransitionRejected "endpoint is not held"));
    decisionRef ← transition (mi_InputRef input) (snap_Revision snapshot) decision
                    (endpointTransition (mi_Endpoint input) (md_Action decision) (ep_Generation endpoint));
    snapshot ← latestSnapshot;
    reply (mkReply (mi_InputRef input) ReplyAccepted decisionRef (snap_Revision snapshot) (md_Reason decision)) None
  end.

Definition staleInput : string := "manager input was based on a stale graph revision".

Definition HandleManagerDecision (input : ManagerDecisionInput) (decision : TaskManagerDecision) : M error W (Result * option error) :=
  _ ← lift (fail_if (bool_decide (mi_InputRef input = "")) (InvalidArgument "input_ref is required"));
  _ ← lift (fail_if (bool_decide (md_Action decision = "") || bool_decide (md_Reason decision = ""))
        (InvalidArgument "manager decision action and reason are required"));
  snapshot ← latestSnapshot;
  let revision := snap_Revision snapshot in
  if bool_decide (mi_SeenRevision input <> 0%Z) && bool_decide (mi_SeenRevision input <> revision)
  then replyTerminal (mi_InputRef input) revision (mkManagerDecision "reject" "" [] staleInput) ReplyConflict
         (Some (RevisionConflict (mi_SeenRevision input) revision))
  else if bool_decide (md_Action decision ∈ terminalActions) then
    _ ← lift (fail_if (bool_decide (md_TargetRef decision <> "")) (InvalidArgument "terminal manager decision must omit target_ref"));
    replyTerminal (mi_InputRef input) revision decision (terminalStatus (md_Action decision)) None
  else if bool_decide (md_Action decision = "held") || bool_decide (md_Action decision = "released")
  then controlEndpoint input decision snapshot
  else throw (InvalidArgument "manager decision must be reject, defer, no_change, held, or released").

Definition stoppedRejected (input : PhaseStoppedInput) (revision : Revision) (reason : string) (err : error) : M error W (Result * option error) :=
  replyTerminal (si_InputRef input) revision (mkManagerDecision "reject" (targetRef (si_Endpoint input)) (si_EvidenceRefs input) reason)
    ReplyRejected (Some err).

Definition stoppedTransition (input : PhaseStoppedInput) : GraphTransition :=
  mkTransition TargetPhaseEndpoint (si_Endpoint input) "" "" "stopped" (si_Generation input) zeroResult (si_NewBindingRef input) "" ""
    (si_NewSpecRef input) (si_CheckpointRef input) (si_NonResumable input) (si_EvidenceRefs input).

(** The endpoint in the latest snapshot; the zero endpoint when it is gone. *)
Definition refreshed (ref : PhaseEndpointRef) : M error W (GraphSnapshot * PhaseEndpoint) :=
  snapshot ← latestSnapshot;
  mret (snapshot, default zeroEndpoint (findEndpoint snapshot ref)).

Definition replaceStopped (input : PhaseStoppedInput) (decisionRef : string) (current : GraphSnapshot * PhaseEndpoint) :
    M error W (string * (GraphSnapshot * PhaseEndpoint)) :=
  if bool_decide (rp_Endpoints (si_Replacement input) = []) then mret (decisionRef, current)
  else
    let revision := snap_Revision current.1 in
    outcome ← replacePending (si_InputRef input) revision
                (mkManagerDecision DecisionKindReplacePending (targetRef (si_Endpoint input)) [] "apply replacement after authenticated stopped event")
                (normalizeReplacement (si_Replacement input) current.2 revision);
    match outcome with
    | (_, Some e) => throw e
    | (ref, None) => next ← refreshed (si_Endpoint input); mret (ref, next)
    end.

Definition releaseStopped (input : PhaseStoppedInput) (decisionRef : string) (current : GraphSnapshot * PhaseEndpoint) :
    M error W (string * GraphSnapshot) :=
  if si_ReleaseAfterReplace input then
    ref ← transition (si_InputRef input) (snap_Revision current.1)
            (mkManagerDecision "released" (targetRef (si_Endpoint input)) [] "release endpoint after authenticated stopped replacement")
            (endpointTransition (si_Endpoint input) "released" (ep_Generation current.2));
    snapshot ← latestSnapshot;
    mret (ref, snapshot)
  else mret (decisionRef, current.1).

Definition HandlePhaseStopped (input : PhaseStoppedInput) : M error W (Result * option error) :=
  _ ← lift (validateStoppedInput input);
  snapshot ← latestSnapshot;
  let revision := snap_Revision snapshot in
  match findEndpoint snapshot (si_Endpoint input) with
  | None => stoppedRejected input revision "stopped endpoint not found" (kerr CodeNotFound "stopped endpoint not found" false)
  | Some endpoint =>
    if bool_decide (ep_Generation endpoint <> si_Generation input)
    then stoppedRejected input revision "stopped event generation does not match current endpoint"
           (TransitionRejected "stopped event generation does not match current endpoint")
    else if bool_decide (ep_RunPolicy endpoint <> RunHeld)
    then stoppedRejected input revision "stopped event requires a held endpoint" (TransitionRejected "stopped event requires a held endpoint")
    else
      decisionRef ← transition (si_InputRef input) revision
                      (mkManagerDecision "stopped" (targetRef (si_Endpoint input)) (si_EvidenceRefs input) "runtime-authenticated phase stopped event")
                      (stoppedTransition input);
      current ← refreshed (si_Endpoint input);
      replaced ← replaceStopped input decisionRef current;
      released ← releaseStopped input replaced.1 replaced.2;
      reply (mkReply (si_InputRef input) ReplyAccepted released.1 (snap_Revision released.2) "authenticated stopped event applied") None
  end.

(** ** Deliveries *)

Definition RetryProjection (id : string) : M error W unit :=
  match op_TaskContext options with None => mret tt | Some context => porting (fun _ => []) (tc_RetryProjection context id) end.

Definition batchOf (w : W) (taskID : TaskID) : string :=
  let batchID := default "" (mg_finalizeBatches w !! taskID) in
  if bool_decide (batchID = "") then "task-memory-freeze:" +:+ taskID else batchID.

Definition RetryFinalize (taskID : TaskID) : M error W (Result * option error) :=
  let accepted := (mkManagerResult "" ReplyAccepted "" 0, None) in
  match op_MemoryFinalize options with
  | None => mret accepted
  | Some finalize =>
    w ← get_state;
    if bool_decide (taskID ∈ mg_finalized w) then mret accepted
    else
      let batchID := batchOf w taskID in
      _ ← modify (fun w => mkManager (<[taskID := batchID]> (mg_finalizeBatches w)) (mg_finalized w) (mg_world w) (mg_trace w));
      failed ← attempting (porting (fun _ => [MemoryFrozen taskID batchID]) (finalize taskID batchID));
      match failed with
      | Some e => mret (mkManagerResult "" ReplyDeferred "" 0, Some e)
      | None =>
        _ ← modify (fun w => mkManager (mg_finalizeBatches w) ({[taskID]} ∪ mg_finalized w) (mg_world w) (mg_trace w));
        mret accepted
      end
  end.

Definition doneTransition (taskID : TaskID) : GraphTransition :=
  mkTransition TargetTask zeroRef "" taskID TaskDone 0 zeroResult "" "" "" "" "" false [].

Definition deferDelivery (input : DeliveryInput) (revision : Revision) (reason : string) : M error W (Result * option error) :=
  replyTerminal (di_InputRef input) revision (mkManagerDecision "defer" (di_TaskID input) [] reason) ReplyDeferred None.

Definition deliveredReason : string := "delivery policy and verify evidence satisfied".

Definition completeTask (input : DeliveryInput) (snapshot : GraphSnapshot) : M error W (Result * option error) :=
  decisionRef ← transition (di_InputRef input) (snap_Revision snapshot) (mkManagerDecision TaskDone (di_TaskID input) [] deliveredReason)
                  (doneTransition (di_TaskID input));
  snapshot ← latestSnapshot;
  result ← reply (mkReply (di_InputRef input) ReplyAccepted decisionRef (snap_Revision snapshot) deliveredReason) None;
  match result.2 with
  | Some _ => mret result
  | None => _ ← RetryFinalize (di_TaskID input); mret (result.1, None)
  end.

Definition HandleDelivery (input : DeliveryInput) : M error W (Result * option error) :=
  snapshot ← latestSnapshot;
  match findTask snapshot (di_TaskID input) with
  | None => throw (kerr CodeNotFound "delivery task not found" false)
  | Some _ =>
    contract ← porting (fun contract => [ContractRead (di_TaskID input) contract]) (op_TaskContract options (di_TaskID input));
    if bool_decide (co_DeliveryPolicy contract = "") then deferDelivery input (snap_Revision snapshot) "task contract is missing delivery policy"
    else if negb (deliverySatisfied (co_DeliveryPolicy contract) (di_Evidence input))
    then deferDelivery input (snap_Revision snapshot) "delivery policy evidence is incomplete"
    else
      match findEndpoint snapshot (mkRef (di_TaskID input) EndpointVerify) with
      | None => deferDelivery input (snap_Revision snapshot) "verify endpoint is not satisfied"
      | Some verify =>
        if bool_decide (ep_State verify <> EndpointSatisfied) then deferDelivery input (snap_Revision snapshot) "verify endpoint is not satisfied"
        else completeTask input snapshot
      end
  end.

End manager.
