(* ===== verification/TaskManagerProps.v ===== *)
(** * Properties of the Task Manager application *)

From stdpp Require Import base tactics option list strings gmap relations.
From Stdlib Require Import ZArith.
From S2P Require Import Prelude GoLib GoStrings Kernel CoordTypes Hoare.
From S2P Require Import TaskManager.

(** ** Inputs *)

Inductive manager_input :=
| RequirementArrived (input : RequirementInput)
| DecisionMade (input : ManagerDecisionInput) (decision : TaskManagerDecision)
| PhaseStopped (input : PhaseStoppedInput)
| DeliveryReported (input : DeliveryInput)
| FinalizeRetried (task : TaskID).

Definition input_ref (input : manager_input) : string :=
  match input with
  | RequirementArrived input => ri_InputRef input
  | DecisionMade input _ => mi_InputRef input
  | PhaseStopped input => si_InputRef input
  | DeliveryReported input => di_InputRef input
  | FinalizeRetried _ => ""
  end.

Definition handle {S} (options : Options S) (projectID : ProjectID) (input : manager_input) : M error (Manager S) (Result * option error) :=
  match input with
  | RequirementArrived input => HandleRequirement options projectID input
  | DecisionMade input decision => HandleManagerDecision options projectID input decision
  | PhaseStopped input => HandlePhaseStopped options projectID input
  | DeliveryReported input => HandleDelivery options projectID input
  | FinalizeRetried task => RetryFinalize options task
  end.

(** ** What a write rests on *)

(** The graph that was read at revision [rev] has the endpoint [ref] as [endpoint]. *)
Definition saw (t : list ManagerCall) (rev : Revision) (ref : PhaseEndpointRef) (endpoint : PhaseEndpoint) : Prop :=
  exists snapshot, Saw snapshot ∈ t /\ snap_Revision snapshot = rev /\ findEndpoint snapshot ref = Some endpoint.

(** The transition [g] was decided and applied. *)
Definition applied (t : list ManagerCall) (g : GraphTransition) : Prop :=
  exists submission rev ref, Decided submission ref ∈ t /\ su_Transition submission = g /\ Transitioned rev ref ∈ t.

(** The reasons for a transition at revision [rev]. *)
Inductive grounded (t : list ManagerCall) (rev : Revision) : manager_input -> GraphTransition -> Prop :=
| ground_held input decision endpoint : saw t rev (mi_Endpoint input) endpoint -> md_Action decision = "held" -> ep_RunPolicy endpoint <> RunHeld ->
    grounded t rev (DecisionMade input decision) (endpointTransition (mi_Endpoint input) "held" (ep_Generation endpoint))
| ground_released input decision endpoint : saw t rev (mi_Endpoint input) endpoint -> md_Action decision = "released" -> ep_RunPolicy endpoint = RunHeld ->
    grounded t rev (DecisionMade input decision) (endpointTransition (mi_Endpoint input) "released" (ep_Generation endpoint))
| ground_stopped input endpoint : saw t rev (si_Endpoint input) endpoint -> ep_RunPolicy endpoint = RunHeld -> ep_Generation endpoint = si_Generation input ->
    si_EvidenceRefs input <> [] -> (si_CheckpointRef input <> "" \/ si_NonResumable input = true) ->
    grounded t rev (PhaseStopped input) (stoppedTransition input)
| ground_after_stop input snapshot : Saw snapshot ∈ t -> snap_Revision snapshot = rev -> applied t (stoppedTransition input) ->
    si_ReleaseAfterReplace input = true ->
    grounded t rev (PhaseStopped input)
      (endpointTransition (si_Endpoint input) "released" (ep_Generation (default zeroEndpoint (findEndpoint snapshot (si_Endpoint input)))))
| ground_done input contract verify : ContractRead (di_TaskID input) contract ∈ t ->
    deliverySatisfied (co_DeliveryPolicy contract) (di_Evidence input) = true ->
    saw t rev (mkRef (di_TaskID input) EndpointVerify) verify -> ep_State verify = EndpointSatisfied ->
    grounded t rev (DeliveryReported input) (doneTransition (di_TaskID input)).

(** The subgraphs that are submitted. *)
Inductive replacing (t : list ManagerCall) (rev : Revision) : manager_input -> PendingSubgraph -> Prop :=
| replace_requirement input contract snapshot : ContractResolved input contract ∈ t -> validateTaskContract contract = Ok tt ->
    Saw snapshot ∈ t -> snap_Revision snapshot = rev ->
    replacing t rev (RequirementArrived input) (requirementSubgraph contract rev)
| replace_stopped input snapshot : Saw snapshot ∈ t -> snap_Revision snapshot = rev -> applied t (stoppedTransition input) ->
    replacing t rev (PhaseStopped input)
      (normalizeReplacement (si_Replacement input) (default zeroEndpoint (findEndpoint snapshot (si_Endpoint input))) rev).

Definition with_request (ref : string) (sub : PendingSubgraph) : PendingSubgraph :=
  mkPending ref (ps_BaseRevision sub) (ps_Tasks sub) (ps_Endpoints sub) (ps_Edges sub) (ps_Blockers sub).

(** The decision [ref] took effect. *)
Definition took_effect (t : list ManagerCall) (ref : string) : Prop :=
  (exists rev, Transitioned rev ref ∈ t) \/ exists sub, Replaced sub ∈ t /\ ps_RequestID sub = ref.

Lemma saw_app t t' rev ref endpoint : saw t rev ref endpoint -> saw (t ++ t') rev ref endpoint.
Proof. intros (snapshot & Hin & Hr & Hf). exists snapshot. split; [apply elem_of_app; by left|done]. Qed.

Lemma applied_app t t' g : applied t g -> applied (t ++ t') g.
Proof. unfold applied. setoid_rewrite elem_of_app. naive_solver. Qed.

Lemma grounded_app t t' rev input g : grounded t rev input g -> grounded (t ++ t') rev input g.
Proof.
  destruct 1; [eapply ground_held|eapply ground_released|eapply ground_stopped|eapply ground_after_stop|eapply ground_done];
    eauto using saw_app, applied_app; rewrite elem_of_app; by left.
Qed.

Lemma replacing_app t t' rev input sub : replacing t rev input sub -> replacing (t ++ t') rev input sub.
Proof. destruct 1; [eapply replace_requirement|eapply replace_stopped]; eauto using applied_app; rewrite elem_of_app; by left. Qed.

Lemma took_effect_app t t' ref : took_effect t ref -> took_effect (t ++ t') ref.
Proof. unfold took_effect. setoid_rewrite elem_of_app. naive_solver. Qed.

Section manager.
Context {S : Type} (options : Options S) (projectID : ProjectID) (input : manager_input).
Local Abbreviation W := (Manager S).

(** What is recorded before [x] in the call. *)
Definition call_backed (t : list ManagerCall) (x : ManagerCall) : Prop :=
  match x with
  | Replaced sub => exists rev decision sub0,
      Decided (mkSubmission projectID (input_ref input) rev decision DecisionKindReplacePending noTransition) (ps_RequestID sub) ∈ t /\
      replacing t rev input sub0 /\ sub = with_request (ps_RequestID sub) sub0
  | Transitioned rev ref => exists decision g,
      Decided (mkSubmission projectID (input_ref input) rev decision DecisionKindTransition g) ref ∈ t /\ grounded t rev input g
  | Replied event =>
      ry_InputRef event = input_ref input /\ (forall event', Replied event' ∉ t) /\
      (ry_Status event = ReplyAccepted -> took_effect t (ry_DecisionRef event) \/
         exists rev decision, Decided (mkSubmission projectID (input_ref input) rev decision DecisionKindTerminal noTransition) (ry_DecisionRef event) ∈ t /\
           md_Action decision = "no_change")
  | _ => True
  end.

Local Abbreviation ok := (trace_ok call_backed).

Definition silent (new : list ManagerCall) : Prop := forall event, Replied event ∉ new.

Lemma silent_snoc new x : silent new -> (forall event, x <> Replied event) -> silent (new ++ [x]).
Proof. intros Hs Hx event Hin. apply elem_of_app in Hin as [Hin|Hin]; [by apply (Hs event)|]. apply list_elem_of_singleton in Hin. by apply (Hx event). Qed.

(** *** Rules *)

Section rules.
Context (t0 : list ManagerCall).

(** The state in a call that has recorded [new]. *)
Definition at_call (b : gmap TaskID string) (f : gset TaskID) (s : S) (new : list ManagerCall) : W := mkManager b f s (t0 ++ new).

Definition finished {A} (_ : res A) (w : W) : Prop := exists new, mg_trace w = t0 ++ new /\ ok new.

Lemma wp_port {A} (x : A -> ManagerCall) (m : M error S A) (Q : res A -> W -> Prop) b f s new : ok new -> (forall a, call_backed new (x a)) ->
  (forall e s', Q (Err e) (at_call b f s' new)) -> (forall a s', ok (new ++ [x a]) -> Q (Ok a) (at_call b f s' (new ++ [x a]))) ->
  wp (porting (fun a => [x a]) m) Q (at_call b f s new).
Proof.
  intros Hok Hx He Ha. unfold wp, porting. simpl. destruct (m s) as [[a|e] s']; simpl.
  - unfold at_call in Ha. rewrite <- app_assoc. apply Ha. by apply trace_ok_snoc.
  - rewrite app_nil_r. apply He.
Qed.

Lemma at_call_finished {A} (r : res A) b f s new : ok new -> finished r (at_call b f s new).
Proof. intros Hok. by exists new. Qed.

Lemma wp_latestSnapshot (Q : res GraphSnapshot -> W -> Prop) b f s new : ok new -> (forall e s', Q (Err e) (at_call b f s' new)) ->
  (forall a s', ok (new ++ [Saw a]) -> Q (Ok a) (at_call b f s' (new ++ [Saw a]))) -> wp (latestSnapshot options) Q (at_call b f s new).
Proof. intros Hok He Ha. by apply wp_port. Qed.

Lemma wp_submit submission (Q : res string -> W -> Prop) b f s new : ok new -> (forall e s', Q (Err e) (at_call b f s' new)) ->
  (forall ref s', ok (new ++ [Decided submission ref]) -> Q (Ok ref) (at_call b f s' (new ++ [Decided submission ref]))) ->
  wp (submitDecision options submission) Q (at_call b f s new).
Proof. intros Hok He Ha. by apply (wp_port (fun ref => Decided submission ref)). Qed.

Lemma wp_attempt {A} (x : ManagerCall) (m : M error S A) (Q : res (option error) -> W -> Prop) b f s new : ok new -> call_backed new x ->
  (forall e s', Q (Ok (Some e)) (at_call b f s' new)) -> (forall s', ok (new ++ [x]) -> Q (Ok None) (at_call b f s' (new ++ [x]))) ->
  wp (attempting (porting (fun _ => [x]) m)) Q (at_call b f s new).
Proof. intros Hok Hx He Ha. apply wp_catch, wp_bind. apply (wp_port (fun _ : A => x)); [done|done|done|]. intros _ s' Hok'. by apply Ha. Qed.

Lemma wp_reply event err (Q : res (Result * option error) -> W -> Prop) b f s new : ok new -> call_backed new (Replied event) ->
  (forall result e s' new', ok new' -> Q (Ok (result, e)) (at_call b f s' new')) -> wp (reply options event err) Q (at_call b f s new).
Proof.
  intros Hok Hx HQ. unfold reply. destruct (op_Replies options) as [append|]; [|by apply HQ].
  apply wp_bind, wp_attempt; [done|done| |]; intros; apply wp_ret; by apply HQ.
Qed.

Lemma wp_graph_transition rev decision g (Q : res string -> W -> Prop) b f s new : ok new -> grounded new rev input g ->
  (forall e s' new', ok new' -> Q (Err e) (at_call b f s' new')) ->
  (forall ref s' new', ok (new ++ new') -> (silent new -> silent (new ++ new')) -> Transitioned rev ref ∈ new' -> applied new' g ->
     Q (Ok ref) (at_call b f s' (new ++ new'))) ->
  wp (transition options projectID (input_ref input) rev decision g) Q (at_call b f s new).
Proof.
  intros Hok Hg He Ha. unfold transition. apply wp_bind, wp_submit; [done|by intros; apply He|]. intros ref s1 Hok1.
  apply wp_bind. apply (wp_port (fun _ : Revision => Transitioned rev ref)); [done| |by intros; apply He|].
  - intros _. exists decision, g. split; [|by apply grounded_app]. apply elem_of_app. right. by left.
  - intros _ s2 Hok2. apply wp_ret. rewrite <- app_assoc in *. apply Ha; [done| |right; by left|].
    + intros Hs. rewrite app_assoc. apply silent_snoc; [|done]. by apply silent_snoc.
    + eexists _, rev, ref. split_and!; [by left| |right; by left]. done.
Qed.

Lemma wp_replace rev decision sub (Q : res (string * option error) -> W -> Prop) b f s new : ok new -> replacing new rev input sub ->
  (forall e s' new', ok new' -> Q (Err e) (at_call b f s' new')) ->
  (forall ref e s' new', ok (new ++ new') -> (silent new -> silent (new ++ new')) -> Q (Ok (ref, Some e)) (at_call b f s' (new ++ new'))) ->
  (forall ref s' new', ok (new ++ new') -> (silent new -> silent (new ++ new')) -> took_effect (new ++ new') ref ->
     Q (Ok (ref, None)) (at_call b f s' (new ++ new'))) ->
  wp (replacePending options projectID (input_ref input) rev decision sub) Q (at_call b f s new).
Proof.
  intros Hok Hr He Hf Ha. unfold replacePending. apply wp_bind, wp_submit; [done|by intros; apply He|]. intros ref s1 Hok1.
  apply wp_bind, (wp_attempt (Replaced (with_request ref sub))); [done| | |].
  - exists rev, decision, sub. split_and!; [apply elem_of_app; right; by left|by apply replacing_app|done].
  - intros e s2. apply wp_ret, Hf; [done|]. intros Hs. by apply silent_snoc.
  - intros s2 Hok2. apply wp_ret. rewrite <- app_assoc in *. apply Ha; [done| |].
    + intros Hs. rewrite app_assoc. apply silent_snoc; [|done]. by apply silent_snoc.
    + right. exists (with_request ref sub). split; [|done]. rewrite !elem_of_app. right. right. by left.
Qed.

Lemma wp_replyTerminal rev decision status err b f s new : ok new -> silent new -> (status = ReplyAccepted -> md_Action decision = "no_change") ->
  wp (replyTerminal options projectID (input_ref input) rev decision status err) finished (at_call b f s new).
Proof.
  intros Hok Hs Hst. unfold replyTerminal, submitTerminalDecision. apply wp_bind, wp_submit; [done|by intros; apply at_call_finished|].
  intros ref s1 Hok1. apply wp_reply; [done| |by intros; apply at_call_finished]. split_and!; [done|by apply silent_snoc|].
  intros Ha. right. exists rev, decision. split; [|by apply Hst]. apply elem_of_app. right. by left.
Qed.

(** An accepted reply to a decision that took effect. *)
Lemma accepted_backed new event : silent new -> ry_InputRef event = input_ref input -> took_effect new (ry_DecisionRef event) ->
  call_backed new (Replied event).
Proof. intros Hs Hi Ht. split_and!; [done|done|]. intros _. by left. Qed.

Lemma other_backed new event : silent new -> ry_InputRef event = input_ref input -> ry_Status event <> ReplyAccepted -> call_backed new (Replied event).
Proof. intros Hs Hi Ht. by split_and!. Qed.

Lemma wp_latestRevision (Q : res Revision -> W -> Prop) b f s new : ok new ->
  (forall r s' new', ok (new ++ new') -> (silent new -> silent (new ++ new')) -> Q (Ok r) (at_call b f s' (new ++ new'))) ->
  wp (latestRevision options) Q (at_call b f s new).
Proof.
  intros Hok Ha. apply wp_catch, wp_bind, wp_latestSnapshot; [done| |].
  - intros e s1. apply wp_ret. rewrite <- (app_nil_r new). apply Ha; by rewrite app_nil_r.
  - intros snapshot s1 Hok1. apply wp_ret, Ha; [done|]. intros Hs. by apply silent_snoc.
Qed.

Lemma wp_RetryFinalize task (Q : res (Result * option error) -> W -> Prop) b f s new : ok new ->
  (forall r b' f' s' new', ok new' -> Q (Ok r) (at_call b' f' s' new')) -> wp (RetryFinalize options task) Q (at_call b f s new).
Proof.
  intros Hok HQ. unfold RetryFinalize. destruct (op_MemoryFinalize options) as [finalize|]; [|by apply HQ]. apply wp_get.
  case_bool_decide; [by apply HQ|]. apply wp_modify, wp_bind.
  apply (wp_attempt (MemoryFrozen task (batchOf (at_call b f s new) task)) _ _ _ f s new); [done|done| |].
  - intros e s'. by apply HQ.
  - intros s' Hok'. apply wp_modify. by apply HQ.
Qed.

Lemma silent_nil : silent [].
Proof. intros event Hin. by apply not_elem_of_nil in Hin. Qed.

Lemma wp_answer event err b f s new : ok new -> call_backed new (Replied event) -> wp (reply options event err) finished (at_call b f s new).
Proof. intros Hok Hx. apply wp_reply; [done|done|]. intros. by apply at_call_finished. Qed.

Lemma wp_projectTask i contract ref revision reason b f s new : ok new -> silent new -> ri_InputRef i = input_ref input -> took_effect new ref ->
  wp (projectTask options i contract ref revision reason) finished (at_call b f s new).
Proof.
  intros Hok Hs Href Heff. unfold projectTask. destruct (op_TaskContext options) as [context|]; [|by apply wp_answer; [|apply accepted_backed]].
  apply wp_bind, wp_attempt; [done|done|by intros; apply wp_answer; [|apply other_backed]|]. intros s1 Hok1.
  apply wp_bind, wp_attempt; [done|done|by intros; apply wp_answer; [|apply other_backed; [apply silent_snoc|..]]|]. intros s2 Hok2.
  apply wp_answer; [done|]. apply accepted_backed; [|done|by apply took_effect_app, took_effect_app]. apply silent_snoc; [|done]. by apply silent_snoc.
Qed.

Lemma wp_HandleRequirement i b f s : input = RequirementArrived i -> wp (HandleRequirement options projectID i) finished (at_call b f s []).
Proof.
  intros Hin. assert (ri_InputRef i = input_ref input) as Href by (by rewrite Hin). unfold HandleRequirement. rewrite Href.
  apply wp_guard; [intros; apply at_call_finished, trace_ok_nil|]. intros _ _. apply wp_bind.
  apply (wp_port (fun contract => ContractResolved i contract)); [apply trace_ok_nil|done|intros; apply at_call_finished, trace_ok_nil|]. intros contract s1 Hok1.
  apply wp_bind, wp_latestSnapshot; [done|by intros; apply at_call_finished|]. intros snapshot s2 Hok2.
  assert (silent (([] ++ [ContractResolved i contract]) ++ [Saw snapshot])) as Hs2 by (do 2 (apply silent_snoc; [|done]); apply silent_nil).
  destruct (validateTaskContract contract) as [[]|e] eqn:Hv; [|by apply wp_replyTerminal]. apply wp_bind, wp_replace; [done| | | |].
  - rewrite Hin. apply (replace_requirement _ _ _ _ snapshot); [|done| |done]; rewrite !elem_of_app; [left; right; by left|right; by left].
  - by intros; apply at_call_finished.
  - intros ref e s3 new3 Hok3 Hs3. destruct (IsCode _ _); [|by apply at_call_finished]. apply wp_answer; [done|by apply other_backed; auto].
  - intros ref s3 new3 Hok3 Hs3 Heff. apply wp_bind, wp_latestRevision; [done|]. intros revision s4 new4 Hok4 Hs4.
    apply wp_projectTask; [done|by auto|done|by apply took_effect_app].
Qed.

Lemma saw_last new snapshot ref endpoint : findEndpoint snapshot ref = Some endpoint -> saw (new ++ [Saw snapshot]) (snap_Revision snapshot) ref endpoint.
Proof. intros Hf. exists snapshot. split_and!; [apply elem_of_app; right; by left|done|done]. Qed.

Lemma wp_controlEndpoint i decision snapshot b f s new : input = DecisionMade i decision -> ok (new ++ [Saw snapshot]) -> silent (new ++ [Saw snapshot]) ->
  md_Action decision = "held" \/ md_Action decision = "released" ->
  wp (controlEndpoint options projectID i decision snapshot) finished (at_call b f s (new ++ [Saw snapshot])).
Proof.
  intros Hin Hok Hs Hact. assert (mi_InputRef i = input_ref input) as Href by (by rewrite Hin). unfold controlEndpoint. rewrite Href.
  destruct (findEndpoint snapshot (mi_Endpoint i)) as [endpoint|] eqn:Hf; [|by apply at_call_finished].
  apply wp_guard; [by intros; apply at_call_finished|]. intros _ _. apply wp_guard; [by intros; apply at_call_finished|]. intros [] Hheld.
  apply wp_guard; [by intros; apply at_call_finished|]. intros [] Hrel. apply fail_if_Ok, andb_false_iff in Hheld. apply fail_if_Ok, andb_false_iff in Hrel.
  apply wp_bind, wp_graph_transition; [done| |by intros; apply at_call_finished|].
  - rewrite Hin. destruct Hact as [Hact|Hact]; rewrite Hact; [eapply ground_held|eapply ground_released]; try (by apply saw_last); try done.
    + destruct Hheld as [Hn|Hn]; apply bool_decide_eq_false_1 in Hn; [by rewrite Hact in Hn|done].
    + destruct Hrel as [Hn|Hn]; apply bool_decide_eq_false_1 in Hn; [by rewrite Hact in Hn|by apply dec_stable].
  - intros ref s1 new1 Hok1 Hs1 Ht1 _. apply wp_bind, wp_latestSnapshot; [done|by intros; apply at_call_finished|]. intros snapshot' s2 Hok2.
    apply wp_answer; [done|]. apply accepted_backed; [by apply silent_snoc; auto|done|]. apply took_effect_app. left. eexists. apply elem_of_app. by right.
Qed.

Lemma wp_HandleManagerDecision i decision b f s : input = DecisionMade i decision ->
  wp (HandleManagerDecision options projectID i decision) finished (at_call b f s []).
Proof.
  intros Hin. assert (mi_InputRef i = input_ref input) as Href by (by rewrite Hin). unfold HandleManagerDecision. rewrite Href.
  apply wp_guard; [intros; apply at_call_finished, trace_ok_nil|]. intros _ _. apply wp_guard; [intros; apply at_call_finished, trace_ok_nil|]. intros _ _.
  apply wp_bind, wp_latestSnapshot; [apply trace_ok_nil|intros; apply at_call_finished, trace_ok_nil|]. intros snapshot s1 Hok1.
  assert (silent ([] ++ [Saw snapshot])) as Hs1 by (apply silent_snoc; [apply silent_nil|done]).
  destruct (_ && _); [by apply wp_replyTerminal|]. case_bool_decide as Ht.
  - apply wp_guard; [by intros; apply at_call_finished|]. intros _ _. apply wp_replyTerminal; [done|done|]. unfold terminalStatus, terminalActions in *.
    repeat case_bool_decide; [done|done|]. intros _. set_solver.
  - destruct (_ || _) eqn:Hc; [|by apply at_call_finished]. apply wp_controlEndpoint; [done|done|done|].
    apply orb_true_iff in Hc as [Hc|Hc]; apply bool_decide_eq_true_1 in Hc; [by left|by right].
Qed.

Lemma validateStoppedInput_Ok i u : validateStoppedInput i = Ok u -> si_EvidenceRefs i <> [] /\ (si_CheckpointRef i <> "" \/ si_NonResumable i = true).
Proof.
  unfold validateStoppedInput. intros Hv. do 4 (apply bind_Ok in Hv as (? & _ & Hv)). apply bind_Ok in Hv as (? & He & Hv).
  apply bind_Ok in Hv as (? & _ & Hv). apply guard_Ok in He. split; [done|]. apply fail_if_Ok, andb_false_iff in Hv as [Hv|Hv].
  - apply bool_decide_eq_false_1 in Hv. by left.
  - apply negb_false_iff in Hv. by right.
Qed.

(** What a stopped phase has after a write: it took effect, and the endpoint was
    read again. *)
Record resumed (i : PhaseStoppedInput) (new : list ManagerCall) (ref : string) (current : GraphSnapshot * PhaseEndpoint) : Prop := mkResumed {
  rs_ok : ok new;
  rs_silent : silent new;
  rs_effect : took_effect new ref;
  rs_stop : applied new (stoppedTransition i);
  rs_saw : Saw current.1 ∈ new;
  rs_endpoint : current.2 = default zeroEndpoint (findEndpoint current.1 (si_Endpoint i));
}.

Lemma wp_refreshed i ref (Q : res (GraphSnapshot * PhaseEndpoint) -> W -> Prop) b f s new : ok new -> silent new -> took_effect new ref ->
  applied new (stoppedTransition i) ->
  (forall e s', Q (Err e) (at_call b f s' new)) -> (forall c s' new', resumed i new' ref c -> Q (Ok c) (at_call b f s' new')) ->
  wp (refreshed options (si_Endpoint i)) Q (at_call b f s new).
Proof.
  intros Hok Hs Heff Hstop He Ha. unfold refreshed. apply wp_bind, wp_latestSnapshot; [done|done|]. intros snapshot s1 Hok1. apply wp_ret, Ha.
  split; simpl; [done|by apply silent_snoc|by apply took_effect_app|by apply applied_app| |done].
  apply elem_of_app. right. by left.
Qed.

Lemma wp_replaceStopped i ref current (Q : res (string * (GraphSnapshot * PhaseEndpoint)) -> W -> Prop) b f s new : input = PhaseStopped i ->
  resumed i new ref current -> (forall e s' new', ok new' -> Q (Err e) (at_call b f s' new')) ->
  (forall r s' new', resumed i new' r.1 r.2 -> Q (Ok r) (at_call b f s' new')) ->
  wp (replaceStopped options projectID i ref current) Q (at_call b f s new).
Proof.
  intros Hin [Hok Hs Heff Hstop Hsaw Hep] He Ha. assert (si_InputRef i = input_ref input) as Href by (by rewrite Hin). unfold replaceStopped. rewrite Href.
  case_bool_decide; [by apply wp_ret, Ha|]. apply wp_bind, wp_replace; [done| |done|by intros; apply He|].
  - rewrite Hin, Hep. by eapply replace_stopped.
  - intros ref' s1 new1 Hok1 Hs1 Heff1. apply wp_bind. eapply (wp_refreshed i ref'); [done|by auto|done|by apply applied_app|by intros; apply He|].
    intros c s2 new2 Hr. by apply wp_ret, Ha.
Qed.

Lemma wp_releaseStopped i ref current (Q : res (string * GraphSnapshot) -> W -> Prop) b f s new : input = PhaseStopped i ->
  resumed i new ref current -> (forall e s' new', ok new' -> Q (Err e) (at_call b f s' new')) ->
  (forall r s' new', ok new' -> silent new' -> took_effect new' r.1 -> Q (Ok r) (at_call b f s' new')) ->
  wp (releaseStopped options projectID i ref current) Q (at_call b f s new).
Proof.
  intros Hin [Hok Hs Heff Hstop Hsaw Hep] He Ha. assert (si_InputRef i = input_ref input) as Href by (by rewrite Hin). unfold releaseStopped. rewrite Href.
  destruct (si_ReleaseAfterReplace i) eqn:Hrel; [|by apply wp_ret, Ha]. apply wp_bind, wp_graph_transition; [done| |done|].
  - rewrite Hin, Hep. by eapply ground_after_stop.
  - intros ref' s1 new1 Hok1 Hs1 Ht1 _. apply wp_bind, wp_latestSnapshot; [done|by intros; apply He|]. intros snapshot s2 Hok2. apply wp_ret, Ha; simpl; [done| |].
    + apply silent_snoc; [by auto|done].
    + apply took_effect_app. left. eexists. apply elem_of_app. by right.
Qed.

Lemma wp_HandlePhaseStopped i b f s : input = PhaseStopped i -> wp (HandlePhaseStopped options projectID i) finished (at_call b f s []).
Proof.
  intros Hin. assert (si_InputRef i = input_ref input) as Href by (by rewrite Hin). unfold HandlePhaseStopped, stoppedRejected. rewrite Href.
  apply wp_guard; [intros; apply at_call_finished, trace_ok_nil|]. intros u [Hev Hcp]%validateStoppedInput_Ok.
  apply wp_bind, wp_latestSnapshot; [apply trace_ok_nil|intros; apply at_call_finished, trace_ok_nil|]. intros snapshot s1 Hok1.
  assert (silent ([] ++ [Saw snapshot])) as Hs1 by (apply silent_snoc; [apply silent_nil|done]).
  destruct (findEndpoint snapshot (si_Endpoint i)) as [endpoint|] eqn:Hf; [|by apply wp_replyTerminal].
  case_bool_decide as Hgen; [by apply wp_replyTerminal|]. case_bool_decide as Hpol; [by apply wp_replyTerminal|].
  apply wp_bind, wp_graph_transition; [done| |by intros; apply at_call_finished|].
  - rewrite Hin. eapply ground_stopped; [by apply saw_last|done|done|done|done].
  - intros ref s2 new2 Hok2 Hs2 Ht2 Hap2. apply wp_bind. eapply (wp_refreshed i ref); [done|by auto| | |by intros; apply at_call_finished|].
    + left. eexists. apply elem_of_app. by right.
    + destruct Hap2 as (submission & rev & ref' & Hd & Hg & Ht). exists submission, rev, ref'. rewrite !elem_of_app. auto.
    + intros current s3 new3 Hr3. apply wp_bind. eapply wp_replaceStopped; [done|done|by intros; apply at_call_finished|]. intros [ref4 current4] s4 new4 Hr4.
      apply wp_bind. eapply wp_releaseStopped; [done|done|by intros; apply at_call_finished|]. intros [ref5 snapshot5] s5 new5 Hok5 Hs5 Heff5.
      apply wp_answer; [done|]. by apply accepted_backed.
Qed.

(** *** Deliveries *)

Lemma wp_completeTask i snapshot b f s new : input = DeliveryReported i -> ok new -> silent new ->
  grounded new (snap_Revision snapshot) input (doneTransition (di_TaskID i)) -> wp (completeTask options projectID i snapshot) finished (at_call b f s new).
Proof.
  intros Hin Hok Hs Hg. assert (di_InputRef i = input_ref input) as Href by (by rewrite Hin). unfold completeTask. rewrite Href.
  apply wp_bind, wp_graph_transition; [done|done|by intros; apply at_call_finished|]. intros ref s1 new1 Hok1 Hs1 Ht1 _.
  apply wp_bind, wp_latestSnapshot; [done|by intros; apply at_call_finished|]. intros snapshot' s2 Hok2. apply wp_bind, wp_reply; [done| |].
  - apply accepted_backed; [by apply silent_snoc; auto|done|]. apply took_effect_app. left. eexists. apply elem_of_app. by right.
  - intros result e s3 new3 Hok3. simpl. destruct e; [by apply at_call_finished|]. apply wp_bind, wp_RetryFinalize; [done|]. intros. by apply at_call_finished.
Qed.

Lemma wp_HandleDelivery i b f s : input = DeliveryReported i -> wp (HandleDelivery options projectID i) finished (at_call b f s []).
Proof.
  intros Hin. assert (di_InputRef i = input_ref input) as Href by (by rewrite Hin). unfold HandleDelivery, deferDelivery. rewrite Href.
  apply wp_bind, wp_latestSnapshot; [apply trace_ok_nil|intros; apply at_call_finished, trace_ok_nil|]. intros snapshot s1 Hok1.
  destruct (findTask _ _); [|by apply at_call_finished]. apply wp_bind.
  apply (wp_port (fun contract => ContractRead (di_TaskID i) contract)); [done|done|by intros; apply at_call_finished|]. intros contract s2 Hok2.
  assert (silent (([] ++ [Saw snapshot]) ++ [ContractRead (di_TaskID i) contract])) as Hs2 by (do 2 (apply silent_snoc; [|done]); apply silent_nil).
  case_bool_decide; [by apply wp_replyTerminal|]. destruct (deliverySatisfied _ _) eqn:Hd; simpl; [|by apply wp_replyTerminal].
  destruct (findEndpoint snapshot _) as [verify|] eqn:Hf; [|by apply wp_replyTerminal]. case_bool_decide as Hv; [by apply wp_replyTerminal|].
  apply wp_completeTask; [done|done|done|]. rewrite Hin. apply (ground_done _ _ i contract verify); [|done| |done].
  - simpl. right. by left.
  - exists snapshot. split_and!; [by left|done|done].
Qed.

End rules.

Lemma handle_finished w : exists new, mg_trace (handle options projectID input w).2 = mg_trace w ++ new /\ ok new.
Proof.
  destruct w as [b f s t]. simpl. pose proof (app_nil_r t) as Ht.
  assert (wp (handle options projectID input) (finished t) (at_call t b f s [])) as Hwp.
  { assert (forall input', input = input' -> wp (handle options projectID input') (finished t) (at_call t b f s [])) as Hall; [|by apply Hall].
    intros [i|i d|i|i|task] Hin; simpl.
    - by apply wp_HandleRequirement.
    - by apply wp_HandleManagerDecision.
    - by apply wp_HandlePhaseStopped.
    - by apply wp_HandleDelivery.
    - apply wp_RetryFinalize; [apply trace_ok_nil|]. intros. by apply at_call_finished. }
  unfold at_call in Hwp. rewrite Ht in Hwp. exact Hwp.
Qed.

(** C14: Every write the Task Manager makes to the coordination graph, whatever its
    collaborators answer, is covered by a decision that was persisted before it, at
    the revision it was based on, and rests on the graph read at that revision: an
    endpoint is held only when it was not, released only when it was held or after
    its stop was applied, stopped only when held at the generation of the evidence,
    replaced only after that stop, a task is done only when its contract's delivery
    policy is met by the evidence and its verify endpoint is satisfied, and a new task
    is the three endpoints of a valid contract, on the revision of a graph that was
    read.  A call replies at most once, and accepted only for a decision
    that took effect or that no change is needed. *)
Theorem manager_writes_grounded w :
  exists new, mg_trace (handle options projectID input w).2 = mg_trace w ++ new /\
    forall t1 x t2, new = t1 ++ x :: t2 -> call_backed t1 x.
Proof. apply handle_finished. Qed.

End manager.

(** ** Memory is frozen once *)

Section runs.
Context {S : Type} (options : Options S) (projectID : ProjectID).

(** A sequence of calls, with changes on the side of the collaborators between
    them. *)
Inductive manager_step : Manager S -> Manager S -> Prop :=
| manager_call input w : manager_step w (handle options projectID input w).2
| manager_env s w : manager_step w (mkManager (mg_finalizeBatches w) (mg_finalized w) s (mg_trace w)).

Definition frozen (task : TaskID) (t : list ManagerCall) : list string :=
  omap (fun x => match x with MemoryFrozen task' batch => if bool_decide (task' = task) then Some batch else None | _ => None end) t.

Definition batch_of (task : TaskID) : string := "task-memory-freeze:" +:+ task.

(** The memory of a task is frozen once, and every try names the same batch. *)
Definition freezes_once (w : Manager S) : Prop :=
  (forall task batch, mg_finalizeBatches w !! task = Some batch -> batch = batch_of task) /\
  forall task, frozen task (mg_trace w) = if bool_decide (task ∈ mg_finalized w) then [batch_of task] else [].

Lemma frozen_app task t t' : frozen task (t ++ t') = frozen task t ++ frozen task t'.
Proof. apply omap_app. Qed.

Lemma freezes_port {A} (what : A -> list ManagerCall) (m : M error S A) : (forall a task, frozen task (what a) = []) -> keeps freezes_once (porting what m).
Proof.
  intros Hw [b f s t] [Hb Hf]. unfold wp, porting. simpl in *. destruct (m s) as [[a|e] s']; simpl; (split; simpl; [done|]); intros task;
    rewrite frozen_app; [rewrite Hw|]; rewrite app_nil_r; apply Hf.
Qed.

Lemma batchOf_name w task : freezes_once w -> batchOf w task = batch_of task.
Proof.
  intros [Hb _]. unfold batchOf. destruct (mg_finalizeBatches w !! task) as [batch|] eqn:Ht; [rewrite (Hb _ _ Ht)|]; reflexivity.
Qed.

Lemma freezes_RetryFinalize task : keeps freezes_once (RetryFinalize options task).
Proof.
  unfold RetryFinalize. destruct (op_MemoryFinalize options) as [finalize|]; [|by apply keeps_readonly]. intros w Hw. apply wp_get.
  case_bool_decide as Hfin; [done|]. rewrite (batchOf_name _ _ Hw). destruct Hw as [Hb Hf], w as [b f s t]. simpl in *. apply wp_modify. simpl.
  assert (forall task' batch, <[task := batch_of task]> b !! task' = Some batch -> batch = batch_of task') as Hb'
    by (intros task' batch [[<- <-]|[_ ?]]%lookup_insert_Some; [done|by apply Hb]).
  apply wp_bind, wp_catch, wp_bind. unfold wp at 1, porting. simpl. destruct (finalize task (batch_of task) s) as [[[]|e] s']; simpl.
  - split; simpl; [done|]. intros task'. rewrite frozen_app, Hf. simpl. destruct (decide (task' = task)) as [->|Hne].
    + rewrite (bool_decide_eq_false_2 (task ∈ f)) by done. rewrite !bool_decide_eq_true_2 by set_solver. done.
    + rewrite (bool_decide_eq_false_2 (task = task')) by done. rewrite app_nil_r. destruct (decide (task' ∈ f)) as [Hin|Hnin]; [rewrite !bool_decide_eq_true_2 by set_solver|rewrite !bool_decide_eq_false_2 by set_solver]; done.
  - rewrite app_nil_r. by split.
Qed.

Ltac freezes_tac :=
  repeat (intros; simpl; match goal with
  | |- keeps _ (porting _ _) => apply freezes_port; by intros
  | |- keeps _ (attempting _) => unfold attempting
  | |- keeps _ (catch _ _) => apply keeps_catch
  | |- keeps _ (lift _) => by apply keeps_readonly
  | |- keeps _ (mret _) => by apply keeps_readonly
  | |- keeps _ (throw _) => by apply keeps_readonly
  | |- keeps _ (RetryFinalize _ _) => apply freezes_RetryFinalize
  | |- keeps _ (_ ≫= _) => apply keeps_bind
  | |- keeps _ (match ?x with _ => _ end) => destruct x
  end); intros.

Lemma freezes_handle input : keeps freezes_once (handle options projectID input).
Proof.
  destruct input as [i|i d|i|i|task]; simpl.
  - unfold HandleRequirement, projectTask, replyTerminal, submitTerminalDecision, replacePending, latestRevision, latestSnapshot, submitDecision, reply. freezes_tac.
  - unfold HandleManagerDecision, controlEndpoint, replyTerminal, submitTerminalDecision, transition, latestSnapshot, submitDecision, reply. freezes_tac.
  - unfold HandlePhaseStopped, stoppedRejected, replaceStopped, releaseStopped, refreshed, replyTerminal, submitTerminalDecision, replacePending, transition,
      latestSnapshot, submitDecision, reply. freezes_tac.
  - unfold HandleDelivery, deferDelivery, completeTask, replyTerminal, submitTerminalDecision, transition, latestSnapshot, submitDecision, reply. freezes_tac.
  - apply freezes_RetryFinalize.
Qed.

(** However often the finalisation of a task is retried, after deliveries and
    failures in any order, its memory is frozen at most once, and every try names the
    same batch. *)
Theorem memory_frozen_once s w task : rtc manager_step (NewManager s) w ->
  frozen task (mg_trace w) = [] \/ frozen task (mg_trace w) = [batch_of task].
Proof.
  intros Hr. assert (freezes_once w) as [_ Hf].
  { assert (freezes_once (NewManager s)) as H0 by (split; simpl; [done|]; intros task'; by rewrite bool_decide_eq_false_2 by set_solver).
    revert H0. induction Hr as [|x y z Hst _ IH]; [done|]. intros Hx. apply IH. destruct Hst as [input w|s' w]; [by apply freezes_handle|done]. }
  rewrite Hf. case_bool_decide; [by right|by left].
Qed.

End runs.


(** ** Witness *)

Module ManagerSample.

Definition refused {A B : Type} (_ : A) : M error nat B := throw (InvalidArgument "refused").

(** Freezing fails the first time. *)
Definition finalize (task : TaskID) (batch : string) : M error nat unit :=
  tries ← get_state;
  _ ← put_state (S tries);
  lift (fail_if (bool_decide (tries = 0)) (InvalidArgument "busy")).

Definition sample : Options nat :=
  mkOptions nat refused refused (fun _ => refused) refused refused refused None None (Some finalize).

Definition retried (w : Manager nat) : Manager nat := (handle sample "p1" (FinalizeRetried "t1") w).2.

Lemma memory_frozen_once_witness :
  let w := retried (retried (retried (NewManager 0))) in
  frozen "t1" (mg_trace w) = [batch_of "t1"] /\ (frozen "t1" (mg_trace w) = [] \/ frozen "t1" (mg_trace w) = [batch_of "t1"]).
Proof.
  split; [vm_compute; reflexivity|]. apply (memory_frozen_once sample "p1" 0).
  eapply rtc_l; [exact (manager_call sample "p1" (FinalizeRetried "t1") (NewManager 0))|].
  eapply rtc_l; [exact (manager_call sample "p1" (FinalizeRetried "t1") (retried (NewManager 0)))|].
  apply rtc_once. exact (manager_call sample "p1" (FinalizeRetried "t1") (retried (retried (NewManager 0)))).
Defined.

End ManagerSample.
