(* ===== verification/FakeHost.v ===== *)
(** * The demonstration host

    [app/fakehost/app.go]: the Task Manager application on the in-memory
    coordination store, with the decision store, conversations and invocations of the
    host, driven by operator messages.  The event log is an interface over a state
    [R], and so is the clock; JSON encodings and the payload hash are parameters. *)

From stdpp Require Import base tactics option list strings gmap sorting.
From Stdlib Require Import ZArith Ascii.
From S2P Require Import Prelude GoLib GoStrings Kernel CoordTypes MemoryStore Idempotency Auth Service GraphRuntime Scheduler.
From S2P Require Import EvLog Catalog Invocation TaskManager.

Definition DemoProjectID : ProjectID := "demo-project".

(** ** Data *)

Record ManagerMessageRequest := mkMessage {
  mm_RequestID : string;
  mm_ProjectID : ProjectID;
  mm_ConversationID : string;
  mm_Body : string;
  mm_Intent : string;
  mm_SelectedEndpoint : option PhaseEndpointRef;
  mm_ObservedGraphRevision : option Revision;
}.

Record ManagerMessageResponse := mkMessageResponse {
  mp_ManagerInputRef : string;
  mp_InvocationRef : InvocationID;
  mp_ConversationID : string;
  mp_Status : string;
}.

Record ManagerConversationEntry := mkEntry {
  me_EntryID : string;
  me_Kind : string;
  me_CreatedAt : Time;
  me_ManagerInputRef : string;
  me_DecisionRef : string;
  me_GraphRevision : Revision;
  me_Body : string;
  me_Disposition : string;
}.

Record ManagerConversation := mkConversation {
  mv_ConversationID : string;
  mv_ProjectID : ProjectID;
  mv_Messages : list ManagerConversationEntry;
  mv_Cursor : string;
}.

(** The payloads of the events. *)
Inductive HostPayload :=
| ManagerInteraction (conversationID : string) (entry : ManagerConversationEntry)
| GraphRevised (revision : Revision) (managerInputRef decisionRef : string)
| InvocationUpdated (endpoint : PhaseEndpointRef) (generation : Z) (invocationID : InvocationID) (status : string)
| CapacityUpdated (projectID : ProjectID) (capacity : RuntimeCapacity) (waiting : Z) (updatedAt : Time).

(** What the Task Manager works on: the decision store, the coordination service and
    the event log. *)
Record HostWorld (R : Type) := mkHostWorld {
  hw_next : Z;
  hw_records : list DecisionSubmission;
  hw_graph : IdempotencyStore * (DecisionLog * MemoryStore);
  hw_events : R;
}.
Arguments mkHostWorld {R}.
Arguments hw_next {R}.
Arguments hw_records {R}.
Arguments hw_graph {R}.
Arguments hw_events {R}.

Record state (R : Type) := mkHost {
  st_manager : Manager (HostWorld R);
  st_capacity : RuntimeCapacity;
  st_invocations : list Invocation;
  st_conversations : gmap string (list ManagerConversationEntry);
}.
Arguments mkHost {R}.
Arguments st_manager {R}.
Arguments st_capacity {R}.
Arguments st_invocations {R}.
Arguments st_conversations {R}.

(** ** Messages *)

(** [strings.ToLower] on the ASCII letters.  Beyond ASCII only U+0130 and U+212A have
    an ASCII lower case, [i] and [k], which occur in none of the words searched. *)
Definition lower_ascii (c : ascii) : ascii :=
  let n := N_of_ascii c in if ((65 <=? n) && (n <=? 90))%N then ascii_of_N (n + 32) else c.

Fixpoint ToLower (s : string) : string :=
  match s with EmptyString => EmptyString | String c rest => String (lower_ascii c) (ToLower rest) end.

Definition managerAction (body : string) (endpoint : option PhaseEndpointRef) : string :=
  match endpoint with
  | None => "no_change"
  | Some _ =>
    let lower := ToLower body in
    if Contains "hold" lower || Contains "stop" lower || Contains "暂停" body || Contains "停止" body then "held"
    else if Contains "resume" lower || Contains "release" lower || Contains "恢复" body then "released"
    else "no_change"
  end.

Definition selectedEndpoint (endpoint : option PhaseEndpointRef) : PhaseEndpointRef := default zeroRef endpoint.

Definition host_targetRef (endpoint : option PhaseEndpointRef) : string :=
  match endpoint with None => "" | Some endpoint => ref_TaskID endpoint +:+ "/" +:+ ref_EndpointID endpoint end.

Definition host_binding (taskID : TaskID) (endpointID : EndpointID) (generation : Z) : BindingRef :=
  "binding://demo/" +:+ taskID +:+ "/" +:+ endpointID +:+ "/" +:+ format_int generation.

Definition phaseEndpoint (taskID : TaskID) (endpointID : EndpointID) : PhaseEndpoint :=
  mkEndpoint (mkRef taskID endpointID) ("spec://demo/" +:+ taskID +:+ "/" +:+ endpointID) (host_binding taskID endpointID 1) 1 EndpointPending RunEnabled.

Definition taskEndpoints (taskID : TaskID) : list PhaseEndpoint :=
  [phaseEndpoint taskID EndpointPlan; phaseEndpoint taskID EndpointExecute; phaseEndpoint taskID EndpointVerify].

Section host.
Context `{GR : GoRuntime} {R : Type}.
Context (hashPayload : string -> string).
Context (encodePending : PendingSubgraph -> string).
Context (encodeTransition : Revision -> string -> GraphTransition -> string).
Context (encodePayload : HostPayload -> string).
Context (append : AppendEvent -> M error R unit).
Context (clock : M error R Time).
Context (resolveContract : RequirementInput -> M error R TaskContract) (taskContract : TaskID -> M error R TaskContract).
Context (projectID : ProjectID) (startedAt : Time).

Local Abbreviation W := (HostWorld R).
Local Abbreviation St := (state R).

Definition taskManagerPrincipal : Auth.Principal :=
  mkPrincipal "fake-task-manager" PrincipalAgent projectID RoleTaskManager "" "" "invocation://fake-task-manager/bootstrap" "" "" ""
    (ToolSet [ToolCoordinationSnapshot; ToolTaskManagerSubmitDecision; ToolCoordinationReplacePending; ToolCoordinationTransition]) startedAt.

(** ** The collaborators of the Task Manager *)

Definition on_graph {A} (m : M error (IdempotencyStore * (DecisionLog * MemoryStore)) A) : M error W A := fun w =>
  let '(r, g) := m (hw_graph w) in (r, mkHostWorld (hw_next w) (hw_records w) g (hw_events w)).

Definition on_log {A} (m : M error DecisionLog A) : M error (IdempotencyStore * (DecisionLog * MemoryStore)) A := fun w =>
  let '(r, l) := m w.2.1 in (r, (w.1, (l, w.2.2))).

Definition on_events {A} (m : M error R A) : M error W A := fun w =>
  let '(r, x) := m (hw_events w) in (r, mkHostWorld (hw_next w) (hw_records w) (hw_graph w) x).

Definition decisionRef (n : Z) : string := "decision://fakehost/" +:+ format_int n.

(** The counter advances also when the decision log refuses. *)
Definition SubmitDecision (submission : DecisionSubmission) : M error W string :=
  _ ← modify (fun w => mkHostWorld (int_wrap (hw_next w + 1)) (hw_records w) (hw_graph w) (hw_events w));
  w ← get_state;
  let ref := decisionRef (hw_next w) in
  _ ← (if bool_decide (su_Kind submission = DecisionKindReplacePending)
       then on_graph (on_log (RegisterReplacePending (su_ProjectID submission) ref))
       else if bool_decide (su_Kind submission = DecisionKindTransition)
       then on_graph (on_log (RegisterTransition (su_ProjectID submission) ref (su_Transition submission)))
       else mret tt);
  _ ← modify (fun w => mkHostWorld (hw_next w) (hw_records w ++ [submission]) (hw_graph w) (hw_events w));
  mret ref.

Definition interactionEvent (key : string) (revision : Revision) (conversationID : string) (entry : ManagerConversationEntry) : AppendEvent :=
  mkAppend key "manager.interaction" projectID "" "" "" "" (Some (Ok (encodePayload (ManagerInteraction conversationID entry)))) [] (int_wrap revision).

Definition AppendManagerReply (reply : ManagerReplyEvent) : M error R unit :=
  now ← clock;
  append (interactionEvent ("manager-reply:" +:+ ry_InputRef reply +:+ ":" +:+ ry_DecisionRef reply) (ry_GraphRevision reply) ""
    (mkEntry "" "decision" now (ry_InputRef reply) (ry_DecisionRef reply) (ry_GraphRevision reply) "" (ry_Status reply))).

(** The host configures no task context and no finalizer.  It has no contract store
    either: none of its operations asks for a contract, so any store, as part of [R],
    stands for it. *)
Definition hostOptions : Options W :=
  mkOptions W
    (fun revision => on_graph (Service_Snapshot taskManagerPrincipal true revision))
    (fun subgraph => on_graph (Service_ReplacePending hashPayload encodePending taskManagerPrincipal true true subgraph))
    (fun revision ref => on_graph (Service_Transition hashPayload encodeTransition taskManagerPrincipal true true revision ref))
    SubmitDecision
    (fun input => on_events (resolveContract input)) (fun task => on_events (taskContract task))
    None (Some (fun reply => on_events (AppendManagerReply reply))) None.

(** ** The host *)

Definition on_manager {A} (m : M error (Manager W) A) : M error St A := fun s =>
  let '(r, w) := m (st_manager s) in (r, mkHost w (st_capacity s) (st_invocations s) (st_conversations s)).

(** Calls of the host itself, outside the Task Manager. *)
Definition on_collaborators {A} (m : M error W A) : M error St A := on_manager (fun w =>
  let '(r, x) := m (mg_world w) in (r, mkManager (mg_finalizeBatches w) (mg_finalized w) x (mg_trace w))).

Definition on_capacity {A} (m : M error RuntimeCapacity A) : M error St A := fun s =>
  let '(r, c) := m (st_capacity s) in (r, mkHost (st_manager s) c (st_invocations s) (st_conversations s)).

Definition host_now : M error St Time := on_collaborators (on_events clock).
Definition host_append (event : AppendEvent) : M error St unit := on_collaborators (on_events (append event)).
Definition host_snapshot : M error St GraphSnapshot := on_collaborators (on_graph (Service_Snapshot taskManagerPrincipal true LatestRevision)).

(** [1] when the graph cannot be read or lacks the endpoint. *)
Definition generationFor (ref : PhaseEndpointRef) : M error St Z :=
  catch (snapshot ← host_snapshot; mret (match findEndpoint snapshot ref with Some e => ep_Generation e | None => 1%Z end)) (fun _ => mret 1%Z).

Definition appendConversation (conversationID : string) (entry : ManagerConversationEntry) : M error St unit :=
  _ ← modify (fun s => mkHost (st_manager s) (st_capacity s) (st_invocations s)
        (<[conversationID := default [] (st_conversations s !! conversationID) ++ [entry]]> (st_conversations s)));
  if bool_decide (me_Kind entry <> "user_message") then mret tt
  else host_append (interactionEvent ("manager-message:" +:+ me_ManagerInputRef entry) 0 conversationID
         (mkEntry (me_EntryID entry) (me_Kind entry) (me_CreatedAt entry) (me_ManagerInputRef entry) "" 0 (me_Body entry) "")).

Definition appendGraphRevision (inputRef ref : string) (revision : Revision) : M error St unit :=
  revision ← (if bool_decide (revision = 0%Z) then snapshot ← host_snapshot; mret (snap_Revision snapshot) else mret revision);
  host_append (mkAppend ("graph:" +:+ inputRef +:+ ":" +:+ ref +:+ ":" +:+ format_int revision) "graph.revision" projectID "" "" "" ""
    (Some (Ok (encodePayload (GraphRevised revision inputRef ref)))) [] (int_wrap revision)).

Definition appendInvocationUpdated (requestID : string) (endpoint : PhaseEndpointRef) (invocationID : InvocationID) : M error St unit :=
  if bool_decide (ref_TaskID endpoint = "") then mret tt
  else
    generation ← generationFor endpoint;
    host_append (mkAppend ("invocation-updated:" +:+ requestID) "invocation.updated" projectID (ref_TaskID endpoint) "" (ref_EndpointID endpoint)
      invocationID (Some (Ok (encodePayload (InvocationUpdated endpoint generation invocationID "running")))) [] 0).

Definition roleFor (endpointID : EndpointID) : Role :=
  if bool_decide (endpointID = EndpointVerify) then RoleVerifier else if bool_decide (endpointID = EndpointExecute) then RoleExecutor else RolePlanner.

Definition newInvocation (s : St) (taskID : TaskID) (endpointID : EndpointID) (generation : Z) (status : string) (createdAt expiresAt : Time) : Invocation :=
  let at_generation (scheme : string) := scheme +:+ taskID +:+ "/" +:+ endpointID +:+ "/" +:+ format_int generation in
  mkInvocation (at_generation "invocation://" +:+ "/" +:+ format_int (Z.of_nat (length (st_invocations s)) + 1)) ("fake-" +:+ roleFor endpointID)
    projectID taskID endpointID "" "" "" (uint64_wrap generation) (roleFor endpointID) "" status (host_binding taskID endpointID generation)
    (at_generation "lease://demo/") ("workspace://demo/" +:+ taskID) (at_generation "context-slice://") ("task-memory-buffer://" +:+ taskID)
    {["system" := "fake"]} {["role" := "fake"]} [ToolContextListSubgraphs] createdAt (expiresAt + hour).

Definition createInvocation (taskID : TaskID) (endpointID : EndpointID) (generation : Z) (status : string) : M error St InvocationID :=
  s ← get_state;
  createdAt ← host_now;
  expiresAt ← host_now;
  let invocation := newInvocation s taskID endpointID generation status createdAt expiresAt in
  _ ← modify (fun s => mkHost (st_manager s) (st_capacity s) (st_invocations s ++ [invocation]) (st_conversations s));
  _ ← (if bool_decide (status = InvocationRunning) || bool_decide (status = InvocationWaiting)
       then catch (c ← on_capacity get_state; _ ← on_capacity (CapacityLedger_Observe (cap_Healthy c) 1); mret tt) (fun _ => mret tt)
       else mret tt);
  mret (in_ID invocation).

Definition runsAt (ref : PhaseEndpointRef) (generation : Z) (i : Invocation) : bool :=
  bool_decide (in_TaskID i = ref_TaskID ref) && bool_decide (in_EndpointID i = ref_EndpointID ref) &&
  bool_decide (in_Generation i = uint64_wrap generation) && bool_decide (in_Status i = InvocationRunning).

Definition stopInvocation (ref : PhaseEndpointRef) (generation : Z) : M error St unit :=
  modify (fun s => mkHost (st_manager s) (st_capacity s)
    ((fun i => if runsAt ref generation i then in_set_Status InvocationStopped i else i) <$> st_invocations s) (st_conversations s)).

Definition waitingInvocations (s : St) : Z :=
  Z.of_nat (length (filter (fun i => in_Status i = InvocationWaiting) (st_invocations s))).

Definition ListInvocations (filter : InvocationFilter) (s : St) : list Invocation :=
  base.filter (fun i => (fi_ProjectID filter = "" \/ in_ProjectID i = fi_ProjectID filter) /\ (fi_TaskID filter = "" \/ in_TaskID i = fi_TaskID filter) /\
    (fi_EndpointID filter = "" \/ in_EndpointID i = fi_EndpointID filter) /\ (fi_Generation filter = 0%Z \/ in_Generation i = fi_Generation filter))
    (st_invocations s).

(** The entries after the first one named [after], or all when there is none. *)
Fixpoint entriesAfter (after : string) (entries : list ManagerConversationEntry) : option (list ManagerConversationEntry) :=
  match entries with
  | [] => None
  | entry :: rest => if bool_decide (me_EntryID entry = after) then Some rest else entriesAfter after rest
  end.

Definition Conversation (conversationID after : string) (s : St) : ManagerConversation :=
  let entries := default [] (st_conversations s !! conversationID) in
  let entries := if bool_decide (after <> "") then default entries (entriesAfter after entries) else entries in
  mkConversation conversationID projectID entries (match last entries with Some entry => me_EntryID entry | None => "" end).

Definition AdjustCapacity (requestID : string) (request_ProjectID : ProjectID) (expectedRevision desired : Z) : M error St RuntimeCapacity :=
  capacity ← on_capacity (SetDesired expectedRevision desired);
  now ← host_now;
  s ← get_state;
  _ ← host_append (mkAppend ("capacity:" +:+ requestID) "capacity.updated" request_ProjectID "" "" "" ""
        (Some (Ok (encodePayload (CapacityUpdated request_ProjectID capacity (waitingInvocations s) now)))) [] 0);
  mret capacity.

(** *** Operator messages *)

(** A call of the Task Manager whose error is the error of the message. *)
Definition managed (m : M error (Manager W) (Result * option error)) : M error St Result :=
  outcome ← on_manager m;
  match outcome with (_, Some e) => throw e | (result, None) => mret result end.

Definition messageInput (request : ManagerMessageRequest) : ManagerDecisionInput :=
  mkManagerInput ("manager-input://" +:+ mm_RequestID request) (selectedEndpoint (mm_SelectedEndpoint request))
    (default 0%Z (mm_ObservedGraphRevision request)).

Definition messageDecision (request : ManagerMessageRequest) : TaskManagerDecision :=
  let action := managerAction (mm_Body request) (mm_SelectedEndpoint request) in
  mkManagerDecision action
    (if bool_decide (action = "held") || bool_decide (action = "released") then host_targetRef (mm_SelectedEndpoint request) else "")
    [] "fake Task Manager parsed operator message".

Definition stopInput (request : ManagerMessageRequest) (generation : Z) : PhaseStoppedInput :=
  let endpoint := selectedEndpoint (mm_SelectedEndpoint request) in
  mkStoppedInput ("manager-input://" +:+ mm_RequestID request) endpoint ("fake-stop-command://" +:+ mm_RequestID request)
    ("fake-lease://" +:+ mm_RequestID request) generation ["manager-stop://" +:+ mm_RequestID request] ("checkpoint://" +:+ mm_RequestID request) false
    (host_binding (ref_TaskID endpoint) (ref_EndpointID endpoint) (int_wrap (generation + 1))) "" (mkReplacement [] [] []) false.

(** Holding also stops the phase: the revision and the decision of the stop. *)
Definition holdEndpoint (request : ManagerMessageRequest) : M error St (Revision * string) :=
  let endpoint := selectedEndpoint (mm_SelectedEndpoint request) in
  generation ← generationFor endpoint;
  stopped ← managed (HandlePhaseStopped hostOptions projectID (stopInput request generation));
  _ ← stopInvocation endpoint generation;
  mret (mr_GraphRevision stopped, mr_DecisionRef stopped).

Definition SubmitManagerMessage (request : ManagerMessageRequest) : M error St ManagerMessageResponse :=
  let inputRef := "manager-input://" +:+ mm_RequestID request in
  let endpoint := selectedEndpoint (mm_SelectedEndpoint request) in
  let action := managerAction (mm_Body request) (mm_SelectedEndpoint request) in
  now ← host_now;
  _ ← appendConversation (mm_ConversationID request)
        (mkEntry ("entry://" +:+ mm_RequestID request +:+ "/message") "user_message" now inputRef "" 0 (mm_Body request) "");
  result ← managed (HandleManagerDecision hostOptions projectID (messageInput request) (messageDecision request));
  written ← (if bool_decide (action = "held") then holdEndpoint request else mret (mr_GraphRevision result, mr_DecisionRef result));
  invocationID ← (if bool_decide (action = "released")
                  then generation ← generationFor endpoint; createInvocation (ref_TaskID endpoint) (ref_EndpointID endpoint) generation InvocationRunning
                  else mret "");
  _ ← (if bool_decide (action <> "no_change") then appendGraphRevision inputRef written.2 written.1 else mret tt);
  _ ← (if bool_decide (invocationID <> "") then appendInvocationUpdated (mm_RequestID request) endpoint invocationID else mret tt);
  now ← host_now;
  _ ← catch (appendConversation (mm_ConversationID request)
        (mkEntry ("entry://" +:+ mm_RequestID request +:+ "/decision") "decision" now inputRef written.2 written.1 "" (mr_Status result))) (fun _ => mret tt);
  mret (mkMessageResponse inputRef ("invocation://manager/" +:+ mm_RequestID request) (mm_ConversationID request) (mr_Status result)).

(** *** Start *)

Definition bootstrapRef : string := "decision://fakehost/bootstrap/demo-project".

Definition bootstrapSubgraph (revision : Revision) : PendingSubgraph :=
  mkPending bootstrapRef revision
    [mkTask "task-alpha" "contract://demo/task-alpha" TaskActive; mkTask "task-beta" "contract://demo/task-beta" TaskActive]
    (taskEndpoints "task-alpha" ++ taskEndpoints "task-beta") [] [].

Definition bootstrap : M error St unit :=
  snapshot ← host_snapshot;
  _ ← on_collaborators (on_graph (on_log (RegisterReplacePending projectID bootstrapRef)));
  _ ← on_collaborators (on_graph (Service_ReplacePending hashPayload encodePending taskManagerPrincipal true true (bootstrapSubgraph (snap_Revision snapshot))));
  _ ← createInvocation "task-alpha" EndpointExecute 1 InvocationRunning;
  _ ← createInvocation "task-alpha" EndpointPlan 1 InvocationCompleted;
  appendGraphRevision "bootstrap" bootstrapRef 0.

Definition New (events : R) : St :=
  mkHost (NewManager (mkHostWorld 0 [] (∅, (∅, NewMemoryStore)) events)) (NewCapacityLedger 4 2) [] ∅.

End host.
