(* ===== verification/FakeHostProps.v ===== *)
(** * The demonstration host, end to end

    The Task Manager, the decision store, the coordination service and the in-memory
    store together: what an operator message does to the coordination graph, and what
    an accepted delivery leaves in it. *)

From stdpp Require Import base tactics option list strings gmap sorting relations.
From Stdlib Require Import ZArith Ascii.
From S2P Require Import Prelude GoLib GoStrings Kernel CoordTypes Acyclic Validation GraphSpec Transition TransitionSpec MemoryStore.
From S2P Require Import StoreInv CommandStore CommandInv StoreReach CoordProps Idempotency Auth Service GraphRuntime Scheduler Hoare PlatformProps.
From S2P Require Import EvLog Catalog Invocation TaskManager FakeHost.

(** A reading of the snapshot is a reading of the graph. *)
Lemma snapshot_findEndpoint `{GR : GoRuntime} st rev ref : coherent st -> findEndpoint (graphState_snapshot st rev) ref = g_endpoints st !! ref.
Proof.
  intros [_ Hco _ _]. unfold findEndpoint. simpl. destruct (list_find _ _) as [[i e]|] eqn:Hf; simpl.
  - apply list_find_Some in Hf as (Hi & Heq & _). apply list_elem_of_lookup_2 in Hi. rewrite sort_slice_perm, elem_of_range_values in Hi.
    destruct Hi as (r & Hr). rewrite <- Heq, (Hco _ _ Hr). done.
  - symmetry. apply eq_None_not_Some. intros [e He]. rewrite list_find_None, Forall_forall in Hf.
    apply (Hf e); [|by apply Hco]. rewrite sort_slice_perm, elem_of_range_values. eauto.
Qed.

Section host.
Context `{GR : GoRuntime} {R : Type}.
Context (hashPayload : string -> string).
Context (encodePending : PendingSubgraph -> string).
Context (encodeTransition : Revision -> string -> GraphTransition -> string).
Context (encodePayload : HostPayload -> string).
Context (append : AppendEvent -> M error R unit).
Context (clock : M error R Time).
Context (resolveContract : RequirementInput -> M error R TaskContract) (taskContract : TaskID -> M error R TaskContract).
Context (projectID : ProjectID) (startedAt : Time).

Local Abbreviation G := (IdempotencyStore * (DecisionLog * MemoryStore))%type.
Local Abbreviation W := (HostWorld R).
Local Abbreviation St := (state R).
Local Abbreviation principal := (taskManagerPrincipal projectID startedAt).
Local Abbreviation options :=
  (hostOptions hashPayload encodePending encodeTransition encodePayload append clock resolveContract taskContract projectID startedAt).

Definition project (g : G) : projectState := ensureProject projectID g.2.2.

Definition transitionKey (ref : string) : recordKey := (projectID +:+ ":coordination.transition", ref).

(** ** The service *)

Lemma host_scope tool scope : require principal tool = Ok scope -> sc_ProjectID scope = projectID.
Proof. by intros (_ & _ & _ & ->)%require_Ok. Qed.

Lemma snapshot_run g r g' : Service_Snapshot principal true LatestRevision g = (r, g') ->
  g'.1 = g.1 /\ g'.2.1 = g.2.1 /\ project g' = project g /\
  forall snap, r = Ok snap -> snap = graphState_snapshot (pj_current (project g)) (pj_latest (project g)).
Proof.
  unfold Service_Snapshot, mbind, M_bind, lift, on_world. destruct (require principal _) as [scope|e] eqn:Hs; [|by intros [= <- <-]].
  apply host_scope in Hs. rewrite Hs. simpl. unfold Latest, mbind, M_bind, lift. destruct (requireProjectID projectID); [|by intros [= <- <-]].
  intros [= <- <-]. split_and!; [done|done| |by intros snap [= <-]]. unfold project, ensureProject. simpl. by rewrite lookup_insert_eq.
Qed.

Lemma transitionProject_snapshot rev tr p snap p' : transitionProject rev tr p = (Ok snap, p') -> is_uint64 (snap_Revision snap).
Proof.
  intros (_ & _ & _ & _ & _ & st & p1 & _ & _ & Hc & _)%transitionProject_run. rewrite commit_run in Hc. injection Hc as <- _.
  unfold Revision_Next, uint64_wrap, is_uint64. simpl. apply Z.mod_pos_bound. lia.
Qed.

Lemma transitionExecutor_project rev ref tr x r x' : transitionExecutor projectID rev ref tr x = (r, x') ->
  x'.1 = x.1 /\
  match r with
  | Ok response => exists snap p', transitionProject rev tr (ensureProject projectID x.2) = (Ok snap, p') /\ response = respond snap /\ ensureProject projectID x'.2 = p'
  | Err _ => ensureProject projectID x'.2 = ensureProject projectID x.2
  end.
Proof.
  destruct x as [l s]. unfold transitionExecutor, on_store, TransitionWithDecisionRef, store_transition, locked, mbind, M_bind, lift. simpl.
  destruct (fail_if _ _); [|by intros [= <- <-]]. destruct (requireProjectID _); [|by intros [= <- <-]].
  destruct (validateTransitionShape tr); [|by intros [= <- <-]].
  destruct (transitionProject rev tr _) as [[snap|e] p'] eqn:Ht; intros [= <- <-]; (split; [done|]); unfold ensureProject at 1; simpl; rewrite lookup_insert_eq.
  - by exists snap, p'.
  - by apply transitionProject_Err in Ht as ->.
Qed.

Lemma transition_run rev ref tr g r g' :
  g.2.1 !! (projectID, ref) = Some (mkDecision DecisionTransition tr) -> g.1 !! transitionKey ref = None ->
  Service_Transition hashPayload encodeTransition principal true true rev ref g = (r, g') ->
  g'.2.1 = g.2.1 /\ (forall k, k <> transitionKey ref -> g'.1 !! k = g.1 !! k) /\
  match r with
  | Ok _ => exists snap p', transitionProject rev tr (project g) = (Ok snap, p') /\ project g' = p'
  | Err _ => project g' = project g
  end.
Proof.
  intros Hlog Hrec. destruct g as [records x]. simpl in *. unfold Service_Transition, mbind, M_bind, lift, get_state.
  destruct (require principal _) as [scope|e] eqn:Hs; [|by intros [= <- <-]]. apply host_scope in Hs. rewrite Hs. simpl.
  case_bool_decide; [by intros [= <- <-]|]. simpl. unfold ResolveTransition. rewrite Hlog. simpl. unfold Execute.
  destruct (validateExecute _ ref); [|by intros [= <- <-]]. fold (transitionKey ref). rewrite Hrec.
  destruct (transitionExecutor _ _ _ _ _) as [[response|e] x'] eqn:Hex; apply transitionExecutor_project in Hex as [Hl Hx].
  - destruct Hx as (snap & p' & Ht & -> & Hp). unfold revision_of, respond. simpl. rewrite decode_encode by (by eapply transitionProject_snapshot).
    intros [= <- <-]. simpl. split_and!; [done|intros k Hk; by rewrite lookup_insert_ne|]. by exists snap, p'.
  - intros [= <- <-]. done.
Qed.

(** ** Decisions *)

(** The references that the decision store has not given out are unused, and the
    graph of the project is well formed. *)
Record hosted (w : W) : Prop := mkHosted {
  ho_id : IsZeroID projectID = false;
  ho_next : (0 <= hw_next w)%Z;
  ho_records : forall n, (hw_next w < n)%Z -> (hw_graph w).1 !! transitionKey (decisionRef n) = None;
  ho_log : forall n, (hw_next w < n)%Z -> (hw_graph w).2.1 !! (projectID, decisionRef n) = None;
  ho_graph : graph_inv (project (hw_graph w));
}.

(** The graph is that of [p], and at least [k] decisions can be submitted before the
    counter overflows. *)
Record room (k : Z) (p : projectState) (w : W) : Prop := mkRoom {
  ro_hosted : hosted w;
  ro_left : (hw_next w + k <= int_max)%Z;
  ro_project : project (hw_graph w) = p;
}.

Lemma decisionRef_inj n m : decisionRef n = decisionRef m -> n = m.
Proof. unfold decisionRef. intros H%string_app_inj_l. by apply format_int_inj. Qed.

Lemma room_graph k p n l g x g' x' : room k p (mkHostWorld n l g x) -> g'.1 = g.1 -> g'.2.1 = g.2.1 -> project g' = project g ->
  room k p (mkHostWorld n l g' x').
Proof. intros [[Hid Hn Hr Hl Hg] Hk Hp] H1 H2 H3. simpl in *. split; [split|..]; simpl; rewrite ?H1, ?H2, ?H3; done. Qed.

Lemma room_less k k' p w : room k p w -> (k' <= k)%Z -> room k' p w.
Proof. intros [Hh Hl Hp] Hk. split; [done|lia|done]. Qed.

Lemma register_run (ref : string) (tr : GraphTransition) (l : DecisionLog) (r : res unit) (l' : DecisionLog) : l !! (projectID, ref) = None -> RegisterTransition projectID ref tr l = (r, l') ->
  (forall k, k <> (projectID, ref) -> l' !! k = l !! k) /\ (r = Ok tt -> l' !! (projectID, ref) = Some (mkDecision DecisionTransition tr)).
Proof.
  intros Hl. unfold RegisterTransition, put, mbind, M_bind, lift, get_state, put_state. destruct (requireProjectID _); [|by intros [= <- <-]].
  destruct (fail_if _ _); [|by intros [= <- <-]]. destruct (validateTransitionShape _); [|by intros [= <- <-]]. rewrite Hl. intros [= <- <-].
  split; [intros k Hk; by rewrite lookup_insert_ne|]. intros _. by rewrite lookup_insert_eq.
Qed.

(** A decision on a transition, and the write that it covers. *)
Lemma decided_transition k p w inputRef rev decision tr r w' : room (1 + k) p w -> (0 <= k)%Z ->
  SubmitDecision (mkSubmission projectID inputRef rev decision DecisionKindTransition tr) w = (r, w') ->
  room k p w' /\ (forall ref, r = Ok ref -> ref = decisionRef (hw_next w') /\ (hw_graph w').1 !! transitionKey ref = None /\
    (hw_graph w').2.1 !! (projectID, ref) = Some (mkDecision DecisionTransition tr)).
Proof.
  intros [[Hid Hn Hr Hl Hg] Hk Hp] Hk0. destruct w as [n subs [records [l s]] x]. simpl in *. unfold SubmitDecision, mbind, M_bind, modify, get_state, on_graph, on_log.
  simpl. rewrite int_wrap_id by (unfold is_int, int_max, int_min in *; lia).
  destruct (RegisterTransition _ _ _ l) as [[[]|e] l'] eqn:Hreg; apply register_run in Hreg as [Hothers Hmine]; try (apply Hl; lia); intros [= <- <-].
  all: assert (forall m, (n + 1 < m)%Z -> records !! transitionKey (decisionRef m) = None) as Hr' by (intros m Hm; apply Hr; lia).
  all: assert (forall m, (n + 1 < m)%Z -> l' !! (projectID, decisionRef m) = None) as Hl'
    by (intros m Hm; rewrite Hothers; [apply Hl; lia|]; intros [_ Heq%decisionRef_inj]%pair_equal_spec; lia).
  all: split; [split; [split|..]; simpl; [done|lia|done..|lia|done]|].
  - intros ref [= <-]. simpl. split_and!; [done|apply Hr; lia|by apply Hmine].
  - by intros ref [=].
Qed.

Lemma decided_terminal k p w inputRef rev decision r w' : room (1 + k) p w -> (0 <= k)%Z ->
  SubmitDecision (mkSubmission projectID inputRef rev decision DecisionKindTerminal noTransition) w = (r, w') -> room k p w'.
Proof.
  intros [[Hid Hn Hr Hl Hg] Hk Hp] Hk0. destruct w as [n subs [records [l s]] x]. simpl in *. unfold SubmitDecision, mbind, M_bind, modify, get_state. simpl.
  rewrite int_wrap_id by (unfold is_int, int_max, int_min in *; lia). intros [= <- <-].
  assert (forall m, (n + 1 < m)%Z -> records !! transitionKey (decisionRef m) = None) by (intros m Hm; apply Hr; lia).
  assert (forall m, (n + 1 < m)%Z -> l !! (projectID, decisionRef m) = None) by (intros m Hm; apply Hl; lia).
  split; [split|..]; simpl; [done|lia|done..|lia|done].
Qed.

Lemma written_transition k p w rev ref tr r w' : room k p w -> ref = decisionRef (hw_next w) -> (hw_graph w).1 !! transitionKey ref = None ->
  (hw_graph w).2.1 !! (projectID, ref) = Some (mkDecision DecisionTransition tr) ->
  on_graph (Service_Transition hashPayload encodeTransition principal true true rev ref) w = (r, w') ->
  match r with Ok _ => exists snap p', transitionProject rev tr p = (Ok snap, p') /\ room k p' w' | Err _ => room k p w' end.
Proof.
  intros [[Hid Hn Hr Hl Hg] Hk <-] -> Hrec Hlog. destruct w as [n subs g x]. simpl in *. unfold on_graph. simpl.
  destruct (Service_Transition _ _ _ _ _ _ _ g) as [r' g'] eqn:Hs. intros [= <- <-].
  apply transition_run with (tr := tr) in Hs as (Hl' & Hr' & Hres); [|done..].
  assert (forall m, (n < m)%Z -> g'.1 !! transitionKey (decisionRef m) = None) as Hr2.
  { intros m Hm. rewrite Hr'; [by apply Hr|]. intros [_ Heq%decisionRef_inj]%pair_equal_spec. lia. }
  destruct r' as [rv|e].
  - destruct Hres as (snap & p' & Ht & Hp'). exists snap, p'. split; [done|].
    assert (graph_inv p') as Hg'. { pose proof (transitionProject_preserves rev tr _ Hg) as H. by rewrite Ht in H. }
    split; [split|..]; simpl; rewrite ?Hl', ?Hp'; done.
  - split; [split|..]; simpl; rewrite ?Hl', ?Hres; done.
Qed.

(** ** The Task Manager on the host *)

Local Abbreviation MW := (Manager W).

Definition mroom (k : Z) (p : projectState) (w : MW) : Prop := room k p (mg_world w).

Lemma mroom_less k k' p w : mroom k p w -> (k' <= k)%Z -> mroom k' p w.
Proof. apply room_less. Qed.

Lemma wp_ported {A} (what : A -> list ManagerCall) (m : M error W A) (Q : res A -> MW -> Prop) w :
  (forall r x t, m (mg_world w) = (r, x) -> Q r (mkManager (mg_finalizeBatches w) (mg_finalized w) x t)) -> wp (porting what m) Q w.
Proof. intros HQ. unfold wp, porting. destruct (m (mg_world w)) as [r x]. by apply HQ. Qed.

(** A call that keeps the room. *)
Lemma wp_quiet {A} (what : A -> list ManagerCall) (m : M error W A) (Q : res A -> MW -> Prop) k p w : mroom k p w ->
  (forall x, room k p x -> room k p (m x).2) -> (forall r w', mroom k p w' -> (m (mg_world w)).1 = r -> Q r w') -> wp (porting what m) Q w.
Proof.
  intros Hw Hm HQ. specialize (Hm _ Hw). apply wp_ported. intros r x t Heq. rewrite Heq in *. by apply HQ.
Qed.

Lemma snapshot_room k p w : room k p w ->
  room k p (on_graph (Service_Snapshot principal true LatestRevision) w).2 /\
  forall snap, (on_graph (Service_Snapshot principal true LatestRevision) w).1 = Ok snap -> snap = graphState_snapshot (pj_current p) (pj_latest p).
Proof.
  intros Hw. destruct w as [n subs g x]. unfold on_graph. simpl. destruct (Service_Snapshot principal true LatestRevision g) as [r g'] eqn:Hs. simpl.
  apply snapshot_run in Hs as (H1 & H2 & H3 & H4). pose proof (ro_project _ _ _ Hw) as <-. split; [by eapply room_graph|done].
Qed.

Lemma events_room {A} (m : M error R A) k p w : room k p w -> room k p (on_events m w).2.
Proof. intros Hw. destruct w as [n subs g x]. unfold on_events. simpl. destruct (m x) as [r x']. by eapply room_graph. Qed.

Lemma wp_latest (Q : res GraphSnapshot -> MW -> Prop) k p w : mroom k p w ->
  (forall w', mroom k p w' -> Q (Ok (graphState_snapshot (pj_current p) (pj_latest p))) w') -> (forall e w', mroom k p w' -> Q (Err e) w') ->
  wp (latestSnapshot options) Q w.
Proof.
  intros Hw Ha He. apply (wp_quiet _ _ _ k p); [done|by intros x [Hx _]%snapshot_room|]. intros [snap|e] w' Hw' Hs; [|by apply He].
  apply snapshot_room in Hw as [_ Heq]. rewrite (Heq _ Hs). by apply Ha.
Qed.

Lemma wp_host_reply event err (Q : res (Result * option error) -> MW -> Prop) k p w : mroom k p w ->
  (forall err' w', mroom k p w' -> (err <> None -> err' = err) ->
     Q (Ok (mkManagerResult (ry_InputRef event) (ry_Status event) (ry_DecisionRef event) (ry_GraphRevision event), err')) w') ->
  wp (reply options event err) Q w.
Proof.
  intros Hw HQ. unfold reply. simpl. apply wp_bind, wp_catch, wp_bind. apply (wp_quiet _ _ _ k p); [done|by intros x Hx; apply events_room|].
  intros [[]|e] w' Hw' _; (apply HQ; [done|by destruct err]).
Qed.

Lemma wp_write inputRef rev decision tr (Q : res string -> MW -> Prop) k p w : mroom (1 + k) p w -> (0 <= k)%Z ->
  (forall ref snap p' w', transitionProject rev tr p = (Ok snap, p') -> mroom k p' w' -> Q (Ok ref) w') -> (forall e w', mroom k p w' -> Q (Err e) w') ->
  wp (transition options projectID inputRef rev decision tr) Q w.
Proof.
  intros Hw Hk Ha He. unfold transition, submitDecision. apply wp_bind, wp_ported.
  intros [ref|e] x1 t1 Hsub; apply (decided_transition k p _ _ _ _ _ _ _ Hw Hk) in Hsub as [Hx1 Hlog]; [|by apply He].
  destruct (Hlog ref eq_refl) as (Href & Hrec & Hdec). apply wp_bind, wp_ported. intros [rv|e] x2 t2 Hwr; apply (written_transition k p _ _ _ _ _ _ Hx1 Href Hrec Hdec) in Hwr.
  - destruct Hwr as (snap & p' & Ht & Hx2). by apply (Ha ref snap p').
  - by apply He.
Qed.

Lemma wp_terminal inputRef rev decision status err (Q : res (Result * option error) -> MW -> Prop) k p w : mroom (1 + k) p w -> (0 <= k)%Z ->
  (forall ref err' w', mroom k p w' -> (err <> None -> err' = err) -> Q (Ok (mkManagerResult inputRef status ref rev, err')) w') ->
  (forall e w', mroom k p w' -> Q (Err e) w') -> wp (replyTerminal options projectID inputRef rev decision status err) Q w.
Proof.
  intros Hw Hk Ha He. unfold replyTerminal, submitTerminalDecision, submitDecision. apply wp_bind, wp_ported.
  intros [ref|e] x1 t1 Hsub; apply (decided_terminal k p _ _ _ _ _ _ Hw Hk) in Hsub; [|by apply He].
  eapply (wp_host_reply _ _ _ k p); [done|]. intros err' w' Hw' Herr. by apply Ha.
Qed.

(** *** What a decision does *)

Inductive controlled (input : ManagerDecisionInput) (decision : TaskManagerDecision) (p : projectState) : projectState -> Prop :=
| control_none : md_Action decision ∈ terminalActions -> controlled input decision p p
| control_endpoint e snap p' : g_endpoints (pj_current p) !! mi_Endpoint input = Some e ->
    (md_Action decision = "held" /\ ep_RunPolicy e <> RunHeld) \/ (md_Action decision = "released" /\ ep_RunPolicy e = RunHeld) ->
    transitionProject (pj_latest p) (endpointTransition (mi_Endpoint input) (md_Action decision) (ep_Generation e)) p = (Ok snap, p') ->
    controlled input decision p p'.

(** The result of a call: whatever it is, the host is well formed after it; a result
    without error satisfies [P]. *)
Definition outcome (k : Z) (P : Result -> projectState -> Prop) (r : res (Result * option error)) (w : MW) : Prop :=
  exists p', mroom k p' w /\ forall result, r = Ok (result, None) -> P result p'.

Lemma outcome_err k P p e w : mroom k p w -> outcome k P (Err e) w.
Proof. intros Hw. by exists p. Qed.

Lemma mroom_coherent k p w : mroom k p w -> coherent (pj_current p).
Proof. intros [Hh _ <-]. apply ho_graph in Hh as [[_ Hc _] _ _ _ _]. done. Qed.

Lemma wp_control input decision k p w : mroom (1 + k) p w -> (0 <= k)%Z ->
  (md_Action decision = "held" \/ md_Action decision = "released") ->
  wp (controlEndpoint options projectID input decision (graphState_snapshot (pj_current p) (pj_latest p)))
    (outcome k (fun _ => controlled input decision p)) w.
Proof.
  intros Hw Hk Ha. pose proof (mroom_less _ k _ _ Hw ltac:(lia)) as Hw0. unfold controlEndpoint. rewrite snapshot_findEndpoint by (by eapply mroom_coherent).
  destruct (g_endpoints _ !! _) as [e|] eqn:He; [|by eapply outcome_err].
  do 3 (apply wp_guard; [intros; by eapply outcome_err|]; intros ? ?%fail_if_Ok).
  apply wp_bind. eapply (wp_write _ _ _ _ _ k p); [done|done| |intros; by eapply outcome_err].
  intros ref snap p' w1 Ht Hw1. apply wp_bind. eapply wp_latest; [done| |intros; by eapply outcome_err]. intros w2 Hw2.
  eapply wp_host_reply; [done|]. intros err w3 Hw3 _. exists p'. split; [done|]. intros result _.
  eapply control_endpoint; [done| |done]. destruct Ha as [Ha|Ha]; rewrite Ha in *; simpl in *; [left|right]; (split; [done|]);
    repeat match goal with H : bool_decide _ = false |- _ => apply bool_decide_eq_false_1 in H end; [done|by apply dec_stable].
Qed.

Lemma wp_decision input decision k p w : mroom (1 + k) p w -> (0 <= k)%Z ->
  wp (HandleManagerDecision options projectID input decision)
    (outcome k (fun _ p' => (mi_SeenRevision input = 0%Z \/ mi_SeenRevision input = pj_latest p) /\ controlled input decision p p')) w.
Proof.
  intros Hw Hk. pose proof (mroom_less _ k _ _ Hw ltac:(lia)) as Hw0. unfold HandleManagerDecision.
  do 2 (apply wp_guard; [intros; by eapply outcome_err|]; intros ? _).
  apply wp_bind. apply (wp_latest _ (1 + k) p); [done| |intros e w1 Hw1; eapply outcome_err, mroom_less; [done|lia]]. intros w1 Hw1. simpl.
  destruct (bool_decide _ && bool_decide _) eqn:Hseen.
  { eapply (wp_terminal _ _ _ _ _ _ k p); [done|done| |intros; by eapply outcome_err]. intros ref err' w2 Hw2 Herr. exists p. split; [done|].
    intros result [= _ ->]. by specialize (Herr ltac:(done)). }
  assert (mi_SeenRevision input = 0%Z \/ mi_SeenRevision input = pj_latest p) as Hrev.
  { apply andb_false_iff in Hseen as [H|H]; apply bool_decide_eq_false_1, dec_stable in H; [by left|by right]. }
  clear Hseen. case_bool_decide as Hterm.
  - apply wp_guard; [intros; eapply outcome_err, mroom_less; [done|lia]|]. intros _ _.
    eapply (wp_terminal _ _ _ _ _ _ k p); [done|done| |intros; by eapply outcome_err]. intros ref err' w2 Hw2 _. exists p. split; [done|].
    intros result _. split; [done|by apply control_none].
  - destruct (_ || _) eqn:Hc; [|eapply outcome_err, mroom_less; [done|lia]]. eapply wp_mono; [apply (wp_control input decision k p); [done|done|]|].
    { apply orb_true_iff in Hc as [H|H]; apply bool_decide_eq_true_1 in H; [by left|by right]. }
    intros r w' (p' & Hw' & HP). exists p'. split; [done|]. intros result Hr. split; [done|by eapply HP].
Qed.

(** *** A stopped phase *)

Definition stop_applied (input : PhaseStoppedInput) (p p' : projectState) : Prop :=
  exists e snap, g_endpoints (pj_current p) !! si_Endpoint input = Some e /\ ep_Generation e = si_Generation input /\ ep_RunPolicy e = RunHeld /\
    transitionProject (pj_latest p) (stoppedTransition input) p = (Ok snap, p').

Lemma wp_stop input k p w : mroom (1 + k) p w -> (0 <= k)%Z -> rp_Endpoints (si_Replacement input) = [] -> si_ReleaseAfterReplace input = false ->
  wp (HandlePhaseStopped options projectID input) (outcome k (fun _ => stop_applied input p)) w.
Proof.
  intros Hw Hk Hrep Hrel. pose proof (mroom_less _ k _ _ Hw ltac:(lia)) as Hw0. unfold HandlePhaseStopped, stoppedRejected.
  apply wp_guard; [intros; by eapply outcome_err|]. intros ? _.
  apply wp_bind. apply (wp_latest _ (1 + k) p); [done| |intros e w1 Hw1; eapply outcome_err, mroom_less; [done|lia]]. intros w1 Hw1. simpl.
  rewrite snapshot_findEndpoint by (by eapply mroom_coherent).
  assert (forall decision err, wp (replyTerminal options projectID (si_InputRef input) (pj_latest p) decision ReplyRejected (Some err))
    (outcome k (fun _ => stop_applied input p)) w1) as Hrejected.
  { intros decision err. apply (wp_terminal _ _ _ _ _ _ k p); [done|done| |intros; by eapply outcome_err]. intros ref err' w2 Hw2 Herr. exists p.
    split; [done|]. intros result [= _ ->]. by specialize (Herr ltac:(done)). }
  destruct (g_endpoints _ !! _) as [e|] eqn:He; [|apply Hrejected]. case_bool_decide as Hgen; [apply Hrejected|]. case_bool_decide as Hheld; [apply Hrejected|].
  apply wp_bind. apply (wp_write _ _ _ _ _ k p); [done|done| |intros; by eapply outcome_err]. intros ref snap p' w2 Ht Hw2.
  apply wp_bind. unfold refreshed. apply wp_bind. apply (wp_latest _ k p'); [done| |intros; by eapply outcome_err]. intros w3 Hw3. apply wp_ret. simpl.
  unfold replaceStopped, releaseStopped. rewrite Hrep, Hrel. simpl. apply wp_bind, wp_ret, wp_bind, wp_ret.
  apply (wp_host_reply _ _ _ k p'); [done|]. intros err w4 Hw4 _. exists p'. split; [done|]. intros result _. by exists e, snap.
Qed.

(** *** A delivery *)

Definition delivered (input : DeliveryInput) (p p' : projectState) : Prop :=
  exists snap, transitionProject (pj_latest p) (doneTransition (di_TaskID input)) p = (Ok snap, p').

(** The task is done when the result says accepted. *)
Definition delivery_outcome (k : Z) (input : DeliveryInput) (p : projectState) (r : res (Result * option error)) (w : MW) : Prop :=
  exists p', mroom k p' w /\ forall result err, r = Ok (result, err) -> mr_Status result = ReplyAccepted -> delivered input p p'.

Lemma wp_delivery input k p w : mroom (1 + k) p w -> (0 <= k)%Z ->
  wp (HandleDelivery options projectID input) (delivery_outcome k input p) w.
Proof.
  intros Hw Hk. pose proof (mroom_less _ k _ _ Hw ltac:(lia)) as Hw0. unfold HandleDelivery, deferDelivery.
  assert (forall w', mroom (1 + k) p w' -> mroom k p w') as Hless by (intros w' Hw'; eapply mroom_less; [done|lia]).
  assert (forall e w', mroom k p w' -> delivery_outcome k input p (Err e) w') as Herr by (intros; by exists p).
  apply wp_bind. apply (wp_latest _ (1 + k) p); [done| |by intros e w' Hw'; apply Herr, Hless]. intros w1 Hw1. simpl.
  destruct (findTask _ _); [|by apply Herr, Hless]. apply wp_bind. apply (wp_quiet _ _ _ (1 + k) p); [done|by intros x Hx; apply events_room|].
  intros [contract|e] w2 Hw2 _; [|by apply Herr, Hless].
  assert (forall decision, wp (replyTerminal options projectID (di_InputRef input) (pj_latest p) decision ReplyDeferred None)
    (delivery_outcome k input p) w2) as Hdefer.
  { intros decision. apply (wp_terminal _ _ _ _ _ _ k p); [done|done| |by intros e w' Hw'; apply Herr]. intros ref err' w3 Hw3 _. exists p. split; [done|]. by intros result err [= <- _]. }
  case_bool_decide; [apply Hdefer|]. destruct (negb _); [apply Hdefer|]. destruct (findEndpoint _ _); [|apply Hdefer]. case_bool_decide; [apply Hdefer|].
  unfold completeTask. apply wp_bind. apply (wp_write _ _ _ _ _ k p); [done|done| |by intros e w' Hw'; apply Herr]. intros ref snap p' w3 Ht Hw3.
  apply wp_bind. apply (wp_latest _ k p'); [done| |]; intros.
  - apply wp_bind. apply (wp_host_reply _ _ _ k p'); [done|]. intros err w4 Hw4 _. destruct err; exists p'; (split; [done|]); by exists snap.
  - exists p'. split; [done|]. by intros.
Qed.

(** ** The graph after a write *)

Lemma transition_committed rev tr p snap p' : transitionProject rev tr p = (Ok snap, p') ->
  graph_step (pj_current p) tr (pj_current p') /\ pj_latest p' = Revision_Next (pj_latest p).
Proof.
  intros (_ & _ & _ & _ & _ & st & p1 & Hst & _ & Hc & ->)%transitionProject_run. rewrite commit_run in Hc. injection Hc as _ <-.
  destruct (recordRuntimeBinding_graph tr (mkProject (Revision_Next (pj_latest p)) (<[Revision_Next (pj_latest p) := st]> (pj_history p)) st (pj_runtime p)))
    as (-> & _ & ->). split; [by apply applyTransition_Ok|done].
Qed.

(** The endpoint that [tr] leaves in place of [e]. *)
Definition moved_endpoint (tr : GraphTransition) (e : PhaseEndpoint) : PhaseEndpoint :=
  if bool_decide (tr_Action tr = "held") then ep_set_RunPolicy RunHeld e
  else if bool_decide (tr_Action tr = "released") then ep_set_RunPolicy RunEnabled e else rollEndpoint tr e.

Lemma transition_moved rev tr p snap p' e : transitionProject rev tr p = (Ok snap, p') -> tr_TargetKind tr = TargetPhaseEndpoint ->
  g_endpoints (pj_current p) !! tr_Endpoint tr = Some e -> tr_Action tr ∈ ["held"; "released"; "stopped"] ->
  pj_current p' = g_set_endpoint (tr_Endpoint tr) (moved_endpoint tr e) (pj_current p) /\ pj_latest p' = Revision_Next (pj_latest p).
Proof.
  intros [Hstep ->]%transition_committed Hk He Ha. split; [|done]. unfold moved_endpoint.
  destruct Hstep as [e' q _ He' _ Hact|b Hk'|t Hk'|t ? ? ? Hk']; [|by rewrite Hk in Hk'..]. rewrite He in He'. injection He' as <-.
  destruct Hact as [Hx|st' Hx|st' Hx|Hx|Hx|Hx|Hx]; rewrite Hx in Ha |- *; try done; set_solver.
Qed.

Lemma delivered_done input p p' : delivered input p p' -> exists task verify,
  g_tasks (pj_current p') !! di_TaskID input = Some task /\ task_Outcome task = TaskDone /\
  g_endpoints (pj_current p') !! mkRef (di_TaskID input) EndpointVerify = Some verify /\ ep_State verify = EndpointSatisfied.
Proof.
  intros (snap & [Hstep _]%transition_committed). inversion Hstep as [? ? Hk|? Hk|t Hk Ht _ _ Hv Heq|? ? ? ? _ Ha]; try done.
  destruct Hv as (v & Hv & Hs); [done|]. eexists _, v. simpl. rewrite lookup_insert_eq. done.
Qed.

(** ** The host *)

Lemma snapshot_readable k p w : room k p w ->
  (on_graph (Service_Snapshot principal true LatestRevision) w).1 = Ok (graphState_snapshot (pj_current p) (pj_latest p)).
Proof.
  intros Hw. destruct (on_graph _ w) as [r w'] eqn:Heq. simpl. destruct r as [snap|e].
  - apply snapshot_room in Hw as [_ Hs]. rewrite Heq in Hs. by rewrite (Hs snap eq_refl).
  - exfalso. destruct Hw as [[Hid _ _ _ _] _ _]. unfold on_graph, Service_Snapshot, mbind, M_bind, lift in Heq.
    assert (projectID <> "") as Hne by (by intros ->).
    assert (require principal ToolCoordinationSnapshot = Ok (mkScope projectID "" "invocation://fake-task-manager/bootstrap")) as Hreq.
    { unfold require. apply bind_Ok. eexists. split; [|reflexivity]. apply RequireTool_Ok. split_and!; try done; by right. }
    rewrite Hreq in Heq. simpl in Heq. unfold Latest, requireProjectID, mbind, M_bind, lift, on_world in Heq. simpl in Heq. unfold Latest, requireProjectID in Heq.
    rewrite Hid in Heq. by simplify_eq.
Qed.

(** The host, with the graph of [p] and the invocations [l]. *)
Definition at_host (k : Z) (p : projectState) (l : list Invocation) (s : St) : Prop := mroom k p (st_manager s) /\ st_invocations s = l.

Lemma at_host_collaborators {A} (m : M error W A) k p l : (forall x, room k p x -> room k p (m x).2) -> keeps (at_host k p l) (on_collaborators m).
Proof.
  intros Hm [[b f x t] c invs cs] [Hw Hl]. specialize (Hm _ Hw). unfold wp, on_collaborators, on_manager. simpl in *. by destruct (m x) as [r x'].
Qed.

Lemma at_host_capacity {A} (m : M error RuntimeCapacity A) k p l : keeps (at_host k p l) (on_capacity m).
Proof. intros s [Hw Hl]. unfold wp, on_capacity. destruct (m (st_capacity s)). by split. Qed.

Lemma at_host_modify f k p l : (forall s, at_host k p l s -> at_host k p l (f s)) -> keeps (E := error) (at_host k p l) (modify f).
Proof. intros Hf s Hs. by apply Hf. Qed.

Lemma at_host_snapshot k p l : keeps (at_host k p l) (host_snapshot projectID startedAt).
Proof. apply at_host_collaborators. by intros x [Hx _]%snapshot_room. Qed.

Lemma at_host_events {A} (m : M error R A) k p l : keeps (at_host k p l) (on_collaborators (on_events m)).
Proof. apply at_host_collaborators. intros x Hx. by apply events_room. Qed.

Lemma wp_generation ref (Q : res Z -> St -> Prop) k p l s : at_host k p l s ->
  (forall s', at_host k p l s' -> Q (Ok (match g_endpoints (pj_current p) !! ref with Some e => ep_Generation e | None => 1%Z end)) s') ->
  wp (generationFor projectID startedAt ref) Q s.
Proof.
  intros [Hw Hl] HQ. unfold generationFor. apply wp_catch, wp_bind, wp_intro. intros r s' Hrun. pose proof (at_host_snapshot k p l s (conj Hw Hl)) as Hk.
  unfold wp in Hk. rewrite Hrun in Hk. simpl in Hk. pose proof (snapshot_readable _ _ _ Hw) as Hs. unfold host_snapshot, on_collaborators, on_manager in Hrun.
  destruct (on_graph _ (mg_world (st_manager s))) as [r' x']. simpl in Hs. subst r'. injection Hrun as <- <-.
  apply wp_ret. rewrite snapshot_findEndpoint by (by eapply mroom_coherent). by apply HQ.
Qed.

Lemma at_host_generation ref k p l : keeps (at_host k p l) (generationFor projectID startedAt ref).
Proof. intros s Hs. by eapply wp_generation. Qed.

Lemma at_host_conversation c entry k p l : keeps (at_host k p l) (appendConversation encodePayload append projectID c entry).
Proof.
  unfold appendConversation. apply keeps_bind; [by apply at_host_modify|]. intros _. case_bool_decide; [by apply keeps_readonly|apply at_host_events].
Qed.

Lemma at_host_revision inputRef ref rev k p l : keeps (at_host k p l) (appendGraphRevision encodePayload append projectID startedAt inputRef ref rev).
Proof.
  unfold appendGraphRevision. apply keeps_bind; [|intros; apply at_host_events]. case_bool_decide; [|by apply keeps_readonly].
  apply keeps_bind; [apply at_host_snapshot|]. intros. by apply keeps_readonly.
Qed.

Lemma at_host_updated request endpoint id k p l : keeps (at_host k p l) (appendInvocationUpdated encodePayload append projectID startedAt request endpoint id).
Proof.
  unfold appendInvocationUpdated. case_bool_decide; [by apply keeps_readonly|]. apply keeps_bind; [apply at_host_generation|]. intros. apply at_host_events.
Qed.

(** A new invocation is appended, or the clock failed. *)
Lemma wp_create task endpoint gen (Q : res InvocationID -> St -> Prop) k p l s : at_host k p l s ->
  (forall i s', at_host k p (l ++ [i]) s' -> runsAt (mkRef task endpoint) gen i = true -> Q (Ok (in_ID i)) s') ->
  (forall e s', at_host k p l s' -> Q (Err e) s') ->
  wp (createInvocation clock projectID task endpoint gen InvocationRunning) Q s.
Proof.
  intros Hs Ha He. unfold createInvocation. apply wp_get. apply wp_bind. eapply wp_mono; [by apply (at_host_events clock k p l)|]. intros [t1|e] s1 Hs1; [|by apply He].
  apply wp_bind. eapply wp_mono; [by apply (at_host_events clock k p l)|]. intros [t2|e] s2 [Hw2 Hl2]; [|by apply He]. apply wp_modify.
  set (i := newInvocation _ _ _ _ _ _ _ _). apply wp_bind. rewrite bool_decide_eq_true_2 by done. simpl.
  assert (at_host k p (l ++ [i]) (mkHost (st_manager s2) (st_capacity s2) (st_invocations s2 ++ [i]) (st_conversations s2))) as Hs3 by (split; [done|]; simpl; by rewrite Hl2).
  assert (forall s4, at_host k p (l ++ [i]) s4 -> Q (Ok (in_ID i)) s4) as Hi.
  { intros s4 Hs4. apply Ha; [done|]. unfold runsAt. simpl. by rewrite !bool_decide_eq_true_2. }
  apply wp_catch. eapply wp_mono; [apply (keeps_bind (at_host k p (l ++ [i]))); [apply at_host_capacity| |exact Hs3]|].
  - intros c. apply keeps_bind; [apply at_host_capacity|]. intros. by apply keeps_readonly.
  - intros [[]|e] s4 Hs4; by apply Hi.
Qed.

(** *** Messages *)

(** What a message that was answered has done to the graph and to the invocations. *)
Inductive message_effect (request : ManagerMessageRequest) (p : projectState) (l : list Invocation) : projectState -> list Invocation -> Prop :=
| effect_none : managerAction (mm_Body request) (mm_SelectedEndpoint request) = "no_change" -> message_effect request p l p l
| effect_held ref e p' l' : managerAction (mm_Body request) (mm_SelectedEndpoint request) = "held" -> mm_SelectedEndpoint request = Some ref ->
    g_endpoints (pj_current p) !! ref = Some e -> ep_RunPolicy e <> RunHeld ->
    let generation := int_wrap (ep_Generation e + 1) in
    pj_current p' = g_set_endpoint ref (mkEndpoint ref (ep_SpecRef e) (host_binding (ref_TaskID ref) (ref_EndpointID ref) generation) generation
      EndpointPending RunHeld) (pj_current p) ->
    pj_latest p' = Revision_Next (Revision_Next (pj_latest p)) ->
    l' = (fun i => if runsAt ref (ep_Generation e) i then in_set_Status InvocationStopped i else i) <$> l ->
    message_effect request p l p' l'
| effect_released ref e p' i : managerAction (mm_Body request) (mm_SelectedEndpoint request) = "released" -> mm_SelectedEndpoint request = Some ref ->
    g_endpoints (pj_current p) !! ref = Some e -> ep_RunPolicy e = RunHeld ->
    pj_current p' = g_set_endpoint ref (ep_set_RunPolicy RunEnabled e) (pj_current p) -> pj_latest p' = Revision_Next (pj_latest p) ->
    runsAt ref (ep_Generation e) i = true ->
    message_effect request p l p' (l ++ [i]).

Lemma managerAction_cases body endpoint : managerAction body endpoint = "no_change" \/
  ((managerAction body endpoint = "held" \/ managerAction body endpoint = "released") /\ exists ref, endpoint = Some ref).
Proof. unfold managerAction. destruct endpoint as [ref|]; [|by left]. destruct (_ || _); [eauto|]. destruct (_ || _); eauto. Qed.

Lemma wp_managed (m : M error MW (Result * option error)) (Q : res Result -> St -> Prop) k P l s : wp m (outcome k P) (st_manager s) -> st_invocations s = l ->
  (forall result p' s', at_host k p' l s' -> P result p' -> Q (Ok result) s') -> (forall e p' s', at_host k p' l s' -> Q (Err e) s') ->
  wp (managed m) Q s.
Proof.
  intros Hm Hl Ha He. unfold managed. apply wp_bind. unfold wp at 1, on_manager. unfold wp in Hm. destruct (m (st_manager s)) as [r w'] eqn:Hr. simpl in *.
  destruct Hm as (p' & Hw' & HP). destruct r as [[result [e|]]|e]; [by apply (He _ p')| |by apply (He _ p')]. apply wp_ret. by apply (Ha _ p'); [|apply HP].
Qed.

Lemma at_host_less k k' p l s : at_host k p l s -> (k' <= k)%Z -> at_host k' p l s.
Proof. intros [Hw Hl] Hk. split; [by eapply mroom_less|done]. Qed.

(** The state after a message, whatever its answer: the host is well formed, and an
    answered message had its effect. *)
Definition message_outcome (request : ManagerMessageRequest) (p : projectState) (l : list Invocation) (r : res ManagerMessageResponse) (s : St) : Prop :=
  exists p' l', at_host 0 p' l' s /\
    (is_ok r = true -> message_effect request p l p' l' /\
       forall rev, mm_ObservedGraphRevision request = Some rev -> rev <> 0%Z -> rev = pj_latest p).

Lemma message_failed request p l p' l' e s : at_host 0 p' l' s -> message_outcome request p l (Err e) s.
Proof. intros Hs. by exists p', l'. Qed.

Lemma held_then_stopped request ref e p p1 p2 snap : mm_SelectedEndpoint request = Some ref -> ep_Ref e = ref ->
  g_endpoints (pj_current p) !! ref = Some e -> ep_RunPolicy e <> RunHeld ->
  transitionProject (pj_latest p) (endpointTransition ref "held" (ep_Generation e)) p = (Ok snap, p1) ->
  stop_applied (stopInput request (ep_Generation e)) p1 p2 ->
  let generation := int_wrap (ep_Generation e + 1) in
  pj_current p2 = g_set_endpoint ref (mkEndpoint ref (ep_SpecRef e) (host_binding (ref_TaskID ref) (ref_EndpointID ref) generation) generation
    EndpointPending RunHeld) (pj_current p) /\ pj_latest p2 = Revision_Next (Revision_Next (pj_latest p)).
Proof.
  intros Hsel Hco He Hpol H1 (e1 & snap2 & He1 & _ & _ & H2). unfold stopInput in *. rewrite Hsel in *. simpl in *.
  eapply transition_moved in H1 as [Hc1 Hl1]; [|done|done|set_solver]. rewrite Hc1 in He1. simpl in He1. rewrite lookup_insert_eq in He1. injection He1 as <-.
  eapply transition_moved in H2 as [Hc2 Hl2]; [|done| |set_solver]; [|rewrite Hc1; simpl; by rewrite lookup_insert_eq].
  rewrite Hl2, Hl1, Hc2, Hc1. split; [|done]. unfold g_set_endpoint. simpl. rewrite insert_insert_eq, <- Hco. done.
Qed.

Lemma wp_holdEndpoint request ref e p p1 snap l s (Q : res (Revision * string) -> St -> Prop) : at_host 1 p1 l s ->
  mm_SelectedEndpoint request = Some ref -> coherent (pj_current p) -> g_endpoints (pj_current p) !! ref = Some e -> ep_RunPolicy e <> RunHeld ->
  managerAction (mm_Body request) (mm_SelectedEndpoint request) = "held" ->
  transitionProject (pj_latest p) (endpointTransition ref "held" (ep_Generation e)) p = (Ok snap, p1) ->
  (forall r p2 l' s', at_host 0 p2 l' s' -> message_effect request p l p2 l' -> Q (Ok r) s') ->
  (forall err p2 s', at_host 0 p2 l s' -> Q (Err err) s') ->
  wp (holdEndpoint hashPayload encodePending encodeTransition encodePayload append clock resolveContract taskContract projectID startedAt request) Q s.
Proof.
  intros Hs Hsel Hco He Hpol Hact Ht Ha Herr. unfold holdEndpoint. rewrite Hsel. simpl. apply wp_bind. eapply wp_generation; [done|]. intros s1 [Hw1 Hl1].
  destruct (transition_moved _ _ _ _ _ e Ht eq_refl He ltac:(set_solver)) as [Hc1 _]. rewrite Hc1. simpl. rewrite lookup_insert_eq. simpl.
  apply wp_bind. apply (wp_managed _ _ 0 (fun _ => stop_applied (stopInput request (ep_Generation e)) p1) l); [by apply wp_stop|done| |by intros; eapply Herr].
  intros result p2 s2 [Hw2 Hl2] Hstop. unfold stopInvocation. apply wp_modify, wp_ret. eapply Ha; [by split|].
  destruct (held_then_stopped request ref e p p1 p2 snap) as [Hc2 Hlat]; [done|by apply Hco|done..|].
  eapply effect_held; [done|done|exact He|done|done|done|]. simpl. by rewrite Hl2.
Qed.

(** What comes after the writes leaves the graph and the invocations alone. *)
Lemma wp_answered request p l p' l' inputRef (written : Revision * string) (invocationID : InvocationID) (result : Result) s : at_host 0 p' l' s ->
  (message_effect request p l p' l' /\ forall rev, mm_ObservedGraphRevision request = Some rev -> rev <> 0%Z -> rev = pj_latest p) ->
  wp (_ ← (if bool_decide (managerAction (mm_Body request) (mm_SelectedEndpoint request) <> "no_change")
           then appendGraphRevision encodePayload append projectID startedAt inputRef written.2 written.1 else mret tt);
      _ ← (if bool_decide (invocationID <> "")
           then appendInvocationUpdated encodePayload append projectID startedAt (mm_RequestID request) (selectedEndpoint (mm_SelectedEndpoint request)) invocationID
           else mret tt);
      now ← host_now clock;
      _ ← catch (appendConversation encodePayload append projectID (mm_ConversationID request)
            (mkEntry ("entry://" +:+ mm_RequestID request +:+ "/decision") "decision" now inputRef written.2 written.1 "" (mr_Status result))) (fun _ => mret tt);
      mret (mkMessageResponse inputRef ("invocation://manager/" +:+ mm_RequestID request) (mm_ConversationID request) (mr_Status result)))
    (message_outcome request p l) s.
Proof.
  intros Hs Heff. apply (wp_mono _ (fun _ => at_host 0 p' l')); [|intros r s' Hs'; by exists p', l'].
  apply (keeps_bind (at_host 0 p' l')); [|intros _; apply keeps_bind; [|intros _; apply keeps_bind; [apply at_host_events|intros now; apply keeps_bind]]|done].
  - case_bool_decide; [apply at_host_revision|by apply keeps_readonly].
  - case_bool_decide; [apply at_host_updated|by apply keeps_readonly].
  - apply keeps_catch; [apply at_host_conversation|]. intros. by apply keeps_readonly.
  - intros _. by apply keeps_readonly.
Qed.

Local Abbreviation message := (SubmitManagerMessage hashPayload encodePending encodeTransition encodePayload append clock resolveContract taskContract projectID startedAt).

Lemma wp_message request p l s : at_host 2 p l s -> wp (message request) (message_outcome request p l) s.
Proof.
  intros Hs. unfold SubmitManagerMessage. apply wp_bind. eapply wp_mono; [by apply (at_host_events clock 2 p l)|].
  intros [now|e] s1 Hs1; [|eapply message_failed, at_host_less; [done|lia]].
  apply wp_bind. eapply wp_mono; [by apply (at_host_conversation _ _ 2 p l)|]. intros [[]|e] s2 [Hw2 Hl2]; [|eapply message_failed; split; [eapply mroom_less; [done|lia]|done]].
  apply wp_bind. eapply (wp_managed _ _ 1 _ l); [by apply (wp_decision _ _ 1 p)|done| |intros e p' s' Hs'; eapply message_failed, at_host_less; [done|lia]].
  intros result p1 s3 Hs3 [Hseen Hctl]. pose proof (mroom_coherent _ _ _ Hw2) as Hco.
  assert (forall rev, mm_ObservedGraphRevision request = Some rev -> rev <> 0%Z -> rev = pj_latest p) as Hrev.
  { intros rev Hr Hne. unfold messageInput in Hseen. rewrite Hr in Hseen. simpl in Hseen. by destruct Hseen. }
  pose proof (at_host_less _ 0 _ _ _ Hs3 ltac:(lia)) as Hs30.
  destruct (managerAction_cases (mm_Body request) (mm_SelectedEndpoint request)) as [Hact|[Hact (ref & Hsel)]].
  - rewrite (bool_decide_eq_false_2 (managerAction _ _ = "held")) by (by rewrite Hact). apply wp_bind, wp_ret.
    rewrite (bool_decide_eq_false_2 (managerAction _ _ = "released")) by (by rewrite Hact). apply wp_bind, wp_ret. apply wp_answered with (p' := p1) (l' := l); [done|]. split; [|done].
    destruct Hctl as [_|e snap p1 He Ha Ht]; [by apply effect_none|]. exfalso. simpl in Ha. rewrite Hact in Ha. by destruct Ha as [[? _]|[? _]].
  - destruct Hctl as [Hterm|e snap p1 He Ha Ht].
    { exfalso. simpl in Hterm. destruct Hact as [Hact|Hact]; rewrite Hact in Hterm; by apply (bool_decide_eq_true_2 _) in Hterm. }
    unfold messageInput in He, Ht. simpl in He, Ha, Ht. destruct Hact as [Hact|Hact].
    + rewrite Hact in Ha, Ht. rewrite Hsel in He, Ht. simpl in He, Ht. destruct Ha as [[_ Hpol]|[? _]]; [|done]. rewrite (bool_decide_eq_true_2 (managerAction _ _ = "held")) by done.
      apply wp_bind. eapply (wp_holdEndpoint request ref e p p1 snap l); [done|done|done|done|done|done|done| |intros; by eapply message_failed].
      intros r p2 l' s4 Hs4 Heff. rewrite (bool_decide_eq_false_2 (managerAction _ _ = "released")) by (by rewrite Hact).
      apply wp_bind, wp_ret. by apply wp_answered with (p' := p2) (l' := l').
    + rewrite Hact in Ha, Ht. rewrite Hsel in He, Ht. simpl in He, Ht. destruct Ha as [[? _]|[_ Hpol]]; [done|]. rewrite (bool_decide_eq_false_2 (managerAction _ _ = "held")) by (by rewrite Hact).
      apply wp_bind, wp_ret. rewrite (bool_decide_eq_true_2 (managerAction _ _ = "released")) by done. apply wp_bind, wp_bind.
      eapply (wp_generation _ _ 0 p1 l); [done|]. intros s4 Hs4.
      destruct (transition_moved _ _ _ _ _ e Ht eq_refl He ltac:(set_solver)) as [Hc1 Hlat].
      eapply (wp_create _ _ _ _ 0 p1 l); [done| |intros; by eapply message_failed]. intros i s5 Hs5 Hi.
      apply wp_answered with (p' := p1) (l' := l ++ [i]); [done|]. split; [|done]. eapply effect_released; [done..|].
      rewrite Hsel, Hc1 in Hi. simpl in Hi. rewrite lookup_insert_eq in Hi. by destruct ref.
Qed.

(** ** Start *)

(** The host is well formed. *)
Definition ready (s : St) : Prop := exists p, mroom 0 p (st_manager s).

Lemma bootstrapRef_free n : bootstrapRef <> decisionRef n.
Proof.
  unfold decisionRef. change bootstrapRef with ("decision://fakehost/" +:+ "bootstrap/demo-project")%string. intros H%string_app_inj_l.
  apply (format_int_char "b" n); [apply (bool_decide_unpack _); reflexivity|]. rewrite <- H. unfold char_in. left.
Qed.

Lemma register_bootstrap k p w : room k p w -> room k p (on_graph (on_log (RegisterReplacePending projectID bootstrapRef)) w).2.
Proof.
  intros [[Hid Hn Hr Hl Hg] Hk Hp]. destruct w as [n subs [records [l s]] x]. simpl in *.
  assert (forall m d, (n < m)%Z -> (<[(projectID, bootstrapRef) := d]> l) !! (projectID, decisionRef m) = None) as Hl'.
  { intros m d Hm. rewrite lookup_insert_ne; [by apply Hl|]. intros [_ H]%pair_equal_spec. by apply bootstrapRef_free in H. }
  unfold on_graph, on_log, RegisterReplacePending, put, mbind, M_bind, lift, get_state. simpl.
  destruct (requireProjectID projectID); [|done]. destruct (l !! (projectID, bootstrapRef)).
  - by destruct (_ || _).
  - unfold put_state. simpl. split; [split|..]; simpl; try done. intros m Hm. by apply Hl'.
Qed.

Lemma replaceExecutor_inv next x : typed_pending next -> graph_inv (ensureProject projectID x.2) ->
  graph_inv (ensureProject projectID (replaceExecutor projectID next x).2.2) /\ (replaceExecutor projectID next x).2.1 = x.1.
Proof.
  intros Ht Hx. destruct x as [l s]. unfold replaceExecutor, on_store, ReplacePending, locked, mbind, M_bind, lift, get_state. simpl in *.
  destruct (AuthorizeReplacePending _ _ _); [|done]. destruct (requireProjectID projectID); [|done]. destruct (fail_if _ _); [|done].
  pose proof (replacePending_preserves next Ht _ Hx) as Hp. destruct (MemoryStore.replacePending next (ensureProject projectID s)) as [[snap|e] p']; simpl in *;
    (split; [|done]); unfold ensureProject; simpl; by rewrite lookup_insert_eq.
Qed.

Lemma bootstrap_typed rev : typed_pending (bootstrapSubgraph rev).
Proof. intros e He. assert (ep_Generation e = 1%Z) as ->; [|done]. revert e He. apply Forall_forall. by repeat constructor. Qed.

Lemma replace_bootstrap rev k p w : room k p w ->
  exists p', room k p' (on_graph (Service_ReplacePending hashPayload encodePending principal true true (bootstrapSubgraph rev)) w).2.
Proof.
  intros Hw. assert (forall w', (hw_graph w').1 = (hw_graph w).1 -> w' = w -> exists p', room k p' w') as Hsame by (intros w' _ ->; by exists p).
  destruct Hw as [[Hid Hn Hr Hl Hg] Hk Hp]. destruct w as [n subs [records x] ev]. simpl in *.
  unfold on_graph, Service_ReplacePending, mbind, M_bind, lift. simpl. destruct (require principal _) as [scope|e] eqn:Hs; [|by apply Hsame].
  apply host_scope in Hs. rewrite Hs. simpl. unfold Execute. destruct (validateExecute _ _); [|by apply Hsame].
  destruct (records !! _) eqn:Hrec; [case_bool_decide; by apply Hsame|].
  destruct (replaceExecutor_inv (bootstrapSubgraph rev) x (bootstrap_typed rev) Hg) as [Hg' Hl'].
  destruct (replaceExecutor projectID (bootstrapSubgraph rev) x) as [[response|e] x']; simpl in *; eexists; (split; [split|..]; simpl; try done); try (rewrite Hl'; exact Hl).
  intros m Hm. rewrite lookup_insert_ne; [by apply Hr|]. unfold transitionKey. intros [H _]%pair_equal_spec. by apply string_app_inj_l in H.
Qed.

Lemma ready_collaborators {A} (m : M error W A) : (forall p x, room 0 p x -> exists p', room 0 p' (m x).2) -> keeps ready (on_collaborators m).
Proof.
  intros Hm [[b f x t] c invs cs] [p Hw]. destruct (Hm _ _ Hw) as [p' Hw']. exists p'. unfold on_collaborators, on_manager, mroom. simpl in *. by destruct (m x) as [r x'].
Qed.

Lemma ready_events {A} (m : M error R A) : keeps ready (on_collaborators (on_events m)).
Proof. apply ready_collaborators. intros p x Hx. exists p. by apply events_room. Qed.

Lemma ready_snapshot : keeps ready (host_snapshot projectID startedAt).
Proof. apply ready_collaborators. intros p x [Hx _]%snapshot_room. by exists p. Qed.

Lemma ready_capacity {A} (m : M error RuntimeCapacity A) : keeps ready (on_capacity m).
Proof. intros s Hs. unfold wp, on_capacity. by destruct (m (st_capacity s)). Qed.

Lemma ready_create task endpoint gen status : keeps ready (createInvocation clock projectID task endpoint gen status).
Proof.
  unfold createInvocation. apply keeps_bind; [by apply keeps_readonly|]. intros s0. apply keeps_bind; [apply ready_events|]. intros t1.
  apply keeps_bind; [apply ready_events|]. intros t2. apply keeps_bind; [by intros s Hs|]. intros _. apply keeps_bind; [|intros; by apply keeps_readonly].
  destruct (_ || _); [|by apply keeps_readonly]. apply keeps_catch; [|intros; by apply keeps_readonly].
  apply keeps_bind; [apply ready_capacity|]. intros c. apply keeps_bind; [apply ready_capacity|]. intros. by apply keeps_readonly.
Qed.

Lemma ready_revision inputRef ref rev : keeps ready (appendGraphRevision encodePayload append projectID startedAt inputRef ref rev).
Proof.
  unfold appendGraphRevision. apply keeps_bind; [|intros; apply ready_events]. case_bool_decide; [|by apply keeps_readonly].
  apply keeps_bind; [apply ready_snapshot|]. intros. by apply keeps_readonly.
Qed.

Lemma New_room events : IsZeroID projectID = false -> ready (New events).
Proof.
  intros Hid. exists newProjectState. split; simpl; [|done|done]. split; simpl; [done|done|by intros; apply lookup_empty..|apply newProjectState_inv].
Qed.

Local Abbreviation start := (bootstrap hashPayload encodePending encodePayload append clock projectID startedAt).

Lemma bootstrap_ready events s : start (New events) = (Ok tt, s) -> ready s.
Proof.
  intros Hrun. destruct (IsZeroID projectID) eqn:Hid.
  { exfalso. unfold bootstrap, host_snapshot, on_collaborators, on_manager, on_graph, Service_Snapshot, mbind, M_bind, lift in Hrun. simpl in Hrun.
    destruct (require principal _) as [scope|e] eqn:Hs; [|done]. apply host_scope in Hs. simpl in Hrun. rewrite Hs in Hrun. unfold on_world, Latest, requireProjectID in Hrun.
    rewrite Hid in Hrun. done. }
  assert (keeps ready start) as Hk.
  { unfold bootstrap. apply keeps_bind; [apply ready_snapshot|]. intros snapshot. apply keeps_bind.
    { apply ready_collaborators. intros p x Hx. exists p. by apply register_bootstrap. }
    intros _. apply keeps_bind; [apply ready_collaborators; intros p x; apply replace_bootstrap|]. intros _.
    apply keeps_bind; [apply ready_create|]. intros _. apply keeps_bind; [apply ready_create|]. intros _. apply ready_revision. }
  refine (wp_run _ (fun _ => ready) _ _ _ (Hk _ (New_room events Hid)) Hrun).
Qed.

(** ** Runs *)

Inductive host_step : St -> St -> Prop :=
| host_message request s : (hw_next (mg_world (st_manager s)) + 2 <= int_max)%Z -> host_step s (message request s).2
| host_capacity requestID pid expected desired s :
    host_step s (AdjustCapacity encodePayload append clock requestID pid expected desired s).2
| host_events x s : let w := st_manager s in let g := mg_world w in
    host_step s (mkHost (mkManager (mg_finalizeBatches w) (mg_finalized w) (mkHostWorld (hw_next g) (hw_records g) (hw_graph g) x) (mg_trace w))
      (st_capacity s) (st_invocations s) (st_conversations s)).

(** The states the host reaches from its start. *)
Definition host_reach (s : St) : Prop := exists events s0, start (New events) = (Ok tt, s0) /\ rtc host_step s0 s.

Lemma at_host_ready s : ready s -> (hw_next (mg_world (st_manager s)) + 2 <= int_max)%Z ->
  at_host 2 (project (hw_graph (mg_world (st_manager s)))) (st_invocations s) s.
Proof. intros [p [Hh Hl Hp]] Hn. by split. Qed.

Lemma host_step_ready s s' : host_step s s' -> ready s -> ready s'.
Proof.
  destruct 1 as [request s Hn|requestID pid expected desired s|x s w g]; intros Hs.
  - pose proof (wp_message request _ _ _ (at_host_ready _ Hs Hn)) as (p' & l' & [Hw _] & _). by exists p'.
  - revert s Hs. change (keeps ready (AdjustCapacity encodePayload append clock requestID pid expected desired)). unfold AdjustCapacity.
    apply keeps_bind; [apply ready_capacity|]. intros c. apply keeps_bind; [apply ready_events|]. intros now. apply keeps_bind; [by apply keeps_readonly|].
    intros s1. apply keeps_bind; [apply ready_events|]. intros. by apply keeps_readonly.
  - destruct Hs as [p Hw]. exists p. unfold mroom in *. simpl. subst w g. destruct (mg_world _) as [n subs gr ev]. simpl in *. by eapply room_graph.
Qed.

Lemma host_reach_ready s : host_reach s -> ready s.
Proof.
  intros (events & s0 & Hb%bootstrap_ready & Hr). revert Hb. induction Hr as [|x y z Hst _ IH]; [done|]. intros Hx. by eapply IH, host_step_ready.
Qed.

Definition host_project (s : St) : projectState := project (hw_graph (mg_world (st_manager s))).

(** An operator message that the demonstration host answers had exactly the effect
    of its words, through the Task Manager, the decision store, the coordination
    service and the store: a message that asks for nothing leaves the graph as it is;
    a hold, of an endpoint that was not held, leaves it held and stopped, pending at
    the next generation with the binding of that generation, two revisions later, and
    its running invocations stopped; a release, of an endpoint that was held, enables
    it one revision later and starts an invocation of its generation; nothing else of
    the graph changes.  A message that names a revision it has seen is answered only
    when that is the latest. *)
Theorem operator_message_effect s request : host_reach s -> (hw_next (mg_world (st_manager s)) + 2 <= int_max)%Z ->
  is_ok (message request s).1 = true ->
  message_effect request (host_project s) (st_invocations s) (host_project (message request s).2) (st_invocations (message request s).2) /\
  forall rev, mm_ObservedGraphRevision request = Some rev -> rev <> 0%Z -> rev = pj_latest (host_project s).
Proof.
  intros Hs%host_reach_ready Hn Hok. destruct (wp_message request _ _ _ (at_host_ready s Hs Hn)) as (p' & l' & [[_ _ <-] <-] & Heff). by apply Heff.
Qed.

(** The Task Manager on the coordination service and its in-memory store completes a
    task only when the graph allows it: whatever the store has been through, a
    delivery that is answered as accepted leaves the task done in the graph, with its
    verify endpoint satisfied, one revision later; and every outcome leaves the graph
    well formed and the remaining decision references unused. *)
Theorem accepted_delivery_done w input : hosted (mg_world w) -> (hw_next (mg_world w) < int_max)%Z ->
  let '(r, w') := HandleDelivery options projectID input w in
  let p := project (hw_graph (mg_world w)) in let p' := project (hw_graph (mg_world w')) in
  hosted (mg_world w') /\
  forall result err, r = Ok (result, err) -> mr_Status result = ReplyAccepted ->
    pj_latest p' = Revision_Next (pj_latest p) /\ exists task verify,
      g_tasks (pj_current p') !! di_TaskID input = Some task /\ task_Outcome task = TaskDone /\
      g_endpoints (pj_current p') !! mkRef (di_TaskID input) EndpointVerify = Some verify /\ ep_State verify = EndpointSatisfied.
Proof.
  intros Hh Hn. assert (mroom 1 (project (hw_graph (mg_world w))) w) as Hw by (split; [done|lia|done]).
  pose proof (wp_delivery input 0 _ w Hw ltac:(done)) as Hd. unfold wp in Hd. destruct (HandleDelivery _ _ _ _) as [r w']. simpl in Hd.
  destruct Hd as (p' & [Hh' _ Hp'] & Hres). split; [done|]. intros result err Hr Hst. rewrite Hp'. specialize (Hres _ _ Hr Hst).
  split; [|by apply delivered_done in Hres]. destruct Hres as (snap & Ht). by apply transition_committed in Ht as [_ ?].
Qed.

End host.

(** ** Witnesses *)

Module HostSample.
#[local] Existing Instance GoRuntime_list.

Definition sink (event : AppendEvent) : M error (list AppendEvent) unit := modify (fun events => events ++ [event]).
Definition clock : M error (list AppendEvent) Time := mret 5%Z.
Definition noContract (input : RequirementInput) : M error (list AppendEvent) TaskContract := throw (InvalidArgument "no contract").
Definition artifactContract (task : TaskID) : M error (list AppendEvent) TaskContract :=
  mret (mkContract task "contract-1" DeliveryPolicyNonCodeArtifact ∅).

Definition text (next : PendingSubgraph) : string := ps_RequestID next.
Definition change (rev : Revision) (ref : string) (tr : GraphTransition) : string := ref.
Definition payload (p : HostPayload) : string := "{}".

Definition started : state (list AppendEvent) := (bootstrap id text payload sink clock DemoProjectID 1 (New [])).2.

Definition hold : ManagerMessageRequest := mkMessage "r1" DemoProjectID "c" "please HOLD" "" (Some (mkRef "task-alpha" "execute")) (Some 2%Z).

Lemma operator_message_effect_witness : exists p' l',
  message_effect hold (host_project DemoProjectID started) (st_invocations started) p' l' /\ pj_latest p' = 4%Z.
Proof.
  eexists _, _. split.
  - apply (operator_message_effect id text change payload sink clock noContract artifactContract DemoProjectID 1 started hold).
    + exists [], started. split; [vm_compute; reflexivity|apply rtc_refl].
    + vm_compute. discriminate.
    + vm_compute. reflexivity.
  - vm_compute. reflexivity.
Defined.

(** The verify phase of [t1] submitted and judged. *)
Definition verify_result : PhaseResult := mkResult "r2" (ref "t1" "verify") "binding:t1verify" "artifact://verify" "".
Definition verified_store : MemoryStore :=
  run_op (OpTransition pid 3 (endpoint_transition (ref "t1" "verify") EndpointSatisfied verify_result))
    (run_op (OpTransition pid 2 (endpoint_transition (ref "t1" "verify") EndpointSubmitted zeroResult)) planned_store).

Lemma verified_reachable : reachable verified_store.
Proof.
  eapply rtc_r; [eapply rtc_r; [apply planned_reachable|]|].
  - exact (simple_step (OpTransition pid 2 (endpoint_transition (ref "t1" "verify") EndpointSubmitted zeroResult)) planned_store I).
  - exact (simple_step (OpTransition pid 3 (endpoint_transition (ref "t1" "verify") EndpointSatisfied verify_result)) _ I).
Qed.

Definition manager : Manager (HostWorld (list AppendEvent)) := NewManager (mkHostWorld 0 [] (∅, (∅, verified_store)) []).

Lemma manager_hosted : hosted pid (mg_world manager).
Proof.
  split; [vm_compute; reflexivity|done|by intros; apply lookup_empty..|].
  apply (pi_graph _ (reachable_project verified_store pid verified_reachable)).
Qed.

Definition report : DeliveryInput := mkDeliveryInput "input-1" "t1" (mkDeliveryEvidence ["artifact://1"] [] false false false false "").

Definition deliver : M error (Manager (HostWorld (list AppendEvent))) (Result * option error) :=
  HandleDelivery (hostOptions id text change payload sink clock noContract artifactContract pid 1) pid report.

(** The delivery is accepted, so the task is done. *)
Lemma accepted_delivery_done_witness :
  exists result err, (deliver manager).1 = Ok (result, err) /\ mr_Status result = ReplyAccepted /\
    exists task, g_tasks (pj_current (project pid (hw_graph (mg_world (deliver manager).2)))) !! "t1" = Some task /\ task_Outcome task = TaskDone.
Proof.
  pose proof (accepted_delivery_done id text change payload sink clock noContract artifactContract pid 1 manager report manager_hosted ltac:(vm_compute; reflexivity)) as H.
  fold deliver in H. destruct (deliver manager) as [r w'] eqn:Hd.
  assert (exists result err, r = Ok (result, err) /\ mr_Status result = ReplyAccepted) as (result & err & Hr & Hst).
  { assert (match r with Ok (result, _) => bool_decide (mr_Status result = ReplyAccepted) | Err _ => false end = true) as Hb.
    { rewrite <- (f_equal fst Hd : (deliver manager).1 = r). vm_compute. reflexivity. }
    destruct r as [[result err]|e]; [|discriminate Hb]. apply bool_decide_eq_true_1 in Hb. exists result, err. split; [reflexivity|exact Hb]. }
  exists result, err. split_and!; [exact Hr|exact Hst|]. destruct H as [_ H]. destruct (H _ _ Hr Hst) as (_ & task & verify & Ht & Ho & _).
  exists task. split; [exact Ht|exact Ho].
Defined.

End HostSample.
