(* ===== verification/UiProjection.v ===== *)
(** * The read models of the operator's browser

    [uiprojection/builder.go], [inspector.go], [permissions.go], [model.go], [query.go],
    [context_snapshot.go], [event_mapper.go] and [eventlog_query.go]: the snapshot of the
    coordination graph, the inspector of an endpoint, the pages and the stream of events,
    restricted to what the operator may read.  The readers of the stores are functions of
    what they are asked, since each is asked once in a call; who may read what does not
    change during a call; the event log is that of [EvLog], and may grow while a page is
    collected.  JSON is a parameter.  A reader that is not configured, and the channels
    and timers of a subscription, are left out: a poll gives the events that it sends. *)

From stdpp Require Import base tactics option list strings gmap sorting relations.
From Stdlib Require Import ZArith Ascii.
From S2P Require Import Prelude GoLib GoStrings Kernel EvLog EvProps CtxModel Auth CoordTypes GraphRuntime Invocation.

(** ** Data *)

Definition InvocationProviderAgentTeams : string := "agentteams_qwenpaw_taskflow".

Record TaskReadGrant := mkGrant {
  gr_Visible : bool;
  gr_ContextBodies : bool;
  gr_CandidateBodies : bool;
}.

Record CapacityRecord := mkCapacityRecord {
  kr_Capacity : RuntimeCapacity;
  kr_UpdatedAt : Time;
  kr_DegradedReason : string;
}.

Record CapacityState := mkCapacityState {
  kp_ProjectID : ProjectID;
  kp_Revision : Z;
  kp_DesiredConcurrency : Z;
  kp_HealthyCapacity : Z;
  kp_ActiveInvocations : Z;
  kp_WaitingInvocations : Z;
  kp_DegradedReason : string;
  kp_UpdatedAt : Time;
}.

Record TaskSummary := mkTaskSummary {
  tm_TaskID : TaskID;
  tm_Status : string;
}.

Record GraphNode := mkGraphNode {
  gn_ID : string;
  gn_Kind : string;
  gn_Label : string;
  gn_TaskID : TaskID;
  gn_EndpointID : EndpointID;
  gn_Generation : Z;
  gn_State : string;
  gn_RunPolicy : string;
  gn_BindingRef : BindingRef;
  gn_LatestInvocationRef : InvocationID;
}.

Record GraphEdge := mkGraphEdge {
  ge_ID : string;
  ge_From : PhaseEndpointRef;
  ge_To : PhaseEndpointRef;
  ge_RequiredBy : string;
  ge_State : string;
  ge_ArtifactKinds : list string;
}.

Record CoordinationSnapshot := mkCoordinationSnapshot {
  us_ProjectID : ProjectID;
  us_Revision : Revision;
  us_Cursor : string;
  us_Tasks : list TaskSummary;
  us_Nodes : list GraphNode;
  us_Edges : list GraphEdge;
  us_Capacity : CapacityState;
}.

Record OmittedContext := mkOmitted {
  om_Reason : string;
  om_Count : Z;
}.

Record CandidateInspectionRecord := mkCandidateInspection {
  ci_ProjectID : ProjectID;
  ci_TaskID : TaskID;
  ci_CreatedByInvocationID : InvocationID;
  ci_View : TaskMemoryCandidateView;
}.

Record ContextInspection := mkContextInspection {
  cx_Subscriptions : list SubscriptionInspection;
  cx_Slice : ContextSlice;
  cx_Frontier : list string;
  cx_Omitted : list OmittedContext;
  cx_Candidates : list CandidateInspectionRecord;
}.

Record InvocationProjection := mkInvocationProjection {
  ip_InvocationID : InvocationID;
  ip_Provider : string;
  ip_Status : string;
  ip_StartedAt : option Time;
  ip_EndedAt : option Time;
  ip_InputRevision : string;
  ip_WorkspaceRef : string;
  ip_ContextSliceRef : string;
  ip_TaskMemoryBufferRef : string;
}.

Record SubscriptionProjection := mkSubscriptionProjection {
  sj_SubscriptionID : string;
  sj_SubgraphIDs : list string;
  sj_Active : bool;
  sj_Source : string;
}.

Record ContextNodeView := mkNodeView {
  nv_NodeID : string;
  nv_Kind : string;
  nv_Statement : string;
  nv_Status : string;
  nv_SourceRefs : list string;
  nv_SubgraphIDs : list string;
}.

Record ContextSliceView := mkSliceView {
  xv_ContextSliceRef : string;
  xv_Revision : string;
  xv_Nodes : list ContextNodeView;
  xv_Frontier : list string;
  xv_Omitted : list OmittedContext;
}.

Record TaskMemoryBufferView := mkMemoryView {
  tv_TaskMemoryBufferRef : string;
  tv_Candidates : list TaskMemoryCandidateView;
  tv_Omitted : list OmittedContext;
}.

Record EndpointInspector := mkInspector {
  ei_Endpoint : PhaseEndpointRef;
  ei_Generation : Z;
  ei_GraphRevision : Revision;
  ei_Invocation : option InvocationProjection;
  ei_Subscriptions : list SubscriptionProjection;
  ei_ContextSlice : option ContextSliceView;
  ei_TaskMemoryBuffer : option TaskMemoryBufferView;
}.

(** The readers, and who may read what. *)
Record Readers := mkReaders {
  rd_CanReadProject : Principal -> ProjectID -> res bool;
  rd_TaskGrant : Principal -> ProjectID -> TaskID -> res TaskReadGrant;
  rd_CurrentCursor : ProjectID -> res string;
  rd_Latest : ProjectID -> res GraphSnapshot;
  rd_Snapshot : ProjectID -> Revision -> res GraphSnapshot;
  rd_ReadCapacity : ProjectID -> res CapacityRecord;
  rd_ListInvocations : InvocationFilter -> res (list Invocation);
  rd_InspectInvocation : Principal -> Invocation -> res ContextInspection;
}.

(** ** Invocations *)

Section projection.
Context `{GR : GoRuntime}.

Definition invocationIsActive (i : Invocation) : bool := bool_decide (in_Status i ∈ [InvocationPrepared; InvocationRunning; InvocationWaiting]).

Definition invocation_less (a b : Invocation) : bool :=
  if bool_decide (in_Generation a <> in_Generation b) then (in_Generation a <? in_Generation b)%Z
  else if bool_decide (in_CreatedAt a <> in_CreatedAt b) then (in_CreatedAt a <? in_CreatedAt b)%Z
  else string_lt (in_ID a) (in_ID b).

Definition matches (f : InvocationFilter) (i : Invocation) : bool :=
  negb (bool_decide (fi_ProjectID f <> "") && bool_decide (in_ProjectID i <> fi_ProjectID f)) &&
  negb (bool_decide (fi_TaskID f <> "") && bool_decide (in_TaskID i <> fi_TaskID f)) &&
  negb (bool_decide (fi_EndpointID f <> "") && bool_decide (in_EndpointID i <> fi_EndpointID f)) &&
  negb (bool_decide (fi_Generation f <> 0%Z) && bool_decide (in_Generation i <> fi_Generation f)) &&
  IsPhase (in_Role i).

Definition filterInvocations (invocations : list Invocation) (f : InvocationFilter) : list Invocation :=
  sort_slice invocation_less (filter (fun i => matches f i = true) invocations).

Definition selectInvocation (invocations : list Invocation) (ref : PhaseEndpointRef) (generation : Z) (exactGeneration : bool) : option Invocation :=
  let filtered := filterInvocations invocations (mkFilter "" (ref_TaskID ref) (ref_EndpointID ref) 0) in
  let chosen := filter (fun i => negb (exactGeneration && bool_decide (generation <> 0%Z) && bool_decide (in_Generation i <> generation)) = true) filtered in
  match last (filter (fun i => invocationIsActive i = true) chosen) with
  | Some i => Some i
  | None => last (filter (fun i => invocationIsActive i = false) chosen)
  end.

(** ** The snapshot *)

Definition validateCapacity (record : CapacityRecord) : res unit :=
  let c := kr_Capacity record in
  _ ← fail_if ((cap_Desired c <? 0)%Z || (cap_Healthy c <? 0)%Z || (cap_Active c <? 0)%Z || (cap_Healthy c <? cap_Active c)%Z || (cap_Revision c <? 0)%Z)
        (kerr CodeInternalError "scheduler returned an invalid capacity snapshot" true);
  fail_if (bool_decide (kr_UpdatedAt record = time_zero)) (kerr CodeInternalError "capacity snapshot is missing updated_at" true).

Definition taskProjectionStatus (task : Task) (graph : GraphSnapshot) (invocations : list Invocation) : string :=
  if bool_decide (task_Outcome task = TaskDone) then "done"
  else if bool_decide (task_Outcome task = TaskCanceled) then "canceled"
  else if bool_decide (task_Outcome task = TaskFailed) then "failed"
  else if existsb (fun b => bool_decide (ref_TaskID (blk_Target b) = task_ID task) && bool_decide (blk_State b = BlockerActive)) (snap_Blockers graph) then "blocked"
  else if existsb (fun i => bool_decide (in_TaskID i = task_ID task) && invocationIsActive i) invocations then "running"
  else "pending".

Definition endpointKey (ref : PhaseEndpointRef) : string := ref_TaskID ref +:+ "/" +:+ ref_EndpointID ref.

Definition nodeState (state status : string) : string :=
  if bool_decide (status = InvocationPrepared) then "starting"
  else if bool_decide (status = InvocationRunning) then "running"
  else if bool_decide (status = InvocationWaiting) then "waiting"
  else if bool_decide (status = InvocationStopped) then "stopped"
  else state.

Definition graphNode (endpoint : PhaseEndpoint) (invocation : option Invocation) : GraphNode :=
  let node := mkGraphNode (endpointKey (ep_Ref endpoint)) "endpoint" (ref_EndpointID (ep_Ref endpoint)) (ref_TaskID (ep_Ref endpoint))
                (ref_EndpointID (ep_Ref endpoint)) (ep_Generation endpoint) in
  match invocation with
  | Some i => if bool_decide (in_ID i <> "") then node (nodeState (ep_State endpoint) (in_Status i)) (ep_RunPolicy endpoint) (ep_BindingRef endpoint) (in_ID i)
              else node (ep_State endpoint) (ep_RunPolicy endpoint) (ep_BindingRef endpoint) ""
  | None => node (ep_State endpoint) (ep_RunPolicy endpoint) (ep_BindingRef endpoint) ""
  end.

Definition edgeProjectionState (edge : Edge) (graph : GraphSnapshot) : string :=
  let task := if bool_decide (edge_Signal edge = SignalTaskDone)
              then snd <$> list_find (fun t => task_ID t = ref_TaskID (edge_From edge)) (snap_Tasks graph) else None in
  match task with
  | Some t =>
    if bool_decide (task_Outcome t = TaskDone) then "satisfied"
    else if bool_decide (task_Outcome t = TaskCanceled) then "obsolete"
    else if bool_decide (task_Outcome t = TaskFailed) then "failed" else "pending"
  | None =>
    match list_find (fun e => ep_Ref e = edge_From edge) (snap_Endpoints graph) with
    | Some (_, e) =>
      if bool_decide (ep_State e = EndpointSatisfied) then "satisfied" else if bool_decide (ep_State e = EndpointRejected) then "failed" else "pending"
    | None => "obsolete"
    end
  end.

Definition graphEdge (edge : Edge) (graph : GraphSnapshot) : GraphEdge :=
  mkGraphEdge (endpointKey (edge_From edge) +:+ ">" +:+ endpointKey (edge_To edge) +:+ ":" +:+ edge_Signal edge +:+ ":" +:+ edge_RequiredBy edge)
    (edge_From edge) (edge_To edge) (edge_RequiredBy edge) (edgeProjectionState edge graph) (edge_ArtifactKinds edge).

Section service.
Context (readers : Readers).

Definition requireProject (principal : Principal) (projectID : ProjectID) : res unit :=
  _ ← RequireID "project_id" projectID;
  _ ← fail_if (bool_decide (pri_Kind principal <> PrincipalOperator) || bool_decide (pri_Role principal <> RoleOperator) || bool_decide (pri_ProjectID principal = ""))
        (Forbidden "UI projection requires an authenticated operator");
  _ ← fail_if (bool_decide (pri_ProjectID principal <> projectID)) (Forbidden "operator is not allowed for project");
  allowed ← rd_CanReadProject readers principal projectID;
  fail_if (negb allowed) (Forbidden "operator is not allowed for project").

Definition taskGrant (principal : Principal) (projectID : ProjectID) (taskID : TaskID) : res TaskReadGrant :=
  _ ← RequireID "task_id" taskID;
  rd_TaskGrant readers principal projectID taskID.

Definition readGraph (projectID : ProjectID) (revision : Revision) : res GraphSnapshot :=
  if IsLatestRead revision then rd_Latest readers projectID else rd_Snapshot readers projectID revision.

(** The ids of the tasks that the operator may see, and their summaries. *)
Definition visibleTasks (principal : Principal) (projectID : ProjectID) (graph : GraphSnapshot) (invocations : list Invocation) :
    res (gset TaskID * list TaskSummary) :=
  foldM (fun (acc : gset TaskID * list TaskSummary) task =>
      grant ← taskGrant principal projectID (task_ID task);
      if gr_Visible grant
      then Ok ({[task_ID task]} ∪ acc.1, acc.2 ++ [mkTaskSummary (task_ID task) (taskProjectionStatus task graph invocations)])
      else Ok acc)
    (∅, []) (snap_Tasks graph).

Definition buildSnapshot (projectID : ProjectID) (cursor : string) (graph : GraphSnapshot) (capacity : CapacityRecord) (invocations : list Invocation)
    (visible : gset TaskID) (tasks : list TaskSummary) : CoordinationSnapshot :=
  let c := kr_Capacity capacity in
  mkCoordinationSnapshot projectID (snap_Revision graph) cursor tasks
    ((fun e => graphNode e (selectInvocation invocations (ep_Ref e) (uint64_wrap (ep_Generation e)) true)) <$>
       filter (fun e => ref_TaskID (ep_Ref e) ∈ visible) (snap_Endpoints graph))
    ((fun e => graphEdge e graph) <$>
       filter (fun e => ref_TaskID (edge_From e) ∈ visible /\ ref_TaskID (edge_To e) ∈ visible) (snap_Edges graph))
    (mkCapacityState projectID (cap_Revision c) (cap_Desired c) (cap_Healthy c) (cap_Active c)
       (Z.of_nat (length (filter (fun i => in_TaskID i ∈ visible /\ in_Status i = InvocationWaiting) invocations)))
       (kr_DegradedReason capacity) (kr_UpdatedAt capacity)).

Definition Snapshot (principal : Principal) (projectID : ProjectID) (revision : Revision) : res CoordinationSnapshot :=
  _ ← requireProject principal projectID;
  cursor ← rd_CurrentCursor readers projectID;
  let cursor := if bool_decide (cursor = "") then "0" else cursor in
  graph ← readGraph projectID revision;
  capacity ← rd_ReadCapacity readers projectID;
  _ ← validateCapacity capacity;
  let f := mkFilter projectID "" "" 0 in
  invocations ← rd_ListInvocations readers f;
  let invocations := filterInvocations invocations f in
  seen ← visibleTasks principal projectID graph invocations;
  Ok (buildSnapshot projectID cursor graph capacity invocations seen.1 seen.2).

(** The context graph is read through its own reader, when there is one. *)
Definition ContextSnapshot {G} (contextGraph : option (ProjectID -> res G)) (principal : Principal) (projectID : ProjectID) : res G :=
  _ ← requireProject principal projectID;
  match contextGraph with
  | None => Err (kerr CodeInternalError "Context graph snapshot reader is not configured" true)
  | Some ProjectContextSnapshot => ProjectContextSnapshot projectID
  end.

End service.
End projection.

(** ** The inspector *)

Definition findProjected (graph : GraphSnapshot) (ref : PhaseEndpointRef) : option PhaseEndpoint :=
  snd <$> list_find (fun e => ep_Ref e = ref) (snap_Endpoints graph).

Definition invocationProjection (i : Invocation) : InvocationProjection :=
  mkInvocationProjection (in_ID i) InvocationProviderAgentTeams (if bool_decide (in_Status i = InvocationPrepared) then "pending" else in_Status i)
    (if bool_decide (in_CreatedAt i = time_zero) then None else Some (in_CreatedAt i)) None "" (in_WorkspaceRef i) (in_ContextSliceRef i) (in_TaskMemoryBufferRef i).

Definition appendOmission (omitted : list OmittedContext) (reason : string) (count : Z) : list OmittedContext :=
  match list_find (fun o => om_Reason o = reason) omitted with
  | Some (i, o) => <[i := mkOmitted reason (int_wrap (om_Count o + count))]> omitted
  | None => omitted ++ [mkOmitted reason count]
  end.

Section inspect.
Context `{GR : GoRuntime}.

Definition sortedUnique (values : list string) : list string :=
  sort_slice string_lt (range_keys (foldl (fun (m : gmap string unit) v => if bool_decide (v = "") then m else <[v := tt]> m) ∅ values)).

Definition projectSubscriptions (records : list SubscriptionInspection) (i : Invocation) : list SubscriptionProjection :=
  sort_slice (fun a b => string_lt (sj_SubscriptionID a) (sj_SubscriptionID b))
    ((fun r => mkSubscriptionProjection (si_ID r) (sortedUnique (si_SubgraphIDs r)) (si_Active r && invocationIsActive i) (si_Source r)) <$>
       filter (fun r => si_ConsumerInvocationID r = in_ID i) records).

Definition projectContextSlice (inspection : ContextInspection) (i : Invocation) (bodiesAllowed : bool) : ContextSliceView :=
  let nodes := sl_Nodes (cx_Slice inspection) in
  let view := mkSliceView (in_ContextSliceRef i) (format_int (sl_GraphRevision (cx_Slice inspection))) in
  if bodiesAllowed
  then view ((fun n => mkNodeView (cn_ID n) (cn_Kind n) (cn_Statement n) (cn_Status n) (cn_SourceRefs n) (sortedUnique (cn_SubgraphIDs n))) <$> nodes)
         (sortedUnique (cx_Frontier inspection)) (cx_Omitted inspection)
  else view [] (sortedUnique (cx_Frontier inspection))
         (if bool_decide (nodes = []) then cx_Omitted inspection else appendOmission (cx_Omitted inspection) "forbidden" (Z.of_nat (length nodes))).

Definition projectTaskMemory (records : list CandidateInspectionRecord) (i : Invocation) (bodiesAllowed : bool) : TaskMemoryBufferView :=
  let matched := sort_slice (fun a b => string_lt (cv_CandidateID a) (cv_CandidateID b))
    (ci_View <$> filter (fun r => ci_ProjectID r = in_ProjectID i /\ ci_TaskID r = in_TaskID i /\ ci_CreatedByInvocationID r = in_ID i) records) in
  if bodiesAllowed then mkMemoryView (in_TaskMemoryBufferRef i) matched []
  else mkMemoryView (in_TaskMemoryBufferRef i) []
         (if bool_decide (matched = []) then [] else appendOmission [] "forbidden" (Z.of_nat (length matched))).

Context (readers : Readers).

(** The invocation to show, and its generation. *)
Definition inspected (invocations : list Invocation) (endpoint : PhaseEndpoint) (ref : PhaseEndpointRef) (generation : Z) : option Invocation * Z :=
  if (0 <? generation)%Z then (selectInvocation invocations ref (uint64_wrap generation) true, generation)
  else
    let found := match selectInvocation invocations ref (uint64_wrap (ep_Generation endpoint)) true with
                 | Some i => Some i
                 | None => selectInvocation invocations ref 0 false
                 end in
    (found, match found with Some i => int_wrap (in_Generation i) | None => ep_Generation endpoint end).

Definition InspectEndpoint (principal : Principal) (projectID : ProjectID) (ref : PhaseEndpointRef) (generation : Z) : res EndpointInspector :=
  _ ← requireProject readers principal projectID;
  _ ← fail_if (bool_decide (ref_TaskID ref = "") || bool_decide (ref_EndpointID ref = "")) (InvalidArgument "endpoint task_id and endpoint_id are required");
  _ ← fail_if (generation <? 0)%Z (InvalidArgument "generation cannot be negative");
  grant ← taskGrant readers principal projectID (ref_TaskID ref);
  _ ← fail_if (negb (gr_Visible grant)) (kerr CodeNotFound "endpoint not found" false);
  graph ← rd_Latest readers projectID;
  match findProjected graph ref with
  | None => Err (kerr CodeNotFound "endpoint not found" false)
  | Some endpoint =>
    let f := mkFilter projectID (ref_TaskID ref) (ref_EndpointID ref) 0 in
    invocations ← rd_ListInvocations readers f;
    let '(found, selectedGeneration) := inspected (filterInvocations invocations f) endpoint ref generation in
    _ ← fail_if ((0 <? generation)%Z && bool_decide (found = None) && bool_decide (generation <> ep_Generation endpoint))
          (kerr CodeNotFound "endpoint generation not found" false);
    match found with
    | None => Ok (mkInspector ref selectedGeneration (snap_Revision graph) None [] None None)
    | Some i =>
      inspection ← rd_InspectInvocation readers principal i;
      Ok (mkInspector ref selectedGeneration (snap_Revision graph) (Some (invocationProjection i)) (projectSubscriptions (cx_Subscriptions inspection) i)
            (Some (projectContextSlice inspection i (gr_ContextBodies grant))) (Some (projectTaskMemory (cx_Candidates inspection) i (gr_CandidateBodies grant))))
    end
  end.

End inspect.

(** ** Events *)

Record RawEvent := mkRawEvent {
  rw_EventID : string;
  rw_Cursor : string;
  rw_Type : string;
  rw_ProjectID : ProjectID;
  rw_TaskID : TaskID;
  rw_EndpointID : EndpointID;
  rw_InvocationID : InvocationID;
  rw_GraphRevision : Revision;
  rw_OccurredAt : Time;
  rw_Payload : string;
}.

Record GraphRevisedEventData := mkGraphRevised {
  gd_Revision : Revision;
  gd_ManagerInputRef : string;
  gd_DecisionRef : string;
}.

Record TaskUpdatedEventData := mkTaskUpdated {
  tu_TaskID : TaskID;
  tu_Status : string;
}.

Record EndpointUpdatedEventData := mkEndpointUpdated {
  eu_Endpoint : PhaseEndpointRef;
  eu_Generation : Z;
  eu_State : string;
  eu_LatestInvocationRef : InvocationID;
}.

Record InvocationUpdatedEventData := mkInvocationUpdated {
  iu_Endpoint : PhaseEndpointRef;
  iu_Generation : Z;
  iu_InvocationID : InvocationID;
  iu_Status : string;
}.

Record SubscriptionUpdatedEventData := mkSubscriptionUpdated {
  su_Endpoint : PhaseEndpointRef;
  su_Generation : Z;
  su_InvocationID : InvocationID;
  su_SubscriptionID : string;
  su_SubgraphIDs : list string;
  su_Active : option bool;
  su_Source : string;
}.

Record ContextDeltaEventData := mkContextDeltaEvent {
  cd_Endpoint : PhaseEndpointRef;
  cd_Generation : Z;
  cd_InvocationID : InvocationID;
  cd_ContextSliceRef : string;
  cd_Revision : string;
  cd_SubgraphIDs : list string;
}.

Record TaskMemoryBufferUpdatedEventData := mkMemoryUpdated {
  mu_TaskID : TaskID;
  mu_TaskMemoryBufferRef : string;
  mu_CreatedByInvocationID : InvocationID;
  mu_CandidateID : string;
}.

Record ManagerInteractionEventData := mkManagerInteraction {
  mi_ConversationID : string;
  mi_EntryID : string;
  mi_Kind : string;
  mi_CreatedAt : Time;
  mi_ManagerInputRef : string;
  mi_DecisionRef : string;
  mi_GraphRevision : Revision;
  mi_Body : string;
  mi_Disposition : string;
}.

(** The values that [projectEventPayload] encodes. *)
Inductive EventData :=
| CapacityData (capacity : CapacityState)
| GraphRevisedData (data : GraphRevisedEventData)
| TaskUpdatedData (data : TaskUpdatedEventData)
| EndpointUpdatedData (data : EndpointUpdatedEventData)
| InvocationUpdatedData (data : InvocationUpdatedEventData)
| SubscriptionUpdatedData (data : SubscriptionUpdatedEventData)
| ContextDeltaData (data : ContextDeltaEventData)
| MemoryUpdatedData (data : TaskMemoryBufferUpdatedEventData)
| ManagerInteractionData (data : ManagerInteractionEventData).

(** [json.Unmarshal] at each type (of the legacy capacity event, its only field),
    [json.Marshal] and [json.Unmarshal] to an object that is not nil. *)
Record EventCodec (Object : Type) := mkEventCodec {
  dec_Capacity : string -> option CapacityState;
  dec_CapacityEvent : string -> option CapacityState;
  dec_GraphRevised : string -> option GraphRevisedEventData;
  dec_TaskUpdated : string -> option TaskUpdatedEventData;
  dec_EndpointUpdated : string -> option EndpointUpdatedEventData;
  dec_InvocationUpdated : string -> option InvocationUpdatedEventData;
  dec_SubscriptionUpdated : string -> option SubscriptionUpdatedEventData;
  dec_ContextDelta : string -> option ContextDeltaEventData;
  dec_MemoryUpdated : string -> option TaskMemoryBufferUpdatedEventData;
  dec_ManagerInteraction : string -> option ManagerInteractionEventData;
  enc_Data : EventData -> option string;
  dec_Object : string -> option Object;
}.
Arguments mkEventCodec {_}.
Arguments dec_Capacity {_}.
Arguments dec_CapacityEvent {_}.
Arguments dec_GraphRevised {_}.
Arguments dec_TaskUpdated {_}.
Arguments dec_EndpointUpdated {_}.
Arguments dec_InvocationUpdated {_}.
Arguments dec_SubscriptionUpdated {_}.
Arguments dec_ContextDelta {_}.
Arguments dec_MemoryUpdated {_}.
Arguments dec_ManagerInteraction {_}.
Arguments enc_Data {_}.
Arguments dec_Object {_}.

Record UIEvent (Object : Type) := mkUIEvent {
  ue_EventID : string;
  ue_Cursor : string;
  ue_Type : string;
  ue_OccurredAt : Time;
  ue_ProjectID : ProjectID;
  ue_TaskID : TaskID;
  ue_EndpointID : EndpointID;
  ue_Payload : Object;
}.
Arguments mkUIEvent {_}.
Arguments ue_EventID {_}.
Arguments ue_Cursor {_}.
Arguments ue_Type {_}.
Arguments ue_OccurredAt {_}.
Arguments ue_ProjectID {_}.
Arguments ue_TaskID {_}.
Arguments ue_EndpointID {_}.
Arguments ue_Payload {_}.

Definition canonicalUIEventType (raw : string) : option string :=
  if bool_decide (raw ∈ ["capacity.updated"; "graph.revision"; "task.updated"; "endpoint.updated"; "invocation.updated"; "subscription.updated"; "context.delta";
                         "task_memory_buffer.updated"; "manager.interaction"]) then Some raw
  else if bool_decide (raw = "coordination.graph_revised") then Some "graph.revision"
  else if bool_decide (raw = "CapacityAdjusted") then Some "capacity.updated"
  else if bool_decide (raw ∈ ["PhaseActivated"; "PhaseOutputSubmitted"; "PhaseResultInvalidated"]) then Some "endpoint.updated"
  else if bool_decide (raw ∈ ["AgentInvocationStarted"; "AgentInvocationFinished"; "AgentInvocationFailed"; "PhaseInvocationStarted"; "PhaseInvocationFailed";
                              "PhaseInvocationStopped"]) then Some "invocation.updated"
  else if bool_decide (raw ∈ ["ContextSubscriptionCreated"; "ContextSubscriptionCancelled"; "ContextSubscriptionExpired"]) then Some "subscription.updated"
  else if bool_decide (raw ∈ ["ContextDeltaDelivered"; "ContextDeltaConsumed"; "ContextGraphCommitted"]) then Some "context.delta"
  else if bool_decide (raw ∈ ["MemoryCandidateBuffered"; "MemoryCandidateRejected"; "CandidateBufferFrozen"; "CandidateReviewAccepted"; "CandidateReviewRejected"])
  then Some "task_memory_buffer.updated"
  else if bool_decide (raw ∈ ["TaskManagerDecisionSubmitted"; "TaskManagerDecisionFinalized"; "HumanDecisionRequested"; "HumanDecisionRecorded";
                              "OrchestrationProposalSubmitted"; "OrchestrationProposalDecided"]) then Some "manager.interaction"
  else if bool_decide (raw ∈ ["manager.message_recorded"; "manager.decision_recorded"]) then Some "manager.interaction"
  else if bool_decide (raw = "inspector.updated") then Some "invocation.updated"
  else None.

Definition orElse (value default : string) : string := if bool_decide (value = "") then default else value.

Definition fillEventEndpoint (endpoint : PhaseEndpointRef) (event : RawEvent) : PhaseEndpointRef :=
  mkRef (orElse (ref_TaskID endpoint) (rw_TaskID event)) (orElse (ref_EndpointID endpoint) (rw_EndpointID event)).

Definition decodeEventPayload {A} (decode : string -> option A) (payload : string) : res A :=
  _ ← fail_if (bool_decide (payload = "")) (InvalidArgument "structured UI event payload is required");
  match decode payload with Some a => Ok a | None => Err (InvalidArgument "structured UI event payload is invalid") end.

Definition CursorExpired (cursor : string) : error :=
  KernelError (mkError "cursor_expired" "event cursor expired" true {["cursor" := cursor]}).

Definition IsCursorExpired (err : option error) : bool := bool_decide (ErrorCodeOf err = "cursor_expired").

Section events.
Context {Object : Type} (codec : EventCodec Object) (readers : Readers).

Definition capacityData (event : RawEvent) : res CapacityState :=
  payload ← match dec_Capacity codec (rw_Payload event) with Some c => Ok c | None => Err (InvalidArgument "capacity event payload is invalid") end;
  payload ← (if bool_decide (kp_ProjectID payload = "") then decodeEventPayload (dec_CapacityEvent codec) (rw_Payload event) else Ok payload);
  Ok (mkCapacityState (orElse (kp_ProjectID payload) (rw_ProjectID event)) (kp_Revision payload) (kp_DesiredConcurrency payload) (kp_HealthyCapacity payload)
        (kp_ActiveInvocations payload) (kp_WaitingInvocations payload) (kp_DegradedReason payload) (kp_UpdatedAt payload)).

Definition eventData (eventType : string) (event : RawEvent) : res EventData :=
  let raw := rw_Payload event in
  if bool_decide (eventType = "capacity.updated") then c ← capacityData event; Ok (CapacityData c)
  else if bool_decide (eventType = "graph.revision") then
    d ← decodeEventPayload (dec_GraphRevised codec) raw;
    Ok (GraphRevisedData (mkGraphRevised (if bool_decide (gd_Revision d = 0%Z) then rw_GraphRevision event else gd_Revision d) (gd_ManagerInputRef d) (gd_DecisionRef d)))
  else if bool_decide (eventType = "task.updated") then
    d ← decodeEventPayload (dec_TaskUpdated codec) raw;
    Ok (TaskUpdatedData (mkTaskUpdated (orElse (tu_TaskID d) (rw_TaskID event)) (tu_Status d)))
  else if bool_decide (eventType = "endpoint.updated") then
    d ← decodeEventPayload (dec_EndpointUpdated codec) raw;
    Ok (EndpointUpdatedData (mkEndpointUpdated (fillEventEndpoint (eu_Endpoint d) event) (eu_Generation d) (eu_State d) (orElse (eu_LatestInvocationRef d) (rw_InvocationID event))))
  else if bool_decide (eventType = "invocation.updated") then
    d ← decodeEventPayload (dec_InvocationUpdated codec) raw;
    Ok (InvocationUpdatedData (mkInvocationUpdated (fillEventEndpoint (iu_Endpoint d) event) (iu_Generation d) (orElse (iu_InvocationID d) (rw_InvocationID event)) (iu_Status d)))
  else if bool_decide (eventType = "subscription.updated") then
    d ← decodeEventPayload (dec_SubscriptionUpdated codec) raw;
    Ok (SubscriptionUpdatedData (mkSubscriptionUpdated (fillEventEndpoint (su_Endpoint d) event) (su_Generation d) (orElse (su_InvocationID d) (rw_InvocationID event))
          (su_SubscriptionID d) (su_SubgraphIDs d) (su_Active d) (su_Source d)))
  else if bool_decide (eventType = "context.delta") then
    d ← decodeEventPayload (dec_ContextDelta codec) raw;
    Ok (ContextDeltaData (mkContextDeltaEvent (fillEventEndpoint (cd_Endpoint d) event) (cd_Generation d) (orElse (cd_InvocationID d) (rw_InvocationID event))
          (cd_ContextSliceRef d) (cd_Revision d) (cd_SubgraphIDs d)))
  else if bool_decide (eventType = "task_memory_buffer.updated") then
    d ← decodeEventPayload (dec_MemoryUpdated codec) raw;
    Ok (MemoryUpdatedData (mkMemoryUpdated (orElse (mu_TaskID d) (rw_TaskID event)) (mu_TaskMemoryBufferRef d)
          (orElse (mu_CreatedByInvocationID d) (rw_InvocationID event)) (mu_CandidateID d)))
  else if bool_decide (eventType = "manager.interaction") then
    d ← decodeEventPayload (dec_ManagerInteraction codec) raw; Ok (ManagerInteractionData d)
  else Err (InvalidArgument "UI event type is not supported").

Definition projectEventPayload (eventType : string) (event : RawEvent) : res Object :=
  projected ← eventData eventType event;
  raw ← match enc_Data codec projected with Some raw => Ok raw | None => Err (InvalidArgument "structured UI event payload is invalid") end;
  match dec_Object codec raw with Some o => Ok o | None => Err (InvalidArgument "structured UI event payload must be a JSON object") end.

Definition requireEventProject (principal : Principal) (projectID : ProjectID) : res unit :=
  _ ← fail_if (bool_decide (pri_Kind principal <> PrincipalOperator) || bool_decide (pri_Role principal <> RoleOperator) ||
               bool_decide (pri_ProjectID principal <> projectID)) (Forbidden "UI events require an authenticated project operator");
  allowed ← rd_CanReadProject readers principal projectID;
  fail_if (negb allowed) (Forbidden "operator is not allowed for project").

(** [None]: the event is not shown. *)
Definition Map (principal : Principal) (event : RawEvent) : res (option (UIEvent Object)) :=
  _ ← fail_if (bool_decide (rw_EventID event = "") || bool_decide (rw_Cursor event = "") || bool_decide (rw_Type event = "") ||
               bool_decide (rw_ProjectID event = "") || bool_decide (rw_OccurredAt event = time_zero))
        (InvalidArgument "event_id, cursor, type, project_id, and occurred_at are required");
  _ ← requireEventProject principal (rw_ProjectID event);
  visible ← (if bool_decide (rw_TaskID event <> "") then grant ← rd_TaskGrant readers principal (rw_ProjectID event) (rw_TaskID event); Ok (gr_Visible grant) else Ok true);
  if negb visible then Ok None else
  match canonicalUIEventType (rw_Type event) with
  | None => Ok None
  | Some eventType =>
    payload ← projectEventPayload eventType event;
    Ok (Some (mkUIEvent (rw_EventID event) (rw_Cursor event) eventType (rw_OccurredAt event) (rw_ProjectID event) (rw_TaskID event) (rw_EndpointID event) payload))
  end.

Definition formatEvidenceCursor (cursor : Cursor) : string := format_int cursor.

Definition mapEvidenceEvent (principal : Principal) (projectID : ProjectID) (event : Event) : res (option (UIEvent Object)) :=
  if bool_decide (ev_ProjectID event <> projectID) then Ok None
  else Map principal (mkRawEvent (ev_ID event) (formatEvidenceCursor (ev_Sequence event)) (ev_Type event) (ev_ProjectID event) (ev_TaskID event)
         (ev_PhaseEndpoint event) (ev_AgentInvocationID event) (uint64_wrap (ev_GraphRevision event)) (ev_CreatedAt event) (ev_Payload event)).

(** *** Pages *)

Definition defaultEventLogReplayBatch : Z := 100.

Record EventLogQuery := mkEventLogQuery {
  eq_retained : Cursor;
  eq_batchSize : Z;
}.

Definition NewEventLogQuery (retained batchSize : Z) : EventLogQuery :=
  mkEventLogQuery (if (0 <? retained)%Z then retained else 0) (if (0 <? batchSize)%Z then batchSize else defaultEventLogReplayBatch).

Record eventLogSubscriber := mkSubscriber {
  sb_principal : Principal;
  sb_projectID : ProjectID;
  sb_lastCursor : Cursor;
}.

Context (q : EventLogQuery) (ctx : Context).

Definition parseCursor (raw : string) : res Cursor :=
  if bool_decide (raw = "") then Ok 0%Z else
  match ParseInt raw with
  | None => Err (InvalidArgument "event cursor must be a non-negative integer")
  | Some value =>
    _ ← fail_if (value <? 0)%Z (InvalidArgument "event cursor must be a non-negative integer");
    _ ← fail_if ((0 <? eq_retained q) && (value <? eq_retained q))%Z (CursorExpired raw);
    Ok value
  end.

(** The log that the [k]-th read of a loop finds. *)
Fixpoint CurrentCursor (logs : nat -> EventLog) (fuel k : nat) (cursor : Cursor) : res string :=
  match fuel with
  | 0 => Err Diverged
  | S fuel =>
    page ← (Replay ctx cursor (eq_batchSize q) (logs k)).1;
    if bool_decide (length page.1 = 0) then Ok (formatEvidenceCursor cursor) else CurrentCursor logs fuel (S k) page.2
  end.

Section operator.
Context (principal : Principal) (projectID : ProjectID).

(** The events of one read; [true] when the page is full. *)
Fixpoint scanPage (limit : option Z) (events : list Event) (cursor : Cursor) (out : list (UIEvent Object)) : res (list (UIEvent Object) * Cursor * bool) :=
  match events with
  | [] => Ok (out, cursor, false)
  | event :: rest =>
    if (ev_Sequence event <=? cursor)%Z then scanPage limit rest cursor out else
    mapped ← mapEvidenceEvent principal projectID event;
    match mapped with
    | None => scanPage limit rest (ev_Sequence event) out
    | Some u =>
      if bool_decide (limit = Some (Z.of_nat (length out))) then Ok (out, cursor, true)
      else scanPage limit rest (ev_Sequence event) (out ++ [u])
    end
  end.

Fixpoint readEvents (limit : option Z) (logs : nat -> EventLog) (fuel k : nat) (cursor : Cursor) (out : list (UIEvent Object)) : res (list (UIEvent Object) * Cursor) :=
  match fuel with
  | 0 => Err Diverged
  | S fuel =>
    page ← (Replay ctx cursor (eq_batchSize q) (logs k)).1;
    if bool_decide (length page.1 = 0) then Ok (out, cursor) else
    read ← scanPage limit page.1 cursor out;
    let '(out, cursor, full) := read in
    if full : bool then Ok (out, cursor) else readEvents limit logs fuel (S k) cursor out
  end.

Definition visibleEventsAfter (logs : nat -> EventLog) (fuel : nat) (after : Cursor) (limit : Z) : res (list (UIEvent Object) * Cursor) :=
  readEvents (Some limit) logs fuel 0 after [].

Definition visibleBacklog (logs : nat -> EventLog) (fuel : nat) (after : Cursor) : res (list (UIEvent Object) * Cursor) :=
  readEvents None logs fuel 0 after [].

Definition ListEvents (logs : nat -> EventLog) (fuel : nat) (after : string) (limit : Z) : res (list (UIEvent Object) * string) :=
  _ ← fail_if (bool_decide (projectID = "")) (InvalidArgument "project_id is required");
  _ ← requireEventProject principal projectID;
  afterCursor ← parseCursor after;
  page ← visibleEventsAfter logs fuel afterCursor (if (limit <=? 0)%Z then defaultEventLogReplayBatch else limit);
  Ok (page.1, formatEvidenceCursor page.2).

(** A new subscriber and the backlog that it is sent first. *)
Definition SubscribeEvents (logs : nat -> EventLog) (fuel : nat) (after : string) : res (eventLogSubscriber * list (UIEvent Object)) :=
  _ ← fail_if (bool_decide (projectID = "")) (InvalidArgument "project_id is required");
  _ ← requireEventProject principal projectID;
  afterCursor ← parseCursor after;
  backlog ← visibleBacklog logs fuel afterCursor;
  Ok (mkSubscriber principal projectID backlog.2, backlog.1).

End operator.

(** One poll of a subscriber, whose context stays open: what is sent, and whether the
    subscription goes on; [logs j k] is the log of the [k]-th read of the [j]-th page. *)
Fixpoint pollSubscriber (logs : nat -> nat -> EventLog) (fuel polls j : nat) (sub : eventLogSubscriber) : list (UIEvent Object) * eventLogSubscriber * bool :=
  match polls with
  | 0 => ([], sub, false)
  | S polls =>
    match visibleEventsAfter (sb_principal sub) (sb_projectID sub) (logs j) fuel (sb_lastCursor sub) (eq_batchSize q) with
    | Err _ => ([], sub, false)
    | Ok (events, cursor) =>
      let sub := mkSubscriber (sb_principal sub) (sb_projectID sub) cursor in
      if bool_decide (length events = 0) || (Z.of_nat (length events) <? eq_batchSize q)%Z then (events, sub, true)
      else let '(sent, sub, open) := pollSubscriber logs fuel polls (S j) sub in (events ++ sent, sub, open)
    end
  end.

End events.

Lemma requireProject_Ok readers principal projectID u : requireProject readers principal projectID = Ok u ->
  pri_Role principal = RoleOperator /\ pri_ProjectID principal = projectID /\ rd_CanReadProject readers principal projectID = Ok true.
Proof.
  unfold requireProject. intros H. apply bind_Ok in H as (? & _ & H). apply bind_Ok in H as (? & Hop%fail_if_Ok & H). apply bind_Ok in H as (? & Hp%guard_not_Ok & H).
  apply bind_Ok in H as (allowed & Ha & H%fail_if_Ok). apply negb_false_iff in H as ->. apply orb_false_iff in Hop as [[_ Hr]%orb_false_iff _].
  apply bool_decide_eq_false, dec_stable in Hr. done.
Qed.

Lemma matches_fields f i : matches f i = true ->
  (fi_ProjectID f <> "" -> in_ProjectID i = fi_ProjectID f) /\ (fi_TaskID f <> "" -> in_TaskID i = fi_TaskID f) /\
  (fi_EndpointID f <> "" -> in_EndpointID i = fi_EndpointID f) /\ IsPhase (in_Role i) = true.
Proof.
  unfold matches. rewrite !andb_true_iff, !negb_true_iff, !andb_false_iff, !bool_decide_eq_false. intros ((((Hp & Ht) & He) & _) & Hr).
  split_and!; [| | |done]; intros Hne.
  - destruct Hp as [Hp|Hp]; [by destruct Hp|by apply dec_stable in Hp].
  - destruct Ht as [Ht|Ht]; [by destruct Ht|by apply dec_stable in Ht].
  - destruct He as [He|He]; [by destruct He|by apply dec_stable in He].
Qed.

(** ** What an operator sees *)

Section redaction.
Context `{GR : GoRuntime} (readers : Readers) (principal : Principal) (projectID : ProjectID) (grant : TaskID -> TaskReadGrant).

Definition sees (task : TaskID) : Prop := gr_Visible (grant task) = true.

(** The graph, and the readers, of somebody for whom other tasks do not exist. *)
Definition redact (g : GraphSnapshot) : GraphSnapshot :=
  mkSnapshot (snap_Revision g) (filter (fun t => sees (task_ID t)) (snap_Tasks g)) (filter (fun e => sees (ref_TaskID (ep_Ref e))) (snap_Endpoints g))
    (filter (fun e => sees (ref_TaskID (edge_From e)) /\ sees (ref_TaskID (edge_To e))) (snap_Edges g))
    (filter (fun b => sees (ref_TaskID (blk_Target b))) (snap_Blockers g)) (filter (fun r => sees (ref_TaskID (pr_Endpoint r))) (snap_Results g)).

Definition redacted : Readers :=
  mkReaders (rd_CanReadProject readers) (rd_TaskGrant readers) (rd_CurrentCursor readers)
    (fun p => g ← rd_Latest readers p; Ok (redact g)) (fun p rev => g ← rd_Snapshot readers p rev; Ok (redact g)) (rd_ReadCapacity readers)
    (fun f => l ← rd_ListInvocations readers f; Ok (filter (fun i => sees (in_TaskID i)) l)) (rd_InspectInvocation readers).

#[local] Instance invocation_less_ok : LessOk invocation_less.
Proof. apply (lex_asc_ok in_Generation), (lex_asc_ok in_CreatedAt), _. Qed.

Lemma invocation_less_anti a b : sorts_by invocation_less a b -> sorts_by invocation_less b a -> in_ID a = in_ID b.
Proof.
  unfold invocation_less. rewrite !(lex_asc_spec in_Generation). intros [G1 H1] [G2 H2].
  assert (in_Generation a = in_Generation b) as HG by lia. specialize (H1 HG). specialize (H2 (eq_sym HG)).
  apply (lex_asc_spec in_CreatedAt (fun a b => string_lt (in_ID a) (in_ID b))) in H1 as [C1 H1].
  apply (lex_asc_spec in_CreatedAt (fun a b => string_lt (in_ID a) (in_ID b))) in H2 as [C2 H2].
  apply sorts_by_key_anti; [apply H1|apply H2]; lia.
Qed.

Lemma id_unique (l : list Invocation) a b : NoDup (in_ID <$> l) -> a ∈ l -> b ∈ l -> in_ID a = in_ID b -> a = b.
Proof.
  intros Hnd [i Ha]%list_elem_of_lookup [j Hb]%list_elem_of_lookup Hid.
  assert (i = j) as -> by (eapply NoDup_lookup; [exact Hnd|by rewrite list_lookup_fmap, Ha|by rewrite list_lookup_fmap, Hb, Hid]). congruence.
Qed.

(** Sorted lists of the same invocations are the same. *)
Lemma sorted_invocations (raw l l' : list Invocation) : NoDup (in_ID <$> raw) -> l ⊆ raw -> l ≡ₚ l' -> sort_slice invocation_less l = sort_slice invocation_less l'.
Proof.
  intros Hnd Hsub Hp. apply (sorted_perm_unique invocation_less); [|apply sort_slice_sorted, _|apply sort_slice_sorted, _|].
  - intros a b Ha Hb H1 H2. rewrite sort_slice_perm in Ha, Hb. eapply id_unique; [exact Hnd|by apply Hsub|by apply Hsub|]. by apply invocation_less_anti.
  - by rewrite !sort_slice_perm.
Qed.

Lemma filterInvocations_perm l f : filterInvocations l f ≡ₚ filter (fun i => matches f i = true) l.
Proof. apply sort_slice_perm. Qed.

Lemma filter_seen {X} (P Q : X -> Prop) `{!forall x, Decision (P x), !forall x, Decision (Q x)} (l : list X) : (forall x, P x -> Q x) -> filter P (filter Q l) = filter P l.
Proof. intros HPQ. rewrite list_filter_filter. apply list_filter_iff. naive_solver. Qed.

(** The invocation shown for an endpoint of a task that is seen. *)
Lemma select_seen raw f ref generation exact : NoDup (in_ID <$> raw) -> ref_TaskID ref <> "" -> sees (ref_TaskID ref) ->
  selectInvocation (filterInvocations (filter (fun i => sees (in_TaskID i)) raw) f) ref generation exact =
  selectInvocation (filterInvocations raw f) ref generation exact.
Proof.
  intros Hnd Hne Hs. unfold selectInvocation. set (fr := mkFilter _ _ _ _).
  assert (filterInvocations (filterInvocations (filter (fun i => sees (in_TaskID i)) raw) f) fr = filterInvocations (filterInvocations raw f) fr) as ->; [|done].
  symmetry. apply (sorted_invocations raw); [done| |].
  - intros x Hx. apply list_elem_of_filter in Hx as [_ Hx]. rewrite filterInvocations_perm in Hx. by apply list_elem_of_filter in Hx as [_ ?].
  - rewrite !filterInvocations_perm. apply reflexive_eq. rewrite !list_filter_filter. apply list_filter_iff. intros i. split; [|naive_solver].
    intros [Hi Hf]. split_and!; [done|done|]. apply matches_fields in Hi as (_ & Hi & _). by rewrite Hi.
Qed.

Lemma existsb_seen {X} (P : X -> bool) (Q : X -> Prop) `{!forall x, Decision (Q x)} (l : list X) : (forall x, P x = true -> Q x) -> existsb P (filter Q l) = existsb P l.
Proof.
  intros HPQ. induction l as [|x l IH]; [done|]. rewrite filter_cons. simpl. case_decide as Hq; simpl; [by rewrite IH|].
  rewrite IH. destruct (P x) eqn:Hp; [|done]. by apply HPQ in Hp.
Qed.

Lemma existsb_perm {X} (P : X -> bool) (l l' : list X) : l ≡ₚ l' -> existsb P l = existsb P l'.
Proof. induction 1; simpl; [done|by f_equal|by rewrite !orb_assoc, (orb_comm (P y))|congruence]. Qed.

Lemma filterInvocations_seen raw f : filterInvocations (filter (fun i => sees (in_TaskID i)) raw) f ≡ₚ filter (fun i => sees (in_TaskID i)) (filterInvocations raw f).
Proof. rewrite !filterInvocations_perm. apply reflexive_eq. rewrite !list_filter_filter. apply list_filter_iff. naive_solver. Qed.

Lemma status_seen task g raw f : sees (task_ID task) ->
  taskProjectionStatus task (redact g) (filterInvocations (filter (fun i => sees (in_TaskID i)) raw) f) = taskProjectionStatus task g (filterInvocations raw f).
Proof.
  intros Hs. unfold taskProjectionStatus. simpl. rewrite existsb_seen.
  - rewrite (existsb_perm _ _ _ (filterInvocations_seen raw f)), existsb_seen; [done|]. intros i [Hi _]%andb_true_iff. apply bool_decide_eq_true in Hi. by rewrite Hi.
  - intros b [Hb _]%andb_true_iff. apply bool_decide_eq_true in Hb. by rewrite Hb.
Qed.

Lemma find_seen {X} (P Q : X -> Prop) `{!forall x, Decision (P x), !forall x, Decision (Q x)} (l : list X) : (forall x, P x -> Q x) ->
  snd <$> list_find P (filter Q l) = snd <$> list_find P l.
Proof.
  intros HPQ. induction l as [|x l IH]; [done|]. rewrite filter_cons. simpl. destruct (decide (Q x)) as [Hq|Hq]; simpl.
  - destruct (decide (P x)); [done|]. by destruct (list_find P l) as [[??]|], (list_find P (filter Q l)) as [[??]|].
  - destruct (decide (P x)) as [Hp|]; [by apply HPQ in Hp|]. rewrite IH. by destruct (list_find P l) as [[??]|].
Qed.

Lemma edge_state_seen edge g : sees (ref_TaskID (edge_From edge)) -> edgeProjectionState edge (redact g) = edgeProjectionState edge g.
Proof.
  intros Hs. unfold edgeProjectionState. simpl. rewrite find_seen by (by intros t ->).
  pose proof (find_seen (fun e => ep_Ref e = edge_From edge) (fun e => sees (ref_TaskID (ep_Ref e))) (snap_Endpoints g) ltac:(intros e Heq; simpl in *; by rewrite Heq)) as He.
  set (task := if bool_decide (edge_Signal edge = SignalTaskDone) then _ else None). destruct task; [done|].
  destruct (list_find _ (filter _ _)) as [[i e]|], (list_find _ (snap_Endpoints g)) as [[j e']|]; simpl in He; by simplify_eq.
Qed.

Context (Hgrant : forall task, rd_TaskGrant readers principal projectID task = Ok (grant task)).

Lemma visibleTasks_run (rs : Readers) g invocations : (forall task, rd_TaskGrant rs principal projectID task = Ok (grant task)) ->
  Forall (fun t => IsZeroID (task_ID t) = false) (snap_Tasks g) ->
  visibleTasks rs principal projectID g invocations =
    Ok (list_to_set (task_ID <$> filter (fun t => sees (task_ID t)) (snap_Tasks g)),
        (fun t => mkTaskSummary (task_ID t) (taskProjectionStatus t g invocations)) <$> filter (fun t => sees (task_ID t)) (snap_Tasks g)).
Proof.
  intros Hg Hid. unfold visibleTasks.
  assert (forall tasks (s : gset TaskID) l, Forall (fun t => IsZeroID (task_ID t) = false) tasks ->
    foldM (fun (acc : gset TaskID * list TaskSummary) task =>
      grant ← taskGrant rs principal projectID (task_ID task);
      if gr_Visible grant
      then Ok ({[task_ID task]} ∪ acc.1, acc.2 ++ [mkTaskSummary (task_ID task) (taskProjectionStatus task g invocations)])
      else Ok acc) (s, l) tasks =
    Ok (list_to_set (task_ID <$> filter (fun t => sees (task_ID t)) tasks) ∪ s,
        l ++ ((fun t => mkTaskSummary (task_ID t) (taskProjectionStatus t g invocations)) <$> filter (fun t => sees (task_ID t)) tasks))) as Hrun.
  { intros tasks. induction tasks as [|t tasks IH]; intros s l Ht; simpl; [by rewrite app_nil_r, union_empty_l_L|]. inversion Ht as [|? ? Hz Hts]; subst.
    assert (taskGrant rs principal projectID (task_ID t) = Ok (grant (task_ID t))) as -> by (unfold taskGrant, RequireID; rewrite Hz; simpl; apply Hg).
    simpl. rewrite filter_cons. destruct (decide (sees (task_ID t))) as [Hv|Hv]; unfold sees in Hv.
    - rewrite Hv. simpl. rewrite IH by done. f_equal. f_equal; [set_solver|]. by rewrite <- app_assoc.
    - apply not_true_is_false in Hv. rewrite Hv. simpl. by rewrite IH. }
  rewrite Hrun by done. simpl. by rewrite union_empty_r_L.
Qed.

Lemma shown_seen (tasks : list Task) id : id ∈ (list_to_set (task_ID <$> filter (fun t => sees (task_ID t)) tasks) : gset TaskID) ->
  sees id /\ exists t, t ∈ tasks /\ task_ID t = id.
Proof. rewrite elem_of_list_to_set. intros (t & -> & [Hs Ht]%list_elem_of_filter)%list_elem_of_fmap. eauto. Qed.

Lemma build_seen cursor g capacity raw f summaries (shown : gset TaskID) : NoDup (in_ID <$> raw) -> (forall id, id ∈ shown -> sees id /\ id <> "") ->
  buildSnapshot projectID cursor (redact g) capacity (filterInvocations (filter (fun i => sees (in_TaskID i)) raw) f) shown summaries =
  buildSnapshot projectID cursor g capacity (filterInvocations raw f) shown summaries.
Proof.
  intros Hnd Hshown. unfold buildSnapshot. simpl. rewrite !filter_seen by (intros; naive_solver). f_equal.
  - apply list_fmap_ext. intros k e [Hs _]%list_elem_of_lookup_2%list_elem_of_filter. apply Hshown in Hs as [Hs Hne]. by rewrite select_seen.
  - apply list_fmap_ext. intros k e [[Hs _] _]%list_elem_of_lookup_2%list_elem_of_filter. apply Hshown in Hs as [Hs _]. unfold graphEdge. by rewrite edge_state_seen.
  - do 2 f_equal. rewrite filterInvocations_seen, filter_seen; [done|]. intros i [Hs _]. by apply Hshown in Hs as [? _].
Qed.

(** C22: Of the graph and of the invocations, the snapshot of an operator shows exactly
    what it would show if the tasks that the operator may not see were not in them:
    their tasks, endpoints, edges, blockers and invocations make no difference to it.
    The revision of the graph, the cursor and the capacity of the project, with its
    count of active invocations, are passed on as their readers give them, for every
    operator alike.  Without the right to read the project there is no snapshot.  The
    readers are supposed to answer the grant of every task, to give graphs whose tasks
    have ids, and invocations with distinct ids. *)
Theorem snapshot_redacted revision :
  (forall g, readGraph readers projectID revision = Ok g -> Forall (fun t => IsZeroID (task_ID t) = false) (snap_Tasks g)) ->
  (forall f l, rd_ListInvocations readers f = Ok l -> NoDup (in_ID <$> l)) ->
  Snapshot redacted principal projectID revision = Snapshot readers principal projectID revision /\
  (is_ok (Snapshot readers principal projectID revision) = true ->
     pri_Role principal = RoleOperator /\ pri_ProjectID principal = projectID /\ rd_CanReadProject readers principal projectID = Ok true).
Proof.
  intros Hid Hnd. split.
  - unfold Snapshot. change (requireProject redacted principal projectID) with (requireProject readers principal projectID).
    destruct (requireProject readers principal projectID); [|done]. simpl. destruct (rd_CurrentCursor readers projectID); [|done]. simpl.
    assert (readGraph redacted projectID revision = (g ← readGraph readers projectID revision; Ok (redact g))) as -> by (unfold readGraph; by destruct (IsLatestRead revision)).
    destruct (readGraph readers projectID revision) as [g|] eqn:Hg; [|done]. specialize (Hid g eq_refl). simpl. destruct (rd_ReadCapacity readers projectID) as [c|]; [|done]. simpl.
    destruct (validateCapacity c); [|done]. simpl. destruct (rd_ListInvocations readers _) as [raw|] eqn:Hraw; [|done]. apply Hnd in Hraw. simpl.
    rewrite !visibleTasks_run; [|done|done|done|]. 2:{ rewrite Forall_forall in Hid |- *. intros t [_ Ht]%list_elem_of_filter. by apply Hid. }
    simpl. rewrite !filter_seen by done. f_equal.
    rewrite build_seen; [|done|].
    + f_equal. apply list_fmap_ext. intros k t [Hs _]%list_elem_of_lookup_2%list_elem_of_filter. by rewrite status_seen.
    + intros id (Hs & t & Ht & <-)%shown_seen. split; [done|]. rewrite Forall_forall in Hid. specialize (Hid t Ht). by intros Heq; rewrite Heq in Hid.
  - intros Hok. destruct (Snapshot readers principal projectID revision) eqn:H; [|done]. unfold Snapshot in H. res_inv. by eapply requireProject_Ok.
Qed.

End redaction.

(** ** What the inspector shows *)

Section inspection.
Context `{GR : GoRuntime} (readers : Readers).

Lemma selected_matches l ref generation exact i : selectInvocation l ref generation exact = Some i ->
  i ∈ l /\ matches (mkFilter "" (ref_TaskID ref) (ref_EndpointID ref) 0) i = true /\ (exact = true -> generation <> 0%Z -> in_Generation i = generation).
Proof.
  unfold selectInvocation. set (f := mkFilter _ _ _ _). set (chosen := filter _ (filterInvocations l f)). intros H.
  assert (i ∈ chosen) as Hi.
  { destruct (last (filter (fun i => invocationIsActive i = true) chosen)) eqn:Hl; [injection H as ->; rename Hl into H|].
    all: apply last_Some_elem_of in H; by apply list_elem_of_filter in H as [_ ?]. }
  apply list_elem_of_filter in Hi as [Hg Hi]. unfold filterInvocations in Hi. rewrite sort_slice_perm in Hi. apply list_elem_of_filter in Hi as [Hm Hi].
  split_and!; [done..|]. intros -> Hne. simpl in Hg. rewrite (bool_decide_eq_true_2 (generation <> 0%Z)) in Hg by done. simpl in Hg.
  apply negb_true_iff, bool_decide_eq_false in Hg. by apply dec_stable in Hg.
Qed.

(** The invocation that the inspector shows is of the endpoint, and of the generation asked for. *)
Lemma inspected_matches projectID raw endpoint ref generation i : projectID <> "" -> ref_TaskID ref <> "" -> ref_EndpointID ref <> "" ->
  (inspected (filterInvocations raw (mkFilter projectID (ref_TaskID ref) (ref_EndpointID ref) 0)) endpoint ref generation).1 = Some i ->
  i ∈ raw /\ in_ProjectID i = projectID /\ in_TaskID i = ref_TaskID ref /\ in_EndpointID i = ref_EndpointID ref /\ IsPhase (in_Role i) = true /\
  ((0 < generation)%Z -> uint64_wrap generation <> 0%Z -> in_Generation i = uint64_wrap generation).
Proof.
  intros Hp Ht He H. set (f := mkFilter projectID (ref_TaskID ref) (ref_EndpointID ref) 0) in *.
  assert (i ∈ filterInvocations raw f /\ ((0 < generation)%Z -> uint64_wrap generation <> 0%Z -> in_Generation i = uint64_wrap generation)) as [Hi Hg].
  { unfold inspected in H. destruct (0 <? generation)%Z eqn:Hpos; simpl in H.
    - apply selected_matches in H as (? & _ & Hg). auto.
    - apply Z.ltb_ge in Hpos. split; [|lia].
      destruct (selectInvocation _ _ (uint64_wrap (ep_Generation endpoint)) true) eqn:Hs; simplify_eq; [by apply selected_matches in Hs as [? _]|by apply selected_matches in H as [? _]]. }
  unfold filterInvocations in Hi. rewrite sort_slice_perm in Hi. apply list_elem_of_filter in Hi as [Hm Hi]. apply matches_fields in Hm as (H1 & H2 & H3 & ?). by split_and!; [|apply H1|apply H2|apply H3|..].
Qed.

(** The same bodies, or none and how many there were. *)
Lemma slice_bodies inspection i allowed :
  xv_ContextSliceRef (projectContextSlice inspection i allowed) = in_ContextSliceRef i /\
  nv_NodeID <$> xv_Nodes (projectContextSlice inspection i allowed) = if allowed then cn_ID <$> sl_Nodes (cx_Slice inspection) else [].
Proof. unfold projectContextSlice. destruct allowed; simpl; [|done]. split; [done|]. rewrite <- list_fmap_compose. by apply list_fmap_ext. Qed.

Lemma memory_bodies records i allowed view : view ∈ tv_Candidates (projectTaskMemory records i allowed) ->
  allowed = true /\ exists r, r ∈ records /\ ci_View r = view /\ ci_ProjectID r = in_ProjectID i /\ ci_TaskID r = in_TaskID i /\ ci_CreatedByInvocationID r = in_ID i.
Proof.
  unfold projectTaskMemory. destruct allowed; simpl; [|set_solver]. rewrite sort_slice_perm, list_elem_of_fmap.
  intros (r & -> & [(? & ? & ?) ?]%list_elem_of_filter). eauto 10.
Qed.

Lemma subscriptions_own records i s : s ∈ projectSubscriptions records i ->
  exists r, r ∈ records /\ si_ID r = sj_SubscriptionID s /\ si_ConsumerInvocationID r = in_ID i /\ sj_Active s = si_Active r && invocationIsActive i.
Proof. unfold projectSubscriptions. rewrite sort_slice_perm, list_elem_of_fmap. intros (r & -> & [? ?]%list_elem_of_filter). eauto. Qed.

(** What an operator with [grant] on the task of [ref] may be shown of it. *)
Definition discloses (principal : Principal) (projectID : ProjectID) (ref : PhaseEndpointRef) (generation : Z) (grant : TaskReadGrant) (v : EndpointInspector) : Prop :=
  match ei_Invocation v, ei_ContextSlice v, ei_TaskMemoryBuffer v with
  | Some shown, Some slice, Some buffer =>
    exists i inspection, rd_InspectInvocation readers principal i = Ok inspection /\ shown = invocationProjection i /\
      in_ProjectID i = projectID /\ in_TaskID i = ref_TaskID ref /\ in_EndpointID i = ref_EndpointID ref /\ IsPhase (in_Role i) = true /\
      ((0 < generation)%Z -> uint64_wrap generation <> 0%Z -> in_Generation i = uint64_wrap generation) /\
      (forall s, s ∈ ei_Subscriptions v -> exists r, r ∈ cx_Subscriptions inspection /\ si_ID r = sj_SubscriptionID s /\ si_ConsumerInvocationID r = in_ID i /\
         sj_Active s = si_Active r && invocationIsActive i) /\
      nv_NodeID <$> xv_Nodes slice = (if gr_ContextBodies grant then cn_ID <$> sl_Nodes (cx_Slice inspection) else []) /\
      (forall view, view ∈ tv_Candidates buffer -> gr_CandidateBodies grant = true /\ exists r, r ∈ cx_Candidates inspection /\ ci_View r = view /\
         ci_ProjectID r = projectID /\ ci_TaskID r = ref_TaskID ref /\ ci_CreatedByInvocationID r = in_ID i)
  | None, None, None => ei_Subscriptions v = []
  | _, _, _ => False
  end.

Lemma requireProject_id principal projectID u : requireProject readers principal projectID = Ok u -> projectID <> "".
Proof.
  unfold requireProject. intros H. apply bind_Ok in H as (? & H & _). unfold RequireID in H. intros ->. done.
Qed.

(** C24: The inspector of an endpoint answers an operator only about a task that the
    operator may see, of the project the operator may read; an endpoint of a task that
    is hidden gets the same answer as one that is not in the graph.  What it shows is of
    one phase invocation of that very endpoint (of the generation asked for, when one
    was): the subscriptions that this invocation consumes, active only while it is;
    the nodes of its slice only with the grant on context bodies, otherwise none; the
    memory candidates that it created itself, and only with the grant on candidates.
    When there is no such invocation nothing but the endpoint is shown. *)
Theorem inspector_confidential principal projectID ref generation grant :
  rd_TaskGrant readers principal projectID (ref_TaskID ref) = Ok grant ->
  (forall v, InspectEndpoint readers principal projectID ref generation = Ok v ->
     pri_Role principal = RoleOperator /\ pri_ProjectID principal = projectID /\ rd_CanReadProject readers principal projectID = Ok true /\
     gr_Visible grant = true /\ ei_Endpoint v = ref /\ discloses principal projectID ref generation grant v) /\
  (forall g, requireProject readers principal projectID = Ok tt -> IsZeroID (ref_TaskID ref) = false -> ref_EndpointID ref <> "" -> (0 <= generation)%Z ->
     rd_Latest readers projectID = Ok g -> gr_Visible grant = false \/ Forall (fun e => ep_Ref e <> ref) (snap_Endpoints g) ->
     InspectEndpoint readers principal projectID ref generation = Err (kerr CodeNotFound "endpoint not found" false)).
Proof.
  intros Hgrant. split.
  - intros v H. unfold InspectEndpoint in H. apply bind_Ok in H as (u & Hreq & H). pose proof (requireProject_id _ _ _ Hreq) as Hpid.
    apply requireProject_Ok in Hreq as (? & ? & ?). apply bind_Ok in H as (? & [Ht He]%fail_if_Ok%orb_false_iff & H). apply bool_decide_eq_false in Ht, He.
    apply bind_Ok in H as (? & _ & H). apply bind_Ok in H as (grant' & Hg & H). unfold taskGrant in Hg. apply bind_Ok in Hg as (? & _ & Hg). assert (grant' = grant) as -> by congruence.
    apply bind_Ok in H as (? & Hv%fail_if_Ok%negb_false_iff & H). apply bind_Ok in H as (g & _ & H). destruct (findProjected g ref) as [endpoint|]; [|done].
    apply bind_Ok in H as (raw & _ & H). destruct (inspected _ _ _ _) as [found selected] eqn:Hi. apply bind_Ok in H as (? & _ & H).
    destruct found as [i|]; [|simplify_eq; by split_and!]. pose proof (inspected_matches projectID raw endpoint ref generation i Hpid Ht He ltac:(by rewrite Hi)) as (_ & Hip & Hit & Hie & ? & ?).
    apply bind_Ok in H as (inspection & Hins & H). simplify_eq. split_and!; [done..|]. unfold discloses. simpl. exists i, inspection. rewrite <- Hip, <- Hit.
    split_and!; [done..| | |].
    + apply subscriptions_own.
    + apply slice_bodies.
    + apply memory_bodies.
  - intros g Hreq Hz He Hpos Hg Hd. assert (ref_TaskID ref <> "") as Ht by (intros Heq; by rewrite Heq in Hz).
    unfold InspectEndpoint. rewrite Hreq. simpl. rewrite !bool_decide_eq_false_2 by done. rewrite (proj2 (Z.ltb_ge generation 0)) by done. simpl.
    unfold taskGrant, RequireID. rewrite Hz. simpl. rewrite Hgrant. simpl. destruct Hd as [->|Hd]; [done|]. destruct (gr_Visible grant); [|done]. simpl. rewrite Hg. simpl.
    unfold findProjected. by rewrite (proj2 (list_find_None _ _) Hd).
Qed.

End inspection.

(** ** What the pages of events hold *)

Lemma nextCursor_cons c e l : nextCursor c (e :: l) = nextCursor (ev_Sequence e) l.
Proof. unfold nextCursor. destruct l as [|x l]; [done|]. rewrite last_cons_cons. by destruct (last (x :: l)) eqn:H; [|apply last_None in H]. Qed.

Lemma Replay_run c n l :
  (Replay None c n l).1 = Ok (take (pageSize n) (events_after (fun _ => true) c (el_events l)), nextCursor c (take (pageSize n) (events_after (fun _ => true) c (el_events l)))).
Proof.
  unfold Replay, mbind, M_bind, lift, get_state, mret, M_ret. simpl. rewrite (collect_take _ (pageSize n)) by apply pageSize_pos.
  by rewrite (list_filter_iff _ (fun e => negb (ev_Sequence e <=? c)%Z && true = true)) by (intros e; by rewrite andb_true_r).
Qed.

(** A cursor that was handed out is taken back, unless what it names has expired. *)
Lemma parseCursor_format q after cursor next : parseCursor q after = Ok cursor -> (after = "" -> (eq_retained q <= next)%Z) -> (cursor <= next <= int_max)%Z ->
  parseCursor q (formatEvidenceCursor next) = Ok next.
Proof.
  intros H Hret [Hle Hmax]. assert (0 <= cursor /\ (after <> "" -> (0 < eq_retained q)%Z -> eq_retained q <= cursor))%Z as [Hpos Hkept].
  { unfold parseCursor in H. case_bool_decide; [injection H as <-; done|]. destruct (ParseInt after) as [v|]; [|done].
    apply bind_Ok in H as (? & Hv%fail_if_Ok%Z.ltb_ge & H). apply bind_Ok in H as (? & Hr%fail_if_Ok & H). injection H as ->. split; [done|].
    intros _ Hq%Z.ltb_lt. rewrite Hq in Hr. by apply Z.ltb_ge in Hr. }
  unfold parseCursor, formatEvidenceCursor in *.
  assert (bool_decide (format_int next = "") = false) as ->.
  { apply bool_decide_eq_false. intros Heq. pose proof (parse_format next ltac:(lia)) as Hp. rewrite Heq in Hp. injection Hp as Hp. by replace next with 0%Z in Heq by lia. }
  rewrite ParseInt_format by lia. rewrite (proj2 (Z.ltb_ge next 0)) by lia. simpl.
  destruct (0 <? eq_retained q)%Z eqn:Hq; [|done]. apply Z.ltb_lt in Hq. simpl. rewrite (proj2 (Z.ltb_ge next _)); [done|].
  destruct (decide (after = "")) as [He|He]; [by apply Hret|]. specialize (Hkept He Hq). lia.
Qed.

Section paging.
Context {Object : Type} (codec : EventCodec Object) (readers : Readers) (q : EventLogQuery) (principal : Principal) (projectID : ProjectID).

Abbreviation map_event := (mapEvidenceEvent codec readers principal projectID).

(** The events of a log after a cursor, as the operator is shown them. *)
Definition shown (e : Event) : option (UIEvent Object) := match map_event e with Ok u => u | Err _ => None end.
Definition visible (l : EventLog) (c : Cursor) : list (UIEvent Object) := omap shown (events_after (fun _ => true) c (el_events l)).

Definition mappable (e : Event) : Prop := is_ok (map_event e) = true.

Definition within (limit : option Z) (n : nat) : Prop := match limit with Some m => (Z.of_nat n <= m)%Z | None => True end.

(** One read: a prefix of it is used up, all of it unless the page is full. *)
Lemma scanPage_run limit events : forall cursor out, increasing events -> Forall (fun e => cursor < ev_Sequence e)%Z events -> Forall mappable events -> within limit (length out) ->
  exists used rest full, events = used ++ rest /\
    scanPage codec readers principal projectID limit events cursor out = Ok (out ++ omap shown used, nextCursor cursor used, full) /\
    within limit (length (out ++ omap shown used)) /\
    (if full : bool then limit = Some (Z.of_nat (length (out ++ omap shown used))) else rest = []).
Proof.
  induction events as [|e events IH]; intros cursor out Hinc Hc Hm Hw; simpl.
  { exists [], [], false. simpl. by rewrite app_nil_r. }
  inversion Hinc as [|? ? Hinc' Hlt]; subst. inversion Hc as [|? ? Hce Hc']; subst. inversion Hm as [|? ? Hme Hm']; subst.
  rewrite (proj2 (Z.leb_gt (ev_Sequence e) cursor)) by done. unfold mappable in Hme. destruct (map_event e) as [mapped|] eqn:He; [|done]. simpl.
  assert (shown e = mapped) as Hs by (unfold shown; by rewrite He).
  destruct mapped as [u|].
  - case_bool_decide as Hfull.
    + exists [], (e :: events), true. simpl. by rewrite app_nil_r.
    + destruct (IH (ev_Sequence e) (out ++ [u])) as (used & rest & full & -> & Hr & Hw' & Hf); [done|done|done| |].
      { rewrite length_app. simpl. unfold within in *. destruct limit as [m|]; [|done]. assert (m <> Z.of_nat (length out)) by congruence. lia. }
      exists (e :: used), rest, full. rewrite nextCursor_cons. simpl. rewrite Hs. simpl. rewrite <- !app_assoc in Hr, Hw', Hf. by split_and!.
  - destruct (IH (ev_Sequence e) out) as (used & rest & full & -> & Hr & Hw' & Hf); [done..|].
    exists (e :: used), rest, full. rewrite nextCursor_cons. simpl. by rewrite Hs.
Qed.

Context (L : EventLog) (HL : log_inv L) (Hmap : Forall mappable (el_events L)).

(** A whole reading of a log that grows towards [L]. *)
Lemma readEvents_run limit (logs : nat -> EventLog) fuel : (forall k, extends (logs k) L) -> forall k cursor out,
  length (events_after (fun _ => true) cursor (el_events L)) < fuel -> within limit (length out) ->
  exists page next, readEvents codec readers q None principal projectID limit logs fuel k cursor out = Ok (out ++ page, next) /\
    visible L cursor = page ++ visible L next /\ within limit (length (out ++ page)) /\ (cursor <= next)%Z /\
    (limit = Some (Z.of_nat (length (out ++ page))) \/ exists k', events_after (fun _ => true) next (el_events (logs k')) = []).
Proof.
  intros Hext. induction fuel as [|fuel IH]; intros k cursor out Hfuel Hw; [lia|]. cbn [readEvents]. rewrite Replay_run. simpl.
  pose proof (pageSize_pos (eq_batchSize q)) as Hpos. pose proof (page_extends (fun _ => true) cursor _ _ _ HL (Hext k) Hpos) as Hpage. simpl in Hpage.
  set (events := take (pageSize (eq_batchSize q)) (events_after (fun _ => true) cursor (el_events (logs k)))) in *.
  case_bool_decide as Hnil.
  { exists [], cursor. rewrite app_nil_r. split_and!; [done..|lia|]. right. exists k. apply length_zero_iff_nil in Hnil. unfold events in Hnil.
    destruct (events_after (fun _ => true) cursor (el_events (logs k))); [done|]. by destruct (pageSize (eq_batchSize q)); [lia|]. }
  assert (increasing (events_after (fun _ => true) cursor (el_events L))) as Hinc by (apply increasing_filter, log_inv_increasing, HL).
  assert (forall e, e ∈ events -> (cursor < ev_Sequence e)%Z /\ e ∈ el_events L) as Hin.
  { intros e He. assert (e ∈ events_after (fun _ => true) cursor (el_events L)) as He' by (rewrite Hpage; set_solver).
    apply list_elem_of_filter in He' as [He' ?]. rewrite andb_true_r in He'. apply negb_true_iff, Z.leb_gt in He'. done. }
  destruct (scanPage_run limit events cursor out) as (used & rest & full & Hsplit & Hr & Hw' & Hf); [| | |done|].
  { rewrite Hpage in Hinc. by apply StronglySorted_app_1_l in Hinc. }
  { apply Forall_forall. intros e He. by apply Hin. }
  { rewrite Forall_forall in Hmap |- *. intros e He. by apply Hmap, Hin. }
  assert (events_after (fun _ => true) cursor (el_events L) = used ++ events_after (fun _ => true) (nextCursor cursor used) (el_events L)) as Hused.
  { apply (events_after_page (fun _ => true) cursor (length used)); [apply log_inv_increasing, HL|]. rewrite Hpage, Hsplit, <- app_assoc. by rewrite take_app_length. }
  assert (cursor <= nextCursor cursor used)%Z as Hle.
  { unfold nextCursor. destruct (last used) as [e|] eqn:Hl; [|done]. apply last_Some_elem_of in Hl. assert (e ∈ events) as He by (rewrite Hsplit; set_solver). apply Hin in He. lia. }
  assert (visible L cursor = omap shown used ++ visible L (nextCursor cursor used)) as Hvis by (unfold visible; by rewrite Hused, omap_app).
  rewrite Hr. simpl. destruct full.
  - exists (omap shown used), (nextCursor cursor used). split_and!; [done..|]. by left.
  - subst rest. rewrite app_nil_r in Hsplit. destruct (IH (S k) (nextCursor cursor used) (out ++ omap shown used)) as (page & next & Hrun & Hv & Hw2 & Hle2 & Hend); [|done|].
    { rewrite Hused, length_app in Hfuel. rewrite Hsplit in Hnil. lia. }
    rewrite <- app_assoc in Hrun, Hw2, Hend. exists (omap shown used ++ page), next. split_and!; [done| |done|lia|done]. by rewrite Hvis, Hv, <- app_assoc.
Qed.

Lemma poll_run (logs : nat -> nat -> EventLog) fuel : (0 < eq_batchSize q)%Z -> (forall j k, extends (logs j k) L) -> length (el_events L) < fuel ->
  forall polls j last, length (visible L last) < polls ->
  exists sent next, pollSubscriber codec readers q None logs fuel polls j (mkSubscriber principal projectID last) = (sent, mkSubscriber principal projectID next, true) /\
    visible L last = sent ++ visible L next /\ exists j' k', events_after (fun _ => true) next (el_events (logs j' k')) = [].
Proof.
  intros Hb Hext Hfuel. induction polls as [|polls IH]; intros j last Hpolls; [lia|]. simpl.
  destruct (readEvents_run (Some (eq_batchSize q)) (logs j) fuel (Hext j) 0 last []) as (page & next & Hrun & Hv & Hw & _ & Hend).
  { eapply Nat.le_lt_trans; [apply length_filter|done]. }
  { simpl. lia. }
  unfold visibleEventsAfter. rewrite Hrun. simpl in *. destruct (bool_decide (length page = 0) || (Z.of_nat (length page) <? eq_batchSize q)%Z) eqn:Hlast.
  - exists page, next. split_and!; [done..|]. destruct Hend as [Hend|[k Hk]]; [|eauto]. exfalso. injection Hend as Hend.
    apply orb_true_iff in Hlast as [Hlast%bool_decide_eq_true|Hlast%Z.ltb_lt]; lia.
  - apply orb_false_iff in Hlast as [Hlast%bool_decide_eq_false _]. destruct (IH (S j) next) as (sent & next' & -> & Hv' & Hdone).
    { rewrite Hv, length_app in Hpolls. lia. }
    exists (page ++ sent), next'. split_and!; [done| |done]. by rewrite Hv, Hv', app_assoc.
Qed.

End paging.

Section delivery.
Context (hashBytes : string -> string) (encodeRequest : EventRequest -> string).
Context {Object : Type} (codec : EventCodec Object) (readers : Readers) (q : EventLogQuery) (principal : Principal) (projectID : ProjectID).

(** C23: An operator gets every event that the operator may see exactly once, in the order
    of the log, while the log grows.  Whatever the log is at each read, up to a log [L]
    that every reading leads to, and as long as its events can be projected:
    a page from a cursor, followed by what is visible in [L] after the cursor that comes
    with it, is what is visible in [L] after the first cursor; the page keeps to the
    limit, is shorter only when a read found nothing more, and its cursor, when it is
    below 2^63, can be handed back, unless the page was asked for without a cursor and
    ended before the events that are retained.  The same holds for the backlog of a new subscription and for each poll of it,
    which goes on until a read finds nothing more and does not close the stream. *)
Theorem events_delivered_once n (L : EventLog) (logs : nat -> nat -> EventLog) fuel :
  rtc (log_step hashBytes encodeRequest) (NewEventLog n) L -> (forall j k, rtc (log_step hashBytes encodeRequest) (logs j k) L) ->
  Forall (mappable codec readers principal projectID) (el_events L) -> (0 < eq_batchSize q)%Z -> length (el_events L) < fuel ->
  let rest := visible codec readers principal projectID L in
  let exhausted c := exists j k, events_after (fun _ => true) c (el_events (logs j k)) = [] in
  (forall after cursor limit, projectID <> "" -> requireEventProject readers principal projectID = Ok tt -> parseCursor q after = Ok cursor ->
     exists page next, ListEvents codec readers q None principal projectID (logs 0) fuel after limit = Ok (page, formatEvidenceCursor next) /\
       rest cursor = page ++ rest next /\
       let limit := if (limit <=? 0)%Z then defaultEventLogReplayBatch else limit in
       (Z.of_nat (length page) <= limit)%Z /\ ((Z.of_nat (length page) < limit)%Z -> exhausted next) /\
       ((next <= int_max)%Z -> (after = "" -> (eq_retained q <= next)%Z) -> parseCursor q (formatEvidenceCursor next) = Ok next)) /\
  (forall after cursor, projectID <> "" -> requireEventProject readers principal projectID = Ok tt -> parseCursor q after = Ok cursor ->
     exists backlog last, SubscribeEvents codec readers q None principal projectID (logs 0) fuel after = Ok (mkSubscriber principal projectID last, backlog) /\
       rest cursor = backlog ++ rest last /\ exhausted last) /\
  (forall last polls, length (rest last) < polls ->
     exists sent next, pollSubscriber codec readers q None logs fuel polls 0 (mkSubscriber principal projectID last) = (sent, mkSubscriber principal projectID next, true) /\
       rest last = sent ++ rest next /\ exhausted next).
Proof.
  intros HL Hlogs Hmap Hb Hfuel rest exhausted. apply log_steps_inv in HL; [|apply log_inv_new].
  assert (forall j k, extends (logs j k) L) as Hext by (intros j k; eapply log_steps_extends, Hlogs).
  assert (forall c, length (events_after (fun _ => true) c (el_events L)) < fuel) as Hf by (intros c; eapply Nat.le_lt_trans; [apply length_filter|done]).
  split_and!.
  - intros after cursor limit Hp Hreq Hcur. set (lim := (if (limit <=? 0)%Z then defaultEventLogReplayBatch else limit)).
    assert (0 < lim)%Z as Hlim by (unfold lim; destruct (limit <=? 0)%Z eqn:Hl; [done|]; by apply Z.leb_gt in Hl).
    destruct (readEvents_run codec readers q principal projectID L HL Hmap (Some lim) (logs 0) fuel (Hext 0) 0 cursor []) as (page & next & Hrun & Hv & Hw & Hle & Hend); [done|simpl; lia|].
    exists page, next. unfold ListEvents. rewrite bool_decide_eq_false_2 by done. simpl. rewrite Hreq. simpl. rewrite Hcur. simpl. fold lim. unfold visibleEventsAfter. rewrite Hrun.
    split_and!; [done..| |].
    + intros Hlt. destruct Hend as [Hend|[k Hk]]; [|by exists 0, k]. injection Hend as Hend. simpl in Hend. lia.
    + intros Hmax Hne. by eapply parseCursor_format.
  - intros after cursor Hp Hreq Hcur.
    destruct (readEvents_run codec readers q principal projectID L HL Hmap None (logs 0) fuel (Hext 0) 0 cursor []) as (page & next & Hrun & Hv & _ & _ & [Hend|[k Hk]]); [done|done|done|].
    exists page, next. unfold SubscribeEvents. rewrite bool_decide_eq_false_2 by done. simpl. rewrite Hreq. simpl. rewrite Hcur. simpl. unfold visibleBacklog. rewrite Hrun.
    split_and!; [done..|]. by exists 0, k.
  - intros last polls Hpolls. by apply poll_run.
Qed.

End delivery.

(** ** A project with a task that the operator may see and one that is hidden *)

Module UiSample.

Definition operator : Principal := mkPrincipal "o1" PrincipalOperator "p1" RoleOperator "" "" "" "" "" "" ∅ 1.

Definition task_grant (task : TaskID) : TaskReadGrant := if bool_decide (task = "t1") then mkGrant true false true else mkGrant false false false.

Definition endpoint (task : TaskID) : PhaseEndpoint := mkEndpoint (mkRef task "execute") "" "" 1 EndpointPending "".

Definition graph : GraphSnapshot :=
  mkSnapshot 4 [mkTask "t1" "" TaskActive; mkTask "t2" "" TaskActive] [endpoint "t1"; endpoint "t2"]
    [mkEdge (mkRef "t2" "execute") (mkRef "t1" "execute") SignalTaskDone "" [] ""] [] [].

Definition invocation (id : InvocationID) (task : TaskID) : Invocation :=
  mkInvocation id "a1" "p1" task "execute" "" "" "" 1 RoleExecutor "" InvocationRunning "" "" "ws" "slice" "buffer" ∅ ∅ [] 3 9.

Definition inspection : ContextInspection :=
  mkContextInspection [mkInspection "s1" "i1" "" ["g1"] [] true; mkInspection "s2" "i9" "" ["g2"] [] true]
    (mkSlice [mkNode "n1" "fact" "secret" "active" [] [] ""] [] 2) [] [] [].

Definition sample_readers : Readers :=
  mkReaders (fun _ _ => Ok true) (fun _ _ task => Ok (task_grant task)) (fun _ => Ok "7") (fun _ => Ok graph) (fun _ _ => Ok graph)
    (fun _ => Ok (mkCapacityRecord (mkCapacity 2 2 2 1) 5 "")) (fun _ => Ok [invocation "i1" "t1"; invocation "i2" "t2"]) (fun _ _ => Ok inspection).

Lemma snapshot_redacted_witness :
  Snapshot (redacted sample_readers task_grant) operator "p1" 0 = Snapshot sample_readers operator "p1" 0 /\ is_ok (Snapshot sample_readers operator "p1" 0) = true.
Proof.
  split; [|vm_compute; reflexivity]. apply (snapshot_redacted sample_readers operator "p1" task_grant).
  - reflexivity.
  - intros g Hg. unfold readGraph in Hg. destruct (IsLatestRead 0); injection Hg as <-; repeat constructor.
  - intros f l [= <-]. apply (bool_decide_unpack _). vm_compute. exact I.
Defined.

Lemma inspector_confidential_witness :
  exists v, InspectEndpoint sample_readers operator "p1" (mkRef "t1" "execute") 1 = Ok v /\
    discloses sample_readers operator "p1" (mkRef "t1" "execute") 1 (task_grant "t1") v.
Proof.
  destruct (InspectEndpoint sample_readers operator "p1" (mkRef "t1" "execute") 1) as [v|] eqn:Hv.
  - exists v. split; [reflexivity|]. pose proof (proj1 (inspector_confidential sample_readers operator "p1" (mkRef "t1" "execute") 1 (task_grant "t1") eq_refl) v Hv) as H. apply H.
  - exfalso. vm_compute in Hv. discriminate.
Defined.

(** Payloads that hold a task id and nothing else, shown as they are. *)
Definition codec : EventCodec string :=
  mkEventCodec (fun _ => None) (fun _ => None) (fun _ => None) (fun s => Some (mkTaskUpdated s "running")) (fun _ => None) (fun _ => None) (fun _ => None)
    (fun _ => None) (fun _ => None) (fun _ => None) (fun d => match d with TaskUpdatedData d => Some (tu_TaskID d) | _ => None end) Some.

Definition update (key : IdempotencyKey) (task : TaskID) : AppendEvent := mkAppend key "task.updated" "p1" task "" "" "" (Some (Ok task)) [] 0.

Definition log_of (requests : list AppendEvent) : EventLog :=
  foldl (fun l r => (Append (fun s => s) (fun _ => "r") None r 5 l).2) (NewEventLog 0) requests.

Definition log1 : EventLog := log_of [update "k1" "t1"].
Definition log3 : EventLog := log_of [update "k1" "t1"; update "k2" "t2"; update "k3" "t1"].

(** The first read of a page comes before the last two appends. *)
Definition growing (j k : nat) : EventLog := match k with 0 => log1 | _ => log3 end.

Lemma log3_later : rtc (log_step (fun s => s) (fun _ => "r")) log1 log3.
Proof. eapply rtc_l; [by exists None, (update "k2" "t2"), 5%Z|]. apply rtc_once. by exists None, (update "k3" "t1"), 5%Z. Qed.

Lemma log3_reachable : rtc (log_step (fun s => s) (fun _ => "r")) (NewEventLog 0) log3.
Proof. eapply rtc_l; [by exists None, (update "k1" "t1"), 5%Z|]. apply log3_later. Qed.

Lemma events_delivered_once_witness :
  exists page next, ListEvents codec sample_readers (NewEventLogQuery 0 1) None operator "p1" (growing 0) 9 "0" 5 = Ok (page, formatEvidenceCursor next) /\
    visible codec sample_readers operator "p1" log3 0 = page ++ visible codec sample_readers operator "p1" log3 next.
Proof.
  destruct (proj1 (events_delivered_once (fun s => s) (fun _ => "r") codec sample_readers (NewEventLogQuery 0 1) operator "p1" 0 log3 growing 9
    log3_reachable ltac:(intros j [|k]; [apply log3_later|apply rtc_refl]) ltac:(repeat constructor) eq_refl ltac:(apply Nat.ltb_lt; vm_compute; reflexivity))
    "0" 0%Z 5%Z ltac:(discriminate) eq_refl eq_refl) as (page & next & H1 & H2 & _).
  exists page, next. split; [exact H1|exact H2].
Defined.

(** Three reads give both events of the visible task. *)
Example growing_page :
  match ListEvents codec sample_readers (NewEventLogQuery 0 1) None operator "p1" (growing 0) 9 "0" 5 with
  | Ok (page, next) => (ue_Payload <$> page, next) = (["t1"; "t1"], "3")
  | Err _ => False
  end.
Proof. vm_compute. reflexivity. Qed.

End UiSample.
