(* ===== verification/AgentTeams.v ===== *)
(** * The AgentTeams host adapter

    [adapters/agentteams/adapter.go], [observations.go], [client.go], [taskflow.go] and
    [filesync.go]: which host runs an invocation, the durable record of each attempt,
    delegation, fencing and release, and the projection of host events.  The
    AgentTeams client, the file transport and the source of prepared invocations are
    interfaces over a state [W] that holds the execution store too, so that other
    calls of the adapter may run while one waits for a collaborator.  SHA-256, JSON and
    Unicode case mapping are parameters. *)

From stdpp Require Import base tactics option list strings gmap sorting.
From Stdlib Require Import ZArith Ascii.
From S2P Require Import Prelude GoLib GoStrings Kernel Auth.

(** ** Data *)

Definition TerminateReleaseWait : string := "release_wait".
Definition TerminateRecoverableStop : string := "recoverable_stop".
Definition TerminateCancel : string := "cancel".

Definition HostManager : string := "manager".
Definition HostWorker : string := "worker".

Record AgentTeamsExecutionRef := mkExecution {
  ex_InvocationID : InvocationID;
  ex_AgentTeamsTaskID : string;
  ex_HostRef : string;
}.

#[global] Instance AgentTeamsExecutionRef_eq_dec : EqDecision AgentTeamsExecutionRef.
Proof. solve_decision. Defined.

Record HostStatus := mkHostStatus {
  hs_Ref : string;
  hs_Kind : string;
  hs_Phase : string;
  hs_LastHeartbeat : Time;
  hs_Capacity : Z;
  hs_ActiveExecutions : Z;
  hs_Capabilities : list string;
}.

Record PreparedInvocation := mkPrepared {
  pi_InvocationID : InvocationID;
  pi_ProjectID : ProjectID;
  pi_Role : Role;
  pi_Operation : string;
  pi_RoomID : string;
  pi_Spec : string;
  pi_RuntimeConfigRef : string;
  pi_EnvelopeRef : string;
  pi_RequiredCapabilities : list string;
}.

Record HostPreparation := mkPreparation {
  hp_HostRef : string;
  hp_InvocationID : InvocationID;
  hp_AgentTeamsTaskID : string;
  hp_Role : Role;
  hp_Operation : string;
  hp_RuntimeConfigRef : string;
  hp_EnvelopeRef : string;
}.

Record DelegateTaskRequest := mkDelegate {
  dr_ProjectID : ProjectID;
  dr_TaskID : string;
  dr_HostRef : string;
  dr_RoomID : string;
  dr_Spec : string;
}.

Record TaskSnapshot := mkTaskSnapshot {
  ts_TaskID : string;
  ts_ProjectID : ProjectID;
  ts_HostRef : string;
  ts_Status : string;
  ts_EventID : string;
  ts_ResultPath : string;
}.

Record TaskCheck := mkTaskCheck {
  tk_Task : TaskSnapshot;
  tk_ResultStatus : string;
  tk_Summary : string;
  tk_Deliverables : list string;
  tk_Effective : bool;
  tk_ValidationErrors : list string;
}.

Record RawObservation := mkRaw {
  ra_Cursor : string;
  ra_ProviderEventID : string;
  ra_TaskID : string;
  ra_HostRef : string;
  ra_Kind : string;
  ra_Payload : gmap string string;
  ra_ObservedAt : Time;
}.

Record ExecutionObservation := mkExecutionObservation {
  xo_ID : string;
  xo_Cursor : string;
  xo_InvocationID : InvocationID;
  xo_AgentTeamsTaskID : string;
  xo_HostRef : string;
  xo_Kind : string;
  xo_Payload : gmap string string;
  xo_ObservedAt : Time;
}.

Record UntrustedExecutionResult := mkUntrusted {
  ur_AgentTeamsTaskID : string;
  ur_TaskStatus : string;
  ur_ResultStatus : string;
  ur_Summary : string;
  ur_Deliverables : list string;
  ur_ResultDocument : string;
  ur_Effective : bool;
  ur_ValidationErrors : list string;
}.

Record ExecutionWorkspaceCheckpoint := mkWorkspaceCheckpoint {
  wc_WorkspaceRevision : string;
}.

Record HostActivity := mkActivity {
  ac_Status : string;
  ac_RunningTaskCount : Z;
  ac_LastRunAt : Time;
  ac_LastFinishAt : Time;
}.

Definition executionReserved : string := "reserved".
Definition executionDispatched : string := "dispatched".
Definition executionTerminated : string := "terminated".

Record executionRecord := mkExecutionRecord {
  xr_InvocationRef : string;
  xr_Attempt : Z;
  xr_Execution : AgentTeamsExecutionRef;
  xr_Fingerprint : string;
  xr_State : string;
  xr_TerminationMode : string;
}.

Definition xr_TaskID (r : executionRecord) : string := ex_AgentTeamsTaskID (xr_Execution r).

Definition xr_set (state mode : string) (r : executionRecord) : executionRecord :=
  mkExecutionRecord (xr_InvocationRef r) (xr_Attempt r) (xr_Execution r) (xr_Fingerprint r) state mode.

Record ExecutionStore := mkExecutionStore {
  xs_byInvocation : gmap string executionRecord;
  xs_byTaskID : gmap string executionRecord;
}.

Definition NewMemoryExecutionStore : ExecutionStore := mkExecutionStore ∅ ∅.

(** ** The execution store *)

Section store.
Context (hashHex : string -> string).

Definition attemptedTaskID (invocationRef : string) (attempt : Z) : string :=
  let base := "threadmill-" +:+ String.substring 0 32 (hashHex invocationRef) in
  if (attempt <=? 1)%Z then base else base +:+ "-attempt-" +:+ format_int attempt.

Definition stableTaskID (invocationRef : string) : string := attemptedTaskID invocationRef 1.

Definition GetByInvocationRef (ctx : Context) (ref : string) : M error ExecutionStore (option executionRecord) :=
  _ ← lift (ctx_Err ctx);
  s ← get_state;
  mret (xs_byInvocation s !! ref).

Definition GetByTaskID (ctx : Context) (taskID : string) : M error ExecutionStore (option executionRecord) :=
  _ ← lift (ctx_Err ctx);
  s ← get_state;
  mret (xs_byTaskID s !! taskID).

Definition put_execution (record : executionRecord) (s : ExecutionStore) : ExecutionStore :=
  mkExecutionStore (<[xr_InvocationRef record := record]> (xs_byInvocation s)) (<[xr_TaskID record := record]> (xs_byTaskID s)).

(** A record of [attempt], unless its task id is [taken]. *)
Definition reserveAttempt (invocationRef fingerprint : string) (execution : AgentTeamsExecutionRef) (attempt : Z)
    (taken : executionRecord -> bool) : M error ExecutionStore (executionRecord * bool) :=
  let taskID := attemptedTaskID invocationRef attempt in
  let hostRef := TrimSpace (ex_HostRef execution) in
  _ ← lift (fail_if (bool_decide (hostRef = "")) (InvalidArgument "AgentTeams host_ref is required"));
  let record := mkExecutionRecord invocationRef attempt (mkExecution (ex_InvocationID execution) taskID hostRef) fingerprint executionReserved "" in
  s ← get_state;
  _ ← lift (fail_if (match xs_byTaskID s !! taskID with Some existing => taken existing | None => false end) IdempotencyConflict);
  _ ← modify (put_execution record);
  mret (record, true).

Definition Reserve (ctx : Context) (invocationRef fingerprint : string) (execution : AgentTeamsExecutionRef) :
    M error ExecutionStore (executionRecord * bool) :=
  _ ← lift (ctx_Err ctx);
  s ← get_state;
  match xs_byInvocation s !! invocationRef with
  | Some existing =>
    _ ← lift (fail_if (bool_decide (xr_Fingerprint existing <> fingerprint)) IdempotencyConflict);
    if bool_decide (xr_State existing <> executionTerminated) || bool_decide (xr_TerminationMode existing <> TerminateReleaseWait)
    then mret (existing, false)
    else reserveAttempt invocationRef fingerprint execution (int_wrap (xr_Attempt existing + 1)) (fun _ => true)
  | None => reserveAttempt invocationRef fingerprint execution 1 (fun existing => bool_decide (xr_InvocationRef existing <> invocationRef))
  end.

(** The record of a task changes, and the latest record of its invocation with it
    when it is that of the task. *)
Definition update_execution (taskID : string) (record : executionRecord) (s : ExecutionStore) : ExecutionStore :=
  mkExecutionStore
    (match xs_byInvocation s !! xr_InvocationRef record with
     | Some latest => if bool_decide (xr_TaskID latest = taskID) then <[xr_InvocationRef record := record]> (xs_byInvocation s) else xs_byInvocation s
     | None => xs_byInvocation s
     end)
    (<[taskID := record]> (xs_byTaskID s)).

Definition MarkDispatched (ctx : Context) (taskID : string) : M error ExecutionStore unit :=
  _ ← lift (ctx_Err ctx);
  s ← get_state;
  match xs_byTaskID s !! taskID with
  | None => throw (kerr CodeNotFound "AgentTeams execution reservation not found" false)
  | Some record =>
    _ ← lift (fail_if (bool_decide (xr_State record = executionTerminated))
          (kerr CodeStaleCommand "terminated AgentTeams execution cannot be dispatched" true));
    if bool_decide (xr_State record = executionDispatched) then mret tt
    else modify (update_execution taskID (xr_set executionDispatched (xr_TerminationMode record) record))
  end.

Definition MarkTerminated (ctx : Context) (taskID mode : string) : M error ExecutionStore unit :=
  _ ← lift (ctx_Err ctx);
  s ← get_state;
  match xs_byTaskID s !! taskID with
  | None => throw (kerr CodeNotFound "AgentTeams execution not found" false)
  | Some record =>
    if bool_decide (xr_State record = executionTerminated) then lift (fail_if (bool_decide (xr_TerminationMode record <> mode)) IdempotencyConflict)
    else modify (update_execution taskID (xr_set executionTerminated mode record))
  end.

End store.

(** ** The collaborators *)

Record Client (W : Type) := mkClient {
  cl_ListHosts : M error W (list HostStatus);
  cl_PrepareHost : HostPreparation -> M error W unit;
  cl_DelegateTask : DelegateTaskRequest -> M error W TaskSnapshot;
  cl_ReleaseHostSlot : string -> string -> M error W unit;
  cl_FenceInvocation : string -> InvocationID -> M error W unit;
  cl_RevokeInvocation : string -> InvocationID -> M error W unit;
  cl_ForceStopHost : string -> M error W unit;
  cl_CancelTask : string -> string -> M error W unit;
  cl_CheckTask : string -> M error W TaskCheck;
  cl_ReadObservations : string -> M error W (list RawObservation);
  cl_PushExecutionFiles : option (AgentTeamsExecutionRef -> M error W unit);
  cl_RecoverExecutionHost : option (HostPreparation -> M error W unit);
  cl_CompleteTask : option (string -> string -> M error W unit);
  cl_HostActivity : option (string -> M error W HostActivity);
}.
Arguments cl_ListHosts {W}.
Arguments cl_PrepareHost {W}.
Arguments cl_DelegateTask {W}.
Arguments cl_ReleaseHostSlot {W}.
Arguments cl_FenceInvocation {W}.
Arguments cl_RevokeInvocation {W}.
Arguments cl_ForceStopHost {W}.
Arguments cl_CancelTask {W}.
Arguments cl_CheckTask {W}.
Arguments cl_ReadObservations {W}.
Arguments cl_PushExecutionFiles {W}.
Arguments cl_RecoverExecutionHost {W}.
Arguments cl_CompleteTask {W}.
Arguments cl_HostActivity {W}.

Record FileTransport (W : Type) := mkFiles {
  ft_PrepareExecution : AgentTeamsExecutionRef -> PreparedInvocation -> M error W unit;
  ft_PullExecution : AgentTeamsExecutionRef -> M error W ExecutionWorkspaceCheckpoint;
  ft_ReadResult : string -> M error W string;
}.
Arguments ft_PrepareExecution {W}.
Arguments ft_PullExecution {W}.
Arguments ft_ReadResult {W}.

(** What a collaborator or the store has answered. *)
Inductive AdapterCall :=
| FilesPrepared (execution : AgentTeamsExecutionRef)
| HostPrepared (preparation : HostPreparation)
| Delegated (request : DelegateTaskRequest) (answer : res TaskSnapshot)
| Revoked (hostRef : string) (invocationID : InvocationID) (answer : res unit)
| ForceStopped (hostRef : string) (answer : res unit)
| Released (taskID hostRef : string) (answer : res unit)
| Checked (taskID : string) (answer : res TaskCheck)
| Canceled (taskID reason : string)
| Found (record : executionRecord)
| Reserved (record : executionRecord)
| Dispatched (taskID : string)
| Terminated (taskID mode : string).

Record Adapter (C : Type) := mkAdapter {
  ad_store : ExecutionStore;
  ad_world : C;
  ad_trace : list AdapterCall;
}.
Arguments mkAdapter {C}.
Arguments ad_store {C}.
Arguments ad_world {C}.
Arguments ad_trace {C}.

(** ** Checks *)

Definition validTerminateMode (mode : string) : bool :=
  bool_decide (mode = TerminateReleaseWait) || bool_decide (mode = TerminateRecoverableStop) || bool_decide (mode = TerminateCancel).

Definition terminationReason (mode : string) : string := "threadmill:" +:+ mode.

Definition isTerminalTaskStatus (status : string) : bool :=
  bool_decide (status ∈ ["submitted"; "succeeded"; "success"; "failed"; "cancelled"; "canceled"; "released"]).

Definition hostKindForRole (role : Role) : res string :=
  if bool_decide (role = RoleTaskManager) || bool_decide (role = RoleContext) then Ok HostManager
  else if bool_decide (role = RolePlanner) || bool_decide (role = RoleExecutor) || bool_decide (role = RoleVerifier) then Ok HostWorker
  else Err (Forbidden "role cannot run on AgentTeams host").

Definition validatePreparedInvocation (prepared : PreparedInvocation) : res unit :=
  _ ← RequireID "invocation_id" (pi_InvocationID prepared);
  _ ← RequireID "project_id" (pi_ProjectID prepared);
  _ ← hostKindForRole (pi_Role prepared);
  _ ← (if bool_decide (pi_Role prepared = RoleContext)
       then fail_if (bool_decide (pi_Operation prepared ∉ ["retrieve"; "curate"; "review"])) (InvalidArgument "Context invocation operation is required")
       else fail_if (bool_decide (pi_Operation prepared <> "")) (InvalidArgument "operation is only valid for Context Agent"));
  _ ← fail_if (bool_decide (TrimSpace (pi_RoomID prepared) = "") || bool_decide (TrimSpace (pi_Spec prepared) = ""))
        (InvalidArgument "AgentTeams room and execution spec are required");
  fail_if (bool_decide (TrimSpace (pi_RuntimeConfigRef prepared) = "") || bool_decide (TrimSpace (pi_EnvelopeRef prepared) = ""))
    (InvalidArgument "Runtime config and signed envelope references are required").

Definition containsAll (values required : list string) : bool := forallb (fun value => bool_decide (value ∈ values)) required.

Definition host_less (a b : HostStatus) : bool :=
  if bool_decide (hs_ActiveExecutions a <> hs_ActiveExecutions b) then (hs_ActiveExecutions a <? hs_ActiveExecutions b)%Z
  else string_lt (hs_Ref a) (hs_Ref b).

Definition join_errors (errs : list (option error)) : option error :=
  match omap id errs with
  | [] => None
  | e :: rest => Some (foldl JoinError e rest)
  end.

Definition prepared_with (capabilities : list string) (p : PreparedInvocation) : PreparedInvocation :=
  mkPrepared (pi_InvocationID p) (pi_ProjectID p) (pi_Role p) (pi_Operation p) (pi_RoomID p) (pi_Spec p) (pi_RuntimeConfigRef p) (pi_EnvelopeRef p) capabilities.

Definition preparationOf (prepared : PreparedInvocation) (execution : AgentTeamsExecutionRef) : HostPreparation :=
  mkPreparation (ex_HostRef execution) (pi_InvocationID prepared) (ex_AgentTeamsTaskID execution) (pi_Role prepared) (pi_Operation prepared)
    (pi_RuntimeConfigRef prepared) (pi_EnvelopeRef prepared).

Definition delegationOf (prepared : PreparedInvocation) (execution : AgentTeamsExecutionRef) : DelegateTaskRequest :=
  mkDelegate (pi_ProjectID prepared) (ex_AgentTeamsTaskID execution) (ex_HostRef execution) (pi_RoomID prepared) (pi_Spec prepared).

Definition executionNotFound : error := kerr CodeNotFound "AgentTeams execution not found" false.
Definition mismatchedIdentity : error := kerr CodeInternalError "AgentTeams returned a mismatched execution identity" false.

(** ** Operations *)

Section adapter.
Context `{GR : GoRuntime} {C : Type}.
Context (hashHex : string -> string) (encodePrepared : PreparedInvocation -> string).
Context (ToLower : string -> string) (EqualFold : string -> string -> bool).
Local Abbreviation W := (ExecutionStore * C)%type.
Context (client : Client W) (files : FileTransport W) (source : string -> M error W PreparedInvocation).
(** The clock, the state of the caller's context, and of the bounded context of the
    clean-up, when they are asked. *)
Context (now : M error W Time) (cancelled cleanupCancelled : C -> Context).
Context (heartbeatMaxAge : Z).

Local Abbreviation A := (Adapter C).

(** A call of a collaborator, with what is recorded of its answer. *)
Definition calling {X} (what : res X -> list AdapterCall) (m : M error W X) : M error A X := fun w =>
  let '(r, (s, c)) := m (ad_store w, ad_world w) in (r, mkAdapter s c (ad_trace w ++ what r)).

Definition silently {X} (m : M error W X) : M error A X := calling (fun _ => []) m.

(** A call of the store, under the context [ctx]. *)
Definition storing {X} (ctx : C -> Context) (what : X -> list AdapterCall) (m : Context -> M error ExecutionStore X) : M error A X := fun w =>
  let '(r, s) := m (ctx (ad_world w)) (ad_store w) in
  (r, mkAdapter s (ad_world w) (ad_trace w ++ match r with Ok x => what x | Err _ => [] end)).

(** The error of a call, if any. *)
Definition failure {X} (m : M error A X) : M error A (option error) := catch (_ ← m; mret None) (fun e => mret (Some e)).

Definition markTerminated (ctx : C -> Context) (taskID mode : string) : M error A unit :=
  storing ctx (fun _ => [Terminated taskID mode]) (fun ctx => MarkTerminated ctx taskID mode).

Definition revoke (execution : AgentTeamsExecutionRef) : M error A unit :=
  calling (fun r => [Revoked (ex_HostRef execution) (ex_InvocationID execution) r]) (cl_RevokeInvocation client (ex_HostRef execution) (ex_InvocationID execution)).

Definition forceStop (hostRef : string) : M error A unit := calling (fun r => [ForceStopped hostRef r]) (cl_ForceStopHost client hostRef).

Definition releaseSlot (execution : AgentTeamsExecutionRef) : M error A unit :=
  calling (fun r => [Released (ex_AgentTeamsTaskID execution) (ex_HostRef execution) r])
    (cl_ReleaseHostSlot client (ex_AgentTeamsTaskID execution) (ex_HostRef execution)).

Definition checkTask (taskID : string) : M error A TaskCheck := calling (fun r => [Checked taskID r]) (cl_CheckTask client taskID).

(** *** Hosts *)

Definition schedulableHostPhase (phase : string) : bool := bool_decide (ToLower (TrimSpace phase) ∈ ["running"; "ready"; "sleeping"]).

Definition suitable (at_ : Time) (kind : string) (required : list string) (host : HostStatus) : bool :=
  bool_decide (hs_Kind host = kind) && schedulableHostPhase (hs_Phase host) && (hs_ActiveExecutions host <? hs_Capacity host)%Z &&
  (EqualFold (TrimSpace (hs_Phase host)) "sleeping" ||
   negb (bool_decide (hs_LastHeartbeat host = time_zero) || (heartbeatMaxAge <? at_ - hs_LastHeartbeat host)%Z)) &&
  containsAll (hs_Capabilities host) required.

Definition selectHost (prepared : PreparedInvocation) : M error A HostStatus :=
  hosts ← silently (cl_ListHosts client);
  wantKind ← lift (hostKindForRole (pi_Role prepared));
  at_ ← silently now;
  match sort_slice host_less (filter (fun host => suitable at_ wantKind (pi_RequiredCapabilities prepared) host = true) hosts) with
  | [] => throw (kerr CodeExecutorUnavailable "no healthy AgentTeams host has matching capacity" true)
  | host :: _ => mret host
  end.

Definition preparedFingerprint (prepared : PreparedInvocation) : string :=
  hashHex (encodePrepared (prepared_with (sort_slice string_lt (pi_RequiredCapabilities prepared)) prepared)).

(** *** Termination *)

Definition invocationCarrierCleanupUnavailable (err : option error) : bool :=
  match err with
  | None => false
  | Some e =>
    let message := ToLower (error_text e) in
    Contains "host not found" message || Contains "host missing" message || Contains "container not found" message ||
    Contains "no such container" message || Contains "is not running" message || Contains "worker not found" message ||
    Contains "worker is unavailable" message || Contains "carrier is unavailable" message ||
    IsCode err CodeNotFound || IsCode err CodeExecutorUnavailable
  end.

(** The revocation failed: the host is stopped. *)
Definition terminateUnrevoked (ctx : C -> Context) (execution : AgentTeamsExecutionRef) (mode : string) (reserved : bool) (err : error) : M error A unit :=
  if reserved && IsCode (Some err) CodeNotFound then markTerminated ctx (ex_AgentTeamsTaskID execution) mode
  else
    forceErr ← failure (forceStop (ex_HostRef execution));
    releaseErr ← failure (releaseSlot execution);
    let releaseErr := if reserved && bool_decide (forceErr = None) && IsCode releaseErr CodeNotFound then None else releaseErr in
    match releaseErr with
    | Some _ => lift (match join_errors [Some err; forceErr; releaseErr] with Some e => Err e | None => Ok tt end)
    | None => markTerminated ctx (ex_AgentTeamsTaskID execution) mode
    end.

(** The credential is revoked and the task was asked for: it is canceled unless it has
    ended. *)
Definition terminateChecked (ctx : C -> Context) (execution : AgentTeamsExecutionRef) (mode : string) (reserved : bool) (check : TaskCheck + error) :
    M error A unit :=
  let taskID := ex_AgentTeamsTaskID execution in
  let checkErr := match check with inl _ => None | inr e => Some e end in
  if reserved && invocationCarrierCleanupUnavailable checkErr then
    releaseErr ← failure (releaseSlot execution);
    markErr ← failure (markTerminated ctx taskID mode);
    lift (match join_errors [releaseErr; markErr] with Some e => Err e | None => Ok tt end)
  else
    let providerMissing := IsCode checkErr CodeNotFound || invocationCarrierCleanupUnavailable checkErr in
    let running := match check with inl check => negb (isTerminalTaskStatus (ts_Status (tk_Task check))) | inr _ => true end in
    _ ← (if negb providerMissing && running then
           cancelErr ← failure (calling (fun r => match r with Ok _ => [Canceled taskID (terminationReason mode)] | Err _ => [] end)
                         (cl_CancelTask client taskID (terminationReason mode)));
           match cancelErr with
           | Some e => throw (match checkErr with Some c => JoinError c e | None => e end)
           | None => mret tt
           end
         else mret tt);
    _ ← releaseSlot execution;
    markTerminated ctx taskID mode.

Definition terminateRevoked (ctx : C -> Context) (execution : AgentTeamsExecutionRef) (mode : string) (reserved : bool) : M error A unit :=
  check ← catch (check ← checkTask (ex_AgentTeamsTaskID execution); mret (inl check)) (fun e => mret (inr e) : M error A (TaskCheck + error));
  terminateChecked ctx execution mode reserved check.

Definition foundRecord (found : option executionRecord) : list AdapterCall := match found with Some record => [Found record] | None => [] end.

(** The record of an execution that the caller names in full. *)
Definition ownRecord (ctx : C -> Context) (execution : AgentTeamsExecutionRef) : M error A executionRecord :=
  found ← storing ctx foundRecord (fun ctx => GetByTaskID ctx (ex_AgentTeamsTaskID execution));
  match found with
  | Some record => _ ← lift (fail_if (bool_decide (xr_Execution record <> execution)) executionNotFound); mret record
  | None => throw executionNotFound
  end.

Definition TerminateIn (ctx : C -> Context) (execution : AgentTeamsExecutionRef) (mode : string) : M error A unit :=
  _ ← lift (fail_if (negb (validTerminateMode mode)) (InvalidArgument "termination mode must be release_wait, recoverable_stop, or cancel"));
  record ← ownRecord ctx execution;
  if bool_decide (xr_State record = executionTerminated) then lift (fail_if (bool_decide (xr_TerminationMode record <> mode)) IdempotencyConflict)
  else
    let reserved := bool_decide (xr_State record = executionReserved) in
    revokeErr ← failure (revoke execution);
    match revokeErr with
    | Some e => terminateUnrevoked ctx execution mode reserved e
    | None => terminateRevoked ctx execution mode reserved
    end.

Definition Terminate (execution : AgentTeamsExecutionRef) (mode : string) : M error A unit := TerminateIn cancelled execution mode.

Definition fenceAndRelease (execution : AgentTeamsExecutionRef) : M error A unit :=
  revokeErr ← failure (revoke execution);
  _ ← match revokeErr with
      | None => mret tt
      | Some e =>
        forceErr ← failure (forceStop (ex_HostRef execution));
        match forceErr with Some f => throw (JoinError e f) | None => mret tt end
      end;
  releaseSlot execution.

(** *** Dispatch *)

Definition reserveOnHost (invocationRef fingerprint : string) (prepared : PreparedInvocation) : M error A (executionRecord * bool) :=
  host ← selectHost prepared;
  storing cancelled (fun r : executionRecord * bool => if r.2 then [Reserved r.1] else [Found r.1])
    (fun ctx => Reserve hashHex ctx invocationRef fingerprint (mkExecution (pi_InvocationID prepared) "" (hs_Ref host))).

(** The record to go on with, and whether this call made it. *)
Definition reservation (invocationRef fingerprint : string) (prepared : PreparedInvocation) : M error A (executionRecord * bool) :=
  found ← storing cancelled foundRecord (fun ctx => GetByInvocationRef ctx invocationRef);
  match found with
  | Some record =>
    _ ← lift (fail_if (bool_decide (xr_Fingerprint record <> fingerprint)) IdempotencyConflict);
    if bool_decide (xr_State record = executionTerminated) then
      _ ← lift (fail_if (bool_decide (xr_TerminationMode record <> TerminateReleaseWait))
            (kerr CodeStaleCommand "terminated AgentTeams execution cannot be redispatched" true));
      reserveOnHost invocationRef fingerprint prepared
    else mret (record, false)
  | None => reserveOnHost invocationRef fingerprint prepared
  end.

Definition with_cleanup (err : error) (cleanup : M error A unit) : M error A AgentTeamsExecutionRef :=
  cleanupErr ← failure cleanup;
  throw (match cleanupErr with Some e => JoinError err e | None => err end).

Definition delegateTo (prepared : PreparedInvocation) (execution : AgentTeamsExecutionRef) : M error A AgentTeamsExecutionRef :=
  let request := delegationOf prepared execution in
  task ← calling (fun r => [Delegated request r]) (cl_DelegateTask client request);
  if bool_decide (ts_TaskID task <> ex_AgentTeamsTaskID execution) || bool_decide (ts_HostRef task <> ex_HostRef execution)
  then with_cleanup mismatchedIdentity (fenceAndRelease execution)
  else
    _ ← storing cancelled (fun _ => [Dispatched (ex_AgentTeamsTaskID execution)]) (fun ctx => MarkDispatched ctx (ex_AgentTeamsTaskID execution));
    mret execution.

Definition prepareAndDelegate (prepared : PreparedInvocation) (reserved : executionRecord * bool) : M error A AgentTeamsExecutionRef :=
  let execution := xr_Execution reserved.1 in
  filesErr ← failure (calling (fun r => match r with Ok _ => [FilesPrepared execution] | Err _ => [] end) (ft_PrepareExecution files execution prepared));
  match filesErr with
  | Some e =>
    if reserved.2 then with_cleanup e (markTerminated cancelled (ex_AgentTeamsTaskID execution) TerminateReleaseWait) else throw e
  | None =>
    hostErr ← failure (calling (fun r => match r with Ok _ => [HostPrepared (preparationOf prepared execution)] | Err _ => [] end)
                (cl_PrepareHost client (preparationOf prepared execution)));
    match hostErr with
    | Some e => if reserved.2 then with_cleanup e (TerminateIn cleanupCancelled execution TerminateCancel) else throw e
    | None => delegateTo prepared execution
    end
  end.

Definition dispatchReserved (invocationRef : string) : M error A AgentTeamsExecutionRef :=
  prepared ← silently (source invocationRef);
  _ ← lift (validatePreparedInvocation prepared);
  reserved ← reservation invocationRef (preparedFingerprint prepared) prepared;
  if bool_decide (xr_State (fst reserved) = executionDispatched) then mret (xr_Execution (fst reserved))
  else prepareAndDelegate prepared reserved.

(** [dispatchOnce] for a call that does not overlap another of the same reference. *)
Definition Dispatch (invocationRef : string) : M error A AgentTeamsExecutionRef :=
  _ ← lift (fail_if (bool_decide (TrimSpace invocationRef = "")) (InvalidArgument "invocation_ref is required"));
  dispatchReserved invocationRef.

(** *** Reads *)

Definition SyncExecutionWorkspace (execution : AgentTeamsExecutionRef) : M error A ExecutionWorkspaceCheckpoint :=
  record ← ownRecord cancelled execution;
  _ ← lift (fail_if (bool_decide (xr_State record <> executionDispatched)) (StaleBinding "AgentTeams execution is not active for workspace synchronization"));
  match cl_PushExecutionFiles client with
  | None => throw (kerr CodeExecutorUnavailable "AgentTeams client cannot synchronize execution files" true)
  | Some push => _ ← silently (push execution); silently (ft_PullExecution files execution)
  end.

Definition FenceExecution (execution : AgentTeamsExecutionRef) : M error A unit :=
  record ← ownRecord cancelled execution;
  if bool_decide (xr_State record = executionTerminated) then mret tt
  else silently (cl_FenceInvocation client (ex_HostRef execution) (ex_InvocationID execution)).

Definition recoverExecutionHost (record : executionRecord) : M error A unit :=
  match cl_RecoverExecutionHost client with
  | None => throw (kerr CodeExecutorUnavailable "AgentTeams client cannot recover execution host" true)
  | Some recover =>
    prepared ← silently (source (xr_InvocationRef record));
    _ ← lift (fail_if (bool_decide (pi_InvocationID prepared <> ex_InvocationID (xr_Execution record))) IdempotencyConflict);
    silently (recover (preparationOf prepared (xr_Execution record)))
  end.

(** A call that is tried again once its host has been recovered. *)
Definition recovering {X} (record : executionRecord) (m : M error A X) : M error A X :=
  catch m (fun err =>
    if IsCode (Some err) CodeExecutorUnavailable && bool_decide (is_Some (cl_RecoverExecutionHost client)) then
      recoverErr ← failure (recoverExecutionHost record);
      match recoverErr with Some e => throw (JoinError err e) | None => m end
    else throw err).

Definition ExecutionTerminal (execution : AgentTeamsExecutionRef) : M error A bool :=
  record ← ownRecord cancelled execution;
  check ← recovering record (checkTask (ex_AgentTeamsTaskID execution));
  mret (isTerminalTaskStatus (ts_Status (tk_Task check))).

Definition FinalizeExecution (execution : AgentTeamsExecutionRef) (summary : string) : M error A unit :=
  _ ← ownRecord cancelled execution;
  match cl_CompleteTask client with
  | None => throw (kerr CodeExecutorUnavailable "AgentTeams client cannot finalize provider tasks" true)
  | Some complete => silently (complete (ex_AgentTeamsTaskID execution) summary)
  end.

Definition ExecutionActivity (execution : AgentTeamsExecutionRef) : M error A HostActivity :=
  record ← ownRecord cancelled execution;
  match cl_HostActivity client with
  | None => throw (kerr CodeInternalError "AgentTeams client does not expose bounded execution activity" false)
  | Some activity => recovering record (silently (activity (ex_HostRef execution)))
  end.

Definition Collect (execution : AgentTeamsExecutionRef) : M error A UntrustedExecutionResult :=
  _ ← ownRecord cancelled execution;
  _ ← silently (ft_PullExecution files execution);
  check ← checkTask (ex_AgentTeamsTaskID execution);
  _ ← (if isTerminalTaskStatus (ts_Status (tk_Task check)) then fenceAndRelease execution else mret tt);
  document ← silently (ft_ReadResult files (ex_AgentTeamsTaskID execution));
  mret (mkUntrusted (ex_AgentTeamsTaskID execution) (ts_Status (tk_Task check)) (tk_ResultStatus check) (tk_Summary check) (tk_Deliverables check) document
    (tk_Effective check) (tk_ValidationErrors check)).

End adapter.

(** ** Observations *)

Section observations.
Context `{GR : GoRuntime}.
Context (hashHex : string -> string).
(** The JSON of a provider event: its id, task, host and kind, the payload, the time. *)
Context (encodeObservation : string -> string -> string -> string -> list (string * string) -> Time -> string).

(** The payload ordered by key. *)
Definition orderedPayload (payload : gmap string string) : list (string * string) :=
  (fun key => (key, default "" (payload !! key))) <$> sort_slice string_lt (range_keys payload).

(** The identity of an event and its fingerprint. *)
Definition observationIdentity (item : RawObservation) : string * string :=
  let fingerprint := hashHex (encodeObservation (ra_ProviderEventID item) (ra_TaskID item) (ra_HostRef item) (ra_Kind item)
    (orderedPayload (ra_Payload item)) (ra_ObservedAt item)) in
  if bool_decide (ra_ProviderEventID item <> "")
  then ("agentteams:" +:+ String.substring 0 32 (hashHex (ra_HostRef item +:+ String "000" (ra_ProviderEventID item))), fingerprint)
  else ("agentteams:" +:+ String.substring 0 32 fingerprint, fingerprint).

Record ProjectedObservations := mkProjected {
  po_Observations : list ExecutionObservation;
  po_NextCursor : string;
  po_IgnoredTaskEvents : Z;
  po_LastIgnoredHostRef : string;
  po_LastIgnoredAt : Time;
}.

(** The result so far, the position and the fingerprint of each identity. *)
Record projection := mkProjection {
  pn_result : ProjectedObservations;
  pn_indexByID : gmap string nat;
  pn_fingerprints : gmap string string;
}.

Definition xo_set_Cursor (cursor : string) (o : ExecutionObservation) : ExecutionObservation :=
  mkExecutionObservation (xo_ID o) cursor (xo_InvocationID o) (xo_AgentTeamsTaskID o) (xo_HostRef o) (xo_Kind o) (xo_Payload o) (xo_ObservedAt o).

Definition po_next (cursor : string) (r : ProjectedObservations) : ProjectedObservations :=
  mkProjected (po_Observations r) cursor (po_IgnoredTaskEvents r) (po_LastIgnoredHostRef r) (po_LastIgnoredAt r).

Definition po_ignore (item : RawObservation) (r : ProjectedObservations) : ProjectedObservations :=
  mkProjected (po_Observations r) (po_NextCursor r) (int_wrap (po_IgnoredTaskEvents r + 1)) (ra_HostRef item) (ra_ObservedAt item).

Definition po_set (observations : list ExecutionObservation) (r : ProjectedObservations) : ProjectedObservations :=
  mkProjected observations (po_NextCursor r) (po_IgnoredTaskEvents r) (po_LastIgnoredHostRef r) (po_LastIgnoredAt r).

Definition recordObservation (item : RawObservation) (invocationID : InvocationID) (p : projection) : res projection :=
  let result := pn_result p in
  let '(id, fingerprint) := observationIdentity item in
  match pn_indexByID p !! id with
  | Some position =>
    _ ← fail_if (bool_decide (default "" (pn_fingerprints p !! id) <> fingerprint)) IdempotencyConflict;
    Ok (mkProjection (po_set (alter (xo_set_Cursor (ra_Cursor item)) position (po_Observations result)) result) (pn_indexByID p) (pn_fingerprints p))
  | None =>
    let observation := mkExecutionObservation id (ra_Cursor item) invocationID (ra_TaskID item) (ra_HostRef item) (ra_Kind item) (ra_Payload item)
                         (ra_ObservedAt item) in
    Ok (mkProjection (po_set (po_Observations result ++ [observation]) result) (<[id := length (po_Observations result)]> (pn_indexByID p))
          (<[id := fingerprint]> (pn_fingerprints p)))
  end.

Definition projectOne (ctx : Context) (store : ExecutionStore) (p : projection) (item : RawObservation) : res projection :=
  _ ← fail_if (bool_decide (TrimSpace (ra_Cursor item) = "") || bool_decide (TrimSpace (ra_Kind item) = "") ||
               bool_decide (TrimSpace (ra_HostRef item) = "") || bool_decide (ra_ObservedAt item = time_zero))
        (InvalidArgument "AgentTeams observation requires cursor, host_ref, kind, and observed_at");
  let p := mkProjection (po_next (ra_Cursor item) (pn_result p)) (pn_indexByID p) (pn_fingerprints p) in
  if bool_decide (ra_TaskID item = "") then recordObservation item "" p
  else
    _ ← ctx_Err ctx;
    match xs_byTaskID store !! ra_TaskID item with
    | None => Ok (mkProjection (po_ignore item (pn_result p)) (pn_indexByID p) (pn_fingerprints p))
    | Some record => recordObservation item (ex_InvocationID (xr_Execution record)) p
    end.

Definition Project (ctx : Context) (store : ExecutionStore) (raw : list RawObservation) : res ProjectedObservations :=
  p ← foldl (fun acc item => p ← acc; projectOne ctx store p item) (Ok (mkProjection (mkProjected [] "" 0 "" time_zero) ∅ ∅)) raw;
  Ok (pn_result p).

Definition ProjectObservations (ctx : Context) (store : ExecutionStore) (raw : list RawObservation) : res (list ExecutionObservation) :=
  result ← Project ctx store raw; Ok (po_Observations result).

Definition cursorAdvanceObservation (projected : ProjectedObservations) : ExecutionObservation :=
  mkExecutionObservation
    ("agentteams:cursor:" +:+ String.substring 0 32 (hashHex (po_NextCursor projected +:+ String "000" (po_LastIgnoredHostRef projected))))
    (po_NextCursor projected) "" "" (po_LastIgnoredHostRef projected) "cursor_advance"
    {["ignored_task_events" := format_int (po_IgnoredTaskEvents projected)]} (po_LastIgnoredAt projected).

Definition needsCursorAdvance (observations : list ExecutionObservation) (nextCursor : string) : bool :=
  if bool_decide (nextCursor = "") || bool_decide (observations = []) then bool_decide (nextCursor <> "")
  else match last observations with Some o => bool_decide (xo_Cursor o <> nextCursor) | None => false end.

Definition observed (projected : ProjectedObservations) : list ExecutionObservation :=
  if (0 <? po_IgnoredTaskEvents projected)%Z && needsCursorAdvance (po_Observations projected) (po_NextCursor projected)
  then po_Observations projected ++ [cursorAdvanceObservation projected]
  else po_Observations projected.

End observations.

(** ** Observing *)

Section observe.
Context `{GR : GoRuntime} {C : Type}.
Context (hashHex : string -> string).
(** The JSON of a provider event: its id, task, host and kind, the payload, the time. *)
Context (encodeObservation : string -> string -> string -> string -> list (string * string) -> Time -> string).
Context (client : Client (ExecutionStore * C)) (cancelled : C -> Context).

Definition Observe (cursor : string) : M error (Adapter C) (list ExecutionObservation) :=
  raw ← silently (cl_ReadObservations client cursor);
  projected ← storing cancelled (fun _ => []) (fun ctx => s ← get_state; lift (Project hashHex encodeObservation ctx s raw));
  mret (observed hashHex projected).

End observe.
