(* ===== verification/AgentTeamsProps.v ===== *)
(** * Properties of the AgentTeams host adapter *)

From stdpp Require Import base tactics option list strings gmap sorting relations.
From Stdlib Require Import ZArith Ascii.
From S2P Require Import Prelude GoLib GoStrings Kernel Auth Hoare AgentTeams.

(** ** Executions *)

Section executions.
Context (hashHex : string -> string).

(** The attempts at an invocation: the latest may go on, all earlier ones gave their
    host back and wait. *)
Record exec_inv (s : ExecutionStore) : Prop := mkExecInv {
  xi_latest : forall ref r, xs_byInvocation s !! ref = Some r -> xr_InvocationRef r = ref /\ xs_byTaskID s !! xr_TaskID r = Some r;
  xi_task : forall t r, xs_byTaskID s !! t = Some r -> xr_TaskID r = t /\ t = attemptedTaskID hashHex (xr_InvocationRef r) (xr_Attempt r) /\
    (1 <= xr_Attempt r <= int_max)%Z /\ exists latest, xs_byInvocation s !! xr_InvocationRef r = Some latest /\ (xr_Attempt r <= xr_Attempt latest)%Z /\
      xr_Fingerprint r = xr_Fingerprint latest /\
      ((xr_Attempt r < xr_Attempt latest)%Z -> xr_State r = executionTerminated /\ xr_TerminationMode r = TerminateReleaseWait);
  xi_first : forall ref r, xs_byInvocation s !! ref = Some r -> is_Some (xs_byTaskID s !! attemptedTaskID hashHex ref 1);
}.

(** An attempt moves along its life; what identifies it stays. *)
Inductive execution_life : executionRecord -> executionRecord -> Prop :=
| life_same r : execution_life r r
| life_dispatched r mode : xr_State r <> executionTerminated -> xr_State r <> executionDispatched -> execution_life r (xr_set executionDispatched mode r)
| life_terminated r mode : xr_State r <> executionTerminated -> execution_life r (xr_set executionTerminated mode r).

(** A call on the store. *)
Inductive execution_step (s : ExecutionStore) : ExecutionStore -> Prop :=
| step_reserve ctx ref fingerprint execution : execution_step s (Reserve hashHex ctx ref fingerprint execution s).2
| step_dispatched ctx task : execution_step s (MarkDispatched ctx task s).2
| step_terminated ctx task mode : execution_step s (MarkTerminated ctx task mode s).2.

Lemma exec_inv_new : exec_inv NewMemoryExecutionStore.
Proof. split; intros ? ? H; simpl in H; by rewrite lookup_empty in H. Qed.

Lemma put_execution_inv s r : exec_inv s -> xr_TaskID r = attemptedTaskID hashHex (xr_InvocationRef r) (xr_Attempt r) -> (1 <= xr_Attempt r <= int_max)%Z ->
  xs_byTaskID s !! xr_TaskID r = None ->
  match xs_byInvocation s !! xr_InvocationRef r with
  | Some old => (xr_Attempt r = xr_Attempt old + 1)%Z /\ xr_Fingerprint r = xr_Fingerprint old /\
      xr_State old = executionTerminated /\ xr_TerminationMode old = TerminateReleaseWait
  | None => xr_Attempt r = 1%Z
  end -> exec_inv (put_execution r s).
Proof.
  intros [Hl Ht Hf] Hid Hatt Hfree Hold.
  assert (forall r', xs_byTaskID s !! xr_TaskID r' = Some r' -> xr_TaskID r' <> xr_TaskID r) as Hne by (intros r' Hr' Heq; congruence).
  split; simpl.
  - intros ref r' [[<- <-]|[Hn Hr']]%lookup_insert_Some; [by rewrite lookup_insert_eq|]. destruct (Hl _ _ Hr') as [? Hr2]. split; [done|].
    rewrite lookup_insert_ne; [done|]. symmetry. by apply Hne.
  - intros t r' [[<- <-]|[Hn Hr']]%lookup_insert_Some.
    + split_and!; [done|done|lia|lia|]. exists r. rewrite lookup_insert_eq. split_and!; [done|lia|done|lia].
    + destruct (Ht _ _ Hr') as (H1 & H2 & H3 & latest & H4 & H5 & H6 & H7). split_and!; [done|done|lia|lia|].
      destruct (decide (xr_InvocationRef r' = xr_InvocationRef r)) as [Heq|Hneq].
      * rewrite Heq in *. rewrite H4 in Hold. destruct Hold as (Ha & Hfp & Hs & Hm). exists r. rewrite lookup_insert_eq. split_and!; [done|lia|congruence|].
        intros _. destruct (decide (xr_Attempt r' < xr_Attempt latest)%Z) as [Hlt|Hge]; [by apply H7|].
        assert (r' = latest) as ->; [|done]. destruct (Hl _ _ H4) as [Hr1 Hr2]. destruct (Ht _ _ Hr2) as (_ & Hid2 & _).
        rewrite H2 in Hr'. rewrite Hid2, Hr1 in Hr2. replace (xr_Attempt latest) with (xr_Attempt r') in Hr2 by lia. congruence.
      * exists latest. by rewrite lookup_insert_ne.
  - intros ref r'. destruct (decide (ref = xr_InvocationRef r)) as [->|Hn].
    + intros _. destruct (xs_byInvocation s !! xr_InvocationRef r) as [old|] eqn:Ho.
      * apply lookup_insert_is_Some'. right. by eapply Hf.
      * exists r. rewrite <- Hold, <- Hid. by rewrite lookup_insert_eq.
    + rewrite lookup_insert_ne by done. intros Hr'. apply lookup_insert_is_Some'. right. by eapply Hf.
Qed.

Lemma life_identity r r' : execution_life r r' -> xr_InvocationRef r' = xr_InvocationRef r /\ xr_Attempt r' = xr_Attempt r /\
  xr_Execution r' = xr_Execution r /\ xr_Fingerprint r' = xr_Fingerprint r /\ (xr_State r = executionTerminated -> r' = r).
Proof. by destruct 1. Qed.

(** The record of task [t] is replaced wherever it stands. *)
Definition replaced (t : string) (r x : executionRecord) : executionRecord := if decide (xr_TaskID x = t) then r else x.

Lemma update_execution_lookup s t r r' : exec_inv s -> xs_byTaskID s !! t = Some r -> execution_life r r' ->
  (forall ref, xs_byInvocation (update_execution t r' s) !! ref = replaced t r' <$> xs_byInvocation s !! ref) /\
  (forall u, xs_byTaskID (update_execution t r' s) !! u = replaced t r' <$> xs_byTaskID s !! u).
Proof.
  intros [Hl Ht Hf] Hr Hlife. destruct (life_identity _ _ Hlife) as (E1 & _). destruct (Ht _ _ Hr) as (T1 & _ & _ & latest & T4 & _). split.
  - intros ref. unfold update_execution, replaced. simpl. rewrite E1, T4.
    assert (forall x, xs_byInvocation s !! ref = Some x -> xr_TaskID x = t -> ref = xr_InvocationRef r /\ xr_TaskID latest = t) as Hx.
    { intros x Hx Hid. destruct (Hl _ _ Hx) as [H1 H2]. assert (x = r) as -> by congruence. rewrite <- H1. split; [done|]. congruence. }
    case_bool_decide as Hb; [destruct (decide (ref = xr_InvocationRef r)) as [->|Hn]|].
    + rewrite lookup_insert_eq, T4. simpl. by rewrite decide_True.
    + rewrite lookup_insert_ne by done. destruct (xs_byInvocation s !! ref) as [x|] eqn:Hxr; [|done]. simpl. rewrite decide_False; [done|]. intros Hid.
      by destruct (Hx x eq_refl Hid).
    + destruct (xs_byInvocation s !! ref) as [x|] eqn:Hxr; [|done]. simpl. rewrite decide_False; [done|]. intros Hid. by destruct (Hx x eq_refl Hid).
  - intros u. unfold update_execution, replaced. simpl. destruct (decide (u = t)) as [->|Hn].
    + rewrite lookup_insert_eq, Hr. simpl. by rewrite decide_True.
    + rewrite lookup_insert_ne by done. destruct (xs_byTaskID s !! u) as [x|] eqn:Hu; [|done]. simpl. apply Ht in Hu as [Hu _]. by rewrite decide_False by congruence.
Qed.

Lemma update_execution_inv s t r r' : exec_inv s -> xs_byTaskID s !! t = Some r -> execution_life r r' -> exec_inv (update_execution t r' s).
Proof.
  intros Hinv Hr Hlife. destruct (update_execution_lookup _ _ _ _ Hinv Hr Hlife) as [HI HT]. destruct Hinv as [Hl Ht Hf].
  destruct (life_identity _ _ Hlife) as (E1 & E2 & E3 & E4 & E5).
  assert (forall x u, xs_byTaskID s !! u = Some x -> xr_TaskID (replaced t r' x) = xr_TaskID x /\ xr_InvocationRef (replaced t r' x) = xr_InvocationRef x /\
    xr_Attempt (replaced t r' x) = xr_Attempt x /\ xr_Fingerprint (replaced t r' x) = xr_Fingerprint x /\
    (xr_State x = executionTerminated -> replaced t r' x = x)) as Hrep.
  { intros x u Hx. unfold replaced. case_decide as Hd; [|done]. assert (x = r) as -> by (apply Ht in Hx as Hx2; destruct Hx2 as [H2 _]; congruence).
    unfold xr_TaskID. rewrite E3. done. }
  split.
  - intros ref x. rewrite HI. intros (y & Hy & ->)%fmap_Some. destruct (Hl _ _ Hy) as [L1 L2]. destruct (Hrep _ _ L2) as (R1 & R2 & _).
    rewrite R2, R1, HT, L2. done.
  - intros u x. rewrite HT. intros (y & Hy & ->)%fmap_Some. destruct (Hrep _ _ Hy) as (R1 & R2 & R3 & R4 & R5). rewrite R1, R2, R3, R4.
    destruct (Ht _ _ Hy) as (T1 & T2 & T3 & latest & T4 & T5 & T6 & T7). split_and!; [done|done|lia|lia|]. exists (replaced t r' latest). rewrite HI, T4.
    destruct (Hl _ _ T4) as [_ L2]. destruct (Hrep _ _ L2) as (_ & _ & S3 & S4 & _). rewrite S3, S4. split_and!; [done|done|done|]. intros Hlt.
    destruct (T7 Hlt) as [Hs Hm]. by rewrite R5.
  - intros ref x. rewrite HI, HT. intros (y & Hy & ->)%fmap_Some. apply fmap_is_Some. by eapply Hf.
Qed.

Lemma reserveAttempt_inv s ref fingerprint execution attempt taken : exec_inv s ->
  (forall r, xs_byTaskID s !! attemptedTaskID hashHex ref attempt = Some r -> taken r = true) ->
  (xs_byTaskID s !! attemptedTaskID hashHex ref attempt = None -> (1 <= attempt <= int_max)%Z /\
   match xs_byInvocation s !! ref with
   | Some old => (attempt = xr_Attempt old + 1)%Z /\ fingerprint = xr_Fingerprint old /\ xr_State old = executionTerminated /\ xr_TerminationMode old = TerminateReleaseWait
   | None => attempt = 1%Z
   end) -> exec_inv (reserveAttempt hashHex ref fingerprint execution attempt taken s).2.
Proof.
  intros Hinv Htaken Hnew. unfold reserveAttempt, mbind, M_bind, lift, get_state. case_bool_decide; [done|]. simpl.
  destruct (xs_byTaskID s !! attemptedTaskID hashHex ref attempt) as [r|] eqn:Ht; [by rewrite (Htaken _ eq_refl)|]. simpl.
  destruct (Hnew eq_refl) as [Ha Hold]. by apply put_execution_inv.
Qed.

Lemma Reserve_inv s ctx ref fingerprint execution : exec_inv s -> exec_inv (Reserve hashHex ctx ref fingerprint execution s).2.
Proof.
  intros Hinv. unfold Reserve. unfold mbind at 1, M_bind at 1, lift at 1. destruct (ctx_Err ctx); [|done]. simpl. unfold mbind at 1, M_bind at 1, get_state at 1.
  destruct (xs_byInvocation s !! ref) as [old|] eqn:Ho.
  - unfold mbind, M_bind, lift. case_bool_decide as Hfp; [done|]. simpl. destruct (_ || _) eqn:Hor; [done|].
    apply orb_false_iff in Hor as [Hs Hm]. apply bool_decide_eq_false_1, dec_stable in Hs. apply bool_decide_eq_false_1, dec_stable in Hm.
    apply reserveAttempt_inv; [done|done|]. rewrite Ho. intros Hfree. destruct (xi_latest _ Hinv _ _ Ho) as [L1 L2].
    destruct (xi_task _ Hinv _ _ L2) as (_ & _ & [A1 A2] & _). destruct (decide (xr_Attempt old = int_max)) as [Hmax|Hmax].
    + exfalso. destruct (xi_first _ Hinv _ _ Ho) as [r1 Hr1]. rewrite Hmax in Hfree. change (int_wrap (int_max + 1)) with int_min in Hfree.
      unfold attemptedTaskID in *. simpl in *. congruence.
    + rewrite int_wrap_id by (unfold is_int, int_min, int_max in *; lia). split; [lia|]. split_and!; [done|congruence|done|done].
  - apply reserveAttempt_inv; [done| |by rewrite Ho]. intros r Hr. apply bool_decide_eq_true_2. intros Heq. destruct (xi_task _ Hinv _ _ Hr) as (_ & _ & _ & latest & Hlat & _).
    congruence.
Qed.

(** The marks move the record of one task along its life. *)
Lemma MarkDispatched_life ctx t s : (MarkDispatched ctx t s).2 = s \/
  exists r, xs_byTaskID s !! t = Some r /\ execution_life r (xr_set executionDispatched (xr_TerminationMode r) r) /\
    (MarkDispatched ctx t s).2 = update_execution t (xr_set executionDispatched (xr_TerminationMode r) r) s.
Proof.
  unfold MarkDispatched, mbind, M_bind, lift, get_state, modify. destruct (ctx_Err ctx); [|by left]. simpl. destruct (xs_byTaskID s !! t) as [r|]; [|by left].
  case_bool_decide; [by left|]. simpl. case_bool_decide; [by left|]. right. exists r. split_and!; [done|by constructor|done].
Qed.

Lemma MarkTerminated_life ctx t mode s : (MarkTerminated ctx t mode s).2 = s \/
  exists r, xs_byTaskID s !! t = Some r /\ execution_life r (xr_set executionTerminated mode r) /\
    (MarkTerminated ctx t mode s).2 = update_execution t (xr_set executionTerminated mode r) s.
Proof.
  unfold MarkTerminated, mbind, M_bind, lift, get_state, modify. destruct (ctx_Err ctx); [|by left]. simpl. destruct (xs_byTaskID s !! t) as [r|]; [|by left].
  case_bool_decide; [by left|]. right. exists r. split_and!; [done|by constructor|done].
Qed.

Lemma execution_step_inv s s' : execution_step s s' -> exec_inv s -> exec_inv s'.
Proof.
  destruct 1 as [ctx ref fp e|ctx t|ctx t mode]; intros Hinv; [by apply Reserve_inv| |].
  - destruct (MarkDispatched_life ctx t s) as [->|(r & Hr & Hlife & ->)]; [done|by eapply update_execution_inv].
  - destruct (MarkTerminated_life ctx t mode s) as [->|(r & Hr & Hlife & ->)]; [done|by eapply update_execution_inv].
Qed.

Lemma reserveAttempt_frame s ref fingerprint execution attempt taken t r :
  (forall r, xs_byTaskID s !! attemptedTaskID hashHex ref attempt = Some r -> taken r = true) ->
  xs_byTaskID s !! t = Some r -> xs_byTaskID (reserveAttempt hashHex ref fingerprint execution attempt taken s).2 !! t = Some r.
Proof.
  intros Htaken Hr. unfold reserveAttempt, mbind, M_bind, lift, get_state. case_bool_decide; [done|]. simpl.
  destruct (xs_byTaskID s !! attemptedTaskID hashHex ref attempt) as [x|] eqn:Ht; [by rewrite (Htaken _ eq_refl)|]. simpl. unfold xr_TaskID. simpl.
  rewrite lookup_insert_ne; [done|]. congruence.
Qed.

Lemma Reserve_frame s ctx ref fingerprint execution t r : exec_inv s -> xs_byTaskID s !! t = Some r ->
  xs_byTaskID (Reserve hashHex ctx ref fingerprint execution s).2 !! t = Some r.
Proof.
  intros Hinv Hr. unfold Reserve. unfold mbind at 1, M_bind at 1, lift at 1. destruct (ctx_Err ctx); [|done]. simpl. unfold mbind at 1, M_bind at 1, get_state at 1.
  destruct (xs_byInvocation s !! ref) as [old|] eqn:Ho.
  - unfold mbind, M_bind, lift. case_bool_decide as Hfp; [done|]. simpl. destruct (_ || _); [done|]. by apply reserveAttempt_frame.
  - apply reserveAttempt_frame; [|done]. intros x Hx. apply bool_decide_eq_true_2. intros Heq. destruct (xi_task _ Hinv _ _ Hx) as (_ & _ & _ & latest & Hlat & _). congruence.
Qed.

Lemma update_execution_life s t r r' u x : exec_inv s -> xs_byTaskID s !! t = Some r -> execution_life r r' -> xs_byTaskID s !! u = Some x ->
  exists x', xs_byTaskID (update_execution t r' s) !! u = Some x' /\ execution_life x x'.
Proof.
  intros Hinv Hr Hlife Hx. destruct (update_execution_lookup _ _ _ _ Hinv Hr Hlife) as [_ HT]. rewrite HT, Hx. simpl. eexists. split; [done|].
  unfold replaced. case_decide as Hd; [|constructor]. destruct (xi_task _ Hinv _ _ Hx) as [Hu _]. assert (x = r) as -> by congruence. done.
Qed.

Lemma execution_step_life s s' t r : execution_step s s' -> exec_inv s -> xs_byTaskID s !! t = Some r ->
  exists r', xs_byTaskID s' !! t = Some r' /\ execution_life r r'.
Proof.
  destruct 1 as [ctx ref fp e|ctx u|ctx u mode]; intros Hinv Hr.
  - exists r. split; [by apply Reserve_frame|constructor].
  - destruct (MarkDispatched_life ctx u s) as [->|(x & Hx & Hlife & ->)]; [exists r; split; [done|constructor]|by eapply update_execution_life].
  - destruct (MarkTerminated_life ctx u mode s) as [->|(x & Hx & Hlife & ->)]; [exists r; split; [done|constructor]|by eapply update_execution_life].
Qed.

Definition execution_reach (s : ExecutionStore) : Prop := rtc execution_step NewMemoryExecutionStore s.

Lemma execution_reach_inv s : execution_reach s -> exec_inv s.
Proof.
  unfold execution_reach. generalize exec_inv_new. generalize NewMemoryExecutionStore. intros s0 H0 Hr. revert H0.
  induction Hr as [|x y z Hst _ IH]; [done|]. intros Hx. by eapply IH, execution_step_inv.
Qed.

Lemma latest_of_attempt s t r latest : exec_inv s -> xs_byTaskID s !! t = Some r -> xs_byInvocation s !! xr_InvocationRef r = Some latest ->
  (xr_State r <> executionTerminated \/ xr_TerminationMode r <> TerminateReleaseWait) -> latest = r.
Proof.
  intros Hinv Hr Hlat Hlive. destruct (xi_task _ Hinv _ _ Hr) as (T1 & T2 & T3 & latest' & T4 & T5 & _ & T7). rewrite Hlat in T4. injection T4 as <-.
  destruct (xi_latest _ Hinv _ _ Hlat) as [L1 L2]. destruct (xi_task _ Hinv _ _ L2) as (_ & U2 & _).
  destruct (decide (xr_Attempt r < xr_Attempt latest)%Z) as [Hlt|Hge]; [destruct (T7 Hlt); naive_solver|].
  rewrite T2 in Hr. rewrite U2, L1 in L2. replace (xr_Attempt latest) with (xr_Attempt r) in L2 by lia. congruence.
Qed.

(** C16: An invocation has at most one execution that may hold a host: whatever calls
    the execution store has served, two attempts of the same invocation that are not
    terminated are the same attempt; an attempt that was canceled or stopped is the
    last one, and no call reserves another; and every attempt has a task id of its
    own, made from the invocation and the number of the attempt. *)
Theorem executions_exclusive s t r : execution_reach s -> xs_byTaskID s !! t = Some r ->
  t = attemptedTaskID hashHex (xr_InvocationRef r) (xr_Attempt r) /\
  (xr_State r <> executionTerminated -> forall t' r', xs_byTaskID s !! t' = Some r' -> xr_InvocationRef r' = xr_InvocationRef r ->
     xr_State r' <> executionTerminated -> t' = t) /\
  (xr_State r = executionTerminated -> xr_TerminationMode r <> TerminateReleaseWait ->
     xs_byInvocation s !! xr_InvocationRef r = Some r /\
     forall ctx fingerprint execution, (Reserve hashHex ctx (xr_InvocationRef r) fingerprint execution s).2 = s /\
       forall r', (Reserve hashHex ctx (xr_InvocationRef r) fingerprint execution s).1 <> Ok (r', true)).
Proof.
  intros Hinv%execution_reach_inv Hr. destruct (xi_task _ Hinv _ _ Hr) as (T1 & T2 & _ & latest & T4 & _). split_and!; [done| |].
  - intros Hlive t' r' Hr' Href Hlive'. assert (latest = r) as -> by (eapply latest_of_attempt; eauto). rewrite <- Href in T4.
    assert (r = r') as -> by (by eapply latest_of_attempt; eauto). destruct (xi_task _ Hinv _ _ Hr') as [<- _]. done.
  - intros Hs Hm. assert (latest = r) as -> by (eapply latest_of_attempt; eauto). split; [done|]. intros ctx fingerprint execution.
    unfold Reserve, mbind, M_bind, lift, get_state. destruct (ctx_Err ctx); [|done]. simpl. rewrite T4. case_bool_decide; [done|]. simpl.
    by rewrite (bool_decide_eq_true_2 (xr_TerminationMode r <> TerminateReleaseWait)), orb_true_r.
Qed.

(** An attempt keeps what identifies it and moves only forward: after any further
    calls its invocation, number, execution reference and fingerprint are the same,
    it goes from reserved to dispatched to terminated, and once terminated it never
    changes. *)
Theorem execution_moves_forward s s' t r : execution_reach s -> rtc execution_step s s' -> xs_byTaskID s !! t = Some r ->
  exists r', xs_byTaskID s' !! t = Some r' /\ rtc execution_life r r' /\
    xr_InvocationRef r' = xr_InvocationRef r /\ xr_Attempt r' = xr_Attempt r /\ xr_Execution r' = xr_Execution r /\ xr_Fingerprint r' = xr_Fingerprint r /\
    (xr_State r = executionTerminated -> r' = r).
Proof.
  intros Hinv%execution_reach_inv Hst. revert r Hinv. induction Hst as [|s s1 s2 Hs _ IH]; intros r Hinv Hr; [exists r; by split_and!|].
  destruct (execution_step_life _ _ _ _ Hs Hinv Hr) as (r1 & Hr1 & Hlife). apply execution_step_inv in Hs; [|done].
  destruct (IH r1 Hs Hr1) as (r2 & Hr2 & Hrtc & E1 & E2 & E3 & E4 & E5). destruct (life_identity _ _ Hlife) as (F1 & F2 & F3 & F4 & F5).
  exists r2. split_and!; [done|by eapply rtc_l|congruence..|]. intros Hterm. specialize (F5 Hterm) as ->. by apply E5.
Qed.

End executions.

(** ** Calls of the adapter *)

(** [e] is the execution of a record that the call has read or made. *)
Definition own (t : list AdapterCall) (e : AgentTeamsExecutionRef) : Prop := exists r, (Found r ∈ t \/ Reserved r ∈ t) /\ xr_Execution r = e.

(** The reasons to close execution [e]: its credential was revoked; the revocation
    failed and its host was stopped; the revocation failed, the host was told to stop,
    and the provider took the slot back; it was only reserved and there was nothing to
    revoke; or it was reserved in this call and its host was never prepared. *)
Inductive closed (t : list AdapterCall) (e : AgentTeamsExecutionRef) : Prop :=
| closed_revoked : Revoked (ex_HostRef e) (ex_InvocationID e) (Ok tt) ∈ t -> closed t e
| closed_stopped err : Revoked (ex_HostRef e) (ex_InvocationID e) (Err err) ∈ t -> ForceStopped (ex_HostRef e) (Ok tt) ∈ t -> closed t e
| closed_released err answer : Revoked (ex_HostRef e) (ex_InvocationID e) (Err err) ∈ t -> ForceStopped (ex_HostRef e) answer ∈ t ->
    Released (ex_AgentTeamsTaskID e) (ex_HostRef e) (Ok tt) ∈ t -> closed t e
| closed_absent err r : Revoked (ex_HostRef e) (ex_InvocationID e) (Err err) ∈ t -> IsCode (Some err) CodeNotFound = true ->
    Found r ∈ t -> xr_Execution r = e -> xr_State r = executionReserved -> closed t e
| closed_unprepared r : Reserved r ∈ t -> xr_Execution r = e -> (forall p, HostPrepared p ∉ t) -> closed t e.

(** The authority of [e] was taken away as far as the provider let it. *)
Definition fenced (t : list AdapterCall) (e : AgentTeamsExecutionRef) : Prop :=
  Revoked (ex_HostRef e) (ex_InvocationID e) (Ok tt) ∈ t \/
  exists err answer, Revoked (ex_HostRef e) (ex_InvocationID e) (Err err) ∈ t /\ ForceStopped (ex_HostRef e) answer ∈ t.

(** What is recorded before [x] in a call: each one is about an execution of the call's
    own. *)
Definition call_backed (t : list AdapterCall) (x : AdapterCall) : Prop :=
  match x with
  | FilesPrepared e => own t e
  | HostPrepared p => exists prepared e, p = preparationOf prepared e /\ own t e /\ FilesPrepared e ∈ t
  | Delegated request _ => exists prepared e, request = delegationOf prepared e /\ own t e /\ FilesPrepared e ∈ t /\ HostPrepared (preparationOf prepared e) ∈ t
  | Dispatched task => exists prepared e answer, task = ex_AgentTeamsTaskID e /\ own t e /\ Delegated (delegationOf prepared e) (Ok answer) ∈ t /\
      ts_TaskID answer = ex_AgentTeamsTaskID e /\ ts_HostRef answer = ex_HostRef e
  | Revoked host invocation _ => exists e, host = ex_HostRef e /\ invocation = ex_InvocationID e /\ own t e
  | ForceStopped host _ => exists e err, host = ex_HostRef e /\ own t e /\ Revoked (ex_HostRef e) (ex_InvocationID e) (Err err) ∈ t
  | Canceled task _ => exists e, task = ex_AgentTeamsTaskID e /\ own t e /\ Revoked (ex_HostRef e) (ex_InvocationID e) (Ok tt) ∈ t
  | Released task host _ => exists e, task = ex_AgentTeamsTaskID e /\ host = ex_HostRef e /\ own t e /\ fenced t e
  | Terminated task _ => exists e, task = ex_AgentTeamsTaskID e /\ own t e /\ closed t e
  | _ => True
  end.

Lemma own_app t t' e : own t e -> own (t ++ t') e.
Proof. intros (r & Hr & He). exists r. rewrite !elem_of_app. naive_solver. Qed.

Lemma own_found t r : own (t ++ [Found r]) (xr_Execution r).
Proof. exists r. split; [left; apply elem_snoc|done]. Qed.

Local Abbreviation ok := (trace_ok call_backed).

Section adapter.
Context `{GR : GoRuntime} {C : Type}.
Context (hashHex : string -> string) (encodePrepared : PreparedInvocation -> string).
Context (encodeObservation : string -> string -> string -> string -> list (string * string) -> Time -> string).
Context (ToLower : string -> string) (EqualFold : string -> string -> bool).
Local Abbreviation W := (ExecutionStore * C)%type.
Context (client : Client W) (files : FileTransport W) (source : string -> M error W PreparedInvocation).
Context (now : M error W Time) (cancelled cleanupCancelled : C -> Context).
Context (heartbeatMaxAge : Z).
Local Abbreviation A := (Adapter C).

(** *** Rules *)

Section rules.
Context (t0 : list AdapterCall).

(** The calls recorded so far are [new]. *)
Definition at_new (new : list AdapterCall) (w : A) : Prop := ad_trace w = t0 ++ new.

Definition finished {X} (_ : res X) (w : A) : Prop := exists new, at_new new w /\ ok new.

Lemma at_finished {X} (r : res X) new w : at_new new w -> ok new -> finished r w.
Proof. intros Hw Hok. by exists new. Qed.

Lemma wp_adapter_call {X} (what : res X -> list AdapterCall) (m : M error W X) (Q : res X -> A -> Prop) new w : at_new new w ->
  (forall r w', at_new (new ++ what r) w' -> Q r w') -> wp (calling what m) Q w.
Proof.
  intros Hw HQ. unfold wp, calling. destruct (m _) as [r [s' c']]. simpl. apply HQ. unfold at_new in *. simpl. by rewrite Hw, app_assoc.
Qed.

Lemma wp_silently {X} (m : M error W X) (Q : res X -> A -> Prop) new w : at_new new w -> (forall r w', at_new new w' -> Q r w') -> wp (silently m) Q w.
Proof. intros Hw HQ. eapply wp_adapter_call; [done|]. intros r w' Hw'. rewrite app_nil_r in Hw'. by apply HQ. Qed.

Lemma wp_storing {X} ctx (what : X -> list AdapterCall) (m : Context -> M error ExecutionStore X) (Q : res X -> A -> Prop) new w : at_new new w ->
  (forall e w', at_new new w' -> Q (Err e) w') -> (forall x w', at_new (new ++ what x) w' -> Q (Ok x) w') -> wp (storing ctx what m) Q w.
Proof.
  intros Hw He Ha. unfold wp, storing. destruct (m _ _) as [[x|e] s']; simpl.
  - apply Ha. unfold at_new in *. simpl. by rewrite Hw, app_assoc.
  - apply He. unfold at_new in *. simpl. by rewrite app_nil_r.
Qed.

Lemma wp_failure {X} (m : M error A X) (Q : res (option error) -> A -> Prop) w :
  wp m (fun r w' => Q (Ok (match r with Ok _ => None | Err e => Some e end)) w') w -> wp (failure m) Q w.
Proof. intros Hm. apply wp_catch, wp_bind. eapply wp_mono; [exact Hm|]. intros [x|e] w' HQ; done. Qed.

(** A call that leaves a finished trace whatever it answers. *)
Lemma wp_finished_bind {X Y} (m : M error A X) (k : X -> M error A Y) w : wp m finished w ->
  (forall x w', finished (Ok x) w' -> wp (k x) finished w') -> wp (m ≫= k) finished w.
Proof. intros Hm Hk. apply wp_bind. eapply wp_mono; [exact Hm|]. intros [x|e] w' Hw'; [by apply Hk|exact Hw']. Qed.

Lemma wp_markTerminated ctx e mode new w (Q : res unit -> A -> Prop) : at_new new w -> ok new -> own new e -> closed new e ->
  (forall r new' w', at_new new' w' -> ok new' -> Q r w') -> wp (markTerminated ctx (ex_AgentTeamsTaskID e) mode) Q w.
Proof.
  intros Hw Hok Ho Hc HQ. eapply wp_storing; [done| |].
  - intros err w' Hw'. by eapply HQ.
  - intros [] w' Hw'. eapply HQ; [done|]. apply trace_ok_snoc; [done|]. by exists e.
Qed.

Lemma wp_releaseSlot e new w (Q : res unit -> A -> Prop) : at_new new w -> ok new -> own new e -> fenced new e ->
  (forall r w', at_new (new ++ [Released (ex_AgentTeamsTaskID e) (ex_HostRef e) r]) w' -> ok (new ++ [Released (ex_AgentTeamsTaskID e) (ex_HostRef e) r]) -> Q r w') ->
  wp (releaseSlot client e) Q w.
Proof. intros Hw Hok Ho Hf HQ. eapply wp_adapter_call; [done|]. intros r w' Hw'. apply HQ; [done|]. apply trace_ok_snoc; [done|]. by exists e. Qed.

(** *** Termination *)

Lemma wp_terminateUnrevoked ctx e mode reserved err new w : at_new new w -> ok new -> own new e -> Revoked (ex_HostRef e) (ex_InvocationID e) (Err err) ∈ new ->
  (reserved = true -> exists r, Found r ∈ new /\ xr_Execution r = e /\ xr_State r = executionReserved) ->
  wp (terminateUnrevoked client ctx e mode reserved err) finished w.
Proof.
  intros Hw Hok Ho Hr Hres. unfold terminateUnrevoked. destruct (reserved && IsCode (Some err) CodeNotFound) eqn:Habs.
  { apply andb_true_iff in Habs as [(r & Hf & He & Hst)%Hres Habs]. eapply wp_markTerminated; [done|done|done|by eapply closed_absent|]. intros. by eapply at_finished. }
  apply wp_bind, wp_failure. eapply wp_adapter_call; [done|]. intros forced w1 Hw1.
  assert (ok (new ++ [ForceStopped (ex_HostRef e) forced])) as Hok1 by (apply trace_ok_snoc; [done|]; by exists e, err).
  apply wp_bind, wp_failure. eapply wp_releaseSlot; [done|done|by apply own_app|right; exists err, forced; split; [by apply elem_kept|apply elem_snoc]|]. intros released w2 Hw2 Hok2.
  destruct (if reserved && _ && _ then None else _) as [e'|] eqn:Hrel; [by eapply at_finished|].
  eapply wp_markTerminated; [done|done|by do 2 apply own_app| |intros; by eapply at_finished]. destruct released as [[]|rerr].
  - eapply (closed_released _ _ err forced); [by do 2 apply elem_kept|apply elem_kept, elem_snoc|apply elem_snoc].
  - eapply (closed_stopped _ _ err); [by do 2 apply elem_kept|]. apply elem_kept. destruct forced as [[]|ferr]; [apply elem_snoc|]. exfalso. simpl in Hrel. rewrite andb_false_r in Hrel. done.
Qed.

Lemma wp_terminateChecked ctx e mode reserved check new w : at_new new w -> ok new -> own new e -> Revoked (ex_HostRef e) (ex_InvocationID e) (Ok tt) ∈ new ->
  wp (terminateChecked ToLower client ctx e mode reserved check) finished w.
Proof.
  intros Hw Hok Ho Hr. unfold terminateChecked. destruct (reserved && _).
  - apply wp_bind, wp_failure. eapply wp_releaseSlot; [done|done|done|by left|]. intros released w2 Hw2 Hok2. apply wp_bind, wp_failure.
    eapply wp_markTerminated; [done|done|by apply own_app|by apply closed_revoked, elem_kept|]. intros marked new3 w3 Hw3 Hok3. by eapply at_finished.
  - assert (forall new2 w2, at_new new2 w2 -> ok new2 -> own new2 e -> Revoked (ex_HostRef e) (ex_InvocationID e) (Ok tt) ∈ new2 ->
      wp (_ ← releaseSlot client e; markTerminated ctx (ex_AgentTeamsTaskID e) mode) finished w2) as Hend.
    { intros new2 w2 Hw2 Hok2 Ho2 Hr2. apply wp_bind. eapply wp_releaseSlot; [done|done|done|by left|]. intros [[]|rerr] w3 Hw3 Hok3; [|by eapply at_finished].
      eapply wp_markTerminated; [done|done|by apply own_app|by apply closed_revoked, elem_kept|]. intros. by eapply at_finished. }
    apply wp_bind. destruct (negb _ && _); [|by eapply Hend]. apply wp_bind, wp_failure. eapply wp_adapter_call; [done|]. intros [[]|cerr] w2 Hw2.
    + apply wp_ret. eapply Hend; [done| |by apply own_app|by apply elem_kept]. apply trace_ok_snoc; [done|]. by exists e.
    + rewrite app_nil_r in Hw2. by eapply at_finished.
Qed.

Lemma wp_terminateRevoked ctx e mode reserved new w : at_new new w -> ok new -> own new e -> Revoked (ex_HostRef e) (ex_InvocationID e) (Ok tt) ∈ new ->
  wp (terminateRevoked ToLower client ctx e mode reserved) finished w.
Proof.
  intros Hw Hok Ho Hr. unfold terminateRevoked. apply wp_bind, wp_catch, wp_bind. eapply wp_adapter_call; [done|]. intros check w1 Hw1.
  destruct check as [check|cerr]; (eapply wp_terminateChecked; [done|by apply trace_ok_snoc|by apply own_app|by apply elem_kept]).
Qed.

Lemma wp_ownRecord ctx e new w (Q : res executionRecord -> A -> Prop) : at_new new w -> ok new ->
  (forall err new' w', at_new new' w' -> ok new' -> Q (Err err) w') ->
  (forall r w', at_new (new ++ [Found r]) w' -> ok (new ++ [Found r]) -> xr_Execution r = e -> Q (Ok r) w') -> wp (ownRecord ctx e) Q w.
Proof.
  intros Hw Hok He Ha. unfold ownRecord. apply wp_bind. eapply wp_storing; [done|intros; by eapply He|]. intros [r|] w1 Hw1; simpl in Hw1.
  - assert (ok (new ++ [Found r])) as Hok1 by (by apply trace_ok_snoc). apply wp_guard; [intros; by eapply He|].
    intros ? Hne%fail_if_Ok. apply bool_decide_eq_false_1, dec_stable in Hne. by apply Ha.
  - rewrite app_nil_r in Hw1. by eapply He.
Qed.

Lemma wp_TerminateIn ctx e mode new w : at_new new w -> ok new -> wp (TerminateIn ToLower client ctx e mode) finished w.
Proof.
  intros Hw Hok. unfold TerminateIn. apply wp_guard; [intros; by eapply at_finished|]. intros ? _. apply wp_bind. eapply wp_ownRecord; [done|done|intros; by eapply at_finished|].
  intros r w1 Hw1 Hok1 He. assert (own (new ++ [Found r]) e) as Ho by (rewrite <- He; apply own_found). case_bool_decide; [by eapply at_finished|].
  apply wp_bind, wp_failure. eapply wp_adapter_call; [done|]. intros revoked w2 Hw2.
  assert (ok ((new ++ [Found r]) ++ [Revoked (ex_HostRef e) (ex_InvocationID e) revoked])) as Hok2 by (apply trace_ok_snoc; [done|]; by exists e). destruct revoked as [[]|rerr].
  - eapply wp_terminateRevoked; [done|done|by apply own_app|apply elem_snoc].
  - eapply wp_terminateUnrevoked; [done|done|by apply own_app|apply elem_snoc|]. intros Hst%bool_decide_eq_true_1. exists r. split_and!; [apply elem_kept, elem_snoc|done|done].
Qed.

Lemma wp_fenceAndRelease e new w : at_new new w -> ok new -> own new e -> wp (fenceAndRelease client e) finished w.
Proof.
  intros Hw Hok Ho. unfold fenceAndRelease. apply wp_bind, wp_failure. eapply wp_adapter_call; [done|]. intros revoked w1 Hw1.
  assert (ok (new ++ [Revoked (ex_HostRef e) (ex_InvocationID e) revoked])) as Hok1 by (apply trace_ok_snoc; [done|]; by exists e).
  assert (own (new ++ [Revoked (ex_HostRef e) (ex_InvocationID e) revoked]) e) as Ho1 by (by apply own_app). apply wp_bind. destruct revoked as [[]|rerr].
  - eapply wp_releaseSlot; [done|done|done|left; apply elem_snoc|]. intros. by eapply at_finished.
  - apply wp_bind, wp_failure. eapply wp_adapter_call; [done|]. intros forced w2 Hw2. set (new1 := new ++ _) in *. set (new2 := new1 ++ [ForceStopped (ex_HostRef e) forced]) in *.
    assert (ok new2) as Hok2 by (apply trace_ok_snoc; [done|]; exists e, rerr; split_and!; [done|done|apply elem_snoc]). destruct forced as [[]|ferr]; [|by eapply at_finished].
    eapply wp_releaseSlot; [done|done|by apply own_app|right; eexists rerr, _; split; [apply elem_kept, elem_snoc|apply elem_snoc]|]. intros. by eapply at_finished.
Qed.

(** *** Dispatch *)

Lemma wp_selectHost prepared new w (Q : res HostStatus -> A -> Prop) : at_new new w -> (forall r w', at_new new w' -> Q r w') ->
  wp (selectHost ToLower EqualFold client now heartbeatMaxAge prepared) Q w.
Proof.
  intros Hw HQ. unfold selectHost. apply wp_bind. eapply wp_silently; [done|]. intros [hosts|e] w1 Hw1; [|by apply HQ]. apply wp_guard; [intros; by apply HQ|].
  intros kind _. apply wp_bind. eapply wp_silently; [done|]. intros [t|e] w2 Hw2; [|by apply HQ]. destruct (sort_slice _ _); by apply HQ.
Qed.

(** A reservation records the record that it found or made. *)
Lemma wp_reservation ref fingerprint prepared w (Q : res (executionRecord * bool) -> A -> Prop) : at_new [] w ->
  (forall e new w', at_new new w' -> ok new -> Q (Err e) w') ->
  (forall (r : executionRecord) (mine : bool) new w', at_new new w' -> ok new -> own new (xr_Execution r) -> (mine = true -> Reserved r ∈ new) ->
     (forall p, HostPrepared p ∉ new) -> Q (Ok (r, mine)) w') ->
  wp (reservation hashHex ToLower EqualFold client now cancelled heartbeatMaxAge ref fingerprint prepared) Q w.
Proof.
  intros Hw He Ha. pose proof (trace_ok_nil call_backed) as Hnil.
  assert (forall new w, at_new new w -> ok new -> (forall p, HostPrepared p ∉ new) ->
    wp (reserveOnHost hashHex ToLower EqualFold client now cancelled heartbeatMaxAge ref fingerprint prepared) Q w) as Hnew.
  { intros new w0 Hw0 Hok Hp. unfold reserveOnHost. apply wp_bind. eapply wp_selectHost; [done|]. intros [host|e] w1 Hw1; [|by eapply He].
    eapply wp_storing; [done|intros; by eapply He|]. intros [r mine] w2 Hw2. destruct mine; simpl in Hw2.
    - eapply Ha; [done|by apply trace_ok_snoc| |intros _; apply elem_snoc|set_solver]. exists r. split; [right; apply elem_snoc|done].
    - eapply Ha; [done|by apply trace_ok_snoc|apply own_found|done|set_solver]. }
  unfold reservation. apply wp_bind. eapply wp_storing; [done|intros; by eapply He|]. intros found w1 Hw1. simpl in Hw1. destruct found as [r|]; [|eapply Hnew; [done|done|set_solver]].
  simpl in Hw1. assert (ok [Found r]) as Hok1 by (by apply (trace_ok_snoc _ [])). apply wp_guard; [intros; by eapply He|]. intros ? _.
  case_bool_decide; [|eapply Ha; [done|done|apply (own_found [])|done|set_solver]]. apply wp_guard; [intros; by eapply He|]. intros ? _. eapply Hnew; [done|done|set_solver].
Qed.

Lemma wp_with_cleanup err cleanup w : wp cleanup finished w -> wp (with_cleanup err cleanup) finished w.
Proof. intros Hc. unfold with_cleanup. apply wp_bind, wp_failure. eapply wp_mono; [exact Hc|]. intros r w' Hw'. exact Hw'. Qed.

Lemma wp_delegateTo prepared e new w : at_new new w -> ok new -> own new e -> FilesPrepared e ∈ new -> HostPrepared (preparationOf prepared e) ∈ new ->
  wp (delegateTo client cancelled prepared e) finished w.
Proof.
  intros Hw Hok Ho Hf Hh. unfold delegateTo. apply wp_bind. eapply wp_adapter_call; [done|]. intros answer w1 Hw1.
  assert (ok (new ++ [Delegated (delegationOf prepared e) answer])) as Hok1 by (apply trace_ok_snoc; [done|]; by exists prepared, e).
  destruct answer as [task|err]; [|by eapply at_finished]. destruct (_ || _) eqn:Hid; [by eapply wp_with_cleanup, wp_fenceAndRelease; [..|apply own_app]|].
  apply orb_false_iff in Hid as [H1 H2]. apply bool_decide_eq_false_1, dec_stable in H1. apply bool_decide_eq_false_1, dec_stable in H2.
  apply wp_bind. eapply wp_storing; [done|intros; by eapply at_finished|]. intros [] w2 Hw2. eapply at_finished; [done|]. apply trace_ok_snoc; [done|].
  exists prepared, e, task. split_and!; [done|by apply own_app|apply elem_snoc|done|done].
Qed.

Lemma wp_prepareAndDelegate prepared (r : executionRecord) (mine : bool) new w : at_new new w -> ok new -> own new (xr_Execution r) ->
  (mine = true -> Reserved r ∈ new) -> (forall p, HostPrepared p ∉ new) ->
  wp (prepareAndDelegate ToLower client files cancelled cleanupCancelled prepared (r, mine)) finished w.
Proof.
  intros Hw Hok Ho Hmine Hp. unfold prepareAndDelegate. simpl. apply wp_bind, wp_failure. eapply wp_adapter_call; [done|]. intros [[]|e] w1 Hw1.
  - assert (ok (new ++ [FilesPrepared (xr_Execution r)])) as Hok1 by (by apply trace_ok_snoc). apply wp_bind, wp_failure.
    assert (own (new ++ [FilesPrepared (xr_Execution r)]) (xr_Execution r)) as Ho1 by (by apply own_app).
    eapply wp_adapter_call; [done|]. intros [[]|e] w2 Hw2.
    + eapply wp_delegateTo; [done|apply trace_ok_snoc; [done|]|by apply own_app|apply elem_kept, elem_snoc|apply elem_snoc].
      exists prepared, (xr_Execution r). split_and!; [done|done|apply elem_snoc].
    + rewrite app_nil_r in Hw2. destruct mine; [|by eapply at_finished]. eapply wp_with_cleanup, wp_TerminateIn; done.
  - rewrite app_nil_r in Hw1. destruct mine; [|by eapply at_finished]. apply wp_with_cleanup. eapply wp_markTerminated; [done|done|done| |intros; by eapply at_finished].
    apply (closed_unprepared _ _ r); [by apply Hmine|done|done].
Qed.

Lemma wp_Dispatch ref w : at_new [] w ->
  wp (Dispatch hashHex encodePrepared ToLower EqualFold client files source now cancelled cleanupCancelled heartbeatMaxAge ref) finished w.
Proof.
  intros Hw. pose proof (trace_ok_nil call_backed) as Hnil. unfold Dispatch. apply wp_guard; [intros; by eapply at_finished|]. intros ? _. unfold dispatchReserved.
  apply wp_bind. eapply wp_silently; [done|]. intros [prepared|e] w1 Hw1; [|by eapply at_finished]. apply wp_guard; [intros; by eapply at_finished|]. intros ? _.
  apply wp_bind. eapply wp_reservation; [done|intros; by eapply at_finished|]. intros r mine new w2 Hw2 Hok2 Ho2 Hm2 Hp2. simpl.
  case_bool_decide; [by eapply at_finished|by eapply wp_prepareAndDelegate].
Qed.

(** *** Reads *)

Lemma wp_recovering {X} record (m : M error A X) new w : at_new new w -> ok new ->
  (forall new w, at_new new w -> ok new -> wp m finished w) -> wp (recovering client source record m) finished w.
Proof.
  intros Hw Hok Hm. unfold recovering. apply wp_catch. eapply wp_mono; [by eapply Hm|]. intros [x|err] w1 (new1 & Hw1 & Hok1); [by eapply at_finished|].
  destruct (_ && _); [|by eapply at_finished]. apply wp_bind, wp_failure. unfold recoverExecutionHost. destruct (cl_RecoverExecutionHost client); [|by eapply at_finished].
  apply wp_bind. eapply wp_silently; [done|]. intros [prepared|e] w2 Hw2; [|by eapply at_finished]. apply wp_guard; [intros; by eapply at_finished|]. intros ? _.
  eapply wp_silently; [done|]. intros [[]|e] w3 Hw3; [by eapply Hm|by eapply at_finished].
Qed.

Lemma wp_checkTask task new w : at_new new w -> ok new -> wp (checkTask client task) finished w.
Proof. intros Hw Hok. eapply wp_adapter_call; [done|]. intros r w' Hw'. eapply at_finished; [done|]. by apply trace_ok_snoc. Qed.

Lemma wp_Collect e new w : at_new new w -> ok new -> wp (Collect client files cancelled e) finished w.
Proof.
  intros Hw Hok. unfold Collect. apply wp_bind. eapply wp_ownRecord; [done|done|intros; by eapply at_finished|]. intros r w1 Hw1 Hok1 He.
  apply wp_bind. eapply wp_silently; [done|]. intros [checkpoint|err] w2 Hw2; [|by eapply at_finished].
  apply wp_bind. eapply wp_adapter_call; [done|]. intros checked w3 Hw3. set (new3 := (new ++ _) ++ _) in *. assert (ok new3) as Hok3 by (by apply trace_ok_snoc).
  destruct checked as [check|err]; [|by eapply at_finished]. apply wp_finished_bind.
  - destruct (isTerminalTaskStatus _); [|by eapply at_finished]. eapply wp_fenceAndRelease; [done|done|]. rewrite <- He. apply own_app, own_found.
  - intros [] w4 (new4 & Hw4 & Hok4). apply wp_bind. eapply wp_silently; [done|]. intros [document|err] w5 Hw5; by eapply at_finished.
Qed.

End rules.
Inductive adapter_op :=
| OpDispatch (ref : string)
| OpTerminate (e : AgentTeamsExecutionRef) (mode : string)
| OpCollect (e : AgentTeamsExecutionRef)
| OpSync (e : AgentTeamsExecutionRef)
| OpFence (e : AgentTeamsExecutionRef)
| OpTerminal (e : AgentTeamsExecutionRef)
| OpFinalize (e : AgentTeamsExecutionRef) (summary : string)
| OpActivity (e : AgentTeamsExecutionRef)
| OpObserve (cursor : string).

Definition run_adapter (op : adapter_op) (w : A) : A :=
  match op with
  | OpDispatch ref => (Dispatch hashHex encodePrepared ToLower EqualFold client files source now cancelled cleanupCancelled heartbeatMaxAge ref w).2
  | OpTerminate e mode => (Terminate ToLower client cancelled e mode w).2
  | OpCollect e => (Collect client files cancelled e w).2
  | OpSync e => (SyncExecutionWorkspace client files cancelled e w).2
  | OpFence e => (FenceExecution client cancelled e w).2
  | OpTerminal e => (ExecutionTerminal client source cancelled e w).2
  | OpFinalize e summary => (FinalizeExecution client cancelled e summary w).2
  | OpActivity e => (ExecutionActivity client source cancelled e w).2
  | OpObserve cursor => (Observe hashHex encodeObservation client cancelled cursor w).2
  end.

(** An operation that only asks its collaborators. *)
Lemma wp_asking {X} t0 (m : M error W X) new w : at_new t0 new w -> ok new -> wp (silently m) (finished t0) w.
Proof. intros Hw Hok. eapply wp_silently; [done|]. intros r w' Hw'. by eapply at_finished. Qed.

Lemma run_adapter_finished op w : exists new, ad_trace (run_adapter op w) = ad_trace w ++ new /\ ok new.
Proof.
  assert (at_new (ad_trace w) [] w) as Hw by (unfold at_new; by rewrite app_nil_r). pose proof (trace_ok_nil call_backed) as Hnil.
  assert (forall e {X} (k : executionRecord -> M error A X), (forall r new w', at_new (ad_trace w) new w' -> ok new -> wp (k r) (finished (ad_trace w)) w') ->
    wp (ownRecord cancelled e ≫= k) (finished (ad_trace w)) w) as Hown.
  { intros e X k Hk. apply wp_bind. eapply wp_ownRecord; [done|done|intros; by eapply at_finished|]. intros r w' Hw' Hok' _. by eapply Hk. }
  destruct op as [ref|e mode|e|e|e|e|e summary|e|cursor]; simpl.
  - by apply wp_Dispatch.
  - exact (wp_TerminateIn _ _ _ _ _ _ Hw Hnil).
  - exact (wp_Collect _ _ _ _ Hw Hnil).
  - apply (Hown e). intros r new1 w1 Hw1 Hok1. apply wp_guard; [intros; by eapply at_finished|]. intros ? _. destruct (cl_PushExecutionFiles client); [|by eapply at_finished].
    apply wp_bind. eapply wp_silently; [done|]. intros [[]|err] w2 Hw2; [by eapply wp_asking|by eapply at_finished].
  - apply (Hown e). intros r new1 w1 Hw1 Hok1. case_bool_decide; [by eapply at_finished|by eapply wp_asking].
  - apply (Hown e). intros r new1 w1 Hw1 Hok1. apply wp_finished_bind; [eapply wp_recovering; [done|done|]; intros; by eapply wp_checkTask|]. intros check w2 Hw2. exact Hw2.
  - apply (Hown e). intros r new1 w1 Hw1 Hok1. destruct (cl_CompleteTask client); [by eapply wp_asking|by eapply at_finished].
  - apply (Hown e). intros r new1 w1 Hw1 Hok1. destruct (cl_HostActivity client) as [activity|]; [|by eapply at_finished]. eapply wp_recovering; [done|done|].
    intros new w2 Hw2 Hok2. eapply wp_silently; [done|]. intros. by eapply at_finished.
  - change (wp (Observe hashHex encodeObservation client cancelled cursor) (finished (ad_trace w)) w). unfold Observe. apply wp_bind. eapply wp_silently; [done|]. intros [raw|err] w1 Hw1; [|by eapply at_finished].
    apply wp_bind. eapply wp_storing; [done|intros; by eapply at_finished|]. intros projected w2 Hw2. rewrite app_nil_r in Hw2. by eapply at_finished.
Qed.

(** C15: The adapter gives work to a host and takes it back in order, whatever the
    provider, the file transport, the store and calls that run in between answer.  In a
    call every step is for an execution whose record was read or reserved in that call.
    A task is delegated only after its workspace was projected and its host was
    prepared for the same execution; it is marked dispatched only when the provider
    named the task and the host it was given; it is canceled only after the credential
    of its own execution was revoked; a host is told to stop only when that revocation
    failed; a slot is given back only after the credential was revoked, or the
    revocation failed and the host was told to stop.  An execution is closed only when
    its credential was revoked, or the revocation failed and the host was stopped or
    told to stop and the provider took the slot back, or it was only reserved and there
    was nothing to revoke, or its host was never prepared. *)
Theorem adapter_calls_backed op w :
  exists new, ad_trace (run_adapter op w) = ad_trace w ++ new /\ forall t1 x t2, new = t1 ++ x :: t2 -> call_backed t1 x.
Proof. apply run_adapter_finished. Qed.

(** *** The choice of a host *)

Lemma host_less_spec a b : sorts_by host_less a b <->
  (hs_ActiveExecutions a <= hs_ActiveExecutions b)%Z /\ (hs_ActiveExecutions a = hs_ActiveExecutions b -> String.le (hs_Ref a) (hs_Ref b)).
Proof.
  rewrite (lex_asc_spec hs_ActiveExecutions (fun a b => string_lt (hs_Ref a) (hs_Ref b))). unfold sorts_by. by rewrite string_lt_false.
Qed.

#[local] Instance host_less_ok : LessOk host_less.
Proof. apply lex_asc_ok, _. Qed.

(** A host is chosen exactly when one is suitable: it is of the kind of the role, in
    a phase that can be scheduled, below its capacity, with a fresh heartbeat unless it
    sleeps, and has every capability required; the one chosen has the fewest active
    executions, and the smallest name among those; without a suitable host the error is
    recoverable. *)
Theorem host_selection_exact prepared hosts kind at_ w x1 x2 :
  cl_ListHosts client (ad_store w, ad_world w) = (Ok hosts, x1) -> now x1 = (Ok at_, x2) -> hostKindForRole (pi_Role prepared) = Ok kind ->
  let fits host := suitable ToLower EqualFold heartbeatMaxAge at_ kind (pi_RequiredCapabilities prepared) host = true in
  match (selectHost ToLower EqualFold client now heartbeatMaxAge prepared w).1 with
  | Ok host => host ∈ hosts /\ fits host /\
      forall h, h ∈ hosts -> fits h -> (hs_ActiveExecutions host <= hs_ActiveExecutions h)%Z /\
        (hs_ActiveExecutions host = hs_ActiveExecutions h -> String.le (hs_Ref host) (hs_Ref h))
  | Err e => e = kerr CodeExecutorUnavailable "no healthy AgentTeams host has matching capacity" true /\ forall h, h ∈ hosts -> ~ fits h
  end.
Proof.
  intros Hl Hn Hk fits. unfold selectHost, silently, calling, mbind, M_bind, lift. rewrite Hl. destruct x1 as [s1 c1]. simpl. rewrite Hk. simpl. rewrite Hn. destruct x2 as [s2 c2].
  simpl. set (l := filter _ hosts). pose proof (sort_slice_perm host_less l) as Hp. pose proof (sort_slice_sorted host_less l) as Hs.
  assert (forall h, h ∈ sort_slice host_less l <-> fits h /\ h ∈ hosts) as Hin by (intros h; rewrite Hp; apply list_elem_of_filter).
  destruct (sort_slice host_less l) as [|host rest]; simpl.
  - split; [done|]. intros h Hh Hf. assert (h ∈ []) as Hnil by (by apply Hin). by apply not_elem_of_nil in Hnil.
  - destruct (Hin host) as [[Hf Hh] _]; [by left|]. split_and!; [done|done|]. intros h Hh' Hf'. assert (h ∈ host :: rest) as Hm by (by apply Hin).
    rewrite <- host_less_spec. apply elem_of_cons in Hm as [->|Hm]; [by apply host_less_spec|]. inversion Hs as [|? ? _ Hall]; subst.
    rewrite Forall_forall in Hall. by apply Hall.
Qed.

(** *** What a dispatch leaves behind *)

(** A collaborator under which only calls of the store change the store. *)
Definition steady {X} (m : M error W X) : Prop := forall x, rtc (execution_step hashHex) x.1 (m x).2.1.

Record collaborators_steady : Prop := mkSteady {
  sd_source : forall ref, steady (source ref);
  sd_hosts : steady (cl_ListHosts client);
  sd_now : steady now;
  sd_files : forall e p, steady (ft_PrepareExecution files e p);
  sd_prepare : forall p, steady (cl_PrepareHost client p);
  sd_delegate : forall r, steady (cl_DelegateTask client r);
}.

(** The store holds an attempt of [ref] with execution [e], in a state that satisfies
    [P]. *)
Definition attempt_of (ref : string) (P : string -> Prop) (e : AgentTeamsExecutionRef) (s : ExecutionStore) : Prop :=
  exists r, xs_byTaskID s !! ex_AgentTeamsTaskID e = Some r /\ xr_Execution r = e /\ xr_InvocationRef r = ref /\ P (xr_State r).

Definition given_out (state : string) : Prop := state = executionDispatched.

Lemma attempt_stays ref e s s' : exec_inv hashHex s -> rtc (execution_step hashHex) s s' -> attempt_of ref (fun _ => True) e s ->
  exec_inv hashHex s' /\ attempt_of ref (fun _ => True) e s'.
Proof.
  intros Hinv Hst. revert Hinv. induction Hst as [|s s1 s2 Hs _ IH]; intros Hinv Ha; [done|]. destruct Ha as (r & Hr & He & Href & Hp).
  destruct (execution_step_life _ _ _ _ _ Hs Hinv Hr) as (r1 & Hr1 & Hlife). apply IH; [by eapply execution_step_inv|].
  destruct (life_identity _ _ Hlife) as (E1 & _ & E3 & _). exists r1. split_and!; [done|congruence|congruence|done].
Qed.

Lemma wp_steady {X} (what : res X -> list AdapterCall) (m : M error W X) (Q : res X -> A -> Prop) w : steady m ->
  (forall r w', rtc (execution_step hashHex) (ad_store w) (ad_store w') -> Q r w') -> wp (calling what m) Q w.
Proof. intros Hm HQ. unfold wp, calling. specialize (Hm (ad_store w, ad_world w)). destruct (m _) as [r [s' c']]. by apply HQ. Qed.

Lemma execution_steps_inv s s' : rtc (execution_step hashHex) s s' -> exec_inv hashHex s -> exec_inv hashHex s'.
Proof. induction 1; [done|]. intros. eauto using execution_step_inv. Qed.

Lemma reserveAttempt_run ref fingerprint execution attempt taken s r mine s' :
  reserveAttempt hashHex ref fingerprint execution attempt taken s = (Ok (r, mine), s') -> xs_byTaskID s' !! xr_TaskID r = Some r /\ xr_InvocationRef r = ref.
Proof.
  unfold reserveAttempt, mbind, M_bind, lift, get_state. case_bool_decide; [done|]. simpl. destruct (fail_if _ _); [|done]. intros [= <- _ <-]. simpl.
  by rewrite lookup_insert_eq.
Qed.

Lemma Reserve_run ctx ref fingerprint execution s r mine s' : exec_inv hashHex s -> Reserve hashHex ctx ref fingerprint execution s = (Ok (r, mine), s') ->
  xs_byTaskID s' !! xr_TaskID r = Some r /\ xr_InvocationRef r = ref.
Proof.
  intros Hinv H. unfold Reserve in H. res_inv. match goal with H : get_state _ = _ |- _ => injection H as <- <- end.
  destruct (xs_byInvocation _ !! ref) as [old|] eqn:Ho; [|by eapply reserveAttempt_run].
  res_inv. destruct (_ || _); [|by eapply reserveAttempt_run]. injection H as <- _ <-. by destruct (xi_latest _ _ Hinv _ _ Ho).
Qed.

(** A call of the store. *)
Lemma wp_execution_stored {X} ctx (what : X -> list AdapterCall) (m : Context -> M error ExecutionStore X) (Q : res X -> A -> Prop) w :
  (forall c r s' t, m c (ad_store w) = (r, s') -> Q r (mkAdapter s' (ad_world w) t)) -> wp (storing ctx what m) Q w.
Proof. intros HQ. unfold wp, storing. destruct (m _ _) as [r s'] eqn:Hm. by eapply HQ. Qed.

(** Whatever the outcome; a result names an attempt of [ref] that was given out. *)
Definition dispatch_result (ref : string) (r : res AgentTeamsExecutionRef) (w : A) : Prop :=
  forall e, r = Ok e -> attempt_of ref given_out e (ad_store w).

Lemma MarkDispatched_run ctx ref e s s' : exec_inv hashHex s -> attempt_of ref (fun _ => True) e s ->
  MarkDispatched ctx (ex_AgentTeamsTaskID e) s = (Ok tt, s') -> attempt_of ref given_out e s'.
Proof.
  intros Hinv (r & Hr & He & Href & _) H. unfold MarkDispatched in H. res_inv. match goal with H : get_state _ = _ |- _ => injection H as <- <- end. rewrite Hr in H.
  res_inv. case_bool_decide as Hd.
  - injection H as <-. exists r. split_and!; [done|done|done|]. unfold given_out. by rewrite Hd.
  - injection H as <-. set (r' := xr_set executionDispatched (xr_TerminationMode r) r). exists r'. simpl. rewrite lookup_insert_eq. by split_and!.
Qed.

Lemma wp_delegated prepared ref e w : collaborators_steady -> exec_inv hashHex (ad_store w) -> attempt_of ref (fun _ => True) e (ad_store w) ->
  wp (delegateTo client cancelled prepared e) (dispatch_result ref) w.
Proof.
  intros Hsd Hinv Ha. unfold delegateTo. apply wp_bind, wp_steady; [apply Hsd|]. intros [task|err] w1 Hst; [|done].
  destruct (attempt_stays _ _ _ _ Hinv Hst Ha) as [Hinv1 Ha1]. destruct (_ || _).
  { apply wp_intro. intros r w' Hrun e' ->. unfold with_cleanup in Hrun. res_inv. }
  apply wp_bind, wp_execution_stored. intros c [[]|err] s' t Hrun; [|done]. apply wp_ret. intros e' [= <-]. simpl. by eapply MarkDispatched_run.
Qed.

Lemma with_cleanup_failed ref err cleanup w : wp (with_cleanup err cleanup) (dispatch_result ref) w.
Proof. apply wp_intro. intros r w' Hrun e' ->. unfold with_cleanup in Hrun. res_inv. Qed.

Lemma wp_prepared prepared ref r mine w : collaborators_steady -> exec_inv hashHex (ad_store w) -> attempt_of ref (fun _ => True) (xr_Execution r) (ad_store w) ->
  wp (prepareAndDelegate ToLower client files cancelled cleanupCancelled prepared (r, mine)) (dispatch_result ref) w.
Proof.
  intros Hsd Hinv Ha. unfold prepareAndDelegate. simpl. apply wp_bind, wp_failure, wp_steady; [apply Hsd|]. intros [[]|e] w1 Hst;
    [|by destruct mine; [apply with_cleanup_failed|]].
  destruct (attempt_stays _ _ _ _ Hinv Hst Ha) as [Hinv1 Ha1]. apply wp_bind, wp_failure, wp_steady; [apply Hsd|]. intros [[]|e] w2 Hst2;
    [|by destruct mine; [apply with_cleanup_failed|]].
  destruct (attempt_stays _ _ _ _ Hinv1 Hst2 Ha1) as [Hinv2 Ha2]. by apply wp_delegated.
Qed.

Lemma attempt_of_record ref (P : string -> Prop) r s : xs_byTaskID s !! xr_TaskID r = Some r -> xr_InvocationRef r = ref -> P (xr_State r) ->
  attempt_of ref P (xr_Execution r) s.
Proof. intros Hr Href HP. by exists r. Qed.

Lemma wp_reserved ref fingerprint prepared (Q : res (executionRecord * bool) -> A -> Prop) w : collaborators_steady -> exec_inv hashHex (ad_store w) ->
  (forall e w', Q (Err e) w') ->
  (forall r mine w', exec_inv hashHex (ad_store w') -> xs_byTaskID (ad_store w') !! xr_TaskID r = Some r -> xr_InvocationRef r = ref -> Q (Ok (r, mine)) w') ->
  wp (reservation hashHex ToLower EqualFold client now cancelled heartbeatMaxAge ref fingerprint prepared) Q w.
Proof.
  intros Hsd Hinv He Ha.
  assert (forall w, exec_inv hashHex (ad_store w) -> wp (reserveOnHost hashHex ToLower EqualFold client now cancelled heartbeatMaxAge ref fingerprint prepared) Q w) as Hnew.
  { intros w0 Hinv0. unfold reserveOnHost, selectHost. apply wp_bind, wp_bind, wp_steady; [apply Hsd|]. intros [hosts|e] w1 Hst1; [|done].
    apply wp_guard; [done|]. intros kind _. apply wp_bind, wp_steady; [apply Hsd|]. intros [t|e] w2 Hst2; [|done].
    assert (exec_inv hashHex (ad_store w2)) as Hinv2 by eauto using execution_steps_inv. destruct (sort_slice _ _) as [|host rest]; [by apply wp_throw|].
    apply wp_ret, wp_execution_stored. intros c [[r mine]|e] s' tr Hrun; [|done]. apply Reserve_run in Hrun as Hr; [|done]. apply Ha; simpl; [|apply Hr..].
    pose proof (Reserve_inv hashHex (ad_store w2) c ref fingerprint (mkExecution (pi_InvocationID prepared) "" (hs_Ref host)) Hinv2) as Hinv3. by rewrite Hrun in Hinv3. }
  unfold reservation. apply wp_bind, wp_execution_stored. intros c [found|e] s' tr Hrun; [|done]. unfold GetByInvocationRef in Hrun. res_inv.
  match goal with H : get_state _ = _ |- _ => injection H as <- <- end. destruct (xs_byInvocation _ !! ref) as [r|] eqn:Hf; [|by apply Hnew].
  apply wp_guard; [done|]. intros ? _. case_bool_decide; [apply wp_guard; [done|]; intros ? _; by apply Hnew|].
  destruct (xi_latest _ _ Hinv _ _ Hf) as [H1 H2]. by apply Ha.
Qed.

Lemma Dispatch_dispatched ref w : collaborators_steady -> exec_inv hashHex (ad_store w) ->
  wp (Dispatch hashHex encodePrepared ToLower EqualFold client files source now cancelled cleanupCancelled heartbeatMaxAge ref) (dispatch_result ref) w.
Proof.
  intros Hsd Hinv. unfold Dispatch. apply wp_guard; [done|]. intros ? _. unfold dispatchReserved. apply wp_bind, wp_steady; [apply Hsd|]. intros [prepared|e] w1 Hst; [|done].
  apply wp_guard; [done|]. intros ? _. apply wp_bind. apply wp_reserved; [done|by eauto using execution_steps_inv|done|]. intros r mine w2 Hinv2 Hr Href. simpl.
  case_bool_decide as Hd.
  - apply wp_ret. intros e [= <-]. by apply attempt_of_record.
  - apply wp_prepared; [done|done|by apply attempt_of_record].
Qed.

(** C17: A dispatch that answers has given the invocation out durably: the execution it
    returns is the one that the store holds for a task of this invocation, as
    dispatched, even when other calls of the adapter run while this one
    waits for the provider. *)
Theorem dispatch_durable ref w : collaborators_steady -> execution_reach hashHex (ad_store w) ->
  let '(r, w') := Dispatch hashHex encodePrepared ToLower EqualFold client files source now cancelled cleanupCancelled heartbeatMaxAge ref w in
  forall e, r = Ok e -> exists record, xs_byTaskID (ad_store w') !! ex_AgentTeamsTaskID e = Some record /\ xr_Execution record = e /\
    xr_InvocationRef record = ref /\ xr_State record = executionDispatched.
Proof.
  intros Hsd Hinv%execution_reach_inv. pose proof (Dispatch_dispatched ref w Hsd Hinv) as Hwp. unfold wp in Hwp. by destruct (Dispatch _ _ _ _ _ _ _ _ _ _ _ _ w).
Qed.

(** *** What calls do to the store *)

Section evolves.
(** How the store and what else the collaborators hold may change. *)
Context (R : relation W) `{!PreOrder R}.
Context (R_step : forall s s' c, execution_step hashHex s s' -> R (s, c) (s', c)).

Definition evolving {X} (m : M error W X) : Prop := forall x, R x (m x).2.

Record collaborators_evolving : Prop := mkEvolving {
  ev_source : forall ref, evolving (source ref);
  ev_hosts : evolving (cl_ListHosts client);
  ev_now : evolving now;
  ev_files : forall e p, evolving (ft_PrepareExecution files e p);
  ev_prepare : forall p, evolving (cl_PrepareHost client p);
  ev_delegate : forall r, evolving (cl_DelegateTask client r);
  ev_release : forall t h, evolving (cl_ReleaseHostSlot client t h);
  ev_fence : forall h i, evolving (cl_FenceInvocation client h i);
  ev_revoke : forall h i, evolving (cl_RevokeInvocation client h i);
  ev_force : forall h, evolving (cl_ForceStopHost client h);
  ev_cancel : forall t reason, evolving (cl_CancelTask client t reason);
  ev_check : forall t, evolving (cl_CheckTask client t);
  ev_pull : forall e, evolving (ft_PullExecution files e);
  ev_push : forall push e, cl_PushExecutionFiles client = Some push -> evolving (push e);
}.

Definition evolves {X} (m : M error A X) : Prop := forall w, R (ad_store w, ad_world w) (ad_store (m w).2, ad_world (m w).2).

Lemma evolves_readonly {X} (m : M error A X) : readonly m -> evolves m.
Proof. intros Hm w. by rewrite Hm. Qed.

Lemma evolves_bind {X Y} (m : M error A X) (k : X -> M error A Y) : evolves m -> (forall x, evolves (k x)) -> evolves (m ≫= k).
Proof.
  intros Hm Hk w. unfold mbind, M_bind. specialize (Hm w). destruct (m w) as [[x|e] w1]; [|exact Hm]. etrans; [exact Hm|apply Hk].
Qed.

Lemma evolves_catch {X} (m : M error A X) (h : error -> M error A X) : evolves m -> (forall e, evolves (h e)) -> evolves (catch m h).
Proof. intros Hm Hh w. unfold catch. specialize (Hm w). destruct (m w) as [[x|e] w1]; [exact Hm|]. etrans; [exact Hm|apply Hh]. Qed.

Lemma evolves_calling {X} (what : res X -> list AdapterCall) (m : M error W X) : evolving m -> evolves (calling what m).
Proof. intros Hm w. unfold calling. specialize (Hm (ad_store w, ad_world w)). by destruct (m _) as [r [s c]]. Qed.

Lemma evolves_storing {X} ctx (what : X -> list AdapterCall) (m : Context -> M error ExecutionStore X) :
  (forall c s, (m c s).2 = s \/ execution_step hashHex s (m c s).2) -> evolves (storing ctx what m).
Proof.
  intros Hm w. unfold storing. destruct (Hm (ctx (ad_world w)) (ad_store w)) as [H|H]; destruct (m _ _) as [r s']; simpl in *; [by subst|by apply R_step].
Qed.

Lemma evolves_failure {X} (m : M error A X) : evolves m -> evolves (failure m).
Proof. intros Hm. apply evolves_catch; [apply evolves_bind; [exact Hm|]|]; intros; by apply evolves_readonly. Qed.

Context (Hev : collaborators_evolving).

Lemma evolves_mark ctx task mode : evolves (markTerminated ctx task mode).
Proof. apply evolves_storing. intros. right. apply step_terminated. Qed.

Lemma evolves_readonly_storing {X} ctx (what : X -> list AdapterCall) (m : Context -> M error ExecutionStore X) :
  (forall c, readonly (m c)) -> evolves (storing ctx what m).
Proof. intros Hm. apply evolves_storing. intros c s. left. apply Hm. Qed.

Lemma evolves_reserve ref fingerprint execution (what : executionRecord * bool -> list AdapterCall) :
  evolves (storing cancelled what (fun ctx => Reserve hashHex ctx ref fingerprint execution)).
Proof. apply evolves_storing. intros. right. apply step_reserve. Qed.

Lemma evolves_dispatched task (what : unit -> list AdapterCall) : evolves (storing cancelled what (fun ctx => MarkDispatched ctx task)).
Proof. apply evolves_storing. intros. right. apply step_dispatched. Qed.

Ltac evolves_step :=
  lazymatch goal with
  | |- evolves (match ?x with _ => _ end) => destruct x
  | |- evolves (_ ≫= _) => apply evolves_bind; [|intros ?]
  | |- evolves (catch _ _) => apply evolves_catch; [|intros ?]
  | |- evolves (failure _) => apply evolves_failure
  | |- evolves (markTerminated _ _ _) => apply evolves_mark
  | |- evolves (storing _ _ (fun ctx => Reserve _ _ _ _ _)) => apply evolves_reserve
  | |- evolves (storing _ _ (fun ctx => MarkDispatched _ _)) => apply evolves_dispatched
  | |- evolves (storing _ _ _) => apply evolves_readonly_storing; intros ? ?; unfold GetByTaskID, GetByInvocationRef, mbind, M_bind, lift, get_state; by destruct (ctx_Err _)
  | |- evolves (calling _ _) => apply evolves_calling; first [solve [apply Hev]|by eapply ev_push]
  | |- evolves (silently _) => unfold silently
  | |- evolves _ => solve [apply evolves_readonly; intros ?; reflexivity]
  end.
Ltac evolves_tac := repeat evolves_step.

Lemma evolves_own ctx e : evolves (ownRecord ctx e).
Proof. unfold ownRecord. evolves_tac. Qed.

Lemma evolves_revoke e : evolves (revoke client e).
Proof. unfold revoke. evolves_tac. Qed.

Lemma evolves_release e : evolves (releaseSlot client e).
Proof. unfold releaseSlot. evolves_tac. Qed.

Lemma evolves_force h : evolves (forceStop client h).
Proof. unfold forceStop. evolves_tac. Qed.

Lemma evolves_checkTask task : evolves (checkTask client task).
Proof. unfold checkTask. evolves_tac. Qed.

Lemma evolves_terminate ctx e mode : evolves (TerminateIn ToLower client ctx e mode).
Proof.
  unfold TerminateIn. apply evolves_bind; [by apply evolves_readonly|]. intros _. apply evolves_bind; [apply evolves_own|]. intros record.
  unfold terminateUnrevoked, terminateRevoked, terminateChecked.
  repeat first [apply evolves_revoke|apply evolves_release|apply evolves_force|apply evolves_checkTask|evolves_step].
Qed.

Lemma evolves_fenceAndRelease e : evolves (fenceAndRelease client e).
Proof. unfold fenceAndRelease. repeat first [apply evolves_revoke|apply evolves_release|apply evolves_force|evolves_step]. Qed.

Lemma evolves_Dispatch ref :
  evolves (Dispatch hashHex encodePrepared ToLower EqualFold client files source now cancelled cleanupCancelled heartbeatMaxAge ref).
Proof.
  unfold Dispatch, dispatchReserved, reservation, reserveOnHost, selectHost, prepareAndDelegate, delegateTo, with_cleanup.
  repeat first [apply evolves_terminate|apply evolves_fenceAndRelease|evolves_step].
Qed.

Lemma evolves_Sync e : evolves (SyncExecutionWorkspace client files cancelled e).
Proof.
  unfold SyncExecutionWorkspace. apply evolves_bind; [apply evolves_own|]. intros record. apply evolves_bind; [by apply evolves_readonly|]. intros _.
  destruct (cl_PushExecutionFiles client) eqn:Hp; evolves_tac.
Qed.

Lemma evolves_Fence e : evolves (FenceExecution client cancelled e).
Proof. unfold FenceExecution. apply evolves_bind; [apply evolves_own|]. intros record. evolves_tac. Qed.

(** *** What a termination leaves behind *)

Context (R_rtc : forall x y, R x y -> rtc (execution_step hashHex) x.1 y.1).

(** The store is well formed and holds execution [e]. *)
Definition holds_execution (e : AgentTeamsExecutionRef) (s : ExecutionStore) : Prop :=
  exec_inv hashHex s /\ exists r, xs_byTaskID s !! ex_AgentTeamsTaskID e = Some r /\ xr_Execution r = e.

Definition terminated_as (e : AgentTeamsExecutionRef) (mode : string) (s : ExecutionStore) : Prop :=
  exists r, xs_byTaskID s !! ex_AgentTeamsTaskID e = Some r /\ xr_Execution r = e /\ xr_State r = executionTerminated /\ xr_TerminationMode r = mode.

Lemma holds_execution_kept e s s' : rtc (execution_step hashHex) s s' -> holds_execution e s -> holds_execution e s'.
Proof.
  intros Hst [Hinv (r & Hr & He)]. destruct (attempt_stays (xr_InvocationRef r) e s s' Hinv Hst) as [Hinv' (r' & Hr' & He' & _)]; [by exists r|].
  split; [done|]. by exists r'.
Qed.

Lemma terminated_as_kept e mode s s' : rtc (execution_step hashHex) s s' -> exec_inv hashHex s -> terminated_as e mode s -> terminated_as e mode s'.
Proof.
  induction 1 as [|s s1 s2 Hs _ IH]; [done|]. intros Hinv (r & Hr & He & Hst & Hm). apply IH; [by eapply execution_step_inv|].
  destruct (execution_step_life _ _ _ _ _ Hs Hinv Hr) as (r1 & Hr1 & Hlife). destruct (life_identity _ _ Hlife) as (_ & _ & _ & _ & Heq).
  rewrite (Heq Hst) in Hr1. by exists r.
Qed.

Lemma wp_holding {X} (m : M error A X) e (Q : res X -> A -> Prop) w : evolves m -> holds_execution e (ad_store w) ->
  (forall r w', holds_execution e (ad_store w') -> Q r w') -> wp m Q w.
Proof. intros Hm He HQ. apply HQ. eapply holds_execution_kept; [|exact He]. apply (R_rtc _ _ (Hm w)). Qed.

Definition when_terminated (e : AgentTeamsExecutionRef) (mode : string) (r : res unit) (w : A) : Prop := r = Ok tt -> terminated_as e mode (ad_store w).

Lemma MarkTerminated_run ctx e mode s s' : holds_execution e s -> MarkTerminated ctx (ex_AgentTeamsTaskID e) mode s = (Ok tt, s') -> terminated_as e mode s'.
Proof.
  intros [_ (r & Hr & He)]. unfold MarkTerminated, mbind, M_bind, lift, get_state. destruct (ctx_Err ctx); [|done]. rewrite Hr. case_bool_decide as Hs.
  - unfold fail_if. case_bool_decide as Hm; [done|]. intros [= <-]. by exists r.
  - intros [= <-]. exists (xr_set executionTerminated mode r). simpl. by rewrite lookup_insert_eq.
Qed.

Lemma mark_terminated ctx e mode w : holds_execution e (ad_store w) -> wp (markTerminated ctx (ex_AgentTeamsTaskID e) mode) (when_terminated e mode) w.
Proof. intros He. apply wp_execution_stored. intros c r s' t Hrun ->. by eapply MarkTerminated_run. Qed.

Lemma unrevoked_terminated ctx e mode reserved err w : holds_execution e (ad_store w) ->
  wp (terminateUnrevoked client ctx e mode reserved err) (when_terminated e mode) w.
Proof.
  intros He. unfold terminateUnrevoked. destruct (_ && _); [by apply mark_terminated|]. apply wp_bind, wp_failure. apply (wp_holding _ e); [apply evolves_force|done|].
  intros f w1 He1. apply wp_bind, wp_failure. apply (wp_holding _ e); [apply evolves_release|done|]. intros x w2 He2. destruct (if _ && _ then _ else _); [|by apply mark_terminated].
  apply wp_lift. by destruct f.
Qed.

Lemma checked_terminated ctx e mode reserved check w : holds_execution e (ad_store w) ->
  wp (terminateChecked ToLower client ctx e mode reserved check) (when_terminated e mode) w.
Proof.
  intros He. unfold terminateChecked. destruct (reserved && _).
  - apply wp_bind, wp_failure. apply (wp_holding _ e); [apply evolves_release|done|]. intros x w1 He1. apply wp_bind, wp_failure.
    eapply wp_mono; [by apply mark_terminated|]. intros r w2 Hr. apply wp_lift. destruct r as [[]|m]; [intros _; by apply Hr|]. by destruct x.
  - apply wp_bind. apply (wp_holding _ e); [|done|].
    + destruct (_ && _); [|by apply evolves_readonly]. apply evolves_bind; [apply evolves_failure, evolves_calling, Hev|]. intros [c|]; by apply evolves_readonly.
    + intros [[]|x] w1 He1; [|done]. apply wp_bind. apply (wp_holding _ e); [apply evolves_release|done|]. intros [[]|x] w2 He2; [|done]. by apply mark_terminated.
Qed.

Lemma TerminateIn_terminated ctx e mode w : exec_inv hashHex (ad_store w) -> wp (TerminateIn ToLower client ctx e mode) (when_terminated e mode) w.
Proof.
  intros Hinv. unfold TerminateIn. apply wp_guard; [done|]. intros ? _. unfold ownRecord. apply wp_bind, wp_bind, wp_execution_stored. intros c [found|x] s' t Hrun; [|done].
  unfold GetByTaskID in Hrun. res_inv. match goal with H : get_state _ = _ |- _ => injection H as <- <- end.
  destruct (xs_byTaskID _ !! _) as [r|] eqn:Hr; [|done]. apply wp_guard; [done|]. intros ? He%guard_not_Ok. apply wp_ret.
  case_bool_decide as Hs; [apply wp_lift|].
  - intros Hm%guard_not_Ok. by exists r.
  - assert (holds_execution e (ad_store w)) as Hh by (split; [done|by exists r]). apply wp_bind, wp_failure.
    apply (wp_holding _ e); [apply evolves_revoke|exact Hh|]. intros [[]|x] w1 He1; [|by apply unrevoked_terminated].
    unfold terminateRevoked. apply wp_bind. apply (wp_holding _ e); [|done|].
    + apply evolves_catch; [apply evolves_bind; [apply evolves_checkTask|]|]; intros; by apply evolves_readonly.
    + intros [check|x] w2 He2; [by apply checked_terminated|done].
Qed.

End evolves.

End adapter.

(** ** Observations *)

Section observations.
Context `{GR : GoRuntime} (hashHex : string -> string).
Context (encodeObservation : string -> string -> string -> string -> list (string * string) -> Time -> string).
Context (ctx : Context) (store : ExecutionStore).

Local Abbreviation identity := (observationIdentity hashHex encodeObservation).

(** An event of no task, or of a task that the store knows. *)
Definition known (item : RawObservation) : Prop := ra_TaskID item = "" \/ is_Some (xs_byTaskID store !! ra_TaskID item).

#[local] Instance known_dec item : Decision (known item).
Proof. apply _. Defined.

Definition owner (item : RawObservation) : InvocationID :=
  if bool_decide (ra_TaskID item = "") then "" else default "" ((fun r => ex_InvocationID (xr_Execution r)) <$> xs_byTaskID store !! ra_TaskID item).

(** What is reported of an event, with the cursor of its latest delivery. *)
Definition observation_of (item : RawObservation) (cursor : string) : ExecutionObservation :=
  mkExecutionObservation (identity item).1 cursor (owner item) (ra_TaskID item) (ra_HostRef item) (ra_Kind item) (ra_Payload item) (ra_ObservedAt item).

Definition deliveries (id : string) (raw : list RawObservation) : list RawObservation := filter (fun item => known item /\ (identity item).1 = id) raw.

Record projected (raw : list RawObservation) (p : projection) : Prop := mkProjectedOk {
  pj_next : po_NextCursor (pn_result p) = default "" (ra_Cursor <$> last raw);
  pj_index : forall id i, pn_indexByID p !! id = Some i <-> exists o, po_Observations (pn_result p) !! i = Some o /\ xo_ID o = id;
  pj_from : forall i o, po_Observations (pn_result p) !! i = Some o ->
    exists item, item ∈ raw /\ known item /\ o = observation_of item (xo_Cursor o) /\ pn_fingerprints p !! xo_ID o = Some (identity item).2 /\
      exists latest, last (deliveries (xo_ID o) raw) = Some latest /\ xo_Cursor o = ra_Cursor latest;
  pj_all : forall item, item ∈ raw -> known item -> is_Some (pn_indexByID p !! (identity item).1) /\ pn_fingerprints p !! (identity item).1 = Some (identity item).2;
}.

Lemma deliveries_snoc id raw item : deliveries id (raw ++ [item]) =
  deliveries id raw ++ (if decide (known item /\ (identity item).1 = id) then [item] else []).
Proof. unfold deliveries. by rewrite filter_app, filter_cons. Qed.

Lemma deliveries_other id raw item : (identity item).1 <> id -> deliveries id (raw ++ [item]) = deliveries id raw.
Proof. intros Hne. rewrite deliveries_snoc, decide_False by naive_solver. apply app_nil_r. Qed.

Lemma deliveries_latest raw item : known item -> last (deliveries (identity item).1 (raw ++ [item])) = Some item.
Proof. intros Hk. by rewrite deliveries_snoc, decide_True, last_snoc. Qed.

(** An entry that the event [item] does not concern. *)
Lemma entry_kept raw item (fps fps' : gmap string string) o : (identity item).1 <> xo_ID o -> fps' !! xo_ID o = fps !! xo_ID o ->
  (exists i, i ∈ raw /\ known i /\ o = observation_of i (xo_Cursor o) /\ fps !! xo_ID o = Some (identity i).2 /\
     exists latest, last (deliveries (xo_ID o) raw) = Some latest /\ xo_Cursor o = ra_Cursor latest) ->
  exists i, i ∈ raw ++ [item] /\ known i /\ o = observation_of i (xo_Cursor o) /\ fps' !! xo_ID o = Some (identity i).2 /\
     exists latest, last (deliveries (xo_ID o) (raw ++ [item])) = Some latest /\ xo_Cursor o = ra_Cursor latest.
Proof.
  intros Hne Hfp (i & Hi & Hk & Ho & Hf & latest & Hl). exists i. rewrite Hfp, deliveries_other by done. split_and!; [set_solver|done..|]. by exists latest.
Qed.

(** A new delivery of an event that was seen moves its cursor. *)
Lemma redelivered raw p item pos : projected raw p -> known item -> pn_indexByID p !! (identity item).1 = Some pos ->
  default "" (pn_fingerprints p !! (identity item).1) = (identity item).2 ->
  projected (raw ++ [item]) (mkProjection (po_set (alter (xo_set_Cursor (ra_Cursor item)) pos (po_Observations (pn_result p)))
    (po_next (ra_Cursor item) (pn_result p))) (pn_indexByID p) (pn_fingerprints p)).
Proof.
  intros [Hn Hi Hf Ha] Hk Hpos Hfp. destruct (proj1 (Hi _ _) Hpos) as (o0 & Ho0 & Hid0). split; simpl.
  - by rewrite last_snoc.
  - intros id i. rewrite Hi. rewrite list_lookup_alter. case_decide as Hd; [|done]. subst. rewrite Ho0. simpl. split.
    + intros (o & [= <-] & Hid). by exists (xo_set_Cursor (ra_Cursor item) o0).
    + intros (o & [= <-] & Hid). by exists o0.
  - intros i o. rewrite list_lookup_alter. case_decide as Hd.
    + subst. rewrite Ho0. intros [= <-]. simpl. destruct (Hf _ _ Ho0) as (i0 & Hin & Hk0 & Ho & Hf0 & _). exists i0. rewrite Hid0, deliveries_latest by done.
      split_and!; [set_solver|done| |by rewrite <- Hid0|by exists item]. by rewrite Ho.
    + intros Ho. eapply entry_kept; [|done|by apply Hf in Ho]. intros Heq. apply Hd. assert (pn_indexByID p !! xo_ID o = Some i) as Hidx by (apply Hi; eauto).
      congruence.
  - intros x [Hx| ->%list_elem_of_singleton]%elem_of_app Hkx; [by apply Ha|]. split; [by rewrite Hpos|].
    destruct (Hf _ _ Ho0) as (i0 & _ & _ & _ & Hf0 & _). rewrite Hid0 in Hf0. rewrite Hf0 in Hfp |- *. simpl in Hfp. by rewrite Hfp.
Qed.

(** The first delivery of an event appends an entry. *)
Lemma delivered raw p item : projected raw p -> known item -> pn_indexByID p !! (identity item).1 = None ->
  projected (raw ++ [item]) (mkProjection (po_set (po_Observations (pn_result p) ++ [observation_of item (ra_Cursor item)])
    (po_next (ra_Cursor item) (pn_result p))) (<[(identity item).1 := length (po_Observations (pn_result p))]> (pn_indexByID p))
    (<[(identity item).1 := (identity item).2]> (pn_fingerprints p))).
Proof.
  intros [Hn Hi Hf Ha] Hk Hnew.
  assert (forall i o, po_Observations (pn_result p) !! i = Some o -> (identity item).1 <> xo_ID o) as Hfresh.
  { intros i o Ho Heq. assert (pn_indexByID p !! xo_ID o = Some i) as Hidx by (apply Hi; eauto). congruence. }
  split; simpl.
  - by rewrite last_snoc.
  - intros id i. destruct (decide (id = (identity item).1)) as [->|Hne].
    + rewrite lookup_insert_eq. split; [intros [= <-]; exists (observation_of item (ra_Cursor item)); by rewrite list_lookup_middle|].
      intros (o & Ho & Hid). apply lookup_snoc_Some in Ho as [[_ Ho]|[-> _]]; [|done]. exfalso. by eapply Hfresh.
    + rewrite lookup_insert_ne, Hi by done. split; intros (o & Ho & Hid); exists o; [split; [by apply lookup_app_l_Some|done]|].
      apply lookup_snoc_Some in Ho as [[_ Ho]|[_ <-]]; [done|]. by exfalso.
  - intros i o [[_ Ho]|[_ <-]]%lookup_snoc_Some.
    + eapply entry_kept; [by eapply Hfresh|apply lookup_insert_ne; by eapply Hfresh|by eapply Hf].
    + exists item. simpl. rewrite lookup_insert_eq, deliveries_latest by done. split_and!; [set_solver|done..|by exists item].
  - intros x [Hx| ->%list_elem_of_singleton]%elem_of_app Hkx; [|rewrite !lookup_insert_eq; by eauto].
    destruct (Ha _ Hx Hkx) as [[i Hidx] Hfp]. assert ((identity item).1 <> (identity x).1) by congruence. rewrite !lookup_insert_ne by done. by eauto.
Qed.

Lemma ignored raw p item : projected raw p -> ~ known item ->
  projected (raw ++ [item]) (mkProjection (po_ignore item (po_next (ra_Cursor item) (pn_result p))) (pn_indexByID p) (pn_fingerprints p)).
Proof.
  intros [Hn Hi Hf Ha] Hk. assert (forall id, deliveries id (raw ++ [item]) = deliveries id raw) as Hd.
  { intros id. rewrite deliveries_snoc, decide_False by naive_solver. apply app_nil_r. }
  split; simpl; [by rewrite last_snoc|done| |].
  - intros i o Ho. destruct (Hf _ _ Ho) as (i0 & Hin & H). exists i0. rewrite Hd. split; [set_solver|done].
  - intros x [Hx| ->%list_elem_of_singleton]%elem_of_app Hkx; [by apply Ha|done].
Qed.

Lemma recordObservation_projected raw p p' item : projected raw p -> known item ->
  recordObservation hashHex encodeObservation item (owner item) (mkProjection (po_next (ra_Cursor item) (pn_result p)) (pn_indexByID p) (pn_fingerprints p)) = Ok p' ->
  projected (raw ++ [item]) p'.
Proof.
  intros Hp Hk. unfold recordObservation. simpl. pose proof (redelivered raw p item) as Hre. pose proof (delivered raw p item Hp Hk) as Hnew. unfold observation_of in Hnew.
  destruct (identity item) as [id fp]. simpl in *. destruct (pn_indexByID p !! id) as [pos|] eqn:Hpos; simpl.
  - case_bool_decide as Hfp; [done|]. intros [= <-]. by apply Hre.
  - intros [= <-]. by apply Hnew.
Qed.

Lemma projectOne_projected raw p p' item : projected raw p -> projectOne hashHex encodeObservation ctx store p item = Ok p' -> projected (raw ++ [item]) p'.
Proof.
  intros Hp H. unfold projectOne in H. res_inv. simpl in H.
  destruct (decide (ra_TaskID item = "")) as [Ht|Ht].
  - rewrite bool_decide_eq_true_2 in H by done. eapply recordObservation_projected; [done|by left|]. unfold owner. by rewrite bool_decide_eq_true_2.
  - rewrite bool_decide_eq_false_2 in H by done. res_inv. destruct (xs_byTaskID store !! ra_TaskID item) as [record|] eqn:Hr.
    + eapply recordObservation_projected; [done|right; by rewrite Hr|]. unfold owner. by rewrite bool_decide_eq_false_2, Hr.
    + injection H as <-. apply ignored; [done|]. intros [?|[? Hs]]; congruence.
Qed.

Lemma Project_projected raw r : Project hashHex encodeObservation ctx store raw = Ok r -> exists p, pn_result p = r /\ projected raw p.
Proof.
  unfold Project. intros H. res_inv. eexists; split; [done|].
  match goal with H : foldl _ _ raw = Ok ?p |- _ => revert p H end. induction raw as [|item raw IH] using rev_ind; intros p H.
  - injection H as <-. split; simpl; [done| |done|intros ? []%not_elem_of_nil]. intros id i. rewrite lookup_empty. split; [done|]. by intros (? & ? & _).
  - rewrite foldl_app in H. simpl in H. res_inv. eapply projectOne_projected; [|done]. by apply IH.
Qed.

(** C18: Host events are reported once each, whatever a provider delivers again: the
    reports have distinct identities and stand for an event that was delivered, with
    the invocation that the execution store has for its task and the cursor of the
    latest delivery; every event of no task or of a known task is reported, two
    deliveries under one identity carry the same content, by its fingerprint; the next cursor is that of
    the last event; and when events of unknown tasks were left out, the last report
    still ends at the next cursor. *)
Theorem observations_reported_once raw r : Project hashHex encodeObservation ctx store raw = Ok r ->
  NoDup (xo_ID <$> po_Observations r) /\
  po_NextCursor r = default "" (ra_Cursor <$> last raw) /\
  (forall o, o ∈ po_Observations r -> exists item latest, item ∈ raw /\ known item /\ last (deliveries (xo_ID o) raw) = Some latest /\
     o = observation_of item (ra_Cursor latest)) /\
  (forall item, item ∈ raw -> known item -> exists first, first ∈ raw /\ identity first = identity item /\ exists cursor, observation_of first cursor ∈ po_Observations r) /\
  ((0 < po_IgnoredTaskEvents r)%Z -> po_NextCursor r <> "" -> xo_Cursor <$> last (observed hashHex r) = Some (po_NextCursor r)).
Proof.
  intros (p & <- & [Hn Hi Hf Ha])%Project_projected. split_and!; [|done| | |].
  - apply NoDup_alt. intros i j id. rewrite !list_lookup_fmap. intros (o1 & H1 & E1)%fmap_Some (o2 & H2 & E2)%fmap_Some.
    assert (pn_indexByID p !! id = Some i) by (apply Hi; eauto). assert (pn_indexByID p !! id = Some j) by (apply Hi; eauto). congruence.
  - intros o [i Ho]%list_elem_of_lookup. destruct (Hf _ _ Ho) as (item & Hin & Hk & Heq & _ & latest & Hl & Hc). exists item, latest. rewrite Hc in Heq. by split_and!.
  - intros item Hin Hk. destruct (Ha _ Hin Hk) as [[i Hidx] Hfp]. apply Hi in Hidx as (o & Ho & Hid). destruct (Hf _ _ Ho) as (first & Hin1 & _ & Heq & Hfp1 & _).
    exists first. split_and!; [done| |exists (xo_Cursor o); rewrite <- Heq; by eapply list_elem_of_lookup_2]. rewrite Hid, Hfp in Hfp1. injection Hfp1 as Hfp1.
    assert ((identity first).1 = (identity item).1) by (rewrite <- Hid, Heq; done). by destruct (identity first), (identity item); simpl in *; subst.
  - intros Hign Hnext. unfold observed, needsCursorAdvance. rewrite (proj2 (Z.ltb_lt _ _) Hign), (bool_decide_eq_false_2 (_ = "")) by done. simpl.
    case_bool_decide as Hnil; [by rewrite bool_decide_eq_true_2, last_snoc by done|]. destruct (last (po_Observations _)) as [o|] eqn:Hl; [|by apply last_None in Hl].
    case_bool_decide as Hc; [by rewrite last_snoc|]. rewrite Hl. simpl. by rewrite Hc.
Qed.

End observations.

(** ** A worker host and an executor invocation *)

Module AgentSample.
#[local] Existing Instance GoRuntime_list.

Local Abbreviation W := (ExecutionStore * unit)%type.

Definition host (ref phase : string) (active : Z) : HostStatus := mkHostStatus ref HostWorker phase 90 2 active ["go"].
Definition hosts : list HostStatus := [host "w1" "running" 1; host "w2" "ready" 0; host "w3" "stopped" 0].

Definition prepared : PreparedInvocation := mkPrepared "inv-1" "p1" RoleExecutor "" "!room" "build" "config" "envelope" ["go"].

Definition client : Client W := mkClient W (mret hosts) (fun _ => mret tt)
  (fun r => mret (mkTaskSnapshot (dr_TaskID r) (dr_ProjectID r) (dr_HostRef r) "pending" "" "")) (fun _ _ => mret tt) (fun _ _ => mret tt)
  (fun _ _ => mret tt) (fun _ => mret tt) (fun _ _ => mret tt)
  (fun t => mret (mkTaskCheck (mkTaskSnapshot t "p1" "w2" "submitted" "" "") "" "" [] true [])) (fun _ => mret []) None None None None.

Definition files : FileTransport W := mkFiles W (fun _ _ => mret tt) (fun _ => mret (mkWorkspaceCheckpoint "")) (fun _ => mret "").
Definition source (ref : string) : M error W PreparedInvocation := mret prepared.
Definition now : M error W Time := mret 100%Z.
Definition live (_ : unit) : Context := None.

Definition reserved : ExecutionStore := (Reserve id None "ref-1" "fp" (mkExecution "inv-1" "" "w2") NewMemoryExecutionStore).2.
Definition dispatched : ExecutionStore := (MarkDispatched None "threadmill-ref-1" reserved).2.
Definition canceled : ExecutionStore := (MarkTerminated None "threadmill-ref-1" TerminateCancel dispatched).2.

Definition attempt (state mode : string) : executionRecord :=
  mkExecutionRecord "ref-1" 1 (mkExecution "inv-1" "threadmill-ref-1" "w2") "fp" state mode.

Lemma canceled_reach : execution_reach id canceled.
Proof. eapply rtc_l; [apply (step_reserve id)|eapply rtc_l; [apply (step_dispatched id)|eapply rtc_once, (step_terminated id)]]. Defined.

Lemma executions_exclusive_witness : (Reserve id None "ref-1" "fp" (mkExecution "inv-1" "" "w2") canceled).2 = canceled.
Proof.
  apply (executions_exclusive id canceled "threadmill-ref-1" (attempt executionTerminated TerminateCancel)).
  - exact canceled_reach.
  - vm_compute. reflexivity.
  - reflexivity.
  - discriminate.
Defined.

Lemma execution_moves_forward_witness : exists r, xs_byTaskID canceled !! "threadmill-ref-1" = Some r /\ xr_Fingerprint r = "fp".
Proof.
  destruct (execution_moves_forward id reserved canceled "threadmill-ref-1" (attempt executionReserved "")) as (r & Hr & _ & _ & _ & _ & Hf & _).
  - apply rtc_once, (step_reserve id).
  - eapply rtc_l; [apply (step_dispatched id)|apply rtc_once, (step_terminated id)].
  - vm_compute. reflexivity.
  - exists r. split; [exact Hr|exact Hf].
Defined.

Definition idle : Adapter unit := mkAdapter NewMemoryExecutionStore tt [].

Lemma host_selection_exact_witness : host "w2" "ready" 0 ∈ hosts /\ (hs_ActiveExecutions (host "w2" "ready" 0) <= hs_ActiveExecutions (host "w1" "running" 1))%Z.
Proof.
  pose proof (host_selection_exact id String.eqb client now 60 prepared hosts HostWorker 100 idle
    (NewMemoryExecutionStore, tt) (NewMemoryExecutionStore, tt) eq_refl eq_refl eq_refl) as H.
  destruct H as (Hin & _ & Hmin). split; [exact Hin|]. apply Hmin; [left|vm_compute; reflexivity].
Defined.

Lemma collaborators_ready : collaborators_steady id client files source now.
Proof. split; intros; intros x; apply rtc_refl. Defined.

Lemma dispatch_durable_witness :
  exists w', Dispatch id pi_Spec id String.eqb client files source now live live 60 "ref-1" idle = (Ok (mkExecution "inv-1" "threadmill-ref-1" "w2"), w') /\
    exists r, xs_byTaskID (ad_store w') !! "threadmill-ref-1" = Some r /\ xr_State r = executionDispatched.
Proof.
  pose proof (dispatch_durable id pi_Spec id String.eqb client files source now live live 60 "ref-1" idle collaborators_ready (rtc_refl _ _)) as H.
  destruct (Dispatch _ _ _ _ _ _ _ _ _ _ _ _ _) as [res w'] eqn:Hd. exists w'.
  assert ((res, w').1 = Ok (mkExecution "inv-1" "threadmill-ref-1" "w2")) as He by (rewrite <- Hd; vm_compute; reflexivity). simpl in He. subst res.
  split; [reflexivity|]. destruct (H _ eq_refl) as (r & Hr & _ & _ & Hs). exists r. split; [exact Hr|exact Hs].
Defined.

(** [Terminate] discards a failed stop of the host when the slot is given back:
    the execution is closed and the call succeeds although neither its credential was
    revoked nor its host stopped.  [fenceAndRelease] reports an error there and keeps
    the slot. *)
Definition unreachable : Client W := mkClient W (mret hosts) (fun _ => mret tt) (cl_DelegateTask client) (fun _ _ => mret tt) (fun _ _ => mret tt)
  (fun _ _ => throw (OtherError "connection refused")) (fun _ => throw (OtherError "connection refused")) (fun _ _ => mret tt)
  (cl_CheckTask client) (fun _ => mret []) None None None None.

Definition working : Adapter unit := mkAdapter dispatched tt [].
Definition execution1 : AgentTeamsExecutionRef := mkExecution "inv-1" "threadmill-ref-1" "w2".

Example unfenced_execution_closed :
  let '(answer, w) := Terminate id unreachable live execution1 TerminateCancel working in
  answer = Ok tt /\ xr_State <$> xs_byTaskID (ad_store w) !! "threadmill-ref-1" = Some executionTerminated /\
  Revoked "w2" "inv-1" (Ok tt) ∉ ad_trace w /\ ForceStopped "w2" (Ok tt) ∉ ad_trace w /\
  is_ok (fenceAndRelease unreachable execution1 working).1 = false.
Proof. vm_compute. split_and!; try done; intros Hin; repeat (apply elem_of_cons in Hin as [Hin|Hin]; [done|]); by apply not_elem_of_nil in Hin. Qed.

Definition event (cursor id task : string) : RawObservation := mkRaw cursor id task "w2" "progress" ∅ 95.
Definition events : list RawObservation := [event "1" "e1" "threadmill-ref-1"; event "2" "e1" "threadmill-ref-1"; event "3" "e2" "other"].
Definition encode (provider task host kind : string) (payload : list (string * string)) (at_ : Time) : string := provider +:+ task +:+ host +:+ kind.

Lemma observations_reported_once_witness : exists r, Project id encode None reserved events = Ok r /\
  length (po_Observations r) = 1 /\ po_NextCursor r = "3" /\ xo_Cursor <$> last (observed id r) = Some "3".
Proof.
  eexists. split; [vm_compute; reflexivity|]. split; [reflexivity|]. split; [reflexivity|].
  apply (observations_reported_once id encode None reserved events); [vm_compute; reflexivity|vm_compute; reflexivity|discriminate].
Defined.

End AgentSample.
