(* ===== verification/AgentPhaseHost.v ===== *)
(** * The AgentTeams phase host

    [runtime/phase/agentteams_host.go]: the host of the phase controller that runs
    invocations through the AgentTeams adapter.  It prepares and dispatches an
    invocation, and suspends, stops, fences and revokes its execution, over the
    interfaces of the adapter, of the writer of prepared invocations and of the store
    of host states; the in-memory implementations of the two stores are modelled too,
    and composed with the adapter of [AgentTeams].  JSON and SHA-256 are parameters.
    The PostgreSQL store of the file is left out. *)

From stdpp Require Import base tactics option list strings gmap sorting relations.
From Stdlib Require Import ZArith Ascii.
From S2P Require Import Prelude GoLib GoStrings Kernel CoordTypes Auth Catalog Invocation PhaseTypes Hoare.
From S2P Require Import AgentTeams AgentTeamsProps.

(** ** Data *)

Definition agentTeamsRuntimeConfigRefPrefix : string := "threadmill://phase-runtime-config/".
Definition agentTeamsEnvelopeRefPrefix : string := "threadmill://phase-envelope/".
Definition agentTeamsInvocationRefPrefix : string := "threadmill://phase-invocation/".

Record AgentTeamsPhaseHostState := mkHostState {
  ah_InvocationID : InvocationID;
  ah_InvocationRef : string;
  ah_Execution : AgentTeamsExecutionRef;
  ah_TerminationMode : string;
}.

#[global] Instance AgentTeamsPhaseHostState_eq_dec : EqDecision AgentTeamsPhaseHostState.
Proof. solve_decision. Defined.

Definition ah_set_mode (mode : string) (s : AgentTeamsPhaseHostState) : AgentTeamsPhaseHostState :=
  mkHostState (ah_InvocationID s) (ah_InvocationRef s) (ah_Execution s) mode.

Record agentTeamsPhaseSpecDocument := mkSpecDocument {
  sd_Kind : string;
  sd_InvocationID : InvocationID;
  sd_ProjectID : ProjectID;
  sd_TaskID : TaskID;
  sd_EndpointID : EndpointID;
  sd_Generation : Z;
  sd_BindingRef : BindingRef;
  sd_LeaseRef : LeaseID;
  sd_WorkspaceRef : string;
  sd_WorkspaceRevision : string;
  sd_ContextSliceRef : string;
  sd_TaskMemoryBufferRef : string;
  sd_CheckpointRef : string;
  sd_InputRevision : string;
  sd_RuntimeConfigRefHint : string;
  sd_PromptSHA256 : string;
  sd_Prompt : string;
}.

(** ** References and checks *)

Section refs.
Context (hashHex : string -> string) (encodeSpec : agentTeamsPhaseSpecDocument -> string).
(** The JSON of invocation id, prompt hash, spec, workspace revision, input revision. *)
Context (encodeRef : string -> string -> string -> string -> string -> string).

Definition NUL : string := String "000" "".
Definition hash16 (s : string) : string := String.substring 0 32 (hashHex s).

Definition agentTeamsRuntimeConfigRef (invocationID : InvocationID) : string := agentTeamsRuntimeConfigRefPrefix +:+ invocationID.

Definition agentTeamsEnvelopeRef (invocationID : InvocationID) (invocationRef promptHash : string) : string :=
  agentTeamsEnvelopeRefPrefix +:+ invocationID +:+ "/" +:+ hash16 (invocationID +:+ NUL +:+ invocationRef +:+ NUL +:+ promptHash).

Definition deterministicWorkspaceCheckpointRef (invocationID : InvocationID) (workspaceRevision : string) : string :=
  "agentteams://workspace-checkpoint/" +:+ invocationID +:+ "/" +:+ hash16 (invocationID +:+ NUL +:+ workspaceRevision).

Definition deterministicResumeStateRef (invocationID : InvocationID) (taskID checkpointRef : string) : string :=
  "agentteams://resume-state/" +:+ invocationID +:+ "/" +:+ hash16 (invocationID +:+ NUL +:+ taskID +:+ NUL +:+ checkpointRef).

Definition agentTeamsPhaseSpec (req : DispatchRequest) : string :=
  let i := dr_Invocation req in
  encodeSpec (mkSpecDocument "threadmill.phase.agentteams.v1" (in_ID i) (in_ProjectID i) (in_TaskID i) (in_EndpointID i) (in_Generation i)
    (in_BindingRef i) (in_LeaseID i) (bs_WorkspaceRef (dr_Binding req)) (bs_WorkspaceRevision (dr_Binding req)) (bs_ContextSliceRef (dr_Binding req))
    (bs_TaskMemoryBufferRef (dr_Binding req)) (dr_CheckpointRef req) (pis_InputRevision (sp_Inputs (dr_Start req)))
    (agentTeamsRuntimeConfigRef (in_ID i)) (re_SHA256 (dr_Prompt req)) (re_Text (dr_Prompt req))).

Definition agentTeamsInvocationRef (req : DispatchRequest) (rehydrate : bool) : string :=
  let id := in_ID (dr_Invocation req) in
  let hashed := if rehydrate
    then encodeRef id (re_SHA256 (dr_Prompt req)) (agentTeamsPhaseSpec req) (bs_WorkspaceRevision (dr_Binding req))
           (pis_InputRevision (sp_Inputs (dr_Start req)))
    else id in
  agentTeamsInvocationRefPrefix +:+ id +:+ "/" +:+ hash16 hashed.

Definition invocationIDFromAgentTeamsRef (invocationRef : string) : InvocationID :=
  let value := TrimPrefix agentTeamsInvocationRefPrefix invocationRef in
  match Cut "/" value with Some (before, _) => before | None => value end.

Definition validateAgentTeamsDispatch (req : DispatchRequest) : res unit :=
  let i := dr_Invocation req in
  _ ← Validate i;
  _ ← fail_if (negb (IsPhase (in_Role i))) (Forbidden "AgentTeams phase host requires a phase invocation");
  _ ← fail_if (bool_decide (re_Text (dr_Prompt req) = "") || bool_decide (re_SHA256 (dr_Prompt req) = ""))
        (InvalidArgument "AgentTeams phase host requires rendered prompt text and hash");
  fail_if (bool_decide (cp_InvocationID (dr_Capability req) <> in_ID i) || bool_decide (cp_Role (dr_Capability req) <> in_Role i))
    (Forbidden "AgentTeams phase host capability must match invocation").

Definition requiredAgentTeamsCapabilities (capability : Capability) : list string :=
  if existsb (fun tool => bool_decide (is_Some (cp_Tools capability !! tool))) [ToolWorkspaceRun; ToolWorkspaceWrite; ToolWorkspaceWritePlan]
  then ["shell"] else [].

Definition preparedInvocation (roomID : string) (req : DispatchRequest) (invocationRef : string) : PreparedInvocation :=
  let i := dr_Invocation req in
  mkPrepared (in_ID i) (in_ProjectID i) (in_Role i) (in_Operation i) roomID (agentTeamsPhaseSpec req) (agentTeamsRuntimeConfigRef (in_ID i))
    (agentTeamsEnvelopeRef (in_ID i) invocationRef (re_SHA256 (dr_Prompt req))) (requiredAgentTeamsCapabilities (dr_Capability req)).

Definition stopEvidence (req : StopRequest) (state : AgentTeamsPhaseHostState) (checkpoint : ExecutionWorkspaceCheckpoint) : StopResult :=
  let workspaceRevision := TrimSpace (wc_WorkspaceRevision checkpoint) in
  let workspaceRevision := if bool_decide (workspaceRevision = "") then TrimSpace (bs_WorkspaceRevision (sr_Binding req)) else workspaceRevision in
  if bs_NonResumable (sr_Binding req) || bool_decide (workspaceRevision = "") then mkStopResult "" "" "" true
  else
    let checkpointRef := TrimSpace (bs_CheckpointRef (sr_Binding req)) in
    let checkpointRef := if bool_decide (checkpointRef = "") then deterministicWorkspaceCheckpointRef (in_ID (sr_Invocation req)) workspaceRevision
                         else checkpointRef in
    mkStopResult (deterministicResumeStateRef (in_ID (sr_Invocation req)) (ex_AgentTeamsTaskID (ah_Execution state)) checkpointRef) checkpointRef
      workspaceRevision false.

End refs.

Definition validateAgentTeamsPhaseHostState (state : AgentTeamsPhaseHostState) : res unit :=
  _ ← RequireID "invocation_id" (ah_InvocationID state);
  _ ← fail_if (bool_decide (TrimSpace (ah_InvocationRef state) = "")) (InvalidArgument "AgentTeams invocation_ref is required");
  let e := ah_Execution state in
  _ ← fail_if (bool_decide (ex_InvocationID e = "") || bool_decide (ex_AgentTeamsTaskID e = "") || bool_decide (ex_HostRef e = ""))
        (InvalidArgument "AgentTeams execution ref is incomplete");
  _ ← fail_if (bool_decide (ex_InvocationID e <> ah_InvocationID state))
        (InvalidArgument "AgentTeams execution invocation_id does not match phase host state");
  fail_if (bool_decide (ah_TerminationMode state ∉ [""; TerminateReleaseWait; TerminateRecoverableStop; TerminateCancel]))
    (InvalidArgument "AgentTeams termination mode is invalid").

(** The state to store, unless nothing changes. *)
Definition nextAgentTeamsPhaseHostState (existing requested : AgentTeamsPhaseHostState) : res (option AgentTeamsPhaseHostState) :=
  _ ← fail_if (bool_decide (ah_InvocationID existing <> ah_InvocationID requested)) IdempotencyConflict;
  if bool_decide (ah_InvocationRef existing <> ah_InvocationRef requested) || bool_decide (ah_Execution existing <> ah_Execution requested) then
    _ ← fail_if (bool_decide (ah_TerminationMode existing <> TerminateReleaseWait) || bool_decide (ah_TerminationMode requested <> "")) IdempotencyConflict;
    Ok (Some requested)
  else
    let requested := if bool_decide (ah_TerminationMode existing <> "") && bool_decide (ah_TerminationMode requested = "")
                     then ah_set_mode (ah_TerminationMode existing) requested else requested in
    _ ← fail_if (bool_decide (ah_TerminationMode existing <> "") && bool_decide (ah_TerminationMode requested <> ah_TerminationMode existing))
          IdempotencyConflict;
    if bool_decide (existing = requested) then Ok None else Ok (Some requested).

Definition samePreparedInvocation (left right : PreparedInvocation) : bool :=
  bool_decide (pi_InvocationID left = pi_InvocationID right) && bool_decide (pi_ProjectID left = pi_ProjectID right) &&
  bool_decide (pi_Role left = pi_Role right) && bool_decide (pi_Operation left = pi_Operation right) &&
  bool_decide (pi_RoomID left = pi_RoomID right) && bool_decide (pi_Spec left = pi_Spec right) &&
  bool_decide (pi_RuntimeConfigRef left = pi_RuntimeConfigRef right) && bool_decide (pi_EnvelopeRef left = pi_EnvelopeRef right) &&
  bool_decide (length (pi_RequiredCapabilities left) = length (pi_RequiredCapabilities right)) &&
  forallb (fun '(l, r) => bool_decide (l = r)) (zip (pi_RequiredCapabilities left) (pi_RequiredCapabilities right)).

(** ** The in-memory stores *)

Section memory.
Context `{GR : GoRuntime}.

Definition MemoryPreparedInvocationWriter : Type := gmap string PreparedInvocation.

(** Other preparations of the invocation are pruned. *)
Definition SavePreparedInvocation (ctx : Context) (ref : string) (prepared : PreparedInvocation) : M error MemoryPreparedInvocationWriter unit :=
  _ ← lift (ctx_Err ctx);
  _ ← lift (fail_if (bool_decide (TrimSpace ref = "")) (InvalidArgument "prepared invocation ref is required"));
  items ← get_state;
  _ ← lift (fail_if (match items !! ref with Some existing => negb (samePreparedInvocation existing prepared) | None => false end) IdempotencyConflict);
  put_state (<[ref := prepared]>
    (range_delete (fun existingRef existing => bool_decide (existingRef <> ref) && bool_decide (pi_InvocationID existing = pi_InvocationID prepared)) items)).

Definition LoadPreparedInvocation (ctx : Context) (ref : string) : M error MemoryPreparedInvocationWriter PreparedInvocation :=
  _ ← lift (ctx_Err ctx);
  items ← get_state;
  match items !! ref with
  | Some prepared => mret prepared
  | None => throw (kerr CodeNotFound "prepared invocation not found" false)
  end.

Definition MemoryAgentTeamsPhaseHostStateStore : Type := gmap InvocationID AgentTeamsPhaseHostState.

Definition LoadAgentTeamsPhaseHostState (ctx : Context) (invocationID : InvocationID) :
    M error MemoryAgentTeamsPhaseHostStateStore (option AgentTeamsPhaseHostState) :=
  _ ← lift (ctx_Err ctx);
  items ← get_state;
  mret (items !! invocationID).

Definition SaveAgentTeamsPhaseHostState (ctx : Context) (state : AgentTeamsPhaseHostState) : M error MemoryAgentTeamsPhaseHostStateStore unit :=
  _ ← lift (ctx_Err ctx);
  _ ← lift (validateAgentTeamsPhaseHostState state);
  items ← get_state;
  match items !! ah_InvocationID state with
  | Some existing =>
    next ← lift (nextAgentTeamsPhaseHostState existing state);
    match next with
    | Some next => put_state (<[ah_InvocationID state := next]> items)
    | None => mret tt
    end
  | None => put_state (<[ah_InvocationID state := state]> items)
  end.

End memory.

(** ** The host *)

(** The adapter, the writer and the state store, over a state [H]. *)
Record AgentTeamsPhaseHostConfig (H : Type) := mkHostConfig {
  hc_Dispatch : string -> M error H AgentTeamsExecutionRef;
  hc_Terminate : AgentTeamsExecutionRef -> string -> M error H unit;
  hc_TerminateBackground : AgentTeamsExecutionRef -> string -> M error H unit;
  hc_FenceExecution : AgentTeamsExecutionRef -> M error H unit;
  hc_SyncExecutionWorkspace : AgentTeamsExecutionRef -> M error H ExecutionWorkspaceCheckpoint;
  hc_SavePrepared : string -> PreparedInvocation -> M error H unit;
  hc_LoadPrepared : string -> M error H PreparedInvocation;
  hc_LoadState : InvocationID -> M error H (option AgentTeamsPhaseHostState);
  hc_SaveState : AgentTeamsPhaseHostState -> M error H unit;
  hc_RoomID : string;
}.
Arguments hc_Dispatch {H}.
Arguments hc_Terminate {H}.
Arguments hc_TerminateBackground {H}.
Arguments hc_FenceExecution {H}.
Arguments hc_SyncExecutionWorkspace {H}.
Arguments hc_SavePrepared {H}.
Arguments hc_LoadPrepared {H}.
Arguments hc_LoadState {H}.
Arguments hc_SaveState {H}.
Arguments hc_RoomID {H}.

(** What a collaborator was asked and has answered. *)
Inductive HostCall :=
| StateLoaded (id : InvocationID) (state : option AgentTeamsPhaseHostState)
| StateSaved (state : AgentTeamsPhaseHostState)
| SaveFailed (state : AgentTeamsPhaseHostState)
| PreparedKnown (ref : string)
| ExecutionStarted (ref : string) (execution : AgentTeamsExecutionRef)
| WorkspaceSynced (execution : AgentTeamsExecutionRef)
| TerminationAsked (execution : AgentTeamsExecutionRef) (mode : string).

Record Hosted (H : Type) := mkHosted {
  hd_world : H;
  hd_trace : list HostCall;
}.
Arguments mkHosted {H}.
Arguments hd_world {H}.
Arguments hd_trace {H}.

Section host.
Context {H : Type} (hashHex : string -> string) (encodeSpec : agentTeamsPhaseSpecDocument -> string).
Context (encodeRef : string -> string -> string -> string -> string -> string).
Context (cfg : AgentTeamsPhaseHostConfig H).

Local Abbreviation A := (Hosted H).

Definition asking {X} (what : res X -> list HostCall) (m : M error H X) : M error A X := fun w =>
  let '(r, h) := m (hd_world w) in (r, mkHosted h (hd_trace w ++ what r)).

Definition when_ok {X} (what : X -> list HostCall) (r : res X) : list HostCall := match r with Ok x => what x | Err _ => [] end.

Definition loadState (id : InvocationID) : M error A (option AgentTeamsPhaseHostState) :=
  asking (when_ok (fun state => [StateLoaded id state])) (hc_LoadState cfg id).
Definition saveState (state : AgentTeamsPhaseHostState) : M error A unit :=
  asking (fun r => match r with Ok _ => [StateSaved state] | Err _ => [SaveFailed state] end) (hc_SaveState cfg state).
Definition terminate (execution : AgentTeamsExecutionRef) (mode : string) : M error A unit :=
  asking (fun _ => [TerminationAsked execution mode]) (hc_Terminate cfg execution mode).
Definition start (ref : string) : M error A AgentTeamsExecutionRef :=
  asking (when_ok (fun execution => [ExecutionStarted ref execution])) (hc_Dispatch cfg ref).
Definition syncWorkspace (execution : AgentTeamsExecutionRef) : M error A ExecutionWorkspaceCheckpoint :=
  asking (when_ok (fun _ => [WorkspaceSynced execution])) (hc_SyncExecutionWorkspace cfg execution).
Definition savePrepared (ref : string) (prepared : PreparedInvocation) : M error A unit :=
  asking (when_ok (fun _ => [PreparedKnown ref])) (hc_SavePrepared cfg ref prepared).
Definition loadPrepared (ref : string) : M error A PreparedInvocation :=
  asking (when_ok (fun _ => [PreparedKnown ref])) (hc_LoadPrepared cfg ref).

Definition executionState (invocationID : InvocationID) : M error A AgentTeamsPhaseHostState :=
  _ ← lift (RequireID "invocation_id" invocationID);
  found ← loadState invocationID;
  match found with
  | Some state => mret state
  | None => throw (kerr CodeNotFound "AgentTeams phase host state not found" false)
  end.

Definition Suspend (invocationID : InvocationID) : M error A unit :=
  state ← executionState invocationID;
  _ ← syncWorkspace (ah_Execution state);
  _ ← saveState (ah_set_mode TerminateReleaseWait state);
  terminate (ah_Execution state) TerminateReleaseWait.

Definition Stop (req : StopRequest) : M error A StopResult :=
  state ← executionState (in_ID (sr_Invocation req));
  checkpoint ← syncWorkspace (ah_Execution state);
  let state := ah_set_mode TerminateRecoverableStop state in
  _ ← saveState state;
  _ ← terminate (ah_Execution state) TerminateRecoverableStop;
  mret (stopEvidence hashHex req state checkpoint).

Definition SyncWorkspace (invocationID : InvocationID) : M error A ExecutionWorkspaceCheckpoint :=
  state ← executionState invocationID;
  syncWorkspace (ah_Execution state).

Definition Revoke (invocationID : InvocationID) : M error A unit :=
  state ← executionState invocationID;
  let mode := if bool_decide (ah_TerminationMode state = "") then TerminateCancel else ah_TerminationMode state in
  _ ← saveState (ah_set_mode mode state);
  terminate (ah_Execution state) mode.

Definition Fence (invocationID : InvocationID) : M error A unit :=
  state ← executionState invocationID;
  asking (fun _ => []) (hc_FenceExecution cfg (ah_Execution state)).

(** The invocation is still given out: its execution must be the same. *)
Definition redispatch (current : AgentTeamsPhaseHostState) : M error A unit :=
  execution ← start (ah_InvocationRef current);
  lift (fail_if (bool_decide (execution <> ah_Execution current)) IdempotencyConflict).

(** Make the preparation of [ref] known: a first dispatch keeps one that exists. *)
Definition prepare (ref : string) (prepared : PreparedInvocation) (rehydrate : bool) : M error A unit :=
  if rehydrate then savePrepared ref prepared
  else catch (_ ← loadPrepared ref; mret tt)
         (fun loadErr => if IsCode (Some loadErr) CodeNotFound then savePrepared ref prepared else throw loadErr).

Definition dispatchPrepared (req : DispatchRequest) (rehydrate : bool) : M error A unit :=
  let invocationRef := agentTeamsInvocationRef hashHex encodeSpec encodeRef req rehydrate in
  _ ← prepare invocationRef (preparedInvocation hashHex encodeSpec (hc_RoomID cfg) req invocationRef) rehydrate;
  execution ← start invocationRef;
  catch (saveState (mkHostState (in_ID (dr_Invocation req)) invocationRef execution ""))
    (fun err =>
       terminateErr ← catch (_ ← asking (fun _ => [TerminationAsked execution TerminateCancel]) (hc_TerminateBackground cfg execution TerminateCancel);
                             mret None) (fun e => mret (Some e) : M error A (option error));
       throw (match terminateErr with Some e => JoinError err e | None => err end)).

Definition dispatch (req : DispatchRequest) (rehydrate : bool) : M error A unit :=
  _ ← lift (validateAgentTeamsDispatch req);
  if rehydrate then dispatchPrepared req true
  else
    found ← loadState (in_ID (dr_Invocation req));
    match found with
    | Some current => if bool_decide (ah_TerminationMode current = "") then redispatch current else dispatchPrepared req false
    | None => dispatchPrepared req false
    end.

Definition Dispatch (req : DispatchRequest) : M error A unit := dispatch req false.
Definition Rehydrate (req : DispatchRequest) : M error A unit := dispatch req true.

End host.

Definition NewAgentTeamsPhaseHost {H} (cfg : AgentTeamsPhaseHostConfig H) : res (AgentTeamsPhaseHostConfig H) :=
  let roomID := TrimSpace (hc_RoomID cfg) in
  _ ← fail_if (bool_decide (roomID = "")) (InvalidArgument "AgentTeams room_id is required");
  Ok (mkHostConfig H (hc_Dispatch cfg) (hc_Terminate cfg) (hc_TerminateBackground cfg) (hc_FenceExecution cfg) (hc_SyncExecutionWorkspace cfg)
    (hc_SavePrepared cfg) (hc_LoadPrepared cfg) (hc_LoadState cfg) (hc_SaveState cfg) roomID).

(** ** The host over the adapter and the in-memory stores *)

Record HostStores (E : Type) := mkHostStores {
  hz_prepared : MemoryPreparedInvocationWriter;
  hz_states : MemoryAgentTeamsPhaseHostStateStore;
  hz_rest : E;
}.
Arguments mkHostStores {E}.
Arguments hz_prepared {E}.
Arguments hz_states {E}.
Arguments hz_rest {E}.

Section composed.
Context `{GR : GoRuntime} {E : Type}.
Context (hashHex : string -> string) (encodePrepared : PreparedInvocation -> string).
Context (ToLower : string -> string) (EqualFold : string -> string -> bool).
Local Abbreviation C := (HostStores E).
Local Abbreviation W := (ExecutionStore * C)%type.
Context (client : Client W) (files : FileTransport W) (now : M error W Time) (cancelled cleanupCancelled : C -> Context) (heartbeatMaxAge : Z).

Definition prepared_source (ref : string) : M error W PreparedInvocation := fun x =>
  let '(r, p) := LoadPreparedInvocation (cancelled x.2) ref (hz_prepared x.2) in (r, (x.1, mkHostStores p (hz_states x.2) (hz_rest x.2))).

Definition on_prepared {X} (m : Context -> M error MemoryPreparedInvocationWriter X) : M error (Adapter C) X := fun w =>
  let c := ad_world w in
  let '(r, p) := m (cancelled c) (hz_prepared c) in (r, mkAdapter (ad_store w) (mkHostStores p (hz_states c) (hz_rest c)) (ad_trace w)).

Definition on_states {X} (m : Context -> M error MemoryAgentTeamsPhaseHostStateStore X) : M error (Adapter C) X := fun w =>
  let c := ad_world w in
  let '(r, h) := m (cancelled c) (hz_states c) in (r, mkAdapter (ad_store w) (mkHostStores (hz_prepared c) h (hz_rest c)) (ad_trace w)).

Definition memoryHost (roomID : string) : AgentTeamsPhaseHostConfig (Adapter C) :=
  mkHostConfig _
    (AgentTeams.Dispatch hashHex encodePrepared ToLower EqualFold client files prepared_source now cancelled cleanupCancelled heartbeatMaxAge)
    (Terminate ToLower client cancelled)
    (TerminateIn ToLower client (fun _ => None))
    (FenceExecution client cancelled)
    (SyncExecutionWorkspace client files cancelled)
    (fun ref prepared => on_prepared (fun ctx => SavePreparedInvocation ctx ref prepared))
    (fun ref => on_prepared (fun ctx => LoadPreparedInvocation ctx ref))
    (fun id => on_states (fun ctx => LoadAgentTeamsPhaseHostState ctx id))
    (fun state => on_states (fun ctx => SaveAgentTeamsPhaseHostState ctx state))
    roomID.

End composed.

(** ** Properties of the host, for all collaborators *)

(** What was asked before [x] in a call. *)
Definition host_backed (t : list HostCall) (x : HostCall) : Prop :=
  match x with
  | ExecutionStarted ref _ =>
      PreparedKnown ref ∈ t \/ exists id st, StateLoaded id (Some st) ∈ t /\ ah_InvocationRef st = ref /\ ah_TerminationMode st = ""
  | WorkspaceSynced e => exists id st, StateLoaded id (Some st) ∈ t /\ ah_Execution st = e
  | StateSaved s | SaveFailed s =>
      (ah_TerminationMode s = "" /\ ExecutionStarted (ah_InvocationRef s) (ah_Execution s) ∈ t) \/
      exists id st, StateLoaded id (Some st) ∈ t /\ s = ah_set_mode (ah_TerminationMode s) st /\
        ((ah_TerminationMode s = ah_TerminationMode st /\ ah_TerminationMode st <> "") \/
         (ah_TerminationMode s = TerminateCancel /\ ah_TerminationMode st = "") \/
         ((ah_TerminationMode s = TerminateReleaseWait \/ ah_TerminationMode s = TerminateRecoverableStop) /\ WorkspaceSynced (ah_Execution s) ∈ t))
  | TerminationAsked e mode =>
      (exists s, StateSaved s ∈ t /\ ah_Execution s = e /\ ah_TerminationMode s = mode) \/
      (mode = TerminateCancel /\ exists s, SaveFailed s ∈ t /\ ah_Execution s = e /\ ah_TerminationMode s = "")
  | _ => True
  end.

Section host_calls.
Context {H : Type} (hashHex : string -> string) (encodeSpec : agentTeamsPhaseSpecDocument -> string).
Context (encodeRef : string -> string -> string -> string -> string -> string).
Context (cfg : AgentTeamsPhaseHostConfig H).
Local Abbreviation ok := (trace_ok host_backed).
Local Abbreviation A := (Hosted H).

Inductive host_op :=
| OpDispatch (req : DispatchRequest)
| OpRehydrate (req : DispatchRequest)
| OpSuspend (id : InvocationID)
| OpStop (req : StopRequest)
| OpSync (id : InvocationID)
| OpRevoke (id : InvocationID)
| OpFence (id : InvocationID).

Definition run_host (op : host_op) (w : A) : A :=
  match op with
  | OpDispatch req => (Dispatch hashHex encodeSpec encodeRef cfg req w).2
  | OpRehydrate req => (Rehydrate hashHex encodeSpec encodeRef cfg req w).2
  | OpSuspend id => (Suspend cfg id w).2
  | OpStop req => (Stop hashHex cfg req w).2
  | OpSync id => (SyncWorkspace cfg id w).2
  | OpRevoke id => (Revoke cfg id w).2
  | OpFence id => (Fence cfg id w).2
  end.

Section from.
Context (t0 : list HostCall).

Definition host_at (new : list HostCall) (w : A) : Prop := hd_trace w = t0 ++ new /\ ok new.
Definition host_done {X} (_ : res X) (w : A) : Prop := exists new, host_at new w.

Lemma host_at_done {X} (r : res X) new w : host_at new w -> host_done r w.
Proof. by exists new. Qed.

Lemma wp_host_asking {X} (what : res X -> list HostCall) (m : M error H X) (Q : res X -> A -> Prop) new w : host_at new w ->
  (forall r, ok (new ++ what r)) -> (forall r w', host_at (new ++ what r) w' -> Q r w') -> wp (asking what m) Q w.
Proof.
  intros [Hw _] Hb HQ. unfold wp, asking. destruct (m _) as [r h]. simpl. apply HQ. split; [|apply Hb]. simpl. by rewrite Hw, app_assoc.
Qed.

Lemma wp_asked {X} (what : X -> HostCall) (m : M error H X) (Q : res X -> A -> Prop) new w : host_at new w ->
  (forall x, host_backed new (what x)) -> (forall e w', host_at new w' -> Q (Err e) w') ->
  (forall x w', host_at (new ++ [what x]) w' -> Q (Ok x) w') -> wp (asking (when_ok (fun x => [what x])) m) Q w.
Proof.
  intros Hw Hb He Ha. eapply wp_host_asking; [done| |].
  - intros [x|e]; simpl; [apply trace_ok_snoc; [apply Hw|apply Hb]|]. rewrite app_nil_r. apply Hw.
  - intros [x|e] w' Hw'; [by apply Ha|]. simpl in Hw'. rewrite app_nil_r in Hw'. by apply He.
Qed.

Lemma wp_saveState state (Q : res unit -> A -> Prop) new w : host_at new w -> host_backed new (StateSaved state) ->
  (forall e w', host_at (new ++ [SaveFailed state]) w' -> Q (Err e) w') -> (forall w', host_at (new ++ [StateSaved state]) w' -> Q (Ok tt) w') ->
  wp (saveState cfg state) Q w.
Proof.
  intros Hw Hb He Ha. eapply wp_host_asking; [done| |].
  - intros [x|e]; apply trace_ok_snoc; first [apply Hw|exact Hb].
  - intros [[]|e] w' Hw'; [by apply Ha|by eapply He].
Qed.

Lemma wp_terminating e mode m new w : host_at new w -> host_backed new (TerminationAsked e mode) ->
  wp (asking (fun _ : res unit => [TerminationAsked e mode]) m) host_done w.
Proof.
  intros Hw Hb. eapply wp_host_asking; [done|intros r; by apply trace_ok_snoc; [apply Hw|]|]. intros r w' Hw'. by eapply host_at_done.
Qed.

Lemma wp_executionState {X} id (k : AgentTeamsPhaseHostState -> M error A X) w : host_at [] w ->
  (forall st w', host_at [StateLoaded id (Some st)] w' -> wp (k st) host_done w') -> wp (executionState cfg id ≫= k) host_done w.
Proof.
  intros Hw Hk. apply wp_bind. unfold executionState. apply wp_guard; [intros; by eapply host_at_done|]. intros ? _. apply wp_bind.
  eapply (wp_asked (StateLoaded id)); [done|done|intros; by eapply host_at_done|]. intros [st|] w' Hw'; [apply wp_ret; by apply Hk|by eapply host_at_done].
Qed.

(** The workspace is synchronised, the mode is stored, the execution is ended. *)
Lemma wp_synced {X} id st (k : ExecutionWorkspaceCheckpoint -> M error A X) w : host_at [StateLoaded id (Some st)] w ->
  (forall c w', host_at [StateLoaded id (Some st); WorkspaceSynced (ah_Execution st)] w' -> wp (k c) host_done w') ->
  wp (syncWorkspace cfg (ah_Execution st) ≫= k) host_done w.
Proof.
  intros Hw Hk. apply wp_bind. eapply (wp_asked (fun _ => WorkspaceSynced (ah_Execution st))); [done| |intros; by eapply host_at_done|intros c w' Hw'; by apply Hk].
  intros _. exists id, st. split; [by left|done].
Qed.

Lemma synced_backed id st mode : mode = TerminateReleaseWait \/ mode = TerminateRecoverableStop ->
  host_backed [StateLoaded id (Some st); WorkspaceSynced (ah_Execution st)] (StateSaved (ah_set_mode mode st)).
Proof. intros Hm. right. exists id, st. split_and!; [by left|done|]. right. right. split; [done|]. right. by left. Qed.

Lemma terminated_backed new st : host_backed (new ++ [StateSaved st]) (TerminationAsked (ah_Execution st) (ah_TerminationMode st)).
Proof. left. exists st. split_and!; [apply elem_snoc|done|done]. Qed.

Lemma wp_dispatchPrepared req rehydrate new w : host_at new w -> wp (dispatchPrepared hashHex encodeSpec encodeRef cfg req rehydrate) host_done w.
Proof.
  intros Hw. unfold dispatchPrepared. set (ref := agentTeamsInvocationRef _ _ _ _ _). set (p := preparedInvocation _ _ _ _ _). apply wp_bind.
  assert (wp (prepare cfg ref p rehydrate) (fun r w' => match r with Ok _ => host_at (new ++ [PreparedKnown ref]) w' | Err _ => host_done r w' end) w) as Hp.
  { assert (forall w1, host_at new w1 -> wp (savePrepared cfg ref p) (fun r w' => match r with Ok _ => host_at (new ++ [PreparedKnown ref]) w' | Err _ => host_done r w' end) w1) as Hs.
    { intros w1 Hw1. eapply (wp_asked (fun _ => PreparedKnown ref)); [done|done|intros; by eapply host_at_done|done]. }
    unfold prepare. destruct rehydrate; [by apply Hs|]. apply wp_catch, wp_bind.
    eapply (wp_asked (fun _ => PreparedKnown ref)); [done|done| |done]. intros e w1 Hw1. destruct (IsCode _ _); [by apply Hs|]. by eapply host_at_done. }
  eapply wp_mono; [exact Hp|]. intros [[]|e] w1 Hw1; [|destruct Hw1; by eexists]. apply wp_bind.
  eapply (wp_asked (fun e => ExecutionStarted ref e)); [done|intros; left; apply elem_snoc|intros; by eapply host_at_done|]. intros e w2 Hw2.
  apply wp_catch. eapply wp_saveState; [done|left; split; [done|apply elem_snoc]| |intros; by eapply host_at_done]. intros err w3 Hw3. apply wp_bind, wp_catch, wp_bind.
  eapply wp_mono; [eapply wp_terminating; [done|]|].
  - right. split; [done|]. eexists. split_and!; [apply elem_snoc|done|done].
  - intros [[]|x] w4 Hw4; exact Hw4.
Qed.

Lemma run_host_done op w : hd_trace w = t0 -> exists new, hd_trace (run_host op w) = t0 ++ new /\ ok new.
Proof.
  intros Ht. assert (host_at [] w) as Hw by (split; [by rewrite app_nil_r|apply trace_ok_nil]). destruct op as [req|req|id|req|id|id|id]; simpl.
  - change (wp (Dispatch hashHex encodeSpec encodeRef cfg req) host_done w). unfold Dispatch, dispatch. apply wp_guard; [intros; by eapply host_at_done|]. intros ? _.
    apply wp_bind. eapply (wp_asked (StateLoaded _)); [done|done|intros; by eapply host_at_done|]. intros [st|] w1 Hw1; [|by eapply wp_dispatchPrepared].
    case_bool_decide as Hm; [|by eapply wp_dispatchPrepared]. unfold redispatch. apply wp_bind.
    eapply (wp_asked (fun e => ExecutionStarted (ah_InvocationRef st) e)); [done| |intros; by eapply host_at_done|].
    + intros ?. right. eexists _, st. split_and!; [by left|done|done].
    + intros e w2 Hw2. apply wp_lift. by eapply host_at_done.
  - change (wp (Rehydrate hashHex encodeSpec encodeRef cfg req) host_done w). unfold Rehydrate, dispatch. apply wp_guard; [intros; by eapply host_at_done|]. intros ? _.
    by eapply wp_dispatchPrepared.
  - change (wp (Suspend cfg id) host_done w). apply wp_executionState; [done|]. intros st w1 Hw1. eapply wp_synced; [done|]. intros _ w2 Hw2. apply wp_bind.
    eapply wp_saveState; [done|apply synced_backed; by left|intros; by eapply host_at_done|]. intros w3 Hw3. eapply wp_terminating; [done|].
    apply (terminated_backed [_; _] (ah_set_mode TerminateReleaseWait st)).
  - change (wp (Stop hashHex cfg req) host_done w). apply wp_executionState; [done|]. intros st w1 Hw1. eapply wp_synced; [done|]. intros c w2 Hw2. apply wp_bind.
    eapply wp_saveState; [done|apply synced_backed; by right|intros; by eapply host_at_done|]. intros w3 Hw3. apply wp_bind.
    eapply wp_mono; [eapply wp_terminating; [done|]; apply (terminated_backed [_; _] (ah_set_mode TerminateRecoverableStop st))|]. intros [[]|e] w4 Hw4; exact Hw4.
  - change (wp (SyncWorkspace cfg id) host_done w). apply wp_executionState; [done|]. intros st w1 Hw1.
    eapply (wp_asked (fun _ : ExecutionWorkspaceCheckpoint => WorkspaceSynced (ah_Execution st))); [done| |intros; by eapply host_at_done|intros; by eapply host_at_done]. intros _. exists id, st. split; [by left|done].
  - change (wp (Revoke cfg id) host_done w). apply wp_executionState; [done|]. intros st w1 Hw1. set (mode := if bool_decide (ah_TerminationMode st = "") then TerminateCancel else ah_TerminationMode st). apply wp_bind.
    eapply wp_saveState; [done| |intros; by eapply host_at_done|intros w3 Hw3; eapply wp_terminating; [done|apply (terminated_backed [_] (ah_set_mode mode st))]].
    right. exists id, st. split_and!; [by left|done|]. unfold mode; simpl. case_bool_decide; [right; by left|by left].
  - change (wp (Fence cfg id) host_done w). apply wp_executionState; [done|]. intros st w1 Hw1.
    eapply wp_host_asking; [done|intros r; rewrite app_nil_r; apply Hw1|]. intros r w2 Hw2. by eapply host_at_done.
Qed.
End from.

(** The phase host ends an execution only on record: whatever its collaborators
    answer, the adapter is asked to end an execution only after the mode was stored
    for it, or to cancel one that was just started and could not be stored; an
    invocation is suspended or stopped only after its workspace was synchronised, and
    revoked in the mode that was stored before; and an execution is started only for a
    preparation that is stored, or for the one that is still given out. *)
Theorem host_ends_on_record op w :
  exists new, hd_trace (run_host op w) = hd_trace w ++ new /\ forall t1 x t2, new = t1 ++ x :: t2 -> host_backed t1 x.
Proof. by apply run_host_done. Qed.

End host_calls.

(** ** Host states *)

(** A stop or a cancellation is the last word on an invocation. *)
Definition final_mode (mode : string) : Prop := mode = TerminateRecoverableStop \/ mode = TerminateCancel.

(** What a request makes of a stored state. *)
Lemma next_inv existing requested r : nextAgentTeamsPhaseHostState existing requested = Ok r ->
  ah_InvocationID existing = ah_InvocationID requested /\
  ((ah_TerminationMode existing = TerminateReleaseWait /\ ah_TerminationMode requested = "" /\ r = Some requested) \/
   (ah_InvocationRef existing = ah_InvocationRef requested /\ ah_Execution existing = ah_Execution requested /\
    ((r = None /\ existing = ah_set_mode (ah_TerminationMode existing) requested /\
        (ah_TerminationMode requested = "" \/ ah_TerminationMode requested = ah_TerminationMode existing)) \/
     (r = Some requested /\ ah_TerminationMode existing = "" /\ ah_TerminationMode requested <> "")))).
Proof.
  destruct existing as [i1 r1 e1 m1], requested as [i2 r2 e2 m2]. unfold nextAgentTeamsPhaseHostState, ah_set_mode. simpl.
  destruct (decide (i1 = i2)) as [->|Hi]; [|by rewrite (bool_decide_eq_true_2 (i1 <> i2) Hi)]. rewrite (bool_decide_eq_false_2 (i2 <> i2)) by congruence. simpl. intros H. split; [done|].
  destruct (bool_decide (r1 <> r2) || bool_decide (e1 <> e2)) eqn:Hd.
  - left. apply bind_Ok in H as (u & Hg%fail_if_Ok & [= <-]). apply orb_false_iff in Hg as [Hm1%bool_decide_eq_false Hm2%bool_decide_eq_false].
    apply dec_stable in Hm1, Hm2. done.
  - right. apply orb_false_iff in Hd as [Hr%bool_decide_eq_false He%bool_decide_eq_false]. apply dec_stable in Hr as ->. apply dec_stable in He as ->.
    split_and!; [done|done|]. apply bind_Ok in H as (u & Hg%fail_if_Ok & H). destruct (decide (m1 = "")) as [->|H1].
    + clear Hg. rewrite (bool_decide_eq_false_2 (_ <> "")) in H by naive_solver. simpl in H. case_bool_decide as Heq; injection H as <-; [left|right]; split_and!; naive_solver congruence.
    + rewrite (bool_decide_eq_true_2 (m1 <> "")) in H, Hg by done. simpl in H, Hg. left. apply bool_decide_eq_false, dec_stable in Hg.
      destruct (decide (m2 = "")) as [->|H2]; [rewrite (bool_decide_eq_true_2 (_ = "")) in H, Hg by done|rewrite (bool_decide_eq_false_2 (m2 = "")) in H, Hg by done];
        simpl in H, Hg; subst; rewrite bool_decide_eq_true_2 in H by done; injection H as <-; split_and!; auto.
Qed.

Lemma next_final existing requested : final_mode (ah_TerminationMode existing) ->
  nextAgentTeamsPhaseHostState existing requested = Ok None \/ exists e, nextAgentTeamsPhaseHostState existing requested = Err e.
Proof.
  intros Hf. destruct (nextAgentTeamsPhaseHostState existing requested) as [r|e] eqn:Hn; [left|by right; exists e].
  assert (ah_TerminationMode existing <> "" /\ ah_TerminationMode existing <> TerminateReleaseWait) as [Hne Hw] by (by destruct Hf as [-> | ->]).
  apply next_inv in Hn as (_ & [(? & _)|(_ & _ & [(-> & _)|(_ & ? & _)])]); [done|done|done].
Qed.


Lemma SaveState_final ctx id st state (h : MemoryAgentTeamsPhaseHostStateStore) : h !! id = Some st -> final_mode (ah_TerminationMode st) ->
  (SaveAgentTeamsPhaseHostState ctx state h).2 !! id = Some st.
Proof.
  intros Hst Hf. unfold SaveAgentTeamsPhaseHostState, mbind, M_bind, lift, get_state. destruct (ctx_Err ctx); [|done]. destruct (validateAgentTeamsPhaseHostState state); [|done].
  destruct (decide (ah_InvocationID state = id)) as [->|Hne].
  - rewrite Hst. by destruct (next_final st state Hf) as [-> |[e ->]].
  - destruct (h !! ah_InvocationID state); [|etrans; [by apply lookup_insert_ne|done]]. destruct (nextAgentTeamsPhaseHostState _ _) as [[next|]|]; [|done..].
    etrans; [by apply lookup_insert_ne|done].
Qed.

(** A new mode that is stored is what is stored. *)
Lemma SaveState_stored ctx state (h h' : MemoryAgentTeamsPhaseHostStateStore) : ah_TerminationMode state <> "" ->
  SaveAgentTeamsPhaseHostState ctx state h = (Ok tt, h') -> h' !! ah_InvocationID state = Some state.
Proof.
  intros Hne. unfold SaveAgentTeamsPhaseHostState, mbind, M_bind, lift, get_state. destruct (ctx_Err ctx); [|done]. destruct (validateAgentTeamsPhaseHostState state); [|done].
  destruct (h !! ah_InvocationID state) as [existing|] eqn:Hex; [|intros [= <-]; apply lookup_insert_eq].
  destruct (nextAgentTeamsPhaseHostState existing state) as [r|] eqn:Hn; [|done].
  apply next_inv in Hn as (_ & [(_ & ? & _)|(_ & _ & [(-> & Heq & [?|Hm])|(-> & _)])]); [done|done| |].
  - intros [= <-]. rewrite Hex, Heq, <- Hm. by destruct state.
  - intros [= <-]. apply lookup_insert_eq.
Qed.

(** A start that is not the stored execution is refused after a final mode. *)
Lemma SaveState_refused ctx id st ref execution (h : MemoryAgentTeamsPhaseHostStateStore) : h !! id = Some st -> final_mode (ah_TerminationMode st) ->
  execution <> ah_Execution st -> is_ok (SaveAgentTeamsPhaseHostState ctx (mkHostState id ref execution "") h).1 = false.
Proof.
  intros Hst Hf Hne. unfold SaveAgentTeamsPhaseHostState, mbind, M_bind, lift, get_state. destruct (ctx_Err ctx); [|done].
  destruct (validateAgentTeamsPhaseHostState _); [|done]. simpl. rewrite Hst.
  destruct (nextAgentTeamsPhaseHostState _ _) as [r|] eqn:Hn; [|done]. exfalso.
  apply next_inv in Hn as (_ & [(Hw & _)|(_ & ? & _)]); [by destruct Hf as [Hm|Hm]; rewrite Hm in Hw|done].
Qed.

(** ** Stopping is final *)

Section stopped.
Context `{GR : GoRuntime} {E : Type}.
Context (hashHex : string -> string) (encodePrepared : PreparedInvocation -> string).
Context (encodeSpec : agentTeamsPhaseSpecDocument -> string) (encodeRef : string -> string -> string -> string -> string -> string).
Context (ToLower : string -> string) (EqualFold : string -> string -> bool).
Local Abbreviation C := (HostStores E).
Local Abbreviation W := (ExecutionStore * C)%type.
Context (client : Client W) (files : FileTransport W) (now : M error W Time) (cancelled cleanupCancelled : C -> Context) (heartbeatMaxAge : Z).
Context (roomID : string).
Local Abbreviation A := (Adapter C).
Local Abbreviation host := (memoryHost hashHex encodePrepared ToLower EqualFold client files now cancelled cleanupCancelled heartbeatMaxAge roomID).

(** A call on one of the stores, or a change of what else there is. *)
Inductive agent_step : relation W :=
| agent_execution s s' c : execution_step hashHex s s' -> agent_step (s, c) (s', c)
| agent_state ctx st s c : agent_step (s, c) (s, mkHostStores (hz_prepared c) (SaveAgentTeamsPhaseHostState ctx st (hz_states c)).2 (hz_rest c))
| agent_prepared p s c : agent_step (s, c) (s, mkHostStores p (hz_states c) (hz_rest c))
| agent_rest e s c : agent_step (s, c) (s, mkHostStores (hz_prepared c) (hz_states c) e).

Local Abbreviation R := (rtc agent_step).

Definition pair_of (w : Hosted A) : W := (ad_store (hd_world w), ad_world (hd_world w)).

Record agents_inv (x : W) : Prop := mkAgentsInv {
  ag_executions : exec_inv hashHex x.1;
  ag_states : forall id st, hz_states x.2 !! id = Some st -> ah_InvocationID st = id;
}.

(** Execution [e] of invocation [id] is over for good. *)
Definition stopped (id : InvocationID) (e : AgentTeamsExecutionRef) (x : W) : Prop :=
  agents_inv x /\ (exists st, hz_states x.2 !! id = Some st /\ final_mode (ah_TerminationMode st) /\ ah_Execution st = e) /\ exists mode, terminated_as e mode x.1.

Lemma R_execution s s' c : execution_step hashHex s s' -> R (s, c) (s', c).
Proof. intros H. apply rtc_once. by constructor. Qed.

Lemma R_executions x y : R x y -> rtc (execution_step hashHex) x.1 y.1.
Proof. induction 1 as [|x y z Hst _ IH]; [done|]. destruct Hst; simpl in *; [by eapply rtc_l|done..]. Qed.

Lemma SaveState_id ctx state (h : MemoryAgentTeamsPhaseHostStateStore) : (forall id st, h !! id = Some st -> ah_InvocationID st = id) ->
  forall id st, (SaveAgentTeamsPhaseHostState ctx state h).2 !! id = Some st -> ah_InvocationID st = id.
Proof.
  intros Hh id st. unfold SaveAgentTeamsPhaseHostState, mbind, M_bind, lift, get_state. destruct (ctx_Err ctx); [|by apply Hh].
  destruct (validateAgentTeamsPhaseHostState state); [|by apply Hh].
  assert (forall next, ah_InvocationID next = ah_InvocationID state -> (<[ah_InvocationID state := next]> h : gmap _ _) !! id = Some st -> ah_InvocationID st = id) as Hput.
  { intros next Hn [[<- <-]|[_ H]]%lookup_insert_Some; [done|by apply Hh]. }
  destruct (h !! ah_InvocationID state) as [existing|] eqn:Hex; [|by apply Hput].
  destruct (nextAgentTeamsPhaseHostState existing state) as [r|] eqn:Hn; [|by apply Hh].
  apply next_inv in Hn as (_ & [(_ & _ & ->)|(_ & _ & [(-> & _)|(-> & _)])]); [by apply Hput|by apply Hh|by apply Hput].
Qed.

Lemma agents_inv_kept x y : R x y -> agents_inv x -> agents_inv y.
Proof.
  induction 1 as [|x y z Hst _ IH]; [done|]. intros [Hx Hs]. apply IH. destruct Hst; split; simpl in *; [by eapply execution_step_inv|done|done| |done|done|done|done].
  by apply SaveState_id.
Qed.

Lemma stopped_kept id e x y : R x y -> stopped id e x -> stopped id e y.
Proof.
  intros HR (Hinv & (st & Hst & Hf & He) & mode & Ht). split; [by eapply agents_inv_kept|]. split.
  - exists st. split; [|done]. clear Ht He. induction HR as [|x y z Hs _ IH]; [done|]. apply IH; [eapply agents_inv_kept; [by apply rtc_once|done]|].
    destruct Hs; simpl in *; [done|by apply SaveState_final|done..].
  - exists mode. eapply terminated_as_kept; [by apply R_executions|by apply Hinv|done].
Qed.

(** *** Calls of the host *)

Context (Hev : collaborators_evolving client files (prepared_source cancelled) now R).

Definition host_evolves {X} (m : M error A X) : Prop := evolves R m.

Lemma evolves_on_states {X} (m : Context -> M error MemoryAgentTeamsPhaseHostStateStore X) :
  (forall c h, (m c h).2 = h \/ exists ctx st, (m c h).2 = (SaveAgentTeamsPhaseHostState ctx st h).2) -> host_evolves (on_states cancelled m).
Proof.
  intros Hm w. unfold on_states. destruct (Hm (cancelled (ad_world w)) (hz_states (ad_world w))) as [H|(ctx & st & H)]; destruct (m _ _) as [r h]; simpl in *; subst.
  - by destruct (ad_world w).
  - apply rtc_once. apply (agent_state ctx st (ad_store w) (ad_world w)).
Qed.

Lemma evolves_on_prepared {X} (m : Context -> M error MemoryPreparedInvocationWriter X) : host_evolves (on_prepared cancelled m).
Proof. intros w. unfold on_prepared. destruct (m _ _) as [r p]. simpl. apply rtc_once. apply (agent_prepared p (ad_store w) (ad_world w)). Qed.

Lemma wp_asking_evolves {X} (what : res X -> list HostCall) (m : M error A X) (Q : res X -> Hosted A -> Prop) w : host_evolves m ->
  (forall r w', R (pair_of w) (pair_of w') -> m (hd_world w) = (r, hd_world w') -> hd_trace w' = hd_trace w ++ what r -> Q r w') -> wp (asking what m) Q w.
Proof.
  intros Hm HQ. unfold wp, asking. specialize (Hm (hd_world w)). destruct (m (hd_world w)) as [r h] eqn:Heq. by apply HQ.
Qed.

Lemma evolves_start ref : host_evolves (hc_Dispatch host ref).
Proof. apply evolves_Dispatch; [apply _|exact R_execution|exact Hev]. Qed.

Lemma steady_of_evolving : collaborators_steady hashHex client files (prepared_source cancelled) now.
Proof. split; intros; intros x; apply R_executions, Hev. Qed.

Lemma evolves_sync e : host_evolves (hc_SyncExecutionWorkspace host e).
Proof. exact (evolves_Sync hashHex client files (prepared_source cancelled) now cancelled R R_execution Hev e). Qed.

Lemma evolves_saveState st : host_evolves (hc_SaveState host st).
Proof. apply evolves_on_states. intros c h. right. by exists c, st. Qed.

Lemma evolves_terminateIn ctx e mode : host_evolves (TerminateIn ToLower client ctx e mode).
Proof. exact (evolves_terminate hashHex ToLower client files (prepared_source cancelled) now R R_execution Hev ctx e mode). Qed.

Lemma wp_loadState id (Q : res (option AgentTeamsPhaseHostState) -> Hosted A -> Prop) w :
  (forall e w', pair_of w' = pair_of w -> hd_trace w' = hd_trace w -> Q (Err e) w') ->
  (forall w', pair_of w' = pair_of w -> hd_trace w' = hd_trace w ++ [StateLoaded id (hz_states (ad_world (hd_world w)) !! id)] ->
     Q (Ok (hz_states (ad_world (hd_world w)) !! id)) w') -> wp (loadState host id) Q w.
Proof.
  intros He Ha. assert (forall c h, LoadAgentTeamsPhaseHostState c id h = (match ctx_Err c with Ok _ => Ok (h !! id) | Err e => Err e end, h)) as Hload.
  { intros c h. unfold LoadAgentTeamsPhaseHostState, mbind, M_bind, lift, get_state. by destruct (ctx_Err c). }
  unfold wp, loadState, asking. simpl. unfold on_states. rewrite Hload.
  destruct (ctx_Err _); [apply Ha|apply He]; unfold pair_of; simpl; rewrite ?app_nil_r; try done; by destruct (ad_world (hd_world w)).
Qed.

(** A call that starts nothing and stores nothing. *)
Definition passive (t : list HostCall) : Prop := (forall s, StateSaved s ∉ t) /\ forall ref e, ExecutionStarted ref e ∉ t.

(** A call that stores nothing, and asks to cancel what it has started. *)
Definition undone (t : list HostCall) : Prop :=
  (forall s, StateSaved s ∉ t) /\ forall ref e, ExecutionStarted ref e ∈ t -> TerminationAsked e TerminateCancel ∈ t.

(** Invocation [id] is stopped still, and the call has come to nothing. *)
Definition refused {X} (id : InvocationID) (e : AgentTeamsExecutionRef) (t0 : list HostCall) (r : res X) (w : Hosted A) : Prop :=
  is_ok r = false /\ stopped id e (pair_of w) /\ exists new, hd_trace w = t0 ++ new /\ undone new.

Lemma passive_app t t' : passive t -> passive t' -> passive (t ++ t').
Proof. intros [H1 H2] [H1' H2']. split; intros; rewrite elem_of_app; naive_solver. Qed.

Lemma passive_nil : passive [].
Proof. split; intros; apply not_elem_of_nil. Qed.

Lemma passive_undone t : passive t -> undone t.
Proof. intros [H1 H2]. split; [done|]. intros ref e Hin. by apply H2 in Hin. Qed.

Lemma wp_prepare ref p rehydrate w :
  wp (prepare host ref p rehydrate) (fun _ w' => R (pair_of w) (pair_of w') /\ exists new, hd_trace w' = hd_trace w ++ new /\ passive new) w.
Proof.
  assert (forall {Y} (r : res Y), passive (when_ok (fun _ => [PreparedKnown ref]) r)) as Hpas by (intros Y [y|y]; split; set_solver).
  unfold prepare. destruct rehydrate; [apply wp_asking_evolves; [apply evolves_on_prepared|]; intros r w1 HR _ Ht; split; [done|eexists; by split]|].
  apply wp_catch, wp_bind. apply wp_asking_evolves; [apply evolves_on_prepared|]. intros [x|err] w1 HR _ Ht; [split; [done|]; eexists; split; [done|apply (Hpas _ (Ok x))]|].
  simpl in Ht. rewrite app_nil_r in Ht. destruct (IsCode _ _); [|split; [done|]; exists []; rewrite app_nil_r; split; [done|apply passive_nil]].
  apply wp_asking_evolves; [apply evolves_on_prepared|]. intros r w2 HR2 _ Ht2. rewrite Ht in Ht2. split; [by etrans|]. eexists. by split.
Qed.

(** No dispatch of a stopped invocation succeeds. *)
Lemma dispatchPrepared_refused req rehydrate e w t0 new0 : stopped (in_ID (dr_Invocation req)) e (pair_of w) -> hd_trace w = t0 ++ new0 -> passive new0 ->
  wp (dispatchPrepared hashHex encodeSpec encodeRef host req rehydrate) (refused (in_ID (dr_Invocation req)) e t0) w.
Proof.
  intros Hs Ht0 Hp0. unfold dispatchPrepared. set (ref := agentTeamsInvocationRef _ _ _ _ _). set (p := preparedInvocation _ _ _ _ _). apply wp_bind.
  eapply wp_mono; [apply wp_prepare|]. intros u w1 (HR1 & new1 & Ht1 & Hp1). apply (stopped_kept _ _ _ _ HR1) in Hs. rewrite Ht0, <- app_assoc in Ht1.
  pose proof (passive_app _ _ Hp0 Hp1) as Hp. destruct u as [[]|err]; [|split_and!; [done|done|]; eexists; split; [exact Ht1|by apply passive_undone]].
  apply wp_bind, wp_asking_evolves; [apply evolves_start|]. intros [execution|err] w2 HR2 Hrun Ht2; simpl in Ht2; rewrite Ht1, <- app_assoc in Ht2.
  2: { rewrite app_nil_r in Ht2. split_and!; [done|by eapply stopped_kept|]. eexists; split; [exact Ht2|by apply passive_undone]. }
  pose proof (wp_run _ _ _ _ _ (Dispatch_dispatched hashHex encodePrepared ToLower EqualFold client files (prepared_source cancelled) now cancelled cleanupCancelled
    heartbeatMaxAge ref (hd_world w1) steady_of_evolving (ag_executions _ (proj1 Hs))) Hrun execution eq_refl) as (r & Hr & _ & _ & Hd).
  apply (stopped_kept _ _ _ _ HR2) in Hs. pose proof Hs as (_ & (st & Hst & Hf & He) & mode & r' & Hr' & _ & Ht & _).
  assert (execution <> ah_Execution st) as Hne.
  { intros ->. rewrite He in Hr. simpl in Hr'. rewrite Hr' in Hr. injection Hr as ->. unfold given_out in Hd. rewrite Hd in Ht. discriminate. }
  apply wp_catch, wp_asking_evolves; [apply evolves_saveState|]. intros [[]|err] w3 HR3 Hsave Ht3.
  - exfalso. pose proof (SaveState_refused (cancelled (ad_world (hd_world w2))) _ st ref execution _ Hst Hf Hne) as Href.
    simpl in Hsave. unfold on_states in Hsave. destruct (SaveAgentTeamsPhaseHostState _ _ _) as [[[]|err] h']; [done|]. discriminate Hsave.
  - apply (stopped_kept _ _ _ _ HR3) in Hs. apply wp_bind, wp_catch, wp_bind, wp_asking_evolves; [apply evolves_terminateIn|]. intros x w4 HR4 _ Ht4.
    rewrite Ht3, Ht2, <- !app_assoc in Ht4. apply (stopped_kept _ _ _ _ HR4) in Hs.
    assert (refused (X := unit) (in_ID (dr_Invocation req)) e t0 (Err err) w4) as (Hrf1 & Hrf2 & Hrf3); [|by destruct x].
    split_and!; [done|done|]. eexists. split; [exact Ht4|]. destruct Hp as [Hp' Hp'']. split.
    + intros s Hin. rewrite !elem_of_app in Hin. set_solver.
    + intros ref' e' Hin. rewrite !elem_of_app in Hin. set_solver.
Qed.

Lemma dispatch_refused req rehydrate e w : stopped (in_ID (dr_Invocation req)) e (pair_of w) ->
  wp (dispatch hashHex encodeSpec encodeRef host req rehydrate) (refused (in_ID (dr_Invocation req)) e (hd_trace w)) w.
Proof.
  assert (forall {X} (r : res X) w', is_ok r = false -> stopped (in_ID (dr_Invocation req)) e (pair_of w') -> hd_trace w' = hd_trace w ->
    refused (in_ID (dr_Invocation req)) e (hd_trace w) r w') as Hsame.
  { intros X r w' Hr Hs Ht. split_and!; [done|done|]. exists []. rewrite app_nil_r. split; [done|apply passive_undone, passive_nil]. }
  intros Hs. unfold dispatch. apply wp_guard; [intros; by apply Hsame|]. intros ? _.
  destruct rehydrate; [eapply dispatchPrepared_refused; [done|by rewrite app_nil_r|apply passive_nil]|].
  apply wp_bind, wp_loadState; [intros err w1 Hw1 Ht1; apply Hsame; [done|by rewrite Hw1|done]|]. intros w1 Hw1 Ht1.
  pose proof Hs as (_ & (st & Hst & Hf & _) & _). simpl in Hst. rewrite Hst in *. rewrite bool_decide_eq_false_2 by (by destruct Hf as [-> | ->]).
  eapply dispatchPrepared_refused; [by rewrite Hw1|exact Ht1|]. split; set_solver.
Qed.

Lemma Stop_stopped req w : agents_inv (pair_of w) ->
  wp (Stop hashHex host req) (fun r w' => is_ok r = true -> exists e, stopped (in_ID (sr_Invocation req)) e (pair_of w')) w.
Proof.
  intros Hinv. unfold Stop, executionState. apply wp_bind. apply wp_guard; [done|]. intros ? _. apply wp_bind, wp_loadState; [done|]. intros w1 Hw1 _.
  destruct (hz_states _ !! _) as [st|] eqn:Hst; [|done]. apply wp_ret. pose proof (ag_states _ Hinv _ _ Hst) as Hid. rewrite <- Hw1 in Hinv.
  apply wp_bind, wp_asking_evolves; [apply evolves_sync|]. intros [checkpoint|err] w2 HR2 _ _; [|done]. apply (agents_inv_kept _ _ HR2) in Hinv.
  apply wp_bind, wp_asking_evolves; [apply evolves_saveState|]. intros [[]|err] w3 HR3 Hsave _; [|done]. apply (agents_inv_kept _ _ HR3) in Hinv.
  assert (hz_states (ad_world (hd_world w3)) !! ah_InvocationID st = Some (ah_set_mode TerminateRecoverableStop st)) as Hstored.
  { simpl in Hsave. unfold on_states in Hsave. destruct (SaveAgentTeamsPhaseHostState _ _ _) as [r h'] eqn:Hrun. injection Hsave as -> <-. simpl.
    by apply SaveState_stored in Hrun. }
  apply wp_bind, wp_asking_evolves; [apply evolves_terminateIn|]. intros [[]|err] w4 HR4 Hrun _; [|done]. apply wp_ret. intros _. exists (ah_Execution st). rewrite <- Hid.
  assert (terminated_as (ah_Execution st) TerminateRecoverableStop (ad_store (hd_world w4))) as Hterm.
  { refine (wp_run _ _ _ _ _ (TerminateIn_terminated hashHex ToLower client files (prepared_source cancelled) now R Hev R_executions cancelled
      (ah_Execution st) TerminateRecoverableStop (hd_world w3) (ag_executions _ Hinv)) Hrun eq_refl). }
  split; [by eapply agents_inv_kept|]. split; [|by eexists]. exists (ah_set_mode TerminateRecoverableStop st). split_and!; [|by left|done].
  clear -HR4 Hstored. revert HR4. generalize (pair_of w4). intros y HR.
  assert (hz_states (pair_of w3).2 !! ah_InvocationID st = Some (ah_set_mode TerminateRecoverableStop st)) as H by done. revert H.
  induction HR as [|x y z Hs _ IH]; [done|]. intros H. apply IH. destruct Hs; simpl in *; [done|apply SaveState_final; [done|by left]|done..].
Qed.


End stopped.

(** ** References *)

(** The identity of an invocation can be read off its references. *)
Lemma invocation_ref_round_trip hashHex encodeSpec encodeRef req rehydrate : ~ char_in "/" (in_ID (dr_Invocation req)) ->
  invocationIDFromAgentTeamsRef (agentTeamsInvocationRef hashHex encodeSpec encodeRef req rehydrate) = in_ID (dr_Invocation req).
Proof.
  intros Hn. unfold invocationIDFromAgentTeamsRef, agentTeamsInvocationRef. rewrite TrimPrefix_app.
  change ("/" +:+ ?x)%string with (String "/" x). by rewrite Cut_app.
Qed.

(** ** An invocation that is stopped *)

Module HostAgentSample.
#[local] Existing Instance GoRuntime_list.
Import AgentSample.

Local Abbreviation C := (HostStores unit).
Local Abbreviation W := (ExecutionStore * C)%type.

Definition provider : Client W := mkClient W (mret hosts) (fun _ => mret tt)
  (fun r => mret (mkTaskSnapshot (dr_TaskID r) (dr_ProjectID r) (dr_HostRef r) "pending" "" "")) (fun _ _ => mret tt) (fun _ _ => mret tt)
  (fun _ _ => mret tt) (fun _ => mret tt) (fun _ _ => mret tt)
  (fun t => mret (mkTaskCheck (mkTaskSnapshot t "p1" "w2" "submitted" "" "") "" "" [] true [])) (fun _ => mret []) (Some (fun _ => mret tt)) None None None.
Definition transport : FileTransport W := mkFiles W (fun _ _ => mret tt) (fun _ => mret (mkWorkspaceCheckpoint "rev-1")) (fun _ => mret "").
Definition clock : M error W Time := mret 100%Z.
Definition open (_ : C) : Context := None.

(** The invocation of [AgentSample] was dispatched. *)
Definition running : AgentTeamsPhaseHostState := mkHostState "inv-1" "ref-1" (mkExecution "inv-1" "threadmill-ref-1" "w2") "".
Definition started : Hosted (Adapter C) :=
  mkHosted (mkAdapter dispatched (mkHostStores ∅ (SaveAgentTeamsPhaseHostState None running ∅).2 tt) []) [].

Definition invocation : Invocation :=
  mkInvocation "inv-1" "actor" "p1" "t1" "execute" "" "" "" 1 RoleExecutor "" "running" "b1" "l1" "ws" "slice" "memory" {["shared" := "h"]} {["s" := "h"]} [ToolWorkspaceRead] 1 1000.

Definition inputs : PhaseInputSet := mkInputSet "in-1" [] [] [].
Definition bound : BindingSnapshot :=
  mkSnapshot "p1" "actor" "t1" "execute" 1 "b1" "l1" "ws" "rev-0" "" "" "" "" "" "" "" inputs "" false.
Definition stop : StopRequest := mkStopRequest invocation zeroCommand bound.
Definition again : DispatchRequest :=
  mkDispatch invocation (mkCapability "p1" "t1" "inv-1" "" "" "" RoleExecutor "" ∅ 1000) (mkRendered "go on" ∅ ∅ "hash")
    (mkStartInput "inv-1" (mkRef "t1" "execute") 1 "b1" inputs) bound "".

Definition encodeSpec (d : agentTeamsPhaseSpecDocument) : string := sd_Prompt d.
Definition encodeRef (a b c d e : string) : string := a +:+ b +:+ c +:+ d +:+ e.
Definition host : AgentTeamsPhaseHostConfig (Adapter C) := memoryHost id pi_Spec id String.eqb provider transport clock open open 60 "!room".

Lemma started_reach : rtc (agent_step id) (NewMemoryExecutionStore, mkHostStores ∅ ∅ tt) (pair_of started).
Proof.
  eapply rtc_l; [apply (agent_execution id), (step_reserve id)|]. eapply rtc_l; [apply (agent_execution id), (step_dispatched id)|].
  apply rtc_once. apply (agent_state id None running dispatched (mkHostStores ∅ ∅ tt)).
Defined.

Lemma provider_evolving : collaborators_evolving provider transport (prepared_source open) clock (rtc (agent_step id)).
Proof.
  split; intros; try (intros x; apply rtc_refl).
  - intros [s c]. unfold prepared_source, LoadPreparedInvocation, mbind, M_bind, lift, get_state. simpl. destruct c as [p h []]. simpl.
    destruct (p !! ref); apply rtc_refl.
  - match goal with H : _ = Some _ |- _ => injection H as <- end. intros x. apply rtc_refl.
Qed.


End HostAgentSample.
