(* ===== verification/BindingResolver.v ===== *)
(** * The binding resolver of the phase controller

    [runtime/phase/context_binding_resolver.go]: what an invocation starts with.  The
    resolver takes the binding of a command from a source, checks it, and completes it
    with the startup slice of the context graph and the memory candidates of the task.
    The source and the context graph are interfaces over a world [H], whose calls are
    logged; the context graph is then the in-memory one.  JSON and SHA-256 are
    parameters.  [ensureInitialSlice] is modelled for calls of one invocation that do
    not overlap, for which it is the call that it coalesces. *)

From stdpp Require Import base tactics option list strings gmap relations.
From Stdlib Require Import ZArith Ascii.
From S2P Require Import Prelude GoLib GoStrings Kernel Auth CtxModel CtxSubs CtxCurate CtxReads CtxTasks CtxSpec CtxReach CtxCommit.
From S2P Require Import ContextProps CoordTypes Catalog Invocation PhaseTypes Phase Hoare.

Record BindingResolveRequest := mkResolveRequest {
  br_Command : PhaseCommand;
  br_InvocationID : InvocationID;
}.

Record BaseBindingSource (H : Type) := mkBaseSource {
  bb_ResolvePhaseBinding : BindingResolveRequest -> M error H (BindingSnapshot * list string);
  bb_RefreshPhaseBinding : ActiveInvocation -> M error H (BindingSnapshot * list string);
  bb_AbortResolvedPhaseBinding : BindingResolveRequest -> BindingSnapshot -> M error H unit;
}.
Arguments mkBaseSource {H}.
Arguments bb_ResolvePhaseBinding {H}.
Arguments bb_RefreshPhaseBinding {H}.
Arguments bb_AbortResolvedPhaseBinding {H}.

(** The calls that the resolver makes of [ContextRuntime]. *)
Record ContextRuntime (H : Type) := mkContextRuntime {
  cr_EnsureInitialSlice : Principal -> list string -> M error H ContextSlice;
  cr_ListTaskCandidates : Principal -> M error H (list TaskMemoryCandidateView);
  cr_EndInvocation : Principal -> InvocationID -> M error H unit;
}.
Arguments mkContextRuntime {H}.
Arguments cr_EnsureInitialSlice {H}.
Arguments cr_ListTaskCandidates {H}.
Arguments cr_EndInvocation {H}.

Record ContextBindingResolver (H : Type) := mkResolver {
  rv_Base : option (BaseBindingSource H);
  rv_Contexts : option (ContextRuntime H);
}.
Arguments mkResolver {H}.
Arguments rv_Base {H}.
Arguments rv_Contexts {H}.

(** What the resolver has asked for. *)
Inductive BindingCall :=
| BindingTaken (req : BindingResolveRequest) (binding : BindingSnapshot)
| BindingAborted (req : BindingResolveRequest) (binding : BindingSnapshot)
| SliceAsked (principal : Principal)
| InvocationEnded (principal : Principal) (id : InvocationID).

Record Bound (H : Type) := mkBound {
  bo_world : H;
  bo_trace : list BindingCall;
}.
Arguments mkBound {H}.
Arguments bo_world {H}.
Arguments bo_trace {H}.

Definition context_bound (slice ref memory memoryRef : string) (b : BindingSnapshot) : BindingSnapshot :=
  mkSnapshot (bs_ProjectID b) (bs_ActorPrincipalID b) (bs_TaskID b) (bs_EndpointID b) (bs_Generation b) (bs_BindingRef b) (bs_LeaseRef b)
    (bs_WorkspaceRef b) (bs_WorkspaceRevision b) (bs_WorkspaceBinding b) ref slice memoryRef memory (bs_TaskContract b) (bs_PhaseSpec b)
    (bs_Inputs b) (bs_CheckpointRef b) (bs_NonResumable b).

Definition contextTools : ToolMap := ToolSet [ToolContextSubscribe; ToolAgentListTaskMemoryCandidates].

Definition phaseContextPrincipal (command : PhaseCommand) (invocationID : InvocationID) (binding : BindingSnapshot) : res Principal :=
  role ← phaseRole (ref_EndpointID (cmd_Endpoint command));
  _ ← fail_if (bool_decide (bs_ProjectID binding = "")) (InvalidArgument "project_id is required");
  let taskID := if bool_decide (bs_TaskID binding = "") then ref_TaskID (cmd_Endpoint command) else bs_TaskID binding in
  _ ← fail_if (bool_decide (taskID = "")) (InvalidArgument "task_id is required");
  _ ← fail_if (bool_decide (bs_ActorPrincipalID binding = "")) (InvalidArgument "actor_principal_id is required");
  Ok (mkPrincipal (bs_ActorPrincipalID binding) PrincipalAgent (bs_ProjectID binding) role "" taskID invocationID "" "" "" contextTools time_zero).

Definition invocationContextPrincipal (invocation : Invocation) : res Principal :=
  _ ← fail_if (bool_decide (in_ProjectID invocation = "")) (InvalidArgument "project_id is required");
  _ ← fail_if (bool_decide (in_TaskID invocation = "")) (InvalidArgument "task_id is required");
  _ ← fail_if (bool_decide (in_ID invocation = "")) (InvalidArgument "invocation_id is required");
  _ ← fail_if (negb (IsPhase (in_Role invocation))) (InvalidArgument "phase role is required");
  _ ← fail_if (bool_decide (in_ActorPrincipalID invocation = "")) (InvalidArgument "actor_principal_id is required");
  Ok (mkPrincipal (in_ActorPrincipalID invocation) PrincipalAgent (in_ProjectID invocation) (in_Role invocation) "" (in_TaskID invocation) (in_ID invocation)
        "" "" "" contextTools time_zero).

Section resolver.
Context (hash : string -> string) (encodeSlice : ContextSlice -> res string) (encodeMemory : list TaskMemoryCandidateView -> res string).

(** The first eight bytes of the digest, in hexadecimal. *)
Definition stableBindingRef (kind : string) (projectID : ProjectID) (taskID : TaskID) (invocationID : InvocationID) (raw : string) : string :=
  kind +:+ "://" +:+ projectID +:+ "/" +:+ taskID +:+ "/" +:+ invocationID +:+ "/" +:+ String.substring 0 16 (hash raw).

Context {H : Type} (r : ContextBindingResolver H).
Local Abbreviation A := (Bound H).

Definition on_world {X} (what : res X -> list BindingCall) (m : M error H X) : M error A X := fun w =>
  let '(x, h) := m (bo_world w) in (x, mkBound h (bo_trace w ++ what x)).

(** [_ = r.Base.AbortResolvedPhaseBinding(...)], then the error. *)
Definition aborting {X} (base : BaseBindingSource H) (req : BindingResolveRequest) (binding : BindingSnapshot) (cause : error) : M error A X :=
  _ ← catch (on_world (fun _ => [BindingAborted req binding]) (bb_AbortResolvedPhaseBinding base req binding)) (fun _ => mret tt);
  throw cause.

Definition abortResolvedBinding {X} (base : BaseBindingSource H) (contexts : ContextRuntime H) (req : BindingResolveRequest) (binding : BindingSnapshot)
    (principal : Principal) (cause : error) : M error A X :=
  _ ← catch (on_world (fun _ => [InvocationEnded principal (br_InvocationID req)]) (cr_EndInvocation contexts principal (br_InvocationID req))) (fun _ => mret tt);
  aborting base req binding cause.

Definition ensureInitialSlice (contexts : ContextRuntime H) (principal : Principal) (subgraphIDs : list string) : M error A ContextSlice :=
  on_world (fun _ => [SliceAsked principal]) (cr_EnsureInitialSlice contexts principal subgraphIDs).

Definition bindContextWithAbort (base : BaseBindingSource H) (req : BindingResolveRequest) (binding : BindingSnapshot) (initialSubgraphIDs : list string) :
    M error A BindingSnapshot :=
  match rv_Contexts r with
  | None => aborting base req binding (InvalidArgument "context runtime is required")
  | Some contexts =>
    match phaseContextPrincipal (br_Command req) (br_InvocationID req) binding with
    | Err e => aborting base req binding e
    | Ok principal =>
      catch
        (slice ← ensureInitialSlice contexts principal initialSubgraphIDs;
         memory ← on_world (fun _ => []) (cr_ListTaskCandidates contexts principal);
         sliceJSON ← lift (encodeSlice slice);
         memoryJSON ← lift (encodeMemory memory);
         let ref kind := stableBindingRef kind (bs_ProjectID binding) (ref_TaskID (cmd_Endpoint (br_Command req))) (br_InvocationID req) in
         mret (context_bound sliceJSON (ref "context-slice" sliceJSON) memoryJSON (ref "task-memory-buffer" memoryJSON) binding))
        (abortResolvedBinding base contexts req binding principal)
    end
  end.

(** The identity of the invocation must be that of its command. *)
Definition requireInvocation (command : PhaseCommand) (id : InvocationID) : res unit :=
  _ ← validateCommand command;
  _ ← fail_if (bool_decide (id = "")) (InvalidArgument "invocation_id is required");
  fail_if (bool_decide (id <> deterministicInvocationID hash command)) (StaleBinding "invocation id does not match command").

Definition ResolveForInvocation (req : BindingResolveRequest) : M error A BindingSnapshot :=
  match rv_Base r with
  | None => throw (InvalidArgument "base binding source is required")
  | Some base =>
    _ ← lift (requireInvocation (br_Command req) (br_InvocationID req));
    taken ← on_world (fun x => match x with Ok b => [BindingTaken req b.1] | Err _ => [] end) (bb_ResolvePhaseBinding base req);
    let '(binding, initialSubgraphIDs) := taken in
    match validateBindingForCommand binding (br_Command req) with
    | Err e => aborting base req binding e
    | Ok _ =>
      if bool_decide (cmd_Action (br_Command req) = CommandStop) then mret binding
      else bindContextWithAbort base req binding initialSubgraphIDs
    end
  end.

Definition Resolve (command : PhaseCommand) : M error A BindingSnapshot :=
  ResolveForInvocation (mkResolveRequest command (deterministicInvocationID hash command)).

Definition Refresh (active : ActiveInvocation) : M error A BindingSnapshot :=
  match rv_Base r with
  | None => throw (InvalidArgument "base binding source is required")
  | Some base =>
    let req := mkResolveRequest (ai_Command active) (in_ID (ai_Invocation active)) in
    _ ← lift (requireInvocation (ai_Command active) (in_ID (ai_Invocation active)));
    taken ← on_world (fun x => match x with Ok b => [BindingTaken req b.1] | Err _ => [] end) (bb_RefreshPhaseBinding base active);
    let '(binding, initialSubgraphIDs) := taken in
    match validateBindingForActive binding active with
    | Err e => aborting base req binding e
    | Ok _ =>
      if bool_decide (bs_ActorPrincipalID binding <> in_ActorPrincipalID (ai_Invocation active))
      then aborting base req binding (StaleBinding "binding actor principal does not match active invocation")
      else bindContextWithAbort base req binding initialSubgraphIDs
    end
  end.

(** [ContextBindingLifecycle.End]; [Complete] is the same. *)
Definition End_ (invocation : Invocation) : M error A unit :=
  match rv_Contexts r with
  | None => throw (InvalidArgument "context runtime is required")
  | Some contexts =>
    principal ← lift (invocationContextPrincipal invocation);
    on_world (fun _ => [InvocationEnded principal (in_ID invocation)]) (cr_EndInvocation contexts principal (in_ID invocation))
  end.

End resolver.

(** ** What is taken is used or given back *)

Section settled.
Context (hash : string -> string) (encodeSlice : ContextSlice -> res string) (encodeMemory : list TaskMemoryCandidateView -> res string).
Context {H : Type} (r : ContextBindingResolver H).

(** The binding [b], completed with the context of the invocation. *)
Definition completed (req : BindingResolveRequest) (b b' : BindingSnapshot) : Prop :=
  exists slice memory sliceJSON memoryJSON, encodeSlice slice = Ok sliceJSON /\ encodeMemory memory = Ok memoryJSON /\
    let ref kind := stableBindingRef hash kind (bs_ProjectID b) (ref_TaskID (cmd_Endpoint (br_Command req))) (br_InvocationID req) in
    b' = context_bound sliceJSON (ref "context-slice" sliceJSON) memoryJSON (ref "task-memory-buffer" memoryJSON) b.

(** What a call that took [b] may end with, and what it has asked for since; [early]
    when it answers the binding without looking at the context graph. *)
Definition settled (early : bool) (req : BindingResolveRequest) (b : BindingSnapshot) (x : res BindingSnapshot) (since : list BindingCall) : Prop :=
  match x with
  | Ok b' => if early then b' = b /\ since = []
             else exists p, phaseContextPrincipal (br_Command req) (br_InvocationID req) b = Ok p /\ since = [SliceAsked p] /\ completed req b b'
  | Err _ => since = [BindingAborted req b] \/
             (early = false /\ exists p, phaseContextPrincipal (br_Command req) (br_InvocationID req) b = Ok p /\
                                since = [SliceAsked p; InvocationEnded p (br_InvocationID req); BindingAborted req b])
  end.

Lemma aborting_run {X} base req b e w : exists h, aborting (X:=X) base req b e w = (Err e, mkBound (H:=H) h (bo_trace w ++ [BindingAborted req b])).
Proof.
  unfold aborting, on_world, catch, mbind, M_bind, mret, M_ret, throw. destruct (bb_AbortResolvedPhaseBinding base req b (bo_world w)) as [[[]|e'] h]; by exists h.
Qed.

Lemma aborting_settled early base req b e (w : Bound H) : exists since,
  bo_trace (aborting (X:=BindingSnapshot) base req b e w).2 = bo_trace w ++ since /\ settled early req b (aborting (X:=BindingSnapshot) base req b e w).1 since.
Proof. destruct (aborting_run (X:=BindingSnapshot) base req b e w) as [h ->]. eexists. split; [done|by left]. Qed.

Lemma abortResolved_run {X} base contexts req b p e w :
  exists h, abortResolvedBinding (X:=X) base contexts req b p e w = (Err e, mkBound (H:=H) h (bo_trace w ++ [InvocationEnded p (br_InvocationID req); BindingAborted req b])).
Proof.
  unfold abortResolvedBinding, on_world, catch, mbind, M_bind, mret, M_ret. destruct (cr_EndInvocation contexts p (br_InvocationID req) (bo_world w)) as [x h].
  destruct (aborting_run (X:=X) base req b e (mkBound h (bo_trace w ++ [InvocationEnded p (br_InvocationID req)]))) as [h' Ha]. exists h'.
  destruct x as [[]|e']; rewrite Ha; simpl; by rewrite <- app_assoc.
Qed.

Lemma bindContext_settled base req b ids w : exists since,
  bo_trace (bindContextWithAbort hash encodeSlice encodeMemory r base req b ids w).2 = bo_trace w ++ since /\
  settled false req b (bindContextWithAbort hash encodeSlice encodeMemory r base req b ids w).1 since.
Proof.
  unfold bindContextWithAbort. destruct (rv_Contexts r) as [contexts|]; [|apply aborting_settled].
  destruct (phaseContextPrincipal (br_Command req) (br_InvocationID req) b) as [p|e] eqn:Hp; [|apply aborting_settled].
  assert (forall e h, exists since, bo_trace (abortResolvedBinding (X:=BindingSnapshot) base contexts req b p e (mkBound h (bo_trace w ++ [SliceAsked p]))).2 = bo_trace w ++ since /\
    settled false req b (abortResolvedBinding (X:=BindingSnapshot) base contexts req b p e (mkBound h (bo_trace w ++ [SliceAsked p]))).1 since) as Habort.
  { intros e h. destruct (abortResolved_run (X:=BindingSnapshot) base contexts req b p e (mkBound h (bo_trace w ++ [SliceAsked p]))) as [h' ->]. eexists. simpl. rewrite <- app_assoc.
    split; [done|]. right. split; [done|]. by exists p. }
  unfold catch, ensureInitialSlice, on_world, mbind, M_bind, lift, mret, M_ret. destruct (cr_EnsureInitialSlice contexts p ids (bo_world w)) as [[slice|e] h]; [|by apply Habort]. simpl.
  destruct (cr_ListTaskCandidates contexts p h) as [[memory|e] h1]; rewrite app_nil_r; [|by apply Habort].
  destruct (encodeSlice slice) as [sj|e] eqn:Hsj; [|by apply Habort]. destruct (encodeMemory memory) as [mj|e] eqn:Hmj; [|by apply Habort].
  eexists. simpl. split; [done|]. exists p. split_and!; [done..|]. by exists slice, memory, sj, mj.
Qed.

Lemma requireInvocation_id command id u : requireInvocation hash command id = Ok u -> id = deterministicInvocationID hash command.
Proof. unfold requireInvocation. intros H1. apply bind_Ok in H1 as (? & _ & H1). apply bind_Ok in H1 as (? & _ & H1%guard_not_Ok). done. Qed.

(** The trace of a call that took [b] and went on with [run]. *)
Definition took (early : bool) (req : BindingResolveRequest) (w : Bound H) (P : BindingSnapshot -> Prop) (run : res BindingSnapshot * Bound H) : Prop :=
  exists new, bo_trace run.2 = bo_trace w ++ new /\
    ((new = [] /\ is_ok run.1 = false) \/
     (exists b since, new = BindingTaken req b :: since /\ settled early req b run.1 since /\ (is_ok run.1 = true -> P b))).

Lemma took_nothing early req w P e (h : H) : took early req w P (Err e, mkBound h (bo_trace w ++ [])).
Proof. exists []. split; [done|by left]. Qed.

Lemma took_settled early req b w (h : H) P run :
  (exists since, bo_trace run.2 = bo_trace (mkBound h (bo_trace w ++ [BindingTaken req b])) ++ since /\ settled early req b run.1 since) ->
  (is_ok run.1 = true -> P b) -> took early req w P run.
Proof. intros (since & Htr & Hs) HP. exists (BindingTaken req b :: since). rewrite Htr. simpl. rewrite <- app_assoc. split; [done|]. right. by exists b, since. Qed.

Lemma took_aborted early base req b w (h : H) e P : took early req w P (aborting (X:=BindingSnapshot) base req b e (mkBound h (bo_trace w ++ [BindingTaken req b]))).
Proof.
  apply (took_settled _ req b w h); [apply aborting_settled|].
  by destruct (aborting_run (X:=BindingSnapshot) base req b e (mkBound h (bo_trace w ++ [BindingTaken req b]))) as [? ->].
Qed.

(** C21: A binding that the resolver took is used or given back, exactly once.  Whatever
    its collaborators answer, a call that fails has taken nothing, or has aborted the
    one binding it took as the last thing it did, after ending the invocation in the
    context graph whenever a startup slice had been asked for; a call that answers took
    one binding, which passed the checks of its command (and of the active invocation,
    and its actor, on a refresh), and aborted nothing; resolving a stop command returns
    it unchanged without looking at the context graph, and every other call returns it
    with references that are derived from the project, the task, the invocation and the
    encoded context, after asking for the startup slice once. *)
Theorem bindings_settled w :
  (forall req, took (bool_decide (cmd_Action (br_Command req) = CommandStop)) req w (fun b => br_InvocationID req = deterministicInvocationID hash (br_Command req) /\ validateBindingForCommand b (br_Command req) = Ok tt)
     (ResolveForInvocation hash encodeSlice encodeMemory r req w)) /\
  (forall active, took false (mkResolveRequest (ai_Command active) (in_ID (ai_Invocation active))) w
     (fun b => in_ID (ai_Invocation active) = deterministicInvocationID hash (ai_Command active) /\ validateBindingForActive b active = Ok tt /\
               bs_ActorPrincipalID b = in_ActorPrincipalID (ai_Invocation active))
     (Refresh hash encodeSlice encodeMemory r active w)).
Proof.
  split.
  - intros req. unfold ResolveForInvocation. destruct (rv_Base r) as [base|]; [|exists []; rewrite app_nil_r; by auto].
    unfold mbind, M_bind, lift. destruct (requireInvocation hash (br_Command req) (br_InvocationID req)) as [u|e] eqn:Hreq; [|exists []; rewrite app_nil_r; by auto].
    apply requireInvocation_id in Hreq. unfold on_world. destruct (bb_ResolvePhaseBinding base req (bo_world w)) as [[[b ids]|e] h]; simpl; [|apply took_nothing].
    destruct (validateBindingForCommand b (br_Command req)) as [[]|e] eqn:Hv; [|apply took_aborted].
    case_bool_decide; apply (took_settled _ req b w h); [|done|apply bindContext_settled|done]. exists []. rewrite app_nil_r. by split_and!.
  - intros active. unfold Refresh. destruct (rv_Base r) as [base|]; [|exists []; rewrite app_nil_r; by auto]. set (req := mkResolveRequest _ _).
    unfold mbind, M_bind, lift. destruct (requireInvocation hash (ai_Command active) (in_ID (ai_Invocation active))) as [u|e] eqn:Hreq; [|exists []; rewrite app_nil_r; by auto].
    apply requireInvocation_id in Hreq. unfold on_world. destruct (bb_RefreshPhaseBinding base active (bo_world w)) as [[[b ids]|e] h]; simpl; [|apply took_nothing].
    destruct (validateBindingForActive b active) as [[]|e] eqn:Hv; [|apply took_aborted]. case_bool_decide as Hactor; [apply took_aborted|].
    apply (took_settled _ req b w h); [apply bindContext_settled|done].
Qed.

End settled.

(** ** The startup context on the in-memory context graph *)

Section memory.
Context `{GR : GoRuntime} (hash : string -> string) (encodeSlice : ContextSlice -> res string) (encodeMemory : list TaskMemoryCandidateView -> res string).
Context {E : Type} (open : E -> Context) (clock : E -> Time).
Local Abbreviation W := (CtxStore * E)%type.

Definition on_store {X} (m : Context -> Time -> M error CtxStore X) : M error W X := fun w =>
  let '(x, s) := m (open w.2) (clock w.2) w.1 in (x, (s, w.2)).

Definition memoryContexts : ContextRuntime W :=
  mkContextRuntime (fun p ids => on_store (fun ctx now => EnsureInitialSlice ctx p ids now)) (fun p => on_store (fun ctx _ => ListTaskCandidates ctx p))
    (fun p id => on_store (fun ctx now => EndInvocation ctx p id now)).

Definition memoryResolver (base : BaseBindingSource W) : ContextBindingResolver W := mkResolver (Some base) (Some memoryContexts).

(** A source that uses the context graph only through its calls. *)
Record graph_user (base : BaseBindingSource W) : Prop := mkGraphUser {
  gu_resolve : forall req w, ctx_steps w.1 (bb_ResolvePhaseBinding base req w).2.1;
  gu_refresh : forall active w, ctx_steps w.1 (bb_RefreshPhaseBinding base active w).2.1;
}.

(** A slice that is there is the one that is returned. *)
Lemma EnsureInitialSlice_same ctx p ids now s slice s1 : EnsureInitialSlice ctx p ids now s = (Ok slice, s1) ->
  cs_initialSlices s1 !! (pri_ProjectID p, pri_InvocationID p) = Some slice /\
  (forall x, cs_initialSlices s !! (pri_ProjectID p, pri_InvocationID p) = Some x -> slice = x).
Proof.
  intros Hrun. destruct ctx as [e|]; [done|]. pose proof (EnsureInitialSlice_keeps None p ids now s) as Hkeep. rewrite Hrun in Hkeep. simpl in Hkeep.
  apply EnsureInitialSlice_stored in Hrun as [_ Hs]. split; [done|]. intros x Hx%Hkeep. unfold consumerInvocationID in Hs. congruence.
Qed.

Lemma phaseContextPrincipal_key command id b p : phaseContextPrincipal command id b = Ok p -> pri_ProjectID p = bs_ProjectID b /\ pri_InvocationID p = id.
Proof. unfold phaseContextPrincipal. intros H. res_inv. by simplify_eq. Qed.

Lemma bindContext_slice base req b ids w b' w1 :
  bindContextWithAbort hash encodeSlice encodeMemory (memoryResolver base) base req b ids w = (Ok b', w1) ->
  exists slice sliceJSON, cs_initialSlices (bo_world w1).1 !! (bs_ProjectID b, br_InvocationID req) = Some slice /\
    (forall x, cs_initialSlices (bo_world w).1 !! (bs_ProjectID b, br_InvocationID req) = Some x -> slice = x) /\
    encodeSlice slice = Ok sliceJSON /\ bs_ProjectID b' = bs_ProjectID b /\ bs_ContextSlice b' = sliceJSON /\
    bs_ContextSliceRef b' = stableBindingRef hash "context-slice" (bs_ProjectID b) (ref_TaskID (cmd_Endpoint (br_Command req))) (br_InvocationID req) sliceJSON.
Proof.
  unfold bindContextWithAbort. cbn [rv_Contexts memoryResolver].
  destruct (phaseContextPrincipal (br_Command req) (br_InvocationID req) b) as [p|e] eqn:Hp; [|destruct (aborting_run (X:=BindingSnapshot) base req b e w) as [h ->]; done].
  apply phaseContextPrincipal_key in Hp as [Hproj Hid].
  assert (forall e w0, abortResolvedBinding (X:=BindingSnapshot) base memoryContexts req b p e w0 <> (Ok b', w1)) as Hno.
  { intros e w0. by destruct (abortResolved_run (X:=BindingSnapshot) base memoryContexts req b p e w0) as [h ->]. }
  unfold catch, ensureInitialSlice, on_world, mbind, M_bind, lift, mret, M_ret. cbn [cr_EnsureInitialSlice cr_ListTaskCandidates memoryContexts]. unfold on_store.
  destruct (EnsureInitialSlice _ p ids _ _) as [[slice|e] s1] eqn:Hs; [|by intros ?%Hno]. apply EnsureInitialSlice_same in Hs as [Hstored Hsame]. cbn.
  destruct (ListTaskCandidates _ p s1) as [[memory|e] s2] eqn:Hm; [|by intros ?%Hno].
  assert (s2 = s1) as ->.
  { assert (readonly (ListTaskCandidates (open (bo_world w).2) p)) as Hread by (unfold ListTaskCandidates, get_data; repeat (apply readonly_bind; [auto with threadmill|intros ?]); auto with threadmill). pose proof (Hread s1) as Hs. by rewrite Hm in Hs. }
  destruct (encodeSlice slice) as [sj|e] eqn:Hsj; [|by intros ?%Hno]. destruct (encodeMemory memory) as [mj|e]; [|by intros ?%Hno].
  intros [= <- <-]. exists slice, sj. simpl. rewrite <- Hproj, <- Hid. by split_and!.
Qed.

(** A call that answers binds the context of a binding that was checked. *)
Lemma resolve_slice base req w b w1 : graph_user base -> cmd_Action (br_Command req) <> CommandStop ->
  ResolveForInvocation hash encodeSlice encodeMemory (memoryResolver base) req w = (Ok b, w1) ->
  exists b0 ids w0, ctx_steps (bo_world w).1 (bo_world w0).1 /\ br_InvocationID req = deterministicInvocationID hash (br_Command req) /\
    bindContextWithAbort hash encodeSlice encodeMemory (memoryResolver base) base req b0 ids w0 = (Ok b, w1).
Proof.
  intros Hg Hstop. unfold ResolveForInvocation. cbn [rv_Base memoryResolver]. unfold mbind, M_bind, lift.
  destruct (requireInvocation hash (br_Command req) (br_InvocationID req)) eqn:Hreq; [|done]. apply requireInvocation_id in Hreq. unfold on_world. pose proof (gu_resolve _ Hg req (bo_world w)) as Hsteps.
  destruct (bb_ResolvePhaseBinding base req (bo_world w)) as [[[b0 ids]|e] h]; [|done]. cbn in Hsteps |- *.
  destruct (validateBindingForCommand b0 (br_Command req)); [|by destruct (aborting_run (X:=BindingSnapshot) base req b0 e (mkBound h (bo_trace w ++ [BindingTaken req b0]))) as [h' ->]].
  rewrite bool_decide_eq_false_2 by done. intros Hb. by exists b0, ids, (mkBound h (bo_trace w ++ [BindingTaken req b0])).
Qed.

Lemma refresh_slice base active w b w1 : graph_user base ->
  Refresh hash encodeSlice encodeMemory (memoryResolver base) active w = (Ok b, w1) ->
  let req := mkResolveRequest (ai_Command active) (in_ID (ai_Invocation active)) in
  exists b0 ids w0, ctx_steps (bo_world w).1 (bo_world w0).1 /\ bs_ProjectID b0 = in_ProjectID (ai_Invocation active) /\
    in_ID (ai_Invocation active) = deterministicInvocationID hash (ai_Command active) /\
    bindContextWithAbort hash encodeSlice encodeMemory (memoryResolver base) base req b0 ids w0 = (Ok b, w1).
Proof.
  intros Hg. unfold Refresh. cbn [rv_Base memoryResolver]. set (req := mkResolveRequest _ _). unfold mbind, M_bind, lift.
  destruct (requireInvocation hash (ai_Command active) (in_ID (ai_Invocation active))) eqn:Hreq; [|done]. apply requireInvocation_id in Hreq. unfold on_world.
  pose proof (gu_refresh _ Hg active (bo_world w)) as Hsteps. destruct (bb_RefreshPhaseBinding base active (bo_world w)) as [[[b0 ids]|e] h]; [|done]. cbn in Hsteps |- *.
  assert (forall e, aborting (X:=BindingSnapshot) base req b0 e (mkBound h (bo_trace w ++ [BindingTaken req b0])) <> (Ok b, w1)) as Hno.
  { intros e. by destruct (aborting_run (X:=BindingSnapshot) base req b0 e (mkBound h (bo_trace w ++ [BindingTaken req b0]))) as [h' ->]. }
  destruct (validateBindingForActive b0 active) eqn:Hv; [|by intros ?%Hno]. case_bool_decide; [by intros ?%Hno|]. intros Hb.
  exists b0, ids, (mkBound h (bo_trace w ++ [BindingTaken req b0])). split_and!; [done| |done|done].
  unfold validateBindingForActive in Hv. apply bind_Ok in Hv as (? & _ & Hv%fail_if_Ok). repeat apply orb_false_iff in Hv as [Hv _]. by apply bool_decide_eq_false, dec_stable in Hv.
Qed.

(** C20: An invocation starts from one context.  Once a command has been resolved on the
    in-memory context graph, every later refresh of its invocation and every later
    resolution of the command that answers has the same startup slice and the same
    reference to it, whatever is written to the context graph in between (by other
    agents, reviews, the end of invocations) and whatever subgraphs the source of the
    bindings then asks for. *)
Theorem startup_context_stable base req w b w1 w2 : graph_user base -> cmd_Action (br_Command req) <> CommandStop ->
  ResolveForInvocation hash encodeSlice encodeMemory (memoryResolver base) req w = (Ok b, w1) -> ctx_steps (bo_world w1).1 (bo_world w2).1 ->
  (forall active b' w3, ai_Command active = br_Command req -> in_ProjectID (ai_Invocation active) = bs_ProjectID b ->
     Refresh hash encodeSlice encodeMemory (memoryResolver base) active w2 = (Ok b', w3) ->
     bs_ContextSlice b' = bs_ContextSlice b /\ bs_ContextSliceRef b' = bs_ContextSliceRef b) /\
  (forall b' w3, ResolveForInvocation hash encodeSlice encodeMemory (memoryResolver base) req w2 = (Ok b', w3) -> bs_ProjectID b' = bs_ProjectID b ->
     bs_ContextSlice b' = bs_ContextSlice b /\ bs_ContextSliceRef b' = bs_ContextSliceRef b).
Proof.
  intros Hg Hstop Hres Hsteps.
  destruct (resolve_slice base req w b w1 Hg Hstop Hres) as (b0 & ids & w0 & _ & Hid & Hb).
  apply bindContext_slice in Hb as (slice & sj & Hslice & _ & Hsj & Hp & Hc & Hr). apply (ctx_steps_slices _ _ Hsteps) in Hslice. split.
  - intros active b' w3 Hcmd Hproj Href. apply (refresh_slice base active w2 b' w3 Hg) in Href as (b1 & ids1 & w4 & Hsteps4 & Hp1 & Hid1 & Hb1).
    apply bindContext_slice in Hb1 as (slice1 & sj1 & _ & Hsame & Hsj1 & _ & Hc1 & Hr1). cbn [br_Command br_InvocationID] in *.
    rewrite Hcmd, <- Hid in Hid1. apply (ctx_steps_slices _ _ Hsteps4) in Hslice. assert (bs_ProjectID b1 = bs_ProjectID b0) as Hp0 by congruence. rewrite Hp0, Hid1 in Hsame.
    apply Hsame in Hslice as ->. rewrite Hc1, Hc, Hr1, Hr, Hcmd, Hp0, Hid1. assert (sj1 = sj) as -> by congruence. done.
  - intros b' w3 Hres2 Hproj. destruct (resolve_slice base req w2 b' w3 Hg Hstop Hres2) as (b1 & ids1 & w4 & Hsteps4 & _ & Hb1).
    apply bindContext_slice in Hb1 as (slice1 & sj1 & _ & Hsame & Hsj1 & Hp1 & Hc1 & Hr1). apply (ctx_steps_slices _ _ Hsteps4) in Hslice.
    assert (bs_ProjectID b1 = bs_ProjectID b0) as Hp0 by congruence. rewrite Hp0 in Hsame. apply Hsame in Hslice as ->. rewrite Hc1, Hc, Hr1, Hr, Hp0. assert (sj1 = sj) as -> by congruence. done.
Qed.

End memory.

(** ** A planner that is resolved, ended and refreshed *)

Module BindingSample.

#[local] Existing Instance GoRuntime_list.

Definition command : PhaseCommand := mkCommand "cmd-1" (mkRef "t1" "plan") 1 "b1" "l1" CommandStart "".
Definition inputs : PhaseInputSet := mkInputSet "in-1" [] [] [].
Definition binding : BindingSnapshot := mkSnapshot "p1" "a1" "t1" "plan" 1 "b1" "l1" "ws" "rev" "" "" "" "" "" "" "" inputs "" false.

(** The source asks for another subgraph on a refresh. *)
Definition base : BaseBindingSource (CtxStore * unit) :=
  mkBaseSource (fun _ => mret (binding, ["subgraph-2"])) (fun _ => mret (binding, [])) (fun _ _ => mret tt).

Definition encodeSlice (slice : ContextSlice) : res string := Ok (String.concat "," (cn_Statement <$> sl_Nodes slice)).
Definition encodeMemory (views : list TaskMemoryCandidateView) : res string := Ok (String.concat "," (cv_CandidateID <$> views)).

Definition resolver : ContextBindingResolver (CtxStore * unit) := memoryResolver (fun _ => None) (fun _ => 20%Z) base.
Definition request : BindingResolveRequest := mkResolveRequest command "inv_cmd-1".
Definition before : Bound (CtxStore * unit) := mkBound (ctx_sample, tt) [].

Definition planner : Invocation :=
  mkInvocation "inv_cmd-1" "a1" "p1" "t1" "plan" "" "" "" 1 RolePlanner "" InvocationRunning "b1" "l1" "ws" "" "" ∅ ∅ [] 3 9.
Definition active : ActiveInvocation := mkActive planner command binding inputs false.

(** In between the subscriptions of the invocation end. *)
Definition ending : ctx_op :=
  CtxEndInvocation None (mkPrincipal "a1" PrincipalAgent "p1" RolePlanner "" "t1" "inv_cmd-1" "" "" "" contextTools time_zero) "inv_cmd-1" 30.
Definition later (w : Bound (CtxStore * unit)) : Bound (CtxStore * unit) := mkBound (run_ctx ending (bo_world w).1, tt) [].

Lemma base_graph_user : graph_user base.
Proof. split; intros; apply rtc_refl. Qed.

Definition resolved : res BindingSnapshot * Bound (CtxStore * unit) := ResolveForInvocation id encodeSlice encodeMemory resolver request before.
Definition refreshed : res BindingSnapshot * Bound (CtxStore * unit) := Refresh id encodeSlice encodeMemory resolver active (later resolved.2).

Lemma resolved_project : match resolved.1 with Ok b => bs_ProjectID b | Err _ => "" end = "p1".
Proof. vm_compute. reflexivity. Qed.

Lemma refreshed_ok : is_ok refreshed.1 = true.
Proof. vm_compute. reflexivity. Qed.

Lemma startup_context_stable_witness :
  match resolved.1, refreshed.1 with
  | Ok b, Ok b' => bs_ContextSlice b' = bs_ContextSlice b /\ bs_ContextSliceRef b' = bs_ContextSliceRef b
  | _, _ => False
  end.
Proof.
  pose proof resolved_project as Hp. pose proof refreshed_ok as Hok. destruct resolved as [[b|e] w1] eqn:H1; [|discriminate Hp].
  destruct refreshed as [[b'|e] w3] eqn:H2; [|discriminate Hok]. unfold refreshed in H2. rewrite H1 in H2.
  refine (proj1 (startup_context_stable id encodeSlice encodeMemory (fun _ => None) (fun _ => 20%Z) base request before b w1 (later w1) base_graph_user _ H1 _) active b' w3 eq_refl (eq_sym Hp) H2).
  - discriminate.
  - apply rtc_once. by constructor.
Defined.

End BindingSample.
