(* ===== verification/GitMerge.v ===== *)
(** * The merge backend

    [mergequeue/git_merge.go].  The git program and the host's file system are
    interfaces ([GitHost]) over a state of type [G]: a command is its working
    directory and arguments, and answers with its output.  Paths are those of a
    system whose separator is the slash. *)

From stdpp Require Import base tactics option list strings gmap sorting.
From Stdlib Require Import ZArith Ascii.
From S2P Require Import Prelude GoLib GoStrings GoPath Kernel CoordTypes WsModel MergeQueue.

(** ** Errors of the backend *)

Definition backendFailure (reason : string) (err : error) : error := TypedError "backendFailure" reason err.
Definition pushCASDriftError (err : error) : error := TypedError "pushCASDriftError" "" err.
Definition ambiguousPushError (err : error) : error := TypedError "ambiguousPushError" "" err.

Definition isPushCASDrift (err : error) : bool :=
  match errors_As "pushCASDriftError" err with Some _ => true | None => false end.

Definition failureReason (err : error) (fallback : string) : string :=
  if isPushCASDrift err then FailureMainDrift
  else match errors_As "backendFailure" err with
       | Some reason => if validFailureReason reason then reason else fallback
       | None => fallback
       end.

Definition MainDrift (expected actual : string) : error :=
  backendFailure FailureMainDrift (OtherError ("main advanced from " +:+ expected +:+ " to " +:+ actual)).

(** ** Data *)

(** The zero value stands for a path that does not exist. *)
Record preparedPathState := mkPathState {
  ps_exists : bool;
  ps_mode : Z;
  ps_sum : string;
  ps_link : string;
}.

#[global] Instance preparedPathState_eq_dec : EqDecision preparedPathState.
Proof. solve_decision. Defined.

Record PreparedMerge := mkPrepared {
  pm_Root : string;
  pm_TargetRepository : string;
  pm_TargetBranch : string;
  pm_LatestMainRevision : string;
  pm_CandidateRevision : string;
  pm_AlreadyMerged : bool;
  pm_NeedsResolution : bool;
  pm_ConflictPaths : list string;
  pm_AllowedWritePaths : list string;
  pm_candidateWritePaths : list string;
  pm_verifierBaseline : gmap string preparedPathState;
}.

(** What [os.Lstat] tells of an entry. *)
Record FileInfo := mkFileInfo {
  fi_Mode : Z;
  fi_symlink : bool;
  fi_regular : bool;
}.

(** [gh_combined] is [CombinedOutput], [gh_run] a run with separate outputs: the
    standard output, or the error and the error output.  A missing file is
    [None]. *)
Record GitHost (G : Type) := mkGitHost {
  gh_combined : Context -> string -> list string -> G -> (option error * string) * G;
  gh_run : Context -> string -> list string -> G -> result (error * string) string * G;
  gh_MkdirAll : string -> M error G unit;
  gh_MkdirTemp : string -> string -> M error G string;
  gh_RemoveAll : string -> M error G unit;
  gh_Lstat : string -> G -> res (option FileInfo);
  gh_Readlink : string -> G -> res string;
  gh_ReadFile : string -> G -> res (option string);
  gh_TempDir : string;
  gh_Abs : string -> res string;
}.
Arguments gh_combined {G}.
Arguments gh_run {G}.
Arguments gh_MkdirAll {G}.
Arguments gh_MkdirTemp {G}.
Arguments gh_RemoveAll {G}.
Arguments gh_Lstat {G}.
Arguments gh_Readlink {G}.
Arguments gh_ReadFile {G}.
Arguments gh_TempDir {G}.
Arguments gh_Abs {G}.

(** ** Path sets *)

Definition pathInSet (file : string) (allowed : list string) : bool :=
  existsb (fun candidate => bool_decide (Clean file = Clean candidate)) allowed.

Definition cleanPaths (paths : list string) : list string :=
  filter (fun file => file <> "" /\ file <> ".") ((fun file => TrimSpace (Clean file)) <$> paths).

(** The marker is eight bytes; the three must occur somewhere. *)
Definition hasConflictMarkers (text : string) : bool :=
  Contains "<<<<<<< " text && Contains "=======" text && Contains ">>>>>>> " text.

Section with_runtime.
Context `{GR : GoRuntime}.

Definition cleanPathSet (paths : list string) : list string := sort_slice string_lt (dedupe_from ∅ (cleanPaths paths)).

Definition splitGitPaths (value : string) : list string :=
  if bool_decide (value = "") then [] else cleanPathSet (filter (fun part => part <> "") (Split "000" value)).

Definition requirePathsWithinAuthority (paths allowed : list string) : res unit :=
  each (fun file => fail_if (negb (pathInSet file allowed))
    (backendFailure FailurePermission (OtherError ("merge path " +:+ file +:+ " is outside candidate write authority")))) (cleanPathSet paths).

Definition authorizedCandidatePaths (binding : Binding) : res (list string) :=
  let declared := cleanPathSet (ws_Files (bd_DeclaredWrites binding)) in
  let observed := cleanPathSet (ws_Files (bd_ObservedWrites binding)) in
  _ ← fail_if (bool_decide (declared = []) || bool_decide (observed = []))
      (backendFailure FailurePermission (OtherError "candidate declared and observed write paths are required"));
  _ ← each (fun file => fail_if (negb (pathInSet file declared))
        (backendFailure FailurePermission (OtherError ("observed candidate path " +:+ file +:+ " is outside declared writes")))) observed;
  Ok observed.

(** ** Commands *)

Section backend.
Context {G : Type} (host : GitHost G) (hashBytes : string -> string).

Definition git_error (args : list string) (e : error) (output : string) : error :=
  FormatError ("git " +:+ Join " " args +:+ ": ") e (": " +:+ TrimSpace output).

Definition gitRun (ctx : Context) (dir : string) (args : list string) : M error G unit := fun g =>
  match gh_combined host ctx dir args g with
  | ((None, _), g') => (Ok tt, g')
  | ((Some e, output), g') => (Err (git_error args e output), g')
  end.

Definition gitOutputRaw (ctx : Context) (dir : string) (args : list string) : M error G string := fun g =>
  match gh_run host ctx dir args g with
  | (Ok stdout, g') => (Ok stdout, g')
  | (Err (e, stderr), g') => (Err (git_error args e stderr), g')
  end.

Definition gitOutput (ctx : Context) (dir : string) (args : list string) : M error G string :=
  out ← gitOutputRaw ctx dir args;
  mret (TrimSpace out).

(** [gitRun(...) == nil]. *)
Definition succeeds (m : M error G unit) : M error G bool := fun g =>
  match m g with (Ok _, g') => (Ok true, g') | (Err _, g') => (Ok false, g') end.

(** [if err := m; err != nil { return f(err) }]. *)
Definition failing {A} (f : error -> error) (m : M error G A) : M error G A := catch m (fun e => throw (f e)).

Definition unmergedPaths (ctx : Context) (root : string) : M error G (list string) :=
  out ← gitOutputRaw ctx root ["diff"; "--name-only"; "--diff-filter=U"; "-z"];
  mret (splitGitPaths out).

Definition changedPaths (ctx : Context) (root baseRevision : string) : M error G (list string) :=
  out ← gitOutputRaw ctx root ["diff"; "--name-only"; "-z"; baseRevision; "--"];
  let paths := splitGitPaths out in
  untracked ← gitOutputRaw ctx root ["ls-files"; "--others"; "--exclude-standard"; "-z"];
  mret (cleanPathSet (paths ++ splitGitPaths untracked)).

(** ** Fingerprints of the prepared paths *)

Definition preparedPathFingerprint (file : string) (g : G) : res preparedPathState :=
  info ← gh_Lstat host file g;
  match info with
  | None => Ok (mkPathState false 0 "" "")
  | Some info =>
    if fi_symlink info then link ← gh_Readlink host file g; Ok (mkPathState true (fi_Mode info) "" link)
    else
      _ ← fail_if (negb (fi_regular info)) (OtherError "prepared path is not a regular file");
      contents ← gh_ReadFile host file g;
      match contents with
      | None => Err (OtherError "file does not exist")
      | Some contents => Ok (mkPathState true (fi_Mode info) (hashBytes contents) "")
      end
  end.

Definition snapshotPreparedPaths (root : string) (paths : list string) : M error G (gmap string preparedPathState) := fun g =>
  (foldM (fun states file =>
     match preparedPathFingerprint (path_join [root; file]) g with
     | Err e => Err (backendFailure FailurePermission (WrapError ("snapshot prepared path " +:+ file) e))
     | Ok state => Ok (<[file := state]> states)
     end) ∅ (cleanPathSet paths), g).

Definition requireVerifierWriteBoundary (prepared : PreparedMerge) : M error G unit := fun g =>
  (each (fun entry : string * preparedPathState =>
     let '(file, before) := entry in
     if pathInSet file (pm_AllowedWritePaths prepared) then Ok tt
     else
       match preparedPathFingerprint (path_join [pm_Root prepared; file]) g with
       | Err e => Err (backendFailure FailurePermission (WrapError ("inspect verifier path " +:+ file) e))
       | Ok after => fail_if (bool_decide (before <> after))
           (backendFailure FailurePermission (OtherError ("targeted verifier changed read-only path " +:+ file)))
       end) (range_map (pm_verifierBaseline prepared)), g).

(** ** Preparing *)

Definition restorePath (ctx : Context) (root mainRevision file : string) : M error G unit :=
  known ← succeeds (gitRun ctx root ["cat-file"; "-e"; mainRevision +:+ ":" +:+ file]);
  if (known : bool) then
    failing (fun e => backendFailure FailureConflict (WrapError ("restore non-candidate merge path " +:+ file) e))
      (gitRun ctx root ["restore"; "--source"; mainRevision; "--staged"; "--worktree"; "--"; file])
  else
    _ ← failing (fun e => backendFailure FailureConflict (WrapError ("remove non-candidate merge path " +:+ file) e))
        (gitRun ctx root ["rm"; "-f"; "--ignore-unmatch"; "--"; file]);
    failing (fun e => backendFailure FailureConflict (WrapError ("remove untracked non-candidate merge path " +:+ file) e))
      (gh_RemoveAll host (path_join [root; file])).

Definition restoreOutsideAuthority (ctx : Context) (root mainRevision : string) (allowed : list string) : M error G unit :=
  changed ← failing (backendFailure FailureConflict) (changedPaths ctx root mainRevision);
  eachM (fun file => if pathInSet file allowed then mret tt else restorePath ctx root mainRevision file) changed.

Definition identity : list string := ["-c"; "user.email=threadmill@local"; "-c"; "user.name=Threadmill Merge Queue"].

Definition branchOf (branch : string) : string := if bool_decide (branch = "") then "main" else branch.

(** The merge was refused by git: its conflicts go to the verifier. *)
Definition prepareConflict (ctx : Context) (root branch latest : string) (candidate : Candidate) (allowedWritePaths : list string)
    (mergeErr : error) : M error G PreparedMerge :=
  conflictPaths ← failing (fun e => backendFailure FailureConflict (JoinError mergeErr e)) (unmergedPaths ctx root);
  _ ← lift (fail_if (bool_decide (conflictPaths = [])) (backendFailure FailureConflict mergeErr));
  _ ← lift (requirePathsWithinAuthority conflictPaths allowedWritePaths);
  _ ← restoreOutsideAuthority ctx root latest allowedWritePaths;
  baseline ← snapshotPreparedPaths root allowedWritePaths;
  mret (mkPrepared root (mc_TargetRepository candidate) branch latest (mc_CandidateRevision candidate) false true conflictPaths conflictPaths
          allowedWritePaths baseline).

(** Only the declared files are taken from the candidate. *)
Definition prepareClean (ctx : Context) (root branch latest : string) (candidate : Candidate) (binding : Binding)
    (allowedWritePaths : list string) (ancestor : bool) : M error G PreparedMerge :=
  alreadyMerged ← (if ancestor then mret true else
    _ ← failing (backendFailure FailureConflict) (gitRun ctx root ["reset"; "--hard"; "HEAD"]);
    _ ← failing (backendFailure FailureConflict) (gitRun ctx root (["checkout"; "FETCH_HEAD"; "--"] ++ ws_Files (bd_DeclaredWrites binding)));
    succeeds (gitRun ctx root ["diff"; "--quiet"; "HEAD"; "--"]));
  baseline ← snapshotPreparedPaths root allowedWritePaths;
  mret (mkPrepared root (mc_TargetRepository candidate) branch latest (mc_CandidateRevision candidate) alreadyMerged false [] []
          allowedWritePaths baseline).

Definition prepareIn (ctx : Context) (parent root : string) (candidate : Candidate) (binding : Binding) : M error G PreparedMerge :=
  let branch := branchOf (mc_TargetBranch candidate) in
  _ ← failing (backendFailure FailureMainDrift)
      (gitRun ctx parent ["clone"; "--quiet"; "--branch"; branch; "--single-branch"; mc_TargetRepository candidate; root]);
  _ ← failing (backendFailure FailurePermission)
      (gitRun ctx root ["remote"; "set-url"; "--push"; "origin"; "threadmill-readonly://mergequeue"]);
  latest ← failing (backendFailure FailureMainDrift) (gitOutput ctx root ["rev-parse"; "HEAD"]);
  _ ← failing (backendFailure FailureConflict) (gitRun ctx root ["fetch"; "--quiet"; bd_Root binding; mc_CandidateRevision candidate]);
  ancestor ← succeeds (gitRun ctx root ["merge-base"; "--is-ancestor"; "FETCH_HEAD"; "HEAD"]);
  allowedWritePaths ← lift (authorizedCandidatePaths binding);
  if (ancestor : bool) then prepareClean ctx root branch latest candidate binding allowedWritePaths true
  else fun g =>
    match gitRun ctx root (identity ++ ["merge"; "--no-ff"; "--no-commit"; "FETCH_HEAD"]) g with
    | (Err mergeErr, g') => prepareConflict ctx root branch latest candidate allowedWritePaths mergeErr g'
    | (Ok _, g') => prepareClean ctx root branch latest candidate binding allowedWritePaths false g'
    end.

Context (TempParent : string).

Definition tempParent : string := if bool_decide (TempParent = "") then gh_TempDir host else TempParent.

(** The clone is removed again when preparing fails. *)
Definition Prepare (ctx : Context) (candidate : Candidate) (binding : Binding) : M error G PreparedMerge :=
  _ ← failing (WrapError "create merge temp parent") (gh_MkdirAll host tempParent);
  root ← failing (WrapError "create merge temp") (gh_MkdirTemp host tempParent "threadmill-merge-");
  catch (prepareIn ctx tempParent root candidate binding) (fun e g => (Err e, (gh_RemoveAll host root g).2)).

(** ** Committing *)

Definition checkResolved (root file : string) : M error G unit := fun g =>
  (match gh_ReadFile host (path_join [root; file]) g with
   | Err e => Err (backendFailure FailureVerifyFailed (WrapError ("inspect targeted conflict resolution " +:+ file) e))
   | Ok (Some contents) => fail_if (hasConflictMarkers contents)
       (backendFailure FailureVerifyFailed (OtherError ("targeted verifier left unresolved conflict " +:+ file)))
   | Ok None => Ok tt
   end, g).

Definition stageResolution (ctx : Context) (prepared : PreparedMerge) : M error G unit :=
  _ ← eachM (checkResolved (pm_Root prepared)) (pm_ConflictPaths prepared);
  _ ← failing (backendFailure FailureConflict) (gitRun ctx (pm_Root prepared) (["add"; "-A"; "--"] ++ pm_AllowedWritePaths prepared));
  unresolved ← failing (backendFailure FailureConflict) (unmergedPaths ctx (pm_Root prepared));
  lift (fail_if (bool_decide (unresolved <> []))
    (backendFailure FailureVerifyFailed (OtherError ("targeted verifier left unresolved conflicts: " +:+ Join ", " unresolved)))).

Definition requireChangesWithin (ctx : Context) (prepared : PreparedMerge) : M error G unit :=
  changed ← failing (backendFailure FailureConflict) (changedPaths ctx (pm_Root prepared) (pm_LatestMainRevision prepared));
  lift (requirePathsWithinAuthority changed (pm_candidateWritePaths prepared)).

Definition stageAndValidatePreparedMerge (ctx : Context) (prepared : PreparedMerge) : M error G unit :=
  head ← failing (backendFailure FailureConflict) (gitOutput ctx (pm_Root prepared) ["rev-parse"; "HEAD"]);
  _ ← lift (fail_if (bool_decide (head <> pm_LatestMainRevision prepared))
        (backendFailure FailurePermission (OtherError "targeted verifier changed repository HEAD")));
  _ ← requireVerifierWriteBoundary prepared;
  _ ← requireChangesWithin ctx prepared;
  _ ← (if pm_NeedsResolution prepared then stageResolution ctx prepared else mret tt);
  requireChangesWithin ctx prepared.

Definition CreateMergeCommit (ctx : Context) (prepared : PreparedMerge) (candidate : Candidate) : M error G string :=
  _ ← stageAndValidatePreparedMerge ctx prepared;
  if pm_AlreadyMerged prepared then mret (pm_LatestMainRevision prepared)
  else
    _ ← failing (backendFailure FailureConflict) (gitRun ctx (pm_Root prepared)
          (identity ++ ["commit"; "-m"; "Merge Threadmill candidate " +:+ mc_ID candidate]));
    failing (backendFailure FailureConflict) (gitOutput ctx (pm_Root prepared) ["rev-parse"; "HEAD"]).

(** ** Pushing *)

Definition headRef (branch : string) : string := "refs/heads/" +:+ branch.

Definition mainAdvanced (prepared : PreparedMerge) (latest : string) : error :=
  pushCASDriftError (OtherError ("main advanced from " +:+ pm_LatestMainRevision prepared +:+ " to " +:+ latest)).

Definition isCheckedOutBranchPushRefusal (err : error) : bool :=
  Contains "branch is currently checked out" (error_text err) || Contains "refusing to update checked out branch" (error_text err).

Definition pushToCheckedOutLocalRepository (ctx : Context) (prepared : PreparedMerge) (expectedMergedRevision : string) : M error G unit :=
  latest ← gitOutput ctx (pm_TargetRepository prepared) ["rev-parse"; headRef (pm_TargetBranch prepared)];
  _ ← lift (fail_if (bool_decide (latest <> pm_LatestMainRevision prepared)) (mainAdvanced prepared latest));
  _ ← gitRun ctx (pm_TargetRepository prepared) ["fetch"; "--quiet"; pm_Root prepared; expectedMergedRevision];
  gitRun ctx (pm_TargetRepository prepared) ["reset"; "--hard"; expectedMergedRevision].

Definition pushCommand (prepared : PreparedMerge) (revision : string) : list string :=
  ["push"; "--porcelain"; pm_TargetRepository prepared; revision +:+ ":" +:+ headRef (pm_TargetBranch prepared)].

(** [git push], and what its failure may still allow.  [pushErrorAfterSuccess] is
    a fault injected by tests. *)
Definition pushCommit (pushErrorAfterSuccess : option error) (ctx : Context) (prepared : PreparedMerge) (expectedMergedRevision : string) :
    M error G unit := fun g =>
  match gitRun ctx (pm_Root prepared) (pushCommand prepared expectedMergedRevision) g with
  | (Err e, g') =>
    if isCheckedOutBranchPushRefusal e
    then catch (pushToCheckedOutLocalRepository ctx prepared expectedMergedRevision) (fun _ => throw (ambiguousPushError e)) g'
    else (Err (ambiguousPushError e), g')
  | (Ok _, g') =>
    match pushErrorAfterSuccess with
    | Some e => (Err (ambiguousPushError e), g')
    | None => (Ok tt, g')
    end
  end.

Definition PushExact (pushErrorAfterSuccess : option error) (ctx : Context) (prepared : PreparedMerge) (expectedMergedRevision : string) :
    M error G unit :=
  _ ← lift (fail_if (bool_decide (TrimSpace expectedMergedRevision = ""))
        (backendFailure FailureConflict (OtherError "expected merged revision is required")));
  latest ← failing ambiguousPushError (gitOutput ctx (pm_TargetRepository prepared) ["rev-parse"; headRef (pm_TargetBranch prepared)]);
  _ ← lift (fail_if (bool_decide (latest <> pm_LatestMainRevision prepared)) (mainAdvanced prepared latest));
  if pm_AlreadyMerged prepared && bool_decide (expectedMergedRevision = latest) then mret tt
  else
    actual ← failing ambiguousPushError (gitOutput ctx (pm_Root prepared) ["rev-parse"; "HEAD"]);
    _ ← lift (fail_if (bool_decide (actual <> expectedMergedRevision))
          (ambiguousPushError (OtherError ("prepared merge commit changed from " +:+ expectedMergedRevision +:+ " to " +:+ actual))));
    pushCommit pushErrorAfterSuccess ctx prepared expectedMergedRevision.

(** [git merge-base --is-ancestor] and its exit status. *)
Definition isAncestor (ctx : Context) (targetRepository branch revision : string) : M error G bool := fun g =>
  match gitRun ctx targetRepository ["merge-base"; "--is-ancestor"; revision; headRef branch] g with
  | (Ok _, g') => (Ok true, g')
  | (Err e, g') =>
    if Contains "exit status 1" (error_text e) then (Ok false, g')
    else (_ ← failing (backendFailure FailureMainDrift) (gitOutput ctx targetRepository ["rev-parse"; headRef branch]); mret false) g'
  end.

Definition ContainsRevision (ctx : Context) (targetRepository targetBranch revision : string) : M error G bool :=
  _ ← lift (fail_if (bool_decide (TrimSpace revision = "")) (backendFailure FailureConflict (OtherError "revision is required")));
  known ← succeeds (gitRun ctx targetRepository ["cat-file"; "-e"; revision +:+ "^{commit}"]);
  if negb known then mret false else isAncestor ctx targetRepository (branchOf targetBranch) revision.

Definition Merge (pushErrorAfterSuccess : option error) (ctx : Context) (prepared : PreparedMerge) (candidate : Candidate) : M error G string :=
  merged ← CreateMergeCommit ctx prepared candidate;
  _ ← PushExact pushErrorAfterSuccess ctx prepared merged;
  mret merged.

Definition Cleanup (prepared : PreparedMerge) : M error G unit :=
  if bool_decide (TrimSpace (pm_Root prepared) = "") then mret tt
  else
    absParent ← lift (gh_Abs host tempParent);
    absRoot ← lift (gh_Abs host (pm_Root prepared));
    let rel := Rel absParent absRoot in
    _ ← lift (fail_if (bool_decide (rel = ".") || bool_decide (rel = "..") || has_prefix "../" rel || IsAbs rel)
          (OtherError "refusing to clean merge workspace outside temp parent"));
    gh_RemoveAll host absRoot.

End backend.
End with_runtime.
