(* ===== verification/GitMergeProps.v ===== *)
(** * Properties of the merge backend *)

From stdpp Require Import base tactics option list strings gmap sorting relations.
From Stdlib Require Import ZArith Ascii.
From S2P Require Import Prelude GoLib GoStrings GoPath Kernel CoordTypes WsModel MergeQueue GitMerge Hoare.

Section helpers.
Context `{GR : GoRuntime} {G : Type} (host : GitHost G).

(** An operation whose errors are rewritten still succeeds as it did. *)
Lemma failing_Ok {A} f (m : M error G A) g a g' : failing f m g = (Ok a, g') -> m g = (Ok a, g').
Proof. unfold failing, catch. by destruct (m g) as [[]]. Qed.

Lemma failing_Err {A} f (m : M error G A) g e g' : failing f m g = (Err e, g') -> exists e0, m g = (Err e0, g') /\ e = f e0.
Proof. unfold failing, catch, throw. destruct (m g) as [[a|e0] g1]; [done|]. intros [= <- <-]. eauto. Qed.

Lemma guard_bind_Ok {A B} (r : res A) (k : A -> M error G B) g b g' : (lift r ≫= k) g = (Ok b, g') -> exists a, r = Ok a /\ k a g = (Ok b, g').
Proof. intros (a & g1 & [= Hr ->] & Hk)%M_bind_Ok. eauto. Qed.

Lemma guard_bind_Err {A B} (r : res A) (k : A -> M error G B) g e g' :
  (lift r ≫= k) g = (Err e, g') -> (r = Err e /\ g' = g) \/ exists a, r = Ok a /\ k a g = (Err e, g').
Proof. intros [[= Hr ->]|(a & g1 & [= Hr ->] & Hk)]%M_bind_Err; eauto. Qed.

Lemma authority_Ok paths allowed u : requirePathsWithinAuthority paths allowed = Ok u -> Forall (fun file => pathInSet file allowed = true) (cleanPathSet paths).
Proof. unfold requirePathsWithinAuthority. intros H. rewrite each_Ok in H. apply Forall_forall. intros file Hf%H. apply fail_if_Ok in Hf. by apply negb_false_iff. Qed.

(** No error of the host is a drift of the target branch. *)
Definition no_drift : Prop :=
  (forall ctx dir args g e out g', gh_combined host ctx dir args g = ((Some e, out), g') -> isPushCASDrift e = false) /\
  (forall ctx dir args g e out g', gh_run host ctx dir args g = (Err (e, out), g') -> isPushCASDrift e = false).

Lemma gitRun_no_drift ctx dir args g e g' : no_drift -> gitRun host ctx dir args g = (Err e, g') -> isPushCASDrift e = false.
Proof.
  intros [Hc _]. unfold gitRun. destruct (gh_combined host ctx dir args g) as [[[e0|] out] g1] eqn:H; [|done]. intros [= <- <-]. by apply Hc in H.
Qed.

Lemma gitOutput_no_drift ctx dir args g e g' : no_drift -> gitOutput host ctx dir args g = (Err e, g') -> isPushCASDrift e = false.
Proof.
  intros [_ Hr]. intros [H|(a & g1 & _ & [=])]%M_bind_Err. revert H. unfold gitOutputRaw.
  destruct (gh_run host ctx dir args g) as [[out|[e0 out]] g1] eqn:H; [done|]. intros [= <- <-]. by apply Hr in H.
Qed.
End helpers.

Section with_runtime.
Context `{GR : GoRuntime} {G : Type} (host : GitHost G) (hashBytes : string -> string) (TempParent : string).

(** The commands that put the revision on the target branch. *)
Definition published (ctx : Context) (p : PreparedMerge) (v : string) (g g' : G) : Prop :=
  gitRun host ctx (pm_Root p) (pushCommand p v) g = (Ok tt, g') \/
  exists e g1 g2 g3, gitRun host ctx (pm_Root p) (pushCommand p v) g = (Err e, g1) /\ isCheckedOutBranchPushRefusal e = true /\
    gitOutput host ctx (pm_TargetRepository p) ["rev-parse"; headRef (pm_TargetBranch p)] g1 = (Ok (pm_LatestMainRevision p), g2) /\
    gitRun host ctx (pm_TargetRepository p) ["fetch"; "--quiet"; pm_Root p; v] g2 = (Ok tt, g3) /\
    gitRun host ctx (pm_TargetRepository p) ["reset"; "--hard"; v] g3 = (Ok tt, g').

Lemma pushCommit_Ok inj ctx p v g g' : pushCommit host inj ctx p v g = (Ok tt, g') -> published ctx p v g g'.
Proof.
  unfold pushCommit. destruct (gitRun host ctx (pm_Root p) (pushCommand p v) g) as [[[]|e] g1] eqn:Hpush.
  - destruct inj; [done|]. intros [= <-]. by left.
  - destruct (isCheckedOutBranchPushRefusal e) eqn:Hr; [|done]. unfold catch, throw.
    destruct (pushToCheckedOutLocalRepository host ctx p v g1) as [[[]|e'] g2] eqn:Hl; [|done]. intros [= ->].
    apply M_bind_Ok in Hl as (latest & g2 & H1 & (u & H2%fail_if_Ok & (u2 & g3 & H3 & H4)%M_bind_Ok)%guard_bind_Ok).
    apply bool_decide_eq_false in H2. apply dec_stable in H2 as ->. destruct u2. right. by exists e, g1, g2, g3.
Qed.

Lemma pushCommit_Err inj ctx p v g e g' : no_drift host -> (forall e0, inj = Some e0 -> isPushCASDrift e0 = false) ->
  pushCommit host inj ctx p v g = (Err e, g') -> isPushCASDrift e = false.
Proof.
  intros Hn Hi. unfold pushCommit. destruct (gitRun host ctx (pm_Root p) (pushCommand p v) g) as [[[]|e1] g1] eqn:Hpush.
  - destruct inj as [e0|]; [|done]. intros [= <- _]. unfold isPushCASDrift. simpl. apply (Hi _ eq_refl).
  - apply gitRun_no_drift in Hpush; [|done]. destruct (isCheckedOutBranchPushRefusal e1); [|by intros [= <- _]].
    unfold catch, throw. destruct (pushToCheckedOutLocalRepository host ctx p v g1) as [[[]|e2] g2]; [done|]. by intros [= <- _].
Qed.

(** C27: A push publishes exactly the recorded commit, or says what it did.
    [PushExact] succeeds only if the target branch was still at the revision the
    merge was made from, and then either that revision is already the result or
    the clone's head is the recorded commit and one command publishes it (the push,
    or on a checked out target the reset, after the branch was compared again).  An
    error that is a drift of the branch means that no command was run after the
    comparison, so the operation can be aborted without losing a push. *)
Theorem push_exact_outcome inj ctx p v g r g' :
  no_drift host -> (forall e, inj = Some e -> isPushCASDrift e = false) -> PushExact host inj ctx p v g = (r, g') ->
  (r = Ok tt -> exists g1,
     gitOutput host ctx (pm_TargetRepository p) ["rev-parse"; headRef (pm_TargetBranch p)] g = (Ok (pm_LatestMainRevision p), g1) /\
     ((pm_AlreadyMerged p = true /\ v = pm_LatestMainRevision p /\ g' = g1) \/
      exists g2, gitOutput host ctx (pm_Root p) ["rev-parse"; "HEAD"] g1 = (Ok v, g2) /\ published ctx p v g2 g')) /\
  (forall e, r = Err e -> isPushCASDrift e = true -> exists latest,
     gitOutput host ctx (pm_TargetRepository p) ["rev-parse"; headRef (pm_TargetBranch p)] g = (Ok latest, g') /\ latest <> pm_LatestMainRevision p).
Proof.
  intros Hn Hi H. split.
  - intros ->. apply guard_bind_Ok in H as (_ & _ & (latest & g1 & H1%failing_Ok & (u & H2%fail_if_Ok & H)%guard_bind_Ok)%M_bind_Ok).
    apply bool_decide_eq_false in H2. apply dec_stable in H2 as ->. exists g1. split; [done|]. destruct (_ && _) eqn:Ha.
    + apply andb_true_iff in Ha as [Ha ->%bool_decide_eq_true]. injection H as <-. by left.
    + apply M_bind_Ok in H as (actual & g2 & H3%failing_Ok & (u' & H4%fail_if_Ok & H5%pushCommit_Ok)%guard_bind_Ok).
      apply bool_decide_eq_false in H4. apply dec_stable in H4 as ->. right. by exists g2.
  - intros e -> Hd. apply guard_bind_Err in H as [[H _]|(_ & _ & H)]; [case_bool_decide; simplify_eq/=; done|].
    apply M_bind_Err in H as [(e0 & H & ->)%failing_Err|(latest & g1 & H1%failing_Ok & H)].
    { apply gitOutput_no_drift in H; [|done]. unfold isPushCASDrift in *. simpl in Hd. by rewrite H in Hd. }
    apply guard_bind_Err in H as [[Hf ->]|(u & _ & H)].
    { exists latest. split; [done|]. by case_bool_decide. }
    destruct (_ && _); [done|]. apply M_bind_Err in H as [(e0 & H & ->)%failing_Err|(actual & g2 & H3%failing_Ok & H)].
    { apply gitOutput_no_drift in H; [|done]. unfold isPushCASDrift in *. simpl in Hd. by rewrite H in Hd. }
    apply guard_bind_Err in H as [[Hf _]|(u' & _ & H%pushCommit_Err)]; [|by rewrite H in Hd|done|done].
    case_bool_decide; simplify_eq/=; done.
Qed.

(** ** The scope of a merge *)

Definition within (paths allowed : list string) : Prop := Forall (fun file => pathInSet file allowed = true) paths.

Lemma authorizedCandidatePaths_Ok binding paths : authorizedCandidatePaths binding = Ok paths ->
  paths = cleanPathSet (ws_Files (bd_ObservedWrites binding)) /\ paths <> [] /\ within paths (cleanPathSet (ws_Files (bd_DeclaredWrites binding))).
Proof.
  unfold authorizedCandidatePaths. intros H. res_inv. bool_inv. split_and!; [done..|]. apply Forall_forall. intros file Hfile.
  match goal with Hall : forall x, x ∈ _ -> _ |- _ => pose proof (Hall _ Hfile) as Hf end. apply fail_if_Ok in Hf. by apply negb_false_iff.
Qed.

(** The prepared merge of a candidate. *)
Definition scoped (candidate : Candidate) (binding : Binding) (p : PreparedMerge) : Prop :=
  pm_TargetRepository p = mc_TargetRepository candidate /\ pm_TargetBranch p = branchOf (mc_TargetBranch candidate) /\
  pm_CandidateRevision p = mc_CandidateRevision candidate /\
  pm_candidateWritePaths p = cleanPathSet (ws_Files (bd_ObservedWrites binding)) /\ pm_candidateWritePaths p <> [] /\
  within (pm_candidateWritePaths p) (cleanPathSet (ws_Files (bd_DeclaredWrites binding))) /\
  pm_AllowedWritePaths p = pm_ConflictPaths p /\ within (cleanPathSet (pm_ConflictPaths p)) (pm_candidateWritePaths p) /\
  pm_NeedsResolution p = negb (bool_decide (pm_ConflictPaths p = [])) /\ pm_AlreadyMerged p && pm_NeedsResolution p = false.

Lemma prepareConflict_scoped ctx root branch latest candidate binding paths e g p g' :
  authorizedCandidatePaths binding = Ok paths -> branch = branchOf (mc_TargetBranch candidate) ->
  prepareConflict host hashBytes ctx root branch latest candidate paths e g = (Ok p, g') -> scoped candidate binding p.
Proof.
  intros (Hp & Hne & Hw)%authorizedCandidatePaths_Ok -> H. unfold prepareConflict in H.
  apply M_bind_Ok in H as (conflicts & g1 & _ & (u & H1%guard_Ok & (u' & H2%authority_Ok & H)%guard_bind_Ok)%guard_bind_Ok).
  apply M_bind_Ok in H as (u2 & g2 & _ & (baseline & g3 & _ & H)%M_bind_Ok). injection H as <- _.
  unfold scoped. simpl. rewrite bool_decide_eq_false_2 by done. by subst.
Qed.

Lemma prepareClean_scoped ctx root branch latest candidate binding paths ancestor g p g' :
  authorizedCandidatePaths binding = Ok paths -> branch = branchOf (mc_TargetBranch candidate) ->
  prepareClean host hashBytes ctx root branch latest candidate binding paths ancestor g = (Ok p, g') -> scoped candidate binding p.
Proof.
  intros (Hp & Hne & Hw)%authorizedCandidatePaths_Ok -> H. unfold prepareClean in H.
  apply M_bind_Ok in H as (merged & g1 & _ & (baseline & g2 & _ & H)%M_bind_Ok). injection H as <- _. unfold scoped. simpl.
  split_and!; try done; [|by rewrite andb_false_r]. apply Forall_forall. intros x. unfold cleanPathSet. rewrite sort_slice_perm. by intros ?%elem_of_nil.
Qed.

Lemma prepare_scoped ctx candidate binding g p g' :
  Prepare host hashBytes TempParent ctx candidate binding g = (Ok p, g') -> scoped candidate binding p.
Proof.
  intros H. apply M_bind_Ok in H as (u & g1 & _ & (root & g2 & _ & H)%M_bind_Ok). unfold catch in H.
  destruct (prepareIn _ _ _ _ _ _ _ g2) as [[p'|e] g3] eqn:Hin; [|done]. injection H as -> ->.
  apply M_bind_Ok in Hin as (u1 & h1 & _ & (u2 & h2 & _ & (latest & h3 & _ & (u3 & h4 & _ & H)%M_bind_Ok)%M_bind_Ok)%M_bind_Ok).
  apply M_bind_Ok in H as (ancestor & h5 & _ & (paths & Hpaths & H)%guard_bind_Ok). destruct ancestor; [by eapply prepareClean_scoped|].
  destruct (gitRun _ _ _ _ h5) as [[u4|e] h6]; [by eapply prepareClean_scoped|by eapply prepareConflict_scoped].
Qed.

(** A prepared merge stays within what the candidate wrote.  Whatever git
    answers, a merge that is prepared is for the candidate's repository and branch
    (main when none is named); the paths it may change are the observed writes of
    the workspace, there is one, and all are declared; the verifier may write the
    conflicting paths only, which are among them, and is needed exactly if there
    are any. *)
Theorem prepare_scope ctx candidate binding g p g' :
  Prepare host hashBytes TempParent ctx candidate binding g = (Ok p, g') -> scoped candidate binding p.
Proof. apply prepare_scoped. Qed.

(** ** The merge commit *)

(** The changes of the clone that git reports, all within the candidate's writes. *)
Definition changes_within (ctx : Context) (p : PreparedMerge) (g g' : G) : Prop :=
  exists changed, changedPaths host ctx (pm_Root p) (pm_LatestMainRevision p) g = (Ok changed, g') /\
    within (cleanPathSet changed) (pm_candidateWritePaths p).

Lemma requireChangesWithin_Ok ctx p u g g' : requireChangesWithin host ctx p g = (Ok u, g') -> changes_within ctx p g g'.
Proof.
  intros (changed & g1 & H1%failing_Ok & [= H2%authority_Ok ->])%M_bind_Ok. by exists changed.
Qed.

(** The conflicts are resolved: no markers are left, and git has no unmerged path
    after the conflicting paths were staged. *)
Definition resolved (ctx : Context) (p : PreparedMerge) (g g' : G) : Prop :=
  Forall (fun file => match gh_ReadFile host (path_join [pm_Root p; file]) g with
                      | Ok (Some contents) => hasConflictMarkers contents = false
                      | Ok None => True
                      | Err _ => False
                      end) (pm_ConflictPaths p) /\
  exists g1, gitRun host ctx (pm_Root p) (["add"; "-A"; "--"] ++ pm_AllowedWritePaths p) g = (Ok tt, g1) /\
    unmergedPaths host ctx (pm_Root p) g1 = (Ok [], g').

Lemma checkResolved_Ok root files g u g' : eachM (checkResolved host root) files g = (Ok u, g') -> g' = g /\
  Forall (fun file => match gh_ReadFile host (path_join [root; file]) g with
                      | Ok (Some contents) => hasConflictMarkers contents = false | Ok None => True | Err _ => False end) files.
Proof.
  revert u. induction files as [|file files IH]; intros u; simpl; [by intros [= _ <-]|].
  intros (u1 & g1 & H1 & H2)%M_bind_Ok. unfold checkResolved in H1. injection H1 as H1 <-. apply IH in H2 as [-> H2]. split; [done|].
  constructor; [|done]. destruct (gh_ReadFile _ _ _) as [[contents|]|e]; [|done..]. by apply fail_if_Ok in H1.
Qed.

Lemma stageResolution_Ok ctx p u g g' : stageResolution host ctx p g = (Ok u, g') -> resolved ctx p g g'.
Proof.
  intros (u1 & g1 & [-> Hres]%checkResolved_Ok & ([] & g2 & H2%failing_Ok & (unresolved & g3 & H3%failing_Ok & [= H4%guard_not_Ok <-])%M_bind_Ok)%M_bind_Ok)%M_bind_Ok.
  subst. split; [done|]. by exists g2.
Qed.

(** Of the paths whose fingerprints were taken, what the verifier was not allowed to
    write is as it was. *)
Definition boundary_kept (p : PreparedMerge) (g : G) : Prop :=
  forall file before, pm_verifierBaseline p !! file = Some before -> pathInSet file (pm_AllowedWritePaths p) = false ->
    preparedPathFingerprint host hashBytes (path_join [pm_Root p; file]) g = Ok before.

Lemma requireVerifierWriteBoundary_Ok p u g g' : requireVerifierWriteBoundary host hashBytes p g = (Ok u, g') -> g' = g /\ boundary_kept p g.
Proof.
  unfold requireVerifierWriteBoundary. intros [= H <-]. split; [done|]. intros file before Hb Hno. rewrite each_Ok in H.
  specialize (H (file, before)). simpl in H. rewrite Hno in H. destruct (preparedPathFingerprint _ _ _ _) as [after|e].
  - rewrite guard_not_Ok in H. rewrite H; [done|]. by apply elem_of_range_map.
  - by discriminate H; apply elem_of_range_map.
Qed.

(** C28: A merge commit is made only of a prepared merge that passed every check.
    [CreateMergeCommit] succeeds only if the clone is still at the main revision it was
    prepared from; every path whose fingerprint was taken when the merge was prepared,
    and that the verifier was not given to write, has that fingerprint still; the paths
    that git reports as changed against main or as untracked are writes of the
    candidate, both before and after the resolution is staged; and, where the merge had
    conflicts, no conflicting file has markers left and git has no unmerged path once
    they are staged.  The result is then the prepared main revision if there was nothing
    to merge, and otherwise the head after one commit of what is staged. *)
Theorem merge_commit_authorized ctx p candidate g v g' :
  CreateMergeCommit host hashBytes ctx p candidate g = (Ok v, g') ->
  exists g1 g2 g3 g4, gitOutput host ctx (pm_Root p) ["rev-parse"; "HEAD"] g = (Ok (pm_LatestMainRevision p), g1) /\
    boundary_kept p g1 /\ changes_within ctx p g1 g2 /\ (if pm_NeedsResolution p then resolved ctx p g2 g3 else g3 = g2) /\
    changes_within ctx p g3 g4 /\
    if pm_AlreadyMerged p then v = pm_LatestMainRevision p /\ g' = g4
    else exists g5, gitRun host ctx (pm_Root p) (identity ++ ["commit"; "-m"; "Merge Threadmill candidate " +:+ mc_ID candidate]) g4 = (Ok tt, g5) /\
           gitOutput host ctx (pm_Root p) ["rev-parse"; "HEAD"] g5 = (Ok v, g').
Proof.
  intros (u & g4 & Hstage & Hcommit)%M_bind_Ok.
  apply M_bind_Ok in Hstage as (head & g1 & H1%failing_Ok & (u1 & ->%guard_not_Ok & (u2 & g1' & [-> H2]%requireVerifierWriteBoundary_Ok & H)%M_bind_Ok)%guard_bind_Ok).
  apply M_bind_Ok in H as (u3 & g2 & H3%requireChangesWithin_Ok & (u4 & g3 & H4 & H5%requireChangesWithin_Ok)%M_bind_Ok).
  exists g1, g2, g3, g4. split_and!; try done.
  - destruct (pm_NeedsResolution p); [by eapply stageResolution_Ok|]. by injection H4 as _ <-.
  - destruct (pm_AlreadyMerged p); [by injection Hcommit as <- <-|].
    apply M_bind_Ok in Hcommit as ([] & g5 & H6%failing_Ok & H7%failing_Ok). by exists g5.
Qed.

End with_runtime.

(** ** Witnesses

    A git that records its commands: branches and heads are at [main1] until a
    commit, and one file differs. *)

#[local] Existing Instance GoRuntime_list.

Definition commands : Type := list (string * list string).

Definition is_commit (command : string * list string) : bool :=
  existsb (fun arg => bool_decide (arg = "commit")) command.2.

Definition answer (dir : string) (args : list string) (g : commands) : string :=
  match args with
  | ["rev-parse"; "HEAD"] => if existsb is_commit g then "merge1" else "main1"
  | "rev-parse" :: _ => "main1"
  | ["diff"; "--name-only"; "-z"; _; "--"] => "src/a.go" +:+ String "000" ""
  | _ => ""
  end.

Definition refused (args : list string) : bool :=
  match args with "merge-base" :: _ | "diff" :: _ => true | _ => false end.

Definition recording_host : GitHost commands :=
  mkGitHost commands
    (fun _ dir args g => if refused args then ((Some (OtherError "exit status 1"), ""), g) else ((None, ""), (dir, args) :: g))
    (fun _ dir args g => (Ok (answer dir args g), g))
    (fun _ g => (Ok tt, g)) (fun _ _ g => (Ok "/tmp/merge", g)) (fun _ g => (Ok tt, g))
    (fun _ _ => Ok (Some (mkFileInfo 420 false true))) (fun _ _ => Ok "") (fun _ _ => Ok (Some "package a")) "/tmp" Ok.

Lemma recording_no_drift : no_drift recording_host.
Proof.
  split; simpl.
  - intros ctx dir args g e out g'. destruct (refused args); [|discriminate]. by intros [= <- _ _].
  - discriminate.
Qed.

Definition git_candidate : Candidate :=
  mkMergeCandidate "c1" "p1" "t1" "ws1" "v" "d" "/repo" "" "main1" "main1" "cand1" StatusMergeCheck "" "" [] time_zero time_zero.
Definition git_binding : Binding :=
  mkBinding "ws1" 3 "t1" 1 "worktree" "/work/ws1" "b1" "" [] "main1" "cand1" ["src"] (mkWriteSet ["src/a.go"; "src/b.go"] [] [] [] [] [])
    (mkWriteSet ["src/a.go"] [] [] [] [] []) ∅ "" "" StatusSealed "/repo" "".

Definition git_prepared := Prepare recording_host id "" None git_candidate git_binding [].

Lemma prepare_scope_witness : exists p, git_prepared.1 = Ok p /\ scoped git_candidate git_binding p.
Proof.
  destruct git_prepared as [[p|e] g] eqn:H; [|vm_compute in H; discriminate H]. exists p. split; [reflexivity|].
  apply (prepare_scope recording_host id "" None git_candidate git_binding [] p g). exact H.
Defined.

Definition prepared_merge : PreparedMerge :=
  match git_prepared.1 with Ok p => p | Err _ => mkPrepared "" "" "" "" "" false false [] [] [] ∅ end.

Lemma merge_commit_authorized_witness :
  (CreateMergeCommit recording_host id None prepared_merge git_candidate git_prepared.2).1 = Ok "merge1" /\
  exists g1 g2, boundary_kept recording_host id prepared_merge g1 /\ changes_within recording_host None prepared_merge g1 g2.
Proof.
  split; [vm_compute; reflexivity|].
  destruct (merge_commit_authorized recording_host id None prepared_merge git_candidate git_prepared.2 "merge1"
    (CreateMergeCommit recording_host id None prepared_merge git_candidate git_prepared.2).2) as (g1 & g2 & _ & _ & _ & Hb & Hc & _).
  - vm_compute. reflexivity.
  - exists g1, g2. split; [exact Hb|exact Hc].
Defined.

Definition committed : commands := (CreateMergeCommit recording_host id None prepared_merge git_candidate git_prepared.2).2.

Lemma push_exact_outcome_witness : exists g1 g2,
  gitOutput recording_host None "/tmp/merge" ["rev-parse"; "HEAD"] g1 = (Ok "merge1", g2).
Proof.
  destruct (push_exact_outcome recording_host None None prepared_merge "merge1" committed (Ok tt)
    (PushExact recording_host None None prepared_merge "merge1" committed).2) as [Hok _].
  - exact recording_no_drift.
  - discriminate.
  - vm_compute. reflexivity.
  - destruct (Hok eq_refl) as (g1 & _ & [(_ & Hv & _)|(g2 & Hg & _)]); [vm_compute in Hv; discriminate Hv|]. exists g1, g2. exact Hg.
Defined.
