(* ===== verification/Reconciler.v ===== *)
(** * The merge queue reconciler

    [mergequeue/reconciler.go] over the merge queue store, the event log, the
    artifact registry and a git backend.  The workspace reader is a
    function of its request; the targeted verifier may change the artifacts and what
    git and the file system have, as it resolves conflicts in the clone; the methods of the git backend are a
    record over a state of type [G], which [git_backend] fills with [GitMerge].
    The clock is read at numbered places of a call.

    The claim is renewed by a goroutine while the verifier and the merge commit
    run; neither touches the queue, so the renewals of the call ([at_ticks], the
    times at which the timer fired before [Stop]) are performed in one place.  The
    context may be cancelled at any time: [at_ctx1] is its state after the
    preparation, [at_ctx2] after the verification, [at_ctx3] after the push and
    [at_verifyCtx] that of the context of the verifier, which a failed renewal
    cancels too. *)

From stdpp Require Import base tactics option list strings gmap sorting.
From Stdlib Require Import ZArith Ascii.
From S2P Require Import Prelude GoLib GoStrings GoPath Kernel CoordTypes WsModel MergeQueue ObjStore EvLog EvArtifacts Hoare GitMerge.

(** ** Checks *)

Definition withinAllowed (file : string) (allowed : list string) : bool :=
  existsb (fun dir =>
    let dir := trim_char "/" (Clean (backslashes dir)) in
    bool_decide (dir <> "") && (bool_decide (file = dir) || has_prefix (dir +:+ "/") file)) allowed.

Definition validateWorkspace (candidate : Candidate) (binding : Binding) : res unit :=
  _ ← fail_if (bool_decide (bd_ID binding <> mc_WorkspaceRef candidate) || bool_decide (bd_TaskID binding <> mc_TaskID candidate))
      (Forbidden "candidate does not own workspace binding");
  _ ← fail_if (bool_decide (bd_Status binding <> StatusSealed)) (Forbidden "candidate workspace must be sealed");
  _ ← fail_if (bool_decide (bd_ActivePhase binding <> "") || bool_decide (bd_ActiveInvocation binding <> ""))
      (Forbidden "candidate workspace still has an active phase lease");
  _ ← fail_if (bool_decide (lease_of binding PhaseExecute = "")) (Forbidden "candidate workspace has no completed execute phase");
  _ ← fail_if (bool_decide (bd_BaseRevision binding <> mc_BaseRevision candidate) ||
               bool_decide (bd_CurrentRevision binding <> mc_CandidateRevision candidate))
      (Forbidden "candidate revisions do not match sealed workspace");
  _ ← fail_if (bool_decide (ws_Files (bd_DeclaredWrites binding) = [])) (Forbidden "candidate workspace has no declared code writes");
  each (fun file =>
    let clean := Clean (backslashes file) in
    fail_if (bool_decide (clean = ".") || bool_decide (clean = "..") || has_prefix "../" clean || IsAbs clean ||
             negb (withinAllowed clean (bd_AllowedDirs binding)))
      (Forbidden "declared write is outside allowed dirs")) (ws_Files (bd_DeclaredWrites binding)).

Definition second : Z := 1000000000.

(** [claimRenewalDelay] in nanoseconds, for the time that remains. *)
Definition claimRenewalDelay (remaining : Z) : Z :=
  if (remaining <=? 0)%Z then 0
  else
    let delay := (remaining `quot` 3)%Z in
    if (delay <=? 0)%Z then 1
    else if (30 * second <? delay)%Z then 30 * second
    else delay.

Record TargetedVerifyRequest := mkVerifyRequest {
  vq_Candidate : Candidate;
  vq_WorkspaceRoot : string;
  vq_LatestMainRevision : string;
  vq_AllowedWritePaths : list string;
  vq_ConflictPaths : list string;
}.

Record TargetedVerifyResult := mkVerifyResult {
  vr_Passed : bool;
  vr_EvidenceRefs : list ArtifactID;
}.

(** The methods of the git backend. *)
Record MergeBackend (G : Type) := mkMergeBackend {
  mb_Prepare : Context -> Candidate -> Binding -> M error G PreparedMerge;
  mb_CreateMergeCommit : Context -> PreparedMerge -> Candidate -> M error G string;
  mb_PushExact : Context -> PreparedMerge -> string -> M error G unit;
  mb_ContainsRevision : Context -> string -> string -> string -> M error G bool;
  mb_Cleanup : PreparedMerge -> M error G unit;
}.
Arguments mb_Prepare {G}.
Arguments mb_CreateMergeCommit {G}.
Arguments mb_PushExact {G}.
Arguments mb_ContainsRevision {G}.
Arguments mb_Cleanup {G}.

Definition git_backend `{GoRuntime} {G} (host : GitHost G) (hashBytes : string -> string) (TempParent : string) : MergeBackend G :=
  mkMergeBackend G (Prepare host hashBytes TempParent) (CreateMergeCommit host hashBytes) (PushExact host None) (ContainsRevision host)
    (Cleanup host TempParent).

(** What the calls of the reconciler change. *)
Record World (G S : Type) := mkMergeWorld {
  mw_queue : MergeStore;
  mw_log : EventLog;
  mw_artifacts : ArtifactRegistry S;
  mw_git : G;
}.
Arguments mkMergeWorld {G S}.
Arguments mw_queue {G S}.
Arguments mw_log {G S}.
Arguments mw_artifacts {G S}.
Arguments mw_git {G S}.

Section lifting.
Context {G S A : Type}.

Definition on_queue (m : M error MergeStore A) : M error (World G S) A := fun w =>
  let '(r, s) := m (mw_queue w) in (r, mkMergeWorld s (mw_log w) (mw_artifacts w) (mw_git w)).
Definition on_log (m : M error EventLog A) : M error (World G S) A := fun w =>
  let '(r, s) := m (mw_log w) in (r, mkMergeWorld (mw_queue w) s (mw_artifacts w) (mw_git w)).
Definition on_artifacts (m : M error (ArtifactRegistry S) A) : M error (World G S) A := fun w =>
  let '(r, s) := m (mw_artifacts w) in (r, mkMergeWorld (mw_queue w) (mw_log w) s (mw_git w)).
Definition on_git (m : M error G A) : M error (World G S) A := fun w =>
  let '(r, s) := m (mw_git w) in (r, mkMergeWorld (mw_queue w) (mw_log w) (mw_artifacts w) s).
End lifting.

Definition zeroCandidate : Candidate := mkMergeCandidate "" "" "" "" "" "" "" "" "" "" "" "" "" "" [] time_zero time_zero.
Definition zeroClaim : Claim := mkClaim zeroCandidate "" "" time_zero.

Definition recoveryRequired : error :=
  kerr CodeTransitionRejected "merge operation requires manual recovery before new claims" true.

(** What is particular to one call. *)
Record Attempt := mkAttempt {
  at_ctx : Context;
  at_ctx1 : Context;
  at_verifyCtx : Context;
  at_ctx2 : Context;
  at_ctx3 : Context;
  at_clock : nat -> Time;
  at_ticks : list Time;
  at_token : string;
}.

Section with_runtime.
Context `{GR : GoRuntime} {G S : Type}.
Context (fs : HostFS) (backend : MergeBackend G) (store : Store S).
Context (hashBytes ToLower : string -> string) (encodeRequest : EventRequest -> string).
Context (encodePayloadMap : gmap string string -> string).
Context (workspaces : Context -> BindingRef -> res Binding).
(** The verifier works in the clone and may register artifacts. *)
Context (verify : TargetedVerifyRequest -> ArtifactRegistry S * G -> (TargetedVerifyResult * option error) * (ArtifactRegistry S * G)).

Definition candidateArtifacts (candidate : Candidate) : list ArtifactID :=
  dedupeEvidence ([mc_VerifyResultRef candidate; mc_DiffArtifactRef candidate] ++ mc_EvidenceRefs candidate).

Definition mergeSucceededAudit (candidate : Candidate) (mergedRevision mainRevision : string) (refs : list ArtifactID) : auditRecord :=
  mkAudit ("merge-candidate:" +:+ mc_ID candidate +:+ ":merged") "MergeCandidateMerged" (mc_ProjectID candidate) (mc_TaskID candidate)
    (mc_WorkspaceRef candidate)
    (<["candidate_id" := mc_ID candidate]> (<["merged_revision" := mergedRevision]> {["main_revision" := mainRevision]}))
    (Some (dedupeEvidence (candidateArtifacts candidate ++ refs))) false.

Definition auditEvent (audit : auditRecord) : AppendEvent :=
  mkAppend (au_StableKey audit) (au_Type audit) (au_ProjectID audit) (au_TaskID audit) (au_WorkspaceRef audit) "" ""
    (Some (Ok (encodePayloadMap (au_Payload audit)))) (default [] (au_ArtifactRefs audit)) 0.

(** The [n]-th audit of a flush; the event is appended before it is marked. *)
Definition deliverAudit (ctx : Context) (clock : nat -> Time) (n : nat) (audit : auditRecord) : M error (World G S) unit :=
  _ ← on_log (Append hashBytes encodeRequest ctx (auditEvent audit) (clock (100 + n)));
  on_queue (markAuditDelivered ctx (au_StableKey audit)).

Fixpoint deliverAudits (ctx : Context) (clock : nat -> Time) (n : nat) (audits : list auditRecord) : M error (World G S) unit :=
  match audits with
  | [] => mret tt
  | audit :: rest => _ ← deliverAudit ctx clock n audit; deliverAudits ctx clock (n + 1) rest
  end.

Definition flushAudits (ctx : Context) (clock : nat -> Time) (projectID : ProjectID) : M error (World G S) unit :=
  audits ← on_queue (pendingAudits ctx projectID 64);
  deliverAudits ctx clock 0 audits.

Definition readable (w : World G S) (projectID : ProjectID) (taskID : TaskID) (ref : ArtifactID) : bool :=
  CanRead (mw_artifacts w) (mkEvPrincipal EvRoleTaskManager projectID taskID) ref.

Definition queuedAudit (req : EnqueueRequest) : auditRecord :=
  mkAudit ("merge-candidate:" +:+ eq_ID req +:+ ":queued") "MergeCandidateQueued" (eq_ProjectID req) (eq_TaskID req) (eq_WorkspaceRef req)
    (<["candidate_id" := eq_ID req]> {["main_revision" := eq_MainRevision req]}) (Some (enqueueEvidence req)) false.

Definition Enqueue (ctx : Context) (clock : nat -> Time) (req : EnqueueRequest) : M error (World G S) Candidate :=
  w ← get_state;
  _ ← lift (each (fun ref => fail_if (negb (readable w (eq_ProjectID req) (eq_TaskID req) ref))
        (Forbidden "merge candidate evidence is not readable in task scope")) (enqueueEvidence req));
  candidate ← on_queue (enqueue fs ctx req (queuedAudit req) (clock 0));
  _ ← flushAudits ctx clock (eq_ProjectID req);
  mret candidate.

(** ** Failing a candidate *)

Definition failureReport (candidate : Candidate) (reason : string) (cause : error) : RegisterArtifact :=
  mkRegister ArtifactGeneratedReport (mc_ProjectID candidate) (path_join ["merge"; mc_ID candidate; "failure.json"]) "application/json"
    (encodePayloadMap (<["candidate_id" := mc_ID candidate]> (<["reason" := reason]> {["detail" := error_text cause]})))
    (mc_TaskID candidate) "".

Definition failedAudit (candidate : Candidate) (reason : string) (refs : list ArtifactID) : auditRecord :=
  mkAudit ("merge-candidate:" +:+ mc_ID candidate +:+ ":failed:" +:+ reason) "MergeCandidateFailed" (mc_ProjectID candidate)
    (mc_TaskID candidate) (mc_WorkspaceRef candidate) (<["candidate_id" := mc_ID candidate]> {["reason" := reason]})
    (Some (dedupeEvidence (candidateArtifacts candidate ++ refs))) false.

Definition fail (ctx : Context) (clock : nat -> Time) (claim : Claim) (candidate : Candidate) (from reason : string) (cause : error)
    (extraEvidence : list ArtifactID) : M error (World G S) Candidate :=
  artifact ← on_artifacts (Register store hashBytes ToLower ctx (failureReport candidate reason cause) (clock 10));
  let refs := dedupeEvidence (extraEvidence ++ [ar_ID artifact]) in
  failed ← on_queue (failCandidate ctx claim from reason refs (failedAudit candidate reason refs) (clock 11));
  _ ← flushAudits ctx clock (mc_ProjectID candidate);
  mret failed.

(** ** Recovery *)

Definition finalize (ctx : Context) (clock : nat -> Time) (op : mergeOperation) : M error (World G S) Candidate :=
  on_queue (finalizeMergeOperation ctx op (clock 20)).

(** Marking succeeds, and the caller is told to recover by hand. *)
Definition block (ctx : Context) (op : mergeOperation) (reason : string) : M error (World G S) (option Candidate) :=
  _ ← on_queue (markMergeOperationRecoveryRequired ctx op reason);
  throw recoveryRequired.

(** [None] when there is nothing to recover. *)
Definition recoverPendingMergeOperation (ctx : Context) (clock : nat -> Time) (targetRepository : string) :
    M error (World G S) (option Candidate) :=
  pending ← on_queue (pendingMergeOperation fs ctx targetRepository);
  match pending with
  | None => mret None
  | Some op =>
    candidate ← on_queue (MergeQueue.Get ctx (op_CandidateID op));
    if bool_decide (op_Status op = "recovery_required") then throw recoveryRequired
    else
      contained ← on_git (mb_ContainsRevision backend ctx (op_TargetRepository op) (op_TargetBranch op) (op_ExpectedMergedRevision op));
      if negb contained then block ctx op "expected merge commit is not contained in target branch"
      else
        merged ← finalize ctx clock op;
        _ ← flushAudits ctx clock (mc_ProjectID merged);
        mret (Some merged)
  end.

(** ** The renewal goroutine *)

(** [run]: the claim after the ticks, and the error that ended it.  A failed
    renewal is an error of the renewal unless the context was cancelled. *)
Fixpoint renewals (ctx : Context) (claim : Claim) (ticks : list Time) : M error (World G S) (Claim * option error) :=
  match ticks with
  | [] => mret (claim, None)
  | tick :: rest => fun w =>
    match on_queue (RenewClaim ctx claim tick) w with
    | (Ok renewed, w') => renewals ctx renewed rest w'
    | (Err e, w') => (Ok (claim, match ctx with Some _ => None | None => Some e end), w')
    end
  end.

(** ** One candidate *)

(** What is verified: a clean merge carries the evidence it has. *)
Definition verification (candidate : Candidate) (prepared : PreparedMerge) (x : ArtifactRegistry S * G) :
    (TargetedVerifyResult * option error) * (ArtifactRegistry S * G) :=
  if bool_decide (pm_ConflictPaths prepared = [])
  then ((mkVerifyResult true (dedupeEvidence (mc_VerifyResultRef candidate :: mc_EvidenceRefs candidate)), None), x)
  else verify (mkVerifyRequest candidate (pm_Root prepared) (pm_LatestMainRevision prepared) (pm_AllowedWritePaths prepared)
                 (pm_ConflictPaths prepared)) x.

Definition on_verifier {X} (m : ArtifactRegistry S * G -> X * (ArtifactRegistry S * G)) : M error (World G S) X := fun w =>
  let '(answer, (artifacts, g)) := m (mw_artifacts w, mw_git w) in (Ok answer, mkMergeWorld (mw_queue w) (mw_log w) artifacts g).

(** The evidence must be readable in the scope of the task. *)
Definition trusted (w : World G S) (candidate : Candidate) (result : TargetedVerifyResult) (verifyErr : option error) :
    list ArtifactID * option error :=
  if forallb (readable w (mc_ProjectID candidate) (mc_TaskID candidate)) (vr_EvidenceRefs result)
  then (vr_EvidenceRefs result, verifyErr)
  else ([], Some (Forbidden "targeted verify evidence is outside task scope")).

Definition joined (first : option error) (second : error) : error :=
  match first with Some e => JoinError e second | None => second end.

(** After [renewal.Stop]: its error, or a cancelled context, ends the call. *)
Definition stopped (a : Attempt) (cause : option error) (renewal : Claim * option error) : res unit :=
  match renewal.2 with
  | Some e => Err (joined cause e)
  | None => match at_ctx2 a with Some e => Err (joined cause e) | None => Ok tt end
  end.

(** From the durable operation on: push, and settle what the push left behind. *)
Definition pushAndFinalize (a : Attempt) (claim : Claim) (candidate : Candidate) (prepared : PreparedMerge) (op : mergeOperation) :
    M error (World G S) (option Candidate) := fun w =>
  let ctx := at_ctx3 a in
  let finish := merged ← finalize ctx (at_clock a) op; _ ← flushAudits ctx (at_clock a) (mc_ProjectID candidate); mret (Some merged) in
  match on_git (mb_PushExact backend (at_ctx2 a) prepared (op_ExpectedMergedRevision op)) w with
  | (Ok _, w) => finish w
  | (Err err, w) =>
    match on_git (mb_ContainsRevision backend ctx (op_TargetRepository op) (op_TargetBranch op) (op_ExpectedMergedRevision op)) w with
    | (Ok true, w) => finish w
    | (contained, w) =>
      if isPushCASDrift err then
        (_ ← on_queue (abortMergeOperation ctx op);
         failed ← fail ctx (at_clock a) claim candidate StatusTargetedVerify FailureMainDrift err [];
         mret (Some failed)) w
      else
        let reason := match contained with
                      | Err e => error_text err +:+ "; contains check failed: " +:+ error_text e
                      | Ok _ => error_text err
                      end in
        block ctx op reason w
    end
  end.

Definition mergeVerified (a : Attempt) (claim : Claim) (prepared : PreparedMerge) (result : TargetedVerifyResult) :
    M error (World G S) (option Candidate) := fun w =>
  let '(answer, w) := on_git (mb_CreateMergeCommit backend (at_verifyCtx a) prepared (cl_Candidate claim)) w in
  let mergeErr := match answer with Ok _ => None | Err e => Some e end in
  (renewal ← renewals (at_ctx1 a) claim (at_ticks a);
   let claim := (renewal : Claim * option error).1 in
   let candidate := cl_Candidate claim in
   _ ← lift (stopped a mergeErr renewal);
   match answer with
   | Err e =>
     failed ← fail (at_ctx2 a) (at_clock a) claim candidate StatusTargetedVerify (failureReason e FailureConflict) e [];
     mret (Some failed)
   | Ok mergedRevision =>
     op ← on_queue (beginMergeOperation (at_ctx2 a) claim
            (mkOperationRequest (pm_LatestMainRevision prepared) mergedRevision (vr_EvidenceRefs result)
               (mergeSucceededAudit candidate mergedRevision (pm_LatestMainRevision prepared) (vr_EvidenceRefs result))) (at_token a));
     pushAndFinalize a claim candidate prepared op
   end) w.

(** The verification failed or has no evidence. *)
Definition failVerified (a : Attempt) (claim : Claim) (verifyErr : option error) (trustedRefs : list ArtifactID) :
    M error (World G S) (option Candidate) :=
  let cause := default (OtherError "targeted verify did not pass with evidence") verifyErr in
  renewal ← renewals (at_ctx1 a) claim (at_ticks a);
  let claim := (renewal : Claim * option error).1 in
  _ ← lift (stopped a (Some cause) renewal);
  failed ← fail (at_ctx2 a) (at_clock a) claim (cl_Candidate claim) StatusTargetedVerify (failureReason cause FailureVerifyFailed) cause trustedRefs;
  mret (Some failed).

(** From the renewed claim on. *)
Definition mergeRenewed (a : Attempt) (claim : Claim) (prepared : PreparedMerge) : M error (World G S) (option Candidate) :=
  candidate ← (if bool_decide (mc_Status (cl_Candidate claim) = StatusMergeCheck)
               then on_queue (advance (at_ctx1 a) claim StatusMergeCheck StatusTargetedVerify [] "" (at_clock a 2))
               else mret (cl_Candidate claim));
  let claim := mkClaim candidate (cl_OwnerID claim) (cl_Token claim) (cl_ExpiresAt claim) in
  verified ← on_verifier (verification candidate prepared);
  let '(result, verifyErr) := verified in
  w ← get_state;
  let '(trustedRefs, verifyErr) := trusted w candidate result verifyErr in
  if bool_decide (verifyErr <> None) || negb (vr_Passed result) || bool_decide (vr_EvidenceRefs result = [])
  then failVerified a claim verifyErr trustedRefs
  else mergeVerified a claim prepared result.

(** The deferred release sees the claim the variable holds at the end: a failed
    renewal has overwritten it with the zero claim. *)
Definition releasing {A} (claim : Claim) (m : M error (World G S) A) : M error (World G S) A :=
  deferring (on_queue (ReleaseClaim None claim)) m.

Definition mergePrepared (a : Attempt) (claim : Claim) (prepared : PreparedMerge) : M error (World G S) (option Candidate) := fun w =>
  let cleanup := on_git (mb_Cleanup backend prepared) in
  match on_queue (RenewClaim (at_ctx1 a) claim (at_clock a 1)) w with
  | (Err e, w) => releasing zeroClaim (deferring cleanup (throw e)) w
  | (Ok claim, w) => releasing claim (deferring cleanup (mergeRenewed a claim prepared)) w
  end.

(** From the claim on. *)
Definition mergeClaimed (a : Attempt) (claim : Claim) : M error (World G S) (option Candidate) :=
  let candidate := cl_Candidate claim in
  let refuse ctx reason cause :=
    releasing claim (failed ← fail ctx (at_clock a) claim candidate (mc_Status candidate) reason cause []; mret (Some failed)) in
  match workspaces (at_ctx a) (mc_WorkspaceRef candidate) with
  | Err e => refuse (at_ctx a) FailurePermission e
  | Ok binding =>
    match validateWorkspace candidate binding with
    | Err e => refuse (at_ctx a) FailurePermission e
    | Ok _ => fun w =>
      match on_git (mb_Prepare backend (at_ctx a) candidate binding) w with
      | (Err e, w) => refuse (at_ctx1 a) (failureReason e FailureConflict) e w
      | (Ok prepared, w) => mergePrepared a claim prepared w
      end
    end
  end.

(** At most one candidate: recovered or claimed; [None] when there is neither. *)
Definition ReconcileOne (a : Attempt) (targetRepository : string) : M error (World G S) (option Candidate) :=
  recovered ← recoverPendingMergeOperation (at_ctx a) (at_clock a) targetRepository;
  match recovered with
  | Some candidate => mret (Some candidate)
  | None =>
    claimed ← on_queue (ClaimNext fs (at_ctx a) targetRepository (at_clock a 0));
    match claimed with
    | None => mret None
    | Some claim => mergeClaimed a claim
    end
  end.

End with_runtime.
