(* ===== verification/ReconcilerInv.v ===== *)
(** * What the queue's operations keep

    [settled L B]: the queue is well formed, only audits that [L] knows of
    are marked delivered, the operations and their candidates agree on the branch, and
    the merged candidates are at revisions [B] vouches for. *)

From stdpp Require Import base tactics option list strings gmap sorting relations.
From Stdlib Require Import ZArith Ascii.
From S2P Require Import Prelude GoLib GoStrings Kernel CoordTypes MergeQueue MergeQueueSpec.
From S2P Require Import WsModel ObjStore EvLog EvArtifacts EvProps Hoare GitMerge Reconciler.

Record facts (L : auditRecord -> Prop) (B : string -> string -> string -> Prop) (s : MergeStore) : Prop := {
  sd_delivered : forall k a, ms_audits s !! k = Some a -> au_StableKey a = k /\ (au_Delivered a = true -> L a);
  sd_branches : forall k o c, ms_operations s !! k = Some o -> ms_candidates s !! op_CandidateID o = Some c ->
    mc_TargetBranch c = op_TargetBranch o;
  sd_audits : forall k o, ms_operations s !! k = Some o -> au_Delivered (op_Audit o) = false;
  sd_merged : forall k c, ms_candidates s !! k = Some c -> mc_Status c = StatusMerged ->
    B (mc_TargetRepository c) (branchOf (mc_TargetBranch c)) (mc_MergedRevision c);
}.

Definition settled L B (s : MergeStore) : Prop := queue_inv s /\ facts L B s.

Lemma facts_mono (L L' : auditRecord -> Prop) (B B' : string -> string -> string -> Prop) s :
  (forall a, L a -> L' a) -> (forall r b v, B r b v -> B' r b v) -> facts L B s -> facts L' B' s.
Proof. intros HL HB [H1 H2 H3 H4]. constructor; try done; [|by eauto]. intros k a (? & ?)%H1. auto. Qed.

Section updates.
Context (L : auditRecord -> Prop) (B : string -> string -> string -> Prop).

Lemma facts_new : facts L B NewMergeStore.
Proof. constructor; intros *; simpl; by rewrite lookup_empty. Qed.

(** A candidate that moves on. *)
Lemma facts_candidate s c0 status reason merged refs now :
  facts L B s -> queue_inv s -> ms_candidates s !! mc_ID c0 = Some c0 ->
  (status = StatusMerged -> B (mc_TargetRepository c0) (branchOf (mc_TargetBranch c0)) merged) ->
  facts L B (ms_set_candidate (mc_set status reason merged refs now c0) s).
Proof.
  intros [H1 H2 H3 H4] Hq Hc HB. constructor; simpl; try done.
  - intros k o c Ho. rewrite lookup_insert_Some. intros [[Heq <-]|[_ Hc']]; [|by eapply H2]. simpl.
    eapply H2; [exact Ho|]. by rewrite <- Heq.
  - intros k c. rewrite lookup_insert_Some. intros [[_ <-]|[_ Hc']]; [by simpl|by eapply H4].
Qed.

Lemma facts_new_candidate s c : facts L B s -> queue_inv s -> ms_candidates s !! mc_ID c = None -> mc_Status c <> StatusMerged ->
  facts L B (ms_set_candidate c s).
Proof.
  intros [H1 H2 H3 H4] Hq Hc Hst. constructor; simpl; try done.
  - intros k o c' Ho. rewrite lookup_insert_Some. intros [[Heq <-]|[_ Hc']]; [|by eapply H2].
    destruct (oo_candidate _ _ _ (qi_operations _ Hq _ _ Ho)) as (c1 & Hc1 & _). congruence.
  - intros k c'. rewrite lookup_insert_Some. intros [[_ <-]|[_ Hc']]; [done|by eapply H4].
Qed.

Lemma facts_claims s m : facts L B s -> facts L B (ms_set_claims m s).
Proof. intros [H1 H2 H3 H4]. by constructor. Qed.

Lemma facts_operation s o : facts L B s -> au_Delivered (op_Audit o) = false ->
  (forall c, ms_candidates s !! op_CandidateID o = Some c -> mc_TargetBranch c = op_TargetBranch o) ->
  facts L B (ms_set_operation o s).
Proof.
  intros [H1 H2 H3 H4] Ha Hb. constructor; simpl; try done.
  - intros k o' c. rewrite lookup_insert_Some. intros [[_ <-]|[_ Ho]]; [apply Hb|by eapply H2].
  - intros k o'. rewrite lookup_insert_Some. intros [[_ <-]|[_ Ho]]; [done|by eapply H3].
Qed.

Lemma facts_audits s key a order : facts L B s -> au_StableKey a = key -> (au_Delivered a = true -> L a) ->
  facts L B (ms_set_audits (<[key := a]> (ms_audits s)) order s).
Proof.
  intros [H1 H2 H3 H4] Hk Ha. constructor; simpl; try done.
  intros k a'. rewrite lookup_insert_Some. intros [[<- <-]|[_ Hk']]; [done|by eapply H1].
Qed.

(** An operation that changes its status only. *)
Lemma facts_status s o0 status reason : facts L B s -> ms_operations s !! op_ID o0 = Some o0 ->
  facts L B (ms_set_operation (op_set_Status status reason (cloneMergeOperation o0)) s).
Proof.
  intros Hs Ho. apply facts_operation; [done| |].
  - simpl. apply (sd_audits _ _ _ Hs _ _ Ho).
  - simpl. intros c Hc. by eapply (sd_branches _ _ _ Hs).
Qed.

Context `{GR : GoRuntime}.

Lemma wp_candidate {A} id (k : Candidate -> M error MergeStore A) Q s :
  (forall e, Q (Err e) s) -> (forall c, ms_candidates s !! id = Some c -> wp (k c) Q s) -> wp (get_candidate id ≫= k) Q s.
Proof.
  intros He Hk. apply wp_bind. unfold get_candidate. apply wp_get. destruct (ms_candidates s !! id) as [c|] eqn:Hc; [|apply He].
  by apply wp_ret, Hk.
Qed.

(** The queue part comes from the events, the facts from the updates. *)
Lemma settled_intro {A} (m : M error MergeStore A) s :
  settled L B s -> (queue_inv s -> emits m s) -> wp m (fun _ s' => facts L B s') s -> wp m (fun _ s' => settled L B s') s.
Proof. intros [Hq Hf] He Hw. split; [|exact Hw]. eapply queue_events_inv; [|exact Hq]. by apply He. Qed.

Lemma audit_settled audit s : settled L B s -> au_Delivered audit = false ->
  wp (appendAuditLocked audit) (fun _ s' => settled L B s' /\ ms_candidates s' = ms_candidates s /\ ms_operations s' = ms_operations s) s.
Proof.
  intros Hs Ha. apply wp_intro. intros r s' Hr. destruct (appendAuditLocked_frame _ _ _ _ Hr) as (Hc & _ & Ho). split_and!; [|done..].
  eapply (wp_run (appendAuditLocked audit) (fun _ s' => settled L B s')); [|exact Hr].
  apply settled_intro; [done|intros _; apply appendAuditLocked_emits|]. apply wp_guard; [intros; apply Hs|]. intros _ _. apply wp_get. simpl.
  destruct (ms_audits s !! au_StableKey audit) as [a|]; [destruct (negb _); apply Hs|].
  apply facts_audits; [apply Hs|done|]. simpl. congruence.
Qed.

(** ** The calls *)

Context (fs : HostFS).

Lemma enqueue_settled ctx req audit now : au_Delivered audit = false -> keeps (settled L B) (enqueue fs ctx req audit now).
Proof.
  intros Ha s Hs. apply settled_intro; [done|intros _; apply enqueue_emits|].
  do 3 (apply wp_guard; [intros; apply Hs|intros ? _]). apply wp_get. destruct (ms_candidates s !! _) as [c|] eqn:Hc.
  - destruct (sameEnqueue c _); [|apply Hs]. apply wp_bind. eapply wp_mono; [by apply audit_settled|].
    intros [u|e] s' [Hs' _]; apply Hs'.
  - apply wp_bind. eapply wp_mono; [by apply audit_settled|]. intros [u|e] s' (Hs' & Hcs & _); [|apply Hs'].
    apply facts_new_candidate; [apply Hs'..|by rewrite Hcs|done].
Qed.

Lemma ClaimNext_settled ctx repository now : keeps (settled L B) (ClaimNext fs ctx repository now).
Proof.
  intros s Hs. apply settled_intro; [done|by apply ClaimNext_emits|].
  apply wp_guard; [intros; apply Hs|intros _ _]. apply wp_guard; [intros; apply Hs|intros r _]. apply wp_get.
  destruct (activeOperationLocked s r); [apply Hs|]. destruct (ms_repoClaims s !! r); [apply Hs|].
  destruct (sort_slice _ _) as [|c rest] eqn:Hsort; [apply Hs|]. case_bool_decide as Hq.
  - apply wp_modify, wp_modify. apply facts_claims, facts_candidate; [apply Hs..| |done].
    destruct (queue_head s r c rest Hsort) as (_ & [k Hc] & _). by rewrite (co_id _ _ (qi_candidates _ (proj1 Hs) _ _ Hc)).
  - apply wp_modify. apply facts_claims, Hs.
Qed.

Lemma RenewClaim_settled ctx claim now : keeps (settled L B) (RenewClaim ctx claim now).
Proof.
  intros s Hs. apply settled_intro; [done|by apply RenewClaim_emits|].
  apply wp_guard; [intros; apply Hs|intros _ _]. apply wp_get. cbv zeta. destruct (ms_repoClaims s !! mc_TargetRepository (cl_Candidate claim)) as [cl|]; [|apply Hs].
  apply wp_guard; [intros; apply Hs|intros _ _]. apply wp_candidate; [intros; apply Hs|]. intros c Hc.
  apply facts_claims, Hs.
Qed.

Lemma advance_settled ctx claim from to refs merged now : to <> StatusMerged -> keeps (settled L B) (advance ctx claim from to refs merged now).
Proof.
  intros Hto s Hs. apply settled_intro; [done|by apply advance_emits|].
  do 2 (apply wp_guard; [intros; apply Hs|intros _ _]). apply wp_get. apply wp_guard; [intros; apply Hs|intros _ _].
  apply wp_candidate; [intros; apply Hs|]. intros c Hc. do 2 (apply wp_guard; [intros; apply Hs|intros _ _]).
  apply facts_candidate; [apply Hs..| |done]. rewrite (co_id _ _ (qi_candidates _ (proj1 Hs) _ _ Hc)). done.
Qed.

Lemma begin_settled ctx claim req token : au_Delivered (or_Audit req) = false -> keeps (settled L B) (beginMergeOperation ctx claim req token).
Proof.
  intros Ha s Hs. apply settled_intro; [done|by apply beginMergeOperation_emits|].
  do 2 (apply wp_guard; [intros; apply Hs|intros _ _]). apply wp_get. apply wp_guard; [intros; apply Hs|intros _ _].
  apply wp_candidate; [intros; apply Hs|]. intros c Hc. apply wp_guard; [intros; apply Hs|intros _ _].
  pose proof (co_id _ _ (qi_candidates _ (proj1 Hs) _ _ Hc)) as Hid.
  destruct (activeOperationLocked s _); [destruct (_ && _); apply Hs|]. apply facts_operation; [apply Hs|done|].
  simpl. rewrite Hid. intros c' Hc'. congruence.
Qed.

Lemma abort_settled ctx op : keeps (settled L B) (abortMergeOperation ctx op).
Proof.
  intros s Hs. apply settled_intro; [done|by apply abortMergeOperation_emits|].
  apply wp_guard; [intros; apply Hs|intros _ _]. apply wp_get. apply wp_guard; [intros; apply Hs|].
  intros o (o0 & Ho & _ & _ & ->)%requireOperationLocked_Ok. apply facts_status; [apply Hs|].
  by rewrite (active_operation s op o0 (proj1 Hs) Ho).
Qed.

Lemma mark_recovery_settled ctx op reason : keeps (settled L B) (markMergeOperationRecoveryRequired ctx op reason).
Proof.
  intros s Hs. apply settled_intro; [done|by apply markMergeOperationRecoveryRequired_emits|].
  apply wp_guard; [intros; apply Hs|intros _ _]. apply wp_get. apply wp_guard; [intros; apply Hs|].
  intros o (o0 & Ho & _ & _ & ->)%requireOperationLocked_Ok.
  assert (facts L B (ms_set_operation (op_set_Status "recovery_required" reason (cloneMergeOperation o0)) s)) as Hf.
  { apply facts_status; [apply Hs|]. by rewrite (active_operation s op o0 (proj1 Hs) Ho). }
  apply wp_modify. by apply wp_candidate; [|intros c _].
Qed.

Lemma fail_settled ctx claim from reason refs audit now : au_Delivered audit = false ->
  keeps (settled L B) (failCandidate ctx claim from reason refs audit now).
Proof.
  intros Ha s Hs. apply settled_intro; [done|by apply failCandidate_emits|].
  do 2 (apply wp_guard; [intros; apply Hs|intros _ _]). apply wp_get. apply wp_guard; [intros; apply Hs|intros _ _].
  apply wp_candidate; [intros; apply Hs|]. intros c Hc. case_match.
  - apply wp_bind. eapply wp_mono; [by apply audit_settled|]. intros [u|e] s' [Hs' _]; apply Hs'.
  - apply wp_guard; [intros; apply Hs|intros _ _]. apply wp_bind. eapply wp_mono; [by apply audit_settled|].
    intros [u|e] s' (Hs' & Hcs & _); [|apply Hs']. apply facts_candidate; [apply Hs'..| |done].
    rewrite Hcs, (co_id _ _ (qi_candidates _ (proj1 Hs) _ _ Hc)). done.
Qed.

Lemma ReleaseClaim_settled ctx claim : keeps (settled L B) (ReleaseClaim ctx claim).
Proof.
  intros s Hs. apply settled_intro; [done|intros _; apply ReleaseClaim_emits|].
  apply wp_guard; [intros; apply Hs|intros _ _]. apply wp_get. cbv zeta. destruct (ms_repoClaims s !! mc_TargetRepository (cl_Candidate claim)) as [cl|]; [|apply Hs].
  destruct (_ && _); [|apply Hs]. apply facts_claims, Hs.
Qed.

(** Delivery is recorded only for audits that [L] knows. *)
Lemma delivered_settled ctx key s : settled L B s ->
  (forall a, ms_audits s !! key = Some a -> L (au_set_Delivered true a)) ->
  wp (markAuditDelivered ctx key) (fun _ s' => settled L B s') s.
Proof.
  intros Hs Hk. apply settled_intro; [done|intros _; apply markAuditDelivered_emits|].
  apply wp_guard; [intros; apply Hs|intros _ _]. apply wp_get. destruct (ms_audits s !! key) as [a|] eqn:Ha; [|apply Hs].
  apply facts_audits; [apply Hs|by apply (sd_delivered _ _ _ (proj2 Hs) _ _ Ha)|by intros _; apply Hk].
Qed.

(** A merge is recorded only at a revision that [B] vouches for. *)
Lemma finalize_settled ctx op now :
  B (op_TargetRepository op) (branchOf (op_TargetBranch op)) (op_ExpectedMergedRevision op) ->
  forall s, settled L B s -> (exists o0, ms_operations s !! op_ID op = Some o0 /\ op_TargetRepository o0 = op_TargetRepository op /\
    op_TargetBranch o0 = op_TargetBranch op /\ op_ExpectedMergedRevision o0 = op_ExpectedMergedRevision op) ->
  wp (finalizeMergeOperation ctx op now) (fun _ s' => settled L B s') s.
Proof.
  intros HB s Hs (o1 & Ho1 & Hr & Hbr & Hv). apply settled_intro; [done|by apply finalizeMergeOperation_emits|].
  apply wp_guard; [intros; apply Hs|intros _ _]. apply wp_get. apply wp_guard; [intros; apply Hs|].
  intros o (o0 & Ho & _ & _ & ->)%requireOperationLocked_Ok. rewrite Ho in Ho1. injection Ho1 as ->.
  apply wp_candidate; [intros; apply Hs|]. intros c Hc. destruct (bool_decide _ && bool_decide _); [apply Hs|].
  apply wp_guard; [intros; apply Hs|intros _ _]. apply wp_bind.
  pose proof (co_id _ _ (qi_candidates _ (proj1 Hs) _ _ Hc)) as Hid.
  eapply wp_mono; [apply audit_settled; [done|apply (sd_audits _ _ _ (proj2 Hs) _ _ Ho)]|].
  intros [u|e] s' (Hs' & Hcs & Hos); [|apply Hs']. apply wp_modify, wp_modify, wp_ret.
  assert (ms_candidates s' !! mc_ID c = Some c) as Hc' by (rewrite Hcs, Hid; exact Hc).
  apply facts_operation; [apply facts_candidate; [apply Hs'|apply Hs'|done|]|simpl; apply (sd_audits _ _ _ (proj2 Hs) _ _ Ho)|].
  - intros _. rewrite (sd_branches _ _ _ (proj2 Hs) _ _ _ Ho Hc).
    destruct (oo_candidate _ _ _ (qi_operations _ (proj1 Hs) _ _ Ho)) as (c1 & Hc1 & Hr1 & _). simpl in Hc. rewrite Hc in Hc1. injection Hc1 as <-.
    rewrite <- Hr1, Hr, Hbr. simpl. by rewrite Hv.
  - simpl. intros c2. rewrite lookup_insert_Some. intros [[_ <-]|[Hne Hc2]]; simpl; [apply (sd_branches _ _ _ (proj2 Hs) _ _ _ Ho Hc)|].
    rewrite Hcs in Hc2. apply (sd_branches _ _ _ (proj2 Hs) _ _ _ Ho Hc2).
Qed.

End updates.

(** * The reconciler keeps the queue, the log and the repository consistent *)

(** What the reconciler relies on of its git backend: a managed branch only ever
    gains commits, a push that succeeds and a positive containment check mean that
    the branch has the commit, and a prepared merge is for the branch of its
    candidate. *)
Class MergeLaws {G} (backend : MergeBackend G) (in_branch : G -> string -> string -> string -> Prop) := {
  ml_prepare : forall ctx c b g p g', mb_Prepare backend ctx c b g = (Ok p, g') ->
    pm_TargetRepository p = mc_TargetRepository c /\ pm_TargetBranch p = branchOf (mc_TargetBranch c);
  ml_push : forall ctx p v g g', mb_PushExact backend ctx p v g = (Ok tt, g') -> in_branch g' (pm_TargetRepository p) (pm_TargetBranch p) v;
  ml_contains : forall ctx r b v g g', mb_ContainsRevision backend ctx r b v g = (Ok true, g') -> in_branch g' r (branchOf b) v;
  ml_grow_prepare : forall ctx c b g r br v, in_branch g r br v -> in_branch (mb_Prepare backend ctx c b g).2 r br v;
  ml_grow_commit : forall ctx p c g r br v, in_branch g r br v -> in_branch (mb_CreateMergeCommit backend ctx p c g).2 r br v;
  ml_grow_push : forall ctx p x g r br v, in_branch g r br v -> in_branch (mb_PushExact backend ctx p x g).2 r br v;
  ml_grow_contains : forall ctx r0 b x g r br v, in_branch g r br v -> in_branch (mb_ContainsRevision backend ctx r0 b x g).2 r br v;
  ml_grow_cleanup : forall p g r br v, in_branch g r br v -> in_branch (mb_Cleanup backend p g).2 r br v;
}.

(** ** Lifting *)

Section lifting.
Context {G S A : Type}.
Implicit Types (w : World G S).

Lemma wp_on_queue (m : M error MergeStore A) Q w :
  wp m (fun r s => Q r (mkMergeWorld s (mw_log w) (mw_artifacts w) (mw_git w))) (mw_queue w) -> wp (on_queue m) Q w.
Proof. unfold wp, on_queue. by destruct (m (mw_queue w)). Qed.

Lemma wp_on_log (m : M error EventLog A) Q w :
  wp m (fun r s => Q r (mkMergeWorld (mw_queue w) s (mw_artifacts w) (mw_git w))) (mw_log w) -> wp (on_log m) Q w.
Proof. unfold wp, on_log. by destruct (m (mw_log w)). Qed.

Lemma wp_on_artifacts (m : M error (ArtifactRegistry S) A) Q w :
  wp m (fun r s => Q r (mkMergeWorld (mw_queue w) (mw_log w) s (mw_git w))) (mw_artifacts w) -> wp (on_artifacts m) Q w.
Proof. unfold wp, on_artifacts. by destruct (m (mw_artifacts w)). Qed.

Lemma wp_on_git (m : M error G A) Q w :
  wp m (fun r g => Q r (mkMergeWorld (mw_queue w) (mw_log w) (mw_artifacts w) g)) (mw_git w) -> wp (on_git m) Q w.
Proof. unfold wp, on_git. by destruct (m (mw_git w)). Qed.
End lifting.

Section with_runtime.
Context `{GR : GoRuntime} {G S : Type}.
Context (fs : HostFS) (backend : MergeBackend G) (store : Store S).
Context (hashBytes ToLower : string -> string) (encodeRequest : EventRequest -> string).
Context (encodePayloadMap : gmap string string -> string).
Context (workspaces : Context -> BindingRef -> res Binding).
Context (verify : TargetedVerifyRequest -> ArtifactRegistry S * G -> (TargetedVerifyResult * option error) * (ArtifactRegistry S * G)).
Context (in_branch : G -> string -> string -> string -> Prop) `{ML : !MergeLaws backend in_branch}.
(** The verifier takes no commit off a branch. *)
Context (Hverify : forall req x r b v, in_branch x.2 r b v -> in_branch (verify req x).2.2 r b v).

Local Abbreviation auditEvent := (auditEvent encodePayloadMap).
Local Abbreviation flushAudits := (flushAudits hashBytes encodeRequest encodePayloadMap).
Local Abbreviation fail := (fail store hashBytes ToLower encodeRequest encodePayloadMap).

(** The log has the event of an audit, appended with exactly its content. *)
Definition logged (l : EventLog) (a : auditRecord) : Prop :=
  exists e, el_byStableKey l !! au_StableKey a =
    Some (mkStableEvent e (canonicalEventRequestHash hashBytes encodeRequest (auditEvent a) (encodePayloadMap (au_Payload a)))).

Definition winv (w : World G S) : Prop :=
  settled (logged (mw_log w)) (in_branch (mw_git w)) (mw_queue w) /\ log_inv (mw_log w).

Lemma logged_extends l l' a : extends l l' -> logged l a -> logged l' a.
Proof. intros (_ & _ & Hsub) [e He]. exists e. by eapply lookup_weaken. Qed.

Lemma keeps_queue {A} (m : M error MergeStore A) : (forall L B, keeps (settled L B) m) -> keeps winv (on_queue m).
Proof. intros Hm w [Hs Hl]. apply wp_on_queue. eapply wp_mono; [by apply Hm|]. by intros r s Hs'. Qed.

Lemma keeps_artifacts {A} (m : M error (ArtifactRegistry S) A) : keeps winv (on_artifacts m).
Proof. intros w Hw. apply wp_on_artifacts. apply wp_intro. by intros r s _. Qed.

Lemma winv_git w g : winv w -> (forall r b v, in_branch (mw_git w) r b v -> in_branch g r b v) ->
  winv (mkMergeWorld (mw_queue w) (mw_log w) (mw_artifacts w) g).
Proof. intros [[Hq Hf] Hl] Hg. split; [|done]. split; [done|]. by eapply facts_mono; [|exact Hg|exact Hf]. Qed.

Lemma winv_verified w artifacts g : winv w -> (forall r b v, in_branch (mw_git w) r b v -> in_branch g r b v) ->
  winv (mkMergeWorld (mw_queue w) (mw_log w) artifacts g).
Proof. apply winv_git. Qed.

Lemma keeps_git {A} (m : M error G A) : (forall g r b v, in_branch g r b v -> in_branch (m g).2 r b v) -> keeps winv (on_git m).
Proof. intros Hm w Hw. apply wp_on_git, wp_intro. intros r g Hr. apply winv_git; [done|]. intros. pose proof (Hm (mw_git w) r0 b v H) as H'. by rewrite Hr in H'. Qed.

(** ** Audits *)

(** Appending the event of an audit. *)
Lemma wp_append ctx req now w (Q : res Event -> World G S -> Prop) : winv w ->
  (forall r l', Append hashBytes encodeRequest ctx req now (mw_log w) = (r, l') ->
     winv (mkMergeWorld (mw_queue w) l' (mw_artifacts w) (mw_git w)) -> Q r (mkMergeWorld (mw_queue w) l' (mw_artifacts w) (mw_git w))) ->
  wp (on_log (Append hashBytes encodeRequest ctx req now)) Q w.
Proof.
  intros [[Hq Hf] Hl] HQ. apply wp_on_log, wp_intro. intros r l' Hr. apply HQ; [done|].
  assert (extends (mw_log w) l') as Hext.
  { apply (log_step_extends hashBytes encodeRequest). exists ctx, req, now. by rewrite Hr. }
  split; [|by eapply log_inv_append]. split; [done|]. eapply facts_mono; [|by intros *|exact Hf].
  intros a. simpl. by apply logged_extends.
Qed.

Lemma append_logs ctx a now l e l' : Append hashBytes encodeRequest ctx (auditEvent a) now l = (Ok e, l') -> logged l' a.
Proof.
  intros [(? & [=] & _)|(_ & _ & _ & payload & Hp & [(e' & Hk & _ & ->)|(_ & _ & ->)])]%Append_cases.
  - simpl in Hp. destruct (fail_if _ _); [|done]. injection Hp as <-. by exists e'.
  - simpl in Hp. destruct (fail_if _ _); [|done]. injection Hp as <-. eexists. simpl. by rewrite lookup_insert_eq.
Qed.

(** The audits of the queue that a list of audits stands for. *)
Definition stands_for (s : MergeStore) (audit : auditRecord) : Prop :=
  exists a, ms_audits s !! au_StableKey audit = Some a /\ auditEvent a = auditEvent audit /\ au_Payload a = au_Payload audit.

Lemma markAuditDelivered_audits ctx key s k a : ms_audits s !! k = Some a ->
  exists a', ms_audits (markAuditDelivered ctx key s).2 !! k = Some a' /\ auditEvent a' = auditEvent a /\ au_Payload a' = au_Payload a.
Proof.
  intros Ha. change (wp (markAuditDelivered ctx key) (fun _ s' => exists a', ms_audits s' !! k = Some a' /\ auditEvent a' = auditEvent a /\
    au_Payload a' = au_Payload a) s). apply wp_guard; [by eauto|intros _ _]. apply wp_get.
  destruct (ms_audits s !! key) as [b|] eqn:Hb; [|by exists a]. unfold wp. simpl. destruct (decide (key = k)) as [->|Hne].
  - exists (au_set_Delivered true b). rewrite lookup_insert_eq. simplify_eq. done.
  - exists a. by rewrite lookup_insert_ne.
Qed.

Lemma deliver_winv ctx clock n audits w : winv w -> Forall (stands_for (mw_queue w)) audits ->
  wp (deliverAudits hashBytes encodeRequest encodePayloadMap ctx clock n audits) (fun _ w' => winv w') w.
Proof.
  revert n w. induction audits as [|audit audits IH]; intros n w Hw Hall; [done|]. apply Forall_cons in Hall as [(a & Ha & He & Hp) Hall].
  simpl. apply wp_bind. unfold deliverAudit. apply wp_bind. apply wp_append; [done|]. intros [e|e] l' Hr Hw'; [|done].
  apply wp_on_queue. apply append_logs in Hr.
  apply wp_intro. intros r s' Hm.
  assert (settled (logged l') (in_branch (mw_git w)) s') as Hs'.
  { refine (wp_run (markAuditDelivered ctx (au_StableKey audit)) (fun _ s' => settled (logged l') (in_branch (mw_git w)) s') _ _ _ _ Hm).
    apply delivered_settled; [apply Hw'|]. intros a' Ha'. simpl in Ha'. rewrite Ha in Ha'. injection Ha' as <-.
    destruct Hr as [ev Hev]. exists ev. change (auditEvent (au_set_Delivered true a)) with (auditEvent a). simpl.
    rewrite He, Hp. by apply (f_equal ae_StableKey) in He as Hk; simpl in Hk; rewrite Hk. }
  destruct r as [u|e']; [|split; [done|apply Hw']]. apply IH; [split; [done|apply Hw']|].
  eapply Forall_impl; [exact Hall|]. intros x (b & Hb & Hbe & Hbp). destruct (markAuditDelivered_audits ctx (au_StableKey audit) _ _ _ Hb) as (b' & Hb' & ? & ?).
  simpl in Hm. rewrite Hm in Hb'. exists b'. split_and!; [done|congruence|congruence].
Qed.

Lemma flush_winv ctx clock project : keeps winv (flushAudits ctx clock project).
Proof.
  intros w Hw. apply wp_bind, wp_on_queue. unfold pendingAudits. apply wp_guard; [by destruct w|]. intros _ _. apply wp_get, wp_ret.
  replace (mkMergeWorld (mw_queue w) (mw_log w) (mw_artifacts w) (mw_git w)) with w by (by destruct w). apply deliver_winv; [done|].
  assert (Forall (stands_for (mw_queue w)) (cloneAudit <$> filter (fun a => au_Delivered a = false /\ (project = "" \/ au_ProjectID a = project))
    (omap (fun key => ms_audits (mw_queue w) !! key) (ms_auditOrder (mw_queue w))))) as Hall.
  { apply Forall_forall. intros x (a & -> & [_ Ha]%list_elem_of_filter)%list_elem_of_fmap. apply list_elem_of_omap in Ha as (k & _ & Hk).
    destruct (sd_delivered _ _ _ (proj2 (proj1 Hw)) _ _ Hk) as [Hkey _]. exists a. simpl. rewrite Hkey. split_and!; [done| |done].
    unfold Reconciler.auditEvent. simpl. by destruct (au_ArtifactRefs a) as [[|]|]. }
  case_match; [by apply Forall_take|done].
Qed.

(** ** Failing and finalizing *)

#[local] Opaque finalizeMergeOperation markMergeOperationRecoveryRequired abortMergeOperation failCandidate.

Lemma fail_winv ctx clock claim candidate from reason cause extra : keeps winv (fail ctx clock claim candidate from reason cause extra).
Proof.
  apply keeps_bind; [apply keeps_artifacts|]. intros artifact. apply keeps_bind; [apply keeps_queue; intros L B; by apply fail_settled|].
  intros failed. apply keeps_bind; [apply flush_winv|]. intros _. by apply keeps_readonly.
Qed.

(** The operation a call works with is the stored one. *)
Definition current (s : MergeStore) (op : mergeOperation) : Prop :=
  exists o, ms_operations s !! op_ID op = Some o /\ op_TargetRepository o = op_TargetRepository op /\
    op_TargetBranch o = op_TargetBranch op /\ op_ExpectedMergedRevision o = op_ExpectedMergedRevision op.

Lemma finish_winv ctx clock op project w : winv w -> current (mw_queue w) op ->
  in_branch (mw_git w) (op_TargetRepository op) (branchOf (op_TargetBranch op)) (op_ExpectedMergedRevision op) ->
  wp (merged ← finalize ctx clock op; _ ← flushAudits ctx clock (project merged); mret (Some merged)) (fun _ w' => winv w') w.
Proof.
  intros [Hs Hl] Hcur Hin. apply wp_bind, wp_on_queue. eapply wp_mono; [by apply finalize_settled|].
  intros [merged|e] s Hs'; [|by split]. apply keeps_bind; [apply flush_winv| |by split]. intros _. by apply keeps_readonly.
Qed.

Lemma block_winv ctx op reason : keeps winv (block (G := G) (S := S) ctx op reason).
Proof.
  apply keeps_bind; [apply keeps_queue; intros L B; apply mark_recovery_settled|]. intros _. by apply keeps_readonly.
Qed.

Lemma recover_winv ctx clock repository :
  keeps winv (recoverPendingMergeOperation fs backend hashBytes encodeRequest encodePayloadMap ctx clock repository).
Proof.
  intros w Hw. apply wp_bind, wp_on_queue. unfold pendingMergeOperation. do 2 (apply wp_guard; [by destruct w|intros ? _]).
  apply wp_get, wp_ret. replace (mkMergeWorld (mw_queue w) (mw_log w) (mw_artifacts w) (mw_git w)) with w by (by destruct w).
  destruct (activeOperationLocked (mw_queue w) _) as [op|] eqn:Hop; [|done].
  apply wp_bind, wp_on_queue. unfold MergeQueue.Get. apply wp_guard; [by destruct w|intros _ _]. apply wp_candidate; [by destruct w|]. intros c Hc.
  apply wp_ret. replace (mkMergeWorld (mw_queue w) (mw_log w) (mw_artifacts w) (mw_git w)) with w by (by destruct w).
  case_bool_decide; [done|]. apply wp_bind, wp_on_git, wp_intro. intros r g Hr.
  assert (winv (mkMergeWorld (mw_queue w) (mw_log w) (mw_artifacts w) g)) as Hw'.
  { apply winv_git; [done|]. intros r0 b v Hin. eapply (ml_grow_contains ctx (op_TargetRepository op)) in Hin. by rewrite Hr in Hin. }
  destruct r as [[]|e]; [|by apply block_winv|done]. simpl. apply finish_winv; [done| |by eapply ml_contains].
  apply activeOperationLocked_Some in Hop as (k & o & Ho & _ & _ & ->). exists o.
  simpl. by rewrite (oo_key _ _ _ (qi_operations _ (proj1 (proj1 Hw)) _ _ Ho)).
Qed.

(** ** The claimed candidate *)

(** The candidate is stored, with what it was enqueued with. *)
Definition knows (s : MergeStore) (c : Candidate) : Prop :=
  exists c0, ms_candidates s !! mc_ID c = Some c0 /\ mc_identity c0 = mc_identity c.

Lemma same_identity c c' : mc_identity c = mc_identity c' ->
  mc_ID c = mc_ID c' /\ mc_TargetRepository c = mc_TargetRepository c' /\ mc_TargetBranch c = mc_TargetBranch c'.
Proof. intros H. by injection H. Qed.

Lemma knows_same s c c' : mc_identity c = mc_identity c' -> knows s c -> knows s c'.
Proof. intros H (c0 & Hc & Hi). exists c0. destruct (same_identity _ _ H) as (<- & _). split; [done|congruence]. Qed.

Lemma knows_event s s' c : queue_event s s' -> knows s c -> knows s' c.
Proof.
  intros He (c0 & Hc & Hi). destruct He; try (by exists c0); unfold knows; simpl.
  - exists c0. rewrite lookup_insert_ne; [done|]. congruence.
  - match goal with H : candidate_move _ _ |- _ => pose proof (cm_id _ _ H) as Hid; pose proof (cm_identity _ _ H) as Hcm end.
    destruct (decide (mc_ID c' = mc_ID c)) as [Heq|Hne]; [|exists c0; by rewrite lookup_insert_ne].
    exists c'. rewrite Heq, lookup_insert_eq. split; [done|]. congruence.
Qed.

Lemma knows_emits {A} (m : M error MergeStore A) s c : emits m s -> knows s c -> knows (m s).2 c.
Proof. unfold emits. intros H. induction H as [|s1 s2 s3 He _ IH]; [done|]. intros Hk. by eapply IH, knows_event. Qed.

(** A step of the queue that keeps what the queue knows. *)
Lemma wp_queue_step {A} (m : M error MergeStore A) w (Q : res A -> World G S -> Prop) :
  winv w -> (forall L B, keeps (settled L B) m) -> (forall s, queue_inv s -> emits m s) ->
  (forall r s', m (mw_queue w) = (r, s') -> winv (mkMergeWorld s' (mw_log w) (mw_artifacts w) (mw_git w)) ->
    (forall c, knows (mw_queue w) c -> knows s' c) -> Q r (mkMergeWorld s' (mw_log w) (mw_artifacts w) (mw_git w))) ->
  wp (on_queue m) Q w.
Proof.
  intros [Hs Hl] Hk He HQ. apply wp_on_queue, wp_intro. intros r s' Hr. apply HQ; [done| |].
  - split; [|done]. exact (wp_run m (fun _ s' => settled _ _ s') _ _ _ (Hk _ _ _ Hs) Hr).
  - intros c Hc. pose proof (knows_emits m _ c (He _ (proj1 Hs)) Hc) as H. by rewrite Hr in H.
Qed.

Lemma ClaimNext_knows ctx repository now s claim s' : queue_inv s ->
  ClaimNext fs ctx repository now s = (Ok (Some claim), s') -> knows s' (cl_Candidate claim).
Proof.
  intros Hq Hr. refine (wp_run (ClaimNext fs ctx repository now) (fun r s' => forall cl, r = Ok (Some cl) -> knows s' (cl_Candidate cl)) s _ _ _ Hr _ eq_refl).
  do 2 (apply wp_guard; [done|intros ? _]). apply wp_get.
  destruct (activeOperationLocked s _); [done|]. destruct (ms_repoClaims s !! _); [done|].
  destruct (sort_slice _ _) as [|c rest] eqn:Hsort; [done|]. destruct (queue_head s _ c rest Hsort) as (_ & [k Hc] & _).
  pose proof (co_id _ _ (qi_candidates _ Hq _ _ Hc)) as Hid. case_bool_decide.
  - apply wp_modify, wp_modify. intros cl [= <-]. eexists. simpl. rewrite lookup_insert_eq. done.
  - apply wp_modify. intros cl [= <-]. exists c. simpl. by rewrite Hid.
Qed.

Lemma RenewClaim_same ctx claim now s claim' s' : knows s (cl_Candidate claim) ->
  RenewClaim ctx claim now s = (Ok claim', s') -> mc_identity (cl_Candidate claim') = mc_identity (cl_Candidate claim).
Proof.
  intros (c0 & Hc & Hi) Hr.
  refine (wp_run (RenewClaim ctx claim now) (fun r _ => forall cl, r = Ok cl -> mc_identity (cl_Candidate cl) = mc_identity (cl_Candidate claim)) s
    _ _ _ Hr _ eq_refl).
  apply wp_guard; [done|intros _ _]. apply wp_get. cbv zeta. destruct (ms_repoClaims s !! mc_TargetRepository _) as [cl|]; [|done].
  apply wp_guard; [done|intros _ _]. apply wp_candidate; [done|]. intros c Hc'. intros cl' [= <-]. simpl. rewrite Hc in Hc'. injection Hc' as <-. exact Hi.
Qed.

Lemma advance_same ctx claim from to refs merged now s c s' : knows s (cl_Candidate claim) ->
  advance ctx claim from to refs merged now s = (Ok c, s') -> mc_identity c = mc_identity (cl_Candidate claim).
Proof.
  intros (c0 & Hc & Hi) Hr.
  refine (wp_run (advance ctx claim from to refs merged now) (fun r _ => forall c, r = Ok c -> mc_identity c = mc_identity (cl_Candidate claim)) s
    _ _ _ Hr _ eq_refl).
  do 2 (apply wp_guard; [done|intros _ _]). apply wp_get. apply wp_guard; [done|intros _ _]. apply wp_candidate; [done|]. intros c1 Hc1.
  do 2 (apply wp_guard; [done|intros _ _]). intros c2 [= <-]. simpl. rewrite Hc in Hc1. injection Hc1 as <-. exact Hi.
Qed.

(** The operation that a merge works with. *)
Lemma begin_current L B ctx claim req token s op s' : settled L B s -> knows s (cl_Candidate claim) ->
  beginMergeOperation ctx claim req token s = (Ok op, s') ->
  current s' op /\ op_TargetRepository op = mc_TargetRepository (cl_Candidate claim) /\ op_TargetBranch op = mc_TargetBranch (cl_Candidate claim) /\
  op_ExpectedMergedRevision op = or_ExpectedMergedRevision req.
Proof.
  intros Hs (c0 & Hc & Hi) Hr. destruct (same_identity _ _ Hi) as (Hid & Hrep & Hbr).
  refine (wp_run (beginMergeOperation ctx claim req token) (fun r s' => forall op, r = Ok op -> current s' op /\ op_TargetRepository op = _ /\
    op_TargetBranch op = _ /\ op_ExpectedMergedRevision op = _) s _ _ _ Hr _ eq_refl).
  do 2 (apply wp_guard; [done|intros _ _]). apply wp_get. apply wp_guard; [done|intros _ _]. apply wp_candidate; [done|]. intros c Hc1.
  rewrite Hc in Hc1. injection Hc1 as <-. apply wp_guard; [done|intros _ _].
  destruct (activeOperationLocked s _) as [ex|] eqn:Hex.
  - destruct (_ && _) eqn:Hb; [|done]. bool_inv. intros op1 [= <-]. apply activeOperationLocked_Some in Hex as (k & o & Ho & Hro & _ & ->).
    pose proof (oo_key _ _ _ (qi_operations _ (proj1 Hs) _ _ Ho)) as Hk. simpl in *. split_and!; [|congruence| |congruence].
    + exists o. simpl. by rewrite Hk.
    + rewrite <- Hbr. symmetry. eapply (sd_branches _ _ _ (proj2 Hs)); [exact Ho|]. rewrite Hid in *. congruence.
  - intros op1 [= <-]. simpl. split_and!; [|done..]. eexists. simpl. rewrite lookup_insert_eq. done.
Qed.

(** ** One candidate *)

Local Abbreviation pushAndFinalize := (pushAndFinalize backend store hashBytes ToLower encodeRequest encodePayloadMap).
Local Abbreviation mergeVerified := (mergeVerified backend store hashBytes ToLower encodeRequest encodePayloadMap).
Local Abbreviation failVerified := (failVerified store hashBytes ToLower encodeRequest encodePayloadMap).
Local Abbreviation mergeRenewed := (mergeRenewed backend store hashBytes ToLower encodeRequest encodePayloadMap verify).
Local Abbreviation mergePrepared := (mergePrepared backend store hashBytes ToLower encodeRequest encodePayloadMap verify).
Local Abbreviation mergeClaimed := (mergeClaimed backend store hashBytes ToLower encodeRequest encodePayloadMap workspaces verify).
Local Abbreviation ReconcileOne := (ReconcileOne fs backend store hashBytes ToLower encodeRequest encodePayloadMap workspaces verify).
Local Abbreviation Enqueue := (Enqueue fs hashBytes encodeRequest encodePayloadMap).

Definition holding (c : Candidate) (w : World G S) : Prop := winv w /\ knows (mw_queue w) c.

(** The merge was prepared for the candidate. *)
Definition prepared_for (p : PreparedMerge) (c : Candidate) : Prop :=
  pm_TargetRepository p = mc_TargetRepository c /\ pm_TargetBranch p = branchOf (mc_TargetBranch c).

Lemma failed_winv ctx clock claim candidate from reason cause extra :
  keeps winv (failed ← fail ctx clock claim candidate from reason cause extra; mret (Some failed)).
Proof. apply keeps_bind; [apply fail_winv|]. intros c'. by apply keeps_readonly. Qed.

Lemma renewals_holding ctx ticks c claim w : holding c w -> mc_identity (cl_Candidate claim) = mc_identity c ->
  wp (renewals ctx claim ticks) (fun r w' => holding c w' /\ forall p, r = Ok p -> mc_identity (cl_Candidate p.1) = mc_identity c) w.
Proof.
  revert claim w. induction ticks as [|tick ticks IH]; intros claim w [Hw Hk] Hi; [split; [done|by intros p [= <-]]|].
  cut (wp (on_queue (RenewClaim ctx claim tick)) (fun r w' => holding c w' /\ forall cl, r = Ok cl -> mc_identity (cl_Candidate cl) = mc_identity c) w).
  - unfold wp. simpl. destruct (on_queue _ w) as [[cl|e] w']; simpl; intros [Hh Hcl]; [by apply IH; [|apply Hcl]|]. split; [done|by intros p [= <-]].
  - apply wp_queue_step; [done|intros; apply RenewClaim_settled|by intros; apply RenewClaim_emits|]. intros r s' Hr Hw' Hks.
    split; [by split; [|apply Hks]|]. intros cl ->. apply RenewClaim_same in Hr; [congruence|]. by eapply knows_same.
Qed.

Lemma wp_pushed w ctx prepared v (Q : res unit -> World G S -> Prop) : winv w ->
  (forall r g, winv (mkMergeWorld (mw_queue w) (mw_log w) (mw_artifacts w) g) ->
    (r = Ok tt -> in_branch g (pm_TargetRepository prepared) (pm_TargetBranch prepared) v) ->
    Q r (mkMergeWorld (mw_queue w) (mw_log w) (mw_artifacts w) g)) -> wp (on_git (mb_PushExact backend ctx prepared v)) Q w.
Proof.
  intros Hw HQ. apply wp_on_git, wp_intro. intros r g Hr. apply HQ; [|by intros ->; eapply ml_push].
  apply winv_git; [done|]. intros r0 b v0 Hin. eapply (ml_grow_push ctx prepared v) in Hin. by rewrite Hr in Hin.
Qed.

Lemma wp_contained w ctx repository branch v (Q : res bool -> World G S -> Prop) : winv w ->
  (forall r g, winv (mkMergeWorld (mw_queue w) (mw_log w) (mw_artifacts w) g) -> (r = Ok true -> in_branch g repository (branchOf branch) v) ->
    Q r (mkMergeWorld (mw_queue w) (mw_log w) (mw_artifacts w) g)) -> wp (on_git (mb_ContainsRevision backend ctx repository branch v)) Q w.
Proof.
  intros Hw HQ. apply wp_on_git, wp_intro. intros r g Hr. apply HQ; [|by intros ->; eapply ml_contains].
  apply winv_git; [done|]. intros r0 b v0 Hin. eapply (ml_grow_contains ctx repository branch v) in Hin. by rewrite Hr in Hin.
Qed.

Lemma push_winv a claim candidate prepared op w : winv w -> current (mw_queue w) op ->
  pm_TargetRepository prepared = op_TargetRepository op -> pm_TargetBranch prepared = branchOf (op_TargetBranch op) ->
  wp (pushAndFinalize a claim candidate prepared op) (fun _ w' => winv w') w.
Proof.
  intros Hw Hcur Hpr Hpb.
  cut (wp (on_git (mb_PushExact backend (at_ctx2 a) prepared (op_ExpectedMergedRevision op))) (fun r w1 => winv w1 /\ current (mw_queue w1) op /\
    (r = Ok tt -> in_branch (mw_git w1) (op_TargetRepository op) (branchOf (op_TargetBranch op)) (op_ExpectedMergedRevision op))) w).
  2:{ apply wp_pushed; [done|]. intros r g Hw1 Hin. split_and!; [done..|]. by rewrite <- Hpr, <- Hpb. }
  unfold wp at 2, Reconciler.pushAndFinalize. simpl. unfold wp. destruct (on_git (mb_PushExact _ _ _ _) w) as [[[]|err] w1]; simpl; intros (Hw1 & Hcur1 & Hin).
  { by apply (finish_winv _ _ op (fun _ => mc_ProjectID candidate)); [..|apply Hin]. }
  cut (wp (on_git (mb_ContainsRevision backend (at_ctx3 a) (op_TargetRepository op) (op_TargetBranch op) (op_ExpectedMergedRevision op)))
    (fun r w2 => winv w2 /\ current (mw_queue w2) op /\
    (r = Ok true -> in_branch (mw_git w2) (op_TargetRepository op) (branchOf (op_TargetBranch op)) (op_ExpectedMergedRevision op))) w1).
  2:{ by apply wp_contained. }
  unfold wp. destruct (on_git (mb_ContainsRevision _ _ _ _ _) w1) as [[[]|err'] w2]; simpl; intros (Hw2 & Hcur2 & Hin2).
  { by apply (finish_winv _ _ op (fun _ => mc_ProjectID candidate)); [..|apply Hin2]. }
  all: destruct (isPushCASDrift err); [|by apply block_winv].
  all: refine (keeps_bind winv (on_queue (abortMergeOperation _ op)) _ _ _ w2 Hw2); [apply keeps_queue; intros; apply abort_settled|].
  all: intros _; apply failed_winv.
Qed.

Lemma verified_winv a claim prepared result c w : holding c w -> mc_identity (cl_Candidate claim) = mc_identity c -> prepared_for prepared c ->
  wp (mergeVerified a claim prepared result) (fun _ w' => winv w') w.
Proof.
  intros [Hw Hk] Hi [Hpr Hpb]. unfold Reconciler.mergeVerified, wp.
  pose proof (keeps_git (mb_CreateMergeCommit backend (at_verifyCtx a) prepared (cl_Candidate claim))
    (fun g r b v => ml_grow_commit (at_verifyCtx a) prepared (cl_Candidate claim) g r b v) w Hw) as Hw1.
  unfold wp in Hw1. assert (mw_queue (on_git (mb_CreateMergeCommit backend (at_verifyCtx a) prepared (cl_Candidate claim)) w).2 = mw_queue w) as Hq.
  { unfold on_git. by destruct (mb_CreateMergeCommit _ _ _ _ _). }
  destruct (on_git _ w) as [answer w1]. simpl in Hw1, Hq |- *.
  match goal with |- context [?m w1] => change (wp m (fun _ w' => winv w') w1) end.
  apply wp_bind. eapply wp_mono; [apply (renewals_holding _ _ c); [split; [done|by rewrite Hq]|done]|].
  intros [[claim2 e2]|e] w2 [[Hw2 Hk2] Hi2]; [|done]. specialize (Hi2 _ eq_refl). simpl in Hi2. cbv zeta. simpl.
  apply wp_guard; [done|intros _ _]. destruct answer as [v|e]; [|by apply failed_winv].
  apply wp_bind. apply wp_queue_step; [done|by intros; apply begin_settled|by intros; apply beginMergeOperation_emits|].
  intros [op|e] s' Hop Hw3 Hks; [|done].
  destruct (begin_current _ _ _ _ _ _ _ _ _ (proj1 Hw2) (knows_same _ c _ (eq_sym Hi2) Hk2) Hop) as (Hcur & Hr & Hb & _).
  destruct (same_identity _ _ Hi2) as (_ & Hr2 & Hb2). apply push_winv; [done..|congruence|congruence].
Qed.

Lemma refuted_winv a claim verifyErr refs c w : holding c w -> mc_identity (cl_Candidate claim) = mc_identity c ->
  wp (failVerified a claim verifyErr refs) (fun _ w' => winv w') w.
Proof.
  intros Hh Hi. apply wp_bind. eapply wp_mono; [by apply renewals_holding|]. intros [r|e] w' [[Hw Hk] _]; [|done].
  apply wp_guard; [done|intros _ _]. by apply failed_winv.
Qed.

Lemma renewed_winv a claim prepared c w : holding c w -> mc_identity (cl_Candidate claim) = mc_identity c -> prepared_for prepared c ->
  wp (mergeRenewed a claim prepared) (fun _ w' => winv w') w.
Proof.
  intros [Hw Hk] Hi Hp. apply wp_bind.
  cut (wp (if bool_decide (mc_Status (cl_Candidate claim) = StatusMergeCheck)
    then on_queue (advance (at_ctx1 a) claim StatusMergeCheck StatusTargetedVerify [] "" (at_clock a 2)) else mret (cl_Candidate claim))
    (fun r w1 => holding c w1 /\ forall c1, r = Ok c1 -> mc_identity c1 = mc_identity c) w).
  2:{ case_bool_decide; [|split; [done|by intros c1 [= <-]]].
      apply wp_queue_step; [done|by intros; apply advance_settled|by intros; apply advance_emits|].
      intros r s' Hr Hw1 Hks. split; [by split; [|apply Hks]|]. intros c1 ->. apply advance_same in Hr; [congruence|by eapply knows_same]. }
  intros H. eapply wp_mono; [exact H|]. clear H. intros [c1|e] w1 [Hh Hc1]; [|apply Hh]. specialize (Hc1 _ eq_refl). apply wp_bind.
  assert (forall r b v, in_branch (mw_git w1) r b v -> in_branch (verification verify c1 prepared (mw_artifacts w1, mw_git w1)).2.2 r b v) as Hgrow.
  { intros r b v Hin. unfold verification. case_bool_decide; [done|]. by apply Hverify. }
  unfold wp, on_verifier. destruct (verification _ _ _ _) as [[result verifyErr] [artifacts g]]. simpl.
  match goal with |- ?Q (?f ?w2).2 => change (wp f (fun _ w' => Q w') w2); set (w0 := w2) end.
  assert (holding c w0) as Hh0 by (split; [apply winv_verified; [apply Hh|exact Hgrow]|apply Hh]). clear Hh. rename Hh0 into Hh. apply wp_get. destruct (trusted _ _ _ _) as [refs verifyErr'].
  destruct (_ || _ || _); [by eapply refuted_winv|by eapply verified_winv].
Qed.

Lemma releasing_winv {A} claim (m : M error (World G S) A) w : wp m (fun _ w' => winv w') w -> wp (releasing claim m) (fun _ w' => winv w') w.
Proof.
  intros Hm. apply wp_deferring. eapply wp_mono; [exact Hm|]. intros r w' Hw'. apply keeps_queue; [|done]. intros. apply ReleaseClaim_settled.
Qed.

Lemma cleaning_winv {A} prepared (m : M error (World G S) A) w :
  wp m (fun _ w' => winv w') w -> wp (deferring (on_git (mb_Cleanup backend prepared)) m) (fun _ w' => winv w') w.
Proof.
  intros Hm. apply wp_deferring. eapply wp_mono; [exact Hm|]. intros r w' Hw'. apply keeps_git; [|done]. intros. by apply ml_grow_cleanup.
Qed.

Lemma prepared_winv a claim prepared w : holding (cl_Candidate claim) w -> prepared_for prepared (cl_Candidate claim) ->
  wp (mergePrepared a claim prepared) (fun _ w' => winv w') w.
Proof.
  intros [Hw Hk] Hp.
  cut (wp (on_queue (RenewClaim (at_ctx1 a) claim (at_clock a 1))) (fun r w1 => holding (cl_Candidate claim) w1 /\
    forall cl, r = Ok cl -> mc_identity (cl_Candidate cl) = mc_identity (cl_Candidate claim)) w).
  2:{ apply wp_queue_step; [done|intros; apply RenewClaim_settled|by intros; apply RenewClaim_emits|]. intros r s' Hr Hw' Hks.
      split; [by split; [|apply Hks]|]. intros cl ->. by eapply RenewClaim_same. }
  unfold wp, Reconciler.mergePrepared. destruct (on_queue _ w) as [[cl|e] w1]; simpl; intros [Hh Hcl].
  - apply releasing_winv, cleaning_winv. apply (renewed_winv _ _ _ (cl_Candidate claim)); [done|by apply Hcl|done].
  - apply (releasing_winv zeroClaim (deferring (on_git (mb_Cleanup backend prepared)) (@throw _ _ (option Candidate) e))). apply cleaning_winv. apply wp_throw, Hh.
Qed.

Lemma refused_winv ctx clock claim candidate from reason cause extra w : winv w ->
  wp (releasing claim (failed ← fail ctx clock claim candidate from reason cause extra; mret (Some failed))) (fun _ w' => winv w') w.
Proof. intros Hw. by apply releasing_winv, failed_winv. Qed.

Lemma claimed_winv a claim w : holding (cl_Candidate claim) w -> wp (mergeClaimed a claim) (fun _ w' => winv w') w.
Proof.
  intros [Hw Hk]. unfold Reconciler.mergeClaimed. destruct (workspaces _ _) as [binding|e]; [|by apply refused_winv].
  destruct (validateWorkspace _ _) as [_|e]; [|by apply refused_winv].
  cut (wp (on_git (mb_Prepare backend (at_ctx a) (cl_Candidate claim) binding)) (fun r w1 => holding (cl_Candidate claim) w1 /\
    forall p, r = Ok p -> prepared_for p (cl_Candidate claim)) w).
  2:{ apply wp_on_git, wp_intro. intros r g Hr. split; [|by intros p ->; eapply ml_prepare]. split; [|done]. apply winv_git; [done|].
      intros r0 b v Hin. eapply (ml_grow_prepare (at_ctx a)) in Hin. by rewrite Hr in Hin. }
  unfold wp. destruct (on_git _ w) as [[p|e] w1]; simpl; intros [Hh Hp]; [by apply prepared_winv; [|apply Hp]|].
  by apply refused_winv, Hh.
Qed.

Lemma ReconcileOne_winv a repository : keeps winv (ReconcileOne a repository).
Proof.
  intros w Hw. apply wp_bind. eapply wp_mono; [by apply recover_winv|]. intros [[c|]|e] w1 Hw1; [done| |done].
  apply wp_bind. apply wp_queue_step; [done|intros; apply ClaimNext_settled|by intros; apply ClaimNext_emits|].
  intros [[claim|]|e] s' Hr Hw2 _; [|done..]. apply claimed_winv. split; [done|]. eapply ClaimNext_knows; [|exact Hr]. apply Hw1.
Qed.

Lemma Enqueue_winv ctx clock req : keeps winv (Enqueue ctx clock req).
Proof.
  intros w Hw. apply wp_get. apply wp_guard; [done|intros _ _]. revert w Hw. apply keeps_bind.
  - apply keeps_queue. intros L B. by apply enqueue_settled.
  - intros c. apply keeps_bind; [apply flush_winv|]. intros _. by apply keeps_readonly.
Qed.

End with_runtime.
