(* ===== verification/ReconcilerClaim.v ===== *)
(** * What the reconciler relies on of git, and its claim

    [GitLaws]: the documented behaviour of the commands that the backend runs, for
    bare target repositories.  From it, and from the code of the backend, follow the
    laws that the reconciler relies on.  Then what a reconciliation leaves alone, and
    what becomes of its claim. *)

From stdpp Require Import base tactics option list strings gmap sorting relations.
From Stdlib Require Import ZArith Ascii.
From S2P Require Import Prelude GoLib GoStrings GoPath Kernel CoordTypes MergeQueue MergeQueueSpec.
From S2P Require Import WsModel ObjStore EvLog EvArtifacts EvProps Hoare GitMerge GitMergeProps Reconciler.
From S2P Require Import ReconcilerInv.

(** [v] is the name of a commit: what [git rev-parse HEAD] answers somewhere. *)
Definition commit_name {G} (host : GitHost G) (v : string) : Prop :=
  v <> "" /\ exists ctx dir g g', gitOutput host ctx dir ["rev-parse"; "HEAD"] g = (Ok v, g').

(** The commands that change a repository or ask it for their exit status, on a host
    whose target repositories are bare: exactly the argument lists that the backend
    builds.  A push is of a commit, by name and not forced. *)
Inductive issued {G} (host : GitHost G) : list string -> Prop :=
| is_clone branch repository root : issued host ["clone"; "--quiet"; "--branch"; branch; "--single-branch"; repository; root]
| is_remote : issued host ["remote"; "set-url"; "--push"; "origin"; "threadmill-readonly://mergequeue"]
| is_fetch from revision : issued host ["fetch"; "--quiet"; from; revision]
| is_ancestor revision tip : issued host ["merge-base"; "--is-ancestor"; revision; tip]
| is_merge : issued host (identity ++ ["merge"; "--no-ff"; "--no-commit"; "FETCH_HEAD"])
| is_reset : issued host ["reset"; "--hard"; "HEAD"]
| is_checkout files : issued host (["checkout"; "FETCH_HEAD"; "--"] ++ files)
| is_diff : issued host ["diff"; "--quiet"; "HEAD"; "--"]
| is_cat_file object : issued host ["cat-file"; "-e"; object]
| is_restore revision file : issued host ["restore"; "--source"; revision; "--staged"; "--worktree"; "--"; file]
| is_rm file : issued host ["rm"; "-f"; "--ignore-unmatch"; "--"; file]
| is_add paths : issued host (["add"; "-A"; "--"] ++ paths)
| is_commit message : issued host (identity ++ ["commit"; "-m"; message])
| is_push repository v branch : commit_name host v -> issued host ["push"; "--porcelain"; repository; v +:+ ":" +:+ headRef branch].

(** The commands whose output is read. *)
Inductive queried : list string -> Prop :=
| qu_rev_parse name : queried ["rev-parse"; name]
| qu_unmerged : queried ["diff"; "--name-only"; "--diff-filter=U"; "-z"]
| qu_changed revision : queried ["diff"; "--name-only"; "-z"; revision; "--"]
| qu_untracked : queried ["ls-files"; "--others"; "--exclude-standard"; "-z"].

(** [in_branch g r b v]: in the state [g] the branch [b] of the repository [r]
    has the commit [v] (nothing is said of a [v] that is no commit's name).
    [scratch] are the paths of the temporary directory.  [gl_combined] and [gl_run]:
    no command of the backend takes a commit away from a branch, in particular a push
    that is not forced only advances it. *)
Class GitLaws `{GoRuntime} {G} (host : GitHost G) (TempParent : string) (scratch : string -> Prop)
    (in_branch : G -> string -> string -> string -> Prop) := {
  gl_tip : forall ctx r b v g g', gitOutput host ctx r ["rev-parse"; headRef b] g = (Ok v, g') -> in_branch g' r b v;
  gl_ancestor : forall ctx r b v g g', gitRun host ctx r ["merge-base"; "--is-ancestor"; v; headRef b] g = (Ok tt, g') -> in_branch g' r b v;
  gl_push : forall ctx dir r b v g g', commit_name host v ->
    gitRun host ctx dir ["push"; "--porcelain"; r; v +:+ ":" +:+ headRef b] g = (Ok tt, g') -> in_branch g' r b v;
  gl_bare : forall ctx dir r spec g e g', gitRun host ctx dir ["push"; "--porcelain"; r; spec] g = (Err e, g') -> isCheckedOutBranchPushRefusal e = false;
  gl_combined : forall ctx dir args g r b v, issued host args -> in_branch g r b v -> in_branch (gh_combined host ctx dir args g).2 r b v;
  gl_run : forall ctx dir args g r b v, queried args -> in_branch g r b v -> in_branch (gh_run host ctx dir args g).2 r b v;
  gl_mkdir : forall path g r b v, in_branch g r b v -> in_branch (gh_MkdirAll host path g).2 r b v;
  gl_mkdtemp : forall parent pattern g r b v, in_branch g r b v -> in_branch (gh_MkdirTemp host parent pattern g).2 r b v;
  gl_remove : forall path g r b v, scratch path -> in_branch g r b v -> in_branch (gh_RemoveAll host path g).2 r b v;
  gl_temp : forall pattern g root g', gh_MkdirTemp host (tempParent host TempParent) pattern g = (Ok root, g') -> scratch root;
  gl_listed : forall ctx root rev g files g' file, scratch root -> changedPaths host ctx root rev g = (Ok files, g') -> file ∈ files ->
    scratch (path_join [root; file]);
  gl_inside : forall path P R, gh_Abs host (tempParent host TempParent) = Ok P -> gh_Abs host path = Ok R ->
    Rel P R <> "." -> Rel P R <> ".." -> has_prefix "../" (Rel P R) = false -> IsAbs (Rel P R) = false -> scratch R;
}.

Section laws.
Context `{GR : GoRuntime} {G : Type} (host : GitHost G) (hashBytes : string -> string) (TempParent : string).
Context (scratch : string -> Prop) (in_branch : G -> string -> string -> string -> Prop).
Context `{GL : !GitLaws host TempParent scratch in_branch}.

Lemma pushed_name ctx dir x g g' : TrimSpace x <> "" -> gitOutput host ctx dir ["rev-parse"; "HEAD"] g = (Ok x, g') -> commit_name host x.
Proof. intros Hne H. split; [by intros ->|]. by exists ctx, dir, g, g'. Qed.

(** The branch keeps its commit. *)
Section growth.
Context (r b v : string).
Local Abbreviation has := (fun g => in_branch g r b v).

Lemma grows_run ctx dir args : issued host args -> keeps has (gitRun host ctx dir args).
Proof.
  intros Ha g Hg. unfold wp, gitRun. pose proof (gl_combined ctx dir args g r b v Ha Hg) as H.
  by destruct (gh_combined host ctx dir args g) as [[[e|] out] g'].
Qed.

Lemma grows_raw ctx dir args : queried args -> keeps has (gitOutputRaw host ctx dir args).
Proof. intros Ha g Hg. unfold wp, gitOutputRaw. pose proof (gl_run ctx dir args g r b v Ha Hg) as H. by destruct (gh_run host ctx dir args g) as [[|[]] g']. Qed.

Lemma grows_output ctx dir name : keeps has (gitOutput host ctx dir ["rev-parse"; name]).
Proof. apply keeps_bind; [apply grows_raw; constructor|]. intros out. by apply keeps_readonly. Qed.

Lemma grows_failing {A} f (m : M error G A) : keeps has m -> keeps has (failing f m).
Proof. intros Hm. apply keeps_catch; [done|]. intros e. by apply keeps_readonly. Qed.

Lemma grows_succeeds (m : M error G unit) : keeps has m -> keeps has (succeeds m).
Proof. intros Hm g Hg. specialize (Hm g Hg). unfold wp, succeeds in *. by destruct (m g) as [[]]. Qed.

Lemma grows_changed ctx root rev : keeps has (changedPaths host ctx root rev).
Proof. apply keeps_bind; [apply grows_raw; constructor|]. intros out. apply keeps_bind; [apply grows_raw; constructor|]. intros u. by apply keeps_readonly. Qed.

Lemma grows_unmerged ctx root : keeps has (unmergedPaths host ctx root).
Proof. apply keeps_bind; [apply grows_raw; constructor|]. intros out. by apply keeps_readonly. Qed.

Lemma grows_remove path : scratch path -> keeps has (gh_RemoveAll host path).
Proof. intros Hp g Hg. by apply gl_remove. Qed.

Lemma grows_restore ctx root rev file : scratch (path_join [root; file]) -> keeps has (restorePath host ctx root rev file).
Proof.
  intros Hs. apply keeps_bind; [apply grows_succeeds, grows_run; constructor|]. intros []; [apply grows_failing, grows_run; constructor|].
  apply keeps_bind; [apply grows_failing, grows_run; constructor|]. intros _. by apply grows_failing, grows_remove.
Qed.

Lemma grows_outside ctx root rev allowed : scratch root -> keeps has (restoreOutsideAuthority host ctx root rev allowed).
Proof.
  intros Hs g Hg. apply wp_bind, wp_intro. intros res g1 Hr.
  pose proof (wp_run _ _ _ _ _ (grows_failing _ _ (grows_changed ctx root rev) g Hg) Hr) as Hg1.
  destruct res as [files|e]; [|done]. apply failing_Ok in Hr. revert g1 Hg1 Hr. intros g1 Hg1 Hr. revert Hg1.
  apply (keeps_eachM has). intros file Hfile. destruct (pathInSet file allowed); [by apply keeps_readonly|]. by eapply grows_restore, gl_listed.
Qed.

Lemma grows_snapshot root paths : keeps has (snapshotPreparedPaths host hashBytes root paths).
Proof. by apply keeps_readonly. Qed.

Lemma grows_conflict ctx root branch latest c paths e : scratch root -> keeps has (prepareConflict host hashBytes ctx root branch latest c paths e).
Proof.
  intros Hs. apply keeps_bind; [apply grows_failing, grows_unmerged|]. intros conflicts. do 2 (apply keeps_guard; intros _ _).
  apply keeps_bind; [by apply grows_outside|]. intros _. apply keeps_bind; [apply grows_snapshot|]. intros baseline. by apply keeps_readonly.
Qed.

Lemma grows_clean ctx root branch latest c binding paths ancestor :
  keeps has (prepareClean host hashBytes ctx root branch latest c binding paths ancestor).
Proof.
  apply keeps_bind.
  - destruct ancestor; [by apply keeps_readonly|]. apply keeps_bind; [apply grows_failing, grows_run; constructor|]. intros _.
    apply keeps_bind; [apply grows_failing, grows_run; constructor|]. intros _. apply grows_succeeds, grows_run; constructor.
  - intros merged. apply keeps_bind; [apply grows_snapshot|]. intros baseline. by apply keeps_readonly.
Qed.

Lemma grows_prepareIn ctx parent root c binding : scratch root -> keeps has (prepareIn host hashBytes ctx parent root c binding).
Proof.
  intros Hs. do 2 (apply keeps_bind; [apply grows_failing, grows_run; constructor|intros _]). apply keeps_bind; [apply grows_failing, grows_output|].
  intros latest. apply keeps_bind; [apply grows_failing, grows_run; constructor|]. intros _. apply keeps_bind; [apply grows_succeeds, grows_run; constructor|].
  intros ancestor. apply keeps_guard. intros paths _. destruct ancestor; [apply grows_clean|]. intros g Hg.
  pose proof (grows_run ctx root (identity ++ ["merge"; "--no-ff"; "--no-commit"; "FETCH_HEAD"]) (is_merge host) g Hg) as Hg1.
  unfold wp in Hg1 |- *. destruct (gitRun _ _ _ _ g) as [[u|e] g1]; [by apply grows_clean|by apply grows_conflict].
Qed.

Lemma grows_prepare ctx c binding : keeps has (Prepare host hashBytes TempParent ctx c binding).
Proof.
  apply keeps_bind; [apply grows_failing; intros g Hg; by apply gl_mkdir|]. intros _ g Hg. apply wp_bind, wp_intro. intros res g1 Hr.
  assert (has g1) as Hg1.
  { refine (wp_run _ (fun _ g' => has g') _ _ _ (grows_failing _ _ _ g Hg) Hr). intros g' Hg'. by apply gl_mkdtemp. }
  destruct res as [root|e]; [|done]. apply failing_Ok, gl_temp in Hr. revert g1 Hg1. apply keeps_catch; [by apply grows_prepareIn|].
  intros e g' Hg'. unfold wp. simpl. by apply gl_remove.
Qed.

Lemma grows_within ctx p : keeps has (requireChangesWithin host ctx p).
Proof. apply keeps_bind; [apply grows_failing, grows_changed|]. intros changed. by apply keeps_readonly. Qed.

Lemma grows_stage ctx p : keeps has (stageAndValidatePreparedMerge host hashBytes ctx p).
Proof.
  apply keeps_bind; [apply grows_failing, grows_output|]. intros head. apply keeps_guard. intros _ _.
  apply keeps_bind; [by apply keeps_readonly|]. intros _. apply keeps_bind; [apply grows_within|]. intros _. apply keeps_bind; [|intros _; apply grows_within].
  destruct (pm_NeedsResolution p); [|by apply keeps_readonly]. apply keeps_bind; [apply keeps_eachM; intros; by apply keeps_readonly|]. intros _.
  apply keeps_bind; [apply grows_failing, grows_run; constructor|]. intros _. apply keeps_bind; [apply grows_failing, grows_unmerged|]. intros u. by apply keeps_readonly.
Qed.

Lemma grows_commit ctx p c : keeps has (CreateMergeCommit host hashBytes ctx p c).
Proof.
  apply keeps_bind; [apply grows_stage|]. intros _. destruct (pm_AlreadyMerged p); [by apply keeps_readonly|].
  apply keeps_bind; [apply grows_failing, grows_run; constructor|]. intros _. apply grows_failing, grows_output.
Qed.

Lemma grows_push inj ctx p x : keeps has (PushExact host inj ctx p x).
Proof.
  apply keeps_guard. intros [] Hne%guard_Ok. apply keeps_bind; [apply grows_failing, grows_output|]. intros latest. apply keeps_guard. intros _ _.
  destruct (_ && _); [by apply keeps_readonly|]. intros g0 Hg0. apply wp_bind, wp_intro. intros [actual|e] g1 Hhead;
    pose proof (wp_run _ _ _ _ _ (grows_failing _ _ (grows_output ctx (pm_Root p) "HEAD") g0 Hg0) Hhead) as Hg; [|done].
  apply failing_Ok in Hhead. apply wp_guard; [done|]. intros [] ->%guard_not_Ok.
  pose proof (grows_run ctx (pm_Root p) (pushCommand p x) (is_push host _ _ _ (pushed_name _ _ _ _ _ Hne Hhead)) g1 Hg) as Hg1. unfold wp, pushCommit in *.
  destruct (gitRun _ _ _ _ g1) as [[u|e] g2] eqn:Hr; [by destruct inj|]. apply gl_bare in Hr as ->. done.
Qed.

Lemma grows_contains ctx repository branch x : keeps has (ContainsRevision host ctx repository branch x).
Proof.
  apply keeps_guard. intros _ _. apply keeps_bind; [apply grows_succeeds, grows_run; constructor|]. intros []; simpl; [|by apply keeps_readonly]. intros g Hg.
  pose proof (grows_run ctx repository ["merge-base"; "--is-ancestor"; x; headRef (branchOf branch)] (is_ancestor host _ _) g Hg) as Hg1.
  unfold wp, isAncestor in *. destruct (gitRun _ _ _ _ g) as [[u|e] g1]; [done|]. simpl in Hg1. destruct (Contains _ _); [done|].
  refine (keeps_bind has (failing _ (gitOutput host ctx repository _)) _ _ _ g1 Hg1); [apply grows_failing, grows_output|]. intros out. by apply keeps_readonly.
Qed.

Lemma grows_cleanup p : keeps has (Cleanup host TempParent p).
Proof.
  unfold Cleanup. case_bool_decide; [by apply keeps_readonly|]. apply keeps_guard. intros P HP. apply keeps_guard. intros R HR. cbv zeta.
  apply keeps_guard. intros u Hu. apply fail_if_Ok in Hu. bool_inv. eapply grows_remove, gl_inside; try done.
Qed.
End growth.

(** What the calls establish. *)
Lemma push_in_branch inj ctx p x g g' : PushExact host inj ctx p x g = (Ok tt, g') -> in_branch g' (pm_TargetRepository p) (pm_TargetBranch p) x.
Proof.
  intros (u & Hne%guard_Ok & (latest & g1 & H1%failing_Ok & (u2 & ->%guard_not_Ok & H)%guard_bind_Ok)%M_bind_Ok)%guard_bind_Ok. destruct (_ && _) eqn:Ha.
  - apply andb_true_iff in Ha as [_ ->%bool_decide_eq_true]. injection H as <-. by eapply gl_tip.
  - apply M_bind_Ok in H as (actual & g2 & Hhead%failing_Ok & (u3 & ->%guard_not_Ok & H)%guard_bind_Ok). revert H. unfold pushCommit.
    destruct (gitRun _ _ _ _ g2) as [[[]|e] g3] eqn:Hr; [|apply gl_bare in Hr as ->; done]. destruct inj; [done|]. intros [= <-]. eapply gl_push; [by eapply pushed_name|exact Hr].
Qed.

Lemma contains_in_branch ctx repository branch x g g' :
  ContainsRevision host ctx repository branch x g = (Ok true, g') -> in_branch g' repository (branchOf branch) x.
Proof.
  intros (u & _ & (known & g1 & _ & H)%M_bind_Ok)%guard_bind_Ok. destruct known; [|done]. simpl in H. unfold isAncestor in H.
  destruct (gitRun _ _ _ _ g1) as [[[]|e] g2] eqn:Hr; [injection H as <-; by eapply gl_ancestor|]. destruct (Contains _ _); [done|].
  apply M_bind_Ok in H as (out & g3 & _ & [=]).
Qed.

(** The backend keeps what the reconciler relies on. *)
#[export] Instance git_merge_laws : MergeLaws (git_backend host hashBytes TempParent) in_branch.
Proof.
  constructor; simpl.
  - intros ctx c b g p g' H. apply (prepare_scoped host hashBytes TempParent) in H. by destruct H as (? & ? & _).
  - intros. by eapply push_in_branch.
  - intros. by eapply contains_in_branch.
  - intros. by apply (grows_prepare r br v).
  - intros. by apply (grows_commit r br v).
  - intros. by apply (grows_push r br v).
  - intros. by apply (grows_contains r br v).
  - intros. by apply (grows_cleanup r br v).
Qed.

End laws.

(** * What the reconciler leaves alone

    Claims change only by claiming, renewing and releasing; operations are only
    created by [beginMergeOperation], and keep the revision they expect. *)

Record frame (claims : gmap string Claim) (ops : gmap string string) (s : MergeStore) : Prop := {
  fr_claims : ms_repoClaims s = claims;
  fr_operations : op_ExpectedMergedRevision <$> ms_operations s = ops;
}.

Definition framed claims ops (s : MergeStore) : Prop := queue_inv s /\ frame claims ops s.

Section queue.
Context `{GR : GoRuntime} (claims : gmap string Claim) (ops : gmap string string).
Local Abbreviation framed := (framed claims ops).

Lemma framed_intro {A} (m : M error MergeStore A) s :
  framed s -> (queue_inv s -> emits m s) -> wp m (fun _ s' => frame claims ops s') s -> wp m (fun _ s' => framed s') s.
Proof. intros [Hq Hf] He Hw. split; [|exact Hw]. eapply queue_events_inv; [|exact Hq]. by apply He. Qed.

Lemma frame_candidate c s : frame claims ops s -> frame claims ops (ms_set_candidate c s).
Proof. intros [H1 H2]. by constructor. Qed.

Lemma frame_audits m order s : frame claims ops s -> frame claims ops (ms_set_audits m order s).
Proof. intros [H1 H2]. by constructor. Qed.

Lemma frame_operation o s : frame claims ops s ->
  (exists o0, ms_operations s !! op_ID o = Some o0 /\ op_ExpectedMergedRevision o0 = op_ExpectedMergedRevision o) ->
  frame claims ops (ms_set_operation o s).
Proof.
  intros [H1 H2] (o0 & Ho & Hv). constructor; simpl; [done|]. rewrite fmap_insert, insert_id; [done|]. rewrite lookup_fmap, Ho. simpl. by rewrite Hv.
Qed.

Lemma frame_stored s op o0 status reason : framed s -> ms_operations s !! op_ID op = Some o0 ->
  frame claims ops (ms_set_operation (op_set_Status status reason (cloneMergeOperation o0)) s).
Proof. intros [Hq Hf] Ho. apply frame_operation; [done|]. simpl. rewrite (active_operation s op o0 Hq Ho). by exists o0. Qed.

Lemma audit_framed audit : keeps framed (appendAuditLocked audit).
Proof.
  intros s Hs. apply framed_intro; [done|intros _; apply appendAuditLocked_emits|]. apply wp_guard; [intros; apply Hs|]. intros _ _.
  apply wp_get. simpl. destruct (ms_audits s !! au_StableKey audit) as [a|]; [destruct (negb _); apply Hs|]. apply frame_audits, Hs.
Qed.

Lemma advance_framed ctx claim from to refs merged now : keeps framed (advance ctx claim from to refs merged now).
Proof.
  intros s Hs. apply framed_intro; [done|by apply advance_emits|].
  do 2 (apply wp_guard; [intros; apply Hs|intros _ _]). apply wp_get. apply wp_guard; [intros; apply Hs|intros _ _].
  apply wp_candidate; [intros; apply Hs|]. intros c Hc. do 2 (apply wp_guard; [intros; apply Hs|intros _ _]). apply frame_candidate, Hs.
Qed.

Lemma abort_framed ctx op : keeps framed (abortMergeOperation ctx op).
Proof.
  intros s Hs. apply framed_intro; [done|by apply abortMergeOperation_emits|].
  apply wp_guard; [intros; apply Hs|intros _ _]. apply wp_get. apply wp_guard; [intros; apply Hs|].
  intros o (o0 & Ho & _ & _ & ->)%requireOperationLocked_Ok. by eapply frame_stored.
Qed.

Lemma mark_recovery_framed ctx op reason : keeps framed (markMergeOperationRecoveryRequired ctx op reason).
Proof.
  intros s Hs. apply framed_intro; [done|by apply markMergeOperationRecoveryRequired_emits|].
  apply wp_guard; [intros; apply Hs|intros _ _]. apply wp_get. apply wp_guard; [intros; apply Hs|].
  intros o (o0 & Ho & _ & _ & ->)%requireOperationLocked_Ok.
  pose proof (frame_stored s op o0 "recovery_required" reason Hs Ho) as Hf. apply wp_modify. by apply wp_candidate; [|intros c _].
Qed.

Lemma fail_framed ctx claim from reason refs audit now : keeps framed (failCandidate ctx claim from reason refs audit now).
Proof.
  intros s Hs. apply framed_intro; [done|by apply failCandidate_emits|].
  do 2 (apply wp_guard; [intros; apply Hs|intros _ _]). apply wp_get. apply wp_guard; [intros; apply Hs|intros _ _].
  apply wp_candidate; [intros; apply Hs|]. intros c Hc. case_match.
  - apply wp_bind. eapply wp_mono; [by apply audit_framed|]. intros [u|e] s' Hs'; apply Hs'.
  - apply wp_guard; [intros; apply Hs|intros _ _]. apply wp_bind. eapply wp_mono; [by apply audit_framed|].
    intros [u|e] s' Hs'; [|apply Hs']. apply frame_candidate, Hs'.
Qed.

Lemma delivered_framed ctx key : keeps framed (markAuditDelivered ctx key).
Proof.
  intros s Hs. apply framed_intro; [done|intros _; apply markAuditDelivered_emits|].
  apply wp_guard; [intros; apply Hs|intros _ _]. apply wp_get. destruct (ms_audits s !! key) as [a|]; [|apply Hs]. apply frame_audits, Hs.
Qed.

Lemma finalize_framed ctx op now : keeps framed (finalizeMergeOperation ctx op now).
Proof.
  intros s Hs. apply framed_intro; [done|by apply finalizeMergeOperation_emits|].
  apply wp_guard; [intros; apply Hs|intros _ _]. apply wp_get. apply wp_guard; [intros; apply Hs|].
  intros o (o0 & Ho & _ & _ & ->)%requireOperationLocked_Ok. apply wp_candidate; [intros; apply Hs|]. intros c Hc.
  destruct (bool_decide _ && bool_decide _); [apply Hs|]. apply wp_guard; [intros; apply Hs|intros _ _]. apply wp_bind.
  apply wp_intro. intros r s' Hr.
  pose proof (wp_run (appendAuditLocked _) _ _ _ _ (audit_framed _ _ Hs) Hr) as Hs'.
  destruct (appendAuditLocked_frame _ _ _ _ Hr) as (_ & _ & Hos). destruct r as [u|e]; [|apply Hs'].
  apply frame_operation; [apply frame_candidate, Hs'|]. simpl. rewrite Hos, (active_operation s op o0 (proj1 Hs) Ho). by exists o0.
Qed.

End queue.

(** ** The reconciler *)

Section with_runtime.
Context `{GR : GoRuntime} {G S : Type}.
Context (fs : HostFS) (backend : MergeBackend G) (store : Store S).
Context (hashBytes ToLower : string -> string) (encodeRequest : EventRequest -> string).
Context (encodePayloadMap : gmap string string -> string).
Context (workspaces : Context -> BindingRef -> res Binding).
Context (verify : TargetedVerifyRequest -> ArtifactRegistry S * G -> (TargetedVerifyResult * option error) * (ArtifactRegistry S * G)).
Context (claims : gmap string Claim) (ops : gmap string string).

Local Abbreviation fail := (fail store hashBytes ToLower encodeRequest encodePayloadMap).
Local Abbreviation flushAudits := (flushAudits hashBytes encodeRequest encodePayloadMap).
Local Abbreviation pushAndFinalize := (pushAndFinalize backend store hashBytes ToLower encodeRequest encodePayloadMap).

Definition wframed (w : World G S) : Prop := framed claims ops (mw_queue w).

Lemma wframed_queue {A} (m : M error MergeStore A) : keeps (framed claims ops) m -> keeps wframed (on_queue m).
Proof. intros Hm w Hw. apply wp_on_queue. eapply wp_mono; [by apply Hm|]. by intros r s Hs. Qed.

Lemma wframed_log {A} (m : M error EventLog A) : keeps wframed (on_log m).
Proof. intros w Hw. by apply wp_on_log, wp_intro. Qed.

Lemma wframed_artifacts {A} (m : M error (ArtifactRegistry S) A) : keeps wframed (on_artifacts m).
Proof. intros w Hw. by apply wp_on_artifacts, wp_intro. Qed.

Lemma wframed_git {A} (m : M error G A) : keeps wframed (on_git m).
Proof. intros w Hw. by apply wp_on_git, wp_intro. Qed.

Lemma flush_framed ctx clock project : keeps wframed (flushAudits ctx clock project).
Proof.
  apply keeps_bind; [apply wframed_queue, keeps_readonly; by apply readonly_bind; [|intros _; apply readonly_bind]|]. intros audits.
  generalize 0%nat. induction audits as [|audit audits IH]; intros n; [by apply keeps_readonly|].
  apply keeps_bind; [|intros _; apply IH]. apply keeps_bind; [apply wframed_log|]. intros _. apply wframed_queue, delivered_framed.
Qed.

Lemma failed_framed ctx clock claim candidate from reason cause extra :
  keeps wframed (failed ← fail ctx clock claim candidate from reason cause extra; mret (Some failed)).
Proof.
  apply keeps_bind; [|intros c; by apply keeps_readonly]. apply keeps_bind; [apply wframed_artifacts|]. intros artifact.
  apply keeps_bind; [apply wframed_queue, fail_framed|]. intros failed. apply keeps_bind; [apply flush_framed|]. intros _. by apply keeps_readonly.
Qed.

Lemma finish_framed ctx clock op project :
  keeps wframed (merged ← finalize ctx clock op; _ ← flushAudits ctx clock (project merged); mret (Some merged)).
Proof.
  apply keeps_bind; [apply wframed_queue, finalize_framed|]. intros merged. apply keeps_bind; [apply flush_framed|]. intros _. by apply keeps_readonly.
Qed.

Lemma block_framed ctx op reason : keeps wframed (block ctx op reason).
Proof. apply keeps_bind; [apply wframed_queue, mark_recovery_framed|]. intros _. by apply keeps_readonly. Qed.

Lemma push_framed a claim candidate prepared op : keeps wframed (pushAndFinalize a claim candidate prepared op).
Proof.
  intros w Hw. unfold wp, Reconciler.pushAndFinalize.
  pose proof (wframed_git (mb_PushExact backend (at_ctx2 a) prepared (op_ExpectedMergedRevision op)) w Hw) as Hw1.
  unfold wp in Hw1. destruct (on_git (mb_PushExact _ _ _ _) w) as [[u|err] w1]; simpl in Hw1 |- *.
  { by apply (finish_framed _ _ op (fun _ => mc_ProjectID candidate)). }
  pose proof (wframed_git (mb_ContainsRevision backend (at_ctx3 a) (op_TargetRepository op) (op_TargetBranch op) (op_ExpectedMergedRevision op)) w1 Hw1)
    as Hw2. unfold wp in Hw2. destruct (on_git (mb_ContainsRevision _ _ _ _ _) w1) as [[[]|err'] w2]; simpl in Hw2 |- *.
  { by apply (finish_framed _ _ op (fun _ => mc_ProjectID candidate)). }
  all: destruct (isPushCASDrift err); [|by apply block_framed].
  all: refine (keeps_bind wframed (on_queue (abortMergeOperation _ op)) _ _ _ w2 Hw2); [apply wframed_queue, abort_framed|].
  all: intros _; apply failed_framed.
Qed.

Lemma recover_framed ctx clock repository :
  keeps wframed (recoverPendingMergeOperation fs backend hashBytes encodeRequest encodePayloadMap ctx clock repository).
Proof.
  apply keeps_bind; [apply wframed_queue, keeps_readonly; repeat (apply readonly_bind; [done|intros ?]); done|].
  intros [op|]; [|by apply keeps_readonly].
  apply keeps_bind; [apply wframed_queue, keeps_readonly|].
  { apply readonly_bind; [done|intros _]. apply readonly_bind; [|done]. intros s. unfold get_candidate, mbind, M_bind. simpl. by destruct (ms_candidates s !! _). }
  intros c. case_bool_decide; [by apply keeps_readonly|]. apply keeps_bind; [apply wframed_git|]. intros [].
  - apply (finish_framed _ _ op mc_ProjectID).
  - apply block_framed.
Qed.

End with_runtime.

(** * The claim of a reconciliation

    A candidate is claimed, renewed and released again; an operation begins only
    for the claimed candidate, after its workspace and its verification were
    accepted. *)

Section with_runtime.
Context `{GR : GoRuntime} {G S : Type}.
Context (fs : HostFS) (backend : MergeBackend G) (store : Store S).
Context (hashBytes ToLower : string -> string) (encodeRequest : EventRequest -> string).
Context (encodePayloadMap : gmap string string -> string).
Context (workspaces : Context -> BindingRef -> res Binding).
Context (verify : TargetedVerifyRequest -> ArtifactRegistry S * G -> (TargetedVerifyResult * option error) * (ArtifactRegistry S * G)).

Local Abbreviation fail := (fail store hashBytes ToLower encodeRequest encodePayloadMap).
Local Abbreviation pushAndFinalize := (pushAndFinalize backend store hashBytes ToLower encodeRequest encodePayloadMap).
Local Abbreviation mergeVerified := (mergeVerified backend store hashBytes ToLower encodeRequest encodePayloadMap).
Local Abbreviation failVerified := (failVerified store hashBytes ToLower encodeRequest encodePayloadMap).
Local Abbreviation mergeRenewed := (mergeRenewed backend store hashBytes ToLower encodeRequest encodePayloadMap verify).
Local Abbreviation mergePrepared := (mergePrepared backend store hashBytes ToLower encodeRequest encodePayloadMap verify).
Local Abbreviation mergeClaimed := (mergeClaimed backend store hashBytes ToLower encodeRequest encodePayloadMap workspaces verify).
Local Abbreviation ReconcileOne := (ReconcileOne fs backend store hashBytes ToLower encodeRequest encodePayloadMap workspaces verify).

(** The candidate [c] is claimed with [token], beside the claims [m]. *)
Record claimed (m : gmap string Claim) (c : Candidate) (token : string) (ops : gmap string string) (s : MergeStore) : Prop := {
  cd_free : m !! mc_TargetRepository c = None;
  cd_framed : exists cl, framed (<[mc_TargetRepository c := cl]> m) ops s /\ mc_identity (cl_Candidate cl) = mc_identity c /\ cl_Token cl = token;
}.

(** The claim the caller holds is that claim. *)
Definition holds (cl : Claim) (c : Candidate) (token : string) : Prop := mc_identity (cl_Candidate cl) = mc_identity c /\ cl_Token cl = token.

Section one.
Context (m : gmap string Claim) (c : Candidate) (token : string) (ops : gmap string string).
Local Abbreviation wclaimed := (fun w : World G S => claimed m c token ops (mw_queue w)).

Lemma claimed_keeps {A} (f : M error (World G S) A) : (forall claims ops, keeps (wframed claims ops) f) -> keeps wclaimed f.
Proof.
  intros Hf w [Hm (cl & Hfr & Hi & Ht)]. apply wp_intro. intros r w' Hr. constructor; [done|]. exists cl. split; [|done].
  exact (wp_run f (fun _ w' => wframed _ _ w') _ _ _ (Hf _ _ _ Hfr) Hr).
Qed.

Lemma RenewClaim_claimed ctx claim now s r s' : knows s c -> claimed m c token ops s -> holds claim c token ->
  RenewClaim ctx claim now s = (r, s') -> knows s' c /\ claimed m c token ops s' /\ (forall cl, r = Ok cl -> holds cl c token) /\ (ctx = None -> is_ok r = true).
Proof.
  intros Hk [Hm (cl & Hfr & Hi & Ht)] [Hic Htc] Hr. destruct (same_identity _ _ Hic) as (Hid & Hrep & _). destruct (same_identity _ _ Hi) as (Hid' & _).
  assert (knows s' c) as Hk'.
  { pose proof (knows_emits _ _ c (RenewClaim_emits ctx claim now s (proj1 Hfr)) Hk) as H. by rewrite Hr in H. }
  assert (queue_inv s') as Hq'.
  { pose proof (queue_events_inv _ _ (RenewClaim_emits ctx claim now s (proj1 Hfr)) (proj1 Hfr)) as H. by rewrite Hr in H. }
  assert (wp (RenewClaim ctx claim now) (fun r s1 => (exists cl1, frame (<[mc_TargetRepository c := cl1]> m) ops s1 /\
    mc_identity (cl_Candidate cl1) = mc_identity c /\ cl_Token cl1 = token) /\ (forall cl, r = Ok cl -> holds cl c token) /\
    (ctx = None -> is_ok r = true)) s) as Hwp.
  { apply wp_guard; [intros e He; split_and!; [exists cl; split; [apply Hfr|done]|done|by intros ->]|intros _ _]. apply wp_get. cbv zeta.
    rewrite (fr_claims _ _ _ (proj2 Hfr)), Hrep, lookup_insert_eq. rewrite bool_decide_eq_false_2 by (intros Hne; apply Hne; congruence).
    rewrite bool_decide_eq_false_2 by (intros Hne; apply Hne; congruence). destruct Hk as (c0 & Hc0 & Hi0).
    apply wp_guard; [done|intros _ _]. apply wp_bind. unfold get_candidate. apply wp_get. rewrite Hid, Hc0. apply wp_ret.
    apply wp_modify, wp_ret. split_and!; [|by intros cl1 [= <-]|done].
    exists (mkClaim (cloneCandidate c0) (cl_OwnerID cl) (cl_Token cl) (now + hour)%Z). split; [|split; [exact Hi0|exact Ht]].
    destruct (proj2 Hfr) as [Hcl Hops]. constructor; [|done]. simpl. by rewrite Hcl, insert_insert_eq. }
  destruct (wp_run _ _ _ _ _ Hwp Hr) as ((cl1 & Hf1 & Hi1 & Ht1) & Hrest). split; [done|]. split; [|done]. constructor; [done..|].
  exists cl1. by split; [split|].
Qed.

Lemma renewals_claimed ctx ticks claim w : knows (mw_queue w) c -> wclaimed w -> holds claim c token ->
  wp (renewals ctx claim ticks) (fun r w' => knows (mw_queue w') c /\ wclaimed w' /\ forall p, r = Ok p -> holds p.1 c token) w.
Proof.
  revert claim w. induction ticks as [|tick ticks IH]; intros claim w Hk Hw Hh; [split_and!; [done..|by intros p [= <-]]|].
  unfold wp. simpl. unfold on_queue. destruct (RenewClaim ctx claim tick (mw_queue w)) as [r s'] eqn:Hr.
  destruct (RenewClaim_claimed _ _ _ _ _ _ Hk Hw Hh Hr) as (Hk' & Hw' & Hcl & _). destruct r as [cl|e]; [by apply IH; [..|apply Hcl]|].
  split_and!; [done..|by intros p [= <-]].
Qed.

(** The operations after a call: those before, and the ones that [auth] allows. *)
Definition after (auth : string -> string -> Prop) (w : World G S) : Prop :=
  exists ops', claimed m c token ops' (mw_queue w) /\ forall k v, ops' !! k = Some v -> ops !! k = Some v \/ auth k v.

Lemma after_same auth w : wclaimed w -> after auth w.
Proof. intros H. exists ops. eauto. Qed.

Lemma after_mono (auth auth' : string -> string -> Prop) w : (forall k v, auth k v -> auth' k v) -> after auth w -> after auth' w.
Proof. intros Ha (ops' & Hc & Hk). exists ops'. split; [done|]. intros k v [?|?]%Hk; auto. Qed.

Definition ops_after (auth : string -> string -> Prop) (s : MergeStore) : Prop :=
  forall k v, (op_ExpectedMergedRevision <$> ms_operations s) !! k = Some v -> ops !! k = Some v \/ auth k v.

Lemma ReleaseClaim_operations ctx claim s : ms_operations (ReleaseClaim ctx claim s).2 = ms_operations s.
Proof.
  change (wp (ReleaseClaim ctx claim) (fun _ s' => ms_operations s' = ms_operations s) s). apply wp_guard; [done|intros _ _]. apply wp_get.
  cbv zeta. destruct (ms_repoClaims s !! mc_TargetRepository (cl_Candidate claim)) as [cl|]; [|done]. by destruct (_ && _).
Qed.

Lemma after_ops auth w : after auth w -> ops_after auth (mw_queue w).
Proof. intros (ops' & [_ (cl & Hfr & _)] & Hnew) k v. rewrite (fr_operations _ _ _ (proj2 Hfr)). apply Hnew. Qed.

(** Released at the end, the claim is gone; what was done to the operations stays. *)
Lemma releasing_after {A} auth claim (f : M error (World G S) A) w : wp f (fun _ w' => after auth w') w ->
  wp (releasing claim f) (fun _ w' => ops_after auth (mw_queue w') /\ (holds claim c token -> ms_repoClaims (mw_queue w') = m)) w.
Proof.
  intros Hf. apply wp_deferring. eapply wp_mono; [exact Hf|]. intros r w' Ha. apply wp_on_queue, wp_intro. intros r' s' Hr'. split.
  - simpl. intros k v. pose proof (ReleaseClaim_operations None claim (mw_queue w')) as Ho. rewrite Hr' in Ho. simpl in Ho. rewrite Ho.
    by apply after_ops.
  - simpl. intros [Hi Ht]. destruct Ha as (ops' & [Hm (cl & Hfr & Hi' & Ht')] & _).
    destruct (same_identity _ _ Hi) as (Hid & Hrep & _). destruct (same_identity _ _ Hi') as (Hid' & _).
    refine (wp_run (ReleaseClaim None claim) (fun _ s' => ms_repoClaims s' = m) _ _ _ _ Hr').
    apply wp_guard; [done|intros _ _]. apply wp_get. cbv zeta. rewrite (fr_claims _ _ _ (proj2 Hfr)), Hrep, lookup_insert_eq.
    rewrite bool_decide_eq_true_2 by congruence. rewrite bool_decide_eq_true_2 by congruence. unfold wp. simpl. by rewrite delete_insert_eq, delete_id.
Qed.

Lemma begin_after ctx claim req tok w r s' : claimed m c token ops (mw_queue w) -> knows (mw_queue w) c -> holds claim c token ->
  beginMergeOperation ctx claim req tok (mw_queue w) = (r, s') ->
  after (fun k v => k = "memory:" +:+ mc_ID c /\ v = or_ExpectedMergedRevision req) (mkMergeWorld s' (mw_log w) (mw_artifacts w) (mw_git w)).
Proof.
  intros [Hm (cl & Hfr & Hi & Ht)] (c0 & Hc & Hic) [Hih _] Hr. destruct (same_identity _ _ Hih) as (Hid & _). destruct (same_identity _ _ Hic) as (Hid0 & _).
  assert (queue_inv s') as Hq'.
  { pose proof (queue_events_inv _ _ (beginMergeOperation_emits ctx claim req tok _ (proj1 Hfr)) (proj1 Hfr)) as H. by rewrite Hr in H. }
  assert (wp (beginMergeOperation ctx claim req tok) (fun r s1 => exists ops', frame (<[mc_TargetRepository c := cl]> m) ops' s1 /\
    forall k v, ops' !! k = Some v -> ops !! k = Some v \/ k = "memory:" +:+ mc_ID c /\ v = or_ExpectedMergedRevision req) (mw_queue w)) as Hwp.
  { assert (frame (<[mc_TargetRepository c := cl]> m) ops (mw_queue w) /\
      forall k v, ops !! k = Some v -> ops !! k = Some v \/ k = "memory:" +:+ mc_ID c /\ v = or_ExpectedMergedRevision req) as Hno.
    { split; [apply Hfr|]. by left. }
    do 2 (apply wp_guard; [intros; by exists ops|intros _ _]). apply wp_get. apply wp_guard; [intros; by exists ops|intros _ _].
    apply wp_candidate; [intros; by exists ops|]. intros c1 Hc1. apply wp_guard; [intros; by exists ops|intros _ _].
    destruct (activeOperationLocked _ _) as [ex|]; [destruct (_ && _); by exists ops|]. rewrite Hid, Hc in Hc1. injection Hc1 as <-.
    exists (<["memory:" +:+ mc_ID c := or_ExpectedMergedRevision req]> ops). destruct (proj2 Hfr) as [Hcl Hops]. split.
    - constructor; simpl; [done|]. by rewrite fmap_insert, Hops, Hid0.
    - intros k v [[<- <-]|[_ ?]]%lookup_insert_Some; auto. }
  destruct (wp_run _ _ _ _ _ Hwp Hr) as (ops' & Hf & Hnew). exists ops'. split; [|done]. constructor; [done|]. exists cl. by split; [split|].
Qed.

Lemma verified_after a claim prepared result w : wclaimed w -> knows (mw_queue w) c -> holds claim c token ->
  wp (mergeVerified a claim prepared result) (fun _ w' => after (fun k v => k = "memory:" +:+ mc_ID c /\
    exists g', mb_CreateMergeCommit backend (at_verifyCtx a) prepared (cl_Candidate claim) (mw_git w) = (Ok v, g')) w') w.
Proof.
  intros Hw Hk Hh. unfold Reconciler.mergeVerified, wp. unfold on_git at 1.
  destruct (mb_CreateMergeCommit _ _ _ _ (mw_git w)) as [answer g] eqn:Hcommit. cbv zeta.
  match goal with |- ?Q (?f ?w1).2 => change (wp f (fun _ w' => Q w') w1) end.
  apply wp_bind. eapply wp_mono; [apply renewals_claimed; [exact Hk|exact Hw|exact Hh]|].
  intros [[claim2 e2]|e] w2 (Hk2 & Hw2 & Hh2); [|by apply after_same]. specialize (Hh2 _ eq_refl). simpl in Hh2. simpl.
  apply wp_guard; [intros; by apply after_same|intros _ _]. destruct answer as [v|e].
  - apply wp_bind, wp_on_queue, wp_intro. intros r s' Hop. pose proof (begin_after _ _ _ _ _ _ _ Hw2 Hk2 Hh2 Hop) as Ha.
    apply (after_mono _ (fun k v' => k = "memory:" +:+ mc_ID c /\ exists g', (Ok v : res string, g) = (Ok v', g'))) in Ha; [|intros k v' [-> ->]; simpl; eauto].
    destruct r as [op|e]; [|done]. destruct Ha as (ops' & Hc' & Hnew). apply wp_intro. intros r w' Hr. exists ops'. split; [|done].
    destruct Hc' as [Hm (cl & Hfr & Hrest)]. constructor; [done|]. exists cl. split; [|done].
    refine (wp_run _ (fun _ w' => wframed (<[mc_TargetRepository c := cl]> m) ops' w') _ _ _ _ Hr). by apply push_framed.
  - eapply wp_mono; [apply claimed_keeps; [intros; apply failed_framed|exact Hw2]|]. intros r w' Hw'. by apply after_same.
Qed.

Lemma refuted_after auth a claim verifyErr refs w : wclaimed w -> knows (mw_queue w) c -> holds claim c token ->
  wp (failVerified a claim verifyErr refs) (fun _ w' => after auth w') w.
Proof.
  intros Hw Hk Hh. apply wp_bind. eapply wp_mono; [by apply renewals_claimed|]. intros [r|e] w' (_ & Hw' & _); [|by apply after_same].
  apply wp_guard; [intros; by apply after_same|intros _ _]. eapply wp_mono; [apply claimed_keeps; [intros; apply failed_framed|exact Hw']|].
  intros r' w2 Hw2. by apply after_same.
Qed.

Lemma cleaning_after {A} auth prepared (f : M error (World G S) A) w : wp f (fun _ w' => after auth w') w ->
  wp (deferring (on_git (mb_Cleanup backend prepared)) f) (fun _ w' => after auth w') w.
Proof. intros Hf. apply wp_deferring. eapply wp_mono; [exact Hf|]. intros r w' Hw'. apply wp_on_git, wp_intro. by intros r' g _. Qed.

(** What a merge must have passed, from the artifacts and the clone [x] on: [k] is the
    operation, [v] its merge commit. *)
Definition verified_as (a : Attempt) (x : ArtifactRegistry S * G) (prepared : PreparedMerge) (k v : string) : Prop :=
  exists candidate result artifacts g g', mc_identity candidate = mc_identity c /\ k = "memory:" +:+ mc_ID c /\
    verification verify candidate prepared x = ((result, None), (artifacts, g)) /\ vr_Passed result = true /\ vr_EvidenceRefs result <> [] /\
    Forall (fun ref => CanRead artifacts (mkEvPrincipal EvRoleTaskManager (mc_ProjectID candidate) (mc_TaskID candidate)) ref = true) (vr_EvidenceRefs result) /\
    mb_CreateMergeCommit backend (at_verifyCtx a) prepared candidate g = (Ok v, g').

Lemma renewed_after a claim prepared w : wclaimed w -> knows (mw_queue w) c -> holds claim c token ->
  wp (mergeRenewed a claim prepared) (fun _ w' => after (verified_as a (mw_artifacts w, mw_git w) prepared) w') w.
Proof.
  intros Hw Hk [Hi Ht]. apply wp_bind.
  cut (wp (if bool_decide (mc_Status (cl_Candidate claim) = StatusMergeCheck)
    then on_queue (advance (at_ctx1 a) claim StatusMergeCheck StatusTargetedVerify [] "" (at_clock a 2)) else mret (cl_Candidate claim))
    (fun r w1 => (mw_artifacts w1, mw_git w1) = (mw_artifacts w, mw_git w) /\ wclaimed w1 /\ knows (mw_queue w1) c /\ forall c1, r = Ok c1 -> mc_identity c1 = mc_identity c) w).
  2:{ case_bool_decide; [|split_and!; [done..|by intros c1 [= <-]]].
      apply wp_on_queue, wp_intro. intros r s' Hr. split_and!; [done| | |].
      - refine (wp_run (on_queue (advance _ _ _ _ _ _ _)) (fun _ w' => wclaimed w') w r _ _ _); [|unfold on_queue; by rewrite Hr].
        apply claimed_keeps; [|done]. intros claims' ops'. apply wframed_queue, advance_framed.
      - destruct Hw as [_ (cl & Hfr & _)]. pose proof (knows_emits _ _ c (advance_emits (at_ctx1 a) claim StatusMergeCheck StatusTargetedVerify [] ""
          (at_clock a 2) _ (proj1 Hfr)) Hk) as H'. by rewrite Hr in H'.
      - intros c1 ->. apply advance_same in Hr; [congruence|]. by eapply knows_same. }
  intros H. eapply wp_mono; [exact H|]. clear H. intros [c1|e] w1 (Ha & Hw1 & Hk1 & Hc1); [|by apply after_same]. specialize (Hc1 _ eq_refl). apply wp_bind.
  unfold wp, on_verifier. rewrite <- Ha. destruct (verification verify _ _ _) as [[result verifyErr] [artifacts g]] eqn:Hver. simpl.
  match goal with |- ?Q (?f ?w2).2 => change (wp f (fun _ w' => Q w') w2); set (w0 := w2) end.
  assert (wclaimed w0) as Hw0 by exact Hw1. assert (knows (mw_queue w0) c) as Hk0 by exact Hk1. apply wp_get. unfold trusted. destruct (forallb _ _) eqn:Hread.
  - destruct verifyErr as [e|]; [by apply refuted_after|]. destruct (vr_Passed result) eqn:Hpass; [|by apply refuted_after].
    rewrite (bool_decide_eq_false_2 (None <> None)) by (intros Hn; by apply Hn). simpl.
    destruct (bool_decide_reflect (vr_EvidenceRefs result = [])) as [Hev|Hev]; [by apply refuted_after|]. eapply wp_mono; [by apply verified_after|].
    intros r w2. apply after_mono. intros k v (-> & g' & Hg). exists c1, result, artifacts, g, g'. split_and!; try done.
    apply Forall_forall. intros ref Href. eapply forallb_forall in Hread; [exact Hread|]. by apply list_elem_of_In.
  - by apply refuted_after.
Qed.

Lemma prepared_after a claim prepared w : wclaimed w -> knows (mw_queue w) c -> holds claim c token ->
  wp (mergePrepared a claim prepared) (fun _ w' => ops_after (verified_as a (mw_artifacts w, mw_git w) prepared) (mw_queue w') /\
    (at_ctx1 a = None -> ms_repoClaims (mw_queue w') = m)) w.
Proof.
  intros Hw Hk Hh. destruct (RenewClaim (at_ctx1 a) claim (at_clock a 1) (mw_queue w)) as [r s'] eqn:Hr.
  destruct (RenewClaim_claimed _ _ _ _ _ _ Hk Hw Hh Hr) as (Hk' & Hw' & Hcl & Hok). unfold wp.
  assert (mergePrepared a claim prepared w = match r with
    | Ok cl => releasing cl (deferring (on_git (mb_Cleanup backend prepared)) (mergeRenewed a cl prepared)) (mkMergeWorld s' (mw_log w) (mw_artifacts w) (mw_git w))
    | Err e => releasing zeroClaim (deferring (on_git (mb_Cleanup backend prepared)) (throw e)) (mkMergeWorld s' (mw_log w) (mw_artifacts w) (mw_git w))
    end) as ->.
  { unfold Reconciler.mergePrepared, on_queue at 1. rewrite Hr. by destruct r. }
  destruct r as [cl|e].
  - assert (wp (deferring (on_git (mb_Cleanup backend prepared)) (mergeRenewed a cl prepared)) (fun _ w' => after (verified_as a (mw_artifacts w, mw_git w) prepared) w')
      (mkMergeWorld s' (mw_log w) (mw_artifacts w) (mw_git w))) as Hwp.
    { apply cleaning_after. by apply (renewed_after _ _ _ (mkMergeWorld s' (mw_log w) (mw_artifacts w) (mw_git w))); [..|apply Hcl]. }
    destruct (releasing_after _ cl _ _ Hwp) as [Ho Hc]. split; [done|]. intros _. by apply Hc, Hcl.
  - assert (wp (deferring (on_git (mb_Cleanup backend prepared)) (@throw _ _ (option Candidate) e))
      (fun _ w' => after (verified_as a (mw_artifacts w, mw_git w) prepared) w') (mkMergeWorld s' (mw_log w) (mw_artifacts w) (mw_git w))) as Hwp.
    { apply cleaning_after, wp_throw. by apply after_same. }
    destruct (releasing_after _ zeroClaim _ _ Hwp) as [Ho _]. split; [exact Ho|]. by intros ?%Hok.
Qed.

Definition authorized_as (a : Attempt) (x : ArtifactRegistry S * G) (candidate : Candidate) (k v : string) : Prop :=
  exists binding prepared g', workspaces (at_ctx a) (mc_WorkspaceRef candidate) = Ok binding /\ validateWorkspace candidate binding = Ok tt /\
    mb_Prepare backend (at_ctx a) candidate binding x.2 = (Ok prepared, g') /\ verified_as a (x.1, g') prepared k v.

Lemma refused_after auth ctx clock claim candidate from reason cause extra w : wclaimed w -> holds claim c token ->
  wp (releasing claim (failed ← fail ctx clock claim candidate from reason cause extra; mret (Some failed)))
    (fun _ w' => ops_after auth (mw_queue w') /\ ms_repoClaims (mw_queue w') = m) w.
Proof.
  intros Hw Hh. eapply wp_mono; [apply (releasing_after auth)|].
  - eapply wp_mono; [apply claimed_keeps; [intros; apply failed_framed|exact Hw]|]. intros r w' Hw'. by apply after_same.
  - intros r w' [Ho Hc]. split; [done|by apply Hc].
Qed.

Lemma claimed_after a claim w : wclaimed w -> knows (mw_queue w) c -> holds claim c token ->
  wp (mergeClaimed a claim) (fun _ w' => ops_after (authorized_as a (mw_artifacts w, mw_git w) (cl_Candidate claim)) (mw_queue w') /\
    (at_ctx1 a = None -> ms_repoClaims (mw_queue w') = m)) w.
Proof.
  intros Hw Hk Hh. unfold Reconciler.mergeClaimed. destruct (workspaces _ _) as [binding|e] eqn:Hws.
  2:{ eapply wp_mono; [by apply refused_after|]. by intros r w' [Ho Hc]. }
  destruct (validateWorkspace _ _) as [[]|e] eqn:Hval. 2:{ eapply wp_mono; [by apply refused_after|]. by intros r w' [Ho Hc]. }
  unfold wp. cbv zeta.
  destruct (mb_Prepare backend (at_ctx a) (cl_Candidate claim) binding (mw_git w)) as [r g] eqn:Hp.
  assert (on_git (mb_Prepare backend (at_ctx a) (cl_Candidate claim) binding) w = (r, mkMergeWorld (mw_queue w) (mw_log w) (mw_artifacts w) g)) as ->.
  { unfold on_git. by rewrite Hp. }
  destruct r as [prepared|e].
  - pose proof (prepared_after a claim prepared (mkMergeWorld (mw_queue w) (mw_log w) (mw_artifacts w) g) Hw Hk Hh) as [Ho Hc]. split; [|done].
    intros k v [?|Hv]%Ho; [by left|]. right. by exists binding, prepared, g.
  - destruct (refused_after (authorized_as a (mw_artifacts w, mw_git w) (cl_Candidate claim)) (at_ctx1 a) (at_clock a) claim (cl_Candidate claim)
      (mc_Status (cl_Candidate claim)) (failureReason e FailureConflict) e [] (mkMergeWorld (mw_queue w) (mw_log w) (mw_artifacts w) g) Hw Hh)
      as [Ho Hc]. by split.
Qed.

End one.

(** Claiming adds the claim of one candidate. *)
Lemma ClaimNext_claimed ctx repository now m ops s claim s' : framed m ops s ->
  ClaimNext fs ctx repository now s = (Ok (Some claim), s') ->
  claimed m (cl_Candidate claim) (cl_Token claim) ops s' /\ knows s' (cl_Candidate claim).
Proof.
  intros [Hq [Hm Hops]] Hr. split; [|by eapply ClaimNext_knows].
  assert (queue_inv s') as Hq'.
  { pose proof (queue_events_inv _ _ (ClaimNext_emits fs ctx repository now s Hq) Hq) as H. by rewrite Hr in H. }
  assert (m !! mc_TargetRepository (cl_Candidate claim) = None /\ frame (<[mc_TargetRepository (cl_Candidate claim) := claim]> m) ops s') as [Hfree Hf].
  { refine (wp_run (ClaimNext fs ctx repository now) (fun r s' => forall cl, r = Ok (Some cl) -> m !! mc_TargetRepository (cl_Candidate cl) = None /\
      frame (<[mc_TargetRepository (cl_Candidate cl) := cl]> m) ops s') s _ _ _ Hr _ eq_refl).
    do 2 (apply wp_guard; [done|intros ? _]). apply wp_get. destruct (activeOperationLocked s _); [done|].
    destruct (ms_repoClaims s !! _) eqn:Hfree; [done|]. destruct (sort_slice _ _) as [|c rest] eqn:Hsort; [done|].
    destruct (queue_head s _ c rest Hsort) as ((Hrep & _)%claimable_true & _). subst m. case_bool_decide.
    - apply wp_modify, wp_modify. intros cl [= <-]. simpl. rewrite Hrep. by split; [|constructor].
    - apply wp_modify. intros cl [= <-]. simpl. rewrite Hrep. by split; [|constructor]. }
  constructor; [done|]. by exists claim.
Qed.

(** What is claimed is stored. *)
Lemma ClaimNext_known ctx repository now s claim s' : queue_inv s -> ClaimNext fs ctx repository now s = (Ok (Some claim), s') -> knows s (cl_Candidate claim).
Proof.
  intros Hq Hr. refine (wp_run (ClaimNext fs ctx repository now) (fun r _ => forall cl, r = Ok (Some cl) -> knows s (cl_Candidate cl)) s _ _ _ Hr _ eq_refl).
  do 2 (apply wp_guard; [done|intros ? _]). apply wp_get. destruct (activeOperationLocked s _); [done|]. destruct (ms_repoClaims s !! _); [done|].
  destruct (sort_slice _ _) as [|c rest] eqn:Hsort; [done|]. destruct (queue_head s _ c rest Hsort) as (_ & [k Hc] & _).
  pose proof (co_id _ _ (qi_candidates _ Hq _ _ Hc)) as Hid. case_bool_decide; [apply wp_modify|]; apply wp_modify; intros cl [= <-]; exists c; simpl; by rewrite Hid.
Qed.

Lemma ClaimNext_unclaimed ctx repository now s r s' : ClaimNext fs ctx repository now s = (r, s') -> (forall claim, r <> Ok (Some claim)) -> s' = s.
Proof.
  intros Hr Hne. refine (wp_run (ClaimNext fs ctx repository now) (fun r s' => (forall claim, r <> Ok (Some claim)) -> s' = s) s _ _ _ Hr Hne).
  do 2 (apply wp_guard; [done|intros ? _]). apply wp_get. destruct (activeOperationLocked s _); [done|].
  destruct (ms_repoClaims s !! _); [done|]. destruct (sort_slice _ _) as [|c rest]; [done|]. case_bool_decide.
  - apply wp_modify, wp_modify. intros Hn. by edestruct Hn.
  - apply wp_modify. intros Hn. by edestruct Hn.
Qed.

Lemma recover_none ctx clock repository (w : World G S) :
  wp (recoverPendingMergeOperation fs backend hashBytes encodeRequest encodePayloadMap ctx clock repository)
    (fun r w' => r = Ok None -> w' = w) w.
Proof.
  apply wp_bind, wp_on_queue. do 2 (apply wp_guard; [done|intros ? _]). apply wp_get, wp_ret.
  destruct (activeOperationLocked _ _) as [op|]; [|by destruct w]. set (w1 := mkMergeWorld _ _ _ _). clearbody w1.
  apply wp_bind, wp_intro. intros [c|e] w2 _; [|done]. case_bool_decide; [done|]. apply wp_bind, wp_intro. intros [[]|e] w3 _; [| |done]; simpl.
  - apply wp_bind, wp_intro. intros [merged|e] w4 _; [|done]. apply wp_bind, wp_intro. by intros [u|e] w5 _.
  - apply wp_bind, wp_intro. by intros [u|e] w4 _.
Qed.

(** Every operation of the queue after a call was there, or is authorized. *)
Lemma ReconcileOne_claims m ops a repository w : framed m ops (mw_queue w) ->
  wp (ReconcileOne a repository) (fun _ w' => ops_after ops (fun k v => exists c, knows (mw_queue w) c /\ authorized_as c a (mw_artifacts w, mw_git w) c k v) (mw_queue w') /\
    (at_ctx1 a = None -> ms_repoClaims (mw_queue w') = m)) w.
Proof.
  intros Hw. apply wp_bind, wp_intro. intros r w1 Hrec.
  pose proof (wp_run _ _ _ _ _ (recover_framed fs backend hashBytes encodeRequest encodePayloadMap m ops _ _ _ _ Hw) Hrec) as Hw1.
  assert (forall w1 : World G S, wframed m ops w1 -> ops_after ops (fun k v => exists c, knows (mw_queue w) c /\ authorized_as c a (mw_artifacts w, mw_git w) c k v) (mw_queue w1) /\
    (at_ctx1 a = None -> ms_repoClaims (mw_queue w1) = m)) as Hsame.
  { intros w2 [_ [Hm Hops]]. split; [|done]. intros k v. rewrite Hops. by left. }
  destruct r as [[c|]|e]; [by apply Hsame| |by apply Hsame]. pose proof (wp_run _ _ _ _ _ (recover_none _ _ _ w) Hrec eq_refl) as ->.
  apply wp_bind, wp_on_queue, wp_intro. intros r s' Hr. destruct r as [[claim|]|e].
  2,3: apply Hsame; unfold wframed; simpl; by rewrite (ClaimNext_unclaimed _ _ _ _ _ _ Hr).
  destruct (ClaimNext_claimed _ _ _ _ _ _ _ _ Hw1 Hr) as [Hcd Hk].
  eapply wp_mono; [by apply (claimed_after m (cl_Candidate claim) (cl_Token claim) ops)|]. intros r w2 [Ho Hc]. split; [|done].
  intros k v [?|?]%Ho; [by left|]. right. exists (cl_Candidate claim). split; [|done]. eapply ClaimNext_known; [apply Hw|exact Hr].
Qed.

End with_runtime.
