(* ===== verification/ReconcilerProps.v ===== *)
(** * Properties of the reconciler *)

From stdpp Require Import base tactics option list strings gmap sorting relations.
From Stdlib Require Import ZArith Ascii.
From S2P Require Import Prelude GoLib GoStrings Kernel CoordTypes WsModel MergeQueue MergeQueueSpec GitMerge.
From S2P Require Import ObjStore EvLog EvProps EvArtifacts Hoare Reconciler ReconcilerInv ReconcilerClaim.
From S2P Require Import GitMergeProps QueueProps.

Section with_runtime.
Context `{GR : GoRuntime} {G S : Type}.
Context (fs : HostFS) (backend : MergeBackend G) (store : Store S).
Context (hashBytes ToLower : string -> string) (encodeRequest : EventRequest -> string).
Context (encodePayloadMap : gmap string string -> string).
Context (workspaces : Context -> BindingRef -> res Binding).
Context (verify : TargetedVerifyRequest -> ArtifactRegistry S * G -> (TargetedVerifyResult * option error) * (ArtifactRegistry S * G)).
Context (in_branch : G -> string -> string -> string -> Prop).

Local Abbreviation ReconcileOne := (ReconcileOne fs backend store hashBytes ToLower encodeRequest encodePayloadMap workspaces verify).
Local Abbreviation Enqueue := (Enqueue fs hashBytes encodeRequest encodePayloadMap).

(** The calls of the reconciler, with what else happens to the log, the artifacts
    and the repositories between them. *)
Inductive rec_step (w : World G S) : World G S -> Prop :=
| rs_enqueue ctx clock req : rec_step w (Enqueue ctx clock req w).2
| rs_reconcile a repository : rec_step w (ReconcileOne a repository w).2
| rs_append ctx req now :
    rec_step w (mkMergeWorld (mw_queue w) (Append hashBytes encodeRequest ctx req now (mw_log w)).2 (mw_artifacts w) (mw_git w))
| rs_artifacts r : rec_step w (mkMergeWorld (mw_queue w) (mw_log w) r (mw_git w))
| rs_git g : (forall r b v, in_branch (mw_git w) r b v -> in_branch g r b v) ->
    rec_step w (mkMergeWorld (mw_queue w) (mw_log w) (mw_artifacts w) g).

Definition rec_start (n : Z) (artifacts : ArtifactRegistry S) (g : G) : World G S :=
  mkMergeWorld NewMergeStore (NewEventLog n) artifacts g.

Local Abbreviation winv := (winv hashBytes encodeRequest encodePayloadMap in_branch).

Lemma rec_start_winv n artifacts g : winv (rec_start n artifacts g).
Proof. split; [|apply log_inv_new]. split; [apply queue_inv_new|apply facts_new]. Qed.

Lemma rec_steps_winv w w' : MergeLaws backend in_branch -> (forall req x r b v, in_branch x.2 r b v -> in_branch (verify req x).2.2 r b v) -> rtc rec_step w w' -> winv w -> winv w'.
Proof.
  intros ML Hver. induction 1 as [|w w1 w2 Hstep _ IH]; [done|]. intros Hw. apply IH. destruct Hstep as [ctx clock req|a repository|ctx req now|r|g Hg].
  - by apply Enqueue_winv.
  - by apply ReconcileOne_winv.
  - pose proof (wp_append hashBytes encodeRequest encodePayloadMap in_branch ctx req now w (fun _ w' => winv w') Hw) as H.
    assert (wp (on_log (Append hashBytes encodeRequest ctx req now)) (fun _ w' => winv w') w) as Hwp by (apply H; by intros).
    unfold wp, on_log in Hwp. by destruct (Append _ _ _ _ _ _).
  - destruct Hw as [Hs Hl]. by split.
  - by apply winv_git.
Qed.

(** C26: A merge operation begins only for an authorized candidate.  Every operation of
    the queue after a reconciliation was there with the revision it expects, or it is
    the operation of a candidate that the queue had, whose workspace was sealed with its
    revisions and writes within the allowed directories; the merge was prepared for this
    candidate and workspace from the repositories as they were, it passed verification
    with evidence that is then readable in the scope of its task, and the operation
    expects exactly the commit that was created from the prepared merge as the verifier
    left it. *)
Theorem operations_authorized a repository w k o :
  queue_inv (mw_queue w) -> ms_operations (mw_queue (ReconcileOne a repository w).2) !! k = Some o ->
  (exists o0, ms_operations (mw_queue w) !! k = Some o0 /\ op_ExpectedMergedRevision o0 = op_ExpectedMergedRevision o) \/
  exists stored candidate binding prepared verified result g artifacts g1 g2,
    k = "memory:" +:+ mc_ID candidate /\ ms_candidates (mw_queue w) !! mc_ID candidate = Some stored /\ mc_identity stored = mc_identity candidate /\
    workspaces (at_ctx a) (mc_WorkspaceRef candidate) = Ok binding /\ validateWorkspace candidate binding = Ok tt /\
    mb_Prepare backend (at_ctx a) candidate binding (mw_git w) = (Ok prepared, g) /\ mc_identity verified = mc_identity candidate /\
    verification verify verified prepared (mw_artifacts w, g) = ((result, None), (artifacts, g1)) /\ vr_Passed result = true /\ vr_EvidenceRefs result <> [] /\
    Forall (fun ref => CanRead artifacts (mkEvPrincipal EvRoleTaskManager (mc_ProjectID verified) (mc_TaskID verified)) ref = true)
      (vr_EvidenceRefs result) /\
    mb_CreateMergeCommit backend (at_verifyCtx a) prepared verified g1 = (Ok (op_ExpectedMergedRevision o), g2).
Proof.
  intros Hq Ho. destruct (ReconcileOne_claims fs backend store hashBytes ToLower encodeRequest encodePayloadMap workspaces verify
    (ms_repoClaims (mw_queue w)) _ a repository w (conj Hq (Build_frame _ _ _ eq_refl eq_refl))) as [Hops _].
  destruct (Hops k (op_ExpectedMergedRevision o)) as [Hold|(c & (stored & Hc & Hi) & binding & prepared & g & Hws & Hval & Hprep & Hver)].
  - by rewrite lookup_fmap, Ho.
  - left. rewrite lookup_fmap in Hold. apply fmap_Some in Hold as (o0 & Ho0 & ->). by exists o0.
  - right. destruct Hver as (verified & result & artifacts & g1 & g2 & ? & ? & ? & ? & ? & ? & ?).
    by exists stored, c, binding, prepared, verified, result, g, artifacts, g1, g2.
Qed.

(** C37: The repository is free again.  A reconciliation whose context is not
    cancelled before the claim is renewed leaves the claims as they were, whatever
    the backend, the verifier and the queue answered. *)
Theorem claim_released a repository w :
  queue_inv (mw_queue w) -> at_ctx1 a = None ->
  ms_repoClaims (mw_queue (ReconcileOne a repository w).2) = ms_repoClaims (mw_queue w).
Proof.
  intros Hq Hctx. by destruct (ReconcileOne_claims fs backend store hashBytes ToLower encodeRequest encodePayloadMap workspaces verify
    (ms_repoClaims (mw_queue w)) _ a repository w (conj Hq (Build_frame _ _ _ eq_refl eq_refl))) as [_ Hc]; apply Hc.
Qed.

End with_runtime.

(** ** Over git *)

Section over_git.
Context `{GR : GoRuntime} {G S : Type}.
Context (fs : HostFS) (host : GitHost G) (TempParent : string) (store : Store S).
Context (hashBytes ToLower : string -> string) (encodeRequest : EventRequest -> string).
Context (encodePayloadMap : gmap string string -> string).
Context (workspaces : Context -> BindingRef -> res Binding).
Context (verify : TargetedVerifyRequest -> ArtifactRegistry S * G -> (TargetedVerifyResult * option error) * (ArtifactRegistry S * G)).

Local Abbreviation git_step := (rec_step fs (git_backend host hashBytes TempParent) store hashBytes ToLower encodeRequest encodePayloadMap workspaces verify).

(** C25: What the queue reports as merged is in the branch.  After any sequence of
    enqueue and reconcile calls with arbitrary cancellation, renewal and push
    outcomes, with the log, the artifacts and the repositories used by others in
    between, every merged candidate's commit is known and is in the target
    branch of its repository.  It is relied on that the commands of the backend behave
    as git documents them, that the target repositories are bare, and that neither the
    verifier nor the others take a commit off a branch. *)
Theorem merged_in_branch scratch in_branch n artifacts g w k c :
  GitLaws host TempParent scratch in_branch -> (forall req x r b v, in_branch x.2 r b v -> in_branch (verify req x).2.2 r b v) ->
  rtc (git_step in_branch) (rec_start n artifacts g) w ->
  ms_candidates (mw_queue w) !! k = Some c -> mc_Status c = StatusMerged ->
  in_branch (mw_git w) (mc_TargetRepository c) (branchOf (mc_TargetBranch c)) (mc_MergedRevision c) /\ TrimSpace (mc_MergedRevision c) <> "".
Proof.
  intros GL Hver Hsteps Hc Hst.
  pose proof (rec_steps_winv _ _ _ _ _ _ _ _ _ _ _ _ (git_merge_laws host hashBytes TempParent scratch in_branch) Hver Hsteps
    (rec_start_winv _ _ _ _ n artifacts g)) as [[Hq Hf] _]. split.
  - by eapply sd_merged.
  - by apply (co_merged _ _ (qi_candidates _ Hq _ _ Hc)).
Qed.

Lemma any_branch_laws : MergeLaws (git_backend host hashBytes TempParent) (fun _ _ _ _ => True).
Proof. constructor; try done. intros ctx c b g p g' (? & ? & _)%prepare_scoped. done. Qed.

(** An audit marked delivered is in the event log.  Whatever git, the verifier
    and other users of the log do, the log has an event under the audit's key,
    appended with exactly the audit's content; an audit of the queue that is not
    marked is still in the delivery order. *)
Theorem delivered_audits_logged n artifacts g w k a :
  rtc (git_step (fun _ _ _ _ => True)) (rec_start n artifacts g) w ->
  ms_audits (mw_queue w) !! k = Some a ->
  k ∈ ms_auditOrder (mw_queue w) /\ (au_Delivered a = true -> exists e, e ∈ el_events (mw_log w) /\ ev_StableKey e = k /\
    el_byStableKey (mw_log w) !! k = Some (mkStableEvent e (canonicalEventRequestHash hashBytes encodeRequest
      (auditEvent encodePayloadMap a) (encodePayloadMap (au_Payload a))))).
Proof.
  intros Hsteps Ha.
  pose proof (rec_steps_winv _ _ _ _ _ _ _ _ _ _ _ _ any_branch_laws ltac:(done) Hsteps (rec_start_winv _ _ _ _ n artifacts g)) as [[Hq Hf] Hl]. split.
  - apply (qi_audits _ Hq). by eexists.
  - destruct (sd_delivered _ _ _ Hf _ _ Ha) as [<- Hlog]. intros [e He]%Hlog. destruct (li_keys _ Hl _ _ He) as [Hin Hk]. by exists e.
Qed.

End over_git.

(** ** Witnesses

    The git that records its commands. *)

#[local] Existing Instance GoRuntime_list.

(** A branch has its first commit and what was pushed to it. *)
Definition pushed (g : commands) (r b v : string) : Prop :=
  v = "main1" \/ exists dir, (dir, ["push"; "--porcelain"; r; (v +:+ ":" +:+ headRef b)%string]) ∈ g.

Lemma recording_pushed ctx dir args (g : commands) r b v : pushed g r b v -> pushed (gh_combined recording_host ctx dir args g).2 r b v.
Proof. simpl. destruct (GitMergeProps.refused args); [done|]. intros [->|[d Hd]]; [by left|]. right. exists d. by right. Qed.

Lemma recording_laws : GitLaws recording_host "" (fun _ => True) pushed.
Proof.
  constructor; try done.
  - intros ctx r b v g g' H. left. injection H as <- _. reflexivity.
  - intros ctx dir r b v g g' _ [= <-]. right. exists dir. left.
  - intros ctx dir args g r b v _. apply recording_pushed.
Qed.

Definition diff_request : RegisterArtifact := mkRegister ArtifactDiffPatch "p1" "diff.txt" "text/plain" "diff" "t1" "i1".
Definition task_artifacts : ArtifactRegistry MemObjects :=
  (Register (memoryStore ev_hash) ev_hash (fun s => s) None diff_request 8 ev_registered.2).2.
Definition verify_ref : string := artifactID ev_hash ArtifactTestOutput (ev_hash "ok").
Definition diff_ref : string := artifactID ev_hash ArtifactDiffPatch (ev_hash "diff").

Definition sealed_binding : Binding :=
  mkBinding "ws1" 3 "t1" 1 "worktree" "/work/ws1" "b1" "" [] revision_a revision_a ["src"] (mkWriteSet ["src/a.go"] [] [] [] [] []) (mkWriteSet ["src/a.go"] [] [] [] [] [])
    {["execute" := "i1"]} "" "" StatusSealed "/repo" "".

Definition merge_request : EnqueueRequest :=
  mkEnqueue "c1" "p1" "t1" "ws1" verify_ref diff_ref "/repo" "" revision_a revision_a revision_a [].

Definition passing (_ : TargetedVerifyRequest) (x : ArtifactRegistry MemObjects * commands) := ((mkVerifyResult true [verify_ref], @None error), x).

Definition recorded_backend : MergeBackend commands := git_backend recording_host ev_hash "".

Definition recorded_world := rec_start (G := commands) 0 task_artifacts [].
Definition recorded_reconcile := ReconcileOne plain recorded_backend (memoryStore ev_hash) ev_hash (fun s => s) (fun _ => "r") (fun _ => "{}")
  (fun _ _ => Ok sealed_binding) passing.
Definition recorded_step := rec_step plain recorded_backend (memoryStore ev_hash) ev_hash (fun s => s) (fun _ => "r") (fun _ => "{}")
  (fun _ _ => Ok sealed_binding) passing.

Definition quiet_attempt (ticks : list Time) : Attempt :=
  mkAttempt None None None None None (fun n => 100 + Z.of_nat n)%Z ticks "op-token".

Definition enqueued_world := (Enqueue plain ev_hash (fun _ => "r") (fun _ => "{}") None (fun n => 50 + Z.of_nat n)%Z merge_request recorded_world).2.
Definition merged_world := (recorded_reconcile (quiet_attempt [110; 120]%Z) "/repo" enqueued_world).2.

Lemma merged_world_reachable in_branch : rtc (recorded_step in_branch) recorded_world merged_world.
Proof.
  eapply rtc_l; [apply (rs_enqueue _ _ _ _ _ _ _ _ _ _ _ None (fun n => 50 + Z.of_nat n)%Z merge_request)|].
  apply rtc_once. apply (rs_reconcile _ _ _ _ _ _ _ _ _ _ _ (quiet_attempt [110; 120]%Z) "/repo").
Qed.

Definition merged_candidate : Candidate :=
  match ms_candidates (mw_queue merged_world) !! "c1" with Some c => c | None => zeroCandidate end.

Lemma merged_in_branch_witness : pushed (mw_git merged_world) "/repo" "main" "merge1".
Proof.
  apply (merged_in_branch plain recording_host "" (memoryStore ev_hash) ev_hash (fun s => s) (fun _ => "r") (fun _ => "{}")
    (fun _ _ => Ok sealed_binding) passing (fun _ => True) pushed 0 task_artifacts [] merged_world "c1" merged_candidate).
  - exact recording_laws.
  - intros req x r b v Hin. exact Hin.
  - exact (merged_world_reachable pushed).
  - vm_compute. reflexivity.
  - vm_compute. reflexivity.
Defined.

Definition merged_key : string := "merge-candidate:c1:merged".
Definition merged_audit : option auditRecord := ms_audits (mw_queue merged_world) !! merged_key.

Lemma delivered_audits_logged_witness : exists a e, merged_audit = Some a /\ e ∈ el_events (mw_log merged_world) /\ ev_StableKey e = merged_key.
Proof.
  destruct merged_audit as [a|] eqn:Ha; [|vm_compute in Ha; discriminate Ha].
  destruct (delivered_audits_logged plain recording_host "" (memoryStore ev_hash) ev_hash (fun s => s) (fun _ => "r") (fun _ => "{}")
    (fun _ _ => Ok sealed_binding) passing 0 task_artifacts [] merged_world
    merged_key a (merged_world_reachable _) Ha) as [_ Hlog].
  destruct Hlog as (e & Hin & Hk & _); [vm_compute in Ha; injection Ha as <-; reflexivity|].
  exists a, e. split; [reflexivity|]. split; [exact Hin|exact Hk].
Defined.

Lemma enqueued_queue_inv : queue_inv (mw_queue enqueued_world).
Proof.
  assert (rtc (recorded_step (fun _ _ _ _ => True)) recorded_world enqueued_world) as H by (apply rtc_once, rs_enqueue).
  by destruct (rec_steps_winv _ _ _ _ _ _ _ _ _ _ _ _ (any_branch_laws recording_host "" ev_hash) ltac:(done) H (rec_start_winv _ _ _ _ _ _ _)) as [[Hq _] _].
Qed.

Lemma operations_authorized_witness :
  exists o candidate binding, ms_operations (mw_queue merged_world) !! "memory:c1" = Some o /\ op_ExpectedMergedRevision o = "merge1" /\
    "memory:c1" = ("memory:" +:+ mc_ID candidate)%string /\ validateWorkspace candidate binding = Ok tt.
Proof.
  destruct (ms_operations (mw_queue merged_world) !! "memory:c1") as [o|] eqn:Ho; [|vm_compute in Ho; discriminate Ho].
  destruct (operations_authorized plain recorded_backend (memoryStore ev_hash) ev_hash (fun s => s) (fun _ => "r") (fun _ => "{}")
    (fun _ _ => Ok sealed_binding) passing (quiet_attempt [110; 120]%Z) "/repo" enqueued_world
    "memory:c1" o enqueued_queue_inv Ho) as [(o0 & H & _)|(stored & c & binding & prepared & verified & result & g & artifacts & g1 & g2 & Hk & _ & _ & _ & Hval & _)].
  - vm_compute in H. discriminate H.
  - exists o, c, binding. split; [reflexivity|]. split; [vm_compute in Ho; injection Ho as <-; reflexivity|]. split; [exact Hk|exact Hval].
Defined.

Lemma claim_released_witness : ms_repoClaims (mw_queue merged_world) = ∅.
Proof.
  transitivity (ms_repoClaims (mw_queue enqueued_world)); [|vm_compute; reflexivity].
  apply (claim_released plain recorded_backend (memoryStore ev_hash) ev_hash (fun s => s) (fun _ => "r") (fun _ => "{}")
    (fun _ _ => Ok sealed_binding) passing (quiet_attempt [110; 120]%Z) "/repo" enqueued_world).
  - exact enqueued_queue_inv.
  - reflexivity.
Defined.
